(* ===== verification/_CoqProject ===== *)
-Q . S2P
Prelude.v
ZipRecords.v
ZipDirectory.v
ZipEnd.v
CString.v
A2x.v
HttpRange.v
HttpSplit.v
OucUri.v
OucHash.v
KeyTable.v
FileLock.v
AccCaps.v
AccEntity.v
AccGroups.v
AccAccess.v
AccAuthFile.v
AccConfig.v
BwmPolicy.v
CrcRegister.v
OucCRC.v
OucCRC32C.v
CsiCrc.v
CsiStore.v
CsiTagFile.v
CsiPages.v
CsiFile.v
CsiTags.v
CsiWrite.v
CsiUpdate.v
CsiFetch.v
CsiRead.v
CsiOpen.v
CsiRanges.v
PgrwUtils.v
LinkData.v
PgwCtl.v
PgWire.v
PgWrite.v
PgServe.v
PgClient.v
PgSession.v
PgSend.v
PgRead.v
PgReader.v
PgReceive.v
CmsPList.v
CmsRRQ.v
CmsKey.v
CmsCache.v
CmsLocate.v
FrcReqFile.v
FrcReqList.v
