(* ===== verification/Prelude.v ===== *)
(** * XRootD: a verification library of core components

    XRootD is a framework of storage servers and a client: protocol front ends
    (xroot, HTTP), authorization, cluster management, storage back ends, and the
    client with its ZIP archives. This library models parts of it that carry
    their own logic - record formats, parsers, tables, state machines and the
    access decision - as executable definitions translated from the sources, and
    proves the properties that make them correct. Paths below are under src/src/.

    ** The files

    - [Prelude] (this file): the outcome type [res] of a routine - it returns,
      throws bad_data, does something undefined ([Fault]: a read outside of a
      block or of memory never set, a null or dangling pointer), or runs out of
      fuel - with its monad;
      integers of a given width as [Z] with the wrap-around written out; byte
      buffers and the lemmas about reading and writing them.
    - [ZipRecords], [ZipDirectory], [ZipEnd]: XrdZip/*.hh and the two routines of
      XrdCl/XrdClZipArchive.cc that write and read a directory ([GetCD],
      [SetCD]). A class is a record, a constructor from a buffer is [X_parse],
      one from values [X_new], [Serialize] appends to a buffer. The round trips
      say that what is written is what is read, for one record and for a whole
      archive directory with ZIP64 records; bounds theorems say when the parsers
      stay in their buffer, and error theorems where they do not.
    - [CString], [A2x]: C strings, [strtol], [strtok_r], [trim], [splitString],
      and the conversions of XrdOuc/XrdOuca2x.cc with their [int] narrowing.
    - [HttpRange], [HttpSplit]: XrdHttp/XrdHttpReadRangeHandler.{hh,cc}. The
      handler object is [RangeHandler]; every method is a function on it.
      [HttpRange] has parsing and resolution against the file size, [HttpSplit]
      the read lists and the accounting of what arrives. The main theorem is
      about every sequence of lists and notifications: the bytes delivered are
      the requested ones in order, and reads are handed out until all are.
    - [OucUri]: XrdOuc/XrdOucUri.cc, percent encoding.
    - [OucHash]: XrdOuc/XrdOucHash.{hh,icc} and XrdOucHashVal.cc. The table is an
      array of chains; [items] is the finite map it stands for, [hash_wf] its
      invariant, and every operation's theorem is about that map.
    - [KeyTable]: the contract a client of the table relies on, as a class, with
      the table as its instance. The clients [FileLock], [AccAccess] and
      [AccConfig] are proved against the class.
    - [FileLock]: XrdXrootd/XrdXrootdFileLock1.cc, with the lock objects in a
      heap. It refines an abstract map from paths to readers and writers, and
      without force the lock is exclusive in every reachable state.
    - [AccCaps], [AccEntity], [AccGroups], [AccAccess]: XrdAcc, the access
      decision: privilege masks and capability chains (XrdAccCapability.cc), the
      attributes of an entity (XrdAccEntity.cc over XrdOucTokenizer.cc), groups
      and their caches (XrdAccGroups.cc), and [Access] with its tables
      (XrdAccAccess.cc, XrdAccAudit.cc). [Access_decides] states what the
      decision is as a declarative set of governing rules.
    - [AccAuthFile], [AccConfig]: the data base of rules. [AuthDB] is the
      interface XrdAccAuthDB.hh, instantiated by XrdAccAuthFile.cc over the words
      of XrdOucStream.cc; [AccConfig] loads it (XrdAccConfig.cc: [ConfigDB],
      [ConfigDBrec], [idDef], [idChk]). Loading establishes the invariant under
      which [Access_decides] holds.
    - [BwmPolicy]: XrdBwm/XrdBwmPolicy1.{hh,cc}, the queues of the bandwidth
      policy with the requests in a heap. A theorem states what the linking of
      the queues does to releasing requests.
    - [CrcRegister], [OucCRC], [OucCRC32C]: the one-bit shift register of a
      polynomial, the reference for the checksums; XrdOuc/XrdOucCRC.cc, the CRC-32 by
      table, and the bursts of errors it detects; XrdOuc/XrdOucCRC32C.cc, the CRC-32C
      with instructions on three blocks at once and by tables for both byte orders,
      and the combination of two checksums, all by the same register.
    - [CsiCrc]: the routines of XrdOucCRC.cc on pages, and
      XrdOssCsi/XrdOssCsiCrcUtils.hh, which derives the checksum of a part of a page
      from that of the page.
    - [CsiStore], [CsiTagFile]: XrdOssCsi. A routine that may give up returns a value
      or a negative number with the new state ([M]). A file is its bytes and a list of
      answers: each system call takes the next one, which may make it short or fail, so
      that a theorem over all lists is about all failures. [Tagstore] is the interface
      of XrdOssCsiTagstore.hh, [TagstoreLaws] what its users rely on, and
      XrdOssCsiTagstoreFile.{hh,cc} its instance, in either byte order.
    - [CsiPages], [CsiFile]: XrdOssCsiPages.{hh,cc}, XrdOssCsiPagesUnaligned.cc and the
      operations of XrdOssCsiFile.cc: which pages a write or read touches, the partial
      ones, the holes, the loose mode that repairs after a crash, truncation.
      [CsiTags], [CsiWrite], [CsiUpdate], [CsiFetch], [CsiRead] have the lemmas: what
      each routine does to the sums of the pages ([does], [gets]) and what it promises
      when anything may fail ([fetches]). [CsiOpen] has the theorems: the file
      refines an array of bytes, no read gives bytes that were not verified, a
      wrong checksum from a client is refused, and a file is opened again as it
      was closed.
    - [CsiRanges]: XrdOssCsiRanges.hh and LockTrackinglen, the locks on ranges of pages
      and on the tracked sizes. A state has the queue of ranges and the guards of
      any number of operations, a step is what one of them does under a mutex. The
      theorems say that no two operations meet on a page unless they read, that the
      sizes an operation has seen stay right for its pages, and that all of them end.
    - [PgrwUtils]: XrdOuc/XrdOucPgrwUtils.{hh,cc}, the pieces of a transfer with
      checksums, one for each page it touches, and what is computed from their offsets.
    - [LinkData], [PgwCtl], [PgWire], [PgWrite], [PgServe]: writes with checksums on
      the server. [LinkData] reads a vector of elements from a link that gives a few bytes
      at a time (XrdXrootd/XrdXrootdProtocol.cc); [PgwCtl] has the control object and
      the lists of damaged pieces (XrdXrootdPgwCtl, XrdXrootdPgwBadCS, XrdXrootdPgwFob);
      [PgWire] says what a request is on the wire; [PgWrite] has the routines of
      XrdXrootdXeqPgrw.cc and XrdXrootdXeq.cc over the state of the protocol object, with
      the file and the buffers as interfaces; [PgServe] shows that they do what
      [write_frames] says, whatever the sizes in which the data arrives.
    - [PgClient], [PgSession]: the client's side (XrdCl/XrdClFileStateHandler.cc,
      XrdClXRootDTransport.cc, XrdClXRootDMsgHandler.cc), and both together: a write
      whose pieces are damaged on the way is healed by the retries. [PgSend] is how the
      pieces go out to a socket that takes a few bytes at a time.
    - [PgRead], [PgReader], [PgReceive]: reads with checksums. [PgRead] is the server's
      do_PgRIO over an interface to the file; [PgReader] is XrdCl/XrdClAsyncPageReader.hh,
      which puts what arrives on the socket into the user's buffer and the vector of
      digests; [PgReceive] shows that it does so however a response arrives, one response
      after the other, so that a read brings the content of the file.
    - [CmsPList]: XrdCms/XrdCmsPList.{hh,cc}, the paths that nodes export, and the
      part of a login (XrdCmsProtocol.cc) that fills the list.
    - [CmsRRQ]: XrdCms/XrdCmsRRQ.{hh,cc}, the queue of requests that wait for a
      location. A run is any interleaving of the routines, the clock and the
      responder's three steps; each request is answered once, and all are after
      two turns of the clock.
    - [CmsKey], [CmsCache], [CmsLocate]: XrdCmsKey.{hh,cc} and XrdCmsNash.{hh,cc},
      the items with their clock and their hash table; XrdCmsCache.{hh,cc}, the
      cache of file locations over them; and its runs. [view] is the map of paths
      to entries the store stands for, [store_ok] and [bounce_ok] its invariant;
      every routine's theorem is about the map, and [GetFile_fresh] is about what
      is reported of nodes that went away and came back.
    - [FrcReqFile], [FrcReqList]: XrdFrc, the files in which requests to stage or
      copy files wait. A file is its header and its slots, and [rep] says which
      queue they stand for; an oracle decides which system calls fail, so a crash
      is a value. The operations refine the queue, a restart recovers what was
      saved, and no failure loses it. [FrcReqList] has the agents and the proxy
      over the files: what they compose, cancel and list.

    ** How the parts interact

    [AccConfig] fills tables of the [KeyTable] class and hands them to
    [SwapTabs] of [AccAccess], which reads them in [Access] together with the
    attributes [AccEntity] compiles and the netgroups [AccGroups] answers;
    [AccGroups] keeps its names and caches in [OucHash]. The client's archive
    ([ZipEnd]) is built from the records of [ZipRecords] and [ZipDirectory]. The
    HTTP handler uses the numbers and tokens of [CString]. The cache of locations
    hashes its paths with [OucCRC], hands its waiting requests to [CmsRRQ] and
    removes dropped nodes from the list of [CmsPList]. The proxy of [FrcReqList]
    works on the files of [FrcReqFile]. The pages of [CsiPages] use the checksums of
    [CsiCrc] and any store of the [Tagstore] class, [CsiFile] the pages and the data.
    [PgWrite] verifies the pieces of [PgrwUtils] and writes to any file of its class
    [SfsFile]; [PgSession] feeds the replies of the server to the client and the pieces
    that the client sends again to the server, [PgReceive] the replies of [PgRead] to
    the reader of [PgReader].

    ** Conventions

    A mutable object is a record passed along and returned; where two pointers
    may refer to one object (the lock objects, the identifier definitions) the
    objects are in a heap of addresses, and where the code compares pointers a
    pointer is an offset with its text. The time, and what the operating system
    or another library answers, is an argument. Routines that run under one mutex
    are one step. Destructors release memory and have no state here. Messages to
    the log are left out, except those of the audit.

    Fuel is given where the recursion is not structural, and it is always shown
    to suffice: a directory reader needs one turn per record and one more, the
    range splitter at most one turn per byte, the loops over words and tokens one
    turn per character left ([stream_left], [db_left]), the responder's loop one
    turn per ready slot, the walk over a queue one turn per slot of its file,
    a loop of reads or writes one per byte, a write with checksums one per frame and,
    while it is suspended, one per byte that is still to arrive, a read one per byte
    asked for, and the loops over a socket one per answer or per byte that is left.
    Where a loop of the code does not end, a theorem says so for an input
    ([CDFH_Parse_all_diverges]).

    ** The groups of theorems

    Round trips: ZIP records and directories, hexadecimal and percent encoding,
    the text of a Range header. Refinement: the lock table, the entity attributes,
    the access decision, the exported paths, the location cache, the request files,
    the files with page checksums, the server of writes with checksums and the path of a
    read with checksums from the file to the user's buffer against declarative
    specifications. Functional behaviour: every operation of the hash table, the resolution and splitting
    of ranges, netgroup answers and their life time, privilege strings,
    capabilities with name insertion. Invariants, safety and termination: the
    transfer of ranges, lock exclusion, parsing within the buffer, loading of any
    data base, the queue of waiting requests, the lists of the cache's items and
    the end of its entries. Bounds and errors: what failing system calls leave in a
    request file, what narrow integers, missing checks and short
    tables do.

    ** Not modelled

    The asynchronous parts (client event loops, server links, schedulers), the
    security protocols and other wrappers of external libraries, storage back
    ends that are calls of the operating system, monitoring, bindings and
    applications. Of the modelled components: floating point conversions of
    XrdOuca2x, the configuration directives of XrdAcc, the start of the threads of
    XrdCmsRRQ, the paths and messages of XrdFrc, the block-wise reading and
    the variables of XrdOucStream, the opening of files and the table of open ones in
    XrdOssCsi, and the parts of ZipArchive that drive file
    requests. *)

From stdpp Require Import base tactics list list_numbers numbers option gmap strings.

(** ** Notations, results and the error monad *)

Declare Scope xrd_scope.
Delimit Scope xrd_scope with xrd.
Open Scope Z_scope.

(** The outcome of a C++ routine: it returns, throws [XrdZip::bad_data], reads
    or dereferences memory it must not touch (undefined behaviour), or its loop
    did not finish within the fuel the model gave it. *)
Inductive res (A : Type) : Type :=
  | Ok (a : A)
  | BadData
  | Fault
  | Diverge.
Arguments Ok {A} a.
Arguments BadData {A}.
Arguments Fault {A}.
Arguments Diverge {A}.

#[export] Instance res_ret : MRet res := fun A a => Ok a.

#[export] Instance res_bind : MBind res := fun A B f m =>
  match m with
  | Ok a => f a
  | BadData => BadData
  | Fault => Fault
  | Diverge => Diverge
  end.

Open Scope xrd_scope.

(** ** Machine integers *)

Definition u8 (z : Z) : Z := z mod 2 ^ 8.
Definition u16 (z : Z) : Z := z mod 2 ^ 16.
Definition u32 (z : Z) : Z := z mod 2 ^ 32.
Definition u64 (z : Z) : Z := z mod 2 ^ 64.

(** Conversion to a 16-bit and a 32-bit signed int, as two's complement machines do it. *)
Definition i16 (z : Z) : Z := (z + 2 ^ 15) mod 2 ^ 16 - 2 ^ 15.
Definition i32 (z : Z) : Z := (z + 2 ^ 31) mod 2 ^ 32 - 2 ^ 31.

(** The largest value of an unsigned type ([ovrflw<UINT>::value]). *)
Definition max_u16 : Z := 2 ^ 16 - 1.
Definition max_u32 : Z := 2 ^ 32 - 1.

(** ** Byte buffers *)

(** A buffer is the list of bytes from a pointer to the end of the memory block
    it points into; every byte is a [Z] in 0..255. *)
Abbreviation bytes := (list Z) (only parsing).

Definition zlen {A} (l : list A) : Z := Z.of_nat (length l).

Definition is_byte (b : Z) : Prop := 0 <= b < 2 ^ 8.

(** The little-endian bytes of an [n]-byte integer. *)
Definition enc (n : nat) (z : Z) : bytes := Z_to_little_endian (Z.of_nat n) 8 z.

(** Read [n] bytes at offset [off]; outside the block this is undefined. *)
Definition rd (n : nat) (off : Z) (buf : bytes) : res Z :=
  if (0 <=? off) && (off + Z.of_nat n <=? zlen buf)
  then Ok (little_endian_to_Z 8 (take n (drop (Z.to_nat off) buf)))
  else Fault.

(** Copy [n] bytes at offset [off] into a string ([std::string::assign]). *)
Definition rd_bytes (n off : Z) (buf : bytes) : res bytes :=
  if (0 <=? off) && (0 <=? n) && (off + n <=? zlen buf)
  then Ok (take (Z.to_nat n) (drop (Z.to_nat off) buf))
  else Fault.

(** Pointer arithmetic: the buffer [off] bytes further on. *)
Definition adv (off : Z) (buf : bytes) : bytes := drop (Z.to_nat off) buf.

(** A record laid out as consecutive little-endian fields (width, value). *)
Definition layout (fs : list (nat * Z)) : bytes := mjoin ((fun f => enc f.1 f.2) <$> fs).

Definition widths (fs : list (nat * Z)) : Z := foldr (fun f n => Z.of_nat f.1 + n) 0 fs.

Arguments zlen : simpl never.
Arguments layout : simpl never.
Arguments enc : simpl never.
Arguments rd : simpl never.
Arguments rd_bytes : simpl never.
Arguments adv : simpl never.

(** ** Lemmas on lists, integers and buffers shared by the components *)

Create HintDb xrd discriminated.
Create Rewrite HintDb zlen.

Lemma zlen_nonneg {A} (l : list A) : 0 <= zlen l.
Proof. unfold zlen. lia. Qed.

Lemma zlen_app {A} (l k : list A) : zlen (l ++ k) = zlen l + zlen k.
Proof. unfold zlen. rewrite length_app. lia. Qed.

Lemma zlen_cons {A} (x : A) l : zlen (x :: l) = 1 + zlen l.
Proof. unfold zlen. cbn [length]. lia. Qed.

Lemma zlen_nil {A} : zlen (@nil A) = 0.
Proof. done. Qed.

Lemma zlen_enc n z : zlen (enc n z) = Z.of_nat n.
Proof. unfold zlen, enc. apply length_Z_to_little_endian. lia. Qed.

Lemma length_enc n z : length (enc n z) = n.
Proof. pose proof (zlen_enc n z). unfold zlen in *. lia. Qed.

Lemma zlen_drop {A} (n : Z) (l : list A) :
  0 <= n <= zlen l -> zlen (drop (Z.to_nat n) l) = zlen l - n.
Proof. unfold zlen. rewrite length_drop. lia. Qed.

Lemma zlen_zero_nil {A} (l : list A) : zlen l = 0 -> l = [].
Proof. destruct l; [done|]. rewrite zlen_cons. pose proof (zlen_nonneg l). lia. Qed.

#[export] Hint Rewrite @zlen_app @zlen_cons @zlen_nil zlen_enc : zlen.

(** Normalise lengths and finish with linear arithmetic. *)
Ltac solve_len :=
  autorewrite with zlen in *;
  repeat match goal with
    | |- context [zlen ?l] => is_var l; unfold_zlen_pos l
    | H : context [zlen ?l] |- _ => is_var l; unfold_zlen_pos l
    end; lia
with unfold_zlen_pos l :=
  lazymatch goal with
  | H : 0 <= zlen l |- _ => fail
  | _ => pose proof (zlen_nonneg l)
  end.

Lemma enc_decode n z :
  0 <= z < 2 ^ (8 * Z.of_nat n) -> little_endian_to_Z 8 (enc n z) = z.
Proof.
  intros. unfold enc. rewrite little_endian_to_Z_to_little_endian by lia.
  apply Z.mod_small. replace (Z.of_nat n * 8) with (8 * Z.of_nat n) by lia. done.
Qed.

Lemma enc_bytes n z : Forall is_byte (enc n z).
Proof. apply Z_to_little_endian_bound; lia. Qed.

Lemma adv_app_exact l k n : n = zlen l -> adv n (l ++ k) = k.
Proof. intros ->. unfold adv, zlen. rewrite Nat2Z.id. apply drop_app_length. Qed.

Lemma adv_0 l : adv 0 l = l.
Proof. done. Qed.

Lemma adv_adv a b l : 0 <= a -> 0 <= b -> adv a (adv b l) = adv (b + a) l.
Proof. intros. unfold adv. rewrite drop_drop. f_equal. lia. Qed.

Lemma zlen_adv n l : 0 <= n <= zlen l -> zlen (adv n l) = zlen l - n.
Proof. apply zlen_drop. Qed.

(** A field is read back where it was written. *)
Lemma rd_here n z k :
  0 <= z < 2 ^ (8 * Z.of_nat n) -> rd n 0 (enc n z ++ k) = Ok z.
Proof.
  intros Hz. unfold rd.
  rewrite zlen_app, zlen_enc. pose proof (zlen_nonneg k).
  destruct (Z.leb_spec (0 + Z.of_nat n) (Z.of_nat n + zlen k)); [|lia]. simpl.
  rewrite drop_0. rewrite <- (length_enc n z) at 1. rewrite take_app_length.
  by rewrite enc_decode.
Qed.

(** Reading past a prefix is reading in the rest. *)
Lemma rd_skip n off l k :
  zlen l <= off -> rd n off (l ++ k) = rd n (off - zlen l) k.
Proof.
  intros. pose proof (zlen_nonneg l). unfold rd. rewrite zlen_app.
  replace (0 <=? off) with true by (symmetry; apply Z.leb_le; lia).
  replace (0 <=? off - zlen l) with true by (symmetry; apply Z.leb_le; lia).
  replace (off - zlen l + Z.of_nat n <=? zlen k)
    with (off + Z.of_nat n <=? zlen l + zlen k) by (
      destruct (Z.leb_spec (off + Z.of_nat n) (zlen l + zlen k));
      destruct (Z.leb_spec (off - zlen l + Z.of_nat n) (zlen k)); lia || done).
  rewrite drop_app_ge by (unfold zlen in *; lia).
  replace (Z.to_nat off - length l)%nat with (Z.to_nat (off - zlen l))
    by (unfold zlen; lia). done.
Qed.

Lemma layout_cons f fs : layout (f :: fs) = enc f.1 f.2 ++ layout fs.
Proof. done. Qed.

Lemma zlen_layout fs : zlen (layout fs) = widths fs.
Proof.
  induction fs as [|f fs IH]; [done|].
  rewrite layout_cons, zlen_app, zlen_enc, IH. done.
Qed.

(** Field [i] of a record is read at the sum of the widths before it. *)
Lemma rd_layout (i : nat) fs k n z off :
  fs !! i = Some (n, z) -> off = widths (take i fs) -> 0 <= z < 2 ^ (8 * Z.of_nat n) ->
  rd n off (layout fs ++ k) = Ok z.
Proof.
  intros Hi -> Hz. revert i Hi. induction fs as [|f fs IH]; intros [|i] Hi; try done.
  - injection Hi as ->. rewrite layout_cons, <- app_assoc. by apply rd_here.
  - rewrite layout_cons, <- app_assoc. simpl.
    assert (0 <= widths (take i fs)).
    { generalize (take i fs). intros l. induction l; simpl; lia. }
    rewrite rd_skip by (rewrite zlen_enc; lia). rewrite zlen_enc.
    replace (Z.of_nat f.1 + widths (take i fs) - Z.of_nat f.1) with (widths (take i fs)) by lia.
    by apply IH.
Qed.

Lemma rd_bytes_here l k n : n = zlen l -> rd_bytes n 0 (l ++ k) = Ok l.
Proof.
  intros ->. unfold rd_bytes. pose proof (zlen_nonneg l). pose proof (zlen_nonneg k).
  rewrite zlen_app.
  destruct (Z.leb_spec 0 (zlen l)); [|lia].
  destruct (Z.leb_spec (0 + zlen l) (zlen l + zlen k)); [|lia]. simpl.
  rewrite drop_0. unfold zlen. rewrite Nat2Z.id. by rewrite take_app_length.
Qed.

Lemma rd_bytes_skip n off l k :
  zlen l <= off -> rd_bytes n off (l ++ k) = rd_bytes n (off - zlen l) k.
Proof.
  intros. pose proof (zlen_nonneg l). unfold rd_bytes. rewrite zlen_app.
  replace (0 <=? off) with true by (symmetry; apply Z.leb_le; lia).
  replace (0 <=? off - zlen l) with true by (symmetry; apply Z.leb_le; lia).
  replace (off - zlen l + n <=? zlen k)
    with (off + n <=? zlen l + zlen k) by (
      destruct (Z.leb_spec (off + n) (zlen l + zlen k));
      destruct (Z.leb_spec (off - zlen l + n) (zlen k)); lia || done).
  rewrite drop_app_ge by (unfold zlen in *; lia).
  replace (Z.to_nat off - length l)%nat with (Z.to_nat (off - zlen l))
    by (unfold zlen; lia). done.
Qed.

(** Bounds facts about reads, both ways. *)
Lemma rd_ok n off buf :
  0 <= off -> off + Z.of_nat n <= zlen buf -> exists v, rd n off buf = Ok v.
Proof.
  intros. unfold rd.
  destruct (Z.leb_spec 0 off); [|lia].
  destruct (Z.leb_spec (off + Z.of_nat n) (zlen buf)); [|lia]. simpl. eauto.
Qed.

Lemma rd_inv n off buf v :
  rd n off buf = Ok v -> 0 <= off /\ off + Z.of_nat n <= zlen buf.
Proof.
  unfold rd. destruct (Z.leb_spec 0 off); [|done].
  destruct (Z.leb_spec (off + Z.of_nat n) (zlen buf)); done.
Qed.

Lemma rd_bytes_ok n off buf :
  0 <= off -> 0 <= n -> off + n <= zlen buf -> exists v, rd_bytes n off buf = Ok v.
Proof.
  intros. unfold rd_bytes.
  destruct (Z.leb_spec 0 off); [|lia]. destruct (Z.leb_spec 0 n); [|lia].
  destruct (Z.leb_spec (off + n) (zlen buf)); [|lia]. simpl. eauto.
Qed.

(** The value read is within the width when the block holds bytes. *)
Lemma rd_bound n off buf v :
  Forall is_byte buf -> rd n off buf = Ok v -> 0 <= v < 2 ^ (8 * Z.of_nat n).
Proof.
  intros Hb. unfold rd.
  destruct (Z.leb_spec 0 off); [|done].
  destruct (Z.leb_spec (off + Z.of_nat n) (zlen buf)); [|done].
  simpl. intros [= <-].
  assert (Z.of_nat (length (take n (drop (Z.to_nat off) buf))) = Z.of_nat n) as Hn.
  { rewrite length_take, length_drop. unfold zlen in *. lia. }
  replace (8 * Z.of_nat n) with (Z.of_nat n * 8) by lia. rewrite <- Hn.
  apply little_endian_to_Z_bound; [lia|]. by apply Forall_take, Forall_drop.
Qed.

Lemma is_byte_adv k l : Forall is_byte l -> Forall is_byte (adv k l).
Proof. apply Forall_drop. Qed.

#[export] Hint Resolve is_byte_adv enc_bytes zlen_nonneg : xrd.

Lemma u16_small z : 0 <= z < 2 ^ 16 -> u16 z = z.
Proof. apply Z.mod_small. Qed.
Lemma u32_small z : 0 <= z < 2 ^ 32 -> u32 z = z.
Proof. apply Z.mod_small. Qed.
Lemma u64_small z : 0 <= z < 2 ^ 64 -> u64 z = z.
Proof. apply Z.mod_small. Qed.

Lemma u16_range z : 0 <= u16 z < 2 ^ 16.
Proof. apply Z.mod_pos_bound. lia. Qed.
Lemma u32_range z : 0 <= u32 z < 2 ^ 32.
Proof. apply Z.mod_pos_bound. lia. Qed.
Lemma u64_range z : 0 <= u64 z < 2 ^ 64.
Proof. apply Z.mod_pos_bound. lia. Qed.

(** Decide an integer comparison appearing in the goal or a hypothesis by
    splitting on it; contradictory branches are closed by [lia]. *)
Ltac zcases :=
  repeat match goal with
    | |- context [Z.leb ?a ?b] => destruct (Z.leb_spec a b); try lia
    | |- context [Z.ltb ?a ?b] => destruct (Z.ltb_spec a b); try lia
    | |- context [Z.eqb ?a ?b] => destruct (Z.eqb_spec a b); try lia
    end.

(** Linear arithmetic with division and remainder by constants. *)
Ltac lia_div := Z.div_mod_to_equations; lia.

(** Invert a successful bind. *)
Lemma bind_ok {A B} (m : res A) (f : A -> res B) b :
  m ≫= f = Ok b -> exists a, m = Ok a /\ f a = Ok b.
Proof. destruct m; simpl; try discriminate. eauto. Qed.

Lemma bind_Ok {A B} (f : A -> res B) a : Ok a ≫= f = f a.
Proof. done. Qed.

(** Run the continuation of a successful step. *)
Ltac step_ok := rewrite bind_Ok; cbv beta iota.

#[global] Opaque enc.
