(* ===== verification/ZipRecords.v ===== *)
(** * ZIP records: DOS time stamps, the ZIP64 extra field and the local file header

    Models src/src/XrdZip/XrdZipUtils.hh, XrdZipExtra.hh and XrdZipLFH.hh.
    A [const char *buffer] is the list of bytes from that pointer to the end of
    its memory block, so a read past the block is the outcome [Fault]. *)

From stdpp Require Import base tactics list list_numbers numbers option.
From S2P Require Import Prelude.

(** ** [XrdZipUtils.hh] *)

(** [copy_bytes]: append the little-endian bytes of an [n]-byte integer. *)
Definition copy_bytes (n : nat) (value : Z) (buffer : bytes) : bytes :=
  buffer ++ enc n value.

(** [from_buffer]: read an integer and advance the pointer. *)
Definition from_buffer (n : nat) (buffer : bytes) : res (Z * bytes) :=
  var ← rd n 0 buffer; Ok (var, adv (Z.of_nat n) buffer).

(** [to<INT>(buffer + off)]. *)
Definition to (n : nat) (off : Z) (buffer : bytes) : res Z := rd n off buffer.

(** The members of [std::tm] the code reads. *)
Record tm := Tm {
  tm_sec : Z; tm_min : Z; tm_hour : Z; tm_mday : Z; tm_mon : Z; tm_year : Z }.

(** [dos_timestmp]: the time and the date half. *)
Record dos_timestmp := DosTimestmp { dos_time : Z; dos_date : Z }.

Definition sec_mask := 0x1f.
Definition min_mask := 0x3f.
Definition hour_mask := 0x1f.
Definition sec_shift := 0.
Definition min_shift := 5.
Definition hour_shift := 11.
Definition day_mask := 0x1f.
Definition mon_mask := 0x0f.
Definition year_mask := 0x7f.
Definition day_shift := 0.
Definition mon_shift := 5.
Definition year_shift := 9.

(** [x |= (mask & uint16_t(v)) << shift] on a [uint16_t]. *)
Definition or_field (x mask v shift : Z) : Z :=
  u16 (Z.lor x (Z.shiftl (Z.land mask (u16 v)) shift)).

(** [dos_timestmp::dos_timestmp( time_t )]; [localtime] is the C library's. *)
Definition dos_timestmp_of (localtime : Z -> tm) (timestmp : Z) : dos_timestmp :=
  let calendar_time := localtime timestmp in
  let time := 0 in
  let time := or_field time hour_mask (tm_hour calendar_time) hour_shift in
  let time := or_field time min_mask (tm_min calendar_time) min_shift in
  let time := or_field time sec_mask (Z.quot (tm_sec calendar_time) 2) sec_shift in
  let date := 0 in
  let date := or_field date year_mask (tm_year calendar_time - 1980) year_shift in
  let date := or_field date mon_mask (tm_mon calendar_time) mon_shift in
  let date := or_field date day_mask (tm_mday calendar_time) day_shift in
  DosTimestmp time date.

(** Reading the fields of a DOS time stamp, as the ZIP format lays them out. *)
Definition dos_hour (d : dos_timestmp) : Z := Z.shiftr (dos_time d) 11.
Definition dos_min (d : dos_timestmp) : Z := Z.land (Z.shiftr (dos_time d) 5) 63.
Definition dos_sec (d : dos_timestmp) : Z := 2 * Z.land (dos_time d) 31.
Definition dos_year (d : dos_timestmp) : Z := 1980 + Z.shiftr (dos_date d) 9.

(** ** [XrdZipExtra.hh] *)

Record Extra := MkExtra {
  ex_dataSize : Z;          (* uint16_t *)
  ex_uncompressedSize : Z;  (* uint64_t *)
  ex_compressedSize : Z;    (* uint64_t *)
  ex_offset : Z;            (* uint64_t *)
  ex_nbDisk : Z;            (* uint32_t *)
  ex_totalSize : Z          (* uint16_t *) }.

Definition NONE := 0.
Definition UCMPSIZE := 1.
Definition CPMSIZE := 2.
Definition OFFSET := 4.
Definition NBDISK := 8.
Definition headerID := 0x0001.

(** [Extra::Extra( uint64_t fileSize )] *)
Definition Extra_of_size (fileSize : Z) : Extra :=
  if max_u32 <=? fileSize then
    let dataSize := 16 in
    MkExtra dataSize fileSize fileSize 0 0 (u16 (dataSize + 4))
  else MkExtra 0 0 0 0 0 0.

(** [Extra::Extra( Extra *extra, uint64_t offset )] *)
Definition Extra_of_extra (extra : Extra) (offset : Z) : Extra :=
  let dataSize := ex_dataSize extra in
  let totalSize := ex_totalSize extra in
  if max_u32 <=? offset then
    let dataSize := u16 (dataSize + 8) in
    MkExtra dataSize (ex_uncompressedSize extra) (ex_compressedSize extra)
      offset 0 (u16 (dataSize + 4))
  else
    MkExtra dataSize (ex_uncompressedSize extra) (ex_compressedSize extra)
      0 0 totalSize.

(** [Extra::Extra()] *)
Definition Extra_default : Extra := MkExtra 0 0 0 0 0 0.

(** [Extra::Find]: the offset of the ZIP64 field in the first [length] bytes of
    [buffer], [None] for [nullptr]. Every turn advances by at least 4 bytes. *)
Fixpoint Extra_Find_loop (fuel : nat) (pos length : Z) (buffer : bytes)
  : res (option Z) :=
  if pos <? length then
    match fuel with
    | O => Diverge
    | S fuel =>
        signature ← to 2 pos buffer;
        datasize ← to 2 (pos + 2) buffer;
        if signature =? headerID then Ok (Some pos)
        else Extra_Find_loop fuel (pos + (2 * 2 + datasize)) length buffer
    end
  else Ok None.

Definition Extra_Find (buffer : bytes) (length : Z) : res (option Z) :=
  Extra_Find_loop (Z.to_nat length) 0 length buffer.

(** Is the bit set in the flags? [if( UCMPSIZE & flags )] *)
Definition has_flag (bit flags : Z) : bool := negb (Z.land bit flags =? 0).

(** [if( flag ) from_buffer( var, buffer )] *)
Definition from_buffer_if (c : bool) (n : nat) (var : Z) (buffer : bytes)
  : res (Z * bytes) :=
  if c then from_buffer n buffer else Ok (var, buffer).

(** [Extra::FromBuffer] *)
Definition Extra_FromBuffer (this : Extra) (buffer : bytes) (exsize flags : Z)
  : res Extra :=
  '(signature, buffer) ← from_buffer 2 buffer;
  if negb (signature =? headerID) then BadData else
  '(dataSize, buffer) ← from_buffer 2 buffer;
  if negb (dataSize =? exsize) then BadData else
  '(uncompressedSize, buffer) ←
     from_buffer_if (has_flag UCMPSIZE flags) 8 (ex_uncompressedSize this) buffer;
  '(compressedSize, buffer) ←
     from_buffer_if (has_flag CPMSIZE flags) 8 (ex_compressedSize this) buffer;
  '(offset, buffer) ←
     from_buffer_if (has_flag OFFSET flags) 8 (ex_offset this) buffer;
  '(nbDisk, _) ←
     from_buffer_if (has_flag NBDISK flags) 4 (ex_nbDisk this) buffer;
  Ok (MkExtra dataSize uncompressedSize compressedSize offset nbDisk
        (ex_totalSize this)).

(** [Extra::Serialize] *)
Definition Extra_Serialize (this : Extra) (buffer : bytes) : bytes :=
  if 0 <? ex_totalSize this then
    let buffer := copy_bytes 2 headerID buffer in
    let buffer := copy_bytes 2 (ex_dataSize this) buffer in
    if 0 <? ex_uncompressedSize this then
      let buffer := copy_bytes 8 (ex_uncompressedSize this) buffer in
      let buffer := copy_bytes 8 (ex_compressedSize this) buffer in
      if 0 <? ex_offset this then copy_bytes 8 (ex_offset this) buffer else buffer
    else if 0 <? ex_offset this then copy_bytes 8 (ex_offset this) buffer
    else buffer
  else buffer.

(** ** [XrdZipLFH.hh] *)

Record LFH := MkLFH {
  lfh_minZipVersion : Z;
  lfh_generalBitFlag : Z;
  lfh_compressionMethod : Z;
  lfh_timestmp : dos_timestmp;
  lfh_ZCRC32 : Z;
  lfh_compressedSize : Z;
  lfh_uncompressedSize : Z;
  lfh_filenameLength : Z;
  lfh_extraLength : Z;
  lfh_filename : bytes;
  lfh_extra : option Extra;     (* std::unique_ptr<Extra> *)
  lfh_lfhSize : Z }.

Definition lfhSign := 0x04034b50.
Definition lfhBaseSize := 30.

(** [LFH::initSize]; [off_t] is 64-bit signed, the result a [uint32_t]. *)
Definition initSize (fileSize : Z) : Z :=
  if max_u32 <=? fileSize then max_u32 else u32 fileSize.

(** [LFH::LFH( filename, crc, fileSize, time )] *)
Definition LFH_new (localtime : Z -> tm) (filename : bytes) (crc fileSize time : Z)
  : LFH :=
  let filenameLength := u16 (zlen filename) in
  let extra := Extra_of_size (u64 fileSize) in
  let extraLength := ex_totalSize extra in
  let minZipVersion := if extraLength =? 0 then 10 else 45 in
  MkLFH minZipVersion 0 0 (dos_timestmp_of localtime time) crc
    (initSize fileSize) (initSize fileSize) filenameLength extraLength filename
    (Some extra) (u16 (lfhBaseSize + filenameLength + extraLength)).

(** [LFH::ParseExtra]: the new value of the member [extra]. *)
Definition LFH_ParseExtra (compressedSize uncompressedSize : Z)
    (extra : option Extra) (buffer : bytes) (length : Z) : res (option Extra) :=
  let ovrflws := NONE in
  let exsize := 0 in
  let '(ovrflws, exsize) :=
    if compressedSize =? max_u32
    then (Z.lor ovrflws CPMSIZE, u16 (exsize + 8)) else (ovrflws, exsize) in
  let '(ovrflws, exsize) :=
    if uncompressedSize =? max_u32
    then (Z.lor ovrflws UCMPSIZE, u16 (exsize + 8)) else (ovrflws, exsize) in
  if exsize =? 0 then Ok extra else
  found ← Extra_Find buffer length;
  match found with
  | None => Ok (Some Extra_default)
  | Some pos =>
      ex ← Extra_FromBuffer Extra_default (adv pos buffer) exsize ovrflws;
      Ok (Some ex)
  end.

(** [LFH::LFH( buffer, bufferSize )] *)
Definition LFH_parse (buffer : bytes) (bufferSize : Z) : res LFH :=
  if (0 <? bufferSize) && (bufferSize <? lfhBaseSize) then BadData else
  '(signature, buffer) ← from_buffer 4 buffer;
  if negb (signature =? lfhSign) then BadData else
  '(minZipVersion, buffer) ← from_buffer 2 buffer;
  '(generalBitFlag, buffer) ← from_buffer 2 buffer;
  '(compressionMethod, buffer) ← from_buffer 2 buffer;
  '(time, buffer) ← from_buffer 2 buffer;
  '(date, buffer) ← from_buffer 2 buffer;
  '(ZCRC32, buffer) ← from_buffer 4 buffer;
  '(compressedSize, buffer) ← from_buffer 4 buffer;
  '(uncompressedSize, buffer) ← from_buffer 4 buffer;
  '(filenameLength, buffer) ← from_buffer 2 buffer;
  '(extraLength, buffer) ← from_buffer 2 buffer;
  if (0 <? bufferSize)
     && (bufferSize <? lfhBaseSize + filenameLength + extraLength)
  then BadData else
  filename ← rd_bytes filenameLength 0 buffer;
  let buffer := adv filenameLength buffer in
  extra ← (if 0 <? extraLength
           then LFH_ParseExtra compressedSize uncompressedSize None buffer extraLength
           else Ok None);
  Ok (MkLFH minZipVersion generalBitFlag compressionMethod
        (DosTimestmp time date) ZCRC32 compressedSize uncompressedSize
        filenameLength extraLength filename extra
        (u16 (lfhBaseSize + filenameLength + extraLength))).

(** The fixed part and the file name, common to every local file header. *)
Definition LFH_Serialize_header (this : LFH) (buffer : bytes) : bytes :=
  let buffer := copy_bytes 4 lfhSign buffer in
  let buffer := copy_bytes 2 (lfh_minZipVersion this) buffer in
  let buffer := copy_bytes 2 (lfh_generalBitFlag this) buffer in
  let buffer := copy_bytes 2 (lfh_compressionMethod this) buffer in
  let buffer := copy_bytes 2 (dos_time (lfh_timestmp this)) buffer in
  let buffer := copy_bytes 2 (dos_date (lfh_timestmp this)) buffer in
  let buffer := copy_bytes 4 (lfh_ZCRC32 this) buffer in
  let buffer := copy_bytes 4 (lfh_compressedSize this) buffer in
  let buffer := copy_bytes 4 (lfh_uncompressedSize this) buffer in
  let buffer := copy_bytes 2 (lfh_filenameLength this) buffer in
  let buffer := copy_bytes 2 (lfh_extraLength this) buffer in
  buffer ++ lfh_filename this.

(** [LFH::Serialize]: calls through the [extra] pointer without a test. *)
Definition LFH_Serialize (this : LFH) (buffer : bytes) : res bytes :=
  let buffer := LFH_Serialize_header this buffer in
  match lfh_extra this with
  | Some extra => Ok (Extra_Serialize extra buffer)
  | None => Fault
  end.

(** ** Reading back what was written *)

Create Rewrite HintDb zip_codec.

Lemma from_buffer_enc n z k :
  0 <= z < 2 ^ (8 * Z.of_nat n) -> from_buffer n (enc n z ++ k) = Ok (z, k).
Proof.
  intros. unfold from_buffer. rewrite rd_here by done. simpl.
  rewrite adv_app_exact; [done|]. by rewrite zlen_enc.
Qed.

Lemma to_here n z k : 0 <= z < 2 ^ (8 * Z.of_nat n) -> to n 0 (enc n z ++ k) = Ok z.
Proof. apply rd_here. Qed.

Lemma or_field_range x mask v shift : 0 <= or_field x mask v shift < 2 ^ 16.
Proof. apply u16_range. Qed.

Lemma initSize_range fileSize : 0 <= initSize fileSize < 2 ^ 32.
Proof. unfold initSize, max_u32. pose proof (u32_range fileSize). zcases. Qed.

(** The sizes [initSize] stores are the overflow mark exactly for large files. *)
Lemma initSize_overflow fileSize :
  0 <= fileSize -> (initSize fileSize =? max_u32) = (max_u32 <=? fileSize).
Proof.
  intros. unfold initSize. destruct (Z.leb_spec max_u32 fileSize) as [|Hlt].
  - apply Z.eqb_refl.
  - unfold max_u32 in *. rewrite u32_small by lia. apply Z.eqb_neq. lia.
Qed.

(** The extra field of a new record, by which of the two quantities overflow. *)
Lemma Extra_of_extra_cases fs off :
  Extra_of_extra (Extra_of_size fs) off =
    if max_u32 <=? fs
    then if max_u32 <=? off then MkExtra 24 fs fs off 0 28 else MkExtra 16 fs fs 0 0 20
    else if max_u32 <=? off then MkExtra 8 0 0 off 0 12 else MkExtra 0 0 0 0 0 0.
Proof. unfold Extra_of_extra, Extra_of_size. by zcases. Qed.

Lemma Extra_Serialize_app ex buf :
  Extra_Serialize ex buf = buf ++ Extra_Serialize ex [].
Proof.
  unfold Extra_Serialize, copy_bytes. zcases; by rewrite <- ?app_assoc, ?app_nil_r.
Qed.

(** [totalSize] is the number of bytes a new extra field serialises to. *)
Lemma Extra_Serialize_zlen fs off :
  zlen (Extra_Serialize (Extra_of_extra (Extra_of_size fs) off) [])
  = ex_totalSize (Extra_of_extra (Extra_of_size fs) off).
Proof.
  rewrite Extra_of_extra_cases. unfold Extra_Serialize, copy_bytes.
  destruct (Z.leb_spec max_u32 fs), (Z.leb_spec max_u32 off);
    unfold max_u32 in *; simpl; zcases; autorewrite with zlen; lia.
Qed.

(** The flags and the expected size [ParseExtra] derives when the sizes and
    the offset of a record carry the overflow mark. *)
Definition overflow_flags (big_size big_off : bool) : Z :=
  Z.lor (if big_size then 3 else 0) (if big_off then 4 else 0).

(** What [FromBuffer] recovers from a serialised extra field. *)
Definition Extra_recovered (fs off : Z) : Extra :=
  let ex := Extra_of_extra (Extra_of_size fs) off in
  MkExtra (ex_dataSize ex) (ex_uncompressedSize ex) (ex_compressedSize ex)
    (ex_offset ex) 0 0.

Lemma Extra_FromBuffer_serialized fs off rest :
  0 <= fs < 2 ^ 64 -> 0 <= off < 2 ^ 64 ->
  max_u32 <= fs \/ max_u32 <= off ->
  Extra_FromBuffer Extra_default
    (Extra_Serialize (Extra_of_extra (Extra_of_size fs) off) [] ++ rest)
    (ex_dataSize (Extra_of_extra (Extra_of_size fs) off))
    (overflow_flags (max_u32 <=? fs) (max_u32 <=? off))
  = Ok (Extra_recovered fs off).
Proof.
  intros Hfs Hoff Hbig. unfold Extra_recovered. rewrite Extra_of_extra_cases.
  unfold Extra_Serialize, copy_bytes.
  destruct (Z.leb_spec max_u32 fs), (Z.leb_spec max_u32 off); try lia;
    unfold max_u32 in *; simpl; zcases; simpl; rewrite <- ?app_assoc;
    unfold Extra_FromBuffer;
    repeat (rewrite from_buffer_enc by (simpl; unfold headerID; lia); simpl);
    done.
Qed.

(** A ZIP64 field at the start of the searched area is found there. *)
Lemma Extra_Find_hit buffer length d :
  0 < length -> to 2 0 buffer = Ok headerID -> to 2 2 buffer = Ok d ->
  Extra_Find buffer length = Ok (Some 0).
Proof.
  intros Hl H0 H2. unfold Extra_Find.
  destruct (Z.to_nat length) as [|f] eqn:E; [lia|]. unfold Extra_Find_loop.
  destruct (Z.ltb_spec 0 length); [|lia].
  rewrite H0. change (0 + 2) with 2. rewrite H2. done.
Qed.

(** The ZIP64 field of a new record is at the start of its extra area. *)
Lemma Extra_Find_serialized fs off rest :
  max_u32 <= fs \/ max_u32 <= off ->
  Extra_Find (Extra_Serialize (Extra_of_extra (Extra_of_size fs) off) [] ++ rest)
    (ex_totalSize (Extra_of_extra (Extra_of_size fs) off)) = Ok (Some 0).
Proof.
  intros Hbig.
  apply (Extra_Find_hit _ _ (ex_dataSize (Extra_of_extra (Extra_of_size fs) off)));
    rewrite Extra_of_extra_cases; unfold Extra_Serialize, copy_bytes, to;
    destruct (Z.leb_spec max_u32 fs), (Z.leb_spec max_u32 off); try lia;
    unfold max_u32 in *; simpl; zcases; rewrite <- ?app_assoc; simpl; try lia.
  all: try (rewrite rd_here by (unfold headerID; lia); done).
  all: rewrite rd_skip by (rewrite zlen_enc; lia); rewrite zlen_enc; simpl;
    rewrite rd_here by lia; done.
Qed.

(** ** The search for the ZIP64 field ends *)

Lemma Extra_Find_loop_total fuel pos length buffer :
  Forall is_byte buffer -> length - pos <= Z.of_nat fuel ->
  Extra_Find_loop fuel pos length buffer <> Diverge.
Proof.
  intros Hb. revert pos. induction fuel as [|fuel IH]; intros pos Hf; simpl.
  - destruct (Z.ltb_spec pos length); [lia|done].
  - destruct (Z.ltb_spec pos length); [|done].
    destruct (to 2 pos buffer) eqn:E1; try done; simpl.
    2:{ unfold to, rd in E1. by case_match. }
    destruct (to 2 (pos + 2) buffer) as [d| | |] eqn:E2; try done; simpl.
    2:{ unfold to, rd in E2. by case_match. }
    case_match; [done|]. apply IH.
    apply rd_bound in E2; [|done]. lia.
Qed.

Lemma Extra_Find_total buffer length :
  Forall is_byte buffer -> Extra_Find buffer length <> Diverge.
Proof. intros. apply Extra_Find_loop_total; [done|]. lia. Qed.

(** ** Local file headers *)

(** The members of a header are within the widths of their types. *)
Record LFH_wf (h : LFH) : Prop := {
  lfh_wf_minzip : 0 <= lfh_minZipVersion h < 2 ^ 16;
  lfh_wf_flag : 0 <= lfh_generalBitFlag h < 2 ^ 16;
  lfh_wf_method : 0 <= lfh_compressionMethod h < 2 ^ 16;
  lfh_wf_time : 0 <= dos_time (lfh_timestmp h) < 2 ^ 16;
  lfh_wf_date : 0 <= dos_date (lfh_timestmp h) < 2 ^ 16;
  lfh_wf_crc : 0 <= lfh_ZCRC32 h < 2 ^ 32;
  lfh_wf_csize : 0 <= lfh_compressedSize h < 2 ^ 32;
  lfh_wf_usize : 0 <= lfh_uncompressedSize h < 2 ^ 32;
  lfh_wf_fnlen : 0 <= lfh_filenameLength h < 2 ^ 16;
  lfh_wf_exlen : 0 <= lfh_extraLength h < 2 ^ 16;
  lfh_wf_name : zlen (lfh_filename h) = lfh_filenameLength h;
  lfh_wf_size : lfh_lfhSize h
    = u16 (lfhBaseSize + lfh_filenameLength h + lfh_extraLength h) }.

Lemma LFH_Serialize_header_zlen h :
  LFH_wf h -> zlen (LFH_Serialize_header h []) = lfhBaseSize + lfh_filenameLength h.
Proof.
  intros H. unfold LFH_Serialize_header, copy_bytes. autorewrite with zlen.
  rewrite (lfh_wf_name h H). unfold lfhBaseSize. lia.
Qed.

(** Parsing a serialised header: what is left to do is the extra area. *)
Lemma LFH_parse_header h k bufferSize :
  LFH_wf h ->
  bufferSize = 0 \/ lfhBaseSize + lfh_filenameLength h + lfh_extraLength h <= bufferSize ->
  LFH_parse (LFH_Serialize_header h [] ++ k) bufferSize =
    (extra ← (if 0 <? lfh_extraLength h
              then LFH_ParseExtra (lfh_compressedSize h) (lfh_uncompressedSize h)
                     None k (lfh_extraLength h)
              else Ok None);
     Ok (MkLFH (lfh_minZipVersion h) (lfh_generalBitFlag h) (lfh_compressionMethod h)
           (lfh_timestmp h) (lfh_ZCRC32 h) (lfh_compressedSize h)
           (lfh_uncompressedSize h) (lfh_filenameLength h) (lfh_extraLength h)
           (lfh_filename h) extra (lfh_lfhSize h))).
Proof.
  intros H Hsz. destruct h as [mv gf cm [ti da] cr cs us fl xl fn ex sz].
  destruct H; simpl in *. subst. unfold lfhBaseSize in Hsz.
  unfold LFH_parse, LFH_Serialize_header, copy_bytes, lfhBaseSize; simpl.
  rewrite <- ?app_assoc.
  replace ((0 <? bufferSize) && (bufferSize <? 30)) with false by (symmetry; zcases; done).
  repeat (rewrite from_buffer_enc by (unfold lfhSign; lia); simpl).
  unfold lfhSign; simpl.
  replace ((0 <? bufferSize) && (bufferSize <? 30 + zlen fn + xl)) with false
    by (symmetry; zcases; done).
  rewrite rd_bytes_here by done. simpl. rewrite adv_app_exact by done. done.
Qed.

Lemma LFH_new_wf localtime filename crc fileSize time :
  lfhBaseSize + zlen filename + 20 < 2 ^ 16 -> 0 <= crc < 2 ^ 32 ->
  LFH_wf (LFH_new localtime filename crc fileSize time).
Proof.
  intros Hn Hc. pose proof (zlen_nonneg filename). unfold lfhBaseSize in *.
  unfold LFH_new, Extra_of_size.
  split; simpl; try apply or_field_range; try apply initSize_range; try apply u16_range;
    rewrite ?u16_small by lia; zcases; simpl; try lia; try done.
Qed.

Lemma LFH_new_extra localtime filename crc fileSize time :
  0 <= fileSize < 2 ^ 63 ->
  lfh_extra (LFH_new localtime filename crc fileSize time)
  = Some (Extra_of_extra (Extra_of_size fileSize) 0).
Proof.
  intros. rewrite Extra_of_extra_cases. unfold LFH_new; simpl.
  rewrite u64_small by lia. unfold Extra_of_size, max_u32. zcases; done.
Qed.

(** [ParseExtra] on the extra area of a new record. *)
Lemma LFH_ParseExtra_serialized fs rest :
  0 <= fs < 2 ^ 63 -> max_u32 <= fs ->
  LFH_ParseExtra (initSize fs) (initSize fs) None
    (Extra_Serialize (Extra_of_extra (Extra_of_size fs) 0) [] ++ rest)
    (ex_totalSize (Extra_of_extra (Extra_of_size fs) 0))
  = Ok (Some (Extra_recovered fs 0)).
Proof.
  intros Hr Hbig. unfold LFH_ParseExtra. rewrite initSize_overflow by lia.
  destruct (Z.leb_spec max_u32 fs) as [_|]; [|lia].
  rewrite Extra_Find_serialized by lia.
  change (u16 (u16 (0 + 8) + 8)) with 16.
  change (Z.lor (Z.lor NONE CPMSIZE) UCMPSIZE) with (overflow_flags true false).
  cbn [mbind res_bind Z.eqb]. rewrite adv_0.
  pose proof (Extra_FromBuffer_serialized fs 0 rest) as HF.
  rewrite (Extra_of_extra_cases fs 0) in *.
  destruct (Z.leb_spec max_u32 fs) as [_|]; [|lia].
  change (max_u32 <=? 0) with false in *. cbn [ex_dataSize] in HF. cbv iota.
  rewrite HF by lia. done.
Qed.

(** The header a parser recovers from the bytes of [LFH_new]: the same, with the
    extra field present exactly when the size does not fit 32 bits. *)
Definition LFH_recovered (h : LFH) (fileSize : Z) : LFH :=
  MkLFH (lfh_minZipVersion h) (lfh_generalBitFlag h) (lfh_compressionMethod h)
    (lfh_timestmp h) (lfh_ZCRC32 h) (lfh_compressedSize h) (lfh_uncompressedSize h)
    (lfh_filenameLength h) (lfh_extraLength h) (lfh_filename h)
    (if max_u32 <=? fileSize then Some (Extra_recovered fileSize 0) else None)
    (lfh_lfhSize h).

Lemma LFH_new_extraLength localtime filename crc fileSize time :
  0 <= fileSize < 2 ^ 63 ->
  lfh_extraLength (LFH_new localtime filename crc fileSize time)
  = if max_u32 <=? fileSize then 20 else 0.
Proof.
  intros. unfold LFH_new; simpl. rewrite u64_small by lia.
  unfold Extra_of_size. by case_match.
Qed.

(** A new header occupies [lfhSize] bytes. *)
Lemma LFH_new_zlen localtime filename crc fileSize time :
  lfhBaseSize + zlen filename + 20 < 2 ^ 16 -> 0 <= crc < 2 ^ 32 ->
  0 <= fileSize < 2 ^ 63 ->
  let h := LFH_new localtime filename crc fileSize time in
  zlen (LFH_Serialize_header h []
        ++ Extra_Serialize (Extra_of_extra (Extra_of_size fileSize) 0) [])
  = lfh_lfhSize h /\
  lfh_lfhSize h = lfhBaseSize + lfh_filenameLength h + lfh_extraLength h.
Proof.
  intros Hn Hc Hfs h.
  pose proof (LFH_new_wf localtime filename crc fileSize time Hn Hc) as Hwf. fold h in Hwf.
  pose proof (LFH_new_extraLength localtime filename crc fileSize time Hfs) as Hxl.
  fold h in Hxl.
  assert (lfh_lfhSize h = lfhBaseSize + lfh_filenameLength h + lfh_extraLength h) as Hs.
  { rewrite (lfh_wf_size h Hwf). apply u16_small.
    pose proof (lfh_wf_fnlen h Hwf). rewrite <- (lfh_wf_name h Hwf) in *.
    change (lfh_filename h) with filename in *. rewrite Hxl. unfold lfhBaseSize in *.
    case_match; lia. }
  split; [|done].
  rewrite zlen_app, LFH_Serialize_header_zlen, Extra_Serialize_zlen, Hs, Hxl by done.
  rewrite Extra_of_extra_cases. change (max_u32 <=? 0) with false.
  case_match; simpl; lia.
Qed.

(** A local file header made for a file (any size below 2^63, a name that
    leaves the header below 64 KiB) serialises to lfhSize bytes, and the
    parsing constructor recovers it from those bytes whatever follows, the
    ZIP64 extra field being present exactly when the size does not fit 32
    bits. *)
Theorem LFH_roundtrip localtime filename crc fileSize time rest bufferSize :
  lfhBaseSize + zlen filename + 20 < 2 ^ 16 ->
  0 <= crc < 2 ^ 32 -> 0 <= fileSize < 2 ^ 63 ->
  let h := LFH_new localtime filename crc fileSize time in
  exists buf,
    LFH_Serialize h [] = Ok buf /\
    zlen buf = lfh_lfhSize h /\
    (bufferSize = 0 \/ zlen buf <= bufferSize ->
     LFH_parse (buf ++ rest) bufferSize = Ok (LFH_recovered h fileSize)).
Proof.
  intros Hn Hc Hfs h.
  pose proof (LFH_new_wf localtime filename crc fileSize time Hn Hc) as Hwf.
  destruct (LFH_new_zlen localtime filename crc fileSize time Hn Hc Hfs) as [Hlen Hs].
  exists (LFH_Serialize_header h []
     ++ Extra_Serialize (Extra_of_extra (Extra_of_size fileSize) 0) []).
  split; [|split; [done|]].
  - unfold LFH_Serialize, h. rewrite LFH_new_extra by done. by rewrite Extra_Serialize_app.
  - intros Hbs. rewrite <- app_assoc, LFH_parse_header; [|done|].
    2:{ destruct Hbs; [by left|right]. unfold h in *. rewrite Hlen in *. lia. }
    unfold LFH_recovered, h. rewrite !LFH_new_extraLength by done.
    destruct (Z.leb_spec max_u32 fileSize); [|done].
    pose proof (LFH_ParseExtra_serialized fileSize rest ltac:(lia) ltac:(lia)) as HP.
    rewrite (Extra_of_extra_cases fileSize 0) in *.
    destruct (Z.leb_spec max_u32 fileSize); [|lia].
    change (max_u32 <=? 0) with false in *. cbn [ex_totalSize] in HP. cbv iota in *.
    cbn [lfh_compressedSize lfh_uncompressedSize LFH_new Z.ltb Z.compare].
    by rewrite HP.
Qed.

Lemma LFH_roundtrip_witness :
  exists buf,
    LFH_Serialize (LFH_new (fun _ => Tm 0 0 0 0 0 0) [97; 98] 7 (2 ^ 40) 0) [] = Ok buf /\
    LFH_parse (buf ++ [1; 2]) (zlen buf)
    = Ok (LFH_recovered (LFH_new (fun _ => Tm 0 0 0 0 0 0) [97; 98] 7 (2 ^ 40) 0) (2 ^ 40)).
Proof.
  destruct (LFH_roundtrip (fun _ => Tm 0 0 0 0 0 0) [97; 98] 7 (2 ^ 40) 0 [1; 2]
              52 ltac:(vm_compute; done) ltac:(lia) ltac:(lia)) as (buf & H1 & H2 & H3).
  exists buf. split; [exact H1|].
  assert (zlen buf = 52) as Hb by (rewrite H2; reflexivity). rewrite Hb.
  apply H3. right. lia.
Defined.

(** ** Memory safety of the header parser *)

Lemma from_buffer_adv n k buf :
  0 <= k -> k + Z.of_nat n <= zlen buf ->
  exists v, rd n k buf = Ok v /\
    from_buffer n (adv k buf) = Ok (v, adv (k + Z.of_nat n) buf).
Proof.
  intros. destruct (rd_ok n k buf) as [v Hv]; [lia..|]. exists v. split; [done|].
  unfold from_buffer.
  assert (rd n 0 (adv k buf) = Ok v) as ->.
  { rewrite <- Hv. rewrite <- (take_drop (Z.to_nat k) buf) at 2.
    rewrite rd_skip; unfold zlen in *; rewrite length_take by lia; [|lia].
    f_equal. lia. }
  simpl. rewrite adv_adv by lia. done.
Qed.

(** One header field is read: the pointer moves on, the value is in range. *)
Ltac read_field :=
  match goal with
  | |- context [from_buffer ?n (adv ?k ?b)] =>
      let v := fresh "v" in let Hv := fresh "Hv" in let Hf := fresh "Hf" in
      destruct (from_buffer_adv n k b) as (v & Hv & Hf); [lia|simpl; lia|];
      rewrite Hf; clear Hf; step_ok;
      let k' := eval vm_compute in (k + Z.of_nat n) in
      change (k + Z.of_nat n) with k'
  end.

(** C37: On every byte buffer whose two size fields are not the overflow mark,
    the header parser called with the buffer's size returns a header that lies
    within the buffer or throws bad_data; it never reads past the buffer. *)
Theorem LFH_parse_safe buffer :
  Forall is_byte buffer -> 0 < zlen buffer ->
  rd 4 18 buffer <> Ok max_u32 -> rd 4 22 buffer <> Ok max_u32 ->
  match LFH_parse buffer (zlen buffer) with
  | Ok h => lfhBaseSize + lfh_filenameLength h + lfh_extraLength h <= zlen buffer
  | BadData => True
  | Fault | Diverge => False
  end.
Proof.
  intros Hb Hpos Hcs Hus. unfold LFH_parse, lfhBaseSize.
  destruct (Z.ltb_spec 0 (zlen buffer)); [|lia]. simpl.
  destruct (Z.ltb_spec (zlen buffer) 30); [done|].
  change (from_buffer 4 buffer) with (from_buffer 4 (adv 0 buffer)).
  read_field. destruct (negb (v =? lfhSign)); [done|].
  do 10 read_field.
  assert (Hfl := rd_bound _ _ _ _ Hb Hv8). assert (Hxl := rd_bound _ _ _ _ Hb Hv9).
  simpl in Hfl, Hxl.
  destruct (Z.ltb_spec (zlen buffer) (30 + v8 + v9)); [done|].
  destruct (rd_bytes_ok v8 0 (adv 30 buffer)) as [fn Hfn];
    [lia|lia|rewrite zlen_adv by lia; lia|].
  rewrite Hfn. step_ok.
  assert ((v6 =? max_u32) = false) as H6 by (apply Z.eqb_neq; congruence).
  assert ((v7 =? max_u32) = false) as H7 by (apply Z.eqb_neq; congruence).
  unfold LFH_ParseExtra. rewrite H6, H7. destruct (0 <? v9); simpl; lia.
Qed.

Definition sample_header : bytes :=
  [80; 75; 3; 4; 10; 0; 0; 0; 0; 0; 0; 0; 0; 0; 0; 0; 0; 0; 0; 0; 0; 0; 0; 0; 0; 0;
   1; 0; 0; 0; 97].

Lemma LFH_parse_safe_witness :
  match LFH_parse sample_header (zlen sample_header) with
  | Ok h => lfhBaseSize + lfh_filenameLength h + lfh_extraLength h <= zlen sample_header
  | BadData => True
  | Fault | Diverge => False
  end /\ exists h, LFH_parse sample_header 31 = Ok h.
Proof.
  split.
  - apply (LFH_parse_safe sample_header);
      [repeat constructor; unfold is_byte; lia|done|vm_compute; done|vm_compute; done].
  - eexists. vm_compute. reflexivity.
Defined.

(** A 32 byte buffer, accepted by both size checks, whose sizes carry the
    overflow mark and whose extra area is 2 bytes long makes Extra::Find read
    past the end of the buffer. *)
Theorem LFH_parse_overread :
  exists buffer,
    Forall is_byte buffer /\ zlen buffer = 32 /\
    LFH_parse buffer (zlen buffer) = Fault.
Proof.
  exists [80; 75; 3; 4; 45; 0; 0; 0; 0; 0; 0; 0; 0; 0; 0; 0; 0; 0; 255; 255; 255; 255;
          255; 255; 255; 255; 0; 0; 2; 0; 1; 0].
  split; [|split; vm_compute; done].
  repeat constructor; unfold is_byte; lia.
Qed.

(** ** DOS time stamps *)

(** Or-ing a [k]-bit field below the bits already set adds it. *)
Lemma or_field_add a v k shift :
  0 <= k -> 0 <= shift -> 0 <= a -> 0 <= v < 2 ^ k ->
  (a + 1) * 2 ^ (k + shift) <= 2 ^ 16 ->
  or_field (a * 2 ^ (k + shift)) (2 ^ k - 1) v shift = a * 2 ^ (k + shift) + v * 2 ^ shift.
Proof.
  intros Hk Hs Ha Hv Hfit. unfold or_field.
  assert (0 < 2 ^ shift) by (apply Z.pow_pos_nonneg; lia).
  assert (2 ^ (k + shift) = 2 ^ k * 2 ^ shift) as Hp by (apply Z.pow_add_r; lia).
  assert (v * 2 ^ shift < 2 ^ (k + shift)) by (rewrite Hp; nia).
  rewrite (u16_small v) by nia.
  replace (2 ^ k - 1) with (Z.ones k) by (rewrite Z.ones_equiv; lia).
  rewrite Z.land_comm, Z.land_ones, Z.mod_small, Z.shiftl_mul_pow2 by lia.
  rewrite <- Z.add_nocarry_lor.
  - apply u16_small. nia.
  - rewrite <- !Z.shiftl_mul_pow2 by lia. apply Z.bits_inj'. intros i Hi.
    rewrite Z.land_spec, Z.bits_0.
    destruct (Z.lt_ge_cases i (k + shift)) as [|Hge].
    + by rewrite Z.shiftl_spec_low by lia.
    + rewrite andb_comm, (Z.shiftl_spec_high v) by lia.
      rewrite (Z.bounded_iff_bits_nonneg' k v) in Hv by lia. rewrite Hv by lia. done.
Qed.

Lemma dos_time_value h m s :
  0 <= h < 32 -> 0 <= m < 64 -> 0 <= s < 32 ->
  or_field (or_field (or_field 0 hour_mask h hour_shift) min_mask m min_shift)
    sec_mask s sec_shift = h * 2048 + m * 32 + s.
Proof.
  intros.
  assert (or_field 0 hour_mask h hour_shift = h * 2048) as ->
    by (exact (or_field_add 0 h 5 11 ltac:(lia) ltac:(lia) ltac:(lia) ltac:(lia) ltac:(lia))).
  assert (or_field (h * 2048) min_mask m min_shift = h * 2048 + m * 32) as ->
    by (exact (or_field_add h m 6 5 ltac:(lia) ltac:(lia) ltac:(lia) ltac:(lia) ltac:(lia))).
  replace (h * 2048 + m * 32) with ((h * 64 + m) * 32) by lia.
  assert (or_field ((h * 64 + m) * 32) sec_mask s sec_shift = (h * 64 + m) * 32 + s * 1) as ->
    by (exact (or_field_add (h * 64 + m) s 5 0 ltac:(lia) ltac:(lia) ltac:(lia) ltac:(lia)
                 ltac:(lia))).
  lia.
Qed.

Lemma dos_date_value y m d :
  0 <= y < 128 -> 0 <= m < 16 -> 0 <= d < 32 ->
  or_field (or_field (or_field 0 year_mask y year_shift) mon_mask m mon_shift)
    day_mask d day_shift = y * 512 + m * 32 + d.
Proof.
  intros.
  assert (or_field 0 year_mask y year_shift = y * 512) as ->
    by (exact (or_field_add 0 y 7 9 ltac:(lia) ltac:(lia) ltac:(lia) ltac:(lia) ltac:(lia))).
  assert (or_field (y * 512) mon_mask m mon_shift = y * 512 + m * 32) as ->
    by (exact (or_field_add y m 4 5 ltac:(lia) ltac:(lia) ltac:(lia) ltac:(lia) ltac:(lia))).
  replace (y * 512 + m * 32) with ((y * 16 + m) * 32) by lia.
  assert (or_field ((y * 16 + m) * 32) day_mask d day_shift = (y * 16 + m) * 32 + d * 1) as ->
    by (exact (or_field_add (y * 16 + m) d 5 0 ltac:(lia) ltac:(lia) ltac:(lia) ltac:(lia)
                 ltac:(lia))).
  lia.
Qed.

(** The year mask keeps the year's distance to 1980 modulo 128. *)
Lemma or_field_year y :
  or_field 0 year_mask y year_shift = or_field 0 year_mask (y mod 128) year_shift.
Proof.
  unfold or_field, year_mask, u16. change 127 with (Z.ones 7).
  rewrite !(Z.land_comm (Z.ones 7)), !Z.land_ones by lia. do 3 f_equal.
  rewrite (Z.mod_small (y mod 128)) by (pose proof (Z.mod_pos_bound y 128); lia).
  change (2 ^ 7) with 128. rewrite Z.mod_mod by lia.
  apply Z.mod_mod_divide. by exists 512.
Qed.

Lemma dos_timestmp_of_value localtime t c :
  localtime t = c ->
  0 <= tm_hour c < 24 -> 0 <= tm_min c < 60 -> 0 <= tm_sec c < 61 ->
  0 <= tm_mon c < 12 -> 0 <= tm_mday c < 32 ->
  dos_timestmp_of localtime t =
    DosTimestmp (tm_hour c * 2048 + tm_min c * 32 + tm_sec c / 2)
      ((tm_year c - 1980) mod 128 * 512 + tm_mon c * 32 + tm_mday c).
Proof.
  intros Hc Hh Hm Hs Hmo Hd. unfold dos_timestmp_of. rewrite Hc. cbv zeta.
  rewrite Z.quot_div_nonneg by lia.
  rewrite dos_time_value by lia_div. rewrite or_field_year, dos_date_value by lia_div. done.
Qed.

(** For every broken-down local time from 1980 on, the DOS time stamp
    stores the hour, the minute and the seconds (rounded down to even), but
    the year it stores is never the year of that time, since 1980 is taken off
    a count that starts at 1900. *)
Theorem dos_timestmp_fields localtime t c :
  localtime t = c ->
  0 <= tm_hour c < 24 -> 0 <= tm_min c < 60 -> 0 <= tm_sec c < 61 ->
  80 <= tm_year c < 208 -> 0 <= tm_mon c < 12 -> 0 <= tm_mday c < 32 ->
  let d := dos_timestmp_of localtime t in
  dos_hour d = tm_hour c /\ dos_min d = tm_min c /\ dos_sec d = 2 * (tm_sec c / 2) /\
  dos_year d = 1980 + (tm_year c - 1980) mod 128 /\ dos_year d <> 1900 + tm_year c.
Proof.
  intros Hc Hh Hm Hs Hy Hmo Hd d.
  unfold d. rewrite (dos_timestmp_of_value localtime t c) by done.
  unfold dos_hour, dos_min, dos_sec, dos_year. cbn [dos_time dos_date].
  change 63 with (Z.ones 6). change 31 with (Z.ones 5).
  rewrite !Z.shiftr_div_pow2, !Z.land_ones by lia.
  change (2 ^ 11) with 2048. change (2 ^ 5) with 32. change (2 ^ 6) with 64.
  change (2 ^ 9) with 512. repeat split; lia_div.
Qed.

Lemma dos_timestmp_fields_witness :
  dos_year (dos_timestmp_of (fun _ => Tm 59 30 12 1 5 124) 0) <> 1900 + 124 /\
  dos_year (dos_timestmp_of (fun _ => Tm 59 30 12 1 5 124) 0) = 2044.
Proof.
  destruct (dos_timestmp_fields (fun _ => Tm 59 30 12 1 5 124) 0 _ eq_refl) as (_ & _ & _ & Hy & Hne);
    simpl; try lia.
  split; [exact Hne|rewrite Hy; reflexivity].
Defined.
