(* ===== verification/ZipDirectory.v ===== *)
(** * The ZIP central directory

    Models src/src/XrdZip/XrdZipCDFH.hh and XrdZipDataDescriptor.hh. *)

From stdpp Require Import base tactics list list_numbers numbers option gmap.
From S2P Require Import Prelude ZipRecords.

(** ** [XrdZipDataDescriptor.hh] *)

Definition DataDescriptor_flag := Z.shiftl 1 3.

Definition DataDescriptor_GetSize (zip64 : bool) : Z :=
  if zip64 then 4 + 3 * 8 else 4 + 3 * 4.

(** ** [XrdZipCDFH.hh] *)

Record CDFH := MkCDFH {
  cd_zipVersion : Z;
  cd_minZipVersion : Z;
  cd_generalBitFlag : Z;
  cd_compressionMethod : Z;
  cd_timestmp : dos_timestmp;
  cd_ZCRC32 : Z;
  cd_compressedSize : Z;
  cd_uncompressedSize : Z;
  cd_filenameLength : Z;
  cd_extraLength : Z;
  cd_commentLength : Z;
  cd_nbDisk : Z;
  cd_internAttr : Z;
  cd_externAttr : Z;
  cd_offset : Z;
  cd_filename : bytes;
  cd_extra : option Extra;
  cd_comment : bytes;
  cd_cdfhSize : Z }.

Definition cdfhSign := 0x02014b50.
Definition cdfhBaseSize := 46.

(** [CDFH::CDFH( LFH *lfh, mode_t mode, uint64_t lfhOffset )]; the constructor
    reads [lfh->extra] without a test. *)
Definition CDFH_new (lfh : LFH) (mode lfhOffset : Z) : res CDFH :=
  match lfh_extra lfh with
  | None => Fault
  | Some lfh_ex =>
      let extra := Extra_of_extra lfh_ex lfhOffset in
      let offset := if max_u32 <=? lfhOffset then max_u32 else u32 lfhOffset in
      let extraLength := ex_totalSize extra in
      let minZipVersion := if extraLength =? 0 then 10 else 45 in
      Ok (MkCDFH (Z.lor (Z.shiftl 3 8) 63) minZipVersion (lfh_generalBitFlag lfh)
            (lfh_compressionMethod lfh) (lfh_timestmp lfh) (lfh_ZCRC32 lfh)
            (lfh_compressedSize lfh) (lfh_uncompressedSize lfh)
            (lfh_filenameLength lfh) extraLength 0 0 0 (u32 (Z.shiftl mode 16))
            offset (lfh_filename lfh) (Some extra) []
            (u16 (cdfhBaseSize + lfh_filenameLength lfh + extraLength + 0)))
  end.

(** [if( member == ovrflw<UINT>::value ) { ovrflws |= flag; exsize += size; }] *)
Definition note_overflow (c : bool) (flag size : Z) (acc : Z * Z) : Z * Z :=
  if c then (Z.lor acc.1 flag, u16 (acc.2 + size)) else acc.

(** [CDFH::ParseExtra]: the new value of the member [extra]. *)
Definition CDFH_ParseExtra (compressedSize uncompressedSize offset nbDisk : Z)
    (extra : option Extra) (buffer : bytes) (length : Z) : res (option Extra) :=
  let acc := (NONE, 0) in
  let acc := note_overflow (compressedSize =? max_u32) CPMSIZE 8 acc in
  let acc := note_overflow (uncompressedSize =? max_u32) UCMPSIZE 8 acc in
  let acc := note_overflow (offset =? max_u32) OFFSET 8 acc in
  let '(ovrflws, exsize) := note_overflow (nbDisk =? max_u16) NBDISK 4 acc in
  if exsize =? 0 then Ok extra else
  found ← Extra_Find buffer length;
  match found with
  | None => Ok extra
  | Some pos =>
      ex ← Extra_FromBuffer Extra_default (adv pos buffer) exsize ovrflws;
      Ok (Some ex)
  end.

(** [CDFH::CDFH( buffer, maxSize )]; the comment bytes are not read. *)
Definition CDFH_parse (buffer : bytes) (maxSize : Z) : res CDFH :=
  zipVersion ← to 2 4 buffer;
  minZipVersion ← to 2 6 buffer;
  generalBitFlag ← to 2 8 buffer;
  compressionMethod ← to 2 10 buffer;
  time ← to 2 12 buffer;
  date ← to 2 14 buffer;
  ZCRC32 ← to 4 16 buffer;
  compressedSize ← to 4 20 buffer;
  uncompressedSize ← to 4 24 buffer;
  filenameLength ← to 2 28 buffer;
  extraLength ← to 2 30 buffer;
  commentLength ← to 2 32 buffer;
  nbDisk ← to 2 34 buffer;
  internAttr ← to 2 36 buffer;
  externAttr ← to 4 38 buffer;
  offset ← to 4 42 buffer;
  if (0 <? maxSize)
     && (maxSize <? cdfhBaseSize + filenameLength + extraLength + commentLength)
  then BadData else
  filename ← rd_bytes filenameLength 46 buffer;
  extra ← CDFH_ParseExtra compressedSize uncompressedSize offset nbDisk None
            (adv (46 + filenameLength) buffer) extraLength;
  Ok (MkCDFH zipVersion minZipVersion generalBitFlag compressionMethod
        (DosTimestmp time date) ZCRC32 compressedSize uncompressedSize
        filenameLength extraLength commentLength nbDisk internAttr externAttr
        offset filename extra []
        (u16 (cdfhBaseSize + filenameLength + extraLength + commentLength))).

(** [cdvec_t], [cdmap_t] *)
Abbreviation cdvec_t := (list CDFH).
Abbreviation cdmap_t := (gmap (list Z) Z).

(** [CDFH::Parse( buffer, bufferSize, nbCdRecords )]: [n] turns are left. *)
Fixpoint CDFH_Parse_loop (n : nat) (i offset bufferSize : Z) (cdvec : cdvec_t)
    (cdmap : cdmap_t) (buffer : bytes) : res (cdvec_t * cdmap_t) :=
  match n with
  | O => Ok (cdvec, cdmap)
  | S n =>
      if bufferSize <? cdfhBaseSize then Ok (cdvec, cdmap) else
      signature ← to 4 0 (adv offset buffer);
      if negb (signature =? cdfhSign) then BadData else
      cdfh ← CDFH_parse (adv offset buffer) bufferSize;
      CDFH_Parse_loop n (i + 1)
        (u32 (offset + cd_cdfhSize cdfh)) (u32 (bufferSize - cd_cdfhSize cdfh))
        (cdvec ++ [cdfh]) (<[cd_filename cdfh := i]> cdmap) buffer
  end.

Definition CDFH_Parse (buffer : bytes) (bufferSize nbCdRecords : Z)
  : res (cdvec_t * cdmap_t) :=
  CDFH_Parse_loop (Z.to_nat nbCdRecords) 0 0 bufferSize [] ∅ buffer.

(** [CDFH::Parse( buffer, bufferSize )], which reads until the size is used up or
    a record has another signature; the third component is the advanced
    pointer. The fuel bounds the turns of the [while]. *)
Fixpoint CDFH_Parse_all (fuel : nat) (i bufferSize : Z) (cdvec : cdvec_t)
    (cdmap : cdmap_t) (buffer : bytes) : res (cdvec_t * cdmap_t * bytes) :=
  if bufferSize =? 0 then Ok (cdvec, cdmap, buffer) else
  match fuel with
  | O => Diverge
  | S fuel =>
      if bufferSize <? 4 then BadData else
      signature ← to 4 0 buffer;
      if negb (signature =? cdfhSign) then Ok (cdvec, cdmap, buffer) else
      cdfh ← CDFH_parse buffer 0;
      if bufferSize <? cd_cdfhSize cdfh then BadData else
      CDFH_Parse_all fuel (i + 1) (bufferSize - cd_cdfhSize cdfh)
        (cdvec ++ [cdfh]) (<[cd_filename cdfh := i]> cdmap)
        (adv (cd_cdfhSize cdfh) buffer)
  end.

(** [CDFH::GetOffset] *)
Definition CDFH_GetOffset (cdfh : CDFH) : res Z :=
  if negb (cd_offset cdfh =? max_u32) then Ok (cd_offset cdfh)
  else match cd_extra cdfh with
       | Some extra => Ok (ex_offset extra)
       | None => Fault
       end.

(** The fixed part of a record, as [CDFH::Serialize] lays it out. *)
Definition CDFH_fields (this : CDFH) : list (nat * Z) :=
  [(4%nat, cdfhSign); (2%nat, cd_zipVersion this); (2%nat, cd_minZipVersion this);
   (2%nat, cd_generalBitFlag this); (2%nat, cd_compressionMethod this);
   (2%nat, dos_time (cd_timestmp this)); (2%nat, dos_date (cd_timestmp this));
   (4%nat, cd_ZCRC32 this); (4%nat, cd_compressedSize this);
   (4%nat, cd_uncompressedSize this); (2%nat, cd_filenameLength this);
   (2%nat, cd_extraLength this); (2%nat, cd_commentLength this);
   (2%nat, cd_nbDisk this); (2%nat, cd_internAttr this);
   (4%nat, cd_externAttr this); (4%nat, cd_offset this)].

(** [CDFH::Serialize( buffer )] *)
Definition CDFH_Serialize (this : CDFH) (buffer : bytes) : bytes :=
  let buffer := buffer ++ layout (CDFH_fields this) in
  let buffer := buffer ++ cd_filename this in
  let buffer := match cd_extra this with
                | Some extra => Extra_Serialize extra buffer
                | None => buffer
                end in
  if 0 <? cd_commentLength this then buffer ++ cd_comment this else buffer.

(** [CDFH::Serialize( orgcdcnt, orgcdbuf, cdvec, buffer )] *)
Definition CDFH_Serialize_all (orgcdcnt : Z) (orgcdbuf : bytes) (cdvec : cdvec_t)
    (buffer : bytes) : res bytes :=
  if zlen cdvec <? orgcdcnt then Fault else
  Ok (foldl (fun buffer cdfh => CDFH_Serialize cdfh buffer)
        (buffer ++ orgcdbuf) (drop (Z.to_nat orgcdcnt) cdvec)).

(** [CDFH::CalcSize( cdvec, orgcdsz, orgcdcnt )] *)
Definition CDFH_CalcSize (cdvec : cdvec_t) (orgcdsz orgcdcnt : Z) : res Z :=
  if zlen cdvec <? orgcdcnt then Fault else
  Ok (foldl (fun size cdfh => u64 (size + cd_cdfhSize cdfh)) 0
        (drop (Z.to_nat orgcdcnt) cdvec) + orgcdsz).

Definition CDFH_IsZIP64 (this : CDFH) : bool := bool_decide (is_Some (cd_extra this)).

Definition CDFH_HasDataDescriptor (this : CDFH) : bool :=
  negb (Z.land (cd_generalBitFlag this) DataDescriptor_flag =? 0).

(** ** Records made by the constructor *)

(** [c] is the directory record the constructor makes for a file of size [fs]
    whose local header is at [off]: the members are within their widths. *)
Record CDFH_canonical (fs off : Z) (c : CDFH) : Prop := {
  cc_size : 0 <= fs < 2 ^ 63;
  cc_off : 0 <= off < 2 ^ 64;
  cc_version : 0 <= cd_zipVersion c < 2 ^ 16 /\ 0 <= cd_minZipVersion c < 2 ^ 16;
  cc_flags : 0 <= cd_generalBitFlag c < 2 ^ 16 /\ 0 <= cd_compressionMethod c < 2 ^ 16;
  cc_time : 0 <= dos_time (cd_timestmp c) < 2 ^ 16 /\ 0 <= dos_date (cd_timestmp c) < 2 ^ 16;
  cc_crc : 0 <= cd_ZCRC32 c < 2 ^ 32;
  cc_sizes : cd_compressedSize c = initSize fs /\ cd_uncompressedSize c = initSize fs;
  cc_name : zlen (cd_filename c) = cd_filenameLength c;
  cc_extra : cd_extra c = Some (Extra_of_extra (Extra_of_size fs) off);
  cc_extraLength :
    cd_extraLength c = ex_totalSize (Extra_of_extra (Extra_of_size fs) off);
  cc_comment : cd_commentLength c = 0 /\ cd_comment c = [];
  cc_attr : cd_nbDisk c = 0 /\ cd_internAttr c = 0 /\ 0 <= cd_externAttr c < 2 ^ 32;
  cc_offset : cd_offset c = if max_u32 <=? off then max_u32 else off;
  cc_len : cd_cdfhSize c = cdfhBaseSize + cd_filenameLength c + cd_extraLength c;
  cc_fit : cd_cdfhSize c < 2 ^ 16 }.

(** What a reader gets back: the extra field only when something overflowed. *)
Definition CDFH_recovered (fs off : Z) (c : CDFH) : CDFH :=
  MkCDFH (cd_zipVersion c) (cd_minZipVersion c) (cd_generalBitFlag c)
    (cd_compressionMethod c) (cd_timestmp c) (cd_ZCRC32 c) (cd_compressedSize c)
    (cd_uncompressedSize c) (cd_filenameLength c) (cd_extraLength c)
    (cd_commentLength c) (cd_nbDisk c) (cd_internAttr c) (cd_externAttr c)
    (cd_offset c) (cd_filename c)
    (if (max_u32 <=? fs) || (max_u32 <=? off)
     then Some (Extra_recovered fs off) else None)
    (cd_comment c) (cd_cdfhSize c).

Lemma Extra_totalSize_bound fs off :
  0 <= ex_totalSize (Extra_of_extra (Extra_of_size fs) off) <= 28.
Proof. rewrite Extra_of_extra_cases. repeat case_match; simpl; lia. Qed.

Lemma CDFH_new_canonical localtime filename crc fs time mode off :
  cdfhBaseSize + zlen filename + 28 < 2 ^ 16 -> 0 <= crc < 2 ^ 32 ->
  0 <= fs < 2 ^ 63 -> 0 <= off < 2 ^ 64 ->
  exists c, CDFH_new (LFH_new localtime filename crc fs time) mode off = Ok c /\
    cd_filename c = filename /\ CDFH_canonical fs off c.
Proof.
  intros Hn Hc Hfs Hoff. unfold cdfhBaseSize in Hn. pose proof (zlen_nonneg filename).
  unfold CDFH_new. rewrite LFH_new_extra by done.
  pose proof (Extra_totalSize_bound fs 0). pose proof (Extra_totalSize_bound fs off).
  assert (Extra_of_extra (Extra_of_extra (Extra_of_size fs) 0) off
          = Extra_of_extra (Extra_of_size fs) off) as ->.
  { rewrite !Extra_of_extra_cases. unfold Extra_of_extra. change (max_u32 <=? 0) with false.
    by repeat case_match. }
  set (ex := Extra_of_extra (Extra_of_size fs) off) in *.
  eexists. split; [reflexivity|]. split; [done|].
  assert (u16 (zlen filename) = zlen filename) as Hfl by (apply u16_small; lia).
  split; simpl; rewrite ?Hfl; try done; try apply or_field_range; try apply u32_range.
  - split; [split; vm_compute; done|]. case_match; lia.
  - split; apply or_field_range.
  - repeat split; apply u32_range.
  - destruct (Z.leb_spec max_u32 off); [done|]. apply u32_small. unfold max_u32 in *. lia.
  - rewrite u16_small; unfold cdfhBaseSize; lia.
  - apply u16_range.
Qed.

(** ** Reading a record back *)

Lemma CDFH_Serialize_app c buf : CDFH_Serialize c buf = buf ++ CDFH_Serialize c [].
Proof.
  unfold CDFH_Serialize. destruct (cd_extra c) as [ex|].
  - rewrite !(Extra_Serialize_app ex (_ ++ _)). case_match; by rewrite <- !app_assoc.
  - case_match; by rewrite <- !app_assoc.
Qed.

Lemma CDFH_Serialize_layout c :
  CDFH_Serialize c [] = layout (CDFH_fields c) ++ cd_filename c
    ++ match cd_extra c with Some ex => Extra_Serialize ex [] | None => [] end
    ++ (if 0 <? cd_commentLength c then cd_comment c else []).
Proof.
  unfold CDFH_Serialize. destruct (cd_extra c) as [ex|].
  - rewrite (Extra_Serialize_app ex (_ ++ _)). case_match; by rewrite <- ?app_assoc, ?app_nil_r.
  - case_match; by rewrite <- ?app_assoc, ?app_nil_r.
Qed.

(** The bytes of a canonical record: fixed part, name, extra field. *)
Lemma CDFH_Serialize_canonical fs off c :
  CDFH_canonical fs off c ->
  CDFH_Serialize c [] = layout (CDFH_fields c) ++ cd_filename c
    ++ Extra_Serialize (Extra_of_extra (Extra_of_size fs) off) [].
Proof.
  intros H. unfold CDFH_Serialize. rewrite (cc_extra _ _ _ H).
  destruct (cc_comment _ _ _ H) as [-> _]. simpl.
  rewrite (Extra_Serialize_app _ (_ ++ _)). by rewrite <- app_assoc.
Qed.

Lemma CDFH_Serialize_zlen fs off c :
  CDFH_canonical fs off c -> zlen (CDFH_Serialize c []) = cd_cdfhSize c.
Proof.
  intros H. rewrite (CDFH_Serialize_canonical _ _ _ H).
  rewrite !zlen_app, zlen_layout, Extra_Serialize_zlen, (cc_name _ _ _ H),
    (cc_len _ _ _ H), (cc_extraLength _ _ _ H). unfold cdfhBaseSize. simpl widths. lia.
Qed.

(** Read field [i] of a record laid out by [CDFH_fields]. *)
Lemma bind_to_layout {B} i fs k n z off (f : Z -> res B) r :
  fs !! i = Some (n, z) -> off = widths (take i fs) -> 0 <= z < 2 ^ (8 * Z.of_nat n) ->
  f z = r -> to n off (layout fs ++ k) ≫= f = r.
Proof. intros Hi Ho Hz <-. unfold to. by rewrite (rd_layout i fs k n z off). Qed.

Ltac cd_field i :=
  eapply (bind_to_layout i); [reflexivity|reflexivity|simpl; first [lia|by vm_compute]|cbv beta].

(** The flags and the expected size [ParseExtra] computes for a new record. *)
Lemma note_overflow_acc big_size big_off :
  note_overflow (0 =? max_u16) NBDISK 4
    (note_overflow big_off OFFSET 8
       (note_overflow big_size UCMPSIZE 8 (note_overflow big_size CPMSIZE 8 (NONE, 0))))
  = (overflow_flags big_size big_off,
     (if big_size then 16 else 0) + (if big_off then 8 else 0)).
Proof. by destruct big_size, big_off. Qed.

Lemma CDFH_ParseExtra_canonical fs off c rest :
  CDFH_canonical fs off c ->
  CDFH_ParseExtra (cd_compressedSize c) (cd_uncompressedSize c) (cd_offset c)
    (cd_nbDisk c) None
    (Extra_Serialize (Extra_of_extra (Extra_of_size fs) off) [] ++ rest)
    (cd_extraLength c)
  = Ok (if (max_u32 <=? fs) || (max_u32 <=? off)
        then Some (Extra_recovered fs off) else None).
Proof.
  intros H. destruct (cc_sizes _ _ _ H) as [-> ->]. destruct (cc_attr _ _ _ H) as [-> _].
  rewrite (cc_offset _ _ _ H), (cc_extraLength _ _ _ H).
  pose proof (cc_size _ _ _ H). pose proof (cc_off _ _ _ H).
  unfold CDFH_ParseExtra. rewrite initSize_overflow by lia.
  pose proof (Extra_Find_serialized fs off rest) as HF.
  pose proof (Extra_FromBuffer_serialized fs off rest ltac:(lia) ltac:(lia)) as HB.
  assert (((if max_u32 <=? off then max_u32 else off) =? max_u32) = (max_u32 <=? off)) as ->.
  { destruct (Z.leb_spec max_u32 off); [apply Z.eqb_refl|]. apply Z.eqb_neq. lia. }
  assert (ex_dataSize (Extra_of_extra (Extra_of_size fs) off)
    = (if max_u32 <=? fs then 16 else 0) + (if max_u32 <=? off then 8 else 0)) as Hds.
  { rewrite Extra_of_extra_cases. by repeat case_match. }
  rewrite Hds in HB. cbv zeta. rewrite note_overflow_acc.
  destruct (Z.leb_spec max_u32 fs), (Z.leb_spec max_u32 off); [| | |done];
    cbn [Z.eqb Z.add orb Pos.add Pos.succ]; rewrite HF by lia; step_ok; rewrite adv_0;
    cbn [Z.add Pos.add Pos.succ] in HB; by rewrite HB by lia.
Qed.

Lemma CDFH_parse_canonical fs off c rest maxSize :
  CDFH_canonical fs off c -> maxSize = 0 \/ cd_cdfhSize c <= maxSize ->
  CDFH_parse (CDFH_Serialize c [] ++ rest) maxSize = Ok (CDFH_recovered fs off c).
Proof.
  intros H Hmax. rewrite (CDFH_Serialize_canonical _ _ _ H), <- !app_assoc.
  pose proof (CDFH_ParseExtra_canonical fs off c rest H) as HP.
  pose proof (Extra_totalSize_bound fs off). pose proof (initSize_range fs).
  pose proof (cc_len _ _ _ H) as Hlen. pose proof (cc_fit _ _ _ H) as Hfit.
  pose proof (zlen_nonneg (cd_filename c)). pose proof (cc_off _ _ _ H).
  rewrite (cc_name _ _ _ H) in *. rewrite <- (cc_extraLength _ _ _ H) in *.
  unfold cdfhBaseSize in *.
  destruct (cc_version _ _ _ H), (cc_flags _ _ _ H), (cc_time _ _ _ H), (cc_sizes _ _ _ H),
    (cc_comment _ _ _ H) as [H12 H13], (cc_attr _ _ _ H) as (? & ? & ?).
  assert (0 <= cd_offset c < 2 ^ 32).
  { rewrite (cc_offset _ _ _ H). unfold max_u32. zcases. }
  pose proof (cc_crc _ _ _ H). unfold CDFH_parse.
  cd_field 1%nat. cd_field 2%nat. cd_field 3%nat. cd_field 4%nat. cd_field 5%nat.
  cd_field 6%nat. cd_field 7%nat. cd_field 8%nat. cd_field 9%nat. cd_field 10%nat.
  cd_field 11%nat. cd_field 12%nat. cd_field 13%nat. cd_field 14%nat. cd_field 15%nat.
  cd_field 16%nat.
  unfold cdfhBaseSize.
  replace ((0 <? maxSize) && _) with false by (symmetry; zcases; done).
  assert (zlen (layout (CDFH_fields c)) = 46) as H46 by (rewrite zlen_layout; reflexivity).
  rewrite rd_bytes_skip by lia. rewrite H46. simpl (46 - 46).
  rewrite rd_bytes_here by (symmetry; apply (cc_name _ _ _ H)). step_ok.
  rewrite app_assoc, (adv_app_exact (_ ++ _))
    by (rewrite zlen_app, H46, (cc_name _ _ _ H); lia).
  rewrite HP. step_ok. unfold CDFH_recovered. rewrite H12, H13, (u16_small (46 + _ + _ + 0)) by lia.
  replace (46 + cd_filenameLength c + cd_extraLength c + 0) with (cd_cdfhSize c) by lia.
  by destruct (cd_timestmp c).
Qed.

(** ** A whole directory *)

(** A record with the file size and header offset it was made for. *)
Abbreviation entry := (Z * Z * CDFH)%type.

Definition entry_ok (e : entry) : Prop := CDFH_canonical e.1.1 e.1.2 e.2.

Definition entry_read (e : entry) : CDFH := CDFH_recovered e.1.1 e.1.2 e.2.

(** The bytes of a directory. *)
Definition cd_bytes (es : list entry) : bytes :=
  mjoin ((fun e => CDFH_Serialize e.2 []) <$> es).

(** The name map after records [es] numbered from [i] were read. *)
Fixpoint cd_index (i : Z) (m : cdmap_t) (es : list entry) : cdmap_t :=
  match es with
  | [] => m
  | e :: es => cd_index (i + 1) (<[cd_filename e.2 := i]> m) es
  end.

Lemma cd_bytes_cons e es : cd_bytes (e :: es) = CDFH_Serialize e.2 [] ++ cd_bytes es.
Proof. done. Qed.

Lemma cd_bytes_app es es' : cd_bytes (es ++ es') = cd_bytes es ++ cd_bytes es'.
Proof. unfold cd_bytes. by rewrite fmap_app, join_app. Qed.

Lemma entry_read_fields e :
  cd_filename (entry_read e) = cd_filename e.2 /\ cd_cdfhSize (entry_read e) = cd_cdfhSize e.2.
Proof. done. Qed.

Lemma entry_size_bound e : entry_ok e -> cdfhBaseSize <= cd_cdfhSize e.2 < 2 ^ 16.
Proof.
  intros H. pose proof (cc_fit _ _ _ H). pose proof (cc_len _ _ _ H).
  pose proof (cc_name _ _ _ H). pose proof (zlen_nonneg (cd_filename e.2)).
  pose proof (cc_extraLength _ _ _ H). pose proof (Extra_totalSize_bound e.1.1 e.1.2). lia.
Qed.

Lemma entry_bytes_zlen e : entry_ok e -> zlen (CDFH_Serialize e.2 []) = cd_cdfhSize e.2.
Proof. apply CDFH_Serialize_zlen. Qed.

Lemma cd_signature c rest : to 4 0 (CDFH_Serialize c [] ++ rest) = Ok cdfhSign.
Proof.
  rewrite (CDFH_Serialize_layout c), <- app_assoc.
  apply (rd_layout 0 _ _ _ _ 0); [done|done|vm_compute; done].
Qed.

(** The bounded reader over a block whose directory starts at [offset]. *)
Lemma CDFH_Parse_loop_entries es : forall i pre rest bufferSize vec m,
  Forall entry_ok es ->
  zlen pre + zlen (cd_bytes es) < 2 ^ 32 ->
  zlen (cd_bytes es) <= bufferSize < 2 ^ 32 ->
  CDFH_Parse_loop (length es) i (zlen pre) bufferSize vec m (pre ++ cd_bytes es ++ rest)
  = Ok (vec ++ (entry_read <$> es), cd_index i m es).
Proof.
  induction es as [|e es IH]; intros i pre rest bufferSize vec m Hok Hlen Hbs.
  - simpl. by rewrite app_nil_r.
  - apply Forall_cons in Hok as [He Hok]. rewrite cd_bytes_cons in *.
    rewrite zlen_app, (entry_bytes_zlen e) in * by done.
    pose proof (entry_size_bound e He). pose proof (zlen_nonneg (cd_bytes es)).
    pose proof (zlen_nonneg pre). unfold cdfhBaseSize in *.
    cbn [CDFH_Parse_loop length]. unfold cdfhBaseSize. destruct (Z.ltb_spec bufferSize 46); [lia|].
    rewrite (adv_app_exact pre) by done. rewrite <- app_assoc, cd_signature. step_ok.
    change (negb (cdfhSign =? cdfhSign)) with false. cbv iota.
    rewrite (CDFH_parse_canonical e.1.1 e.1.2 e.2) by (done || (right; lia)). step_ok.
    change (CDFH_recovered e.1.1 e.1.2 e.2) with (entry_read e).
    destruct (entry_read_fields e) as [-> ->].
    rewrite !u32_small by lia.
    replace (zlen pre + cd_cdfhSize e.2) with (zlen (pre ++ CDFH_Serialize e.2 []))
      by (rewrite zlen_app, (entry_bytes_zlen e); done).
    rewrite (app_assoc pre), IH; [|done|rewrite zlen_app, entry_bytes_zlen by done; lia|lia].
    cbn [fmap list_fmap cd_index]. by rewrite <- app_assoc.
Qed.

(** The reader that stops at another signature, with enough fuel. *)
Lemma CDFH_Parse_all_entries es : forall fuel i bufferSize vec m rest,
  Forall entry_ok es -> (length es < fuel)%nat ->
  zlen (cd_bytes es) + 4 <= bufferSize ->
  (exists s, to 4 0 rest = Ok s /\ s <> cdfhSign) ->
  CDFH_Parse_all fuel i bufferSize vec m (cd_bytes es ++ rest)
  = Ok (vec ++ (entry_read <$> es), cd_index i m es, rest).
Proof.
  induction es as [|e es IH]; intros [|fuel] i bufferSize vec m rest Hok Hf Hbs (s & Hs & Hne);
    cbn [length] in Hf; try lia.
  - change (cd_bytes []) with (@nil Z) in *. rewrite zlen_nil in Hbs.
    cbn [CDFH_Parse_all app fmap list_fmap cd_index].
    destruct (Z.eqb_spec bufferSize 0); [lia|]. destruct (Z.ltb_spec bufferSize 4); [lia|].
    rewrite Hs. step_ok. rewrite app_nil_r. by destruct (Z.eqb_spec s cdfhSign).
  - apply Forall_cons in Hok as [He Hok]. rewrite cd_bytes_cons in *.
    rewrite zlen_app, (entry_bytes_zlen e) in * by done.
    pose proof (entry_size_bound e He). pose proof (zlen_nonneg (cd_bytes es)).
    unfold cdfhBaseSize in *. cbn [CDFH_Parse_all].
    destruct (Z.eqb_spec bufferSize 0); [lia|]. destruct (Z.ltb_spec bufferSize 4); [lia|].
    rewrite <- app_assoc, cd_signature. step_ok.
    change (negb (cdfhSign =? cdfhSign)) with false. cbv iota.
    rewrite (CDFH_parse_canonical e.1.1 e.1.2 e.2) by (done || (left; lia)). step_ok.
    change (CDFH_recovered e.1.1 e.1.2 e.2) with (entry_read e).
    destruct (entry_read_fields e) as [-> ->].
    destruct (Z.ltb_spec bufferSize (cd_cdfhSize e.2)); [lia|].
    rewrite adv_app_exact by (rewrite (entry_bytes_zlen e); done).
    rewrite IH by (done || lia || eauto). cbn [fmap list_fmap cd_index]. by rewrite <- app_assoc.
Qed.

(** Record [n] is the last one called [name]. *)
Definition last_named (es : list entry) (name : bytes) (n : nat) : Prop :=
  (exists e, es !! n = Some e /\ cd_filename e.2 = name) /\
  forall n' e', (n < n')%nat -> es !! n' = Some e' -> cd_filename e'.2 <> name.

Lemma last_named_cons e es name n :
  last_named (e :: es) name n <->
  match n with
  | O => cd_filename e.2 = name /\ forall n' e', es !! n' = Some e' -> cd_filename e'.2 <> name
  | S n => last_named es name n
  end.
Proof.
  unfold last_named. destruct n as [|n]; split.
  - intros [(e' & He & Hn) H]. injection He as <-. split; [done|].
    intros n' e' He. apply (H (S n')); [lia|done].
  - intros [Hn H]. split; [by exists e|]. intros [|n'] e' Hlt He; [lia|]. by apply (H n').
  - intros [(e' & He & Hn) H]. split; [by exists e'|]. intros n' e'' Hlt He'.
    apply (H (S n')); [lia|done].
  - intros [(e' & He & Hn) H]. split; [by exists e'|]. intros [|n'] e'' Hlt He'; [lia|].
    apply (H n'); [lia|done].
Qed.

(** The map sends a name to the last record that has it. *)
Lemma cd_index_lookup es : forall i m name k,
  cd_index i m es !! name = Some k <->
  (exists n, k = i + Z.of_nat n /\ last_named es name n) \/
  (m !! name = Some k /\ forall n e, es !! n = Some e -> cd_filename e.2 <> name).
Proof.
  induction es as [|e es IH]; intros i m name k; cbn [cd_index].
  - split; [by right|]. intros [(n & _ & (e & He & _) & _)|[? _]]; done.
  - rewrite IH. clear IH. split.
    + intros [(n & -> & Hl)|[Hm Hno]].
      * left. exists (S n). split; [lia|]. by apply last_named_cons.
      * apply lookup_insert_Some in Hm as [[<- <-]|[Hne Hm]].
        -- left. exists 0%nat. split; [lia|]. by apply last_named_cons.
        -- right. split; [done|]. intros [|n] e' He; [by injection He as <-|by eapply Hno].
    + intros [([|n] & -> & Hl)|[Hm Hno]]; [apply last_named_cons in Hl..|].
      * right. destruct Hl as [<- Hno]. split; [|done].
        replace (i + Z.of_nat 0) with i by lia. apply lookup_insert_eq.
      * left. exists n. split; [lia|done].
      * right. split; [|intros n e'; apply (Hno (S n))].
        rewrite lookup_insert_ne; [done|]. by apply (Hno 0%nat).
Qed.

(** Writing a directory: the records kept from an existing archive followed by
    the new ones. *)
Lemma CDFH_Serialize_foldl es buf :
  foldl (fun buffer cdfh => CDFH_Serialize cdfh buffer) buf (snd <$> es) = buf ++ cd_bytes es.
Proof.
  revert buf. induction es as [|e es IH]; intros buf; cbn [fmap list_fmap foldl].
  - by rewrite app_nil_r.
  - rewrite IH, cd_bytes_cons, CDFH_Serialize_app. by rewrite <- app_assoc.
Qed.

Lemma cd_sizes_foldl es size :
  Forall entry_ok es -> 0 <= size -> size + zlen (cd_bytes es) < 2 ^ 64 ->
  foldl (fun size cdfh => u64 (size + cd_cdfhSize cdfh)) size (snd <$> es)
  = size + zlen (cd_bytes es).
Proof.
  revert size. induction es as [|e es IH]; intros size Hok Hs Hlt; cbn [fmap list_fmap foldl].
  - change (cd_bytes []) with (@nil Z). rewrite zlen_nil. lia.
  - apply Forall_cons in Hok as [He Hok]. rewrite cd_bytes_cons, zlen_app in *.
    rewrite (entry_bytes_zlen e) in * by done. pose proof (entry_size_bound e He).
    pose proof (zlen_nonneg (cd_bytes es)). unfold cdfhBaseSize in *.
    rewrite u64_small by lia. rewrite IH by (done || lia). lia.
Qed.

Lemma drop_old (old new : list entry) :
  drop (Z.to_nat (zlen old)) (snd <$> (old ++ new)) = snd <$> new.
Proof.
  unfold zlen. rewrite Nat2Z.id, fmap_app. rewrite drop_app_ge by (rewrite length_fmap; lia).
  by rewrite length_fmap, Nat.sub_diag.
Qed.

(** The offset of the local header is recovered, from the extra field if need be. *)
Lemma entry_GetOffset e : entry_ok e -> CDFH_GetOffset (entry_read e) = Ok e.1.2.
Proof.
  intros H. unfold CDFH_GetOffset, entry_read. cbn [cd_offset cd_extra CDFH_recovered].
  rewrite (cc_offset _ _ _ H). destruct (Z.leb_spec max_u32 e.1.2) as [|Hlt].
  - rewrite Z.eqb_refl. cbn [negb]. rewrite orb_true_r. unfold Extra_recovered.
    rewrite Extra_of_extra_cases. by repeat case_match; try lia.
  - destruct (Z.eqb_spec e.1.2 max_u32); [lia|done].
Qed.

(** C1: A central directory written by CDFH::Serialize - the records kept from
    the opened archive followed by the new ones - has the size CDFH::CalcSize
    announces, and CDFH::Parse with its record count reads every record back
    in order with the local header offset it was written with (taken from the
    ZIP64 extra field when it does not fit 32 bits), and the name index sends
    a name to exactly the last record that carries it. *)
Theorem central_directory_roundtrip (old new : list entry) (rest : bytes) bufferSize :
  Forall entry_ok (old ++ new) ->
  zlen (cd_bytes (old ++ new)) <= bufferSize < 2 ^ 32 -> zlen (old ++ new) < 2 ^ 16 ->
  let cdvec := snd <$> (old ++ new) in
  exists buf cdmap,
    CDFH_Serialize_all (zlen old) (cd_bytes old) cdvec [] = Ok buf /\
    CDFH_CalcSize cdvec (zlen (cd_bytes old)) (zlen old) = Ok (zlen buf) /\
    CDFH_Parse (buf ++ rest) bufferSize (zlen cdvec)
      = Ok (entry_read <$> (old ++ new), cdmap) /\
    (forall name k, cdmap !! name = Some k <->
       exists n, k = Z.of_nat n /\ last_named (old ++ new) name n) /\
    Forall (fun e => CDFH_GetOffset (entry_read e) = Ok e.1.2) (old ++ new).
Proof.
  intros Hok Hbs Hcnt cdvec. exists (cd_bytes (old ++ new)), (cd_index 0 ∅ (old ++ new)).
  assert ((zlen cdvec <? zlen old) = false) as Hlt.
  { apply Z.ltb_ge. unfold cdvec, zlen. rewrite length_fmap, length_app. lia. }
  rewrite cd_bytes_app, zlen_app in Hbs.
  pose proof (zlen_nonneg (cd_bytes new)). pose proof (zlen_nonneg (cd_bytes old)).
  split_and!; [..|intros name k; split|].
  - unfold CDFH_Serialize_all. rewrite Hlt. unfold cdvec.
    by rewrite drop_old, CDFH_Serialize_foldl, cd_bytes_app.
  - unfold CDFH_CalcSize. rewrite Hlt. unfold cdvec. rewrite drop_old, cd_sizes_foldl;
      [|by apply Forall_app in Hok as [_ ?]|lia|lia].
    rewrite cd_bytes_app, zlen_app. f_equal. lia.
  - unfold CDFH_Parse, cdvec. unfold zlen at 1. rewrite length_fmap, Nat2Z.id.
    pose proof (CDFH_Parse_loop_entries (old ++ new) 0 [] rest bufferSize [] ∅ Hok) as HP.
    rewrite zlen_nil in HP. apply HP; rewrite cd_bytes_app, zlen_app; lia.
  - intros Hk. apply cd_index_lookup in Hk as [(n & -> & Hn)|[? _]]; [by exists n|done].
  - intros (n & -> & Hn). apply cd_index_lookup. left. by exists n.
  - eapply Forall_impl; [exact Hok|]. apply entry_GetOffset.
Qed.

(** Two records of an archive: a small file, and one that is large and lies far
    into the archive. *)
Definition sample_entry (name : bytes) (fs off : Z) : entry :=
  (fs, off,
   match CDFH_new (LFH_new (fun _ => Tm 0 0 0 0 0 0) name 7 fs 0) 0x81a4 off with
   | Ok c => c
   | _ => MkCDFH 0 0 0 0 (DosTimestmp 0 0) 0 0 0 0 0 0 0 0 0 0 [] None [] 0
   end).

Lemma sample_entry_ok name fs off :
  cdfhBaseSize + zlen name + 28 < 2 ^ 16 -> 0 <= fs < 2 ^ 63 -> 0 <= off < 2 ^ 64 ->
  entry_ok (sample_entry name fs off).
Proof.
  intros. unfold sample_entry, entry_ok; cbn [fst snd].
  destruct (CDFH_new_canonical (fun _ => Tm 0 0 0 0 0 0) name 7 fs 0 0x81a4 off)
    as (c & -> & _ & Hc); [done|lia|done|done|done].
Qed.

Lemma central_directory_roundtrip_witness :
  let old := [sample_entry [97] 5 0] in
  let new := [sample_entry [98; 99] (2 ^ 33) (2 ^ 34); sample_entry [97] 6 36] in
  exists buf cdmap,
    CDFH_Serialize_all 1 (cd_bytes old) (snd <$> (old ++ new)) [] = Ok buf /\
    zlen buf = 170 /\
    CDFH_Parse (buf ++ [0]) 170 3 = Ok (entry_read <$> (old ++ new), cdmap) /\
    cdmap !! [97] = Some 2.
Proof.
  intros old new.
  assert (Forall entry_ok (old ++ new)) as Hok.
  { repeat (apply Forall_cons; split; [apply sample_entry_ok; [vm_compute; done|lia|lia]|]).
    by apply Forall_nil. }
  assert (zlen (cd_bytes (old ++ new)) = 170) as Hz by (vm_compute; done).
  destruct (central_directory_roundtrip old new [0] 170 Hok) as (buf & m & H1 & H2 & H3 & H4 & _);
    [rewrite Hz; lia|vm_compute; done|].
  exists buf, m. split_and!; [exact H1| |exact H3|].
  - assert (CDFH_CalcSize (snd <$> (old ++ new)) (zlen (cd_bytes old)) (zlen old) = Ok 170)
      as E by (vm_compute; reflexivity).
    rewrite E in H2. by injection H2.
  - apply H4. exists 2%nat. split; [done|]. split; [by eexists|].
    intros n' e' Hlt He'. apply lookup_lt_Some in He'. simpl in He'. lia.
Defined.

(** C40: The reader that runs until another signature terminates on every
    written directory and returns the records, the name index and the pointer
    to the first byte after the directory. *)
Theorem CDFH_Parse_all_roundtrip (es : list entry) (rest : bytes) bufferSize sign :
  Forall entry_ok es -> zlen (cd_bytes es) + 4 <= bufferSize < 2 ^ 32 ->
  to 4 0 rest = Ok sign -> sign <> cdfhSign ->
  exists fuel0 cdmap, forall fuel, (fuel0 <= fuel)%nat ->
    CDFH_Parse_all fuel 0 bufferSize [] ∅ (cd_bytes es ++ rest)
    = Ok (entry_read <$> es, cdmap, rest) /\
    (forall name k, cdmap !! name = Some k <->
       exists n, k = Z.of_nat n /\ last_named es name n).
Proof.
  intros Hok Hbs Hs Hne. exists (S (length es)), (cd_index 0 ∅ es). intros fuel Hf. split.
  - pose proof (CDFH_Parse_all_entries es fuel 0 bufferSize [] ∅ rest Hok) as HP.
    rewrite HP by (lia || eauto). done.
  - intros name k. rewrite cd_index_lookup. split.
    + intros [(n & -> & Hn)|[? _]]; [by exists n|done].
    + intros (n & -> & Hn). left. by exists n.
Qed.

Lemma CDFH_Parse_all_roundtrip_witness :
  exists fuel cdmap,
    CDFH_Parse_all fuel 0 100 [] ∅ (cd_bytes [sample_entry [97] 5 0] ++ [80; 75; 5; 6])
    = Ok (entry_read <$> [sample_entry [97] 5 0], cdmap, [80; 75; 5; 6]).
Proof.
  destruct (CDFH_Parse_all_roundtrip [sample_entry [97] 5 0] [80; 75; 5; 6] 100 0x06054b50)
    as (f & m & H); [|split; vm_compute; done|vm_compute; done|done|].
  { apply Forall_cons. split; [|by apply Forall_nil].
    apply sample_entry_ok; [vm_compute; done|lia|lia]. }
  exists f, m. by apply H.
Defined.

(** ** A record that makes the reader loop *)

(** A record whose four lengths add up to 2^16: [cdfhSize] wraps to 0. *)
Definition looping_record : bytes :=
  layout [(4%nat, cdfhSign); (8%nat, 0); (8%nat, 0); (8%nat, 0); (2%nat, 65490); (2%nat, 0);
          (2%nat, 0); (8%nat, 0); (4%nat, 0)] ++ replicate (Z.to_nat 65490) 97.

Lemma looping_record_parse :
  to 4 0 looping_record = Ok cdfhSign /\
  exists c, CDFH_parse looping_record 0 = Ok c /\ cd_cdfhSize c = 0.
Proof.
  split; [vm_compute; reflexivity|].
  assert (match CDFH_parse looping_record 0 with
          | Ok c => cd_cdfhSize c =? 0
          | _ => false
          end = true) as H by (vm_compute; reflexivity).
  destruct (CDFH_parse looping_record 0) as [c| | |]; try discriminate.
  exists c. split; [done|]. by apply Z.eqb_eq.
Qed.

Lemma CDFH_Parse_all_stuck c fuel : forall i vec m,
  CDFH_parse looping_record 0 = Ok c -> cd_cdfhSize c = 0 ->
  CDFH_Parse_all fuel i (2 ^ 16) vec m looping_record = Diverge.
Proof.
  destruct looping_record_parse as [Hs _].
  induction fuel as [|fuel IH]; intros i vec m Hp Hc; cbn [CDFH_Parse_all];
    change (2 ^ 16 =? 0) with false; change (2 ^ 16 <? 4) with false; cbv iota; [done|].
  rewrite Hs. step_ok. rewrite Hp. step_ok. rewrite Hc. change (2 ^ 16 <? 0) with false.
  change (2 ^ 16 - 0) with (2 ^ 16). rewrite adv_0. by apply IH.
Qed.

(** On a 64 KiB block whose record has name, extra and comment lengths
    that add up to 2^16 with the fixed part, cdfhSize wraps to 0 and the
    reader loops for ever. *)
Theorem CDFH_Parse_all_diverges :
  Forall is_byte looping_record /\ zlen looping_record = 2 ^ 16 /\
  forall fuel, CDFH_Parse_all fuel 0 (zlen looping_record) [] ∅ looping_record = Diverge.
Proof.
  assert (zlen looping_record = 2 ^ 16) as Hz by (vm_compute; reflexivity).
  split; [|split; [done|]].
  - apply Forall_app. split; [unfold layout; repeat (apply Forall_app; split); auto with xrd|].
    apply Forall_replicate. unfold is_byte. lia.
  - intros fuel. rewrite Hz. destruct looping_record_parse as [_ (c & Hp & Hc)].
    by apply (CDFH_Parse_all_stuck c).
Qed.
