(* ===== verification/ZipEnd.v ===== *)
(** * The end of a ZIP archive and the archive object's directory

    Models src/src/XrdZip/XrdZipEOCD.hh, XrdZipZIP64EOCD.hh and
    XrdZipZIP64EOCDL.hh, and the two routines of src/src/XrdCl/XrdClZipArchive.cc
    that write the directory of an archive ([GetCD]) and read it ([SetCD]). *)

From stdpp Require Import base tactics list list_numbers numbers option gmap.
From S2P Require Import Prelude ZipRecords ZipDirectory.

(** ** [XrdZipEOCD.hh] *)

Record EOCD := MkEOCD {
  eo_nbDisk : Z; eo_nbDiskCd : Z; eo_nbCdRecD : Z; eo_nbCdRec : Z;
  eo_cdSize : Z; eo_cdOffset : Z; eo_commentLength : Z; eo_comment : bytes;
  eo_eocdSize : Z; eo_useZip64 : bool }.

Definition eocdSign := 0x06054b50.
Definition eocdBaseSize := 22.

(** [EOCD::Find]: [n - 1] is the offset tried next, from high to low. *)
Fixpoint EOCD_Find_loop (n : nat) (buffer : bytes) : res (option Z) :=
  match n with
  | O => Ok None
  | S n =>
      signature ← to 4 (Z.of_nat n) buffer;
      if signature =? eocdSign then Ok (Some (Z.of_nat n)) else EOCD_Find_loop n buffer
  end.

Definition EOCD_Find (buffer : bytes) (size : Z) : res (option Z) :=
  let offset := size - eocdBaseSize in
  EOCD_Find_loop (Z.to_nat (offset + 1)) buffer.

(** [EOCD::EOCD( buffer, maxSize )] *)
Definition EOCD_parse (buffer : bytes) (maxSize : Z) : res EOCD :=
  nbDisk ← to 2 4 buffer;
  nbDiskCd ← to 2 6 buffer;
  nbCdRecD ← to 2 8 buffer;
  nbCdRec ← to 2 10 buffer;
  cdSize ← to 4 12 buffer;
  cdOffset ← to 4 16 buffer;
  commentLength ← to 2 20 buffer;
  if (0 <? maxSize) && (maxSize <? eocdBaseSize + commentLength) then BadData else
  comment ← rd_bytes commentLength 22 buffer;
  Ok (MkEOCD nbDisk nbDiskCd nbCdRecD nbCdRec cdSize cdOffset commentLength comment
        (u16 (eocdBaseSize + commentLength)) false).

(** [EOCD::EOCD( cdoff, cdcnt, cdsize )] *)
Definition EOCD_new (cdoff cdcnt cdsize : Z) : EOCD :=
  let nbCdRec := if max_u16 <=? cdcnt then max_u16 else u16 cdcnt in
  let '(cdOffset, useZip64) :=
    if max_u32 <=? cdoff then (max_u32, true) else (u32 cdoff, false) in
  MkEOCD 0 0 nbCdRec nbCdRec cdsize cdOffset 0 [] (u16 (eocdBaseSize + 0)) useZip64.

Definition EOCD_fields (this : EOCD) : list (nat * Z) :=
  [(4%nat, eocdSign); (2%nat, eo_nbDisk this); (2%nat, eo_nbDiskCd this);
   (2%nat, eo_nbCdRecD this); (2%nat, eo_nbCdRec this); (4%nat, eo_cdSize this);
   (4%nat, eo_cdOffset this); (2%nat, eo_commentLength this)].

Definition EOCD_Serialize (this : EOCD) (buffer : bytes) : bytes :=
  buffer ++ layout (EOCD_fields this) ++ eo_comment this.

(** ** [XrdZipZIP64EOCD.hh] *)

Record ZIP64_EOCD := MkZIP64_EOCD {
  z6_zip64EocdSize : Z; z6_zipVersion : Z; z6_minZipVersion : Z; z6_nbDisk : Z;
  z6_nbDiskCd : Z; z6_nbCdRecD : Z; z6_nbCdRec : Z; z6_cdSize : Z; z6_cdOffset : Z;
  z6_extensibleData : bytes; z6_extensibleDataLength : Z; z6_zip64EocdTotalSize : Z }.

Definition zip64EocdSign := 0x06064b50.
Definition zip64EocdBaseSize := 56.

(** [ZIP64_EOCD::ZIP64_EOCD( buffer )] *)
Definition ZIP64_EOCD_parse (buffer : bytes) : res ZIP64_EOCD :=
  zip64EocdSize ← to 8 4 buffer;
  zipVersion ← to 2 12 buffer;
  minZipVersion ← to 2 14 buffer;
  nbDisk ← to 4 16 buffer;
  nbDiskCd ← to 4 20 buffer;
  nbCdRecD ← to 8 24 buffer;
  nbCdRec ← to 8 32 buffer;
  cdSize ← to 8 40 buffer;
  cdOffset ← to 8 48 buffer;
  Ok (MkZIP64_EOCD zip64EocdSize zipVersion minZipVersion nbDisk nbDiskCd nbCdRecD
        nbCdRec cdSize cdOffset [] 0 (zip64EocdBaseSize + 0)).

(** [ZIP64_EOCD::ZIP64_EOCD( cdoff, cdcnt, cdsize )] *)
Definition ZIP64_EOCD_new (cdoff cdcnt cdsize : Z) : ZIP64_EOCD :=
  MkZIP64_EOCD (zip64EocdBaseSize + 0 - 12) (Z.lor (Z.shiftl 3 8) 63) 45 0 0
    cdcnt cdcnt cdsize cdoff [] 0 (zip64EocdBaseSize + 0).

Definition ZIP64_EOCD_fields (this : ZIP64_EOCD) : list (nat * Z) :=
  [(4%nat, zip64EocdSign); (8%nat, z6_zip64EocdSize this); (2%nat, z6_zipVersion this);
   (2%nat, z6_minZipVersion this); (4%nat, z6_nbDisk this); (4%nat, z6_nbDiskCd this);
   (8%nat, z6_nbCdRecD this); (8%nat, z6_nbCdRec this); (8%nat, z6_cdSize this);
   (8%nat, z6_cdOffset this)].

Definition ZIP64_EOCD_Serialize (this : ZIP64_EOCD) (buffer : bytes) : bytes :=
  buffer ++ layout (ZIP64_EOCD_fields this) ++ z6_extensibleData this.

(** ** [XrdZipZIP64EOCDL.hh] *)

Record ZIP64_EOCDL := MkZIP64_EOCDL {
  zl_nbDiskZip64Eocd : Z; zl_zip64EocdOffset : Z; zl_totalNbDisks : Z }.

Definition zip64EocdlSign := 0x07064b50.
Definition zip64EocdlSize := 20.

(** [ZIP64_EOCDL::ZIP64_EOCDL( buffer )] *)
Definition ZIP64_EOCDL_parse (buffer : bytes) : res ZIP64_EOCDL :=
  nbDiskZip64Eocd ← to 4 4 buffer;
  zip64EocdOffset ← to 8 8 buffer;
  totalNbDisks ← to 4 16 buffer;
  Ok (MkZIP64_EOCDL nbDiskZip64Eocd zip64EocdOffset totalNbDisks).

(** [ZIP64_EOCDL::ZIP64_EOCDL( eocd, zip64Eocd )] *)
Definition ZIP64_EOCDL_new (eocd : EOCD) (zip64Eocd : ZIP64_EOCD) : ZIP64_EOCDL :=
  let zip64EocdOffset :=
    if eo_cdOffset eocd =? max_u32 then z6_cdOffset zip64Eocd else eo_cdOffset eocd in
  let zip64EocdOffset :=
    u64 (zip64EocdOffset +
         (if eo_cdSize eocd =? max_u32 then z6_cdSize zip64Eocd else eo_cdSize eocd)) in
  MkZIP64_EOCDL 0 zip64EocdOffset 1.

Definition ZIP64_EOCDL_fields (this : ZIP64_EOCDL) : list (nat * Z) :=
  [(4%nat, zip64EocdlSign); (4%nat, zl_nbDiskZip64Eocd this);
   (8%nat, zl_zip64EocdOffset this); (4%nat, zl_totalNbDisks this)].

Definition ZIP64_EOCDL_Serialize (this : ZIP64_EOCDL) (buffer : bytes) : bytes :=
  buffer ++ layout (ZIP64_EOCDL_fields this).

(** ** The directory members of [XrdCl::ZipArchive] *)

(** [enum OpenStages] *)
Inductive OpenStages :=
  | StNone | HaveEocdBlk | HaveZip64EocdlBlk | HaveZip64EocdBlk | HaveCdRecords
  | Done | Error | NotParsed.

#[export] Instance OpenStages_eq_dec : EqDecision OpenStages.
Proof. solve_decision. Defined.

Record ZipArchive := MkZipArchive {
  za_cdexists : bool; za_cdoff : Z; za_orgcdsz : Z; za_orgcdcnt : Z;
  za_orgcdbuf : bytes; za_eocd : option EOCD; za_cdvec : cdvec_t; za_cdmap : cdmap_t;
  za_zip64eocd : option ZIP64_EOCD; za_openstage : OpenStages }.

(** [ZipArchive::GetCD]: the bytes and the archive with its end records renewed.
    [cdsize] is a [uint32_t]. *)
Definition ZipArchive_GetCD (this : ZipArchive) : res (bytes * ZipArchive) :=
  cdsize ← CDFH_CalcSize (za_cdvec this) (za_orgcdsz this) (za_orgcdcnt this);
  let cdsize := u32 cdsize in
  let cdcnt := u32 (zlen (za_cdvec this)) in
  let eocd := EOCD_new (za_cdoff this) cdcnt cdsize in
  let '(zip64eocd, zip64eocdl) :=
    if eo_useZip64 eocd then
      let zip64eocd := ZIP64_EOCD_new (za_cdoff this) cdcnt cdsize in
      (Some zip64eocd, Some (ZIP64_EOCDL_new eocd zip64eocd))
    else (za_zip64eocd this, None) in
  metadata ← CDFH_Serialize_all (za_orgcdcnt this) (za_orgcdbuf this) (za_cdvec this) [];
  let metadata := match zip64eocd with
                  | Some z => ZIP64_EOCD_Serialize z metadata
                  | None => metadata
                  end in
  let metadata := match zip64eocdl with
                  | Some l => ZIP64_EOCDL_Serialize l metadata
                  | None => metadata
                  end in
  let metadata := EOCD_Serialize eocd metadata in
  Ok (metadata,
      MkZipArchive (za_cdexists this) (za_cdoff this) (za_orgcdsz this)
        (za_orgcdcnt this) (za_orgcdbuf this) (Some eocd) (za_cdvec this)
        (za_cdmap this) zip64eocd (za_openstage this)).

(** [ZipArchive::SetCD]; [fuel] bounds the directory records read. *)
Definition ZipArchive_SetCD (fuel : nat) (this : ZipArchive) (buffer : bytes)
  : res ZipArchive :=
  if negb (bool_decide (za_openstage this = NotParsed)) then Ok this else
  '(cdvec, cdmap, buff) ← CDFH_Parse_all fuel 0 (u32 (zlen buffer)) [] ∅ buffer;
  let orgcdsz := zlen buffer - zlen buff in
  let orgcdcnt := zlen cdvec in
  let orgcdbuf := za_orgcdbuf this ++ take (Z.to_nat orgcdsz) buffer in
  signature ← to 4 0 buff;
  '(zip64eocd, buff) ←
    (if signature =? zip64EocdSign then
       z ← ZIP64_EOCD_parse buff;
       let buff := adv (z6_zip64EocdTotalSize z) buff in
       signature ← to 4 0 buff;
       Ok (Some z, if signature =? zip64EocdlSign then adv zip64EocdlSize buff else buff)
     else Ok (za_zip64eocd this, buff));
  eocd ← EOCD_parse buff 0;
  Ok (MkZipArchive true (za_cdoff this) orgcdsz orgcdcnt orgcdbuf (Some eocd) cdvec cdmap
        zip64eocd Done).

(** The offset of the directory, as [ReadFromImpl] takes it from the end records:
    [me.zip64eocd ? me.zip64eocd->cdOffset : me.eocd->cdOffset]. *)
Definition ZipArchive_cdOffset (this : ZipArchive) : res Z :=
  match za_zip64eocd this with
  | Some z => Ok (z6_cdOffset z)
  | None => match za_eocd this with
            | Some e => Ok (eo_cdOffset e)
            | None => Fault
            end
  end.

(** ** Finding the end record *)

Lemma EOCD_Find_loop_spec n buffer :
  Z.of_nat n + 3 <= zlen buffer ->
  exists r, EOCD_Find_loop n buffer = Ok r /\
    match r with
    | Some p => 0 <= p < Z.of_nat n /\ to 4 p buffer = Ok eocdSign /\
        forall q, p < q < Z.of_nat n -> to 4 q buffer <> Ok eocdSign
    | None => forall q, 0 <= q < Z.of_nat n -> to 4 q buffer <> Ok eocdSign
    end.
Proof.
  induction n as [|n IH]; intros Hn; cbn [EOCD_Find_loop].
  - exists None. split; [done|]. lia.
  - destruct (rd_ok 4 (Z.of_nat n) buffer) as [s Hs]; [lia|lia|].
    unfold to at 1. rewrite Hs. step_ok. destruct (Z.eqb_spec s eocdSign) as [->|Hne].
    + exists (Some (Z.of_nat n)). split_and!; [done|lia|lia|done|]. lia.
    + destruct IH as (r & -> & Hr); [lia|]. exists r. split; [done|].
      assert (to 4 (Z.of_nat n) buffer <> Ok eocdSign) by (unfold to; congruence).
      destruct r as [p|].
      * destruct Hr as (? & ? & Hr). split_and!; [lia|lia|done|]. intros q Hq.
        destruct (Z.eq_dec q (Z.of_nat n)) as [->|]; [done|apply Hr; lia].
      * intros q Hq. destruct (Z.eq_dec q (Z.of_nat n)) as [->|]; [done|apply Hr; lia].
Qed.

(** EOCD::Find returns the last offset at which the end record's
    signature stands and a whole record still fits, or nothing when there is
    none; it stays within the buffer. *)
Theorem EOCD_Find_last buffer size :
  0 <= size <= zlen buffer ->
  exists r, EOCD_Find buffer size = Ok r /\
    match r with
    | Some p => 0 <= p <= size - eocdBaseSize /\ to 4 p buffer = Ok eocdSign /\
        forall q, p < q <= size - eocdBaseSize -> to 4 q buffer <> Ok eocdSign
    | None => forall q, 0 <= q <= size - eocdBaseSize -> to 4 q buffer <> Ok eocdSign
    end.
Proof.
  intros Hs. unfold EOCD_Find, eocdBaseSize.
  destruct (Z_lt_ge_dec size 22).
  - replace (Z.to_nat (size - 22 + 1)) with 0%nat by lia. exists None. split; [done|]. lia.
  - destruct (EOCD_Find_loop_spec (Z.to_nat (size - 22 + 1)) buffer) as (r & Hr & H); [lia|].
    exists r. split; [done|]. destruct r as [p|].
    + destruct H as (? & ? & H). split_and!; [lia|lia|done|]. intros q Hq. apply H. lia.
    + intros q Hq. apply H. lia.
Qed.

Lemma EOCD_Find_last_witness :
  exists r, EOCD_Find (80 :: EOCD_Serialize (EOCD_new 10 1 5) []) 23 = Ok r /\ r = Some 1.
Proof.
  destruct (EOCD_Find_last (80 :: EOCD_Serialize (EOCD_new 10 1 5) []) 23) as (r & Hr & _).
  - split; vm_compute; done.
  - exists r. split; [exact Hr|]. vm_compute in Hr. by injection Hr.
Defined.

(** ** Reading the end records back *)

Lemma zlen_EOCD_fields e : zlen (layout (EOCD_fields e)) = 22.
Proof. rewrite zlen_layout. done. Qed.

Lemma EOCD_new_parse cdoff cdcnt cdsize rest :
  0 <= cdoff < 2 ^ 64 -> 0 <= cdcnt < 2 ^ 32 -> 0 <= cdsize < 2 ^ 32 ->
  let e := EOCD_new cdoff cdcnt cdsize in
  EOCD_parse (EOCD_Serialize e [] ++ rest) 0
  = Ok (MkEOCD 0 0 (eo_nbCdRecD e) (eo_nbCdRec e) cdsize (eo_cdOffset e) 0 [] 22 false).
Proof.
  intros Ho Hc Hs e.
  assert (0 <= eo_nbCdRec e < 2 ^ 16 /\ eo_nbCdRecD e = eo_nbCdRec e) as [Hn Hnd].
  { unfold e, EOCD_new, max_u16. pose proof (u16_range cdcnt).
    destruct (2 ^ 16 - 1 <=? cdcnt), (max_u32 <=? cdoff); cbn [eo_nbCdRec eo_nbCdRecD]; lia. }
  assert (0 <= eo_cdOffset e < 2 ^ 32) as Hof.
  { unfold e, EOCD_new, max_u32. pose proof (u32_range cdoff).
    destruct (2 ^ 32 - 1 <=? cdoff); cbn [eo_cdOffset]; lia. }
  assert (eo_cdSize e = cdsize /\ eo_nbDisk e = 0 /\ eo_nbDiskCd e = 0 /\
          eo_commentLength e = 0 /\ eo_comment e = []) as (Hsz & Hd & Hdc & Hcl & Hcm).
  { unfold e, EOCD_new. by destruct (max_u32 <=? cdoff). }
  clearbody e. unfold EOCD_parse, EOCD_Serialize. rewrite Hcm, app_nil_r. cbn [app].
  cd_field 1%nat. cd_field 2%nat. cd_field 3%nat. cd_field 4%nat. cd_field 5%nat.
  cd_field 6%nat. cd_field 7%nat. rewrite Hcl. cbn [Z.ltb Z.compare andb].
  rewrite rd_bytes_skip by (rewrite zlen_EOCD_fields; lia). rewrite zlen_EOCD_fields.
  change (22 - 22) with 0.
  assert (rd_bytes 0 0 rest = Ok []) as -> by exact (rd_bytes_here [] rest 0 eq_refl). step_ok.
  by rewrite Hsz, Hd, Hdc.
Qed.

Lemma ZIP64_EOCD_new_parse cdoff cdcnt cdsize rest :
  0 <= cdoff < 2 ^ 64 -> 0 <= cdcnt < 2 ^ 32 -> 0 <= cdsize < 2 ^ 32 ->
  let z := ZIP64_EOCD_new cdoff cdcnt cdsize in
  ZIP64_EOCD_parse (ZIP64_EOCD_Serialize z [] ++ rest) = Ok z /\
  zlen (ZIP64_EOCD_Serialize z []) = z6_zip64EocdTotalSize z.
Proof.
  intros Ho Hc Hs z. unfold z. clear z. unfold ZIP64_EOCD_parse, ZIP64_EOCD_Serialize.
  cbn [z6_extensibleData ZIP64_EOCD_new app]. rewrite app_nil_r. split.
  - cd_field 1%nat. cd_field 2%nat. cd_field 3%nat. cd_field 4%nat. cd_field 5%nat.
    cd_field 6%nat. cd_field 7%nat. cd_field 8%nat. cd_field 9%nat. done.
  - by rewrite zlen_layout.
Qed.

Lemma to_signature fs k s : fs !! 0%nat = Some (4%nat, s) -> 0 <= s < 2 ^ 32 ->
  to 4 0 (layout fs ++ k) = Ok s.
Proof. intros Hf Hs. by apply (rd_layout 0 _ _ _ _ 0). Qed.

(** ** What [GetCD] writes, [SetCD] reads *)

(** An archive made by [GetCD]'s callers: the directory kept from the opened
    archive and the records of the files appended since; the ZIP64 record, when
    there is one, belongs to an archive that is still ZIP64. *)
Record archive_ok (old new : list entry) (a : ZipArchive) : Prop := {
  ao_vec : za_cdvec a = snd <$> (old ++ new);
  ao_entries : Forall entry_ok (old ++ new);
  ao_orgcdcnt : za_orgcdcnt a = zlen old;
  ao_orgcdbuf : za_orgcdbuf a = cd_bytes old;
  ao_orgcdsz : za_orgcdsz a = zlen (cd_bytes old);
  ao_cdoff : 0 <= za_cdoff a < 2 ^ 64;
  ao_fit : zlen (cd_bytes (old ++ new)) + 98 < 2 ^ 32;
  ao_zip64 : is_Some (za_zip64eocd a) -> max_u32 <= za_cdoff a }.

(** The end records of a directory of [cnt] entries and [size] bytes at [off]. *)
Definition end_bytes (off cnt size : Z) : bytes :=
  let e := EOCD_new off cnt size in
  let z := ZIP64_EOCD_new off cnt size in
  (if eo_useZip64 e
   then ZIP64_EOCD_Serialize z [] ++ ZIP64_EOCDL_Serialize (ZIP64_EOCDL_new e z) []
   else []) ++ EOCD_Serialize e [].

Lemma useZip64_spec off cnt size : eo_useZip64 (EOCD_new off cnt size) = (max_u32 <=? off).
Proof. unfold EOCD_new. by destruct (max_u32 <=? off). Qed.

Lemma ZIP64_EOCD_Serialize_app z b : ZIP64_EOCD_Serialize z b = b ++ ZIP64_EOCD_Serialize z [].
Proof. done. Qed.
Lemma ZIP64_EOCDL_Serialize_app z b : ZIP64_EOCDL_Serialize z b = b ++ ZIP64_EOCDL_Serialize z [].
Proof. done. Qed.
Lemma EOCD_Serialize_app z b : EOCD_Serialize z b = b ++ EOCD_Serialize z [].
Proof. done. Qed.

Lemma entries_count es : Forall entry_ok es -> 46 * zlen es <= zlen (cd_bytes es).
Proof.
  induction 1 as [|e es He _ IH]; [done|].
  rewrite cd_bytes_cons, zlen_cons, zlen_app, (entry_bytes_zlen e) by done.
  pose proof (entry_size_bound e He). unfold cdfhBaseSize in *. lia.
Qed.

Lemma cd_serialize_old_new old new :
  CDFH_Serialize_all (zlen old) (cd_bytes old) (snd <$> (old ++ new)) []
  = Ok (cd_bytes (old ++ new)).
Proof.
  unfold CDFH_Serialize_all. destruct (Z.ltb_spec (zlen (snd <$> (old ++ new))) (zlen old)) as [Hlt|_].
  - unfold zlen in Hlt. rewrite length_fmap, length_app in Hlt. lia.
  - by rewrite drop_old, CDFH_Serialize_foldl, cd_bytes_app.
Qed.

Lemma cd_calcsize_old_new old new :
  Forall entry_ok (old ++ new) -> zlen (cd_bytes (old ++ new)) < 2 ^ 64 ->
  CDFH_CalcSize (snd <$> (old ++ new)) (zlen (cd_bytes old)) (zlen old)
  = Ok (zlen (cd_bytes (old ++ new))).
Proof.
  intros Hok Hfit. unfold CDFH_CalcSize.
  destruct (Z.ltb_spec (zlen (snd <$> (old ++ new))) (zlen old)) as [Hlt|_].
  - unfold zlen in Hlt. rewrite length_fmap, length_app in Hlt. lia.
  - rewrite cd_bytes_app, zlen_app in *. pose proof (zlen_nonneg (cd_bytes old)).
    rewrite drop_old, cd_sizes_foldl; [f_equal; lia| |lia|lia].
    by apply Forall_app in Hok as [_ ?].
Qed.

Lemma GetCD_bytes old new a :
  archive_ok old new a ->
  let es := old ++ new in
  exists a', ZipArchive_GetCD a
    = Ok (cd_bytes es ++ end_bytes (za_cdoff a) (zlen es) (zlen (cd_bytes es)), a') /\
    za_eocd a' = Some (EOCD_new (za_cdoff a) (zlen es) (zlen (cd_bytes es))).
Proof.
  intros H es. destruct H as [Hv He Hc Hb Hs Ho Hf Hz]. fold es in Hv, He, Hf.
  pose proof (zlen_nonneg (cd_bytes es)). pose proof (entries_count es He).
  pose proof (zlen_nonneg es). unfold ZipArchive_GetCD. rewrite Hv, Hs, Hc, Hb.
  unfold es in *. rewrite cd_calcsize_old_new by (done || lia). step_ok.
  assert (zlen (snd <$> (old ++ new)) = zlen (old ++ new)) as ->
    by (unfold zlen; by rewrite length_fmap).
  rewrite !u32_small by lia. rewrite cd_serialize_old_new.
  unfold end_bytes. rewrite useZip64_spec. destruct (Z.leb_spec max_u32 (za_cdoff a)).
  - step_ok. rewrite EOCD_Serialize_app, ZIP64_EOCDL_Serialize_app, ZIP64_EOCD_Serialize_app.
    rewrite <- !app_assoc. eexists. by split.
  - destruct (za_zip64eocd a) as [z|]; [specialize (Hz ltac:(eauto)); lia|].
    step_ok. eexists. by split.
Qed.

(** [SetCD] on the bytes after the directory records. *)
Lemma SetCD_end off cnt size rest :
  0 <= off < 2 ^ 64 -> 0 <= cnt < 2 ^ 32 -> 0 <= size < 2 ^ 32 ->
  let big := max_u32 <=? off in
  let buff := end_bytes off cnt size ++ rest in
  exists s, to 4 0 buff = Ok s /\ s <> cdfhSign /\ (s =? zip64EocdSign) = big /\
    (big = true ->
       ZIP64_EOCD_parse buff = Ok (ZIP64_EOCD_new off cnt size) /\
       to 4 0 (adv 56 buff) = Ok zip64EocdlSign) /\
    EOCD_parse (if big then adv zip64EocdlSize (adv 56 buff) else buff) 0
    = Ok (MkEOCD 0 0 (eo_nbCdRecD (EOCD_new off cnt size)) (eo_nbCdRec (EOCD_new off cnt size))
            size (eo_cdOffset (EOCD_new off cnt size)) 0 [] 22 false).
Proof.
  intros Ho Hc Hs. cbv zeta. unfold end_bytes. rewrite useZip64_spec.
  destruct (max_u32 <=? off).
  - destruct (ZIP64_EOCD_new_parse off cnt size
      ((ZIP64_EOCDL_Serialize (ZIP64_EOCDL_new (EOCD_new off cnt size)
          (ZIP64_EOCD_new off cnt size)) [] ++ EOCD_Serialize (EOCD_new off cnt size) []) ++ rest))
      as [Hp Hl]; [done..|]. cbv zeta in Hp, Hl. rewrite <- !app_assoc in *.
    change (z6_zip64EocdTotalSize (ZIP64_EOCD_new off cnt size)) with 56 in Hl.
    exists zip64EocdSign. split_and!; [|done|done| |].
    + unfold ZIP64_EOCD_Serialize. cbn [app]. rewrite <- !app_assoc. by apply to_signature.
    + intros _. split; [exact Hp|]. rewrite adv_app_exact by done.
      unfold ZIP64_EOCDL_Serialize. cbn [app]. by apply to_signature.
    + rewrite adv_app_exact by done. rewrite adv_app_exact; [by apply EOCD_new_parse|].
      unfold ZIP64_EOCDL_Serialize. cbn [app]. by rewrite zlen_layout.
  - cbn [app]. exists eocdSign. split_and!; [|done|done|done|by apply EOCD_new_parse].
    unfold EOCD_Serialize. cbn [app]. rewrite <- app_assoc. by apply to_signature.
Qed.

Lemma zlen_end_bytes off cnt size : 22 <= zlen (end_bytes off cnt size) <= 98.
Proof.
  assert (zlen (EOCD_Serialize (EOCD_new off cnt size) []) = 22) as He.
  { unfold EOCD_Serialize. cbn [app]. rewrite zlen_app, zlen_EOCD_fields.
    unfold EOCD_new. by destruct (max_u32 <=? off). }
  unfold end_bytes. rewrite useZip64_spec. destruct (max_u32 <=? off); rewrite zlen_app, He; [|done].
  unfold ZIP64_EOCDL_Serialize, ZIP64_EOCD_Serialize.
  cbn [app]. by rewrite !zlen_app, !zlen_layout.
Qed.

(** C2: For an archive of fewer than 65535 records, with a directory below 4
    GiB in size and no ZIP64 record left over from an earlier directory that
    the new one does not need, the directory bytes ZipArchive::GetCD produces
    (directory, ZIP64 records when the directory lies beyond 4 GiB, end
    record) are read by ZipArchive::SetCD of an archive that was not opened
    before into the same records, counts, sizes, raw directory bytes,
    directory offset and name index; the loop of SetCD needs no more turns
    than there are records, and one more. *)
Theorem SetCD_GetCD old new a b :
  archive_ok old new a -> zlen (old ++ new) < max_u16 ->
  za_openstage b = NotParsed -> za_zip64eocd b = None -> za_orgcdbuf b = [] ->
  let es := old ++ new in
  exists buf a',
    ZipArchive_GetCD a = Ok (buf, a') /\
    forall fuel, (S (length es) <= fuel)%nat ->
      exists b', ZipArchive_SetCD fuel b buf = Ok b' /\
        za_openstage b' = Done /\ za_cdvec b' = entry_read <$> es /\
        za_orgcdbuf b' = cd_bytes es /\ za_orgcdcnt b' = zlen es /\
        za_orgcdsz b' = zlen (cd_bytes es) /\
        ZipArchive_cdOffset b' = Ok (za_cdoff a) /\
        (exists e, za_eocd b' = Some e /\ eo_nbCdRec e = zlen es /\
                   eo_cdSize e = zlen (cd_bytes es)) /\
        forall name k, za_cdmap b' !! name = Some k <->
          exists n, k = Z.of_nat n /\ last_named es name n.
Proof.
  intros Ha Hcnt Hst Hz Hb es. destruct (GetCD_bytes old new a Ha) as (a' & HG & He).
  fold es in HG, He. destruct Ha as [Hv Hok _ _ _ Ho Hf _]. fold es in Hv, Hok, Hf, Hcnt.
  pose proof (zlen_nonneg es). pose proof (entries_count es Hok).
  pose proof (zlen_end_bytes (za_cdoff a) (zlen es) (zlen (cd_bytes es))) as Hend.
  set (eb := end_bytes (za_cdoff a) (zlen es) (zlen (cd_bytes es))) in *.
  exists (cd_bytes es ++ eb), a'. split; [done|]. intros fuel Hfuel.
  destruct (SetCD_end (za_cdoff a) (zlen es) (zlen (cd_bytes es)) []) as (s & Hs1 & Hs2 & Hs3 & Hs4 & Hs5);
    [done|lia|lia|]. rewrite app_nil_r in *. fold eb in Hs1, Hs4, Hs5.
  unfold ZipArchive_SetCD. rewrite Hst.
  rewrite bool_decide_eq_true_2 by done. cbn [negb].
  rewrite u32_small by (rewrite zlen_app; lia).
  rewrite (CDFH_Parse_all_entries es fuel 0 _ [] ∅ eb)
    by (done || lia || (rewrite zlen_app; lia) || eauto). step_ok.
  rewrite Hs1. step_ok. rewrite Hs3.
  assert (zlen (cd_bytes es ++ eb) - zlen eb = zlen (cd_bytes es)) as ->
    by (rewrite zlen_app; lia).
  assert (take (Z.to_nat (zlen (cd_bytes es))) (cd_bytes es ++ eb) = cd_bytes es) as ->
    by (unfold zlen; by rewrite Nat2Z.id, take_app_length).
  rewrite Hb, Hz. cbn [app].
  assert (zlen (entry_read <$> es) = zlen es) as -> by (unfold zlen; by rewrite length_fmap).
  assert (eo_nbCdRec (EOCD_new (za_cdoff a) (zlen es) (zlen (cd_bytes es))) = zlen es) as Hn.
  { unfold EOCD_new, max_u16 in *. destruct (Z.leb_spec (2 ^ 16 - 1) (zlen es)); [lia|].
    destruct (max_u32 <=? za_cdoff a); cbn [eo_nbCdRec]; apply u16_small; lia. }
  assert (forall m name k, m = cd_index 0 ∅ es -> m !! name = Some k <->
            exists n, k = Z.of_nat n /\ last_named es name n) as Hidx.
  { intros m name k ->. rewrite cd_index_lookup. split; [|intros (n & -> & ?); left; by exists n].
    intros [(n & -> & ?)|[? _]]; [by exists n|done]. }
  destruct (Z.leb_spec max_u32 (za_cdoff a)) as [Hbig|Hsmall].
  - destruct (Hs4 eq_refl) as [Hz1 Hz2]. rewrite Hz1. step_ok.
    change (z6_zip64EocdTotalSize _) with 56. rewrite Hz2. step_ok.
    change (zip64EocdlSign =? zip64EocdlSign) with true. cbv iota.
    step_ok. rewrite Hs5. step_ok.
    eexists. split; [reflexivity|]. cbn. split_and!; try done; [by eexists; split|].
    intros. by apply Hidx.
  - step_ok. rewrite Hs5. step_ok.
    eexists. split; [reflexivity|]. cbn. split_and!; try done; [|by eexists; split|].
    + f_equal. unfold EOCD_new. destruct (Z.leb_spec max_u32 (za_cdoff a)); [lia|].
      apply u32_small. unfold max_u32 in *. lia.
    + intros. by apply Hidx.
Qed.

Lemma zlen_ZIP64_EOCD_new off cnt size :
  zlen (ZIP64_EOCD_Serialize (ZIP64_EOCD_new off cnt size) []) = 56.
Proof. unfold ZIP64_EOCD_Serialize. cbn [app]. by rewrite zlen_app, zlen_layout. Qed.

Lemma zlen_ZIP64_EOCDL l : zlen (ZIP64_EOCDL_Serialize l []) = 20.
Proof. unfold ZIP64_EOCDL_Serialize. cbn [app]. by rewrite zlen_layout. Qed.

Lemma zlen_EOCD_new off cnt size : zlen (EOCD_Serialize (EOCD_new off cnt size) []) = 22.
Proof.
  unfold EOCD_Serialize. cbn [app]. rewrite zlen_app, zlen_EOCD_fields.
  unfold EOCD_new. by destruct (max_u32 <=? off).
Qed.

Lemma ZIP64_EOCDL_Serialize_parse l rest :
  0 <= zl_nbDiskZip64Eocd l < 2 ^ 32 -> 0 <= zl_zip64EocdOffset l < 2 ^ 64 ->
  0 <= zl_totalNbDisks l < 2 ^ 32 ->
  ZIP64_EOCDL_parse (ZIP64_EOCDL_Serialize l [] ++ rest) = Ok l.
Proof.
  intros. unfold ZIP64_EOCDL_parse, ZIP64_EOCDL_Serialize. cbn [app].
  cd_field 1%nat. cd_field 2%nat. cd_field 3%nat. by destruct l.
Qed.

(** The locator's offset is where the directory ends. *)
Lemma ZIP64_EOCDL_new_offset off cnt size :
  max_u32 <= off -> 0 <= size < 2 ^ 32 -> off + size < 2 ^ 64 ->
  ZIP64_EOCDL_new (EOCD_new off cnt size) (ZIP64_EOCD_new off cnt size)
  = MkZIP64_EOCDL 0 (off + size) 1.
Proof.
  intros Hb Hs Ho. unfold ZIP64_EOCDL_new, EOCD_new. unfold max_u32 in *.
  destruct (Z.leb_spec (2 ^ 32 - 1) off); [|lia]. cbn [eo_cdOffset eo_cdSize].
  rewrite Z.eqb_refl. cbn [z6_cdOffset z6_cdSize ZIP64_EOCD_new].
  assert ((if size =? 2 ^ 32 - 1 then size else size) = size) as -> by by case_match.
  by rewrite u64_small by lia.
Qed.

(** For an archive whose directory lies beyond 4 GiB, the ZIP64 locator
    GetCD writes holds the archive offset at which the ZIP64 end record was
    written, and that record holds the directory's offset, size and count. *)
Theorem GetCD_locator old new a :
  archive_ok old new a -> max_u32 <= za_cdoff a ->
  za_cdoff a + zlen (cd_bytes (old ++ new)) < 2 ^ 64 ->
  exists buf a' l z,
    ZipArchive_GetCD a = Ok (buf, a') /\
    ZIP64_EOCDL_parse (adv (zlen buf - eocdBaseSize - zip64EocdlSize) buf) = Ok l /\
    0 <= zl_zip64EocdOffset l - za_cdoff a /\
    to 4 (zl_zip64EocdOffset l - za_cdoff a) buf = Ok zip64EocdSign /\
    ZIP64_EOCD_parse (adv (zl_zip64EocdOffset l - za_cdoff a) buf) = Ok z /\
    z6_cdOffset z = za_cdoff a /\ z6_nbCdRec z = zlen (old ++ new) /\
    z6_cdSize z = zlen (cd_bytes (old ++ new)).
Proof.
  intros Ha Hbig Hfit. destruct (GetCD_bytes old new a Ha) as (a' & HG & _).
  destruct Ha as [_ Hok _ _ _ Ho Hf _].
  pose proof (zlen_nonneg (cd_bytes (old ++ new))). pose proof (zlen_nonneg (old ++ new)).
  pose proof (entries_count _ Hok).
  unfold end_bytes in HG. rewrite useZip64_spec in HG.
  destruct (Z.leb_spec max_u32 (za_cdoff a)); [|lia].
  rewrite ZIP64_EOCDL_new_offset in HG by lia. rewrite <- !app_assoc in HG.
  set (cd := cd_bytes (old ++ new)) in *. set (n := zlen (old ++ new)) in *.
  set (z := ZIP64_EOCD_new (za_cdoff a) n (zlen cd)) in *.
  set (l := MkZIP64_EOCDL 0 (za_cdoff a + zlen cd) 1) in *.
  set (e := EOCD_new (za_cdoff a) n (zlen cd)) in *.
  eexists _, a', l, z. split; [exact HG|].
  assert (zl_zip64EocdOffset l - za_cdoff a = zlen cd) as -> by (cbn; lia).
  rewrite !zlen_app. unfold z at 1, e at 1.
  rewrite zlen_ZIP64_EOCD_new, zlen_ZIP64_EOCDL, zlen_EOCD_new.
  split_and!; try done.
  - rewrite app_assoc, adv_app_exact.
    + apply ZIP64_EOCDL_Serialize_parse; cbn; lia.
    + rewrite zlen_app. unfold z. rewrite zlen_ZIP64_EOCD_new. unfold eocdBaseSize, zip64EocdlSize. lia.
  - unfold to. rewrite rd_skip by lia. rewrite Z.sub_diag.
    unfold ZIP64_EOCD_Serialize. cbn [app]. rewrite <- !app_assoc. by apply to_signature.
  - rewrite adv_app_exact by done. apply ZIP64_EOCD_new_parse; [done|lia|lia].
Qed.

Definition sample_archive (old new : list entry) (off : Z) : ZipArchive :=
  MkZipArchive true off (zlen (cd_bytes old)) (zlen old) (cd_bytes old) None
    (snd <$> (old ++ new)) ∅ None Done.

Lemma sample_archive_ok old new off :
  Forall entry_ok (old ++ new) -> 0 <= off < 2 ^ 64 ->
  zlen (cd_bytes (old ++ new)) + 98 < 2 ^ 32 -> archive_ok old new (sample_archive old new off).
Proof. intros. split; try done. intros [? [=]]. Qed.

Definition sample_old : list entry := [sample_entry [97] 5 0].
Definition sample_new : list entry := [sample_entry [98; 99] (2 ^ 33) 36].

Lemma sample_entries_ok : Forall entry_ok (sample_old ++ sample_new).
Proof.
  repeat (apply Forall_cons; split; [apply sample_entry_ok; [vm_compute; done|lia|lia]|]).
  by apply Forall_nil.
Qed.

Lemma SetCD_GetCD_witness :
  exists buf a' fuel b',
    ZipArchive_GetCD (sample_archive sample_old sample_new (2 ^ 33)) = Ok (buf, a') /\
    ZipArchive_SetCD fuel (MkZipArchive false 0 0 0 [] None [] ∅ None NotParsed) buf = Ok b' /\
    za_cdvec b' = entry_read <$> (sample_old ++ sample_new).
Proof.
  destruct (SetCD_GetCD sample_old sample_new (sample_archive sample_old sample_new (2 ^ 33))
             (MkZipArchive false 0 0 0 [] None [] ∅ None NotParsed))
    as (buf & a' & HG & HS); [|vm_compute; done|done|done|done|].
  - apply sample_archive_ok; [apply sample_entries_ok|lia|vm_compute; done].
  - destruct (HS _ (le_n _)) as (b' & Hb & _ & Hv & _). eexists buf, a', _, b'.
    split; [exact HG|]. split; [exact Hb|exact Hv].
Defined.

Lemma GetCD_locator_witness :
  exists buf a' z,
    ZipArchive_GetCD (sample_archive sample_old sample_new (2 ^ 33)) = Ok (buf, a') /\
    ZIP64_EOCD_parse (adv 115 buf) = Ok z /\ z6_cdOffset z = 2 ^ 33.
Proof.
  destruct (GetCD_locator sample_old sample_new (sample_archive sample_old sample_new (2 ^ 33)))
    as (buf & a' & l & z & HG & Hl & _ & _ & Hz & Hoff & _);
    [|vm_compute; done|vm_compute; done|].
  - apply sample_archive_ok; [apply sample_entries_ok|lia|vm_compute; done].
  - assert (ZipArchive_GetCD (sample_archive sample_old sample_new (2 ^ 33)) = Ok (buf, a')) as E
      by exact HG.
    exists buf, a', z. split; [exact HG|]. split; [|exact Hoff].
    assert (l = MkZIP64_EOCDL 0 (2 ^ 33 + 115) 1) as ->.
    { clear - E Hl. vm_compute in E. injection E as <- _. vm_compute in Hl. injection Hl as <-. done. }
    exact Hz.
Defined.

(** ** Directories of 65535 records or more *)

(** A directory of more than 65535 records below 4 GiB gets no ZIP64 end
    record: the count in the end record saturates and a reader of that count
    returns the first 65535 records only. *)
Theorem EOCD_count_saturates (es : list entry) off rest :
  Forall entry_ok es -> zlen (cd_bytes es) < 2 ^ 32 ->
  max_u16 < zlen es -> 0 <= off < max_u32 ->
  let e := EOCD_new off (zlen es) (zlen (cd_bytes es)) in
  eo_useZip64 e = false /\
  exists cdmap, CDFH_Parse (cd_bytes es ++ rest) (eo_cdSize e) (eo_nbCdRec e)
    = Ok (entry_read <$> take (Z.to_nat max_u16) es, cdmap) /\
    (length (take (Z.to_nat max_u16) es) < length es)%nat.
Proof.
  intros Hok Hfit Hn Hoff e.
  assert (eo_nbCdRec e = max_u16 /\ eo_cdSize e = zlen (cd_bytes es) /\ eo_useZip64 e = false)
    as (-> & -> & ->).
  { unfold e, EOCD_new. destruct (Z.leb_spec max_u16 (zlen es)); [|lia].
    destruct (Z.leb_spec max_u32 off); [lia|done]. }
  split; [done|]. set (k := Z.to_nat max_u16).
  assert (length (take k es) = k) as Hk
    by (rewrite length_take; unfold k, zlen in *; lia).
  exists (cd_index 0 ∅ (take k es)). split; [|unfold k, max_u16, zlen in *; lia].
  unfold CDFH_Parse. fold k.
  assert (cd_bytes es ++ rest = cd_bytes (take k es) ++ cd_bytes (drop k es) ++ rest) as Hb
    by (by rewrite app_assoc, <- cd_bytes_app, take_drop).
  rewrite Hb.
  assert (zlen (cd_bytes es) = zlen (cd_bytes (take k es)) + zlen (cd_bytes (drop k es))) as Hz
    by (by rewrite <- zlen_app, <- cd_bytes_app, take_drop).
  pose proof (zlen_nonneg (cd_bytes (drop k es))). pose proof (zlen_nonneg (cd_bytes (take k es))).
  pose proof (CDFH_Parse_loop_entries (take k es) 0 [] (cd_bytes (drop k es) ++ rest)
                (zlen (cd_bytes es)) [] ∅) as HP.
  rewrite zlen_nil, Hk in HP. apply HP; [by apply Forall_take|lia|lia].
Qed.

Lemma EOCD_new_cdSize off cnt size : eo_cdSize (EOCD_new off cnt size) = size.
Proof. unfold EOCD_new. by destruct (max_u32 <=? off). Qed.

Lemma zlen_cd_replicate n e :
  entry_ok e -> zlen (cd_bytes (replicate n e)) = Z.of_nat n * cd_cdfhSize e.2.
Proof.
  intros He. induction n as [|n IH]; [done|].
  cbn [replicate]. rewrite cd_bytes_cons, zlen_app, IH, (entry_bytes_zlen e) by done. lia.
Qed.

Lemma EOCD_count_saturates_witness :
  let es := replicate (Z.to_nat 65536) (sample_entry [97] 5 0) in
  exists cdmap,
    CDFH_Parse (cd_bytes es ++ []) (zlen (cd_bytes es))
      (eo_nbCdRec (EOCD_new 0 (zlen es) (zlen (cd_bytes es))))
    = Ok (entry_read <$> take (Z.to_nat max_u16) es, cdmap).
Proof.
  intros es.
  assert (entry_ok (sample_entry [97] 5 0)) as He
    by (apply sample_entry_ok; [vm_compute; done|lia|lia]).
  assert (zlen es = 65536) as Hn by (unfold zlen, es; rewrite length_replicate; lia).
  destruct (EOCD_count_saturates es 0 []) as (_ & m & Hm & _).
  - by apply Forall_replicate.
  - unfold es. rewrite zlen_cd_replicate by done.
    change (cd_cdfhSize (sample_entry [97] 5 0).2) with 47. lia.
  - rewrite Hn. vm_compute. done.
  - unfold max_u32. lia.
  - exists m. rewrite EOCD_new_cdSize in Hm. exact Hm.
Defined.
