(* ===== verification/CString.v ===== *)
(** * C strings and numbers in text

    A C string is the list of its character codes up to the terminating null.
    [strtoll], [strtol], [strchr], [strtok_r] and the character classes are the C
    library's; [trim] and [splitString] are those of
    src/src/XrdOuc/XrdOucUtils.cc and XrdOucTUtils.hh. *)

From Stdlib Require Import Strings.String Strings.Ascii.
From stdpp Require Import base tactics list_numbers numbers option list.
From S2P Require Import Prelude.

(** The character codes of a literal. *)
Fixpoint str (s : string) : bytes :=
  match s with
  | EmptyString => []
  | String a s => Z.of_N (N_of_ascii a) :: str s
  end.

(** Character classes of the C locale. *)
Definition isspace (c : Z) : bool := (c =? 32) || ((9 <=? c) && (c <=? 13)).
Definition isdigit (c : Z) : bool := (48 <=? c) && (c <=? 57).
Definition isgraph (c : Z) : bool := (33 <=? c) && (c <=? 126).

(** [!strncmp( a, b, n )] on C strings. *)
Definition strneq (a b : bytes) (n : Z) : bool :=
  bool_decide (take (Z.to_nat n) a = take (Z.to_nat n) b).

Definition LONG_MAX : Z := 2 ^ 63 - 1.
Definition LONG_MIN : Z := - 2 ^ 63.

(** The digits of base [base <= 10] at the start of a string, and the rest. *)
Fixpoint span_digits (base : Z) (s : bytes) : list Z * bytes :=
  match s with
  | c :: s' =>
      if (48 <=? c) && (c <? 48 + base)
      then let '(ds, rest) := span_digits base s' in (c - 48 :: ds, rest)
      else ([], s)
  | [] => ([], [])
  end.

Definition digits_value (base : Z) (ds : list Z) : Z :=
  fold_left (fun n d => n * base + d) ds 0.

Fixpoint skip_space (s : bytes) : bytes :=
  match s with
  | c :: s' => if isspace c then skip_space s' else s
  | [] => []
  end.

(** [strtol]/[strtoll] on a 64-bit [long]: the value, the text after the number
    (the whole text when there is none) and whether [errno] is [ERANGE]. *)
Definition strtol (base : Z) (s : bytes) : Z * bytes * bool :=
  let s1 := skip_space s in
  let '(neg, s2) :=
    match s1 with
    | c :: s2 => if c =? 45 then (true, s2) else if c =? 43 then (false, s2) else (false, s1)
    | [] => (false, s1)
    end in
  match span_digits base s2 with
  | ([], _) => (0, s, false)
  | (ds, rest) =>
      let n := digits_value base ds in
      let v := if neg then - n else n in
      if LONG_MAX <? v then (LONG_MAX, rest, true)
      else if v <? LONG_MIN then (LONG_MIN, rest, true)
      else (v, rest, false)
  end.

(** [strchr( s, c )]: the text before and after the first [c]. *)
Fixpoint strchr (c : Z) (s : bytes) : option (bytes * bytes) :=
  match s with
  | [] => None
  | x :: s =>
      if x =? c then Some ([], s)
      else match strchr c s with
           | Some (pre, post) => Some (x :: pre, post)
           | None => None
           end
  end.

(** The tokens [strtok_r] yields, called until it returns a null pointer;
    [cur] is the token being read. *)
Fixpoint strtok_all (delim : Z -> bool) (cur : bytes) (s : bytes) : list bytes :=
  match s with
  | [] => if bool_decide (cur = []) then [] else [cur]
  | x :: s =>
      if delim x
      then (if bool_decide (cur = []) then [] else [cur]) ++ strtok_all delim [] s
      else strtok_all delim (cur ++ [x]) s
  end.

(** [XrdOucUtils::trim( std::string & )] *)
Fixpoint trim_left (s : bytes) : bytes :=
  match s with
  | c :: s' => if isgraph c then s else trim_left s'
  | [] => []
  end.
Definition trim (s : bytes) : bytes := reverse (trim_left (reverse (trim_left s))).

(** [XrdOucTUtils::splitString] with a one-character delimiter. Every turn leaves
    a shorter rest, so the length is enough fuel. *)
Fixpoint splitString_loop (fuel : nat) (delimiter : Z) (s : bytes) : list bytes :=
  let emplace x := if bool_decide (x = []) then [] else [x] in
  match strchr delimiter s, fuel with
  | Some (pre, post), S fuel => emplace pre ++ splitString_loop fuel delimiter post
  | _, _ => emplace s
  end.

Definition splitString (s : bytes) (delimiter : Z) : list bytes :=
  splitString_loop (length s) delimiter s.

(** ** Decimal output *)

Fixpoint dec_aux (fuel : nat) (n : Z) : bytes :=
  match fuel with
  | O => []
  | S fuel => if n <? 10 then [48 + n] else dec_aux fuel (n / 10) ++ [48 + n mod 10]
  end.

(** The decimal digits of [n >= 0]; [n / 10 < 2 ^ k] when [n < 2 ^ (k + 1)], so the
    fuel is one more than the binary logarithm. *)
Definition dec (n : Z) : bytes := dec_aux (S (Z.to_nat (Z.log2 n))) n.

(** ** Lemmas *)

Lemma span_digits_app base ds s :
  base <= 10 -> Forall (fun d => 0 <= d < base) ds ->
  match s with c :: _ => ((48 <=? c) && (c <? 48 + base)) = false | [] => True end ->
  span_digits base (((fun d => 48 + d) <$> ds) ++ s) = (ds, s).
Proof.
  intros Hb Hds Hs. induction Hds as [|d ds Hd _ IH].
  - simpl. destruct s as [|c s]; [done|]. simpl. by rewrite Hs.
  - rewrite fmap_cons. cbn [app span_digits]. zcases. cbn [andb]. rewrite IH.
    f_equal. f_equal. lia.
Qed.

Lemma digits_value_snoc base ds d :
  digits_value base (ds ++ [d]) = digits_value base ds * base + d.
Proof. unfold digits_value. by rewrite fold_left_app. Qed.

(** [dec] writes digits, and their value is the number. *)
Lemma dec_aux_digits fuel n :
  0 <= n < 2 ^ Z.of_nat fuel ->
  exists ds, dec_aux fuel n = (fun d => 48 + d) <$> ds /\
    Forall (fun d => 0 <= d < 10) ds /\ digits_value 10 ds = n /\ (fuel <> O -> ds <> []).
Proof.
  revert n. induction fuel as [|fuel IH]; intros n Hn.
  - exists []. split_and!; [done|done| |done]. change (2 ^ Z.of_nat 0) with 1 in Hn.
    change (digits_value 10 []) with 0. lia.
  - cbn [dec_aux]. destruct (Z.ltb_spec n 10).
    + exists [n]. split_and!; [done|repeat constructor; lia|unfold digits_value; simpl; lia|done].
    + rewrite Nat2Z.inj_succ, Z.pow_succ_r in Hn by lia.
      destruct (IH (n / 10)) as (ds & -> & Hds & Hv & _); [lia_div|].
      exists (ds ++ [n mod 10]). split_and!.
      * by rewrite fmap_app.
      * apply Forall_app. split; [done|]. repeat constructor; lia_div.
      * rewrite digits_value_snoc, Hv. lia_div.
      * intros _ Hc. by destruct ds.
Qed.

Lemma dec_digits n :
  0 <= n ->
  exists ds, dec n = (fun d => 48 + d) <$> ds /\
    Forall (fun d => 0 <= d < 10) ds /\ digits_value 10 ds = n /\ ds <> [].
Proof.
  intros Hn. destruct (dec_aux_digits (S (Z.to_nat (Z.log2 n))) n) as (ds & H1 & H2 & H3 & H4).
  - split; [done|]. rewrite Nat2Z.inj_succ, Z2Nat.id by apply Z.log2_nonneg.
    destruct (Z.eq_dec n 0) as [->|]; [done|]. apply Z.log2_spec. lia.
  - exists ds. split_and!; auto.
Qed.

(** A decimal number followed by something else is read back. *)
Lemma strtol_dec n s :
  0 <= n <= LONG_MAX ->
  match s with c :: _ => isdigit c = false | [] => True end ->
  strtol 10 (dec n ++ s) = (n, s, false).
Proof.
  intros Hn Hs. destruct (dec_digits n) as (ds & -> & Hds & Hv & Hne); [lia|].
  destruct ds as [|d ds]; [done|]. pose proof (Forall_inv Hds) as Hd. cbn in Hd.
  pose proof (span_digits_app 10 (d :: ds) s ltac:(lia) Hds) as Hsp.
  unfold strtol. set (text := ((fun d => 48 + d) <$> d :: ds) ++ s) in *.
  assert (skip_space text = text) as ->.
  { unfold text. cbn. unfold isspace. zcases; done. }
  assert (match text with
          | c :: s2 => if c =? 45 then (true, s2) else if c =? 43 then (false, s2) else (false, text)
          | [] => (false, text)
          end = (false, text)) as -> by (unfold text; cbn; zcases; done).
  rewrite Hsp.
  - rewrite Hv. unfold LONG_MAX, LONG_MIN in *. zcases. done.
  - destruct s as [|c s]; [done|]. unfold isdigit in Hs. revert Hs. zcases; done.
Qed.

Lemma dec_no_char c n : 0 <= n -> isdigit c = false -> Forall (fun x => x <> c) (dec n).
Proof.
  intros Hn Hc. destruct (dec_digits n Hn) as (ds & -> & Hds & _).
  apply Forall_fmap. eapply List.Forall_impl; [|exact Hds]. cbn. intros d Hd <-.
  unfold isdigit in Hc. revert Hc. zcases; done.
Qed.

Lemma dec_not_nil n : 0 <= n -> dec n <> [].
Proof. intros Hn. destruct (dec_digits n Hn) as (ds & -> & _ & _ & Hne). by destruct ds. Qed.

Lemma strchr_app c pre post :
  Forall (fun x => x <> c) pre -> strchr c (pre ++ c :: post) = Some (pre, post).
Proof.
  induction 1 as [|x pre Hx _ IH]; cbn [app strchr].
  - by rewrite Z.eqb_refl.
  - destruct (Z.eqb_spec x c); [done|]. by rewrite IH.
Qed.

(** Non-empty pieces without delimiters, joined by a delimiter, are the tokens. *)
Fixpoint join_with (d : Z) (l : list bytes) : bytes :=
  match l with
  | [] => []
  | [x] => x
  | x :: l => x ++ d :: join_with d l
  end.

Lemma strtok_piece delim cur x s :
  Forall (fun c => delim c = false) x ->
  strtok_all delim cur (x ++ s) = strtok_all delim (cur ++ x) s.
Proof.
  intros H. revert cur. induction H as [|c x Hc _ IH]; intros cur; cbn [app strtok_all].
  - by rewrite app_nil_r.
  - rewrite Hc, IH. by rewrite <- app_assoc.
Qed.

Lemma strtok_join delim d l :
  delim d = true -> Forall (fun x => x <> [] /\ Forall (fun c => delim c = false) x) l ->
  strtok_all delim [] (join_with d l) = l.
Proof.
  intros Hd. induction 1 as [|x l [Hx Hcs] Hl IH]; [done|].
  destruct l as [|y l].
  - cbn [join_with]. rewrite <- (app_nil_r x) at 1. rewrite strtok_piece by done.
    cbn [app strtok_all]. by rewrite bool_decide_eq_false_2.
  - cbn [join_with]. rewrite strtok_piece by done. cbn [app strtok_all].
    rewrite Hd, bool_decide_eq_false_2 by done. cbn [app]. f_equal. exact IH.
Qed.

(** ** Comparisons *)

Lemma strneq_take a b n : strneq a b n = true <-> take (Z.to_nat n) a = take (Z.to_nat n) b.
Proof. unfold strneq. by rewrite bool_decide_eq_true. Qed.

(** A comparison over the whole second string is a prefix test. *)
Lemma strneq_prefix a b : strneq a b (zlen b) = true <-> exists rest, a = b ++ rest.
Proof.
  rewrite strneq_take. unfold zlen. rewrite Nat2Z.id, (take_ge b) by done. split.
  - intros H. exists (drop (length b) a). rewrite <- H at 1. by rewrite take_drop.
  - intros [rest ->]. by rewrite take_app_length.
Qed.
