(* ===== verification/A2x.v ===== *)
(** * Numbers in configuration text

    Models src/src/XrdOuc/XrdOuca2x.cc. A conversion that returns -1 after
    reporting a message is [None]; one that returns 0 is [Some] of the value it
    stored. [errno] is only ever [ERANGE] here. *)

From Stdlib Require Import Strings.String.
From stdpp Require Import base tactics list_numbers numbers option list.
From S2P Require Import Prelude CString.

(** The bound checks that end most of the conversions. *)
Definition in_bounds (val minv maxv : Z) : option Z :=
  if val <? minv then None
  else if (0 <=? maxv) && (maxv <? val) then None
  else Some val.

(** [XrdOuca2x::a2i]: a [long] is stored into an [int] before the checks. *)
Definition a2i (item : bytes) (minv maxv : Z) : option Z :=
  if bool_decide (item = []) then None else
  let '(v, eP, erange) := strtol 10 item in
  let val := i32 v in
  if erange || negb (bool_decide (eP = [])) then None
  else in_bounds val minv maxv.

(** [XrdOuca2x::a2ll] *)
Definition a2ll (item : bytes) (minv maxv : Z) : option Z :=
  if bool_decide (item = []) then None else
  let '(val, eP, erange) := strtol 10 item in
  if erange || negb (bool_decide (eP = [])) then None
  else in_bounds val minv maxv.

(** [XrdOuca2x::a2fm] with a minimum only: text after the number is ignored. *)
Definition a2fm_min (item : bytes) (minv : Z) : option Z :=
  if bool_decide (item = []) then None else
  let '(v, _, erange) := strtol 8 item in
  let val := i32 v in
  if erange then None
  else if Z.land val minv =? 0 then None
  else Some val.

(** The permission bits, from [sys/stat.h]. *)
Definition mode_bits : list (Z * Z) :=
  [(64, 64); (128, 128); (256, 256); (8, 8); (16, 16); (32, 32); (1, 1); (2, 2); (4, 4)].

(** [XrdOuca2x::a2fm] with both bounds; [val0] is what [*val] held on entry, which
    the test reads. *)
Definition a2fm (val0 : Z) (item : bytes) (minv maxv : Z) : option Z :=
  match a2fm_min item minv with
  | None => None
  | Some num =>
      if negb (Z.lor val0 maxv =? maxv) then None else
      Some (foldl (fun val b => if Z.land num b.1 =? 0 then val else Z.lor val b.2) 0 mode_bits)
  end.

(** The fraction digits of [a2sn]: each is taken while [nsVal > 1]. *)
Fixpoint a2sn_fraction (val nsVal : Z) (eP : bytes) : Z * Z * bytes :=
  match eP with
  | c :: eP' =>
      if isdigit c then
        if 1 <? nsVal then a2sn_fraction (i32 (val * 10 + (c - 48))) (Z.quot nsVal 10) eP'
        else a2sn_fraction val nsVal eP'
      else (val, nsVal, eP)
  | [] => (val, nsVal, eP)
  end.

(** [XrdOuca2x::a2sn]: a decimal number scaled by [nScale]. *)
Definition a2sn (item : bytes) (nScale minv maxv : Z) : option Z :=
  if bool_decide (item = []) then None else
  let '(v, eP, erange) := strtol 10 item in
  let val := i32 v in
  if erange then None else
  match eP with
  | [] => in_bounds (i32 (val * nScale)) minv maxv
  | c :: eP =>
      if negb (c =? 46) then None else
      let '(val, nsVal, eP) := a2sn_fraction val nScale eP in
      if negb (bool_decide (eP = [])) then None
      else in_bounds (i32 (val * nsVal)) minv maxv
  end.

(** The last character of the text: a unit or part of the number. *)
Definition time_unit (c : Z) : option Z :=
  if (c =? 115) || (c =? 83) then Some 1
  else if (c =? 109) || (c =? 77) then Some 60
  else if (c =? 104) || (c =? 72) then Some (60 * 60)
  else if (c =? 100) || (c =? 68) then Some (60 * 60 * 24)
  else None.

(** [XrdOuca2x::a2tm]: a time in seconds; the pointer after the number must be the
    unit's position, or the end of the text. *)
Definition a2tm (item : bytes) (minv maxv : Z) : option Z :=
  match last item with
  | None => None
  | Some c =>
      let '(qmult, fP) := match time_unit c with
                          | Some q => (q, [c])
                          | None => (1, [])
                          end in
      let '(v, eP, erange) := strtol 10 item in
      let val := i32 (v * qmult) in
      if erange || negb (bool_decide (eP = fP)) then None
      else in_bounds val minv maxv
  end.

(** [XrdOuca2x::a2vp]: a value, or a percentage stored negated. *)
Definition a2vp (item : bytes) (minv maxv : Z) : option Z :=
  if bool_decide (item = []) then None else
  let '(v, pp, erange) := strtol 10 item in
  let val := i32 v in
  if negb erange && match pp with c :: _ => c =? 37 | [] => false end then
    if val <? 0 then None
    else if 100 <? val then None
    else Some (- val)
  else in_bounds val minv maxv.

Definition hexdigit (n : Z) : Z := if n <? 10 then 48 + n else 87 + n.

(** The two characters written for each byte. *)
Fixpoint b2x_loop (src : bytes) : bytes :=
  match src with
  | [] => []
  | b :: src =>
      hexdigit (Z.land (Z.shiftr b 4) 15) :: hexdigit (Z.land b 15) :: b2x_loop src
  end.

(** [XrdOuca2x::b2x]: the returned length and what is written to [dst]. *)
Definition b2x (src : bytes) (dlen : Z) : Z * bytes :=
  let slen := zlen src in
  if dlen <? slen * 2 + 1 then (0, [])
  else (slen * 2 + 1,
        b2x_loop src ++ [0]).

Definition hexvalue (c : Z) : option Z :=
  if (48 <=? c) && (c <=? 57) then Some (c - 48)
  else if (97 <=? c) && (c <=? 102) then Some (c - 87)
  else if (65 <=? c) && (c <=? 70) then Some (c - 55)
  else None.

(** The loop of [x2b]: [cur] is the byte [dst] points to, half written when [odd].
    The bytes written, [None] for an invalid digit. *)
Fixpoint x2b_loop (odd : bool) (cur : Z) (src : bytes) : option bytes :=
  match src with
  | [] => Some (if odd then [cur] else [])
  | c :: src =>
      match hexvalue c with
      | None => None
      | Some n =>
          if odd then (fun l => Z.lor cur n :: l) <$> x2b_loop false 0 src
          else x2b_loop true (u8 (Z.shiftl n 4)) src
      end
  end.

(** [XrdOuca2x::x2b] *)
Definition x2b (src : bytes) (dlen : Z) (radj : bool) : Z * bytes :=
  let slen := zlen src in
  let len := (slen + 1) / 2 in
  if dlen <? len then (0, []) else
  match x2b_loop (radj && Z.odd slen) 0 src with
  | None => (0, [])
  | Some dst => (len, dst)
  end.

(** ** Lemmas *)

Lemma i32_small z : - 2 ^ 31 <= z < 2 ^ 31 -> i32 z = z.
Proof. intros. unfold i32. rewrite Z.mod_small by lia. lia. Qed.

Lemma in_bounds_ok val minv maxv :
  minv <= val -> (maxv < 0 \/ val <= maxv) -> in_bounds val minv maxv = Some val.
Proof. intros. unfold in_bounds. zcases; done. Qed.

Lemma dec_item n s : 0 <= n -> bool_decide (dec n ++ s = []) = false.
Proof.
  intros Hn. apply bool_decide_eq_false_2. intros H. apply app_nil in H as [H _].
  by apply (dec_not_nil n).
Qed.

Lemma strtol_dec_nil n : 0 <= n <= LONG_MAX -> strtol 10 (dec n) = (n, [], false).
Proof. intros Hn. rewrite <- (app_nil_r (dec n)). by apply strtol_dec. Qed.

Lemma hex_roundtrip n : 0 <= n < 16 -> hexvalue (hexdigit n) = Some n.
Proof.
  intros. unfold hexvalue, hexdigit. zcases; cbn [andb]; first [f_equal; lia|done].
Qed.

Lemma nibbles b : is_byte b ->
  Z.lor (u8 (Z.shiftl (Z.land (Z.shiftr b 4) 15) 4)) (Z.land b 15) = b /\
  0 <= Z.land (Z.shiftr b 4) 15 < 16 /\ 0 <= Z.land b 15 < 16.
Proof.
  intros Hb. unfold is_byte in Hb. change 15 with (Z.ones 4).
  rewrite !Z.land_ones, Z.shiftr_div_pow2 by lia. change (2 ^ 4) with 16.
  split; [|split; lia_div].
  rewrite (Z.mod_small (b / 16)) by lia_div.
  unfold u8. rewrite Z.shiftl_mul_pow2 by lia. change (2 ^ 4) with 16.
  rewrite Z.mod_small by lia_div.
  rewrite <- Z.add_nocarry_lor; [lia_div|].
  apply Z.bits_inj'. intros i Hi. rewrite Z.land_spec, Z.bits_0.
  destruct (Z.lt_ge_cases i 4).
  - change 16 with (2 ^ 4). rewrite Z.mul_pow2_bits_low by lia. done.
  - change 16 with (2 ^ 4). rewrite Z.mod_pow2_bits_high by lia. by rewrite andb_false_r.
Qed.

Lemma x2b_loop_b2x src :
  Forall is_byte src -> x2b_loop false 0 (b2x_loop src) = Some src.
Proof.
  induction 1 as [|b src Hb _ IH]; [done|]. destruct (nibbles b Hb) as (Hn & H1 & H2).
  cbn [b2x_loop x2b_loop]. rewrite !hex_roundtrip by done. by rewrite Hn, IH.
Qed.

Lemma zlen_b2x_loop src : zlen (b2x_loop src) = zlen src * 2.
Proof. induction src as [|b src IH]; [done|]. cbn [b2x_loop]. rewrite !zlen_cons. lia. Qed.

(** The hexadecimal text b2x writes for a byte string has two digits per
    byte and x2b converts it back to the same bytes. *)
Theorem b2x_x2b src dlen :
  Forall is_byte src -> zlen src * 2 + 1 <= dlen ->
  exists hex, b2x src dlen = (zlen src * 2 + 1, hex ++ [0]) /\
    zlen hex = zlen src * 2 /\
    x2b hex (zlen src) false = (zlen src, src).
Proof.
  intros Hb Hd. exists (b2x_loop src). split; [|split; [apply zlen_b2x_loop|]].
  - unfold b2x. destruct (Z.ltb_spec dlen (zlen src * 2 + 1)); [lia|done].
  - unfold x2b. rewrite zlen_b2x_loop.
    replace ((zlen src * 2 + 1) / 2) with (zlen src) by lia_div.
    rewrite Z.ltb_irrefl. cbn [andb]. by rewrite x2b_loop_b2x.
Qed.

Lemma b2x_x2b_witness :
  exists hex, b2x [0; 255; 26] 7 = (7, hex ++ [0]) /\ x2b hex 3 false = (3, [0; 255; 26]).
Proof.
  destruct (b2x_x2b [0; 255; 26] 7) as (hex & H1 & _ & H2).
  - repeat constructor; unfold is_byte; lia.
  - vm_compute. done.
  - exists hex. split; [exact H1|exact H2].
Defined.

(** A decimal number followed by s, m, h or d converts to that many
    seconds, and a bare number to itself, whenever the value fits an int and
    the bounds. *)
Theorem a2tm_units n c q minv maxv :
  time_unit c = Some q -> 0 <= n -> n * q < 2 ^ 31 ->
  minv <= n * q -> maxv < 0 \/ n * q <= maxv ->
  a2tm (dec n ++ [c]) minv maxv = Some (n * q) /\
  (minv <= n -> maxv < 0 \/ n <= maxv -> a2tm (dec n) minv maxv = Some n).
Proof.
  intros Hu Hn Hq Hmin Hmax.
  assert (1 <= q /\ isdigit c = false) as [Hq1 Hc].
  { unfold time_unit in Hu. unfold isdigit. revert Hu.
    zcases; cbn [orb]; intros; simplify_eq; split; try lia; try done. }
  assert (n <= LONG_MAX) by (unfold LONG_MAX; nia).
  split.
  - unfold a2tm. rewrite last_snoc, Hu. rewrite strtol_dec by (done || lia).
    rewrite i32_small by nia. rewrite bool_decide_eq_true_2 by done. cbn [orb negb].
    by apply in_bounds_ok.
  - intros Hmin' Hmax'. unfold a2tm. rewrite strtol_dec_nil by lia.
    destruct (dec_digits n Hn) as (ds & Hd & Hds & _ & Hne).
    destruct (last ds) as [d|] eqn:El; [|by apply last_None in El].
    assert (last (dec n) = Some (48 + d)) as -> by (by rewrite Hd, fmap_last, El).
    assert (0 <= d < 10) as Hd10.
    { apply last_Some_elem_of in El. rewrite Forall_forall in Hds. by apply Hds. }
    assert (time_unit (48 + d) = None) as -> by (unfold time_unit; zcases; done).
    rewrite Z.mul_1_r, i32_small by nia. rewrite bool_decide_eq_true_2 by done.
    cbn [orb negb]. by apply in_bounds_ok.
Qed.

Lemma a2tm_units_witness :
  a2tm (dec 36 ++ [104]) 1 (-1) = Some 129600 /\ a2tm (str "36h") 1 (-1) = Some 129600.
Proof.
  destruct (a2tm_units 36 104 3600 1 (-1)) as [H _]; [done|lia|lia|lia|lia|].
  split; [exact H|]. vm_compute. reflexivity.
Defined.

(** a2i accepts a number above the range of int and stores it modulo
    2^32, so that a value beyond every bound passes the bound checks, where
    a2ll keeps it. *)
Theorem a2i_wraps n k :
  0 <= n < 2 ^ 31 -> 0 <= k -> n + k * 2 ^ 32 <= LONG_MAX ->
  a2i (dec (n + k * 2 ^ 32)) 0 (-1) = Some n /\
  a2ll (dec (n + k * 2 ^ 32)) 0 (-1) = Some (n + k * 2 ^ 32).
Proof.
  intros Hn Hk Hmax. unfold a2i, a2ll.
  pose proof (dec_item (n + k * 2 ^ 32) []) as Hd. rewrite app_nil_r in Hd.
  rewrite !Hd by lia. rewrite !strtol_dec_nil by lia.
  rewrite bool_decide_eq_true_2 by done. cbn [orb negb].
  assert (i32 (n + k * 2 ^ 32) = n) as ->.
  { unfold i32. replace (n + k * 2 ^ 32 + 2 ^ 31) with (n + 2 ^ 31 + k * 2 ^ 32) by lia.
    rewrite Z.mod_add by lia. rewrite Z.mod_small by lia. lia. }
  split; apply in_bounds_ok; lia.
Qed.

Lemma a2i_wraps_witness :
  a2i (dec (7 + 1 * 2 ^ 32)) 0 (-1) = Some 7 /\ a2i (str "4294967303") 0 (-1) = Some 7.
Proof.
  destruct (a2i_wraps 7 1) as [H _]; [lia|lia|unfold LONG_MAX; lia|].
  split; [exact H|]. vm_compute. reflexivity.
Defined.
