(* ===== verification/HttpRange.v ===== *)
(** * HTTP byte ranges: configuration, parsing and resolution

    Models the first half of src/src/XrdHttp/XrdHttpReadRangeHandler.{hh,cc}: the
    state of the handler, [Configure], [ParseContentRange], [SetFilesize] and
    [resolveRanges]. An [off_t] is a [Z]; the values here stay below 2^63. *)

From Stdlib Require Import Strings.String.
From stdpp Require Import base tactics list_numbers numbers option list.
From S2P Require Import Prelude CString A2x.

(** ** State *)

Definition READV_MAXCHUNKS : Z := 512.
Definition READV_MAXCHUNKSIZE : Z := 512 * 1024.
Definition RREQ_MAXSIZE : Z := 8 * 1024 * 1024.

Record Configuration := MkConfiguration {
  haveSizes : bool; readv_ior_max : Z; readv_iov_max : Z; reqs_max : Z }.

(** [struct Error]; [None] is [errSet == false]. *)
Record HttpError := MkHttpError { httpRetCode : Z; errMsg : string }.

Record UserRange := MkUserRange {
  start_set : bool; end_set : bool; ur_start : Z; ur_end : Z }.

(** [UserRange()] and [UserRange( st, en )] *)
Definition UserRange_empty : UserRange := MkUserRange false false 0 0.
Definition UserRange_of (st en : Z) : UserRange := MkUserRange true true st en.

(** An element of [XrdHttpIOList]; [size] is an [int]. *)
Record IOVec := MkIOVec { io_offset : Z; io_size : Z }.
Definition XrdOucIOVec2 (offs sz : Z) : IOVec := MkIOVec offs (i32 sz).

Record RangeHandler := MkRangeHandler {
  error_ : option HttpError;
  rawUserRanges_ : list UserRange;
  rangesResolved_ : bool;
  resolvedUserRanges_ : list UserRange;
  splitRange_ : list IOVec;
  resolvedRangeIdx_ : Z;
  resolvedRangeOff_ : Z;
  splitRangeIdx_ : Z;
  splitRangeOff_ : Z;
  currSplitRangeIdx_ : Z;
  currSplitRangeOff_ : Z;
  filesize_ : Z;
  vectorReadMaxChunkSize_ : Z;
  vectorReadMaxChunks_ : Z;
  rRequestMaxBytes_ : Z }.

(** [reset()] *)
Definition reset (h : RangeHandler) : RangeHandler :=
  MkRangeHandler None [] false [] [] 0 0 0 0 0 0 0
    (vectorReadMaxChunkSize_ h) (vectorReadMaxChunks_ h) (rRequestMaxBytes_ h).

(** The constructor. *)
Definition XrdHttpReadRangeHandler (conf : Configuration) : RangeHandler :=
  let '(chunk, chunks, bytes) :=
    if haveSizes conf then (readv_ior_max conf, readv_iov_max conf, reqs_max conf)
    else (READV_MAXCHUNKSIZE, READV_MAXCHUNKS, RREQ_MAXSIZE) in
  reset (MkRangeHandler None [] false [] [] 0 0 0 0 0 0 0 chunk chunks bytes).

(** [error_.set( rc, msg )] *)
Definition set_error (rc : Z) (msg : string) (h : RangeHandler) : RangeHandler :=
  MkRangeHandler (Some (MkHttpError rc msg)) (rawUserRanges_ h) (rangesResolved_ h)
    (resolvedUserRanges_ h) (splitRange_ h) (resolvedRangeIdx_ h) (resolvedRangeOff_ h)
    (splitRangeIdx_ h) (splitRangeOff_ h) (currSplitRangeIdx_ h) (currSplitRangeOff_ h)
    (filesize_ h) (vectorReadMaxChunkSize_ h) (vectorReadMaxChunks_ h) (rRequestMaxBytes_ h).

Definition set_raw (raw : list UserRange) (h : RangeHandler) : RangeHandler :=
  MkRangeHandler (error_ h) raw (rangesResolved_ h)
    (resolvedUserRanges_ h) (splitRange_ h) (resolvedRangeIdx_ h) (resolvedRangeOff_ h)
    (splitRangeIdx_ h) (splitRangeOff_ h) (currSplitRangeIdx_ h) (currSplitRangeOff_ h)
    (filesize_ h) (vectorReadMaxChunkSize_ h) (vectorReadMaxChunks_ h) (rRequestMaxBytes_ h).

(** ** [Configure] *)

(** The return code and the configuration, changed as far as the routine got. *)
Definition Configure (parms : option bytes) (cfg : Configuration) : Z * Configuration :=
  match parms with
  | None => (0, cfg)
  | Some parms =>
      match splitString parms 44 with
      | iorstr :: iovstr :: _ =>
          match a2i (trim iorstr) 1 (-1) with
          | None => (-1, cfg)
          | Some ior =>
              let cfg := MkConfiguration (haveSizes cfg) ior (readv_iov_max cfg) (reqs_max cfg) in
              match a2i (trim iovstr) 1 (-1) with
              | None => (-1, cfg)
              | Some iov => (0, MkConfiguration true ior iov RREQ_MAXSIZE)
              end
          end
      | _ => (0, cfg)
      end
  end.

(** ** Parsing the header *)

(** [rangeFig]: [set] and [val], or -1. When nothing is read [val] keeps the
    constructor's 0. *)
Definition rangeFig (s : bytes) : option (bool * Z) :=
  let '(v, endptr, erange) := strtol 10 s in
  if erange && ((v =? LONG_MAX) || (v =? LONG_MIN)) then None
  else if erange && (v =? 0) then None
  else if negb (bool_decide (endptr = [])) then None
  else if bool_decide (endptr = s) then Some (false, 0)
  else Some (true, v).

(** [parseOneRange]: the range pushed on [rawUserRanges_], or -1. *)
Definition parseOneRange (token : bytes) : option UserRange :=
  match strchr 45 token with
  | None => None
  | Some (before, after) =>
      match rangeFig before with
      | None => None
      | Some (sset, st) =>
          match rangeFig after with
          | None => None
          | Some (eset, en) =>
              if negb sset && negb eset then None
              else if sset && eset && (en <? st) then None
              else if negb sset && eset && (en =? 0) then None
              else Some (MkUserRange sset eset st en)
          end
      end
  end.

(** The loop over the tokens: an error clears the whole list. *)
Fixpoint parse_tokens (raw : list UserRange) (tokens : list bytes) : list UserRange :=
  match tokens with
  | [] => raw
  | token :: tokens =>
      match parseOneRange token with
      | None => []
      | Some ur => parse_tokens (raw ++ [ur]) tokens
      end
  end.

(** The delimiters of [strtok_r]: space, comma, newline and carriage return. *)
Definition range_delim (c : Z) : bool := (c =? 32) || (c =? 44) || (c =? 10) || (c =? 13).

Definition ParseContentRange (line : bytes) (h : RangeHandler) : RangeHandler :=
  let str1 := match strchr 61 line with Some (_, rest) => rest | None => line end in
  set_raw (parse_tokens (rawUserRanges_ h) (strtok_all range_delim [] str1)) h.

(** [SetFilesize]: the return code and the handler. *)
Definition SetFilesize (fs : Z) (h : RangeHandler) : Z * RangeHandler :=
  match error_ h with
  | Some _ => (-1, h)
  | None =>
      if rangesResolved_ h
      then (-1, set_error 500 "Filesize notified after ranges resolved." h)
      else (0, MkRangeHandler (error_ h) (rawUserRanges_ h) (rangesResolved_ h)
                 (resolvedUserRanges_ h) (splitRange_ h) (resolvedRangeIdx_ h)
                 (resolvedRangeOff_ h) (splitRangeIdx_ h) (splitRangeOff_ h)
                 (currSplitRangeIdx_ h) (currSplitRangeOff_ h) fs
                 (vectorReadMaxChunkSize_ h) (vectorReadMaxChunks_ h) (rRequestMaxBytes_ h))
  end.

Definition isFullFile (h : RangeHandler) : bool := bool_decide (rawUserRanges_ h = []).

Definition getMaxRanges (h : RangeHandler) : Z :=
  if bool_decide (rawUserRanges_ h = []) then 1 else zlen (rawUserRanges_ h).

Definition NotifyError (h : RangeHandler) : RangeHandler :=
  match error_ h with
  | Some _ => h
  | None => set_error 500 "An error occurred." h
  end.

(** ** Resolving against the file size *)

(** One turn of the loop of [resolveRanges]: the range it appends, if any. *)
Definition resolve_one (filesize : Z) (rr : UserRange) : option UserRange :=
  if end_set rr then
    if start_set rr then
      if filesize <=? ur_start rr then None
      else Some (UserRange_of (ur_start rr)
                   (if filesize <=? ur_end rr then filesize - 1 else ur_end rr))
    else if ur_end rr =? 0 then None
    else Some (UserRange_of (if filesize <? ur_end rr then 0 else filesize - ur_end rr)
                 (filesize - 1))
  else if negb (start_set rr) then None
  else if filesize <=? ur_start rr then None
  else Some (UserRange_of (ur_start rr) (filesize - 1)).

Definition resolveRanges (h : RangeHandler) : RangeHandler :=
  match error_ h with
  | Some _ => h
  | None =>
      let raw := rawUserRanges_ h in
      let resolved := omap (resolve_one (filesize_ h)) raw in
      let resolved := if bool_decide (raw = []) && (0 <? filesize_ h)
                      then resolved ++ [UserRange_of 0 (filesize_ h - 1)] else resolved in
      let error := if negb (bool_decide (raw = [])) && bool_decide (resolved = [])
                   then Some (MkHttpError 416 "None of the range-specifier values in the Range request-header field overlap the current extent of the selected resource.")
                   else None in
      MkRangeHandler error raw true resolved (splitRange_ h) (resolvedRangeIdx_ h)
        (resolvedRangeOff_ h) (splitRangeIdx_ h) (splitRangeOff_ h) (currSplitRangeIdx_ h)
        (currSplitRangeOff_ h) (filesize_ h) (vectorReadMaxChunkSize_ h)
        (vectorReadMaxChunks_ h) (rRequestMaxBytes_ h)
  end.

(** [if( !rangesResolved_ ) resolveRanges();] *)
Definition ensure_resolved (h : RangeHandler) : RangeHandler :=
  if rangesResolved_ h then h else resolveRanges h.

Definition isSingleRange (h : RangeHandler) : bool * RangeHandler :=
  let h := ensure_resolved h in (zlen (resolvedUserRanges_ h) <=? 1, h).

Definition ListResolvedRanges (h : RangeHandler) : list UserRange * RangeHandler :=
  let h := ensure_resolved h in
  (match error_ h with Some _ => [] | None => resolvedUserRanges_ h end, h).

(** ** What the header means *)

(** A byte range the grammar of the header can express. *)
Definition range_spec (ur : UserRange) : Prop :=
  match start_set ur, end_set ur with
  | true, true => 0 <= ur_start ur <= ur_end ur /\ ur_end ur < LONG_MAX
  | true, false => 0 <= ur_start ur < LONG_MAX /\ ur_end ur = 0
  | false, true => 0 < ur_end ur < LONG_MAX /\ ur_start ur = 0
  | false, false => False
  end.

(** Its text: [5-6], [5-] or [-2]. *)
Definition print_range (ur : UserRange) : bytes :=
  (if start_set ur then dec (ur_start ur) else [])
    ++ 45 :: (if end_set ur then dec (ur_end ur) else []).

Definition print_header (rs : list UserRange) : bytes :=
  str "bytes=" ++ join_with 44 (print_range <$> rs).

(** The file offsets a client asks for with a range, for a file of [fs] bytes. *)
Definition asks_for (fs : Z) (ur : UserRange) (off : Z) : Prop :=
  0 <= off < fs /\
  match start_set ur, end_set ur with
  | true, true => ur_start ur <= off <= ur_end ur
  | true, false => ur_start ur <= off
  | false, true => fs - ur_end ur <= off
  | false, false => False
  end.

(** The bytes of a resolved range, in order. *)
Definition range_offsets (ur : UserRange) : list Z :=
  seqZ (ur_start ur) (ur_end ur - ur_start ur + 1).

(** ** Lemmas *)

Lemma rangeFig_dec n : 0 <= n < LONG_MAX -> rangeFig (dec n) = Some (true, n).
Proof.
  intros Hn. unfold rangeFig. rewrite strtol_dec_nil by lia. cbn [andb].
  rewrite bool_decide_eq_true_2 by done. cbn [negb].
  rewrite bool_decide_eq_false_2; [done|]. intros H. symmetry in H. revert H.
  apply dec_not_nil. lia.
Qed.

Lemma parseOneRange_print ur : range_spec ur -> parseOneRange (print_range ur) = Some ur.
Proof.
  intros H. unfold parseOneRange, print_range. rewrite strchr_app.
  - destruct ur as [[] [] s e]; unfold range_spec in H;
      cbn [start_set end_set ur_start ur_end] in *; try done;
      rewrite ?rangeFig_dec by lia; cbn [negb andb].
    + by destruct (Z.ltb_spec e s); [lia|].
    + destruct H as [_ ->]. done.
    + destruct H as [? ->]. change (rangeFig []) with (Some (false, 0)). cbn [negb andb].
      by destruct (Z.eqb_spec e 0); [lia|].
  - destruct (start_set ur) eqn:Es; [|done]. apply dec_no_char; [|done].
    unfold range_spec in H. rewrite Es in H. destruct (end_set ur); lia.
Qed.

Lemma dec_no_delim n : 0 <= n -> Forall (fun c => range_delim c = false) (dec n).
Proof.
  intros Hn. destruct (dec_digits n Hn) as (ds & -> & Hds & _). apply Forall_fmap.
  eapply Forall_impl; [exact Hds|]. cbn. intros d Hd. unfold range_delim. zcases; done.
Qed.

Lemma print_range_token ur : range_spec ur ->
  print_range ur <> [] /\ Forall (fun c => range_delim c = false) (print_range ur).
Proof.
  intros H. unfold print_range. split.
  - intros Hn. apply app_nil in Hn as [_ Hn]. done.
  - unfold range_spec in H. apply Forall_app. split.
    + destruct (start_set ur); [|done]. apply dec_no_delim. destruct (end_set ur); lia.
    + apply Forall_cons. split; [done|].
      destruct (end_set ur); [|done]. apply dec_no_delim. destruct (start_set ur); lia.
Qed.

Lemma parse_tokens_print rs : forall raw,
  Forall range_spec rs -> parse_tokens raw (print_range <$> rs) = raw ++ rs.
Proof.
  induction rs as [|r rs IH]; intros raw H; cbn [fmap list_fmap parse_tokens].
  - by rewrite app_nil_r.
  - apply Forall_cons in H as [Hr Hrs]. rewrite parseOneRange_print by done.
    rewrite IH by done. by rewrite <- app_assoc.
Qed.

(** The text of a list of byte ranges (first-last, first-, -count), with
    its unit prefix and commas, parses to that list. *)
Theorem ParseContentRange_print rs h :
  Forall range_spec rs -> rawUserRanges_ h = [] ->
  rawUserRanges_ (ParseContentRange (print_header rs) h) = rs.
Proof.
  intros Hrs Hraw. unfold ParseContentRange, print_header.
  set (ranges := join_with 44 (print_range <$> rs)).
  change (str "bytes=" ++ ranges) with ([98; 121; 116; 101; 115] ++ 61 :: ranges).
  rewrite strchr_app by (repeat constructor; lia). unfold ranges.
  cbn [app rawUserRanges_ set_raw]. rewrite Hraw, strtok_join.
  - by rewrite parse_tokens_print.
  - done.
  - apply Forall_fmap. eapply Forall_impl; [exact Hrs|]. apply print_range_token.
Qed.

Lemma ParseContentRange_print_witness :
  rawUserRanges_ (ParseContentRange
     (print_header [MkUserRange true true 15 17; MkUserRange true false 20 0;
                    MkUserRange false true 0 5])
     (XrdHttpReadRangeHandler (MkConfiguration false 0 0 0)))
  = [MkUserRange true true 15 17; MkUserRange true false 20 0; MkUserRange false true 0 5] /\
  print_header [MkUserRange true true 15 17; MkUserRange true false 20 0;
                MkUserRange false true 0 5] = str "bytes=15-17,20-,-5".
Proof.
  split.
  - apply ParseContentRange_print; [|done].
    repeat constructor; unfold LONG_MAX; cbn; lia.
  - vm_compute. reflexivity.
Defined.

(** A range that parses is one of the grammar, unless its number of last bytes
    is itself written with a sign. *)
Lemma resolve_one_offsets fs rr off :
  0 <= fs -> range_spec rr ->
  asks_for fs rr off <->
  exists r, resolve_one fs rr = Some r /\ ur_start r <= off <= ur_end r.
Proof.
  intros Hfs H. unfold asks_for, resolve_one, range_spec in *.
  destruct rr as [[] [] s e]; cbn [start_set end_set ur_start ur_end negb] in *; try done.
  - destruct (Z.leb_spec fs s); [split; [lia|by intros (? & ? & ?)]|].
    split; [intros; eexists; split; [done|]; cbn; zcases; lia|].
    intros (r & [= <-] & Hr). revert Hr. cbn. zcases; lia.
  - destruct (Z.leb_spec fs s); [split; [lia|by intros (? & ? & ?)]|].
    split; [intros; eexists; split; [done|]; cbn; zcases; lia|].
    intros (r & [= <-] & Hr). revert Hr. cbn. lia.
  - destruct (Z.eqb_spec e 0); [lia|].
    split; [intros; eexists; split; [done|]; cbn; zcases; lia|].
    intros (r & [= <-] & Hr). revert Hr. cbn. zcases; lia.
Qed.

(** A resolved range lies within the file and is not empty. *)
Definition range_in (fs : Z) (r : UserRange) : Prop :=
  start_set r = true /\ end_set r = true /\ 0 <= ur_start r <= ur_end r /\ ur_end r < fs.

Lemma resolve_one_in fs rr r :
  0 < fs -> range_spec rr -> resolve_one fs rr = Some r -> range_in fs r.
Proof.
  intros Hfs H. unfold resolve_one, range_spec, range_in in *.
  destruct rr as [[] [] s e]; cbn [start_set end_set ur_start ur_end negb] in *; try done.
  - destruct (Z.leb_spec fs s); [done|]. intros [= <-]. cbn. zcases.
  - destruct (Z.leb_spec fs s); [done|]. intros [= <-]. cbn. lia.
  - destruct (Z.eqb_spec e 0); [done|]. intros [= <-]. cbn. zcases.
Qed.

Lemma elem_of_range_offsets off r : off ∈ range_offsets r <-> ur_start r <= off <= ur_end r.
Proof. unfold range_offsets. rewrite elem_of_seqZ. lia. Qed.

(** C36: For header ranges of the grammar and a non-empty file, the resolved
    ranges lie within the file and cover exactly the offsets the header asks
    for (the whole file without a header); the handler is in error 416 exactly
    when the header selects nothing. *)
Theorem resolveRanges_meaning h :
  error_ h = None -> 0 < filesize_ h -> Forall range_spec (rawUserRanges_ h) ->
  let h' := resolveRanges h in
  rangesResolved_ h' = true /\
  Forall (range_in (filesize_ h)) (resolvedUserRanges_ h') /\
  (forall off, off ∈ mjoin (range_offsets <$> resolvedUserRanges_ h') <->
     if isFullFile h then 0 <= off < filesize_ h
     else exists rr, rr ∈ rawUserRanges_ h /\ asks_for (filesize_ h) rr off) /\
  ((exists m, error_ h' = Some (MkHttpError 416 m)) <->
     resolvedUserRanges_ h' = [] /\ isFullFile h = false) /\
  (error_ h' <> None -> exists m, error_ h' = Some (MkHttpError 416 m)).
Proof.
  intros Herr Hfs Hspec h'. unfold h', resolveRanges, isFullFile. rewrite Herr.
  cbn [rangesResolved_ resolvedUserRanges_ error_].
  set (raw := rawUserRanges_ h) in *. set (fs := filesize_ h) in *.
  assert (forall off, off ∈ mjoin (range_offsets <$> omap (resolve_one fs) raw) <->
            exists rr, rr ∈ raw /\ asks_for fs rr off) as Hoff.
  { intros off. rewrite list_elem_of_join. rewrite Forall_forall in Hspec. split.
    - intros (l & Hl & Hin). apply list_elem_of_fmap in Hin as (r & -> & Hr).
      apply list_elem_of_omap in Hr as (rr & Hrr & Hres). exists rr. split; [done|].
      apply resolve_one_offsets; [lia|by apply Hspec|].
      exists r. split; [done|]. by apply elem_of_range_offsets.
    - intros (rr & Hrr & Hask).
      apply resolve_one_offsets in Hask as (r & Hr & Hin); [|lia|by apply Hspec].
      exists (range_offsets r). split; [by apply elem_of_range_offsets|].
      apply list_elem_of_fmap. exists r. split; [done|]. apply list_elem_of_omap. eauto. }
  destruct (decide (raw = [])) as [Hraw|Hraw].
  - rewrite Hraw. rewrite bool_decide_eq_true_2 by done.
    destruct (Z.ltb_spec 0 fs); [|lia]. cbn.
    split_and!; try done.
    + repeat constructor; cbn; lia.
    + intros off. rewrite app_nil_r, elem_of_range_offsets. cbn. lia.
    + split; [by intros [? ?]|by intros [? ?]].
  - rewrite bool_decide_eq_false_2 by done. cbn [andb negb]. split_and!; try done.
    + apply Forall_forall. intros r Hr. apply list_elem_of_omap in Hr as (rr & Hrr & Hr).
      rewrite Forall_forall in Hspec. eapply resolve_one_in; eauto.
    + case_bool_decide; split; [by eauto|by eauto|by intros [? ?]|by intros [? _]].
    + case_bool_decide; [by eauto|done].
Qed.

Lemma resolveRanges_meaning_witness :
  let h := (SetFilesize 100 (ParseContentRange (str "bytes=90-200,-3,400-")
              (XrdHttpReadRangeHandler (MkConfiguration false 0 0 0)))).2 in
  (forall off, off ∈ mjoin (range_offsets <$> resolvedUserRanges_ (resolveRanges h)) <->
     exists rr, rr ∈ rawUserRanges_ h /\ asks_for 100 rr off) /\
  resolvedUserRanges_ (resolveRanges h) = [UserRange_of 90 99; UserRange_of 97 99].
Proof.
  intros h. split.
  - destruct (resolveRanges_meaning h) as (_ & _ & H & _).
    + done.
    + vm_compute. done.
    + assert (rawUserRanges_ h = [MkUserRange true true 90 200; MkUserRange false true 0 3;
                                  MkUserRange true false 400 0]) as -> by (vm_compute; reflexivity).
      repeat (apply Forall_cons; split; [unfold range_spec, LONG_MAX; cbn; lia|]).
      by apply Forall_nil.
    + exact H.
  - vm_compute. reflexivity.
Defined.

(** The header bytes=--5 is accepted as the last minus five bytes, and on
    a file of 10 bytes resolves to the range from 15 to 9. *)
Theorem negative_suffix_accepted :
  let h := (SetFilesize 10 (ParseContentRange (str "bytes=--5")
              (XrdHttpReadRangeHandler (MkConfiguration false 0 0 0)))).2 in
  rawUserRanges_ h = [MkUserRange false true 0 (-5)] /\
  error_ (resolveRanges h) = None /\
  resolvedUserRanges_ (resolveRanges h) = [UserRange_of 15 9].
Proof. vm_compute. done. Qed.

(** A request for the last n bytes of an empty file is not answered with
    416 but resolved to the range from 0 to -1. *)
Theorem empty_file_suffix n h :
  0 < n -> error_ h = None -> filesize_ h = 0 ->
  rawUserRanges_ h = [MkUserRange false true 0 n] ->
  error_ (resolveRanges h) = None /\
  resolvedUserRanges_ (resolveRanges h) = [UserRange_of 0 (-1)].
Proof.
  intros Hn He Hf Hr. unfold resolveRanges. rewrite He, Hr, Hf.
  cbn [omap list_omap resolve_one end_set start_set ur_end ur_start].
  destruct (Z.eqb_spec n 0); [lia|]. destruct (Z.ltb_spec 0 n); [|lia]. done.
Qed.

Lemma empty_file_suffix_witness :
  let h := ParseContentRange (str "bytes=-5") (XrdHttpReadRangeHandler (MkConfiguration false 0 0 0)) in
  resolvedUserRanges_ (resolveRanges h) = [UserRange_of 0 (-1)].
Proof.
  intros h. destruct (empty_file_suffix 5 h) as [_ H]; [lia|done|done|vm_compute; done|exact H].
Defined.
