(* ===== verification/HttpSplit.v ===== *)
(** * HTTP byte ranges: splitting into reads and tracking what arrives

    Models the second half of src/src/XrdHttp/XrdHttpReadRangeHandler.cc:
    [NextReadList], [splitRanges], [trimSplit] and [NotifyReadResult]. A [size_t]
    used as an index is a [Z]; indexing out of a vector is [Fault]. *)

From Stdlib Require Import Strings.String.
From stdpp Require Import base tactics list_numbers numbers option list.
From S2P Require Import Prelude CString HttpRange.

(** ** [splitRanges] *)

(** The state of its loop: [splitRangeIdx_], [splitRangeOff_], [rsr], [tmpur] and the
    chunks appended so far. *)
Record SplitState := MkSplitState {
  ss_idx : Z; ss_off : Z; ss_rsr : Z; ss_tmpur : UserRange; ss_chunks : list IOVec }.

(** One turn of the [while]; [nc] chunks were appended. *)
Definition split_turn (maxchs rmax nc : Z) (resolved : list UserRange) (s : SplitState)
  : res SplitState :=
  tmpur ← (if start_set (ss_tmpur s) then Ok (ss_tmpur s) else
           match resolved !! Z.to_nat (ss_idx s) with
           | None => Fault
           | Some ur => Ok (MkUserRange (start_set ur) (end_set ur)
                              (ur_start ur + ss_off s) (ur_end ur))
           end);
  let l := ur_end tmpur - ur_start tmpur + 1 in
  let maxsize := Z.min (ss_rsr s) maxchs in
  let maxsize := if (nc =? 0) && (rmax <=? l) then rmax else maxsize in
  if maxsize <? l then
    Ok (MkSplitState (ss_idx s) (ss_off s + maxsize) (u64 (ss_rsr s - maxsize))
          (MkUserRange (start_set tmpur) (end_set tmpur) (ur_start tmpur + maxsize)
             (ur_end tmpur))
          (ss_chunks s ++ [XrdOucIOVec2 (ur_start tmpur) maxsize]))
  else
    Ok (MkSplitState (ss_idx s + 1) 0 (u64 (ss_rsr s - l)) UserRange_empty
          (ss_chunks s ++ [XrdOucIOVec2 (ur_start tmpur) l])).

(** The loop; [n] chunks may still be appended, so [n = maxch - nc]. *)
Fixpoint splitRanges_loop (n : nat) (maxchs rmax nc : Z) (resolved : list UserRange)
    (s : SplitState) : res SplitState :=
  if (ss_idx s <? zlen resolved) && (0 <? ss_rsr s) then
    match n with
    | O => Ok s
    | S n =>
        s ← split_turn maxchs rmax nc resolved s;
        splitRanges_loop n maxchs rmax (nc + 1) resolved s
    end
  else Ok s.

Definition splitRanges (h : RangeHandler) : res RangeHandler :=
  let single := zlen (resolvedUserRanges_ h) <=? 1 in
  let maxch := if single then 1 else vectorReadMaxChunks_ h in
  let maxchs := if single then rRequestMaxBytes_ h else vectorReadMaxChunkSize_ h in
  s ← splitRanges_loop (Z.to_nat maxch) maxchs (rRequestMaxBytes_ h) 0
        (resolvedUserRanges_ h)
        (MkSplitState (splitRangeIdx_ h) (splitRangeOff_ h) (rRequestMaxBytes_ h)
           UserRange_empty []);
  Ok (MkRangeHandler (error_ h) (rawUserRanges_ h) (rangesResolved_ h)
        (resolvedUserRanges_ h) (ss_chunks s) (splitRangeIdx_ h) (splitRangeOff_ h)
        (ss_idx s) (ss_off s) 0 0 (filesize_ h) (vectorReadMaxChunkSize_ h)
        (vectorReadMaxChunks_ h) (rRequestMaxBytes_ h)).

(** ** [trimSplit] *)

Definition set_split (chunks : list IOVec) (idx off : Z) (h : RangeHandler) : RangeHandler :=
  MkRangeHandler (error_ h) (rawUserRanges_ h) (rangesResolved_ h)
    (resolvedUserRanges_ h) chunks (resolvedRangeIdx_ h) (resolvedRangeOff_ h)
    (splitRangeIdx_ h) (splitRangeOff_ h) idx off (filesize_ h)
    (vectorReadMaxChunkSize_ h) (vectorReadMaxChunks_ h) (rRequestMaxBytes_ h).

Definition trimSplit (h : RangeHandler) : RangeHandler :=
  let chunks :=
    if currSplitRangeIdx_ h <? zlen (splitRange_ h)
    then drop (Z.to_nat (currSplitRangeIdx_ h)) (splitRange_ h) else [] in
  let chunks :=
    match chunks with
    | c :: cs =>
        if currSplitRangeOff_ h <? io_size c
        then MkIOVec (io_offset c + currSplitRangeOff_ h)
               (i32 (io_size c - currSplitRangeOff_ h)) :: cs
        else []
    | [] => []
    end in
  set_split chunks 0 0 h.

(** ** [NextReadList] *)

Definition no_progress_msg : string :=
  "Stopping request because more data is expected but no data has been read.".

Definition NextReadList (h : RangeHandler) : res (list IOVec * RangeHandler) :=
  let h := ensure_resolved h in
  match error_ h with
  | Some _ => Ok ([], h)
  | None =>
      let next h :=
        if zlen (resolvedUserRanges_ h) <=? splitRangeIdx_ h then Ok ([], h) else
        h ← splitRanges h; Ok (splitRange_ h, h) in
      match splitRange_ h with
      | [] => next h
      | _ :: _ =>
          if (currSplitRangeIdx_ h =? 0) && (currSplitRangeOff_ h =? 0)
          then Ok ([], set_error 500 no_progress_msg h)
          else
            let h := trimSplit h in
            match splitRange_ h with
            | [] => next h
            | cs => Ok (cs, h)
            end
      end
  end.

(** ** [NotifyReadResult] *)

(** The return code, the range reported through [urp], the two flags and the
    handler; [None] for an output that was not written. *)
Record Notified := MkNotified {
  nt_rc : Z; nt_urp : option UserRange; nt_start : option bool; nt_allend : option bool;
  nt_h : RangeHandler }.

(** [if( currSplitRangeOff_ == clen )]: the chunks, the index and the offset. *)
Definition next_chunk (chunks : list IOVec) (idx off clen : Z) : list IOVec * Z * Z :=
  if off =? clen then
    if zlen chunks <=? idx + 1 then ([], 0, 0) else (chunks, idx + 1, 0)
  else (chunks, idx, off).

(** [if( resolvedRangeOff_ == ulen )]: the index, the offset and [allend]. *)
Definition next_range (ranges : list UserRange) (idx off ulen : Z) : Z * Z * bool :=
  if off =? ulen then (idx + 1, 0, zlen ranges <=? idx + 1) else (idx, off, false).

Definition NotifyReadResult (ret : Z) (h : RangeHandler) : Notified :=
  let fail msg start allend urp :=
    MkNotified (-1) urp start allend (set_error 500 msg h) in
  match error_ h with
  | Some _ => MkNotified (-1) None None None h
  | None =>
  if ret =? 0 then MkNotified 0 None None None h
  else if ret <? 0 then fail "Range handler read failure."%string None None None
  else if negb (rangesResolved_ h)
  then fail "Range handler ranges not yet resolved."%string None None None
  else
  match splitRange_ h, splitRange_ h !! Z.to_nat (currSplitRangeIdx_ h),
        resolvedUserRanges_ h !! Z.to_nat (resolvedRangeIdx_ h) with
  | [], _, _ => fail "No ranges being read."%string None None None
  | _ :: _, Some chunk, Some ur =>
      let start := resolvedRangeOff_ h =? 0 in
      let clen := io_size chunk in
      let ulen := ur_end ur - ur_start ur + 1 in
      let currOff := i32 (currSplitRangeOff_ h + ret) in
      let resOff := resolvedRangeOff_ h + ret in
      let moved := MkRangeHandler (error_ h) (rawUserRanges_ h) (rangesResolved_ h)
        (resolvedUserRanges_ h) (splitRange_ h) (resolvedRangeIdx_ h) resOff
        (splitRangeIdx_ h) (splitRangeOff_ h) (currSplitRangeIdx_ h) currOff
        (filesize_ h) (vectorReadMaxChunkSize_ h) (vectorReadMaxChunks_ h)
        (rRequestMaxBytes_ h) in
      if (clen <? currOff) || (ulen <? resOff) then
        MkNotified (-1) (Some ur) (Some start) (Some false)
          (set_error 500 "Range handler read crossing chunk boundary." moved)
      else
      let '(chunks, ci, co) := next_chunk (splitRange_ h) (currSplitRangeIdx_ h) currOff clen in
      let '(ri, ro, allend) :=
        next_range (resolvedUserRanges_ h) (resolvedRangeIdx_ h) resOff ulen in
      MkNotified 0 (Some ur) (Some start) (Some allend)
        (MkRangeHandler (error_ h) (rawUserRanges_ h) (rangesResolved_ h)
           (resolvedUserRanges_ h) chunks ri ro (splitRangeIdx_ h) (splitRangeOff_ h)
           ci co (filesize_ h) (vectorReadMaxChunkSize_ h) (vectorReadMaxChunks_ h)
           (rRequestMaxBytes_ h))
  | _ :: _, _, _ => fail "Range handler index invalid."%string (Some false) (Some false) None
  end
  end.

(** ** What is still to be delivered *)

(** The bytes of the ranges from byte [off] of range [idx] on. *)
Definition rest_from (R : list UserRange) (idx off : Z) : list Z :=
  drop (Z.to_nat off) (mjoin (range_offsets <$> drop (Z.to_nat idx) R)).

Definition chunk_offsets (c : IOVec) : list Z := seqZ (io_offset c) (io_size c).

Definition pending (h : RangeHandler) : list Z :=
  rest_from (resolvedUserRanges_ h) (resolvedRangeIdx_ h) (resolvedRangeOff_ h).

Definition range_len (r : UserRange) : Z := ur_end r - ur_start r + 1.

(** [tiles R i o cs i' o']: the chunks cover the bytes from position [(i, o)] to
    [(i', o')], none of them crossing the end of a range. *)
Inductive tiles (R : list UserRange) : Z -> Z -> list IOVec -> Z -> Z -> Prop :=
  | tiles_nil i o : tiles R i o [] i o
  | tiles_part i o sz r cs i' o' :
      0 <= i -> R !! Z.to_nat i = Some r -> 0 <= o -> 0 < sz < 2 ^ 31 ->
      o + sz < range_len r -> tiles R i (o + sz) cs i' o' ->
      tiles R i o (MkIOVec (ur_start r + o) sz :: cs) i' o'
  | tiles_full i o sz r cs i' o' :
      0 <= i -> R !! Z.to_nat i = Some r -> 0 <= o -> 0 < sz < 2 ^ 31 ->
      o + sz = range_len r -> tiles R (i + 1) 0 cs i' o' ->
      tiles R i o (MkIOVec (ur_start r + o) sz :: cs) i' o'.

(** ** Lemmas on positions and tiles *)

(** A position of the split: inside a range, or after the last one. *)
Definition pos_ok (R : list UserRange) (i o : Z) : Prop :=
  0 <= i <= zlen R /\ 0 <= o /\
  (forall r, R !! Z.to_nat i = Some r -> o < range_len r) /\ (i = zlen R -> o = 0).

Lemma lookup_range R i : 0 <= i < zlen R -> exists r : UserRange, R !! Z.to_nat i = Some r.
Proof. intros Hi. apply lookup_lt_is_Some. unfold zlen in Hi. lia. Qed.

Lemma lookup_range_lt R i (r : UserRange) : 0 <= i -> R !! Z.to_nat i = Some r -> i < zlen R.
Proof. intros Hi H. apply lookup_lt_Some in H. unfold zlen. lia. Qed.

Lemma range_in_len fs r : range_in fs r -> 0 < range_len r.
Proof. intros (_ & _ & ? & ?). unfold range_len. lia. Qed.

Lemma R_in fs R i r : Forall (range_in fs) R -> R !! i = Some r -> range_in fs r.
Proof. intros H Hi. rewrite Forall_lookup in H. by eapply H. Qed.

Lemma rest_from_eq R i o r :
  0 <= i -> R !! Z.to_nat i = Some r -> 0 <= o <= range_len r ->
  rest_from R i o = seqZ (ur_start r + o) (range_len r - o) ++ rest_from R (i + 1) 0.
Proof.
  intros Hi Hr Ho. unfold rest_from. rewrite (drop_S R r (Z.to_nat i)) by done.
  replace (Z.to_nat (i + 1)) with (S (Z.to_nat i)) by lia.
  cbn [fmap list_fmap mjoin list_join]. change (Z.to_nat 0) with 0%nat. rewrite drop_0.
  unfold range_offsets at 1. fold (range_len r). rewrite drop_app_le by (rewrite length_seqZ; lia).
  f_equal. replace (range_len r) with (o + (range_len r - o)) at 1 by lia.
  rewrite seqZ_app by lia. rewrite drop_app_ge by (rewrite length_seqZ; lia).
  rewrite length_seqZ. by replace (Z.to_nat o - Z.to_nat o)%nat with 0%nat by lia.
Qed.

Lemma rest_from_end R i : zlen R <= i -> rest_from R i 0 = [].
Proof.
  intros Hi. unfold rest_from. rewrite (drop_ge R) by (unfold zlen in Hi; lia). done.
Qed.

Lemma rest_from_step R i o n r :
  0 <= i -> R !! Z.to_nat i = Some r -> 0 <= o -> 0 <= n -> o + n <= range_len r ->
  rest_from R i o = seqZ (ur_start r + o) n
    ++ (if o + n =? range_len r then rest_from R (i + 1) 0 else rest_from R i (o + n)).
Proof.
  intros Hi Hr Ho Hn Hle. rewrite (rest_from_eq R i o r) by (done || lia).
  replace (range_len r - o) with (n + (range_len r - (o + n))) by lia.
  rewrite seqZ_app by lia. rewrite <- app_assoc. f_equal.
  destruct (Z.eqb_spec (o + n) (range_len r)) as [->|].
  - by rewrite Z.sub_diag.
  - rewrite (rest_from_eq R i (o + n) r) by (done || lia). do 2 f_equal. lia.
Qed.

Lemma rest_from_nonempty fs R i o :
  Forall (range_in fs) R -> pos_ok R i o -> i < zlen R -> rest_from R i o <> [].
Proof.
  intros HR (Hi & Ho & Hlt & _) Hlt'. destruct (lookup_range R i) as [r Hr]; [lia|].
  specialize (Hlt r Hr). rewrite (rest_from_eq R i o r) by (done || lia).
  intros H. apply app_nil in H as [H _]. apply (f_equal length) in H.
  rewrite length_seqZ in H. simpl in H. lia.
Qed.

Lemma tiles_rest R i o cs i' o' :
  tiles R i o cs i' o' ->
  rest_from R i o = mjoin (chunk_offsets <$> cs) ++ rest_from R i' o'.
Proof.
  induction 1 as [|i o sz r cs i' o' Hi Hr Ho Hsz Hlt _ IH|i o sz r cs i' o' Hi Hr Ho Hsz Heq _ IH].
  - done.
  - rewrite (rest_from_step R i o sz r) by (done || lia).
    destruct (Z.eqb_spec (o + sz) (range_len r)); [lia|]. rewrite IH. by rewrite app_assoc.
  - rewrite (rest_from_step R i o sz r) by (done || lia). rewrite Heq, Z.eqb_refl, IH.
    by rewrite app_assoc.
Qed.

Lemma tiles_app R i o cs i1 o1 cs' i' o' :
  tiles R i o cs i1 o1 -> tiles R i1 o1 cs' i' o' -> tiles R i o (cs ++ cs') i' o'.
Proof.
  induction 1 as [|i o sz r cs i1 o1 Hi Hr Ho Hsz Hlt _ IH|i o sz r cs i1 o1 Hi Hr Ho Hsz Heq _ IH];
    intros H; [done| |]; cbn [app].
  - eapply tiles_part; eauto.
  - eapply tiles_full; eauto.
Qed.

(** The first chunk starts at the position and stays within its range. *)
Lemma tiles_head R i o c cs i' o' :
  tiles R i o (c :: cs) i' o' ->
  exists r, 0 <= i /\ R !! Z.to_nat i = Some r /\ 0 <= o /\ io_offset c = ur_start r + o /\
    0 < io_size c < 2 ^ 31 /\ o + io_size c <= range_len r /\
    tiles R (if o + io_size c =? range_len r then i + 1 else i)
      (if o + io_size c =? range_len r then 0 else o + io_size c) cs i' o'.
Proof.
  intros H. inversion H; subst; eexists; cbn [io_offset io_size]; split_and!;
    try done; try lia.
  - destruct (Z.eqb_spec (o + sz) (range_len r)); [lia|done].
  - destruct (Z.eqb_spec (o + sz) (range_len r)); [done|lia].
Qed.

(** Taking the first [n] bytes off the first chunk. *)
Lemma tiles_trim R i o c cs i' o' n :
  tiles R i o (c :: cs) i' o' -> 0 <= n < io_size c ->
  tiles R i (o + n) (MkIOVec (io_offset c + n) (i32 (io_size c - n)) :: cs) i' o'.
Proof.
  intros H Hn. apply tiles_head in H as (r & Hi & Hr & Ho & Hoff & Hsz & Hle & Ht).
  assert (i32 (io_size c - n) = io_size c - n) as -> by (apply A2x.i32_small; lia).
  rewrite Hoff. replace (ur_start r + o + n) with (ur_start r + (o + n)) by lia.
  destruct (Z.eqb_spec (o + io_size c) (range_len r)).
  - eapply tiles_full; eauto; lia.
  - eapply tiles_part; eauto; try lia. by replace (o + n + (io_size c - n)) with (o + io_size c) by lia.
Qed.

(** ** The splitting loop *)

Definition tmp_ok (R : list UserRange) (s : SplitState) : Prop :=
  start_set (ss_tmpur s) = false \/
  exists r, R !! Z.to_nat (ss_idx s) = Some r /\
    ss_tmpur s = MkUserRange true true (ur_start r + ss_off s) (ur_end r).

Section split.
Context (fs maxchs rmax : Z) (R : list UserRange).
Context (HR : Forall (range_in fs) R) (Hmaxchs : 0 < maxchs) (Hrmax : 0 < rmax < 2 ^ 31).

Lemma split_turn_ok nc s :
  pos_ok R (ss_idx s) (ss_off s) -> ss_idx s < zlen R -> tmp_ok R s ->
  0 < ss_rsr s <= rmax -> (nc = 0 -> ss_rsr s = rmax) ->
  exists c s', split_turn maxchs rmax nc R s = Ok s' /\ ss_chunks s' = ss_chunks s ++ [c] /\
    tmp_ok R s' /\ pos_ok R (ss_idx s') (ss_off s') /\
    tiles R (ss_idx s) (ss_off s) [c] (ss_idx s') (ss_off s') /\
    ss_rsr s' = ss_rsr s - io_size c /\ 0 < io_size c <= ss_rsr s /\
    (io_size c <= maxchs \/ nc = 0 /\ io_size c = rmax).
Proof using HR Hmaxchs Hrmax.
  intros Hpos Hlt Htmp Hrsr Hnc. destruct Hpos as (Hi & Ho & Hin & _).
  destruct (lookup_range R (ss_idx s)) as [r Hr]; [lia|]. specialize (Hin r Hr).
  pose proof (R_in _ _ _ _ HR Hr) as (Hs1 & Hs2 & Hb & Hfs).
  unfold split_turn.
  assert ((if start_set (ss_tmpur s) then Ok (ss_tmpur s) else
         match R !! Z.to_nat (ss_idx s) with
         | None => Fault
         | Some ur => Ok (MkUserRange (start_set ur) (end_set ur)
                            (ur_start ur + ss_off s) (ur_end ur))
         end) = Ok (MkUserRange true true (ur_start r + ss_off s) (ur_end r))) as ->.
  { destruct Htmp as [->|(r' & Hr' & ->)]; [by rewrite Hr, Hs1, Hs2|].
    rewrite Hr in Hr'. by injection Hr' as <-. }
  step_ok. cbn [ur_end ur_start start_set end_set].
  set (l := ur_end r - (ur_start r + ss_off s) + 1).
  assert (l = range_len r - ss_off s) as Hl by (unfold l, range_len; lia).
  set (maxsize := if (nc =? 0) && (rmax <=? l) then rmax else Z.min (ss_rsr s) maxchs).
  assert (0 < maxsize <= ss_rsr s /\ (maxsize <= maxchs \/ nc = 0 /\ maxsize = rmax /\ rmax <= l))
    as [Hms Hms'].
  { unfold maxsize. destruct (Z.eqb_spec nc 0), (Z.leb_spec rmax l); cbn [andb]; lia. }
  clearbody maxsize. unfold XrdOucIOVec2.
  destruct (Z.ltb_spec maxsize l).
  - eexists (MkIOVec _ _), _. split; [reflexivity|].
    cbn [ss_chunks ss_idx ss_off ss_rsr ss_tmpur io_size].
    rewrite A2x.i32_small by lia. rewrite u64_small by lia.
    split_and!; try done; try lia.
    + right. exists r. split; [done|]. cbn. f_equal. lia.
    + unfold pos_ok. split_and!; try lia.
      intros r' Hr'. rewrite Hr in Hr'. injection Hr' as <-. lia.
    + eapply tiles_part; eauto; try lia. apply tiles_nil.
  - eexists (MkIOVec _ _), _. split; [reflexivity|].
    cbn [ss_chunks ss_idx ss_off ss_rsr ss_tmpur io_size].
    rewrite A2x.i32_small by lia. rewrite u64_small by lia.
    split_and!; try done; try lia.
    + by left.
    + unfold pos_ok. split_and!; try lia.
      intros r' Hr'. pose proof (R_in _ _ _ _ HR Hr') as Hr''. by apply range_in_len in Hr''.
    + eapply tiles_full; eauto; try lia. apply tiles_nil.
Qed.

(** Limits of a list of chunks: at most [n] of them, at most [rsr] bytes, and a
    chunk above the maximum size is the whole list. *)
Definition chunks_ok (n : nat) (nc rsr : Z) (cs : list IOVec) : Prop :=
  (length cs <= n)%nat /\ foldr (fun c t => io_size c + t) 0 cs <= rsr /\
  (Forall (fun c => 0 < io_size c <= maxchs) cs \/
   nc = 0 /\ exists c, cs = [c] /\ io_size c = rmax).

Lemma splitRanges_loop_ok n : forall nc s,
  pos_ok R (ss_idx s) (ss_off s) -> tmp_ok R s ->
  0 <= ss_rsr s <= rmax -> (nc = 0 -> ss_rsr s = rmax) -> 0 <= nc ->
  exists cs s', splitRanges_loop n maxchs rmax nc R s = Ok s' /\
    ss_chunks s' = ss_chunks s ++ cs /\ pos_ok R (ss_idx s') (ss_off s') /\
    tiles R (ss_idx s) (ss_off s) cs (ss_idx s') (ss_off s') /\
    chunks_ok n nc (ss_rsr s) cs /\
    ((0 < n)%nat -> ss_idx s < zlen R -> 0 < ss_rsr s -> cs <> []).
Proof using HR Hmaxchs Hrmax.
  induction n as [|n IH]; intros nc s Hpos Htmp Hrsr Hnc Hnc0; cbn [splitRanges_loop];
    (destruct (Z.ltb_spec (ss_idx s) (zlen R)), (Z.ltb_spec 0 (ss_rsr s)); cbn [andb];
      try (exists [], s; rewrite app_nil_r; split_and!; try done; try lia; try apply tiles_nil;
           unfold chunks_ok; cbn; split_and!; try lia; by left)).
  destruct (split_turn_ok nc s) as (c & s1 & -> & Hc1 & Ht1 & Hp1 & Htl & Hr1 & Hsz & Hlim);
    [done|done|done|lia|done|]. step_ok.
  destruct (IH (nc + 1) s1) as (cs & s' & Hl & Hcs & Hp & Htiles & Hok & _);
    [done|done|lia|lia|lia|].
  exists (c :: cs), s'. split_and!; try done.
  - by rewrite Hcs, Hc1, <- app_assoc.
  - change (c :: cs) with ([c] ++ cs). by eapply tiles_app.
  - destruct Hok as (Hlen & Hsum & Hall). unfold chunks_ok. cbn [length foldr].
    split_and!; [lia|lia|].
    destruct Hall as [Hall|(Hnc1 & _)]; [|lia].
    destruct Hlim as [Hle|[Hz Hbig]].
    + left. apply Forall_cons. split; [lia|done].
    + right. split; [done|]. exists c. split; [|done].
      rewrite Hr1, Hbig, (Hnc Hz), Z.sub_diag in Hsum.
      destruct cs as [|c' cs]; [done|]. apply Forall_cons in Hall as [? Hall]. exfalso.
      assert (0 <= foldr (fun c t => io_size c + t) 0 cs).
      { clear -Hall. induction Hall; cbn; lia. }
      cbn in Hsum. lia.
Qed.
End split.

(** ** The handler's invariant *)

Record limits_ok (h : RangeHandler) : Prop := {
  lim_chunks : 0 < vectorReadMaxChunks_ h;
  lim_chunk : 0 < vectorReadMaxChunkSize_ h;
  lim_req : 0 < rRequestMaxBytes_ h < 2 ^ 31 }.

Record handler_inv (h : RangeHandler) : Prop := {
  hi_error : error_ h = None;
  hi_resolved : rangesResolved_ h = true;
  hi_limits : limits_ok h;
  hi_in : Forall (range_in (filesize_ h)) (resolvedUserRanges_ h);
  hi_pos : pos_ok (resolvedUserRanges_ h) (splitRangeIdx_ h) (splitRangeOff_ h);
  hi_curr : 0 <= currSplitRangeIdx_ h /\ 0 <= currSplitRangeOff_ h;
  hi_chunk : match splitRange_ h with
             | [] => currSplitRangeOff_ h = 0
             | cs => exists c, cs !! Z.to_nat (currSplitRangeIdx_ h) = Some c /\
                       currSplitRangeOff_ h < io_size c
             end;
  hi_tiles : tiles (resolvedUserRanges_ h) (resolvedRangeIdx_ h)
               (resolvedRangeOff_ h - currSplitRangeOff_ h)
               (drop (Z.to_nat (currSplitRangeIdx_ h)) (splitRange_ h))
               (splitRangeIdx_ h) (splitRangeOff_ h) }.

(** The bytes of the chunks that were handed out and have not arrived. *)
Definition outstanding (h : RangeHandler) : list Z :=
  drop (Z.to_nat (currSplitRangeOff_ h))
    (mjoin (chunk_offsets <$> drop (Z.to_nat (currSplitRangeIdx_ h)) (splitRange_ h))).

Lemma tiles_nil_inv R i o i' o' : tiles R i o [] i' o' -> i = i' /\ o = o'.
Proof. by inversion 1. Qed.

(** With nothing outstanding the two positions agree. *)
Lemma inv_empty h : handler_inv h -> splitRange_ h = [] ->
  resolvedRangeIdx_ h = splitRangeIdx_ h /\ resolvedRangeOff_ h = splitRangeOff_ h.
Proof.
  intros H He. pose proof (hi_tiles h H) as Ht. pose proof (hi_chunk h H) as Hc.
  rewrite He in *. rewrite drop_nil in Ht. apply tiles_nil_inv in Ht as [-> <-].
  split; [done|]. lia.
Qed.

(** What is pending is what is outstanding and what was not yet split. *)
Lemma inv_pending h : handler_inv h ->
  pending h = outstanding h
    ++ rest_from (resolvedUserRanges_ h) (splitRangeIdx_ h) (splitRangeOff_ h).
Proof.
  intros H. unfold pending, outstanding. destruct (splitRange_ h) as [|c0 cs0] eqn:He.
  - destruct (inv_empty h H He) as [-> ->]. rewrite drop_nil. cbn [fmap list_fmap mjoin list_join]. by rewrite drop_nil.
  - pose proof (hi_tiles h H) as Ht. pose proof (hi_chunk h H) as Hc. rewrite He in *.
    destruct Hc as (c & Hc & Hlt). destruct (hi_curr h H) as [_ Ho].
    rewrite (drop_S _ c) in * by done.
    apply (tiles_trim _ _ _ _ _ _ _ (currSplitRangeOff_ h)) in Ht as Htr; [|lia].
    replace (resolvedRangeOff_ h - currSplitRangeOff_ h + currSplitRangeOff_ h)
      with (resolvedRangeOff_ h) in Htr by lia.
    rewrite (tiles_rest _ _ _ _ _ _ Htr). f_equal.
    apply tiles_head in Ht as (r & _ & _ & _ & _ & Hsz & _).
    cbn [fmap list_fmap mjoin list_join]. unfold chunk_offsets at 1 3. cbn [io_offset io_size].
    rewrite A2x.i32_small by lia. rewrite drop_app_le by (rewrite length_seqZ; lia). f_equal.
    replace (io_size c) with (currSplitRangeOff_ h + (io_size c - currSplitRangeOff_ h)) at 2 by lia.
    rewrite seqZ_app by lia. rewrite drop_app_ge by (rewrite length_seqZ; lia).
    rewrite length_seqZ.
    by replace (Z.to_nat (currSplitRangeOff_ h) - Z.to_nat (currSplitRangeOff_ h))%nat with 0%nat by lia.
Qed.

(** A handler whose ranges were just resolved satisfies the invariant. *)
Lemma resolved_inv h :
  error_ h = None -> error_ (resolveRanges h) = None -> 0 < filesize_ h ->
  Forall range_spec (rawUserRanges_ h) -> limits_ok h -> splitRange_ h = [] ->
  splitRangeIdx_ h = 0 -> splitRangeOff_ h = 0 -> resolvedRangeIdx_ h = 0 ->
  resolvedRangeOff_ h = 0 -> currSplitRangeIdx_ h = 0 -> currSplitRangeOff_ h = 0 ->
  handler_inv (resolveRanges h).
Proof.
  intros He He' Hfs Hspec [] Hs H1 H2 H3 H4 H5 H6.
  unfold resolveRanges in *. rewrite He in *. cbn [error_] in He'.
  set (raw := rawUserRanges_ h) in *. set (fs := filesize_ h) in *.
  assert (Forall (range_in fs) (omap (resolve_one fs) raw)) as Hin.
  { apply Forall_forall. intros r Hr. apply list_elem_of_omap in Hr as (rr & Hrr & Hr).
    rewrite Forall_forall in Hspec. eapply resolve_one_in; eauto. }
  set (R := if bool_decide (raw = []) && (0 <? fs) then _ else _) in *.
  assert (Forall (range_in fs) R) as HR.
  { unfold R. destruct (bool_decide (raw = []) && (0 <? fs)); [|done].
    apply Forall_app. split; [done|]. apply Forall_singleton.
    unfold range_in. cbn. repeat split; lia. }
  clearbody R. split; cbn [error_ rangesResolved_ resolvedUserRanges_ filesize_ splitRangeIdx_ splitRangeOff_
    currSplitRangeIdx_ currSplitRangeOff_ splitRange_ resolvedRangeIdx_ resolvedRangeOff_];
    rewrite ?Hs, ?H1, ?H2, ?H3, ?H4, ?H5, ?H6; try done.
  - unfold pos_ok; split_and!; try lia; [apply zlen_nonneg|].
    intros r Hr. eapply range_in_len, R_in; eauto.
  - rewrite Z.sub_diag, drop_nil. apply tiles_nil.
Qed.

Lemma resolveRanges_positions h : error_ h = None ->
  resolvedRangeIdx_ (resolveRanges h) = resolvedRangeIdx_ h /\
  resolvedRangeOff_ (resolveRanges h) = resolvedRangeOff_ h.
Proof. intros He. unfold resolveRanges. by rewrite He. Qed.

(** [splitRanges] with nothing outstanding. *)
Lemma splitRanges_ok h :
  handler_inv h -> splitRange_ h = [] -> splitRangeIdx_ h < zlen (resolvedUserRanges_ h) ->
  exists h', splitRanges h = Ok h' /\ handler_inv h' /\ splitRange_ h' <> [] /\
    pending h' = pending h /\
    mjoin (chunk_offsets <$> splitRange_ h') = outstanding h' /\
    resolvedUserRanges_ h' = resolvedUserRanges_ h /\
    (if zlen (resolvedUserRanges_ h) <=? 1
     then chunks_ok (rRequestMaxBytes_ h) (rRequestMaxBytes_ h) 1 0 (rRequestMaxBytes_ h)
            (splitRange_ h')
     else chunks_ok (vectorReadMaxChunkSize_ h) (rRequestMaxBytes_ h)
            (Z.to_nat (vectorReadMaxChunks_ h)) 0 (rRequestMaxBytes_ h) (splitRange_ h')).
Proof.
  intros H He Hlt. pose proof (inv_empty h H He) as [Hri Hro].
  destruct (hi_limits h H) as [Hl1 Hl2 Hl3].
  unfold splitRanges.
  set (single := zlen (resolvedUserRanges_ h) <=? 1).
  set (maxch := if single then 1 else vectorReadMaxChunks_ h).
  set (maxchs := if single then rRequestMaxBytes_ h else vectorReadMaxChunkSize_ h).
  assert (0 < maxch /\ 0 < maxchs) as [Hmc Hms] by (unfold maxch, maxchs; case_match; lia).
  destruct (splitRanges_loop_ok (filesize_ h) maxchs (rRequestMaxBytes_ h)
    (resolvedUserRanges_ h) (hi_in h H) Hms Hl3 (Z.to_nat maxch) 0
    (MkSplitState (splitRangeIdx_ h) (splitRangeOff_ h) (rRequestMaxBytes_ h) UserRange_empty []))
    as (cs & s' & Hloop & Hcs & Hp & Ht & Hok & Hne); cbn [ss_idx ss_off ss_rsr ss_chunks app] in *;
    [apply (hi_pos h H)|by left|lia|done|lia|].
  rewrite Hloop. step_ok. eexists. split; [reflexivity|].
  specialize (Hne ltac:(lia) Hlt ltac:(lia)). rewrite Hcs.
  cbn [splitRange_ resolvedUserRanges_ pending outstanding]. split_and!.
  - split; cbn [error_ rangesResolved_ resolvedUserRanges_ filesize_ splitRangeIdx_ splitRangeOff_
      currSplitRangeIdx_ currSplitRangeOff_ splitRange_ resolvedRangeIdx_ resolvedRangeOff_];
      try apply H; try done.
    + destruct cs as [|c cs]; [done|]. exists c. split; [done|].
      apply tiles_head in Ht as (r & ?). lia.
    + change (Z.to_nat 0) with 0%nat. by rewrite drop_0, Z.sub_0_r.
  - done.
  - unfold pending. cbn. by rewrite Hri, Hro.
  - done.
  - done.
  - unfold maxch, maxchs in Hok. destruct single; exact Hok.
Qed.

(** [trimSplit] keeps what is outstanding and moves it to the front. *)
Lemma trimSplit_ok h :
  handler_inv h -> splitRange_ h <> [] ->
  handler_inv (trimSplit h) /\ splitRange_ (trimSplit h) <> [] /\
  pending (trimSplit h) = pending h /\
  mjoin (chunk_offsets <$> splitRange_ (trimSplit h)) = outstanding (trimSplit h).
Proof.
  intros H Hne. pose proof (hi_chunk h H) as Hc. pose proof (hi_tiles h H) as Ht.
  destruct (hi_curr h H) as [Hi Ho]. destruct (hi_limits h H) as [Hl1 Hl2 Hl3].
  assert (exists c, splitRange_ h !! Z.to_nat (currSplitRangeIdx_ h) = Some c /\
            currSplitRangeOff_ h < io_size c) as (c & Hlk & Hlt) by (by destruct (splitRange_ h)).
  rewrite (drop_S _ c) in Ht by done. pose proof (lookup_lt_Some _ _ _ Hlk) as Hlen.
  apply (tiles_trim _ _ _ _ _ _ _ (currSplitRangeOff_ h)) in Ht; [|lia].
  replace (resolvedRangeOff_ h - currSplitRangeOff_ h + currSplitRangeOff_ h)
    with (resolvedRangeOff_ h) in Ht by lia.
  unfold trimSplit. destruct (Z.ltb_spec (currSplitRangeIdx_ h) (zlen (splitRange_ h)));
    [|unfold zlen in *; lia].
  rewrite (drop_S _ c) by done. destruct (Z.ltb_spec (currSplitRangeOff_ h) (io_size c)); [|lia].
  split_and!; try done.
  split; cbn [error_ rangesResolved_ resolvedUserRanges_ filesize_ splitRangeIdx_ splitRangeOff_
    currSplitRangeIdx_ currSplitRangeOff_ splitRange_ resolvedRangeIdx_ resolvedRangeOff_ set_split];
    try done; try apply H.
  - eexists. split; [reflexivity|]. apply tiles_head in Ht as (r & ?). lia.
  - change (Z.to_nat 0) with 0%nat. by rewrite drop_0, Z.sub_0_r.
Qed.

(** ** Next list and notification, on a handler that satisfies the invariant *)

Lemma ensure_resolved_inv h : handler_inv h -> ensure_resolved h = h.
Proof. intros H. unfold ensure_resolved. by rewrite (hi_resolved h H). Qed.

Lemma next_ok h :
  handler_inv h ->
  exists cs h', NextReadList h = Ok (cs, h') /\
    match error_ h' with
    | Some _ =>
        cs = [] /\ splitRange_ h <> [] /\ currSplitRangeIdx_ h = 0 /\ currSplitRangeOff_ h = 0
    | None =>
        handler_inv h' /\ pending h' = pending h /\
        resolvedUserRanges_ h' = resolvedUserRanges_ h /\
        match cs with
        | [] => pending h = []
        | _ =>
            splitRange_ h' = cs /\
            pending h' = mjoin (chunk_offsets <$> cs)
              ++ rest_from (resolvedUserRanges_ h') (splitRangeIdx_ h') (splitRangeOff_ h')
        end
    end.
Proof.
  intros H. unfold NextReadList. rewrite (ensure_resolved_inv h H), (hi_error h H).
  destruct (splitRange_ h) as [|c0 cs0] eqn:He.
  - destruct (Z.leb_spec (zlen (resolvedUserRanges_ h)) (splitRangeIdx_ h)).
    + exists [], h. split; [done|]. rewrite (hi_error h H). split_and!; try done.
      unfold pending. destruct (inv_empty h H He) as [-> ->].
      destruct (hi_pos h H) as (Hi & _ & _ & Ho). rewrite Ho by lia. apply rest_from_end. lia.
    + destruct (splitRanges_ok h H He) as (h' & Hs & Hinv & Hne & Hp & Hout & HR & _); [done|].
      rewrite Hs. step_ok. exists (splitRange_ h'), h'. split; [done|].
      rewrite (hi_error h' Hinv). split_and!; try done.
      destruct (splitRange_ h') as [|c cs] eqn:Hcs; [done|]. split; [done|].
      rewrite (inv_pending h' Hinv), <- Hout. done.
  - destruct (Z.eqb_spec (currSplitRangeIdx_ h) 0) as [H1|H1],
      (Z.eqb_spec (currSplitRangeOff_ h) 0) as [H2|H2]; cbn [andb];
      [eexists [], _; split; [reflexivity|done]|..].
    all: destruct (trimSplit_ok h H) as (Hinv & Hne & Hp & Hout); [by rewrite He|];
      assert (resolvedUserRanges_ (trimSplit h) = resolvedUserRanges_ h) as HR by done;
      destruct (splitRange_ (trimSplit h)) as [|c cs] eqn:Hcs; [done|];
      exists (c :: cs), (trimSplit h); cbv zeta; rewrite Hcs; split; [done|];
      rewrite (hi_error _ Hinv); split_and!; try done;
      by rewrite (inv_pending _ Hinv), <- Hout.
Qed.

(** The list handed out is what is pending, starting at the first byte
    not delivered (also after a short read); it is empty without an error only
    when nothing is pending; the one error is that nothing was read since the
    last list. *)
Theorem NextReadList_lists_pending h :
  handler_inv h ->
  exists cs h', NextReadList h = Ok (cs, h') /\
    match error_ h' with
    | Some _ =>
        cs = [] /\ splitRange_ h <> [] /\ currSplitRangeIdx_ h = 0 /\ currSplitRangeOff_ h = 0
    | None =>
        handler_inv h' /\ pending h' = pending h /\
        resolvedUserRanges_ h' = resolvedUserRanges_ h /\
        match cs with
        | [] => pending h = []
        | _ =>
            splitRange_ h' = cs /\
            pending h' = mjoin (chunk_offsets <$> cs)
              ++ rest_from (resolvedUserRanges_ h') (splitRangeIdx_ h') (splitRangeOff_ h')
        end
    end.
Proof. apply next_ok. Qed.

(** C39: A new list respects the configured limits: one chunk of at most the
    request size for a single range; otherwise at most the maximum number of
    chunks and of bytes, every chunk positive and at most the maximum chunk
    size unless the list is one chunk of exactly the request size. *)
Theorem NextReadList_limits h cs h' :
  handler_inv h -> splitRange_ h = [] -> NextReadList h = Ok (cs, h') -> cs <> [] ->
  if zlen (resolvedUserRanges_ h) <=? 1
  then exists c, cs = [c] /\ 0 < io_size c <= rRequestMaxBytes_ h
  else zlen cs <= vectorReadMaxChunks_ h /\
       foldr (fun c t => io_size c + t) 0 cs <= rRequestMaxBytes_ h /\
       (Forall (fun c => 0 < io_size c <= vectorReadMaxChunkSize_ h) cs \/
        exists c, cs = [c] /\ io_size c = rRequestMaxBytes_ h).
Proof.
  intros H He HN Hne. unfold NextReadList in HN.
  rewrite (ensure_resolved_inv h H), (hi_error h H), He in HN.
  destruct (Z.leb_spec (zlen (resolvedUserRanges_ h)) (splitRangeIdx_ h)).
  - injection HN as <- <-. done.
  - destruct (splitRanges_ok h H He) as (h1 & Hs & Hinv & _ & _ & _ & _ & Hlim); [done|].
    rewrite Hs in HN. injection HN as <- <-.
    destruct (hi_limits h H) as [Hl1 Hl2 Hl3].
    destruct (zlen (resolvedUserRanges_ h) <=? 1); destruct Hlim as (Hlen & Hsum & Hall).
    + destruct (splitRange_ h1) as [|c [|]]; [done| |cbn in Hlen; lia]. exists c. split; [done|].
      destruct Hall as [Hall|(_ & c' & [= ->] & ->)]; [|lia].
      by apply Forall_cons in Hall as [? _].
    + split_and!; [unfold zlen; lia|done|]. destruct Hall as [?|(_ & ?)]; [by left|by right].
Qed.

Lemma rest_from_nil_iff fs R i o :
  Forall (range_in fs) R -> pos_ok R i o -> rest_from R i o = [] <-> i = zlen R.
Proof.
  intros HR Hp. split.
  - intros Hn. destruct (Z.lt_ge_cases i (zlen R)) as [Hlt|]; [|destruct Hp; lia].
    by apply (rest_from_nonempty fs) in Hn.
  - intros ->. destruct Hp as (_ & _ & _ & Ho). rewrite Ho by done. apply rest_from_end. lia.
Qed.

(** The chunk cursor after [ret] bytes of chunk [c]: it still tiles the ranges. *)
Lemma next_chunk_ok R ri ro chunks ci co c i' o' ret chunks' ci' co' ri' ro' allend :
  0 <= ci -> 0 <= co -> chunks !! Z.to_nat ci = Some c ->
  tiles R ri (ro - co) (drop (Z.to_nat ci) chunks) i' o' ->
  0 < ret <= io_size c - co ->
  next_chunk chunks ci (co + ret) (io_size c) = (chunks', ci', co') ->
  (forall ur, R !! Z.to_nat ri = Some ur ->
     next_range R ri (ro + ret) (range_len ur) = (ri', ro', allend)) ->
  (0 <= ci' /\ 0 <= co') /\
  match chunks' with
  | [] => co' = 0
  | cs => exists c', cs !! Z.to_nat ci' = Some c' /\ co' < io_size c'
  end /\
  tiles R ri' (ro' - co') (drop (Z.to_nat ci') chunks') i' o'.
Proof.
  intros Hci Hco Hlk Ht Hret HA HB. pose proof (lookup_lt_Some _ _ _ Hlk) as Hlen.
  rewrite (drop_S _ c) in Ht by done.
  pose proof (tiles_head _ _ _ _ _ _ _ Ht) as (ur & Hri & Hur & Ho & Hoff & Hsz & Hle & Ht').
  specialize (HB ur Hur). unfold next_chunk, next_range in *.
  destruct (Z.eqb_spec (co + ret) (io_size c)) as [Heq|Hne].
  - replace (ro - co + io_size c) with (ro + ret) in Ht' by lia.
    assert (tiles R ri' (ro' - 0) (drop (S (Z.to_nat ci)) chunks) i' o') as Htn.
    { rewrite Z.sub_0_r. destruct (ro + ret =? range_len ur); by injection HB as <- <- _. }
    destruct (Z.leb_spec (zlen chunks) (ci + 1)); injection HA as <- <- <-.
    + split_and!; [lia|lia|done|]. rewrite drop_ge in Htn by (unfold zlen in *; lia).
      by rewrite drop_nil.
    + replace (S (Z.to_nat ci)) with (Z.to_nat (ci + 1)) in Htn by lia.
      destruct (lookup_lt_is_Some_2 chunks (Z.to_nat (ci + 1))) as [c' Hc'];
        [unfold zlen in *; lia|].
      split_and!; [lia|lia| |done].
      destruct chunks as [|c0 cs]; [done|]. exists c'. split; [done|].
      rewrite (drop_S _ c') in Htn by done. apply tiles_head in Htn as (? & ?). lia.
  - injection HA as <- <- <-. destruct (Z.eqb_spec (ro + ret) (range_len ur)); [lia|].
    injection HB as <- <- _. split_and!; [lia|lia| |].
    + destruct chunks as [|c0 cs]; [done|]. exists c. split; [done|lia].
    + replace (ro + ret - (co + ret)) with (ro - co) by lia. by rewrite (drop_S _ c).
Qed.

(** The range cursor after [ret] bytes: [allend] tells whether all is delivered. *)
Lemma next_range_ok fs R ri ro ret ur ri' ro' allend :
  Forall (range_in fs) R -> 0 <= ri -> R !! Z.to_nat ri = Some ur -> 0 <= ro -> 0 <= ret ->
  ro + ret <= range_len ur ->
  next_range R ri (ro + ret) (range_len ur) = (ri', ro', allend) ->
  rest_from R ri ro = seqZ (ur_start ur + ro) ret ++ rest_from R ri' ro' /\
  (allend = true <-> rest_from R ri' ro' = []).
Proof.
  intros HR Hri Hur Hro Hret Hle HB. pose proof (lookup_range_lt _ _ _ Hri Hur) as Hrlt.
  rewrite (rest_from_step R ri ro ret ur) by (done || lia). unfold next_range in HB.
  destruct (Z.eqb_spec (ro + ret) (range_len ur)); injection HB as <- <- <-; (split; [done|]).
  - assert (pos_ok R (ri + 1) 0) as Hnext.
    { unfold pos_ok. split_and!; try lia. intros r Hr. eapply range_in_len, R_in; eauto. }
    rewrite (rest_from_nil_iff fs) by done. destruct Hnext as ((? & ?) & _). split.
    + intros ?%Z.leb_le. lia.
    + intros ->. apply Z.leb_le. lia.
  - assert (pos_ok R ri (ro + ret)) as Hpos.
    { unfold pos_ok. split_and!; try lia. intros r Hr. rewrite Hur in Hr. injection Hr as <-. lia. }
    split; [done|]. intros Hn. by apply (rest_from_nonempty fs) in Hn.
Qed.

Lemma notify_ok h c ret :
  handler_inv h -> splitRange_ h !! Z.to_nat (currSplitRangeIdx_ h) = Some c ->
  0 < ret <= io_size c - currSplitRangeOff_ h ->
  exists ur allend h',
    NotifyReadResult ret h
      = MkNotified 0 (Some ur) (Some (resolvedRangeOff_ h =? 0)) (Some allend) h' /\
    resolvedUserRanges_ h !! Z.to_nat (resolvedRangeIdx_ h) = Some ur /\
    handler_inv h' /\ resolvedUserRanges_ h' = resolvedUserRanges_ h /\
    pending h = seqZ (io_offset c + currSplitRangeOff_ h) ret ++ pending h' /\
    (allend = true <-> pending h' = []).
Proof.
  intros H Hlk Hret. destruct (hi_curr h H) as [Hci Hco].
  pose proof (hi_tiles h H) as Ht. pose proof (hi_in h H) as HR.
  pose proof (fun chunks' ci' co' ri' ro' al =>
    next_chunk_ok _ _ _ _ _ _ c _ _ ret chunks' ci' co' ri' ro' al Hci Hco Hlk Ht Hret) as Hnc.
  rewrite (drop_S _ c) in Ht by done.
  pose proof (tiles_head _ _ _ _ _ _ _ Ht) as (ur & Hri & Hur & Ho & Hoff & Hsz & Hle & _).
  unfold NotifyReadResult. rewrite (hi_error h H), (hi_resolved h H).
  destruct (Z.eqb_spec ret 0); [lia|]. destruct (Z.ltb_spec ret 0); [lia|]. cbn [negb].
  rewrite Hlk, Hur. destruct (splitRange_ h) as [|c0 cs0] eqn:He; [done|]. rewrite <- He in *.
  rewrite A2x.i32_small by lia. fold (range_len ur).
  destruct (Z.ltb_spec (io_size c) (currSplitRangeOff_ h + ret)); [lia|].
  destruct (Z.ltb_spec (range_len ur) (resolvedRangeOff_ h + ret)); [lia|]. cbn [orb].
  destruct (next_chunk _ _ _ _) as [[chunks' ci'] co'] eqn:HA.
  destruct (next_range _ _ _ _) as [[ri' ro'] allend] eqn:HB.
  destruct (Hnc chunks' ci' co' ri' ro' allend eq_refl) as (Hcc & Hchunk & Htiles).
  { intros ur' Hur'. rewrite Hur in Hur'. by injection Hur' as <-. }
  destruct (next_range_ok _ _ _ (resolvedRangeOff_ h) ret _ _ _ _ HR Hri Hur
              ltac:(lia) ltac:(lia) ltac:(lia) HB) as [Hrest Hend].
  exists ur, allend. eexists. split; [reflexivity|]. split_and!; [done| |done| |done].
  - destruct (hi_limits h H). split; [done|done|by split|exact HR|apply (hi_pos h H)|exact Hcc|by destruct chunks'|exact Htiles].
  - unfold pending. cbn [resolvedUserRanges_ resolvedRangeIdx_ resolvedRangeOff_].
    rewrite Hrest. do 2 f_equal. lia.
Qed.

(** Notifying bytes within the current chunk succeeds, keeps the
    handler's invariant, removes exactly those bytes from what is pending,
    reports the range they belong to and whether they start it, and reports
    the end of all ranges exactly when nothing is pending. *)
Theorem NotifyReadResult_delivers h c ret :
  handler_inv h -> splitRange_ h !! Z.to_nat (currSplitRangeIdx_ h) = Some c ->
  0 < ret <= io_size c - currSplitRangeOff_ h ->
  exists ur allend h',
    NotifyReadResult ret h
      = MkNotified 0 (Some ur) (Some (resolvedRangeOff_ h =? 0)) (Some allend) h' /\
    resolvedUserRanges_ h !! Z.to_nat (resolvedRangeIdx_ h) = Some ur /\
    handler_inv h' /\ resolvedUserRanges_ h' = resolvedUserRanges_ h /\
    pending h = seqZ (io_offset c + currSplitRangeOff_ h) ret ++ pending h' /\
    (allend = true <-> pending h' = []).
Proof. apply notify_ok. Qed.

(** ** A whole transfer *)

(** The server asks for the next list, and delivers [ret] bytes of the chunk whose
    turn it is, in any number of pieces; [d] are the file offsets delivered. *)
Inductive transfer (h0 : RangeHandler) : list Z -> RangeHandler -> Prop :=
  | transfer_start : transfer h0 [] h0
  | transfer_next d h cs h' :
      transfer h0 d h -> NextReadList h = Ok (cs, h') -> error_ h' = None ->
      transfer h0 d h'
  | transfer_data d h c ret urp start allend h' :
      transfer h0 d h -> splitRange_ h !! Z.to_nat (currSplitRangeIdx_ h) = Some c ->
      0 < ret <= io_size c - currSplitRangeOff_ h ->
      NotifyReadResult ret h = MkNotified 0 urp start allend h' ->
      transfer h0 (d ++ seqZ (io_offset c + currSplitRangeOff_ h) ret) h'.

Lemma transfer_inv h0 d h :
  handler_inv h0 -> transfer h0 d h -> handler_inv h /\ d ++ pending h = pending h0.
Proof.
  intros H0. induction 1 as [|d h cs h' _ [IH1 IH2] HN He|d h c ret urp st al h' _ [IH1 IH2] Hc Hr HN].
  - done.
  - destruct (next_ok h IH1) as (cs' & h1 & HN' & Hcase).
    rewrite HN in HN'. injection HN' as <- <-. rewrite He in Hcase.
    destruct Hcase as (Hinv & Hp & _). split; [done|]. by rewrite Hp.
  - destruct (notify_ok h c ret IH1 Hc Hr) as (ur & al' & h1 & HN' & _ & Hinv & _ & Hp & _).
    rewrite HN in HN'. injection HN' as _ _ _ <-. split; [done|].
    by rewrite <- app_assoc, <- Hp.
Qed.

(** C4: For every sequence of NextReadList calls and of notifications of bytes
    of the chunk whose turn it is, in pieces of any size, the file offsets
    delivered so far are a prefix of the bytes of the resolved ranges in
    order; when NextReadList hands out nothing and reports no error they are
    all of them; and as long as some are missing it hands out reads, or stops
    with an error because nothing arrived since the last list. *)
Theorem transfer_delivers_ranges h d h' :
  error_ h = None -> error_ (resolveRanges h) = None -> 0 < filesize_ h ->
  Forall range_spec (rawUserRanges_ h) -> limits_ok h -> splitRange_ h = [] ->
  splitRangeIdx_ h = 0 -> splitRangeOff_ h = 0 -> resolvedRangeIdx_ h = 0 ->
  resolvedRangeOff_ h = 0 -> currSplitRangeIdx_ h = 0 -> currSplitRangeOff_ h = 0 ->
  transfer (resolveRanges h) d h' ->
  let wanted := mjoin (range_offsets <$> resolvedUserRanges_ (resolveRanges h)) in
  d `prefix_of` wanted /\
  (forall h'', NextReadList h' = Ok ([], h'') -> error_ h'' = None -> d = wanted) /\
  (d <> wanted -> exists cs h'', NextReadList h' = Ok (cs, h'') /\
     (cs <> [] \/ exists e, error_ h'' = Some e /\ splitRange_ h' <> [] /\
        currSplitRangeIdx_ h' = 0 /\ currSplitRangeOff_ h' = 0)).
Proof.
  intros He He' Hfs Hspec Hlim Hs H1 H2 H3 H4 H5 H6 Ht wanted.
  pose proof (resolved_inv h He He' Hfs Hspec Hlim Hs H1 H2 H3 H4 H5 H6) as Hinv.
  destruct (transfer_inv _ _ _ Hinv Ht) as [Hinv' Hp].
  assert (pending (resolveRanges h) = wanted) as Hw.
  { unfold pending, wanted, rest_from. destruct (resolveRanges_positions h He) as [-> ->].
    rewrite H3, H4. change (Z.to_nat 0) with 0%nat. by rewrite !drop_0. }
  rewrite Hw in Hp. split; [by exists (pending h')|].
  destruct (next_ok h' Hinv') as (cs & h1 & HN & Hcase). split.
  - intros h'' HN' Herr. rewrite HN in HN'. injection HN' as -> ->. rewrite Herr in Hcase.
    destruct Hcase as (_ & _ & _ & Hnil). rewrite Hnil, app_nil_r in Hp. done.
  - intros Hd. exists cs, h1. split; [done|]. destruct (error_ h1) as [e|].
    + right. exists e. by destruct Hcase as (_ & ?).
    + left. destruct Hcase as (_ & _ & _ & Hnil). destruct cs as [|c cs]; [|done].
      by rewrite Hnil, app_nil_r in Hp.
Qed.

(** ** A concrete request *)

Definition sample_request : RangeHandler :=
  (SetFilesize 100 (ParseContentRange (str "bytes=0-9,20-29")
     (XrdHttpReadRangeHandler (MkConfiguration true 4 3 12)))).2.

Definition sample_resolved : RangeHandler := resolveRanges sample_request.

Definition sample_reading : RangeHandler :=
  match NextReadList sample_resolved with Ok (_, h) => h | _ => sample_resolved end.

Lemma sample_request_raw :
  rawUserRanges_ sample_request = [MkUserRange true true 0 9; MkUserRange true true 20 29].
Proof. vm_compute. reflexivity. Qed.

Lemma sample_request_spec : Forall range_spec (rawUserRanges_ sample_request).
Proof.
  rewrite sample_request_raw. repeat (apply Forall_cons; split; [unfold range_spec, LONG_MAX; cbn; lia|]).
  by apply Forall_nil.
Qed.

Lemma sample_limits : limits_ok sample_request.
Proof. split; vm_compute; done. Qed.

Lemma sample_resolved_inv : handler_inv sample_resolved.
Proof.
  apply resolved_inv;
    [vm_compute; done|vm_compute; done|vm_compute; done|apply sample_request_spec|
     apply sample_limits|vm_compute; done..].
Qed.

Lemma sample_reading_inv : handler_inv sample_reading.
Proof.
  destruct (next_ok _ sample_resolved_inv) as (cs & h' & HN & Hc).
  assert (h' = sample_reading) as -> by (unfold sample_reading; by rewrite HN).
  assert (error_ sample_reading = None) as He by (vm_compute; reflexivity).
  rewrite He in Hc. by destruct Hc.
Qed.

Lemma NextReadList_lists_pending_witness :
  exists cs h', NextReadList sample_resolved = Ok (cs, h') /\
    cs = [MkIOVec 0 4; MkIOVec 4 4; MkIOVec 8 2].
Proof.
  destruct (NextReadList_lists_pending _ sample_resolved_inv) as (cs & h' & HN & _).
  exists cs, h'. split; [exact HN|].
  assert (match NextReadList sample_resolved with Ok (l, _) => l | _ => [] end
          = [MkIOVec 0 4; MkIOVec 4 4; MkIOVec 8 2]) as E by (vm_compute; reflexivity).
  rewrite HN in E. exact E.
Defined.

Lemma NextReadList_limits_witness :
  zlen [MkIOVec 0 4; MkIOVec 4 4; MkIOVec 8 2] <= 3 /\
  foldr (fun c t => io_size c + t) 0 [MkIOVec 0 4; MkIOVec 4 4; MkIOVec 8 2] <= 12.
Proof.
  destruct (NextReadList_limits sample_resolved [MkIOVec 0 4; MkIOVec 4 4; MkIOVec 8 2]
              sample_reading sample_resolved_inv) as (H1 & H2 & _);
    [vm_compute; done|vm_compute; done|done|]. split; [exact H1|exact H2].
Defined.

Lemma NotifyReadResult_delivers_witness :
  exists ur allend h',
    NotifyReadResult 3 sample_reading = MkNotified 0 (Some ur) (Some true) (Some allend) h' /\
    pending sample_reading = [0; 1; 2] ++ pending h'.
Proof.
  destruct (NotifyReadResult_delivers sample_reading (MkIOVec 0 4) 3 sample_reading_inv)
    as (ur & al & h' & HN & _ & _ & _ & Hp & _); [vm_compute; done|vm_compute; done|].
  exists ur, al, h'. split; [exact HN|exact Hp].
Defined.

Lemma transfer_delivers_ranges_witness :
  let wanted := mjoin (range_offsets <$> resolvedUserRanges_ sample_resolved) in
  [0; 1; 2] `prefix_of` wanted /\ wanted = [0; 1; 2; 3; 4; 5; 6; 7; 8; 9; 20; 21; 22; 23; 24; 25; 26; 27; 28; 29].
Proof.
  intros wanted. split; [|vm_compute; reflexivity].
  destruct (transfer_delivers_ranges sample_request [0; 1; 2]
              (nt_h (NotifyReadResult 3 sample_reading))) as [H _];
    [vm_compute; done|vm_compute; done|vm_compute; done|apply sample_request_spec|
     apply sample_limits|vm_compute; done|vm_compute; done|vm_compute; done|vm_compute; done|
     vm_compute; done|vm_compute; done|vm_compute; done| |exact H].
  apply (transfer_data sample_resolved [] sample_reading (MkIOVec 0 4) 3
           (Some (UserRange_of 0 9)) (Some true) (Some false)).
  - apply (transfer_next _ _ sample_resolved [MkIOVec 0 4; MkIOVec 4 4; MkIOVec 8 2]);
      [apply transfer_start|vm_compute; reflexivity|vm_compute; reflexivity].
  - vm_compute. reflexivity.
  - vm_compute. done.
  - vm_compute. reflexivity.
Defined.
