(* ===== verification/OucUri.v ===== *)
(** * URI percent encoding

    Models src/src/XrdOuc/XrdOucUri.cc: the two tables, [Decode], [Encode] and
    the size computation [Encoded] with the char-to-index conversion it makes. *)

From Stdlib Require Import Strings.String.
From stdpp Require Import base tactics list_numbers numbers option list.
From S2P Require Import Prelude CString.

(** [hexval]: the value of a hexadecimal digit, 0xFF for another character. *)
Definition uri_hexval (c : Z) : Z :=
  if (48 <=? c) && (c <=? 57) then c - 48
  else if (65 <=? c) && (c <=? 70) then c - 55
  else if (97 <=? c) && (c <=? 102) then c - 87
  else 0xFF.

(** The characters [uri_encode_tbl] leaves blank: [- . 0-9 A-Z _ a-z ~]. *)
Definition uri_plain (c : Z) : bool :=
  ((45 <=? c) && (c <=? 46)) || ((48 <=? c) && (c <=? 57)) || ((65 <=? c) && (c <=? 90)) ||
  (c =? 95) || ((97 <=? c) && (c <=? 122)) || (c =? 126).

Definition uri_digit (n : Z) : Z := if n <? 10 then 48 + n else 55 + n.

(** [uri_encode_tbl]: two characters for each of 256 bytes (null for a plain
    one), and the terminating null of the literal. *)
Definition uri_encode_tbl : bytes :=
  flat_map (fun n => let c := Z.of_nat n in
                     if uri_plain c then [0; 0] else [uri_digit (c / 16); uri_digit (c mod 16)])
    (seq 0 256) ++ [0].

(** An entry of the table; outside of it the behaviour is undefined. *)
Definition tbl_at (i : Z) : res Z :=
  if i <? 0 then Fault
  else match uri_encode_tbl !! Z.to_nat i with Some c => Ok c | None => Fault end.

(** [Decode( src, len, dst )]: the characters stored in [dst]. *)
Fixpoint Uri_Decode (src : bytes) : bytes :=
  match src with
  | [] => []
  | c :: src' =>
      if c =? 37 then
        match src' with
        | a :: b :: rest =>
            let v1 := uri_hexval a in
            let v2 := uri_hexval b in
            if Z.lor v1 v2 =? 0xFF then c :: Uri_Decode src'
            else Z.lor (u8 (Z.shiftl v1 4)) v2 :: Uri_Decode rest
        | _ => c :: Uri_Decode src'
        end
      else c :: Uri_Decode src'
  end.

(** [Encode( src, len, char *dst )] *)
Fixpoint Uri_Encode (src : bytes) : res bytes :=
  match src with
  | [] => Ok []
  | c :: src =>
      hi ← tbl_at (Z.shiftl c 1);
      lo ← tbl_at (Z.shiftl c 1 + 1);
      out ← Uri_Encode src;
      Ok (if hi =? 0 then c :: out else 37 :: hi :: lo :: out)
  end.

(** The value of a [char] holding the byte [c], where [char] is signed. *)
Definition schar (c : Z) : Z := if c <? 128 then c else c - 256.

(** [Encoded( src, len )]: the index is the [char] converted to unsigned. *)
Fixpoint Uri_Encoded (src : bytes) : res Z :=
  match src with
  | [] => Ok 1
  | c :: src =>
      e ← tbl_at (u32 (Z.shiftl (u32 (schar c)) 1));
      n ← Uri_Encoded src;
      Ok (n + if e =? 0 then 1 else 3)
  end.

(** [Encode( src, len, char **dst )]: the size of the buffer and its text; more
    characters than the buffer holds would be written outside of it. *)
Definition Uri_Encode_alloc (src : bytes) : res bytes :=
  n ← Uri_Encoded src;
  out ← Uri_Encode src;
  if zlen out + 1 <=? n then Ok out else Fault.

(** ** The tables *)

(** A property of all bytes, by evaluation. *)
Lemma all_bytes (P : Z -> bool) :
  forallb (fun n => P (Z.of_nat n)) (seq 0 256) = true ->
  forall c, is_byte c -> P c = true.
Proof.
  intros H c Hc. unfold is_byte in Hc. rewrite forallb_forall in H.
  rewrite <- (Z2Nat.id c) by lia. apply H. apply in_seq. lia.
Qed.

(** The two characters the table holds for a byte. *)
Definition tbl_row (c : Z) : Z * Z :=
  if uri_plain c then (0, 0) else (uri_digit (c / 16), uri_digit (c mod 16)).

Lemma entry_is_ok (m : res Z) b :
  match m with Ok x => x =? b | _ => false end = true -> m = Ok b.
Proof. destruct m as [x| | |]; [|done..]. by intros ->%Z.eqb_eq. Qed.

Lemma tbl_at_row c : is_byte c ->
  tbl_at (Z.shiftl c 1) = Ok (tbl_row c).1 /\ tbl_at (Z.shiftl c 1 + 1) = Ok (tbl_row c).2.
Proof.
  intros Hc. split; apply entry_is_ok; revert c Hc; apply all_bytes; vm_compute; done.
Qed.

(** What the encoder writes for a byte. *)
Definition uri_code (c : Z) : bytes :=
  if uri_plain c then [c] else [37; uri_digit (c / 16); uri_digit (c mod 16)].

(** The encoding of a byte is decoded whatever follows it. *)
Lemma uri_code_decodes c rest : is_byte c -> Uri_Decode (uri_code c ++ rest) = c :: Uri_Decode rest.
Proof.
  intros Hc. unfold uri_code. destruct (uri_plain c) eqn:Hp.
  - cbn [app Uri_Decode]. destruct (Z.eqb_spec c 37) as [->|]; done.
  - cbn [app Uri_Decode]. change (37 =? 37) with true. cbv iota zeta.
    assert (forall c, is_byte c ->
      negb (Z.lor (uri_hexval (uri_digit (c / 16))) (uri_hexval (uri_digit (c mod 16))) =? 0xFF) &&
      (Z.lor (u8 (Z.shiftl (uri_hexval (uri_digit (c / 16))) 4)) (uri_hexval (uri_digit (c mod 16))) =? c)
      = true) as Hall by (apply all_bytes; vm_compute; done).
    specialize (Hall c Hc). apply andb_true_iff in Hall as [H1 H2%Z.eqb_eq].
    apply negb_true_iff in H1. by rewrite H1, H2.
Qed.

Lemma row_nonzero c : is_byte c -> ((tbl_row c).1 =? 0) = uri_plain c.
Proof.
  intros Hc. apply eqb_true_iff. revert c Hc. apply all_bytes. vm_compute. done.
Qed.

(** The encoder reads its table only and writes the codes in order. *)
Lemma encode_ok s : Forall is_byte s -> Uri_Encode s = Ok (flat_map uri_code s).
Proof.
  induction s as [|c s IH]; intros Hs; [done|]. apply Forall_cons in Hs as [Hc Hs].
  cbn [Uri_Encode flat_map]. destruct (tbl_at_row c Hc) as [-> ->]. do 2 step_ok.
  rewrite IH by done. step_ok. rewrite row_nonzero by done. unfold uri_code, tbl_row.
  by destruct (uri_plain c).
Qed.

Lemma decode_codes s : Forall is_byte s -> Uri_Decode (flat_map uri_code s) = s.
Proof.
  induction s as [|c s IH]; intros Hs; [done|]. apply Forall_cons in Hs as [Hc Hs].
  cbn [flat_map]. by rewrite uri_code_decodes, IH.
Qed.

(** Every byte string is encoded without leaving the table, into
    unreserved characters and percent signs only, and decodes to itself. *)
Theorem Uri_roundtrip s : Forall is_byte s ->
  exists out, Uri_Encode s = Ok out /\ Uri_Decode out = s /\
    Forall (fun c => uri_plain c || (c =? 37) = true) out.
Proof.
  intros Hs. exists (flat_map uri_code s). split; [by apply encode_ok|].
  split; [by apply decode_codes|]. induction s as [|c s IH]; [constructor|].
  apply Forall_cons in Hs as [Hc Hs]. cbn [flat_map]. apply Forall_app. split; [|by apply IH].
  unfold uri_code. destruct (uri_plain c) eqn:E; [by rewrite Forall_singleton, E|].
  assert (forall c, is_byte c ->
    uri_plain (uri_digit (c / 16)) && uri_plain (uri_digit (c mod 16)) = true) as Hd
    by (apply all_bytes; vm_compute; done).
  specialize (Hd c Hc). apply andb_true_iff in Hd as [H1 H2].
  rewrite !Forall_cons, H1, H2. done.
Qed.

Lemma Uri_roundtrip_witness : exists out,
  Uri_Encode (str "/a b%2F") = Ok out /\ Uri_Decode out = str "/a b%2F" /\
  Forall (fun c => uri_plain c || (c =? 37) = true) out.
Proof.
  apply (Uri_roundtrip (str "/a b%2F")). apply Forall_forall. intros x Hx.
  assert (forallb (fun x => (0 <=? x) && (x <? 256)) (str "/a b%2F") = true) as H by done.
  rewrite forallb_forall in H. apply list_elem_of_In in Hx. apply H in Hx. unfold is_byte. lia.
Defined.

(** The decoder never writes more characters than it reads. *)
Lemma Uri_Decode_bound s : zlen (Uri_Decode s) <= zlen s.
Proof.
  remember (length s) as n eqn:Hn. revert s Hn.
  induction (lt_wf n) as [n _ IH]. intros s ->.
  assert (forall k, (length k < length s)%nat -> zlen (Uri_Decode k) <= zlen k) as IH'
    by (intros k Hk; by apply (IH (length k))).
  destruct s as [|c s]; [done|]. cbn [Uri_Decode length] in *. rewrite zlen_cons.
  assert (zlen (c :: Uri_Decode s) <= 1 + zlen s).
  { rewrite zlen_cons. specialize (IH' s). lia. }
  destruct (c =? 37); [|done]. destruct s as [|a [|b rest]]; [done|done|].
  cbv zeta. destruct (_ =? 255); [done|].
  specialize (IH' rest). cbn [length] in IH'. rewrite !zlen_cons in *. lia.
Qed.

(** ** The size computation *)

Lemma schar_index c : is_byte c ->
  tbl_at (u32 (Z.shiftl (u32 (schar c)) 1)) = if c <? 128 then Ok (tbl_row c).1 else Fault.
Proof.
  intros Hc. unfold schar. destruct (Z.ltb_spec c 128) as [Hl|Hl]; unfold is_byte in Hc.
  - rewrite (u32_small c) by lia. rewrite Z.shiftl_mul_pow2 by lia.
    rewrite u32_small by lia. rewrite <- Z.shiftl_mul_pow2 by lia. by apply tbl_at_row.
  - unfold u32 at 2. replace ((c - 256) mod 2 ^ 32) with (c - 256 + 2 ^ 32)
      by (apply Z.mod_unique with (-1); lia).
    rewrite Z.shiftl_mul_pow2 by lia. unfold u32.
    replace (((c - 256 + 2 ^ 32) * 2 ^ 1) mod 2 ^ 32) with (2 * (c - 256) + 2 ^ 32)
      by (apply Z.mod_unique with 1; lia).
    unfold tbl_at. destruct (Z.ltb_spec (2 * (c - 256) + 2 ^ 32) 0); [lia|].
    assert (uri_encode_tbl !! Z.to_nat (2 * (c - 256) + 2 ^ 32) = None) as ->; [|done].
    apply lookup_ge_None. assert (length uri_encode_tbl = 513%nat) as -> by (vm_compute; done). lia.
Qed.

Lemma encoded_ok s : Forall is_byte s ->
  Uri_Encoded s = if forallb (fun c => c <? 128) s then Ok (zlen (flat_map uri_code s) + 1) else Fault.
Proof.
  induction s as [|c s IH]; intros Hs; [done|]. apply Forall_cons in Hs as [Hc Hs].
  cbn [Uri_Encoded forallb flat_map]. rewrite schar_index by done.
  destruct (c <? 128); cbn [andb]; [|done]. step_ok. rewrite IH by done.
  destruct (forallb _ s); [|done]. step_ok. rewrite row_nonzero by done. rewrite zlen_app.
  unfold uri_code. destruct (uri_plain c); f_equal; rewrite ?zlen_cons, zlen_nil; lia.
Qed.

(** The encoder that allocates its buffer agrees with the other one on
    7-bit strings, for which the size is enough; a byte above 127 makes the
    size computation read outside of the table. *)
Theorem Uri_Encode_alloc_spec s : Forall is_byte s ->
  Uri_Encode_alloc s = if forallb (fun c => c <? 128) s then Uri_Encode s else Fault.
Proof.
  intros Hs. unfold Uri_Encode_alloc. rewrite encoded_ok, encode_ok by done.
  destruct (forallb _ s); [|done]. do 2 step_ok.
  destruct (Z.leb_spec (zlen (flat_map uri_code s) + 1) (zlen (flat_map uri_code s) + 1)); [done|lia].
Qed.

Lemma Uri_Encode_alloc_spec_witness : Uri_Encode_alloc [195; 169] = Fault.
Proof.
  rewrite (Uri_Encode_alloc_spec [195; 169]); [reflexivity|].
  apply Forall_cons; split; [unfold is_byte; lia|]. apply Forall_cons; split; [unfold is_byte; lia|].
  constructor.
Defined.
