(* ===== verification/OucHash.v ===== *)
(** * The string hash table [XrdOucHash]

    Models src/src/XrdOuc/XrdOucHash.{hh,icc} and XrdOucHashVal.cc. The data a
    table holds are the pointers the caller hands over; a null pointer is [None].
    The time of day is an argument, [now], of every routine that asks for it. *)

From stdpp Require Import base tactics list_numbers numbers option gmap sorting list.
From S2P Require Import Prelude.

#[local] Set Warnings "-clear-no-such-hyp".

(** ** [XrdOucHashVal.cc] *)

(** [LoadWord( cp, n )] on a little-endian host; [unsigned long] has 8 bytes. *)
Definition LoadWord (cp : bytes) (n : nat) : Z := little_endian_to_Z 8 (take n cp).

(** The [while(KeyLen--)] loop over the remaining whole words. *)
Fixpoint hash_words (n : nat) (hval : Z) (cp : bytes) : Z :=
  match n with
  | O => hval
  | S n => hash_words n (Z.lxor hval (LoadWord cp 8)) (drop 8 cp)
  end.

Definition XrdOucHashVal2 (KeyVal : bytes) (KeyLen : Z) : Z :=
  let hl := 8 in
  if KeyLen <=? hl then LoadWord KeyVal (Z.to_nat KeyLen) else
  let hval := KeyLen in
  let j := KeyLen mod hl in
  let KeyLen := KeyLen / hl in
  let hval := if j =? 0 then hval else Z.lxor hval (LoadWord KeyVal 8) in
  let cp := adv j KeyVal in
  let hval := hash_words (Z.to_nat KeyLen) hval cp in
  if hval =? 0 then 1 else hval.

Definition XrdOucHashVal (KeyVal : bytes) : Z := XrdOucHashVal2 KeyVal (zlen KeyVal).

(** ** Items *)

(** [XrdOucHash_Options] *)
Definition Hash_default := 0.
Definition Hash_data_is_key := 1.
Definition Hash_replace := 2.
Definition Hash_count := 4.
Definition Hash_keep := 8.
Definition Hash_dofree := 16.
Definition Hash_keepdata := 32.

Definition opt_has (opt flag : Z) : bool := negb (Z.land opt flag =? 0).

(** [XrdOucHash_Item]; the options say how the destructor releases the data. *)
Record Item (V : Type) := MkItem {
  it_key : bytes; it_hash : Z; it_data : V; it_time : Z; it_count : Z; it_opts : Z }.
Arguments MkItem {V}.
Arguments it_key {V}.
Arguments it_hash {V}.
Arguments it_data {V}.
Arguments it_time {V}.
Arguments it_count {V}.
Arguments it_opts {V}.

(** [hashtable] is the array of chains; the heads come first. *)
Record Hash (V : Type) := MkHash {
  hashtable : list (list (Item V));
  prevtablesize : Z; hashtablesize : Z; hashnum : Z; hashmax : Z; hashload : Z }.
Arguments MkHash {V}.
Arguments hashtable {V}.
Arguments prevtablesize {V}.
Arguments hashtablesize {V}.
Arguments hashnum {V}.
Arguments hashmax {V}.
Arguments hashload {V}.

Section hash.
Context {V : Type}.

(** The constructor [XrdOucHash( psize, csize, load )]. *)
Definition XrdOucHash (psize csize load : Z) : Hash V :=
  MkHash (replicate (Z.to_nat csize) []) psize csize 0 (Z.quot (csize * load) 100) load.

(** [Update( newcount, newtime )] *)
Definition Update (newcount newtime : Z) (it : Item V) : Item V :=
  MkItem (it_key it) (it_hash it) (it_data it)
    (if newtime =? 0 then it_time it else newtime) newcount (it_opts it).

Definition Same (it : Item V) (khash : Z) (kval : bytes) : bool :=
  (it_hash it =? khash) && bool_decide (it_key it = kval).

(** [Search]: the chain around the item that matches. *)
Fixpoint Search (chain : list (Item V)) (khash : Z) (kval : bytes)
  : option (list (Item V) * Item V * list (Item V)) :=
  match chain with
  | [] => None
  | hip :: chain =>
      if Same hip khash kval then Some ([], hip, chain)
      else match Search chain khash kval with
           | Some (pre, it, post) => Some (hip :: pre, it, post)
           | None => None
           end
  end.

Definition set_table (tab : list (list (Item V))) (num : Z) (t : Hash V) : Hash V :=
  MkHash tab (prevtablesize t) (hashtablesize t) num (hashmax t) (hashload t).

(** [Remove]: the item between [pre] and [post] is unlinked from chain [kent]. *)
Definition Remove (kent : nat) (pre post : list (Item V)) (t : Hash V) : Hash V :=
  set_table (<[kent := pre ++ post]> (hashtable t)) (hashnum t - 1) t.

(** An item was updated in place. *)
Definition Replace (kent : nat) (pre : list (Item V)) (it : Item V)
    (post : list (Item V)) (t : Hash V) : Hash V :=
  set_table (<[kent := pre ++ it :: post]> (hashtable t)) (hashnum t) t.

(** [Expand]: each item is pushed on the front of its new chain. *)
Definition push (newsize : Z) (tab : list (list (Item V))) (it : Item V)
  : list (list (Item V)) :=
  let newent := Z.to_nat (it_hash it mod newsize) in
  match tab !! newent with
  | Some chain => <[newent := it :: chain]> tab
  | None => tab
  end.

Definition Expand (t : Hash V) : Hash V :=
  let newsize := prevtablesize t + hashtablesize t in
  let newtab := foldl (push newsize) (replicate (Z.to_nat newsize) []) (mjoin (hashtable t)) in
  MkHash newtab (hashtablesize t) newsize (hashnum t)
    (i32 (Z.quot (newsize * hashload t) 100)) (hashload t).

(** The hash function, and a key's own storage taken as the data
    ([Hash_data_is_key]). *)
Context (hashval : bytes -> Z) (key_data : bytes -> V).

Definition entry_of (khash : Z) (t : Hash V) : nat := Z.to_nat (khash mod hashtablesize t).

Definition chain_of (khash : Z) (t : Hash V) : list (Item V) :=
  default [] (hashtable t !! entry_of khash t).

(** The tail of [Add]: a new item at the head of its chain. *)
Definition Insert (now : Z) (KeyVal : bytes) (KeyData : V) (LifeTime opt : Z) (t : Hash V)
  : Hash V :=
  let khash := hashval KeyVal in
  let KeyTime := if LifeTime =? 0 then 0 else LifeTime + now in
  let KeyData := if opt_has opt Hash_data_is_key then key_data KeyVal else KeyData in
  set_table
    (<[entry_of khash t :=
         MkItem KeyVal khash KeyData KeyTime 0 opt :: chain_of khash t]> (hashtable t))
    (hashnum t + 1) t.

(** [Add]: the data of an entry that stays in its place, and the table. *)
Definition Add (now : Z) (KeyVal : bytes) (KeyData : V) (LifeTime opt : Z) (t : Hash V)
  : option V * Hash V :=
  let khash := hashval KeyVal in
  let hent := entry_of khash t in
  match Search (chain_of khash t) khash KeyVal with
  | Some (pre, hip, post) =>
      let hip := if opt_has opt Hash_count
                 then Update (it_count hip + 1)
                        (if negb (LifeTime =? 0) || negb (it_time hip =? 0)
                         then LifeTime + now else 0) hip
                 else hip in
      let t := Replace hent pre hip post t in
      if negb (opt_has opt Hash_replace)
         && ((it_time hip =? 0) || (now <=? it_time hip))
      then (Some (it_data hip), t)
      else (None, Insert now KeyVal KeyData LifeTime opt (Remove hent pre post t))
  | None =>
      let t := if hashmax t <=? hashnum t then Expand t else t in
      (None, Insert now KeyVal KeyData LifeTime opt t)
  end.

(** [Rep] *)
Definition Rep (now : Z) (KeyVal : bytes) (KeyData : V) (LifeTime opt : Z) (t : Hash V)
  : option V * Hash V :=
  Add now KeyVal KeyData LifeTime (Z.lor opt Hash_replace) t.

Definition ENOENT : Z := 2.

(** [Del] *)
Definition Del (KeyVal : bytes) (t : Hash V) : Z * Hash V :=
  let khash := hashval KeyVal in
  let hent := entry_of khash t in
  match Search (chain_of khash t) khash KeyVal with
  | None => (- ENOENT, t)
  | Some (pre, hip, post) =>
      let cnt := it_count hip in
      if cnt <=? 0 then (0, Remove hent pre post t)
      else (0, Replace hent pre (Update (cnt - 1) 0 hip) post t)
  end.

Definition expired (now : Z) (it : Item V) : bool :=
  negb (it_time it =? 0) && (it_time it <? now).

(** [Find]: the data, the life time reported and the table. *)
Definition Find (now : Z) (KeyVal : bytes) (t : Hash V) : option V * Z * Hash V :=
  let khash := hashval KeyVal in
  let kent := entry_of khash t in
  match Search (chain_of khash t) khash KeyVal with
  | None => (None, 0, t)
  | Some (pre, hip, post) =>
      if expired now hip then (None, 0, Remove kent pre post t)
      else (Some (it_data hip), it_time hip, t)
  end.

(** [Purge] *)
Definition Purge (t : Hash V) : Hash V :=
  set_table (replicate (length (hashtable t)) []) 0 t.

(** [Apply]: [func] may change the argument it is given; its result says whether
    the item is deleted (< 0), kept (0) or ends the scan (> 0). *)
Section apply.
Context {A : Type} (func : bytes -> V -> A -> Z * A) (now : Z).

(** One chain: what stopped the scan, the chain, the argument and the number of
    items deleted. *)
Fixpoint apply_chain (chain : list (Item V)) (arg : A)
  : option V * list (Item V) * A * Z :=
  match chain with
  | [] => (None, [], arg, 0)
  | hip :: chain =>
      let '(rc, arg) :=
        if expired now hip then (-1, arg) else func (it_key hip) (it_data hip) arg in
      if 0 <? rc then (Some (it_data hip), hip :: chain, arg, 0)
      else
        let '(stop, rest, arg, n) := apply_chain chain arg in
        if rc <? 0 then (stop, rest, arg, n + 1) else (stop, hip :: rest, arg, n)
  end.

Fixpoint apply_chains (tab : list (list (Item V))) (arg : A)
  : option V * list (list (Item V)) * A * Z :=
  match tab with
  | [] => (None, [], arg, 0)
  | chain :: tab =>
      let '(stop, chain, arg, n) := apply_chain chain arg in
      match stop with
      | Some d => (Some d, chain :: tab, arg, n)
      | None =>
          let '(stop, tab, arg, m) := apply_chains tab arg in
          (stop, chain :: tab, arg, n + m)
      end
  end.

Definition Apply (arg : A) (t : Hash V) : option V * A * Hash V :=
  let '(stop, tab, arg, n) := apply_chains (hashtable t) arg in
  (stop, arg, set_table tab (hashnum t - n) t).
End apply.
End hash.

(** ** The table as a map *)

Section laws.
Context {V : Type} (hashval : bytes -> Z) (key_data : bytes -> V).
Implicit Types t : Hash V.

Definition contents t : list (Item V) := mjoin (hashtable t).

(** The items by key. *)
Definition items t : gmap (list Z) (Item V) :=
  list_to_map ((fun it => (it_key it, it)) <$> contents t).

(** Every item is in the chain of its key's hash, keys are distinct, and the
    counter is the number of items. *)
Record hash_wf t : Prop := {
  wf_size : zlen (hashtable t) = hashtablesize t;
  wf_pos : 0 < hashtablesize t;
  wf_prev : 0 <= prevtablesize t;
  wf_place : forall i chain it, hashtable t !! i = Some chain -> it ∈ chain ->
    it_hash it = hashval (it_key it) /\ entry_of (it_hash it) t = i;
  wf_nodup : NoDup (it_key <$> contents t);
  wf_num : hashnum t = zlen (contents t) }.

Lemma contents_elem t it :
  it ∈ contents t <-> exists i chain, hashtable t !! i = Some chain /\ it ∈ chain.
Proof.
  unfold contents. rewrite list_elem_of_join. split.
  - intros (chain & Hit & Hc). apply list_elem_of_lookup in Hc as [i Hi]. eauto.
  - intros (i & chain & Hi & Hit). exists chain. split; [done|].
    by apply list_elem_of_lookup_2 in Hi.
Qed.

(** Replacing one chain changes the contents accordingly. *)
Lemma contents_insert (tab : list (list (Item V))) i chain chain' :
  tab !! i = Some chain ->
  exists rest, mjoin tab ≡ₚ chain ++ rest /\ mjoin (<[i:=chain']> tab) ≡ₚ chain' ++ rest.
Proof.
  intros Hi. exists (mjoin (take i tab) ++ mjoin (drop (S i) tab)).
  rewrite insert_take_drop by (by apply lookup_lt_Some in Hi).
  rewrite <- (take_drop_middle tab i chain Hi) at 1.
  rewrite !join_app. cbn [mjoin list_join]. split; solve_Permutation.
Qed.

Lemma items_lookup t k it :
  NoDup (it_key <$> contents t) ->
  items t !! k = Some it <-> it ∈ contents t /\ it_key it = k.
Proof.
  intros Hnd. unfold items. rewrite <- elem_of_list_to_map.
  - rewrite list_elem_of_fmap. split.
    + intros (it' & [= -> ->] & Hit). done.
    + intros [Hit <-]. by exists it.
  - by rewrite <- list_fmap_compose.
Qed.

Lemma items_None t k :
  NoDup (it_key <$> contents t) ->
  items t !! k = None <-> forall it, it ∈ contents t -> it_key it <> k.
Proof.
  intros Hnd. split.
  - intros Hn it Hit <-. assert (items t !! it_key it = Some it) by (by apply items_lookup).
    congruence.
  - intros H. destruct (items t !! k) as [it|] eqn:E; [|done].
    apply items_lookup in E as [Hit Hk]; [|done]. by apply H in Hk.
Qed.

Lemma Search_Some (chain : list (Item V)) h k pre it post :
  Search chain h k = Some (pre, it, post) ->
  chain = pre ++ it :: post /\ it_key it = k /\ it_hash it = h.
Proof.
  revert pre. induction chain as [|x chain IH]; intros pre; cbn [Search]; [done|].
  unfold Same. destruct (Z.eqb_spec (it_hash x) h); cbn [andb]; [case_bool_decide|].
  - by intros [= <- <- <-].
  - destruct (Search chain h k) as [[[pre' it'] post']|]; [|done].
    intros [= <- <- <-]. by destruct (IH pre' eq_refl) as (-> & ? & ?).
  - destruct (Search chain h k) as [[[pre' it'] post']|]; [|done].
    intros [= <- <- <-]. by destruct (IH pre' eq_refl) as (-> & ? & ?).
Qed.

Lemma Search_None (chain : list (Item V)) h k it :
  Search chain h k = None -> it ∈ chain -> it_key it = k -> it_hash it <> h.
Proof.
  induction chain as [|x chain IH]; cbn [Search]; [by intros _ ?%not_elem_of_nil|].
  unfold Same. destruct (Z.eqb_spec (it_hash x) h); cbn [andb]; [case_bool_decide; [done|]|];
    (destruct (Search chain h k) as [[[? ?] ?]|]; [done|]);
    intros _ [->|Hin]%elem_of_cons Hk; try done; by apply IH.
Qed.

Lemma entry_lt t h : hash_wf t -> (entry_of h t < length (hashtable t))%nat.
Proof.
  intros H. pose proof (wf_size t H). pose proof (wf_pos t H). unfold entry_of, zlen in *.
  pose proof (Z.mod_pos_bound h (hashtablesize t)). lia.
Qed.

Lemma chain_lookup t h : hash_wf t -> hashtable t !! entry_of h t = Some (chain_of h t).
Proof.
  intros H. destruct (lookup_lt_is_Some_2 (hashtable t) (entry_of h t)) as [chain Hc];
    [by apply entry_lt|]. unfold chain_of. by rewrite Hc.
Qed.

(** [Search] in the chain of a key's hash finds the item of the key. *)
Lemma Search_items t k :
  hash_wf t ->
  match Search (chain_of (hashval k) t) (hashval k) k with
  | Some (pre, it, post) =>
      hashtable t !! entry_of (hashval k) t = Some (pre ++ it :: post) /\
      items t !! k = Some it
  | None => items t !! k = None
  end.
Proof.
  intros H. pose proof (chain_lookup t (hashval k) H) as Hc.
  destruct (Search _ _ _) as [[[pre it] post]|] eqn:Es.
  - apply Search_Some in Es as (Hch & Hk & _). rewrite <- Hch. split; [done|].
    apply items_lookup; [apply (wf_nodup t H)|]. split; [|done].
    apply contents_elem. eexists _, _. split; [exact Hc|]. rewrite Hch. set_solver.
  - apply items_None; [apply (wf_nodup t H)|]. intros it Hit Hk.
    apply contents_elem in Hit as (i & chain & Hi & Hin).
    destruct (wf_place t H i chain it Hi Hin) as [Hh Hent].
    rewrite Hk in Hh. rewrite Hh in Hent. subst i. rewrite Hc in Hi. injection Hi as <-.
    by apply (Search_None _ _ _ it Es Hin).
Qed.

(** The items of a permuted list of contents. *)
Definition items_of (l : list (Item V)) : gmap (list Z) (Item V) :=
  list_to_map ((fun it => (it_key it, it)) <$> l).

Lemma items_of_perm l l' :
  NoDup (it_key <$> l) -> l ≡ₚ l' -> items_of l = items_of l'.
Proof.
  intros Hnd Hp. unfold items_of. apply list_to_map_proper; [by rewrite <- list_fmap_compose|].
  by rewrite Hp.
Qed.

Lemma items_of_cons it l : items_of (it :: l) = <[it_key it := it]> (items_of l).
Proof. done. Qed.

Lemma items_of_None l k : k ∉ it_key <$> l -> items_of l !! k = None.
Proof.
  intros Hk. unfold items_of. apply not_elem_of_list_to_map_1.
  by rewrite <- list_fmap_compose.
Qed.

Lemma set_chain_wf t i chain chain' num :
  hash_wf t -> hashtable t !! i = Some chain ->
  (forall it, it ∈ chain' -> it ∈ chain \/
     it_hash it = hashval (it_key it) /\ entry_of (it_hash it) t = i) ->
  let t' := set_table (<[i:=chain']> (hashtable t)) num t in
  NoDup (it_key <$> contents t') -> num = zlen (contents t') -> hash_wf t'.
Proof.
  intros H Hi Hch t' Hnd Hnum. destruct H as [Hs Hp Hpr Hpl _ _].
  split; try done.
  - unfold t', zlen. cbn. by rewrite length_insert.
  - intros j c it Hj Hit. cbn in Hj. change (entry_of (it_hash it) t') with (entry_of (it_hash it) t).
    destruct (decide (i = j)) as [<-|Hne].
    + rewrite list_lookup_insert_eq in Hj by (by apply lookup_lt_Some in Hi).
      injection Hj as <-. destruct (Hch it Hit) as [Hin|?]; [by apply (Hpl i chain)|done].
    + rewrite list_lookup_insert_ne in Hj by done. by apply (Hpl j c).
Qed.

Lemma Remove_ok t i pre it post :
  hash_wf t -> hashtable t !! i = Some (pre ++ it :: post) ->
  hash_wf (Remove i pre post t) /\
  items (Remove i pre post t) = delete (it_key it) (items t).
Proof.
  intros H Hi.
  destruct (contents_insert (hashtable t) i _ (pre ++ post) Hi) as (rest & Hc & Hc').
  pose proof (wf_nodup t H) as Hnd. pose proof (wf_num t H) as Hnum. unfold contents in *.
  assert (mjoin (hashtable t) ≡ₚ it :: mjoin (<[i:=pre ++ post]> (hashtable t))) as Hperm
    by (rewrite Hc, Hc'; solve_Permutation).
  assert (NoDup (it_key it :: (it_key <$> mjoin (<[i:=pre ++ post]> (hashtable t))))) as Hnd'
    by (by rewrite <- fmap_cons, <- Hperm).
  apply NoDup_cons in Hnd' as [Hnin Hnd'].
  assert (length (mjoin (hashtable t)) = S (length (mjoin (<[i:=pre ++ post]> (hashtable t)))))
    as Hlen by (by rewrite Hperm). split.
  - apply (set_chain_wf t i (pre ++ it :: post)); try done.
    + intros x Hx. left. set_solver.
    + unfold zlen, contents in *. cbn. lia.
  - change (items_of (mjoin (<[i:=pre ++ post]> (hashtable t)))
            = delete (it_key it) (items_of (mjoin (hashtable t)))).
    rewrite (items_of_perm _ _ Hnd Hperm), items_of_cons.
    rewrite delete_insert_id; [done|]. by apply items_of_None.
Qed.

Lemma Replace_ok t i pre it it' post :
  hash_wf t -> hashtable t !! i = Some (pre ++ it :: post) ->
  it_key it' = it_key it -> it_hash it' = it_hash it ->
  hash_wf (Replace i pre it' post t) /\
  hashtable (Replace i pre it' post t) !! i = Some (pre ++ it' :: post) /\
  items (Replace i pre it' post t) = <[it_key it := it']> (items t).
Proof.
  intros H Hi Hk Hh.
  destruct (contents_insert (hashtable t) i _ (pre ++ it' :: post) Hi) as (rest & Hc & Hc').
  pose proof (wf_nodup t H) as Hnd. pose proof (wf_num t H) as Hnum. unfold contents in *.
  assert (mjoin (hashtable t) ≡ₚ it :: (pre ++ post ++ rest)) as Hp1
    by (rewrite Hc; solve_Permutation).
  assert (mjoin (<[i:=pre ++ it' :: post]> (hashtable t)) ≡ₚ it' :: (pre ++ post ++ rest)) as Hp2
    by (rewrite Hc'; solve_Permutation).
  assert (NoDup (it_key <$> mjoin (<[i:=pre ++ it' :: post]> (hashtable t)))) as Hnd'.
  { rewrite Hp2, fmap_cons, Hk, <- fmap_cons, <- Hp1. done. }
  split; [|split].
  - apply (set_chain_wf t i (pre ++ it :: post)); try done.
    + intros x [Hx|[->|Hx]%elem_of_cons]%elem_of_app; [left; set_solver| |left; set_solver].
      right. rewrite Hk, Hh. apply (wf_place t H i (pre ++ it :: post)); [done|set_solver].
    + unfold zlen, contents in *. rewrite Hp2, Hp1 in *. cbn in *. lia.
  - cbn. apply list_lookup_insert_eq. by apply lookup_lt_Some in Hi.
  - change (items_of (mjoin (<[i:=pre ++ it' :: post]> (hashtable t)))
            = <[it_key it := it']> (items_of (mjoin (hashtable t)))).
    rewrite (items_of_perm _ _ Hnd Hp1), (items_of_perm _ _ Hnd' Hp2), !items_of_cons, Hk.
    by rewrite insert_insert_eq.
Qed.

(** The item [Insert] makes. *)
Definition new_item (now : Z) (k : bytes) (d : V) (LifeTime opt : Z) : Item V :=
  MkItem k (hashval k) (if opt_has opt Hash_data_is_key then key_data k else d)
    (if LifeTime =? 0 then 0 else LifeTime + now) 0 opt.

Lemma Insert_ok t now k d LifeTime opt :
  hash_wf t -> items t !! k = None ->
  hash_wf (Insert hashval key_data now k d LifeTime opt t) /\
  items (Insert hashval key_data now k d LifeTime opt t)
    = <[k := new_item now k d LifeTime opt]> (items t).
Proof.
  intros H Hnone. pose proof (chain_lookup t (hashval k) H) as Hi.
  set (it := new_item now k d LifeTime opt).
  destruct (contents_insert (hashtable t) _ _ (it :: chain_of (hashval k) t) Hi)
    as (rest & Hc & Hc').
  pose proof (wf_nodup t H) as Hnd. pose proof (wf_num t H) as Hnum. unfold contents in *.
  set (tab' := <[entry_of (hashval k) t := it :: chain_of (hashval k) t]> (hashtable t)) in *.
  assert (mjoin tab' ≡ₚ it :: mjoin (hashtable t)) as Hp by (by rewrite Hc', Hc).
  assert (NoDup (it_key <$> mjoin tab')) as Hnd'.
  { rewrite Hp, fmap_cons. apply NoDup_cons. split; [|done].
    intros (x & Hx & Hin)%list_elem_of_fmap. rewrite items_None in Hnone by done.
    by apply (Hnone x Hin). }
  split.
  - apply (set_chain_wf t (entry_of (hashval k) t) (chain_of (hashval k) t)); try done.
    + intros x [->|Hx]%elem_of_cons; [by right|by left].
    + change (hashnum t + 1 = zlen (mjoin tab')). unfold zlen in *. rewrite Hp. cbn [length]. lia.
  - change (items_of (mjoin tab') = <[it_key it := it]> (items_of (mjoin (hashtable t)))).
    by rewrite (items_of_perm _ _ Hnd' Hp).
Qed.

(** ** Expansion *)

Lemma push_perm newsize (tab : list (list (Item V))) it :
  0 < newsize -> zlen tab = newsize ->
  mjoin (push newsize tab it) ≡ₚ it :: mjoin tab /\ zlen (push newsize tab it) = newsize.
Proof.
  intros Hp Hl. unfold push. set (n := Z.to_nat (it_hash it mod newsize)).
  destruct (lookup_lt_is_Some_2 tab n) as [chain Hc].
  { unfold n, zlen in *. pose proof (Z.mod_pos_bound (it_hash it) newsize). lia. }
  rewrite Hc. destruct (contents_insert tab n chain (it :: chain) Hc) as (rest & H1 & H2).
  split; [by rewrite H2, H1|]. unfold zlen. by rewrite length_insert.
Qed.

Lemma push_place newsize (tab : list (list (Item V))) it :
  0 < newsize -> zlen tab = newsize ->
  (forall j c (x : Item V), tab !! j = Some c -> x ∈ c -> Z.to_nat (it_hash x mod newsize) = j) ->
  forall j c (x : Item V), push newsize tab it !! j = Some c -> x ∈ c ->
    Z.to_nat (it_hash x mod newsize) = j.
Proof.
  intros Hp Hl Hpl j c x. unfold push. set (n := Z.to_nat (it_hash it mod newsize)).
  destruct (tab !! n) as [chain|] eqn:Hc; [|apply Hpl].
  destruct (decide (n = j)) as [<-|Hne].
  - rewrite list_lookup_insert_eq by (by apply lookup_lt_Some in Hc). intros [= <-] [->|Hx]%elem_of_cons;
      [done|]. by apply (Hpl n chain).
  - rewrite list_lookup_insert_ne by done. apply Hpl.
Qed.

Lemma push_all newsize (l : list (Item V)) : forall tab,
  0 < newsize -> zlen tab = newsize ->
  (forall j c (x : Item V), tab !! j = Some c -> x ∈ c -> Z.to_nat (it_hash x mod newsize) = j) ->
  let tab' := foldl (push newsize) tab l in
  mjoin tab' ≡ₚ l ++ mjoin tab /\ zlen tab' = newsize /\
  forall j c (x : Item V), tab' !! j = Some c -> x ∈ c -> Z.to_nat (it_hash x mod newsize) = j.
Proof.
  induction l as [|it l IH]; intros tab Hp Hl Hpl; [done|]. cbn [foldl].
  destruct (push_perm newsize tab it Hp Hl) as [H1 H2].
  destruct (IH (push newsize tab it) Hp H2) as (H3 & H4 & H5).
  - by apply push_place.
  - split; [|split; [done|exact H5]]. rewrite H3, H1. solve_Permutation.
Qed.

Lemma mjoin_replicate_nil n : mjoin (replicate n (@nil (Item V))) = [].
Proof. by induction n. Qed.

Lemma Expand_ok t : hash_wf t -> hash_wf (Expand t) /\ items (Expand t) = items t.
Proof.
  intros H. pose proof (wf_pos t H) as Hpos. pose proof (wf_prev t H) as Hprev.
  pose proof (wf_nodup t H) as Hnd. pose proof (wf_num t H) as Hnum.
  set (newsize := prevtablesize t + hashtablesize t).
  destruct (push_all newsize (mjoin (hashtable t)) (replicate (Z.to_nat newsize) []))
    as (Hp & Hl & Hpl).
  - unfold newsize. lia.
  - unfold zlen. rewrite length_replicate. unfold newsize. lia.
  - intros j c x Hj Hx. apply lookup_replicate in Hj as [-> _]. by apply elem_of_nil in Hx.
  - rewrite mjoin_replicate_nil, app_nil_r in Hp. cbv zeta in *.
    set (tab' := foldl _ _ _) in *. unfold contents in *.
    assert (NoDup (it_key <$> mjoin tab')) as Hnd' by (by rewrite Hp).
    split; [split|].
    + done.
    + cbn. lia.
    + cbn. lia.
    + intros i chain it Hi Hit. split; [|by apply (Hpl i chain)].
      assert (it ∈ mjoin (hashtable t)) as Hin.
      { rewrite <- Hp. apply list_elem_of_join. exists chain. split; [done|].
        by apply list_elem_of_lookup_2 in Hi. }
      apply (contents_elem t) in Hin as (j & c & Hj & Hx). by apply (wf_place t H j c).
    + exact Hnd'.
    + change (hashnum t = zlen (mjoin tab')). rewrite Hnum. unfold zlen. by rewrite Hp.
    + change (items_of (mjoin tab') = items_of (mjoin (hashtable t))).
      by apply items_of_perm.
Qed.

Lemma XrdOucHash_wf psize csize load :
  0 < csize -> 0 <= psize -> hash_wf (XrdOucHash psize csize load) /\
  items (XrdOucHash (V:=V) psize csize load) = ∅.
Proof.
  intros Hc Hp. assert (contents (XrdOucHash (V:=V) psize csize load) = []) as He
    by apply mjoin_replicate_nil.
  split; [split|].
  - cbn. unfold zlen. rewrite length_replicate. lia.
  - done.
  - done.
  - intros i chain it Hi Hit. cbn in Hi. apply lookup_replicate in Hi as [-> _].
    by apply elem_of_nil in Hit.
  - rewrite He. constructor.
  - by rewrite He.
  - unfold items. by rewrite He.
Qed.

(** ** The operations on the map *)

Lemma find_ok t now k :
  hash_wf t ->
  match items t !! k with
  | None => Find hashval now k t = (None, 0, t)
  | Some it =>
      if expired now it
      then exists t', Find hashval now k t = (None, 0, t') /\ hash_wf t' /\
             items t' = delete k (items t)
      else Find hashval now k t = (Some (it_data it), it_time it, t)
  end.
Proof.
  intros H. pose proof (Search_items t k H) as HS. unfold Find.
  destruct (Search _ _ _) as [[[pre it] post]|]; [|by rewrite HS].
  destruct HS as [Hi Hit]. rewrite Hit. destruct (expired now it); [|done].
  destruct (Remove_ok t _ pre it post H Hi) as [Hwf Hitems].
  eexists. split; [reflexivity|]. split; [done|]. rewrite Hitems.
  apply items_lookup in Hit as [_ Hk]; [by rewrite Hk|apply (wf_nodup t H)].
Qed.

(** Find returns the data and the life time of the key's live entry and
    leaves the table alone; an expired entry is removed and reported absent.
    *)
Theorem Find_spec t now k :
  hash_wf t ->
  match items t !! k with
  | None => Find hashval now k t = (None, 0, t)
  | Some it =>
      if expired now it
      then exists t', Find hashval now k t = (None, 0, t') /\ hash_wf t' /\
             items t' = delete k (items t)
      else Find hashval now k t = (Some (it_data it), it_time it, t)
  end.
Proof. apply find_ok. Qed.

Lemma add_ok t now k d LifeTime opt :
  hash_wf t ->
  let '(r, t') := Add hashval key_data now k d LifeTime opt t in
  let fresh := <[k := new_item now k d LifeTime opt]> (items t) in
  hash_wf t' /\
  match items t !! k with
  | None => r = None /\ items t' = fresh
  | Some it =>
      let it' := if opt_has opt Hash_count
                 then Update (it_count it + 1)
                        (if negb (LifeTime =? 0) || negb (it_time it =? 0)
                         then LifeTime + now else 0) it
                 else it in
      if negb (opt_has opt Hash_replace) && ((it_time it' =? 0) || (now <=? it_time it'))
      then r = Some (it_data it) /\ items t' = <[k := it']> (items t)
      else r = None /\ items t' = fresh
  end.
Proof.
  intros H. pose proof (Search_items t k H) as HS. unfold Add.
  destruct (Search _ _ _) as [[[pre it] post]|].
  - destruct HS as [Hi Hit]. rewrite Hit.
    pose proof Hit as Hk. apply items_lookup in Hk as [_ Hk]; [|apply (wf_nodup t H)].
    set (it' := if opt_has opt Hash_count then _ else it).
    assert (it_key it' = it_key it /\ it_hash it' = it_hash it /\ it_data it' = it_data it)
      as (Hk' & Hh' & Hd') by (unfold it'; by case_match).
    destruct (Replace_ok t _ pre it it' post H Hi Hk' Hh') as (Hwf & Hi' & Hitems).
    rewrite Hk in Hitems. cbv zeta. fold it'.
    destruct (negb (opt_has opt Hash_replace) && _).
    + rewrite Hd'. done.
    + destruct (Remove_ok _ _ _ _ _ Hwf Hi') as [Hwf2 Hitems2].
      rewrite Hk', Hk, Hitems, delete_insert_eq in Hitems2.
      destruct (Insert_ok _ now k d LifeTime opt Hwf2) as [Hwf3 Hitems3].
      * rewrite Hitems2. apply lookup_delete_eq.
      * split; [exact Hwf3|]. split; [done|]. rewrite Hitems3, Hitems2. apply insert_delete_eq.
  - rewrite HS. cbv zeta.
    set (t1 := if hashmax t <=? hashnum t then Expand t else t).
    assert (hash_wf t1 /\ items t1 = items t) as [Hwf Hitems]
      by (unfold t1; case_match; [by apply Expand_ok|done]).
    destruct (Insert_ok t1 now k d LifeTime opt Hwf) as [Hwf' Hitems'].
    + by rewrite Hitems.
    + split; [done|]. by rewrite Hitems', Hitems.
Qed.


Lemma del_ok t k :
  hash_wf t ->
  match items t !! k with
  | None => Del hashval k t = (- ENOENT, t)
  | Some it =>
      exists t', Del hashval k t = (0, t') /\ hash_wf t' /\
        items t' = if it_count it <=? 0 then delete k (items t)
                   else <[k := Update (it_count it - 1) 0 it]> (items t)
  end.
Proof.
  intros H. pose proof (Search_items t k H) as HS. unfold Del.
  destruct (Search _ _ _) as [[[pre it] post]|]; [|by rewrite HS].
  destruct HS as [Hi Hit]. rewrite Hit.
  pose proof Hit as Hk. apply items_lookup in Hk as [_ Hk]; [|apply (wf_nodup t H)].
  destruct (it_count it <=? 0).
  - destruct (Remove_ok t _ pre it post H Hi) as [Hwf Hitems].
    eexists. split; [reflexivity|]. split; [done|]. by rewrite Hitems, Hk.
  - destruct (Replace_ok t _ pre it (Update (it_count it - 1) 0 it) post H Hi)
      as (Hwf & _ & Hitems); [done|done|].
    eexists. split; [reflexivity|]. split; [done|]. by rewrite Hitems, Hk.
Qed.

(** Del removes the entry of a key whose count is used up, decrements the
    count of another, and reports ENOENT for an absent key without changing
    the table. *)
Theorem Del_spec t k :
  hash_wf t ->
  match items t !! k with
  | None => Del hashval k t = (- ENOENT, t)
  | Some it =>
      exists t', Del hashval k t = (0, t') /\ hash_wf t' /\
        items t' = if it_count it <=? 0 then delete k (items t)
                   else <[k := Update (it_count it - 1) 0 it]> (items t)
  end.
Proof. apply del_ok. Qed.

(** ** Purge and Apply *)

Lemma Purge_ok t : hash_wf t -> hash_wf (Purge t) /\ items (Purge t) = ∅.
Proof.
  intros H. assert (contents (Purge t) = []) as He by apply mjoin_replicate_nil.
  split; [|unfold items; by rewrite He]. destruct H as [Hs Hp Hpr _ _ _]. split; try done.
  - cbn. rewrite <- Hs. unfold zlen. by rewrite length_replicate.
  - intros i chain it Hi Hit. cbn in Hi. apply lookup_replicate in Hi as [-> _].
    by apply elem_of_nil in Hit.
  - rewrite He. constructor.
  - by rewrite He.
Qed.

Lemma sublist_keys (l l' : list (Item V)) :
  sublist l l' -> sublist (it_key <$> l) (it_key <$> l').
Proof. induction 1; cbn; by constructor. Qed.

(** Keeping a part of every chain keeps the table well formed. *)
Lemma sublist_wf t tab' n :
  hash_wf t -> Forall2 sublist tab' (hashtable t) ->
  zlen (mjoin tab') = zlen (contents t) - n ->
  hash_wf (set_table tab' (hashnum t - n) t).
Proof.
  intros H Hsub Hn. destruct H as [Hs Hp Hpr Hpl Hnd Hnum]. split; try done.
  - cbn. rewrite <- Hs. unfold zlen. by rewrite (Forall2_length _ _ _ Hsub).
  - intros i chain it Hi Hit. cbn in Hi.
    destruct (Forall2_lookup_l _ _ _ _ _ Hsub Hi) as (chain0 & Hi0 & Hsl).
    apply (Hpl i chain0); [done|]. by eapply sublist_subseteq.
  - change (NoDup (it_key <$> mjoin tab')). eapply sublist_NoDup; [exact Hnd|].
    apply sublist_keys. unfold contents. clear -Hsub.
    induction Hsub as [|x y l k Hxy _ IH]; [done|].
    change (sublist (x ++ mjoin l) (y ++ mjoin k)). by apply sublist_app.
  - change (hashnum t - n = zlen (mjoin tab')). rewrite Hnum. unfold contents in *. lia.
Qed.

Section apply_laws.
Context {A : Type} (func : bytes -> V -> A -> Z * A) (now : Z) (r : bytes -> V -> Z).
Context (Hr : forall k d a, (func k d a).1 = r k d).

(** An item [Apply] keeps. *)
Definition kept (it : Item V) : bool :=
  negb (expired now it) && negb (r (it_key it) (it_data it) <? 0).

Definition stops (it : Item V) : bool :=
  negb (expired now it) && (0 <? r (it_key it) (it_data it)).

Lemma apply_chain_ok chain : forall arg,
  let '(stop, chain', arg', n) := apply_chain func now chain arg in
  sublist chain' chain /\ zlen chain' = zlen chain - n /\
  match stop with
  | Some d => exists it, it ∈ chain /\ it_data it = d /\ stops it = true
  | None => chain' = filter (fun it => kept it = true) chain /\
            forall it, it ∈ chain -> stops it = false
  end.
Proof using Hr.
  induction chain as [|it chain IH]; intros arg; cbn [apply_chain].
  - split; [done|]. split; [done|]. split; [done|]. intros it Hit. by apply elem_of_nil in Hit.
  - pose proof (Hr (it_key it) (it_data it) arg) as Hrc.
    destruct (func (it_key it) (it_data it) arg) as [rc0 arg0]. cbn in Hrc. subst rc0.
    destruct (expired now it) eqn:Hexp.
    + change (0 <? -1) with false. change (-1 <? 0) with true. cbv iota.
      specialize (IH arg). destruct (apply_chain func now chain arg) as [[[stop ch'] a'] n].
      destruct IH as (Hs & Hl & Hst). rewrite zlen_cons.
      split; [by constructor|]. split; [lia|]. destruct stop as [d|].
      * destruct Hst as (x & Hx & ?). exists x. split; [by right|done].
      * destruct Hst as [-> Hno]. rewrite filter_cons_False by (unfold kept; rewrite Hexp; done).
        split; [done|]. intros x [->|Hx]%elem_of_cons; [|by apply Hno]. unfold stops. by rewrite Hexp.
    + set (rc := r (it_key it) (it_data it)). destruct (Z.ltb_spec 0 rc).
      * split; [done|]. split; [lia|]. exists it. split; [by left|]. split; [done|].
        unfold stops. rewrite Hexp. fold rc. cbn. by apply Z.ltb_lt.
      * specialize (IH arg0). destruct (apply_chain func now chain arg0) as [[[stop ch'] a'] n].
        destruct IH as (Hs & Hl & Hst). assert (stops it = false) as Hnst.
        { unfold stops. rewrite Hexp. fold rc. cbn. by apply Z.ltb_ge. }
        destruct (Z.ltb_spec rc 0).
        -- rewrite zlen_cons. split; [by constructor|]. split; [lia|]. destruct stop as [d|].
           ++ destruct Hst as (x & Hx & ?). exists x. split; [by right|done].
           ++ destruct Hst as [-> Hno]. rewrite filter_cons_False.
              { split; [done|]. intros x [->|Hx]%elem_of_cons; [done|by apply Hno]. }
              unfold kept. rewrite Hexp. fold rc. by destruct (Z.ltb_spec rc 0); [|lia].
        -- rewrite !zlen_cons. split; [by constructor|]. split; [lia|]. destruct stop as [d|].
           ++ destruct Hst as (x & Hx & ?). exists x. split; [by right|done].
           ++ destruct Hst as [-> Hno]. rewrite filter_cons_True.
              { split; [done|]. intros x [->|Hx]%elem_of_cons; [done|by apply Hno]. }
              unfold kept. rewrite Hexp. fold rc. by destruct (Z.ltb_spec rc 0); [lia|].
Qed.

Lemma apply_chains_ok tab : forall arg,
  let '(stop, tab', arg', n) := apply_chains func now tab arg in
  Forall2 sublist tab' tab /\ zlen (mjoin tab') = zlen (mjoin tab) - n /\
  match stop with
  | Some d => exists it, it ∈ mjoin tab /\ it_data it = d /\ stops it = true
  | None => mjoin tab' = filter (fun it => kept it = true) (mjoin tab) /\
            forall it, it ∈ mjoin tab -> stops it = false
  end.
Proof using Hr.
  induction tab as [|chain tab IH]; intros arg; cbn [apply_chains].
  - split; [done|]. split; [done|]. split; [done|]. intros it Hit. by apply elem_of_nil in Hit.
  - pose proof (apply_chain_ok chain arg) as Hc.
    destruct (apply_chain func now chain arg) as [[[stop ch'] a'] n].
    destruct Hc as (Hs & Hl & Hst).
    change (mjoin (chain :: tab)) with (chain ++ mjoin tab). rewrite zlen_app.
    destruct stop as [d|].
    + change (mjoin (ch' :: tab)) with (ch' ++ mjoin tab). rewrite zlen_app.
      split; [constructor; [done|]; by apply Forall_Forall2_diag, Forall_true|]. split; [lia|].
      destruct Hst as (x & Hx & ?). exists x. split; [apply elem_of_app; by left|done].
    + specialize (IH a'). destruct (apply_chains func now tab a') as [[[stop tab'] a''] m].
      destruct IH as (Hs' & Hl' & Hst').
      change (mjoin (ch' :: tab')) with (ch' ++ mjoin tab'). rewrite zlen_app.
      split; [by constructor|]. split; [lia|]. destruct Hst as [-> Hno]. destruct stop as [d|].
      * destruct Hst' as (x & Hx & ?). exists x. split; [apply elem_of_app; by right|done].
      * destruct Hst' as [-> Hno']. split; [by rewrite filter_app|].
        intros x [Hx|Hx]%elem_of_app; [by apply Hno|by apply Hno'].
Qed.
End apply_laws.

(** Apply deletes exactly the entries that expired or for which the
    function returns a negative value and keeps the table well formed; when it
    stops early it returns the data of a live entry the function accepted. *)
Theorem Apply_spec {A} (func : bytes -> V -> A -> Z * A) now r arg t :
  (forall k d a, (func k d a).1 = r k d) -> hash_wf t ->
  let '(stop, arg', t') := Apply func now arg t in
  hash_wf t' /\
  match stop with
  | Some d => exists k it, items t !! k = Some it /\ it_data it = d /\
                expired now it = false /\ 0 < r k d
  | None => forall k, items t' !! k =
              match items t !! k with
              | Some it => if expired now it || (r k (it_data it) <? 0) then None else Some it
              | None => None
              end
  end.
Proof.
  intros Hr H. unfold Apply. pose proof (apply_chains_ok func now r Hr (hashtable t) arg) as Ha.
  destruct (apply_chains func now (hashtable t) arg) as [[[stop tab'] arg'] n].
  destruct Ha as (Hsub & Hlen & Hst).
  pose proof (sublist_wf t tab' n H Hsub Hlen) as Hwf. split; [done|].
  destruct stop as [d|].
  - destruct Hst as (it & Hin & <- & Hs). apply andb_true_iff in Hs as [He Hpos].
    exists (it_key it), it. split; [by apply items_lookup; [apply (wf_nodup t H)|]|].
    split; [done|]. split; [by destruct (expired now it)|]. by apply Z.ltb_lt.
  - destruct Hst as [Hf _]. intros k. set (t' := set_table tab' (hashnum t - n) t) in *.
    assert (contents t' = filter (fun it => kept now r it = true) (contents t)) as Hc by exact Hf.
    destruct (items t !! k) as [it|] eqn:E.
    + apply items_lookup in E as [Hin <-]; [|apply (wf_nodup t H)].
      destruct (expired now it || (r (it_key it) (it_data it) <? 0)) eqn:Ek.
      * apply items_None; [apply (wf_nodup t' Hwf)|]. intros x Hx Hxk. rewrite Hc in Hx.
        apply list_elem_of_filter in Hx as [Hkeep Hx].
        assert (items t !! it_key it = Some x) as Ex by (apply items_lookup; [apply (wf_nodup t H)|done]).
        assert (items t !! it_key it = Some it) as Ei by (apply items_lookup; [apply (wf_nodup t H)|done]).
        rewrite Ex in Ei. injection Ei as ->. unfold kept in Hkeep.
        by rewrite <- negb_orb, Ek in Hkeep.
      * apply items_lookup; [apply (wf_nodup t' Hwf)|]. split; [|done]. rewrite Hc.
        apply list_elem_of_filter. split; [|done]. unfold kept. by rewrite <- negb_orb, Ek.
    + apply items_None; [apply (wf_nodup t' Hwf)|]. intros x Hx Hxk. rewrite Hc in Hx.
      apply list_elem_of_filter in Hx as [_ Hx]. rewrite items_None in E by apply (wf_nodup t H).
      by apply (E x).
Qed.

(** ** Counted entries *)

(** [n] additions with [Hash_count] and no life time. *)
Fixpoint add_n (n : nat) (now : Z) (k : bytes) (d : V) t : Hash V :=
  match n with
  | O => t
  | S n => (Add hashval key_data now k d 0 Hash_count (add_n n now k d t)).2
  end.

Fixpoint del_n (n : nat) (k : bytes) t : Hash V :=
  match n with
  | O => t
  | S n => (Del hashval k (del_n n k t)).2
  end.

Lemma add_n_ok n now k d t :
  hash_wf t -> items t !! k = None ->
  hash_wf (add_n (S n) now k d t) /\
  items (add_n (S n) now k d t)
    = <[k := MkItem k (hashval k) d 0 (Z.of_nat n) Hash_count]> (items t).
Proof.
  intros H Hk. induction n as [|n IH].
  - cbn [add_n]. pose proof (add_ok t now k d 0 Hash_count H) as Ha.
    destruct (Add _ _ _ _ _ _ _ t) as [r t']. rewrite Hk in Ha. by destruct Ha as (? & _ & ?).
  - destruct IH as [Hwf Hit]. remember (S n) as m. cbn [add_n].
    pose proof (add_ok _ now k d 0 Hash_count Hwf) as Ha.
    destruct (Add _ _ _ _ _ _ _ (add_n m now k d t)) as [r t'].
    rewrite Hit, lookup_insert_eq in Ha. cbn in Ha. destruct Ha as (Hwf' & _ & Hi).
    cbn [snd]. split; [done|]. rewrite Hi, insert_insert_eq. unfold Update. cbn. do 2 f_equal. lia.
Qed.

Lemma del_n_ok n m k t it :
  hash_wf t -> items t !! k = Some it -> it_count it = Z.of_nat m -> (n <= m)%nat ->
  hash_wf (del_n n k t) /\
  exists it', items (del_n n k t) = <[k := it']> (items t) /\ it_data it' = it_data it /\
    it_time it' = it_time it /\ it_count it' = Z.of_nat (m - n).
Proof.
  intros H Hk Hc. induction n as [|n IH]; intros Hle.
  - split; [done|]. exists it. cbn. rewrite insert_id by done. split_and!; [done..|lia].
  - destruct IH as (Hwf & it' & Hit & Hd & Htm & Hct); [lia|]. cbn [del_n].
    pose proof (del_ok _ k Hwf) as Hdel. rewrite Hit, lookup_insert_eq in Hdel.
    destruct Hdel as (t' & -> & Hwf' & Hi). cbn [snd]. split; [done|].
    exists (Update (it_count it' - 1) 0 it'). rewrite Hi.
    destruct (Z.leb_spec (it_count it') 0); [lia|]. rewrite insert_insert_eq.
    split_and!; [done|done|done|cbn; lia].
Qed.

(** An entry added n+1 times with Hash_count is found after any n
    deletions or fewer; the next deletion removes it and one more reports
    ENOENT. *)
Theorem counted_entry n now k d t :
  hash_wf t -> items t !! k = None ->
  let t1 := add_n (S n) now k d t in
  (forall m, (m <= n)%nat ->
     (Find hashval now k (del_n m k t1)).1.1 = Some d) /\
  items (del_n (S n) k t1) = items t /\
  (Del hashval k (del_n (S n) k t1)).1 = - ENOENT.
Proof.
  intros H Hk t1. destruct (add_n_ok n now k d t H Hk) as [Hwf Hit]. fold t1 in Hwf, Hit.
  assert (items t1 !! k = Some (MkItem k (hashval k) d 0 (Z.of_nat n) Hash_count)) as Hk1
    by (rewrite Hit; apply lookup_insert_eq).
  clearbody t1.
  assert (forall m, (m <= n)%nat -> hash_wf (del_n m k t1) /\
    exists it, items (del_n m k t1) = <[k := it]> (items t1) /\ it_data it = d /\
      it_time it = 0 /\ it_count it = Z.of_nat (n - m)) as Hdel.
  { intros m Hm. by destruct (del_n_ok m n k t1 _ Hwf Hk1 eq_refl Hm) as (? & ?). }
  split.
  - intros m Hm. destruct (Hdel m Hm) as (Hwf' & it & Hi & Hd & Ht & _).
    pose proof (find_ok _ now k Hwf') as Hf. rewrite Hi, lookup_insert_eq in Hf.
    unfold expired in Hf. rewrite Ht in Hf. cbn in Hf. by rewrite Hf, Hd.
  - destruct (Hdel n (le_n n)) as (Hwf' & it & Hi & _ & _ & Hc). cbn [del_n].
    pose proof (del_ok _ k Hwf') as Hd. rewrite Hi, lookup_insert_eq in Hd.
    destruct Hd as (t2 & -> & Hwf2 & Hi2). cbn [snd].
    rewrite Hc, Nat.sub_diag in Hi2. cbn in Hi2.
    assert (items t2 = items t) as He.
    { rewrite Hi2, Hit, insert_insert_eq. by apply delete_insert_id. }
    split; [done|]. pose proof (del_ok _ k Hwf2) as Hd2. rewrite He, Hk in Hd2. by rewrite Hd2.
Qed.
End laws.

(** ** Short keys *)

Lemma little_endian_cons b bs :
  is_byte b -> little_endian_to_Z 8 (b :: bs) = b + 256 * little_endian_to_Z 8 bs.
Proof.
  intros Hb. cbn [little_endian_to_Z]. rewrite Z.shiftl_mul_pow2 by lia. change (2 ^ 8) with 256.
  rewrite <- Z.add_nocarry_lor; [lia|]. apply Z.bits_inj'. intros i Hi.
  rewrite Z.land_spec, Z.bits_0. change 256 with (2 ^ 8).
  destruct (Z.lt_ge_cases i 8).
  - rewrite Z.mul_pow2_bits_low by lia. by rewrite andb_false_r.
  - unfold is_byte in Hb. rewrite (Z.bounded_iff_bits_nonneg' 8 b) in Hb by lia.
    rewrite Hb by lia. done.
Qed.

(** The characters of a C string are bytes other than the null. *)
Definition cstring (s : bytes) : Prop := Forall (fun c => 0 < c < 2 ^ 8) s.

Lemma little_endian_inj a : forall b,
  cstring a -> cstring b -> little_endian_to_Z 8 a = little_endian_to_Z 8 b -> a = b.
Proof.
  induction a as [|x a IH]; intros [|y b] Ha Hb He; try done.
  - apply Forall_cons in Hb as [Hy Hb]. rewrite little_endian_cons in He by (unfold is_byte; lia).
    change (little_endian_to_Z 8 []) with 0 in He. lia.
  - apply Forall_cons in Ha as [Hx Ha]. rewrite little_endian_cons in He by (unfold is_byte; lia).
    change (little_endian_to_Z 8 []) with 0 in He. lia.
  - apply Forall_cons in Ha as [Hx Ha]. apply Forall_cons in Hb as [Hy Hb].
    rewrite !little_endian_cons in He by (unfold is_byte; lia).
    assert (x = y) as -> by lia. f_equal. apply IH; [done|done|lia].
Qed.

(** Two C strings of at most eight characters have the same hash only
    when they are equal. *)
Theorem short_keys_no_collision a b :
  cstring a -> cstring b -> zlen a <= 8 -> zlen b <= 8 ->
  XrdOucHashVal a = XrdOucHashVal b -> a = b.
Proof.
  intros Ha Hb Hla Hlb. unfold XrdOucHashVal, XrdOucHashVal2.
  destruct (Z.leb_spec (zlen a) 8); [|lia]. destruct (Z.leb_spec (zlen b) 8); [|lia].
  unfold LoadWord, zlen. rewrite !Nat2Z.id, !firstn_all. by apply little_endian_inj.
Qed.

Lemma short_keys_no_collision_witness :
  XrdOucHashVal [47; 97] <> XrdOucHashVal [47; 98] /\ XrdOucHashVal [47; 97] = 24879.
Proof.
  split; [|vm_compute; reflexivity]. intros He.
  assert ([47; 97] = [47; 98] :> list Z) as H; [|done].
  apply short_keys_no_collision; [repeat constructor; lia|repeat constructor; lia|done|done|exact He].
Defined.

(** ** A concrete table *)

Section sample.
(** One chain, whose load threshold is reached with the first item. *)
Definition sample_hash : Hash Z := XrdOucHash 1 1 80.
Definition no_data (k : bytes) : Z := 0.

Lemma sample_hash_wf : hash_wf XrdOucHashVal sample_hash /\ items sample_hash = ∅.
Proof. apply XrdOucHash_wf; lia. Qed.

Definition sample_full : Hash Z :=
  (Add XrdOucHashVal no_data 100 [97] 1 5 0
     (Add XrdOucHashVal no_data 100 [98] 2 0 0 sample_hash).2).2.

Lemma sample_full_wf : hash_wf XrdOucHashVal sample_full.
Proof.
  destruct sample_hash_wf as [H _].
  pose proof (add_ok XrdOucHashVal no_data sample_hash 100 [98] 2 0 0 H) as H1.
  unfold sample_full.
  destruct (Add XrdOucHashVal no_data 100 [98] 2 0 0 sample_hash) as [r1 t1].
  destruct H1 as [H1 _]. pose proof (add_ok XrdOucHashVal no_data t1 100 [97] 1 5 0 H1) as H2.
  cbn [snd]. destruct (Add XrdOucHashVal no_data 100 [97] 1 5 0 t1) as [r2 t2]. by destruct H2.
Qed.

Lemma Find_spec_witness :
  exists t', Find XrdOucHashVal 106 [97] sample_full = (None, 0, t') /\
    items t' = delete [97] (items sample_full) /\ hashtablesize sample_full = 3.
Proof.
  pose proof (Find_spec XrdOucHashVal sample_full 106 [97] sample_full_wf) as H.
  assert (items sample_full !! [97] = Some (MkItem [97] 97 1 105 0 0)) as E
    by (vm_compute; reflexivity).
  rewrite E in H. destruct H as (t' & Hf & _ & Hi). exists t'.
  split; [exact Hf|]. split; [exact Hi|vm_compute; reflexivity].
Defined.


Lemma Del_spec_witness :
  exists t', Del XrdOucHashVal [98] sample_full = (0, t') /\
    items t' = delete [98] (items sample_full).
Proof.
  pose proof (Del_spec XrdOucHashVal sample_full [98] sample_full_wf) as H.
  assert (items sample_full !! [98] = Some (MkItem [98] 98 2 0 0 0)) as E
    by (vm_compute; reflexivity).
  rewrite E in H. destruct H as (t' & Hd & _ & Hi). exists t'. split; [exact Hd|exact Hi].
Defined.

Lemma Apply_spec_witness :
  let func (k : bytes) (d : Z) (n : Z) := (if d =? 2 then -1 else 0, n + 1) in
  let '(stop, seen, t') := Apply func 104 0 sample_full in
  stop = None /\ seen = 2 /\ hash_wf XrdOucHashVal t' /\ items t' !! [98] = None.
Proof.
  intros func.
  pose proof (Apply_spec XrdOucHashVal func 104 (fun k d => if d =? 2 then -1 else 0) 0 sample_full
                (fun k d a => eq_refl) sample_full_wf) as H.
  assert ((Apply func 104 0 sample_full).1 = (None, 2)) as E by (vm_compute; reflexivity).
  destruct (Apply func 104 0 sample_full) as [[stop seen] t']. injection E as -> ->.
  destruct H as [Hwf Hi]. split; [done|]. split; [done|]. split; [exact Hwf|].
  rewrite (Hi [98]). vm_compute. reflexivity.
Defined.

Lemma counted_entry_witness :
  items (del_n XrdOucHashVal 3 [97] (add_n XrdOucHashVal no_data 3 100 [97] 7 sample_hash)) = ∅.
Proof.
  destruct sample_hash_wf as [Hwf He].
  destruct (counted_entry XrdOucHashVal no_data 2 100 [97] 7 sample_hash Hwf) as (_ & H & _).
  - rewrite He. apply lookup_empty.
  - rewrite <- He. exact H.
Defined.
End sample.
