(* ===== verification/KeyTable.v ===== *)
(** * String-keyed tables: what [XrdOucHash] promises its clients

    A client that adds entries without a life time and without counting sees a
    finite map. [KeyTable] states that contract; the instance at the end is
    src/src/XrdOuc/XrdOucHash.icc, and the clients are proved against the class. *)

From stdpp Require Import base tactics list_numbers numbers option gmap list.
From S2P Require Import Prelude OucHash.

Class KeyTable (T V : Type) := {
  kt_wf : T -> Prop;
  kt_map : T -> gmap (list Z) V;
  kt_empty : T;
  kt_find : Z -> bytes -> T -> option V * T;
  kt_add : Z -> bytes -> V -> T -> T;
  kt_del : bytes -> T -> Z * T;
  kt_num : T -> Z;
  kt_empty_ok : kt_wf kt_empty /\ kt_map kt_empty = ∅;
  kt_find_ok now k t : kt_wf t ->
    (kt_find now k t).1 = kt_map t !! k /\
    kt_wf (kt_find now k t).2 /\ kt_map (kt_find now k t).2 = kt_map t;
  kt_add_ok now k v t : kt_wf t -> kt_map t !! k = None ->
    kt_wf (kt_add now k v t) /\ kt_map (kt_add now k v t) = <[k := v]> (kt_map t);
  kt_num_ok t : kt_wf t -> kt_num t = 0 <-> kt_map t = ∅;
  kt_del_ok k t : kt_wf t -> is_Some (kt_map t !! k) ->
    (kt_del k t).1 = 0 /\ kt_wf (kt_del k t).2 /\ kt_map (kt_del k t).2 = delete k (kt_map t) }.

(** ** The instance *)

Section instance.
Context {V : Type} (hashval : bytes -> Z) (key_data : bytes -> V).

(** A table all of whose entries are permanent and uncounted. *)
Record permanent (t : Hash V) : Prop := {
  pm_wf : hash_wf hashval t;
  pm_items : forall k it, items t !! k = Some it -> it_time it = 0 /\ it_count it = 0 }.

Lemma permanent_find now k t : permanent t ->
  (Find hashval now k t).1.1 = it_data <$> items t !! k /\
  (Find hashval now k t).2 = t.
Proof.
  intros [Hwf Hp]. pose proof (find_ok hashval t now k Hwf) as Hf.
  destruct (items t !! k) as [it|] eqn:E; [|by rewrite Hf].
  destruct (Hp k it E) as [Ht _]. unfold expired in Hf. rewrite Ht in Hf. cbn in Hf.
  by rewrite Hf.
Qed.

Lemma permanent_add now k d t : permanent t -> items t !! k = None ->
  permanent (Add hashval key_data now k d 0 Hash_default t).2 /\
  items (Add hashval key_data now k d 0 Hash_default t).2
    = <[k := MkItem k (hashval k) d 0 0 Hash_default]> (items t).
Proof.
  intros [Hwf Hp] Hk. pose proof (add_ok hashval key_data t now k d 0 Hash_default Hwf) as Ha.
  destruct (Add _ _ _ _ _ _ _ t) as [r t']. rewrite Hk in Ha. destruct Ha as (Hwf' & _ & Hi).
  cbn [snd]. split; [|exact Hi]. split; [done|]. intros k' it. rewrite Hi.
  intros [[<- <-]|[_ H]]%lookup_insert_Some; [done|by apply (Hp k')].
Qed.

Lemma permanent_del k t : permanent t -> is_Some (items t !! k) ->
  (Del hashval k t).1 = 0 /\ permanent (Del hashval k t).2 /\
  items (Del hashval k t).2 = delete k (items t).
Proof.
  intros [Hwf Hp] [it Hk]. pose proof (del_ok hashval t k Hwf) as Hd. rewrite Hk in Hd.
  destruct Hd as (t' & -> & Hwf' & Hi). destruct (Hp k it Hk) as [_ Hc].
  rewrite Hc in Hi. cbn in Hi. cbn [fst snd]. split; [done|]. split; [|done].
  split; [done|]. intros k' it'. rewrite Hi. intros [_ H]%lookup_delete_Some. by apply (Hp k').
Qed.

Lemma permanent_num t : permanent t -> hashnum t = 0 <-> it_data <$> items t = ∅.
Proof.
  intros [Hwf _]. rewrite fmap_empty_iff, (wf_num _ t Hwf). split.
  - intros H. apply zlen_zero_nil in H. unfold items. by rewrite H.
  - intros H. destruct (contents t) as [|it l] eqn:E; [done|].
    assert (items t !! it_key it = Some it) as Hi.
    { apply items_lookup; [apply (wf_nodup _ t Hwf)|]. rewrite E. split; [by left|done]. }
    by rewrite H, lookup_empty in Hi.
Qed.

#[export] Instance OucHash_table : KeyTable (Hash V) V.
Proof.
  refine {|
    kt_wf := permanent;
    kt_map t := it_data <$> items t;
    kt_empty := XrdOucHash 89 144 80;
    kt_find now k t := let '(r, _, t') := Find hashval now k t in (r, t');
    kt_add now k v t := (Add hashval key_data now k v 0 Hash_default t).2;
    kt_del k t := Del hashval k t;
    kt_num t := hashnum t |}.
  - destruct (XrdOucHash_wf (V:=V) hashval 89 144 80) as [Hwf Hi]; [lia|lia|].
    split; [|by rewrite Hi, fmap_empty]. split; [done|]. intros k it. by rewrite Hi, lookup_empty.
  - intros now k t Ht. destruct (permanent_find now k t Ht) as [H1 H2].
    rewrite lookup_fmap. destruct (Find hashval now k t) as [[r ti] t'].
    cbn in H1, H2. subst. done.
  - intros now k v t Ht Hk. rewrite lookup_fmap in Hk. apply fmap_None in Hk.
    destruct (permanent_add now k v t Ht Hk) as [Hp Hi]. split; [done|].
    by rewrite Hi, fmap_insert.
  - apply permanent_num.
  - intros k t Ht [v Hk]. rewrite lookup_fmap in Hk. apply fmap_Some in Hk as (it & Hk & _).
    destruct (permanent_del k t Ht) as (H1 & H2 & H3); [by exists it|].
    split; [done|]. split; [done|]. by rewrite H3, fmap_delete.
Defined.
End instance.
