(* ===== verification/FileLock.v ===== *)
(** * The open-file lock table

    Models src/src/XrdXrootd/XrdXrootdFileLock1.cc. The table maps a path to the
    address of an [XrdXrootdFileLockInfo], which the routines change in place, so
    the model keeps a heap of them. The table itself is any [KeyTable]; every
    routine runs under one mutex, so it is one step. *)

From Stdlib Require Import Strings.String.
From stdpp Require Import base tactics list_numbers numbers option gmap list.
From S2P Require Import Prelude CString OucHash KeyTable.

(** [XrdXrootdFileLockInfo] *)
Record LockInfo := MkLockInfo { numReaders : Z; numWriters : Z }.

(** Its constructor; [114] is ['r']. *)
Definition LockInfo_new (mode : Z) : LockInfo :=
  if mode =? 114 then MkLockInfo 1 0 else MkLockInfo 0 1.

Section filelock.
Context {T : Type} `{!KeyTable T Z}.

(** [XrdXrootdLockTable] and the objects its entries point to. *)
Record LockState := MkLockState { lk_table : T; lk_heap : gmap Z LockInfo }.

Definition FileLock_init : LockState := MkLockState kt_empty ∅.

(** [Lock( path, mode, force )]: the return code and the state. *)
Definition Lock (now : Z) (path : bytes) (mode : Z) (force : bool) (s : LockState)
  : res (Z * LockState) :=
  let '(lp, tab) := kt_find now path (lk_table s) in
  let s := MkLockState tab (lk_heap s) in
  match lp with
  | Some lp =>
      match lk_heap s !! lp with
      | None => Fault
      | Some i =>
          if mode =? 114 then
            if negb (numWriters i =? 0) && negb force then Ok (- numWriters i, s)
            else Ok (0, MkLockState tab
                          (<[lp := MkLockInfo (numReaders i + 1) (numWriters i)]> (lk_heap s)))
          else
            if (negb (numReaders i =? 0) || negb (numWriters i =? 0)) && negb force
            then Ok (if negb (numWriters i =? 0) then - numWriters i else numReaders i, s)
            else Ok (0, MkLockState tab
                          (<[lp := MkLockInfo (numReaders i) (numWriters i + 1)]> (lk_heap s)))
      end
  | None =>
      let lp := fresh (dom (lk_heap s)) in
      Ok (0, MkLockState (kt_add now path lp tab) (<[lp := LockInfo_new mode]> (lk_heap s)))
  end.

(** [numLocks( path, rcnt, wcnt )] *)
Definition numLocks (now : Z) (path : bytes) (s : LockState) : res (Z * Z * LockState) :=
  let '(lp, tab) := kt_find now path (lk_table s) in
  let s := MkLockState tab (lk_heap s) in
  match lp with
  | None => Ok (0, 0, s)
  | Some lp =>
      match lk_heap s !! lp with
      | None => Fault
      | Some i => Ok (numReaders i, numWriters i, s)
      end
  end.

(** [Unlock( path, mode )]; deleting the entry deletes the object too. *)
Definition Unlock (now : Z) (path : bytes) (mode : Z) (s : LockState)
  : res (Z * LockState) :=
  let '(lp, tab) := kt_find now path (lk_table s) in
  let s := MkLockState tab (lk_heap s) in
  match lp with
  | None => Ok (1, s)
  | Some lp =>
      match lk_heap s !! lp with
      | None => Fault
      | Some i =>
          if (if mode =? 114 then numReaders i else numWriters i) =? 0 then Ok (1, s)
          else
            let i := if mode =? 114 then MkLockInfo (numReaders i - 1) (numWriters i)
                     else MkLockInfo (numReaders i) (numWriters i - 1) in
            if (numReaders i =? 0) && (numWriters i =? 0)
            then Ok (0, MkLockState (kt_del path tab).2 (delete lp (lk_heap s)))
            else Ok (0, MkLockState tab (<[lp := i]> (lk_heap s)))
      end
  end.

(** ** The abstract lock table *)

Abbreviation locks := (gmap (list Z) LockInfo).

Definition free : LockInfo := MkLockInfo 0 0.

Definition lock_spec (path : bytes) (mode : Z) (force : bool) (m : locks) : Z * locks :=
  match m !! path with
  | None => (0, <[path := LockInfo_new mode]> m)
  | Some i =>
      if mode =? 114 then
        if negb (numWriters i =? 0) && negb force then (- numWriters i, m)
        else (0, <[path := MkLockInfo (numReaders i + 1) (numWriters i)]> m)
      else
        if (negb (numReaders i =? 0) || negb (numWriters i =? 0)) && negb force
        then (if negb (numWriters i =? 0) then - numWriters i else numReaders i, m)
        else (0, <[path := MkLockInfo (numReaders i) (numWriters i + 1)]> m)
  end.

Definition unlock_spec (path : bytes) (mode : Z) (m : locks) : Z * locks :=
  match m !! path with
  | None => (1, m)
  | Some i =>
      if (if mode =? 114 then numReaders i else numWriters i) =? 0 then (1, m)
      else
        let i := if mode =? 114 then MkLockInfo (numReaders i - 1) (numWriters i)
                 else MkLockInfo (numReaders i) (numWriters i - 1) in
        if (numReaders i =? 0) && (numWriters i =? 0) then (0, delete path m)
        else (0, <[path := i]> m)
  end.

(** The state represents the abstract table: every entry points to an object of
    its own, and every object is pointed to. *)
Record represents (s : LockState) (m : locks) : Prop := {
  rp_wf : kt_wf (lk_table s);
  rp_some : forall path lp, kt_map (lk_table s) !! path = Some lp ->
    exists i, lk_heap s !! lp = Some i /\ m !! path = Some i;
  rp_none : forall path, kt_map (lk_table s) !! path = None -> m !! path = None;
  rp_inj : forall p q lp, kt_map (lk_table s) !! p = Some lp ->
    kt_map (lk_table s) !! q = Some lp -> p = q }.

Lemma represents_find s m now path :
  represents s m ->
  exists tab, kt_find now path (lk_table s) = (kt_map (lk_table s) !! path, tab) /\
    kt_map tab = kt_map (lk_table s) /\ represents (MkLockState tab (lk_heap s)) m.
Proof.
  intros [H1 H2 H3 H4]. destruct (kt_find_ok now path (lk_table s) H1) as (Hf & Hwf & Hm).
  destruct (kt_find now path (lk_table s)) as [r tab]. cbn in *. subst r. exists tab.
  split; [done|]. split; [done|]. split; cbn; by rewrite ?Hm.
Qed.

(** Changing the object of one path changes that path only. *)
Lemma represents_set s m path lp i :
  represents s m -> kt_map (lk_table s) !! path = Some lp ->
  represents (MkLockState (lk_table s) (<[lp := i]> (lk_heap s))) (<[path := i]> m).
Proof.
  intros [H1 H2 H3 H4] Hlp. split; cbn; [done| | |done].
  - intros p q Hp. destruct (decide (p = path)) as [->|Hne].
    + rewrite Hlp in Hp. injection Hp as <-. exists i. by rewrite !lookup_insert_eq.
    + destruct (decide (q = lp)) as [->|]; [by destruct Hne; apply (H4 p path lp)|].
      destruct (H2 p q Hp) as (j & ? & ?). exists j. by rewrite !lookup_insert_ne.
  - intros p Hp. destruct (decide (p = path)) as [->|]; [congruence|].
    rewrite lookup_insert_ne by done. by apply H3.
Qed.

Lemma represents_add s m now path i :
  represents s m -> kt_map (lk_table s) !! path = None ->
  represents
    (MkLockState (kt_add now path (fresh (dom (lk_heap s))) (lk_table s))
       (<[fresh (dom (lk_heap s)) := i]> (lk_heap s)))
    (<[path := i]> m).
Proof.
  intros [H1 H2 H3 H4] Hno. set (lp := fresh (dom (lk_heap s))).
  assert (lk_heap s !! lp = None) as Hfresh
    by (apply not_elem_of_dom; unfold lp; apply is_fresh).
  destruct (kt_add_ok now path lp (lk_table s) H1 Hno) as [Hwf Hm].
  assert (forall p, kt_map (lk_table s) !! p <> Some lp) as Hnew.
  { intros p Hp. destruct (H2 p lp Hp) as (j & Hj & _). congruence. }
  split; cbn [lk_table lk_heap]; rewrite ?Hm; [done| | |].
  - intros p q [[<- <-]|[Hne Hp]]%lookup_insert_Some.
    + exists i. by rewrite !lookup_insert_eq.
    + destruct (H2 p q Hp) as (j & Hj & ?). exists j.
      rewrite !lookup_insert_ne by (done || congruence). done.
  - intros p [Hp Hne]%lookup_insert_None. rewrite lookup_insert_ne by done. by apply H3.
  - intros p q l [[<- <-]|[Hn1 Hp]]%lookup_insert_Some
      [[<- Hl]|[Hn2 Hq]]%lookup_insert_Some; [done| | |by apply (H4 p q l)].
    + by apply Hnew in Hq.
    + subst l. by apply Hnew in Hp.
Qed.

Lemma represents_del s m path lp :
  represents s m -> kt_map (lk_table s) !! path = Some lp ->
  represents (MkLockState (kt_del path (lk_table s)).2 (delete lp (lk_heap s))) (delete path m).
Proof.
  intros [H1 H2 H3 H4] Hlp. destruct (kt_del_ok path (lk_table s) H1) as (_ & Hwf & Hm); [by exists lp|].
  split; cbn [lk_table lk_heap]; rewrite ?Hm; [done| | |].
  - intros p q [Hne Hp]%lookup_delete_Some. destruct (H2 p q Hp) as (j & Hj & ?). exists j.
    assert (q <> lp) by (intros ->; by apply Hne; apply (H4 path p lp)).
    by rewrite !lookup_delete_ne.
  - intros p [->|Hp]%lookup_delete_None; [apply lookup_delete_eq|].
    destruct (decide (p = path)) as [->|]; [apply lookup_delete_eq|].
    rewrite lookup_delete_ne by done. by apply H3.
  - intros p q l [_ Hp]%lookup_delete_Some [_ Hq]%lookup_delete_Some. by apply (H4 p q l).
Qed.

Lemma init_represents : represents FileLock_init ∅.
Proof.
  destruct kt_empty_ok as [Hwf Hm]. split; cbn; rewrite ?Hm; try done.
Qed.

Lemma Lock_ok s m now path mode force :
  represents s m ->
  exists s', Lock now path mode force s = Ok ((lock_spec path mode force m).1, s') /\
    represents s' (lock_spec path mode force m).2.
Proof.
  intros H. destruct (represents_find s m now path H) as (tab & Hf & Hm & H').
  unfold Lock, lock_spec. rewrite Hf. cbn [lk_heap]. rewrite <- Hm.
  destruct (kt_map tab !! path) as [lp|] eqn:E.
  - destruct (rp_some _ _ H' path lp E) as (i & Hi & Hmi). cbn in Hi. rewrite Hi, Hmi.
    repeat case_match; eexists; (split; [reflexivity|]); try exact H';
      by apply (represents_set (MkLockState tab (lk_heap s))).
  - rewrite (rp_none _ _ H' path E). eexists. split; [reflexivity|].
    by apply (represents_add (MkLockState tab (lk_heap s))).
Qed.

Lemma Unlock_ok s m now path mode :
  represents s m ->
  exists s', Unlock now path mode s = Ok ((unlock_spec path mode m).1, s') /\
    represents s' (unlock_spec path mode m).2.
Proof.
  intros H. destruct (represents_find s m now path H) as (tab & Hf & Hm & H').
  unfold Unlock, unlock_spec. rewrite Hf. cbn [lk_heap]. rewrite <- Hm.
  destruct (kt_map tab !! path) as [lp|] eqn:E.
  - destruct (rp_some _ _ H' path lp E) as (i & Hi & Hmi). cbn in Hi. rewrite Hi, Hmi.
    cbv zeta. set (j := if mode =? 114 then MkLockInfo (numReaders i - 1) _ else _).
    destruct ((if mode =? 114 then numReaders i else numWriters i) =? 0); [by eexists|].
    destruct ((numReaders j =? 0) && (numWriters j =? 0));
      eexists; (split; [reflexivity|]).
    + by apply (represents_del (MkLockState tab (lk_heap s))).
    + by apply (represents_set (MkLockState tab (lk_heap s))).
  - rewrite (rp_none _ _ H' path E). by eexists.
Qed.

Lemma numLocks_ok s m now path :
  represents s m ->
  let i := default free (m !! path) in
  exists s', numLocks now path s = Ok (numReaders i, numWriters i, s') /\ represents s' m.
Proof.
  intros H i. destruct (represents_find s m now path H) as (tab & Hf & Hm & H').
  unfold numLocks. rewrite Hf. cbn [lk_heap]. rewrite <- Hm. unfold i.
  destruct (kt_map tab !! path) as [lp|] eqn:E.
  - destruct (rp_some _ _ H' path lp E) as (j & Hj & Hmj). cbn in Hj. rewrite Hj, Hmj. by eexists.
  - rewrite (rp_none _ _ H' path E). by eexists.
Qed.

(** C31: Over any table that keeps the key table contract, Lock, Unlock and
    numLocks implement the abstract lock table that maps a path to its numbers
    of readers and writers, with the same return codes and without touching a
    lock object that is not the path's. *)
Theorem FileLock_refines s m now path mode force :
  represents s m ->
  (exists s', Lock now path mode force s = Ok ((lock_spec path mode force m).1, s') /\
     represents s' (lock_spec path mode force m).2) /\
  (exists s', Unlock now path mode s = Ok ((unlock_spec path mode m).1, s') /\
     represents s' (unlock_spec path mode m).2) /\
  (exists s', numLocks now path s = Ok (numReaders (default free (m !! path)),
                                       numWriters (default free (m !! path)), s') /\
     represents s' m).
Proof.
  intros H. split; [by apply Lock_ok|]. split; [by apply Unlock_ok|]. by apply numLocks_ok.
Qed.

(** The states reached from the empty table without [force]. *)
Inductive lock_run : LockState -> Prop :=
  | run_init : lock_run FileLock_init
  | run_lock s now path mode rc s' :
      lock_run s -> Lock now path mode false s = Ok (rc, s') -> lock_run s'
  | run_unlock s now path mode rc s' :
      lock_run s -> Unlock now path mode s = Ok (rc, s') -> lock_run s'.

(** One writer, or readers only. *)
Definition exclusive (i : LockInfo) : Prop :=
  numWriters i = 0 /\ 0 < numReaders i \/ numWriters i = 1 /\ numReaders i = 0.

Definition all_exclusive (m : locks) : Prop :=
  forall path i, m !! path = Some i -> exclusive i.

Lemma lock_spec_exclusive path mode m :
  all_exclusive m -> all_exclusive (lock_spec path mode false m).2.
Proof.
  intros H. unfold lock_spec. destruct (m !! path) as [i|] eqn:E.
  - pose proof (H path i E) as Hi. unfold exclusive in Hi.
    rewrite !andb_true_r. destruct (mode =? 114).
    + destruct (Z.eqb_spec (numWriters i) 0); cbn [negb snd]; [|done].
      intros p j [[<- <-]|[_ Hj]]%lookup_insert_Some; [left; cbn; lia|by apply (H p)].
    + destruct (Z.eqb_spec (numReaders i) 0), (Z.eqb_spec (numWriters i) 0); cbn [negb orb snd];
        try done. lia.
  - cbn [snd]. intros p j [[<- <-]|[_ Hj]]%lookup_insert_Some; [|by apply (H p)].
    unfold LockInfo_new, exclusive. case_match; cbn; lia.
Qed.

Lemma unlock_spec_exclusive path mode m :
  all_exclusive m -> all_exclusive (unlock_spec path mode m).2.
Proof.
  intros H. unfold unlock_spec. destruct (m !! path) as [i|] eqn:E; [|done].
  pose proof (H path i E) as Hi. unfold exclusive in Hi.
  destruct (mode =? 114); cbn [numReaders numWriters];
    repeat match goal with |- context [Z.eqb ?a ?b] => destruct (Z.eqb_spec a b) end;
    cbn [andb snd]; try done; try lia;
    intros p j; try (intros [_ Hj]%lookup_delete_Some; by apply (H p));
    (intros [[<- <-]|[_ Hj]]%lookup_insert_Some; [unfold exclusive; cbn; lia|by apply (H p)]).
Qed.

(** In every state reached from the empty table by Lock without force and
    Unlock, in any order and for any paths, a locked path has either readers
    only or exactly one writer. *)
Theorem FileLock_exclusive s :
  lock_run s ->
  exists m, represents s m /\ all_exclusive m.
Proof.
  induction 1 as [|s now path mode rc s' _ (m & Hr & He) HL|s now path mode rc s' _ (m & Hr & He) HU].
  - exists ∅. split; [apply init_represents|]. intros path i. by rewrite lookup_empty.
  - destruct (Lock_ok s m now path mode false Hr) as (s1 & HL' & Hr'). rewrite HL in HL'.
    injection HL' as _ <-. eexists. split; [exact Hr'|]. by apply lock_spec_exclusive.
  - destruct (Unlock_ok s m now path mode Hr) as (s1 & HU' & Hr'). rewrite HU in HU'.
    injection HU' as _ <-. eexists. split; [exact Hr'|]. by apply unlock_spec_exclusive.
Qed.

(** An entry that stands for at least one lock. *)
Definition held (i : LockInfo) : Prop :=
  0 <= numReaders i /\ 0 <= numWriters i /\ 0 < numReaders i + numWriters i.

(** An Unlock right after a successful Lock of the same path and mode
    succeeds and restores the lock table. *)
Theorem Lock_Unlock s m now path mode force s' :
  represents s m -> (forall i, m !! path = Some i -> held i) ->
  Lock now path mode force s = Ok (0, s') ->
  exists s'', Unlock now path mode s' = Ok (0, s'') /\ represents s'' m.
Proof.
  intros Hr Hheld HL. destruct (Lock_ok s m now path mode force Hr) as (s1 & HL' & Hr').
  rewrite HL in HL'. injection HL' as Hrc <-.
  destruct (Unlock_ok s' _ now path mode Hr') as (s2 & HU & Hr2).
  assert (unlock_spec path mode (lock_spec path mode force m).2 = (0, m)) as E;
    [|rewrite E in *; by exists s2].
  clear -Hheld Hrc. unfold lock_spec in *. destruct (m !! path) as [[r w]|] eqn:E.
  - specialize (Hheld _ eq_refl). unfold held in Hheld. cbn [numReaders numWriters] in *.
    unfold unlock_spec. destruct (mode =? 114).
    + destruct (negb (w =? 0) && negb force) eqn:Eb; cbn [fst snd] in *.
      * apply andb_true_iff in Eb as [Ew _]. destruct (Z.eqb_spec w 0); [done|lia].
      * rewrite lookup_insert_eq. cbn [numReaders numWriters].
        repeat match goal with |- context [Z.eqb ?a ?b] => destruct (Z.eqb_spec a b) end;
          cbn [andb]; try lia; f_equal; rewrite insert_insert_eq; apply insert_id; rewrite E; do 2 f_equal; lia.
    + destruct ((negb (r =? 0) || negb (w =? 0)) && negb force) eqn:Eb; cbn [fst snd] in *.
      * apply andb_true_iff in Eb as [Ew _].
        destruct (Z.eqb_spec w 0), (Z.eqb_spec r 0); cbn in *; try done; lia.
      * rewrite lookup_insert_eq. cbn [numReaders numWriters].
        repeat match goal with |- context [Z.eqb ?a ?b] => destruct (Z.eqb_spec a b) end;
          cbn [andb]; try lia; f_equal; rewrite insert_insert_eq; apply insert_id; rewrite E; do 2 f_equal; lia.
  - cbn [snd]. unfold unlock_spec, LockInfo_new. rewrite lookup_insert_eq.
    destruct (mode =? 114); cbn; by rewrite delete_insert_id.
Qed.
End filelock.

(** ** The lock table over [XrdOucHash] *)

Section sample.
Instance sample_table : KeyTable (Hash Z) Z := OucHash_table XrdOucHashVal (fun _ => 0).

Definition sample_locked : LockState (T := Hash Z) :=
  match Lock 0 (str "/data/file") 114 false FileLock_init with
  | Ok (_, s) => s
  | _ => FileLock_init
  end.

Lemma sample_locked_run : lock_run sample_locked.
Proof.
  destruct (Lock_ok FileLock_init ∅ 0 (str "/data/file") 114 false init_represents) as (s & HL & _).
  unfold sample_locked. rewrite HL. eapply run_lock; [apply run_init|exact HL].
Qed.

Lemma FileLock_refines_witness :
  exists s', Lock 0 (str "/a") 119 false (FileLock_init (T := Hash Z)) = Ok (0, s') /\
    represents s' {[ str "/a" := MkLockInfo 0 1 ]}.
Proof.
  destruct (FileLock_refines FileLock_init ∅ 0 (str "/a") 119 false init_represents)
    as ((s' & HL & Hr) & _).
  exists s'. split; [exact HL|exact Hr].
Defined.

Lemma FileLock_exclusive_witness :
  exists m, represents sample_locked m /\ all_exclusive m.
Proof. exact (FileLock_exclusive sample_locked sample_locked_run). Defined.

Lemma Lock_Unlock_witness :
  exists s'', Unlock 0 (str "/data/file") 114 sample_locked = Ok (0, s'') /\ represents s'' ∅.
Proof.
  apply (Lock_Unlock FileLock_init ∅ 0 (str "/data/file") 114 false sample_locked init_represents).
  - intros i. by rewrite lookup_empty.
  - destruct (Lock_ok FileLock_init ∅ 0 (str "/data/file") 114 false init_represents) as (s & HL & _).
    unfold sample_locked. rewrite HL. reflexivity.
Defined.
End sample.
