(* ===== verification/AccCaps.v ===== *)
(** * Privileges and capabilities of the authorization database

    Models src/src/XrdAcc/XrdAccPrivs.hh, XrdAccCapability.hh and
    XrdAccCapability.cc, and the privilege letters of XrdAccConfig.cc. A chain
    of capabilities is the object and what its [next] points to; a template
    capability points to another chain. *)

From Stdlib Require Import Strings.String.
From stdpp Require Import base tactics list_numbers numbers option gmap list.
From S2P Require Import Prelude CString OucHash.

#[local] Set Warnings "-register-all".

(** ** Privileges *)

Definition XrdAccPriv_All := 0x1ff.
Definition XrdAccPriv_Chmod := 0x063.
Definition XrdAccPriv_Chown := 0x063.
Definition XrdAccPriv_Create := 0x062.
Definition XrdAccPriv_Delete := 0x001.
Definition XrdAccPriv_Insert := 0x002.
Definition XrdAccPriv_Lock := 0x004.
Definition XrdAccPriv_Mkdir := 0x002.
Definition XrdAccPriv_Lookup := 0x008.
Definition XrdAccPriv_Rename := 0x010.
Definition XrdAccPriv_Read := 0x020.
Definition XrdAccPriv_Readdir := 0x020.
Definition XrdAccPriv_Write := 0x040.
Definition XrdAccPriv_Update := 0x060.
Definition XrdAccPriv_Stage := 0x180.
Definition XrdAccPriv_Poll := 0x100.
Definition XrdAccPriv_None := 0x000.

(** [XrdAccPrivCaps]: positive and negative privileges. *)
Record XrdAccPrivCaps := MkPrivCaps { pprivs : Z; nprivs : Z }.

Definition PrivCaps_none : XrdAccPrivCaps := MkPrivCaps XrdAccPriv_None XrdAccPriv_None.

Definition privs_or (a b : XrdAccPrivCaps) : XrdAccPrivCaps :=
  MkPrivCaps (Z.lor (pprivs a) (pprivs b)) (Z.lor (nprivs a) (nprivs b)).

(** [XrdAccPrivSpec]: the mask of a privilege letter. *)
Definition priv_of_letter (c : Z) : option Z :=
  if c =? 97 then Some XrdAccPriv_All
  else if c =? 100 then Some XrdAccPriv_Delete
  else if c =? 105 then Some XrdAccPriv_Insert
  else if c =? 107 then Some XrdAccPriv_Lock
  else if c =? 108 then Some XrdAccPriv_Lookup
  else if c =? 110 then Some XrdAccPriv_Rename
  else if c =? 114 then Some XrdAccPriv_Read
  else if c =? 119 then Some XrdAccPriv_Write
  else None.

(** The loop of [PrivsConvert]: [neg] is the index [i], [pos] and [negs] are
    [ptab]. *)
Fixpoint PrivsConvert_loop (privs : bytes) (neg : bool) (ptab : XrdAccPrivCaps)
  : option XrdAccPrivCaps :=
  match privs with
  | [] => Some ptab
  | c :: privs =>
      match priv_of_letter c with
      | Some m =>
          PrivsConvert_loop privs neg
            (if neg then MkPrivCaps (pprivs ptab) (Z.lor (nprivs ptab) m)
             else MkPrivCaps (Z.lor (pprivs ptab) m) (nprivs ptab))
      | None =>
          if c =? 45 then (if neg then None else PrivsConvert_loop privs true ptab) else None
      end
  end.

(** [PrivsConvert( privs, ctab )]: the converted pair, or nothing for 0. *)
Definition PrivsConvert (privs : bytes) : option XrdAccPrivCaps :=
  PrivsConvert_loop privs false PrivCaps_none.

(** ** Capabilities *)

(** [XrdAccCapability]: with [ctmp] null, or a reference to a template. *)
Inductive XrdAccCapability : Type :=
  | Cap_path (next : option XrdAccCapability) (priv : XrdAccPrivCaps)
             (pkey : Z) (path : bytes) (pins prem : Z)
  | Cap_tmpl (next : option XrdAccCapability) (ctmp : XrdAccCapability).

(** The scan for ["@="] in the constructor, from index [i]. *)
Fixpoint find_insertion (i : Z) (path : bytes) : option Z :=
  match path with
  | c :: path' =>
      match path' with
      | d :: _ => if (c =? 64) && (d =? 61) then Some i else find_insertion (i + 1) path'
      | [] => None
      end
  | [] => None
  end.

(** [XrdAccCapability( pathval, privval )] *)
Definition Capability_path (pathval : bytes) (privval : XrdAccPrivCaps) : XrdAccCapability :=
  let plen := zlen pathval in
  let '(pins, prem) :=
    match find_insertion 0 pathval with Some i => (i, plen - i - 2) | None => (0, 0) end in
  Cap_path None privval (XrdOucHashVal2 pathval plen) pathval pins prem.

(** [XrdAccCapability( taddr )] *)
Definition Capability_tmpl (taddr : XrdAccCapability) : XrdAccCapability := Cap_tmpl None taddr.

(** [lastcap->Add( newcap )] where [lastcap] is the end of the chain [cp]. *)
Fixpoint Cap_Add (cp newcap : XrdAccCapability) : XrdAccCapability :=
  match cp with
  | Cap_path next priv pkey path pins prem =>
      Cap_path (Some match next with Some n => Cap_Add n newcap | None => newcap end)
        priv pkey path pins prem
  | Cap_tmpl next ctmp =>
      Cap_tmpl (Some match next with Some n => Cap_Add n newcap | None => newcap end) ctmp
  end.

(** [Subcomp( pathname, pathlen, pathsub, sublen )] of the capability with the
    given [path], [pins] and [prem]. *)
Definition Subcomp (path : bytes) (pins prem : Z) (pathname pathsub : bytes) : bool :=
  if negb (strneq pathname path pins) then false
  else if negb (strneq (adv pins pathname) pathsub (zlen pathsub)) then false
  else
    let ncmp := pins + zlen pathsub in
    if zlen pathname - ncmp <? prem then false
    else if negb (prem =? 0) then strneq (adv (pins + 2) path) (adv ncmp pathname) prem
    else true.

Section privs.
Context (pathname : bytes) (pathsub : option bytes).

(** The test of one path capability in [Privs]. *)
Definition cap_matches (path : bytes) (pins prem : Z) : bool :=
  (zlen path <=? zlen pathname) &&
  match pathsub with
  | None => strneq pathname path (zlen path)
  | Some sub => Subcomp path pins prem pathname sub
  end.

(** [cp->Privs( pathpriv, pathname, ... )]: whether it returned 1, and the
    privileges. *)
Fixpoint Privs (cp : XrdAccCapability) (pathpriv : XrdAccPrivCaps) : bool * XrdAccPrivCaps :=
  match cp with
  | Cap_tmpl next ctmp =>
      let '(found, pathpriv) := Privs ctmp pathpriv in
      if found then (true, pathpriv)
      else match next with Some n => Privs n pathpriv | None => (false, pathpriv) end
  | Cap_path next priv _ path pins prem =>
      if cap_matches path pins prem then (true, privs_or pathpriv priv)
      else match next with Some n => Privs n pathpriv | None => (false, pathpriv) end
  end.
End privs.

(** ** Capability names *)

(** [XrdAccCapName]; a chain of them is a list, in which [Add] appends. *)
Record XrdAccCapName := MkCapName { CapName : bytes; CNlen : Z; C_List : XrdAccCapability }.

Definition CapName_new (name : bytes) (cap : XrdAccCapability) : XrdAccCapName :=
  MkCapName name (zlen name) cap.

(** [XrdAccCapName::Find( name )]: the first entry whose name ends [name]. *)
Fixpoint CapName_Find (ncp : list XrdAccCapName) (name : bytes) : option XrdAccCapability :=
  match ncp with
  | [] => None
  | n :: ncp =>
      if (CNlen n <=? zlen name) &&
         bool_decide (CapName n = adv (zlen name - CNlen n) name)
      then Some (C_List n)
      else CapName_Find ncp name
  end.

(** ** A chain is its path capabilities in order *)

(** The path capability a leaf of a chain is. *)
Record Leaf := MkLeaf { lf_priv : XrdAccPrivCaps; lf_path : bytes; lf_pins : Z; lf_prem : Z }.

(** The path capabilities of a chain, templates expanded in place. *)
Fixpoint leaves (cp : XrdAccCapability) : list Leaf :=
  match cp with
  | Cap_path next priv _ path pins prem =>
      MkLeaf priv path pins prem :: match next with Some n => leaves n | None => [] end
  | Cap_tmpl next ctmp => leaves ctmp ++ match next with Some n => leaves n | None => [] end
  end.

Definition leaf_matches (pathname : bytes) (pathsub : option bytes) (l : Leaf) : bool :=
  cap_matches pathname pathsub (lf_path l) (lf_pins l) (lf_prem l).

(** The privileges a chain gives for a path: those of the first match. *)
Definition chain_privs (pathname : bytes) (pathsub : option bytes) (cp : XrdAccCapability)
  : option XrdAccPrivCaps :=
  lf_priv <$> List.find (leaf_matches pathname pathsub) (leaves cp).

(** Induction over chains and the templates they refer to. *)
Section cap_induction.
Context (P : XrdAccCapability -> Prop).
Context (Hpath : forall next priv pkey path pins prem,
           (forall n, next = Some n -> P n) -> P (Cap_path next priv pkey path pins prem)).
Context (Htmpl : forall next ctmp,
           P ctmp -> (forall n, next = Some n -> P n) -> P (Cap_tmpl next ctmp)).

Fixpoint cap_ind' (cp : XrdAccCapability) : P cp.
Proof.
  destruct cp as [[n|] priv pkey path pins prem|[n|] ctmp].
  - apply Hpath. intros n' [= <-]. apply cap_ind'.
  - apply Hpath. intros n' H. discriminate H.
  - apply Htmpl; [apply cap_ind'|]. intros n' [= <-]. apply cap_ind'.
  - apply Htmpl; [apply cap_ind'|]. intros n' H. discriminate H.
Defined.
End cap_induction.

Lemma find_app {A} (f : A -> bool) l k :
  List.find f (l ++ k) = match List.find f l with Some x => Some x | None => List.find f k end.
Proof. induction l as [|x l IH]; cbn; [done|]. by destruct (f x). Qed.

Lemma privs_ok pathname pathsub cp : forall pp,
  Privs pathname pathsub cp pp =
    match chain_privs pathname pathsub cp with
    | Some p => (true, privs_or pp p)
    | None => (false, pp)
    end.
Proof.
  unfold chain_privs. induction cp as [next priv pkey path pins prem IH|next ctmp IHt IH]
    using cap_ind'; intros pp; cbn [Privs leaves].
  - cbn [List.find]. unfold leaf_matches at 1. cbn [lf_path lf_pins lf_prem].
    destruct (cap_matches pathname pathsub path pins prem); [done|].
    destruct next as [n|]; [|done]. by apply IH.
  - rewrite IHt, find_app.
    destruct (List.find _ (leaves ctmp)) as [l|]; [done|]. cbn [fmap option_fmap option_map].
    destruct next as [n|]; [|done]. by apply IH.
Qed.

Lemma leaves_Cap_Add cp new : leaves (Cap_Add cp new) = leaves cp ++ leaves new.
Proof.
  induction cp as [next priv pkey path pins prem IH|next ctmp IHt IH] using cap_ind'; cbn.
  - f_equal. destruct next as [n|]; [by apply IH|done].
  - rewrite <- app_assoc. f_equal. destruct next as [n|]; [by apply IH|done].
Qed.

(** The search of a chain, through templates of templates and along next,
    adds exactly the privileges of the first path capability that matches, in
    the order of the chain with templates expanded in place. *)
Theorem Privs_first_match pathname pathsub cp pathpriv :
  Privs pathname pathsub cp pathpriv =
    match List.find (leaf_matches pathname pathsub) (leaves cp) with
    | Some l => (true, privs_or pathpriv (lf_priv l))
    | None => (false, pathpriv)
    end.
Proof. rewrite privs_ok. unfold chain_privs. by destruct (List.find _ _). Qed.

(** ** Matching *)

Lemma find_insertion_split path : forall i j,
  find_insertion i path = Some j ->
  i <= j /\ exists pre post, path = pre ++ [64; 61] ++ post /\ zlen pre = j - i.
Proof.
  induction path as [|c path IH]; intros i j; cbn [find_insertion]; [done|].
  destruct path as [|d path']; [done|].
  destruct ((c =? 64) && (d =? 61)) eqn:E.
  - apply andb_true_iff in E as [->%Z.eqb_eq ->%Z.eqb_eq]. intros [= <-].
    split; [lia|]. exists [], path'. split; [done|]. rewrite zlen_nil. lia.
  - intros H. apply IH in H as (Hle & pre & post & Heq & Hl). split; [lia|].
    exists (c :: pre), post. rewrite Heq. split; [done|]. rewrite zlen_cons. lia.
Qed.

Lemma zlen_cat (a b : bytes) : zlen (a ++ b) = zlen a + zlen b.
Proof. apply zlen_app. Qed.

Lemma take_adv n (a b : bytes) : n = zlen a -> take (Z.to_nat n) (a ++ b) = a.
Proof. intros ->. unfold zlen. rewrite Nat2Z.id. apply take_app_length. Qed.

(** [Subcomp] with the insertion point where ["@="] stands. *)
Lemma Subcomp_insertion pre post user pathname :
  2 + zlen pre + zlen post <= zlen pathname ->
  Subcomp (pre ++ [64; 61] ++ post) (zlen pre) (zlen post) pathname user = true <->
  exists rest, pathname = pre ++ user ++ post ++ rest.
Proof.
  intros Hlen. unfold Subcomp.
  assert (strneq pathname (pre ++ [64; 61] ++ post) (zlen pre) = strneq pathname pre (zlen pre)) as ->.
  { unfold strneq. rewrite (take_adv _ pre), (take_ge pre); [done| |done]. unfold zlen. lia. }
  destruct (strneq pathname pre (zlen pre)) eqn:E1; cbn [negb];
    [apply strneq_prefix in E1 as [p1 ->]
    |split; [done|]; intros [rest Hr]; rewrite Hr in E1;
     rewrite (proj2 (strneq_prefix _ _)) in E1; [done|eauto]].
  rewrite adv_app_exact by done.
  destruct (strneq p1 user (zlen user)) eqn:E2; cbn [negb];
    [apply strneq_prefix in E2 as [p2 ->]
    |split; [done|]; intros [rest Hr]; apply app_inv_head in Hr; rewrite Hr in E2;
     rewrite (proj2 (strneq_prefix _ _)) in E2; [done|eauto]].
  replace (adv (zlen pre + 2) (pre ++ [64; 61] ++ post)) with post
    by (by rewrite app_assoc, adv_app_exact by (rewrite zlen_app; done)).
  replace (adv (zlen pre + zlen user) (pre ++ user ++ p2)) with p2
    by (by rewrite app_assoc, adv_app_exact by (rewrite zlen_app; done)).
  rewrite !zlen_app. pose proof (zlen_nonneg post).
  destruct (Z.ltb_spec (zlen pre + (zlen user + zlen p2) - (zlen pre + zlen user)) (zlen post)).
  { split; [done|]. intros [rest Hr]. apply app_inv_head, app_inv_head in Hr. subst p2.
    rewrite zlen_app in *. pose proof (zlen_nonneg rest). lia. }
  destruct (Z.eqb_spec (zlen post) 0) as [Hz|Hz]; cbn [negb].
  { apply zlen_zero_nil in Hz. subst post. split; [|done]. intros _. by exists p2. }
  assert (strneq post p2 (zlen post) = strneq p2 post (zlen post)) as ->
    by (unfold strneq; apply bool_decide_ext; split; congruence).
  rewrite strneq_prefix. split.
  - intros [rest ->]. by exists rest.
  - intros [rest Hr]. apply app_inv_head, app_inv_head in Hr. eauto.
Qed.

Lemma Subcomp_plain path user pathname :
  Subcomp path 0 0 pathname user = true <-> exists rest, pathname = user ++ rest.
Proof.
  unfold Subcomp. rewrite adv_0. unfold strneq at 1. cbn [Z.to_nat].
  rewrite !take_0, bool_decide_true by done. cbn [negb].
  rewrite <- strneq_prefix. destruct (strneq pathname user (zlen user)) eqn:E; [|done].
  apply strneq_prefix in E as [rest ->]. cbn [negb]. rewrite zlen_app.
  pose proof (zlen_nonneg rest).
  destruct (Z.ltb_spec (zlen user + zlen rest - (0 + zlen user)) 0); [lia|done].
Qed.

(** A capability with the insertion mark grants its privileges to a user
    exactly for paths that continue the path with the name put in place of the
    mark and are at least as long as the path with the mark; without a mark,
    for every such path that starts with the user's name. *)
Theorem fungible_capability path priv pathname user pathpriv :
  Privs pathname (Some user) (Capability_path path priv) pathpriv = (true, privs_or pathpriv priv) <->
  zlen path <= zlen pathname /\
  match find_insertion 0 path with
  | Some i => exists rest,
      pathname = take (Z.to_nat i) path ++ user ++ drop (Z.to_nat (i + 2)) path ++ rest
  | None => exists rest, pathname = user ++ rest
  end.
Proof.
  assert (forall b : bool, (if b then (true, privs_or pathpriv priv) else (false, pathpriv)) =
    (true, privs_or pathpriv priv) <-> b = true) as Hif by (intros []; split; congruence).
  unfold Capability_path.
  destruct (find_insertion 0 path) as [i|] eqn:E; cbn [Privs]; rewrite Hif; unfold cap_matches;
    rewrite andb_true_iff, Z.leb_le.
  - apply find_insertion_split in E as (Hi & pre & post & -> & Hpre). rewrite Z.sub_0_r in Hpre.
    subst i. rewrite (take_adv _ pre) by done.
    replace (drop (Z.to_nat (zlen pre + 2)) (pre ++ [64; 61] ++ post)) with post
      by (change (drop (Z.to_nat (zlen pre + 2))) with (@adv (zlen pre + 2));
          by rewrite app_assoc, adv_app_exact by (rewrite zlen_app; done)).
    rewrite !zlen_app. replace (zlen pre + (zlen [64; 61] + zlen post) - zlen pre - 2)
      with (zlen post) by (change (zlen [64; 61]) with 2; lia).
    change (zlen [64; 61]) with 2.
    split; intros [H1 H2]; (split; [done|]); apply (Subcomp_insertion pre post user pathname);
      (lia || done).
  - by rewrite Subcomp_plain.
Qed.

(** ** Privilege letters *)

(** The mask of a string of privilege letters. *)
Fixpoint letters_mask (s : bytes) : option Z :=
  match s with
  | [] => Some 0
  | c :: s => m ← priv_of_letter c; ms ← letters_mask s; Some (Z.lor m ms)
  end.

Lemma convert_loop s : forall neg t,
  Forall (fun c => c <> 45) s ->
  PrivsConvert_loop s neg t =
    (fun m => if neg : bool then MkPrivCaps (pprivs t) (Z.lor (nprivs t) m)
              else MkPrivCaps (Z.lor (pprivs t) m) (nprivs t)) <$> letters_mask s.
Proof.
  induction s as [|c s IH]; intros neg t Hs; cbn [PrivsConvert_loop letters_mask].
  - cbn. destruct neg; by rewrite Z.lor_0_r; destruct t.
  - apply Forall_cons in Hs as [Hc Hs]. destruct (priv_of_letter c) as [m|]; cbn.
    + rewrite IH by done. destruct (letters_mask s) as [ms|]; cbn; [|done].
      destruct neg; cbn; by rewrite Z.lor_assoc.
    + by destruct (Z.eqb_spec c 45).
Qed.

Lemma convert_split p n : forall neg t,
  Forall (fun c => c <> 45) p ->
  PrivsConvert_loop (p ++ 45 :: n) neg t =
    t' ← PrivsConvert_loop p neg t; if neg : bool then None else PrivsConvert_loop n true t'.
Proof.
  induction p as [|c p IH]; intros neg t Hp; cbn [app PrivsConvert_loop]; [by destruct neg|].
  apply Forall_cons in Hp as [Hc Hp]. destruct (priv_of_letter c); [by apply IH|].
  by destruct (Z.eqb_spec c 45).
Qed.

Lemma strchr_split c s : match strchr c s with
  | Some (p, n) => s = p ++ c :: n /\ Forall (fun x => x <> c) p
  | None => Forall (fun x => x <> c) s
  end.
Proof.
  induction s as [|x s IH]; cbn [strchr]; [done|].
  destruct (Z.eqb_spec x c) as [->|Hx]; [done|].
  destruct (strchr c s) as [[p n]|]; [|by constructor].
  destruct IH as [-> IH]. split; [done|by constructor].
Qed.

Lemma mask_no_dash s m : letters_mask s = Some m -> Forall (fun c => c <> 45) s.
Proof.
  revert m. induction s as [|c s IH]; intros m; cbn; [done|].
  destruct (priv_of_letter c) eqn:E; cbn; [|done]. destruct (letters_mask s) as [ms|]; cbn; [|done].
  intros _. constructor; [by intros ->|by eapply IH].
Qed.

Lemma convert_dash s t : ~ Forall (fun c => c <> 45) s ->
  PrivsConvert_loop s true t = None /\ letters_mask s = None.
Proof.
  intros Hs. split.
  - pose proof (strchr_split 45 s) as H. destruct (strchr 45 s) as [[p n]|]; [|done].
    destruct H as [-> Hp]. rewrite convert_split by done. by destruct (PrivsConvert_loop p true t).
  - destruct (letters_mask s) eqn:E; [|done]. by apply mask_no_dash in E.
Qed.

(** A privilege string converts to the masks of the letters before and
    after its first dash, and is refused exactly when another character, or a
    second dash, occurs. *)
Theorem PrivsConvert_spec privs :
  PrivsConvert privs =
    match strchr 45 privs with
    | None => p ← letters_mask privs; Some (MkPrivCaps p 0)
    | Some (pos, neg) =>
        p ← letters_mask pos; n ← letters_mask neg; Some (MkPrivCaps p n)
    end.
Proof.
  unfold PrivsConvert. pose proof (strchr_split 45 privs) as H.
  destruct (strchr 45 privs) as [[pos neg]|].
  - destruct H as [-> Hp]. rewrite convert_split, convert_loop by done.
    destruct (letters_mask pos) as [p|]; cbn; [|done].
    destruct (decide (Forall (fun c => c <> 45) neg)) as [Hn|Hn].
    + rewrite convert_loop by done. by destruct (letters_mask neg).
    + by rewrite (proj1 (convert_dash neg _ Hn)), (proj2 (convert_dash neg PrivCaps_none Hn)).
  - rewrite convert_loop by done. by destruct (letters_mask privs).
Qed.

(** The length test counts the two characters of ["@="], so the home directory
    itself is refused to a user whose name has one letter. *)
Example one_letter_user :
  let cap := Capability_path (str "/home/@=/") (MkPrivCaps XrdAccPriv_All 0) in
  (Privs (str "/home/a/") (Some (str "a")) cap PrivCaps_none).1 = false /\
  (Privs (str "/home/ab/") (Some (str "ab")) cap PrivCaps_none).1 = true.
Proof. vm_compute. done. Qed.
