(* ===== verification/AccEntity.v ===== *)
(** * Entities as the authorization sees them

    Models src/src/XrdOuc/XrdOucTokenizer.cc and src/src/XrdAcc/XrdAccEntity.cc
    and XrdAccEntity.hh. A [char *] into a buffer is the offset it points to
    together with the text there, so that comparing pointers and comparing texts
    are different operations. *)

From Stdlib Require Import Strings.String.
From stdpp Require Import base tactics list_numbers numbers option list.
From S2P Require Import Prelude CString.

Abbreviation ptr := (Z * list Z)%type (only parsing).

(** ** The tokenizer *)

(** [XrdOucTokenizer]: the unread lines (null for no buffer), the last token,
    the unread rest of the line. *)
Record Tokenizer := MkTokenizer {
  tk_buff : option ptr;
  tk_token : option ptr;
  tk_tnext : ptr;
  tk_notabs : bool }.

(** [Attach( bp )] *)
Definition Tok_Attach (bp : option bytes) : Tokenizer :=
  MkTokenizer ((fun b => (0, b)) <$> bp) None (0, []) false.

(** [while( *p && blank( *p ) ) p++] *)
Fixpoint skip_while (blank : Z -> bool) (off : Z) (s : bytes) : ptr :=
  match s with
  | c :: s' => if blank c then skip_while blank (off + 1) s' else (off, s)
  | [] => (off, [])
  end.

(** The characters up to the first one that satisfies [stop], and the rest. *)
Fixpoint span_until (stop : Z -> bool) (s : bytes) : bytes * bytes :=
  match s with
  | c :: s' => if stop c then ([], s) else let '(w, r) := span_until stop s' in (c :: w, r)
  | [] => ([], [])
  end.

Definition isblank (c : Z) : bool := c =? 32.
Definition isblank_tab (c : Z) : bool := (c =? 32) || (c =? 9).

(** [GetLine()]: whether there was a line. *)
Definition Tok_GetLine (tk : Tokenizer) : bool * Tokenizer :=
  match tk_buff tk with
  | None | Some (_, []) => (false, tk)
  | Some (off, buff) =>
      let '(off, bp) := skip_while (if tk_notabs tk then isblank_tab else isblank) off buff in
      let '(line, rest) := span_until (fun c => c =? 10) bp in
      let line := if tk_notabs tk then (fun c => if c =? 9 then 32 else c) <$> line else line in
      let buff :=
        match rest with
        | _ :: rest => (off + zlen line + 1, rest)
        | [] => (off + zlen line, [])
        end in
      (true, MkTokenizer (Some buff) None (off, line) (tk_notabs tk))
  end.

Definition tolower (c : Z) : Z := if (65 <=? c) && (c <=? 90) then c + 32 else c.

(** [GetToken( 0, lowcase )]: the token, or a null pointer. *)
Definition Tok_GetToken (lowcase : bool) (tk : Tokenizer) : option ptr * Tokenizer :=
  let '(off, s) := skip_while isblank (tk_tnext tk).1 (tk_tnext tk).2 in
  match s with
  | [] => (None, MkTokenizer (tk_buff tk) (tk_token tk) (off, []) (tk_notabs tk))
  | _ =>
      let '(w, rest) := span_until isblank s in
      let w := if lowcase then tolower <$> w else w in
      let tnext :=
        match rest with
        | _ :: rest => (off + zlen w + 1, rest)
        | [] => (off + zlen w, [])
        end in
      (Some (off, w), MkTokenizer (tk_buff tk) (Some (off, w)) tnext (tk_notabs tk))
  end.

(** [GetToken( &rest, lowcase )]: the token and what [rest] is set to. *)
Definition Tok_GetToken_rest (lowcase : bool) (tk : Tokenizer) : option (ptr * ptr) * Tokenizer :=
  match Tok_GetToken lowcase tk with
  | (None, tk) => (None, tk)
  | (Some tok, tk) =>
      let tnext := skip_while isblank (tk_tnext tk).1 (tk_tnext tk).2 in
      (Some (tok, tnext), MkTokenizer (tk_buff tk) (tk_token tk) tnext (tk_notabs tk))
  end.

(** [RetToken()]: the blanks between the token and [tnext] are still there, the
    first of them restored over the null that ended the token. *)
Definition Tok_RetToken (tk : Tokenizer) : Tokenizer :=
  match tk_token tk with
  | None => tk
  | Some (off, w) =>
      let tnext :=
        match (tk_tnext tk).2 with
        | [] => (off, w)
        | s => (off, w ++ replicate (Z.to_nat ((tk_tnext tk).1 - (off + zlen w))) 32 ++ s)
        end in
      MkTokenizer (tk_buff tk) None tnext (tk_notabs tk)
  end.

(** ** Entities *)

(** [XrdAccEntity::EntityAttr] *)
Record EntityAttr := MkAttr {
  at_vorg : option ptr;
  at_role : option ptr;
  at_grup : option ptr }.

(** [XrdAccEntityInfo]; a null [host] never reaches its readers. *)
Record XrdAccEntityInfo := MkInfo {
  ei_name : bytes;
  ei_host : bytes;
  ei_vorg : option ptr;
  ei_role : option ptr;
  ei_grup : option ptr }.

(** [XrdAccEntity]: its attribute vector. *)
Definition XrdAccEntity : Type := list EntityAttr.

(** What the authorization reads of an [XrdSecEntity]: [sec_reqname] is what
    [eaAPI->Get( "request.name" )] finds, [sec_addr] what
    [addrInfo->Name( "?" )] resolves, [sec_acc] the attached [XrdAccEntity]. *)
Record SecEntity := MkSec {
  sec_name : option bytes;
  sec_host : option bytes;
  sec_vorg : option bytes;
  sec_role : option bytes;
  sec_grps : option bytes;
  sec_reqname : option bytes;
  sec_addr : bytes;
  sec_acc : option XrdAccEntity }.

(** [OneOrZero( src, dest )]: whether it returned true, [dest] and the buffer
    with the null it stored; [dest] keeps its value when it returned false. *)
Definition OneOrZero (src : option bytes) (dest : option ptr) : bool * option ptr * option bytes :=
  match src with
  | None => (true, None, None)
  | Some s =>
      let '(off, sP) := skip_while isblank 0 s in
      let '(w, eP) := span_until isblank sP in
      match (skip_while isblank 0 eP).2 with
      | _ :: _ => (false, dest, Some s)
      | [] =>
          match w with
          | [] => (true, None, Some s)
          | _ => (true, Some (off, w), Some (take (Z.to_nat off) s ++ w))
          end
      end
  end.

(** [setAttr( tkl, dest )]: whether there was a token, [dest] and the tokenizer. *)
Definition setAttr (tkl : Tokenizer) (dest : option ptr) : bool * option ptr * Tokenizer :=
  let '(attr, tkl) := Tok_GetToken false tkl in
  let dest :=
    match attr, dest with
    | Some a, Some d => if bool_decide (d.2 = a.2) then dest else attr
    | _, _ => attr
    end in
  (bool_decide (is_Some attr), dest, tkl).

(** The group loop of the short form. *)
Fixpoint short_groups (fuel : nat) (vorg role : option ptr) (line : Tokenizer)
  : res (list EntityAttr) :=
  match fuel with
  | O => Diverge
  | S fuel =>
      match Tok_GetToken false line with
      | (None, _) => Ok []
      | (Some g, line) =>
          l ← short_groups fuel vorg role line;
          Ok (MkAttr vorg role (Some g) :: l)
      end
  end.

(** One column of a row: [if (xInfo && setAttr( line, attr )) have++]. *)
Definition column (present : bool) (line : Tokenizer) (dest : option ptr)
  : Z * option ptr * Tokenizer :=
  if present then
    let '(got, dest, line) := setAttr line dest in ((if got : bool then 1 else 0), dest, line)
  else (0, dest, line).

(** The row loop; the result is the vector and [aOK]. *)
Fixpoint pair_columns (fuel : nat) (want : Z) (hv hr hg : bool)
    (vl rl gl : Tokenizer) (a : EntityAttr) : res (list EntityAttr * bool) :=
  match fuel with
  | O => Diverge
  | S fuel =>
      let '(h1, v, vl) := column hv vl (at_vorg a) in
      let '(h2, r, rl) := column hr rl (at_role a) in
      let '(h3, g, gl) := column hg gl (at_grup a) in
      let have := h1 + h2 + h3 in
      if negb (want =? have) then Ok ([], have =? 0)
      else
        let a := MkAttr v r g in
        '(l, aOK) ← pair_columns fuel want hv hr hg vl rl gl a;
        Ok (a :: l, aOK)
  end.

Definition present (o : option bytes) : bool := bool_decide (is_Some o).
Definition open_line (o : option bytes) : Tokenizer :=
  match o with None => Tok_Attach None | Some _ => (Tok_GetLine (Tok_Attach o)).2 end.
Definition text_len (o : option bytes) : nat := length (default [] o).

(** [XrdAccEntity( secP, aOK )]; every turn of a loop uses up a token. *)
Definition XrdAccEntity_new (secP : SecEntity) : res (XrdAccEntity * bool) :=
  let count o := if present o then 1 else 0 in
  let want := count (sec_vorg secP) + count (sec_role secP) + count (sec_grps secP) in
  if want =? 0 then Ok ([], true)
  else
    let '(okv, vorg, vorgInfo) := OneOrZero (sec_vorg secP) None in
    let '(okr, role, roleInfo) :=
      if okv : bool then OneOrZero (sec_role secP) None else (false, None, sec_role secP) in
    if okv && okr then
      l ← match sec_grps secP with
          | Some g => short_groups (S (length g)) vorg role (open_line (Some g))
          | None => Ok []
          end;
      Ok (match l with [] => [MkAttr vorg role None] | _ => l end, true)
    else
      pair_columns (S (text_len vorgInfo + text_len roleInfo + text_len (sec_grps secP)))
        want (present vorgInfo) (present roleInfo) (present (sec_grps secP))
        (open_line vorgInfo) (open_line roleInfo) (open_line (sec_grps secP))
        (MkAttr None None None).

(** [GetEntity( secP, isNew )] *)
Definition GetEntity (secP : SecEntity) : res (option XrdAccEntity * bool) :=
  match sec_acc secP with
  | Some aeP => Ok (Some aeP, false)
  | None =>
      '(aeP, aOK) ← XrdAccEntity_new secP;
      Ok (if aOK : bool then Some aeP else None, true)
  end.

(** [PutEntity( secP )]: the first entity attached stays. *)
Definition PutEntity (aeP : XrdAccEntity) (secP : SecEntity) : SecEntity :=
  match sec_acc secP with
  | Some _ => secP
  | None =>
      MkSec (sec_name secP) (sec_host secP) (sec_vorg secP) (sec_role secP) (sec_grps secP)
        (sec_reqname secP) (sec_addr secP) (Some aeP)
  end.

(** [Next( seq, info )] *)
Definition Next (aeP : XrdAccEntity) (seq : nat) (info : XrdAccEntityInfo)
  : option (nat * XrdAccEntityInfo) :=
  a ← aeP !! seq;
  Some (S seq, MkInfo (ei_name info) (ei_host info) (at_vorg a) (at_role a) (at_grup a)).

(** ** Tokens are the words of the line *)

(** The words of a text, blanks between them. *)
Definition words (s : bytes) : list bytes := strtok_all isblank [] s.

Definition no_newline (s : bytes) : Prop := Forall (fun c => c <> 10) s.

Lemma span_until_spec stop s : forall w r, span_until stop s = (w, r) ->
  s = w ++ r /\ Forall (fun c => stop c = false) w /\
  match r with c :: _ => stop c = true | [] => True end.
Proof.
  induction s as [|c s IH]; intros w r; cbn [span_until]; [by intros [= <- <-]|].
  destruct (stop c) eqn:E; [by intros [= <- <-]|].
  destruct (span_until stop s) as [w' r'] eqn:E'. intros [= <- <-].
  destruct (IH w' r' eq_refl) as (-> & Hw & Hr). split; [done|]. split; [by constructor|done].
Qed.

Lemma skip_while_spec blank s : forall off off' r, skip_while blank off s = (off', r) ->
  exists pre, s = pre ++ r /\ Forall (fun c => blank c = true) pre /\ off' = off + zlen pre /\
    match r with c :: _ => blank c = false | [] => True end.
Proof.
  induction s as [|c s IH]; intros off off' r; cbn [skip_while].
  - intros [= <- <-]. exists []. rewrite zlen_nil. repeat split; [constructor|lia].
  - destruct (blank c) eqn:E.
    + intros (pre & -> & Hp & -> & Hr)%IH. exists (c :: pre). rewrite zlen_cons.
      repeat split; [by constructor|lia|done].
    + intros [= <- <-]. exists []. rewrite zlen_nil. repeat split; [constructor|lia|done].
Qed.

Lemma words_blank pre s : Forall (fun c => isblank c = true) pre -> words (pre ++ s) = words s.
Proof.
  induction 1 as [|c pre Hc _ IH]; [done|]. unfold words in *. cbn [app strtok_all].
  by rewrite Hc, bool_decide_eq_true_2.
Qed.

Lemma words_word w r : w <> [] -> Forall (fun c => isblank c = false) w ->
  match r with c :: _ => isblank c = true | [] => True end ->
  words (w ++ r) = w :: words (tail r).
Proof.
  intros Hw Hf Hr. unfold words. rewrite strtok_piece by done. cbn [app].
  destruct r as [|c r]; cbn [strtok_all tail]; rewrite ?Hr, bool_decide_eq_false_2 by done; done.
Qed.

(** [GetToken] yields the words one by one. *)
Lemma GetToken_words tk : match words (tk_tnext tk).2 with
  | [] => exists tk', Tok_GetToken false tk = (None, tk')
  | w :: ws => exists off tk', Tok_GetToken false tk = (Some (off, w), tk') /\
      words (tk_tnext tk').2 = ws
  end.
Proof.
  unfold Tok_GetToken. destruct (tk_tnext tk) as [o s]. cbn [fst snd].
  destruct (skip_while isblank o s) as [off r] eqn:E.
  apply skip_while_spec in E as (pre & -> & Hp & _ & Hr). rewrite words_blank by done.
  destruct r as [|c r]; [cbn; eauto|].
  destruct (span_until isblank (c :: r)) as [w rest] eqn:Es.
  assert (w <> []) as Hw.
  { cbn [span_until] in Es. rewrite Hr in Es. destruct (span_until isblank r). by injection Es as <- _. }
  apply span_until_spec in Es as (-> & Hf & Hrest). rewrite words_word by done.
  eexists off, _. split; [reflexivity|]. by destruct rest.
Qed.

Lemma span_none stop s : Forall (fun c => stop c = false) s -> span_until stop s = (s, []).
Proof. induction 1 as [|c s Hc _ IH]; cbn [span_until]; [done|]. by rewrite Hc, IH. Qed.

Lemma open_line_words o s : o = Some s -> no_newline s ->
  words (tk_tnext (open_line o)).2 = words s.
Proof.
  intros -> Hn. unfold open_line, Tok_GetLine, Tok_Attach.
  cbn [tk_buff tk_notabs fmap option_fmap option_map].
  destruct s as [|c s]; [done|].
  destruct (skip_while isblank 0 (c :: s)) as [off r] eqn:E.
  apply skip_while_spec in E as (pre & Heq & Hp & _ & _). rewrite Heq, words_blank by done.
  rewrite span_none; [done|]. unfold no_newline in Hn. rewrite Heq in Hn.
  apply Forall_app in Hn as [_ Hn]. eapply Forall_impl; [exact Hn|]. cbn. intros x Hx.
  by apply Z.eqb_neq.
Qed.

Lemma no_newline_app a b : no_newline (a ++ b) <-> no_newline a /\ no_newline b.
Proof. apply Forall_app. Qed.

Lemma take_zlen_app (a b : bytes) : take (Z.to_nat (zlen a)) (a ++ b) = a.
Proof. unfold zlen. rewrite Nat2Z.id. apply take_app_length. Qed.

(** [OneOrZero] recognises texts of at most one word. *)
Lemma OneOrZero_words s : no_newline s -> match words s with
  | [] => OneOrZero (Some s) None = (true, None, Some s)
  | [w] => exists off s', OneOrZero (Some s) None = (true, Some (off, w), Some s') /\
      no_newline s' /\ words s' = [w]
  | _ => OneOrZero (Some s) None = (false, None, Some s)
  end.
Proof.
  intros Hn. unfold OneOrZero. destruct (skip_while isblank 0 s) as [off sP] eqn:E.
  apply skip_while_spec in E as (pre & -> & Hp & Hoff & Hr). rewrite words_blank by done.
  destruct (span_until isblank sP) as [w eP] eqn:Es.
  destruct sP as [|c sP]; [injection Es as <- <-; cbn; eauto|].
  assert (w <> []) as Hw.
  { cbn [span_until] in Es. rewrite Hr in Es. destruct (span_until isblank sP). by injection Es as <- _. }
  apply span_until_spec in Es as (Heq & Hf & HeP). rewrite Heq, words_word by done.
  destruct (skip_while isblank 0 eP) as [o2 r2] eqn:E2.
  apply skip_while_spec in E2 as (pre2 & -> & Hp2 & _ & Hr2). cbn [snd].
  assert (words (tail (pre2 ++ r2)) = words r2) as ->.
  { destruct pre2 as [|b pre2]; cbn [app tail].
    - destruct r2 as [|b r2]; [done|]. cbn in HeP. congruence.
    - apply Forall_cons in Hp2 as [_ Hp2]. by apply words_blank. }
  destruct r2 as [|b r2].
  - cbn [words strtok_all]. destruct w as [|x w]; [done|].
    eexists off, _. split; [reflexivity|]. rewrite Heq in Hn.
    rewrite Hoff, Z.add_0_l, take_zlen_app. split.
    + apply no_newline_app in Hn as [H1 H2]. apply no_newline_app in H2 as [H2 _].
      by apply no_newline_app.
    + rewrite words_blank by done. pose proof (words_word (x :: w) [] Hw Hf I) as H.
      by rewrite app_nil_r in H.
  - destruct (span_until isblank (b :: r2)) as [w2 e2] eqn:E3.
    assert (w2 <> []) as Hw2.
    { cbn [span_until] in E3. rewrite Hr2 in E3. destruct (span_until isblank r2). by injection E3 as <- _. }
    apply span_until_spec in E3 as (-> & Hf2 & He2). by rewrite words_word.
Qed.

(** ** The attributes are the columns of the entity's fields *)

Definition row : Type := option bytes * option bytes * option bytes.

Definition attr_texts (a : EntityAttr) : row :=
  (snd <$> at_vorg a, snd <$> at_role a, snd <$> at_grup a).

Definition col_len (o : option (list bytes)) : nat := length (default [] o).
Definition agrees (n : nat) (o : option (list bytes)) : bool :=
  match o with None => true | Some w => Nat.eqb (length w) n end.
Definition cell (o : option (list bytes)) (i : nat) : option bytes := ws ← o; ws !! i.
Definition columns_len (v r g : option (list bytes)) : nat :=
  Nat.max (col_len v) (Nat.max (col_len r) (col_len g)).

(** The rows of three columns, when those that are present are equally long. *)
Definition column_rows (v r g : option (list bytes)) : option (list row) :=
  let n := columns_len v r g in
  if agrees n v && agrees n r && agrees n g
  then Some ((fun i => (cell v i, cell r i, cell g i)) <$> seq 0 n)
  else None.

Definition entity_texts (aeP : XrdAccEntity) : list row := fmap attr_texts (aeP : list EntityAttr).

(** What the fields of an entity mean: a single organization and role go with
    every group; otherwise the fields are the columns of a table. *)
Definition entity_rows (v r g : option (list bytes)) : option (list row) :=
  if bool_decide (v = None) && bool_decide (r = None) && bool_decide (g = None) then Some []
  else if Nat.leb (col_len v) 1 && Nat.leb (col_len r) 1 then
    Some match default [] g with
         | [] => [(cell v 0, cell r 0, None)]
         | gs => (fun x => (cell v 0, cell r 0, Some x)) <$> gs
         end
  else column_rows v r g.

(** The words a column still has to give, and the value it gave last. *)
Definition reads (o : option (list bytes)) (here : bool) (line : Tokenizer) (dest : option ptr)
  : Prop :=
  match o with
  | None => here = false /\ dest = None
  | Some ws => here = true /\ words (tk_tnext line).2 = ws
  end.

Definition tl_col (o : option (list bytes)) : option (list bytes) := tail <$> o.

(** One column of one row. *)
Lemma column_ok o here line dest : reads o here line dest ->
  exists dest' line',
    column here line dest = ((if Nat.eqb (col_len o) 0 then 0 else 1), dest', line') /\
    ((here = true -> col_len o <> O) -> snd <$> dest' = cell o 0 /\ reads (tl_col o) here line' dest').
Proof.
  unfold reads, column, setAttr. destruct o as [ws|].
  - intros [-> <-]. pose proof (GetToken_words line) as H. unfold col_len. cbn [default].
    destruct (words (tk_tnext line).2) as [|w ws].
    + destruct H as [tk ->]. eexists _, _. split; [reflexivity|]. intros H. by destruct H.
    + destruct H as (off & tk & -> & Htk). eexists _, _. split; [reflexivity|]. intros _.
      split; [|done]. cbn. destruct dest as [d|]; cbn; [|done].
      destruct (bool_decide_reflect (d.2 = w)); cbn; congruence.
  - intros [-> ->]. eexists _, _. split; [reflexivity|]. done.
Qed.

Lemma columns_len_tl v r g :
  columns_len (tl_col v) (tl_col r) (tl_col g) = pred (columns_len v r g).
Proof.
  assert (forall o, col_len (tl_col o) = pred (col_len o)) as H by (intros [[|]|]; done).
  unfold columns_len. rewrite !H. lia.
Qed.

(** Every present column has a word. *)
Definition complete (v r g : option (list bytes)) : Prop :=
  v <> Some [] /\ r <> Some [] /\ g <> Some [] /\ columns_len v r g <> O.

Lemma agrees_tl n o : o <> Some [] -> agrees (S n) o = agrees n (tl_col o).
Proof. by destruct o as [[|x ws]|]. Qed.

Lemma cell_tl o i : cell (tl_col o) i = cell o (S i).
Proof. by destruct o as [[|x ws]|]. Qed.

(** The rows are the first one and those of the rest. *)
Lemma column_rows_cons v r g : complete v r g ->
  column_rows v r g = cons (cell v 0, cell r 0, cell g 0) <$> column_rows (tl_col v) (tl_col r) (tl_col g).
Proof.
  intros (Hv & Hr & Hg & Hn). unfold column_rows. rewrite columns_len_tl.
  destruct (columns_len v r g) as [|n]; [done|]. cbn [pred].
  rewrite !agrees_tl by done. destruct (_ && _ && _); [|done]. cbn. do 2 f_equal.
  rewrite <- fmap_S_seq, <- list_fmap_compose. apply list_fmap_ext. intros k x _. cbn.
  by rewrite !cell_tl.
Qed.

(** Without words there are no rows. *)
Lemma column_rows_nil v r g : columns_len v r g = O -> column_rows v r g = Some [].
Proof.
  unfold column_rows. intros Hn. rewrite Hn.
  assert (forall o, col_len o = O -> agrees 0 o = true) as H by (by intros [[|]|]).
  unfold columns_len in Hn. rewrite !H by lia. done.
Qed.

Lemma column_rows_short v r g o : columns_len v r g <> O -> o = Some [] ->
  o = v \/ o = r \/ o = g -> column_rows v r g = None.
Proof.
  intros Hn -> Ho. unfold column_rows. destruct (columns_len v r g) as [|n]; [done|].
  destruct Ho as [<-|[<-|<-]]; cbn; by rewrite ?andb_false_r.
Qed.

Definition b2z (b : bool) : Z := if b then 1 else 0.

(** Whether a row is complete, as the code counts it. *)
Lemma have_want v r g hv hr hg vl rl gl a :
  reads v hv vl (at_vorg a) -> reads r hr rl (at_role a) -> reads g hg gl (at_grup a) ->
  0 < b2z hv + b2z hr + b2z hg ->
  let h o := if Nat.eqb (col_len o) 0 then 0 else 1 in
  let have := h v + h r + h g in
  (b2z hv + b2z hr + b2z hg = have /\ complete v r g) \/
  (b2z hv + b2z hr + b2z hg <> have /\
   (have =? 0) = bool_decide (is_Some (column_rows v r g)) /\
   (is_Some (column_rows v r g) -> column_rows v r g = Some [])).
Proof.
  intros Hv Hr Hg Hw h have. 
  assert (forall o here l d, reads o here l d -> 0 <= h o /\ (h o = 0 <-> col_len o = O) /\
    ((h o = b2z here /\ o <> Some []) \/ (h o = 0 /\ b2z here = 1 /\ o = Some []))) as Hc.
  { intros [[|x ws]|] here l d; unfold reads; intros [-> _]; unfold h, col_len; cbn;
      (split; [lia|split; [lia|]]); [by right|by left..]. }
  apply Hc in Hv as (Hv1 & Hv2 & Hv), Hr as (Hr1 & Hr2 & Hr), Hg as (Hg1 & Hg2 & Hg). clear Hc.
  assert (have = 0 <-> columns_len v r g = O) as Hz by (unfold have, columns_len; lia).
  destruct (Z.eq_dec (b2z hv + b2z hr + b2z hg) have) as [He|He]; [left|right]; (split; [done|]).
  - assert (columns_len v r g <> O) by (intros Hn; apply Hz in Hn; lia).
    split; [|split; [|split]]; [| | |done]; intros ->;
      [destruct Hv as [[_ Hv]|(Hv & Hv' & _)]|destruct Hr as [[_ Hr]|(Hr & Hr' & _)]
      |destruct Hg as [[_ Hg]|(Hg & Hg' & _)]]; try done; unfold have in He; lia.
  - destruct (Z.eqb_spec have 0) as [H0|H0].
    + apply Hz in H0. rewrite column_rows_nil by done.
      split; [by rewrite bool_decide_eq_true_2 by eauto|done].
    + assert (exists o, o = Some [] /\ (o = v \/ o = r \/ o = g)) as (o & Ho & Hin).
      { destruct Hv as [[Hv _]|(_ & _ & Hv)]; [|eauto]. destruct Hr as [[Hr _]|(_ & _ & Hr)]; [|eauto].
        destruct Hg as [[Hg _]|(_ & _ & Hg)]; [unfold have in He; lia|eauto]. }
      rewrite (column_rows_short v r g o) by (tauto || done).
      split; [by rewrite bool_decide_eq_false_2 by (by intros [? ?])|by intros [? ?]].
Qed.

(** The row loop computes the rows. *)
Lemma pair_ok fuel : forall v r g hv hr hg vl rl gl a,
  reads v hv vl (at_vorg a) -> reads r hr rl (at_role a) -> reads g hg gl (at_grup a) ->
  0 < b2z hv + b2z hr + b2z hg -> (columns_len v r g < fuel)%nat ->
  exists l, pair_columns fuel (b2z hv + b2z hr + b2z hg) hv hr hg vl rl gl a
      = Ok (l, bool_decide (is_Some (column_rows v r g))) /\
    (is_Some (column_rows v r g) -> column_rows v r g = Some (attr_texts <$> l)).
Proof.
  induction fuel as [|fuel IH]; intros v r g hv hr hg vl rl gl a Hv Hr Hg Hw Hf; [lia|].
  pose proof (have_want _ _ _ _ _ _ _ _ _ _ Hv Hr Hg Hw) as Hrow.
  destruct (column_ok _ _ _ _ Hv) as (v' & vl' & Ev & Kv).
  destruct (column_ok _ _ _ _ Hr) as (r' & rl' & Er & Kr).
  destruct (column_ok _ _ _ _ Hg) as (g' & gl' & Eg & Kg).
  cbn [pair_columns]. rewrite Ev, Er, Eg. cbv beta iota zeta in Hrow |- *.
  destruct Hrow as [[He Hc]|(He & Hok & Hnil)].
  - rewrite (proj2 (Z.eqb_eq _ _) He). cbn [negb].
    assert (forall o here l d, reads o here l d -> o <> Some [] -> here = true -> col_len o <> O) as Hne.
    { by intros [[|x ws]|] here ln d; unfold reads; intros [-> _]. }
    pose proof Hc as (H1 & H2 & H3 & Hn).
    destruct (Kv (Hne _ _ _ _ Hv H1)) as [Cv Rv]. destruct (Kr (Hne _ _ _ _ Hr H2)) as [Cr Rr].
    destruct (Kg (Hne _ _ _ _ Hg H3)) as [Cg Rg].
    destruct (IH _ _ _ _ _ _ _ _ _ (MkAttr v' r' g') Rv Rr Rg Hw) as (l & -> & Hl).
    { rewrite columns_len_tl. lia. }
    step_ok. eexists. split; [|].
    + do 2 f_equal. apply bool_decide_ext. rewrite (column_rows_cons v r g Hc). by rewrite fmap_is_Some.
    + rewrite (column_rows_cons v r g Hc), fmap_is_Some. intros H. rewrite (Hl H). cbn.
      unfold attr_texts at 2. cbn [at_vorg at_role at_grup]. by rewrite Cv, Cr, Cg.
  - rewrite (proj2 (Z.eqb_neq _ _) He). cbn [negb]. eexists. rewrite Hok. split; [reflexivity|].
    intros H. by rewrite Hnil.
Qed.

Lemma strtok_length delim s : forall cur,
  (length (strtok_all delim cur s) <= length s + if bool_decide (cur = []) then 0 else 1)%nat.
Proof.
  induction s as [|c s IH]; intros cur; cbn [strtok_all].
  - by destruct (bool_decide_reflect (cur = [])).
  - destruct (delim c).
    + rewrite length_app. specialize (IH []). rewrite bool_decide_eq_true_2 in IH by done.
      destruct (bool_decide_reflect (cur = [])); cbn in *; lia.
    + specialize (IH (cur ++ [c])). rewrite bool_decide_eq_false_2 in IH by (by destruct cur).
      destruct (bool_decide_reflect (cur = [])); cbn in *; lia.
Qed.

Lemma words_length s : (length (words s) <= length s)%nat.
Proof. pose proof (strtok_length isblank s []) as H. rewrite bool_decide_eq_true_2 in H by done. unfold words. lia. Qed.

Lemma short_groups_ok fuel : forall v r tk, (length (words (tk_tnext tk).2) < fuel)%nat ->
  exists l, short_groups fuel v r tk = Ok l /\
    attr_texts <$> l = (fun x => (snd <$> v, snd <$> r, Some x)) <$> words (tk_tnext tk).2.
Proof.
  induction fuel as [|fuel IH]; intros v r tk Hf; [lia|]. cbn [short_groups].
  pose proof (GetToken_words tk) as H. destruct (words (tk_tnext tk).2) as [|w ws].
  - destruct H as [tk' ->]. by exists [].
  - destruct H as (off & tk' & -> & <-). cbn [length] in Hf.
    destruct (IH v r tk') as (l & -> & Hl); [lia|]. step_ok. eexists. split; [reflexivity|].
    cbn. by rewrite Hl.
Qed.

(** A field without line ends. *)
Definition one_line (o : option bytes) : Prop := forall s, o = Some s -> no_newline s.

(** [OneOrZero] on a field: what it decides, and that the words stay. *)
Lemma OneOrZero_field o : one_line o ->
  exists dest o', OneOrZero o None = (Nat.leb (col_len (words <$> o)) 1, dest, o') /\
    (Nat.leb (col_len (words <$> o)) 1 = true -> snd <$> dest = cell (words <$> o) 0) /\
    one_line o' /\ words <$> o' = words <$> o.
Proof.
  intros Ho. destruct o as [s|]; [|by eexists _, _].
  pose proof (OneOrZero_words s (Ho s eq_refl)) as H. unfold col_len, cell.
  cbn [fmap option_fmap option_map default mbind option_bind].
  destruct (words s) as [|w [|w2 ws]] eqn:E.
  - rewrite H. eexists _, _. split; [reflexivity|]. cbn. by rewrite E.
  - destruct H as (off & s' & -> & Hs & Hw). eexists _, _. split; [reflexivity|].
    split; [done|]. split; [by intros ? [= <-]|]. cbn. by rewrite Hw.
  - rewrite H. eexists _, _. split; [reflexivity|]. cbn. by rewrite E.
Qed.

Lemma open_line_reads o : one_line o -> reads (words <$> o) (present o) (open_line o) None.
Proof.
  intros Ho. destruct o as [s|]; [|done]. cbn. split; [done|].
  apply (open_line_words (Some s) s); [done|by apply Ho].
Qed.

Lemma text_len_words o : (col_len (words <$> o) <= text_len o)%nat.
Proof. destruct o as [s|]; [|done]. apply words_length. Qed.

Lemma present_words o : present o = bool_decide (is_Some (words <$> o)).
Proof. by destruct o. Qed.

Lemma want_present v r g :
  (if present v then 1 else 0) + (if present r then 1 else 0) + (if present g then 1 else 0)
  = b2z (present v) + b2z (present r) + b2z (present g).
Proof. done. Qed.

Lemma entity_new_ok secP :
  one_line (sec_vorg secP) -> one_line (sec_role secP) -> one_line (sec_grps secP) ->
  exists e ok, XrdAccEntity_new secP = Ok (e, ok) /\
    (if ok : bool then Some (attr_texts <$> e) else None) =
      entity_rows (words <$> sec_vorg secP) (words <$> sec_role secP) (words <$> sec_grps secP).
Proof.
  destruct secP as [nm host v r g rq ad acc]. cbn [sec_vorg sec_role sec_grps].
  intros Hv Hr Hg. unfold XrdAccEntity_new, entity_rows. cbn [sec_vorg sec_role sec_grps].
  rewrite want_present.
  destruct (Z.eqb_spec (b2z (present v) + b2z (present r) + b2z (present g)) 0) as [H0|H0].
  { exists [], true. split; [done|]. destruct v, r, g; done. }
  assert (bool_decide (words <$> v = None) && bool_decide (words <$> r = None) &&
    bool_decide (words <$> g = None) = false) as -> by (by destruct v, r, g).
  destruct (OneOrZero_field v Hv) as (vd & v' & -> & Kv & Hv' & Wv).
  destruct (OneOrZero_field r Hr) as (rd & r' & Er & Kr & Hr' & Wr).
  assert (forall v' r', one_line v' -> one_line r' -> words <$> v' = words <$> v ->
    words <$> r' = words <$> r -> exists e ok,
    pair_columns (S (text_len v' + text_len r' + text_len g))
      (b2z (present v) + b2z (present r) + b2z (present g)) (present v') (present r') (present g)
      (open_line v') (open_line r') (open_line g) (MkAttr None None None) = Ok (e, ok) /\
    (if ok : bool then Some (attr_texts <$> e) else None)
      = column_rows (words <$> v) (words <$> r) (words <$> g)) as Hlong.
  { clear - H0 Hg. intros v' r' H1 H2 W1 W2. rewrite <- W1, <- W2.
    rewrite (present_words v), (present_words r), <- W1, <- W2, <- !present_words in H0 |- *.
    destruct (pair_ok (S (text_len v' + text_len r' + text_len g)) _ _ _ _ _ _ _ _ _ (MkAttr None None None)
      (open_line_reads v' H1) (open_line_reads r' H2) (open_line_reads g Hg)) as (l & -> & Hl).
    - destruct (present v'), (present r'), (present g); cbn in *; lia.
    - pose proof (text_len_words v'). pose proof (text_len_words r'). pose proof (text_len_words g).
      unfold columns_len. lia.
    - eexists _, _. split; [reflexivity|]. case_bool_decide as H;
        [by rewrite Hl|by apply eq_None_not_Some in H]. }
  destruct (Nat.leb (col_len (words <$> v)) 1) eqn:Lv.
  - rewrite Er. destruct (Nat.leb (col_len (words <$> r)) 1) eqn:Lr; cbn [andb].
    + destruct g as [g|]; cbn [fmap option_fmap option_map default].
      * pose proof (open_line_words (Some g) g eq_refl (Hg g eq_refl)) as Hw.
        destruct (short_groups_ok (S (length g)) vd rd (open_line (Some g))) as (l & -> & Hl).
        { rewrite Hw. pose proof (words_length g). lia. }
        step_ok. eexists _, _. split; [reflexivity|]. rewrite Hw in Hl. rewrite <- Kv, <- Kr by done.
        destruct (words g), l; try done. by rewrite Hl.
      * step_ok. eexists _, _. split; [reflexivity|]. cbn. unfold attr_texts. cbn. by rewrite Kv, Kr.
    + by apply Hlong.
  - cbn [andb]. by apply Hlong.
Qed.

(** C38: The attribute vector of an entity is the table its fields describe:
    one organization and one role go with every group, or the three fields are
    the columns of rows; fields of different lengths make the entity invalid.
    *)
Theorem GetEntity_rows secP :
  sec_acc secP = None ->
  one_line (sec_vorg secP) -> one_line (sec_role secP) -> one_line (sec_grps secP) ->
  exists aeP, GetEntity secP = Ok (aeP, true) /\
    entity_texts <$> aeP =
      entity_rows (words <$> sec_vorg secP) (words <$> sec_role secP) (words <$> sec_grps secP).
Proof.
  intros Hacc Hv Hr Hg. unfold GetEntity. rewrite Hacc.
  destruct (entity_new_ok secP Hv Hr Hg) as (e & ok & -> & He). step_ok.
  eexists. split; [reflexivity|]. rewrite <- He. by destruct ok.
Qed.

Definition sample_entity : SecEntity :=
  MkSec (Some (str "ann")) (Some (str "a.org")) (Some (str "atlas cms")) (Some (str "prod prod"))
    (Some (str "/a  /c")) None (str "?") None.

Lemma GetEntity_rows_witness : exists aeP, GetEntity sample_entity = Ok (aeP, true) /\
  entity_texts <$> aeP =
    entity_rows (Some [str "atlas"; str "cms"]) (Some [str "prod"; str "prod"])
      (Some [str "/a"; str "/c"]).
Proof.
  assert (forall s, forallb (fun c => negb (c =? 10)) s = true -> one_line (Some s)) as Hl.
  { intros s H ? [= <-]. apply Forall_forall. intros x Hx. rewrite forallb_forall in H.
    apply list_elem_of_In in Hx. apply H in Hx. by apply negb_true_iff, Z.eqb_neq in Hx. }
  apply (GetEntity_rows sample_entity eq_refl); by apply Hl.
Defined.

(** Equal neighbours share their pointer, which the privilege search uses. *)
Example shared_pointers :
  match GetEntity sample_entity with
  | Ok (Some [a; b], _) => at_role a = at_role b /\ at_vorg a <> at_vorg b
  | _ => False
  end.
Proof. vm_compute. split; [done|discriminate]. Qed.
