(* ===== verification/AccGroups.v ===== *)
(** * Groups and netgroups of users

    Models src/src/XrdAcc/XrdAccGroups.hh and XrdAccGroups.cc. The user data
    base, the group data base and netgroup membership are the operating
    system's, so [getpwnam], [getgrgid], the list [getgrent] yields and [innetgr]
    are parameters. The mutexes make every access of a table one step. *)

From Stdlib Require Import Strings.String.
From stdpp Require Import base tactics list_numbers numbers option gmap list.
From S2P Require Import Prelude CString OucHash.

(** [NGROUPS_MAX] of Linux, and the size of [retrangid]. *)
Definition NGROUPS_MAX : Z := 65536.
Definition retran_size : Z := 128.

(** [XrdAccGroupList]: the table up to its null entry and the next index. *)
Record XrdAccGroupList := MkGroupList { grouptab : list bytes; nextgroup : nat }.

(** [XrdAccGroupList( cnt, gtable )] and the copy constructor. *)
Definition GroupList_new (gtable : list bytes) : XrdAccGroupList :=
  MkGroupList (take (Z.to_nat NGROUPS_MAX) gtable) 0.
Definition GroupList_copy (rv : XrdAccGroupList) : XrdAccGroupList := MkGroupList (grouptab rv) 0.

Definition GroupList_First (g : XrdAccGroupList) : option bytes := grouptab g !! 0%nat.

Definition GroupList_Next (g : XrdAccGroupList) : option bytes * XrdAccGroupList :=
  match grouptab g !! nextgroup g with
  | Some n => (Some n, MkGroupList (grouptab g) (S (nextgroup g)))
  | None => (None, g)
  end.

(** The names [while((gname = glp->Next()))] walks through. *)
Definition GroupList_rest (g : XrdAccGroupList) : list bytes := drop (nextgroup g) (grouptab g).

(** [XrdAccGroupType], without [XrdAccNoGroup]. *)
Inductive XrdAccGroupType := XrdAccUnixGroup | XrdAccNetGroup.

(** [XrdAccGroups]; [gr_retrangid] are the [retrancnt] entries in use. *)
Record XrdAccGroups := MkGroups {
  gr_retrangid : list Z;
  gr_LifeTime : Z;
  gr_domain : option bytes;
  gr_Primary_Only : bool;
  HaveGroups : bool;
  HaveNetGroups : bool;
  NetGroup_Cache : Hash XrdAccGroupList;
  Group_Cache : Hash XrdAccGroupList;
  Group_Names : Hash bytes;
  NetGroup_Names : Hash bytes }.

(** [XrdAccGroups()] *)
Definition XrdAccGroups_new : XrdAccGroups :=
  MkGroups [] (60 * 60 * 12) None false false false
    (XrdOucHash 89 144 80) (XrdOucHash 89 144 80) (XrdOucHash 89 144 80) (XrdOucHash 89 144 80).

(** The global object whose domain the netgroup test uses: nothing changes it. *)
Definition XrdAccGroupMaster : XrdAccGroups := XrdAccGroups_new.

Definition set_netcache (c : Hash XrdAccGroupList) (g : XrdAccGroups) : XrdAccGroups :=
  MkGroups (gr_retrangid g) (gr_LifeTime g) (gr_domain g) (gr_Primary_Only g) (HaveGroups g)
    (HaveNetGroups g) c (Group_Cache g) (Group_Names g) (NetGroup_Names g).

Definition set_cache (c : Hash XrdAccGroupList) (g : XrdAccGroups) : XrdAccGroups :=
  MkGroups (gr_retrangid g) (gr_LifeTime g) (gr_domain g) (gr_Primary_Only g) (HaveGroups g)
    (HaveNetGroups g) (NetGroup_Cache g) c (Group_Names g) (NetGroup_Names g).

Definition set_names (have : bool) (n : Hash bytes) (g : XrdAccGroups) : XrdAccGroups :=
  MkGroups (gr_retrangid g) (gr_LifeTime g) (gr_domain g) (gr_Primary_Only g) have
    (HaveNetGroups g) (NetGroup_Cache g) (Group_Cache g) n (NetGroup_Names g).

Definition set_netnames (have : bool) (n : Hash bytes) (g : XrdAccGroups) : XrdAccGroups :=
  MkGroups (gr_retrangid g) (gr_LifeTime g) (gr_domain g) (gr_Primary_Only g) (HaveGroups g)
    have (NetGroup_Cache g) (Group_Cache g) (Group_Names g) n.

Definition set_retran (r : list Z) (g : XrdAccGroups) : XrdAccGroups :=
  MkGroups r (gr_LifeTime g) (gr_domain g) (gr_Primary_Only g) (HaveGroups g)
    (HaveNetGroups g) (NetGroup_Cache g) (Group_Cache g) (Group_Names g) (NetGroup_Names g).

(** [SetDomain( dname )] and [SetLifetime( seconds )] *)
Definition SetDomain (dname : bytes) (g : XrdAccGroups) : XrdAccGroups :=
  MkGroups (gr_retrangid g) (gr_LifeTime g) (Some dname) (gr_Primary_Only g) (HaveGroups g)
    (HaveNetGroups g) (NetGroup_Cache g) (Group_Cache g) (Group_Names g) (NetGroup_Names g).
Definition SetLifetime (seconds : Z) (g : XrdAccGroups) : XrdAccGroups :=
  MkGroups (gr_retrangid g) seconds (gr_domain g) (gr_Primary_Only g) (HaveGroups g)
    (HaveNetGroups g) (NetGroup_Cache g) (Group_Cache g) (Group_Names g) (NetGroup_Names g).

Abbreviation hval := XrdOucHashVal (only parsing).

(** Names are stored as their own data. *)
Definition name_data (k : bytes) : bytes := k.
Definition no_list (k : bytes) : XrdAccGroupList := MkGroupList [] 0.

(** Find a name, or add it with [Hash_data_is_key] and find it. *)
Definition intern (now : Z) (name : bytes) (hp : Hash bytes) : option bytes * Hash bytes :=
  let '(np, _, hp) := Find hval now name hp in
  match np with
  | Some np => (Some np, hp)
  | None =>
      let hp := (Add hval name_data now name [] 0 Hash_data_is_key hp).2 in
      let '(np, _, hp) := Find hval now name hp in (np, hp)
  end.

(** [AddName( gtype, name )] *)
Definition AddName (now : Z) (gtype : XrdAccGroupType) (name : bytes) (g : XrdAccGroups)
  : option bytes * XrdAccGroups :=
  match gtype with
  | XrdAccNetGroup =>
      let '(np, hp) := intern now name (NetGroup_Names g) in (np, set_netnames true hp g)
  | XrdAccUnixGroup =>
      let '(np, hp) := intern now name (Group_Names g) in (np, set_names true hp g)
  end.

(** [FindName( gtype, name )] *)
Definition FindName (now : Z) (gtype : XrdAccGroupType) (name : bytes) (g : XrdAccGroups)
  : option bytes * XrdAccGroups :=
  match gtype with
  | XrdAccNetGroup =>
      let '(np, _, hp) := Find hval now name (NetGroup_Names g) in
      (np, set_netnames (HaveNetGroups g) hp g)
  | XrdAccUnixGroup =>
      let '(np, _, hp) := Find hval now name (Group_Names g) in
      (np, set_names (HaveGroups g) hp g)
  end.

(** [Retran( gid )]: the return code; the array has [retran_size] entries. *)
Definition Retran (gid : Z) (g : XrdAccGroups) : res (Z * XrdAccGroups) :=
  if i32 gid <? 0 then Ok (0, set_retran [] g)
  else if retran_size <? zlen (gr_retrangid g) then Ok (-1, g)
  else if zlen (gr_retrangid g) <? retran_size
  then Ok (0, set_retran (gr_retrangid g ++ [gid]) g)
  else Fault.

(** [Dotran( gid, gname )] *)
Definition Dotran (gid : Z) (gname : bytes) (g : XrdAccGroups) : option bytes :=
  if existsb (Z.eqb gid) (gr_retrangid g) then None else Some gname.

(** [PurgeCache()] *)
Definition PurgeCache (g : XrdAccGroups) : XrdAccGroups :=
  set_netcache (Purge (NetGroup_Cache g)) (set_cache (Purge (Group_Cache g)) g).

Section system.
Context (getgrgid : Z -> option bytes).
Context (getpwnam : bytes -> option Z).
Context (getgrent : list (Z * bytes * list bytes)).
Context (innetgr : bytes -> bytes -> bytes -> option bytes -> bool).

(** [addGroup( user, gid, gname, Gtab, gtabi )] *)
Definition addGroup (now gid : Z) (gname : option bytes) (Gtab : list bytes) (g : XrdAccGroups)
  : list bytes * XrdAccGroups :=
  if NGROUPS_MAX <=? zlen Gtab then (Gtab, g)
  else
    match (match gname with Some (c :: n) => Some (c :: n) | _ => getgrgid gid end) with
    | None => (Gtab, g)
    | Some name =>
        let '(gp, _, hp) := Find hval now name (Group_Names g) in
        let g := set_names (HaveGroups g) hp g in
        match gp with
        | None => (Gtab, g)
        | Some gp => (Gtab ++ [gp], g)
        end
    end.

(** The members of one group entry. *)
Fixpoint scan_members (now : Z) (user : bytes) (gid : Z) (gname : bytes) (mem : list bytes)
    (Gtab : list bytes) (g : XrdAccGroups) : list bytes * XrdAccGroups :=
  match mem with
  | [] => (Gtab, g)
  | m :: mem =>
      let '(Gtab, g) :=
        if bool_decide (m = user) then addGroup now gid (Dotran gid gname g) Gtab g
        else (Gtab, g) in
      scan_members now user gid gname mem Gtab g
  end.

Fixpoint scan_groups (now : Z) (user : bytes) (pw_gid : Z) (ents : list (Z * bytes * list bytes))
    (Gtab : list bytes) (g : XrdAccGroups) : list bytes * XrdAccGroups :=
  match ents with
  | [] => (Gtab, g)
  | (gid, name, mem) :: ents =>
      let '(Gtab, g) :=
        if pw_gid =? gid then (Gtab, g) else scan_members now user gid name mem Gtab g in
      scan_groups now user pw_gid ents Gtab g
  end.

(** The answer a cached list gives: a copy, or null for an empty list. *)
Definition cached (glist : XrdAccGroupList) : option XrdAccGroupList :=
  match GroupList_First glist with Some _ => Some (GroupList_copy glist) | None => None end.

Definition answer (Gtab : list bytes) : option XrdAccGroupList :=
  match Gtab with [] => None | _ => Some (GroupList_new Gtab) end.

(** [Groups( user )] *)
Definition Groups (now : Z) (user : bytes) (g : XrdAccGroups)
  : option XrdAccGroupList * XrdAccGroups :=
  if negb (HaveGroups g) then (None, g)
  else
    let '(glist, _, c) := Find hval now user (Group_Cache g) in
    let g := set_cache c g in
    match glist with
    | Some glist => (cached glist, g)
    | None =>
        match getpwnam user with
        | None => (None, g)
        | Some pw_gid =>
            let '(Gtab, g) := addGroup now pw_gid None [] g in
            let '(Gtab, g) :=
              if gr_Primary_Only g then (Gtab, g) else scan_groups now user pw_gid getgrent Gtab g in
            let c := (Add hval no_list now user (GroupList_new Gtab) (gr_LifeTime g) Hash_default
                        (Group_Cache g)).2 in
            (answer Gtab, set_cache c g)
        end
    end.

(** [XrdAccCheckNetGroup( netgroup, key, Arg )]; [Gtab] is the argument's table. *)
Definition XrdAccCheckNetGroup (user host : bytes) (netgroup data : bytes) (Gtab : list bytes)
  : Z * list bytes :=
  if innetgr netgroup host user (gr_domain XrdAccGroupMaster) then
    if NGROUPS_MAX <=? zlen Gtab then (1, Gtab) else (0, Gtab ++ [netgroup])
  else (0, Gtab).

(** [MAXHOSTNAMELEN+96], the size of [uh_key]. *)
Definition uh_key_size : Z := 64 + 96.

Definition uh_key (user host : bytes) : bytes := user ++ 64 :: host.

(** [NetGroups( user, host )] *)
Definition NetGroups (now : Z) (user host : bytes) (g : XrdAccGroups)
  : option XrdAccGroupList * XrdAccGroups :=
  if negb (HaveNetGroups g) then (None, g)
  else if uh_key_size <? zlen user + zlen host + 2 then (None, g)
  else
    let '(glist, _, c) := Find hval now (uh_key user host) (NetGroup_Cache g) in
    let g := set_netcache c g in
    match glist with
    | Some glist => (cached glist, g)
    | None =>
        let '(_, Gtab, names) := Apply (XrdAccCheckNetGroup user host) now [] (NetGroup_Names g) in
        let g := set_netnames (HaveNetGroups g) names g in
        let c := (Add hval no_list now (uh_key user host) (GroupList_new Gtab) (gr_LifeTime g)
                    Hash_default (NetGroup_Cache g)).2 in
        (answer Gtab, set_netcache c g)
    end.
End system.

(** ** Invariant *)

(** Registered names are permanent and their own data. *)
Record names_wf (t : Hash bytes) : Prop := {
  nw_wf : hash_wf hval t;
  nw_items : forall k it, items t !! k = Some it -> it_time it = 0 /\ it_data it = k }.

Record groups_wf (g : XrdAccGroups) : Prop := {
  gw_net : names_wf (NetGroup_Names g);
  gw_unix : names_wf (Group_Names g);
  gw_netcache : hash_wf hval (NetGroup_Cache g);
  gw_cache : hash_wf hval (Group_Cache g);
  gw_next : forall k it, items (NetGroup_Cache g) !! k = Some it -> nextgroup (it_data it) = O }.

Definition registered (n : bytes) (g : XrdAccGroups) : Prop :=
  is_Some (items (NetGroup_Names g) !! n).

(** The names an answer lists. *)
Definition listed (a : option XrdAccGroupList) : list bytes :=
  match a with Some l => GroupList_rest l | None => [] end.

Lemma names_find t now k : names_wf t ->
  Find hval now k t =
    match items t !! k with Some it => (Some k, it_time it, t) | None => (None, 0, t) end.
Proof.
  intros [Hwf Hi]. pose proof (find_ok hval t now k Hwf) as H.
  destruct (items t !! k) as [it|] eqn:E; [|done]. destruct (Hi k it E) as [Ht Hd].
  unfold expired in H. rewrite Ht in H. cbn in H. by rewrite H, Hd, Ht.
Qed.

Lemma intern_ok t now k : names_wf t ->
  (intern now k t).1 = Some k /\ names_wf (intern now k t).2 /\
  forall n, is_Some (items (intern now k t).2 !! n) <-> is_Some (items t !! n) \/ n = k.
Proof.
  intros Ht. unfold intern. rewrite names_find by done.
  destruct (items t !! k) as [it|] eqn:E.
  { cbn. split; [done|]. split; [done|]. intros n. split; [tauto|]. intros [H| ->]; [done|by eexists]. }
  destruct Ht as [Hwf Hi]. pose proof (add_ok hval name_data t now k [] 0 Hash_data_is_key Hwf) as Ha.
  destruct (Add _ _ _ _ _ _ _ t) as [r t']. rewrite E in Ha. destruct Ha as (Hwf' & _ & Hi').
  cbn [snd]. assert (names_wf t') as Hn.
  { split; [done|]. intros k' it. rewrite Hi'. intros [[<- <-]|[_ H]]%lookup_insert_Some; [done|eauto]. }
  rewrite names_find, Hi', lookup_insert_eq by done. cbn. split; [done|]. split; [done|].
  intros n. rewrite Hi', lookup_insert_is_Some. split.
  - intros [->|[_ H]]; auto.
  - intros [H| ->]; [|auto]. destruct (decide (k = n)); auto.
Qed.

(** Scanning names that are not expired collects the user's netgroups in order
    as long as the table has room. *)
Section scan.
Context (innetgr : bytes -> bytes -> bytes -> option bytes -> bool) (user host : bytes) (now : Z).

Definition member (n : bytes) : bool := innetgr n host user None.
Definition member_keys (l : list (Item bytes)) : list bytes :=
  filter (fun n => member n = true) (it_key <$> l).

Abbreviation check := (XrdAccCheckNetGroup innetgr user host).

Lemma member_keys_length l : zlen (member_keys l) <= zlen l.
Proof.
  unfold member_keys, zlen. rewrite <- (length_fmap it_key l).
  pose proof (length_filter (fun n => member n = true) (it_key <$> l)). lia.
Qed.

Lemma member_keys_app a b : member_keys (a ++ b) = member_keys a ++ member_keys b.
Proof. unfold member_keys. by rewrite fmap_app, filter_app. Qed.

Lemma member_keys_cons it l : member_keys (it :: l) =
  (if member (it_key it) then [it_key it] else []) ++ member_keys l.
Proof.
  unfold member_keys. rewrite fmap_cons, filter_cons. destruct (member (it_key it)) eqn:E.
  - by rewrite decide_True.
  - by rewrite decide_False by done.
Qed.

Lemma scan_chain chain : forall Gtab,
  Forall (fun it => it_time it = 0) chain -> zlen Gtab + zlen chain <= NGROUPS_MAX ->
  apply_chain check now chain Gtab = (None, chain, Gtab ++ member_keys chain, 0).
Proof.
  induction chain as [|it chain IH]; intros Gtab Ht Hl; cbn [apply_chain].
  - by rewrite app_nil_r.
  - apply Forall_cons in Ht as [Hit Ht]. unfold expired. rewrite Hit. cbn [negb andb Z.eqb].
    unfold XrdAccCheckNetGroup at 1. change (gr_domain XrdAccGroupMaster) with (@None bytes).
    change (innetgr (it_key it) host user None) with (member (it_key it)).
    rewrite member_keys_cons, zlen_cons in *. pose proof (zlen_nonneg chain).
    destruct (member (it_key it)).
    + destruct (Z.leb_spec NGROUPS_MAX (zlen Gtab)); [lia|].
      change (0 <? 0) with false. cbv iota. rewrite IH by (try done; rewrite zlen_app, zlen_cons, zlen_nil; lia).
      by rewrite <- app_assoc.
    + change (0 <? 0) with false. cbv iota. by rewrite IH by (done || lia).
Qed.

Lemma scan_chains tab : forall Gtab,
  Forall (fun it => it_time it = 0) (mjoin tab) -> zlen Gtab + zlen (mjoin tab) <= NGROUPS_MAX ->
  apply_chains check now tab Gtab = (None, tab, Gtab ++ member_keys (mjoin tab), 0).
Proof.
  induction tab as [|chain tab IH]; intros Gtab Ht Hl; cbn [apply_chains].
  - by rewrite app_nil_r.
  - change (mjoin (chain :: tab)) with (chain ++ mjoin tab) in *.
    apply Forall_app in Ht as [Hc Ht]. rewrite zlen_app in Hl. pose proof (zlen_nonneg (mjoin tab)).
    rewrite scan_chain by (done || lia). pose proof (member_keys_length chain).
    rewrite IH by (try done; rewrite zlen_app; lia).
    by rewrite member_keys_app, <- app_assoc.
Qed.

Lemma scan_names t : names_wf t -> hashnum t <= NGROUPS_MAX ->
  Apply check now [] t = (None, member_keys (contents t), t).
Proof.
  intros [Hwf Hi] Hn. rewrite (wf_num _ t Hwf) in Hn. unfold Apply. rewrite scan_chains.
  - cbn [app]. rewrite Z.sub_0_r. by destruct t.
  - apply Forall_forall. intros it Hit. apply (Hi (it_key it) it).
    by apply items_lookup; [apply (wf_nodup _ t Hwf)|].
  - rewrite zlen_nil. unfold contents in Hn. lia.
Qed.

Lemma member_keys_elem t n : names_wf t ->
  n ∈ member_keys (contents t) <-> is_Some (items t !! n) /\ member n = true.
Proof.
  intros [Hwf Hi]. unfold member_keys. rewrite list_elem_of_filter, list_elem_of_fmap.
  split.
  - intros [Hm (it & -> & Hit)]. split; [|done]. exists it.
    by apply items_lookup; [apply (wf_nodup _ t Hwf)|].
  - intros [[it Hit] Hm]. split; [done|]. exists it.
    apply items_lookup in Hit as [Hit <-]; [done|apply (wf_nodup _ t Hwf)].
Qed.
End scan.

(** ** Netgroups *)

(** The entry [NetGroups] stores for an answer. *)
Definition cache_entry (now : Z) (key : bytes) (Gtab : list bytes) (g : XrdAccGroups)
  : Item XrdAccGroupList :=
  new_item hval no_list now key (GroupList_new Gtab) (gr_LifeTime g) Hash_default.

Definition short_key (user host : bytes) : Prop := zlen user + zlen host + 2 <= uh_key_size.

(** No live answer is cached for the user and host. *)
Definition not_cached (now : Z) (user host : bytes) (g : XrdAccGroups) : Prop :=
  match items (NetGroup_Cache g) !! uh_key user host with
  | Some it => expired now it = true
  | None => True
  end.

Lemma netgroups_fresh innetgr now user host g :
  groups_wf g -> HaveNetGroups g = true -> short_key user host ->
  hashnum (NetGroup_Names g) <= NGROUPS_MAX -> not_cached now user host g ->
  exists Gtab g', NetGroups innetgr now user host g = (answer Gtab, g') /\ groups_wf g' /\
    (forall n, n ∈ Gtab <-> registered n g /\ innetgr n host user None = true) /\
    zlen Gtab <= NGROUPS_MAX /\
    NetGroup_Names g' = NetGroup_Names g /\ HaveNetGroups g' = true /\
    gr_LifeTime g' = gr_LifeTime g /\
    items (NetGroup_Cache g') !! uh_key user host
      = Some (cache_entry now (uh_key user host) Gtab g).
Proof.
  intros Hg Hh Hk Hn Hc. unfold NetGroups. rewrite Hh. cbn [negb].
  destruct (Z.ltb_spec uh_key_size (zlen user + zlen host + 2)); [unfold short_key in Hk; lia|].
  set (key := uh_key user host). pose proof (gw_netcache g Hg) as Hwf.
  assert (exists tm c, Find hval now key (NetGroup_Cache g) = (None, tm, c) /\ hash_wf hval c /\
    items c !! key = None /\
    (forall k it, items c !! k = Some it -> items (NetGroup_Cache g) !! k = Some it))
    as (tm & c & -> & Hcwf & Hck & Hci).
  { pose proof (find_ok hval (NetGroup_Cache g) now key Hwf) as Hf. unfold not_cached in Hc.
    fold key in Hc. destruct (items (NetGroup_Cache g) !! key) as [it|] eqn:E.
    - rewrite Hc in Hf. destruct Hf as (t' & -> & Ht' & Hi). exists 0, t'.
      split; [done|]. split; [done|]. split; [by rewrite Hi, lookup_delete_eq|].
      intros k it'. rewrite Hi. by intros [_ H']%lookup_delete_Some.
    - rewrite Hf. by exists 0, (NetGroup_Cache g). }
  change (NetGroup_Names (set_netcache c g)) with (NetGroup_Names g).
  rewrite (scan_names innetgr user host now (NetGroup_Names g)) by (done || apply Hg).
  set (Gtab := member_keys innetgr user host (contents (NetGroup_Names g))).
  pose proof (add_ok hval no_list c now key (GroupList_new Gtab) (gr_LifeTime g) Hash_default Hcwf) as Ha.
  cbn [set_netnames set_netcache NetGroup_Cache gr_LifeTime].
  destruct (Add _ _ _ _ _ _ _ c) as [r c']. rewrite Hck in Ha. destruct Ha as (Hc'wf & _ & Hc'i).
  exists Gtab, (set_netcache c' (set_netnames (HaveNetGroups g) (NetGroup_Names g) (set_netcache c g))).
  split; [done|]. split.
  { split; cbn; try apply Hg; [done|]. intros k it. rewrite Hc'i.
    intros [[<- <-]|[_ H']]%lookup_insert_Some; [done|]. by eapply gw_next, Hci. }
  split; [intros n; apply member_keys_elem, Hg|].
  split. { pose proof (member_keys_length innetgr user host (contents (NetGroup_Names g))).
           rewrite (wf_num _ _ (nw_wf _ (gw_net g Hg))) in Hn. fold Gtab in H0. lia. }
  cbn. split; [done|]. split; [done|]. split; [done|]. by rewrite Hc'i, lookup_insert_eq.
Qed.

(** A cached answer is given again, whatever the netgroups are by then. *)
Lemma netgroups_cached innetgr now user host g it :
  groups_wf g -> HaveNetGroups g = true -> short_key user host ->
  items (NetGroup_Cache g) !! uh_key user host = Some it -> expired now it = false ->
  (NetGroups innetgr now user host g).1 = cached (it_data it).
Proof.
  intros Hg Hh Hk Hit He. unfold NetGroups. rewrite Hh. cbn [negb].
  destruct (Z.ltb_spec uh_key_size (zlen user + zlen host + 2)); [unfold short_key in Hk; lia|].
  pose proof (find_ok hval (NetGroup_Cache g) now (uh_key user host) (gw_netcache g Hg)) as Hf.
  rewrite Hit, He in Hf. by rewrite Hf.
Qed.

Lemma cached_answer Gtab : zlen Gtab <= NGROUPS_MAX -> cached (GroupList_new Gtab) = answer Gtab.
Proof.
  intros Hl. unfold cached, answer, GroupList_First, GroupList_new. cbn [grouptab].
  rewrite take_ge by (unfold zlen in Hl; lia). by destruct Gtab.
Qed.

Lemma listed_answer Gtab : zlen Gtab <= NGROUPS_MAX -> listed (answer Gtab) = Gtab.
Proof.
  intros Hl. destruct Gtab as [|n Gtab]; [done|].
  cbn [answer listed]. unfold GroupList_rest, GroupList_new. cbn [grouptab nextgroup].
  rewrite drop_0. apply take_ge. unfold zlen in Hl. lia.
Qed.

Lemma purge_wf g : groups_wf g -> groups_wf (PurgeCache g) /\
  items (NetGroup_Cache (PurgeCache g)) = ∅.
Proof.
  intros Hg. destruct (Purge_ok hval (NetGroup_Cache g) (gw_netcache g Hg)) as [H1 H2].
  destruct (Purge_ok hval (Group_Cache g) (gw_cache g Hg)) as [H3 _].
  split; [|done]. split; [apply Hg|apply Hg|done|done|]. intros k it.
  change (NetGroup_Cache (PurgeCache g)) with (Purge (NetGroup_Cache g)).
  by rewrite H2, lookup_empty.
Qed.

(** Without a live cached answer NetGroups lists exactly the registered
    netgroups the user and host belong to (asked without a domain, whatever
    SetDomain set); it repeats that answer for the life time, and asks again
    after PurgeCache. *)
Theorem NetGroups_lifetime innetgr now user host g :
  groups_wf g -> HaveNetGroups g = true -> short_key user host ->
  hashnum (NetGroup_Names g) <= NGROUPS_MAX -> not_cached now user host g -> 0 < gr_LifeTime g ->
  let '(glist, g') := NetGroups innetgr now user host g in
  (forall n, n ∈ listed glist <-> registered n g /\ innetgr n host user None = true) /\
  forall innetgr' now',
    (now <= now' <= now + gr_LifeTime g ->
     (NetGroups innetgr' now' user host g').1 = glist) /\
    (forall n, n ∈ listed (NetGroups innetgr' now' user host (PurgeCache g')).1 <->
       registered n g /\ innetgr' n host user None = true).
Proof.
  intros Hg Hh Hk Hn Hc Hlt.
  destruct (netgroups_fresh innetgr now user host g Hg Hh Hk Hn Hc)
    as (Gtab & g' & -> & Hg' & Hel & Hlen & Hnames & Hh' & Hlife & Hit).
  split; [intros n; rewrite listed_answer by done; apply Hel|]. intros innetgr' now'. split.
  - intros Hnow. rewrite (netgroups_cached _ _ _ _ _ _ Hg' Hh' Hk Hit); [by apply cached_answer|].
    unfold expired, cache_entry, new_item. cbn [it_time].
    destruct (Z.eqb_spec (gr_LifeTime g) 0); [lia|].
    destruct (Z.ltb_spec (gr_LifeTime g + now) now'); [lia|]. apply andb_false_r.
  - destruct (purge_wf g' Hg') as [Hp Hpi].
    destruct (netgroups_fresh innetgr' now' user host (PurgeCache g') Hp Hh' Hk)
      as (Gtab2 & g2 & -> & _ & Hel2 & Hlen2 & _); [cbn; by rewrite Hnames| |].
    + unfold not_cached. by rewrite Hpi, lookup_empty.
    + cbn [fst]. rewrite listed_answer by done. intros n. rewrite Hel2. unfold registered.
      cbn. by rewrite Hnames.
Qed.

(** ** Retranslated groups *)

(** The test that guards the array lets one entry too many through. *)
Fixpoint Retran_all (gids : list Z) (g : XrdAccGroups) : res (Z * XrdAccGroups) :=
  match gids with
  | [] => Ok (0, g)
  | gid :: gids => '(rc, g) ← Retran gid g; Retran_all gids g
  end.

Example Retran_overflow : Retran_all (Z.of_nat <$> seq 100 129) XrdAccGroups_new = Fault.
Proof. vm_compute. done. Qed.

(** ** The invariant holds from the start and is kept by [AddName] *)

Lemma groups_new_wf : groups_wf XrdAccGroups_new.
Proof.
  assert (names_wf (XrdOucHash 89 144 80)) as Hn.
  { destruct (XrdOucHash_wf (V:=bytes) hval 89 144 80) as [Hwf Hi]; [lia|lia|].
    split; [done|]. intros k it. by rewrite Hi, lookup_empty. }
  destruct (XrdOucHash_wf (V:=XrdAccGroupList) hval 89 144 80) as [Hwf Hi]; [lia|lia|].
  split; [exact Hn|exact Hn|exact Hwf|exact Hwf|]. intros k it.
  change (NetGroup_Cache XrdAccGroups_new) with (@XrdOucHash XrdAccGroupList 89 144 80).
  by rewrite Hi, lookup_empty.
Qed.

Lemma AddName_ok now gtype name g : groups_wf g ->
  (AddName now gtype name g).1 = Some name /\ groups_wf (AddName now gtype name g).2 /\
  (forall n, registered n (AddName now gtype name g).2 <->
     registered n g \/ gtype = XrdAccNetGroup /\ n = name).
Proof.
  intros Hg. unfold AddName. destruct gtype.
  - destruct (intern_ok (Group_Names g) now name (gw_unix g Hg)) as (H1 & H2 & _).
    destruct (intern now name (Group_Names g)) as [np hp]. cbn [fst snd] in *.
    split; [done|]. split; [split; try apply Hg; done|]. intros n. unfold registered. cbn.
    split; [auto|]. by intros [H|[]].
  - destruct (intern_ok (NetGroup_Names g) now name (gw_net g Hg)) as (H1 & H2 & H3).
    destruct (intern now name (NetGroup_Names g)) as [np hp]. cbn [fst snd] in *.
    split; [done|]. split; [split; try apply Hg; done|]. intros n. unfold registered. cbn.
    rewrite H3. tauto.
Qed.

Definition sample_groups : XrdAccGroups :=
  (AddName 5 XrdAccNetGroup (str "admins") XrdAccGroups_new).2.
Definition sample_innetgr (n h u : bytes) (d : option bytes) : bool := bool_decide (u = str "ann").

Lemma NetGroups_lifetime_witness :
  let '(glist, g') := NetGroups sample_innetgr 10 (str "ann") (str "a.org") sample_groups in
  (forall n, n ∈ listed glist <->
     registered n sample_groups /\ sample_innetgr n (str "a.org") (str "ann") None = true) /\
  forall innetgr' now',
    (10 <= now' <= 10 + 43200 -> (NetGroups innetgr' now' (str "ann") (str "a.org") g').1 = glist) /\
    (forall n, n ∈ listed (NetGroups innetgr' now' (str "ann") (str "a.org") (PurgeCache g')).1 <->
       registered n sample_groups /\ innetgr' n (str "a.org") (str "ann") None = true).
Proof.
  apply (NetGroups_lifetime sample_innetgr 10 (str "ann") (str "a.org") sample_groups).
  - apply AddName_ok, groups_new_wf.
  - reflexivity.
  - vm_compute. discriminate.
  - vm_compute. discriminate.
  - vm_compute. exact I.
  - reflexivity.
Defined.
