(* ===== verification/AccAccess.v ===== *)
(** * The access decision

    Models src/src/XrdAcc/XrdAccAccess.hh, XrdAccAccess.cc and XrdAccAudit, over
    any tables that keep the key table contract. The shared lock makes the reads
    of the tables one step. An identifier definition is an object of a heap, as
    the tables refer to it by address; a list linked by [next] is the list of
    its addresses. *)

From Stdlib Require Import Strings.String.
From stdpp Require Import base tactics list_numbers numbers option gmap list.
From S2P Require Import Prelude CString OucHash KeyTable AccCaps AccEntity AccGroups.

#[local] Set Warnings "-clear-no-such-hyp".

(** ** Operations *)

Definition AOP_Any := 0.
Definition AOP_LastOp := 16.

(** [need] of [Test]: it has 15 entries. *)
Definition need : list Z :=
  [XrdAccPriv_None; XrdAccPriv_Chmod; XrdAccPriv_Chown; XrdAccPriv_Create; XrdAccPriv_Delete;
   XrdAccPriv_Insert; XrdAccPriv_Lock; XrdAccPriv_Mkdir; XrdAccPriv_Read; XrdAccPriv_Readdir;
   XrdAccPriv_Rename; XrdAccPriv_Lookup; XrdAccPriv_Update; 0xffff; 0xffff].

(** [Test( priv, oper )] *)
Definition Test_ (priv oper : Z) : res Z :=
  if (oper <? 0) || (AOP_LastOp <? oper) then Ok 0
  else match need !! Z.to_nat oper with
       | Some n => Ok (if Z.land n priv =? n then 1 else 0)
       | None => Fault
       end.

(** ** Auditing *)

Definition audit_none := 0.
Definition audit_deny := 1.
Definition audit_grant := 2.
Definition audit_all := 3.

(** A message of the audit log. *)
Record AuditMsg := MkAudit {
  am_grant : bool; am_opname : bytes; am_id : bytes; am_host : bytes; am_path : bytes }.

(** [Auditing( ops )] *)
Definition Auditing (auditops ops : Z) : Z := Z.land auditops ops.

(** [Deny] and [Grant]: what they log; both test the same option. *)
Definition Audit_Deny (auditops : Z) (opname id host path : bytes) : option AuditMsg :=
  if negb (Z.land auditops audit_deny =? 0) then Some (MkAudit false opname id host path) else None.
Definition Audit_Grant (auditops : Z) (opname id host path : bytes) : option AuditMsg :=
  if negb (Z.land auditops audit_deny =? 0) then Some (MkAudit true opname id host path) else None.

Definition Opername : list bytes :=
  str <$> ["any"; "chmod"; "chown"; "create"; "delete"; "insert"; "lock"; "mkdir"; "read";
           "readdir"; "rename"; "stat"; "update"; "excl_create"; "excl_insert"; "stage"; "poll"]%string.

(** [Audit( accok, Entity, path, oper )]: the result and what is logged. *)
Definition Audit (auditops accok : Z) (Entity : SecEntity) (path : bytes) (oper : Z)
  : Z * option AuditMsg :=
  let opname := if AOP_LastOp <? oper then str "???" else default [] (Opername !! Z.to_nat oper) in
  let id :=
    match sec_reqname Entity with
    | Some (c :: u) => c :: u
    | _ => default (str "*") (sec_name Entity)
    end in
  let host := default (str "?") (sec_host Entity) in
  (accok, if negb (accok =? 0) then Audit_Grant auditops opname id host path
          else Audit_Deny auditops opname id host path).

(** [Access2( caps, Entity, path, oper )] *)
Definition Access2 (auditops : Z) (caps : XrdAccPrivCaps) (Entity : SecEntity) (path : bytes)
    (oper : Z) : res (Z * option AuditMsg) :=
  let audits := Auditing auditops audit_all in
  let myprivs := Z.land (pprivs caps) (Z.lnot (nprivs caps)) in
  if oper =? AOP_Any then Ok (myprivs, None)
  else
    accok ← Test_ myprivs oper;
    if audits =? 0 then Ok (accok, None)
    else if negb (accok =? 0) && (Z.land audits audit_grant =? 0) then Ok (accok, None)
    else Ok (Audit auditops accok Entity path oper).

(** [Resolve( Entity )] *)
Definition Resolve (Entity : SecEntity) : bytes :=
  match sec_host Entity with
  | None => sec_addr Entity
  | Some h =>
      match h with
      | c :: _ => if (c =? 91) || isdigit c then sec_addr Entity else h
      | [] => h
      end
  end.

(** ** Identifier definitions *)

(** [XrdAccAccess_ID] *)
Record XrdAccAccess_ID := MkAccessID {
  id_name : bytes;
  id_grp : option bytes; id_host : option bytes; id_org : option bytes;
  id_role : option bytes; id_user : option bytes;
  id_caps : option XrdAccCapability;
  id_rule : Z; id_hlen : Z; id_glen : Z }.

(** [sel && (!val || strcmp( sel, val ))] *)
Definition differs (sel val : option bytes) : bool :=
  match sel with None => false | Some _ => negb (bool_decide (sel = val)) end.

(** The host test of [Applies]: a name that starts with a dot is a domain. *)
Definition host_applies (host : option bytes) (hlen : Z) (ehost : bytes) : bool :=
  match host with
  | None => true
  | Some h =>
      match h with
      | c :: _ =>
          if c =? 46 then
            if zlen ehost <=? hlen then false
            else bool_decide (h = adv (zlen ehost - hlen) ehost)
          else bool_decide (h = ehost)
      | [] => bool_decide (h = ehost)
      end
  end.

(** [Applies( Entity )] *)
Definition Applies (x : XrdAccAccess_ID) (Entity : XrdAccEntityInfo) : bool :=
  negb (differs (id_org x) (snd <$> ei_vorg Entity)) &&
  negb (differs (id_role x) (snd <$> ei_role Entity)) &&
  negb (differs (id_grp x) (snd <$> ei_grup Entity)) &&
  negb (differs (id_user x) (Some (ei_name Entity))) &&
  host_applies (id_host x) (id_hlen x) (ei_host Entity).

(** ** Tables *)

Section access.
Context {TC TS : Type} `{!KeyTable TC XrdAccCapability} `{!KeyTable TS Z}.

(** [XrdAccAccess_Tables] and the identifier definitions it refers to. The list
    of domains ends at [E_List]. *)
Record XrdAccAccess_Tables := MkTables {
  G_Hash : option TC; H_Hash : option TC; N_Hash : option TC; O_Hash : option TC;
  R_Hash : option TC; S_Hash : option TS; T_Hash : option TC; U_Hash : option TC;
  D_List : list XrdAccCapName;
  X_List : option XrdAccCapability; Z_List : option XrdAccCapability;
  SXList : list Z; SYList : list Z;
  id_heap : gmap Z XrdAccAccess_ID }.

(** [XrdAccAccess]: the tables, the two flags, and the group object of the
    configuration. *)
Record XrdAccAccess := MkAccess {
  Atab : XrdAccAccess_Tables; hostRefX : bool; hostRefY : bool; GroupMaster : XrdAccGroups }.

Definition id_at (t : XrdAccAccess_Tables) (a : Z) : res XrdAccAccess_ID :=
  match id_heap t !! a with Some x => Ok x | None => Fault end.

(** Whether an identifier of a list names a host. *)
Fixpoint any_host (t : XrdAccAccess_Tables) (l : list Z) : res bool :=
  match l with
  | [] => Ok false
  | a :: l =>
      x ← id_at t a;
      match id_host x with Some _ => Ok true | None => any_host t l end
  end.

Definition nonnull {A} (o : option A) : bool := bool_decide (is_Some o).

(** [SwapTabs( newtab )]: the new state and the tables given back. *)
Definition SwapTabs (newtab : XrdAccAccess_Tables) (st : XrdAccAccess)
  : res (XrdAccAccess * XrdAccAccess_Tables) :=
  hRefX ← any_host newtab (SXList newtab);
  hRefY ←
    (if hRefX : bool then Ok false
     else if negb (bool_decide (D_List newtab = [])) || nonnull (H_Hash newtab) || nonnull (N_Hash newtab)
     then Ok true
     else any_host newtab (SYList newtab));
  Ok (MkAccess newtab hRefX hRefY (PurgeCache (GroupMaster st)), Atab st).

Section decide.
Context (innetgr : bytes -> bytes -> bytes -> option bytes -> bool).
Context (now : Z) (path : bytes).

(** [cp->Privs( caps, path, plen, phash, sub )] *)
Definition add_privs (sub : option bytes) (cp : XrdAccCapability) (caps : XrdAccPrivCaps)
  : XrdAccPrivCaps := (Privs path sub cp caps).2.

(** [if (cp) cp->Privs( ... )] *)
Definition add_opt (sub : option bytes) (cp : option XrdAccCapability) (caps : XrdAccPrivCaps)
  : XrdAccPrivCaps :=
  match cp with Some cp => add_privs sub cp caps | None => caps end.

(** [if (Hash && (cp = Hash->Find( key )))]; the entries are permanent, so that
    looking one up does not change the table. *)
Definition hash_find (h : option TC) (key : bytes) : option XrdAccCapability :=
  t ← h; (kt_find now key t).1.

(** [xlP->caps->Privs( ... )] through a pointer that must not be null. *)
Definition id_privs (x : XrdAccAccess_ID) (caps : XrdAccPrivCaps) : res XrdAccPrivCaps :=
  match id_caps x with Some c => Ok (add_privs None c caps) | None => Fault end.

(** What [Next] sets of the entity information. *)
Definition attr_info (info : XrdAccEntityInfo) (a : EntityAttr) : XrdAccEntityInfo :=
  MkInfo (ei_name info) (ei_host info) (at_vorg a) (at_role a) (at_grup a).

(** The exclusive list: the first rule that applies to some attributes. *)
Fixpoint first_exclusive (t : XrdAccAccess_Tables) (l : list Z) (aeP : XrdAccEntity)
    (eInfo : XrdAccEntityInfo) : res (option XrdAccAccess_ID) :=
  match l with
  | [] => Ok None
  | a :: l =>
      x ← id_at t a;
      if existsb (fun at_ => Applies x (attr_info eInfo at_)) aeP then Ok (Some x)
      else first_exclusive t l aeP eInfo
  end.

(** The inclusive list for one set of attributes. *)
Fixpoint inclusive (t : XrdAccAccess_Tables) (l : list Z) (eInfo : XrdAccEntityInfo)
    (caps : XrdAccPrivCaps) : res XrdAccPrivCaps :=
  match l with
  | [] => Ok caps
  | a :: l =>
      x ← id_at t a;
      caps ← (if Applies x eInfo then id_privs x caps else Ok caps);
      inclusive t l eInfo caps
  end.

(** An attribute that may be repeated: its privileges are added when its pointer
    is not the one seen last. *)
Definition add_repeated (h : option TC) (val prev : option ptr) (caps : XrdAccPrivCaps)
  : option ptr * XrdAccPrivCaps :=
  match h, val with
  | Some _, Some v =>
      if bool_decide (val = prev) then (prev, caps)
      else (val, add_opt None (hash_find h v.2) caps)
  | _, _ => (prev, caps)
  end.

(** The loop over the attributes. *)
Fixpoint attr_loop (t : XrdAccAccess_Tables) (attrs : list EntityAttr) (eInfo : XrdAccEntityInfo)
    (vorgPrev rolePrev : option ptr) (caps : XrdAccPrivCaps) : res XrdAccPrivCaps :=
  match attrs with
  | [] => Ok caps
  | a :: attrs =>
      let eInfo := attr_info eInfo a in
      let caps := match ei_grup eInfo with
                  | Some g => add_opt None (hash_find (G_Hash t) g.2) caps
                  | None => caps
                  end in
      let '(vorgPrev, caps) := add_repeated (O_Hash t) (ei_vorg eInfo) vorgPrev caps in
      let '(rolePrev, caps) := add_repeated (R_Hash t) (ei_role eInfo) rolePrev caps in
      caps ← inclusive t (SYList t) eInfo caps;
      attr_loop t attrs eInfo vorgPrev rolePrev caps
  end.

(** The name the rules see and whether it is a user's. *)
Definition access_name (Entity : SecEntity) : bytes * bool :=
  match sec_reqname Entity with
  | Some (c :: u) => (c :: u, true)
  | _ => match sec_name Entity with
         | Some n => (n, negb (bool_decide (n = [])))
         | None => (str "*", false)
         end
  end.

(** The netgroup privileges. *)
Definition add_netgroups (t : XrdAccAccess_Tables) (name host : bytes) (g : XrdAccGroups)
    (caps : XrdAccPrivCaps) : XrdAccPrivCaps * XrdAccGroups :=
  match N_Hash t with
  | Some _ =>
      if bool_decide (head host = Some 63) then (caps, g)
      else
        let '(glp, g) := NetGroups innetgr now name host g in
        (fold_left (fun caps gname => add_opt None (hash_find (N_Hash t) gname) caps)
           match glp with Some glp => GroupList_rest glp | None => [] end caps, g)
  | None => (caps, g)
  end.

(** The privileges [Access] collects from the tables. *)
Definition Access_caps (st : XrdAccAccess) (Entity : SecEntity) (aeP : XrdAccEntity)
  : res (XrdAccPrivCaps * XrdAccGroups) :=
  let t := Atab st in
  let '(name, isuser) := access_name Entity in
  let host := if hostRefX st then Resolve Entity else str "?" in
  let eInfo := MkInfo name host None None None in
  ex ← first_exclusive t (SXList t) aeP eInfo;
  match ex with
  | Some x => caps ← id_privs x PrivCaps_none; Ok (caps, GroupMaster st)
  | None =>
      let host := if negb (hostRefX st) && hostRefY st then Resolve Entity else host in
      let eInfo := MkInfo name host None None None in
      let caps := add_opt None (Z_List t) PrivCaps_none in
      let caps := add_opt None (CapName_Find (D_List t) host) caps in
      let caps := add_opt None (hash_find (H_Hash t) host) caps in
      let '(caps, g) := add_netgroups t name host (GroupMaster st) caps in
      let caps := if isuser : bool then add_opt (Some name) (X_List t) caps else caps in
      let caps := if isuser then add_opt None (hash_find (U_Hash t) name) caps else caps in
      caps ← attr_loop t aeP eInfo None None caps;
      Ok (caps, g)
  end.

(** [Access( Entity, path, oper )]: the result, the audit message, the entity
    with its attributes attached, and the state. *)
Definition Access (auditops oper : Z) (Entity : SecEntity) (st : XrdAccAccess)
  : res (Z * option AuditMsg * SecEntity * XrdAccAccess) :=
  '(aeP, isNew) ← GetEntity Entity;
  match aeP with
  | None =>
      '(r, msg) ← Access2 auditops PrivCaps_none Entity path oper;
      Ok (r, msg, Entity, st)
  | Some aeP =>
      '(caps, g) ← Access_caps st Entity aeP;
      '(r, msg) ← Access2 auditops caps Entity path oper;
      Ok (r, msg, if isNew : bool then PutEntity aeP Entity else Entity,
          MkAccess (Atab st) (hostRefX st) (hostRefY st) g)
  end.
End decide.

(** ** Rules and what they give *)

Section rules.
Context (innetgr : bytes -> bytes -> bytes -> option bytes -> bool).
Context (now : Z) (path : bytes).

(** A set of capability chains, each with the substitution it is tried with. *)
Abbreviation rules := (XrdAccCapability -> option bytes -> Prop).

(** A chain gives a bit of [f] for the path. *)
Definition gives (f : XrdAccPrivCaps -> Z) (i : Z) (c : XrdAccCapability) (s : option bytes) : Prop :=
  exists p, chain_privs path s c = Some p /\ Z.testbit (f p) i = true.

(** The privileges are those all chains of the set give together. *)
Definition collects (S : rules) (caps : XrdAccPrivCaps) : Prop :=
  forall f, f = pprivs \/ f = nprivs -> forall i,
    Z.testbit (f caps) i = true <-> exists c s, S c s /\ gives f i c s.

Definition no_rule : rules := fun _ _ => False.
Definition union_rules (S T : rules) : rules := fun c s => S c s \/ T c s.
Definition one_rule (o : option XrdAccCapability) (s : option bytes) : rules :=
  fun c s' => o = Some c /\ s' = s.

Lemma collects_none : collects no_rule PrivCaps_none.
Proof.
  intros f [-> | ->] i; cbn; rewrite Z.testbit_0_l; (split; [done|]); by intros (c & s & [] & _).
Qed.

Lemma collects_ext S T caps : (forall c s, S c s <-> T c s) -> collects S caps -> collects T caps.
Proof.
  intros H Hc f Hf i. rewrite (Hc f Hf i). split; intros (c & s & Hs & Hg); exists c, s;
    (split; [by apply H|done]).
Qed.

Lemma collects_add S s o caps :
  collects S caps -> collects (union_rules S (one_rule o s)) (add_opt path s o caps).
Proof.
  intros Hc f Hf i. unfold union_rules, one_rule. destruct o as [c|]; cbn [add_opt].
  - unfold add_privs. rewrite privs_ok.
    assert (Z.testbit (f (match chain_privs path s c with
      | Some p => (true, privs_or caps p) | None => (false, caps) end).2) i
      = Z.testbit (f caps) i || match chain_privs path s c with
                                | Some p => Z.testbit (f p) i | None => false end) as ->.
    { destruct (chain_privs path s c) as [p|]; cbn [snd]; [|by rewrite orb_false_r].
      destruct Hf as [-> | ->]; cbn; by rewrite Z.lor_spec. }
    rewrite orb_true_iff, (Hc f Hf i). split.
    + intros [(c' & s' & Hs & Hg)|H]; [by exists c', s'; auto|].
      exists c, s. split; [by right|]. unfold gives. destruct (chain_privs path s c); [eauto|done].
    + intros (c' & s' & [Hs|(E & ->)] & Hg); [left; by exists c', s'|]. right. injection E as <-.
      by destruct Hg as (p & -> & Hp).
  - rewrite (Hc f Hf i). split; [intros (c & s' & Hs & Hg); exists c, s'; auto|].
    intros (c & s' & [Hs|(E & _)] & Hg); [by exists c, s'|done].
Qed.

(** ** Well-formed tables *)

Definition hash_ok (h : option TC) : Prop := forall tab, h = Some tab -> kt_wf tab.

(** The rule of a key. *)
Definition rule_of (h : option TC) (k : bytes) : option XrdAccCapability :=
  tab ← h; kt_map tab !! k.

Definition good_id (t : XrdAccAccess_Tables) (a : Z) : Prop :=
  exists x c, id_heap t !! a = Some x /\ id_caps x = Some c.

Record tables_wf (t : XrdAccAccess_Tables) : Prop := {
  tw_hashes : Forall hash_ok [G_Hash t; H_Hash t; N_Hash t; O_Hash t; R_Hash t; U_Hash t];
  tw_sx : Forall (good_id t) (SXList t);
  tw_sy : Forall (good_id t) (SYList t) }.

Definition ids (t : XrdAccAccess_Tables) (l : list Z) : list XrdAccAccess_ID :=
  omap (fun a => id_heap t !! a) l.

(** The host flags are the ones [SwapTabs] computes. *)
Definition flags_ok (st : XrdAccAccess) : Prop :=
  let t := Atab st in
  any_host t (SXList t) = Ok (hostRefX st) /\
  (if hostRefX st then Ok false
   else if negb (bool_decide (D_List t = [])) || nonnull (H_Hash t) || nonnull (N_Hash t)
   then Ok true else any_host t (SYList t)) = Ok (hostRefY st).

Lemma hash_find_ok h k : hash_ok h -> hash_find now h k = rule_of h k.
Proof.
  intros H. unfold hash_find, rule_of. destruct h as [tab|]; [|done]. cbn.
  by destruct (kt_find_ok now k tab (H tab eq_refl)) as (-> & _).
Qed.

Lemma ids_cons t a l x : id_heap t !! a = Some x -> ids t (a :: l) = x :: ids t l.
Proof. intros H. unfold ids. cbn. by rewrite H. Qed.

Lemma SwapTabs_flags newtab st st' old :
  SwapTabs newtab st = Ok (st', old) -> flags_ok st' /\ Atab st' = newtab /\ old = Atab st /\
    GroupMaster st' = PurgeCache (GroupMaster st).
Proof.
  unfold SwapTabs, flags_ok. intros H. apply bind_ok in H as (x & Hx & H).
  apply bind_ok in H as (y & Hy & H). injection H as <- <-. done.
Qed.

(** ** The lists of identifiers *)

Lemma any_host_false t l : any_host t l = Ok false -> forall x, x ∈ ids t l -> id_host x = None.
Proof.
  induction l as [|a l IH]; cbn [any_host]; [intros _ x Hx; by apply elem_of_nil in Hx|].
  unfold id_at. destruct (id_heap t !! a) as [y|] eqn:E; [|done]. rewrite bind_Ok.
  destruct (id_host y) eqn:Eh; [done|]. intros H x. rewrite (ids_cons t a l y E).
  intros [->|Hx]%elem_of_cons; [done|by apply IH].
Qed.

(** An identifier applies to an entity with these attributes. *)
Definition id_applies (name host : bytes) (a : EntityAttr) (x : XrdAccAccess_ID) : bool :=
  Applies x (MkInfo name host (at_vorg a) (at_role a) (at_grup a)).

Lemma applies_nohost name h h' a x : id_host x = None -> id_applies name h a x = id_applies name h' a x.
Proof. intros H. unfold id_applies, Applies. by rewrite H. Qed.

Definition exclusive_applies (name host : bytes) (aeP : XrdAccEntity) (x : XrdAccAccess_ID) : bool :=
  existsb (fun a => id_applies name host a x) aeP.

Lemma exclusive_nohost name h h' aeP x :
  id_host x = None -> exclusive_applies name h aeP x = exclusive_applies name h' aeP x.
Proof.
  intros H. unfold exclusive_applies. induction (aeP : list EntityAttr) as [|a l IH]; [done|].
  cbn [existsb]. by rewrite IH, (applies_nohost name h h').
Qed.

Lemma first_exclusive_ok t l aeP name host : Forall (good_id t) l ->
  first_exclusive t l aeP (MkInfo name host None None None)
  = Ok (List.find (exclusive_applies name host aeP) (ids t l)).
Proof.
  induction l as [|a l IH]; intros Hg; [done|]. apply Forall_cons in Hg as [(x & c & Hx & Hc) Hg].
  rewrite (ids_cons t a l x Hx). cbn [first_exclusive List.find]. unfold id_at. rewrite Hx. step_ok.
  change (existsb _ _) with (exclusive_applies name host aeP x).
  by destruct (exclusive_applies name host aeP x); [|apply IH].
Qed.

(** The rules of an inclusive list for one set of attributes. *)
Definition set_rules (t : XrdAccAccess_Tables) (l : list Z) (name host : bytes) (a : EntityAttr)
  : rules := fun c s => s = None /\
    exists x, x ∈ ids t l /\ id_applies name host a x = true /\ id_caps x = Some c.

Lemma inclusive_ok t l name host a : Forall (good_id t) l -> forall S caps, collects S caps ->
  exists caps', inclusive path t l (MkInfo name host (at_vorg a) (at_role a) (at_grup a)) caps = Ok caps' /\
    collects (union_rules S (set_rules t l name host a)) caps'.
Proof.
  induction l as [|b l IH]; intros Hg S caps Hc.
  - exists caps. split; [done|]. eapply collects_ext, Hc. intros c s. unfold union_rules, set_rules.
    split; [auto|]. intros [H|(_ & x & Hx & _)]; [done|]. by apply elem_of_nil in Hx.
  - apply Forall_cons in Hg as [(x & c & Hx & Hxc) Hg]. cbn [inclusive]. unfold id_at. rewrite Hx.
    step_ok. change (Applies x _) with (id_applies name host a x).
    destruct (id_applies name host a x) eqn:Ea.
    + unfold id_privs. rewrite Hxc. step_ok.
      destruct (IH Hg _ _ (collects_add S None (Some c) caps Hc)) as (caps' & H & Hc').
      exists caps'. split; [exact H|]. eapply collects_ext, Hc'. intros c' s'.
      unfold union_rules, set_rules, one_rule. rewrite (ids_cons t b l x Hx).
      setoid_rewrite elem_of_cons. clear -Ea Hxc. naive_solver.
    + step_ok. destruct (IH Hg S caps Hc) as (caps' & H & Hc'). exists caps'. split; [exact H|].
      eapply collects_ext, Hc'. intros c' s'. unfold union_rules, set_rules.
      rewrite (ids_cons t b l x Hx). setoid_rewrite elem_of_cons. clear -Ea. naive_solver congruence.
Qed.

(** ** The attribute loop *)

(** The rules one set of attributes selects. *)
Definition attr_rules (t : XrdAccAccess_Tables) (name host : bytes) (a : EntityAttr) : rules :=
  fun c s => s = None /\
    ((exists g, at_grup a = Some g /\ rule_of (G_Hash t) g.2 = Some c) \/
     (exists v, at_vorg a = Some v /\ rule_of (O_Hash t) v.2 = Some c) \/
     (exists r, at_role a = Some r /\ rule_of (R_Hash t) r.2 = Some c) \/
     set_rules t (SYList t) name host a c None).

(** The privileges of the attribute seen last have been added. *)
Definition prev_ok (h : option TC) (prev : option ptr) (S : rules) : Prop :=
  forall p c, prev = Some p -> rule_of h p.2 = Some c -> S c None.

Definition val_rules (h : option TC) (val : option ptr) : rules :=
  fun c s => s = None /\ exists v, val = Some v /\ rule_of h v.2 = Some c.

Lemma add_repeated_ok h val prev S caps : hash_ok h -> collects S caps -> prev_ok h prev S ->
  let '(prev', caps') := add_repeated now path h val prev caps in
  collects (union_rules S (val_rules h val)) caps' /\ prev_ok h prev' (union_rules S (val_rules h val)).
Proof.
  intros Hh Hc Hp. unfold add_repeated, union_rules, val_rules, prev_ok.
  destruct h as [tab|].
  - destruct val as [v|].
    + destruct (bool_decide_reflect (Some v = prev)) as [<-|Hne].
      * split; [|intros p c E Hr; left; by eapply Hp].
        eapply collects_ext, Hc. intros c s. split; [auto|].
        intros [H|(-> & v' & [= <-] & Hr)]; [done|by eapply Hp].
      * rewrite (hash_find_ok _ _ Hh). split.
        -- eapply collects_ext, (collects_add S None), Hc. intros c s. unfold union_rules, one_rule.
           naive_solver.
        -- intros p c [= <-] Hr. right. eauto.
    + split; [|intros p c E Hr; left; by eapply Hp]. eapply collects_ext, Hc. naive_solver.
  - split; [eapply collects_ext, Hc; naive_solver|]. intros p c _ Hr. done.
Qed.

Lemma prev_ok_mono h prev S T : (forall c s, S c s -> T c s) -> prev_ok h prev S -> prev_ok h prev T.
Proof. unfold prev_ok. eauto. Qed.

Lemma attr_loop_ok t name host : tables_wf t -> forall attrs vorg0 role0 grup0 vp rp S caps,
  collects S caps -> prev_ok (O_Hash t) vp S -> prev_ok (R_Hash t) rp S ->
  exists caps', attr_loop now path t attrs (MkInfo name host vorg0 role0 grup0) vp rp caps = Ok caps' /\
    collects (union_rules S (fun c s => exists a, a ∈ attrs /\ attr_rules t name host a c s)) caps'.
Proof.
  intros Hwf. pose proof (tw_hashes t Hwf) as Hh. rewrite !Forall_cons in Hh.
  destruct Hh as (HG & _ & _ & HO & HR & _ & _).
  induction attrs as [|a attrs IH]; intros vorg0 role0 grup0 vp rp S caps Hc Hv Hr.
  { exists caps. split; [done|]. eapply collects_ext, Hc. intros c s. unfold union_rules.
    split; [auto|]. intros [Hs|(a & Ha & _)]; [done|]. by apply elem_of_nil in Ha. }
  cbn [attr_loop]. unfold attr_info. cbn [ei_name ei_host ei_vorg ei_role ei_grup].
  set (caps1 := match at_grup a with Some g => _ | None => caps end).
  assert (collects (union_rules S (val_rules (G_Hash t) (at_grup a))) caps1) as Hc1.
  { subst caps1. destruct (at_grup a) as [g|].
    - rewrite hash_find_ok by done. eapply collects_ext, (collects_add S None), Hc.
      intros c s. unfold union_rules, one_rule, val_rules. naive_solver.
    - eapply collects_ext, Hc. unfold union_rules, val_rules. naive_solver. }
  clearbody caps1. set (S1 := union_rules S _) in Hc1.
  assert (forall c s, S c s -> S1 c s) as HS1 by (intros; by left).
  pose proof (add_repeated_ok (O_Hash t) (at_vorg a) vp S1 caps1) as HO2.
  destruct (add_repeated _ _ _ _ _ _) as [vp' caps2].
  destruct HO2 as [Hc2 Hv2]; [done|done|by eapply prev_ok_mono|]. set (S2 := union_rules S1 _) in Hc2, Hv2.
  assert (forall c s, S1 c s -> S2 c s) as HS2 by (intros; by left).
  pose proof (add_repeated_ok (R_Hash t) (at_role a) rp S2 caps2) as HR3.
  destruct (add_repeated _ _ _ _ _ _) as [rp' caps3].
  destruct HR3 as [Hc3 Hr3]; [done|done|by eapply prev_ok_mono; [|exact Hr]; auto|].
  set (S3 := union_rules S2 _) in Hc3, Hr3.
  assert (forall c s, S2 c s -> S3 c s) as HS3 by (intros; by left).
  destruct (inclusive_ok t (SYList t) name host a (tw_sy t Hwf) S3 caps3 Hc3) as (caps4 & -> & Hc4).
  step_ok. set (S4 := union_rules S3 _) in Hc4.
  assert (forall c s, S3 c s -> S4 c s) as HS4 by (intros; by left).
  destruct (IH (at_vorg a) (at_role a) (at_grup a) vp' rp' S4 caps4 Hc4) as (caps' & H & Hc');
    [eapply prev_ok_mono; [|exact Hv2]; auto|eapply prev_ok_mono; [|exact Hr3]; auto|].
  exists caps'. split; [exact H|]. eapply collects_ext, Hc'. intros c s.
  subst S4 S3 S2 S1. unfold union_rules, attr_rules, val_rules.
  setoid_rewrite elem_of_cons. unfold set_rules. clear. naive_solver.
Qed.

(** ** Which rules apply to an entity *)

(** The netgroups of the entity, as the group object answers. *)
Definition netgroups_of (st : XrdAccAccess) (name host : bytes) : list bytes :=
  listed (NetGroups innetgr now name host (GroupMaster st)).1.

(** The rules other than exclusive ones that apply to an entity on [host]. *)
Inductive applicable (st : XrdAccAccess) (e : SecEntity) (aeP : XrdAccEntity) (host : bytes)
  : XrdAccCapability -> option bytes -> Prop :=
  | app_default c : Z_List (Atab st) = Some c -> applicable st e aeP host c None
  | app_domain c : CapName_Find (D_List (Atab st)) host = Some c -> applicable st e aeP host c None
  | app_host c : rule_of (H_Hash (Atab st)) host = Some c -> applicable st e aeP host c None
  | app_netgroup n c : head host <> Some 63 -> n ∈ netgroups_of st (access_name e).1 host ->
      rule_of (N_Hash (Atab st)) n = Some c -> applicable st e aeP host c None
  | app_fungible c : (access_name e).2 = true -> X_List (Atab st) = Some c ->
      applicable st e aeP host c (Some (access_name e).1)
  | app_user c : (access_name e).2 = true -> rule_of (U_Hash (Atab st)) (access_name e).1 = Some c ->
      applicable st e aeP host c None
  | app_attr a c s : a ∈ (aeP : list EntityAttr) ->
      attr_rules (Atab st) (access_name e).1 host a c s -> applicable st e aeP host c s.

(** The rules that decide: the first exclusive one that applies, alone, and
    otherwise all that apply. *)
Definition governs (st : XrdAccAccess) (e : SecEntity) (aeP : XrdAccEntity) : rules :=
  match List.find (exclusive_applies (access_name e).1 (Resolve e) aeP)
          (ids (Atab st) (SXList (Atab st))) with
  | Some x => fun c s => id_caps x = Some c /\ s = None
  | None => applicable st e aeP (Resolve e)
  end.

Record access_wf (st : XrdAccAccess) : Prop := {
  aw_tables : tables_wf (Atab st);
  aw_flags : flags_ok st }.

Lemma add_netgroups_ok t name host g S caps : hash_ok (N_Hash t) -> collects S caps ->
  exists caps' g', add_netgroups innetgr now path t name host g caps = (caps', g') /\
    collects (union_rules S (fun c s => s = None /\ head host <> Some 63 /\
      exists n, n ∈ listed (NetGroups innetgr now name host g).1 /\ rule_of (N_Hash t) n = Some c)) caps'.
Proof.
  intros Hh Hc. unfold add_netgroups, rule_of.
  destruct (N_Hash t) as [tab|] eqn:E; cycle 1.
  { eexists _, _. split; [reflexivity|]. eapply collects_ext, Hc. unfold union_rules. naive_solver. }
  case_bool_decide as Hq.
  { eexists _, _. split; [reflexivity|]. eapply collects_ext, Hc. unfold union_rules. naive_solver. }
  destruct (NetGroups innetgr now name host g) as [glp g']. cbn [fst].
  change (match glp with Some glp => GroupList_rest glp | None => [] end) with (listed glp).
  eexists _, _. split; [reflexivity|]. revert S caps Hc.
  induction (listed glp) as [|n l IH]; intros S caps Hc; cbn [fold_left].
  - eapply collects_ext, Hc. unfold union_rules. intros c s. split; [auto|].
    intros [H|(_ & _ & n & Hn & _)]; [done|]. by apply elem_of_nil in Hn.
  - rewrite (hash_find_ok _ n Hh). specialize (IH _ _ (collects_add S None (rule_of (Some tab) n) caps Hc)).
    eapply collects_ext, IH. unfold union_rules, one_rule, rule_of. cbn. intros c s.
    setoid_rewrite elem_of_cons. clear -Hq. naive_solver.
Qed.

(** The host matters only when some rule refers to hosts. *)
Lemma applicable_nohost st e aeP h h' :
  hostRefX st = false -> hostRefY st = false -> flags_ok st ->
  forall c s, applicable st e aeP h c s -> applicable st e aeP h' c s.
Proof.
  intros HX HY [_ HY'] c s. rewrite HX, HY in HY'.
  destruct (negb (bool_decide (D_List (Atab st) = [])) || nonnull (H_Hash (Atab st))
    || nonnull (N_Hash (Atab st))) eqn:Eq; [done|].
  rewrite !orb_false_iff, negb_false_iff, bool_decide_eq_true in Eq.
  destruct Eq as [[HD HH] HN].
  assert (forall o : option TC, nonnull o = false -> o = None) as Hnn by (by intros []).
  apply Hnn in HH, HN. intros Ha. destruct Ha as [c Hz|c Hd|c Hh|n c Hq Hn Hr|c Hu Hx|c Hu Hx|a c s Ha Hr].
  - by apply app_default.
  - rewrite HD in Hd. done.
  - rewrite HH in Hh. done.
  - rewrite HN in Hr. done.
  - by apply app_fungible.
  - by apply app_user.
  - eapply app_attr; [exact Ha|]. destruct Hr as (-> & Hr). split; [done|].
    destruct Hr as [Hr|[Hr|[Hr|(_ & x & Hx & Hap & Hc)]]]; [auto..|]. do 3 right. split; [done|].
    exists x. split; [done|]. split; [|done].
    rewrite <- Hap. symmetry. apply applies_nohost. by eapply any_host_false.
Qed.

Lemma find_ext {A} (f g : A -> bool) l : (forall x, x ∈ l -> f x = g x) -> List.find f l = List.find g l.
Proof.
  induction l as [|x l IH]; intros H; [done|]. cbn. rewrite (H x) by (by left).
  destruct (g x); [done|]. apply IH. intros y Hy. apply H. by right.
Qed.

Lemma collects_if (b : bool) s o S caps : collects S caps ->
  collects (union_rules S (fun c s' => b = true /\ one_rule o s c s'))
    (if b then add_opt path s o caps else caps).
Proof.
  intros Hc. destruct b.
  - eapply collects_ext, (collects_add _ s o), Hc. unfold union_rules. naive_solver.
  - eapply collects_ext, Hc. unfold union_rules. naive_solver.
Qed.

(** The rules that do not look at the attributes, in the order of the code. *)
Definition base_rules (st : XrdAccAccess) (name host : bytes) (isuser : bool) : rules :=
  let t := Atab st in
  union_rules (union_rules
    (union_rules
       (union_rules (union_rules (union_rules no_rule (one_rule (Z_List t) None))
          (one_rule (CapName_Find (D_List t) host) None))
          (one_rule (rule_of (H_Hash t) host) None))
       (fun c s => s = None /\ head host <> Some 63 /\
          exists n, n ∈ netgroups_of st name host /\ rule_of (N_Hash t) n = Some c))
    (fun c s => isuser = true /\ one_rule (X_List t) (Some name) c s))
    (fun c s => isuser = true /\ one_rule (rule_of (U_Hash t) name) None c s).

Lemma base_rules_applicable st e aeP host name isuser c s : access_name e = (name, isuser) ->
  union_rules (base_rules st name host isuser)
    (fun c s => exists a, a ∈ (aeP : list EntityAttr) /\ attr_rules (Atab st) name host a c s) c s
  <-> applicable st e aeP host c s.
Proof.
  intros En. unfold base_rules, union_rules, one_rule, no_rule.
  assert ((access_name e).1 = name /\ (access_name e).2 = isuser) as [H1 H2] by (by rewrite En).
  split.
  - intros [[[[[[[[]|(H & ->)]|(H & ->)]|(H & ->)]|(-> & Hq & n & Hn & Hr)]|(-> & Hx & ->)]|(-> & Hx & ->)]
            |(a & Ha & Hr)].
    + by apply app_default.
    + by apply app_domain.
    + by apply app_host.
    + eapply app_netgroup; [done| |done]. by rewrite H1.
    + rewrite <- H1. by apply app_fungible.
    + apply app_user; by rewrite ?H1.
    + eapply app_attr; [done|]. by rewrite H1.
  - intros Ha. destruct Ha as [c Hz|c Hd|c Hh|n c Hq Hn Hr|c Hu Hx|c Hu Hx|a c s Ha Hr];
      rewrite ?H1, ?H2 in *; [naive_solver..| |naive_solver|naive_solver|naive_solver].
    left. left. left. right. eauto.
Qed.

(** The privileges collected are those of the rules that govern. *)
Lemma Access_caps_ok st e aeP : access_wf st ->
  exists caps g, Access_caps innetgr now path st e aeP = Ok (caps, g) /\
    collects (governs st e aeP) caps.
Proof.
  intros [Hwf Hfl]. pose proof (tw_hashes (Atab st) Hwf) as Hh. rewrite !Forall_cons in Hh.
  destruct Hh as (HG & HH & HN & HO & HR & HU & _).
  unfold Access_caps, governs. destruct (access_name e) as [name isuser] eqn:En. cbn [fst].
  rewrite (first_exclusive_ok _ _ _ _ _ (tw_sx _ Hwf)). step_ok.
  rewrite (find_ext (exclusive_applies name (if hostRefX st then Resolve e else str "?") aeP)
             (exclusive_applies name (Resolve e) aeP)).
  2: { intros x Hx. destruct (hostRefX st) eqn:EX; [done|]. apply exclusive_nohost.
       destruct Hfl as [HX _]. rewrite EX in HX. by eapply any_host_false. }
  destruct (List.find _ _) as [x|] eqn:Ex.
  { apply List.find_some in Ex as [Hx _].
    assert (exists c, id_caps x = Some c) as [c Hc].
    { apply list_elem_of_In in Hx. unfold ids in Hx. apply list_elem_of_omap in Hx as (a & Ha & Hax).
      pose proof (proj1 (Forall_forall _ _) (tw_sx _ Hwf) a Ha) as (x' & c & Hx' & Hc).
      rewrite Hax in Hx'. injection Hx' as <-. eauto. }
    unfold id_privs. rewrite Hc. step_ok. eexists _, _. split; [reflexivity|].
    eapply collects_ext, (collects_add no_rule None (Some c)), collects_none.
    intros c' s. unfold union_rules, no_rule, one_rule. naive_solver. }
  set (host := if negb (hostRefX st) && hostRefY st then Resolve e
               else if hostRefX st then Resolve e else str "?").
  rewrite (hash_find_ok (H_Hash (Atab st)) host HH), (hash_find_ok (U_Hash (Atab st)) name HU).
  pose proof (collects_add _ None (Z_List (Atab st)) _ collects_none) as H1.
  apply (collects_add _ None (CapName_Find (D_List (Atab st)) host)) in H1.
  apply (collects_add _ None (rule_of (H_Hash (Atab st)) host)) in H1.
  destruct (add_netgroups_ok (Atab st) name host (GroupMaster st) _ _ HN H1) as (caps & g & -> & H2).
  apply (collects_if isuser (Some name) (X_List (Atab st))) in H2.
  apply (collects_if isuser None (rule_of (U_Hash (Atab st)) name)) in H2.
  destruct (attr_loop_ok (Atab st) name host Hwf aeP None None None None None _ _ H2)
    as (caps' & -> & Hc'); [by intros p c|by intros p c|].
  step_ok. eexists _, _. split; [reflexivity|]. eapply collects_ext, Hc'. intros c s.
  rewrite (base_rules_applicable st e aeP host name isuser c s En).
  subst host. destruct (hostRefX st) eqn:EX, (hostRefY st) eqn:EY; cbn [negb andb]; try done.
  split; by apply applicable_nohost.
Qed.

(** ** The decision *)

Lemma land_subset n p : 0 <= n ->
  Z.land n p = n <-> forall i, 0 <= i -> Z.testbit n i = true -> Z.testbit p i = true.
Proof.
  intros Hn. split.
  - intros H i Hi Hb. rewrite <- H, Z.land_spec in Hb. by apply andb_true_iff in Hb as [_ ?].
  - intros H. apply Z.bits_inj'. intros i Hi. rewrite Z.land_spec.
    destruct (Z.testbit n i) eqn:E; [|done]. by rewrite (H i Hi E).
Qed.

(** [Test] compares bit by bit; its table lacks the last two operations. *)
Lemma test_ok p oper : 0 <= oper <= AOP_LastOp ->
  match need !! Z.to_nat oper with
  | Some n => oper < 15 /\ 0 <= n /\ Test_ p oper = Ok (if Z.land n p =? n then 1 else 0)
  | None => 15 <= oper /\ Test_ p oper = Fault
  end.
Proof.
  unfold AOP_LastOp. intros Ho. unfold Test_, AOP_LastOp.
  destruct (Z.ltb_spec oper 0); [lia|]. destruct (Z.ltb_spec 16 oper); [lia|]. cbn [orb].
  destruct (need !! Z.to_nat oper) as [n|] eqn:E.
  - split; [|split; [|done]].
    + apply lookup_lt_Some in E. change (length need) with 15%nat in E. lia.
    + apply list_elem_of_lookup_2 in E.
      assert (Forall (fun n => 0 <= n) need) as Hall by (repeat constructor; vm_compute; discriminate).
      by apply (proj1 (Forall_forall _ _) Hall).
  - split; [|done]. apply lookup_ge_None in E. change (length need) with 15%nat in E. lia.
Qed.

(** Auditing never changes the answer. *)
Lemma access2_ok auditops caps e oper : 0 <= oper <= AOP_LastOp ->
  let p := Z.land (pprivs caps) (Z.lnot (nprivs caps)) in
  match need !! Z.to_nat oper with
  | Some n => exists msg, Access2 auditops caps e path oper =
      Ok (if oper =? AOP_Any then p else if Z.land n p =? n then 1 else 0, msg)
  | None => Access2 auditops caps e path oper = Fault
  end.
Proof.
  intros Ho p. unfold Access2. fold p. pose proof (test_ok p oper Ho) as Ht.
  destruct (Z.eqb_spec oper AOP_Any) as [->|Hne]; [by exists None|].
  destruct (need !! Z.to_nat oper) as [n|]; destruct Ht as (_ & Ht); [destruct Ht as [_ Ht]|];
    rewrite Ht; [|done]. step_ok. destruct (Auditing auditops audit_all =? 0); [eauto|].
  destruct (_ && _); [eauto|]. unfold Audit. eauto.
Qed.

(** The rules give the entity the privilege bit, and none takes it away. *)
Definition granted (st : XrdAccAccess) (e : SecEntity) (aeP : XrdAccEntity) (i : Z) : Prop :=
  (exists c s, governs st e aeP c s /\ gives pprivs i c s) /\
  ~ (exists c s, governs st e aeP c s /\ gives nprivs i c s).

Lemma privs_granted st e aeP caps : collects (governs st e aeP) caps ->
  forall i, 0 <= i ->
    Z.testbit (Z.land (pprivs caps) (Z.lnot (nprivs caps))) i = true <-> granted st e aeP i.
Proof.
  intros Hc i Hi. unfold granted. rewrite Z.land_spec, Z.lnot_spec by done.
  rewrite andb_true_iff, negb_true_iff, (Hc pprivs) by auto.
  by rewrite <- (Hc nprivs), not_true_iff_false by auto.
Qed.

Lemma GetEntity_attached e aeP isNew : GetEntity e = Ok (Some aeP, isNew) ->
  sec_acc (if isNew then PutEntity aeP e else e) = Some aeP.
Proof.
  unfold GetEntity, PutEntity. destruct (sec_acc e) eqn:E; [by intros [= <- <-]|].
  intros H. apply bind_ok in H as ([a aOK] & _ & H). destruct aOK; [|done].
  by injection H as <- <-.
Qed.

(** C3: For every operation of the enumeration and every entity whose
    attributes compile, Access returns, from tables in any representation that
    keeps the key table contract: the privilege bits that some governing rule
    gives and none takes away (operation any), or 1 exactly when all bits the
    operation needs are of that kind. The governing rules are the first
    exclusive one that applies, alone, and otherwise all default, domain,
    host, netgroup, fungible, user, group, organization, role and compound
    rules that apply to the resolved host; neither their order, nor repeated
    attributes, nor deferring the host lookup, nor auditing changes the
    answer. For stage and poll the table of needs is read out of its bounds.
    *)
Theorem Access_decides auditops oper e st aeP isNew :
  access_wf st -> GetEntity e = Ok (Some aeP, isNew) -> 0 <= oper <= AOP_LastOp ->
  match Access innetgr now path auditops oper e st with
  | Ok (r, _, e', st') =>
      oper < 15 /\ sec_acc e' = Some aeP /\ Atab st' = Atab st /\
      if oper =? AOP_Any then forall i, 0 <= i -> Z.testbit r i = true <-> granted st e aeP i
      else (r = 1 \/ r = 0) /\
           (r = 1 <-> forall i n, need !! Z.to_nat oper = Some n -> 0 <= i ->
              Z.testbit n i = true -> granted st e aeP i)
  | Fault => 15 <= oper
  | _ => False
  end.
Proof.
  intros Hwf He Ho. unfold Access. rewrite He. step_ok.
  destruct (Access_caps_ok st e aeP Hwf) as (caps & g & -> & Hc). step_ok.
  pose proof (privs_granted st e aeP caps Hc) as Hp.
  pose proof (access2_ok auditops caps e oper Ho) as H2. cbv zeta in H2.
  set (p := Z.land (pprivs caps) (Z.lnot (nprivs caps))) in *.
  pose proof (test_ok p oper Ho) as Ht.
  destruct (need !! Z.to_nat oper) as [n|]; [|rewrite H2; apply Ht].
  destruct Ht as (Hlt & Hn & _). destruct H2 as [msg ->]. step_ok.
  split; [done|]. split; [by apply GetEntity_attached|]. split; [done|].
  destruct (oper =? AOP_Any); [done|].
  split; [destruct (Z.land n p =? n); auto|].
  transitivity (Z.land n p = n); [destruct (Z.eqb_spec (Z.land n p) n); split; (done || lia)|].
  rewrite land_subset by done. split.
  - intros H i n' [= <-] Hi Hb. apply Hp; auto.
  - intros H i Hi Hb. apply Hp; eauto.
Qed.

(** Without organization, role and group the definitions of compound identifiers
    never apply, not even those that ask for a user or a host only. *)
Lemma no_attributes e : sec_acc e = None -> sec_vorg e = None -> sec_role e = None ->
  sec_grps e = None -> GetEntity e = Ok (Some [], true).
Proof.
  intros H1 H2 H3 H4. unfold GetEntity, XrdAccEntity_new. by rewrite H1, H2, H3, H4.
Qed.

(** For an entity without organization, role and group no compound
    identifier applies, exclusive or not, even one that names only a user or a
    host: just the default, domain, host, netgroup, fungible and user rules
    govern. *)
Theorem compound_needs_attributes e st :
  sec_acc e = None -> sec_vorg e = None -> sec_role e = None -> sec_grps e = None ->
  exists aeP, GetEntity e = Ok (Some aeP, true) /\
    forall c s, governs st e aeP c s <->
      base_rules st (access_name e).1 (Resolve e) (access_name e).2 c s.
Proof.
  intros H1 H2 H3 H4. exists []. split; [by apply no_attributes|]. intros c s. unfold governs.
  assert (forall l, List.find (exclusive_applies (access_name e).1 (Resolve e) []) l = None) as ->
    by (intros l; by induction l).
  destruct (access_name e) as [name isuser] eqn:En.
  rewrite <- (base_rules_applicable st e [] (Resolve e) name isuser c s En). unfold union_rules.
  split; [|auto]. intros [H|(a & Ha & _)]; [done|]. by apply elem_of_nil in Ha.
Qed.
End rules.
End access.

(** ** A sample configuration *)

#[export] Instance cap_table : KeyTable (Hash XrdAccCapability) XrdAccCapability :=
  OucHash_table XrdOucHashVal (fun _ => Capability_path [] PrivCaps_none).
#[export] Instance id_table : KeyTable (Hash Z) Z := OucHash_table XrdOucHashVal (fun _ => 0).

Definition cap_read : XrdAccCapability :=
  Capability_path (str "/data") (MkPrivCaps XrdAccPriv_Read 0).

(** User ann may read /data; the members of atlas may do anything but delete. *)
Definition sample_tables : XrdAccAccess_Tables (TC := Hash XrdAccCapability) (TS := Hash Z) :=
  MkTables None None None None None None None (Some (kt_add 0 (str "ann") cap_read kt_empty))
    [] None None [] [1]
    {[ 1 := MkAccessID (str "at") None None (Some (str "atlas")) None None
              (Some (Capability_path (str "/data") (MkPrivCaps XrdAccPriv_All XrdAccPriv_Delete)))
              (-1) 0 0 ]}.

Definition sample_access : XrdAccAccess := MkAccess sample_tables false false XrdAccGroups_new.

Lemma sample_access_wf : access_wf sample_access.
Proof.
  split; [|by split]. split; [|constructor|].
  - assert (hash_ok (@None (Hash XrdAccCapability))) as Hn by done.
    do 5 (apply Forall_cons; split; [exact Hn|]). apply Forall_cons. split; [|constructor].
    intros tab H. set (ann := kt_add 0 (str "ann") cap_read kt_empty).
    change (Some ann = Some tab) in H. assert (ann = tab) as <- by congruence. clear H. subst ann.
    destruct (kt_empty_ok (T := Hash XrdAccCapability)) as [H1 H2].
    apply (kt_add_ok 0 (str "ann") cap_read); [done|by rewrite H2, lookup_empty].
  - apply Forall_cons. split; [|constructor]. eexists _, _. split; [vm_compute|]; reflexivity.
Qed.

Definition member_entity : SecEntity :=
  MkSec (Some (str "ann")) (Some (str "a.org")) (Some (str "atlas")) None None None (str "?") None.

Definition member_attrs : XrdAccEntity := [MkAttr (Some (0, str "atlas")) None None].

Definition sample_result (oper : Z) : res Z :=
  '(r, _, _, _) ← Access (fun _ _ _ _ => false) 0 (str "/data/f") 0 oper member_entity sample_access;
  Ok r.

(** The witness reads the decision off the rules: writing is granted, deleting
    is not, and staging reads outside the table of needs. *)
Lemma Access_decides_witness :
  granted (fun _ _ _ _ => false) 0 (str "/data/f") sample_access member_entity member_attrs 6 /\
  ~ granted (fun _ _ _ _ => false) 0 (str "/data/f") sample_access member_entity member_attrs 0.
Proof.
  assert (Z.testbit match sample_result 0 with Ok r => r | _ => 0 end 6 = true /\
          Z.testbit match sample_result 0 with Ok r => r | _ => 0 end 0 = false) as [H6 H0]
    by (vm_compute; done).
  pose proof (Access_decides (fun _ _ _ _ => false) 0 (str "/data/f") 0 0 member_entity sample_access
    member_attrs true sample_access_wf eq_refl) as H.
  unfold sample_result in H6, H0.
  destruct (Access _ _ _ _ _ _ _) as [[[[r m] e'] st']| | |]; try done.
  destruct H as (_ & _ & _ & H); [unfold AOP_LastOp; lia|]. rewrite bind_Ok in H6, H0. split.
  - apply H; [lia|done].
  - intros Hg. apply H in Hg; [|lia]. congruence.
Defined.

Example stage_faults : sample_result 15 = Fault /\ sample_result 12 = Ok 1 /\ sample_result 4 = Ok 0.
Proof. vm_compute. done. Qed.

(** With auditing of grants only, nothing is ever logged. *)
Example grant_audit_silent : (Access2 audit_grant (MkPrivCaps XrdAccPriv_All 0) member_entity
  (str "/data/f") 8) ≫= (fun r => Ok r.2) = Ok None.
Proof. vm_compute. done. Qed.

Definition plain_entity : SecEntity :=
  MkSec (Some (str "ann")) (Some (str "a.org")) None None None None (str "?") None.

Lemma compound_needs_attributes_witness : exists aeP, GetEntity plain_entity = Ok (Some aeP, true) /\
  forall c s, governs (fun _ _ _ _ => false) 0 sample_access plain_entity aeP c s <->
    base_rules (fun _ _ _ _ => false) 0 sample_access (str "ann") (str "a.org") true c s.
Proof.
  apply (compound_needs_attributes (fun _ _ _ _ => false) 0 plain_entity sample_access); reflexivity.
Defined.
