(* ===== verification/AccAuthFile.v ===== *)
(** * The authorization data base and its file

    [AuthDB] is the interface src/src/XrdAcc/XrdAccAuthDB.hh gives the
    configuration, with what the configuration relies on: every record and every
    item read makes the rest shorter. The instance is XrdAccAuthFile.cc over the
    words of src/src/XrdOuc/XrdOucStream.cc ([GetToken] and [GetWord]; reading
    blocks of the file is not modelled, the file is its list of lines). Messages
    are left out. *)

From Stdlib Require Import Strings.String.
From stdpp Require Import base tactics list_numbers numbers option list.
From S2P Require Import Prelude CString AccEntity.

(** What [getPP] sets: the path (null after an error), the privileges, whether
    it is a template name. *)
Record PathPriv := MkPP { pp_path : option bytes; pp_priv : option bytes; pp_istmplt : bool }.

Class AuthDB (D : Type) := {
  db_getRec : D -> res (option (Z * bytes) * D);
  db_getID : D -> option (Z * bytes) * D;
  db_getPP : D -> option PathPriv * D;
  db_Close : D -> bool * D;
  db_left : D -> nat;
  db_getRec_ok d : exists r d', db_getRec d = Ok (r, d') /\
    (db_left d' <= db_left d)%nat /\ (is_Some r -> db_left d' < db_left d)%nat;
  db_getID_ok d : (db_left (db_getID d).2 <= db_left d)%nat /\
    (is_Some (db_getID d).1 -> db_left (db_getID d).2 < db_left d)%nat;
  db_getPP_ok d : (db_left (db_getPP d).2 <= db_left d)%nat /\
    (is_Some (db_getPP d).1 -> db_left (db_getPP d).2 < db_left d)%nat }.

(** ** The stream of words *)

(** [XrdOucStream]: the lines not read, the rest of the current line (null when
    it is used up), and whether the line continues. *)
Record Stream := MkStream { sm_lines : list bytes; sm_token : option bytes; sm_xcont : bool }.

(** The lines of a text, with tabs taken for blanks as [Tabs( 0 )] asks. *)
Fixpoint lines_of (text : bytes) : list bytes :=
  match text with
  | [] => [[]]
  | c :: text =>
      if c =? 10 then [] :: lines_of text
      else let c := if c =? 9 then 32 else c in
           match lines_of text with l :: ls => (c :: l) :: ls | [] => [[c]] end
  end.

Definition Stream_Attach (text : bytes) : Stream := MkStream (lines_of text) None true.

(** [GetToken()] on the rest of a line: the token and the rest after it. *)
Definition Stream_GetToken (token : option bytes) : option (bytes * bytes) :=
  s ← token;
  let '(_, s) := skip_while isblank 0 s in
  match s with
  | [] => None
  | _ => let '(w, rest) := span_until isblank s in Some (w, tail rest)
  end.

(** Drop the blanks at the end of a text. *)
Definition rstrip (s : bytes) : bytes := reverse (skip_while isblank 0 (reverse s)).2.

(** The end of the line decides about continuation: [w] is its first word and
    [rest] what follows the null stored after it. The result is the word, the
    rest, and [xcont]. *)
Definition continuation (w rest : bytes) : bytes * bytes * bool :=
  match rest with
  | [] => if bool_decide (last w = Some 92) then (removelast w, [], true) else (w, [], false)
  | _ =>
      let r := rstrip (tail rest) in
      if bool_decide (last r = Some 92) then (w, removelast r, true) else (w, tail rest, false)
  end.

(** The search of [GetWord] for the next line that is neither blank nor a
    comment. *)
Fixpoint next_line (lines : list bytes) (xcont : bool) : option bytes * Stream :=
  match lines with
  | [] => (None, MkStream [] None xcont)
  | line :: lines =>
      match (skip_while isblank 0 line).2 with
      | [] => next_line lines xcont
      | s =>
          let '(w, rest) := span_until isblank s in
          if bool_decide (head w = Some 35) then next_line lines xcont
          else
            let '(w, rest, xcont) := continuation w rest in
            (Some w, MkStream lines (Some rest) xcont)
      end
  end.

(** [GetWord()] *)
Definition GetWord (st : Stream) : option bytes * Stream :=
  match Stream_GetToken (sm_token st) with
  | Some (w, rest) => (Some w, MkStream (sm_lines st) (Some rest) (sm_xcont st))
  | None =>
      if negb (sm_xcont st) then (None, MkStream (sm_lines st) None true)
      else next_line (sm_lines st) (sm_xcont st)
  end.

(** ** The file *)

Definition MAXHOSTNAMELEN : Z := 64.
Definition MAXPATHLEN : Z := 4096.

(** [XrdAccAuthFile]: the stream, the flags, and the two buffers. *)
Record AuthFile := MkAuthFile {
  af_file : Stream;
  af_inRec : bool; af_isOpen : bool; af_dbError : bool;
  recname_buff : bytes; path_buff : bytes }.

Definition set_file (s : Stream) (inRec : bool) (d : AuthFile) : AuthFile :=
  MkAuthFile s inRec (af_isOpen d) (af_dbError d) (recname_buff d) (path_buff d).
Definition set_error (d : AuthFile) : AuthFile :=
  MkAuthFile (af_file d) (af_inRec d) (af_isOpen d) true (recname_buff d) (path_buff d).
Definition set_path (p : bytes) (d : AuthFile) : AuthFile :=
  MkAuthFile (af_file d) (af_inRec d) (af_isOpen d) (af_dbError d) (recname_buff d) p.
Definition set_recname (n : bytes) (d : AuthFile) : AuthFile :=
  MkAuthFile (af_file d) (af_inRec d) (af_isOpen d) (af_dbError d) n (path_buff d).

(** [Copy( dp, sp, dplen )]: at most [dplen-1] characters. *)
Definition Copy (sp : bytes) (dplen : Z) : bytes := take (Z.to_nat (dplen - 1)) sp.

(** [Open( path )] on a file with the given text. *)
Definition AuthFile_Open (text : bytes) : AuthFile :=
  MkAuthFile (Stream_Attach text) false true false [] (str "start of file").

(** [Close()]: whether there were no errors. *)
Definition AuthFile_Close (d : AuthFile) : bool * AuthFile :=
  if negb (af_isOpen d) then (true, d)
  else (negb (af_dbError d),
        MkAuthFile (af_file d) (af_inRec d) false (af_dbError d) (recname_buff d) (path_buff d)).

(** [getID( id )] *)
Definition getID (d : AuthFile) : option (Z * bytes) * AuthFile :=
  if negb (af_inRec d) then (None, d)
  else
    match GetWord (af_file d) with
    | (None, s) => (None, set_file s false d)
    | (Some pp, s) =>
        let d := set_file s true d in
        match pp with
        | idcode :: _ =>
            if (2 <? zlen pp) || negb (existsb (Z.eqb idcode) (str "ghoru")) then (None, set_error d)
            else
              match GetWord s with
              | (None, s) => (None, set_error (set_file s false d))
              | (Some pp, s) =>
                  let id := Copy pp (MAXPATHLEN + 2 - 1) in
                  (Some (idcode, id), set_path id (set_file s true d))
              end
        | [] =>
            (* the null character is found at the end of "ghoru" *)
            match GetWord s with
            | (None, s) => (None, set_error (set_file s false d))
            | (Some pp, s) =>
                (None, set_path (Copy pp (MAXPATHLEN + 2 - 1)) (set_file s true d))
            end
        end
    end.

(** The check of the object specification: the text without a leading backslash,
    whether the path is set to null, whether it is a template. *)
Definition object_kind (pp : bytes) : bytes * bool * bool :=
  match pp with
  | c :: pp' =>
      if c =? 92 then
        match pp' with _ :: _ => (pp', false, false) | [] => (pp, true, false) end
      else (pp, false, negb (c =? 47))
  | [] => (pp, false, true)
  end.

(** [getPP( path, priv, istmplt )] *)
Definition getPP (d : AuthFile) : option PathPriv * AuthFile :=
  if negb (af_inRec d) then (None, d)
  else
    match GetWord (af_file d) with
    | (None, s) => (None, set_file s false d)
    | (Some pp, s) =>
        let d := set_file s true d in
        let '(pp, nopath, istmplt) := object_kind pp in
        let d := if nopath : bool then set_error d else d in
        let text := Copy pp (MAXPATHLEN + 2 - 1) in
        let d := set_path text d in
        let path := if nopath then None else Some text in
        if istmplt : bool then (Some (MkPP path None true), d)
        else
          match GetWord s with
          | (None, s) => (None, set_error (set_file s false d))
          | (Some priv, s) => (Some (MkPP path (Some priv) false), set_file s true d)
          end
    end.

(** [while(DBfile.GetWord()) {}] *)
Fixpoint flush_record (fuel : nat) (s : Stream) : res Stream :=
  match fuel with
  | O => Diverge
  | S fuel => match GetWord s with (Some _, s) => flush_record fuel s | (None, s) => Ok s end
  end.

(** The characters a stream still has, lines counted. *)
Definition stream_left (s : Stream) : nat :=
  (foldr (fun l n => S (length l) + n) 0 (sm_lines s) +
   match sm_token s with Some t => S (length t) | None => 0 end)%nat.

Definition record_types : bytes := str "ghsnortux=".

(** [getRec( recname )] *)
Fixpoint getRec_loop (fuel : nat) (d : AuthFile) : res (option (Z * bytes) * AuthFile) :=
  match fuel with
  | O => Diverge
  | S fuel =>
      s ← (if af_inRec d then flush_record (S (stream_left (af_file d))) (af_file d)
           else Ok (af_file d));
      match GetWord s with
      | (None, s) => Ok (None, set_file s true d)
      | (Some pp, s) =>
          let d := set_file s true d in
          match pp with
          | [rectype] =>
              if negb (existsb (Z.eqb rectype) record_types) then getRec_loop fuel (set_error d)
              else
                match GetWord s with
                | (None, s) => getRec_loop fuel (set_error (set_file s true d))
                | (Some pp, s) =>
                    let name := Copy pp (MAXHOSTNAMELEN + 1) in
                    Ok (Some (rectype, name), set_recname name (set_file s true d))
                end
          | _ => getRec_loop fuel (set_error d)
          end
      end
  end.

Definition getRec (d : AuthFile) : res (option (Z * bytes) * AuthFile) :=
  getRec_loop (S (stream_left (af_file d))) d.

(** ** Every word read makes the stream shorter *)

Definition shrinks (r : option bytes) (a b : nat) : Prop := (b <= a)%nat /\ (is_Some r -> b < a)%nat.

Lemma skip_while_length blank off s : (length (skip_while blank off s).2 <= length s)%nat.
Proof.
  revert off. induction s as [|c s IH]; intros off; cbn [skip_while]; [done|].
  destruct (blank c); [|done]. specialize (IH (off + 1)). cbn [length]. lia.
Qed.

Lemma span_until_length stop s w r : span_until stop s = (w, r) ->
  (length w + length r = length s)%nat.
Proof. intros H. apply span_until_spec in H as (-> & _). by rewrite length_app. Qed.

Lemma tail_length {A} (l : list A) : (length (tail l) <= length l)%nat.
Proof. destruct l; cbn; lia. Qed.

Lemma removelast_length {A} (l : list A) : (length (removelast l) <= length l)%nat.
Proof. rewrite removelast_firstn_len, length_take. lia. Qed.

(** The word at a nonblank position is not empty. *)
Lemma first_word_length blank off s r w rest : skip_while blank off s = r -> r.2 <> [] ->
  span_until blank r.2 = (w, rest) -> (length rest < length s)%nat.
Proof.
  intros <- Hne Hs. pose proof (skip_while_length blank off s) as Hl.
  pose proof (span_until_length _ _ _ _ Hs) as Hw.
  destruct (skip_while blank off s) as [o k] eqn:E. cbn [snd] in *.
  apply skip_while_spec in E as (_ & _ & _ & _ & Hk). destruct k as [|c k]; [done|].
  cbn [span_until] in Hs. rewrite Hk in Hs. destruct (span_until blank k). injection Hs as <- <-.
  cbn [length] in *. lia.
Qed.

Lemma rstrip_length s : (length (rstrip s) <= length s)%nat.
Proof.
  unfold rstrip. rewrite length_reverse.
  pose proof (skip_while_length isblank 0 (reverse s)) as H. by rewrite length_reverse in H.
Qed.

Lemma continuation_length w rest w' rest' x : continuation w rest = (w', rest', x) ->
  (length rest' <= length rest)%nat.
Proof.
  unfold continuation. destruct rest as [|c r]; cbn [tail length].
  - destruct (bool_decide _); by intros [= <- <- <-].
  - pose proof (rstrip_length r). pose proof (removelast_length (rstrip r)).
    destruct (bool_decide _); intros [= <- <- <-]; lia.
Qed.

Lemma next_line_left lines : forall xcont tok,
  let '(r, s) := next_line lines xcont in
  shrinks r (stream_left (MkStream lines tok xcont)) (stream_left s).
Proof.
  induction lines as [|line lines IH]; intros xcont tok; cbn [next_line].
  - split; [cbn; lia|]. by intros [].
  - assert (forall k, (k <= length line)%nat ->
      (foldr (fun l n => S (length l) + n) 0 lines + k < stream_left (MkStream (line :: lines) tok xcont))%nat)
      as Hk by (intros k Hk; unfold stream_left; cbn; lia).
    assert (let '(r, s) := next_line lines xcont in
      shrinks r (stream_left (MkStream (line :: lines) tok xcont)) (stream_left s)) as Hrec.
    { specialize (IH xcont None). destruct (next_line lines xcont) as [r s].
      destruct IH as [H1 H2]. specialize (Hk O ltac:(lia)).
      change (stream_left (MkStream lines None xcont))
        with (foldr (fun l n => S (length l) + n) 0 lines + 0)%nat in H1, H2.
      split; [lia|intros Hr; specialize (H2 Hr); lia]. }
    destruct (skip_while isblank 0 line) as [o s] eqn:E. cbn [snd].
    destruct s as [|c s]; [done|]. destruct (span_until isblank (c :: s)) as [w rest] eqn:Es.
    destruct (bool_decide _); [done|].
    destruct (continuation w rest) as [[w' rest'] x] eqn:Ec. apply continuation_length in Ec.
    assert (length rest < length line)%nat by (by eapply first_word_length in E).
    specialize (Hk (S (length rest')) ltac:(lia)).
    change (foldr _ 0%nat lines + _)%nat with (stream_left (MkStream lines (Some rest') x)) in Hk.
    split; [lia|]. intros _. lia.
Qed.

Lemma GetWord_left s : shrinks (GetWord s).1 (stream_left s) (stream_left (GetWord s).2).
Proof.
  unfold GetWord, Stream_GetToken. destruct s as [ls [t|] x]; cbn [sm_token sm_lines sm_xcont].
  - cbn [mbind option_bind]. destruct (skip_while isblank 0 t) as [o s] eqn:E.
    destruct s as [|c s].
    + destruct x; cbn [negb].
      * pose proof (next_line_left ls true (Some t)) as H. by destruct (next_line ls true).
      * split; [unfold stream_left; cbn; lia|]. by intros [].
    + destruct (span_until isblank (c :: s)) as [w rest] eqn:Es. cbn [fst snd].
      assert (length rest < length t)%nat by (by eapply first_word_length in E).
      pose proof (tail_length rest). unfold shrinks, stream_left. cbn [sm_lines sm_token].
      split; [lia|]. intros _. lia.
  - cbn [mbind option_bind]. destruct x; cbn [negb].
    + pose proof (next_line_left ls true None) as H. by destruct (next_line ls true).
    + split; [unfold stream_left; cbn; lia|]. by intros [].
Qed.

(** Use the lemma on a call in the goal, naming its outcome. *)
Ltac get_word s :=
  let H := fresh "Hleft" in
  pose proof (GetWord_left s) as H; destruct (GetWord s) as [[?|] ?]; cbn [fst snd] in H;
  unfold shrinks in H.

Definition file_left (d : AuthFile) : nat := stream_left (af_file d).

Lemma getID_left d : shrinks (snd <$> (getID d).1) (file_left d) (file_left (getID d).2).
Proof.
  unfold getID, shrinks, file_left. destruct (af_inRec d); cbn [negb]; [|split; [done|by intros []]].
  get_word (af_file d); [|split; [cbn; lia|by intros []]].
  destruct Hleft as [_ Hlt]. specialize (Hlt ltac:(by eexists)). destruct l as [|c w].
  - get_word s; cbn; (split; [lia|by intros []]).
  - destruct (_ || _); [cbn; split; [lia|by intros []]|].
    get_word s; cbn; (split; [lia|]); [intros _; lia|by intros []].
Qed.

Lemma getPP_left d : shrinks ((fun _ => []) <$> (getPP d).1) (file_left d) (file_left (getPP d).2).
Proof.
  unfold getPP, shrinks, file_left. destruct (af_inRec d); cbn [negb]; [|split; [done|by intros []]].
  get_word (af_file d); [|split; [cbn; lia|by intros []]].
  destruct Hleft as [_ Hlt]. specialize (Hlt ltac:(by eexists)).
  destruct (object_kind l) as [[pp nopath] tm].
  destruct tm; [destruct nopath; cbn; (split; [lia|intros _; lia])|].
  get_word s; destruct nopath; cbn; (split; [lia|]); first [intros _; lia|by intros []].
Qed.

Lemma flush_ok fuel : forall s, (stream_left s < fuel)%nat ->
  exists s', flush_record fuel s = Ok s' /\ (stream_left s' <= stream_left s)%nat.
Proof.
  induction fuel as [|fuel IH]; intros s Hf; [lia|]. cbn [flush_record]. get_word s.
  - destruct Hleft as [_ Hlt]. specialize (Hlt ltac:(by eexists)).
    destruct (IH s0) as (s' & -> & Hs'); [lia|]. exists s'. split; [done|lia].
  - exists s0. split; [done|lia].
Qed.

Lemma getRec_loop_ok fuel : forall d, (file_left d < fuel)%nat ->
  exists r d', getRec_loop fuel d = Ok (r, d') /\ shrinks (snd <$> r) (file_left d) (file_left d').
Proof.
  unfold file_left. induction fuel as [|fuel IH]; intros d Hf; [lia|]. cbn [getRec_loop].
  assert (exists s, (if af_inRec d then flush_record (S (stream_left (af_file d))) (af_file d)
    else Ok (af_file d)) = Ok s /\ (stream_left s <= stream_left (af_file d))%nat) as (s & -> & Hs).
  { destruct (af_inRec d); [|eauto]. apply flush_ok. lia. }
  step_ok. get_word s; [|eexists _, _; split; [reflexivity|]; split; [cbn; lia|by intros []]].
  destruct Hleft as [_ Hlt]. specialize (Hlt ltac:(by eexists)).
  assert (forall d0, (stream_left (af_file d0) <= stream_left s0)%nat -> exists r d',
    getRec_loop fuel d0 = Ok (r, d') /\
    shrinks (snd <$> r) (stream_left (af_file d)) (stream_left (af_file d'))) as Hrec.
  { intros d0 Hd0. destruct (IH d0) as (r & d' & H & H1 & H2); [lia|]. eexists _, _.
    split; [exact H|]. split; [lia|]. intros Hr. specialize (H2 Hr). lia. }
  destruct l as [|c [|c2 w]]; [by apply Hrec| |by apply Hrec].
  destruct (negb _); [by apply Hrec|]. get_word s0; [|apply Hrec; cbn; lia].
  eexists _, _. split; [reflexivity|]. cbn. split; [lia|]. intros _. lia.
Qed.

#[export] Instance AuthFile_db : AuthDB AuthFile.
Proof.
  refine {| db_getRec := getRec; db_getID := getID; db_getPP := getPP; db_Close := AuthFile_Close;
            db_left := file_left |}; intros d.
  - destruct (getRec_loop_ok (S (file_left d)) d) as (r & d' & H & H1 & H2); [lia|].
    exists r, d'. split; [exact H|]. split; [done|]. intros [x ->]. apply H2. by eexists.
  - destruct (getID_left d) as [H1 H2]. split; [done|]. intros [x Hx]. apply H2. rewrite Hx. by eexists.
  - destruct (getPP_left d) as [H1 H2]. split; [done|]. intros [x Hx]. apply H2. rewrite Hx. by eexists.
Defined.

(** A name longer than the buffer is cut without notice. *)
Example long_name_cut :
  let name := replicate 70 97 in
  match getRec (AuthFile_Open (str "u " ++ name ++ str " /data r")) with
  | Ok (Some (c, n), _) => c = 117 /\ n = replicate 64 97
  | _ => False
  end.
Proof. vm_compute. done. Qed.
