(* ===== verification/AccConfig.v ===== *)
(** * Loading the authorization data base

    Models the data base part of src/src/XrdAcc/XrdAccConfig.cc: [ConfigDB],
    [ConfigDBrec], [idDef], [idChk] and [subSpace], over any [AuthDB] and any key
    tables. An identifier definition is an object the tables of the set names and
    the list [SYList] both point to, so it lives in the heap of the tables.
    Messages are left out. *)

From Stdlib Require Import Strings.String.
From stdpp Require Import base tactics list_numbers numbers option gmap list.
From S2P Require Import Prelude CString OucUri OucHash KeyTable.
From S2P Require Import AccCaps AccEntity AccGroups AccAccess AccAuthFile.

(** [subSpace( id )]: every space character of the configuration is a blank. *)
Definition subSpace (spChar : Z) (id : bytes) : bytes :=
  (fun c => if c =? spChar then 32 else c) <$> id.

(** [if (spChar) subSpace( id )] *)
Definition unspace (spChar : Z) (id : bytes) : bytes :=
  if spChar =? 0 then id else subSpace spChar id.

(** The C string at the start of a buffer. *)
Fixpoint cstr (s : bytes) : bytes :=
  match s with c :: s => if c =? 0 then [] else c :: cstr s | [] => [] end.

Definition short (z : Z) : Z := (z + 2 ^ 15) mod 2 ^ 16 - 2 ^ 15.

(** The options of the configuration the loader reads. *)
Record AccOptions := MkAccOptions { spChar : Z; uriPath : bool }.

(** ** Selectors of an identifier definition *)

Definition AccessID_new (name : bytes) : XrdAccAccess_ID :=
  MkAccessID name None None None None None None 0 0 0.

(** One selector of [idDef]; nothing when it is given twice. *)
Definition set_selector (spc idType : Z) (idname : bytes) (x : XrdAccAccess_ID)
  : option XrdAccAccess_ID :=
  let '(MkAccessID name grp host org role user caps rule hlen glen) := x in
  if idType =? 103 then
    match grp with Some _ => None | None =>
      let idname := unspace spc idname in
      Some (MkAccessID name (Some idname) host org role user caps rule hlen (short (zlen idname))) end
  else if idType =? 104 then
    match host with Some _ => None | None =>
      Some (MkAccessID name grp (Some idname) org role user caps rule (short (zlen idname)) glen) end
  else if idType =? 111 then
    match org with Some _ => None | None =>
      Some (MkAccessID name grp host (Some (unspace spc idname)) role user caps rule hlen glen) end
  else if idType =? 114 then
    match role with Some _ => None | None =>
      Some (MkAccessID name grp host org (Some (unspace spc idname)) user caps rule hlen glen) end
  else if idType =? 117 then
    match user with Some _ => None | None =>
      Some (MkAccessID name grp host org role (Some (unspace spc idname)) caps rule hlen glen) end
  else None.

Definition set_caps_rule (caps : option XrdAccCapability) (rule : Z) (x : XrdAccAccess_ID)
  : XrdAccAccess_ID :=
  MkAccessID (id_name x) (id_grp x) (id_host x) (id_org x) (id_role x) (id_user x) caps rule
    (id_hlen x) (id_glen x).

(** The tables a record can select with [hp]. *)
Inductive Slot := SlotG | SlotH | SlotN | SlotO | SlotR | SlotT | SlotU.

#[export] Instance Slot_eq_dec : EqDecision Slot.
Proof. solve_decision. Defined.

Section config.
Context {TC TS D : Type} `{!KeyTable TC XrdAccCapability} `{!KeyTable TS Z} `{!AuthDB D}.
Abbreviation tables := (XrdAccAccess_Tables (TC := TC) (TS := TS)).
Context (opts : AccOptions) (now : Z).

Definition slot_get (sl : Slot) (t : tables) : option TC :=
  match sl with
  | SlotG => G_Hash t | SlotH => H_Hash t | SlotN => N_Hash t | SlotO => O_Hash t
  | SlotR => R_Hash t | SlotT => T_Hash t | SlotU => U_Hash t
  end.

Definition slot_set (sl : Slot) (h : option TC) (t : tables) : tables :=
  let '(MkTables g hh n o r s tm u d x z sx sy ids) := t in
  match sl with
  | SlotG => MkTables h hh n o r s tm u d x z sx sy ids
  | SlotH => MkTables g h n o r s tm u d x z sx sy ids
  | SlotN => MkTables g hh h o r s tm u d x z sx sy ids
  | SlotO => MkTables g hh n h r s tm u d x z sx sy ids
  | SlotR => MkTables g hh n o h s tm u d x z sx sy ids
  | SlotT => MkTables g hh n o r s h u d x z sx sy ids
  | SlotU => MkTables g hh n o r s tm h d x z sx sy ids
  end.

Definition set_domains (d : list XrdAccCapName) (t : tables) : tables :=
  MkTables (G_Hash t) (H_Hash t) (N_Hash t) (O_Hash t) (R_Hash t) (S_Hash t) (T_Hash t) (U_Hash t)
    d (X_List t) (Z_List t) (SXList t) (SYList t) (id_heap t).
Definition set_fungible (c : XrdAccCapability) (t : tables) : tables :=
  MkTables (G_Hash t) (H_Hash t) (N_Hash t) (O_Hash t) (R_Hash t) (S_Hash t) (T_Hash t) (U_Hash t)
    (D_List t) (Some c) (Z_List t) (SXList t) (SYList t) (id_heap t).
Definition set_default (c : XrdAccCapability) (t : tables) : tables :=
  MkTables (G_Hash t) (H_Hash t) (N_Hash t) (O_Hash t) (R_Hash t) (S_Hash t) (T_Hash t) (U_Hash t)
    (D_List t) (X_List t) (Some c) (SXList t) (SYList t) (id_heap t).
Definition set_ids (s : option TS) (sx sy : list Z) (ids : gmap Z XrdAccAccess_ID) (t : tables) : tables :=
  MkTables (G_Hash t) (H_Hash t) (N_Hash t) (O_Hash t) (R_Hash t) s (T_Hash t) (U_Hash t)
    (D_List t) (X_List t) (Z_List t) sx sy ids.
Definition set_heap (ids : gmap Z XrdAccAccess_ID) (t : tables) : tables :=
  set_ids (S_Hash t) (SXList t) (SYList t) ids t.

(** ** [idDef] *)

(** The loop over the selectors: whether there were any, and the definition, or
    nothing after an error. *)
Fixpoint id_selectors (fuel : nat) (haveID : bool) (x : XrdAccAccess_ID) (d : D)
  : res (option (bool * XrdAccAccess_ID) * D) :=
  match fuel with
  | O => Diverge
  | S fuel =>
      let '(sel, d) := db_getID d in
      match sel with
      | None => Ok (Some (haveID, x), d)
      | Some (idType, idname) =>
          match set_selector (spChar opts) idType idname x with
          | None => Ok (None, d)
          | Some x => id_selectors fuel true x d
          end
      end
  end.

(** [idDef( tabs, idName )]: the return code, the tables and the data base. *)
Definition idDef (tabs : tables) (idName : bytes) (d : D) : res (Z * tables * D) :=
  '(sel, d) ← id_selectors (S (db_left d)) false (AccessID_new idName) d;
  match sel with
  | None | Some (false, _) => Ok (-1, tabs, d)
  | Some (true, x) =>
      let dup :=
        match S_Hash tabs with
        | Some ts => bool_decide (is_Some (kt_find now idName ts).1)
        | None => false
        end in
      if dup : bool then Ok (-1, tabs, d)
      else
        let ts := default kt_empty (S_Hash tabs) in
        let xID := fresh (dom (id_heap tabs)) in
        Ok (1, set_ids (Some (kt_add now idName xID ts)) (SXList tabs) (xID :: SYList tabs)
                 (<[xID := x]> (id_heap tabs)) tabs, d)
  end.

(** ** [idChk] *)

(** [idMap[rule] = a] in a map ordered by rule. *)
Fixpoint map_set (rule a : Z) (m : list (Z * Z)) : list (Z * Z) :=
  match m with
  | [] => [(rule, a)]
  | (r, b) :: m' =>
      if rule <? r then (rule, a) :: m
      else if rule =? r then (rule, a) :: m'
      else (r, b) :: map_set rule a m'
  end.

Fixpoint idChk_loop (heap : gmap Z XrdAccAccess_ID) (idList : list Z) (idMap : list (Z * Z))
    (yList : list Z) : res (list (Z * Z) * list Z) :=
  match idList with
  | [] => Ok (idMap, yList)
  | a :: idList =>
      match heap !! a with
      | None => Fault
      | Some x =>
          match id_caps x with
          | None => idChk_loop heap idList idMap yList
          | Some _ =>
              if 0 <=? id_rule x then idChk_loop heap idList (map_set (id_rule x) a idMap) yList
              else idChk_loop heap idList idMap (a :: yList)
          end
      end
  end.

Definition idChk (tabs : tables) : res tables :=
  '(idMap, yList) ← idChk_loop (id_heap tabs) (SYList tabs) [] [];
  Ok (set_ids (S_Hash tabs) idMap.*2 yList (id_heap tabs) tabs).

(** ** [ConfigDBrec] *)

(** The loop over the path and privilege pairs: [NoGo], the chain that hangs off
    [mycap], and the data base. *)
Fixpoint getcaps (fuel : nat) (T_Hash : option TC) (chain : option XrdAccCapability) (d : D)
  : res (bool * option XrdAccCapability * D) :=
  match fuel with
  | O => Diverge
  | S fuel =>
      let '(pp, d) := db_getPP d in
      match pp with
      | None => Ok (false, chain, d)
      | Some pp =>
          match pp_path pp with
          | None => getcaps fuel T_Hash chain d
          | Some path =>
              let currcap :=
                if pp_istmplt pp then
                  Capability_tmpl <$> (t ← T_Hash; (kt_find now path t).1)
                else
                  privs ← pp_priv pp;
                  xprivs ← PrivsConvert privs;
                  Some (Capability_path (if uriPath opts then cstr (Uri_Decode path) else path) xprivs)
              in
              match currcap with
              | None => Ok (true, chain, d)
              | Some currcap =>
                  let chain := match chain with
                               | None => currcap | Some c => Cap_Add c currcap end in
                  getcaps fuel T_Hash (Some chain) d
              end
          end
      end
  end.

(** Where a record goes. *)
Inductive Target :=
  | ToHash (sl : Slot)
  | ToDomain
  | ToFungible
  | ToDefault
  | ToSet (xclsv : bool).

(** The record switch: the target, the group type and the identifier after the
    substitution of spaces; nothing for an invalid type. *)
Definition rec_switch (rtype : Z) (authid : bytes)
  : option (Target * option XrdAccGroupType * bytes) :=
  let sub := unspace (spChar opts) authid in
  if rtype =? 103 then Some (ToHash SlotG, Some XrdAccUnixGroup, sub)
  else if rtype =? 104 then
    Some (if bool_decide (head authid = Some 46) then ToDomain else ToHash SlotH, None, authid)
  else if rtype =? 115 then Some (ToSet false, None, authid)
  else if rtype =? 110 then Some (ToHash SlotN, Some XrdAccNetGroup, authid)
  else if rtype =? 111 then Some (ToHash SlotO, None, sub)
  else if rtype =? 114 then Some (ToHash SlotR, None, sub)
  else if rtype =? 116 then Some (ToHash SlotT, None, authid)
  else if rtype =? 117 then
    Some (if bool_decide (authid = [42]) then (ToDefault, None, authid)
          else if bool_decide (authid = [61]) then (ToFungible, None, authid)
          else (ToHash SlotU, None, sub))
  else if rtype =? 120 then Some (ToSet true, None, authid)
  else None.

(** What a record needs before its pairs are read: whether the identifier is
    taken, and for a set the address of its definition. *)
Definition rec_lookup (tgt : Target) (authid : bytes) (tabs : tables)
  : res (bool * option Z) :=
  match tgt with
  | ToDomain => Ok (bool_decide (is_Some (CapName_Find (D_List tabs) authid)), None)
  | ToDefault => Ok (nonnull (Z_List tabs), None)
  | ToFungible => Ok (nonnull (X_List tabs), None)
  | ToHash sl =>
      match slot_get sl tabs with
      | Some hp => Ok (bool_decide (is_Some (kt_find now authid hp).1), None)
      | None => Fault
      end
  | ToSet _ =>
      match S_Hash tabs with
      | None => Fault
      | Some ts =>
          match (kt_find now authid ts).1 with
          | None => Ok (true, None)
          | Some sp =>
              match id_heap tabs !! sp with
              | None => Fault
              | Some x => Ok (nonnull (id_caps x), Some sp)
              end
          end
      end
  end.

(** Insert the chain into its table or list. *)
Definition rec_insert (tgt : Target) (authid : bytes) (sp : option Z) (chain : XrdAccCapability)
    (tabs : tables) : res tables :=
  match tgt, sp with
  | ToSet _, Some sp =>
      match id_heap tabs !! sp with
      | Some x => Ok (set_heap (<[sp := set_caps_rule (Some chain) (id_rule x) x]> (id_heap tabs)) tabs)
      | None => Fault
      end
  | ToSet _, None => Fault
  | ToDomain, _ => Ok (set_domains (D_List tabs ++ [CapName_new authid chain]) tabs)
  | ToFungible, _ => Ok (set_fungible chain tabs)
  | ToDefault, _ => Ok (set_default chain tabs)
  | ToHash sl, _ =>
      match slot_get sl tabs with
      | Some hp => Ok (slot_set sl (Some (kt_add now authid chain hp)) tabs)
      | None => Fault
      end
  end.

(** What loading changes besides the data base. *)
Record LoadState := MkLoad { ld_tabs : tables; ld_rulenum : Z; ld_groups : XrdAccGroups }.

(** [sp->rule = (xclsv ? rulenum++ : -1)] *)
Definition set_rule (tgt : Target) (sp : option Z) (s : LoadState) : res LoadState :=
  match tgt, sp with
  | ToSet xclsv, Some sp =>
      match id_heap (ld_tabs s) !! sp with
      | Some x =>
          let rule := if xclsv then ld_rulenum s else -1 in
          Ok (MkLoad (set_heap (<[sp := set_caps_rule (id_caps x) rule x]> (id_heap (ld_tabs s))) (ld_tabs s))
                (if xclsv then ld_rulenum s + 1 else ld_rulenum s) (ld_groups s))
      | None => Fault
      end
  | _, _ => Ok s
  end.

(** The part of [ConfigDBrec] after the switch. *)
Definition ConfigDBrec_body (tgt : Target) (gtype : option XrdAccGroupType) (authid : bytes)
    (s : LoadState) (d : D) : res (Z * LoadState * D) :=
  '(isDup, sp) ← rec_lookup tgt authid (ld_tabs s);
  s ← set_rule tgt sp s;
  if isDup : bool then Ok (-1, s, d)
  else
    let s := match gtype with
             | Some g => MkLoad (ld_tabs s) (ld_rulenum s) (AddName now g authid (ld_groups s)).2
             | None => s
             end in
    '(NoGo, chain, d) ← getcaps (S (db_left d)) (T_Hash (ld_tabs s)) None d;
    match chain with
    | Some chain =>
        if NoGo : bool then Ok (-1, s, d)
        else
          tabs ← rec_insert tgt authid sp chain (ld_tabs s);
          Ok (1, MkLoad tabs (ld_rulenum s) (ld_groups s), d)
    | None => Ok (-1, s, d)
    end.

(** [ConfigDBrec( tabs )]: the return code and what changed. *)
Definition ConfigDBrec (s : LoadState) (d : D) : res (Z * LoadState * D) :=
  '(r, d) ← db_getRec d;
  match r with
  | None => Ok (0, s, d)
  | Some (rtype, authid) =>
      if rtype =? 61 then
        '(rc, tabs, d) ← idDef (ld_tabs s) authid d;
        Ok (rc, MkLoad tabs (ld_rulenum s) (ld_groups s), d)
      else
        match rec_switch rtype authid with
        | None => Ok (-1, s, d)
        | Some (tgt, gtype, authid) => ConfigDBrec_body tgt gtype authid s d
        end
  end.

(** ** [ConfigDB] *)

(** [while((retc = ConfigDBrec( tabs ))) NoGo |= retc < 0] *)
Fixpoint load_loop (fuel : nat) (NoGo : bool) (s : LoadState) (d : D) : res (bool * LoadState * D) :=
  match fuel with
  | O => Diverge
  | S fuel =>
      '(retc, s, d) ← ConfigDBrec s d;
      if retc =? 0 then Ok (NoGo, s, d) else load_loop fuel (NoGo || (retc <? 0)) s d
  end.

Definition tables_new : tables :=
  MkTables (Some kt_empty) (Some kt_empty) (Some kt_empty) (Some kt_empty) (Some kt_empty) None
    (Some kt_empty) (Some kt_empty) [] None None [] [] ∅.

(** A table without entries is deleted. *)
Definition drop_empty (sl : Slot) (t : tables) : tables :=
  match slot_get sl t with
  | Some h => if kt_num h =? 0 then slot_set sl None t else t
  | None => t
  end.

(** [ConfigDB( Warm )] with what [Changed] and [Open] return: the return code,
    the new access state, and the new rule number. *)
Definition ConfigDB (Warm changed : bool) (opened : option D) (st : XrdAccAccess (TC := TC) (TS := TS))
  : res (Z * XrdAccAccess) :=
  if Warm && negb changed then Ok (0, st)
  else
    match opened with
    | None => Ok (1, st)
    | Some d =>
        '(NoGo, s, d) ← load_loop (S (db_left d)) false (MkLoad tables_new 0 (GroupMaster st)) d;
        let st := MkAccess (Atab st) (hostRefX st) (hostRefY st) (ld_groups s) in
        let '(closed, d) := db_Close d in
        if negb closed || NoGo then Ok (1, st)
        else
          tabs ← match SYList (ld_tabs s) with [] => Ok (ld_tabs s) | _ => idChk (ld_tabs s) end;
          let tabs := foldr drop_empty tabs [SlotG; SlotH; SlotN; SlotO; SlotR; SlotT; SlotU] in
          '(st, _) ← SwapTabs tabs st;
          Ok (0, st)
    end.

(** ** The invariant of loading *)

Definition in_heap (t : tables) (a : Z) : Prop := is_Some (id_heap t !! a).

Record load_wf (t : tables) : Prop := {
  lw_hashes : forall sl, exists h, slot_get sl t = Some h /\ kt_wf h;
  lw_sets : forall ts, S_Hash t = Some ts ->
    kt_wf ts /\ forall k a, kt_map ts !! k = Some a -> in_heap t a;
  lw_sy : Forall (in_heap t) (SYList t);
  lw_sx : SXList t = [] }.

Lemma slot_get_set sl sl' h t :
  slot_get sl (slot_set sl' h t) = if decide (sl = sl') then h else slot_get sl t.
Proof. by destruct sl, sl', t. Qed.

Lemma slot_set_rest sl h t :
  S_Hash (slot_set sl h t) = S_Hash t /\ SXList (slot_set sl h t) = SXList t /\
  SYList (slot_set sl h t) = SYList t /\ id_heap (slot_set sl h t) = id_heap t /\
  D_List (slot_set sl h t) = D_List t.
Proof. by destruct sl, t. Qed.

Lemma slot_get_ids sl s sx sy ids t : slot_get sl (set_ids s sx sy ids t) = slot_get sl t.
Proof. by destruct sl. Qed.

(** Changing an object in place keeps every address valid. *)
Lemma in_heap_update t a x b : in_heap t a \/ a = b -> in_heap (set_heap (<[b := x]> (id_heap t)) t) a.
Proof.
  unfold in_heap. cbn. intros H. apply lookup_insert_is_Some'. destruct H as [H| ->]; auto.
Qed.

Lemma set_heap_wf t a x : load_wf t -> load_wf (set_heap (<[a := x]> (id_heap t)) t).
Proof.
  intros [H1 H2 H3 H4]. split; [intros sl; destruct (H1 sl) as (h & Hh & Hk); exists h;
    by rewrite <- Hh; split; [destruct sl|]| | |done].
  - intros ts Hts. destruct (H2 ts Hts) as [Hk Hin]. split; [done|].
    intros k b Hb. apply in_heap_update. left. by eapply Hin.
  - eapply Forall_impl; [exact H3|]. intros b Hb. apply in_heap_update. by left.
Qed.

Lemma same_ids_wf t t' : load_wf t ->
  (forall sl, slot_get sl t' = slot_get sl t) -> S_Hash t' = S_Hash t -> SXList t' = SXList t ->
  SYList t' = SYList t -> id_heap t' = id_heap t -> load_wf t'.
Proof.
  intros [H1 H2 H3 H4] Hs HS HX HY HI.
  assert (forall a, in_heap t' a <-> in_heap t a) as Hin by (intros a; unfold in_heap; by rewrite HI).
  split.
  - intros sl. rewrite Hs. apply H1.
  - intros ts. rewrite HS. intros Hts. destruct (H2 ts Hts) as [Hk Hk']. split; [done|].
    intros k a Ha. by eapply Hin, Hk'.
  - rewrite HY. eapply Forall_impl; [exact H3|]. intros a. apply Hin.
  - by rewrite HX.
Qed.

(** What the lookup before a record's pairs finds; the one undefined behaviour is
    a set record while there is no definition. *)
Lemma rec_lookup_ok tgt authid t : load_wf t ->
  match rec_lookup tgt authid t with
  | Ok (isDup, sp) =>
      (forall a, sp = Some a -> in_heap t a) /\
      (isDup = false ->
       match tgt with
       | ToHash sl => exists h, slot_get sl t = Some h /\ kt_wf h /\ kt_map h !! authid = None
       | ToSet _ => is_Some sp
       | _ => True
       end)
  | Fault => exists x, tgt = ToSet x /\ S_Hash t = None
  | _ => False
  end.
Proof.
  intros Hwf. unfold rec_lookup. destruct tgt as [sl| | | |x]; [|done..|].
  - destruct (lw_hashes t Hwf sl) as (h & -> & Hk). split; [done|].
    destruct (kt_find_ok now authid h Hk) as (-> & _). intros Hd. apply bool_decide_eq_false in Hd.
    exists h. split; [done|]. split; [done|]. by apply eq_None_not_Some.
  - destruct (S_Hash t) as [ts|] eqn:Es; [|by exists x].
    destruct (lw_sets t Hwf ts Es) as [Hk Hin].
    destruct (kt_find_ok now authid ts Hk) as (-> & _).
    destruct (kt_map ts !! authid) as [sp|] eqn:Em; [|done].
    destruct (Hin _ _ Em) as [y Hy]. rewrite Hy. split; [|by eexists].
    intros a [= <-]. by exists y.
Qed.

Lemma rec_insert_ok tgt authid sp chain t : load_wf t ->
  (forall a, sp = Some a -> in_heap t a) ->
  match tgt with
  | ToHash sl => exists h, slot_get sl t = Some h /\ kt_wf h /\ kt_map h !! authid = None
  | ToSet _ => is_Some sp
  | _ => True
  end ->
  exists t', rec_insert tgt authid sp chain t = Ok t' /\ load_wf t'.
Proof.
  intros Hwf Hsp Ht. unfold rec_insert. destruct tgt as [sl| | | |x].
  - destruct Ht as (h & -> & Hk & Hno). eexists. split; [reflexivity|].
    destruct (kt_add_ok now authid chain h Hk Hno) as [Hk' _].
    destruct Hwf as [H1 H2 H3 H4].
    pose proof (slot_set_rest sl (Some (kt_add now authid chain h)) t) as (E1 & E2 & E3 & E4 & _).
    set (t' := slot_set sl _ t) in *.
    assert (forall a, in_heap t' a <-> in_heap t a) as Hin by (intros a; unfold in_heap; by rewrite E4).
    split.
    + intros sl'. unfold t'. rewrite slot_get_set. destruct (decide (sl' = sl)); [eauto|apply H1].
    + rewrite E1. intros ts Hts. destruct (H2 ts Hts) as [Hw Ha]. split; [done|].
      intros k a Hka. by eapply Hin, Ha.
    + rewrite E3. eapply Forall_impl; [exact H3|]. intros a. apply Hin.
    + by rewrite E2.
  - eexists. split; [reflexivity|]. eapply same_ids_wf; [exact Hwf|by intros []|done..].
  - eexists. split; [reflexivity|]. eapply same_ids_wf; [exact Hwf|by intros []|done..].
  - eexists. split; [reflexivity|]. eapply same_ids_wf; [exact Hwf|by intros []|done..].
  - destruct Ht as [a ->]. destruct (Hsp a eq_refl) as [y ->].
    eexists. split; [reflexivity|]. by apply set_heap_wf.
Qed.

Lemma set_rule_ok tgt sp s : load_wf (ld_tabs s) -> (forall a, sp = Some a -> in_heap (ld_tabs s) a) ->
  exists s', set_rule tgt sp s = Ok s' /\ load_wf (ld_tabs s') /\ ld_groups s' = ld_groups s /\
    S_Hash (ld_tabs s') = S_Hash (ld_tabs s) /\
    (forall sl, slot_get sl (ld_tabs s') = slot_get sl (ld_tabs s)) /\
    (forall a, sp = Some a -> in_heap (ld_tabs s') a).
Proof.
  intros Hwf Hsp. unfold set_rule. destruct tgt as [sl| | | |x]; try by (exists s; auto 10).
  destruct sp as [a|]; [|by (exists s; auto 10)].
  destruct (Hsp a eq_refl) as [y ->]. eexists. split; [reflexivity|]. cbn [ld_tabs ld_groups].
  split; [by apply set_heap_wf|]. split; [done|]. split; [done|]. split; [by intros []|].
  intros b [= <-]. apply in_heap_update. by right.
Qed.

Lemma getcaps_ok fuel th : forall chain d, (db_left d < fuel)%nat ->
  exists nogo chain' d', getcaps fuel th chain d = Ok (nogo, chain', d') /\ (db_left d' <= db_left d)%nat.
Proof.
  induction fuel as [|fuel IH]; intros chain d Hf; [lia|]. cbn [getcaps].
  destruct (db_getPP_ok d) as [Hle Hlt]. destruct (db_getPP d) as [[pp|] d1]; cbn [fst snd] in *;
    [|by eexists _, _, _].
  specialize (Hlt ltac:(by eexists)).
  assert (forall ch, exists nogo chain' d', getcaps fuel th ch d1 = Ok (nogo, chain', d') /\
    (db_left d' <= db_left d)%nat) as Hrec.
  { intros ch. destruct (IH ch d1) as (n & c & d' & H & Hd); [lia|]. exists n, c, d'. split; [done|lia]. }
  destruct (pp_path pp); [|apply Hrec].
  match goal with |- context [match ?m with Some currcap => getcaps _ _ _ _ | None => _ end] =>
    destruct m; [apply Hrec|by eexists _, _, _] end.
Qed.

(** A step of the loader keeps the invariants. *)
Definition load_ok (s : LoadState) : Prop := load_wf (ld_tabs s) /\ groups_wf (ld_groups s).

Lemma body_ok tgt gtype authid s d : load_ok s ->
  match ConfigDBrec_body tgt gtype authid s d with
  | Ok (rc, s', d') => load_ok s' /\ (db_left d' <= db_left d)%nat
  | Fault => exists x, tgt = ToSet x /\ S_Hash (ld_tabs s) = None
  | _ => False
  end.
Proof.
  intros [Hwf Hg]. unfold ConfigDBrec_body.
  pose proof (rec_lookup_ok tgt authid (ld_tabs s) Hwf) as Hl.
  destruct (rec_lookup tgt authid (ld_tabs s)) as [[isDup sp]| | |]; try done.
  destruct Hl as [Hsp Ht]. step_ok.
  destruct (set_rule_ok tgt sp s Hwf Hsp) as (s1 & -> & Hwf1 & Hg1 & _ & Hsl & Hsp1). step_ok.
  destruct isDup; [split; [split; [done|by rewrite Hg1]|done]|]. specialize (Ht eq_refl).
  set (s2 := match gtype with Some g => _ | None => s1 end).
  assert (load_ok s2 /\ ld_tabs s2 = ld_tabs s1) as [[Hwf2 Hg2] Ht2].
  { subst s2. rewrite <- Hg1 in Hg. destruct gtype as [g|]; [|done].
    split; [split; [done|]|done]. by apply AddName_ok. }
  clearbody s2.
  destruct (getcaps_ok (S (db_left d)) (T_Hash (ld_tabs s2)) None d) as (nogo & chain & d' & -> & Hd);
    [lia|]. step_ok. destruct chain as [chain|]; [|done]. destruct nogo; [done|].
  destruct (rec_insert_ok tgt authid sp chain (ld_tabs s2) Hwf2) as (t' & -> & Hwf').
  - intros a Ha. rewrite Ht2. by apply Hsp1.
  - destruct tgt; try done. by rewrite Ht2, Hsl.
  - step_ok. done.
Qed.

Lemma selectors_ok fuel : forall b x d, (db_left d < fuel)%nat ->
  exists r d', id_selectors fuel b x d = Ok (r, d') /\ (db_left d' <= db_left d)%nat.
Proof.
  induction fuel as [|fuel IH]; intros b x d Hf; [lia|]. cbn [id_selectors].
  destruct (db_getID_ok d) as [Hle Hlt]. destruct (db_getID d) as [[[ty n]|] d1]; cbn [fst snd] in *;
    [|by eexists _, _]. specialize (Hlt ltac:(by eexists)).
  destruct (set_selector _ ty n x) as [x'|]; [|by eexists _, _].
  destruct (IH true x' d1) as (r & d' & H & Hd); [lia|]. exists r, d'. split; [done|lia].
Qed.

Lemma idDef_ok t idName d : load_wf t ->
  exists rc t' d', idDef t idName d = Ok (rc, t', d') /\ load_wf t' /\ (db_left d' <= db_left d)%nat.
Proof.
  intros Hwf. unfold idDef.
  destruct (selectors_ok (S (db_left d)) false (AccessID_new idName) d) as (r & d' & -> & Hd); [lia|].
  step_ok. destruct r as [[[] x]|]; [|by eexists _, _, _..].
  set (ts := default kt_empty (S_Hash t)). set (a := fresh (dom (id_heap t))).
  assert (kt_wf ts /\ forall k b, kt_map ts !! k = Some b -> in_heap t b) as [Hts Hin].
  { subst ts. destruct (S_Hash t) as [ts|] eqn:E; [by apply (lw_sets t Hwf)|]. cbn.
    destruct (kt_empty_ok (T := TS)) as [H1 H2]. split; [done|]. intros k b. by rewrite H2, lookup_empty. }
  destruct (match S_Hash t with Some ts => _ | None => false end) eqn:Edup;
    [by eexists _, _, _|].
  assert (kt_map ts !! idName = None) as Hno.
  { subst ts. destruct (S_Hash t) as [ts|]; cbn in *; [|by rewrite (proj2 (kt_empty_ok (T:=TS))), lookup_empty].
    destruct (kt_find_ok now idName ts Hts) as (Hf & _). rewrite Hf in Edup.
    apply bool_decide_eq_false in Edup. by apply eq_None_not_Some. }
  destruct (kt_add_ok now idName a ts Hts Hno) as [Hk' Hm'].
  eexists _, _, _. split; [reflexivity|]. split; [|done].
  assert (forall b, in_heap t b \/ b = a -> in_heap (set_ids (Some (kt_add now idName a ts)) (SXList t)
    (a :: SYList t) (<[a := x]> (id_heap t)) t) b) as Hh.
  { intros b Hb. unfold in_heap. cbn. apply lookup_insert_is_Some'. destruct Hb as [Hb| ->]; auto. }
  destruct Hwf as [H1 H2 H3 H4]. split.
  - intros sl. rewrite slot_get_ids. apply H1.
  - intros ts' [= <-]. split; [done|]. intros k b. rewrite Hm'.
    intros [[_ <-]|[_ Hb]]%lookup_insert_Some; apply Hh; [by right|left; by eapply Hin].
  - apply Forall_cons. split; [apply Hh; by right|]. eapply Forall_impl; [exact H3|].
    intros b Hb. apply Hh. by left.
  - done.
Qed.

(** One record: it is used up, the invariants stay, and the only undefined
    behaviour is a set record that precedes every definition. *)
Lemma ConfigDBrec_ok s d : load_ok s ->
  match ConfigDBrec s d with
  | Ok (rc, s', d') => load_ok s' /\ (db_left d' <= db_left d)%nat /\
      (rc <> 0 -> (db_left d' < db_left d)%nat)
  | Fault => S_Hash (ld_tabs s) = None /\
      exists rtype authid d', db_getRec d = Ok (Some (rtype, authid), d') /\ (rtype = 115 \/ rtype = 120)
  | _ => False
  end.
Proof.
  intros Hs. unfold ConfigDBrec. destruct (db_getRec_ok d) as (r & d1 & -> & Hle & Hlt). step_ok.
  destruct r as [[rtype authid]|]; [|done]. specialize (Hlt ltac:(by eexists)).
  destruct (Z.eqb_spec rtype 61) as [->|H61].
  { destruct (idDef_ok (ld_tabs s) authid d1 (proj1 Hs)) as (rc & t' & d' & -> & Hwf & Hd). step_ok.
    split; [by split; [|apply Hs]|]. split; [lia|intros _; lia]. }
  destruct (rec_switch rtype authid) as [[[tgt gtype] id]|] eqn:Esw; [|split; [done|split; [lia|intros _; lia]]].
  pose proof (body_ok tgt gtype id s d1 Hs) as Hb.
  destruct (ConfigDBrec_body tgt gtype id s d1) as [[[rc s'] d']| | |]; try done.
  - destruct Hb as [Hok Hd]. split; [done|]. split; [lia|intros _; lia].
  - destruct Hb as (x & -> & HS). split; [done|]. exists rtype, authid, d1. split; [done|].
    unfold rec_switch in Esw.
    repeat match type of Esw with context [if ?b then _ else _] => destruct b eqn:?; try done end;
      rewrite ?Z.eqb_eq in *; auto.
Qed.

(** Definitions of identifiers, and the records that are read before the first one
    which succeeds. *)
Definition a_definition (d : D) : Prop := exists name d', db_getRec d = Ok (Some (61, name), d').

Inductive before_definition : LoadState -> D -> LoadState -> D -> Prop :=
  | before_here s d : before_definition s d s d
  | before_next s d rc s1 d1 s2 d2 : ConfigDBrec s d = Ok (rc, s1, d1) -> rc <> 0 -> ~ (rc = 1 /\ a_definition d) ->
      before_definition s1 d1 s2 d2 -> before_definition s d s2 d2.

(** A set record is among them. *)
Definition set_before_definition (s : LoadState) (d : D) : Prop := exists s' d' rtype authid d1,
  before_definition s d s' d' /\ db_getRec d' = Ok (Some (rtype, authid), d1) /\ (rtype = 115 \/ rtype = 120).

Lemma rec_insert_sets tgt authid sp chain t t' : rec_insert tgt authid sp chain t = Ok t' -> S_Hash t' = S_Hash t.
Proof.
  unfold rec_insert. destruct tgt as [sl| | | |x]; [|by intros [= <-]..|].
  - destruct (slot_get sl t) as [h|]; [|done]. intros [= <-]. by destruct (slot_set_rest sl (Some (kt_add now authid chain h)) t).
  - destruct sp as [a|]; [|done]. destruct (id_heap t !! a); [|done]. by intros [= <-].
Qed.

Lemma set_rule_sets tgt sp s s' : set_rule tgt sp s = Ok s' -> S_Hash (ld_tabs s') = S_Hash (ld_tabs s).
Proof.
  unfold set_rule. destruct tgt as [sl| | | |x]; try by intros [= <-]. destruct sp as [a|]; [|by intros [= <-]].
  destruct (id_heap (ld_tabs s) !! a); [|done]. by intros [= <-].
Qed.

Lemma body_sets tgt gtype authid s d rc s' d' : ConfigDBrec_body tgt gtype authid s d = Ok (rc, s', d') -> S_Hash (ld_tabs s') = S_Hash (ld_tabs s).
Proof.
  unfold ConfigDBrec_body. destruct (rec_lookup tgt authid (ld_tabs s)) as [[isDup sp]| | |]; [|done..]. step_ok.
  destruct (set_rule tgt sp s) as [s1| | |] eqn:E1; [|done..]. apply set_rule_sets in E1 as <-. step_ok. destruct isDup; [by intros [= _ <- _]|].
  set (s2 := match gtype with Some g => _ | None => s1 end). assert (S_Hash (ld_tabs s2) = S_Hash (ld_tabs s1)) as <- by by destruct gtype. clearbody s2.
  destruct (getcaps _ _ _ _) as [[[nogo chain] d1]| | |]; [|done..]. step_ok. destruct chain as [chain|]; [|by intros [= _ <- _]]. destruct nogo; [by intros [= _ <- _]|].
  destruct (rec_insert tgt authid sp chain (ld_tabs s2)) as [t| | |] eqn:E2; [|done..]. apply rec_insert_sets in E2. step_ok. by intros [= _ <- _].
Qed.

(** The table of identifiers comes with the first definition that succeeds. *)
Lemma ConfigDBrec_sets s d rc s' d' : ConfigDBrec s d = Ok (rc, s', d') ->
  (rc = 1 /\ a_definition d -> S_Hash (ld_tabs s') <> None) /\ (~ (rc = 1 /\ a_definition d) -> S_Hash (ld_tabs s') = S_Hash (ld_tabs s)).
Proof.
  unfold ConfigDBrec. destruct (db_getRec d) as [[[[rtype authid]|] d1]| | |] eqn:Eg; [| |done..]; step_ok.
  2:{ intros [= <- <- _]. split; [by intros [? _]|done]. }
  assert (rtype <> 61 -> ~ a_definition d) as Hnd by (intros Hne (name & d2 & E); rewrite Eg in E; by injection E as E).
  destruct (Z.eqb_spec rtype 61) as [->|Hne].
  - assert (a_definition d) as Had by by exists authid, d1. unfold idDef. destruct (id_selectors _ _ _ _) as [[r d2]| | |]; [|done..]. step_ok.
    destruct r as [[[] x]|]; [|by (step_ok; intros [= <- <- _]; split; [intros [? _]|])..].
    destruct (match S_Hash (ld_tabs s) with Some ts => _ | None => false end); step_ok; intros [= <- <- _]; [by split; [intros [? _]|]|]. split; [done|]. intros Hn. by destruct Hn.
  - specialize (Hnd Hne). destruct (rec_switch rtype authid) as [[[tgt gtype] id]|]; [|intros [= <- <- _]; by split; [intros [? _]|]].
    intros Hb%body_sets. split; [by intros [_ ?]|done].
Qed.

Lemma load_loop_ok fuel : forall nogo s d, load_ok s -> (db_left d < fuel)%nat ->
  match load_loop fuel nogo s d with
  | Ok (_, s', _) => load_ok s'
  | Fault => S_Hash (ld_tabs s) = None /\ set_before_definition s d
  | _ => False
  end.
Proof.
  induction fuel as [|fuel IH]; intros nogo s d Hs Hf; [lia|]. cbn [load_loop].
  pose proof (ConfigDBrec_ok s d Hs) as H. destruct (ConfigDBrec s d) as [[[rc s'] d']| | |] eqn:E; try done.
  - step_ok. destruct H as (Hs' & Hle & Hlt). destruct (Z.eqb_spec rc 0) as [|Hrc]; [done|]. specialize (Hlt Hrc).
    specialize (IH (nogo || (rc <? 0)) s' d' Hs' ltac:(lia)). destruct (load_loop fuel _ s' d') as [[[? s2] d2]| | |]; try done.
    destruct IH as (HN & s2 & d2 & rtype & authid & d3 & Hb & Hg & Ht). destruct (ConfigDBrec_sets _ _ _ _ _ E) as [H1 H2].
    assert (~ (rc = 1 /\ a_definition d)) as Hnd by tauto. split; [by rewrite <- (H2 Hnd)|]. exists s2, d2, rtype, authid, d3. split; [by eapply before_next|done].
  - destruct H as (HN & rtype & authid & d' & Hg & Ht). split; [done|]. exists s, d, rtype, authid, d'. split; [constructor|done].
Qed.

(** Such a record is read through a null pointer. *)
Lemma load_loop_faults s d s' d' rtype authid d1 : before_definition s d s' d' -> db_getRec d' = Ok (Some (rtype, authid), d1) -> rtype = 115 \/ rtype = 120 ->
  forall fuel nogo, load_ok s -> S_Hash (ld_tabs s) = None -> (db_left d < fuel)%nat -> load_loop fuel nogo s d = Fault.
Proof.
  intros Hb Hg Ht. induction Hb as [s d|s d rc s1 d2 s2 d3 E Hrc Hnd Hb IH]; intros [|fuel] nogo Hs HN Hf; try lia; cbn [load_loop].
  - assert (ConfigDBrec s d = Fault) as ->; [|done]. unfold ConfigDBrec. rewrite Hg. step_ok.
    assert (forall x id, ConfigDBrec_body (ToSet x) None id s d1 = Fault) as Hbody by (intros x id; unfold ConfigDBrec_body, rec_lookup; by rewrite HN).
    destruct Ht as [-> | ->]; apply Hbody.
  - pose proof (ConfigDBrec_ok s d Hs) as H. rewrite E in H |- *. step_ok. destruct H as (Hs' & _ & Hlt). specialize (Hlt Hrc).
    destruct (Z.eqb_spec rc 0); [done|]. apply (IH Hg); [done| |lia]. by rewrite (proj2 (ConfigDBrec_sets _ _ _ _ _ E) Hnd).
Qed.

(** ** The lists [idChk] builds *)

Definition good_at (heap : gmap Z XrdAccAccess_ID) (a : Z) : Prop :=
  exists x c, heap !! a = Some x /\ id_caps x = Some c.

Lemma map_set_values rule a m (P : Z -> Prop) : P a -> Forall P m.*2 -> Forall P (map_set rule a m).*2.
Proof.
  intros Ha. induction m as [|[r b] m IH]; cbn; intros Hm; [by constructor|].
  apply Forall_cons in Hm as [Hb Hm]. destruct (rule <? r); [by repeat constructor|].
  destruct (rule =? r); cbn; constructor; auto.
Qed.

Lemma idChk_loop_ok heap l : forall m y,
  Forall (fun a => is_Some (heap !! a)) l -> Forall (good_at heap) m.*2 -> Forall (good_at heap) y ->
  exists m' y', idChk_loop heap l m y = Ok (m', y') /\
    Forall (good_at heap) m'.*2 /\ Forall (good_at heap) y'.
Proof.
  induction l as [|a l IH]; intros m y Hl Hm Hy; [by eexists _, _|].
  apply Forall_cons in Hl as [[x Hx] Hl]. cbn [idChk_loop]. rewrite Hx.
  destruct (id_caps x) as [c|] eqn:Ec; [|by apply IH].
  assert (good_at heap a) as Ha by (by exists x, c).
  destruct (0 <=? id_rule x); apply IH; try done; [by apply map_set_values|by constructor].
Qed.

(** Tables whose identifiers are all used. *)
Record checked (t : tables) : Prop := {
  ck_hashes : forall sl, exists h, slot_get sl t = Some h /\ kt_wf h;
  ck_sx : Forall (good_at (id_heap t)) (SXList t);
  ck_sy : Forall (good_at (id_heap t)) (SYList t) }.

Lemma idChk_ok t : load_wf t ->
  exists t', match SYList t with [] => Ok t | _ => idChk t end = Ok t' /\ checked t'.
Proof.
  intros [H1 H2 H3 H4].
  assert (SYList t = [] -> checked t) as Hnil.
  { intros E. split; [done|by rewrite H4; constructor|by rewrite E; constructor]. }
  destruct (SYList t) as [|a l] eqn:E; [exists t; auto|]. unfold idChk. rewrite E.
  destruct (idChk_loop_ok (id_heap t) (a :: l) [] []) as (m & y & -> & Hm & Hy);
    [done|constructor|constructor|]. step_ok.
  eexists. split; [reflexivity|]. split; [intros sl; rewrite slot_get_ids; apply H1|done|done].
Qed.

Lemma drop_empty_ok sl t :
  (forall sl h, slot_get sl t = Some h -> kt_wf h) ->
  (forall sl' h, slot_get sl' (drop_empty sl t) = Some h -> kt_wf h) /\
  SXList (drop_empty sl t) = SXList t /\ SYList (drop_empty sl t) = SYList t /\
  id_heap (drop_empty sl t) = id_heap t.
Proof.
  intros H. unfold drop_empty. destruct (slot_get sl t) as [h0|]; [|done].
  destruct (kt_num h0 =? 0); [|done].
  pose proof (slot_set_rest sl None t) as (_ & E2 & E3 & E4 & _).
  split; [|done]. intros sl' h. rewrite slot_get_set. destruct (decide (sl' = sl)); [done|apply H].
Qed.

Lemma drop_all_ok sls t :
  (forall sl h, slot_get sl t = Some h -> kt_wf h) ->
  (forall sl h, slot_get sl (foldr drop_empty t sls) = Some h -> kt_wf h) /\
  SXList (foldr drop_empty t sls) = SXList t /\ SYList (foldr drop_empty t sls) = SYList t /\
  id_heap (foldr drop_empty t sls) = id_heap t.
Proof.
  intros H. induction sls as [|sl sls (IH1 & IH2 & IH3 & IH4)]; [done|]. cbn [foldr].
  destruct (drop_empty_ok sl _ IH1) as (K1 & K2 & K3 & K4). split; [done|]. by rewrite K2, K3, K4.
Qed.

Lemma checked_tables_wf t sls : checked t -> tables_wf (foldr drop_empty t sls).
Proof.
  intros [H1 H2 H3].
  destruct (drop_all_ok sls t) as (K1 & K2 & K3 & K4).
  { intros sl h Hh. destruct (H1 sl) as (h' & Hh' & Hk). rewrite Hh in Hh'. by injection Hh' as ->. }
  split.
  - rewrite !Forall_cons. repeat apply conj; [exact (K1 SlotG)|exact (K1 SlotH)|exact (K1 SlotN)
      |exact (K1 SlotO)|exact (K1 SlotR)|exact (K1 SlotU)|constructor].
  - rewrite K2. unfold good_id. by rewrite K4.
  - rewrite K3. unfold good_id. by rewrite K4.
Qed.

Lemma any_host_ok (t : tables) l : Forall (good_id t) l -> exists b, any_host t l = Ok b.
Proof.
  induction l as [|a l IH]; intros H; [by eexists|]. apply Forall_cons in H as [(x & c & Hx & _) H].
  cbn [any_host]. unfold id_at. rewrite Hx. step_ok. destruct (id_host x); [by eexists|by apply IH].
Qed.

Lemma SwapTabs_ok (t : tables) st : tables_wf t ->
  exists st', SwapTabs t st = Ok (st', Atab st) /\ access_wf st' /\
    GroupMaster st' = PurgeCache (GroupMaster st).
Proof.
  intros Hwf. destruct (any_host_ok t (SXList t) (tw_sx t Hwf)) as [x Hx].
  destruct (any_host_ok t (SYList t) (tw_sy t Hwf)) as [y Hy].
  assert (exists st' old, SwapTabs t st = Ok (st', old)) as (st' & old & H).
  { unfold SwapTabs. rewrite Hx. step_ok. destruct x; [step_ok; by eexists _, _|].
    destruct (_ || _); [step_ok; by eexists _, _|]. rewrite Hy. step_ok. by eexists _, _. }
  destruct (SwapTabs_flags _ _ _ _ H) as (Hf & Ht & -> & Hg). exists st'. split; [done|].
  split; [|done]. split; [by rewrite Ht|done].
Qed.

Lemma tables_new_wf : load_wf tables_new.
Proof. destruct (kt_empty_ok (T := TC)) as [He _]. split; [by intros []; eexists|done|constructor|done]. Qed.

(** C5: Loading any data base ends. It installs tables that satisfy the
    invariant the access decision needs (well formed tables, every listed
    identifier with capabilities, host flags that match) and returns 0, or
    returns 1 and leaves the tables in use as they are; without a change on a
    warm start nothing happens. Behaviour is undefined exactly when the data
    base that is loaded has a set record before its first definition of an
    identifier that succeeds. *)
Theorem ConfigDB_ok Warm changed opened (st : XrdAccAccess) : groups_wf (GroupMaster st) ->
  let undefined := Warm && negb changed = false /\
    exists d, opened = Some d /\ set_before_definition (MkLoad tables_new 0 (GroupMaster st)) d in
  match ConfigDB Warm changed opened st with
  | Ok (rc, st') =>
      groups_wf (GroupMaster st') /\
      if Warm && negb changed then rc = 0 /\ st' = st
      else (rc = 0 /\ access_wf st') \/
           (rc = 1 /\ Atab st' = Atab st /\ hostRefX st' = hostRefX st /\ hostRefY st' = hostRefY st)
  | Fault => undefined
  | _ => False
  end /\ (undefined -> ConfigDB Warm changed opened st = Fault).
Proof.
  intros Hg undefined. unfold ConfigDB. destruct (Warm && negb changed); [split; [done|by intros [? _]]|].
  destruct opened as [d|]; [|split; [split; [done|by right]|by intros (_ & d & ? & _)]].
  assert (load_ok (MkLoad tables_new 0 (GroupMaster st))) as H0 by (split; [apply tables_new_wf|done]). split.
  - pose proof (load_loop_ok (S (db_left d)) false _ d H0) as Hl.
    destruct (load_loop _ _ _ d) as [[[nogo s] d']| | |]; specialize (Hl ltac:(lia)); try done; [|split; [done|exists d; split; [done|apply Hl]]].
    destruct Hl as [Hwf Hg']. step_ok. destruct (db_Close d') as [closed d''].
    destruct (negb closed || nogo); [split; [done|by right]|].
    destruct (idChk_ok (ld_tabs s) Hwf) as (t' & -> & Hck). step_ok.
    set (st1 := MkAccess _ _ _ _).
    destruct (SwapTabs_ok (foldr drop_empty t' [SlotG; SlotH; SlotN; SlotO; SlotR; SlotT; SlotU]) st1)
      as (st' & -> & Hacc & Hgr); [by apply checked_tables_wf|].
    step_ok. split; [|by left]. rewrite Hgr. by apply purge_wf.
  - intros (_ & d0 & [= <-] & s' & d' & rtype & authid & d1 & Hb & Hgr & Ht).
    by rewrite (load_loop_faults _ _ _ _ _ _ _ Hb Hgr Ht) by (done || lia).
Qed.
End config.

(** ** From the file to the decision *)

Abbreviation state := (XrdAccAccess (TC := Hash XrdAccCapability) (TS := Hash Z)).

Definition start_state : state :=
  MkAccess (MkTables None None None None None None None None [] None None [] [] ∅)
    false false XrdAccGroups_new.

Definition newline : bytes := [10].

Definition sample_text : bytes :=
  str "# authorizations" ++ newline ++
  str "t pub /pub rl" ++ newline ++
  str "u ann /data rw-d pub" ++ newline ++
  str "= at o atlas" ++ newline ++
  str "x at \" ++ newline ++ str "  /atlas a" ++ newline ++
  str "u = /home/@=/ a" ++ newline.

Definition load (text : bytes) : res (Z * state) :=
  ConfigDB (MkAccOptions 0 false) 100 false true (Some (AuthFile_Open text)) start_state.

Definition ask (text path : bytes) (oper : Z) (e : SecEntity) : res Z :=
  '(_, st) ← load text;
  '(r, _, _, _) ← Access (fun _ _ _ _ => false) 100 path 0 oper e st; Ok r.

Lemma ConfigDB_ok_witness : exists rc st',
  ConfigDB (MkAccOptions 0 false) 100 false true (Some (AuthFile_Open sample_text)) start_state
    = Ok (rc, st') /\ rc = 0 /\ access_wf st'.
Proof.
  assert (match ConfigDB (MkAccOptions 0 false) 100 false true (Some (AuthFile_Open sample_text)) start_state
          with Ok (rc, _) => rc | _ => 7 end = 0) as Hrc by (vm_compute; reflexivity).
  pose proof (ConfigDB_ok (MkAccOptions 0 false) 100 false true (Some (AuthFile_Open sample_text))
    start_state groups_new_wf) as H.
  revert Hrc H.
  generalize (ConfigDB (MkAccOptions 0 false) 100 false true (Some (AuthFile_Open sample_text)) start_state).
  intros [[rc st']| | |] Hrc H; [|discriminate Hrc..]. exists rc, st'. split; [reflexivity|].
  split; [exact Hrc|]. destruct H as [[_ [[_ H]|[H _]]] _]; [exact H|congruence].
Defined.

(** Ann reads and writes /data and reads /pub through the template; at her home
    she may do anything; a member of atlas is subject to the exclusive rule. *)
Example sample_decisions :
  ask sample_text (str "/data/f") 12 plain_entity = Ok 1 /\
  ask sample_text (str "/data/f") 4 plain_entity = Ok 0 /\
  ask sample_text (str "/pub/f") 8 plain_entity = Ok 1 /\
  ask sample_text (str "/home/ann/f") 4 plain_entity = Ok 1 /\
  ask sample_text (str "/atlas/f") 4 member_entity = Ok 1 /\
  ask sample_text (str "/data/f") 8 member_entity = Ok 0.
Proof. vm_compute. done. Qed.

(** A set record before any definition goes through a null table. *)
Example set_without_definition : load (str "x at /atlas a") = Fault.
Proof. vm_compute. done. Qed.

(** A capability of the fungible list without the insertion mark is granted for
    every path that starts with the user's name. *)
Example fungible_without_mark :
  Privs (str "/a/secret") (Some (str "/a")) (Capability_path (str "/b") (MkPrivCaps XrdAccPriv_All 0))
    PrivCaps_none = (true, MkPrivCaps XrdAccPriv_All 0).
Proof. vm_compute. done. Qed.
