(* ===== verification/BwmPolicy.v ===== *)
(** * The default bandwidth policy

    Models src/src/XrdBwm/XrdBwmPolicy1.hh and XrdBwmPolicy1.cc. The requests are
    objects of a heap linked by [Next], as the queues share and relink them; a
    deleted object is not in the heap. The mutex makes every routine one step,
    and [Dispatch] is one turn of its loop: it returns a request or waits for the
    semaphore. *)

From stdpp Require Import base tactics list_numbers numbers option gmap list.
From S2P Require Import Prelude.

(** [Flow]: the queues. *)
Inductive Flow := In | Out | Xeq.

#[export] Instance Flow_eq_dec : EqDecision Flow.
Proof. solve_decision. Defined.

Record refReq := MkReq { rq_Next : option Z; rq_refID : Z; rq_Way : Flow }.

(** [refReq( id, xF )] *)
Definition refReq_new (id : Z) (incoming : bool) : refReq :=
  MkReq None id (if incoming then In else Out).

Record refSch := MkSch { First : option Z; Last : option Z; Num : Z; curSlots : Z; maxSlots : Z }.

Record Policy1 := MkPolicy {
  bw_heap : gmap Z refReq; bw_In : refSch; bw_Out : refSch; bw_Xeq : refSch;
  bw_refID : Z; bw_posted : Z }.

(** [theQ[f]] *)
Definition theQ (f : Flow) (s : Policy1) : refSch :=
  match f with In => bw_In s | Out => bw_Out s | Xeq => bw_Xeq s end.

Definition set_Q (f : Flow) (q : refSch) (s : Policy1) : Policy1 :=
  match f with
  | In => MkPolicy (bw_heap s) q (bw_Out s) (bw_Xeq s) (bw_refID s) (bw_posted s)
  | Out => MkPolicy (bw_heap s) (bw_In s) q (bw_Xeq s) (bw_refID s) (bw_posted s)
  | Xeq => MkPolicy (bw_heap s) (bw_In s) (bw_Out s) q (bw_refID s) (bw_posted s)
  end.

Definition set_bwheap (h : gmap Z refReq) (s : Policy1) : Policy1 :=
  MkPolicy h (bw_In s) (bw_Out s) (bw_Xeq s) (bw_refID s) (bw_posted s).

Definition set_slots (n : Z) (q : refSch) : refSch := MkSch (First q) (Last q) (Num q) n (maxSlots q).

(** [XrdBwmPolicy1( inslots, outslots )] *)
Definition XrdBwmPolicy1 (inslots outslots : Z) : Policy1 :=
  MkPolicy ∅ (MkSch None None 0 inslots inslots) (MkSch None None 0 outslots outslots)
    (MkSch None None 0 0 0) 1 0.

(** The object a pointer refers to. *)
Definition req_at (s : Policy1) (p : Z) : res refReq :=
  match bw_heap s !! p with Some r => Ok r | None => Fault end.

(** [refSch::Add( rP )] *)
Definition Sch_Add (f : Flow) (rP : Z) (s : Policy1) : res Policy1 :=
  let q := theQ f s in
  r ← req_at s rP;
  let s := set_bwheap (<[rP := MkReq (Last q) (rq_refID r) (rq_Way r)]> (bw_heap s)) s in
  let q :=
    match Last q with
    | Some _ => MkSch (First q) (Some rP) (Num q + 1) (curSlots q) (maxSlots q)
    | None => MkSch (Some rP) (Some rP) (Num q + 1) (curSlots q) (maxSlots q)
    end in
  Ok (set_Q f q s).

(** [refSch::Next()] *)
Definition Sch_Next (f : Flow) (s : Policy1) : res (option Z * Policy1) :=
  let q := theQ f s in
  match First q with
  | None => Ok (None, s)
  | Some rP =>
      if curSlots q =? 0 then Ok (Some rP, s)
      else
        r ← req_at s rP;
        let last := match rq_Next r with Some _ => Last q | None => None end in
        Ok (Some rP, set_Q f (MkSch (rq_Next r) last (Num q - 1) (curSlots q - 1) (maxSlots q)) s)
  end.

(** The walk of [Yank]: what precedes the request and the request, or nothing. *)
Fixpoint Yank_walk (fuel : nat) (rID : Z) (s : Policy1) (pP rP : option Z)
  : res (option (option Z * Z * refReq)) :=
  match rP with
  | None => Ok None
  | Some p =>
      match fuel with
      | O => Diverge
      | S fuel =>
          r ← req_at s p;
          if rID =? rq_refID r then Ok (Some (pP, p, r))
          else Yank_walk fuel rID s (Some p) (rq_Next r)
      end
  end.

(** [refSch::Yank( rID )]; without a cycle the walk visits every request of the
    heap at most once. *)
Definition Yank (f : Flow) (rID : Z) (s : Policy1) : res (option (Z * refReq) * Policy1) :=
  let q := theQ f s in
  found ← Yank_walk (S (size (bw_heap s))) rID s None (First q);
  match found with
  | None => Ok (None, s)
  | Some (pP, rP, r) =>
      s ← match pP with
          | Some p =>
              pr ← req_at s p;
              Ok (set_bwheap (<[p := MkReq (rq_Next r) (rq_refID pr) (rq_Way pr)]> (bw_heap s)) s)
          | None => Ok s
          end;
      let first := match pP with Some _ => First q | None => rq_Next r end in
      let last := if bool_decide (Some rP = Last q) then pP else Last q in
      Ok (Some (rP, r), set_Q f (MkSch first last (Num q - 1) (curSlots q) (maxSlots q)) s)
  end.

(** One turn of [Dispatch( RespBuff, RespSize )]: the request made active, or
    nothing when it waits for the semaphore. *)
Definition Dispatch (s : Policy1) : res (option Z * Policy1) :=
  '(rP, s) ← Sch_Next In s;
  '(rP, s) ← match rP with Some _ => Ok (rP, s) | None => Sch_Next Out s end;
  match rP with
  | None => Ok (None, s)
  | Some rP =>
      s ← Sch_Add Xeq rP s;
      r ← req_at s rP;
      Ok (Some (rq_refID r), s)
  end.

(** [delete rP] *)
Definition delete_req (rP : Z) (s : Policy1) : Policy1 := set_bwheap (delete rP (bw_heap s)) s.

(** [Done( rHandle )] *)
Definition Done (rHandle : Z) (s : Policy1) : res (Z * Policy1) :=
  let rHandle := if rHandle <? 0 then - rHandle else rHandle in
  '(r, s) ← Yank Xeq rHandle s;
  match r with
  | Some (rP, r) =>
      let q := theQ (rq_Way r) s in
      let s' := set_Q (rq_Way r) (set_slots (curSlots q + 1) q) s in
      let s' := if curSlots q =? 0
                then MkPolicy (bw_heap s') (bw_In s') (bw_Out s') (bw_Xeq s') (bw_refID s') (bw_posted s' + 1)
                else s' in
      Ok (1, delete_req rP s')
  | None =>
      '(r, s) ← Yank In rHandle s;
      '(r, s) ← match r with Some _ => Ok (r, s) | None => Yank Out rHandle s end;
      match r with
      | Some (rP, _) => Ok (-1, delete_req rP s)
      | None => Ok (0, s)
      end
  end.

(** [Schedule( RespBuff, RespSize, Parms )] of a request in the given direction:
    the handle. *)
Definition Schedule (incoming : bool) (s : Policy1) : res (Z * Policy1) :=
  let myID := i32 (bw_refID s + 1) in
  let rP := fresh (dom (bw_heap s)) in
  let r := refReq_new myID incoming in
  let s := MkPolicy (<[rP := r]> (bw_heap s)) (bw_In s) (bw_Out s) (bw_Xeq s) myID (bw_posted s) in
  let q := theQ (rq_Way r) s in
  if 0 <? curSlots q then
    s ← Sch_Add Xeq rP (set_Q (rq_Way r) (set_slots (curSlots q - 1) q) s);
    Ok (myID, s)
  else if negb (maxSlots q =? 0) then
    s ← Sch_Add (rq_Way r) rP s;
    Ok (- myID, s)
  else Ok (0, delete_req rP s).

(** [Status( numqIn, numqOut, numXeq )] *)
Definition Status (s : Policy1) : Z * Z * Z := (Num (bw_In s), Num (bw_Out s), Num (bw_Xeq s)).

(** ** Requests that run at once *)

(** [k] incoming requests, one after the other. *)
Fixpoint schedule_n (k : nat) (s : Policy1) : res Policy1 :=
  match k with
  | O => Ok s
  | S k => s ← schedule_n k s; '(_, s) ← Schedule true s; Ok s
  end.

(** After some requests have been made active at once, the active queue starts
    at the first of them, which points nowhere, whatever its counter says. *)
Record first_only (inslots : Z) (k : nat) (s : Policy1) : Prop := {
  fo_slots : curSlots (bw_In s) = inslots - Z.of_nat k;
  fo_max : maxSlots (bw_In s) = inslots;
  fo_id : bw_refID s = 1 + Z.of_nat k;
  fo_num : Num (bw_Xeq s) = Z.of_nat k;
  fo_first : exists p, First (bw_Xeq s) = Some p /\ bw_heap s !! p = Some (MkReq None 2 In);
  fo_last : exists l, Last (bw_Xeq s) = Some l /\ is_Some (bw_heap s !! l);
  fo_in : First (bw_In s) = None /\ First (bw_Out s) = None }.

Lemma schedule_step inslots k s : first_only inslots k s -> (0 < k)%nat ->
  Z.of_nat (S k) <= inslots -> inslots < 2 ^ 31 - 2 ->
  exists s', Schedule true s = Ok (2 + Z.of_nat k, s') /\ first_only inslots (S k) s'.
Proof.
  intros [H1 H2 H3 H4 (p & H5 & H6) (l & H7 & H8) [H9 H10]] Hk Hin Hmax. unfold Schedule.
  rewrite H3. replace (i32 (1 + Z.of_nat k + 1)) with (2 + Z.of_nat k)
    by (unfold i32; rewrite Z.mod_small by lia; lia).
  set (a := fresh (dom (bw_heap s))).
  assert (bw_heap s !! a = None) as Ha by (apply not_elem_of_dom, is_fresh).
  cbn [refReq_new rq_Way theQ bw_In]. rewrite H1.
  destruct (Z.ltb_spec 0 (inslots - Z.of_nat k)); [|lia].
  unfold Sch_Add, req_at. cbn [set_Q bw_heap theQ bw_Xeq]. rewrite lookup_insert_eq.
  step_ok. rewrite H7. step_ok. eexists. split; [reflexivity|].
  split; cbn; [lia|done|lia|lia| | |done].
  - exists p. split; [done|]. rewrite lookup_insert_ne, lookup_insert_ne by congruence. done.
  - exists a. split; [done|]. rewrite lookup_insert_eq. by eexists.
Qed.

Lemma schedule_first inslots outslots : 1 <= inslots ->
  exists s, Schedule true (XrdBwmPolicy1 inslots outslots) = Ok (2, s) /\ first_only inslots 1 s.
Proof.
  intros Hin. unfold Schedule. cbn [XrdBwmPolicy1 bw_refID refReq_new rq_Way theQ bw_In curSlots].
  destruct (Z.ltb_spec 0 inslots); [|lia].
  unfold Sch_Add, req_at. cbn [set_Q bw_heap theQ bw_Xeq]. rewrite lookup_insert_eq. step_ok. cbn [Last].
  step_ok. eexists. split; [reflexivity|].
  split; cbn; [lia|done|done|done| | |done]; (eexists; split; [reflexivity|]);
    rewrite lookup_insert_eq; [done|by eexists].
Qed.

Lemma schedule_many inslots outslots k : (0 < k)%nat -> Z.of_nat k <= inslots -> inslots < 2 ^ 31 - 2 ->
  exists s, schedule_n k (XrdBwmPolicy1 inslots outslots) = Ok s /\ first_only inslots k s.
Proof.
  induction k as [|k IH]; [lia|]. intros _ Hk Hin. cbn [schedule_n].
  destruct k as [|k].
  - cbn [schedule_n]. step_ok. destruct (schedule_first inslots outslots) as (s & -> & Hs); [lia|]. cbn. eauto.
  - destruct IH as (s & -> & Hs); [lia|lia|done|]. step_ok.
    destruct (schedule_step inslots (S k) s Hs) as (s' & -> & Hs'); [lia|lia|done|]. cbn. eauto.
Qed.

Lemma Yank_empty f id s : First (theQ f s) = None -> Yank f id s = Ok (None, s).
Proof. intros H. unfold Yank. by rewrite H. Qed.

Lemma Yank_single f id s p r : First (theQ f s) = Some p -> bw_heap s !! p = Some r ->
  rq_Next r = None ->
  if id =? rq_refID r then exists s', Yank f id s = Ok (Some (p, r), s')
  else Yank f id s = Ok (None, s).
Proof.
  intros H1 H2 H3. unfold Yank. rewrite H1. cbn [Yank_walk]. unfold req_at. rewrite H2. step_ok.
  destruct (id =? rq_refID r).
  - step_ok. step_ok. eexists. reflexivity.
  - rewrite H3. destruct (size (bw_heap s)); done.
Qed.

(** The walk along the active queue finds the first request or nothing. *)
Lemma done_first_only inslots k s id : first_only inslots k s -> 0 <= id ->
  exists s', Done id s = Ok (if id =? 2 then 1 else 0, s').
Proof.
  intros [H1 H2 H3 H4 (p & H5 & H6) (l & H7 & H8) [H9 H10]] Hid. unfold Done.
  destruct (Z.ltb_spec id 0); [lia|].
  pose proof (Yank_single Xeq id s p _ H5 H6 eq_refl) as Hy. cbn [rq_refID] in Hy.
  destruct (Z.eqb_spec id 2) as [->|Hne].
  - destruct Hy as [s' ->]. step_ok. eexists. reflexivity.
  - rewrite Hy. step_ok. rewrite (Yank_empty In) by done. step_ok.
    rewrite (Yank_empty Out) by done. step_ok. eexists. reflexivity.
Qed.

(** However many requests start at once within the slots of a new policy,
    the policy counts them as active, but Done of their handles releases the
    first one only: for every other it reports that there is no such request,
    because the active queue links backwards from its last request and is
    searched from its first. *)
Theorem Done_releases_first_only inslots outslots k :
  1 <= Z.of_nat k <= inslots -> inslots < 2 ^ 31 - 2 ->
  exists s, schedule_n k (XrdBwmPolicy1 inslots outslots) = Ok s /\
    Status s = (Num (bw_In s), Num (bw_Out s), Z.of_nat k) /\
    forall id, 2 <= id <= Z.of_nat k + 1 ->
      exists s', Done id s = Ok (if id =? 2 then 1 else 0, s').
Proof.
  intros Hk Hin. destruct (schedule_many inslots outslots k) as (s & Hs & Hf); [lia..|].
  exists s. split; [done|]. split; [unfold Status; by rewrite (fo_num _ _ _ Hf)|].
  intros id Hid. by apply (done_first_only inslots k s id Hf); lia.
Qed.

Lemma Done_releases_first_only_witness :
  exists s, schedule_n 3 (XrdBwmPolicy1 4 4) = Ok s /\
    Status s = (Num (bw_In s), Num (bw_Out s), 3) /\
    forall id, 2 <= id <= 3 + 1 -> exists s', Done id s = Ok (if id =? 2 then 1 else 0, s').
Proof. apply (Done_releases_first_only 4 4 3); lia. Defined.

(** ** Dispatching *)

Lemma Sch_Next_full f s p : First (theQ f s) = Some p -> curSlots (theQ f s) = 0 ->
  Sch_Next f s = Ok (Some p, s).
Proof. intros H1 H2. unfold Sch_Next. by rewrite H1, H2. Qed.

(** When a request waits and no slot is free, Dispatch still makes it
    active instead of waiting: it adds the request to the active queue, leaves
    it where it was in the waiting one, and the next turn hands out the same
    request again. *)
Theorem Dispatch_ignores_slots s p r :
  First (bw_In s) = Some p -> bw_heap s !! p = Some r -> curSlots (bw_In s) = 0 ->
  exists s', Dispatch s = Ok (Some (rq_refID r), s') /\
    First (bw_In s') = Some p /\ Num (bw_In s') = Num (bw_In s) /\
    Num (bw_Xeq s') = Num (bw_Xeq s) + 1 /\
    exists s'', Dispatch s' = Ok (Some (rq_refID r), s'').
Proof.
  assert (forall s r, First (bw_In s) = Some p -> bw_heap s !! p = Some r -> curSlots (bw_In s) = 0 ->
    exists s', Dispatch s = Ok (Some (rq_refID r), s') /\ bw_In s' = bw_In s /\
      Num (bw_Xeq s') = Num (bw_Xeq s) + 1 /\
      bw_heap s' !! p = Some (MkReq (Last (bw_Xeq s)) (rq_refID r) (rq_Way r))) as Hstep.
  { clear. intros s r H1 H2 H3. unfold Dispatch. rewrite (Sch_Next_full In s p H1 H3). do 2 step_ok.
    unfold Sch_Add, req_at. rewrite H2. step_ok. step_ok. eexists. split.
    - destruct (Last (bw_Xeq s)); cbn [set_Q set_bwheap bw_heap]; rewrite lookup_insert_eq; reflexivity.
    - cbn [theQ]. destruct (Last (bw_Xeq s)); cbn; rewrite lookup_insert_eq; done. }
  intros H1 H2 H3. destruct (Hstep s r H1 H2 H3) as (s' & Hd & Hin & Hn & Hh).
  exists s'. split; [done|]. rewrite Hin. split; [done|]. split; [done|]. split; [done|].
  destruct (Hstep s' _ ltac:(by rewrite Hin) Hh ltac:(by rewrite Hin)) as (s'' & Hd' & _). eauto.
Qed.

(** One slot, two requests: the second one runs beside the first. *)
Definition sample_busy : res Policy1 :=
  '(_, s) ← Schedule true (XrdBwmPolicy1 1 1); '(_, s) ← Schedule true s; Ok s.

Lemma Dispatch_ignores_slots_witness :
  exists s p r s', sample_busy = Ok s /\ First (bw_In s) = Some p /\ bw_heap s !! p = Some r /\
    Dispatch s = Ok (Some (rq_refID r), s').
Proof.
  assert (exists s p r, sample_busy = Ok s /\ First (bw_In s) = Some p /\ bw_heap s !! p = Some r /\
    curSlots (bw_In s) = 0) as (s & p & r & Hs & H1 & H2 & H3) by (vm_compute; eauto 10).
  destruct (Dispatch_ignores_slots s p r H1 H2 H3) as (s' & H & _). exists s, p, r, s'. done.
Defined.

(** The second turn links the request to itself, and a search for a third handle
    never ends. *)
Example cyclic_queue :
  (s ← sample_busy; '(_, s) ← Dispatch s; '(_, s) ← Dispatch s; '(_, s) ← Done 2 s; Done 9 s) = Diverge.
Proof. vm_compute. done. Qed.
