(* ===== verification/CrcRegister.v ===== *)
(** * The shift register of a cyclic redundancy check

    The reference that the checksum routines are proved equal to: a 32-bit register
    that divides by a reflected polynomial one bit at a time. It is linear, it can be
    turned back, and bytes that enter one after the other enter at once as a number. *)

From stdpp Require Import base tactics list_numbers numbers option list.
From S2P Require Import Prelude.

(** ** Bits and ranges *)

Lemma odd_lxor a b : Z.odd (Z.lxor a b) = xorb (Z.odd a) (Z.odd b).
Proof. by rewrite <- !Z.bit0_odd, Z.lxor_spec. Qed.

Lemma lxor_range k a b : 0 <= k -> 0 <= a < 2 ^ k -> 0 <= b < 2 ^ k -> 0 <= Z.lxor a b < 2 ^ k.
Proof.
  intros Hk [Ha Ha'] [Hb Hb']. assert (0 <= Z.lxor a b) as H0 by (by apply Z.lxor_nonneg).
  split; [done|]. apply Z.bounded_iff_bits_nonneg; [done..|]. intros l Hl.
  rewrite Z.lxor_spec. rewrite Z.bounded_iff_bits_nonneg in Ha', Hb' by done.
  by rewrite Ha', Hb'.
Qed.

Lemma shiftr_range j k a : 0 <= j -> 0 <= a < 2 ^ (k + j) -> 0 <= k -> 0 <= Z.shiftr a j < 2 ^ k.
Proof.
  intros Hj Ha Hk. rewrite Z.shiftr_div_pow2 by done.
  rewrite Z.pow_add_r in Ha by lia. assert (0 < 2 ^ j) by (apply Z.pow_pos_nonneg; lia).
  split; [apply Z.div_pos; lia|apply Z.div_lt_upper_bound; lia].
Qed.

Lemma land_255 c : Z.land c 255 = c mod 256.
Proof. change 255 with (Z.ones 8). by rewrite Z.land_ones. Qed.

(** A word is its low byte and the rest. *)
Lemma low_byte c : c = Z.lxor (Z.land c 255) (Z.shiftl (Z.shiftr c 8) 8).
Proof.
  change 255 with (Z.ones 8). apply Z.bits_inj'. intros n Hn. rewrite Z.lxor_spec, Z.land_spec.
  rewrite Z.testbit_ones_nonneg by lia. rewrite Z.shiftl_spec by lia.
  destruct (Z.ltb_spec n 8).
  - rewrite (Z.testbit_neg_r _ (n - 8)) by lia. by rewrite andb_true_r, xorb_false_r.
  - rewrite Z.shiftr_spec by lia. rewrite andb_false_r, xorb_false_l. f_equal. lia.
Qed.

(** ** Parts of a block *)

(** [n] bytes from offset [off] *)
Definition slice (off n : Z) (buf : list Z) : list Z := take (Z.to_nat n) (drop (Z.to_nat off) buf).

Lemma slice_0 off buf : slice off 0 buf = [].
Proof. done. Qed.

Lemma slice_add off a b buf : 0 <= off -> 0 <= a -> 0 <= b ->
  slice off (a + b) buf = slice off a buf ++ slice (off + a) b buf.
Proof.
  intros Ho Ha Hb. unfold slice. rewrite !Z2Nat.inj_add by done. by rewrite <- take_take_drop, drop_drop.
Qed.

Lemma length_slice off n buf : 0 <= off -> 0 <= n -> off + n <= zlen buf -> length (slice off n buf) = Z.to_nat n.
Proof. intros. unfold slice, zlen in *. rewrite length_take, length_drop. lia. Qed.

Lemma slice_bytes off n buf : Forall is_byte buf -> Forall is_byte (slice off n buf).
Proof. intros. by apply Forall_take, Forall_drop. Qed.

Lemma rd_slice (n : nat) off buf : 0 <= off -> off + Z.of_nat n <= zlen buf ->
  rd n off buf = Ok (little_endian_to_Z 8 (slice off (Z.of_nat n) buf)).
Proof.
  intros. unfold rd, slice. rewrite (proj2 (Z.leb_le 0 off)), (proj2 (Z.leb_le _ (zlen buf))), Nat2Z.id by lia. done.
Qed.

Section register.
  Variable crc_poly : Z.
  Hypothesis poly_range : 2 ^ 31 <= crc_poly < 2 ^ 32.

Definition crc_bit (c : Z) : Z := Z.lxor (Z.shiftr c 1) (if Z.odd c then crc_poly else 0).

(** Eight turns of the register per byte, which enters at its low end. *)
Fixpoint crc_bits (n : nat) (c : Z) : Z :=
  match n with O => c | S n => crc_bits n (crc_bit c) end.

Definition crc_register (c : Z) (p : list Z) : Z :=
  foldl (fun c b => crc_bits 8 (Z.lxor c b)) c p.

(** ** The register is linear *)

Lemma crc_bit_lxor a b : crc_bit (Z.lxor a b) = Z.lxor (crc_bit a) (crc_bit b).
Proof.
  unfold crc_bit. rewrite Z.shiftr_lxor, odd_lxor.
  apply Z.bits_inj'. intros n Hn. rewrite !Z.lxor_spec.
  destruct (Z.odd a), (Z.odd b); cbn [xorb]; rewrite ?Z.bits_0;
    destruct (Z.testbit (Z.shiftr a 1) n), (Z.testbit (Z.shiftr b 1) n), (Z.testbit crc_poly n); done.
Qed.

Lemma crc_bits_lxor n a b : crc_bits n (Z.lxor a b) = Z.lxor (crc_bits n a) (crc_bits n b).
Proof. revert a b. induction n as [|n IH]; intros a b; cbn; [done|]. by rewrite crc_bit_lxor, IH. Qed.

Lemma crc_bits_add n m c : crc_bits (n + m) c = crc_bits m (crc_bits n c).
Proof. revert c. induction n as [|n IH]; intros c; cbn; auto. Qed.

(** Zero bits below the low end are shifted out. *)
Lemma crc_bits_shiftl n h : crc_bits n (Z.shiftl h (Z.of_nat n)) = h.
Proof.
  induction n as [|n IH]; [apply Z.shiftl_0_r|]. cbn [crc_bits].
  replace (crc_bit (Z.shiftl h (Z.of_nat (S n)))) with (Z.shiftl h (Z.of_nat n)); [done|].
  unfold crc_bit. rewrite <- Z.bit0_odd, Z.shiftl_spec_low by lia.
  rewrite Z.lxor_0_r, Z.shiftr_shiftl_l by lia. f_equal. lia.
Qed.

Lemma crc_bit_range c : 0 <= c < 2 ^ 32 -> 0 <= crc_bit c < 2 ^ 32.
Proof.
  intros Hc. unfold crc_bit. apply lxor_range; [lia| |destruct (Z.odd c); lia].
  pose proof (shiftr_range 1 31 c ltac:(lia) ltac:(lia) ltac:(lia)). lia.
Qed.

Lemma crc_bits_range n c : 0 <= c < 2 ^ 32 -> 0 <= crc_bits n c < 2 ^ 32.
Proof. revert c. induction n as [|n IH]; intros c Hc; cbn; [done|]. by apply IH, crc_bit_range. Qed.

(** ** The register can be turned back *)

Lemma crc_bit_zero c : 0 <= c < 2 ^ 32 -> crc_bit c = 0 -> c = 0.
Proof.
  intros Hc. unfold crc_bit. pose proof (shiftr_range 1 31 c ltac:(lia) ltac:(lia) ltac:(lia)) as Hs.
  destruct (Z.odd c) eqn:Ho.
  - intros Hx. apply Z.lxor_eq in Hx. rewrite Hx in Hs. lia.
  - rewrite Z.lxor_0_r. intros Hx. rewrite Z.shiftr_div_pow2 in Hx by lia.
    pose proof (Zodd_even_bool c). rewrite Ho in *. destruct (Z.eq_dec c 1) as [-> | ]; [done|].
    Z.div_mod_to_equations. lia.
Qed.

Lemma crc_bits_inj n a b : 0 <= a < 2 ^ 32 -> 0 <= b < 2 ^ 32 -> crc_bits n a = crc_bits n b -> a = b.
Proof.
  revert a b. induction n as [|n IH]; intros a b Ha Hb Heq; [done|]. cbn in Heq.
  apply IH in Heq; [|by apply crc_bit_range..].
  apply Z.lxor_eq. apply crc_bit_zero; [by apply lxor_range|].
  by rewrite crc_bit_lxor, Heq, Z.lxor_nilpotent.
Qed.

Lemma crc_register_app c p q : crc_register c (p ++ q) = crc_register (crc_register c p) q.
Proof. apply foldl_app. Qed.

(** Bytes that enter one after the other enter at once as a number. *)
Lemma crc_register_le c p : Forall is_byte p ->
  crc_register c p = crc_bits (8 * length p) (Z.lxor c (little_endian_to_Z 8 p)).
Proof.
  intros Hp. revert c. induction Hp as [|b p Hb Hp IH]; intros c; [by rewrite Z.lxor_0_r|].
  cbn [crc_register foldl length little_endian_to_Z]. fold (crc_register (crc_bits 8 (Z.lxor c b)) p).
  rewrite IH. replace (8 * S (length p))%nat with (8 + 8 * length p)%nat by lia.
  rewrite crc_bits_add. f_equal.
  assert (Z.lor b (little_endian_to_Z 8 p ≪ 8) = Z.lxor b (little_endian_to_Z 8 p ≪ 8)) as ->.
  { apply Z.bits_inj'. intros n Hn. rewrite Z.lor_spec, Z.lxor_spec.
    destruct (Z.ltb_spec n 8).
    - rewrite (Z.shiftl_spec _ 8 n), (Z.testbit_neg_r _ (n - 8)) by lia. by destruct (Z.testbit b n).
    - rewrite (proj1 (Z.bounded_iff_bits_nonneg 8 b ltac:(lia) ltac:(unfold is_byte in Hb; lia)));
        [by destruct (Z.testbit _ n)|apply Hb|lia]. }
  rewrite <- Z.lxor_assoc, (crc_bits_lxor 8 (Z.lxor c b)). f_equal.
  change 8 with (Z.of_nat 8) at 3. symmetry. apply crc_bits_shiftl.
Qed.

Lemma crc_register_range c p : Forall is_byte p -> 0 <= c < 2 ^ 32 -> 0 <= crc_register c p < 2 ^ 32.
Proof.
  intros Hp. revert c. induction Hp as [|b p Hb Hp IH]; intros c Hc; [done|]. apply IH.
  apply crc_bits_range, lxor_range; [lia|done|]. unfold is_byte in Hb. lia.
Qed.

Lemma crc_register_inj a b p : Forall is_byte p -> 0 <= a < 2 ^ 32 -> 0 <= b < 2 ^ 32 ->
  crc_register a p = crc_register b p -> a = b.
Proof.
  intros Hp Ha Hb. rewrite !crc_register_le by done. rewrite !crc_bits_lxor. intros Heq.
  apply (crc_bits_inj (8 * length p)); [done..|].
  apply (f_equal (fun z => Z.lxor z (crc_bits (8 * length p) (little_endian_to_Z 8 p)))) in Heq.
  by rewrite !Z.lxor_assoc, !Z.lxor_nilpotent, !Z.lxor_0_r in Heq.
Qed.

(** A turn of the loop with a table of bytes is eight turns of the register. *)
Lemma crc_table_step crc b : is_byte b ->
  Z.lxor (crc_bits 8 (Z.land (Z.lxor crc b) 255)) (Z.shiftr crc 8) = crc_bits 8 (Z.lxor crc b).
Proof.
  intros Hb. set (c := Z.lxor crc b). pose proof (low_byte c) as Hc.
  rewrite Hc at 2. rewrite crc_bits_lxor. f_equal.
  change 8 with (Z.of_nat 8) at 2. rewrite crc_bits_shiftl.
  unfold c. rewrite Z.shiftr_lxor. rewrite (Z.shiftr_div_pow2 b) by lia.
  unfold is_byte in Hb. rewrite Z.div_small by lia. by rewrite Z.lxor_0_r.
Qed.

Lemma crc_register_zeros c n : crc_register c (replicate n 0) = crc_bits (8 * n) c.
Proof.
  revert c. induction n as [|n IH]; intros c; [done|]. replace (8 * S n)%nat with (8 + 8 * n)%nat by lia.
  rewrite crc_bits_add. cbn [replicate crc_register foldl]. fold (crc_register (crc_bits 8 (Z.lxor c 0)) (replicate n 0)).
  by rewrite Z.lxor_0_r, IH.
Qed.

(** What the register holds moves apart from the bytes that enter. *)
Lemma crc_register_split c p : Forall is_byte p -> crc_register c p = Z.lxor (crc_bits (8 * length p) c) (crc_register 0 p).
Proof. intros Hp. by rewrite !crc_register_le, crc_bits_lxor, Z.lxor_0_l by done. Qed.

End register.

Arguments crc_bit_lxor {crc_poly}.
Arguments crc_bits_lxor {crc_poly}.
Arguments crc_bits_add {crc_poly}.
Arguments crc_bits_shiftl {crc_poly}.
Arguments crc_bit_range {crc_poly}.
Arguments crc_bits_range {crc_poly}.
Arguments crc_bit_zero {crc_poly}.
Arguments crc_bits_inj {crc_poly}.
Arguments crc_register_app {crc_poly}.
Arguments crc_register_le {crc_poly}.
Arguments crc_register_range {crc_poly}.
Arguments crc_register_inj {crc_poly}.
Arguments crc_table_step {crc_poly}.
Arguments crc_register_zeros {crc_poly}.
Arguments crc_register_split {crc_poly}.
