(* ===== verification/OucCRC.v ===== *)
(** * The CRC-32 of XrdOucCRC

    Models [CRC32] of src/src/XrdOuc/XrdOucCRC.cc with its table. The reference
    is the shift register that divides by the polynomial one bit at a time; the
    table driven loop equals it, and being linear and reversible the checksum
    notices every change within four consecutive bytes. *)

From stdpp Require Import base tactics list_numbers numbers option list.
From S2P Require Import Prelude CrcRegister.

(** [crctable] *)
Definition crctable : list Z :=
  [
   0; 1996959894; 3993919788; 2567524794;
   124634137; 1886057615; 3915621685; 2657392035;
   249268274; 2044508324; 3772115230; 2547177864;
   162941995; 2125561021; 3887607047; 2428444049;
   498536548; 1789927666; 4089016648; 2227061214;
   450548861; 1843258603; 4107580753; 2211677639;
   325883990; 1684777152; 4251122042; 2321926636;
   335633487; 1661365465; 4195302755; 2366115317;
   997073096; 1281953886; 3579855332; 2724688242;
   1006888145; 1258607687; 3524101629; 2768942443;
   901097722; 1119000684; 3686517206; 2898065728;
   853044451; 1172266101; 3705015759; 2882616665;
   651767980; 1373503546; 3369554304; 3218104598;
   565507253; 1454621731; 3485111705; 3099436303;
   671266974; 1594198024; 3322730930; 2970347812;
   795835527; 1483230225; 3244367275; 3060149565;
   1994146192; 31158534; 2563907772; 4023717930;
   1907459465; 112637215; 2680153253; 3904427059;
   2013776290; 251722036; 2517215374; 3775830040;
   2137656763; 141376813; 2439277719; 3865271297;
   1802195444; 476864866; 2238001368; 4066508878;
   1812370925; 453092731; 2181625025; 4111451223;
   1706088902; 314042704; 2344532202; 4240017532;
   1658658271; 366619977; 2362670323; 4224994405;
   1303535960; 984961486; 2747007092; 3569037538;
   1256170817; 1037604311; 2765210733; 3554079995;
   1131014506; 879679996; 2909243462; 3663771856;
   1141124467; 855842277; 2852801631; 3708648649;
   1342533948; 654459306; 3188396048; 3373015174;
   1466479909; 544179635; 3110523913; 3462522015;
   1591671054; 702138776; 2966460450; 3352799412;
   1504918807; 783551873; 3082640443; 3233442989;
   3988292384; 2596254646; 62317068; 1957810842;
   3939845945; 2647816111; 81470997; 1943803523;
   3814918930; 2489596804; 225274430; 2053790376;
   3826175755; 2466906013; 167816743; 2097651377;
   4027552580; 2265490386; 503444072; 1762050814;
   4150417245; 2154129355; 426522225; 1852507879;
   4275313526; 2312317920; 282753626; 1742555852;
   4189708143; 2394877945; 397917763; 1622183637;
   3604390888; 2714866558; 953729732; 1340076626;
   3518719985; 2797360999; 1068828381; 1219638859;
   3624741850; 2936675148; 906185462; 1090812512;
   3747672003; 2825379669; 829329135; 1181335161;
   3412177804; 3160834842; 628085408; 1382605366;
   3423369109; 3138078467; 570562233; 1426400815;
   3317316542; 2998733608; 733239954; 1555261956;
   3268935591; 3050360625; 752459403; 1541320221;
   2607071920; 3965973030; 1969922972; 40735498;
   2617837225; 3943577151; 1913087877; 83908371;
   2512341634; 3803740692; 2075208622; 213261112;
   2463272603; 3855990285; 2094854071; 198958881;
   2262029012; 4057260610; 1759359992; 534414190;
   2176718541; 4139329115; 1873836001; 414664567;
   2282248934; 4279200368; 1711684554; 285281116;
   2405801727; 4167216745; 1634467795; 376229701;
   2685067896; 3608007406; 1308918612; 956543938;
   2808555105; 3495958263; 1231636301; 1047427035;
   2932959818; 3654703836; 1088359270; 936918000;
   2847714899; 3736837829; 1202900863; 817233897;
   3183342108; 3401237130; 1404277552; 615818150;
   3134207493; 3453421203; 1423857449; 601450431;
   3009837614; 3294710456; 1567103746; 711928724;
   3020668471; 3272380065; 1510334235; 755167117
  ].

(** One turn of the loop: [crctable[(crc ^ *p++) & 0xff] ^ (crc >> 8)]. *)
Definition crc_step (crc b : Z) : res Z :=
  match crctable !! Z.to_nat (Z.land (Z.lxor crc b) 255) with
  | Some t => Ok (Z.lxor t (Z.shiftr crc 8))
  | None => Fault
  end.

(** The loop over [reclen] bytes; [p] is the block from the pointer on. *)
Fixpoint crc_loop (reclen : nat) (p : list Z) (crc : Z) : res Z :=
  match reclen, p with
  | O, _ => Ok crc
  | S _, [] => Fault
  | S n, b :: p => crc ← crc_step crc b; crc_loop n p crc
  end.

Definition CRC32_XINIT : Z := 4294967295.
Definition CRC32_XOROT : Z := 4294967295.

(** [CRC32( p, reclen )] *)
Definition CRC32 (p : list Z) (reclen : Z) : res Z :=
  crc ← crc_loop (Z.to_nat reclen) p CRC32_XINIT;
  Ok (Z.lxor crc CRC32_XOROT).

(** ** The reference: one bit at a time *)

(** The reflected polynomial 0x04C11DB7. *)
Definition crc_poly : Z := 3988292384.

#[local] Abbreviation crc_bits := (crc_bits crc_poly).
#[local] Abbreviation crc_register := (crc_register crc_poly).

Lemma crc_poly_range : 2 ^ 31 <= crc_poly < 2 ^ 32.
Proof. done. Qed.
#[local] Hint Resolve crc_poly_range : core.

(** ** The table *)

Lemma crctable_bits i : 0 <= i < 256 -> crctable !! Z.to_nat i = Some (crc_bits 8 i).
Proof.
  intros Hi.
  assert (Forall (fun i => crctable !! Z.to_nat i = Some (crc_bits 8 i)) (seqZ 0 256)) as H
    by (apply (bool_decide_unpack _); vm_compute; done).
  rewrite Forall_forall in H. apply H, elem_of_seqZ. lia.
Qed.

(** A turn of the loop is eight turns of the register. *)
Lemma crc_step_bits crc b : is_byte b -> crc_step crc b = Ok (crc_bits 8 (Z.lxor crc b)).
Proof.
  intros Hb. unfold crc_step. rewrite crctable_bits by (rewrite land_255; lia_div). by rewrite crc_table_step.
Qed.

Lemma crc_loop_register n p c : Forall is_byte p -> (n <= length p)%nat ->
  crc_loop n p c = Ok (crc_register c (take n p)).
Proof.
  intros Hp. revert n c. induction Hp as [|b p Hb Hp IH]; intros [|n] c Hn; cbn in *; try done; [lia|].
  rewrite crc_step_bits by done. step_ok. apply IH. lia.
Qed.

Lemma CRC32_register p n : Forall is_byte p -> 0 <= n <= zlen p ->
  CRC32 p n = Ok (Z.lxor (crc_register CRC32_XINIT (take (Z.to_nat n) p)) CRC32_XOROT).
Proof. intros Hp Hn. unfold CRC32. unfold zlen in Hn. by rewrite crc_loop_register by (done || lia). Qed.

(** C28: For every byte string the table driven CRC32 computes what the
    one-bit shift register of the reflected polynomial computes, and it reads
    past the block exactly when it is told more bytes than there are. *)
Theorem CRC32_bitwise p :
  Forall is_byte p ->
  CRC32 p (zlen p) = Ok (Z.lxor (crc_register CRC32_XINIT p) CRC32_XOROT) /\
  forall n, zlen p < n -> CRC32 p n = Fault.
Proof.
  intros Hp. split.
  - rewrite CRC32_register by (done || (pose proof (zlen_nonneg p); lia)).
    unfold zlen. by rewrite Nat2Z.id, firstn_all.
  - intros n Hn. unfold CRC32. assert (length p < Z.to_nat n)%nat as Hl by (unfold zlen in Hn; lia).
    replace (crc_loop (Z.to_nat n) p CRC32_XINIT) with (@Fault Z); [done|]. symmetry.
    clear Hn. revert Hl. generalize (Z.to_nat n) CRC32_XINIT.
    induction Hp as [|b p Hb Hp IH]; intros k c Hl; (destruct k as [|k]; cbn in *; [lia|]); [done|].
    rewrite crc_step_bits by done. step_ok. apply IH. lia.
Qed.

Lemma CRC32_bitwise_witness :
  CRC32 [49; 50; 51] 3 = Ok (Z.lxor (crc_register CRC32_XINIT [49; 50; 51]) CRC32_XOROT) /\
  CRC32 [49; 50; 51] 4 = Fault.
Proof.
  destruct (CRC32_bitwise [49; 50; 51]) as [H1 H2].
  - repeat constructor; unfold is_byte; lia.
  - split; [exact H1|apply H2; done].
Defined.

(** C26: Two texts of the same length that differ only within four consecutive
    bytes never have the same CRC32. *)
Theorem CRC32_detects_burst l w w' r :
  Forall is_byte (l ++ w ++ r) -> Forall is_byte w' -> length w = length w' -> zlen w <= 4 -> w <> w' ->
  CRC32 (l ++ w ++ r) (zlen (l ++ w ++ r)) <> CRC32 (l ++ w' ++ r) (zlen (l ++ w' ++ r)).
Proof.
  rewrite !Forall_app. intros (Hl & Hw & Hr) Hw' Hlen H4 Hne.
  assert (0 <= CRC32_XINIT < 2 ^ 32) as Hi by done.
  assert (forall w, Forall is_byte w -> zlen w <= 4 -> 0 <= little_endian_to_Z 8 w < 2 ^ 32) as Hle.
  { intros v Hv Hv4. pose proof (little_endian_to_Z_bound 8 v ltac:(lia) Hv) as Hb. unfold zlen in Hv4.
    split; [lia|]. apply (Z.lt_le_trans _ (2 ^ (Z.of_nat (length v) * 8))); [lia|].
    apply Z.pow_le_mono_r; lia. }
  assert (zlen w' <= 4) as H4' by (unfold zlen in *; lia).
  rewrite !CRC32_register by first [by rewrite ?Forall_app | split; auto using zlen_nonneg; lia].
  unfold zlen. rewrite !Nat2Z.id, !firstn_all. intros [= Heq].
  apply (f_equal (fun z => Z.lxor z CRC32_XOROT)) in Heq.
  rewrite !Z.lxor_assoc, !Z.lxor_nilpotent, !Z.lxor_0_r, !crc_register_app in Heq.
  pose proof (crc_register_range crc_poly_range _ _ Hl Hi) as Hs.
  apply crc_register_inj in Heq; [|done|done|by apply crc_register_range..].
  revert Heq Hs. generalize (crc_register CRC32_XINIT l). intros s Heq Hs.
  rewrite !crc_register_le in Heq by done. rewrite <- Hlen in Heq.
  apply crc_bits_inj in Heq; [|done|apply lxor_range; auto; lia..].
  apply (f_equal (Z.lxor s)) in Heq.
  rewrite <- !Z.lxor_assoc, !Z.lxor_nilpotent, !Z.lxor_0_l in Heq.
  apply Hne. rewrite <- (Z_to_little_endian_to_Z (Z.of_nat (length w)) 8 w),
    <- (Z_to_little_endian_to_Z (Z.of_nat (length w')) 8 w'); auto; try lia.
  by rewrite Heq, Hlen.
Qed.

Lemma CRC32_detects_burst_witness :
  CRC32 [47; 97; 98; 47] 4 <> CRC32 [47; 98; 97; 47] 4.
Proof.
  apply (CRC32_detects_burst [47] [97; 98] [98; 97] [47]);
    try done; repeat constructor; unfold is_byte; lia.
Defined.

(** The check value of the polynomial. *)
Example crc_check : CRC32 [49; 50; 51; 52; 53; 54; 55; 56; 57] 9 = Ok 3421780262.
Proof. vm_compute. reflexivity. Qed.
