(* ===== verification/OucCRC32C.v ===== *)
(** * The CRC-32C of XrdOucCRC32C

    Models src/src/XrdOuc/XrdOucCRC32C.cc: the routine for processors with an
    instruction for the checksum, which works on three blocks at once and joins them
    by tables of an operator over GF(2); the table driven routines for little and
    big endian processors; and the combination of two checksums. All of them equal
    the shift register of [CrcRegister]. The instructions are given by their
    documented effect, so many turns of the register on the loaded word. *)

From stdpp Require Import base tactics list_numbers numbers option list.
From S2P Require Import Prelude CrcRegister.
#[local] Set Warnings "-clear-no-such-hyp".

(** The reflected polynomial. *)
Definition POLY : Z := 0x82f63b78.

#[local] Abbreviation crc_bits := (crc_bits POLY).
#[local] Abbreviation crc_register := (crc_register POLY).

(** [~crc] *)
Definition not32 (c : Z) : Z := Z.lxor c 0xffffffff.

(** ** Operators over GF(2) *)

Fixpoint gf2_matrix_times_loop (mat : list Z) (vec sum : Z) : res Z :=
  if vec =? 0 then Ok sum
  else match mat with
       | [] => Fault
       | m :: mat => gf2_matrix_times_loop mat (Z.shiftr vec 1) (if Z.odd vec then Z.lxor sum m else sum)
       end.
Definition gf2_matrix_times (mat : list Z) (vec : Z) : res Z := gf2_matrix_times_loop mat vec 0.

Fixpoint matrix_rows (mat : list Z) (vecs : list Z) : res (list Z) :=
  match vecs with
  | [] => Ok []
  | v :: vecs => x ← gf2_matrix_times mat v; l ← matrix_rows mat vecs; Ok (x :: l)
  end.
(** [gf2_matrix_square( square, mat )] of 32 rows *)
Definition gf2_matrix_square (mat : list Z) : res (list Z) := matrix_rows mat mat.

(** The operator for one zero bit. *)
Definition one_zero_bit : list Z := POLY :: ((fun n => Z.shiftl 1 n) <$> seqZ 0 31).

Fixpoint zeros_loop (fuel : nat) (odd : list Z) (len : Z) : res (list Z) :=
  match fuel with
  | O => Diverge
  | S fuel =>
      even ← gf2_matrix_square odd;
      let len := Z.shiftr len 1 in
      if len =? 0 then Ok even
      else
        odd ← gf2_matrix_square even;
        let len := Z.shiftr len 1 in
        if len =? 0 then Ok odd else zeros_loop fuel odd len
  end.

(** [crc32c_zeros_op( even, len )] *)
Definition crc32c_zeros_op (len : Z) : res (list Z) :=
  even ← gf2_matrix_square one_zero_bit;
  odd ← gf2_matrix_square even;
  zeros_loop 32 odd len.

(** [crc32c_zeros( zeros, len )]: the four tables *)
Definition crc32c_zeros (len : Z) : res (list (list Z)) :=
  op ← crc32c_zeros_op len;
  z0 ← matrix_rows op ((fun n => n) <$> seqZ 0 256);
  z1 ← matrix_rows op ((fun n => Z.shiftl n 8) <$> seqZ 0 256);
  z2 ← matrix_rows op ((fun n => Z.shiftl n 16) <$> seqZ 0 256);
  z3 ← matrix_rows op ((fun n => Z.shiftl n 24) <$> seqZ 0 256);
  Ok [z0; z1; z2; z3].

(** [table[k][i]] *)
Definition entry (t : list (list Z)) (k : nat) (i : Z) : res Z :=
  match t !! k with
  | Some row => match row !! Z.to_nat i with Some x => Ok x | None => Fault end
  | None => Fault
  end.

(** [crc32c_shift( zeros, crc )] *)
Definition crc32c_shift (zeros : list (list Z)) (crc : Z) : res Z :=
  a ← entry zeros 0 (Z.land crc 0xff);
  b ← entry zeros 1 (Z.land (Z.shiftr crc 8) 0xff);
  c ← entry zeros 2 (Z.land (Z.shiftr crc 16) 0xff);
  d ← entry zeros 3 (Z.shiftr crc 24);
  Ok (Z.lxor (Z.lxor (Z.lxor a b) c) d).

(** ** The routine with instructions *)

(** The instructions [crc32q], [crc32l], [crc32w] and [crc32b] on [n] bytes in memory. *)
Definition crc32_insn (n : nat) (crc : Z) (next : Z) (buf : list Z) : res Z :=
  w ← rd n next buf; Ok (crc_bits (8 * n) (Z.lxor crc w)).

Definition LONG : Z := 8192.
Definition SHORT : Z := 256.

(** The inner loop: three blocks of [L] bytes, a word of each at a time. *)
Fixpoint hw_words (n : nat) (L : Z) (buf : list Z) (next crc0 crc1 crc2 : Z) : res (Z * Z * Z) :=
  match n with
  | O => Ok (crc0, crc1, crc2)
  | S n =>
      crc0 ← crc32_insn 8 crc0 next buf;
      crc1 ← crc32_insn 8 crc1 (next + L) buf;
      crc2 ← crc32_insn 8 crc2 (next + 2 * L) buf;
      hw_words n L buf (next + 8) crc0 crc1 crc2
  end.

(** [while (len >= L*3)] *)
Fixpoint hw_blocks (fuel : nat) (zeros : list (list Z)) (L : Z) (buf : list Z) (next len crc0 : Z) : res (Z * Z * Z) :=
  if len <? 3 * L then Ok (next, len, crc0)
  else
    match fuel with
    | O => Diverge
    | S fuel =>
        '(crc0, crc1, crc2) ← hw_words (Z.to_nat (L / 8)) L buf next crc0 0 0;
        s ← crc32c_shift zeros crc0;
        let crc0 := Z.lxor s crc1 in
        s ← crc32c_shift zeros crc0;
        let crc0 := Z.lxor s crc2 in
        hw_blocks fuel zeros L buf (next + 3 * L) (len - 3 * L) crc0
    end.

(** The remaining words. *)
Fixpoint hw_rest (n : nat) (buf : list Z) (next crc0 : Z) : res (Z * Z) :=
  match n with
  | O => Ok (next, crc0)
  | S n => crc0 ← crc32_insn 8 crc0 next buf; hw_rest n buf (next + 8) crc0
  end.

(** The trailing bytes: four, two and one at a time. *)
Definition hw_tail (n : nat) (buf : list Z) (next len crc : Z) : res (Z * Z) :=
  if Z.land len (Z.of_nat n) =? 0 then Ok (next, crc)
  else crc ← crc32_insn n crc next buf; Ok (next + Z.of_nat n, crc).

(** [crc32c_hw( crc, buf, len )] with the tables of [crc32c_init_hw] *)
Definition crc32c_hw (crc : Z) (buf : list Z) (len : Z) : res Z :=
  long ← crc32c_zeros LONG;
  short ← crc32c_zeros SHORT;
  let crc := not32 crc in
  '(next, len, crc0) ← hw_blocks (Z.to_nat (len / (3 * LONG))) long LONG buf 0 len crc;
  '(next, len, crc0) ← hw_blocks (Z.to_nat (len / (3 * SHORT))) short SHORT buf next len crc0;
  '(next, crc) ← hw_rest (Z.to_nat (len / 8)) buf next crc0;
  let len := Z.land len 7 in
  '(next, crc) ← hw_tail 4 buf next len crc;
  '(next, crc) ← hw_tail 2 buf next len crc;
  '(_, crc) ← hw_tail 1 buf next len crc;
  Ok (not32 crc).

(** ** The table driven routines *)

(** [crc & 1 ? (crc >> 1) ^ POLY : crc >> 1] *)
Definition sw_bit (crc : Z) : Z := if Z.odd crc then Z.lxor (Z.shiftr crc 1) POLY else Z.shiftr crc 1.

(** The first row of the tables, and a row from the one before it. *)
Definition sw_row0 : list Z := (fun n => sw_bit (sw_bit (sw_bit (sw_bit (sw_bit (sw_bit (sw_bit (sw_bit n)))))))) <$> seqZ 0 256.

(** [table[0][crc & 0xff] ^ (crc >> 8)] *)
Definition sw_next (row0 : list Z) (crc : Z) : res Z :=
  match row0 !! Z.to_nat (Z.land crc 0xff) with Some t => Ok (Z.lxor t (Z.shiftr crc 8)) | None => Fault end.

Fixpoint sw_row (row0 row : list Z) : res (list Z) :=
  match row with
  | [] => Ok []
  | c :: row => x ← sw_next row0 c; l ← sw_row row0 row; Ok (x :: l)
  end.

Fixpoint sw_rows (n : nat) (row0 row : list Z) : res (list (list Z)) :=
  match n with
  | O => Ok []
  | S n => row ← sw_row row0 row; l ← sw_rows n row0 row; Ok (row :: l)
  end.

(** [crc32c_init_sw_little] *)
Definition crc32c_init_sw_little : res (list (list Z)) := l ← sw_rows 7 sw_row0 sw_row0; Ok (sw_row0 :: l).

(** One byte through the first row of the table. *)
Definition sw_byte (row0 : list Z) (crc next : Z) (buf : list Z) : res Z :=
  b ← rd 1 next buf;
  match row0 !! Z.to_nat (Z.land (Z.lxor crc b) 0xff) with Some t => Ok (Z.lxor t (Z.shiftr crc 8)) | None => Fault end.

(** The bytes until [next] is aligned or the data ends; [addr] is the buffer's address. *)
Fixpoint sw_align (fuel : nat) (addr : Z) (row0 : list Z) (buf : list Z) (next len crc : Z) : res (Z * Z * Z) :=
  if (len =? 0) || (Z.land (addr + next) 7 =? 0) then Ok (next, len, crc)
  else match fuel with
       | O => Diverge
       | S fuel => crc ← sw_byte row0 crc next buf; sw_align fuel addr row0 buf (next + 1) (len - 1) crc
       end.

(** The words of eight bytes. *)
Definition sw_word_little (t : list (list Z)) (crcw : Z) : res Z :=
  a ← entry t 7 (Z.land crcw 0xff);
  b ← entry t 6 (Z.land (Z.shiftr crcw 8) 0xff);
  c ← entry t 5 (Z.land (Z.shiftr crcw 16) 0xff);
  d ← entry t 4 (Z.land (Z.shiftr crcw 24) 0xff);
  e ← entry t 3 (Z.land (Z.shiftr crcw 32) 0xff);
  f ← entry t 2 (Z.land (Z.shiftr crcw 40) 0xff);
  g ← entry t 1 (Z.land (Z.shiftr crcw 48) 0xff);
  h ← entry t 0 (Z.shiftr crcw 56);
  Ok (Z.lxor (Z.lxor (Z.lxor (Z.lxor (Z.lxor (Z.lxor (Z.lxor a b) c) d) e) f) g) h).

Fixpoint sw_words_little (n : nat) (t : list (list Z)) (buf : list Z) (next crcw : Z) : res Z :=
  match n with
  | O => Ok crcw
  | S n =>
      w ← rd 8 next buf;
      crcw ← sw_word_little t (Z.lxor crcw w);
      sw_words_little n t buf (next + 8) crcw
  end.

Fixpoint sw_bytes (n : nat) (row0 : list Z) (buf : list Z) (next crc : Z) : res Z :=
  match n with
  | O => Ok crc
  | S n => crc ← sw_byte row0 crc next buf; sw_bytes n row0 buf (next + 1) crc
  end.

(** [crc32c_sw_little( crc, buf, len )] *)
Definition crc32c_sw_little (addr crc : Z) (buf : list Z) (len : Z) : res Z :=
  t ← crc32c_init_sw_little;
  '(next, len, crc) ← sw_align 8 addr sw_row0 buf 0 len (not32 crc);
  let n := len / 8 in
  crcw ← sw_words_little (Z.to_nat n) t buf next crc;
  let crc := if 8 <=? len then u32 crcw else crc in
  crc ← sw_bytes (Z.to_nat (len - 8 * n)) sw_row0 buf (next + 8 * n) crc;
  Ok (not32 crc).

(** [swap( x )] of 64 bits *)
Definition swap (x : Z) : Z :=
  let x := Z.lor (Z.land (Z.shiftl x 8) 0xff00ff00ff00ff00) (Z.land (Z.shiftr x 8) 0xff00ff00ff00ff) in
  let x := Z.lor (Z.land (Z.shiftl x 16) 0xffff0000ffff0000) (Z.land (Z.shiftr x 16) 0xffff0000ffff) in
  Z.lor (u64 (Z.shiftl x 32)) (Z.shiftr x 32).

(** The word of eight bytes at [next] on a big endian machine. *)
Definition rd_big (next : Z) (buf : list Z) : res Z := w ← rd 8 next buf; Ok (swap w).

(** [crc32c_init_sw_big] *)
Definition crc32c_init_sw_big : res (list (list Z)) :=
  l ← sw_rows 7 sw_row0 sw_row0; Ok ((fun row : list Z => swap <$> row) <$> (sw_row0 :: l)).

Definition sw_word_big (t : list (list Z)) (crcw : Z) : res Z :=
  a ← entry t 0 (Z.land crcw 0xff);
  b ← entry t 1 (Z.land (Z.shiftr crcw 8) 0xff);
  c ← entry t 2 (Z.land (Z.shiftr crcw 16) 0xff);
  d ← entry t 3 (Z.land (Z.shiftr crcw 24) 0xff);
  e ← entry t 4 (Z.land (Z.shiftr crcw 32) 0xff);
  f ← entry t 5 (Z.land (Z.shiftr crcw 40) 0xff);
  g ← entry t 6 (Z.land (Z.shiftr crcw 48) 0xff);
  h ← entry t 7 (Z.shiftr crcw 56);
  Ok (Z.lxor (Z.lxor (Z.lxor (Z.lxor (Z.lxor (Z.lxor (Z.lxor a b) c) d) e) f) g) h).

Fixpoint sw_words_big (n : nat) (t : list (list Z)) (buf : list Z) (next crcw : Z) : res Z :=
  match n with
  | O => Ok crcw
  | S n =>
      w ← rd_big next buf;
      crcw ← sw_word_big t (Z.lxor crcw w);
      sw_words_big n t buf (next + 8) crcw
  end.

(** [crc32c_sw_big( crc, buf, len )] *)
Definition crc32c_sw_big (addr crc : Z) (buf : list Z) (len : Z) : res Z :=
  t ← crc32c_init_sw_big;
  '(next, len, crc) ← sw_align 8 addr sw_row0 buf 0 len (not32 crc);
  let n := len / 8 in
  crcw ← sw_words_big (Z.to_nat n) t buf next (swap crc);
  let crc := if 8 <=? len then u32 (swap crcw) else crc in
  crc ← sw_bytes (Z.to_nat (len - 8 * n)) sw_row0 buf (next + 8 * n) crc;
  Ok (not32 crc).

(** [crc32c_sw( crc, buf, len )] *)
Definition crc32c_sw (little : bool) (addr crc : Z) (buf : list Z) (len : Z) : res Z :=
  if little then crc32c_sw_little addr crc buf len else crc32c_sw_big addr crc buf len.

(** [crc32c( crc, buf, len )] on a machine: whether it has the instructions, its byte
    order and where the buffer is *)
Record machine := MkMachine { have_insn : bool; is_little : bool; address : Z }.
Definition crc32c (m : machine) (crc : Z) (buf : list Z) (len : Z) : res Z :=
  if have_insn m then crc32c_hw crc buf len else crc32c_sw (is_little m) (address m) crc buf len.

(** ** Combination *)

Fixpoint combine_loop (fuel : nat) (b : list Z) (crcA lengthB : Z) : res Z :=
  if lengthB =? 0 then Ok crcA
  else
    match fuel with
    | O => Diverge
    | S fuel =>
        a ← gf2_matrix_square b;
        crcA ← (if Z.odd lengthB then gf2_matrix_times a crcA else Ok crcA);
        combine_loop fuel a crcA (Z.shiftr lengthB 1)
    end.

(** [crc32c_combine( crcA, crcB, lengthB )] *)
Definition crc32c_combine (crcA crcB lengthB : Z) : res Z :=
  if lengthB =? 0 then Ok crcA
  else
    even ← gf2_matrix_square one_zero_bit;
    odd ← gf2_matrix_square even;
    crcA ← combine_loop 64 odd crcA lengthB;
    Ok (Z.lxor crcA crcB).

Lemma POLY_range : 2 ^ 31 <= POLY < 2 ^ 32.
Proof. done. Qed.
#[local] Hint Resolve POLY_range : core.

(** Equal up to the linear arithmetic in the arguments. *)
Ltac congr_lia := repeat first [reflexivity | lia | f_equal].

(** ** A matrix stands for a linear map *)

Class Linear (f : Z -> Z) := linear a b : f (Z.lxor a b) = Z.lxor (f a) (f b).

#[local] Instance crc_bits_linear n : Linear (crc_bits n).
Proof. intros a b. apply crc_bits_lxor. Qed.

#[local] Instance compose_linear f g : Linear f -> Linear g -> Linear (fun z => f (g z)).
Proof. intros Hf Hg a b. by rewrite Hg, Hf. Qed.

Lemma linear_0 f : Linear f -> f 0 = 0.
Proof. intros Hf. pose proof (Hf 0 0) as H. rewrite Z.lxor_0_r, Z.lxor_nilpotent in H. done. Qed.

Definition word (c : Z) : Prop := 0 <= c < 2 ^ 32.
(** The rows are the images of the one-bit words. *)
Definition stands_for (mat : list Z) (f : Z -> Z) : Prop := mat = (fun n => f (Z.shiftl 1 n)) <$> seqZ 0 32.

(** A vector is its lowest bit and the rest. *)
Lemma low_bit v k : 0 <= k ->
  Z.shiftl v k = Z.lxor (if Z.odd v then Z.shiftl 1 k else 0) (Z.shiftl (Z.shiftr v 1) (k + 1)).
Proof.
  intros Hk. apply Z.bits_inj'. intros n Hn. rewrite Z.lxor_spec, !Z.shiftl_spec by lia.
  destruct (Z.ltb_spec n k); [|destruct (Z.eq_dec n k) as [-> | ]].
  - rewrite !Z.testbit_neg_r by lia. destruct (Z.odd v); rewrite ?Z.bits_0, ?Z.shiftl_spec, ?Z.testbit_neg_r by lia; done.
  - rewrite (Z.testbit_neg_r _ (k - (k + 1))), Z.sub_diag, Z.bit0_odd, xorb_false_r by lia.
    destruct (Z.odd v); [|by rewrite Z.bits_0]. by rewrite Z.shiftl_spec, Z.sub_diag by lia.
  - rewrite Z.shiftr_spec by lia. replace (n - (k + 1) + 1) with (n - k) by lia.
    replace (Z.testbit (if Z.odd v then Z.shiftl 1 k else 0) n) with false; [by rewrite xorb_false_l|].
    destruct (Z.odd v); [|by rewrite Z.bits_0]. rewrite Z.shiftl_spec by lia.
    by rewrite (Z.bits_above_log2 1) by (cbn; lia).
Qed.

Lemma times_loop_spec f : Linear f -> forall m k v s, 0 <= k -> 0 <= v < 2 ^ Z.of_nat m ->
  gf2_matrix_times_loop ((fun n => f (Z.shiftl 1 n)) <$> seqZ k (Z.of_nat m)) v s = Ok (Z.lxor s (f (Z.shiftl v k))).
Proof.
  intros Hf. induction m as [|m IH]; intros k v s Hk Hv.
  - replace v with 0 by lia. cbn. by rewrite Z.shiftl_0_l, linear_0, Z.lxor_0_r.
  - destruct (Z.eq_dec v 0) as [-> | Hv0].
    { rewrite Z.shiftl_0_l, linear_0, Z.lxor_0_r by done. by destruct (fmap _ _). }
    rewrite seqZ_cons by lia. replace (Z.pred (Z.of_nat (S m))) with (Z.of_nat m) by lia.
    cbn [fmap list_fmap gf2_matrix_times_loop]. rewrite (proj2 (Z.eqb_neq v 0)) by done.
    rewrite IH; [|lia|]. 2: { apply shiftr_range; [lia| |lia]. by replace (Z.of_nat m + 1) with (Z.of_nat (S m)) by lia. }
    f_equal. rewrite (low_bit v k) by done. rewrite Hf.
    destruct (Z.odd v); [by rewrite Z.lxor_assoc|]. by rewrite linear_0, Z.lxor_0_l.
Qed.

Lemma gf2_matrix_times_spec mat f v : Linear f -> stands_for mat f -> word v -> gf2_matrix_times mat v = Ok (f v).
Proof.
  intros Hf -> Hv. unfold gf2_matrix_times. change 32 with (Z.of_nat 32).
  rewrite times_loop_spec by done. by rewrite Z.lxor_0_l, Z.shiftl_0_r.
Qed.

Lemma matrix_rows_spec mat f vecs : Linear f -> stands_for mat f -> Forall word vecs ->
  matrix_rows mat vecs = Ok (f <$> vecs).
Proof.
  intros Hf Hm. induction 1 as [|v vecs Hv Hvs IH]; [done|]. cbn.
  rewrite (gf2_matrix_times_spec mat f) by done. step_ok. by rewrite IH.
Qed.

Lemma shiftl_1_word n : 0 <= n < 32 -> word (Z.shiftl 1 n).
Proof.
  intros Hn. rewrite Z.shiftl_1_l. split; [apply Z.pow_nonneg; lia|apply Z.pow_lt_mono_r; lia].
Qed.

Lemma gf2_matrix_square_spec mat f : Linear f -> (forall v, word v -> word (f v)) -> stands_for mat f ->
  exists sq, gf2_matrix_square mat = Ok sq /\ stands_for sq (fun v => f (f v)).
Proof.
  intros Hf Hw Hm. eexists. split.
  - apply (matrix_rows_spec mat f); [done..|]. rewrite Hm. apply Forall_fmap, Forall_forall.
    intros n Hn%elem_of_seqZ. apply Hw, shiftl_1_word. lia.
  - rewrite Hm, <- list_fmap_compose. done.
Qed.

(** ** The operator of zero bits *)

Lemma one_zero_bit_spec : stands_for one_zero_bit (crc_bits 1).
Proof. reflexivity. Qed.

Lemma represents_ext mat f g : (forall v, f v = g v) -> stands_for mat f -> stands_for mat g.
Proof. intros Hfg ->. apply list_fmap_ext. auto. Qed.

Lemma square_bits mat n : stands_for mat (crc_bits n) ->
  exists sq, gf2_matrix_square mat = Ok sq /\ stands_for sq (crc_bits (2 * n)).
Proof.
  intros Hm. destruct (gf2_matrix_square_spec mat (crc_bits n) _ ltac:(intros; by apply crc_bits_range) Hm)
    as (sq & Hsq & Hr). exists sq. split; [done|]. revert Hr. apply represents_ext.
  intros v. replace (2 * n)%nat with (n + n)%nat by lia. by rewrite crc_bits_add.
Qed.

(** [2^n]-fold, [n] in [Z] *)
Definition pow2n (n : Z) : nat := Z.to_nat (2 ^ n).
Lemma pow2n_S n : 0 <= n -> pow2n (1 + n) = (2 * pow2n n)%nat.
Proof. intros. unfold pow2n. rewrite Z.pow_add_r by lia. pose proof (Z.pow_nonneg 2 n). lia. Qed.

Lemma log2_halve len : 0 <= len -> Z.shiftr len 1 <> 0 -> Z.log2 len = 1 + Z.log2 (Z.shiftr len 1).
Proof.
  intros Hl Hs. assert (1 <= Z.shiftr len 1) as H1 by (pose proof (proj2 (Z.shiftr_nonneg len 1)); lia).
  assert (2 <= len). { rewrite Z.shiftr_div_pow2 in H1 by lia. lia_div. }
  assert (1 <= Z.log2 len) by (apply (Z.log2_le_pow2 len 1); lia). rewrite Z.log2_shiftr by lia. lia.
Qed.

Lemma log2_halve_0 len : 0 <= len -> Z.shiftr len 1 = 0 -> Z.log2 len = 0.
Proof.
  intros Hl. rewrite Z.shiftr_div_pow2 by lia. intros Hs. assert (len = 0 \/ len = 1) as [-> | ->] by lia_div; done.
Qed.

Lemma zeros_loop_spec fuel : forall odd n len, stands_for odd (crc_bits n) -> 0 <= len < 2 ^ (2 * Z.of_nat fuel) ->
  (fuel <> 0)%nat ->
  exists op, zeros_loop fuel odd len = Ok op /\ stands_for op (crc_bits (2 * (pow2n (Z.log2 len) * n))).
Proof.
  induction fuel as [|fuel IH]; intros odd n len Ho Hlen Hf; [done|]. cbn [zeros_loop].
  destruct (square_bits odd n Ho) as (even & -> & He). step_ok.
  destruct (Z.eqb_spec (Z.shiftr len 1) 0) as [E0|E0].
  { exists even. split; [done|]. rewrite log2_halve_0 by lia. change (pow2n 0) with 1%nat. by rewrite Nat.mul_1_l. }
  destruct (square_bits even _ He) as (odd' & -> & Ho'). step_ok. pose proof (Z.log2_nonneg (Z.shiftr len 1)).
  assert (0 <= Z.shiftr len 1) by (apply Z.shiftr_nonneg; lia).
  rewrite log2_halve, pow2n_S by (done || lia).
  destruct (Z.eqb_spec (Z.shiftr (Z.shiftr len 1) 1) 0) as [E1|E1].
  { exists odd'. split; [done|]. rewrite log2_halve_0 by lia. change (pow2n 0) with 1%nat.
    by replace (2 * (2 * 1 * n))%nat with (2 * (2 * n))%nat by lia. }
  assert (0 <= Z.shiftr (Z.shiftr len 1) 1 < 2 ^ (2 * Z.of_nat fuel)) as Hl2.
  { rewrite Z.shiftr_shiftr by lia. apply shiftr_range; [lia| |lia].
    by replace (2 * Z.of_nat fuel + (1 + 1)) with (2 * Z.of_nat (S fuel)) by lia. }
  destruct (IH odd' _ _ Ho' Hl2) as (op & -> & Hop).
  { intros ->. cbn in Hl2. lia. }
  exists op. split; [done|]. pose proof (Z.log2_nonneg (Z.shiftr (Z.shiftr len 1) 1)).
  rewrite log2_halve, pow2n_S by (done || lia).
  match goal with |- stands_for op (crc_bits ?k) => match type of Hop with stands_for op (crc_bits ?j) =>
    replace k with j by lia; done end end.
Qed.

(** The operator is that of the largest power of two not above [len] zero bytes,
    and of one for none. *)
Lemma crc32c_zeros_op_spec len : 0 <= len < 2 ^ 64 ->
  exists op, crc32c_zeros_op len = Ok op /\ stands_for op (crc_bits (8 * pow2n (Z.log2 len))).
Proof.
  intros Hlen. unfold crc32c_zeros_op.
  destruct (square_bits _ _ one_zero_bit_spec) as (even & -> & He). step_ok.
  destruct (square_bits even _ He) as (odd & -> & Ho). step_ok.
  destruct (zeros_loop_spec 32 odd _ len Ho) as (op & -> & Hop); [done..|].
  exists op. split; [done|].
  by replace (8 * pow2n (Z.log2 len))%nat with (2 * (pow2n (Z.log2 len) * (2 * (2 * 1))))%nat by lia.
Qed.

(** ** Bytes of words through tables *)

Lemma entry_spec t k (f : Z -> Z) i : t !! k = Some (f <$> seqZ 0 256) -> 0 <= i < 256 -> entry t k i = Ok (f i).
Proof.
  intros Ht Hi. unfold entry. rewrite Ht, list_lookup_fmap, lookup_seqZ_lt by lia. cbn. do 2 f_equal. lia.
Qed.

Lemma land_255_range c : 0 <= Z.land c 255 < 256.
Proof. rewrite land_255. lia_div. Qed.

Lemma shiftl_byte_word n k : 0 <= n < 256 -> 0 <= k <= 24 -> word (Z.shiftl n k).
Proof.
  intros Hn Hk. rewrite Z.shiftl_mul_pow2 by lia. assert (0 < 2 ^ k <= 2 ^ 24) as [H1 H2].
  { split; [apply Z.pow_pos_nonneg; lia|apply Z.pow_le_mono_r; lia]. }
  split; [nia|]. change (2 ^ 32) with (256 * 2 ^ 24). nia.
Qed.

Lemma next_byte c k : 0 <= k ->
  Z.shiftl (Z.shiftr c k) k = Z.lxor (Z.shiftl (Z.land (Z.shiftr c k) 255) k) (Z.shiftl (Z.shiftr c (k + 8)) (k + 8)).
Proof.
  intros Hk. rewrite (low_byte (Z.shiftr c k)) at 1. rewrite Z.shiftl_lxor, Z.shiftl_shiftl, Z.shiftr_shiftr by lia.
  by rewrite (Z.add_comm 8 k).
Qed.

(** The four tables apply [f] to the bytes of a word. *)
Definition zeros_tables (zeros : list (list Z)) (f : Z -> Z) : Prop :=
  zeros = (fun k => (fun n => f (Z.shiftl n (8 * k))) <$> seqZ 0 256) <$> [0; 1; 2; 3].

Lemma crc32c_zeros_spec L : 0 <= L < 2 ^ 64 -> exists zeros, crc32c_zeros L = Ok zeros /\
  zeros_tables zeros (crc_bits (8 * pow2n (Z.log2 L))).
Proof.
  intros HL. unfold crc32c_zeros. destruct (crc32c_zeros_op_spec L HL) as (op & -> & Hop). step_ok.
  assert (forall g, (forall n, 0 <= n < 256 -> word (g n)) -> Forall word (g <$> seqZ 0 256)) as Hw.
  { intros g Hg. apply Forall_fmap, Forall_forall. intros n Hn%elem_of_seqZ. apply Hg. lia. }
  rewrite !(matrix_rows_spec op _ _ _ Hop) by (apply Hw; intros; (apply shiftl_byte_word || unfold word); lia).
  do 4 step_ok. eexists. split; [done|]. unfold zeros_tables. cbn [fmap list_fmap].
  by rewrite <- !list_fmap_compose.
Qed.

Lemma crc32c_shift_spec zeros f crc : Linear f -> zeros_tables zeros f -> word crc ->
  crc32c_shift zeros crc = Ok (f crc).
Proof.
  intros Hf -> Hc. unfold crc32c_shift.
  rewrite (entry_spec _ 0 (fun n => f (Z.shiftl n (8 * 0)))) by (done || apply land_255_range). step_ok.
  rewrite (entry_spec _ 1 (fun n => f (Z.shiftl n (8 * 1)))) by (done || apply land_255_range). step_ok.
  rewrite (entry_spec _ 2 (fun n => f (Z.shiftl n (8 * 2)))) by (done || apply land_255_range). step_ok.
  rewrite (entry_spec _ 3 (fun n => f (Z.shiftl n (8 * 3)))).
  2: done. 2: { apply (shiftr_range 24 8); unfold word in Hc; lia. }
  step_ok. rewrite <- !Hf. do 2 f_equal. symmetry. cbn -[Z.land Z.shiftr Z.shiftl].
  rewrite (low_byte crc) at 1. rewrite (next_byte crc 8), (next_byte crc (8 + 8)) by lia.
  by rewrite !Z.lxor_assoc, Z.shiftl_0_r.
Qed.

(** ** The routine with instructions *)

Lemma word_register c off n buf : word c -> Forall is_byte buf -> word (crc_register c (slice off n buf)).
Proof. intros. by apply crc_register_range; [|apply slice_bytes|]. Qed.

Lemma crc32_insn_spec n c off buf : Forall is_byte buf -> 0 <= off -> off + Z.of_nat n <= zlen buf ->
  crc32_insn n c off buf = Ok (crc_register c (slice off (Z.of_nat n) buf)).
Proof.
  intros Hb Ho Hn. unfold crc32_insn. rewrite rd_slice by done. step_ok.
  rewrite crc_register_le by (by apply slice_bytes). by rewrite length_slice, Nat2Z.id by lia.
Qed.

Lemma hw_words_spec n L buf : Forall is_byte buf -> 0 <= L -> forall off c0 c1 c2,
  0 <= off -> off + 2 * L + 8 * Z.of_nat n <= zlen buf ->
  hw_words n L buf off c0 c1 c2 =
    Ok (crc_register c0 (slice off (8 * Z.of_nat n) buf), crc_register c1 (slice (off + L) (8 * Z.of_nat n) buf),
        crc_register c2 (slice (off + 2 * L) (8 * Z.of_nat n) buf)).
Proof.
  intros Hb HL. induction n as [|n IH]; intros off c0 c1 c2 Ho Hn; [done|].
  cbn [hw_words]. rewrite !crc32_insn_spec by (done || lia). do 3 step_ok. rewrite IH by lia.
  replace (8 * Z.of_nat (S n)) with (Z.of_nat 8 + 8 * Z.of_nat n) by lia.
  rewrite !slice_add, !crc_register_app by lia. congr_lia.
Qed.

(** Three blocks side by side are the three in a row. *)
Lemma three_blocks c off L buf : word c -> Forall is_byte buf -> 0 <= L -> 0 <= off -> off + 3 * L <= zlen buf ->
  Z.lxor (crc_bits (8 * Z.to_nat L) (Z.lxor (crc_bits (8 * Z.to_nat L) (crc_register c (slice off L buf)))
            (crc_register 0 (slice (off + L) L buf)))) (crc_register 0 (slice (off + 2 * L) L buf))
    = crc_register c (slice off (3 * L) buf).
Proof.
  intros Hc Hb HL Ho Hn. replace (3 * L) with (L + (L + L)) by lia.
  rewrite !slice_add, !crc_register_app by lia. replace (off + L + L) with (off + 2 * L) by lia.
  rewrite (crc_register_split (crc_register _ (slice (off + L) L buf))) by (by apply slice_bytes).
  rewrite (crc_register_split (crc_register c _)) by (by apply slice_bytes).
  by rewrite !length_slice by lia.
Qed.

Lemma hw_blocks_spec L zeros buf : 0 < L -> L mod 8 = 0 -> zeros_tables zeros (crc_bits (8 * Z.to_nat L)) ->
  Forall is_byte buf -> forall fuel off len c, word c -> 0 <= off -> 0 <= len -> off + len <= zlen buf ->
  len / (3 * L) <= Z.of_nat fuel -> exists n, 0 <= n <= len /\
    hw_blocks fuel zeros L buf off len c = Ok (off + n, len - n, crc_register c (slice off n buf)).
Proof.
  intros HL HL8 Hz Hb. induction fuel as [|fuel IH]; intros off len c Hc Ho Hlen Hn Hf; cbn [hw_blocks];
    destruct (Z.ltb_spec len (3 * L)) as [Hlt|Hge];
    try (exists 0; rewrite Z.add_0_r, Z.sub_0_r; by split; [lia|]).
  { assert (1 <= len / (3 * L)) by (apply Z.div_le_lower_bound; lia). lia. }
  assert (8 * Z.of_nat (Z.to_nat (L / 8)) = L) as H8 by lia_div.
  rewrite hw_words_spec by (done || lia). step_ok. rewrite H8.
  rewrite (crc32c_shift_spec _ _ _ _ Hz) by (by apply word_register). step_ok.
  rewrite (crc32c_shift_spec _ _ _ _ Hz).
  2: { apply lxor_range; [lia|apply crc_bits_range; [done|]|]; by apply word_register. }
  step_ok. rewrite three_blocks by (done || lia).
  destruct (IH (off + 3 * L) (len - 3 * L) (crc_register c (slice off (3 * L) buf))) as (n & Hn' & ->); [|lia..| |].
  - by apply word_register.
  - replace (len - 3 * L) with (len + -1 * (3 * L)) by lia. rewrite Z.div_add by lia. lia.
  - exists (3 * L + n). split; [lia|]. rewrite slice_add, crc_register_app by lia. congr_lia.
Qed.

Lemma hw_rest_spec n buf : Forall is_byte buf -> forall off c, 0 <= off -> off + 8 * Z.of_nat n <= zlen buf ->
  hw_rest n buf off c = Ok (off + 8 * Z.of_nat n, crc_register c (slice off (8 * Z.of_nat n) buf)).
Proof.
  intros Hb. induction n as [|n IH]; intros off c Ho Hn; [cbn; by rewrite Z.add_0_r|].
  cbn [hw_rest]. rewrite crc32_insn_spec by (done || lia). step_ok. rewrite IH by lia.
  replace (8 * Z.of_nat (S n)) with (Z.of_nat 8 + 8 * Z.of_nat n) by lia.
  rewrite slice_add, crc_register_app by lia. congr_lia.
Qed.

Lemma hw_tail_spec n k off len c buf : Z.of_nat n = k -> Forall is_byte buf -> 0 <= off ->
  Z.land len k = 0 \/ Z.land len k = k -> off + Z.land len k <= zlen buf ->
  hw_tail n buf off len c = Ok (off + Z.land len k, crc_register c (slice off (Z.land len k) buf)).
Proof.
  intros <- Hb Ho Hl Hn. unfold hw_tail. destruct (Z.eqb_spec (Z.land len (Z.of_nat n)) 0) as [-> | Hne].
  - by rewrite Z.add_0_r.
  - destruct Hl as [|Hl]; [done|]. rewrite Hl in *. by rewrite crc32_insn_spec by done.
Qed.

Lemma tail_bits len : 0 <= len < 8 ->
  (forall k, k = 1 \/ k = 2 \/ k = 4 -> Z.land len k = 0 \/ Z.land len k = k) /\
  Z.land len 4 + Z.land len 2 + Z.land len 1 = len.
Proof.
  intros Hl. assert (len ∈ seqZ 0 8) as Hin by (apply elem_of_seqZ; lia). revert Hin. cbn. intros Hin.
  repeat (apply elem_of_cons in Hin as [-> | Hin]; [split; [intros k [-> | [-> | ->]]; cbn; auto|done]|]).
  by apply not_elem_of_nil in Hin.
Qed.

Lemma not32_word c : word c -> word (not32 c).
Proof. intros. by apply lxor_range. Qed.

Lemma crc32c_hw_register crc buf len : word crc -> Forall is_byte buf -> 0 <= len <= zlen buf ->
  crc32c_hw crc buf len = Ok (not32 (crc_register (not32 crc) (slice 0 len buf))).
Proof.
  intros Hc Hb Hlen. unfold crc32c_hw.
  destruct (crc32c_zeros_spec LONG) as (long & -> & Hlong); [done|].
  destruct (crc32c_zeros_spec SHORT) as (short & -> & Hshort); [done|]. do 2 step_ok.
  change (pow2n (Z.log2 LONG)) with (Z.to_nat LONG) in Hlong.
  change (pow2n (Z.log2 SHORT)) with (Z.to_nat SHORT) in Hshort. cbv zeta.
  destruct (hw_blocks_spec LONG long buf ltac:(done) ltac:(done) Hlong Hb (Z.to_nat (len / (3 * LONG))) 0 len (not32 crc))
    as (n & Hn & ->); [by apply not32_word|lia..| |].
  { unfold LONG. lia_div. }
  step_ok. rewrite Z.add_0_l.
  destruct (hw_blocks_spec SHORT short buf ltac:(done) ltac:(done) Hshort Hb (Z.to_nat ((len - n) / (3 * SHORT))) n (len - n)
    (crc_register (not32 crc) (slice 0 n buf))) as (m & Hm & ->); [by apply word_register, Hb; apply not32_word|lia..| |].
  { unfold SHORT. lia_div. }
  step_ok. remember (len - n - m) as rest eqn:Hrest. change 7 with (Z.ones 3). rewrite Z.land_ones by lia.
  change (2 ^ 3) with 8. rewrite hw_rest_spec by (done || lia_div). step_ok.
  remember (8 * Z.of_nat (Z.to_nat (rest / 8))) as w eqn:Hw. assert (w = rest - rest mod 8) as Hw' by lia_div.
  destruct (tail_bits (rest mod 8)) as [Ht Hsum]; [lia_div|].
  pose proof (Ht 4 ltac:(auto)). pose proof (Ht 2 ltac:(auto)). pose proof (Ht 1 ltac:(auto)).
  rewrite (hw_tail_spec 4 4) by (done || lia). step_ok. rewrite (hw_tail_spec 2 2) by (done || lia). step_ok.
  rewrite (hw_tail_spec 1 1) by (done || lia). step_ok. do 2 f_equal.
  rewrite <- !crc_register_app. f_equal.
  replace len with (n + (m + (w + (Z.land (rest mod 8) 4 + (Z.land (rest mod 8) 2 + Z.land (rest mod 8) 1))))) by lia.
  rewrite !slice_add by lia. congr_lia.
Qed.

(** ** The rows of the tables *)

#[local] Abbreviation row n := (crc_bits (8 * n) <$> seqZ 0 256).

Lemma sw_bit_bit c : sw_bit c = crc_bits 1 c.
Proof. unfold sw_bit. cbn. unfold crc_bit. destruct (Z.odd c); [done|]. by rewrite Z.lxor_0_r. Qed.

Lemma sw_row0_spec : sw_row0 = row 1.
Proof. unfold sw_row0. apply list_fmap_ext. intros _ n _. rewrite !sw_bit_bit, <- !crc_bits_add. done. Qed.

Lemma row_lookup n i : 0 <= i < 256 -> row n !! Z.to_nat i = Some (crc_bits (8 * n) i).
Proof. intros Hi. rewrite list_lookup_fmap, lookup_seqZ_lt by lia. cbn [fmap option_fmap option_map]. do 2 f_equal. lia. Qed.

Lemma sw_next_spec c : sw_next sw_row0 c = Ok (crc_bits 8 c).
Proof.
  unfold sw_next. rewrite sw_row0_spec, row_lookup by apply land_255_range.
  pose proof (crc_table_step (crc_poly := POLY) c 0 ltac:(done)) as H. rewrite !Z.lxor_0_r in H. exact (f_equal Ok H).
Qed.

Lemma sw_row_spec n l : sw_row sw_row0 (crc_bits (8 * n) <$> l) = Ok (crc_bits (8 * S n) <$> l).
Proof.
  induction l as [|i l IH]; [done|]. cbn [fmap list_fmap sw_row]. rewrite sw_next_spec. step_ok. rewrite IH. step_ok.
  rewrite <- (crc_bits_add (8 * n) 8). by replace (8 * n + 8)%nat with (8 * S n)%nat by lia.
Qed.

Lemma sw_rows_spec n : forall j, sw_rows n sw_row0 (row j) = Ok ((fun k => row k) <$> seq (S j) n).
Proof.
  induction n as [|n IH]; intros j; [done|]. cbn [sw_rows]. rewrite sw_row_spec. step_ok. by rewrite IH.
Qed.

Lemma init_sw_little_spec : crc32c_init_sw_little = Ok ((fun k => row k) <$> seq 1 8).
Proof. unfold crc32c_init_sw_little. rewrite sw_row0_spec at 2. rewrite sw_rows_spec. step_ok. by rewrite sw_row0_spec. Qed.

Lemma init_sw_big_spec : crc32c_init_sw_big = Ok ((fun k => (fun i => swap (crc_bits (8 * k) i)) <$> seqZ 0 256) <$> seq 1 8).
Proof.
  unfold crc32c_init_sw_big. rewrite sw_row0_spec at 2. rewrite sw_rows_spec. step_ok. rewrite sw_row0_spec.
  change (row 1 :: ((fun k => row k) <$> seq 2 7)) with ((fun k => row k) <$> seq 1 8).
  apply (f_equal Ok). rewrite <- list_fmap_compose. apply list_fmap_ext. intros _ k _. unfold compose.
  symmetry. apply (list_fmap_compose (crc_bits (8 * k)) swap (seqZ 0 256)).
Qed.

(** ** The eight bytes of a word *)

Definition xor8 (g : Z -> Z) : Z :=
  Z.lxor (Z.lxor (Z.lxor (Z.lxor (Z.lxor (Z.lxor (Z.lxor (g 0) (g 1)) (g 2)) (g 3)) (g 4)) (g 5)) (g 6)) (g 7).
Definition byte_at (j y : Z) : Z := Z.land (Z.shiftr y (8 * j)) 255.

Lemma linear_xor8 f g : Linear f -> f (xor8 g) = xor8 (fun j => f (g j)).
Proof. intros Hf. unfold xor8. by rewrite !Hf. Qed.

Lemma xor8_ext g h : (forall j, 0 <= j < 8 -> g j = h j) -> xor8 g = xor8 h.
Proof. intros Hgh. unfold xor8. by rewrite !Hgh by lia. Qed.

Lemma byte_at_range j y : 0 <= byte_at j y < 256.
Proof. apply land_255_range. Qed.

Lemma byte_at_7 y : 0 <= y < 2 ^ 64 -> Z.shiftr y 56 = byte_at 7 y.
Proof.
  intros Hy. unfold byte_at. change (8 * 7) with 56. rewrite land_255, Z.mod_small; [done|].
  apply (shiftr_range 56 8); lia.
Qed.

Lemma word_bytes y : 0 <= y < 2 ^ 64 -> y = xor8 (fun j => Z.shiftl (byte_at j y) (8 * j)).
Proof.
  intros Hy. unfold xor8. rewrite <- (byte_at_7 y) by done. unfold byte_at. cbn -[Z.land Z.shiftr Z.shiftl].
  rewrite (low_byte y) at 1.
  rewrite (next_byte y 8), (next_byte y (8 + 8)), (next_byte y (8 + 8 + 8)), (next_byte y (8 + 8 + 8 + 8)),
    (next_byte y (8 + 8 + 8 + 8 + 8)), (next_byte y (8 + 8 + 8 + 8 + 8 + 8)) by lia.
  by rewrite !Z.lxor_assoc, Z.shiftl_0_r.
Qed.

Lemma bits_shiftl_le (n m : nat) b : (m <= n)%nat -> crc_bits n (Z.shiftl b (Z.of_nat m)) = crc_bits (n - m) b.
Proof. intros. replace n with (m + (n - m))%nat at 1 by lia. by rewrite crc_bits_add, crc_bits_shiftl. Qed.

Lemma bits_byte j b : 0 <= j < 8 -> crc_bits 64 (Z.shiftl b (8 * j)) = crc_bits (8 * Z.to_nat (8 - j)) b.
Proof.
  intros Hj. replace (8 * j) with (Z.of_nat (8 * Z.to_nat j)) by lia. rewrite bits_shiftl_le by lia. f_equal. lia.
Qed.

Ltac eval_counts := repeat match goal with
  |- context [Z.to_nat (?a)] => let v := eval vm_compute in (Z.to_nat a) in change (Z.to_nat a) with v end.

Lemma little_word y t : (forall k, (k < 8)%nat -> t !! k = Some (row (S k))) -> 0 <= y < 2 ^ 64 ->
  sw_word_little t y = Ok (crc_bits 64 y).
Proof.
  intros Ht Hy. unfold sw_word_little. rewrite (byte_at_7 y) by done.
  assert (forall k i, (k < 8)%nat -> 0 <= i < 256 -> entry t k i = Ok (crc_bits (8 * S k) i)) as He.
  { intros k i Hk Hi. by apply (entry_spec t), Hi; apply Ht. }
  rewrite !He by (lia || apply land_255_range || apply byte_at_range). do 8 step_ok.
  f_equal. transitivity (crc_bits 64 (xor8 (fun j => Z.shiftl (byte_at j y) (8 * j)))); [|by rewrite <- word_bytes]. rewrite linear_xor8 by apply _.
  rewrite (xor8_ext _ (fun j => crc_bits (8 * Z.to_nat (8 - j)) (byte_at j y))) by (intros; by apply bits_byte).
  unfold xor8. eval_counts. change (byte_at 0 y) with (Z.land y 255). done.
Qed.

(** ** The bytes of a big endian machine *)

Lemma lor_lxor a b : Z.land a b = 0 -> Z.lor a b = Z.lxor a b.
Proof. symmetry. by apply Z.lxor_lor. Qed.

Lemma masks_disjoint a b m n : Z.land m n = 0 -> Z.land (Z.land a m) (Z.land b n) = 0.
Proof.
  intros Hmn. rewrite <- Z.land_assoc, (Z.land_comm b), (Z.land_assoc m), Hmn, Z.land_0_l. apply Z.land_0_r.
Qed.

Lemma land_below a m k : 0 <= k -> 0 <= m < 2 ^ k -> 0 <= Z.land a m < 2 ^ k.
Proof.
  intros Hk Hm. assert (0 <= Z.land a m) by (apply Z.land_nonneg; lia). split; [done|].
  apply Z.bounded_iff_bits_nonneg; [done..|]. intros l Hl. rewrite Z.land_spec.
  rewrite (proj1 (Z.bounded_iff_bits_nonneg k m Hk ltac:(lia)) ltac:(lia) l Hl). apply andb_false_r.
Qed.

Lemma high_low_disjoint a b : 0 <= b < 2 ^ 32 -> Z.land (u64 (Z.shiftl a 32)) b = 0.
Proof.
  intros Hb. unfold u64. apply Z.bits_inj'. intros n Hn. rewrite Z.land_spec, Z.bits_0.
  destruct (Z.ltb_spec n 32).
  - rewrite Z.mod_pow2_bits_low, Z.shiftl_spec, Z.testbit_neg_r by lia. done.
  - rewrite (proj1 (Z.bounded_iff_bits_nonneg 32 b ltac:(lia) ltac:(lia)) ltac:(lia) n) by lia. apply andb_false_r.
Qed.

(** The halves of [swap] as exclusive ors. *)
Definition swap_bytes (k m n x : Z) : Z := Z.lxor (Z.land (Z.shiftl x k) m) (Z.land (Z.shiftr x k) n).

#[local] Instance swap_bytes_linear k m n : Linear (swap_bytes k m n).
Proof.
  intros a b. unfold swap_bytes. rewrite Z.shiftl_lxor, Z.shiftr_lxor.
  apply Z.bits_inj'. intros i Hi. rewrite !Z.lxor_spec, !Z.land_spec, !Z.lxor_spec.
  repeat match goal with |- context [Z.testbit ?z i] => destruct (Z.testbit z i) end; done.
Qed.

Definition swap_xor (x : Z) : Z :=
  swap_bytes 32 0xffffffff00000000 0xffffffff
    (swap_bytes 16 0xffff0000ffff0000 0xffff0000ffff (swap_bytes 8 0xff00ff00ff00ff00 0xff00ff00ff00ff x)).

Lemma swap_bytes_range k m n x : 0 <= m < 2 ^ 64 -> 0 <= n < 2 ^ 64 -> 0 <= swap_bytes k m n x < 2 ^ 64.
Proof. intros. apply lxor_range; [done|by apply land_below..]. Qed.

Lemma u64_high x : u64 (Z.shiftl x 32) = Z.land (Z.shiftl x 32) 0xffffffff00000000.
Proof.
  unfold u64. rewrite <- Z.land_ones by done. change 0xffffffff00000000 with (Z.shiftl (Z.ones 32) 32).
  apply Z.bits_inj'. intros n Hn. rewrite !Z.land_spec, !Z.shiftl_spec by done.
  destruct (Z.ltb_spec n 32); [by rewrite (Z.testbit_neg_r x), !andb_false_l by lia|].
  rewrite !Z.testbit_ones_nonneg by lia. f_equal. zcases; done.
Qed.

Lemma swap_swap_xor x : swap x = swap_xor x.
Proof.
  unfold swap, swap_xor. cbv zeta. rewrite (lor_lxor (Z.land (Z.shiftl x 8) _)) by (by apply masks_disjoint).
  fold (swap_bytes 8 0xff00ff00ff00ff00 0xff00ff00ff00ff x). set (y := swap_bytes 8 _ _ x).
  rewrite (lor_lxor (Z.land (Z.shiftl y 16) _)) by (by apply masks_disjoint).
  fold (swap_bytes 16 0xffff0000ffff0000 0xffff0000ffff y).
  pose proof (swap_bytes_range 16 0xffff0000ffff0000 0xffff0000ffff y ltac:(done) ltac:(done)) as Hr.
  set (z := swap_bytes 16 _ _ y) in *. assert (0 <= Z.shiftr z 32 < 2 ^ 32) as Hh by (apply shiftr_range; lia).
  rewrite lor_lxor by (by apply high_low_disjoint). unfold swap_bytes. rewrite u64_high. f_equal.
  change 0xffffffff with (Z.ones 32). rewrite Z.land_ones, Z.mod_small by lia. done.
Qed.

#[local] Instance swap_linear : Linear swap.
Proof. intros a b. rewrite !swap_swap_xor. unfold swap_xor. by rewrite !linear by apply _. Qed.

Lemma swap_range x : 0 <= swap x < 2 ^ 64.
Proof. rewrite swap_swap_xor. by apply swap_bytes_range. Qed.

Lemma swap_byte b j : 0 <= b < 256 -> 0 <= j < 8 -> swap (Z.shiftl b (8 * j)) = Z.shiftl b (8 * (7 - j)).
Proof.
  intros Hb Hj.
  assert (Forall (fun j => Forall (fun b => swap (Z.shiftl b (8 * j)) = Z.shiftl b (8 * (7 - j))) (seqZ 0 256)) (seqZ 0 8)) as H
    by (apply (bool_decide_unpack _); vm_compute; done).
  rewrite Forall_forall in H. specialize (H j). rewrite Forall_forall in H. apply H; apply elem_of_seqZ; lia.
Qed.

Lemma swap_word x : 0 <= x < 2 ^ 64 -> swap x = xor8 (fun j => Z.shiftl (byte_at j x) (8 * (7 - j))).
Proof.
  intros Hx. rewrite (word_bytes x) at 1 by done. rewrite linear_xor8 by apply _.
  apply xor8_ext. intros j Hj. apply swap_byte; [apply byte_at_range|done].
Qed.

Lemma swap_swap x : 0 <= x < 2 ^ 64 -> swap (swap x) = x.
Proof.
  intros Hx. rewrite (swap_word x) by done. rewrite linear_xor8 by apply _.
  transitivity (xor8 (fun j => Z.shiftl (byte_at j x) (8 * j))); [|by rewrite <- word_bytes]. apply xor8_ext. intros j Hj. rewrite swap_byte by (apply byte_at_range || lia). f_equal. lia.
Qed.

Lemma big_word x t : (forall k, (k < 8)%nat -> t !! k = Some ((fun i => swap (crc_bits (8 * S k) i)) <$> seqZ 0 256)) ->
  0 <= x < 2 ^ 64 -> sw_word_big t x = Ok (swap (crc_bits 64 (swap x))).
Proof.
  intros Ht Hx. unfold sw_word_big. rewrite (byte_at_7 x) by done.
  assert (forall k i, (k < 8)%nat -> 0 <= i < 256 -> entry t k i = Ok (swap (crc_bits (8 * S k) i))) as He.
  { intros k i Hk Hi. by apply (entry_spec t _ (fun i => swap (crc_bits (8 * S k) i))), Hi; apply Ht. }
  rewrite !He by (lia || apply land_255_range || apply byte_at_range). do 8 step_ok.
  rewrite (swap_word x), linear_xor8, linear_xor8 by (done || apply _).
  rewrite (xor8_ext _ (fun j => swap (crc_bits (8 * Z.to_nat (j + 1)) (byte_at j x)))); [unfold xor8; eval_counts; by change (byte_at 0 x) with (Z.land x 255)|].
  intros j Hj. rewrite bits_byte by lia. do 3 f_equal. lia.
Qed.

(** ** The table driven routines *)

Lemma little_table k : (k < 8)%nat -> ((fun k => row k) <$> seq 1 8) !! k = Some (row (S k)).
Proof. intros Hk. by rewrite list_lookup_fmap, lookup_seq_lt. Qed.

Lemma big_table k : (k < 8)%nat ->
  ((fun k => (fun i => swap (crc_bits (8 * k) i)) <$> seqZ 0 256) <$> seq 1 8) !! k
    = Some ((fun i => swap (crc_bits (8 * S k) i)) <$> seqZ 0 256).
Proof. intros Hk. by rewrite list_lookup_fmap, lookup_seq_lt. Qed.

Lemma slice_le n off buf : Forall is_byte buf -> 0 <= off -> off + Z.of_nat n <= zlen buf ->
  0 <= little_endian_to_Z 8 (slice off (Z.of_nat n) buf) < 2 ^ (8 * Z.of_nat n).
Proof. intros Hb Ho Hn. apply (rd_bound n off buf); [done|]. by apply rd_slice. Qed.

Lemma sw_byte_spec c off buf : Forall is_byte buf -> 0 <= off -> off + 1 <= zlen buf ->
  sw_byte sw_row0 c off buf = Ok (crc_register c (slice off 1 buf)).
Proof.
  intros Hb Ho Hn. unfold sw_byte. rewrite rd_slice by done. step_ok.
  pose proof (slice_le 1 off buf Hb Ho Hn) as Hr. change (Z.of_nat 1) with 1 in *.
  rewrite sw_row0_spec, row_lookup by apply land_255_range.
  rewrite crc_register_le by (by apply slice_bytes). rewrite length_slice by (done || lia).
  pose proof (crc_table_step (crc_poly := POLY) c _ Hr) as H. exact (f_equal Ok H).
Qed.

Lemma sw_bytes_spec n buf : Forall is_byte buf -> forall off c, 0 <= off -> off + Z.of_nat n <= zlen buf ->
  sw_bytes n sw_row0 buf off c = Ok (crc_register c (slice off (Z.of_nat n) buf)).
Proof.
  intros Hb. induction n as [|n IH]; intros off c Ho Hn; [done|]. cbn [sw_bytes].
  rewrite sw_byte_spec by (done || lia). step_ok. rewrite IH by lia.
  replace (Z.of_nat (S n)) with (1 + Z.of_nat n) by lia. by rewrite slice_add, crc_register_app by lia.
Qed.

(** Seven turns are enough to reach an aligned byte. *)
Lemma sw_align_spec addr buf : Forall is_byte buf -> forall fuel off len c, 0 <= off -> 0 <= len -> off + len <= zlen buf ->
  - (addr + off) mod 8 <= Z.of_nat fuel -> exists n, 0 <= n <= len /\
    sw_align fuel addr sw_row0 buf off len c = Ok (off + n, len - n, crc_register c (slice off n buf)).
Proof.
  intros Hb. induction fuel as [|fuel IH]; intros off len c Ho Hl Hn Hf; cbn [sw_align];
    change 7 with (Z.ones 3); rewrite Z.land_ones by lia; change (2 ^ 3) with 8;
    (destruct (Z.eqb_spec len 0); [|destruct (Z.eqb_spec ((addr + off) mod 8) 0)]; cbn [orb];
      [exists 0; rewrite Z.add_0_r, Z.sub_0_r; by split; [lia|]..|]).
  - lia_div.
  - rewrite sw_byte_spec by (done || lia). step_ok.
    destruct (IH (off + 1) (len - 1) (crc_register c (slice off 1 buf))) as (k & Hk & ->); [lia..|lia_div|].
    exists (1 + k). split; [lia|]. rewrite slice_add, crc_register_app by lia. congr_lia.
Qed.

Lemma little_step c off buf : word c ->
  Forall is_byte buf -> 0 <= off -> off + 8 <= zlen buf ->
  let w := little_endian_to_Z 8 (slice off 8 buf) in
  0 <= w < 2 ^ 64 /\ 0 <= Z.lxor c w < 2 ^ 64 /\ crc_bits 64 (Z.lxor c w) = crc_register c (slice off 8 buf).
Proof.
  intros Hc Hb Ho Hn w. pose proof (slice_le 8 off buf Hb Ho Hn) as Hw. change (Z.of_nat 8) with 8 in Hw.
  split; [done|]. split; [apply lxor_range; [done|unfold word in Hc; lia|done]|].
  rewrite crc_register_le by (by apply slice_bytes). by rewrite length_slice by lia.
Qed.

Lemma sw_words_little_spec n t buf : (forall k, (k < 8)%nat -> t !! k = Some (row (S k))) ->
  Forall is_byte buf -> forall off c, word c -> 0 <= off -> off + 8 * Z.of_nat n <= zlen buf ->
  sw_words_little n t buf off c = Ok (crc_register c (slice off (8 * Z.of_nat n) buf)).
Proof.
  intros Ht Hb. induction n as [|n IH]; intros off c Hc Ho Hn; [done|]. cbn [sw_words_little].
  rewrite rd_slice by lia. step_ok.
  destruct (little_step c off buf Hc Hb Ho) as (_ & Hx & Hs); [lia|].
  change (Z.of_nat 8) with 8. rewrite little_word by done. step_ok. rewrite Hs.
  rewrite IH; [|by apply word_register|lia..].
  replace (8 * Z.of_nat (S n)) with (8 + 8 * Z.of_nat n) by lia. by rewrite slice_add, crc_register_app by lia.
Qed.

Lemma sw_words_big_spec n t buf :
  (forall k, (k < 8)%nat -> t !! k = Some ((fun i => swap (crc_bits (8 * S k) i)) <$> seqZ 0 256)) ->
  Forall is_byte buf -> forall off c, word c -> 0 <= off -> off + 8 * Z.of_nat n <= zlen buf ->
  sw_words_big n t buf off (swap c) = Ok (swap (crc_register c (slice off (8 * Z.of_nat n) buf))).
Proof.
  intros Ht Hb. induction n as [|n IH]; intros off c Hc Ho Hn; [done|]. cbn [sw_words_big].
  unfold rd_big. rewrite rd_slice by lia. do 2 step_ok.
  destruct (little_step c off buf Hc Hb Ho) as (_ & Hx & Hs); [lia|].
  change (Z.of_nat 8) with 8. rewrite <- linear, (big_word _ _ Ht), swap_swap by (done || apply _ || apply swap_range).
  step_ok. rewrite Hs. rewrite IH; [|by apply word_register|lia..].
  replace (8 * Z.of_nat (S n)) with (8 + 8 * Z.of_nat n) by lia. by rewrite slice_add, crc_register_app by lia.
Qed.

Lemma crc32c_sw_register little addr crc buf len : word crc -> Forall is_byte buf -> 0 <= len <= zlen buf ->
  crc32c_sw little addr crc buf len = Ok (not32 (crc_register (not32 crc) (slice 0 len buf))).
Proof.
  intros Hc Hb Hlen. pose proof (not32_word crc Hc) as Hc'.
  destruct (sw_align_spec addr buf Hb 8 0 len (not32 crc)) as (n & Hn & Ha); [lia..|lia_div|].
  rewrite Z.add_0_l in Ha. set (c := crc_register (not32 crc) (slice 0 n buf)) in Ha.
  assert (word c) as Hwc by (by apply word_register). set (rest := len - n) in *.
  set (d := crc_register c (slice n (8 * Z.of_nat (Z.to_nat (rest / 8))) buf)).
  assert (word d) as Hwd by (by apply word_register).
  assert (forall x, x = (if 8 <=? rest then d else c) ->
    (y ← sw_bytes (Z.to_nat (rest - 8 * (rest / 8))) sw_row0 buf (n + 8 * (rest / 8)) x; Ok (not32 y))
      = Ok (not32 (crc_register (not32 crc) (slice 0 len buf)))) as Hend.
  { intros x ->. replace (if 8 <=? rest then d else c) with d.
    2: { destruct (Z.leb_spec 8 rest); [done|]. unfold d. by replace (rest / 8) with 0 by lia_div. }
    rewrite sw_bytes_spec by (done || lia_div). step_ok. unfold d, c. rewrite <- !crc_register_app. do 3 f_equal.
    replace len with (n + (8 * Z.of_nat (Z.to_nat (rest / 8)) + Z.of_nat (Z.to_nat (rest - 8 * (rest / 8))))) by lia_div.
    rewrite !slice_add by lia. congr_lia. lia_div. }
  destruct little; cbn [crc32c_sw].
  - unfold crc32c_sw_little. rewrite init_sw_little_spec. step_ok. rewrite Ha. step_ok. fold rest.
    rewrite (sw_words_little_spec _ _ _ little_table) by (done || lia_div). step_ok. fold d.
    apply Hend. by rewrite u32_small.
  - unfold crc32c_sw_big. rewrite init_sw_big_spec. step_ok. rewrite Ha. step_ok. fold rest.
    rewrite (sw_words_big_spec _ _ _ big_table) by (done || lia_div). step_ok. fold d.
    apply Hend. rewrite swap_swap by (unfold word in Hwd; lia). by rewrite u32_small.
Qed.

(** ** Combination *)

Lemma combine_loop_spec fuel : forall b n crc len, stands_for b (crc_bits n) -> word crc ->
  0 <= len < 2 ^ Z.of_nat fuel -> combine_loop fuel b crc len = Ok (crc_bits (Z.to_nat len * (2 * n)) crc).
Proof.
  induction fuel as [|fuel IH]; intros b n crc len Hb Hc Hlen; cbn [combine_loop];
    (destruct (Z.eqb_spec len 0) as [-> | Hne]; [done|]); [cbn in Hlen; lia|].
  destruct (square_bits b n Hb) as (a & -> & Ha). step_ok.
  assert (0 <= Z.shiftr len 1 < 2 ^ Z.of_nat fuel) as Hs.
  { apply shiftr_range; [lia| |lia]. by replace (Z.of_nat fuel + 1) with (Z.of_nat (S fuel)) by lia. }
  assert (len = 2 * Z.shiftr len 1 + Z.b2z (Z.odd len)) as Hl by (rewrite <- Z.div2_spec; apply Z.div2_odd).
  remember (Z.shiftr len 1) as half eqn:Hhalf. destruct (Z.odd len); cbn [Z.b2z] in Hl.
  - rewrite (gf2_matrix_times_spec a (crc_bits (2 * n))) by (done || apply _). step_ok.
    rewrite (IH a _ _ _ Ha) by (done || by apply crc_bits_range). rewrite <- crc_bits_add. f_equal. f_equal. nia.
  - step_ok. rewrite (IH a _ _ _ Ha) by done. f_equal. f_equal. nia.
Qed.

Lemma crc32c_combine_spec crcA crcB len : word crcA -> 0 < len < 2 ^ 64 ->
  crc32c_combine crcA crcB len = Ok (Z.lxor (crc_bits (8 * Z.to_nat len) crcA) crcB).
Proof.
  intros HA Hlen. unfold crc32c_combine. rewrite (proj2 (Z.eqb_neq len 0)) by lia.
  destruct (square_bits _ _ one_zero_bit_spec) as (even & -> & He). step_ok.
  destruct (square_bits even _ He) as (odd & -> & Ho). step_ok.
  rewrite (combine_loop_spec 64 odd _ _ _ Ho) by (done || lia). step_ok. do 3 f_equal. lia.
Qed.

(** The checksum of a byte string, by the reference. *)
Definition checksum (p : list Z) : Z := not32 (crc_register (not32 0) p).

Lemma not32_not32 c : not32 (not32 c) = c.
Proof. unfold not32. by rewrite Z.lxor_assoc, Z.lxor_nilpotent, Z.lxor_0_r. Qed.

Lemma checksum_word p : Forall is_byte p -> word (checksum p).
Proof. intros Hp. by apply not32_word, crc_register_range. Qed.

Lemma checksum_app a b : Forall is_byte b ->
  checksum (a ++ b) = Z.lxor (crc_bits (8 * length b) (checksum a)) (checksum b).
Proof.
  intros Hb. unfold checksum. change (not32 0) with 0xffffffff.
  rewrite crc_register_app, (crc_register_split (crc_register _ a) b), (crc_register_split 0xffffffff b) by done.
  unfold not32. rewrite crc_bits_lxor, !Z.lxor_assoc. f_equal.
  rewrite <- !Z.lxor_assoc. by rewrite Z.lxor_nilpotent, Z.lxor_0_l.
Qed.

(** What every machine computes. *)
Lemma crc32c_spec m crc buf len : word crc -> Forall is_byte buf -> 0 <= len <= zlen buf ->
  crc32c m crc buf len = Ok (not32 (crc_register (not32 crc) (take (Z.to_nat len) buf))).
Proof.
  intros Hc Hb Hlen. unfold crc32c. destruct (have_insn m).
  - by apply crc32c_hw_register.
  - by apply crc32c_sw_register.
Qed.

Lemma crc32c_checksum m buf len : Forall is_byte buf -> 0 <= len <= zlen buf ->
  crc32c m 0 buf len = Ok (checksum (take (Z.to_nat len) buf)).
Proof. by apply crc32c_spec. Qed.

Lemma crc32c_continue m a buf len : Forall is_byte a -> Forall is_byte buf -> 0 <= len <= zlen buf ->
  crc32c m (checksum a) buf len = Ok (checksum (a ++ take (Z.to_nat len) buf)).
Proof.
  intros Ha Hb Hlen. rewrite crc32c_spec by (done || by apply checksum_word).
  unfold checksum. by rewrite not32_not32, crc_register_app.
Qed.

Lemma take_zlen {A} (l : list A) : take (Z.to_nat (zlen l)) l = l.
Proof. unfold zlen. by rewrite Nat2Z.id, firstn_all. Qed.

(** C29: On every machine - with the instructions or without, of either byte
    order, wherever the buffer is - crc32c continues the checksum crc over the
    first len bytes of the buffer as the one-bit shift register of the
    reflected polynomial does, and reads nothing outside of it. *)
Theorem crc32c_register m crc buf len :
  word crc -> Forall is_byte buf -> 0 <= len <= zlen buf ->
  crc32c m crc buf len = Ok (not32 (crc_register (not32 crc) (take (Z.to_nat len) buf))).
Proof. apply crc32c_spec. Qed.

(** The check value of the polynomial, for the digits from one to nine. *)
Lemma crc32c_register_witness :
  let digits := [49; 50; 51; 52; 53; 54; 55; 56; 57] in
  crc32c (MkMachine true true 0) 0 digits 9 = Ok 0xe3069283 /\
  crc32c (MkMachine false true 3) 0 digits 9 = Ok 0xe3069283 /\
  crc32c (MkMachine false false 3) 0 digits 9 = Ok 0xe3069283.
Proof.
  intros digits. assert (Forall is_byte digits) as Hd by (repeat (apply List.Forall_cons; [done|]); constructor).
  split; [|split]; (rewrite (crc32c_register _ 0 digits 9); [reflexivity|done|exact Hd|done]).
Defined.

(** The checksum that [crc32c_combine] makes of the checksums of two blocks and
    the length of the second, whichever machines they were computed on, is the one of
    the second block continued from that of the first, and the one of the two blocks
    in a row. *)
Theorem combine_append m m' a b x y :
  Forall is_byte a -> Forall is_byte b -> zlen b < 2 ^ 64 ->
  crc32c m 0 a (zlen a) = Ok x -> crc32c m' 0 b (zlen b) = Ok y ->
  crc32c_combine x y (zlen b) = crc32c m 0 (a ++ b) (zlen (a ++ b)) /\
  crc32c_combine x y (zlen b) = crc32c m' x b (zlen b).
Proof.
  intros Ha Hb Hlen. pose proof (zlen_nonneg a). pose proof (zlen_nonneg b). pose proof (zlen_nonneg (a ++ b)).
  rewrite !crc32c_checksum by (done || lia || by apply Forall_app_2). rewrite !take_zlen. intros [= <-] [= <-].
  rewrite crc32c_continue, take_zlen by (done || lia).
  enough (crc32c_combine (checksum a) (checksum b) (zlen b) = Ok (checksum (a ++ b))) as -> by done.
  destruct b as [|c b]; [by rewrite app_nil_r|]. remember (c :: b) as l eqn:Hl.
  rewrite crc32c_combine_spec by first [by apply checksum_word|subst; solve_len].
  rewrite checksum_app by done. unfold zlen. by rewrite Nat2Z.id.
Qed.

Lemma combine_append_witness :
  crc32c_combine 3251651376 606995116 2 = crc32c (MkMachine true true 0) 0 ([97] ++ [98; 99]) 3.
Proof.
  refine (proj1 (combine_append (MkMachine true true 0) (MkMachine false false 1) [97] [98; 99] 3251651376 606995116 _ _ _ _ _)).
  - repeat (apply List.Forall_cons; [done|]); constructor.
  - repeat (apply List.Forall_cons; [done|]); constructor.
  - done.
  - rewrite crc32c_checksum; [reflexivity| |done]. repeat (apply List.Forall_cons; [done|]); constructor.
  - rewrite crc32c_checksum; [reflexivity| |done]. repeat (apply List.Forall_cons; [done|]); constructor.
Defined.
