(* ===== verification/CsiCrc.v ===== *)
(** * Checksums of pages

    Models the page-wise routines of src/src/XrdOuc/XrdOucCRC.cc over [crc32c], and the
    algebra of src/src/XrdOssCsi/XrdOssCsiCrcUtils.hh with which the storage system
    derives the checksum of a part of a page from that of the page. *)

From stdpp Require Import base tactics list_numbers numbers option list.
From S2P Require Import Prelude CrcRegister OucCRC32C.
#[local] Set Warnings "-clear-no-such-hyp".

#[local] Abbreviation crc_bit := (crc_bit POLY).
#[local] Abbreviation crc_bits := (crc_bits POLY).
#[local] Abbreviation crc_register := (crc_register POLY).

(** [XrdSys::PageSize] *)
Definition PageSize : Z := 4096.

(** The machine with the buffer [k] bytes further on. *)
Definition further (k : Z) (m : machine) : machine := MkMachine (have_insn m) (is_little m) (address m + k).

(** ** XrdOucCRC *)

(** [Calc32C( data, count, prevcs )] *)
Definition Calc32C (m : machine) (data : list Z) (count prevcs : Z) : res Z := crc32c m prevcs data count.

(** [Calc32C( data, count, csval )]: what is stored at [csval[0]], [csval[1]], … *)
Fixpoint Calc32C_loop (numpages : nat) (m : machine) (dataP : list Z) (count : Z) : res (list Z) :=
  match numpages with
  | O => if 0 <? count then c ← crc32c m 0 dataP count; Ok [c] else Ok []
  | S n =>
      c ← crc32c m 0 dataP PageSize;
      l ← Calc32C_loop n (further PageSize m) (adv PageSize dataP) (count - PageSize);
      Ok (c :: l)
  end.
Definition Calc32C_pages (m : machine) (data : list Z) (count : Z) : res (list Z) :=
  Calc32C_loop (Z.to_nat (count / PageSize)) m data count.

(** [Combine32C( Cksum1, Cksum2, DLen )] *)
Definition Combine32C (Cksum1 Cksum2 DLen : Z) : res Z := crc32c_combine Cksum1 Cksum2 (u64 DLen).

(** [Ver32C( data, count, csval, valcs* )]: whether it matches, and the value *)
Definition Ver32C (m : machine) (data : list Z) (count csval : Z) : res (bool * Z) :=
  actualCS ← crc32c m 0 data count; Ok (csval =? actualCS, actualCS).

(** [Ver32C( data, count, csval[], valcs& )]: the first page that does not match and
    its value; -1 and nothing when all do *)
Fixpoint Ver32C_loop (numpages : nat) (m : machine) (dataP : list Z) (count : Z) (csval : list Z) (i : Z) : res (Z * option Z) :=
  match numpages with
  | O =>
      if 0 <? count then
        actualCS ← crc32c m 0 dataP count;
        match csval with
        | [] => Fault
        | cs :: _ => if cs =? actualCS then Ok (-1, None) else Ok (i, Some actualCS)
        end
      else Ok (-1, None)
  | S n =>
      actualCS ← crc32c m 0 dataP PageSize;
      match csval with
      | [] => Fault
      | cs :: csval =>
          if cs =? actualCS
          then Ver32C_loop n (further PageSize m) (adv PageSize dataP) (count - PageSize) csval (i + 1)
          else Ok (i, Some actualCS)
      end
  end.
Definition Ver32C_first (m : machine) (data : list Z) (count : Z) (csval : list Z) : res (Z * option Z) :=
  Ver32C_loop (Z.to_nat (count / PageSize)) m data count csval 0.

(** [Ver32C( data, count, csval[], valok[] )] *)
Fixpoint Ver32C_valok_loop (numpages : nat) (m : machine) (dataP : list Z) (count : Z) (csval : list Z) (retval : bool) : res (bool * list bool) :=
  match numpages with
  | O =>
      if 0 <? count then
        actualCS ← crc32c m 0 dataP count;
        match csval with
        | [] => Fault
        | cs :: _ => if cs =? actualCS then Ok (retval, [true]) else Ok (false, [false])
        end
      else Ok (retval, [])
  | S n =>
      actualCS ← crc32c m 0 dataP PageSize;
      match csval with
      | [] => Fault
      | cs :: csval =>
          let retval := if cs =? actualCS then retval else false in
          '(retval, valok) ← Ver32C_valok_loop n (further PageSize m) (adv PageSize dataP) (count - PageSize) csval retval;
          Ok (retval, (cs =? actualCS) :: valok)
      end
  end.
Definition Ver32C_valok (m : machine) (data : list Z) (count : Z) (csval : list Z) : res (bool * list bool) :=
  Ver32C_valok_loop (Z.to_nat (count / PageSize)) m data count csval true.

(** [Ver32C( data, count, csval[], valcs[] )] *)
Fixpoint Ver32C_valcs_loop (numpages : nat) (m : machine) (dataP : list Z) (count : Z) (csval : list Z) (retval : bool) : res (bool * list Z) :=
  match numpages with
  | O =>
      if 0 <? count then
        v ← crc32c m 0 dataP count;
        match csval with
        | [] => Fault
        | cs :: _ => Ok (if cs =? v then retval else false, [v])
        end
      else Ok (retval, [])
  | S n =>
      v ← crc32c m 0 dataP PageSize;
      match csval with
      | [] => Fault
      | cs :: csval =>
          '(retval, valcs) ← Ver32C_valcs_loop n (further PageSize m) (adv PageSize dataP) (count - PageSize) csval
                               (if cs =? v then retval else false);
          Ok (retval, v :: valcs)
      end
  end.
Definition Ver32C_valcs (m : machine) (data : list Z) (count : Z) (csval : list Z) : res (bool * list Z) :=
  Ver32C_valcs_loop (Z.to_nat (count / PageSize)) m data count csval true.

(** ** XrdOssCsiCrcUtils *)

(** [g_bz] *)
Definition g_bz : list Z := replicate (Z.to_nat PageSize) 0.

(** [crc32c_combine( crc1, crc2, len2 )] *)
Definition CrcUtils_combine (m : machine) (crc1 crc2 len2 : Z) : res Z :=
  if len2 =? 0 then Ok crc1
  else if PageSize <? len2 then Fault
  else c1 ← Calc32C m g_bz len2 (not32 crc1); Ok (Z.lxor (not32 c1) crc2).

(** [crc32c_split1( crctot, crc2, len2 )] *)
Definition split1_turn (crc : Z) : Z :=
  Z.lxor (u32 (Z.shiftl crc 1)) (if Z.land crc 0x80000000 =? 0 then 0 else Z.lor (u32 (Z.shiftl POLY 1)) 1).
Fixpoint split1_loop (n : nat) (crc : Z) : Z :=
  match n with O => crc | S n => split1_loop n (split1_turn crc) end.
Definition crc32c_split1 (crctot crc2 len2 : Z) : res Z :=
  if len2 =? 0 then Ok crctot
  else if PageSize <? len2 then Fault
  else Ok (split1_loop (8 * Z.to_nat len2) (Z.lxor crctot crc2)).

(** [crc32c_split2( crctot, crc1, len2 )] *)
Definition crc32c_split2 (m : machine) (crctot crc1 len2 : Z) : res Z :=
  if len2 =? 0 then Ok 0
  else if PageSize <? len2 then Fault
  else c1 ← Calc32C m g_bz len2 (not32 crc1); Ok (Z.lxor (not32 c1) crctot).

(** [crc32c_extendwith_zero( crc, len )] *)
Definition crc32c_extendwith_zero (m : machine) (crc len : Z) : res Z :=
  if len =? 0 then Ok crc
  else if PageSize <? len then Fault
  else Calc32C m g_bz len crc.

(** ** The checksums of the pages of a block *)

Lemma PageSize_pos : 0 < PageSize.
Proof. done. Qed.

(** The number of pages that [count] bytes take, the last one perhaps short. *)
Definition npages (count : Z) : Z := (count + (PageSize - 1)) / PageSize.

(** The blocks of a page each. *)
Definition page_of (i : Z) (data : list Z) : list Z := slice (PageSize * i) PageSize data.
Definition page_sums (data : list Z) : list Z := (fun i => checksum (page_of i data)) <$> seqZ 0 (npages (zlen data)).

Lemma npages_add count : npages (count + PageSize) = npages count + 1.
Proof. unfold npages, PageSize. lia_div. Qed.

Lemma npages_range count : 0 <= count -> PageSize * (npages count - 1) < count <= PageSize * npages count \/ count = 0 /\ npages count = 0.
Proof. intros. unfold npages, PageSize. lia_div. Qed.

Lemma page_sums_cons p data : zlen p = PageSize -> page_sums (p ++ data) = checksum p :: page_sums data.
Proof.
  intros Hp. unfold page_sums. pose proof (zlen_nonneg data) as Hd. rewrite zlen_app, Hp, Z.add_comm, npages_add.
  assert (0 <= npages (zlen data)) by (unfold npages, PageSize; lia_div).
  rewrite seqZ_cons by lia. cbn [fmap list_fmap]. f_equal.
  - f_equal. unfold page_of, slice. rewrite Z.mul_0_r. cbn [Z.to_nat]. rewrite drop_0, <- Hp. unfold zlen.
    by rewrite Nat2Z.id, take_app_length.
  - replace (Z.pred (npages (zlen data) + 1)) with (npages (zlen data)) by lia.
    rewrite <- (fmap_add_seqZ 1 0), <- list_fmap_compose. apply list_fmap_ext. intros _ i Hi%list_elem_of_lookup_2%elem_of_seqZ.
    cbn [compose]. f_equal. unfold page_of, slice. f_equal. rewrite drop_app_ge by (unfold zlen in Hp; lia).
    f_equal. unfold zlen, PageSize in *. lia.
Qed.

Lemma page_sums_last (data : list Z) : 0 < zlen data < PageSize -> page_sums data = [checksum data].
Proof.
  intros Hd. unfold page_sums. replace (npages (zlen data)) with 1 by (unfold npages, PageSize in *; lia_div).
  change (seqZ 0 1) with [0]. cbn [fmap list_fmap]. do 2 f_equal. unfold page_of, slice. rewrite Z.mul_0_r. cbn [Z.to_nat].
  rewrite drop_0. apply take_ge. unfold zlen in Hd. lia.
Qed.

Lemma page_sums_nil : page_sums [] = [].
Proof. done. Qed.

(** A block of [n] pages and a rest. *)
Lemma page_split (n : nat) (data : list Z) : Z.of_nat (S n) = zlen data / PageSize ->
  exists p rest, data = p ++ rest /\ zlen p = PageSize /\ Z.of_nat n = zlen rest / PageSize.
Proof.
  intros Hn. exists (take (Z.to_nat PageSize) data), (drop (Z.to_nat PageSize) data).
  pose proof (zlen_nonneg data). assert (PageSize <= zlen data) by (unfold PageSize in *; lia_div).
  split; [by rewrite take_drop|]. rewrite zlen_drop by (unfold PageSize in *; lia).
  split; [unfold zlen, PageSize in *; rewrite length_take; lia|]. unfold PageSize in *. lia_div.
Qed.

Lemma crc32c_prefix m p rest : Forall is_byte (p ++ rest) -> crc32c m 0 (p ++ rest) (zlen p) = Ok (checksum p).
Proof.
  intros Hb. rewrite crc32c_checksum by (done || solve_len). unfold zlen. by rewrite Nat2Z.id, take_app_length.
Qed.

Lemma crc32c_whole m p : Forall is_byte p -> crc32c m 0 p (zlen p) = Ok (checksum p).
Proof. intros Hb. rewrite crc32c_checksum by (done || solve_len). by rewrite take_zlen. Qed.

(** The induction on the pages of a block: none left and a short rest, or one more. *)
Lemma pages_ind (P : nat -> list Z -> Prop) :
  (forall data, zlen data < PageSize -> P O data) ->
  (forall n p data, zlen p = PageSize -> P n data -> P (S n) (p ++ data)) ->
  forall data, P (Z.to_nat (zlen data / PageSize)) data.
Proof.
  intros H0 HS data. remember (Z.to_nat (zlen data / PageSize)) as n eqn:Hn. pose proof (zlen_nonneg data).
  assert (Z.of_nat n = zlen data / PageSize) as Hn' by (unfold PageSize in *; lia_div). clear Hn.
  revert data Hn' H. induction n as [|n IH]; intros data Hn Hd.
  - apply H0. unfold PageSize in *. lia_div.
  - destruct (page_split n data Hn) as (p & rest & -> & Hp & Hr). apply HS; [done|]. apply IH; [done|apply zlen_nonneg].
Qed.

(** The pages of the first bytes of a block. *)
Lemma Calc32C_pages_prefix data rest m : Forall is_byte (data ++ rest) ->
  Calc32C_pages m (data ++ rest) (zlen data) = Ok (page_sums data).
Proof.
  unfold Calc32C_pages. revert m. apply (pages_ind (fun n data => forall m, Forall is_byte (data ++ rest) ->
    Calc32C_loop n m (data ++ rest) (zlen data) = Ok (page_sums data))).
  - intros d Hd m Hb. cbn [Calc32C_loop]. destruct (Z.ltb_spec 0 (zlen d)).
    + rewrite crc32c_prefix by done. step_ok. by rewrite page_sums_last.
    + by rewrite (zlen_zero_nil d) by solve_len.
  - intros n p d Hp IH m Hb. cbn [Calc32C_loop]. rewrite <- app_assoc in *. rewrite <- Hp at 1.
    rewrite crc32c_prefix by done. step_ok. rewrite adv_app_exact by done.
    replace (zlen (p ++ d) - PageSize) with (zlen d) by solve_len.
    rewrite IH by (by apply Forall_app in Hb as [_ ?]). step_ok. by rewrite page_sums_cons.
Qed.

Lemma Calc32C_pages_spec data m : Forall is_byte data -> Calc32C_pages m data (zlen data) = Ok (page_sums data).
Proof. intros Hb. rewrite <- (app_nil_r data) at 1. apply Calc32C_pages_prefix. by rewrite app_nil_r. Qed.

(** ** Verification of the pages *)

(** The sums given and the sums of the pages agree. *)
Definition sums_agree (csval sums : list Z) : bool := bool_decide (csval = sums).
Lemma sums_agree_cons c s cs ss : sums_agree (c :: cs) (s :: ss) = (c =? s) && sums_agree cs ss.
Proof. unfold sums_agree. destruct (Z.eqb_spec c s); cbn [andb]; [apply bool_decide_ext|apply bool_decide_eq_false]; naive_solver. Qed.

(** The first page whose sum differs, counted from [i]. *)
Definition first_mismatch (i : Z) (csval sums : list Z) : Z * option Z :=
  match list_find (fun p => p.1 <> p.2) (zip csval sums) with
  | Some (n, (_, s)) => (i + Z.of_nat n, Some s)
  | None => (-1, None)
  end.
Lemma first_mismatch_cons i c s cs ss :
  first_mismatch i (c :: cs) (s :: ss) = if c =? s then first_mismatch (i + 1) cs ss else (i, Some s).
Proof.
  unfold first_mismatch. cbn. destruct (Z.eqb_spec c s) as [-> | Hne].
  - rewrite decide_False by auto. destruct (list_find _ _) as [[n [? ?]]|]; cbn; [|done]. f_equal. lia.
  - rewrite decide_True by done. cbn. f_equal. lia.
Qed.

(** What the three loops give for [n] pages of a block and what follows them. *)
Definition verified (rest : list Z) (n : nat) (data : list Z) : Prop := forall m csval retval i,
  Forall is_byte (data ++ rest) -> length csval = length (page_sums data) ->
  Ver32C_valok_loop n m (data ++ rest) (zlen data) csval retval
    = Ok (retval && sums_agree csval (page_sums data), zip_with Z.eqb csval (page_sums data)) /\
  Ver32C_valcs_loop n m (data ++ rest) (zlen data) csval retval
    = Ok (retval && sums_agree csval (page_sums data), page_sums data) /\
  Ver32C_loop n m (data ++ rest) (zlen data) csval i = Ok (first_mismatch i csval (page_sums data)).

Lemma Ver32C_loops rest data : verified rest (Z.to_nat (zlen data / PageSize)) data.
Proof.
  apply pages_ind.
  - intros d Hd m csval retval i Hb Hl. cbn [Ver32C_valok_loop Ver32C_valcs_loop Ver32C_loop].
    destruct (Z.ltb_spec 0 (zlen d)) as [Hpos|].
    + rewrite crc32c_prefix by done. rewrite page_sums_last in * by done.
      destruct csval as [|c [|]]; try done. rewrite !bind_Ok. cbn [zip_with].
      rewrite sums_agree_cons, first_mismatch_cons. change (sums_agree [] []) with true.
      destruct (c =? checksum d); cbn [andb]; rewrite ?andb_false_r, ?andb_true_r; done.
    + assert (d = []) as -> by (apply zlen_zero_nil; solve_len). apply nil_length_inv in Hl as ->.
      change (sums_agree [] (page_sums [])) with true. by rewrite andb_true_r.
  - intros n p d Hp IH m csval retval i Hb Hl. cbn [Ver32C_valok_loop Ver32C_valcs_loop Ver32C_loop].
    rewrite page_sums_cons in * by done. destruct csval as [|c csval]; [done|]. injection Hl as Hl.
    rewrite <- app_assoc in *.
    assert (crc32c m 0 (p ++ d ++ rest) PageSize = Ok (checksum p)) as -> by (rewrite <- Hp; by apply crc32c_prefix).
    rewrite !bind_Ok. rewrite adv_app_exact by done. replace (zlen (p ++ d) - PageSize) with (zlen d) by solve_len.
    apply Forall_app in Hb as [_ Hb]. cbn [zip_with]. rewrite sums_agree_cons, first_mismatch_cons.
    destruct (IH (further PageSize m) csval retval (i + 1) Hb Hl) as (H1 & H2 & H3).
    destruct (IH (further PageSize m) csval false (i + 1) Hb Hl) as (H4 & H5 & _).
    destruct (c =? checksum p); cbn [andb]; rewrite ?H1, ?H2, ?H3, ?H4, ?H5, ?bind_Ok, ?andb_false_r; done.
Qed.

(** For every block of bytes Calc32C stores the checksums of its pages,
    the last one perhaps short; the verification that stores flags and the one
    that stores sums return true exactly when the sums given are those, and
    tell for every page; and the one that stops returns the first page that
    differs, with the sum it has, and -1 when none does. *)
Theorem Ver32C_agree m data csval :
  Forall is_byte data -> length csval = length (page_sums data) ->
  Calc32C_pages m data (zlen data) = Ok (page_sums data) /\
  Ver32C_valok m data (zlen data) csval
    = Ok (bool_decide (csval = page_sums data), zip_with Z.eqb csval (page_sums data)) /\
  Ver32C_valcs m data (zlen data) csval = Ok (bool_decide (csval = page_sums data), page_sums data) /\
  Ver32C_first m data (zlen data) csval = Ok (first_mismatch 0 csval (page_sums data)).
Proof.
  intros Hb Hl. rewrite Calc32C_pages_spec by done. rewrite <- (app_nil_r data) in Hb.
  destruct (Ver32C_loops [] data m csval true 0 Hb Hl) as (H1 & H2 & H3). rewrite app_nil_r in *. done.
Qed.

Lemma Ver32C_agree_witness :
  let m := MkMachine false true 5 in
  Ver32C_first m [97; 98] 2 [7] = Ok (0, Some (checksum [97; 98])).
Proof.
  assert (Forall is_byte [97; 98]) as Hb by (repeat (apply List.Forall_cons; [done|]); constructor).
  exact (proj2 (proj2 (proj2 (Ver32C_agree (MkMachine false true 5) [97; 98] [7] Hb eq_refl)))).
Defined.

(** ** The algebra of checksums *)

Lemma is_byte_zeros n : Forall is_byte (replicate n 0).
Proof. by apply Forall_replicate. Qed.

Lemma length_g_bz : zlen g_bz = PageSize.
Proof. unfold zlen, g_bz. rewrite length_replicate. unfold PageSize. lia. Qed.

(** Zero bytes from the constant page. *)
Lemma Calc32C_zeros m crc len : word crc -> 0 <= len <= PageSize ->
  Calc32C m g_bz len crc = Ok (not32 (crc_bits (8 * Z.to_nat len) (not32 crc))).
Proof.
  intros Hc Hlen. unfold Calc32C. rewrite crc32c_spec.
  - unfold g_bz. rewrite take_replicate, Nat.min_l by lia. by rewrite crc_register_zeros.
  - done.
  - apply is_byte_zeros.
  - by rewrite length_g_bz.
Qed.

Lemma u32_lxor a b : u32 (Z.lxor a b) = Z.lxor (u32 a) (u32 b).
Proof.
  unfold u32. rewrite <- !Z.land_ones by done. apply Z.bits_inj'. intros n Hn.
  rewrite !Z.lxor_spec, !Z.land_spec, Z.lxor_spec. by destruct (Z.testbit a n), (Z.testbit b n), (Z.testbit _ n).
Qed.

(** A turn of the loop undoes a turn of the register: the polynomial's top bit is set,
    so the top bit tells what was shifted out. *)
Lemma split1_turn_undoes c : word c -> split1_turn (crc_bit c) = c.
Proof.
  intros Hc. assert (0 <= Z.shiftr c 1 < 2 ^ 31) as Hs by (apply shiftr_range; unfold word in Hc; lia).
  assert (c = Z.lxor (Z.shiftl (Z.shiftr c 1) 1) (if Z.odd c then 1 else 0)) as Hlow.
  { rewrite <- (Z.shiftl_0_r c) at 1. rewrite (low_bit c 0), Z.lxor_comm by done. done. }
  assert (Z.testbit (Z.shiftr c 1) 31 = false) as Htop.
  { apply (proj1 (Z.bounded_iff_bits_nonneg 31 _ ltac:(done) (proj1 Hs))); lia. }
  unfold split1_turn, CrcRegister.crc_bit. destruct (Z.odd c).
  - assert ((Z.land (Z.lxor (Z.shiftr c 1) POLY) 0x80000000 =? 0) = false) as ->.
    { apply Z.eqb_neq. intros Hz. apply (f_equal (fun z => Z.testbit z 31)) in Hz.
      rewrite Z.land_spec, Z.lxor_spec, Htop in Hz. discriminate. }
    rewrite Z.shiftl_lxor, u32_lxor, (u32_small (Z.shiftl _ _)) by (rewrite Z.shiftl_mul_pow2; lia).
    by rewrite Z.lxor_assoc.
  - rewrite Z.lxor_0_r in *. assert ((Z.land (Z.shiftr c 1) 0x80000000 =? 0) = true) as ->.
    { apply Z.eqb_eq. change 0x80000000 with (Z.shiftl 1 31). apply Z.bits_inj'. intros n Hn. rewrite Z.land_spec, Z.bits_0.
      destruct (Z.eq_dec n 31) as [-> | Hne]; [by rewrite Htop|]. rewrite Z.shiftl_spec by done.
      destruct (Z.ltb_spec n 31); [rewrite (Z.testbit_neg_r 1) by lia; apply andb_false_r|].
      rewrite (Z.bits_above_log2 1) by (cbn; lia). apply andb_false_r. }
    rewrite u32_small by (rewrite Z.shiftl_mul_pow2; lia). by rewrite Z.lxor_0_r.
Qed.

Lemma split1_loop_undoes n c : word c -> split1_loop n (crc_bits n c) = c.
Proof.
  induction n as [|n IH]; intros Hc; [done|]. cbn [split1_loop].
  assert (crc_bits (S n) c = crc_bit (crc_bits n c)) as ->.
  { replace (S n) with (n + 1)%nat by lia. by rewrite crc_bits_add. }
  rewrite split1_turn_undoes by (by apply crc_bits_range). by apply IH.
Qed.

Lemma CrcUtils_parts m a b :
  Forall is_byte a -> Forall is_byte b -> zlen b <= PageSize ->
  CrcUtils_combine m (checksum a) (checksum b) (zlen b) = Ok (checksum (a ++ b)) /\
  crc32c_split1 (checksum (a ++ b)) (checksum b) (zlen b) = Ok (checksum a) /\
  crc32c_split2 m (checksum (a ++ b)) (checksum a) (zlen b) = Ok (checksum b) /\
  crc32c_extendwith_zero m (checksum a) (zlen b) = Ok (checksum (a ++ replicate (length b) 0)).
Proof.
  intros Ha Hb Hlen. pose proof (checksum_word a Ha) as Hwa. pose proof (zlen_nonneg b) as Hlb.
  unfold CrcUtils_combine, crc32c_split1, crc32c_split2, crc32c_extendwith_zero.
  destruct (Z.eqb_spec (zlen b) 0) as [H0|H0].
  { apply zlen_zero_nil in H0 as ->. cbn [length replicate]. by rewrite !app_nil_r. }
  rewrite (proj2 (Z.ltb_ge PageSize (zlen b))) by done.
  assert (crc_bits (8 * Z.to_nat (zlen b)) (checksum a) = Z.lxor (checksum (a ++ b)) (checksum b)) as Hab.
  { rewrite checksum_app by done. unfold zlen. by rewrite Nat2Z.id, Z.lxor_assoc, Z.lxor_nilpotent, Z.lxor_0_r. }
  rewrite Calc32C_zeros, not32_not32 by (done || by apply not32_word). rewrite !bind_Ok, !not32_not32.
  split; [|split; [|split]].
  - rewrite Hab. by rewrite Z.lxor_assoc, Z.lxor_nilpotent, Z.lxor_0_r.
  - rewrite <- Hab. by rewrite split1_loop_undoes.
  - rewrite Hab. rewrite (Z.lxor_comm (Z.lxor _ _)), <- Z.lxor_assoc. by rewrite Z.lxor_nilpotent, Z.lxor_0_l.
  - rewrite Calc32C_zeros by (done || lia). unfold checksum. rewrite not32_not32, crc_register_app, crc_register_zeros.
    unfold zlen. by rewrite Nat2Z.id.
Qed.

(** C30: For two parts of a page, the checksum of the whole, that of the first
    and that of the second determine each other: crc32c_combine gives the
    whole, crc32c_split1 the first and crc32c_split2 the second part's, and
    crc32c_extendwith_zero gives that of a part followed by zero bytes. *)
Theorem CrcUtils_inverse m a b :
  Forall is_byte a -> Forall is_byte b -> zlen b <= PageSize ->
  CrcUtils_combine m (checksum a) (checksum b) (zlen b) = Ok (checksum (a ++ b)) /\
  crc32c_split1 (checksum (a ++ b)) (checksum b) (zlen b) = Ok (checksum a) /\
  crc32c_split2 m (checksum (a ++ b)) (checksum a) (zlen b) = Ok (checksum b) /\
  crc32c_extendwith_zero m (checksum a) (zlen b) = Ok (checksum (a ++ replicate (length b) 0)).
Proof. apply CrcUtils_parts. Qed.

Lemma CrcUtils_inverse_witness :
  crc32c_split1 (checksum ([97] ++ [98; 99])) (checksum [98; 99]) 2 = Ok (checksum [97]).
Proof.
  assert (Forall is_byte [97]) as Ha by (repeat (apply List.Forall_cons; [done|]); constructor).
  assert (Forall is_byte [98; 99]) as Hb by (repeat (apply List.Forall_cons; [done|]); constructor).
  exact (proj1 (proj2 (CrcUtils_inverse (MkMachine true true 0) [97] [98; 99] Ha Hb ltac:(done)))).
Defined.
