(* ===== verification/CsiStore.v ===== *)
(** * Files that can fail, the store of tags, and the tag file

    Models src/src/XrdOssCsi/XrdOssCsiTagstore.hh, the interface of the store of page
    checksums, and src/src/XrdOssCsi/XrdOssCsiTagstoreFile.{hh,cc}, the store in a file:
    a header of twenty bytes with the tracked length and a checksum of its own, then a
    tag of four bytes for every page, in the byte order of the machine that made it.

    A file is its bytes and the answers its system calls will give. A call can fail, and
    a read or a write can be short, at any point. *)

From stdpp Require Import base tactics list_numbers numbers option list.
From S2P Require Import Prelude CrcRegister OucCRC32C CsiCrc.
#[local] Set Warnings "-clear-no-such-hyp".

(** ** Routines that return a negative number to give up *)

(** The outcome: a value or the negative number returned early, and the new state. *)
Definition M (S A : Type) : Type := S -> res ((A + Z) * S).

Definition ret {S A} (a : A) : M S A := fun s => Ok (inl a, s).
(** [return e] of a negative [e]: the callers return it too unless they look at it. *)
Definition fail {S A} (e : Z) : M S A := fun s => Ok (inr e, s).
Definition bind {S A B} (m : M S A) (f : A -> M S B) : M S B := fun s =>
  match m s with
  | Ok (inl a, s) => f a s
  | Ok (inr e, s) => Ok (inr e, s)
  | BadData => BadData | Fault => Fault | Diverge => Diverge
  end.
(** A caller that looks at what is returned. *)
Definition catch {S A} (m : M S A) : M S (A + Z) := fun s =>
  match m s with
  | Ok (r, s) => Ok (inl r, s)
  | BadData => BadData | Fault => Fault | Diverge => Diverge
  end.
(** A routine without state, such as those on checksums. *)
Definition lift {S A} (r : res A) : M S A := fun s =>
  match r with Ok a => Ok (inl a, s) | BadData => BadData | Fault => Fault | Diverge => Diverge end.
Definition get {S} : M S S := fun s => Ok (inl s, s).
Definition put {S} (s : S) : M S unit := fun _ => Ok (inl tt, s).
Definition diverge {S A} : M S A := fun _ => Diverge.
Definition fault {S A} : M S A := fun _ => Fault.
(** A routine on a part of the state. *)
Definition zoom {S T A} (view : S -> T) (set : T -> S -> S) (m : M T A) : M S A := fun s =>
  match m (view s) with
  | Ok (r, t) => Ok (r, set t s)
  | BadData => BadData | Fault => Fault | Diverge => Diverge
  end.

Declare Scope csi_scope.
Delimit Scope csi_scope with csi.
Notation "'let*' x := m 'in' k" := (bind m (fun x => k))
  (at level 10, x pattern, m at level 100, k at level 200) : csi_scope.
Notation "m ';;;' k" := (bind m (fun _ => k)) (at level 199, right associativity) : csi_scope.
Open Scope csi_scope.

(** The errors, as [-errno]. *)
Definition EBADF : Z := -9.
Definition EINVAL : Z := -22.
Definition EDOM : Z := -33.
Definition ENOENT : Z := -2.
Definition ESPIPE : Z := -29.

(** ** Files *)

(** What a system call does: all of it, at most so many bytes, or an error. *)
Inductive answer := Full | Short (k : positive) | Err (e : positive).
Record file := MkFile { content : list Z; answers : list answer }.

(** The answer to a call, and the file with the answers to the next ones. *)
Definition next_answer (f : file) : answer * file :=
  match answers f with
  | [] => (Full, f)
  | a :: l => (a, MkFile (content f) l)
  end.

(** Bytes written at an offset; a gap before them is filled with zero bytes. *)
Definition write_at (off : Z) (buf l : list Z) : list Z :=
  match buf with
  | [] => l
  | _ => take (Z.to_nat off) (l ++ replicate (Z.to_nat off - length l) 0) ++ buf ++ drop (Z.to_nat off + length buf) l
  end.
(** A file of a new size. *)
Definition resize_to (n : Z) (l : list Z) : list Z := take (Z.to_nat n) l ++ replicate (Z.to_nat n - length l) 0.

(** [Read( buffer, offset, size )]: the bytes that were read *)
Definition df_Read (off n : Z) : M file (list Z) := fun f =>
  let '(a, f) := next_answer f in
  match a with
  | Err e => Ok (inr (Zneg e), f)
  | Full => Ok (inl (slice off n (content f)), f)
  | Short k => Ok (inl (slice off (Z.min (Zpos k) n) (content f)), f)
  end.
(** [Write( buffer, offset, size )]: how many bytes were written *)
Definition df_Write (buf : list Z) (off : Z) : M file Z := fun f =>
  let '(a, f) := next_answer f in
  let wrote n := Ok (inl n, MkFile (write_at off (take (Z.to_nat n) buf) (content f)) (answers f)) in
  match a with
  | Err e => Ok (inr (Zneg e), f)
  | Full => wrote (zlen buf)
  | Short k => wrote (Z.min (Zpos k) (zlen buf))
  end.
(** [Ftruncate( flen )] *)
Definition df_Ftruncate (n : Z) : M file unit := fun f =>
  let '(a, f) := next_answer f in
  match a with
  | Err e => Ok (inr (Zneg e), f)
  | _ => Ok (inl tt, MkFile (resize_to n (content f)) (answers f))
  end.
(** [Fstat( buf )]: the size *)
Definition df_Fstat : M file Z := fun f =>
  let '(a, f) := next_answer f in
  match a with
  | Err e => Ok (inr (Zneg e), f)
  | _ => Ok (inl (zlen (content f)), f)
  end.

(** ** The interface of a store of tags *)

Class Tagstore (T : Type) := {
  WriteTags : list Z -> Z -> M T Z;
  ReadTags : Z -> Z -> M T (list Z);
  GetTrackedTagSize : T -> Z;
  GetTrackedDataSize : T -> Z;
  IsVerified : T -> bool;
  SetTrackedSize : Z -> M T unit;
  SetUnverified : M T unit;
  ResetSizes : Z -> M T unit;
  Truncate : Z -> bool -> M T unit }.

(** [csVer] *)
Definition csVer : Z := 1.

(** ** The store in a file *)

Record XrdOssCsiTagstoreFile := MkTagstoreFile {
  fd_ : file;
  trackinglen_ : Z;
  actualsize_ : Z;
  isOpen : bool;
  machineIsBige_ : bool;
  fileIsBige_ : bool;
  hflags_ : Z }.

(** [cmagic_] *)
Definition cmagic_ : Z := 0x30544452.

Section TagstoreFile.
  Context (mach : machine).
  Abbreviation MT := (M XrdOssCsiTagstoreFile).

Definition with_fd (f : file) (t : XrdOssCsiTagstoreFile) : XrdOssCsiTagstoreFile :=
  MkTagstoreFile f (trackinglen_ t) (actualsize_ t) (isOpen t) (machineIsBige_ t) (fileIsBige_ t) (hflags_ t).
Definition on_fd {A} (m : M file A) : MT A := zoom fd_ with_fd m.
Definition set_trackinglen (z : Z) : MT unit := fun t =>
  Ok (inl tt, MkTagstoreFile (fd_ t) z (actualsize_ t) (isOpen t) (machineIsBige_ t) (fileIsBige_ t) (hflags_ t)).
Definition set_actualsize (z : Z) : MT unit := fun t =>
  Ok (inl tt, MkTagstoreFile (fd_ t) (trackinglen_ t) z (isOpen t) (machineIsBige_ t) (fileIsBige_ t) (hflags_ t)).
Definition set_isOpen (b : bool) : MT unit := fun t =>
  Ok (inl tt, MkTagstoreFile (fd_ t) (trackinglen_ t) (actualsize_ t) b (machineIsBige_ t) (fileIsBige_ t) (hflags_ t)).
Definition set_machineIsBige (b : bool) : MT unit := fun t =>
  Ok (inl tt, MkTagstoreFile (fd_ t) (trackinglen_ t) (actualsize_ t) (isOpen t) b (fileIsBige_ t) (hflags_ t)).
Definition set_fileIsBige (b : bool) : MT unit := fun t =>
  Ok (inl tt, MkTagstoreFile (fd_ t) (trackinglen_ t) (actualsize_ t) (isOpen t) (machineIsBige_ t) b (hflags_ t)).
Definition set_hflags (z : Z) : MT unit := fun t =>
  Ok (inl tt, MkTagstoreFile (fd_ t) (trackinglen_ t) (actualsize_ t) (isOpen t) (machineIsBige_ t) (fileIsBige_ t) z).

(** [fullread( fd, buff, off, sz )] *)
Fixpoint fullread_loop (fuel : nat) (off toread : Z) (acc : list Z) : M file (list Z) :=
  if toread <=? 0 then ret acc
  else match fuel with
       | O => diverge
       | S fuel =>
           let* p := df_Read off toread in
           if zlen p =? 0 then ret acc
           else fullread_loop fuel (off + zlen p) (toread - zlen p) (acc ++ p)
       end.
Definition fullread (off sz : Z) : M file (list Z) :=
  let* l := fullread_loop (Z.to_nat sz) off sz [] in
  if zlen l =? sz then ret l else fail EDOM.

(** [fullwrite( fd, buff, off, sz )] of the whole buffer *)
Fixpoint fullwrite_loop (fuel : nat) (off : Z) (buf : list Z) (nwritten : Z) : M file Z :=
  if zlen buf =? 0 then ret nwritten
  else match fuel with
       | O => diverge
       | S fuel =>
           let* wret := df_Write buf off in
           fullwrite_loop fuel (off + wret) (adv wret buf) (nwritten + wret)
       end.
Definition fullwrite (off : Z) (buf : list Z) : M file Z := fullwrite_loop (length buf) off buf 0.

(** [memcpy] of an integer of [n] bytes to memory, on either kind of machine *)
Definition store_int (big : bool) (n : nat) (z : Z) : list Z := let l := enc n z in if big then rev l else l.
Definition load_int (big : bool) (l : list Z) : Z := little_endian_to_Z 8 (if big then rev l else l).
(** Conversion to [off_t] *)
Definition i64 (z : Z) : Z := (z + 2 ^ 63) mod 2 ^ 64 - 2 ^ 63.
(** [bswap_32], [bswap_64] *)
Definition bswap (n : nat) (z : Z) : Z := little_endian_to_Z 8 (rev (enc n z)).

(** [MarshallAndWriteHeader()] *)
Definition MarshallAndWriteHeader : MT unit :=
  let* t := get in
  if negb (isOpen t) then fail EBADF
  else
    let swapped := negb (Bool.eqb (fileIsBige_ t) (machineIsBige_ t)) in
    let big := machineIsBige_ t in
    let conv n z := if swapped : bool then bswap n z else z in
    let h := store_int big 4 (conv 4%nat cmagic_) ++ store_int big 8 (conv 8%nat (u64 (trackinglen_ t)))
               ++ store_int big 4 (conv 4%nat (hflags_ t)) in
    let* cv := lift (Calc32C mach h 16 0) in
    let* _ := on_fd (fullwrite 0 (h ++ store_int big 4 (conv 4%nat cv))) in
    ret tt.

(** [WriteTrackedTagSize( size )] *)
Definition WriteTrackedTagSize (size : Z) : MT unit :=
  let* t := get in
  if negb (isOpen t) then fail EBADF else set_trackinglen size ;;; MarshallAndWriteHeader.

(** [SetTrackedSize( size )] *)
Definition TF_SetTrackedSize (size : Z) : MT unit :=
  let* t := get in
  if negb (isOpen t) then fail EBADF
  else
    (if actualsize_ t <? size then set_actualsize size else ret tt) ;;;
    (if size =? trackinglen_ t then ret tt else WriteTrackedTagSize size).

(** [IsVerified()], [SetUnverified()] *)
Definition TF_IsVerified (t : XrdOssCsiTagstoreFile) : bool :=
  if isOpen t then negb (Z.land (hflags_ t) csVer =? 0) else false.
Definition TF_SetUnverified : MT unit :=
  let* t := get in
  if negb (isOpen t) then fail EBADF
  else if Z.land (hflags_ t) csVer =? 0 then ret tt
  else set_hflags (Z.ldiff (hflags_ t) csVer) ;;; MarshallAndWriteHeader.

(** [GetTrackedTagSize()], [GetTrackedDataSize()] *)
Definition TF_GetTrackedTagSize (t : XrdOssCsiTagstoreFile) : Z := if isOpen t then trackinglen_ t else 0.
Definition TF_GetTrackedDataSize (t : XrdOssCsiTagstoreFile) : Z := if isOpen t then actualsize_ t else 0.

(** The size of a tag file for so many bytes of data. *)
Definition expected_tagfile_size (size : Z) : Z := 20 + 4 * Z.quot (size + PageSize - 1) PageSize.

(** [ResetSizes( size )] *)
Definition TF_ResetSizes (size : Z) : MT unit :=
  let* t := get in
  if negb (isOpen t) then fail EBADF
  else
    set_actualsize size ;;;
    let* st_size := on_fd df_Fstat in
    let expected := expected_tagfile_size (trackinglen_ t) in
    if expected <? st_size then on_fd (df_Ftruncate expected)
    else if st_size <? expected then
      let nb := if 20 <? st_size then (st_size - 20) / 4 else 0 in
      WriteTrackedTagSize (nb * PageSize) ;;;
      on_fd (df_Ftruncate (20 + 4 * nb))
    else ret tt.

(** [Truncate( size, datatoo )] *)
Definition TF_Truncate (size : Z) (datatoo : bool) : MT unit :=
  let* t := get in
  if negb (isOpen t) then fail EBADF
  else
    on_fd (df_Ftruncate (expected_tagfile_size size)) ;;;
    (if datatoo && (size =? 0) then set_hflags (Z.lor (hflags_ t) csVer) else ret tt) ;;;
    WriteTrackedTagSize size ;;;
    (if datatoo then set_actualsize size else ret tt).

(** Tags in memory. *)
Definition store_tags (big : bool) (l : list Z) : list Z := mjoin (store_int big 4 <$> l).
Fixpoint load_tags (big : bool) (n : nat) (l : list Z) : list Z :=
  match n with
  | O => []
  | S n => load_int big (take 4 l) :: load_tags big n (drop 4 l)
  end.

(** [WriteTags_swap( buf, off, n )]: 1024 at a time *)
Fixpoint WriteTags_swap (fuel : nat) (big : bool) (buf : list Z) (off nwritten : Z) : MT unit :=
  if zlen buf =? 0 then ret tt
  else match fuel with
       | O => diverge
       | S fuel =>
           let b := bswap 4 <$> take 1024 buf in
           let* wret := on_fd (fullwrite (20 + 4 * (nwritten + off)) (store_tags big b)) in
           WriteTags_swap fuel big (adv (wret / 4) buf) off (nwritten + wret / 4)
       end.

(** [ReadTags_swap( buf, off, n )] *)
Fixpoint ReadTags_swap (fuel : nat) (big : bool) (off toread nread : Z) (acc : list Z) : MT (list Z) :=
  if toread <=? 0 then ret acc
  else match fuel with
       | O => diverge
       | S fuel =>
           let bs := Z.min toread 1024 in
           let* l := on_fd (fullread (20 + 4 * (nread + off)) (4 * bs)) in
           ReadTags_swap fuel big off (toread - zlen l / 4) (nread + zlen l / 4)
             (acc ++ (bswap 4 <$> load_tags big (Z.to_nat bs) l))
       end.

(** [WriteTags( buf, off, n )] of the whole buffer: how many were written *)
Definition TF_WriteTags (buf : list Z) (off : Z) : MT Z :=
  let* t := get in
  if negb (isOpen t) then fail EBADF
  else if negb (Bool.eqb (machineIsBige_ t) (fileIsBige_ t)) then
    WriteTags_swap (length buf) (machineIsBige_ t) buf off 0 ;;; ret (zlen buf)
  else
    let* nwritten := on_fd (fullwrite (20 + 4 * off) (store_tags (machineIsBige_ t) buf)) in
    ret (nwritten / 4).

(** [ReadTags( buf, off, n )]: the tags that were read *)
Definition TF_ReadTags (off n : Z) : MT (list Z) :=
  let* t := get in
  if negb (isOpen t) then fail EBADF
  else if negb (Bool.eqb (machineIsBige_ t) (fileIsBige_ t)) then
    ReadTags_swap (Z.to_nat n) (machineIsBige_ t) off n 0 []
  else
    let* l := on_fd (fullread (20 + 4 * off) (4 * n)) in
    ret (load_tags (machineIsBige_ t) (Z.to_nat n) l).

(** What the magic number at the start says of the byte order of the file. *)
Definition file_order (big : bool) (header : list Z) : option bool :=
  let magic := load_int big (take 4 header) in
  if magic =? cmagic_ then Some big
  else if magic =? bswap 4 cmagic_ then Some (negb big)
  else None.

(** [Open( path, dsize, Oflag, Env )] after the file itself was opened *)
Definition TF_Open (dsize : Z) : MT unit :=
  set_isOpen true ;;;
  let big := negb (is_little mach) in
  set_machineIsBige big ;;;
  let opened :=
    let* mread := catch (on_fd (fullread 0 20)) in
    (match match mread with inl h => file_order big h | inr _ => None end, mread with
     | Some fbig, inl header =>
         set_fileIsBige fbig ;;;
         let conv n z := if negb (Bool.eqb fbig big) then bswap n z else z in
         set_trackinglen (i64 (conv 8%nat (load_int big (slice 4 8 header)))) ;;;
         set_hflags (conv 4%nat (load_int big (slice 12 4 header))) ;;;
         let* cv := lift (Calc32C mach header 16 0) in
         if conv 4%nat (load_int big (slice 16 4 header)) =? cv then ret tt else fail EDOM
     | _, _ =>
         set_fileIsBige big ;;;
         set_hflags (if dsize =? 0 then csVer else 0) ;;;
         set_trackinglen 0 ;;;
         MarshallAndWriteHeader
     end) ;;;
    TF_ResetSizes dsize in
  let* r := catch opened in
  match r with
  | inl _ => ret tt
  | inr e => set_isOpen false ;;; fail e
  end.

(** [Close()] *)
Definition TF_Close : MT unit :=
  let* t := get in
  if negb (isOpen t) then fail EBADF else set_isOpen false.

End TagstoreFile.

#[export] Instance TagstoreFile_store (mach : machine) : Tagstore XrdOssCsiTagstoreFile := {
  WriteTags := TF_WriteTags;
  ReadTags := TF_ReadTags;
  GetTrackedTagSize := TF_GetTrackedTagSize;
  GetTrackedDataSize := TF_GetTrackedDataSize;
  IsVerified := TF_IsVerified;
  SetTrackedSize := TF_SetTrackedSize mach;
  SetUnverified := TF_SetUnverified mach;
  ResetSizes := TF_ResetSizes mach;
  Truncate := TF_Truncate mach }.

(** ** Bytes of a file *)

Lemma length_write_at off buf l : buf <> [] ->
  length (write_at off buf l) = Nat.max (length l) (Z.to_nat off + length buf).
Proof.
  intros Hb. destruct buf as [|b buf]; [done|]. cbn [write_at]. rewrite !length_app, length_drop, length_take, length_app, length_replicate.
  lia.
Qed.

Lemma lookup_write_at_inside off buf l i : (Z.to_nat off <= i < Z.to_nat off + length buf)%nat ->
  write_at off buf l !! i = buf !! (i - Z.to_nat off)%nat.
Proof.
  intros Hi. destruct buf as [|b buf]; [cbn in Hi; lia|]. cbn [write_at].
  set (o := Z.to_nat off) in *. assert (length (take o (l ++ replicate (o - length l) 0)) = o) as Ho.
  { rewrite length_take, length_app, length_replicate. lia. }
  rewrite lookup_app_r by lia. rewrite Ho, lookup_app_l by lia. done.
Qed.

Lemma lookup_write_at_below off buf l i : (i < Z.to_nat off)%nat -> (i < length l)%nat -> write_at off buf l !! i = l !! i.
Proof.
  intros Hi Hl. destruct buf as [|b buf]; [done|]. cbn [write_at]. set (o := Z.to_nat off) in *.
  rewrite lookup_app_l by (rewrite length_take, length_app, length_replicate; lia).
  rewrite lookup_take_lt, lookup_app_l by lia. done.
Qed.

Lemma lookup_write_at_gap off buf l i : buf <> [] -> (length l <= i < Z.to_nat off)%nat -> write_at off buf l !! i = Some 0.
Proof.
  intros Hb Hi. destruct buf as [|b buf]; [done|]. cbn [write_at]. set (o := Z.to_nat off) in *.
  rewrite lookup_app_l by (rewrite length_take, length_app, length_replicate; lia).
  rewrite lookup_take_lt, lookup_app_r by lia. apply lookup_replicate. lia.
Qed.

Lemma lookup_write_at_above off buf l i : (Z.to_nat off + length buf <= i)%nat -> buf <> [] -> write_at off buf l !! i = l !! i.
Proof.
  intros Hi Hb. destruct buf as [|b buf]; [done|]. cbn [write_at].
  set (o := Z.to_nat off) in *. assert (length (take o (l ++ replicate (o - length l) 0)) = o) as Ho.
  { rewrite length_take, length_app, length_replicate. lia. }
  rewrite lookup_app_r by lia. rewrite Ho, lookup_app_r by lia. rewrite lookup_drop. f_equal. lia.
Qed.

(** What a byte is after a write. *)
Lemma lookup_write_at off buf l i : buf <> [] ->
  write_at off buf l !! i =
    if decide (i < Z.to_nat off)%nat then (if decide (i < length l)%nat then l !! i else Some 0)
    else if decide (i < Z.to_nat off + length buf)%nat then buf !! (i - Z.to_nat off)%nat else l !! i.
Proof.
  intros Hb. destruct (decide _); [destruct (decide _)|destruct (decide _)].
  - by apply lookup_write_at_below.
  - apply lookup_write_at_gap; [done|lia].
  - apply lookup_write_at_inside; lia.
  - apply lookup_write_at_above; [lia|done].
Qed.

Lemma write_at_app off a b l : 0 <= off -> write_at (off + zlen a) b (write_at off a l) = write_at off (a ++ b) l.
Proof.
  intros Ho. destruct a as [|x a]; [by rewrite Z.add_0_r|]. destruct b as [|y b]; [by rewrite app_nil_r|].
  set (p := x :: a). set (q := y :: b). assert (p <> []) by done. assert (q <> []) by done.
  apply list_eq. intros i. rewrite lookup_write_at by done.
  rewrite (lookup_write_at off (p ++ q)) by (intros [? ?]%app_eq_nil; done).
  rewrite length_write_at, length_app by done. unfold zlen. rewrite Z2Nat.inj_add, Nat2Z.id by lia.
  rewrite lookup_write_at by done. repeat (case_decide; try lia); try done.
  all: rewrite ?lookup_app_l, ?lookup_app_r by lia; f_equal; lia.
Qed.

Lemma Forall_write_at P off buf l : P 0 -> Forall P buf -> Forall P l -> Forall P (write_at off buf l).
Proof.
  intros H0 Hb Hl. destruct buf; [done|]. cbn [write_at]. apply Forall_app_2; [|apply Forall_app_2; [done|by apply Forall_drop]].
  apply Forall_take, Forall_app_2; [done|]. by apply Forall_replicate.
Qed.

Lemma zlen_slice off n l : 0 <= off -> 0 <= n -> zlen (slice off n l) = Z.min n (Z.max 0 (zlen l - off)).
Proof. intros. unfold slice, zlen. rewrite length_take, length_drop. lia. Qed.

Lemma lookup_slice off n l i : (i < Z.to_nat n)%nat -> slice off n l !! i = l !! (Z.to_nat off + i)%nat.
Proof. intros. unfold slice. rewrite lookup_take_lt, lookup_drop by done. done. Qed.

Lemma lookup_slice_all off n l i : slice off n l !! i = if decide (i < Z.to_nat n)%nat then l !! (Z.to_nat off + i)%nat else None.
Proof.
  destruct (decide _); [by apply lookup_slice|]. unfold slice. apply lookup_take_ge. lia.
Qed.

(** Parts of a file after a write: before it, after it, in it, and in the gap it leaves. *)
Lemma slice_write_below a k off buf l : 0 <= a -> 0 <= off -> a + k <= off -> a + k <= zlen l ->
  slice a k (write_at off buf l) = slice a k l.
Proof.
  intros Ha Ho Hk Hl. apply list_eq. intros i. rewrite !lookup_slice_all. case_decide; [|done].
  unfold zlen in *. apply lookup_write_at_below; lia.
Qed.

Lemma slice_write_above a k off buf l : 0 <= off -> off + zlen buf <= a -> slice a k (write_at off buf l) = slice a k l.
Proof.
  intros Ho Ha. destruct buf as [|x buf]; [done|]. apply list_eq. intros i. rewrite !lookup_slice_all. case_decide; [|done].
  apply lookup_write_at_above; [unfold zlen in *; lia|done].
Qed.

Lemma slice_write_inside a k off buf l : 0 <= off <= a -> a + k <= off + zlen buf ->
  slice a k (write_at off buf l) = slice (a - off) k buf.
Proof.
  intros Ho Hk. apply list_eq. intros i. rewrite !lookup_slice_all. case_decide; [|done].
  unfold zlen in *. rewrite lookup_write_at_inside by lia. f_equal. lia.
Qed.

Lemma slice_write_gap a k off buf l : buf <> [] -> zlen l <= a -> 0 <= a -> 0 <= k -> a + k <= off ->
  slice a k (write_at off buf l) = replicate (Z.to_nat k) 0.
Proof.
  intros Hb Hl Ha Hk Ho. apply list_eq. intros i. rewrite lookup_slice_all. unfold zlen in *. case_decide.
  - rewrite lookup_write_at_gap by (done || lia). symmetry. by apply lookup_replicate.
  - symmetry. apply lookup_replicate_None. lia.
Qed.

Lemma zlen_write_at off buf l : 0 <= off -> buf <> [] -> zlen (write_at off buf l) = Z.max (zlen l) (off + zlen buf).
Proof. intros Ho Hb. unfold zlen. rewrite length_write_at by done. lia. Qed.

(** ** Calls that fail and calls that do not *)

(** No call will fail; reads and writes may still be short. *)
Definition quiet (f : file) : Prop := Forall (fun a => match a with Err _ => False | _ => True end) (answers f).

Lemma next_answer_quiet f a f' : next_answer f = (a, f') ->
  content f' = content f /\ (quiet f -> quiet f' /\ match a with Err _ => False | _ => True end).
Proof.
  unfold next_answer. destruct (answers f) as [|b l] eqn:Ha; intros [= <- <-]; [done|].
  split; [done|]. unfold quiet. rewrite Ha. intros [? ?]%Forall_cons. done.
Qed.

(** What a system call gives: the state of the file and either a value or an error. *)
Definition gives {A} (f : file) (m : M file A) (post : A -> list Z -> Prop) (err : list Z -> Prop) : Prop :=
  exists r f', m f = Ok (r, f') /\ (quiet f -> quiet f') /\
    match r with
    | inl a => post a (content f')
    | inr e => e < 0 /\ ~ quiet f /\ err (content f')
    end.

Lemma df_Read_gives f off n : 0 <= off -> 0 < n ->
  gives f (df_Read off n) (fun l c => c = content f /\ exists k, 0 < k <= n /\ l = slice off k c) (fun c => c = content f).
Proof.
  intros Ho Hn. unfold gives, df_Read. destruct (next_answer f) as [a f'] eqn:Ha.
  destruct (next_answer_quiet f a f' Ha) as [Hc Hq]. destruct a as [|k|e]; eexists _, f'; (split; [done|]); (split; [tauto|]).
  - split; [done|]. by exists n.
  - split; [done|]. exists (Z.min (Z.pos k) n). split; [lia|done].
  - split; [lia|]. split; [tauto|done].
Qed.

Lemma df_Write_gives f off buf : buf <> [] -> 0 <= off ->
  gives f (df_Write buf off) (fun n c => 0 < n <= zlen buf /\ c = write_at off (take (Z.to_nat n) buf) (content f)) (fun c => c = content f).
Proof.
  intros Hb Ho. assert (0 < zlen buf) by (destruct buf; [done|solve_len]).
  unfold gives, df_Write. destruct (next_answer f) as [a f'] eqn:Ha.
  destruct (next_answer_quiet f a f' Ha) as [Hc Hq]. destruct a as [|k|e].
  - eexists _, _. split; [done|]. split; [tauto|]. cbn. rewrite Hc. split; [lia|done].
  - eexists _, _. split; [done|]. split; [tauto|]. cbn. rewrite Hc. split; [lia|done].
  - exists (inr (Zneg e)), f'. split; [done|]. split; [tauto|]. split; [lia|]. split; [tauto|done].
Qed.

Lemma slice_nil off n l : 0 <= off -> 0 < n -> slice off n l = [] -> zlen l <= off.
Proof. intros Ho Hn Hs. apply (f_equal zlen) in Hs. rewrite zlen_slice in Hs by lia. change (zlen (@nil Z)) with 0 in Hs. lia. Qed.

Lemma slice_short off n l : 0 <= off -> zlen l <= off -> slice off n l = [].
Proof. intros Ho Hl. unfold slice, zlen in *. rewrite drop_ge by lia. by destruct (Z.to_nat n). Qed.

Lemma slice_clip off n l : 0 <= off -> 0 <= n -> zlen l - off <= n -> slice off n l = slice off (Z.max 0 (zlen l - off)) l.
Proof.
  intros Ho Hn Hl. destruct (Z.le_gt_cases (zlen l) off).
  - rewrite Z.max_l by lia. by rewrite slice_short.
  - unfold slice, zlen in *. rewrite take_ge, take_ge; [done|rewrite length_drop; lia..].
Qed.

(** Reading until the end is reached reads what is there. *)
Lemma fullread_loop_gives fuel : forall f off toread acc, 0 <= off -> 0 <= toread <= Z.of_nat fuel ->
  gives f (fullread_loop fuel off toread acc) (fun l c => c = content f /\ l = acc ++ slice off toread c) (fun c => c = content f).
Proof.
  induction fuel as [|fuel IH]; intros f off toread acc Ho Ht; cbn [fullread_loop].
  - rewrite (proj2 (Z.leb_le toread 0)) by lia. replace toread with 0 by lia.
    exists (inl acc), f. split; [done|]. split; [done|]. by rewrite slice_0, app_nil_r.
  - destruct (Z.leb_spec toread 0).
    { replace toread with 0 by lia. exists (inl acc), f. split; [done|]. split; [done|]. by rewrite slice_0, app_nil_r. }
    destruct (df_Read_gives f off toread Ho) as (r & f1 & Hr & Hq & Hp); [lia|].
    unfold gives, bind at 1. rewrite Hr. destruct r as [p|e].
    + destruct Hp as [Hc (k & Hk & ->)]. destruct (Z.eqb_spec (zlen (slice off k (content f1))) 0) as [Hz|Hz].
      * apply zlen_zero_nil in Hz. exists (inl acc), f1. split; [done|]. split; [done|]. split; [done|].
        apply slice_nil in Hz; [|lia..]. by rewrite slice_short, app_nil_r.
      * rewrite zlen_slice in Hz |- * by lia. set (n := Z.min k _) in *.
        assert (0 < n <= toread) by lia.
        destruct (IH f1 (off + n) (toread - n) (acc ++ slice off k (content f1))) as (r2 & f2 & Hr2 & Hq2 & Hp2); [lia..|].
        exists r2, f2. split; [exact Hr2|]. split; [tauto|]. rewrite Hc in Hp2. destruct r2 as [l|e].
        -- destruct Hp2 as [Hc2 ->]. split; [done|]. rewrite Hc2, <- app_assoc. f_equal.
           assert (slice off k (content f) = slice off n (content f)) as ->.
           { unfold n. rewrite Hc. destruct (Z.min_spec k (Z.max 0 (zlen (content f) - off))) as [[? ->]|[? ->]]; [done|].
             by rewrite slice_clip by lia. }
           rewrite <- slice_add by lia. f_equal. lia.
        -- destruct Hp2 as (He & Hnq & Hc2). split; [done|]. split; [tauto|done].
    + destruct Hp as (He & Hnq & Hc). exists (inr e), f1. done.
Qed.

Lemma fullread_spec f off sz : 0 <= off -> 0 <= sz ->
  exists r f', fullread off sz f = Ok (r, f') /\ content f' = content f /\ (quiet f -> quiet f') /\
    match r with
    | inl l => l = slice off sz (content f) /\ zlen l = sz
    | inr e => e < 0 /\ (quiet f -> zlen (content f) < off + sz)
    end.
Proof.
  intros Ho Hs. destruct (fullread_loop_gives (Z.to_nat sz) f off sz [] Ho) as (r & f' & Hr & Hq & Hp); [lia|].
  unfold fullread, bind. rewrite Hr. destruct r as [l|e].
  - destruct Hp as [Hc ->]. cbn [app]. rewrite Hc. rewrite zlen_slice by lia.
    destruct (Z.eqb_spec (Z.min sz (Z.max 0 (zlen (content f) - off))) sz) as [He|He].
    + eexists _, f'. split; [done|]. split; [done|]. split; [done|]. split; [done|]. by rewrite zlen_slice.
    + eexists _, f'. split; [done|]. split; [done|]. split; [done|]. split; [done|]. lia.
  - destruct Hp as (He & Hnq & Hc). exists (inr e), f'. done.
Qed.

(** Writing until all is written writes all, or a part of it before an error. *)
Lemma fullwrite_loop_gives fuel : forall f off buf k, (length buf <= fuel)%nat -> 0 <= off ->
  gives f (fullwrite_loop fuel off buf k) (fun n c => n = k + zlen buf /\ c = write_at off buf (content f))
    (fun c => exists j, 0 <= j <= zlen buf /\ c = write_at off (take (Z.to_nat j) buf) (content f)).
Proof.
  induction fuel as [|fuel IH]; intros f off buf k Hl Ho; cbn [fullwrite_loop].
  - destruct buf; [|cbn in Hl; lia]. eexists (inl k), f. split; [done|]. split; [done|]. split; [|done]. rewrite zlen_nil. lia.
  - destruct (Z.eqb_spec (zlen buf) 0) as [Hz|Hz].
    { apply zlen_zero_nil in Hz as ->. eexists (inl k), f. split; [done|]. split; [done|]. split; [|done]. rewrite zlen_nil. lia. }
    assert (buf <> []) as Hb by (intros ->; done).
    destruct (df_Write_gives f off buf Hb Ho) as (r & f1 & Hr & Hq & Hp).
    unfold gives, bind at 1. rewrite Hr. destruct r as [n|e].
    + destruct Hp as [Hn Hc].
      destruct (IH f1 (off + n) (adv n buf) (k + n)) as (r2 & f2 & Hr2 & Hq2 & Hp2);
        [unfold adv; rewrite length_drop; lia|lia|].
      assert (zlen (take (Z.to_nat n) buf) = n) as Htn by (unfold zlen in *; rewrite length_take; lia).
      assert (forall l, write_at (off + n) l (content f1) = write_at off (take (Z.to_nat n) buf ++ l) (content f)) as Hw.
      { intros l. rewrite Hc, <- write_at_app by done. by rewrite Htn. }
      exists r2, f2. split; [exact Hr2|]. split; [tauto|]. destruct r2 as [m|e].
      * destruct Hp2 as [-> ->]. rewrite zlen_adv by lia. split; [lia|]. rewrite Hw. unfold adv. by rewrite take_drop.
      * destruct Hp2 as (He & Hnq & (j & Hj & ->)). rewrite zlen_adv in Hj by lia. split; [done|]. split; [tauto|].
        exists (n + j). split; [lia|]. rewrite Hw. f_equal. unfold adv. rewrite take_take_drop. f_equal. lia.
    + destruct Hp as (He & Hnq & Hc). exists (inr e), f1. split; [done|]. split; [done|]. split; [done|]. split; [done|].
      exists 0. split; [pose proof (zlen_nonneg buf); lia|done].
Qed.

Lemma fullwrite_spec f off buf : 0 <= off ->
  gives f (fullwrite off buf) (fun n c => n = zlen buf /\ c = write_at off buf (content f))
    (fun c => exists j, 0 <= j <= zlen buf /\ c = write_at off (take (Z.to_nat j) buf) (content f)).
Proof. intros Ho. apply fullwrite_loop_gives; [done|done]. Qed.

(** ** Integers in memory *)

Lemma length_store_int big n z : length (store_int big n z) = n.
Proof. unfold store_int. destruct big; rewrite ?length_rev; apply length_enc. Qed.

Lemma store_int_bytes big n z : Forall is_byte (store_int big n z).
Proof. unfold store_int. destruct big; [apply Forall_rev|]; apply enc_bytes. Qed.

Lemma enc_of_bytes l : Forall is_byte l -> enc (length l) (little_endian_to_Z 8 l) = l.
Proof.
  intros Hl. Transparent enc. unfold enc. Opaque enc. by apply Z_to_little_endian_to_Z.
Qed.

Lemma le_range l : Forall is_byte l -> 0 <= little_endian_to_Z 8 l < 2 ^ (8 * zlen l).
Proof.
  intros Hl. unfold zlen. rewrite (Z.mul_comm 8). apply little_endian_to_Z_bound; [lia|done].
Qed.

Lemma load_store big n z : 0 <= z < 2 ^ (8 * Z.of_nat n) -> load_int big (store_int big n z) = z.
Proof. intros Hz. unfold load_int, store_int. destruct big; rewrite ?rev_involutive; by apply enc_decode. Qed.

(** A swapped integer is one of the other byte order. *)
Lemma store_bswap big n z : store_int big n (bswap n z) = store_int (negb big) n z.
Proof.
  unfold bswap, store_int.
  assert (enc n (little_endian_to_Z 8 (rev (enc n z))) = rev (enc n z)) as H.
  { pose proof (enc_of_bytes (rev (enc n z)) (Forall_rev (enc_bytes n z))) as H. by rewrite length_rev, length_enc in H. }
  destruct big; cbn [negb]; rewrite H; [apply rev_involutive|done].
Qed.

Lemma bswap_load big l : Forall is_byte l -> bswap (length l) (load_int big l) = load_int (negb big) l.
Proof.
  intros Hl. unfold bswap, load_int. destruct big; cbn [negb].
  - pose proof (enc_of_bytes (rev l) (Forall_rev Hl)) as H. rewrite length_rev in H. by rewrite H, rev_involutive.
  - by rewrite enc_of_bytes.
Qed.

(** Either way of writing a tag stores it in the order of the file. *)
Lemma store_tags_swap big buf : store_tags big (bswap 4 <$> buf) = store_tags (negb big) buf.
Proof.
  unfold store_tags. rewrite <- list_fmap_compose. f_equal. apply list_fmap_ext. intros _ z _. apply store_bswap.
Qed.

Lemma zlen_store_tags big buf : zlen (store_tags big buf) = 4 * zlen buf.
Proof.
  induction buf as [|z buf IH]; [done|]. change (store_tags big (z :: buf)) with (store_int big 4 z ++ store_tags big buf).
  rewrite zlen_app, zlen_cons, IH. unfold zlen at 1. rewrite length_store_int. lia.
Qed.

Lemma store_tags_bytes big buf : Forall is_byte (store_tags big buf).
Proof.
  induction buf as [|z buf IH]; [constructor|]. apply Forall_app_2; [apply store_int_bytes|exact IH].
Qed.

Lemma slice_store_tag big buf (i : nat) z : buf !! i = Some z -> slice (4 * Z.of_nat i) 4 (store_tags big buf) = store_int big 4 z.
Proof.
  revert i. induction buf as [|x buf IH]; intros [|i] Hi; try done.
  - injection Hi as ->. unfold slice. cbn [Z.mul Z.of_nat Z.to_nat]. rewrite drop_0.
    change (Z.to_nat 4) with 4%nat. rewrite <- (length_store_int big 4 z) at 1. apply take_app_length.
  - apply IH in Hi. rewrite <- Hi. unfold slice. f_equal.
    replace (Z.to_nat (4 * Z.of_nat (S i))) with (length (store_int big 4 x) + Z.to_nat (4 * Z.of_nat i))%nat
      by (rewrite length_store_int; lia).
    apply drop_app_add.
Qed.

Lemma length_load_tags big n l : length (load_tags big n l) = n.
Proof. revert l. induction n; intros l; cbn; auto. Qed.

Lemma lookup_load_tags big n l i : (i < n)%nat -> load_tags big n l !! i = Some (load_int big (take 4 (drop (4 * i) l))).
Proof.
  revert l i. induction n as [|n IH]; intros l [|i] Hi; try lia; [done|]. cbn [load_tags lookup list_lookup].
  rewrite IH by lia. rewrite drop_drop. do 4 f_equal. lia.
Qed.

Lemma load_tags_swap big n l : Forall is_byte l -> (4 * n <= length l)%nat -> bswap 4 <$> load_tags big n l = load_tags (negb big) n l.
Proof.
  revert l. induction n as [|n IH]; intros l Hl Hn; [done|]. cbn [load_tags fmap list_fmap]. rewrite IH.
  - f_equal. pose proof (bswap_load big (take 4 l) (Forall_take _ 4 l Hl)) as H. rewrite length_take, Nat.min_l in H by lia. done.
  - by apply Forall_drop.
  - rewrite length_drop. lia.
Qed.

(** ** The tags in the bytes of a file *)

Definition ntags (c : list Z) : Z := (zlen c - 20) / 4.
Definition file_tags (big : bool) (c : list Z) : list Z := load_tags big (Z.to_nat (ntags c)) (drop 20 c).

Lemma lookup_file_tags big c (i : nat) : Z.of_nat i < ntags c ->
  file_tags big c !! i = Some (load_int big (slice (20 + 4 * Z.of_nat i) 4 c)).
Proof.
  intros Hi. unfold file_tags. rewrite lookup_load_tags by lia. unfold slice. rewrite drop_drop. do 4 f_equal. lia.
Qed.

Lemma zlen_file_tags big c : zlen (file_tags big c) = Z.max 0 (ntags c).
Proof. unfold file_tags, zlen. rewrite length_load_tags. lia. Qed.

Lemma load_slice_tags big c off n : 0 <= off -> 0 <= n -> 20 + 4 * (off + n) <= zlen c ->
  load_tags big (Z.to_nat n) (slice (20 + 4 * off) (4 * n) c) = slice off n (file_tags big c).
Proof.
  intros Ho Hn Hc. assert (off + n <= ntags c) by (unfold ntags; lia_div).
  apply list_eq. intros i. rewrite lookup_slice_all. case_decide as Hi.
  - rewrite lookup_load_tags, lookup_file_tags by lia. do 2 f_equal. unfold slice. rewrite skipn_firstn_comm, drop_drop, firstn_firstn.
    f_equal; [lia|]. f_equal. lia.
  - apply lookup_ge_None. rewrite length_load_tags. lia.
Qed.

Lemma tags_after_write big c off buf : 0 <= off <= zlen (file_tags big c) -> 20 <= zlen c -> Forall word buf ->
  file_tags big (write_at (20 + 4 * off) (store_tags big buf) c) = write_at off buf (file_tags big c).
Proof.
  intros Ho Hc Hw. destruct buf as [|x buf]; [done|]. set (b := x :: buf) in *.
  assert (store_tags big b <> []) as Hs. { intros H. pose proof (zlen_store_tags big b) as Hl. rewrite H in Hl. subst b. solve_len. }
  rewrite zlen_file_tags in Ho.
  assert (0 <= ntags c) by (unfold ntags; lia_div).
  assert (ntags (write_at (20 + 4 * off) (store_tags big b) c) = Z.max (ntags c) (off + zlen b)) as Hn.
  { unfold ntags in *. rewrite zlen_write_at, zlen_store_tags by (done || lia). lia_div. }
  apply list_eq. intros i. destruct (decide (Z.of_nat i < Z.max (ntags c) (off + zlen b))) as [Hi|Hi].
  - rewrite lookup_file_tags by lia. rewrite lookup_write_at by done.
    assert (length (file_tags big c) = Z.to_nat (ntags c)) as Hlt by apply length_load_tags.
    case_decide as Hd; [|case_decide as He].
    + rewrite decide_True by lia. rewrite lookup_file_tags by lia. do 2 f_equal.
      apply slice_write_below; [lia..|unfold ntags in *; lia_div].
    + unfold zlen in *. rewrite slice_write_inside by (rewrite ?zlen_store_tags; unfold zlen; lia).
      replace (20 + 4 * Z.of_nat i - (20 + 4 * off)) with (4 * Z.of_nat (i - Z.to_nat off)) by lia.
      destruct (lookup_lt_is_Some_2 b (i - Z.to_nat off)) as [z Hz]; [lia|].
      rewrite (slice_store_tag _ _ _ z Hz), Hz, load_store; [done|]. apply (Forall_lookup_1 _ _ _ _ Hw Hz).
    + rewrite lookup_file_tags by (unfold zlen in *; lia). do 2 f_equal.
      apply slice_write_above; [lia|]. rewrite zlen_store_tags. unfold zlen in *. lia.
  - rewrite !lookup_ge_None_2; [done|..]; apply Nat2Z.inj_le.
    + rewrite length_write_at by done. unfold file_tags. rewrite length_load_tags. unfold zlen in *. lia.
    + unfold file_tags. rewrite length_load_tags. lia.
Qed.

(** A write at any place keeps the tags outside of it. *)
Lemma tags_kept big c off buf (i : nat) : 0 <= off -> 20 <= zlen c -> Z.of_nat i < ntags c ->
  20 + 4 * Z.of_nat i + 4 <= off \/ off + zlen buf <= 20 + 4 * Z.of_nat i ->
  file_tags big (write_at off buf c) !! i = file_tags big c !! i.
Proof.
  intros Ho Hc Hi Hd. assert (zlen c <= zlen (write_at off buf c)) as Hl.
  { destruct buf; [done|]. rewrite zlen_write_at by done. lia. }
  assert (ntags c <= ntags (write_at off buf c)) by (unfold ntags; lia_div).
  rewrite !lookup_file_tags by lia. do 2 f_equal. destruct Hd.
  - apply slice_write_below; [lia..|unfold ntags in Hi; lia_div].
  - by apply slice_write_above.
Qed.

(** *** Resizing *)

Lemma zlen_resize n l : 0 <= n -> zlen (resize_to n l) = n.
Proof. intros. unfold resize_to, zlen. rewrite length_app, length_take, length_replicate. lia. Qed.

Lemma resize_bytes n l : Forall is_byte l -> Forall is_byte (resize_to n l).
Proof. intros. apply Forall_app_2; [by apply Forall_take|by apply Forall_replicate]. Qed.

Lemma slice_resize off k n l : 0 <= off -> off + k <= n -> off + k <= zlen l -> slice off k (resize_to n l) = slice off k l.
Proof.
  intros Ho Hn Hl. apply list_eq. intros i. rewrite !lookup_slice_all. case_decide; [|done]. unfold resize_to, zlen in *.
  rewrite lookup_app_l by (rewrite length_take; lia). apply lookup_take_lt. lia.
Qed.

Lemma df_Ftruncate_gives f n : gives f (df_Ftruncate n) (fun _ c => c = resize_to n (content f)) (fun c => c = content f).
Proof.
  unfold gives, df_Ftruncate. destruct (next_answer f) as [a f'] eqn:Ha.
  destruct (next_answer_quiet f a f' Ha) as [Hc Hq]. destruct a as [|k|e].
  - eexists _, _. split; [done|]. split; [tauto|]. cbn. by rewrite Hc.
  - eexists _, _. split; [done|]. split; [tauto|]. cbn. by rewrite Hc.
  - exists (inr (Zneg e)), f'. split; [done|]. split; [tauto|]. split; [lia|]. split; [tauto|done].
Qed.

Lemma df_Fstat_gives f : gives f df_Fstat (fun n c => n = zlen (content f) /\ c = content f) (fun c => c = content f).
Proof.
  unfold gives, df_Fstat. destruct (next_answer f) as [a f'] eqn:Ha.
  destruct (next_answer_quiet f a f' Ha) as [Hc Hq]. destruct a as [|k|e].
  - eexists _, _. split; [done|]. split; [tauto|]. cbn. by rewrite Hc.
  - eexists _, _. split; [done|]. split; [tauto|]. cbn. by rewrite Hc.
  - exists (inr (Zneg e)), f'. split; [done|]. split; [tauto|]. split; [lia|]. split; [tauto|done].
Qed.

(** ** What a store of tags promises *)

(** A routine returns: its result and the new state satisfy [post]. *)
Definition returns {S A} (m : M S A) (s : S) (post : A + Z -> S -> Prop) : Prop :=
  exists r s', m s = Ok (r, s') /\ post r s'.

Lemma returns_bind {S A B} (m : M S A) (f : A -> M S B) s (mid : A + Z -> S -> Prop) (post : B + Z -> S -> Prop) :
  returns m s mid -> (forall a s', mid (inl a) s' -> returns (f a) s' post) -> (forall e s', mid (inr e) s' -> post (inr e) s') ->
  returns (bind m f) s post.
Proof.
  intros (r & s' & Hm & Hmid) Hf He. unfold returns, bind. rewrite Hm. destruct r as [a|e].
  - destruct (Hf a s' Hmid) as (r & s2 & Hr & Hp). by exists r, s2.
  - exists (inr e), s'. auto.
Qed.

Lemma returns_impl {S A} (m : M S A) s (p q : A + Z -> S -> Prop) :
  returns m s p -> (forall r s', p r s' -> q r s') -> returns m s q.
Proof. intros (r & s' & Hm & Hp) Hpq. exists r, s'. auto. Qed.

Lemma returns_ret {S A} (a : A) (s : S) (post : A + Z -> S -> Prop) : post (inl a) s -> returns (ret a) s post.
Proof. intros Hp. by exists (inl a), s. Qed.

Lemma returns_fail {S A} e (s : S) (post : A + Z -> S -> Prop) : post (inr e) s -> returns (fail e) s post.
Proof. intros Hp. by exists (inr e), s. Qed.

Lemma returns_lift {S A} (r : res A) a (s : S) (post : A + Z -> S -> Prop) : r = Ok a -> post (inl a) s -> returns (lift r) s post.
Proof. intros -> Hp. by exists (inl a), s. Qed.

Lemma returns_catch {S A} (m : M S A) (s : S) (post : (A + Z) + Z -> S -> Prop) :
  returns m s (fun r s' => post (inl r) s') -> returns (catch m) s post.
Proof. intros (r & s' & Hm & Hp). unfold returns, catch. rewrite Hm. by exists (inl r), s'. Qed.

(** The contract: [tags] are the tags of the pages in order, [store_ok] an invariant,
    and [calm] says that nothing will fail. Whatever fails, a call returns, what is read
    are the tags, and a write touches the tags it is given only. *)
Class TagstoreLaws (T : Type) `{Tagstore T} := {
  tags : T -> list Z;
  store_ok : T -> Prop;
  calm : T -> Prop;
  ReadTags_law t off n : store_ok t -> 0 <= off -> 0 < n ->
    returns (ReadTags off n) t (fun r t' => store_ok t' /\ (calm t -> calm t') /\ tags t' = tags t /\
      GetTrackedTagSize t' = GetTrackedTagSize t /\ GetTrackedDataSize t' = GetTrackedDataSize t /\ IsVerified t' = IsVerified t /\
      match r with
      | inl l => l = slice off n (tags t) /\ zlen l = n
      | inr e => e < 0 /\ (calm t -> zlen (tags t) < off + n)
      end);
  WriteTags_law t off buf : store_ok t -> 0 <= off -> buf <> [] -> Forall word buf ->
    returns (WriteTags buf off) t (fun r t' => store_ok t' /\ (calm t -> calm t') /\
      GetTrackedTagSize t' = GetTrackedTagSize t /\ GetTrackedDataSize t' = GetTrackedDataSize t /\ IsVerified t' = IsVerified t /\
      (forall i : nat, (i < length (tags t))%nat -> Z.of_nat i < off \/ off + zlen buf <= Z.of_nat i -> tags t' !! i = tags t !! i) /\
      match r with
      | inl n => n = zlen buf /\ (off <= zlen (tags t) -> tags t' = write_at off buf (tags t))
      | inr e => e < 0 /\ ~ calm t
      end);
  SetTrackedSize_law t n : store_ok t -> 0 <= n ->
    returns (SetTrackedSize n) t (fun r t' => store_ok t' /\ (calm t -> calm t') /\ tags t' = tags t /\
      GetTrackedTagSize t' = n /\ GetTrackedDataSize t' = Z.max (GetTrackedDataSize t) n /\ IsVerified t' = IsVerified t /\
      match r with inl _ => True | inr e => e < 0 /\ ~ calm t end);
  SetUnverified_law t : store_ok t ->
    returns SetUnverified t (fun r t' => store_ok t' /\ (calm t -> calm t') /\ tags t' = tags t /\
      GetTrackedTagSize t' = GetTrackedTagSize t /\ GetTrackedDataSize t' = GetTrackedDataSize t /\ IsVerified t' = false /\
      match r with inl _ => True | inr e => e < 0 /\ ~ calm t end);
  Truncate_law t n datatoo : store_ok t -> 0 <= n ->
    returns (Truncate n datatoo) t (fun r t' => store_ok t' /\ (calm t -> calm t') /\
      match r with
      | inl _ => GetTrackedTagSize t' = n /\ GetTrackedDataSize t' = (if datatoo then n else GetTrackedDataSize t) /\
                 (npages n <= zlen (tags t) -> tags t' = take (Z.to_nat (npages n)) (tags t))
      | inr e => e < 0 /\ ~ calm t
      end);
  ResetSizes_law t n : store_ok t -> 0 <= n ->
    returns (ResetSizes n) t (fun r t' => store_ok t' /\ (calm t -> calm t') /\ tags t' `prefix_of` tags t /\
      GetTrackedDataSize t' = n /\ IsVerified t' = IsVerified t /\
      (zlen (tags t) = npages (GetTrackedTagSize t) ->
         tags t' = tags t /\ GetTrackedTagSize t' = GetTrackedTagSize t) /\
      match r with inl _ => True | inr e => e < 0 /\ ~ calm t end) }.
