(* ===== verification/CsiTagFile.v ===== *)
(** * The tag file keeps its promises

    The store in a file is an instance of the interface of [CsiStore]: whatever system
    calls fail, its routines return, what is read are the tags, and only the tags that are
    to be written change. As long as nothing fails, the header in the file is that of the
    fields in memory, so a tag file that is opened again, on a machine of either byte
    order, has the same tags and sizes. *)

From stdpp Require Import base tactics list_numbers numbers option list.
From S2P Require Import Prelude CrcRegister OucCRC32C CsiCrc CsiStore.
#[local] Set Warnings "-clear-no-such-hyp".
Open Scope csi_scope.

Definition file_store_ok (t : XrdOssCsiTagstoreFile) : Prop :=
  isOpen t = true /\ 20 <= zlen (content (fd_ t)) /\ Forall is_byte (content (fd_ t)) /\ (word (hflags_ t) /\ 0 <= trackinglen_ t).

(** What a system call on the tag file does to the store. *)
Lemma on_fd_gives {A} (m : M file A) t post err : gives (fd_ t) m post err ->
  returns (on_fd m) t (fun r t' => exists f', t' = with_fd f' t /\ (quiet (fd_ t) -> quiet f') /\
    match r with inl a => post a (content f') | inr e => e < 0 /\ ~ quiet (fd_ t) /\ err (content f') end).
Proof.
  intros (r & f' & Hm & Hq & Hp). unfold returns, on_fd, zoom. rewrite Hm. exists r, (with_fd f' t). split; [done|].
  exists f'. done.
Qed.

(** The header of a file in either byte order. *)
Definition header_bytes (big : bool) (tracked flags : Z) : list Z :=
  let h := store_int big 4 cmagic_ ++ store_int big 8 (u64 tracked) ++ store_int big 4 flags in
  h ++ store_int big 4 (checksum h).

Lemma length_header big tracked flags : length (header_bytes big tracked flags) = 20%nat.
Proof. unfold header_bytes. by rewrite !length_app, !length_store_int. Qed.

Lemma header_is_bytes big tracked flags : Forall is_byte (header_bytes big tracked flags).
Proof. unfold header_bytes. repeat apply Forall_app_2; apply store_int_bytes. Qed.

(** An integer converted to the order of the file. *)
Lemma store_conv fbig mbig n z :
  store_int mbig n (if negb (Bool.eqb fbig mbig) then bswap n z else z) = store_int fbig n z.
Proof. destruct fbig, mbig; cbn [Bool.eqb negb]; rewrite ?store_bswap; done. Qed.

Section file_laws.
  Context (mach : machine).

Lemma MarshallAndWriteHeader_spec t : isOpen t = true ->
  returns (MarshallAndWriteHeader mach) t (fun r t' => exists f', t' = with_fd f' t /\ (quiet (fd_ t) -> quiet f') /\
    let h := header_bytes (fileIsBige_ t) (trackinglen_ t) (hflags_ t) in
    match r with
    | inl _ => content f' = write_at 0 h (content (fd_ t))
    | inr e => e < 0 /\ ~ quiet (fd_ t) /\ exists j, content f' = write_at 0 (take j h) (content (fd_ t))
    end).
Proof.
  intros Ho. unfold MarshallAndWriteHeader. eapply returns_bind with (mid := fun r s => r = inl t /\ s = t).
  { by exists (inl t), t. } 2: { intros e s' [? _]. done. }
  intros ? ? [[= ->] ->]. rewrite Ho. cbn [negb]. cbv zeta. rewrite !store_conv.
  set (h := store_int (fileIsBige_ t) 4 cmagic_ ++ _).
  assert (zlen h = 16) as Hh by (unfold h, zlen; by rewrite !length_app, !length_store_int).
  assert (Forall is_byte h) as Hhb by (unfold h; repeat apply Forall_app_2; apply store_int_bytes).
  eapply returns_bind with (mid := fun r s => r = inl (checksum h) /\ s = t). 3: { intros e s' [? _]. done. }
  { eapply returns_lift; [|done]. unfold Calc32C. rewrite crc32c_checksum by (done || lia). by rewrite <- Hh, take_zlen. }
  intros ? ? [[= ->] ->]. rewrite store_conv.
  eapply returns_bind; [apply on_fd_gives, fullwrite_spec; lia| |].
  - intros n t' (f' & -> & Hq & _ & Hc). apply returns_ret. exists f'. done.
  - intros e t' (f' & -> & Hq & He & Hn & (j & _ & Hc)). exists f'. split; [done|]. split; [done|]. split; [done|]. split; [done|].
    by exists (Z.to_nat j).
Qed.

(** Writing in the header keeps the tags and the length. *)
Lemma write_header_keeps big h c : (length h <= 20)%nat -> 20 <= zlen c ->
  file_tags big (write_at 0 h c) = file_tags big c /\ zlen (write_at 0 h c) = zlen c.
Proof.
  intros Hh Hc. assert (zlen (write_at 0 h c) = zlen c) as Hl.
  { destruct h; [done|]. rewrite zlen_write_at by done. unfold zlen in *. lia. }
  split; [|done]. apply list_eq_same_length with (n := length (file_tags big c)); [done| |].
  - unfold file_tags. rewrite !length_load_tags. unfold ntags. by rewrite Hl.
  - intros i x y Hi Hx Hy. assert (Z.of_nat i < ntags c) as Hn by (unfold file_tags in Hi; rewrite length_load_tags in Hi; lia).
    rewrite tags_kept in Hx by (try done; unfold zlen in *; lia). congruence.
Qed.

(** Only the file changes, and the tags in it stay. *)
Definition file_step (t t' : XrdOssCsiTagstoreFile) : Prop := exists f', t' = with_fd f' t /\ file_store_ok t' /\
  (quiet (fd_ t) -> quiet f') /\ zlen (content f') = zlen (content (fd_ t)) /\
  file_tags (fileIsBige_ t) (content f') = file_tags (fileIsBige_ t) (content (fd_ t)).
Definition ok_or_failed {A} (f : file) (r : A + Z) : Prop :=
  match r with inl _ => True | inr e => e < 0 /\ ~ quiet f end.

Lemma header_step t : file_store_ok t ->
  returns (MarshallAndWriteHeader mach) t (fun r t' => file_step t t' /\ ok_or_failed (fd_ t) r).
Proof.
  intros Hok. pose proof Hok as (Ho & Hl & Hb & Hf). eapply returns_impl; [by apply MarshallAndWriteHeader_spec|].
  intros r t' (f' & -> & Hq & Hr). cbv zeta in Hr. set (h := header_bytes _ _ _) in Hr.
  assert (forall k, Forall is_byte k -> (length k <= 20)%nat -> content f' = write_at 0 k (content (fd_ t)) ->
    file_step t (with_fd f' t)) as Hk.
  { intros k Hkb Hkl Hc. destruct (write_header_keeps (fileIsBige_ t) k (content (fd_ t)) Hkl Hl) as [Ht Hlen].
    exists f'. split; [done|]. split; [|by rewrite Hc].
    split; [done|]. cbn [fd_ with_fd hflags_]. rewrite Hc, Hlen. split; [done|]. split; [by apply Forall_write_at|done]. }
  destruct r as [u|e].
  - split; [|done]. apply (Hk h); [apply header_is_bytes|unfold h; by rewrite length_header|done].
  - destruct Hr as (He & Hn & (j & Hc)). split; [|done]. apply (Hk (take j h)); [apply Forall_take, header_is_bytes| |done].
    rewrite length_take. unfold h. rewrite length_header. lia.
Qed.

(** A change of the fields in memory. *)
Definition with_sizes (tl ac fl : Z) (t : XrdOssCsiTagstoreFile) : XrdOssCsiTagstoreFile :=
  MkTagstoreFile (fd_ t) tl ac (isOpen t) (machineIsBige_ t) (fileIsBige_ t) fl.

Lemma with_sizes_ok t tl ac fl : file_store_ok t -> word fl -> 0 <= tl -> file_store_ok (with_sizes tl ac fl t).
Proof. intros (Ho & Hl & Hb & Hf) Hw Htl. done. Qed.

(** The fields in memory are set, the tags stay. *)
Definition sizes_step (tl ac fl : Z) (t t' : XrdOssCsiTagstoreFile) : Prop := file_step (with_sizes tl ac fl t) t'.

Lemma sizes_refl t : file_store_ok t -> sizes_step (trackinglen_ t) (actualsize_ t) (hflags_ t) t t.
Proof. intros Hok. exists (fd_ t). destruct t. done. Qed.

Lemma WriteTrackedTagSize_step t n : file_store_ok t -> 0 <= n ->
  returns (WriteTrackedTagSize mach n) t (fun r t' => sizes_step n (actualsize_ t) (hflags_ t) t t' /\ ok_or_failed (fd_ t) r).
Proof.
  intros Hok Hn. pose proof Hok as (Ho & Hl & Hb & [Hf Htl]). unfold WriteTrackedTagSize.
  assert ((let* t0 := get in if negb (isOpen t0) then fail EBADF else set_trackinglen n;;; MarshallAndWriteHeader mach) t
    = MarshallAndWriteHeader mach (with_sizes n (actualsize_ t) (hflags_ t) t)) as He.
  { unfold bind at 1, get. rewrite Ho. done. }
  unfold returns. rewrite He. exact (header_step _ (with_sizes_ok t n (actualsize_ t) (hflags_ t) Hok Hf Hn)).
Qed.

Lemma SetTrackedSize_step t n : file_store_ok t -> 0 <= n ->
  returns (TF_SetTrackedSize mach n) t (fun r t' =>
    sizes_step n (Z.max (actualsize_ t) n) (hflags_ t) t t' /\ ok_or_failed (fd_ t) r).
Proof.
  intros Hok Hn. pose proof Hok as (Ho & Hl & Hb & [Hf Htl]).
  assert (TF_SetTrackedSize mach n t = (if n =? trackinglen_ t then ret tt else WriteTrackedTagSize mach n)
    (with_sizes (trackinglen_ t) (Z.max (actualsize_ t) n) (hflags_ t) t)) as He.
  { unfold TF_SetTrackedSize, bind at 1, get. rewrite Ho. cbn [negb]. unfold bind.
    destruct (Z.ltb_spec (actualsize_ t) n); [rewrite Z.max_r by lia; done|rewrite Z.max_l by lia; by destruct t]. }
  unfold returns. rewrite He. destruct (Z.eqb_spec n (trackinglen_ t)) as [-> | Hne].
  - eexists (inl tt), _. split; [done|]. split; [|done]. eexists (fd_ t). done.
  - exact (WriteTrackedTagSize_step (with_sizes (trackinglen_ t) (Z.max (actualsize_ t) n) (hflags_ t) t) n
      (with_sizes_ok t _ _ _ Hok Hf Htl) Hn).
Qed.

Lemma ldiff_word a b : word a -> word (Z.ldiff a b).
Proof.
  intros [Ha Hb]. assert (0 <= Z.ldiff a b) as H0 by (apply Z.ldiff_nonneg; lia). split; [done|].
  apply Z.bounded_iff_bits_nonneg; [done..|]. intros l Hl. rewrite Z.ldiff_spec.
  by rewrite (proj1 (Z.bounded_iff_bits_nonneg 32 a ltac:(done) Ha) Hb l Hl).
Qed.

Lemma lor_csVer_word a : word a -> word (Z.lor a csVer).
Proof.
  intros [Ha Hb]. assert (0 <= Z.lor a csVer) as H0 by (apply Z.lor_nonneg; done). split; [done|].
  apply Z.bounded_iff_bits_nonneg; [done..|]. intros l Hl. rewrite Z.lor_spec.
  rewrite (proj1 (Z.bounded_iff_bits_nonneg 32 a ltac:(done) Ha) Hb l Hl). apply Z.bits_above_log2; [done|]. cbn. lia.
Qed.

Lemma SetUnverified_step t : file_store_ok t ->
  returns (TF_SetUnverified mach) t (fun r t' => exists fl, word fl /\ Z.land fl csVer = 0 /\
    sizes_step (trackinglen_ t) (actualsize_ t) fl t t' /\ ok_or_failed (fd_ t) r).
Proof.
  intros Hok. pose proof Hok as (Ho & Hl & Hb & [Hf Htl]).
  unfold returns, TF_SetUnverified, bind at 1, get. rewrite Ho. cbn [negb].
  destruct (Z.eqb_spec (Z.land (hflags_ t) csVer) 0) as [Hz|Hz].
  - eexists (inl tt), t. split; [done|]. exists (hflags_ t). split; [done|]. split; [done|]. split; [by apply sizes_refl|done].
  - destruct (header_step (with_sizes (trackinglen_ t) (actualsize_ t) (Z.ldiff (hflags_ t) csVer) t)) as (r & t' & Hr & Hs & Hf');
      [by apply with_sizes_ok; [|apply ldiff_word|]|].
    exists r, t'. split; [exact Hr|]. exists (Z.ldiff (hflags_ t) csVer). split; [by apply ldiff_word|].
    split; [|done]. apply Z.bits_inj'. intros i Hi. rewrite Z.land_spec, Z.ldiff_spec, Z.bits_0.
    by destruct (Z.testbit (hflags_ t) i), (Z.testbit csVer i).
Qed.

(** *** Writing tags *)

Lemma store_tags_app big a b : store_tags big (a ++ b) = store_tags big a ++ store_tags big b.
Proof. unfold store_tags. by rewrite fmap_app, join_app. Qed.

(** What a call leaves in the bytes: all of the tags or a part of them. *)
Definition wrote {A} (t : XrdOssCsiTagstoreFile) (off : Z) (b : list Z) (r : A + Z) (t' : XrdOssCsiTagstoreFile) : Prop :=
  exists f', t' = with_fd f' t /\ (quiet (fd_ t) -> quiet f') /\
    match r with
    | inl _ => content f' = write_at off b (content (fd_ t))
    | inr e => e < 0 /\ ~ quiet (fd_ t) /\ exists j, content f' = write_at off (take j b) (content (fd_ t))
    end.

Lemma WriteTags_swap_bytes fuel : forall t big buf off k, (length buf <= fuel)%nat -> 0 <= off + k ->
  returns (WriteTags_swap fuel big buf off k) t (wrote t (20 + 4 * (k + off)) (store_tags (negb big) buf)).
Proof.
  induction fuel as [|fuel IH]; intros t big buf off k Hl Ho; cbn [WriteTags_swap].
  - destruct buf; [|cbn in Hl; lia]. apply returns_ret. exists (fd_ t). by destruct t.
  - destruct (Z.eqb_spec (zlen buf) 0) as [Hz|Hz].
    { apply zlen_zero_nil in Hz as ->. apply returns_ret. exists (fd_ t). by destruct t. }
    set (b := take 1024 buf). rewrite store_tags_swap.
    assert (0 < zlen b <= zlen buf) as Hb by (unfold b, zlen in *; rewrite length_take; lia).
    eapply returns_bind; [apply on_fd_gives, fullwrite_spec; lia| |].
    + intros wret t' (f' & -> & Hq & -> & Hc). rewrite zlen_store_tags. replace (4 * zlen b / 4) with (zlen b) by lia_div.
      assert (adv (zlen b) buf = drop 1024 buf) as Hadv.
      { unfold adv, b, zlen. rewrite Nat2Z.id, length_take. destruct (Nat.min_spec 1024 (length buf)) as [[? ->]|[? ->]]; [done|].
        by rewrite !drop_ge by lia. }
      eapply returns_impl; [apply IH; [rewrite Hadv, length_drop; unfold zlen in *; lia|lia]|].
      intros r t' (f2 & -> & Hq2 & Hr). exists f2. split; [done|]. split; [tauto|]. cbn [fd_ with_fd] in Hr.
      assert (forall l, write_at (20 + 4 * (k + zlen b + off)) l (content f')
        = write_at (20 + 4 * (k + off)) (store_tags (negb big) b ++ l) (content (fd_ t))) as Hw.
      { intros l. rewrite Hc, <- write_at_app by lia. rewrite zlen_store_tags. f_equal. lia. }
      assert (store_tags (negb big) buf = store_tags (negb big) b ++ store_tags (negb big) (adv (zlen b) buf)) as Hsp.
      { rewrite Hadv. unfold b. by rewrite <- store_tags_app, take_drop. }
      rewrite Hsp. destruct r as [u|e].
      * by rewrite Hr, Hw.
      * destruct Hr as (He & Hn & (j & Hj)). split; [done|]. split; [tauto|].
        exists (length (store_tags (negb big) b) + j)%nat. by rewrite Hj, Hw, firstn_app_2.
    + intros e t' (f' & -> & Hq & He & Hn & (j & _ & Hc)). exists f'. split; [done|]. split; [done|]. split; [done|]. split; [done|].
      exists (Nat.min (Z.to_nat j) (length (store_tags (negb big) b))). rewrite Hc. f_equal.
      unfold b at 2. rewrite <- (take_drop 1024 buf) at 2. fold b. rewrite store_tags_app, take_app.
      rewrite (proj2 (Nat.sub_0_le _ _)) by lia. rewrite take_0, app_nil_r, <- firstn_firstn. by rewrite (firstn_all2 (n := length _)) by done.
Qed.

Lemma WriteTags_bytes t off buf : file_store_ok t -> 0 <= off ->
  returns (TF_WriteTags buf off) t (fun r t' => wrote t (20 + 4 * off) (store_tags (fileIsBige_ t) buf) r t' /\
    match r with inl n => n = zlen buf | inr _ => True end).
Proof.
  intros (Ho & _) Hoff. unfold returns, TF_WriteTags, bind at 1, get. rewrite Ho. cbn [negb].
  destruct (Bool.eqb (machineIsBige_ t) (fileIsBige_ t)) eqn:Hbig; cbn [negb].
  - apply eqb_prop in Hbig. rewrite Hbig. eapply returns_bind; [apply on_fd_gives, fullwrite_spec; lia| |].
    + intros n t' (f' & -> & Hq & -> & Hc). apply returns_ret. split; [by exists f'|]. rewrite zlen_store_tags. lia_div.
    + intros e t' (f' & -> & Hq & He & Hn & (j & _ & Hc)). split; [|done]. exists f'. split; [done|]. split; [done|]. split; [done|].
      split; [done|]. by exists (Z.to_nat j).
  - assert (fileIsBige_ t = negb (machineIsBige_ t)) as -> by (destruct (fileIsBige_ t), (machineIsBige_ t); done).
    eapply returns_bind; [apply (WriteTags_swap_bytes (length buf)); [done|lia]| |].
    + intros u t' Hw. apply returns_ret. split; [exact Hw|done].
    + intros e t' Hw. split; [exact Hw|done].
Qed.

Lemma wrote_ok {A} t off j buf (r : A + Z) f' : file_store_ok t -> 0 <= off ->
  content f' = write_at (20 + 4 * off) (take j (store_tags (fileIsBige_ t) buf)) (content (fd_ t)) ->
  file_store_ok (with_fd f' t) /\
  forall i : nat, (i < length (file_tags (fileIsBige_ t) (content (fd_ t))))%nat ->
    Z.of_nat i < off \/ off + zlen buf <= Z.of_nat i ->
    file_tags (fileIsBige_ t) (content f') !! i = file_tags (fileIsBige_ t) (content (fd_ t)) !! i.
Proof.
  intros (Ho & Hl & Hb & Hf) Hoff Hc. set (b := take j _) in Hc.
  assert (zlen b <= 4 * zlen buf) as Hlb.
  { rewrite <- (zlen_store_tags (fileIsBige_ t)). unfold b, zlen. rewrite length_take. lia. }
  split.
  - split; [done|]. cbn [fd_ with_fd hflags_]. rewrite Hc. split; [|split; [|done]].
    + destruct b eqn:Heb; [done|]. rewrite zlen_write_at by (done || lia). lia.
    + apply Forall_write_at; [done|apply Forall_take, store_tags_bytes|done].
  - intros i Hi Hd. unfold file_tags in Hi. rewrite length_load_tags in Hi. rewrite Hc. apply tags_kept; [lia|done|lia|lia].
Qed.

(** *** Reading tags *)

Lemma load_tags_app big a b l : length l = (4 * a)%nat -> forall k, load_tags big (a + b) (l ++ k) = load_tags big a l ++ load_tags big b k.
Proof.
  intros Hl k. revert l Hl. induction a as [|a IH]; intros l Hl; [destruct l; [done|cbn in Hl; lia]|].
  cbn [load_tags Nat.add app]. rewrite take_app_le, drop_app_le by lia. f_equal. apply IH. rewrite length_drop. lia.
Qed.

Lemma ReadTags_swap_spec fuel : forall t big off toread k acc, file_store_ok t -> 0 <= toread <= Z.of_nat fuel -> 0 <= off + k ->
  returns (ReadTags_swap fuel big off toread k acc) t (fun r t' => exists f', t' = with_fd f' t /\ content f' = content (fd_ t) /\
    (quiet (fd_ t) -> quiet f') /\
    match r with
    | inl l => l = acc ++ slice (k + off) toread (file_tags (negb big) (content (fd_ t))) /\
               (0 < toread -> 20 + 4 * (k + off + toread) <= zlen (content (fd_ t)))
    | inr e => e < 0 /\ (quiet (fd_ t) -> zlen (content (fd_ t)) < 20 + 4 * (k + off + toread))
    end).
Proof.
  induction fuel as [|fuel IH]; intros t big off toread k acc Hok Ht Ho; cbn [ReadTags_swap].
  - rewrite (proj2 (Z.leb_le toread 0)) by lia. replace toread with 0 by lia. apply returns_ret. exists (fd_ t).
    split; [by destruct t|]. split; [done|]. split; [done|]. split; [by rewrite slice_0, app_nil_r|lia].
  - destruct (Z.leb_spec toread 0).
    { replace toread with 0 by lia. apply returns_ret. exists (fd_ t).
      split; [by destruct t|]. split; [done|]. split; [done|]. split; [by rewrite slice_0, app_nil_r|lia]. }
    set (bs := Z.min toread 1024). assert (0 < bs <= toread) by lia.
    destruct (fullread_spec (fd_ t) (20 + 4 * (k + off)) (4 * bs)) as (r1 & f1 & Hr1 & Hc1 & Hq1 & Hp1); [lia..|].
    eapply returns_bind with (mid := fun r s => r = r1 /\ s = with_fd f1 t).
    { exists r1, (with_fd f1 t). split; [|done]. unfold on_fd, zoom. by rewrite Hr1. }
    + intros l s' [<- ->]. destruct Hp1 as [-> Hlen]. rewrite Hlen. replace (4 * bs / 4) with bs by lia_div.
      assert (20 + 4 * (k + off + bs) <= zlen (content (fd_ t))) as Hin by (rewrite zlen_slice in Hlen by lia; lia).
      assert (file_store_ok (with_fd f1 t)) as Hok1.
      { destruct Hok as (? & ? & ? & ?). split; [done|]. cbn [fd_ with_fd]. by rewrite Hc1. }
      eapply returns_impl; [apply (IH _ big off (toread - bs) (k + bs)); [done|lia|lia]|].
      intros r s' (f2 & -> & Hc2 & Hq2 & Hp2). cbn [fd_ with_fd] in *. rewrite Hc1 in *. exists f2. split; [done|]. split; [done|].
      split; [tauto|]. destruct r as [l|e].
      * destruct Hp2 as [-> Hin2]. split; [|intros _; destruct (decide (0 < toread - bs)); [specialize (Hin2 ltac:(lia)); lia|lia]].
        rewrite <- app_assoc. f_equal. replace toread with (bs + (toread - bs)) at 2 by lia. rewrite slice_add by lia.
        replace (k + off + bs) with (k + bs + off) by lia. f_equal.
        destruct Hok as (_ & _ & Hb & _). rewrite load_tags_swap.
        -- apply load_slice_tags; lia.
        -- by apply slice_bytes.
        -- unfold zlen in Hlen. lia.
      * destruct Hp2 as [He Hn]. split; [done|]. intros Hq. specialize (Hn (Hq1 Hq)). lia.
    + intros e s' [<- ->]. destruct Hp1 as [He Hn]. exists f1. split; [done|]. split; [done|]. split; [done|]. split; [done|].
      intros Hq. specialize (Hn Hq). lia.
Qed.

Lemma ReadTags_step t off n : file_store_ok t -> 0 <= off -> 0 < n ->
  returns (TF_ReadTags off n) t (fun r t' => exists f', t' = with_fd f' t /\ content f' = content (fd_ t) /\
    (quiet (fd_ t) -> quiet f') /\
    match r with
    | inl l => l = slice off n (file_tags (fileIsBige_ t) (content (fd_ t))) /\ 20 + 4 * (off + n) <= zlen (content (fd_ t))
    | inr e => e < 0 /\ (quiet (fd_ t) -> zlen (content (fd_ t)) < 20 + 4 * (off + n))
    end).
Proof.
  intros Hok Hoff Hn. pose proof Hok as (Ho & _). unfold returns, TF_ReadTags, bind at 1, get. rewrite Ho. cbn [negb].
  destruct (Bool.eqb (machineIsBige_ t) (fileIsBige_ t)) eqn:Hbig; cbn [negb].
  - apply eqb_prop in Hbig. rewrite Hbig.
    destruct (fullread_spec (fd_ t) (20 + 4 * off) (4 * n)) as (r1 & f1 & Hr1 & Hc1 & Hq1 & Hp1); [lia..|].
    eapply returns_bind with (mid := fun r s => r = r1 /\ s = with_fd f1 t).
    { exists r1, (with_fd f1 t). split; [|done]. unfold on_fd, zoom. by rewrite Hr1. }
    + intros l s' [<- ->]. apply returns_ret. destruct Hp1 as [-> Hlen]. exists f1. split; [done|]. split; [done|]. split; [done|].
      rewrite zlen_slice in Hlen by lia. split; [apply load_slice_tags; lia|lia].
    + intros e s' [<- ->]. destruct Hp1 as [He Hn']. exists f1. split; [done|]. split; [done|]. split; [done|]. split; [done|].
      intros Hq. specialize (Hn' Hq). lia.
  - assert (fileIsBige_ t = negb (machineIsBige_ t)) as -> by (destruct (fileIsBige_ t), (machineIsBige_ t); done).
    eapply returns_impl; [apply (ReadTags_swap_spec (Z.to_nat n)); [done|lia..]|].
    intros r t' (f' & -> & Hc & Hq & Hp). exists f'. split; [done|]. split; [done|]. split; [done|]. rewrite !Z.add_0_l in Hp.
    destruct r as [l|e]; [|done]. destruct Hp as [-> Hin]. split; [done|]. auto.
Qed.

(** *** Sizes *)

Lemma tags_after_resize big c n : 0 <= n -> n <= Z.max 0 (ntags c) -> 20 <= zlen c ->
  file_tags big (resize_to (20 + 4 * n) c) = take (Z.to_nat n) (file_tags big c).
Proof.
  intros Hn Hle Hc. assert (0 <= ntags c) by (unfold ntags; lia_div).
  assert (ntags (resize_to (20 + 4 * n) c) = n) as Hnt by (unfold ntags; rewrite zlen_resize by lia; lia_div).
  assert (20 + 4 * n <= zlen c) as Hlen by (unfold ntags in *; lia_div).
  apply list_eq. intros i. destruct (decide (Z.of_nat i < n)).
  - rewrite lookup_take_lt by lia. rewrite !lookup_file_tags by lia. do 2 f_equal. apply list_eq. intros j.
    rewrite !lookup_slice_all. case_decide; [|done]. unfold resize_to, zlen in *.
    rewrite lookup_app_l by (rewrite length_take; lia). by rewrite lookup_take_lt by lia.
  - rewrite !lookup_ge_None_2; [done|rewrite length_take; lia|].
    unfold file_tags. rewrite length_load_tags. lia.
Qed.

Lemma expected_size n : 0 <= n -> expected_tagfile_size n = 20 + 4 * npages n /\ 0 <= npages n.
Proof.
  intros Hn. unfold expected_tagfile_size, npages. replace (n + PageSize - 1) with (n + (PageSize - 1)) by lia.
  rewrite Z.quot_div_nonneg by (unfold PageSize; lia). split; [done|]. unfold PageSize. lia_div.
Qed.

(** A truncated file, and the sizes that are written in its header then. *)
Lemma resized_ok t n f' : file_store_ok t -> 20 <= n -> content f' = resize_to n (content (fd_ t)) -> file_store_ok (with_fd f' t).
Proof.
  intros (Ho & Hl & Hb & Hf) Hn Hc. split; [done|]. cbn [fd_ with_fd hflags_]. rewrite Hc, zlen_resize by lia.
  split; [done|]. split; [by apply resize_bytes|done].
Qed.

Lemma Truncate_step t n datatoo : file_store_ok t -> 0 <= n ->
  returns (TF_Truncate mach n datatoo) t (fun r t' => exists fl ac, file_store_ok t' /\ (quiet (fd_ t) -> quiet (fd_ t')) /\
    fileIsBige_ t' = fileIsBige_ t /\
    match r with
    | inl _ => trackinglen_ t' = n /\ hflags_ t' = fl /\ actualsize_ t' = ac /\ ac = (if datatoo then n else actualsize_ t) /\
        file_tags (fileIsBige_ t) (content (fd_ t')) = file_tags (fileIsBige_ t) (resize_to (20 + 4 * npages n) (content (fd_ t)))
    | inr e => e < 0 /\ ~ quiet (fd_ t)
    end).
Proof.
  intros Hok Hn. pose proof Hok as (Ho & Hl & Hb & [Hf Htl]). destruct (expected_size n Hn) as [Hexp Hnp].
  unfold returns, TF_Truncate, bind at 1, get. rewrite Ho. cbn [negb]. rewrite Hexp.
  eapply returns_bind; [apply on_fd_gives, df_Ftruncate_gives| |].
  2: { intros e t' (f' & -> & Hq & He & Hn' & Hc). exists 0, 0. split; [|done]. split; [done|]. cbn [fd_ with_fd]. by rewrite Hc. }
  intros u t1 (f1 & -> & Hq1 & Hc1). pose proof (resized_ok t (20 + 4 * npages n) f1 Hok ltac:(lia) Hc1) as Hok1.
  set (fl := if datatoo && (n =? 0) then Z.lor (hflags_ t) csVer else hflags_ t).
  assert (word fl) as Hfl by (unfold fl; destruct (datatoo && (n =? 0)); [by apply lor_csVer_word|done]).
  set (t2 := with_sizes (trackinglen_ t) (actualsize_ t) fl (with_fd f1 t)).
  eapply returns_bind with (mid := fun r s => r = inl tt /\ s = t2).
  { unfold t2, fl. destruct (datatoo && (n =? 0)); [by eexists _, _|]. eexists (inl tt), _. split; [done|]. split; [done|]. by destruct t. }
  2: { intros e s' [? _]. done. }
  intros u2 s' [_ ->]. assert (file_store_ok t2) as Hok2 by (apply with_sizes_ok; done).
  eapply returns_bind; [by apply WriteTrackedTagSize_step| |].
  2: { intros e t' [(f' & -> & Hok' & Hq' & Hz & Ht) [He Hnq]]. exists 0, 0. split; [done|]. split; [tauto|]. split; [done|]. split; [done|tauto]. }
  intros u3 t' [(f' & -> & Hok' & Hq' & Hz & Ht) _]. cbn [fd_ with_fd with_sizes t2 fileIsBige_] in *.
  destruct datatoo.
  - eexists (inl tt), _. split; [done|]. exists fl, n. cbn. split; [done|]. split; [tauto|]. split; [done|].
    do 4 (split; [done|]). by rewrite Ht, Hc1.
  - apply returns_ret. exists fl, (actualsize_ t). split; [done|]. cbn. split; [tauto|]. split; [done|].
    do 4 (split; [done|]). by rewrite Ht, Hc1.
Qed.

Lemma prefix_take_tags (n : nat) (l : list Z) : take n l `prefix_of` l.
Proof. exists (drop n l). by rewrite take_drop. Qed.

(** *** Resetting the sizes *)

Definition reset_post (t : XrdOssCsiTagstoreFile) (n : Z) (r : unit + Z) (t' : XrdOssCsiTagstoreFile) : Prop :=
  file_store_ok t' /\ (quiet (fd_ t) -> quiet (fd_ t')) /\ fileIsBige_ t' = fileIsBige_ t /\ hflags_ t' = hflags_ t /\
  actualsize_ t' = n /\
  file_tags (fileIsBige_ t) (content (fd_ t')) `prefix_of` file_tags (fileIsBige_ t) (content (fd_ t)) /\
  (zlen (file_tags (fileIsBige_ t) (content (fd_ t))) = npages (trackinglen_ t) ->
     file_tags (fileIsBige_ t) (content (fd_ t')) = file_tags (fileIsBige_ t) (content (fd_ t)) /\ trackinglen_ t' = trackinglen_ t) /\
  ok_or_failed (fd_ t) r.

(** Cutting the file off after so many tags. *)
Lemma cut_step t k n tl : file_store_ok t -> 0 <= k -> 20 + 4 * k <= zlen (content (fd_ t)) -> 0 <= tl ->
  (zlen (file_tags (fileIsBige_ t) (content (fd_ t))) = npages (trackinglen_ t) -> k = npages (trackinglen_ t) /\ tl = trackinglen_ t) ->
  returns (on_fd (df_Ftruncate (20 + 4 * k))) (with_sizes tl n (hflags_ t) t) (reset_post t n).
Proof.
  intros Hok Hk Hlen Htl Hall. assert (0 <= ntags (content (fd_ t)) /\ k <= ntags (content (fd_ t))) as [Hnt Hknt] by (unfold ntags; lia_div).
  pose proof Hok as (Ho & Hl & Hb & [Hf Htl0]).
  assert (file_tags (fileIsBige_ t) (resize_to (20 + 4 * k) (content (fd_ t))) = take (Z.to_nat k) (file_tags (fileIsBige_ t) (content (fd_ t)))) as Ht
    by (apply tags_after_resize; lia).
  eapply returns_impl; [apply on_fd_gives, df_Ftruncate_gives|]. intros r t' (f' & -> & Hq & Hr).
  destruct r as [u|e].
  - split; [apply (resized_ok (with_sizes tl n (hflags_ t) t) (20 + 4 * k)); [by apply with_sizes_ok|lia|done]|].
    cbn [fd_ with_fd with_sizes fileIsBige_ hflags_ actualsize_ trackinglen_] in *. rewrite Hr, Ht.
    do 4 (split; [done|]). split; [apply prefix_take_tags|]. split; [|done]. intros Hz. destruct (Hall Hz) as [-> ->].
    split; [|done]. apply take_ge. unfold zlen in Hz. lia.
  - destruct Hr as (He & Hnq & Hc). cbn [fd_ with_fd with_sizes fileIsBige_ hflags_ actualsize_ trackinglen_] in *.
    split; [split; [done|]; cbn [fd_ with_fd with_sizes hflags_ trackinglen_]; by rewrite Hc|]. cbn. rewrite Hc.
    do 4 (split; [done|]). split; [done|]. split; [|done]. intros Hz. by destruct (Hall Hz) as [_ ->].
Qed.

Lemma ResetSizes_step t n : file_store_ok t -> returns (TF_ResetSizes mach n) t (reset_post t n).
Proof.
  intros Hok. pose proof Hok as (Ho & Hl & Hb & [Hf Htl]). destruct (expected_size (trackinglen_ t) Htl) as [Hexp Hnp].
  unfold returns, TF_ResetSizes, bind at 1, get. rewrite Ho. cbn [negb].
  set (t1 := with_sizes (trackinglen_ t) n (hflags_ t) t).
  eapply returns_bind with (mid := fun r s => r = inl tt /\ s = t1); [by eexists _, _| |by intros e s' [? _]].
  intros u s' [_ ->]. assert (file_store_ok t1) as Hok1 by (by apply with_sizes_ok).
  assert (0 <= ntags (content (fd_ t))) as Hnt by (unfold ntags; lia_div).
  eapply returns_bind; [apply on_fd_gives, df_Fstat_gives| |].
  2: { intros e t' (f' & -> & Hq & He & Hnq & Hc). cbn [fd_ t1 with_sizes] in *. split; [split; [done|]; cbn [fd_ with_fd with_sizes t1 hflags_ trackinglen_]; by rewrite Hc|].
       cbn. rewrite Hc. do 6 (split; [done|]). done. }
  intros st t2 (f2 & -> & Hq2 & -> & Hc2). cbn [fd_ t1 with_sizes] in Hc2, Hq2. cbn [fd_ t1 with_sizes trackinglen_]. rewrite Hexp.
  assert (forall r t', reset_post (with_fd f2 t) n r t' -> reset_post t n r t') as Hback.
  { intros r t' (H1 & H2 & H3 & H4 & H5 & H6 & H7 & H8). cbn [fd_ with_fd fileIsBige_ hflags_ trackinglen_] in *. rewrite Hc2 in *.
    do 1 (split; [done|]). split; [tauto|]. do 5 (split; [done|]). unfold ok_or_failed in *. destruct r; tauto. }
  assert (file_store_ok (with_fd f2 t)) as Hok2 by (split; [done|]; cbn [fd_ with_fd hflags_ trackinglen_]; by rewrite Hc2).
  assert (with_fd f2 t1 = with_sizes (trackinglen_ t) n (hflags_ t) (with_fd f2 t)) as -> by done.
  change (content (fd_ t1)) with (content (fd_ t)). rewrite zlen_file_tags || idtac.
  destruct (Z.ltb_spec (20 + 4 * npages (trackinglen_ t)) (zlen (content (fd_ t)))) as [Hlt|Hge].
  { eapply returns_impl; [|exact Hback]. apply (cut_step (with_fd f2 t)); [done|lia| |done|done]. cbn [fd_ with_fd]. rewrite Hc2. lia. }
  destruct (Z.ltb_spec (zlen (content (fd_ t))) (20 + 4 * npages (trackinglen_ t))) as [Hsh|Heq].
  - set (nb := if 20 <? zlen (content (fd_ t)) then (zlen (content (fd_ t)) - 20) / 4 else 0).
    assert (nb = ntags (content (fd_ t))) as Hnb by (unfold nb, ntags; zcases; lia_div).
    assert (0 <= nb * PageSize) by (unfold PageSize; lia).
    eapply returns_bind; [apply WriteTrackedTagSize_step; [by apply with_sizes_ok|done]| |].
    + intros u2 t3 [(f3 & -> & Hok3 & Hq3 & Hz3 & Ht3) _]. cbn [fd_ with_fd with_sizes fileIsBige_ hflags_ actualsize_] in *. rewrite Hc2 in *.
      assert (file_store_ok (with_fd f3 t)) as Hokf by (destruct Hok3 as (? & ? & ? & ? & ?); done).
      eapply returns_impl.
      * apply (cut_step (with_fd f3 t) nb n (nb * PageSize)); [done|lia| |done|].
        -- cbn [fd_ with_fd]. unfold ntags in Hnb. lia_div.
        -- cbn [fd_ with_fd fileIsBige_ trackinglen_]. rewrite Ht3, zlen_file_tags. clear Hnb. unfold ntags in *. intros Hz. exfalso. lia_div.
      * intros r t' (H1 & H2 & H3 & H4 & H5 & H6 & H7 & H8). cbn [fd_ with_fd fileIsBige_ hflags_ trackinglen_] in *. rewrite Ht3 in *.
        split; [done|]. split; [tauto|]. do 5 (split; [done|]). unfold ok_or_failed in *. destruct r; tauto.
    + intros e t3 [(f3 & -> & Hok3 & Hq3 & Hz3 & Ht3) [He Hnq]]. cbn [fd_ with_fd with_sizes fileIsBige_ hflags_ actualsize_ trackinglen_] in *.
      rewrite Hc2 in *. split; [done|]. cbn. rewrite Ht3. split; [tauto|]. do 3 (split; [done|]). split; [done|].
      split; [|split; [done|tauto]]. intros Hz. rewrite zlen_file_tags in Hz. unfold ntags in *. exfalso. lia_div.
  - eapply returns_impl; [|exact Hback]. apply returns_ret. split; [by apply with_sizes_ok|]. cbn. done.
Qed.

(** *** The header in the file *)

(** The header that is in the file is that of the fields in memory. *)
Definition header_saved (t : XrdOssCsiTagstoreFile) : Prop :=
  slice 0 20 (content (fd_ t)) = header_bytes (fileIsBige_ t) (trackinglen_ t) (hflags_ t).
Definition saves {A} (m : M XrdOssCsiTagstoreFile A) (t : XrdOssCsiTagstoreFile) : Prop :=
  returns m t (fun r t' => forall a, r = inl a -> header_saved t').

Lemma returns_also {S A} (m : M S A) s (p q : A + Z -> S -> Prop) (c : Prop) :
  returns m s p -> (c -> returns m s q) -> returns m s (fun r s' => p r s' /\ (c -> q r s')).
Proof.
  intros (r & s' & Hr & Hp) Hq. exists r, s'. split; [done|]. split; [done|]. intros Hc.
  destruct (Hq Hc) as (r2 & s2 & Hr2 & Hq2). rewrite Hr in Hr2. by injection Hr2 as <- <-.
Qed.

Lemma returns_and {S A} (m : M S A) s (p q : A + Z -> S -> Prop) : returns m s p -> returns m s q -> returns m s (fun r s' => p r s' /\ q r s').
Proof. intros (r & s' & Hr & Hp) (r2 & s2 & Hr2 & Hq). rewrite Hr in Hr2. injection Hr2 as <- <-. by exists r, s'. Qed.

Lemma saves_bind {A B} (m : M XrdOssCsiTagstoreFile A) (f : A -> M XrdOssCsiTagstoreFile B) t (mid : XrdOssCsiTagstoreFile -> Prop) :
  returns m t (fun r t' => forall a, r = inl a -> mid t') -> (forall a t', mid t' -> saves (f a) t') -> saves (bind m f) t.
Proof. intros Hm Hf. eapply returns_bind; [exact Hm| |done]. intros a t' Hmid. eapply Hf, Hmid. done. Qed.

Lemma header_written t : isOpen t = true -> saves (MarshallAndWriteHeader mach) t.
Proof.
  intros Ho. eapply returns_impl; [by apply MarshallAndWriteHeader_spec|]. intros r t' (f' & -> & _ & Hr) a ->.
  unfold header_saved. cbn [fd_ with_fd fileIsBige_ trackinglen_ hflags_]. rewrite Hr.
  assert (zlen (header_bytes (fileIsBige_ t) (trackinglen_ t) (hflags_ t)) = 20) as Hl by (unfold zlen; by rewrite length_header).
  rewrite slice_write_inside by lia. rewrite Z.sub_diag. unfold slice. cbn [Z.to_nat]. rewrite drop_0. apply take_ge. unfold zlen in Hl. lia.
Qed.

Lemma WriteTrackedTagSize_saves t n : isOpen t = true -> saves (WriteTrackedTagSize mach n) t.
Proof.
  intros Ho. unfold saves, returns, WriteTrackedTagSize, bind at 1, get. rewrite Ho. cbn [negb].
  apply (header_written (with_sizes n (actualsize_ t) (hflags_ t) t)). exact Ho.
Qed.

Lemma SetTrackedSize_saves t n : isOpen t = true -> header_saved t -> saves (TF_SetTrackedSize mach n) t.
Proof.
  intros Ho Hs. unfold saves, returns, TF_SetTrackedSize, bind at 1, get. rewrite Ho. cbn [negb].
  eapply saves_bind with (mid := fun t' => isOpen t' = true /\ header_saved t').
  { destruct (actualsize_ t <? n); eexists (inl tt), _; (split; [done|]); by intros. }
  intros [] t' [Ho' Hs']. destruct (n =? trackinglen_ t); [apply returns_ret; by intros|by apply WriteTrackedTagSize_saves].
Qed.

Lemma SetUnverified_saves t : isOpen t = true -> header_saved t -> saves (TF_SetUnverified mach) t.
Proof.
  intros Ho Hs. unfold saves, returns, TF_SetUnverified, bind at 1, get. rewrite Ho. cbn [negb].
  destruct (Z.land (hflags_ t) csVer =? 0); [by eexists (inl tt), _|].
  apply (header_written (with_sizes (trackinglen_ t) (actualsize_ t) (Z.ldiff (hflags_ t) csVer) t)). exact Ho.
Qed.

Lemma WriteTags_saves t buf off : file_store_ok t -> 0 <= off -> header_saved t -> saves (TF_WriteTags buf off) t.
Proof.
  intros Hok Hoff Hs. pose proof Hok as (_ & Hl & _). eapply returns_impl; [by apply WriteTags_bytes|]. intros r t' [(f' & -> & Hq & Hr) _] a ->.
  unfold header_saved in *. cbn [fd_ with_fd fileIsBige_ trackinglen_ hflags_]. rewrite Hr, slice_write_below by lia. exact Hs.
Qed.

Lemma ftruncate_saves t n : 20 <= n -> 20 <= zlen (content (fd_ t)) -> isOpen t = true -> header_saved t ->
  returns (on_fd (df_Ftruncate n)) t (fun r t' => forall a, r = inl a -> isOpen t' = true /\ header_saved t').
Proof.
  intros Hn Hl Ho Hs. eapply returns_impl; [apply on_fd_gives, df_Ftruncate_gives|]. intros r t' (f' & -> & _ & Hr) a ->.
  split; [done|]. unfold header_saved in *. cbn [fd_ with_fd fileIsBige_ trackinglen_ hflags_]. by rewrite Hr, slice_resize.
Qed.

Lemma Truncate_saves t n datatoo : file_store_ok t -> 0 <= n -> header_saved t -> saves (TF_Truncate mach n datatoo) t.
Proof.
  intros (Ho & Hl & _) Hn Hs. destruct (expected_size n Hn) as [Hexp Hnp].
  unfold saves, returns, TF_Truncate, bind at 1, get. rewrite Ho. cbn [negb]. rewrite Hexp.
  eapply saves_bind; [apply ftruncate_saves; [lia|done|done|done]|]. intros u t1 [Ho1 _].
  eapply saves_bind with (mid := fun t' => isOpen t' = true).
  { destruct (datatoo && (n =? 0)); eexists (inl tt), _; (split; [done|]); by intros. }
  intros u2 t2 Ho2. eapply saves_bind; [by apply WriteTrackedTagSize_saves|]. intros u3 t3 Hs3.
  destruct datatoo; [|apply returns_ret; by intros]. eexists (inl tt), _. split; [done|]. by intros.
Qed.

Lemma WriteTrackedTagSize_both t n : file_store_ok t -> 0 <= n ->
  returns (WriteTrackedTagSize mach n) t (fun r t' => forall a, r = inl a -> file_store_ok t' /\ header_saved t').
Proof.
  intros Hok Hn. eapply returns_impl; [apply returns_and; [by apply (WriteTrackedTagSize_step t n)|by apply WriteTrackedTagSize_saves, Hok]|].
  intros r t' [[(f' & _ & Hok' & _) _] Hs] a Ha. split; [done|by eapply Hs].
Qed.

Lemma ResetSizes_saves t n : file_store_ok t -> header_saved t -> saves (TF_ResetSizes mach n) t.
Proof.
  intros Hok Hs. pose proof Hok as (Ho & Hl & Hb & [Hf Htl]). destruct (expected_size (trackinglen_ t) Htl) as [Hexp Hnp].
  unfold saves, returns, TF_ResetSizes, bind at 1, get. rewrite Ho. cbn [negb].
  eapply saves_bind with (mid := fun t' => file_store_ok t' /\ header_saved t').
  { eexists (inl tt), _. split; [done|]. by intros. }
  intros u t1 [Hok1 Hs1]. eapply saves_bind with (mid := fun t' => file_store_ok t' /\ header_saved t').
  { eapply returns_impl; [apply on_fd_gives, df_Fstat_gives|]. intros r t' (f' & -> & _ & Hr) a ->. destruct Hr as [_ Hc].
    destruct Hok1 as (? & ? & ? & ?). unfold file_store_ok, header_saved in *. cbn [fd_ with_fd isOpen hflags_ trackinglen_ fileIsBige_]. by rewrite Hc. }
  intros st t2 [Hok2 Hs2]. rewrite Hexp. pose proof Hok2 as (Ho2 & Hl2 & _). destruct (_ <? st).
  - eapply returns_impl; [apply ftruncate_saves; [lia|done|done|done]|]. intros r t' Hr a Ha. by eapply Hr.
  - destruct (st <? _); [|apply returns_ret; by intros]. cbv zeta. set (nb := if 20 <? st then (st - 20) / 4 else 0).
    assert (0 <= nb) as Hnb by (unfold nb; destruct (Z.ltb_spec 20 st); lia_div).
    eapply saves_bind; [apply WriteTrackedTagSize_both; [done|unfold PageSize; lia]|].
    intros u2 t3 [(Ho3 & Hl3 & _) Hs3]. eapply returns_impl; [apply ftruncate_saves; [lia|done|done|done]|]. intros r t' Hr a Ha. by eapply Hr.
Qed.

(** *** The contract *)

Lemma seen_sizes t : file_store_ok t ->
  TF_GetTrackedTagSize t = trackinglen_ t /\ TF_GetTrackedDataSize t = actualsize_ t /\
  TF_IsVerified t = negb (Z.land (hflags_ t) csVer =? 0).
Proof. intros (Ho & _). unfold TF_GetTrackedTagSize, TF_GetTrackedDataSize, TF_IsVerified. by rewrite Ho. Qed.

(** Rewrites what callers see of a store into its fields. *)
Ltac seen := repeat match goal with
  | H : file_store_ok ?t |- context [TF_GetTrackedTagSize ?t] => rewrite (proj1 (seen_sizes t H))
  | H : file_store_ok ?t |- context [TF_GetTrackedDataSize ?t] => rewrite (proj1 (proj2 (seen_sizes t H)))
  | H : file_store_ok ?t |- context [TF_IsVerified ?t] => rewrite (proj2 (proj2 (seen_sizes t H)))
  end; cbn [fd_ with_fd with_sizes fileIsBige_ hflags_ actualsize_ trackinglen_].

#[global, program] Instance TagstoreFile_laws : @TagstoreLaws XrdOssCsiTagstoreFile (TagstoreFile_store mach) := {
  tags t := file_tags (fileIsBige_ t) (content (fd_ t));
  store_ok := file_store_ok;
  calm t := quiet (fd_ t) /\ header_saved t }.
Next Obligation.
  intros t off n Hok Ho Hn. eapply returns_impl; [by apply ReadTags_step|]. intros r t' (f' & -> & Hc & Hq & Hr). cbn.
  assert (file_store_ok (with_fd f' t)) as Hok' by (destruct Hok as (? & ? & ? & ?); split; [done|]; cbn; by rewrite Hc).
  rewrite Hc. split; [done|]. split; [intros [? ?]; split; [auto|]; unfold header_saved; cbn; by rewrite Hc|]. split; [done|]. seen. do 3 (split; [done|]).
  assert (0 <= ntags (content (fd_ t))) by (destruct Hok as (? & ? & ?); unfold ntags; lia_div).
  destruct r as [l|e].
  - destruct Hr as [-> Hin]. split; [done|]. rewrite zlen_slice, zlen_file_tags by lia. unfold ntags. lia_div.
  - destruct Hr as [He Hs]. split; [done|]. intros [Hcalm _]. specialize (Hs Hcalm). rewrite zlen_file_tags. unfold ntags in *. lia_div.
Qed.
Next Obligation.
  intros t off buf Hok Ho Hb Hw. eapply returns_impl; [apply returns_also; [by apply WriteTags_bytes|by apply WriteTags_saves]|].
  intros r t' [[(f' & -> & Hq & Hr) Hn] Hsv]. cbn. pose proof Hok as (_ & Hl & _).
  destruct r as [n|e].
  - destruct (wrote_ok t off (length (store_tags (fileIsBige_ t) buf)) buf (inl n : Z + Z) f' Hok Ho) as [Hok' Hk]; [by rewrite firstn_all|].
    split; [done|]. split; [intros [? Hs]; split; [auto|by eapply Hsv]|]. seen. do 3 (split; [done|]). split; [exact Hk|]. split; [done|]. intros Hoff.
    rewrite Hr. apply tags_after_write; [lia|done|done].
  - destruct Hr as (He & Hnq & (j & Hj)). destruct (wrote_ok t off j buf (inr e : Z + Z) f' Hok Ho Hj) as [Hok' Hk].
    split; [done|]. split; [by intros [? _]|]. seen. do 3 (split; [done|]). split; [exact Hk|]. split; [done|]. by intros [? _].
Qed.
Next Obligation.
  intros t n Hok Hn. eapply returns_impl; [apply returns_also; [by apply SetTrackedSize_step|apply SetTrackedSize_saves, Hok]|].
  intros r t' [[(f' & -> & Hok' & Hq & Hz & Ht) Hr] Hsv]. cbn.
  split; [done|]. split; [|split; [done|]; seen; do 3 (split; [done|]); destruct r; [done|]; destruct Hr; split; [done|]; by intros [? _]].
  intros [Hqt Hs]. split; [by apply Hq|]. destruct r; [by eapply Hsv|by destruct Hr].
Qed.
Next Obligation.
  intros t Hok. eapply returns_impl; [apply returns_also; [by apply SetUnverified_step|apply SetUnverified_saves, Hok]|].
  intros r t' [(fl & Hw & Hfl & (f' & -> & Hok' & Hq & Hz & Ht) & Hr) Hsv]. cbn.
  split; [done|]. split; [|split; [done|]; seen; rewrite Hfl; do 3 (split; [done|]); destruct r; [done|]; destruct Hr; split; [done|]; by intros [? _]].
  intros [Hqt Hs]. split; [by apply Hq|]. destruct r; [by eapply Hsv|by destruct Hr].
Qed.
Next Obligation.
  intros t n datatoo Hok Hn. eapply returns_impl; [apply returns_also; [by apply Truncate_step|by apply Truncate_saves]|].
  intros r t' [(fl & ac & Hok' & Hq & Hbig & Hr) Hsv]. cbn.
  split; [done|]. split.
  { intros [Hqt Hs]. split; [by apply Hq|]. destruct r; [by eapply Hsv|by destruct Hr]. }
  destruct r as [u|e]; [|destruct Hr; split; [done|]; by intros [? _]]. destruct Hr as (Htl & Hfl & Hac & Hd & Ht). seen.
  split; [done|]. split; [by rewrite Hac, Hd|]. rewrite Hbig, Ht. intros Hle. rewrite zlen_file_tags in Hle.
  pose proof Hok as (_ & Hl & _). apply tags_after_resize; [apply expected_size, Hn|done|done].
Qed.
Next Obligation.
  intros t n Hok Hn. eapply returns_impl; [apply returns_also; [by apply ResetSizes_step|by apply ResetSizes_saves]|].
  intros r t' [(H1 & H2 & H3 & H4 & H5 & H6 & H7 & H8) Hsv]. cbn.
  rewrite H3. split; [done|]. split.
  { intros [Hqt Hs]. split; [by apply H2|]. destruct r; [by eapply Hsv|by destruct H8]. }
  split; [done|]. seen. rewrite H4. do 2 (split; [done|]). split; [exact H7|]. destruct r; [done|]. destruct H8. split; [done|]. by intros [? _].
Qed.

(** ** Opening *)

Lemma file_order_header big fbig tl fl : file_order big (header_bytes fbig tl fl) = Some fbig.
Proof using Type.
  unfold file_order, header_bytes. rewrite <- !app_assoc, take_app_length' by (by rewrite length_store_int).
  destruct (Bool.eqb big fbig) eqn:He.
  - apply eqb_prop in He as ->. rewrite load_store by done. by rewrite Z.eqb_refl.
  - assert (fbig = negb big) as -> by (by destruct big, fbig). destruct big; vm_compute; reflexivity.
Qed.

(** An integer of the header, read on a machine of order [big]. *)
Lemma conv_load big fbig n z : 0 <= z < 2 ^ (8 * Z.of_nat n) ->
  (if negb (Bool.eqb fbig big) then bswap n (load_int big (store_int fbig n z)) else load_int big (store_int fbig n z)) = z.
Proof using Type.
  intros Hz. destruct (Bool.eqb fbig big) eqn:He; cbn [negb].
  - apply eqb_prop in He as ->. by apply load_store.
  - assert (fbig = negb big) as -> by (by destruct big, fbig).
    rewrite <- (length_store_int (negb big) n z) at 1. rewrite bswap_load by apply store_int_bytes. by apply load_store.
Qed.

Lemma header_fields fbig tl fl : let h := header_bytes fbig tl fl in
  let h16 := store_int fbig 4 cmagic_ ++ store_int fbig 8 (u64 tl) ++ store_int fbig 4 fl in
  slice 4 8 h = store_int fbig 8 (u64 tl) /\ slice 12 4 h = store_int fbig 4 fl /\
  slice 16 4 h = store_int fbig 4 (checksum h16) /\ take 16 h = h16.
Proof using Type.
  intros h h16. unfold h, header_bytes. fold h16.
  assert (forall n z, zlen (store_int fbig n z) = Z.of_nat n) as Hl by (intros; unfold zlen; by rewrite length_store_int).
  assert (zlen h16 = 16) as Hl16 by (unfold h16; rewrite !zlen_app, !Hl; done).
  assert (forall n (l : list Z), zlen l = n -> slice 0 n l = l) as Hall.
  { intros n l <-. unfold slice. cbn [Z.to_nat]. rewrite drop_0. apply take_ge. unfold zlen. lia. }
  repeat split.
  - apply list_eq. intros i. rewrite lookup_slice_all. unfold h16. rewrite <- !app_assoc.
    case_decide; [|symmetry; apply lookup_ge_None_2; rewrite length_store_int; lia].
    rewrite lookup_app_r by (rewrite length_store_int; lia). rewrite lookup_app_l by (rewrite !length_store_int; lia).
    f_equal. rewrite length_store_int. lia.
  - apply list_eq. intros i. rewrite lookup_slice_all. unfold h16. rewrite <- !app_assoc.
    case_decide; [|symmetry; apply lookup_ge_None_2; rewrite length_store_int; lia].
    do 2 rewrite lookup_app_r by (rewrite !length_store_int; lia). rewrite lookup_app_l by (rewrite !length_store_int; lia).
    f_equal. rewrite !length_store_int. lia.
  - apply list_eq. intros i. rewrite lookup_slice_all.
    case_decide; [|symmetry; apply lookup_ge_None_2; rewrite length_store_int; lia].
    rewrite lookup_app_r by (unfold zlen in Hl16; lia). f_equal. unfold zlen in Hl16. lia.
  - rewrite take_app_le by (unfold zlen in Hl16; lia). apply take_ge. unfold zlen in Hl16. lia.
Qed.

(** A tag file with a good header and as many tags as it tells is opened as it is. *)
Lemma TF_Open_spec t fbig tl fl dsize : quiet (fd_ t) -> Forall is_byte (content (fd_ t)) ->
  slice 0 20 (content (fd_ t)) = header_bytes fbig tl fl -> 0 <= tl < 2 ^ 63 -> word fl ->
  zlen (file_tags fbig (content (fd_ t))) = npages tl -> 20 <= zlen (content (fd_ t)) ->
  returns (TF_Open mach dsize) t (fun r t' => r = inl tt /\ file_store_ok t' /\ quiet (fd_ t') /\ header_saved t' /\
    fileIsBige_ t' = fbig /\ trackinglen_ t' = tl /\ actualsize_ t' = dsize /\ hflags_ t' = fl /\
    file_tags fbig (content (fd_ t')) = file_tags fbig (content (fd_ t))).
Proof.
  intros Hq Hb Hh Htl Hfl Hnt Hl. set (big := negb (is_little mach)).
  destruct (header_fields fbig tl fl) as (H1 & H2 & H3 & H4). cbv zeta in H1, H2, H3, H4.
  set (t1 := MkTagstoreFile (fd_ t) (trackinglen_ t) (actualsize_ t) true big (fileIsBige_ t) (hflags_ t)).
  destruct (fullread_spec (fd_ t) 0 20) as (r & f' & Hr & Hc' & Hq' & Hpost); [lia..|].
  destruct r as [h|e]; [|destruct Hpost as [_ Hs]; specialize (Hs Hq); lia]. destruct Hpost as [-> _]. rewrite Hh in Hr.
  set (h := header_bytes fbig tl fl) in *.
  set (t3 := MkTagstoreFile f' tl (actualsize_ t) true big fbig fl).
  assert (TF_Open mach dsize t = match TF_ResetSizes mach dsize t3 with
    | Ok (inl _, s) => Ok (inl tt, s)
    | Ok (inr e, s) => (set_isOpen false ;;; fail e) s
    | BadData => BadData | Fault => Fault | Diverge => Diverge end) as He.
  { assert (i64 (if negb (Bool.eqb fbig big) then bswap 8 (load_int big (slice 4 8 h)) else load_int big (slice 4 8 h)) = tl) as Htl'.
    { rewrite H1, conv_load by (unfold u64; apply Z.mod_pos_bound; lia). unfold u64, i64. rewrite (Z.mod_small tl) by lia.
      rewrite Z.mod_small by lia. lia. }
    assert ((if negb (Bool.eqb fbig big) then bswap 4 (load_int big (slice 12 4 h)) else load_int big (slice 12 4 h)) = fl) as Hfl'.
    { rewrite H2. apply conv_load. exact Hfl. }
    assert (word (checksum (take 16 h))) as Hcw by (apply checksum_word, Forall_take, header_is_bytes).
    assert ((if negb (Bool.eqb fbig big) then bswap 4 (load_int big (slice 16 4 h)) else load_int big (slice 16 4 h)) = checksum (take 16 h)) as Hcv'.
    { rewrite H3, <- H4. apply conv_load. exact Hcw. }
    assert (Calc32C mach h 16 0 = Ok (checksum (take 16 h))) as Hcalc.
    { unfold Calc32C. apply crc32c_checksum; [apply header_is_bytes|]. unfold h, zlen. rewrite length_header. lia. }
    unfold TF_Open, set_isOpen, set_machineIsBige, set_fileIsBige, set_trackinglen, set_hflags, on_fd, zoom, catch, lift, ret, bind.
    cbn [fd_]. rewrite Hr. fold big. unfold h. rewrite file_order_header. fold h. cbn [fd_ with_fd trackinglen_ actualsize_ isOpen machineIsBige_ fileIsBige_ hflags_].
    rewrite Htl', Hfl', Hcv', Hcalc, Z.eqb_refl. cbn [fd_ with_fd trackinglen_ actualsize_ isOpen machineIsBige_ fileIsBige_ hflags_]. fold t3.
    by destruct (TF_ResetSizes mach dsize t3) as [[[]]| | |]. }
  assert (file_store_ok t3) as Hok3 by (split; [done|]; cbn [fd_ t3 hflags_ trackinglen_]; rewrite Hc'; split; [done|]; split; [done|]; split; [done|lia]).
  assert (header_saved t3) as Hs3 by (unfold header_saved; cbn [fd_ t3 fileIsBige_ hflags_ trackinglen_]; by rewrite Hc').
  destruct (returns_and _ _ _ _ (ResetSizes_step t3 dsize Hok3) (ResetSizes_saves t3 dsize Hok3 Hs3)) as (r & t' & Hrun & (G1 & G2 & G3 & G4 & G5 & G6 & G7 & G8) & Hsv).
  cbn [fd_ t3 fileIsBige_ hflags_ trackinglen_] in *. rewrite Hc' in G7. destruct (G7 Hnt) as [G9 G10].
  unfold returns. rewrite He, Hrun. destruct r as [u|e]; [|destruct G8 as [_ G8]; exfalso; auto].
  eexists _, _. split; [reflexivity|]. split; [done|]. split; [done|]. split; [auto|]. split; [by eapply Hsv|]. done.
Qed.

End file_laws.
