(* ===== verification/CsiPages.v ===== *)
(** * The checksums of the pages of a file

    Models src/src/XrdOssCsi/XrdOssCsiPages.{hh,cc} and XrdOssCsiPagesUnaligned.cc: what a
    write stores in the tag file and what a read verifies, for ranges that start and end
    anywhere. The store of tags is any instance of [Tagstore]; the data file is a [file],
    so every call on it can fail or be short.

    The range guard of the operation is part of the state: the sizes it has seen and
    whether it holds the lock on them. The data that goes to or comes from the user is an
    argument; [csvec] is an option where the code passes an array or null. *)

From stdpp Require Import base tactics list_numbers numbers option list.
From S2P Require Import Prelude CrcRegister OucCRC32C CsiCrc CsiStore.
#[local] Set Warnings "-clear-no-such-hyp".
Open Scope csi_scope.

(** [XrdOssDF::Verify], [XrdOssDF::doCalc] *)
Definition Verify : Z := 0x8000000000000000.
Definition doCalc : Z := 0x4000000000000000.
Definition opt (opts flag : Z) : bool := negb (Z.land opts flag =? 0).

(** [stsize_] *)
Definition stsize_ : Z := 1024.

Section Pages.
  Context {T : Type} `{Tagstore T}.
  Context (mach : machine) (writeHoles_ allowMissingTags_ disablePgExtend_ loosewriteConfigured_ : bool).

(** The pages object, the data file, and the guard of the operation. *)
Record csi := MkCsi {
  ts_ : T;
  df : file;
  hasMissingTags_ : bool;
  rdonly_ : bool;
  loosewrite_ : bool;
  tsforupdate_ : bool;
  lastpgforloose_ : Z;
  checklastpg_ : bool;
  trackingsizes_ : option (Z * Z);
  trackinglenlocked_ : bool }.

Abbreviation MP := (M csi).

Definition with_ts (t : T) (s : csi) : csi := MkCsi t (df s) (hasMissingTags_ s) (rdonly_ s) (loosewrite_ s)
  (tsforupdate_ s) (lastpgforloose_ s) (checklastpg_ s) (trackingsizes_ s) (trackinglenlocked_ s).
Definition with_df (f : file) (s : csi) : csi := MkCsi (ts_ s) f (hasMissingTags_ s) (rdonly_ s) (loosewrite_ s)
  (tsforupdate_ s) (lastpgforloose_ s) (checklastpg_ s) (trackingsizes_ s) (trackinglenlocked_ s).
Definition with_update (b : bool) (s : csi) : csi := MkCsi (ts_ s) (df s) (hasMissingTags_ s) (rdonly_ s) (loosewrite_ s)
  b (lastpgforloose_ s) (checklastpg_ s) (trackingsizes_ s) (trackinglenlocked_ s).
Definition with_guard (sizes : option (Z * Z)) (locked : bool) (s : csi) : csi := MkCsi (ts_ s) (df s) (hasMissingTags_ s)
  (rdonly_ s) (loosewrite_ s) (tsforupdate_ s) (lastpgforloose_ s) (checklastpg_ s) sizes locked.
Definition with_loose (lw : bool) (lastpg : Z) (check : bool) (s : csi) : csi := MkCsi (ts_ s) (df s) (hasMissingTags_ s)
  (rdonly_ s) lw (tsforupdate_ s) lastpg check (trackingsizes_ s) (trackinglenlocked_ s).
Definition with_open (missing ro : bool) (s : csi) : csi := MkCsi (ts_ s) (df s) missing ro (loosewrite_ s)
  (tsforupdate_ s) (lastpgforloose_ s) (checklastpg_ s) (trackingsizes_ s) (trackinglenlocked_ s).

Definition on_ts {A} (m : M T A) : MP A := zoom ts_ with_ts m.
Definition on_df {A} (m : M file A) : MP A := zoom df with_df m.
Definition modify (f : csi -> csi) : MP unit := fun s => Ok (inl tt, f s).

(** [maxread( fd, buff, off, sz, tg )]: at least [tg] bytes unless the file ends, at most [sz] *)
Fixpoint maxread_loop (fuel : nat) (off toread tg : Z) (acc : list Z) : M file (list Z) :=
  if (0 <? toread) && (zlen acc <? tg) then
    match fuel with
    | O => diverge
    | S fuel =>
        let* p := df_Read off toread in
        if zlen p =? 0 then ret acc
        else maxread_loop fuel (off + zlen p) (toread - zlen p) tg (acc ++ p)
    end
  else ret acc.
Definition maxread (off sz tg : Z) : MP (list Z) :=
  on_df (maxread_loop (Z.to_nat sz) off sz (if tg =? 0 then sz else tg) []).

(** [fullread( fd, buff, off, sz )] *)
Definition pg_fullread (off sz : Z) : MP (list Z) :=
  let* l := maxread off sz 0 in
  if zlen l =? sz then ret l else fail EDOM.

(** ** The tracked sizes and their lock *)

(** [TrackedSizesGet( rsizes, forupdate )]: waits while another one updates them *)
Definition TrackedSizesGet (forupdate : bool) : MP (Z * Z) :=
  let* s := get in
  if hasMissingTags_ s then fail ENOENT
  else if tsforupdate_ s then diverge
  else
    (if forupdate then modify (with_update true) else ret tt) ;;;
    ret (GetTrackedTagSize (ts_ s), GetTrackedDataSize (ts_ s)).

(** [TrackedSizeRelease()] *)
Definition TrackedSizeRelease : MP unit :=
  let* s := get in
  if tsforupdate_ s then modify (with_update false) else fault.

(** [XrdOssCsiRangeGuard::unlockTrackinglen()], [ReleaseAll()] *)
Definition unlockTrackinglen : MP unit :=
  let* s := get in
  if trackinglenlocked_ s then TrackedSizeRelease ;;; modify (fun s => with_guard (trackingsizes_ s) false s)
  else fault.
Definition ReleaseAll : MP unit :=
  let* s := get in
  if trackinglenlocked_ s then unlockTrackinglen else ret tt.

(** [getTrackinglens()]: undefined when the guard was given none *)
Definition getTrackinglens : MP (Z * Z) :=
  let* s := get in
  match trackingsizes_ s with Some sizes => ret sizes | None => fault end.

(** The first and last page that [LockTrackinglen] locks. *)
Definition lock_pages (offset offend trackinglen : Z) : Z * Z :=
  ((if trackinglen <? offset then trackinglen else offset) / PageSize,
   if offend mod PageSize =? 0 then offend / PageSize - 1 else offend / PageSize).

(** [LockTrackinglen( rg, offset, offend, rdonly )] *)
Definition LockTrackinglen (offset offend : Z) (rdonly : bool) : MP unit :=
  let* s := get in
  if hasMissingTags_ s then ret tt
  else if offset =? offend then ret tt
  else
    let* sizes := TrackedSizesGet (negb rdonly) in
    let unlock := negb rdonly && (offend <=? sizes.1) in
    (if unlock : bool then TrackedSizeRelease else ret tt) ;;;
    modify (with_guard (Some sizes) (negb rdonly && negb unlock)).

(** [LockSetTrackedSize( sz )], [LockTruncateSize( sz, datatoo )], [LockMakeUnverified()]:
    their callers ignore what they return *)
Definition LockSetTrackedSize (sz : Z) : MP unit := let* _ := catch (on_ts (SetTrackedSize sz)) in ret tt.
Definition LockTruncateSize (sz : Z) (datatoo : bool) : MP unit := let* _ := catch (on_ts (Truncate sz datatoo)) in ret tt.
Definition LockMakeUnverified : MP unit := let* _ := catch (on_ts SetUnverified) in ret tt.

(** ** Storing tags *)

(** The loop of [apply_sequential_aligned_modify]: [blktowrite] tags are left to write *)
Fixpoint apply_loop (fuel : nat) (buff : list Z) (nbytes : Z) (csvec : option (list Z)) (useinternal lastblockset : bool)
    (cslast sp : Z) (dopre : option Z) (blktowrite nblkwritten calcbytot : Z) : MP Z :=
  if blktowrite <=? 0 then ret nblkwritten
  else match fuel with
       | O => diverge
       | S fuel =>
           if useinternal then
             let pre := match dopre with Some cspre => [cspre] | None => [] end in
             let calcbycnt := Z.min (nbytes - calcbytot) ((stsize_ - zlen pre) * PageSize) in
             let blkwcnt := npages calcbycnt + zlen pre in
             let short := negb (calcbycnt mod PageSize =? 0) && lastblockset in
             let last := if short : bool then [cslast] else [] in
             let calcbycnt := if short : bool then PageSize * (calcbycnt / PageSize) else calcbycnt in
             let* sums := match csvec with
                          | Some cs =>
                              let n := npages calcbycnt in
                              if calcbytot / PageSize + n <=? zlen cs then ret (slice (calcbytot / PageSize) n cs) else fault
                          | None => lift (Calc32C_pages mach (adv calcbytot buff) calcbycnt)
                          end in
             let* _ := on_ts (WriteTags (pre ++ sums ++ last) (sp + nblkwritten)) in
             apply_loop fuel buff nbytes csvec useinternal lastblockset cslast sp None (blktowrite - blkwcnt)
               (nblkwritten + blkwcnt) (calcbytot + calcbycnt)
           else
             let* cs := match csvec with
                        | Some cs => if nblkwritten + blktowrite <=? zlen cs then ret (slice nblkwritten blktowrite cs) else fault
                        | None => fault
                        end in
             let* _ := on_ts (WriteTags cs (sp + nblkwritten)) in
             apply_loop fuel buff nbytes csvec useinternal lastblockset cslast sp None 0 (nblkwritten + blktowrite) calcbytot
       end.

(** [apply_sequential_aligned_modify( buff, startp, nbytes, csvec, preblockset, lastblockset, cspre, cslast )];
    [pre] and [last] are the values where they are set *)
Definition apply_sequential_aligned_modify (buff : list Z) (startp nbytes : Z) (csvec : option (list Z))
    (pre last : option Z) : MP Z :=
  if match last with Some _ => nbytes mod PageSize =? 0 | None => false end then fail EINVAL
  else if match pre with Some _ => startp =? 0 | None => false end then fail EINVAL
  else
    let useinternal := match csvec, pre, last with Some _, None, None => false | _, _, _ => true end in
    let blktowrite := npages nbytes + match pre with Some _ => 1 | None => 0 end in
    apply_loop (Z.to_nat blktowrite) buff nbytes csvec useinternal (match last with Some _ => true | None => false end)
      (match last with Some c => c | None => 0 end) (match pre with Some _ => startp - 1 | None => startp end) pre blktowrite 0 0.

(** The loop of [UpdateRangeHoleUntilPage] *)
Fixpoint hole_loop (fuel : nat) (tag firstEmpty towrite nwritten : Z) : MP unit :=
  if towrite <=? 0 then ret tt
  else match fuel with
       | O => diverge
       | S fuel =>
           let nw := Z.min towrite stsize_ in
           let* wret := on_ts (WriteTags (replicate (Z.to_nat nw) tag) (firstEmpty + nwritten)) in
           hole_loop fuel tag firstEmpty (towrite - wret) (nwritten + wret)
       end.

(** [UpdateRangeHoleUntilPage( fd, until, sizes )]; [nofd] when [fd] is null *)
Definition UpdateRangeHoleUntilPage (nofd : bool) (until : Z) (sizes : Z * Z) : MP unit :=
  let* crczero := lift (crc32c_extendwith_zero mach 0 PageSize) in
  let trackinglen := sizes.1 in
  let tracked_page := trackinglen / PageSize in
  if until <=? tracked_page then ret tt
  else
    let tracked_off := trackinglen mod PageSize in
    (if 0 <? tracked_off then
       if nofd then fail EDOM
       else
         let* prevtag := on_ts (ReadTags tracked_page 1) in
         let* crc32c := lift (crc32c_extendwith_zero mach (default 0 (head prevtag)) (PageSize - tracked_off)) in
         let* _ := on_ts (WriteTags [crc32c] tracked_page) in ret tt
     else ret tt) ;;;
    let nAllEmpty := if 0 <? tracked_off then until - tracked_page - 1 else until - tracked_page in
    let firstEmpty := if 0 <? tracked_off then tracked_page + 1 else tracked_page in
    hole_loop (Z.to_nat nAllEmpty) (if writeHoles_ then crczero else 0) firstEmpty nAllEmpty 0.

(** [StoreRangeAligned( buff, offset, blen, sizes, csvec )], [UpdateRangeAligned] *)
Definition StoreRangeAligned (buff : list Z) (offset blen : Z) (sizes : Z * Z) (csvec : option (list Z)) : MP unit :=
  let p1 := offset / PageSize in
  (if sizes.1 <? offset then UpdateRangeHoleUntilPage true p1 sizes else ret tt) ;;;
  let* _ := apply_sequential_aligned_modify buff p1 blen csvec None None in ret tt.
Definition UpdateRangeAligned (buff : list Z) (offset blen : Z) (sizes : Z * Z) : MP unit :=
  StoreRangeAligned buff offset blen sizes None.

(** A page buffer: what was read, then zero bytes. *)
Definition page_buffer (l : list Z) : list Z := l ++ replicate (Z.to_nat (PageSize - zlen l)) 0.

(** [csvec[i]] *)
Definition csvec_at (csvec : list Z) (i : Z) : MP Z :=
  match csvec !! Z.to_nat i with Some c => ret c | None => fault end.

(** The checksum of the user's [blen] bytes added to [crc32c] *)
Definition add_users (csvec : option (list Z)) (buff : list Z) (blen crc32c : Z) : MP Z :=
  match csvec with
  | Some cs => let* c0 := csvec_at cs 0 in lift (CrcUtils_combine mach crc32c c0 blen)
  | None => lift (Calc32C mach buff blen crc32c)
  end.

(** The checks of a loose append: whether what is on disk and the tag [crc32v] agree, with
    the old data, with what was written of it, or with the data that is written again. *)
Definition loose_append_ok (buff : list Z) (blen p1_off tracked_off crc32v : Z) (rdata : list Z) (crc32x : Z) : MP bool :=
  let rlen := zlen rdata in
  let b := page_buffer rdata in
  if (rlen =? tracked_off) && ((tracked_off =? 0) || (crc32x =? crc32v)) then ret true
  else if ((0 <? tracked_off) || (p1_off =? 0)) && (rlen <=? p1_off + blen) then
    if tracked_off =? 0 then ret true
    else
      let* whole := (if negb (rlen =? tracked_off) && (0 <? rlen)
                     then let* c := lift (Calc32C mach b rlen 0) in ret (c =? crc32v) else ret false) in
      if whole : bool then ret true
      else
        let b := write_at p1_off (take (Z.to_nat blen) buff) b in
        let* c := lift (Calc32C mach b (p1_off + blen) 0) in ret (c =? crc32v)
  else ret false.

(** The checks of a loose overwrite. *)
Definition loose_overwrite_ok (buff : list Z) (blen p1_off bavail crc32v : Z) (rdata : list Z) : MP bool :=
  let rlen := zlen rdata in
  let b := page_buffer rdata in
  let* crc32c := lift (Calc32C mach b bavail 0) in
  if (rlen =? bavail) && (crc32c =? crc32v) then ret true
  else
    let rmin := if p1_off + blen <? bavail then bavail else 0 in
    if (rmin <=? rlen) && (rlen <=? bavail) then
      if crc32c =? crc32v then ret true
      else
        let* whole := (if negb (rlen =? bavail) && (0 <? rlen)
                       then let* c := lift (Calc32C mach b rlen 0) in ret (c =? crc32v) else ret false) in
        if whole : bool then ret true
        else
          let vl := Z.max bavail (p1_off + blen) in
          let* c := lift (Calc32C mach (write_at p1_off (take (Z.to_nat blen) buff) b) vl 0) in ret (c =? crc32v)
    else ret false.

(** [StoreRangeUnaligned_preblock( fd, buff, blen, offset, trackinglen, csvec, prepageval )] *)
Definition StoreRangeUnaligned_preblock (buff : list Z) (blen offset trackinglen : Z) (csvec : option (list Z)) : MP Z :=
  let p1 := offset / PageSize in
  let p1_off := offset mod PageSize in
  let tracked_page := trackinglen / PageSize in
  let tracked_off := trackinglen mod PageSize in
  if tracked_page <? p1 then
    let* crc32c := lift (crc32c_extendwith_zero mach 0 p1_off) in
    add_users csvec buff blen crc32c
  else if (p1 =? tracked_page) && (tracked_off <=? p1_off) then
    let* crc32v := (if 0 <? tracked_off then let* l := on_ts (ReadTags p1 1) in ret (default 0 (head l)) else ret 0) in
    let* s := get in
    let* crc32c :=
      (if loosewrite_ s && (p1 =? lastpgforloose_ s) && checklastpg_ s then
         modify (fun s => with_loose (loosewrite_ s) (lastpgforloose_ s) false s) ;;;
         let* rdata := maxread (PageSize * p1) PageSize tracked_off in
         let b := page_buffer rdata in
         let* crc32x := lift (Calc32C mach b tracked_off 0) in
         let* crc32c := lift (Calc32C mach (adv tracked_off b) (p1_off - tracked_off) crc32x) in
         let* fine := loose_append_ok buff blen p1_off tracked_off crc32v rdata crc32x in
         if fine : bool then ret crc32c else fail EDOM
       else lift (crc32c_extendwith_zero mach crc32v (p1_off - tracked_off))) in
    add_users csvec buff blen crc32c
  else
    let bavail := if p1 =? tracked_page then tracked_off else PageSize in
    if bavail <=? p1_off then fault
    else if (p1_off =? 0) && (bavail <=? blen) then fault
    else
      let* l := on_ts (ReadTags p1 1) in
      let crc32v := default 0 (head l) in
      let* s := get in
      let* b :=
        (if loosewrite_ s then
           let* rdata := maxread (PageSize * p1) PageSize bavail in
           let* fine := loose_overwrite_ok buff blen p1_off bavail crc32v rdata in
           if fine : bool then ret (page_buffer rdata) else fail EDOM
         else
           let* rdata := pg_fullread (PageSize * p1) bavail in
           let* crc32c := lift (Calc32C mach rdata bavail 0) in
           if crc32v =? crc32c then ret rdata else fail EDOM) in
      let* crc32c := lift (Calc32C mach b p1_off 0) in
      let* crc32c := add_users csvec buff blen crc32c in
      if p1_off + blen <? bavail then
        let* cl := lift (Calc32C mach (adv (p1_off + blen) b) (bavail - p1_off - blen) 0) in
        lift (CrcUtils_combine mach crc32c cl (bavail - p1_off - blen))
      else ret crc32c.

(** [StoreRangeUnaligned_postblock( fd, buff, blen, offset, trackinglen, csvec, lastpageval )] *)
Definition StoreRangeUnaligned_postblock (buff : list Z) (blen offset trackinglen : Z) (csvec : option (list Z)) : MP Z :=
  let p2 := (offset + blen) / PageSize in
  let p2_off := (offset + blen) mod PageSize in
  let tracked_page := trackinglen / PageSize in
  let tracked_off := trackinglen mod PageSize in
  if p2_off =? 0 then fault
  else
    let bavail := if p2 =? tracked_page then tracked_off else PageSize in
    let bremain := if p2_off <? bavail then bavail - p2_off else 0 in
    if bremain <=? 0 then fault
    else
      let* l := on_ts (ReadTags p2 1) in
      let crc32v := default 0 (head l) in
      let* b := pg_fullread (PageSize * p2) bavail in
      let* crc32c := match csvec with
                     | Some cs => csvec_at cs ((blen - 1) / PageSize)
                     | None => lift (Calc32C mach (adv (blen - p2_off) buff) p2_off 0)
                     end in
      let* cl := lift (Calc32C mach (adv p2_off b) bremain 0) in
      let* crc32c := lift (CrcUtils_combine mach crc32c cl bremain) in
      let* crc32prev := lift (Calc32C mach b bavail 0) in
      let* s := get in
      if negb (crc32v =? crc32prev) then
        if loosewrite_ s && negb (crc32c =? crc32prev) && (crc32c =? crc32v) then ret crc32c else fail EDOM
      else ret crc32c.

(** [StoreRangeUnaligned( fd, buff, offset, blen, sizes, csvec )], [UpdateRangeUnaligned] *)
Definition StoreRangeUnaligned (buff : list Z) (offset blen : Z) (sizes : Z * Z) (csvec : option (list Z)) : MP unit :=
  let p1 := offset / PageSize in
  let trackinglen := sizes.1 in
  (if trackinglen <? offset then UpdateRangeHoleUntilPage false p1 sizes else ret tt) ;;;
  let p1_off := offset mod PageSize in
  let p2_off := (offset + blen) mod PageSize in
  let* prepage :=
    (if (0 <? p1_off) || (blen <? PageSize) then
       let bavail := if blen <? PageSize - p1_off then blen else PageSize - p1_off in
       let* v := StoreRangeUnaligned_preblock buff bavail offset trackinglen csvec in ret (Some v)
     else ret None) in
  let np := match prepage with Some _ => p1 + 1 | None => p1 end in
  let npoff := match prepage with Some _ => PageSize - p1_off | None => 0 end in
  if blen <=? npoff then
    match prepage with
    | Some v => let* _ := on_ts (WriteTags [v] p1) in ret tt
    | None => ret tt
    end
  else
    let p := adv npoff buff in
    let csp := match csvec, prepage with Some cs, Some _ => Some (drop 1 cs) | _, _ => csvec end in
    if (p2_off =? 0) || (trackinglen <=? offset + blen) then
      let* _ := apply_sequential_aligned_modify p np (blen - npoff) csp prepage None in ret tt
    else
      let* lastpageval := StoreRangeUnaligned_postblock p (blen - npoff) (offset + npoff) trackinglen csp in
      let* _ := apply_sequential_aligned_modify p np (blen - npoff) csp prepage (Some lastpageval) in ret tt.
Definition UpdateRangeUnaligned (buff : list Z) (offset blen : Z) (sizes : Z * Z) : MP unit :=
  StoreRangeUnaligned buff offset blen sizes None.

(** Whether the first or last page of a write has to be worked out from old data. *)
Definition store_unaligned (offset blen trackinglen : Z) : bool :=
  negb (offset mod PageSize =? 0) || ((offset + blen <? trackinglen) && negb (blen mod PageSize =? 0))
    || (negb (trackinglen mod PageSize =? 0) && (trackinglen <? offset)).

(** [UpdateRange( fd, buff, offset, blen, rg )] *)
Definition UpdateRange (buff : list Z) (offset blen : Z) : MP unit :=
  let* s := get in
  if offset <? 0 then fail EINVAL
  else if blen =? 0 then ret tt
  else if hasMissingTags_ s then ret tt
  else
    LockMakeUnverified ;;;
    let* sizes := getTrackinglens in
    let trackinglen := sizes.1 in
    (if trackinglen <? offset + blen then LockSetTrackedSize (offset + blen) ;;; unlockTrackinglen else ret tt) ;;;
    if store_unaligned offset blen trackinglen
    then UpdateRangeUnaligned buff offset blen sizes
    else UpdateRangeAligned buff offset blen sizes.

(** [pgDoCalc( buffer, offset, wrlen, csvec )]: what is stored from [csvec[0]] on *)
Definition pgDoCalc (buffer : list Z) (offset wrlen : Z) : res (list Z) :=
  let p_off := offset mod PageSize in
  let p_alen := if 0 <? p_off then PageSize - p_off else wrlen in
  rest ← (if p_alen <? wrlen then Calc32C_pages mach (adv p_alen buffer) (wrlen - p_alen) else Ok []);
  first ← Calc32C_pages mach buffer (Z.min p_alen wrlen);
  Ok (first ++ rest).

(** [pgWritePrelockCheck( buffer, offset, wrlen, csvec, opts )] *)
Definition pgWritePrelockCheck (buffer : list Z) (offset wrlen : Z) (csvec : option (list Z)) (opts : Z) : MP unit :=
  match csvec with
  | Some cs =>
      if opt opts Verify then
        let p_off := offset mod PageSize in
        let p_alen := if 0 <? p_off then PageSize - p_off else wrlen in
        let* rest := (if p_alen <? wrlen then lift (Ver32C_first mach (adv p_alen buffer) (wrlen - p_alen) (drop 1 cs)) else ret (-1, None)) in
        if 0 <=? rest.1 then fail EDOM
        else
          let* first := lift (Ver32C_first mach buffer (Z.min p_alen wrlen) cs) in
          if 0 <=? first.1 then fail EDOM else ret tt
      else ret tt
  | None => ret tt
  end.

(** [StoreRange( fd, buff, offset, blen, csvec, opts, rg )]: [csvec] as it is afterwards *)
Definition StoreRange (buff : list Z) (offset blen : Z) (csvec : option (list Z)) (opts : Z) : MP (option (list Z)) :=
  let* s := get in
  let do_calc := match csvec with Some _ => opt opts doCalc | None => false end in
  let calc := let* cs := lift (pgDoCalc buff offset blen) in ret (Some cs) in
  if offset <? 0 then fail EINVAL
  else if blen =? 0 then ret csvec
  else if hasMissingTags_ s then (if do_calc : bool then calc else ret csvec)
  else
    let* sizes := getTrackinglens in
    let trackinglen := sizes.1 in
    if disablePgExtend_ && negb (trackinglen mod PageSize =? 0) && (trackinglen <? offset + blen) then fail ESPIPE
    else
      let* csvec := (if do_calc : bool then calc else ret csvec) in
      (match csvec with None => if opt opts doCalc then ret tt else LockMakeUnverified | Some _ => ret tt end) ;;;
      (if trackinglen <? offset + blen then LockSetTrackedSize (offset + blen) ;;; unlockTrackinglen else ret tt) ;;;
      (if store_unaligned offset blen trackinglen
       then StoreRangeUnaligned buff offset blen sizes csvec
       else StoreRangeAligned buff offset blen sizes csvec) ;;;
      ret csvec.

(** ** Fetching and verifying tags *)

(** Comparing [toverif] pages of data with the tags just read, 1024 at a time. *)
Fixpoint verify_loop (fuel : nat) (p rdbuf : list Z) (rdbufsz nfull p2_off nread nverif toverif : Z) : MP unit :=
  if toverif <=? 0 then ret tt
  else match fuel with
       | O => diverge
       | S fuel =>
           let vcnt := Z.min toverif stsize_ in
           let databytes := if nread + nverif + vcnt <=? nfull then vcnt * PageSize else (vcnt - 1) * PageSize + p2_off in
           let* vrbuf := lift (Calc32C_pages mach (adv (PageSize * (nread + nverif)) p) databytes) in
           if bool_decide (take (Z.to_nat vcnt) vrbuf = slice ((nread + nverif) mod rdbufsz) vcnt rdbuf)
           then verify_loop fuel p rdbuf rdbufsz nfull p2_off nread (nverif + vcnt) (toverif - vcnt)
           else fail EDOM
       end.

(** The loop over the tags; [rdbuf] is the buffer they are read to, [csvec] if there is one. *)
Fixpoint fetch_loop (fuel : nat) (p : list Z) (opts p1 nfull p2_off rdbufsz toread nread : Z) (rdbuf : list Z) : MP (list Z) :=
  if toread <=? 0 then ret rdbuf
  else match fuel with
       | O => diverge
       | S fuel =>
           let rcnt := Z.min toread (rdbufsz - nread mod rdbufsz) in
           let* l := on_ts (ReadTags (p1 + nread) rcnt) in
           let rdbuf := write_at (nread mod rdbufsz) l rdbuf in
           (if opt opts Verify then verify_loop (Z.to_nat rcnt) p rdbuf rdbufsz nfull p2_off nread 0 rcnt else ret tt) ;;;
           fetch_loop fuel p opts p1 nfull p2_off rdbufsz (toread - rcnt) (nread + rcnt) rdbuf
       end.

(** [FetchRangeAligned( buff, offset, blen, sizes, csvec, opts )]; [want] unless [csvec] is null *)
Definition FetchRangeAligned (buff : list Z) (offset blen : Z) (want : bool) (opts : Z) : MP (list Z) :=
  let p1 := offset / PageSize in
  let p2 := (offset + blen) / PageSize in
  let p2_off := (offset + blen) mod PageSize in
  let nfull := p2 - p1 in
  let toread := if 0 <? p2_off then nfull + 1 else nfull in
  let rdbufsz := if want : bool then toread else stsize_ in
  fetch_loop (Z.to_nat toread) buff opts p1 nfull p2_off rdbufsz toread 0 [].
Definition VerifyRangeAligned (buff : list Z) (offset blen : Z) : MP unit :=
  let* _ := FetchRangeAligned buff offset blen false Verify in ret tt.

(** [FetchRangeUnaligned_preblock( fd, buff, offset, blen, trackinglen, tbuf, csvec, opts )]:
    the tags afterwards, which are [csvec] too when [want] *)
Definition FetchRangeUnaligned_preblock (buff : list Z) (offset blen trackinglen : Z) (tbuf : list Z) (want : bool) (opts : Z) : MP (list Z) :=
  let p1 := offset / PageSize in
  let p1_off := offset mod PageSize in
  let bavail := Z.min (trackinglen - PageSize * p1) PageSize in
  let bcommon := Z.min (bavail - p1_off) blen in
  let more := bcommon <? bavail in
  let* b := (if more : bool then
               let* b := pg_fullread (PageSize * p1) bavail in
               if opt opts Verify && negb (bool_decide (take (Z.to_nat bcommon) buff = slice p1_off bcommon b)) then fail EDOM
               else ret b
             else ret buff) in
  let* tag0 := csvec_at tbuf 0 in
  (if opt opts Verify then
     let* crc32calc := lift (Calc32C mach b bavail 0) in
     if tag0 =? crc32calc then ret tt else fail EDOM
   else ret tt) ;;;
  if more && want then
    let* c := (if opt opts Verify then lift (Calc32C mach (adv p1_off b) bcommon 0)
               else
                 let* crc32c := lift (Calc32C mach b p1_off 0) in
                 let* c := lift (crc32c_split2 mach tag0 crc32c (bavail - p1_off)) in
                 let* crc32c := lift (Calc32C mach (adv (p1_off + bcommon) b) (bavail - p1_off - bcommon) 0) in
                 lift (crc32c_split1 c crc32c (bavail - p1_off - bcommon))) in
    ret (<[0%nat := c]> tbuf)
  else ret tbuf.

(** [FetchRangeUnaligned_postblock( fd, buff, offset, blen, trackinglen, tbuf, csvec, tidx, opts )] *)
Definition FetchRangeUnaligned_postblock (buff : list Z) (offset blen trackinglen : Z) (tbuf : list Z) (want : bool) (tidx opts : Z) : MP (list Z) :=
  let p2 := (offset + blen) / PageSize in
  let p2_off := (offset + blen) mod PageSize in
  let bavail := Z.min (trackinglen - PageSize * p2) PageSize in
  let bremain := if p2_off <? bavail then bavail - p2_off else 0 in
  let ub := adv (blen - p2_off) buff in
  let* b := (if 0 <? bremain then
               let* b := pg_fullread (PageSize * p2) bavail in
               if opt opts Verify && negb (bool_decide (take (Z.to_nat p2_off) ub = take (Z.to_nat p2_off) b)) then fail EDOM
               else ret b
             else ret ub) in
  let* tag := csvec_at tbuf tidx in
  (if opt opts Verify then
     let* crc32calc := lift (Calc32C mach b bavail 0) in
     if tag =? crc32calc then ret tt else fail EDOM
   else ret tt) ;;;
  if want && (0 <? bremain) then
    let* c := (if opt opts Verify then lift (Calc32C mach b p2_off 0)
               else
                 let* crc32c := lift (Calc32C mach (adv p2_off b) bremain 0) in
                 lift (crc32c_split1 tag crc32c bremain)) in
    ret (<[Z.to_nat tidx := c]> tbuf)
  else ret tbuf.

(** The inner loop over full pages: [tovalid] sums of [calcbuf] to compare; the tags are in
    [tbuf] from page [ntagsbase] on, and [ntagstoread] more are to come. *)
Fixpoint valid_loop (fuel : nat) (calcbuf : list Z) (want : bool) (tbufsz fpread nvalid tovalid : Z) (tbuf : list Z) (ntagsbase ntagstoread : Z)
    : MP (list Z * Z * Z) :=
  if tovalid <=? 0 then ret (tbuf, ntagsbase, ntagstoread)
  else match fuel with
       | O => diverge
       | S fuel =>
           let tidx := fpread + nvalid - ntagsbase in
           let nv := Z.min tovalid (tbufsz - tidx) in
           if nv =? 0 then
             if want : bool then fault
             else
               let ntagsbase := ntagsbase + tbufsz in
               let tcnt := Z.min ntagstoread tbufsz in
               let* tbuf := on_ts (ReadTags ntagsbase tcnt) in
               valid_loop fuel calcbuf want tbufsz fpread nvalid tovalid tbuf ntagsbase (ntagstoread - tcnt)
           else if bool_decide (slice nvalid nv calcbuf = slice tidx nv tbuf)
           then valid_loop fuel calcbuf want tbufsz fpread (nvalid + nv) (tovalid - nv) tbuf ntagsbase ntagstoread
           else fail EDOM
       end.

(** The outer loop: [toread] full pages of data from [p] on. *)
Fixpoint full_loop (fuel : nat) (p : list Z) (want : bool) (tbufsz fp nread toread : Z) (tbuf : list Z) (ntagsbase ntagstoread : Z)
    : MP (list Z * Z * Z) :=
  if toread <=? 0 then ret (tbuf, ntagsbase, ntagstoread)
  else match fuel with
       | O => diverge
       | S fuel =>
           let ccnt := Z.min toread stsize_ in
           let* calcbuf := lift (Calc32C_pages mach (adv (PageSize * nread) p) (ccnt * PageSize)) in
           let* (tbuf, ntagsbase, ntagstoread) :=
             valid_loop (2 * Z.to_nat ccnt) calcbuf want tbufsz (fp + nread) 0 ccnt tbuf ntagsbase ntagstoread in
           full_loop fuel p want tbufsz fp (nread + ccnt) (toread - ccnt) tbuf ntagsbase ntagstoread
       end.

(** [FetchRangeUnaligned( fd, buff, offset, blen, sizes, csvec, opts )] *)
Definition FetchRangeUnaligned (buff : list Z) (offset blen : Z) (sizes : Z * Z) (want : bool) (opts : Z) : MP (list Z) :=
  let p1 := offset / PageSize in
  let p1_off := offset mod PageSize in
  let p2 := (offset + blen) / PageSize in
  let p2_off := (offset + blen) mod PageSize in
  let trackinglen := sizes.1 in
  let ntagstoread := if 0 <? p2_off then p2 - p1 + 1 else p2 - p1 in
  let tbufsz := if want : bool then ntagstoread else stsize_ in
  let tcnt := Z.min ntagstoread tbufsz in
  let* tbuf := on_ts (ReadTags p1 tcnt) in
  let* tbuf := (if (0 <? p1_off) || (blen <? PageSize)
                then FetchRangeUnaligned_preblock buff offset blen trackinglen tbuf want opts else ret tbuf) in
  let fp := if negb (p1_off =? 0) then p1 + 1 else p1 in
  let* (tbuf, ntagsbase, ntagstoread) :=
    (if (fp <? p2) && opt opts Verify then
       full_loop (Z.to_nat (p2 - fp)) (adv (if negb (p1_off =? 0) then PageSize - p1_off else 0) buff) want tbufsz fp 0 (p2 - fp)
         tbuf p1 (ntagstoread - tcnt)
     else ret (tbuf, p1, ntagstoread - tcnt)) in
  if (p1 <? p2) && (0 <? p2_off) then
    let tidx := p2 - ntagsbase in
    let* (tbuf, tidx) := (if tbufsz <=? tidx then
                             if want : bool then fault else let* tbuf := on_ts (ReadTags p2 1) in ret (tbuf, 0)
                           else ret (tbuf, tidx)) in
    FetchRangeUnaligned_postblock buff offset blen trackinglen tbuf want tidx opts
  else ret tbuf.
Definition VerifyRangeUnaligned (buff : list Z) (offset blen : Z) (sizes : Z * Z) : MP unit :=
  let* _ := FetchRangeUnaligned buff offset blen sizes false Verify in ret tt.

(** Whether the first or last page of a read is not all of a page of the file. *)
Definition fetch_unaligned (offset blen trackinglen : Z) : bool :=
  negb (offset mod PageSize =? 0) || (negb (offset + blen =? trackinglen) && negb (blen mod PageSize =? 0)).

(** [VerifyRange( fd, buff, offset, blen, rg )] *)
Definition VerifyRange (buff : list Z) (offset blen : Z) : MP unit :=
  let* s := get in
  if offset <? 0 then fail EINVAL
  else if hasMissingTags_ s then ret tt
  else
    let* sizes := getTrackinglens in
    let trackinglen := sizes.1 in
    if (trackinglen <=? offset) && (blen =? 0) then ret tt
    else if blen =? 0 then fail EDOM
    else if trackinglen <? offset + blen then fail EDOM
    else if fetch_unaligned offset blen trackinglen
    then VerifyRangeUnaligned buff offset blen sizes
    else VerifyRangeAligned buff offset blen.

(** [FetchRange( fd, buff, offset, blen, csvec, opts, rg )]: what is stored in [csvec] *)
Definition FetchRange (buff : list Z) (offset blen : Z) (want : bool) (opts : Z) : MP (list Z) :=
  let* s := get in
  if offset <? 0 then fail EINVAL
  else if hasMissingTags_ s then (if want : bool then lift (pgDoCalc buff offset blen) else ret [])
  else
    let* sizes := getTrackinglens in
    let trackinglen := sizes.1 in
    if (trackinglen <=? offset) && (blen =? 0) then ret []
    else if blen =? 0 then fail EDOM
    else if trackinglen <? offset + blen then fail EDOM
    else if negb want && negb (opt opts Verify) then ret []
    else if fetch_unaligned offset blen trackinglen
    then FetchRangeUnaligned buff offset blen sizes want opts
    else FetchRangeAligned buff offset blen want opts.

(** ** Truncating, opening, and checking after a failure *)

(** [truncate( fd, len, rg )] *)
Definition truncate (len : Z) : MP unit :=
  let* s := get in
  if len <? 0 then fail EINVAL
  else if hasMissingTags_ s then ret tt
  else
    let* sizes := getTrackinglens in
    let trackinglen := sizes.1 in
    let p_until := len / PageSize in
    let p_off := len mod PageSize in
    (if trackinglen <? len then UpdateRangeHoleUntilPage false p_until sizes else ret tt) ;;;
    (if negb (len =? trackinglen) && negb (p_off =? 0) then
       let tracked_page := trackinglen / PageSize in
       let tracked_off := trackinglen mod PageSize in
       let toread := if trackinglen <? len
                     then (if p_until =? tracked_page then tracked_off else 0)
                     else (if p_until =? tracked_page then tracked_off else PageSize) in
       let* b := (if 0 <? toread then
                    let* b := pg_fullread (p_until * PageSize) toread in
                    let* crc32c := lift (Calc32C mach b toread 0) in
                    let* l := on_ts (ReadTags p_until 1) in
                    if default 0 (head l) =? crc32c then ret b else fail EDOM
                  else ret []) in
       let b := b ++ replicate (Z.to_nat (p_off - toread)) 0 in
       let* crc32c := lift (Calc32C mach b p_off 0) in
       let* _ := on_ts (WriteTags [crc32c] p_until) in ret tt
     else ret tt) ;;;
    LockTruncateSize len true ;;;
    unlockTrackinglen.

(** The last page of a file of so many bytes, and how much of it there is. *)
Definition last_page (size : Z) : Z * Z :=
  if 0 <? size then ((size - 1) / PageSize, if size mod PageSize =? 0 then PageSize else size mod PageSize) else (0, 0).

(** [BasicConsistencyCheck( fd )]: its errors are only logged *)
Definition BasicConsistencyCheck_body : MP unit :=
  let* s := get in
  if negb (loosewrite_ s) || rdonly_ s then ret tt
  else
    let tagsize := GetTrackedTagSize (ts_ s) in
    let datasize := GetTrackedDataSize (ts_ s) in
    let (taglp, tag_len) := last_page tagsize in
    let (datalp, data_len) := last_page datasize in
    modify (fun s => with_loose (loosewrite_ s) taglp true s) ;;;
    if (0 <? datasize) && (datalp <? taglp) then
      let* rdata := maxread (PageSize * datalp) PageSize 0 in
      let b := page_buffer rdata in
      let* data_crc := lift (Calc32C mach b data_len 0) in
      let* data_crc_z := lift (Calc32C mach b PageSize 0) in
      let* l := on_ts (ReadTags datalp 1) in
      let tagv := default 0 (head l) in
      if tagv =? data_crc_z then ret tt
      else if tagv =? data_crc then let* _ := on_ts (WriteTags [data_crc_z] datalp) in ret tt
      else ret tt
    else if (0 <? tagsize) && (taglp <? datalp) then
      let* rdata := maxread (PageSize * taglp) PageSize 0 in
      let b := page_buffer rdata in
      let* tag_crc := lift (Calc32C mach b tag_len 0) in
      let* tag_crc_z := lift (Calc32C mach b PageSize 0) in
      let dp_ext_is_zero := bool_decide (slice tag_len (PageSize - tag_len) b = replicate (Z.to_nat (PageSize - tag_len)) 0) in
      let* l := on_ts (ReadTags taglp 1) in
      let tagv := default 0 (head l) in
      if tagv =? tag_crc then ret tt
      else if (tagv =? tag_crc_z) && dp_ext_is_zero then let* _ := on_ts (WriteTags [tag_crc] taglp) in ret tt
      else ret tt
    else ret tt.
Definition BasicConsistencyCheck : MP unit := let* _ := catch BasicConsistencyCheck_body in ret tt.

(** [LockResetSizes( fd, sz )] *)
Definition LockResetSizes (sz : Z) : MP unit :=
  let* s := get in
  if hasMissingTags_ s then ret tt
  else
    let* r := catch (on_ts (ResetSizes sz)) in
    modify (fun s => with_loose loosewriteConfigured_ (lastpgforloose_ s) (checklastpg_ s) s) ;;;
    BasicConsistencyCheck ;;;
    match r with inl _ => ret tt | inr e => fail e end.

(** [Open( path, dsize, flags, envP )]; [ts_open] opens the store, [ro] for [O_RDONLY] *)
Definition Pages_Open (ts_open : M T unit) (dsize : Z) (ro : bool) : MP unit :=
  modify (with_open false false) ;;;
  let* r := catch (on_ts ts_open) in
  match r with
  | inr e =>
      if e =? ENOENT then (if allowMissingTags_ then modify (with_open true false) else fail EDOM)
      else fail e
  | inl _ =>
      modify (with_open false ro) ;;;
      let* s := get in
      modify (with_loose (if (dsize =? 0) && (GetTrackedTagSize (ts_ s) =? 0) then false else loosewriteConfigured_)
                (lastpgforloose_ s) (checklastpg_ s))
  end.

(** [VerificationStatus()]: 0, [PF_csVer] or [PF_csVun] *)
Definition PF_csVer : Z := 1.
Definition PF_csVun : Z := 2.
Definition Pages_VerificationStatus (s : csi) : Z :=
  if hasMissingTags_ s then 0 else if IsVerified (ts_ s) then PF_csVer else PF_csVun.

End Pages.

Arguments csi T : clear implicits.
Arguments MkCsi {T}.
