(* ===== verification/CsiFile.v ===== *)
(** * Files with page checksums

    Models the reads, writes and truncations of src/src/XrdOssCsi/XrdOssCsiFile.cc: how
    they lock, verify or store the checksums and move the data, and what they do when
    something fails. The file is open; [rdonly] says whether for reading only. *)

From stdpp Require Import base tactics list_numbers numbers option list.
From S2P Require Import Prelude CrcRegister OucCRC32C CsiCrc CsiStore CsiPages.
#[local] Set Warnings "-clear-no-such-hyp".
Open Scope csi_scope.

Section File.
  Context {T : Type} `{Tagstore T}.
  Context (mach : machine) (writeHoles_ disablePgExtend_ loosewriteConfigured_ : bool).
  Abbreviation MF := (M (csi T)).

(** A guard lives until the routine returns. *)
Definition with_rg {A} (m : MF A) : MF A :=
  modify (with_guard None false) ;;;
  let* r := catch m in
  ReleaseAll ;;;
  match r with inl a => ret a | inr e => fail e end.

(** [resyncSizes()]; its callers ignore what it returns *)
Definition resyncSizes : MF unit :=
  let* _ := catch (with_rg (
    LockTrackinglen 0 (2 ^ 63 - 1) false ;;;
    let* st_size := on_df df_Fstat in
    let* _ := catch (LockResetSizes mach loosewriteConfigured_ st_size) in ret tt)) in
  ret tt.

(** After a failure: [rg.ReleaseAll(); resyncSizes(); return e] *)
Definition abandon {A} (e : Z) : MF A := ReleaseAll ;;; resyncSizes ;;; fail e.
Definition or_resync {A} (m : MF A) : MF A :=
  let* r := catch m in
  match r with inl a => ret a | inr e => abandon e end.

(** [Read( buff, offset, blen )]: the data read *)
Definition Read (offset blen : Z) : MF (list Z) :=
  with_rg (
    LockTrackinglen offset (offset + blen) true ;;;
    let* buff := on_df (df_Read offset blen) in
    if blen =? 0 then ret buff
    else VerifyRange mach buff offset (zlen buff) ;;; ret buff).

(** The writes of [Write], until all is written. *)
Fixpoint write_loop (fuel : nat) (p : list Z) (offset bwritten : Z) : MF Z :=
  if zlen p <=? 0 then ret bwritten
  else match fuel with
       | O => diverge
       | S fuel =>
           let* wret := or_resync (on_df (df_Write p (offset + bwritten))) in
           write_loop fuel (adv wret p) offset (bwritten + wret)
       end.

(** [Write( buff, offset, blen )] of the whole buffer *)
Definition Write (rdonly : bool) (buff : list Z) (offset : Z) : MF Z :=
  if rdonly then fail EBADF
  else with_rg (
    let blen := zlen buff in
    LockTrackinglen offset (offset + blen) false ;;;
    or_resync (UpdateRange mach writeHoles_ buff offset blen) ;;;
    write_loop (length buff) buff offset 0).

(** The range that a vector of elements covers. *)
Definition vector_range (l : list (Z * Z)) : Z * Z :=
  match l with
  | [] => (0, 0)
  | (o, n) :: l => foldl (fun r e => (Z.min r.1 e.1, Z.max r.2 (e.1 + e.2))) (o, o + n) l
  end.

(** [ReadV] of the file below: an element that is read in part is an error. *)
Fixpoint df_ReadV (l : list (Z * Z)) : M file (list (list Z)) :=
  match l with
  | [] => ret []
  | (o, n) :: l =>
      let* p := df_Read o n in
      if negb (zlen p =? n) then fail ESPIPE else let* q := df_ReadV l in ret (p :: q)
  end.
Fixpoint df_WriteV (l : list (Z * list Z)) : M file Z :=
  match l with
  | [] => ret 0
  | (o, p) :: l =>
      let* n := df_Write p o in
      if negb (n =? zlen p) then fail ESPIPE else let* k := df_WriteV l in ret (n + k)
  end.

Fixpoint verify_each (l : list (Z * list Z)) : MF unit :=
  match l with
  | [] => ret tt
  | (o, p) :: l => (if zlen p =? 0 then ret tt else VerifyRange mach p o (zlen p)) ;;; verify_each l
  end.
Fixpoint update_each (l : list (Z * list Z)) : MF unit :=
  match l with
  | [] => ret tt
  | (o, p) :: l => or_resync (UpdateRange mach writeHoles_ p o (zlen p)) ;;; update_each l
  end.

(** [ReadV( readV, n )] of offsets and sizes: the data of the elements *)
Definition ReadV (l : list (Z * Z)) : MF (list (list Z)) :=
  if zlen l =? 0 then ret []
  else with_rg (
    let r := vector_range l in
    LockTrackinglen r.1 r.2 true ;;;
    let* data := on_df (df_ReadV l) in
    verify_each (zip l.*1 data) ;;;
    ret data).

(** [WriteV( writeV, n )] of offsets and data *)
Definition WriteV (rdonly : bool) (l : list (Z * list Z)) : MF Z :=
  if rdonly then fail EBADF
  else if zlen l =? 0 then ret 0
  else with_rg (
    let r := vector_range ((fun e => (e.1, zlen e.2)) <$> l) in
    LockTrackinglen r.1 r.2 false ;;;
    update_each l ;;;
    or_resync (on_df (df_WriteV l))).

(** The reads of [pgRead], until all is read or the file ends. *)
Fixpoint pgread_loop (fuel : nat) (offset toread : Z) (acc : list Z) : MF (list Z) :=
  match fuel with
  | O => diverge
  | S fuel =>
      let* p := on_df (df_Read offset toread) in
      if zlen p =? 0 then ret acc
      else if toread - zlen p <=? 0 then ret (acc ++ p)
      else pgread_loop fuel (offset + zlen p) (toread - zlen p) (acc ++ p)
  end.

(** [pgRead( buffer, offset, rdlen, csvec, opts )]: the data and [csvec] *)
Definition pgRead (offset rdlen : Z) (want : bool) (opts : Z) : MF (list Z * list Z) :=
  with_rg (
    LockTrackinglen offset (offset + rdlen) true ;;;
    let* buff := pgread_loop (S (Z.to_nat rdlen)) offset rdlen [] in
    if rdlen =? 0 then ret (buff, [])
    else let* csvec := FetchRange mach buff offset (zlen buff) want opts in ret (buff, csvec)).

(** The writes of [pgWrite]: one at least. *)
Fixpoint pgwrite_loop (fuel : nat) (p : list Z) (offset bwritten : Z) : MF Z :=
  match fuel with
  | O => diverge
  | S fuel =>
      let* wret := or_resync (on_df (df_Write p (offset + bwritten))) in
      let p := adv wret p in
      if zlen p <=? 0 then ret (bwritten + wret) else pgwrite_loop fuel p offset (bwritten + wret)
  end.

(** [pgWrite( buffer, offset, wrlen, csvec, opts )]: how much was written, and [csvec] *)
Definition pgWrite (rdonly : bool) (buff : list Z) (offset : Z) (csvec : option (list Z)) (opts : Z) : MF (Z * option (list Z)) :=
  if rdonly then fail EBADF
  else
    let wrlen := zlen buff in
    pgWritePrelockCheck mach buff offset wrlen csvec opts ;;;
    with_rg (
      LockTrackinglen offset (offset + wrlen) false ;;;
      let* csvec := or_resync (StoreRange mach writeHoles_ disablePgExtend_ buff offset wrlen csvec opts) in
      let* n := pgwrite_loop (S (length buff)) buff offset 0 in
      ret (n, csvec)).

(** [Ftruncate( flen )] *)
Definition Ftruncate (rdonly : bool) (flen : Z) : MF unit :=
  if rdonly then fail EBADF
  else with_rg (
    LockTrackinglen flen (2 ^ 63 - 1) false ;;;
    or_resync (truncate mach writeHoles_ flen) ;;;
    or_resync (on_df (df_Ftruncate flen))).

(** [Fstat( buff )]: the size *)
Definition Fstat : MF Z :=
  let* sizes := catch (TrackedSizesGet false) in
  let* st_size := on_df df_Fstat in
  match sizes with
  | inl sizes => ret (Z.max sizes.1 sizes.2)
  | inr _ => ret st_size
  end.

End File.
