(* ===== verification/CsiTags.v ===== *)
(** * The pages of a file and runs on them

    The checksums of the pages of a file, before and after a write, and the predicate
    [does]: what a routine of [CsiPages] gives and leaves in the tags when nothing fails. *)

From stdpp Require Import base tactics list_numbers numbers option list.
From S2P Require Import Prelude CrcRegister OucCRC32C CsiCrc CsiStore CsiPages.
#[local] Set Warnings "-clear-no-such-hyp".
Open Scope csi_scope.

Lemma length_zlen {A} (l : list A) : length l = Z.to_nat (zlen l).
Proof. unfold zlen. lia. Qed.

(** ** Pages of a file after a write *)

(** The checksums of the pages from [i] to before [j]. *)
Definition sums_between (i j : Z) (D : list Z) : list Z := (fun k => checksum (page_of k D)) <$> seqZ i (j - i).

Lemma page_sums_between D : page_sums D = sums_between 0 (npages (zlen D)) D.
Proof. unfold page_sums, sums_between. by rewrite Z.sub_0_r. Qed.

Lemma sums_between_app i j k D : i <= j <= k -> sums_between i k D = sums_between i j D ++ sums_between j k D.
Proof.
  intros Hij. unfold sums_between. replace (k - i) with ((j - i) + (k - j)) by lia. rewrite seqZ_app, fmap_app by lia.
  by replace (i + (j - i)) with j by lia.
Qed.

Lemma sums_between_nil i D : sums_between i i D = [].
Proof. unfold sums_between. by rewrite Z.sub_diag. Qed.

Lemma sums_between_one i D : sums_between i (i + 1) D = [checksum (page_of i D)].
Proof. unfold sums_between. replace (i + 1 - i) with 1 by lia. rewrite seqZ_cons by lia. by rewrite seqZ_nil by lia. Qed.

Lemma zlen_sums_between i j D : i <= j -> zlen (sums_between i j D) = j - i.
Proof. intros. unfold sums_between, zlen. rewrite length_fmap, length_seqZ. lia. Qed.

Lemma lookup_sums_between i j D (k : nat) : Z.of_nat k < j - i -> sums_between i j D !! k = Some (checksum (page_of (i + Z.of_nat k) D)).
Proof. intros. unfold sums_between. by rewrite list_lookup_fmap, lookup_seqZ_lt by lia. Qed.

Lemma sums_between_ext i j D D' : (forall k, i <= k < j -> page_of k D = page_of k D') -> sums_between i j D = sums_between i j D'.
Proof.
  intros Hk. unfold sums_between. apply list_fmap_ext. intros n k Hn%list_elem_of_lookup_2%elem_of_seqZ. by rewrite Hk by lia.
Qed.

Lemma npages_nonneg n : 0 <= n -> 0 <= npages n.
Proof. intros. unfold npages, PageSize. lia_div. Qed.

Lemma zlen_page_sums D : zlen (page_sums D) = npages (zlen D).
Proof. rewrite page_sums_between, zlen_sums_between; [lia|apply npages_nonneg, zlen_nonneg]. Qed.

Lemma sums_words i j D : Forall is_byte D -> Forall word (sums_between i j D).
Proof. intros Hb. apply Forall_fmap, Forall_forall. intros k _. by apply checksum_word, slice_bytes. Qed.

(** What a page holds that reaches behind the end of the file. *)
Lemma page_of_end i D : 0 <= i -> zlen D <= PageSize * (i + 1) -> page_of i D = slice (PageSize * i) (Z.max 0 (zlen D - PageSize * i)) D.
Proof. intros. unfold page_of. apply slice_clip; unfold PageSize in *; lia. Qed.

Lemma page_of_min k D : 0 <= k -> page_of k D = slice (PageSize * k) (Z.min PageSize (zlen D - PageSize * k)) D.
Proof.
  intros Hk. unfold page_of. apply list_eq. intros i. rewrite !lookup_slice_all.
  repeat case_decide; try done; try lia. apply lookup_ge_None_2. unfold zlen, PageSize in *. lia.
Qed.

Lemma slice_app_l off n a b : 0 <= off -> off + n <= zlen a -> slice off n (a ++ b) = slice off n a.
Proof.
  intros Ho Hn. apply list_eq. intros i. rewrite !lookup_slice_all. case_decide; [|done].
  unfold zlen in *. apply lookup_app_l. lia.
Qed.

Lemma slice_app_r off n a b : zlen a <= off -> slice off n (a ++ b) = slice (off - zlen a) n b.
Proof.
  intros Ho. apply list_eq. intros i. rewrite !lookup_slice_all. case_decide; [|done].
  unfold zlen in *. rewrite lookup_app_r by lia. f_equal. lia.
Qed.

Lemma slice_all n l : zlen l <= n -> slice 0 n l = l.
Proof. intros Hn. unfold slice. apply take_ge. unfold zlen in Hn. lia. Qed.

Lemma slice_adv off k n l : 0 <= off -> 0 <= k -> slice off n (adv k l) = slice (k + off) n l.
Proof. intros Ho Hk. unfold slice, adv. rewrite drop_drop. do 2 f_equal. lia. Qed.

Lemma slice_take off n k l : 0 <= off -> 0 <= n -> off + n <= k -> slice off n (take (Z.to_nat k) l) = slice off n l.
Proof.
  intros Ho Hn Hk. apply list_eq. intros i. rewrite !lookup_slice_all. case_decide; [|done]. apply lookup_take_lt. lia.
Qed.

Lemma slice_slice off n k m l : 0 <= off -> 0 <= k -> k + m <= n -> slice k m (slice off n l) = slice (off + k) m l.
Proof.
  intros Ho Hk Hm. apply list_eq. intros i. rewrite !lookup_slice_all. repeat (case_decide; try lia); [|done]. f_equal. lia.
Qed.

Lemma slice_replicate off n k (x : Z) : 0 <= off -> 0 <= n -> off + n <= Z.of_nat k -> slice off n (replicate k x) = replicate (Z.to_nat n) x.
Proof.
  intros Ho Hn Hk. unfold slice. rewrite drop_replicate, take_replicate. f_equal. lia.
Qed.

(** ** A file extended with zero bytes up to a page *)

Definition zero_extended (n : Z) (D : list Z) : list Z := D ++ replicate (Z.to_nat (n - zlen D)) 0.

Lemma zlen_zero_extended n D : zlen (zero_extended n D) = Z.max n (zlen D).
Proof. unfold zero_extended, zlen. rewrite length_app, length_replicate. lia. Qed.

Lemma zero_extended_bytes n D : Forall is_byte D -> Forall is_byte (zero_extended n D).
Proof. intros. apply Forall_app_2; [done|apply is_byte_zeros]. Qed.

Lemma zero_extended_short n D : n <= zlen D -> zero_extended n D = D.
Proof. intros. unfold zero_extended. replace (Z.to_nat (n - zlen D)) with O by lia. apply app_nil_r. Qed.

Section after_write.
  Context (D B : list Z) (o : Z).
  Hypothesis Ho : 0 <= o.
  Hypothesis HB : B <> [].
  Abbreviation D' := (write_at o B D).
  Abbreviation N := (zlen D).
  Abbreviation len := (zlen B).

Lemma len_pos : 0 < len.
Proof using HB. destruct B; [done|]. rewrite zlen_cons. pose proof (zlen_nonneg l). lia. Qed.

Lemma zlen_after : zlen D' = Z.max N (o + len).
Proof using Ho HB. by apply zlen_write_at. Qed.

(** Before the write: the old bytes, or zero bytes in a gap. *)
Lemma slice_before a k : 0 <= a -> 0 <= k -> a + k <= o -> slice a k D' = slice a k (zero_extended o D).
Proof using Ho HB.
  intros Ha Hk Hao. apply list_eq. intros i. rewrite !lookup_slice_all. case_decide; [|done].
  rewrite lookup_write_at by done. rewrite decide_True by lia. unfold zero_extended, zlen. case_decide.
  - by rewrite lookup_app_l.
  - rewrite lookup_app_r by lia. symmetry. apply lookup_replicate. lia.
Qed.

Lemma page_before i : 0 <= i -> PageSize * (i + 1) <= o -> page_of i D' = page_of i (zero_extended o D).
Proof using Ho HB. intros. apply slice_before; unfold PageSize in *; lia. Qed.

(** Pages behind the write. *)
Lemma page_behind i : 0 <= i -> o + len <= PageSize * i -> page_of i D' = page_of i D.
Proof using Ho. intros. by apply slice_write_above. Qed.

(** Pages that the write covers as far as the file goes. *)
Lemma page_covered i k : 0 <= i -> 0 <= k -> o <= PageSize * k ->
  PageSize * (k + i + 1) <= o + len \/ N <= o + len ->
  page_of (k + i) D' = page_of i (adv (PageSize * k - o) B).
Proof using Ho HB.
  intros Hi Hk Hok Hc. pose proof len_pos as Hlp. unfold page_of. rewrite slice_adv by (unfold PageSize in *; lia).
  replace (PageSize * k - o + PageSize * i) with (PageSize * (k + i) - o) by lia.
  assert (o <= PageSize * (k + i)) by (unfold PageSize in *; lia).
  destruct (Z.le_gt_cases (PageSize * (k + i) + PageSize) (o + len)) as [Hin|Hout]; [apply slice_write_inside; lia|].
  assert (N <= o + len) as HN by (destruct Hc; [unfold PageSize in *; lia|done]).
  destruct (Z.le_gt_cases (o + len) (PageSize * (k + i))).
  - rewrite !slice_short; [done|lia|lia|lia|]. rewrite zlen_after. lia.
  - rewrite (slice_clip _ _ D'), (slice_clip _ _ B) by (rewrite ?zlen_after; lia). rewrite zlen_after.
    replace (Z.max 0 (len - (PageSize * (k + i) - o))) with (Z.max 0 (Z.max N (o + len) - PageSize * (k + i))) by lia.
    apply slice_write_inside; lia.
Qed.

(** The sums of the pages that the write covers are those of the user's pages. *)
Lemma covered_sums k : 0 <= k -> o <= PageSize * k -> PageSize * k <= o + len -> (o + len) mod PageSize = 0 \/ N <= o + len ->
  sums_between k (npages (o + len)) D' = page_sums (adv (PageSize * k - o) B).
Proof using Ho HB.
  intros Hk Hok Hkl Hc. set (p := adv (PageSize * k - o) B).
  assert (zlen p = o + len - PageSize * k) as Hp by (unfold p; rewrite zlen_adv by lia; lia).
  assert (npages (zlen p) = npages (o + len) - k) as Hn by (rewrite Hp; unfold npages, PageSize in *; lia_div).
  rewrite page_sums_between. unfold sums_between. rewrite Hn, Z.sub_0_r.
  rewrite <- (fmap_add_seqZ k 0) || idtac. replace (seqZ k (npages (o + len) - k)) with (Z.add k <$> seqZ 0 (npages (o + len) - k))
    by (rewrite fmap_add_seqZ; f_equal; lia).
  rewrite <- list_fmap_compose. apply list_fmap_ext. intros _ i Hi%list_elem_of_lookup_2%elem_of_seqZ.
  cbn [compose]. f_equal. apply page_covered; [lia..|]. destruct Hc as [Hc|Hc]; [left|by right].
  unfold npages, PageSize in *. lia_div.
Qed.

Lemma covered_full_sums k j : 0 <= k -> o <= PageSize * k -> k <= j -> PageSize * j <= o + len ->
  sums_between k j D' = page_sums (take (Z.to_nat (PageSize * (j - k))) (adv (PageSize * k - o) B)).
Proof using Ho HB.
  intros Hk Hok Hkj Hj. set (p := take _ _).
  assert (zlen p = PageSize * (j - k)) as Hp.
  { unfold p, zlen, adv in *. rewrite length_take, length_drop. unfold PageSize in *. lia. }
  assert (npages (zlen p) = j - k) as Hn by (rewrite Hp; unfold npages, PageSize in *; lia_div).
  rewrite page_sums_between. unfold sums_between. rewrite Hn, Z.sub_0_r.
  replace (seqZ k (j - k)) with (Z.add k <$> seqZ 0 (j - k)) by (rewrite fmap_add_seqZ; f_equal; lia).
  rewrite <- list_fmap_compose. apply list_fmap_ext. intros _ i Hi%list_elem_of_lookup_2%elem_of_seqZ.
  cbn [compose]. f_equal. rewrite page_covered by (unfold PageSize in *; lia).
  unfold page_of, p. rewrite slice_take; [done|unfold PageSize in *; lia..].
Qed.

(** The tags of the extended file with those of the written pages put in are the tags of
    the file afterwards. *)
Lemma tags_final p1 : 0 <= p1 -> p1 = o / PageSize ->
  write_at p1 (sums_between p1 (npages (o + len)) D') (page_sums (if N / PageSize <? p1 then zero_extended (PageSize * p1) D else D))
    = page_sums D'.
Proof using Ho HB.
  intros Hp1 Hpo. pose proof len_pos as Hlp. pose proof (zlen_nonneg D) as HN. set (E := if N / PageSize <? p1 then zero_extended (PageSize * p1) D else D).
  assert (p1 < npages (o + len)) as Hlt by (unfold npages, PageSize in *; lia_div).
  set (L := sums_between p1 (npages (o + len)) D').
  assert (zlen L = npages (o + len) - p1) as HL by (apply zlen_sums_between; lia).
  assert (L <> []) as HLn by (intros H; rewrite H in HL; rewrite zlen_nil in HL; lia).
  assert (npages (zlen D') = Z.max (npages N) (npages (o + len))) as Hn'.
  { rewrite zlen_after. unfold npages, PageSize. lia_div. }
  assert (npages (zlen E) = Z.max (npages N) (if N / PageSize <? p1 then p1 else 0)) as HnE.
  { unfold E. destruct (Z.ltb_spec (N / PageSize) p1); [|pose proof (npages_nonneg N HN); lia].
    rewrite zlen_zero_extended. unfold npages, PageSize in *. lia_div. }
  assert (length (page_sums E) = Z.to_nat (npages (zlen E))) as HlE by (by rewrite length_zlen, zlen_page_sums).
  apply list_eq. intros i. rewrite (page_sums_between D').
  destruct (decide (Z.of_nat i < npages (zlen D'))) as [Hi|Hi].
  2: { rewrite !lookup_ge_None_2; [done| |].
       - rewrite length_zlen, zlen_sums_between by (apply npages_nonneg, zlen_nonneg). lia.
       - rewrite length_write_at, HlE, (length_zlen L), HL by done. destruct (N / PageSize <? p1); lia. }
  rewrite lookup_sums_between by lia. rewrite lookup_write_at by done. rewrite Z.add_0_l.
  rewrite (length_zlen L), HL. case_decide as Hd; [|case_decide as He].
  - assert (PageSize * (Z.of_nat i + 1) <= o) by (unfold PageSize in *; lia_div).
    rewrite decide_True.
    2: { rewrite HlE, HnE. destruct (Z.ltb_spec (N / PageSize) p1); [lia|]. unfold npages, PageSize in *. lia_div. }
    rewrite page_sums_between, lookup_sums_between.
    2: { rewrite HnE. destruct (Z.ltb_spec (N / PageSize) p1); [lia|]. unfold npages, PageSize in *. lia_div. }
    rewrite Z.add_0_l. do 2 f_equal. rewrite page_before by lia. unfold E. apply list_eq. intros j.
    unfold page_of. rewrite !lookup_slice_all. case_decide; [|done]. unfold zero_extended, zlen, PageSize in *.
    destruct (Z.ltb_spec (Z.of_nat (length D) / 4096) p1).
    + destruct (decide (Z.to_nat (4096 * Z.of_nat i) + j < length D)%nat); [by rewrite !lookup_app_l|].
      rewrite !lookup_app_r by lia. rewrite !lookup_replicate_2 by lia. done.
    + rewrite lookup_app_l by lia_div. done.
  - unfold L. rewrite lookup_sums_between by lia. do 3 f_equal. lia.
  - rewrite page_sums_between, lookup_sums_between by lia. rewrite Z.add_0_l. do 2 f_equal.
    assert (E = D) as ->.
    { unfold E. destruct (Z.ltb_spec (N / PageSize) p1); [|done]. exfalso.
      rewrite Hn' in Hi. unfold npages, PageSize in *. lia_div. }
    symmetry. apply page_behind; [lia|]. unfold npages, PageSize in *. lia_div.
Qed.

(** The first page that is written to: what there was before, the user's bytes, and the
    old bytes behind them. *)
Lemma page_head : let p1 := o / PageSize in let po := o mod PageSize in let n := Z.min len (PageSize - po) in
  page_of p1 D' = slice (PageSize * p1) po (zero_extended o D) ++ take (Z.to_nat n) B ++
    slice (o + n) (Z.min PageSize (N - PageSize * p1) - po - n) D.
Proof using Ho HB.
  intros p1 po n. pose proof len_pos as Hlp.
  assert (o = PageSize * p1 + po /\ 0 <= po < PageSize /\ 0 <= p1) as (Hop & Hpo & Hp1) by (unfold p1, po, PageSize; lia_div).
  assert (0 < n <= len /\ n <= PageSize - po) as (Hn1 & Hn2) by (unfold n; lia).
  unfold page_of. replace PageSize with (po + (n + (PageSize - po - n))) at 2 by lia. rewrite !slice_add by (unfold PageSize in *; lia).
  replace (PageSize * p1 + po) with o by lia. f_equal; [|f_equal].
  - apply slice_before; unfold PageSize in *; lia.
  - rewrite slice_write_inside by lia. unfold slice. by rewrite Z.sub_diag.
  - destruct (Z.min_spec len (PageSize - po)) as [[Hlt Hm]|[Hge Hm]]; fold n in Hm.
    + rewrite Hm, slice_write_above by lia. apply list_eq. intros i. rewrite !lookup_slice_all.
      repeat case_decide; try lia; try done. apply lookup_ge_None_2. unfold zlen in *. lia.
    + rewrite Hm. replace (PageSize - po - (PageSize - po)) with 0 by lia. rewrite slice_0. symmetry.
      unfold slice. replace (Z.to_nat _) with O by lia. apply take_0.
Qed.

(** The last page that is written to, when the file goes on behind the write. *)
Lemma page_tail : let p2 := (o + len) / PageSize in let n := (o + len) mod PageSize in
  0 < n -> o <= PageSize * p2 -> o + len <= N ->
  page_of p2 D' = adv (len - n) B ++ slice (o + len) (Z.min PageSize (N - PageSize * p2) - n) D.
Proof using Ho HB.
  intros p2 n Hn Hop HN. pose proof len_pos as Hlp.
  assert (o + len = PageSize * p2 + n /\ 0 <= n < PageSize /\ 0 <= p2) as (Heq & Hn' & Hp2) by (unfold p2, n, PageSize; lia_div).
  unfold page_of. replace PageSize with (n + (PageSize - n)) at 2 by lia. rewrite slice_add by (unfold PageSize in *; lia).
  rewrite <- Heq. f_equal.
  - rewrite slice_write_inside by lia. unfold slice, adv. replace (PageSize * p2 - o) with (len - n) by lia.
    apply take_ge. rewrite length_drop. unfold zlen in *. lia.
  - rewrite slice_write_above by lia. apply list_eq. intros i. rewrite !lookup_slice_all.
    repeat case_decide; try lia; try done. apply lookup_ge_None_2. unfold zlen in *. lia.
Qed.

End after_write.

(** ** Runs in which nothing fails *)

Section runs.
  Context {T : Type} `{TagstoreLaws T}.
  Context (mach : machine) (loosewriteConfigured_ : bool).
  Abbreviation MP := (M (csi T)).

(** The data file holds [D] and the store the tags [tgs], and nothing will fail. *)
Record ready (D tgs : list Z) (s : csi T) : Prop := {
  r_content : content (df s) = D;
  r_quiet : quiet (df s);
  r_store : store_ok (ts_ s);
  r_calm : calm (ts_ s);
  r_tags : tags (ts_ s) = tgs }.

(** What a routine on the tags leaves as it is. *)
Record frame (s s' : csi T) : Prop := {
  f_missing : hasMissingTags_ s' = hasMissingTags_ s;
  f_rdonly : rdonly_ s' = rdonly_ s;
  f_loose : loosewrite_ s' = loosewrite_ s;
  f_update : tsforupdate_ s' = tsforupdate_ s;
  f_sizes : trackingsizes_ s' = trackingsizes_ s;
  f_locked : trackinglenlocked_ s' = trackinglenlocked_ s;
  f_tracked : GetTrackedTagSize (ts_ s') = GetTrackedTagSize (ts_ s);
  f_actual : GetTrackedDataSize (ts_ s') = GetTrackedDataSize (ts_ s);
  f_verified : IsVerified (ts_ s') = IsVerified (ts_ s) }.

#[export] Instance frame_preorder : PreOrder frame.
Proof. split; [by intros s|]. intros s1 s2 s3 [] []. split; congruence. Qed.

(** [m] gives [x] and leaves the tags [tgs]. *)
Definition does {A} (m : MP A) (s : csi T) (x : A) (D tgs : list Z) : Prop :=
  returns m s (fun r s' => r = inl x /\ ready D tgs s' /\ frame s s').

Lemma does_bind {A B} (m : MP A) (f : A -> MP B) s x y D t1 t2 :
  does m s x D t1 -> (forall s1, ready D t1 s1 -> frame s s1 -> does (f x) s1 y D t2) -> does (bind m f) s y D t2.
Proof.
  intros Hm Hf. eapply returns_bind; [exact Hm| |].
  - intros a s1 ([= ->] & Hr & Hfr). eapply returns_impl; [exact (Hf s1 Hr Hfr)|].
    intros r s2 (-> & Hr2 & Hfr2). split; [done|]. split; [done|]. by transitivity s1.
  - intros e s1 (? & _). done.
Qed.

Lemma does_ret {A} (x : A) s D tgs : ready D tgs s -> does (ret x) s x D tgs.
Proof. intros Hr. by apply returns_ret. Qed.

Lemma does_lift {A} (r : res A) x s D tgs : r = Ok x -> ready D tgs s -> does (lift r) s x D tgs.
Proof. intros Hx Hr. by eapply returns_lift. Qed.

(** A bind whose first routine has no state. *)
Lemma does_lift_bind {A B} (r : res A) (f : A -> MP B) s x y D tgs t2 :
  r = Ok x -> ready D tgs s -> does (f x) s y D t2 -> does (bind (lift r) f) s y D t2.
Proof. intros -> Hr Hf. unfold does, returns, bind, lift. exact Hf. Qed.

Lemma does_get_bind {B} (f : csi T -> MP B) s y D t2 : does (f s) s y D t2 -> does (bind get f) s y D t2.
Proof. intros Hf. exact Hf. Qed.

Lemma does_ReadTags s D tgs off n : ready D tgs s -> 0 <= off -> 0 < n -> off + n <= zlen tgs ->
  does (on_ts (ReadTags off n)) s (slice off n tgs) D tgs.
Proof.
  intros [Hc Hq Hs Hca Ht] Ho Hn Hin.
  destruct (ReadTags_law (ts_ s) off n Hs Ho Hn) as (r & t' & Hr & Hs' & Hca' & Ht' & H1 & H2 & H3 & Hp).
  exists r, (with_ts t' s). unfold on_ts, zoom. rewrite Hr. split; [done|].
  destruct r as [l|e]; [|destruct Hp as [_ Hp]; specialize (Hp Hca); rewrite Ht in Hp; lia].
  destruct Hp as [-> _]. rewrite Ht. split; [done|]. split; [|done]. split; cbn; try done; [auto|by rewrite Ht'].
Qed.

Lemma does_WriteTags s D tgs off buf : ready D tgs s -> 0 <= off <= zlen tgs -> buf <> [] -> Forall word buf ->
  does (on_ts (WriteTags buf off)) s (zlen buf) D (write_at off buf tgs).
Proof.
  intros [Hc Hq Hs Hca Ht] Ho Hb Hw.
  destruct (WriteTags_law (ts_ s) off buf Hs (proj1 Ho) Hb Hw) as (r & t' & Hr & Hs' & Hca' & H1 & H2 & H3 & _ & Hp).
  exists r, (with_ts t' s). unfold on_ts, zoom. rewrite Hr. split; [done|].
  destruct r as [n|e]; [|by destruct Hp].
  destruct Hp as [-> Hp]. split; [done|]. split; [|done]. split; cbn; try done; [auto|]. rewrite Hp, Ht; [done|]. rewrite Ht. lia.
Qed.

(** Reading as much as there is. *)
Lemma maxread_loop_spec fuel : forall f off toread tg acc, 0 <= off -> 0 <= toread <= Z.of_nat fuel -> quiet f ->
  zlen acc + zlen (slice off toread (content f)) <= tg ->
  exists f', maxread_loop fuel off toread tg acc f = Ok (inl (acc ++ slice off toread (content f)), f') /\
    content f' = content f /\ quiet f'.
Proof.
  induction fuel as [|fuel IH]; intros f off toread tg acc Ho Ht Hq Htg; cbn [maxread_loop].
  - replace toread with 0 in * by lia. rewrite (proj2 (Z.ltb_ge 0 0)) by lia. cbn [andb].
    exists f. rewrite slice_0, app_nil_r. done.
  - destruct (Z.ltb_spec 0 toread) as [Hpos|]; cbn [andb].
    2: { replace toread with 0 in * by lia. exists f. rewrite slice_0, app_nil_r. done. }
    destruct (Z.ltb_spec (zlen acc) tg) as [Hlt|Hge].
    2: { assert (slice off toread (content f) = []) as -> by (apply zlen_zero_nil; pose proof (zlen_nonneg (slice off toread (content f))); lia).
         exists f. rewrite app_nil_r. done. }
    destruct (df_Read_gives f off toread Ho Hpos) as (r & f1 & Hr & Hq1 & Hp). unfold bind. rewrite Hr.
    destruct r as [p|e]; [|destruct Hp as (_ & Hn & _); done].
    destruct Hp as [Hc (k & Hk & ->)]. rewrite Hc in *. destruct (Z.eqb_spec (zlen (slice off k (content f))) 0) as [Hz|Hz].
    + apply zlen_zero_nil in Hz. apply slice_nil in Hz; [|lia..]. exists f1. rewrite slice_short by lia. rewrite app_nil_r. auto.
    + set (n := zlen (slice off k (content f))) in *. assert (0 < n <= k) as Hn by (unfold n in *; rewrite zlen_slice in * by lia; lia).
      assert (slice off k (content f) = slice off n (content f)) as Hkn.
      { unfold n. rewrite zlen_slice by lia. destruct (Z.min_spec k (Z.max 0 (zlen (content f) - off))) as [[? ->]|[? ->]]; [done|].
        by rewrite slice_clip by lia. }
      assert (slice off toread (content f) = slice off n (content f) ++ slice (off + n) (toread - n) (content f)) as Hsp.
      { replace toread with (n + (toread - n)) at 1 by lia. apply slice_add; lia. }
      destruct (IH f1 (off + n) (toread - n) tg (acc ++ slice off k (content f))) as (f' & Hr' & Hc' & Hq'); [lia|lia|auto| |].
      { rewrite Hc, Hkn, zlen_app in *. rewrite Hsp, zlen_app in Htg. lia. }
      exists f'. rewrite Hr', Hc, Hsp, Hkn, <- app_assoc. split; [done|]. split; [congruence|done].
Qed.

Lemma does_maxread s D tgs off sz tg : ready D tgs s -> 0 <= off -> 0 <= sz -> 0 <= tg ->
  (tg = 0 \/ zlen (slice off sz D) <= tg) -> does (maxread off sz tg) s (slice off sz D) D tgs.
Proof.
  intros [Hc Hq Hs Hca Ht] Ho Hsz Htg Hd.
  destruct (maxread_loop_spec (Z.to_nat sz) (df s) off sz (if tg =? 0 then sz else tg) []) as (f' & Hr & Hc' & Hq'); [lia|lia|done| |].
  { rewrite Hc. destruct (Z.eqb_spec tg 0); [rewrite zlen_slice by lia; rewrite zlen_nil; lia|]. rewrite zlen_nil. destruct Hd; lia. }
  exists (inl (slice off sz D)), (with_df f' s). unfold maxread, on_df, zoom. rewrite Hr, Hc. split; [done|].
  split; [done|]. split; [|done]. split; cbn; try done. congruence.
Qed.

Lemma does_fullread s D tgs off sz : ready D tgs s -> 0 <= off -> 0 <= sz -> off + sz <= zlen D ->
  does (pg_fullread off sz) s (slice off sz D) D tgs.
Proof.
  intros Hr Ho Hsz Hin. eapply does_bind; [apply (does_maxread s D tgs); auto; lia|]. intros s1 Hr1 Hf1.
  rewrite zlen_slice by lia. rewrite (proj2 (Z.eqb_eq _ sz)) by lia. by apply does_ret.
Qed.

(** ** Checksums of buffers *)

Lemma Calc_sum buf n : Forall is_byte buf -> 0 <= n <= zlen buf -> Calc32C mach buf n 0 = Ok (checksum (take (Z.to_nat n) buf)).
Proof. intros. by apply crc32c_checksum. Qed.

Lemma Calc_more a buf n : Forall is_byte a -> Forall is_byte buf -> 0 <= n <= zlen buf ->
  Calc32C mach buf n (checksum a) = Ok (checksum (a ++ take (Z.to_nat n) buf)).
Proof. intros. by apply crc32c_continue. Qed.

Lemma extend_zeros a n : Forall is_byte a -> 0 <= n <= PageSize ->
  crc32c_extendwith_zero mach (checksum a) n = Ok (checksum (a ++ replicate (Z.to_nat n) 0)).
Proof.
  intros Ha Hn. destruct (CrcUtils_parts mach a (replicate (Z.to_nat n) 0) Ha (is_byte_zeros _)) as (_ & _ & _ & H4).
  - unfold zlen. rewrite length_replicate. lia.
  - unfold zlen in H4. rewrite length_replicate, Z2Nat.id in H4 by lia. exact H4.
Qed.

Lemma combine_sums a b n : Forall is_byte a -> Forall is_byte b -> zlen b = n -> n <= PageSize ->
  CrcUtils_combine mach (checksum a) (checksum b) n = Ok (checksum (a ++ b)).
Proof. intros Ha Hb <- Hn. by apply CrcUtils_parts. Qed.

Lemma checksum_nil : checksum [] = 0.
Proof. done. Qed.

Lemma Calc_pages buf n : Forall is_byte buf -> 0 <= n <= zlen buf -> Calc32C_pages mach buf n = Ok (page_sums (take (Z.to_nat n) buf)).
Proof.
  intros Hb Hn. assert (zlen (take (Z.to_nat n) buf) = n) as Hl by (unfold zlen in *; rewrite length_take; lia).
  rewrite <- (take_drop (Z.to_nat n) buf) at 1. rewrite <- Hl at 3. apply Calc32C_pages_prefix. by rewrite take_drop.
Qed.

(** The sums of some of the pages of a block. *)
Lemma sums_of_part buf k n : 0 <= k -> 0 <= n -> PageSize * k + n <= zlen buf ->
  n mod PageSize = 0 \/ PageSize * k + n = zlen buf ->
  page_sums (take (Z.to_nat n) (adv (PageSize * k) buf)) = slice k (npages n) (page_sums buf).
Proof.
  intros Hk Hn Hin Hend. set (p := take _ _).
  assert (zlen p = n) as Hp by (unfold p, zlen, adv in *; rewrite length_take, length_drop; unfold PageSize in *; lia).
  rewrite !page_sums_between, Hp. apply list_eq. intros i. rewrite lookup_slice_all.
  case_decide as Hi.
  - rewrite lookup_sums_between by lia. rewrite lookup_sums_between by (unfold npages, PageSize in *; lia_div).
    do 2 f_equal. unfold page_of, p. apply list_eq. intros j. rewrite !lookup_slice_all. case_decide; [|done].
    unfold adv. rewrite !lookup_take, lookup_drop. unfold zlen in *.
    case_decide as Hd; [f_equal; unfold PageSize in *; lia|]. symmetry. apply lookup_ge_None_2.
    unfold npages, PageSize in *. lia_div.
  - rewrite lookup_ge_None_2; [done|]. rewrite length_zlen, zlen_sums_between by (apply npages_nonneg; lia). lia.
Qed.

End runs.
