(* ===== verification/CsiWrite.v ===== *)
(** * What a write stores

    Proofs about the storing half of [CsiPages]: when nothing fails, storing a range
    leaves in the tag file the checksums of the pages that the file will have. *)

From stdpp Require Import base tactics list_numbers numbers option list.
From S2P Require Import Prelude CrcRegister OucCRC32C CsiCrc CsiStore CsiPages CsiTags.
#[local] Set Warnings "-clear-no-such-hyp".
Open Scope csi_scope.

Section runs.
  Context {T : Type} `{TagstoreLaws T}.
  Context (mach : machine).

(** ** The loop that writes tags *)

Section apply.
  Context (buff : list Z) (csvec : option (list Z)) (lastblockset : bool) (cslast : Z).
  Hypothesis buff_bytes : Forall is_byte buff.
  Hypothesis buff_some : 0 < zlen buff.
  Hypothesis csvec_sums : forall cs, csvec = Some cs -> cs = page_sums buff.
  Hypothesis last_short : lastblockset = true -> zlen buff mod PageSize <> 0.
  Hypothesis cslast_word : word cslast.

(** All that is to be written behind the value for the page before. *)
Definition block_tags : list Z :=
  if lastblockset then take (Z.to_nat (zlen buff / PageSize)) (page_sums buff) ++ [cslast] else page_sums buff.

Lemma zlen_block_tags : zlen block_tags = npages (zlen buff).
Proof using buff_some last_short.
  unfold block_tags. destruct lastblockset; [|apply zlen_page_sums]. specialize (last_short eq_refl).
  rewrite zlen_app, zlen_cons, zlen_nil. unfold zlen at 1. rewrite length_take, length_zlen, zlen_page_sums.
  unfold npages, PageSize in *. lia_div.
Qed.

Lemma block_tags_words : Forall word block_tags.
Proof using buff_bytes cslast_word.
  clear last_short. unfold block_tags. rewrite page_sums_between. destruct lastblockset; [|by apply sums_words].
  apply Forall_app_2; [by apply Forall_take, sums_words|by apply Forall_singleton].
Qed.

(** One buffer full of sums. *)
Lemma chunk_tags k cnt : 0 <= k < npages (zlen buff) -> 0 < cnt -> PageSize * k + cnt <= zlen buff ->
  cnt mod PageSize = 0 \/ PageSize * k + cnt = zlen buff ->
  let short := negb (cnt mod PageSize =? 0) && lastblockset in
  let cnt' := if short : bool then PageSize * (cnt / PageSize) else cnt in
  page_sums (take (Z.to_nat cnt') (adv (PageSize * k) buff)) ++ (if short : bool then [cslast] else []) = slice k (npages cnt) block_tags.
Proof using buff_bytes buff_some last_short.
  intros Hk Hc Hin Hend short cnt'.
  assert (page_sums (take (Z.to_nat cnt') (adv (PageSize * k) buff)) = slice k (npages cnt') (page_sums buff)) as ->.
  { apply sums_of_part; unfold cnt'; destruct short; try (unfold PageSize in *; lia_div); try done. }
  unfold cnt', short, block_tags in *. destruct lastblockset; rewrite ?andb_true_r, ?andb_false_r in *; cbv iota; [|by rewrite app_nil_r].
  specialize (last_short eq_refl).
  assert (zlen (take (Z.to_nat (zlen buff / PageSize)) (page_sums buff)) = zlen buff / PageSize) as Hlt.
  { unfold zlen at 1. rewrite length_take, length_zlen, zlen_page_sums. unfold npages, PageSize in *. lia_div. }
  destruct (Z.eqb_spec (cnt mod PageSize) 0) as [Hz|Hz]; cbn [negb].
  - rewrite app_nil_r, slice_app_l by (rewrite ?Hlt; unfold npages, PageSize in *; lia_div).
    rewrite slice_take; [done|unfold npages, PageSize in *; lia_div..].
  - destruct Hend as [?|Hend]; [done|].
    replace (npages cnt) with (cnt / PageSize + 1) by (unfold npages, PageSize in *; lia_div).
    replace (npages (PageSize * (cnt / PageSize))) with (cnt / PageSize) by (unfold npages, PageSize in *; lia_div).
    rewrite slice_add by (unfold PageSize in *; lia_div). f_equal.
    + rewrite slice_app_l by (rewrite ?Hlt; unfold PageSize in *; lia_div). rewrite slice_take; [done|unfold PageSize in *; lia_div..].
    + rewrite slice_app_r by (rewrite Hlt; unfold PageSize in *; lia_div). rewrite Hlt.
      replace (k + cnt / PageSize - zlen buff / PageSize) with 0 by (unfold PageSize in *; lia_div). done.
Qed.

Lemma apply_loop_internal fuel : forall s D tgs sp dopre k nblk calcbytot, ready D tgs s ->
  0 <= k <= npages (zlen buff) -> (k < npages (zlen buff) -> calcbytot = PageSize * k) ->
  (match dopre with Some v => word v /\ k = 0 | None => True end) ->
  let pre := match dopre with Some v => [v] | None => [] end in
  zlen pre + (npages (zlen buff) - k) <= Z.of_nat fuel ->
  0 <= sp + nblk <= zlen tgs ->
  does (apply_loop mach fuel buff (zlen buff) csvec true lastblockset cslast sp dopre (zlen pre + (npages (zlen buff) - k)) nblk calcbytot) s
    (nblk + (zlen pre + (npages (zlen buff) - k))) D (write_at (sp + nblk) (pre ++ drop (Z.to_nat k) block_tags) tgs).
Proof using buff_bytes buff_some csvec_sums last_short cslast_word.
  assert (0 < npages (zlen buff)) as Hnp by (unfold npages, PageSize in *; lia_div).
  induction fuel as [|fuel IH]; intros s D tgs sp dopre k nblk calcbytot Hr Hk Hct Hpre pre Hf Hsp; cbn [apply_loop];
    (destruct (Z.leb_spec (zlen pre + (npages (zlen buff) - k)) 0) as [Hz|Hz];
      [assert (k = npages (zlen buff) /\ pre = []) as [-> ->]
         by (pose proof (zlen_nonneg pre); split; [lia|apply zlen_zero_nil; lia]);
       rewrite (drop_ge block_tags) by (rewrite length_zlen, zlen_block_tags; lia);
       replace (nblk + _) with nblk by (rewrite zlen_nil; lia); by apply does_ret|]).
  { lia. }
  assert (k < npages (zlen buff)) as Hk'.
  { destruct dopre; [destruct Hpre as [_ ->]; lia|]. change (zlen pre) with 0 in Hz. lia. }
  rewrite Hct by done. fold pre. assert (zlen pre = 0 \/ zlen pre = 1) as Hpl by (unfold pre; destruct dopre; auto).
  set (cnt := Z.min (zlen buff - PageSize * k) ((stsize_ - zlen pre) * PageSize)).
  assert (0 < cnt /\ PageSize * k + cnt <= zlen buff) as [Hc1 Hc2] by (unfold cnt, stsize_, npages, PageSize in *; lia_div).
  assert (cnt mod PageSize = 0 \/ PageSize * k + cnt = zlen buff) as Hc3.
  { unfold cnt. destruct (Z.min_spec (zlen buff - PageSize * k) ((stsize_ - zlen pre) * PageSize)) as [[_ ->]|[_ ->]]; [right; lia|].
    left. apply Z.mod_mul. done. }
  pose proof (chunk_tags k cnt (conj (proj1 Hk) Hk') Hc1 Hc2 Hc3) as Hch. cbv zeta in Hch.
  set (short := negb (cnt mod PageSize =? 0) && lastblockset) in *.
  set (cnt' := if short then PageSize * (cnt / PageSize) else cnt) in *.
  assert (0 <= cnt' <= cnt) as Hcnt' by (unfold cnt'; destruct short; unfold PageSize in *; lia_div).
  assert (0 < npages cnt <= npages (zlen buff) - k) as Hnc by (unfold npages, PageSize in *; lia_div).
  set (sums := page_sums (take (Z.to_nat cnt') (adv (PageSize * k) buff))) in *.
  eapply does_bind with (x := sums) (t1 := tgs).
  { destruct csvec as [cs|].
    - rewrite (csvec_sums cs eq_refl). replace (PageSize * k / PageSize) with k by (unfold PageSize; lia_div).
      rewrite zlen_page_sums. rewrite (proj2 (Z.leb_le _ _)) by (unfold npages, PageSize in *; lia_div).
      unfold sums. rewrite sums_of_part; [by apply does_ret|lia|lia|lia|].
      unfold cnt', short. destruct (Z.eqb_spec (cnt mod PageSize) 0) as [He|He]; cbn [negb andb]; [by left|].
      destruct lastblockset; [left; unfold PageSize; lia_div|]. destruct Hc3; [done|by right].
    - apply does_lift; [|done]. apply Calc_pages; [by apply is_byte_adv|]. rewrite zlen_adv by (unfold PageSize in *; lia). lia. }
  intros s1 Hr1 Hf1. rewrite Hch.
  assert (zlen (pre ++ slice k (npages cnt) block_tags) = zlen pre + npages cnt) as Hlen.
  { rewrite zlen_app, zlen_slice, zlen_block_tags by lia. lia. }
  eapply does_bind.
  { apply does_WriteTags; [done|lia| |].
    - intros He. rewrite He, zlen_nil in Hlen. lia.
    - apply Forall_app_2; [unfold pre; destruct dopre; [by apply Forall_singleton, Hpre|done]|].
      apply Forall_take, Forall_drop, block_tags_words. }
  intros s2 Hr2 Hf2.
  replace (zlen pre + (npages (zlen buff) - k) - (npages cnt + zlen pre))
    with (zlen (@nil Z) + (npages (zlen buff) - (k + npages cnt))) by (rewrite zlen_nil; lia).
  replace (nblk + (zlen pre + (npages (zlen buff) - k)))
    with (nblk + (npages cnt + zlen pre) + (zlen (@nil Z) + (npages (zlen buff) - (k + npages cnt)))) by (rewrite zlen_nil; lia).
  assert (write_at (sp + nblk) (pre ++ drop (Z.to_nat k) block_tags) tgs
    = write_at (sp + (nblk + (npages cnt + zlen pre))) ([] ++ drop (Z.to_nat (k + npages cnt)) block_tags)
        (write_at (sp + nblk) (pre ++ slice k (npages cnt) block_tags) tgs)) as ->.
  { replace (sp + (nblk + (npages cnt + zlen pre))) with (sp + nblk + zlen (pre ++ slice k (npages cnt) block_tags)) by lia.
    rewrite write_at_app by lia. f_equal. rewrite <- app_assoc. f_equal. cbn [app]. unfold slice.
    rewrite Z2Nat.inj_add, <- drop_drop by lia. by rewrite take_drop. }
  apply (IH s2 D _ sp None (k + npages cnt) (nblk + (npages cnt + zlen pre))); [done|lia| |done|rewrite zlen_nil; lia|].
  - intros Hlt. assert (cnt' = cnt /\ cnt mod PageSize = 0) as [-> Hm].
    { destruct Hc3 as [Hm|Hall]; [|exfalso; unfold npages, PageSize in *; lia_div].
      split; [|done]. unfold cnt', short. by rewrite Hm. }
    unfold npages, PageSize in *. lia_div.
  - rewrite zlen_write_at; [rewrite Hlen; lia|lia|]. intros He. rewrite He, zlen_nil in Hlen. lia.
Qed.

End apply.

Lemma apply_does s D tgs buff startp csvec pre last : ready D tgs s -> Forall is_byte buff -> 0 < zlen buff ->
  (forall cs, csvec = Some cs -> cs = page_sums buff) ->
  (forall c, last = Some c -> zlen buff mod PageSize <> 0 /\ word c) ->
  (forall v, pre = Some v -> 0 < startp /\ word v) ->
  let sp := match pre with Some _ => startp - 1 | None => startp end in
  0 <= sp <= zlen tgs ->
  exists n, does (apply_sequential_aligned_modify mach buff startp (zlen buff) csvec pre last) s n D
    (write_at sp (match pre with Some v => [v] | None => [] end ++
       block_tags buff (match last with Some _ => true | None => false end) (match last with Some c => c | None => 0 end)) tgs).
Proof.
  intros Hr Hb Hpos Hcs Hlast Hpre sp Hsp. assert (0 < npages (zlen buff)) as Hnp by (unfold npages, PageSize; lia_div).
  set (n := zlen (match pre with Some v => [v] | None => [] end) + (npages (zlen buff) - 0)).
  exists (0 + n). unfold apply_sequential_aligned_modify.
  assert (match last with Some _ => zlen buff mod PageSize =? 0 | None => false end = false) as ->.
  { destruct last as [c|]; [|done]. by apply Z.eqb_neq, (Hlast c). }
  assert (match pre with Some _ => startp =? 0 | None => false end = false) as ->.
  { destruct pre as [v|]; [|done]. apply Z.eqb_neq. destruct (Hpre v eq_refl). lia. }
  replace (npages (zlen buff) + match pre with Some _ => 1 | None => 0 end) with n by (unfold n; destruct pre; rewrite ?zlen_cons, zlen_nil; lia).
  fold sp. set (lastset := match last with Some _ => true | None => false end). set (lastv := match last with Some c => c | None => 0 end).
  assert (0 < n) as Hn by (unfold n; pose proof (zlen_nonneg (match pre with Some v => [v] | None => [] end)); lia).
  assert (does (apply_loop mach (Z.to_nat n) buff (zlen buff) csvec true lastset lastv sp pre n 0 0) s (0 + n) D
    (write_at sp (match pre with Some v => [v] | None => [] end ++ block_tags buff lastset lastv) tgs)) as Hint.
  { pose proof (apply_loop_internal buff csvec lastset lastv Hb Hpos Hcs) as Hl.
    assert (lastset = true -> zlen buff mod PageSize <> 0) as Hls by (unfold lastset; destruct last as [c|]; [intros _; by apply (Hlast c)|done]).
    assert (word lastv) as Hlw by (unfold lastv; destruct last as [c|]; [by apply (Hlast c)|done]).
    specialize (Hl Hls Hlw (Z.to_nat n) s D tgs sp pre 0 0 0 Hr). cbv zeta in Hl. fold n in Hl. rewrite Z.add_0_r, drop_0 in Hl.
    apply Hl; [lia|lia| |lia|lia]. destruct pre as [v|]; [|done]. split; [|done]. by apply (Hpre v). }
  destruct csvec as [cs|]; [|exact Hint]. destruct pre as [v|]; [exact Hint|]. destruct last as [c|]; [exact Hint|].
  clear Hint. rewrite (Hcs cs eq_refl). destruct (Z.to_nat n) as [|fuel] eqn:Hfu; [lia|]. cbn [apply_loop].
  rewrite (proj2 (Z.leb_gt n 0)) by lia. assert (n = zlen (page_sums buff)) as Hnz by (unfold n; rewrite zlen_page_sums, zlen_nil; lia).
  rewrite (Z.add_0_l n), (proj2 (Z.leb_le n (zlen (page_sums buff)))) by lia.
  assert (slice 0 n (page_sums buff) = page_sums buff) as -> by (apply slice_all; lia).
  eapply does_bind; [by apply does_ret|]. intros s1 Hr1 _.
  eapply does_bind; [apply does_WriteTags; [done|lia| |]|].
  - intros He. rewrite He, zlen_nil in Hnz. lia.
  - rewrite page_sums_between. by apply sums_words.
  - intros s2 Hr2 _. rewrite Z.add_0_r in Hr2. destruct fuel; cbn [apply_loop]; by apply does_ret.
Qed.

(** ** Holes *)

Lemma write_at_end off b l : off = zlen l -> write_at off b l = l ++ b.
Proof.
  intros ->. destruct b as [|x b]; [by rewrite app_nil_r|]. cbn [write_at]. unfold zlen. rewrite Nat2Z.id, Nat.sub_diag.
  cbn [replicate]. rewrite app_nil_r, firstn_all. rewrite drop_ge by (rewrite ?length_cons; lia). by rewrite app_nil_r.
Qed.

Lemma write_at_last off x y l : off = zlen l -> write_at off [y] (l ++ [x]) = l ++ [y].
Proof.
  intros ->. cbn [write_at]. unfold zlen. rewrite Nat2Z.id.
  replace (length l - length (l ++ [x]))%nat with O by (rewrite length_app; lia). cbn [replicate]. rewrite app_nil_r.
  rewrite take_app_length. rewrite drop_ge by (rewrite length_app; cbn [length]; lia). done.
Qed.

Lemma hole_loop_does fuel : forall s D tgs tag first towrite nw, ready D tgs s -> word tag -> 0 <= towrite <= Z.of_nat fuel ->
  0 <= first + nw <= zlen tgs ->
  does (hole_loop fuel tag first towrite nw) s tt D (write_at (first + nw) (replicate (Z.to_nat towrite) tag) tgs).
Proof.
  induction fuel as [|fuel IH]; intros s D tgs tag first towrite nw Hr Hw Ht Hf; cbn [hole_loop];
    (destruct (Z.leb_spec towrite 0); [replace towrite with 0 by lia; by apply does_ret|]); [lia|].
  set (n := Z.min towrite stsize_). assert (0 < n <= towrite) as Hn by (unfold n, stsize_; lia).
  assert (zlen (replicate (Z.to_nat n) tag) = n) as Hl by (unfold zlen; rewrite length_replicate; lia).
  assert (replicate (Z.to_nat n) tag <> []) as Hne by (intros He; rewrite He, zlen_nil in Hl; lia).
  eapply does_bind; [apply does_WriteTags; [done|done|done|by apply Forall_replicate]|]. intros s1 Hr1 _. rewrite Hl.
  assert (replicate (Z.to_nat towrite) tag = replicate (Z.to_nat n) tag ++ replicate (Z.to_nat (towrite - n)) tag) as ->.
  { rewrite <- replicate_add. f_equal. lia. }
  rewrite <- write_at_app, Hl by lia. replace (first + nw + n) with (first + (nw + n)) by lia.
  apply IH; [done|done|lia|]. rewrite zlen_write_at, Hl by (done || lia). lia.
Qed.

Lemma zeros_page k E n : 0 <= k -> zlen E <= PageSize * k -> PageSize * (k + 1) <= n -> page_of k (zero_extended n E) = replicate (Z.to_nat PageSize) 0.
Proof.
  intros Hk HE Hn. unfold page_of, zero_extended. rewrite slice_app_r by lia. pose proof (zlen_nonneg E).
  apply slice_replicate; unfold PageSize in *; lia.
Qed.

Lemma checksum_zeros n : 0 <= n <= PageSize -> crc32c_extendwith_zero mach 0 n = Ok (checksum (replicate (Z.to_nat n) 0)).
Proof. intros Hn. rewrite <- checksum_nil. apply (extend_zeros mach [] n (Forall_nil_2 _) Hn). Qed.

(** The pages of a file that is extended with zero bytes. *)
Lemma extended_sums D until : let N := zlen D in let tp := N / PageSize in tp < until ->
  page_sums (zero_extended (PageSize * until) D) =
    sums_between 0 tp D ++
    (if 0 <? N mod PageSize then [checksum (page_of tp D ++ replicate (Z.to_nat (PageSize - N mod PageSize)) 0)] else []) ++
    replicate (Z.to_nat (if 0 <? N mod PageSize then until - tp - 1 else until - tp)) (checksum (replicate (Z.to_nat PageSize) 0)).
Proof.
  intros N tp Ht. pose proof (zlen_nonneg D) as HN. fold N in HN.
  assert (zlen (zero_extended (PageSize * until) D) = PageSize * until) as Hz by (rewrite zlen_zero_extended; unfold tp, N, PageSize in *; lia_div).
  rewrite page_sums_between, Hz. replace (npages (PageSize * until)) with until by (unfold npages, PageSize; lia_div).
  set (fe := if 0 <? N mod PageSize then tp + 1 else tp).
  assert (0 <= tp <= fe /\ fe <= until) as Hfe by (unfold fe, tp, PageSize in *; destruct (Z.ltb_spec 0 (N mod 4096)); lia_div).
  rewrite (sums_between_app 0 tp until), (sums_between_app tp fe until) by lia. f_equal; [|f_equal].
  - apply sums_between_ext. intros k Hk. unfold page_of, zero_extended. apply slice_app_l; unfold tp, N, PageSize in *; lia_div.
  - unfold fe. destruct (Z.ltb_spec 0 (N mod PageSize)); [|apply sums_between_nil]. rewrite sums_between_one. do 2 f_equal.
    rewrite (page_of_end tp D) by (unfold tp, N, PageSize in *; lia_div). unfold page_of.
    replace PageSize with (N mod PageSize + (PageSize - N mod PageSize)) at 2 by lia.
    rewrite slice_add by (unfold tp, PageSize in *; lia_div). unfold zero_extended. f_equal.
    + rewrite slice_app_l by (unfold tp, N, PageSize in *; lia_div). f_equal. unfold tp, N, PageSize in *. lia_div.
    + rewrite slice_app_r by (unfold tp, N, PageSize in *; lia_div). apply slice_replicate; unfold tp, N, PageSize in *; lia_div.
  - replace (if 0 <? N mod PageSize then until - tp - 1 else until - tp) with (until - fe) by (unfold fe; destruct (0 <? N mod PageSize); lia).
    apply list_eq. intros i. destruct (decide (Z.of_nat i < until - fe)).
    + rewrite lookup_sums_between by lia. rewrite lookup_replicate_2 by lia. do 2 f_equal.
      apply zeros_page; [lia| |unfold PageSize in *; lia].
      unfold fe, tp, N, PageSize in *. destruct (Z.ltb_spec 0 (zlen D mod 4096)); lia_div.
    + rewrite !lookup_ge_None_2; [done|rewrite length_replicate; lia|]. rewrite length_zlen, zlen_sums_between; lia.
Qed.

Lemma hole_does s D nofd until ac : ready D (page_sums D) s -> Forall is_byte D ->
  (nofd = true -> zlen D mod PageSize = 0) ->
  does (UpdateRangeHoleUntilPage mach true nofd until (zlen D, ac)) s tt D
    (page_sums (if zlen D / PageSize <? until then zero_extended (PageSize * until) D else D)).
Proof.
  intros Hr Hb Hfd. pose proof (zlen_nonneg D) as HN. unfold UpdateRangeHoleUntilPage.
  eapply does_lift_bind; [apply checksum_zeros; unfold PageSize; lia|done|]. cbn [fst].
  destruct (Z.leb_spec until (zlen D / PageSize)) as [Hle|Hlt].
  { rewrite (proj2 (Z.ltb_ge (zlen D / PageSize) until)) by done. by apply does_ret. }
  rewrite (proj2 (Z.ltb_lt (zlen D / PageSize) until)) by done. rewrite extended_sums by done.
  set (tp := zlen D / PageSize). set (off := zlen D mod PageSize).
  assert (0 <= tp /\ 0 <= off < PageSize) as [Htp Hoff] by (unfold tp, off, PageSize; lia_div).
  set (crcz := checksum (replicate (Z.to_nat PageSize) 0)).
  assert (word crcz) as Hcz by (apply checksum_word, is_byte_zeros).
  assert (page_sums D = sums_between 0 tp D ++ (if 0 <? off then [checksum (page_of tp D)] else [])) as Hps.
  { rewrite page_sums_between. assert (npages (zlen D) = if 0 <? off then tp + 1 else tp) as ->.
    { unfold npages, tp, off, PageSize. destruct (Z.ltb_spec 0 (zlen D mod 4096)); lia_div. }
    destruct (0 <? off); [|by rewrite app_nil_r]. rewrite (sums_between_app 0 tp (tp + 1)) by lia. by rewrite sums_between_one. }
  assert (zlen (sums_between 0 tp D) = tp) as Hlt0 by (rewrite zlen_sums_between; lia).
  destruct (Z.ltb_spec 0 off) as [Hpos|Hz].
  - set (last := checksum (page_of tp D ++ replicate (Z.to_nat (PageSize - off)) 0)).
    assert (Forall is_byte (page_of tp D)) as Hpb by (by apply slice_bytes).
    assert (word last) as Hlw by (apply checksum_word, Forall_app_2; [done|apply is_byte_zeros]).
    eapply does_bind with (t1 := sums_between 0 tp D ++ [last]).
    { destruct nofd; [specialize (Hfd eq_refl); unfold off in Hpos; lia|].
      eapply does_bind; [apply does_ReadTags; [done|lia|lia|rewrite Hps, zlen_app, Hlt0, zlen_cons, zlen_nil; lia]|].
      intros s1 Hr1 _. rewrite Hps, slice_app_r, Hlt0, Z.sub_diag by lia. cbn [slice].
      change (default 0 (head (slice 0 1 [checksum (page_of tp D)]))) with (checksum (page_of tp D)).
      eapply does_lift_bind; [apply (extend_zeros mach); [done|lia]|exact Hr1|]. fold last.
      eapply does_bind; [apply does_WriteTags; [exact Hr1| |done|by apply Forall_singleton]|].
      - rewrite Hps, zlen_app, Hlt0, zlen_cons. pose proof (zlen_nonneg (@nil Z)). lia.
      - intros s2 Hr2 _. rewrite Hps, write_at_last in Hr2 by done. by apply does_ret. }
    intros s1 Hr1 _.
    assert (zlen (sums_between 0 tp D ++ [last]) = tp + 1) as Hl1 by (rewrite zlen_app, Hlt0, zlen_cons, zlen_nil; lia).
    pose proof (hole_loop_does (Z.to_nat (until - tp - 1)) s1 D _ crcz (tp + 1) (until - tp - 1) 0 Hr1 Hcz) as Hd.
    rewrite write_at_end, <- app_assoc in Hd by lia. apply Hd; fold tp in Hlt; lia.
  - eapply does_bind; [by apply does_ret|]. intros s1 Hr1 _. rewrite app_nil_r in Hps.
    pose proof (hole_loop_does (Z.to_nat (until - tp)) s1 D _ crcz tp (until - tp) 0 Hr1 Hcz) as Hd.
    rewrite write_at_end, Hps in Hd by (rewrite Hps; lia). apply Hd; fold tp in Hlt; lia.
Qed.

(** ** The first and the last page of a write *)

Lemma does_tag s D tgs k v : ready D tgs s -> 0 <= k -> tgs !! Z.to_nat k = Some v -> does (on_ts (ReadTags k 1)) s [v] D tgs.
Proof.
  intros Hr Hk Hv. assert (slice k 1 tgs = [v]) as <-.
  { unfold slice. change (Z.to_nat 1) with 1%nat. by rewrite (drop_S _ _ _ Hv). }
  apply does_ReadTags; [done|lia|lia|]. apply lookup_lt_Some in Hv. unfold zlen. lia.
Qed.

Lemma page_tag D k : 0 <= k < npages (zlen D) -> page_sums D !! Z.to_nat k = Some (checksum (page_of k D)).
Proof. intros Hk. rewrite page_sums_between, lookup_sums_between by lia. do 3 f_equal. lia. Qed.

(** The sums of the parts of the user's bytes that go to different pages. *)
Definition user_sums (o : Z) (B : list Z) : list Z :=
  let po := o mod PageSize in
  if po =? 0 then page_sums B else checksum (take (Z.to_nat (PageSize - po)) B) :: page_sums (adv (PageSize - po) B).

Lemma user_sums_first o B : 0 <= o -> B <> [] -> user_sums o B !! 0%nat = Some (checksum (take (Z.to_nat (PageSize - o mod PageSize)) B)).
Proof.
  intros Ho HB. unfold user_sums. destruct (Z.eqb_spec (o mod PageSize) 0) as [->|]; [|done].
  change 0%nat with (Z.to_nat 0). rewrite (page_tag B 0); [by unfold page_of, slice|]. pose proof (len_pos B HB). unfold npages, PageSize in *. lia_div.
Qed.

Lemma add_users_does s D tgs csvec a buff n : ready D tgs s -> Forall is_byte a -> Forall is_byte buff -> 0 <= n <= zlen buff -> n <= PageSize ->
  (forall cs, csvec = Some cs -> cs !! 0%nat = Some (checksum (take (Z.to_nat n) buff))) ->
  does (add_users mach csvec buff n (checksum a)) s (checksum (a ++ take (Z.to_nat n) buff)) D tgs.
Proof.
  intros Hr Ha Hb Hn Hp Hcs. unfold add_users. destruct csvec as [cs|].
  - unfold csvec_at. change (Z.to_nat 0) with 0%nat. rewrite (Hcs cs eq_refl). eapply does_bind; [by apply does_ret|]. intros s1 Hr1 _.
    apply does_lift; [|done]. apply combine_sums; [done|by apply Forall_take| |done]. unfold zlen in *. rewrite length_take. lia.
  - apply does_lift; [|done]. by apply Calc_more.
Qed.

Lemma take_page_buffer n r : n <= zlen r -> take (Z.to_nat n) (page_buffer r) = take (Z.to_nat n) r.
Proof. intros Hn. apply take_app_le. unfold zlen in Hn. lia. Qed.

Lemma page_buffer_bytes r : Forall is_byte r -> Forall is_byte (page_buffer r).
Proof. intros. apply Forall_app_2; [done|apply is_byte_zeros]. Qed.

Lemma zlen_page_buffer r : zlen r <= PageSize -> zlen (page_buffer r) = PageSize.
Proof. intros. unfold page_buffer, zlen in *. rewrite length_app, length_replicate. lia. Qed.

Lemma does_modify_loose s D tgs lp ch : ready D tgs s -> does (modify (fun s => with_loose (loosewrite_ s) lp ch s)) s tt D tgs.
Proof. intros []. eexists _, _. split; [done|]. by split. Qed.

(** The prerequisites of a write to a file [D] whose tags are right. *)
Section write.
  Context (D B : list Z) (o : Z).
  Hypothesis Dbytes : Forall is_byte D.
  Hypothesis Bbytes : Forall is_byte B.
  Hypothesis Ho : 0 <= o.
  Hypothesis HB : B <> [].
  Abbreviation D' := (write_at o B D).
  Abbreviation N := (zlen D).
  Abbreviation len := (zlen B).
  Abbreviation p1 := (o / PageSize).
  Abbreviation po := (o mod PageSize).
  Abbreviation first := (Z.min len (PageSize - po)).

(** The tags once a gap before the write is filled. *)
Definition gap_tags : list Z := page_sums (if N / PageSize <? p1 then zero_extended (PageSize * p1) D else D).

Lemma gap_tag k : 0 <= k < npages N -> (N / PageSize <? p1) = false \/ k < N / PageSize ->
  gap_tags !! Z.to_nat k = Some (checksum (page_of k D)).
Proof using Type.
  intros Hk Hc. unfold gap_tags. destruct (Z.ltb_spec (N / PageSize) p1); [|by apply page_tag].
  rewrite page_tag by (rewrite zlen_zero_extended; unfold npages, PageSize in *; lia_div). do 2 f_equal.
  unfold page_of, zero_extended. destruct Hc as [?|Hc]; [done|]. apply slice_app_l; unfold PageSize in *; lia_div.
Qed.

Lemma first_bounds : 0 < first <= len /\ first <= PageSize - po.
Proof using HB. pose proof (len_pos B HB). unfold PageSize in *. lia_div. Qed.

(** What the page of [o] has before [o] when the file ends before it. *)
Lemma head_append : N <= o -> page_of p1 D' =
  (slice (PageSize * p1) PageSize D ++ replicate (Z.to_nat (po - Z.max 0 (N - PageSize * p1))) 0) ++ take (Z.to_nat first) B.
Proof using Ho HB.
  intros HN. rewrite page_head by done. pose proof first_bounds. rewrite (slice_short (o + first)), app_nil_r by lia.
  f_equal. pose proof (zlen_nonneg D). unfold zero_extended.
  destruct (Z.le_gt_cases N (PageSize * p1)) as [Hle|Hgt].
  - rewrite slice_app_r by done. rewrite (slice_short (PageSize * p1) PageSize) by (unfold PageSize in *; lia_div).
    cbn [app]. rewrite slice_replicate by (unfold PageSize in *; lia_div). f_equal. lia.
  - replace po with ((N - PageSize * p1) + (po - (N - PageSize * p1))) at 1 by lia.
    rewrite slice_add by (unfold PageSize in *; lia_div). rewrite slice_app_l by (unfold PageSize in *; lia_div).
    rewrite slice_app_r by lia. rewrite slice_replicate by (unfold PageSize in *; lia_div).
    rewrite (slice_clip (PageSize * p1) PageSize) by (unfold PageSize in *; lia_div).
    rewrite Z.max_r by lia. done.
Qed.

Lemma take_first : take (Z.to_nat (PageSize - po)) B = take (Z.to_nat first) B.
Proof using Type.
  destruct (Z.min_spec len (PageSize - po)) as [[? ->]|[? ->]]; [|done].
  unfold zlen in *. rewrite !take_ge by lia. done.
Qed.

(** A write to the first page at or behind the end of the file. *)
Lemma preblock_append s csvec : ready D gap_tags s -> N <= o ->
  (forall cs, csvec = Some cs -> cs = user_sums o B) ->
  does (StoreRangeUnaligned_preblock mach B first o N csvec) s (checksum (page_of p1 D')) D gap_tags.
Proof using Dbytes Bbytes Ho HB.
  intros Hr HN Hcs. rewrite (head_append HN). pose proof first_bounds as [Hf1 Hf2].
  assert (o = PageSize * p1 + po /\ 0 <= po < PageSize /\ 0 <= p1) as (Hop & Hpo & Hp1) by (unfold PageSize; lia_div).
  assert (N = PageSize * (N / PageSize) + N mod PageSize /\ 0 <= N mod PageSize < PageSize) as (HNd & HNm) by (unfold PageSize; lia_div).
  set (old := slice (PageSize * p1) PageSize D).
  assert (Forall is_byte old) as Hob by (by apply slice_bytes).
  assert (forall s1, ready D gap_tags s1 -> forall a, Forall is_byte a ->
    does (add_users mach csvec B first (checksum a)) s1 (checksum (a ++ take (Z.to_nat first) B)) D gap_tags) as Hadd.
  { intros s1 Hr1 a Ha. apply add_users_does; [done..|lia|lia|]. intros cs Hc. rewrite (Hcs cs Hc), user_sums_first by done.
    do 2 f_equal. apply take_first. }
  unfold StoreRangeUnaligned_preblock. destruct (Z.ltb_spec (N / PageSize) p1) as [Hlt|Hge].
  - eapply does_lift_bind; [rewrite <- checksum_nil; apply extend_zeros; [done|lia]|done|]. cbn [app].
    assert (old = []) as -> by (apply slice_short; unfold PageSize in *; lia). rewrite Z.max_l, Z.sub_0_r by (unfold PageSize in *; lia).
    apply Hadd; [done|apply is_byte_zeros].
  - assert (p1 = N / PageSize) as Hpe by (unfold PageSize in *; lia_div). rewrite (proj2 (Z.eqb_eq p1 (N / PageSize))) by done.
    set (toff := N mod PageSize) in *. rewrite (proj2 (Z.leb_le toff po)) by (unfold PageSize in *; lia). cbn [andb].
    rewrite Z.max_r by (unfold PageSize in *; lia). replace (N - PageSize * p1) with toff by (rewrite Hpe; lia).
    assert (zlen old = toff) as Hol by (unfold old; rewrite zlen_slice by (unfold PageSize in *; lia); unfold PageSize in *; lia).
    eapply does_bind with (x := checksum old) (t1 := gap_tags).
    { destruct (Z.ltb_spec 0 toff).
      - eapply does_bind; [apply (does_tag _ _ _ p1 (checksum old)); [done|lia|]|intros s1 Hr1 _; by apply does_ret].
        apply gap_tag; [unfold npages, PageSize in *; lia_div|left; by apply Z.ltb_ge].
      - assert (old = []) as -> by (apply zlen_zero_nil; lia). by apply does_ret. }
    intros s1 Hr1 _. apply does_get_bind.
    eapply does_bind; [|intros s2 Hr2 _; apply Hadd; [done|apply Forall_app_2; [done|apply is_byte_zeros]]].
    destruct (loosewrite_ s1 && (p1 =? lastpgforloose_ s1) && checklastpg_ s1).
    2: { apply does_lift; [|done]. apply extend_zeros; [done|lia]. }
    eapply does_bind; [apply does_modify_loose, Hr1|]. intros s2 Hr2 _.
    eapply does_bind; [apply does_maxread; [exact Hr2|unfold PageSize in *; lia..|right; fold old; lia]|]. intros s3 Hr3 _. fold old.
    assert (Forall is_byte (page_buffer old)) as Hpb by (by apply page_buffer_bytes).
    assert (zlen (page_buffer old) = PageSize) as Hpl by (apply zlen_page_buffer; lia).
    eapply does_lift_bind; [apply Calc_sum; [done|lia]|exact Hr3|]. rewrite take_page_buffer by lia. rewrite take_ge by (rewrite length_zlen; lia).
    eapply does_lift_bind; [apply Calc_more; [done|by apply is_byte_adv|rewrite zlen_adv by lia; lia]|exact Hr3|].
    assert (take (Z.to_nat (po - toff)) (adv toff (page_buffer old)) = replicate (Z.to_nat (po - toff)) 0) as ->.
    { unfold adv, page_buffer. rewrite drop_app_ge by (rewrite length_zlen; lia). rewrite drop_replicate, take_replicate.
      f_equal. rewrite length_zlen. lia. }
    unfold loose_append_ok. rewrite Hol, Z.eqb_refl. rewrite Z.eqb_refl, orb_true_r. cbn [andb].
    eapply does_bind; [by apply does_ret|]. intros s4 Hr4 _. by apply does_ret.
Qed.

(** A write to a page that the file has. *)
Lemma preblock_overwrite s csvec : ready D gap_tags s -> o < N ->
  (po = 0 -> first < Z.min PageSize (N - PageSize * p1)) ->
  (forall cs, csvec = Some cs -> cs = user_sums o B) ->
  does (StoreRangeUnaligned_preblock mach B first o N csvec) s (checksum (page_of p1 D')) D gap_tags.
Proof using Dbytes Bbytes Ho HB.
  intros Hr HN Hav Hcs. rewrite page_head by done. rewrite zero_extended_short by lia. pose proof first_bounds as [Hf1 Hf2].
  assert (o = PageSize * p1 + po /\ 0 <= po < PageSize /\ 0 <= p1) as (Hop & Hpo & Hp1) by (unfold PageSize; lia_div).
  assert (N = PageSize * (N / PageSize) + N mod PageSize /\ 0 <= N mod PageSize < PageSize) as (HNd & HNm) by (unfold PageSize; lia_div).
  assert (p1 <= N / PageSize) as Hle by (unfold PageSize in *; lia_div).
  unfold StoreRangeUnaligned_preblock. rewrite (proj2 (Z.ltb_ge (N / PageSize) p1)) by done.
  set (av := Z.min PageSize (N - PageSize * p1)) in *.
  assert ((if p1 =? N / PageSize then N mod PageSize else PageSize) = av) as ->.
  { unfold av. destruct (Z.eqb_spec p1 (N / PageSize)); unfold PageSize in *; lia. }
  assert ((p1 =? N / PageSize) && (N mod PageSize <=? po) = false) as ->.
  { destruct (Z.eqb_spec p1 (N / PageSize)); [|done]. apply Z.leb_gt. unfold PageSize in *. lia. }
  assert (av <= PageSize) as Hap by (unfold av; lia).
  assert (po < av) as Hpa by (unfold av, PageSize in *; lia).
  rewrite (proj2 (Z.leb_gt av po)) by done.
  assert ((po =? 0) && (av <=? first) = false) as ->.
  { destruct (Z.eqb_spec po 0) as [Hz|]; [|done]. specialize (Hav Hz). apply Z.leb_gt. lia. }
  set (old := page_of p1 D). assert (Forall is_byte old) as Hob by (by apply slice_bytes).
  assert (zlen old = av) as Hol by (unfold old, page_of; rewrite zlen_slice by (unfold PageSize in *; lia); unfold av; lia).
  eapply does_bind; [apply (does_tag _ _ _ p1 (checksum old)); [done|lia|]|].
  { apply gap_tag; [unfold npages, PageSize in *; lia_div|left; by apply Z.ltb_ge]. }
  intros s1 Hr1 _. cbn [head default]. apply does_get_bind.
  eapply (does_bind _ _ _ (if loosewrite_ s1 then page_buffer old else old)).
  { destruct (loosewrite_ s1).
    - eapply does_bind; [apply does_maxread; [exact Hr1|unfold PageSize in *; lia..|right; fold old; unfold old, page_of in *; lia]|].
      intros s2 Hr2 _. change (slice (PageSize * p1) PageSize D) with old. unfold loose_overwrite_ok.
      eapply (does_bind _ _ _ true); [|intros s3 Hr3 _; by apply does_ret].
      eapply does_lift_bind; [apply Calc_sum; [by apply page_buffer_bytes|rewrite zlen_page_buffer; lia]|exact Hr2|].
      rewrite take_page_buffer, take_ge by (rewrite ?length_zlen; lia). rewrite Hol, !Z.eqb_refl. by apply does_ret.
    - assert (slice (PageSize * p1) av D = old) as Hold.
      { unfold old. by rewrite page_of_min. }
      eapply does_bind; [apply does_fullread; [exact Hr1|unfold PageSize in *; lia..]|]. intros s2 Hr2 _. rewrite Hold.
      eapply does_lift_bind; [apply Calc_sum; [done|lia]|exact Hr2|]. rewrite take_ge by (rewrite length_zlen; lia).
      rewrite Z.eqb_refl. by apply does_ret. }
  intros s2 Hr2 _. set (b := if loosewrite_ s1 then page_buffer old else old).
  assert (Forall is_byte b) as Hbb by (unfold b; destruct (loosewrite_ s1); [by apply page_buffer_bytes|done]).
  assert (av <= zlen b) as Hbl by (unfold b; destruct (loosewrite_ s1); [rewrite zlen_page_buffer; lia|lia]).
  assert (forall off n, 0 <= off -> 0 <= n -> off + n <= av -> slice off n b = slice (PageSize * p1 + off) n D) as Hbs.
  { intros off n H1 H2 H3. transitivity (slice off n old); [|apply slice_slice; unfold PageSize, av in *; lia].
    unfold b. destruct (loosewrite_ s1); [|done]. apply slice_app_l; lia. }
  eapply does_lift_bind; [apply Calc_sum; [done|lia]|exact Hr2|].
  change (take (Z.to_nat po) b) with (slice 0 po b). rewrite Hbs, Z.add_0_r by lia.
  eapply does_bind; [apply add_users_does; [exact Hr2|by apply slice_bytes|done|lia|lia|]|].
  { intros cs Hc. rewrite (Hcs cs Hc), user_sums_first by done. do 2 f_equal. apply take_first. }
  intros s3 Hr3 _. destruct (Z.ltb_spec (po + first) av) as [Hlt|Hge].
  - eapply does_lift_bind; [apply Calc_sum; [by apply is_byte_adv|rewrite zlen_adv by lia; lia]|exact Hr3|].
    assert (take (Z.to_nat (av - po - first)) (adv (po + first) b) = slice (o + first) (av - po - first) D) as ->.
    { change (take _ (adv (po + first) b)) with (slice (po + first) (av - po - first) b). rewrite Hbs by lia. f_equal. lia. }
    apply does_lift; [|done]. rewrite app_assoc. apply combine_sums; [|by apply slice_bytes| |].
    + apply Forall_app_2; [by apply slice_bytes|by apply Forall_take].
    + rewrite zlen_slice by lia. unfold av in *. lia.
    + unfold av. lia.
  - assert (slice (o + first) (av - po - first) D = []) as ->.
    { unfold slice. replace (Z.to_nat (av - po - first)) with O by lia. done. }
    rewrite app_nil_r. by apply does_ret.
Qed.

(** The last page of a write that ends inside of a page of the file; [off] is where the
    first full page starts in the buffer. *)
Lemma postblock_does s tgs csp off : ready D tgs s -> 0 <= off < len -> (o + off) mod PageSize = 0 ->
  (o + len) mod PageSize <> 0 -> o + len < N ->
  tgs !! Z.to_nat ((o + len) / PageSize) = Some (checksum (page_of ((o + len) / PageSize) D)) ->
  (forall cs, csp = Some cs -> cs = page_sums (adv off B)) ->
  does (StoreRangeUnaligned_postblock mach (adv off B) (len - off) (o + off) N csp) s
    (checksum (page_of ((o + len) / PageSize) D')) D tgs.
Proof using Dbytes Bbytes Ho HB.
  intros Hr Hoff Hal Hm HN Htag Hcs. unfold StoreRangeUnaligned_postblock. replace (o + off + (len - off)) with (o + len) by lia.
  set (p2 := (o + len) / PageSize) in *. set (n := (o + len) mod PageSize) in *.
  assert (o + len = PageSize * p2 + n /\ 0 < n < PageSize /\ 0 <= p2) as (Heq & Hn & Hp2) by (unfold p2, n, PageSize in *; lia_div).
  assert (n <= len - off) as Hno by (unfold p2, n, PageSize in *; lia_div).
  assert (o <= PageSize * p2) as Hop by (unfold PageSize in *; lia).
  assert (page_of p2 D' = adv (len - n) B ++ slice (o + len) (Z.min PageSize (N - PageSize * p2) - n) D) as Hpage.
  { apply page_tail; try done; lia. }
  set (av := Z.min PageSize (N - PageSize * p2)) in *.
  assert (N = PageSize * (N / PageSize) + N mod PageSize /\ 0 <= N mod PageSize < PageSize) as (HNd & HNm) by (unfold PageSize; lia_div).
  assert (p2 <= N / PageSize) as Hle by (unfold PageSize in *; lia).
  assert ((if p2 =? N / PageSize then N mod PageSize else PageSize) = av) as ->.
  { unfold av. destruct (Z.eqb_spec p2 (N / PageSize)); unfold PageSize in *; lia. }
  assert (n < av /\ av <= PageSize /\ PageSize * p2 + av <= N) as (Hna & Hap & Hav) by (unfold av, PageSize in *; lia).
  rewrite (proj2 (Z.eqb_neq n 0)), (proj2 (Z.ltb_lt n av)), (proj2 (Z.leb_gt (av - n) 0)) by lia.
  eapply does_bind; [apply (does_tag _ _ _ p2); [exact Hr|lia|exact Htag]|]. intros s1 Hr1 _. cbn [head default].
  eapply does_bind; [apply does_fullread; [exact Hr1|unfold PageSize in *; lia..]|]. intros s2 Hr2 _.
  assert (slice (PageSize * p2) av D = page_of p2 D) as -> by (by rewrite page_of_min).
  set (old := page_of p2 D). assert (Forall is_byte old) as Hob by (by apply slice_bytes).
  assert (zlen old = av) as Hol by (unfold old; rewrite page_of_min, zlen_slice by (unfold PageSize in *; lia); fold av; lia).
  assert (adv (len - off - n) (adv off B) = adv (len - n) B) as Hadv.
  { unfold adv. rewrite drop_drop. f_equal. lia. }
  assert (zlen (adv (len - n) B) = n) as Hln by (rewrite zlen_adv by lia; lia).
  assert (Forall is_byte (adv (len - n) B)) as Hub by (by apply is_byte_adv).
  eapply (does_bind _ _ _ (checksum (adv (len - n) B))).
  { destruct csp as [cs|].
    - rewrite (Hcs cs eq_refl). unfold csvec_at. rewrite page_tag.
      2: { rewrite zlen_adv by lia. unfold npages, PageSize in *. lia_div. }
      assert (page_of ((len - off - 1) / PageSize) (adv off B) = adv (len - n) B) as ->; [|by apply does_ret].
      replace ((len - off - 1) / PageSize) with ((len - off) / PageSize) by (unfold p2, n, PageSize in *; lia_div).
      assert (PageSize * ((len - off) / PageSize) = len - off - n) as Hl1 by (unfold p2, n, PageSize in *; lia_div).
      unfold page_of. rewrite Hl1, slice_adv by lia. unfold slice. replace (off + (len - off - n)) with (len - n) by lia.
      apply take_ge. rewrite length_zlen. fold (adv (len - n) B). lia.
    - rewrite Hadv. apply does_lift; [|done]. rewrite Calc_sum by (done || lia). f_equal. f_equal. apply take_ge. rewrite length_zlen. lia. }
  intros s3 Hr3 _. assert (take (Z.to_nat (av - n)) (adv n old) = slice (o + len) (av - n) D) as Htl.
  { change (take _ (adv n old)) with (slice n (av - n) old). unfold old, page_of. rewrite slice_slice by lia. f_equal. lia. }
  eapply does_lift_bind; [apply Calc_sum; [by apply is_byte_adv|rewrite zlen_adv by lia; lia]|exact Hr3|]. rewrite Htl.
  eapply does_lift_bind; [apply combine_sums; [done|by apply slice_bytes|rewrite zlen_slice by lia; lia|lia]|exact Hr3|].
  eapply does_lift_bind; [apply Calc_sum; [done|lia]|exact Hr3|]. rewrite (take_ge old) by (rewrite length_zlen; lia).
  apply does_get_bind. rewrite Z.eqb_refl. cbn [negb]. rewrite Hpage. by apply does_ret.
Qed.

Lemma zlen_gap_tags : zlen gap_tags = Z.max (npages N) (if N / PageSize <? p1 then p1 else 0).
Proof using Ho.
  pose proof (zlen_nonneg D). unfold gap_tags. rewrite zlen_page_sums. destruct (Z.ltb_spec (N / PageSize) p1).
  - rewrite zlen_zero_extended. unfold npages, PageSize in *. lia_div.
  - pose proof (npages_nonneg N). lia.
Qed.

(** The rest of a write from page [np] on, [off] bytes into the buffer, with the value
    for the page before if there is one. *)
Lemma tail_does s csp np off pre : ready D gap_tags s -> 0 <= off < len -> o + off = PageSize * np ->
  (forall cs, csp = Some cs -> cs = page_sums (adv off B)) ->
  (match pre with Some v => np = p1 + 1 /\ v = checksum (page_of p1 D') | None => np = p1 end) ->
  does (if ((o + len) mod PageSize =? 0) || (N <=? o + len)
        then let* _ := apply_sequential_aligned_modify mach (adv off B) np (len - off) csp pre None in ret tt
        else let* v := StoreRangeUnaligned_postblock mach (adv off B) (len - off) (o + off) N csp in
             let* _ := apply_sequential_aligned_modify mach (adv off B) np (len - off) csp pre (Some v) in ret tt)
    s tt D (page_sums D').
Proof using Dbytes Bbytes Ho HB.
  intros Hr Hoff Hnp Hcs Hpre. pose proof zlen_gap_tags as Hgl. pose proof (zlen_nonneg D) as HN0.
  assert (zlen (adv off B) = len - off) as Hl by (rewrite zlen_adv by lia; lia).
  assert (0 <= p1) as Hp1 by (unfold PageSize in *; lia_div).
  assert (np <= npages (o + len)) as Hnl by (unfold npages, PageSize in *; lia_div).
  assert (page_sums D' = write_at p1 (match pre with Some v => [v] | None => [] end ++ sums_between np (npages (o + len)) D') gap_tags) as ->.
  { rewrite <- (tags_final D B o Ho HB p1) by (done || lia). fold gap_tags. f_equal. destruct pre as [v|]; [|by rewrite Hpre].
    destruct Hpre as [-> ->]. rewrite (sums_between_app p1 (p1 + 1)) by lia. by rewrite sums_between_one. }
  assert (match pre with Some _ => np - 1 | None => np end = p1) as Hsp by (destruct pre as [v|]; lia).
  assert (p1 <= zlen gap_tags) as Hin.
  { rewrite Hgl. destruct (Z.ltb_spec (N / PageSize) p1); [lia|]. unfold npages, PageSize in *. lia_div. }
  assert (forall v, pre = Some v -> 0 < np /\ word v) as Hprew.
  { intros v ->. destruct Hpre as [-> ->]. split; [lia|]. apply checksum_word, slice_bytes, Forall_write_at; done. }
  rewrite <- Hl. destruct (Z.eqb_spec ((o + len) mod PageSize) 0) as [Hz|Hz]; [|destruct (Z.leb_spec N (o + len)) as [Hge|Hlt]]; cbn [orb].
  1,2: edestruct (apply_does s D gap_tags (adv off B) np csp pre None) as [n Ha];
       [done|by apply is_byte_adv|lia|done|done|done|rewrite Hsp; lia|];
       eapply does_bind; [exact Ha|]; intros s1 Hr1 _; rewrite Hsp in Hr1; unfold block_tags in Hr1;
       rewrite (covered_sums D B o Ho HB np) by (unfold PageSize in *; lia); replace (PageSize * np - o) with off by lia; by apply does_ret.
  set (p2 := (o + len) / PageSize). set (v2 := checksum (page_of p2 D')).
  assert (o + len = PageSize * p2 + (o + len) mod PageSize /\ 0 < (o + len) mod PageSize < PageSize) as (Heq & Hn) by (unfold p2, PageSize in *; lia_div).
  assert (np <= p2 /\ npages (o + len) = p2 + 1) as [Hnp2 Hnpp] by (unfold npages, PageSize in *; lia_div).
  rewrite Hl. eapply (does_bind _ _ _ v2).
  { apply postblock_does; [done|lia|rewrite Hnp; unfold PageSize; lia_div|done|lia| |done].
    apply gap_tag; [fold p2; unfold npages, PageSize in *; lia_div|left; apply Z.ltb_ge; unfold PageSize in *; lia_div]. }
  intros s1 Hr1 _. rewrite <- Hl.
  edestruct (apply_does s1 D gap_tags (adv off B) np csp pre (Some v2)) as [n Ha];
    [done|by apply is_byte_adv|lia|done| |done|rewrite Hsp; lia|].
  { intros c [= <-]. split; [|apply checksum_word, slice_bytes, Forall_write_at; done]. rewrite Hl. unfold PageSize in *. lia_div. }
  eapply does_bind; [exact Ha|]. intros s2 Hr2 _. rewrite Hsp in Hr2. unfold block_tags in Hr2.
  rewrite Hnpp, (sums_between_app np p2) by lia. rewrite sums_between_one. fold v2.
  rewrite (covered_full_sums D B o Ho HB np p2) by (unfold PageSize in *; lia). replace (PageSize * np - o) with off by lia.
  assert (page_sums (take (Z.to_nat (PageSize * (p2 - np))) (adv off B)) = take (Z.to_nat (zlen (adv off B) / PageSize)) (page_sums (adv off B))) as ->.
  { rewrite <- (drop_0 (adv off B)) at 1. change (drop 0 (adv off B)) with (adv (PageSize * 0) (adv off B)).
    rewrite sums_of_part by (unfold PageSize in *; lia_div). unfold slice. change (Z.to_nat 0) with O. rewrite drop_0. f_equal. f_equal.
    unfold npages, PageSize in *. lia_div. }
  by apply does_ret.
Qed.

(** ** Storing a range *)

Lemma gap_does s : ready D (page_sums D) s -> forall nofd ac, (nofd = true -> N < o -> N mod PageSize = 0) ->
  does (if N <? o then UpdateRangeHoleUntilPage mach true nofd p1 (N, ac) else ret tt) s tt D gap_tags.
Proof using Dbytes Ho.
  intros Hr nofd ac Hfd. destruct (Z.ltb_spec N o); [apply hole_does; auto|]. unfold gap_tags.
  rewrite (proj2 (Z.ltb_ge (N / PageSize) p1)) by (unfold PageSize; lia_div). by apply does_ret.
Qed.


(** Storing a range where the tags are right leaves the tags right for the data that is
    going to be there. *)
Lemma store_does s ac csvec : ready D (page_sums D) s -> (forall cs, csvec = Some cs -> cs = user_sums o B) ->
  does (if store_unaligned o len N then StoreRangeUnaligned mach true B o len (N, ac) csvec
        else StoreRangeAligned mach true B o len (N, ac) csvec) s tt D (page_sums D').
Proof using Dbytes Bbytes Ho HB.
  intros Hr Hcs. pose proof (len_pos B HB) as Hlp. pose proof (zlen_nonneg D) as HN0.
  assert (o = PageSize * p1 + po /\ 0 <= po < PageSize /\ 0 <= p1) as (Hop & Hpo & Hp1) by (unfold PageSize; lia_div).
  destruct (store_unaligned o len N) eqn:Hsu; unfold store_unaligned in Hsu.
  2: { rewrite !orb_false_iff, !andb_false_iff, !negb_false_iff, !Z.eqb_eq, !Z.ltb_ge in Hsu. destruct Hsu as [[Hz Hc] Hg].
       unfold StoreRangeAligned. cbn [fst]. eapply does_bind; [apply gap_does; [done|]|].
       { intros _ Hlt. destruct Hg as [Hg|Hg]; [done|lia]. }
       intros s1 Hr1 _. edestruct (apply_does s1 D gap_tags B p1 csvec None None) as [n Ha];
         [done|done|lia|intros cs Hcv; rewrite (Hcs cs Hcv); unfold user_sums; by rewrite Hz|done|done| |].
       { rewrite zlen_gap_tags. destruct (Z.ltb_spec (N / PageSize) p1); [lia|]. unfold npages, PageSize in *. lia_div. }
       eapply does_bind; [exact Ha|]. intros s2 Hr2 _. unfold block_tags in Hr2. cbn [app] in Hr2.
       rewrite <- (tags_final D B o Ho HB p1) by done. fold gap_tags.
       rewrite (covered_sums D B o Ho HB p1) by (unfold PageSize in *; lia_div).  replace (PageSize * p1 - o) with 0 by lia. by apply does_ret. }
  unfold StoreRangeUnaligned. cbn [fst]. eapply does_bind; [by apply gap_does|]. intros s1 Hr1 _.
  assert ((if len <? PageSize - po then len else PageSize - po) = first) as -> by (destruct (Z.ltb_spec len (PageSize - po)); lia).
  destruct ((0 <? po) || (len <? PageSize)) eqn:Hpre.
  - eapply (does_bind _ _ _ (Some (checksum (page_of p1 D')))).
    { eapply does_bind; [|intros s2 Hr2 _; by apply does_ret]. destruct (Z.le_gt_cases N o); [by apply preblock_append|].
      apply preblock_overwrite; [done|done| |done]. intros Hz. rewrite Hz in Hsu, Hpre. apply Z.ltb_lt in Hpre.
      rewrite (proj2 (Z.ltb_ge N o)), andb_false_r, orb_false_r in Hsu by lia. cbn [negb orb] in Hsu.
      apply andb_true_iff in Hsu as [Hsu%Z.ltb_lt _]. unfold PageSize in *. lia. }
    intros s2 Hr2 _. destruct (Z.leb_spec len (PageSize - po)) as [Hle|Hgt].
    + eapply does_bind; [apply does_WriteTags; [exact Hr2| |done|]|].
      * rewrite zlen_gap_tags. destruct (Z.ltb_spec (N / PageSize) p1); [lia|]. unfold npages, PageSize in *. lia_div.
      * apply Forall_singleton, checksum_word, slice_bytes, Forall_write_at; done.
      * intros s3 Hr3 _. rewrite <- (tags_final D B o Ho HB p1) by done. fold gap_tags.
        replace (npages (o + len)) with (p1 + 1) by (unfold npages, PageSize in *; lia_div). rewrite sums_between_one. by apply does_ret.
    + apply orb_true_iff in Hpre. rewrite !Z.ltb_lt in Hpre.
      apply (tail_does s2 (match csvec with Some cs => Some (drop 1 cs) | None => csvec end) (p1 + 1) (PageSize - po)); [done|lia|lia| |done].
      destruct csvec as [cs'|]; [|done]. intros cs [= <-]. rewrite (Hcs cs' eq_refl). unfold user_sums.
      by rewrite (proj2 (Z.eqb_neq po 0)) by lia.
  - apply orb_false_iff in Hpre. rewrite !Z.ltb_ge in Hpre. assert (po = 0) as Hz by lia.
    eapply (does_bind _ _ _ None); [by apply does_ret|]. intros s2 Hr2 _. cbv zeta. rewrite (proj2 (Z.leb_gt len 0)) by lia.
    assert (match csvec with Some _ | _ => csvec end = csvec) as -> by (by destruct csvec).
    apply (tail_does s2 csvec p1 0 None); [done|lia|lia| |done].
    intros cs Hc. rewrite (Hcs cs Hc). unfold user_sums. by rewrite Hz.
Qed.

End write.

End runs.
