(* ===== verification/CsiUpdate.v ===== *)
(** * Files whose checksums are right stay so

    Proofs about the operations of [CsiFile] that change a file: when the tags are the
    checksums of the pages and no call fails, a write leaves the bytes that were written
    and the checksums of the new pages, whatever was written where; likewise for writes
    that come with checksums and for truncations. *)

From stdpp Require Import base tactics list_numbers numbers option list.
From S2P Require Import Prelude CrcRegister OucCRC32C CsiCrc CsiStore CsiPages CsiFile CsiTags CsiWrite.
#[local] Set Warnings "-clear-no-such-hyp".
Open Scope csi_scope.

Section update.
  Context {T : Type} `{TagstoreLaws T}.
  Context (mach : machine) (disablePgExtend_ loosewriteConfigured_ : bool).
  Abbreviation MF := (M (csi T)).

(** The tracked sizes are [tl] and [ac]; the guard has seen [sizes] and holds the lock on
    the sizes or not. *)
Record st (D tgs : list Z) (tl ac : Z) (sizes : option (Z * Z)) (held : bool) (s : csi T) : Prop := {
  st_ready : ready D tgs s;
  st_missing : hasMissingTags_ s = false;
  st_tl : GetTrackedTagSize (ts_ s) = tl;
  st_ac : GetTrackedDataSize (ts_ s) = ac;
  st_sizes : trackingsizes_ s = sizes;
  st_locked : trackinglenlocked_ s = held;
  st_update : tsforupdate_ s = held }.

(** The file holds [D], and what is recorded about it is right. *)
Definition consistent (D : list Z) (s : csi T) : Prop :=
  Forall is_byte D /\ exists sizes, st D (page_sums D) (zlen D) (zlen D) sizes false s.

(** [m] gives [x] and leads to a state with [P]. *)
Definition gets {A} (m : MF A) (s : csi T) (x : A) (P : csi T -> Prop) : Prop :=
  returns m s (fun r s' => r = inl x /\ P s').

Lemma gets_bind {A B} (m : MF A) (f : A -> MF B) s x y P Q :
  gets m s x P -> (forall s1, P s1 -> gets (f x) s1 y Q) -> gets (bind m f) s y Q.
Proof.
  intros Hm Hf. eapply returns_bind; [exact Hm| |].
  - intros a s1 ([= ->] & HP). exact (Hf s1 HP).
  - intros e s1 (? & _). done.
Qed.

Lemma gets_ret {A} (x : A) s (P : csi T -> Prop) : P s -> gets (ret x) s x P.
Proof. intros Hp. by apply returns_ret. Qed.

Lemma gets_catch {A} (m : MF A) s x P : gets m s x P -> gets (catch m) s (inl x) P.
Proof. intros Hm. apply returns_catch. eapply returns_impl; [exact Hm|]. intros r s' [-> HP]. done. Qed.

Lemma gets_lift {A} (r : res A) x s (P : csi T -> Prop) : r = Ok x -> P s -> gets (lift r) s x P.
Proof. intros Hr HP. by eapply returns_lift. Qed.

Lemma gets_get {B} (f : csi T -> MF B) s y Q : gets (f s) s y Q -> gets (bind get f) s y Q.
Proof. intros Hf. exact Hf. Qed.

Lemma st_does {A} (m : MF A) s x D t1 t2 tl ac sizes held : st D t1 tl ac sizes held s -> does m s x D t2 ->
  gets m s x (st D t2 tl ac sizes held).
Proof.
  intros [] Hd. eapply returns_impl; [exact Hd|]. intros r s' (-> & Hr & []). split; [done|]. split; congruence.
Qed.

Lemma gets_impl {A} (m : MF A) s x (P Q : csi T -> Prop) : gets m s x P -> (forall s', P s' -> Q s') -> gets m s x Q.
Proof. intros Hm Hpq. eapply returns_impl; [exact Hm|]. intros r s' [-> HP]. auto. Qed.

Lemma consistent_gets {A} (m : MF A) s x D sizes : Forall is_byte D ->
  gets m s x (st D (page_sums D) (zlen D) (zlen D) sizes false) -> gets m s x (consistent D).
Proof. intros Hb Hm. eapply gets_impl; [exact Hm|]. intros s' Hs'. split; [done|]. by exists sizes. Qed.

Lemma gets_or_resync {A} (m : MF A) s x P : gets m s x P -> gets (or_resync mach loosewriteConfigured_ m) s x P.
Proof. intros Hm. eapply gets_bind; [by apply gets_catch|]. intros s1 HP. by apply gets_ret. Qed.

(** ** The guard *)

Lemma LockTrackinglen_gets D tgs tl ac sizes s o e rdonly : st D tgs tl ac sizes false s -> o <> e ->
  let held := negb rdonly && negb (e <=? tl) in
  gets (LockTrackinglen o e rdonly) s tt (st D tgs tl ac (Some (tl, ac)) held).
Proof.
  intros [Hr Hm Htl Hac Hz Hlk Hu] Hoe held. unfold gets, returns, LockTrackinglen, TrackedSizesGet, TrackedSizeRelease, bind, get, modify, ret.
  rewrite !Hm, (proj2 (Z.eqb_neq o e)), !Hu by done. cbv beta. rewrite !Hm, ?Hu. destruct rdonly; cbn [negb andb].
  - eexists _, _. split; [reflexivity|]. split; [done|]. rewrite Htl, Hac. split; try done; by destruct Hr.
  - cbn. rewrite Htl. destruct (Z.leb_spec e tl); cbn.
    + eexists _, _. split; [reflexivity|]. split; [done|]. unfold held.
      cbn. rewrite Hac. split; try done; by destruct Hr.
    + eexists _, _. split; [reflexivity|]. split; [done|]. unfold held.
      cbn. rewrite Hac. split; try done; by destruct Hr.
Qed.

Lemma unlockTrackinglen_gets D tgs tl ac sizes s : st D tgs tl ac sizes true s ->
  gets unlockTrackinglen s tt (st D tgs tl ac sizes false).
Proof.
  intros [Hr Hm Htl Hac Hz Hlk Hu]. unfold gets, returns, unlockTrackinglen, TrackedSizeRelease, bind, get, modify, ret.
  rewrite Hlk, Hu. eexists _, _. split; [reflexivity|]. split; [done|]. split; try done; by destruct Hr.
Qed.

Lemma ReleaseAll_gets D tgs tl ac sizes held s : st D tgs tl ac sizes held s ->
  gets ReleaseAll s tt (st D tgs tl ac sizes false).
Proof.
  intros Hs. unfold ReleaseAll. apply gets_get. rewrite (st_locked _ _ _ _ _ _ _ Hs). destruct held.
  - by apply unlockTrackinglen_gets.
  - by apply gets_ret.
Qed.

(** An operation under a guard. *)
Lemma with_rg_gets {A} (m : MF A) s x D tgs tl ac sizes D' tgs' tl' ac' sizes' held' :
  st D tgs tl ac sizes false s ->
  (forall s1, st D tgs tl ac None false s1 -> gets m s1 x (st D' tgs' tl' ac' sizes' held')) ->
  gets (with_rg m) s x (st D' tgs' tl' ac' sizes' false).
Proof.
  intros [Hr Hm Htl Hac Hz Hlk Hu] Hrun. eapply (gets_bind _ _ _ tt _ (st D tgs tl ac None false)).
  { eexists _, _. split; [reflexivity|]. split; [done|]. split; try done; by destruct Hr. }
  intros s1 Hs1. eapply gets_bind; [apply gets_catch, Hrun, Hs1|]. intros s2 Hs2.
  eapply gets_bind; [eapply ReleaseAll_gets, Hs2|]. intros s3 Hs3. by apply gets_ret.
Qed.

Lemma getTrackinglens_gets D tgs tl ac z held s : st D tgs tl ac (Some z) held s ->
  gets getTrackinglens s z (st D tgs tl ac (Some z) held).
Proof. intros Hs. unfold getTrackinglens. apply gets_get. rewrite (st_sizes _ _ _ _ _ _ _ Hs). by apply gets_ret. Qed.

Lemma st_store D tgs tl ac sizes held s t' : st D tgs tl ac sizes held s -> store_ok t' -> calm t' ->
  st D (tags t') (GetTrackedTagSize t') (GetTrackedDataSize t') sizes held (with_ts t' s).
Proof. intros [[] ? ? ? ? ? ?] Hok Hc. by split. Qed.

Lemma LockMakeUnverified_gets D tgs tl ac sizes held s : st D tgs tl ac sizes held s ->
  gets LockMakeUnverified s tt (st D tgs tl ac sizes held).
Proof.
  intros Hs. destruct (st_ready _ _ _ _ _ _ _ Hs) as [Hc Hq Hok Hca Ht].
  destruct (SetUnverified_law (ts_ s) Hok) as (r & t' & Hr & Hok' & Hca' & Ht' & H1 & H2 & _ & _).
  unfold gets, returns, LockMakeUnverified, bind, catch, on_ts, zoom. rewrite Hr.
  eexists _, _. split; [reflexivity|]. split; [done|].
  rewrite <- Ht, <- (st_tl _ _ _ _ _ _ _ Hs), <- (st_ac _ _ _ _ _ _ _ Hs), <- Ht', <- H1, <- H2.
  eapply st_store; [exact Hs|done|auto].
Qed.

Lemma LockSetTrackedSize_gets D tgs tl ac sizes held s n : st D tgs tl ac sizes held s -> 0 <= n ->
  gets (LockSetTrackedSize n) s tt (st D tgs n (Z.max ac n) sizes held).
Proof.
  intros Hs Hn. destruct (st_ready _ _ _ _ _ _ _ Hs) as [Hc Hq Hok Hca Ht].
  destruct (SetTrackedSize_law (ts_ s) n Hok Hn) as (r & t' & Hr & Hok' & Hca' & Ht' & H1 & H2 & _ & _).
  unfold gets, returns, LockSetTrackedSize, bind, catch, on_ts, zoom. rewrite Hr.
  eexists _, _. split; [reflexivity|]. split; [done|].
  rewrite <- Ht, <- (st_ac _ _ _ _ _ _ _ Hs), <- Ht', <- H2. rewrite <- H1 at 1.
  eapply st_store; [exact Hs|done|auto].
Qed.

Lemma LockTruncateSize_gets D tgs tl ac sizes held s n : st D tgs tl ac sizes held s -> 0 <= n -> npages n <= zlen tgs ->
  gets (LockTruncateSize n true) s tt (st D (take (Z.to_nat (npages n)) tgs) n n sizes held).
Proof.
  intros Hs Hn Hin. destruct (st_ready _ _ _ _ _ _ _ Hs) as [Hc Hq Hok Hca Ht].
  destruct (Truncate_law (ts_ s) n true Hok Hn) as (r & t' & Hr & Hok' & Hca' & Hp).
  unfold gets, returns, LockTruncateSize, bind, catch, on_ts, zoom. rewrite Hr.
  eexists _, _. split; [reflexivity|]. split; [done|].
  destruct r as [[]|e]; [|by destruct Hp]. destruct Hp as (H1 & H2 & H3). rewrite Ht in H3.
  pose proof (st_store _ _ _ _ _ _ _ t' Hs Hok' (Hca' Hca)) as Hst. by rewrite H1, H2, (H3 Hin) in Hst.
Qed.

(** ** Writing the data *)

Lemma df_Write_gets D tgs tl ac z held s p off : st D tgs tl ac z held s -> p <> [] -> 0 <= off ->
  exists n, 0 < n <= zlen p /\ gets (on_df (df_Write p off)) s n (st (write_at off (take (Z.to_nat n) p) D) tgs tl ac z held).
Proof.
  intros [[Hc Hq Hok Hca Ht] Hm Htl Hac Hz Hlk Hu] Hp Ho.
  destruct (df_Write_gives (df s) off p Hp Ho) as (r & f' & Hr & Hq' & Hpost).
  destruct r as [n|e]; [|by destruct Hpost as (_ & ? & _)]. destruct Hpost as [Hn Hc'].
  exists n. split; [done|]. eexists _, _. unfold on_df, zoom. rewrite Hr. split; [reflexivity|]. split; [done|].
  rewrite Hc in Hc'. split; try done. split; try done. cbn. auto.
Qed.

Lemma write_at_step off n (p D : list Z) : 0 <= off -> 0 < n <= zlen p ->
  write_at (off + n) (adv n p) (write_at off (take (Z.to_nat n) p) D) = write_at off p D.
Proof.
  intros Ho Hn. assert (zlen (take (Z.to_nat n) p) = n) as Hl by (unfold zlen in *; rewrite length_take; lia).
  rewrite <- Hl at 1. rewrite write_at_app by done. f_equal. apply take_drop.
Qed.

Lemma write_loop_gets fuel : forall D tgs tl ac z held s p o k, st D tgs tl ac z held s -> (length p <= fuel)%nat -> 0 <= o + k ->
  gets (write_loop mach loosewriteConfigured_ fuel p o k) s (k + zlen p) (st (write_at (o + k) p D) tgs tl ac z held).
Proof.
  induction fuel as [|fuel IH]; intros D tgs tl ac z held s p o k Hs Hf Hok; cbn [write_loop];
    (destruct (Z.leb_spec (zlen p) 0) as [Hz|Hz];
      [assert (p = []) as -> by (apply zlen_zero_nil; pose proof (zlen_nonneg p); lia); rewrite zlen_nil, Z.add_0_r; by apply gets_ret|]).
  { unfold zlen in Hz. lia. }
  assert (p <> []) as Hp by (intros ->; done).
  destruct (df_Write_gets _ _ _ _ _ _ s p (o + k) Hs Hp Hok) as (n & Hn & Hw).
  eapply gets_bind; [by apply gets_or_resync|]. intros s1 Hs1.
  rewrite <- (write_at_step (o + k) n p D) by done. replace (k + zlen p) with (k + n + zlen (adv n p)) by (rewrite zlen_adv by lia; lia).
  replace (o + k + n) with (o + (k + n)) by lia. apply IH; [done| |lia]. unfold adv. rewrite length_drop. lia.
Qed.

Lemma pgwrite_loop_gets fuel : forall D tgs tl ac z held s p o k, st D tgs tl ac z held s -> p <> [] -> (length p < fuel)%nat -> 0 <= o + k ->
  gets (pgwrite_loop mach loosewriteConfigured_ fuel p o k) s (k + zlen p) (st (write_at (o + k) p D) tgs tl ac z held).
Proof.
  induction fuel as [|fuel IH]; intros D tgs tl ac z held s p o k Hs Hp Hf Hok; [lia|]. cbn [pgwrite_loop].
  destruct (df_Write_gets _ _ _ _ _ _ s p (o + k) Hs Hp Hok) as (n & Hn & Hw).
  eapply gets_bind; [by apply gets_or_resync|]. intros s1 Hs1.
  rewrite <- (write_at_step (o + k) n p D) by done. assert (zlen (adv n p) = zlen p - n) as Hl by (rewrite zlen_adv by lia; lia).
  destruct (Z.leb_spec (zlen (adv n p)) 0) as [Hz|Hz].
  - assert (adv n p = []) as -> by (apply zlen_zero_nil; pose proof (zlen_nonneg (adv n p)); lia).
    replace (k + zlen p) with (k + n) by lia. by apply gets_ret.
  - replace (k + zlen p) with (k + n + zlen (adv n p)) by lia. replace (o + k + n) with (o + (k + n)) by lia.
    apply IH; [done|intros He; by rewrite He in Hz| |lia]. unfold adv. rewrite length_drop. unfold zlen in *. lia.
Qed.

(** ** Writes *)

(** What [UpdateRange] and [StoreRange] do with the tracked sizes before storing. *)
Lemma extend_gets D tgs N s e : st D tgs N N (Some (N, N)) (negb (e <=? N)) s -> 0 <= e ->
  gets (if N <? e then LockSetTrackedSize e ;;; unlockTrackinglen else ret tt) s tt (st D tgs (Z.max N e) (Z.max N e) (Some (N, N)) false).
Proof.
  intros Hs He. destruct (Z.ltb_spec N e).
  - rewrite (proj2 (Z.leb_gt e N)) in Hs by done. eapply gets_bind; [by eapply LockSetTrackedSize_gets|]. intros s1 Hs1.
    rewrite Z.max_r in Hs1 |- * by lia. by eapply unlockTrackinglen_gets.
  - rewrite (proj2 (Z.leb_le e N)) in Hs by done. rewrite Z.max_l by lia. by apply gets_ret.
Qed.

Section range.
  Context (D B : list Z) (o : Z).
  Hypothesis Dbytes : Forall is_byte D.
  Hypothesis Bbytes : Forall is_byte B.
  Hypothesis Ho : 0 <= o.
  Hypothesis HB : B <> [].
  Abbreviation N := (zlen D).
  Abbreviation e := (o + zlen B).
  Abbreviation D' := (write_at o B D).

Lemma e_pos : o < e.
Proof using HB. pose proof (len_pos B HB). lia. Qed.

Lemma store_gets csvec tl ac held sizes s : st D (page_sums D) tl ac sizes held s -> (forall cs, csvec = Some cs -> cs = user_sums o B) ->
  gets (if store_unaligned o (zlen B) N then StoreRangeUnaligned mach true B o (zlen B) (N, N) csvec
        else StoreRangeAligned mach true B o (zlen B) (N, N) csvec) s tt (st D (page_sums D') tl ac sizes held).
Proof using Dbytes Bbytes Ho HB.
  intros Hs Hcs. eapply st_does; [exact Hs|]. apply store_does; try done. apply Hs.
Qed.

Lemma UpdateRange_gets s : st D (page_sums D) N N (Some (N, N)) (negb (e <=? N)) s ->
  gets (UpdateRange mach true B o (zlen B)) s tt (st D (page_sums D') (zlen D') (zlen D') (Some (N, N)) false).
Proof using Dbytes Bbytes Ho HB.
  intros Hs. pose proof e_pos. unfold UpdateRange. apply gets_get.
  rewrite (proj2 (Z.ltb_ge o 0)), (proj2 (Z.eqb_neq (zlen B) 0)) by lia. rewrite (st_missing _ _ _ _ _ _ _ Hs).
  eapply gets_bind; [eapply LockMakeUnverified_gets, Hs|]. intros s1 Hs1.
  eapply gets_bind; [eapply getTrackinglens_gets, Hs1|]. intros s2 Hs2.
  eapply gets_bind; [apply extend_gets; [exact Hs2|lia]|]. intros s3 Hs3. rewrite zlen_after by done.
  by apply (store_gets None).
Qed.

End range.

Lemma Write_gets D B o s : consistent D s -> Forall is_byte B -> B <> [] -> 0 <= o ->
  gets (Write mach true loosewriteConfigured_ false B o) s (zlen B) (consistent (write_at o B D)).
Proof.
  intros [HD [sizes Hs]] Hb HB Ho. pose proof (e_pos B o HB).
  eapply consistent_gets; [by apply Forall_write_at|]. eapply with_rg_gets; [exact Hs|]. intros s1 Hs1.
  eapply gets_bind; [eapply (LockTrackinglen_gets _ _ _ _ _ _ o _ false); [exact Hs1|lia]|]. cbn [negb andb]. intros s2 Hs2.
  eapply gets_bind; [by apply gets_or_resync, (UpdateRange_gets D B o)|]. intros s3 Hs3.
  pose proof (write_loop_gets (length B) _ _ _ _ _ _ s3 B o 0 Hs3) as Hw. rewrite Z.add_0_r in Hw. apply Hw; lia.
Qed.

(** ** Writes with checksums *)

Lemma pgDoCalc_sums B o : Forall is_byte B -> B <> [] -> 0 <= o -> pgDoCalc mach B o (zlen B) = Ok (user_sums o B).
Proof.
  intros Hb HB Ho. pose proof (len_pos B HB) as Hpos. unfold pgDoCalc, user_sums. set (po := o mod PageSize).
  assert (0 <= po < PageSize) as Hpo by (unfold po, PageSize; lia_div). destruct (Z.eqb_spec po 0) as [Hz|Hz].
  - rewrite Hz, Z.ltb_irrefl. cbv zeta iota. rewrite Z.ltb_irrefl, bind_Ok, Z.min_id, Calc_pages by (done || lia).
    rewrite bind_Ok, app_nil_r. unfold zlen. by rewrite Nat2Z.id, firstn_all.
  - rewrite (proj2 (Z.ltb_lt 0 po)) by lia. cbv zeta iota. set (al := PageSize - po).
    assert (page_sums (take (Z.to_nat (Z.min al (zlen B))) B) = [checksum (take (Z.to_nat al) B)]) as Hf.
    { assert (take (Z.to_nat (Z.min al (zlen B))) B = take (Z.to_nat al) B) as ->.
      { destruct (Z.min_spec al (zlen B)) as [[? ->]|[? ->]]; [done|]. unfold zlen in *. by rewrite !take_ge by lia. }
      rewrite page_sums_last; [done|]. unfold zlen in *. rewrite length_take. unfold al, PageSize in *. lia. }
    assert ((if al <? zlen B then Calc32C_pages mach (adv al B) (zlen B - al) else Ok []) = Ok (page_sums (adv al B))) as ->.
    { destruct (Z.ltb_spec al (zlen B)).
      - assert (zlen (adv al B) = zlen B - al) as Hl by (rewrite zlen_adv; unfold al; lia).
        rewrite <- Hl. apply Calc32C_pages_spec. by apply is_byte_adv.
      - unfold adv. rewrite drop_ge; [done|]. unfold zlen in *. lia. }
    rewrite bind_Ok, Calc_pages by (done || (unfold al in *; lia)). by rewrite bind_Ok, Hf.
Qed.

Lemma Ver32C_first_page B n c cs : Forall is_byte B -> 0 < n <= zlen B -> n <= PageSize ->
  Ver32C_first mach B n (c :: cs) =
    Ok (if c =? checksum (take (Z.to_nat n) B) then (-1, None) else (0, Some (checksum (take (Z.to_nat n) B)))).
Proof.
  intros Hb Hn Hp. assert (crc32c mach 0 B n = Ok (checksum (take (Z.to_nat n) B))) as Hc.
  { apply (Calc_sum mach); [done|lia]. }
  unfold Ver32C_first. destruct (Z.eq_dec n PageSize) as [He|Hne].
  - rewrite He in *. change (Z.to_nat (PageSize / PageSize)) with 1%nat. cbn [Ver32C_loop]. rewrite Hc, bind_Ok.
    by destruct (c =? _).
  - replace (n / PageSize) with 0 by (unfold PageSize in *; lia_div). change (Z.to_nat 0) with 0%nat. cbn [Ver32C_loop].
    rewrite (proj2 (Z.ltb_lt 0 n)), Hc, bind_Ok by lia. by destruct (c =? _).
Qed.

Lemma first_mismatch_none cs : forall ss i, 0 <= i -> length cs = length ss ->
  (0 <=? (first_mismatch i cs ss).1) = negb (bool_decide (cs = ss)).
Proof.
  induction cs as [|c cs IH]; intros [|x ss] i Hi Hl; try done. injection Hl as Hl.
  rewrite first_mismatch_cons. destruct (Z.eqb_spec c x) as [-> | Hne].
  - rewrite IH by (done || lia). f_equal. apply bool_decide_ext. naive_solver.
  - cbn [fst]. rewrite (proj2 (Z.leb_le 0 i)) by done. rewrite bool_decide_eq_false_2; [done|naive_solver].
Qed.

(** The check before a write: all the sums are those of the data, or it is refused. *)
Lemma prelock_check B o opts cs s : Forall is_byte B -> B <> [] -> 0 <= o -> length cs = length (user_sums o B) ->
  opt opts Verify = true ->
  pgWritePrelockCheck (T:=T) mach B o (zlen B) (Some cs) opts s
    = Ok (if bool_decide (cs = user_sums o B) then inl tt else inr EDOM, s).
Proof.
  intros Hb HB Ho Hl Hv. pose proof (len_pos B HB) as Hpos. unfold pgWritePrelockCheck. rewrite Hv.
  set (po := o mod PageSize) in *. assert (0 <= po < PageSize) as Hpo by (unfold po, PageSize; lia_div).
  unfold user_sums in *. fold po in Hl |- *. destruct (Z.eqb_spec po 0) as [Hz|Hz].
  - rewrite Hz, Z.ltb_irrefl. cbv zeta iota. rewrite Z.ltb_irrefl, Z.min_id.
    destruct (Ver32C_agree mach B cs Hb Hl) as (_ & _ & _ & H4). unfold bind, ret, lift. cbn [fst]. rewrite H4.
    change (0 <=? -1) with false. cbv iota. rewrite first_mismatch_none by done. by destruct (bool_decide _).
  - rewrite (proj2 (Z.ltb_lt 0 po)) by lia. cbv zeta iota. set (al := PageSize - po) in *.
    destruct cs as [|c cs]; [done|]. injection Hl as Hl. change (drop 1 (c :: cs)) with cs.
    assert (Ver32C_first mach B (Z.min al (zlen B)) (c :: cs) =
      Ok (if c =? checksum (take (Z.to_nat al) B) then (-1, None) else (0, Some (checksum (take (Z.to_nat al) B))))) as Hf.
    { rewrite Ver32C_first_page by (done || (unfold al; lia)).
      destruct (Z.min_spec al (zlen B)) as [[? ->]|[? ->]]; [done|]. unfold zlen in *. by rewrite !take_ge by lia. }
    assert (bool_decide (c :: cs = checksum (take (Z.to_nat al) B) :: page_sums (adv al B))
      = (c =? checksum (take (Z.to_nat al) B)) && bool_decide (cs = page_sums (adv al B))) as ->.
    { destruct (Z.eqb_spec c (checksum (take (Z.to_nat al) B))); cbn [andb]; [apply bool_decide_ext|apply bool_decide_eq_false]; naive_solver. }
    unfold bind, ret, lift. destruct (Z.ltb_spec al (zlen B)) as [Hlt|Hge].
    + assert (zlen (adv al B) = zlen B - al) as Hla by (rewrite zlen_adv; unfold al; lia).
      destruct (Ver32C_agree mach (adv al B) cs (is_byte_adv _ _ Hb) Hl) as (_ & _ & _ & H4). rewrite Hla in H4. rewrite H4.
      rewrite first_mismatch_none by done. destruct (bool_decide (cs = _)); cbn [negb]; [|by rewrite andb_false_r].
      rewrite Hf, andb_true_r. by destruct (c =? _).
    + assert (adv al B = []) as Had by (apply drop_ge; unfold zlen in *; lia). rewrite Had in *.
      destruct cs; [|done]. change (0 <=? (-1, @None Z).1) with false. cbv iota. rewrite Hf.
      rewrite (bool_decide_eq_true_2 ([] = page_sums [])), andb_true_r by done. by destruct (c =? _).
Qed.

(** The range is stored, with the sums that came or are worked out. *)
Lemma StoreRange_gets D B o csvec opts s : Forall is_byte D -> Forall is_byte B -> 0 <= o -> B <> [] ->
  (forall cs, csvec = Some cs -> cs = user_sums o B \/ opt opts doCalc = true) ->
  (disablePgExtend_ = true -> zlen D mod PageSize = 0 \/ o + zlen B <= zlen D) ->
  st D (page_sums D) (zlen D) (zlen D) (Some (zlen D, zlen D)) (negb (o + zlen B <=? zlen D)) s ->
  gets (StoreRange mach true disablePgExtend_ B o (zlen B) csvec opts) s ((fun _ => user_sums o B) <$> csvec)
    (st D (page_sums (write_at o B D)) (zlen (write_at o B D)) (zlen (write_at o B D)) (Some (zlen D, zlen D)) false).
Proof.
  intros HD Hb Ho HB Hcs Hext Hs. pose proof (e_pos B o HB). unfold StoreRange. apply gets_get.
  rewrite (proj2 (Z.ltb_ge o 0)), (proj2 (Z.eqb_neq (zlen B) 0)) by lia. rewrite (st_missing _ _ _ _ _ _ _ Hs).
  eapply gets_bind; [eapply getTrackinglens_gets, Hs|]. intros s1 Hs1. cbn [fst].
  assert (disablePgExtend_ && negb (zlen D mod PageSize =? 0) && (zlen D <? o + zlen B) = false) as ->.
  { destruct disablePgExtend_; [|done]. cbn [andb]. destruct (Hext eq_refl) as [-> | Hle]; [done|].
    rewrite (proj2 (Z.ltb_ge _ _)) by done. apply andb_false_r. }
  eapply (gets_bind _ _ _ ((fun _ => user_sums o B) <$> csvec)).
  { destruct csvec as [cs|]; cbn [option_fmap fmap option_map]; [|by apply gets_ret]. destruct (opt opts doCalc) eqn:Hop.
    - eapply gets_bind; [apply gets_lift; [by apply pgDoCalc_sums|exact Hs1]|]. intros s2 Hs2. by apply gets_ret.
    - destruct (Hcs cs eq_refl) as [-> |?]; [by apply gets_ret|done]. }
  intros s2 Hs2. eapply (gets_bind _ _ _ tt).
  { destruct csvec as [cs|]; cbn; [by apply gets_ret, Hs2|]. destruct (opt opts doCalc); [by apply gets_ret, Hs2|].
    eapply LockMakeUnverified_gets, Hs2. }
  intros s3 Hs3. eapply gets_bind; [apply extend_gets; [exact Hs3|lia]|]. intros s4 Hs4. rewrite zlen_after by done.
  eapply gets_bind; [apply (store_gets D B o); [done..|exact Hs4|]|].
  - intros cs Hc. destruct csvec; [by injection Hc|done].
  - intros s5 Hs5. by apply gets_ret.
Qed.

Lemma pgWrite_gets D B o csvec opts s : consistent D s -> Forall is_byte B -> B <> [] -> 0 <= o ->
  (forall cs, csvec = Some cs -> cs = user_sums o B \/ opt opts doCalc = true /\ opt opts Verify = false) ->
  (disablePgExtend_ = true -> zlen D mod PageSize = 0 \/ o + zlen B <= zlen D) ->
  gets (pgWrite mach true disablePgExtend_ loosewriteConfigured_ false B o csvec opts) s (zlen B, (fun _ => user_sums o B) <$> csvec)
    (consistent (write_at o B D)).
Proof.
  intros [HD [sizes Hs]] Hb HB Ho Hcs Hext. pose proof (e_pos B o HB). unfold pgWrite.
  eapply (gets_bind _ _ _ tt _ (st D (page_sums D) (zlen D) (zlen D) sizes false)).
  { destruct csvec as [cs|]; [|by apply gets_ret]. destruct (opt opts Verify) eqn:Hv.
    - destruct (Hcs cs eq_refl) as [-> |[_ ?]]; [|done]. eexists _, _. rewrite prelock_check by done.
      rewrite bool_decide_eq_true_2 by done. by split.
    - unfold pgWritePrelockCheck. rewrite Hv. by apply gets_ret. }
  clear s Hs. intros s Hs. eapply consistent_gets; [by apply Forall_write_at|]. eapply with_rg_gets; [exact Hs|]. intros s1 Hs1.
  eapply gets_bind; [eapply (LockTrackinglen_gets _ _ _ _ _ _ o _ false); [exact Hs1|lia]|]. cbn [negb andb]. intros s2 Hs2.
  eapply gets_bind; [apply gets_or_resync, (StoreRange_gets D B o); try done|].
  { intros cs Hc. destruct (Hcs cs Hc) as [?|[? _]]; auto. }
  intros s3 Hs3. eapply gets_bind.
  - apply (pgwrite_loop_gets (S (length B)) _ _ _ _ _ _ s3 B o 0 Hs3); [done|lia|lia].
  - intros s4 Hs4. rewrite !Z.add_0_r, ?Z.add_0_l in *. by apply gets_ret.
Qed.


(** ** Truncations *)

Section resize.
  Context (D : list Z) (n : Z).
  Hypothesis Dbytes : Forall is_byte D.
  Hypothesis Hn : 0 <= n.
  Abbreviation N := (zlen D).
  Abbreviation pu := (n / PageSize).
  Abbreviation D' := (resize_to n D).
  Abbreviation E := (if N / PageSize <? pu then zero_extended (PageSize * pu) D else D).

Lemma lookup_resize (i : nat) : D' !! i = if decide (Z.of_nat i < n) then (if decide (i < length D)%nat then D !! i else Some 0) else None.
Proof using Hn.
  unfold resize_to. case_decide as Hi.
  - case_decide as Hd.
    + rewrite lookup_app_l by (rewrite length_take; lia). apply lookup_take_lt. lia.
    + rewrite lookup_app_r by (rewrite length_take; lia). rewrite length_take. apply lookup_replicate_2. lia.
  - apply lookup_ge_None_2. rewrite length_app, length_take, length_replicate. lia.
Qed.

(** Pages before the new end. *)
Lemma page_resized i : 0 <= i < pu -> page_of i D' = page_of i E.
Proof using Hn.
  intros Hi. unfold page_of. apply list_eq. intros j. rewrite !lookup_slice_all. case_decide; [|done].
  rewrite lookup_resize, decide_True by (unfold PageSize in *; lia_div). unfold zero_extended.
  destruct (Z.ltb_spec (N / PageSize) pu).
  - case_decide; [by rewrite lookup_app_l|]. rewrite lookup_app_r by lia. symmetry. apply lookup_replicate_2.
    unfold zlen, PageSize in *. lia_div.
  - rewrite decide_True; [done|]. unfold zlen, PageSize in *. lia_div.
Qed.

(** The new last page. *)
Lemma page_cut : page_of pu D' = slice (PageSize * pu) (Z.min (n mod PageSize) (Z.max 0 (N - PageSize * pu))) D ++
  replicate (Z.to_nat (n mod PageSize - Z.max 0 (N - PageSize * pu))) 0.
Proof using Hn.
  set (a := Z.max 0 (N - PageSize * pu)). assert (0 <= n mod PageSize < PageSize /\ n = PageSize * pu + n mod PageSize) as [Hm Heq] by (unfold PageSize; lia_div).
  unfold page_of. apply list_eq. intros j. rewrite lookup_slice_all, lookup_resize.
  assert (zlen (slice (PageSize * pu) (Z.min (n mod PageSize) a) D) = Z.min (n mod PageSize) a) as Hl.
  { rewrite zlen_slice by (unfold PageSize in *; lia). unfold a. lia. }
  destruct (decide (Z.of_nat j < Z.min (n mod PageSize) a)).
  - rewrite lookup_app_l by (unfold zlen in Hl; lia). rewrite lookup_slice by lia.
    rewrite !decide_True by (unfold a, zlen, PageSize in *; lia). done.
  - rewrite lookup_app_r by (unfold zlen in Hl; lia). destruct (decide (Z.of_nat j < n mod PageSize)).
    + rewrite decide_True, decide_True, decide_False by (unfold a, zlen, PageSize in *; lia).
      symmetry. apply lookup_replicate_2. unfold zlen in Hl. lia.
    + rewrite (lookup_ge_None_2 (replicate _ _)) by (rewrite length_replicate; unfold zlen in Hl; lia).
      case_decide; [|done]. rewrite decide_False by (unfold PageSize in *; lia). done.
Qed.

Lemma resized_tags tgs : (forall i : nat, Z.of_nat i < pu -> tgs !! i = page_sums E !! i) ->
  (n mod PageSize <> 0 -> tgs !! Z.to_nat pu = Some (checksum (page_of pu D'))) ->
  take (Z.to_nat (npages n)) tgs = page_sums D'.
Proof using Hn.
  intros Hlow Hlast. assert (zlen D' = n) as Hl by (by apply zlen_resize).
  assert (0 <= pu) as Hpu by (unfold PageSize; lia_div). pose proof (zlen_nonneg D) as HN.
  assert (npages n = if n mod PageSize =? 0 then pu else pu + 1) as Hnp.
  { unfold npages, PageSize. destruct (Z.eqb_spec (n mod 4096) 0); lia_div. }
  apply list_eq. intros i. rewrite lookup_take, page_sums_between, Hl. case_decide as Hi.
  2: { symmetry. apply lookup_ge_None_2. rewrite length_zlen, zlen_sums_between; destruct (n mod PageSize =? 0); lia. }
  rewrite lookup_sums_between by (destruct (n mod PageSize =? 0); lia). rewrite Z.add_0_l.
  destruct (decide (Z.of_nat i < pu)) as [Hlt|Hge].
  - rewrite Hlow by done. rewrite page_resized by lia. rewrite page_sums_between, lookup_sums_between; [by rewrite Z.add_0_l|].
    destruct (Z.ltb_spec (N / PageSize) pu); [rewrite zlen_zero_extended|]; unfold npages, PageSize in *; lia_div.
  - destruct (Z.eqb_spec (n mod PageSize) 0); [lia|]. replace i with (Z.to_nat pu) by lia. rewrite Hlast by done. do 3 f_equal. lia.
Qed.

End resize.

Lemma gap_gets D n s tl ac sizes held : Forall is_byte D -> 0 <= n -> st D (page_sums D) tl ac sizes held s ->
  gets (if zlen D <? n then UpdateRangeHoleUntilPage mach true false (n / PageSize) (zlen D, zlen D) else ret tt) s tt
    (st D (gap_tags D n) tl ac sizes held).
Proof. intros HD Hn Hs. eapply st_does; [exact Hs|]. apply gap_does; try done. apply Hs. Qed.

(** The new last page: its old checksum is verified before the new one is stored. *)
Lemma cut_does D n s : Forall is_byte D -> 0 <= n -> ready D (gap_tags D n) s -> n <> zlen D -> n mod PageSize <> 0 ->
  let pu := n / PageSize in let p_off := n mod PageSize in
  let tracked_page := zlen D / PageSize in let tracked_off := zlen D mod PageSize in
  let toread := if zlen D <? n then (if pu =? tracked_page then tracked_off else 0)
                else (if pu =? tracked_page then tracked_off else PageSize) in
  does (let* b := (if 0 <? toread then
                     let* b := pg_fullread (pu * PageSize) toread in
                     let* crc32c := lift (Calc32C mach b toread 0) in
                     let* l := on_ts (ReadTags pu 1) in
                     if default 0 (head l) =? crc32c then ret b else fail EDOM
                   else ret []) in
        let b := b ++ replicate (Z.to_nat (p_off - toread)) 0 in
        let* crc32c := lift (Calc32C mach b p_off 0) in
        let* _ := on_ts (WriteTags [crc32c] pu) in ret tt) s tt D
    (write_at pu [checksum (page_of pu (resize_to n D))] (gap_tags D n)).
Proof.
  intros HD Hn Hr Hne Hz pu off tp toff toread. pose proof (zlen_nonneg D) as HN.
  assert (0 <= off < PageSize /\ n = PageSize * pu + off /\ 0 <= pu) as (Hoff & Heq & Hpu) by (unfold off, pu, PageSize; lia_div).
  assert (zlen D = PageSize * tp + toff /\ 0 <= toff < PageSize) as (HNd & HNm) by (unfold tp, toff, PageSize; lia_div).
  assert (toread = Z.min PageSize (Z.max 0 (zlen D - PageSize * pu))) as Htr.
  { unfold toread. destruct (Z.ltb_spec (zlen D) n), (Z.eqb_spec pu tp); unfold PageSize in *; lia. }
  clearbody toread. assert (0 <= PageSize * pu) as Hpp by (unfold PageSize in *; lia).
  set (old := slice (PageSize * pu) toread D). assert (Forall is_byte old) as Hob by (by apply slice_bytes).
  assert (zlen old = toread) as Hol by (unfold old; rewrite zlen_slice, Z.min_l by (try rewrite Htr; unfold PageSize in *; lia); done).
  eapply (does_bind _ _ _ old _ _ (gap_tags D n)).
  { destruct (Z.ltb_spec 0 toread) as [Hpos|Hzero].
    - rewrite (Z.mul_comm pu). eapply does_bind; [apply does_fullread; [exact Hr|unfold PageSize in *; lia..]|]. intros s1 Hr1 _. fold old.
      eapply does_lift_bind; [apply Calc_sum; [done|lia]|exact Hr1|]. rewrite take_ge by (rewrite length_zlen; lia).
      assert (old = page_of pu D) as Hop by (rewrite page_of_min by done; unfold old; f_equal; lia).
      eapply does_bind; [apply (does_tag _ _ _ pu (checksum old)); [done|lia|]|].
      { rewrite Hop. apply gap_tag; [unfold npages, PageSize in *; lia_div|left; apply Z.ltb_ge; fold pu tp; unfold PageSize in *; lia]. }
      intros s2 Hr2 _. cbn [head default]. rewrite Z.eqb_refl. by apply does_ret.
    - assert (old = []) as -> by (apply zlen_zero_nil; lia). by apply does_ret. }
  intros s1 Hr1 _. set (b := old ++ replicate (Z.to_nat (off - toread)) 0).
  assert (Forall is_byte b) as Hb by (apply Forall_app_2; [done|apply is_byte_zeros]).
  assert (zlen b = toread + Z.max 0 (off - toread)) as Hbl by (unfold b; rewrite zlen_app, Hol; unfold zlen; rewrite length_replicate; lia).
  eapply does_lift_bind; [apply Calc_sum; [done|lia]|exact Hr1|].
  assert (take (Z.to_nat off) b = page_of pu (resize_to n D)) as ->.
  { unfold pu. rewrite page_cut by done. fold pu off. destruct (Z.le_gt_cases toread off).
    - rewrite (take_ge b) by (rewrite length_zlen; lia). unfold b, old. f_equal; f_equal; unfold PageSize in *; lia.
    - unfold b. rewrite take_app_le by (rewrite length_zlen; lia). unfold old. change (take (Z.to_nat off) ?l) with (slice 0 off l).
      rewrite slice_slice, Z.add_0_r by (unfold PageSize in *; lia). replace (Z.to_nat (off - Z.max 0 (zlen D - PageSize * pu))) with O by (unfold PageSize in *; lia).
      cbn [replicate]. rewrite app_nil_r. f_equal. unfold PageSize in *; lia. }
  eapply does_bind; [apply does_WriteTags; [exact Hr1| |done|]|intros s2 Hr2 _; by apply does_ret].
  - rewrite (zlen_gap_tags D n Hn). fold pu tp. destruct (Z.ltb_spec tp pu); [lia|]. unfold npages, PageSize in *. lia_div.
  - apply Forall_singleton, checksum_word, slice_bytes. by apply resize_bytes.
Qed.

Lemma truncate_gets D n s : Forall is_byte D -> 0 <= n -> st D (page_sums D) (zlen D) (zlen D) (Some (zlen D, zlen D)) true s ->
  gets (truncate mach true n) s tt (st D (page_sums (resize_to n D)) n n (Some (zlen D, zlen D)) false).
Proof.
  intros HD Hn Hs. pose proof (zlen_nonneg D) as HN. unfold truncate. apply gets_get.
  rewrite (proj2 (Z.ltb_ge n 0)) by lia. rewrite (st_missing _ _ _ _ _ _ _ Hs).
  eapply gets_bind; [eapply getTrackinglens_gets, Hs|]. intros s1 Hs1. cbn [fst].
  eapply gets_bind; [by apply gap_gets|]. intros s2 Hs2. set (pu := n / PageSize) in *. set (off := n mod PageSize) in *.
  assert (0 <= off < PageSize /\ n = PageSize * pu + off /\ 0 <= pu) as (Hoff & Heq & Hpu) by (unfold off, pu, PageSize; lia_div).
  assert (zlen D = PageSize * (zlen D / PageSize) + zlen D mod PageSize /\ 0 <= zlen D mod PageSize < PageSize) as (HNd & HNm) by (unfold PageSize; lia_div).
  assert (pu <= zlen (gap_tags D n)) as Hgl.
  { rewrite (zlen_gap_tags D n Hn). fold pu. destruct (Z.ltb_spec (zlen D / PageSize) pu); [lia|]. unfold npages, PageSize in *. lia_div. }
  assert (npages n = if off =? 0 then pu else pu + 1) as Hnp.
  { unfold npages, off, pu, PageSize. destruct (Z.eqb_spec (n mod 4096) 0); lia_div. }
  set (tgs := if negb (n =? zlen D) && negb (off =? 0) then write_at pu [checksum (page_of pu (resize_to n D))] (gap_tags D n) else gap_tags D n).
  assert (page_sums (resize_to n D) = take (Z.to_nat (npages n)) tgs) as Htgs.
  { symmetry. apply resized_tags; [done| |]; fold pu off.
    - intros i Hi. unfold tgs. destruct (_ && _); [|done]. by rewrite lookup_write_at_below by (unfold zlen in Hgl; lia).
    - intros Ho. unfold tgs. rewrite (proj2 (Z.eqb_neq off 0)) by done. cbn [negb]. rewrite andb_true_r. destruct (Z.eqb_spec n (zlen D)) as [He|Hne]; cbn [negb].
      + rewrite (gap_tag D n) by (fold pu; first [left; apply Z.ltb_ge|idtac]; unfold npages, pu, off, PageSize in *; lia_div).
        unfold resize_to. rewrite He. unfold zlen. by rewrite Nat2Z.id, firstn_all, Nat.sub_diag, app_nil_r.
      + by rewrite lookup_write_at_inside, Nat.sub_diag by (cbn [length]; lia). }
  assert (npages n <= zlen tgs) as Hin.
  { apply (f_equal zlen) in Htgs. rewrite zlen_page_sums, zlen_resize in Htgs by done.
    unfold zlen in *. rewrite length_take in Htgs. lia. }
  eapply (gets_bind _ _ _ tt _ (st D tgs (zlen D) (zlen D) (Some (zlen D, zlen D)) true)).
  { eapply st_does; [exact Hs2|]. unfold tgs. destruct (Z.eqb_spec n (zlen D)) as [He|Hne]; [apply does_ret, Hs2|].
    destruct (Z.eqb_spec off 0) as [Hz|Hz]; [apply does_ret, Hs2|]. apply cut_does; try done. apply Hs2. }
  intros s3 Hs3. eapply gets_bind; [eapply LockTruncateSize_gets; [exact Hs3|lia|done]|]. intros s4 Hs4. rewrite Htgs.
  by eapply unlockTrackinglen_gets.
Qed.

Lemma df_Ftruncate_gets D tgs tl ac z held s n : st D tgs tl ac z held s ->
  gets (on_df (df_Ftruncate n)) s tt (st (resize_to n D) tgs tl ac z held).
Proof.
  intros [[Hc Hq Hok Hca Ht] Hm Htl Hac Hz Hlk Hu]. destruct (df_Ftruncate_gives (df s) n) as (r & f' & Hr & Hq' & Hpost).
  destruct r as [[]|e]; [|by destruct Hpost as (_ & ? & _)]. eexists _, _. unfold on_df, zoom. rewrite Hr.
  split; [reflexivity|]. split; [done|]. rewrite Hc in Hpost. split; try done. split; try done. cbn. auto.
Qed.

Lemma Ftruncate_gets D n s : consistent D s -> zlen D < 2 ^ 63 - 1 -> 0 <= n < 2 ^ 63 - 1 ->
  gets (Ftruncate mach true loosewriteConfigured_ false n) s tt (consistent (resize_to n D)).
Proof.
  intros [HD [sizes Hs]] HN Hn. unfold Ftruncate. eapply consistent_gets; [by apply resize_bytes|].
  eapply with_rg_gets; [exact Hs|]. intros s1 Hs1.
  eapply gets_bind; [eapply (LockTrackinglen_gets _ _ _ _ _ _ n _ false); [exact Hs1|lia]|]. cbn [negb andb]. intros s2 Hs2.
  rewrite (proj2 (Z.leb_gt _ _)) in Hs2 by done.
  eapply gets_bind; [apply gets_or_resync, (truncate_gets D n); [done|lia|exact Hs2]|]. intros s3 Hs3.
  rewrite zlen_resize by lia. apply gets_or_resync. by apply df_Ftruncate_gets.
Qed.

End update.
