(* ===== verification/CsiFetch.v ===== *)
(** * What a read verifies

    Proofs about the fetching half of [CsiPages], for any tags and any failures: a range
    that is verified has, for each of its pages, the checksum of the page as the reader
    sees it; and when nothing fails, a range is refused only if that is not so. *)

From stdpp Require Import base tactics list_numbers numbers option list.
From S2P Require Import Prelude CrcRegister OucCRC32C CsiCrc CsiStore CsiPages CsiTags CsiWrite.
#[local] Set Warnings "-clear-no-such-hyp".
Open Scope csi_scope.

Section fetch.
  Context {T : Type} `{TagstoreLaws T}.
  Context (mach : machine) (D tgs : list Z).
  Abbreviation MP := (M (csi T)).

(** The data file holds [D] and the store [tgs]; calls may fail. *)
Record seen (s : csi T) : Prop := {
  se_content : content (df s) = D;
  se_store : store_ok (ts_ s);
  se_tags : tags (ts_ s) = tgs }.

(** What a routine that only reads leaves as it is. *)
Record still (s s' : csi T) : Prop := {
  sl_seen : seen s';
  sl_quiet : quiet (df s) -> quiet (df s');
  sl_calm : calm (ts_ s) -> calm (ts_ s');
  sl_frame : frame s s' }.

(** [m] gives a value with [ok]; if it fails although no call does, then [bad]. *)
Definition fetches {A} (m : MP A) (s : csi T) (ok : A -> Prop) (bad : Prop) : Prop :=
  returns m s (fun r s' => still s s' /\
    match r with inl a => ok a | inr e => e < 0 /\ (quiet (df s) -> calm (ts_ s) -> bad) end).

Lemma still_refl s : seen s -> still s s.
Proof. by split. Qed.

Lemma still_trans s1 s2 s3 : still s1 s2 -> still s2 s3 -> still s1 s3.
Proof. intros [? ? ? Hf1] [? ? ? Hf2]. split; auto. by transitivity s2. Qed.

Lemma fetches_bind_still {A B} (m : MP A) (f : A -> MP B) s ok ok' bad :
  fetches m s ok bad -> (forall a s1, ok a -> still s s1 -> fetches (f a) s1 ok' bad) -> fetches (bind m f) s ok' bad.
Proof.
  intros Hm Hf. eapply returns_bind; [exact Hm| |].
  - intros a s1 [Hs Ha]. eapply returns_impl; [exact (Hf a s1 Ha Hs)|].
    intros r s2 [Hs2 Hr]. split; [by eapply still_trans|]. destruct r; [done|]. destruct Hr as [He Hr]. split; [done|].
    destruct Hs. auto.
  - intros e s1 [Hs He]. done.
Qed.

Lemma fetches_bind {A B} (m : MP A) (f : A -> MP B) s ok ok' bad :
  fetches m s ok bad -> (forall a s1, ok a -> seen s1 -> fetches (f a) s1 ok' bad) -> fetches (bind m f) s ok' bad.
Proof. intros Hm Hf. eapply fetches_bind_still; [exact Hm|]. intros a s1 Ha Hs. apply Hf; [done|apply Hs]. Qed.

Lemma fetches_ret {A} (a : A) s (ok : A -> Prop) bad : seen s -> ok a -> fetches (ret a) s ok bad.
Proof. intros Hs Ha. apply returns_ret. split; [by apply still_refl|done]. Qed.

Lemma fetches_fail {A} e s (ok : A -> Prop) (bad : Prop) : seen s -> e < 0 -> bad -> fetches (fail e) s ok bad.
Proof. intros Hs He Hb. apply returns_fail. split; [by apply still_refl|done]. Qed.

Lemma fetches_lift_bind {A B} (r : res A) (f : A -> MP B) s x ok bad :
  r = Ok x -> fetches (f x) s ok bad -> fetches (bind (lift r) f) s ok bad.
Proof. intros -> Hf. exact Hf. Qed.

Lemma fetches_get_bind {B} (f : csi T -> MP B) s ok bad : fetches (f s) s ok bad -> fetches (bind get f) s ok bad.
Proof. intros Hf. exact Hf. Qed.

Lemma fetches_impl {A} (m : MP A) s (ok ok' : A -> Prop) (bad bad' : Prop) :
  fetches m s ok bad -> (forall a, ok a -> ok' a) -> (bad -> bad') -> fetches m s ok' bad'.
Proof.
  intros Hm Ho Hb. eapply returns_impl; [exact Hm|]. intros r s' [Hs Hr]. split; [done|]. destruct r; [auto|].
  destruct Hr as [He Hr]. auto.
Qed.

Lemma fetches_ReadTags s off n bad : seen s -> 0 <= off -> 0 < n -> (zlen tgs < off + n -> bad) ->
  fetches (on_ts (ReadTags off n)) s (fun l => l = slice off n tgs /\ zlen l = n) bad.
Proof.
  intros [Hc Hs Ht] Ho Hn Hb.
  destruct (ReadTags_law (ts_ s) off n Hs Ho Hn) as (r & t' & Hr & Hs' & Hca' & Ht' & H1 & H2 & H3 & Hp).
  exists r, (with_ts t' s). unfold on_ts, zoom. rewrite Hr. split; [done|]. split.
  - split; try done. split; try done. cbn. congruence.
  - destruct r as [l|e]; [by rewrite Ht in Hp|]. destruct Hp as [He Hp]. split; [done|]. intros _ Hca.
    apply Hb. rewrite <- Ht. auto.
Qed.

(** Reading until there is enough or the file ends: what is read is what the file holds. *)
Lemma maxread_loop_gives fuel : forall f off toread tg acc, 0 <= off -> 0 <= toread <= Z.of_nat fuel ->
  exists r f', maxread_loop fuel off toread tg acc f = Ok (r, f') /\ content f' = content f /\ (quiet f -> quiet f') /\
    match r with
    | inl l => exists k, 0 <= k <= toread /\ l = acc ++ slice off k (content f)
    | inr e => e < 0 /\ ~ quiet f
    end.
Proof.
  induction fuel as [|fuel IH]; intros f off toread tg acc Ho Ht; cbn [maxread_loop].
  - replace toread with 0 in * by lia. exists (inl acc), f. rewrite (proj2 (Z.ltb_ge 0 0)) by lia. split; [done|].
    split; [done|]. split; [done|]. exists 0. by rewrite slice_0, app_nil_r.
  - destruct ((0 <? toread) && (zlen acc <? tg)) eqn:Hc.
    2: { exists (inl acc), f. split; [done|]. split; [done|]. split; [done|]. exists 0. rewrite slice_0, app_nil_r. split; [lia|done]. }
    apply andb_true_iff in Hc as [Hpos%Z.ltb_lt _].
    destruct (df_Read_gives f off toread Ho Hpos) as (r & f1 & Hr & Hq1 & Hp). unfold bind. rewrite Hr.
    destruct r as [p|e]; [|destruct Hp as (He & Hn & Hp); exists (inr e), f1; auto].
    destruct Hp as [Hc (k & Hk & ->)]. rewrite Hc in *. destruct (Z.eqb_spec (zlen (slice off k (content f))) 0) as [Hz|Hz].
    + exists (inl acc), f1. split; [done|]. split; [done|]. split; [done|]. exists 0. rewrite slice_0, app_nil_r. split; [lia|done].
    + set (n := zlen (slice off k (content f))) in *. assert (0 < n <= k) as Hn by (unfold n in *; rewrite zlen_slice in * by lia; lia).
      assert (slice off k (content f) = slice off n (content f)) as Hkn.
      { unfold n. rewrite zlen_slice by lia. destruct (Z.min_spec k (Z.max 0 (zlen (content f) - off))) as [[? ->]|[? ->]]; [done|].
        by rewrite slice_clip by lia. }
      destruct (IH f1 (off + n) (toread - n) tg (acc ++ slice off k (content f))) as (r & f' & Hr' & Hc' & Hq' & Hp'); [lia|lia|].
      exists r, f'. split; [done|]. split; [congruence|]. split; [auto|]. destruct r as [l|e]; [|destruct Hp'; auto].
      destruct Hp' as (j & Hj & ->). exists (n + j). split; [lia|]. by rewrite Hc, slice_add, Hkn, <- app_assoc by lia.
Qed.

Lemma fetches_fullread s off sz bad : seen s -> 0 <= off -> 0 <= sz -> (zlen D < off + sz -> bad) ->
  fetches (pg_fullread off sz) s (fun l => l = slice off sz D /\ (sz = 0 \/ off + sz <= zlen D)) bad.
Proof.
  intros [Hc Hs Ht] Ho Hsz Hb.
  destruct (maxread_loop_gives (Z.to_nat sz) (df s) off sz sz []) as (r & f' & Hr & Hc' & Hq' & Hp); [done|lia|].
  assert (still s (with_df f' s)) as Hst by (split; try done; split; cbn; congruence).
  unfold fetches, returns, pg_fullread, maxread, on_df, zoom, bind.
  change (if 0 =? 0 then sz else 0) with sz. rewrite Hr. destruct r as [l|e].
  2: { exists (inr e), (with_df f' s). split; [done|]. split; [done|]. destruct Hp. split; [done|]. done. }
  destruct Hp as (k & Hk & Hl). cbn [app] in Hl. rewrite Hc in Hl. destruct (Z.eqb_spec (zlen l) sz) as [He|Hne].
  - exists (inl l), (with_df f' s). split; [done|]. split; [done|]. subst l. rewrite zlen_slice in He by lia.
    assert (k = sz) as -> by lia. split; [done|]. lia.
  - exists (inr EDOM), (with_df f' s). split; [done|]. split; [done|]. split; [done|]. intros Hq Hca. apply Hb.
    destruct (Z.le_gt_cases (off + sz) (zlen D)); [|lia]. exfalso. apply Hne.
    destruct (maxread_loop_spec (Z.to_nat sz) (df s) off sz sz []) as (f2 & Hr2 & _); [done|lia|done| |].
    { rewrite zlen_slice, zlen_nil by lia. lia. }
    rewrite Hr in Hr2. injection Hr2 as -> ->. rewrite Hc. cbn [app]. rewrite zlen_slice by lia. lia.
Qed.

(** ** Aligned ranges *)

Section aligned.
  Context (p : list Z).
  Hypothesis pbytes : Forall is_byte p.
  Abbreviation total := (npages (zlen p)).
  Abbreviation nfull := (zlen p / PageSize).
  Abbreviation p2_off := (zlen p mod PageSize).

Lemma slice_iff q n k (l1 l2 : list Z) j : 0 <= q -> 0 <= j -> 0 <= k <= n -> q + k <= zlen l1 -> j + k <= zlen l2 ->
  slice q n l1 = slice j n l2 <-> slice q k l1 = slice j k l2 /\ slice (q + k) (n - k) l1 = slice (j + k) (n - k) l2.
Proof using Type.
  intros Hq Hj Hk H1 H2. replace n with (k + (n - k)) at 1 2 by lia. rewrite !slice_add by lia. split; [|by intros [-> ->]].
  intros He. apply app_inj_1 in He; [done|]. apply Nat2Z.inj. change (zlen (slice q k l1) = zlen (slice j k l2)).
  rewrite !zlen_slice by lia. lia.
Qed.

Lemma slice_bool q n k (l1 l2 : list Z) j : 0 <= q -> 0 <= j -> 0 <= k <= n -> q + k <= zlen l1 -> j + k <= zlen l2 ->
  bool_decide (slice q n l1 = slice j n l2) =
    bool_decide (slice q k l1 = slice j k l2) && bool_decide (slice (q + k) (n - k) l1 = slice (j + k) (n - k) l2).
Proof using Type. intros. rewrite <- bool_decide_and. by apply bool_decide_ext, slice_iff. Qed.

Lemma slice_exact n (l : list Z) : take (Z.to_nat n) l = slice 0 n l.
Proof using Type. done. Qed.

(** Comparing: the checksums of the pages and the tags in the buffer. *)
Lemma verify_loop_eq fuel : forall s rdbuf rdbufsz nread nverif toverif, 0 <= toverif <= Z.of_nat fuel ->
  0 <= nread + nverif -> nread + nverif + toverif <= total -> 0 < rdbufsz ->
  (nread + nverif) mod rdbufsz + toverif <= rdbufsz -> (nread + nverif) mod rdbufsz + toverif <= zlen rdbuf ->
  verify_loop (T:=T) mach fuel p rdbuf rdbufsz nfull p2_off nread nverif toverif s
    = Ok (if bool_decide (slice ((nread + nverif) mod rdbufsz) toverif rdbuf = slice (nread + nverif) toverif (page_sums p))
          then inl tt else inr EDOM, s).
Proof using pbytes.
  induction fuel as [|fuel IH]; intros s rdbuf rdbufsz nread nverif toverif Ht Hj Htot Hsz Hq Hlen; cbn [verify_loop];
    (destruct (Z.leb_spec toverif 0) as [Hz|Hz];
      [replace toverif with 0 by lia; rewrite !slice_0, bool_decide_eq_true_2 by done; done|]); [lia|].
  set (j := nread + nverif) in *. set (v := Z.min toverif stsize_). assert (0 < v <= toverif) as Hv by (unfold v, stsize_; lia).
  set (n := if j + v <=? nfull then v * PageSize else (v - 1) * PageSize + p2_off).
  assert (0 <= n /\ PageSize * j + n <= zlen p /\ npages n = v /\ (n mod PageSize = 0 \/ PageSize * j + n = zlen p)) as (Hn1 & Hn2 & Hn3 & Hn4).
  { unfold n. destruct (Z.leb_spec (j + v) nfull); unfold npages, PageSize in *; repeat split; lia_div. }
  unfold bind at 1, lift. rewrite (Calc_pages mach) by (try apply is_byte_adv; try rewrite zlen_adv; unfold PageSize in *; lia || done).
  rewrite sums_of_part by done. rewrite Hn3. pose proof (zlen_page_sums p) as Hps. pose proof (Z.mod_pos_bound j rdbufsz Hsz) as Hmod.
  rewrite slice_exact, slice_slice, Z.add_0_r by lia.
  rewrite (slice_bool (j mod rdbufsz) toverif v) by lia.
  rewrite (bool_decide_ext (slice j v (page_sums p) = _) (slice (j mod rdbufsz) v rdbuf = slice j v (page_sums p))) by (split; congruence).
  destruct (bool_decide (slice (j mod rdbufsz) v rdbuf = _)); cbn [andb]; [|done].
  destruct (Z.eq_dec v toverif) as [-> |Hne].
  - rewrite Z.sub_diag, !slice_0. rewrite (bool_decide_eq_true_2 ([] = [])) by done. by destruct fuel.
  - assert ((j + v) mod rdbufsz = j mod rdbufsz + v) as Hm.
    { rewrite Z.add_mod by lia. rewrite (Z.mod_small v) by lia. apply Z.mod_small. lia. }
    rewrite (IH s rdbuf rdbufsz nread (nverif + v) (toverif - v)); rewrite ?Z.add_assoc; fold j; rewrite ?Hm; try done; lia.
Qed.

(** The tags of the pages [[nread, nread + toread)] are the checksums. *)
Definition pages_right (p1 nread toread : Z) : Prop := slice (p1 + nread) toread tgs = slice nread toread (page_sums p).

Lemma pages_right_split p1 nread toread k : 0 <= p1 -> 0 <= nread -> 0 <= k <= toread -> nread + toread <= total -> p1 + nread + k <= zlen tgs ->
  pages_right p1 nread toread <-> pages_right p1 nread k /\ pages_right p1 (nread + k) (toread - k).
Proof using Type.
  intros Hp Hn Hk Ht Hz. unfold pages_right. pose proof (zlen_page_sums p). rewrite Z.add_assoc. apply slice_iff; lia.
Qed.

Lemma fetch_loop_spec fuel : forall s opts p1 rdbufsz toread nread rdbuf, seen s -> 0 <= p1 -> 0 <= toread <= Z.of_nat fuel -> 0 <= nread ->
  nread + toread <= total -> 0 < rdbufsz -> nread mod rdbufsz = 0 ->
  fetches (fetch_loop mach fuel p opts p1 nfull p2_off rdbufsz toread nread rdbuf) s
    (fun cs => (opt opts Verify = true -> pages_right p1 nread toread) /\
               (nread = 0 -> toread = rdbufsz -> rdbuf = [] -> cs = slice p1 toread tgs))
    (zlen tgs < p1 + nread + toread \/ opt opts Verify = true /\ ~ pages_right p1 nread toread).
Proof using pbytes.
  induction fuel as [|fuel IH]; intros s opts p1 rdbufsz toread nread rdbuf Hs Hp1 Ht Hn Htot Hsz Hm; cbn [fetch_loop];
    (destruct (Z.leb_spec toread 0) as [Hz|Hz];
      [replace toread with 0 by lia; apply fetches_ret; [done|]; split; [by intros; unfold pages_right; rewrite !slice_0|by intros; subst; rewrite slice_0]|]).
  { lia. }
  rewrite Hm, Z.sub_0_r. set (r := Z.min toread rdbufsz). assert (0 < r <= toread) as Hr by (unfold r; lia).
  eapply fetches_bind; [apply fetches_ReadTags; [done|lia|lia|left; lia]|]. intros l s1 [-> Hl] Hs1. cbv beta in *.
  rewrite zlen_slice in Hl by lia.
  assert (zlen (slice (p1 + nread) r tgs) = r) as Hlr by (rewrite zlen_slice by lia; lia).
  assert (slice (p1 + nread) r tgs <> []) as Hne by (intros He; rewrite He in Hlr; change (zlen (@nil Z)) with 0 in Hlr; lia).
  set (rdbuf' := write_at 0 (slice (p1 + nread) r tgs) rdbuf).
  assert (slice 0 r rdbuf' = slice (p1 + nread) r tgs) as Hb.
  { unfold rdbuf'. rewrite slice_write_inside by lia. rewrite Z.sub_diag. apply slice_all. lia. }
  assert (r <= zlen rdbuf') as Hbl by (unfold rdbuf'; rewrite zlen_write_at by done; lia).
  pose proof (pages_right_split p1 nread toread r Hp1 Hn ltac:(lia) Htot ltac:(lia)) as Hsplit.
  eapply (fetches_bind _ _ _ (fun _ => opt opts Verify = true -> pages_right p1 nread r)).
  { destruct (opt opts Verify) eqn:Hv; [|by apply fetches_ret].
    eexists _, _. rewrite verify_loop_eq; rewrite ?Z.add_0_r, ?Hm; try done; try (unfold r; lia).
    split; [reflexivity|]. split; [by apply still_refl|]. rewrite Hb. fold (pages_right p1 nread r).
    case_bool_decide as Hd; [done|]. split; [done|]. intros _ _. right. split; [done|]. intros Hpr. apply Hd. by apply Hsplit. }
  intros _ s2 Hok Hs2. destruct (Z.eq_dec r toread) as [He|Hlt].
  - assert (forall n b, fetch_loop (T:=T) mach fuel p opts p1 nfull p2_off rdbufsz (toread - r) n b = ret b) as ->.
    { intros n b. rewrite He, Z.sub_diag. by destruct fuel. }
    apply fetches_ret; [done|]. rewrite He in *. split; [done|]. intros H1 _ H3. unfold rdbuf'.
    by rewrite H1, H3, Z.add_0_r, write_at_end, He by done.
  - assert (r = rdbufsz) as Hre by (unfold r in *; lia).
    eapply fetches_impl; [apply (IH s2 opts p1 rdbufsz (toread - r) (nread + r) rdbuf'); [done|lia|lia|lia|lia|done|]| |].
    + rewrite Hre. rewrite <- Zplus_mod_idemp_l, Hm. cbn. rewrite Z.add_0_l. apply Z_mod_same_full.
    + intros cs [H1 H2]. split; [intros Hv; apply Hsplit; auto|lia].
    + intros [Hl'|[Hv Hn']]; [left; lia|right]. split; [done|]. intros Hpr. apply Hn'. by apply Hsplit.
Qed.

(** An aligned range: all of its tags are those of the buffer's pages. *)
Lemma FetchRangeAligned_spec s o want opts : seen s -> 0 <= o -> o mod PageSize = 0 -> 0 < zlen p ->
  fetches (FetchRangeAligned mach p o (zlen p) want opts) s
    (fun cs => (opt opts Verify = true -> slice (o / PageSize) total tgs = page_sums p) /\
               (want = true -> cs = slice (o / PageSize) total tgs))
    (zlen tgs < o / PageSize + total \/ opt opts Verify = true /\ slice (o / PageSize) total tgs <> page_sums p).
Proof using pbytes.
  intros Hs Ho Hm Hpos. unfold FetchRangeAligned.
  replace ((o + zlen p) mod PageSize) with p2_off by (unfold PageSize in *; lia_div).
  replace ((o + zlen p) / PageSize - o / PageSize) with nfull by (unfold PageSize in *; lia_div).
  assert ((if 0 <? p2_off then nfull + 1 else nfull) = total) as ->.
  { unfold npages, PageSize. destruct (Z.ltb_spec 0 (zlen p mod 4096)); lia_div. }
  assert (0 < total) as Ht by (unfold npages, PageSize; lia_div).
  assert (slice 0 total (page_sums p) = page_sums p) as Hall by (apply slice_all; rewrite zlen_page_sums; lia).
  eapply fetches_impl; [apply (fetch_loop_spec (Z.to_nat total) s opts (o / PageSize) (if want : bool then total else stsize_) total 0 []); [done|unfold PageSize; lia_div|lia|lia|lia| |]| |].
  - by destruct want.
  - by destruct want.
  - cbv beta. unfold pages_right. rewrite Hall, Z.add_0_r. intros cs [H1 H2]. split; [done|]. intros ->. by apply H2.
  - unfold pages_right. by rewrite Hall, !Z.add_0_r.
Qed.

End aligned.

(** ** The pages as the reader sees them *)

Lemma split2_total tag c n : word c -> 0 <= n <= PageSize -> exists r, crc32c_split2 mach tag c n = Ok r.
Proof using Type.
  intros Hc Hn. unfold crc32c_split2. destruct (n =? 0); [by eexists|]. rewrite (proj2 (Z.ltb_ge PageSize n)) by lia.
  rewrite Calc32C_zeros by (try apply not32_word; done || lia). rewrite bind_Ok. by eexists.
Qed.

Lemma split1_total tag c n : n <= PageSize -> exists r, crc32c_split1 tag c n = Ok r.
Proof using Type.
  intros Hn. unfold crc32c_split1. destruct (n =? 0); [by eexists|]. rewrite (proj2 (Z.ltb_ge PageSize n)) by lia. by eexists.
Qed.

Section range.
  Context (p : list Z) (o N : Z).
  Hypothesis pbytes : Forall is_byte p.
  Hypothesis Dbytes : Forall is_byte D.
  Hypothesis Ho : 0 <= o.
  Hypothesis Hlen : 0 < zlen p.
  Hypothesis HN : o + zlen p <= N.
  Abbreviation p1 := (o / PageSize).
  Abbreviation po := (o mod PageSize).
  Abbreviation p2 := ((o + zlen p) / PageSize).
  Abbreviation p2_off := ((o + zlen p) mod PageSize).
  Abbreviation last := (npages (o + zlen p)).

(** The file of [N] bytes with what was read in its place. *)
Definition view : list Z := take (Z.to_nat N) (write_at o p D).
(** The tag of a page is its checksum. *)
Definition right (k : Z) : Prop := tgs !! Z.to_nat k = Some (checksum (page_of k view)).
Definition all_right : Prop := forall k, p1 <= k < last -> right k.
(** What was read is what the file holds, and the file is long enough. *)
Definition agrees : Prop := p = slice o (zlen p) D /\ N <= zlen D.

(** What the buffer has of a page. *)
Definition part (k : Z) : list Z :=
  if o <=? PageSize * k then slice (PageSize * k - o) PageSize p else take (Z.to_nat (PageSize - po)) p.

Lemma p_some : p <> [].
Proof using Hlen. intros He. rewrite He in Hlen. done. Qed.

Lemma lookup_view (i : nat) : Z.of_nat i < N -> view !! i =
  if decide (Z.of_nat i < o) then (if decide (i < length D)%nat then D !! i else Some 0)
  else if decide (Z.of_nat i < o + zlen p) then p !! (i - Z.to_nat o)%nat else D !! i.
Proof using Ho Hlen HN.
  intros Hi. unfold view. rewrite lookup_take_lt by lia. rewrite lookup_write_at by apply p_some. unfold zlen.
  repeat case_decide; try lia; done.
Qed.

Lemma lookup_page_view k (i : nat) : 0 <= k -> Z.of_nat i < Z.min PageSize (N - PageSize * k) ->
  page_of k view !! i = view !! (Z.to_nat (PageSize * k) + i)%nat.
Proof using Ho Hlen HN. intros Hk Hi. unfold page_of. apply lookup_slice. lia. Qed.

Lemma page_view_ext k l : 0 <= k -> zlen l = Z.min PageSize (N - PageSize * k) ->
  (forall i : nat, Z.of_nat i < zlen l -> l !! i = view !! (Z.to_nat (PageSize * k) + i)%nat) -> page_of k view = l.
Proof using Ho Hlen HN.
  intros Hk Hl Hi. apply list_eq. intros i. destruct (decide (Z.of_nat i < zlen l)) as [Hlt|Hge].
  - rewrite lookup_page_view by lia. symmetry. by apply Hi.
  - rewrite (lookup_ge_None_2 l) by (unfold zlen in *; lia). apply lookup_ge_None_2. unfold page_of, slice.
    rewrite length_take, length_drop. unfold view at 1. rewrite length_take. unfold zlen, PageSize in *. lia.
Qed.

(** A page that the buffer covers as far as the file goes. *)
Lemma page_view_inside k : 0 <= k -> o <= PageSize * k -> PageSize * (k + 1) <= o + zlen p \/ N = o + zlen p -> PageSize * k < o + zlen p ->
  page_of k view = part k.
Proof using Ho Hlen HN.
  intros Hk Hok Hc Hlt. unfold part. rewrite (proj2 (Z.leb_le _ _)) by done.
  assert (zlen (slice (PageSize * k - o) PageSize p) = Z.min PageSize (N - PageSize * k)) as Hl.
  { rewrite zlen_slice by (unfold PageSize in *; lia). unfold PageSize in *. lia. }
  apply page_view_ext; [done|done|]. intros i Hi. rewrite Hl in Hi.
  rewrite lookup_slice, lookup_view by lia. rewrite decide_False, decide_True by (unfold PageSize in *; lia). f_equal. lia.
Qed.

(** A page that was read again, where both agree. *)
Lemma page_view_reread k b : 0 <= k -> zlen b = Z.min PageSize (N - PageSize * k) -> b = slice (PageSize * k) (zlen b) D ->
  (forall i : nat, Z.of_nat i < zlen b -> o <= PageSize * k + Z.of_nat i < o + zlen p ->
     b !! i = p !! Z.to_nat (PageSize * k + Z.of_nat i - o)) ->
  page_of k view = b.
Proof using Ho Hlen HN.
  intros Hk Hl Hb Hi. apply page_view_ext; [done|done|]. intros i Hlt. rewrite lookup_view by (unfold PageSize in *; lia).
  assert (b !! i = D !! (Z.to_nat (PageSize * k) + i)%nat) as HbD by (rewrite Hb; apply lookup_slice; lia).
  assert ((Z.to_nat (PageSize * k) + i < length D)%nat) as Hin.
  { apply lookup_lt_is_Some_1. rewrite <- HbD. apply lookup_lt_is_Some_2. unfold zlen in Hlt. lia. }
  destruct (decide (Z.of_nat (Z.to_nat (PageSize * k) + i) < o)); [by rewrite decide_True|].
  destruct (decide (Z.of_nat (Z.to_nat (PageSize * k) + i) < o + zlen p)); [|done].
  rewrite Hi by (unfold PageSize in *; lia). f_equal. unfold PageSize in *. lia.
Qed.

Lemma not_right_bad k : p1 <= k < last -> ~ right k -> ~ (all_right /\ agrees).
Proof using Type. intros Hk Hr [Ha _]. by apply Hr, Ha. Qed.

(** The first page, when it is only read in part. *)
Lemma preblock_spec s tbuf tag0 want opts : seen s -> 0 < po \/ zlen p < PageSize ->
  tbuf !! 0%nat = Some tag0 -> tgs !! Z.to_nat p1 = Some tag0 ->
  fetches (FetchRangeUnaligned_preblock mach p o (zlen p) N tbuf want opts) s
    (fun tb => (opt opts Verify = true -> right p1) /\
       exists c, tb = <[0%nat := c]> tbuf /\ (want = false -> c = tag0) /\
         (right p1 -> opt opts Verify = true \/ agrees -> want = true -> c = checksum (part p1)))
    (~ (all_right /\ agrees)).
Proof using pbytes Dbytes Ho Hlen HN.
  intros Hs Hcase Ht0 Htag. unfold FetchRangeUnaligned_preblock.
  assert (o = PageSize * p1 + po /\ 0 <= po < PageSize /\ 0 <= p1) as (Hop & Hpo & Hp1) by (unfold PageSize; lia_div).
  assert (p1 < last) as Hlast by (unfold npages, PageSize in *; lia_div).
  set (av := Z.min (N - PageSize * p1) PageSize). set (bc := Z.min (av - po) (zlen p)).
  assert (0 < bc /\ po + bc <= av /\ av <= PageSize /\ bc = Z.min (zlen p) (PageSize - po)) as (Hbc & Hba & Hav & Hbc2) by (unfold bc, av, PageSize in *; lia).
  assert (part p1 = take (Z.to_nat bc) p) as Hpart.
  { unfold part. destruct (Z.leb_spec o (PageSize * p1)).
    - replace (PageSize * p1 - o) with 0 by (unfold PageSize in *; lia). change (slice 0 PageSize p) with (take (Z.to_nat PageSize) p).
      replace po with 0 in Hbc2 by (unfold PageSize in *; lia). destruct (Z.min_spec (zlen p) (PageSize - 0)) as [[? Hm]|[? Hm]]; rewrite Hm in Hbc2; rewrite Hbc2; [|done].
      unfold zlen in *. rewrite !take_ge by lia. done.
    - destruct (Z.min_spec (zlen p) (PageSize - po)) as [[? Hm]|[? Hm]]; rewrite Hm in Hbc2; rewrite Hbc2; [|done].
      unfold zlen in *. rewrite !take_ge by lia. done. }
  destruct (Hs) as [Hct Hst Htg]. set (more := bc <? av).
  eapply (fetches_bind _ _ _ (fun b => Forall is_byte b /\ av <= zlen b /\ (more = true -> zlen b = av) /\
    (opt opts Verify = true \/ agrees -> page_of p1 view = take (Z.to_nat av) b /\ slice po bc b = take (Z.to_nat bc) p))).
  { destruct more eqn:Hmore; unfold more in Hmore.
    - eapply fetches_bind; [apply fetches_fullread; [done|unfold PageSize in *; lia|lia|]|].
      { intros Hsh [_ [_ ?]]. lia. }
      intros b s1 [Hb [?|Hin]] Hs1; [lia|]. assert (zlen b = av) as Hbl by (rewrite Hb, zlen_slice by (unfold PageSize in *; lia); lia).
      assert (slice po bc b = take (Z.to_nat bc) p -> page_of p1 view = b) as Hpage.
      { intros He. apply page_view_reread; [done|unfold av in *; lia|by rewrite Hbl|]. intros i Hi Hr.
        apply (f_equal (fun l => l !! (Z.to_nat (Z.of_nat i - po)))) in He. rewrite lookup_slice, lookup_take_lt in He by (unfold PageSize in *; lia).
        replace (Z.to_nat po + Z.to_nat (Z.of_nat i - po))%nat with i in He by (unfold PageSize in *; lia). rewrite He. f_equal. unfold PageSize in *. lia. }
      assert (agrees -> slice po bc b = take (Z.to_nat bc) p) as Hagr.
      { intros [Hp _]. rewrite Hp, Hb, slice_slice by (unfold PageSize in *; lia).
        change (take (Z.to_nat bc) ?l) with (slice 0 bc l). rewrite slice_slice by lia. f_equal. lia. }
      assert (take (Z.to_nat av) b = b) as Htk by (apply take_ge; unfold zlen in Hbl; lia).
      destruct (opt opts Verify && negb (bool_decide (take (Z.to_nat bc) p = slice po bc b))) eqn:Hv.
      + apply andb_true_iff in Hv as [Hv Hd]. apply fetches_fail; [done|done|]. intros [_ Ha]. rewrite Hagr in Hd by done.
        by rewrite bool_decide_eq_true_2 in Hd.
      + apply fetches_ret; [done|]. split; [by rewrite Hb; apply slice_bytes|]. split; [lia|]. split; [done|]. rewrite Htk. intros Hor.
        assert (slice po bc b = take (Z.to_nat bc) p) as He; [|auto]. destruct Hor as [Hvt|?]; [|auto]. rewrite Hvt in Hv. cbn [andb] in Hv.
        apply negb_false_iff, bool_decide_eq_true in Hv. done.
    - apply Z.ltb_ge in Hmore. assert (po = 0 /\ av <= zlen p /\ bc = av) as (Hz & Hap & Hbe) by lia.
      apply fetches_ret; [done|]. split; [done|]. split; [done|]. split; [done|]. intros _. rewrite Hz, Hbe. split; [|done].
      rewrite page_view_inside; [by rewrite Hpart, Hbe|done|unfold PageSize in *; lia|unfold av, PageSize in *; lia|unfold PageSize in *; lia]. }
  intros b s1 (Hb & Hbl & Hmb & Hpg) Hs1. unfold csvec_at. change (Z.to_nat 0) with 0%nat. rewrite Ht0.
  eapply fetches_bind; [apply (fetches_ret tag0 s1 (fun t => t = tag0)); done|]. intros ? s2 -> Hs2.
  eapply (fetches_bind _ _ _ (fun _ => opt opts Verify = true -> right p1)).
  { destruct (opt opts Verify) eqn:Hv; [|by apply fetches_ret].
    eapply fetches_lift_bind; [apply Calc_sum; [done|lia]|]. destruct (Hpg (or_introl eq_refl)) as [Hpage _]. rewrite <- Hpage.
    destruct (Z.eqb_spec tag0 (checksum (page_of p1 view))) as [He|Hne].
    - apply fetches_ret; [done|]. intros _. unfold right. by rewrite Htag, He.
    - apply fetches_fail; [done|done|]. apply (not_right_bad p1); [lia|]. unfold right. rewrite Htag. congruence. }
  intros _ s3 Hr Hs3. destruct (more && want) eqn:Hmw.
  2: { apply fetches_ret; [done|]. split; [done|]. exists tag0. split; [by rewrite list_insert_id|]. split; [done|].
       intros Hrt Hor ->. rewrite andb_true_r in Hmw. unfold more in Hmw. apply Z.ltb_ge in Hmw. destruct (Hpg Hor) as [Hpage Hsl].
       unfold right in Hrt. rewrite Htag, Hpage in Hrt. injection Hrt as ->. f_equal. rewrite Hpart, <- Hsl.
       assert (bc = av /\ po = 0) as [-> ->] by lia. done. }
  apply andb_true_iff in Hmw as [Hmore ->]. specialize (Hmb Hmore). destruct (opt opts Verify) eqn:Hv.
  - eapply (fetches_bind _ _ _ (fun c => c = checksum (part p1))).
    + eexists _, _. unfold lift. rewrite (Calc_sum mach) by (try apply is_byte_adv; try rewrite zlen_adv; lia || done). split; [reflexivity|].
      split; [by apply still_refl|]. rewrite Hpart. f_equal. apply Hpg. by left.
    + intros c s4 -> Hs4. apply fetches_ret; [done|]. split; [done|]. eexists. split; [done|]. split; [done|]. done.
  - eapply (fetches_bind _ _ _ (fun c => right p1 -> agrees -> c = checksum (part p1))).
    + eapply fetches_lift_bind; [apply Calc_sum; [done|lia]|].
      destruct (split2_total tag0 (checksum (take (Z.to_nat po) b)) (av - po)) as [c2 Hc2]; [by apply checksum_word, Forall_take|lia|].
      eapply fetches_lift_bind; [exact Hc2|].
      eapply fetches_lift_bind; [apply Calc_sum; [by apply is_byte_adv|rewrite zlen_adv by lia; lia]|].
      change (take (Z.to_nat (av - po - bc)) (adv (po + bc) b)) with (slice (po + bc) (av - po - bc) b).
      destruct (split1_total c2 (checksum (slice (po + bc) (av - po - bc) b)) (av - po - bc)) as [c1 Hc1]; [lia|].
      eexists _, _. unfold lift. rewrite Hc1. split; [reflexivity|]. split; [by apply still_refl|]. intros Hrt Ha.
      destruct (Hpg (or_intror Ha)) as [Hpage Hsl]. unfold right in Hrt. rewrite Htag, Hpage in Hrt. injection Hrt as ->.
      assert (take (Z.to_nat av) b = take (Z.to_nat po) b ++ slice po (av - po) b) as Hsplit.
      { change (take (Z.to_nat av) b) with (slice 0 av b). replace av with (po + (av - po)) at 1 by lia. by rewrite slice_add by lia. }
      assert (slice po (av - po) b = slice po bc b ++ slice (po + bc) (av - po - bc) b) as Hsplit2.
      { replace (av - po) with (bc + (av - po - bc)) at 1 by lia. by rewrite slice_add by lia. }
      rewrite Hsplit in Hc2.
      destruct (CrcUtils_parts mach (take (Z.to_nat po) b) (slice po (av - po) b)) as (_ & _ & H3 & _); [by apply Forall_take|by apply slice_bytes|rewrite zlen_slice by lia; lia|].
      replace (zlen (slice po (av - po) b)) with (av - po) in H3 by (rewrite zlen_slice by lia; lia). rewrite H3 in Hc2. injection Hc2 as <-.
      rewrite Hsplit2 in Hc1.
      destruct (CrcUtils_parts mach (slice po bc b) (slice (po + bc) (av - po - bc) b)) as (_ & H2 & _ & _); [by apply slice_bytes..|rewrite zlen_slice by lia; lia|].
      replace (zlen (slice (po + bc) (av - po - bc) b)) with (av - po - bc) in H2 by (rewrite zlen_slice by lia; lia). rewrite H2 in Hc1. injection Hc1 as <-.
      by rewrite Hsl, Hpart.
    + intros c s4 Hc Hs4. apply fetches_ret; [done|]. split; [done|]. exists c. split; [done|]. split; [done|]. intros Hrt [?|Ha] _; [done|auto].
Qed.

(** The last page, when it is only read in part. *)
Lemma postblock_spec s tbuf tag tidx want opts : seen s -> p1 < p2 -> 0 < p2_off ->
  tbuf !! Z.to_nat tidx = Some tag -> tgs !! Z.to_nat p2 = Some tag ->
  fetches (FetchRangeUnaligned_postblock mach p o (zlen p) N tbuf want tidx opts) s
    (fun tb => (opt opts Verify = true -> right p2) /\
       exists c, tb = <[Z.to_nat tidx := c]> tbuf /\
         (right p2 -> opt opts Verify = true \/ agrees -> want = true -> c = checksum (part p2)))
    (~ (all_right /\ agrees)).
Proof using pbytes Dbytes Ho Hlen HN.
  intros Hs H12 H2 Ht0 Htag. unfold FetchRangeUnaligned_postblock.
  assert (o + zlen p = PageSize * p2 + p2_off /\ 0 < p2_off < PageSize /\ 0 <= p2) as (Hop & Hpo & Hp2) by (unfold PageSize in *; lia_div).
  assert (p1 <= p2 < last) as Hlast by (unfold npages, PageSize in *; lia_div).
  assert (o <= PageSize * p2) as Hle by (unfold PageSize in *; lia_div).
  set (n := p2_off) in *. set (av := Z.min (N - PageSize * p2) PageSize).
  assert (n <= av <= PageSize) as Hav by (unfold av; lia).
  set (rem := if n <? av then av - n else 0). assert (rem = av - n) as Hrem by (unfold rem; destruct (Z.ltb_spec n av); lia). clearbody rem. subst rem.
  set (ub := adv (zlen p - n) p). assert (zlen ub = n) as Hub by (unfold ub; rewrite zlen_adv by (unfold PageSize in *; lia); unfold PageSize in *; lia).
  assert (Forall is_byte ub) as Hubb by (by apply is_byte_adv).
  assert (part p2 = ub) as Hpart.
  { unfold part. rewrite (proj2 (Z.leb_le _ _)) by done. replace (PageSize * p2 - o) with (zlen p - n) by lia.
    apply take_ge. fold (adv (zlen p - n) p). fold ub. unfold zlen in Hub. unfold PageSize in *. lia. }
  assert (take (Z.to_nat n) ub = ub) as Htu by (apply take_ge; unfold zlen in Hub; lia).
  eapply (fetches_bind _ _ _ (fun b => Forall is_byte b /\ zlen b = av /\
    (opt opts Verify = true \/ agrees -> page_of p2 view = b /\ take (Z.to_nat n) b = ub))).
  { destruct (Z.ltb_spec 0 (av - n)) as [Hmore|Hno].
    - eapply fetches_bind; [apply fetches_fullread; [done|unfold PageSize in *; lia|lia|]|].
      { intros Hsh [_ [_ ?]]. lia. }
      intros b s1 [Hb [?|Hin]] Hs1; [lia|]. assert (zlen b = av) as Hbl by (rewrite Hb, zlen_slice by (unfold PageSize in *; lia); lia).
      assert (take (Z.to_nat n) b = ub -> page_of p2 view = b) as Hpage.
      { intros He. apply page_view_reread; [done|unfold av in *; lia|by rewrite Hbl|]. intros i Hi Hr.
        apply (f_equal (fun l => l !! i)) in He. rewrite lookup_take_lt in He by (unfold PageSize in *; lia). rewrite He.
        unfold ub, adv. rewrite lookup_drop. f_equal. unfold PageSize in *. lia. }
      assert (agrees -> take (Z.to_nat n) b = ub) as Hagr.
      { intros [Hp _]. rewrite Hb. change (take (Z.to_nat n) ?l) with (slice 0 n l). rewrite slice_slice by (unfold PageSize in *; lia).
        unfold ub. assert (slice (zlen p - n) n p = adv (zlen p - n) p) as <- by (unfold slice, adv; apply take_ge; rewrite length_drop; unfold zlen; lia).
        transitivity (slice (zlen p - n) n (slice o (zlen p) D)); [|by rewrite <- Hp].
        rewrite slice_slice by (unfold PageSize in *; lia). f_equal. lia. }
      destruct (opt opts Verify && negb (bool_decide (take (Z.to_nat n) ub = take (Z.to_nat n) b))) eqn:Hv.
      + apply andb_true_iff in Hv as [Hv Hd]. apply fetches_fail; [done|done|]. intros [_ Ha]. rewrite Hagr, Htu in Hd by done.
        by rewrite bool_decide_eq_true_2 in Hd.
      + apply fetches_ret; [done|]. split; [by rewrite Hb; apply slice_bytes|]. split; [done|]. intros Hor.
        assert (take (Z.to_nat n) b = ub) as He; [|auto]. destruct Hor as [Hvt|?]; [|auto]. rewrite Hvt in Hv. cbn [andb] in Hv.
        apply negb_false_iff, bool_decide_eq_true in Hv. congruence.
    - apply fetches_ret; [done|]. split; [done|]. split; [lia|]. intros _. split; [|done].
      rewrite page_view_inside; [done|done|done|right; unfold av, PageSize in *; lia|lia]. }
  intros b s1 (Hb & Hbl & Hpg) Hs1. unfold csvec_at. rewrite Ht0.
  assert (take (Z.to_nat av) b = b) as Htk by (apply take_ge; unfold zlen in Hbl; lia).
  eapply fetches_bind; [apply (fetches_ret tag s1 (fun t => t = tag)); done|]. intros ? s2 -> Hs2.
  eapply (fetches_bind _ _ _ (fun _ => opt opts Verify = true -> right p2)).
  { destruct (opt opts Verify) eqn:Hv; [|by apply fetches_ret].
    eapply fetches_lift_bind; [apply Calc_sum; [done|lia]|]. destruct (Hpg (or_introl eq_refl)) as [Hpage _]. rewrite Htk, <- Hpage.
    destruct (Z.eqb_spec tag (checksum (page_of p2 view))) as [He|Hne].
    - apply fetches_ret; [done|]. intros _. unfold right. by rewrite Htag, He.
    - apply fetches_fail; [done|done|]. apply (not_right_bad p2); [lia|]. unfold right. rewrite Htag. congruence. }
  intros _ s3 Hr Hs3. destruct (want && (0 <? av - n)) eqn:Hmw.
  2: { apply fetches_ret; [done|]. split; [done|]. exists tag. split; [by rewrite list_insert_id|].
       intros Hrt Hor ->. cbn [andb] in Hmw. apply Z.ltb_ge in Hmw. destruct (Hpg Hor) as [Hpage Hsl].
       unfold right in Hrt. rewrite Htag, Hpage in Hrt. injection Hrt as ->. f_equal. rewrite Hpart, <- Hsl.
       symmetry. apply take_ge. unfold zlen in Hbl. lia. }
  apply andb_true_iff in Hmw as [-> Hmore%Z.ltb_lt]. destruct (opt opts Verify) eqn:Hv.
  - eapply (fetches_bind _ _ _ (fun c => c = checksum (part p2))).
    + eexists _, _. unfold lift. rewrite (Calc_sum mach) by (done || lia). split; [reflexivity|].
      split; [by apply still_refl|]. rewrite Hpart. f_equal. apply Hpg. by left.
    + intros c s4 -> Hs4. apply fetches_ret; [done|]. split; [done|]. eexists. split; [done|]. done.
  - eapply (fetches_bind _ _ _ (fun c => right p2 -> agrees -> c = checksum (part p2))).
    + eapply fetches_lift_bind; [apply Calc_sum; [by apply is_byte_adv|rewrite zlen_adv by lia; lia]|].
      change (take (Z.to_nat (av - n)) (adv n b)) with (slice n (av - n) b).
      destruct (split1_total tag (checksum (slice n (av - n) b)) (av - n)) as [c1 Hc1]; [lia|].
      eexists _, _. unfold lift. rewrite Hc1. split; [reflexivity|]. split; [by apply still_refl|]. intros Hrt Ha.
      destruct (Hpg (or_intror Ha)) as [Hpage Hsl]. unfold right in Hrt. rewrite Htag, Hpage in Hrt. injection Hrt as ->.
      assert (b = take (Z.to_nat n) b ++ slice n (av - n) b) as Hsplit.
      { rewrite <- Htk at 1. change (take (Z.to_nat ?k) b) with (slice 0 k b). replace av with (n + (av - n)) at 1 by lia. by rewrite slice_add by lia. }
      rewrite Hsplit in Hc1 at 1.
      destruct (CrcUtils_parts mach (take (Z.to_nat n) b) (slice n (av - n) b)) as (_ & H3 & _ & _); [by apply Forall_take|by apply slice_bytes|rewrite zlen_slice by lia; lia|].
      replace (zlen (slice n (av - n) b)) with (av - n) in H3 by (rewrite zlen_slice by lia; lia). rewrite H3 in Hc1. injection Hc1 as <-.
      by rewrite Hsl, Hpart.
    + intros c s4 Hc Hs4. apply fetches_ret; [done|]. split; [done|]. exists c. split; [done|]. intros Hrt [?|Ha] _; [done|auto].
Qed.

(** Several tags at once. *)
Lemma right_slice q n : 0 <= q -> 0 <= n -> (forall k, q <= k < q + n -> right k) <-> slice q n tgs = sums_between q (q + n) view.
Proof using Type.
  intros Hq Hn. split.
  - intros Hr. apply list_eq. intros i. rewrite lookup_slice_all. case_decide as Hi.
    + rewrite lookup_sums_between by lia. rewrite <- (Hr (q + Z.of_nat i)) by lia. f_equal. lia.
    + symmetry. apply lookup_ge_None_2. rewrite length_zlen, zlen_sums_between by lia. lia.
  - intros He k Hk. unfold right. apply (f_equal (fun l => l !! Z.to_nat (k - q))) in He.
    rewrite lookup_slice, lookup_sums_between in He by lia. replace (Z.to_nat q + Z.to_nat (k - q))%nat with (Z.to_nat k) in He by lia.
    rewrite He. do 3 f_equal. lia.
Qed.

Lemma all_right_long : all_right -> last <= zlen tgs.
Proof using Ho Hlen.
  intros Ha. assert (p1 <= last - 1 < last) as Hl by (unfold npages, PageSize in *; lia_div). specialize (Ha _ Hl).
  assert (0 <= p1) as Hp1 by (unfold PageSize; lia_div). apply lookup_lt_Some in Ha.
  rewrite (length_zlen tgs) in Ha. lia.
Qed.

(** ** The full pages between *)

Section full.
  Context (want : bool) (fp : Z).
  Abbreviation tbufsz := (if want then last - p1 else stsize_).
  Hypothesis Hfp : p1 <= fp.

(** The tags in the buffer are those of the pages from [base] on; [more] are to come. *)
Record window (tbuf : list Z) (base more : Z) : Prop := {
  w_base : p1 <= base < last;
  w_want : want = true -> base = p1;
  w_len : zlen tbuf = Z.min tbufsz (last - base);
  w_more : more = last - base - zlen tbuf;
  w_tags : forall q, fp <= q -> base <= q < base + zlen tbuf -> tbuf !! Z.to_nat (q - base) = tgs !! Z.to_nat q }.

Lemma tbufsz_pos : 0 < tbufsz.
Proof using Ho Hlen. destruct want; [unfold npages, PageSize in *; lia_div|done]. Qed.

Lemma window_slice tbuf base more q n : window tbuf base more -> 0 <= base -> fp <= q -> base <= q -> 0 <= n -> q + n <= base + zlen tbuf ->
  slice (q - base) n tbuf = slice q n tgs.
Proof using Type.
  intros [_ _ _ _ Hw] Hb Hq Hbq Hn Hin. apply list_eq. intros i. rewrite !lookup_slice_all. case_decide; [|done].
  rewrite <- (Nat2Z.id i) at 1. rewrite <- Z2Nat.inj_add by lia. replace (q - base + Z.of_nat i) with (q + Z.of_nat i - base) by lia.
  rewrite Hw by lia. f_equal. lia.
Qed.

Lemma valid_loop_spec calcbuf fpread fuel : forall s tbuf base more nvalid tovalid, seen s -> window tbuf base more ->
  0 <= nvalid -> 0 <= tovalid -> fp <= fpread + nvalid -> fpread + nvalid + tovalid <= last -> nvalid + tovalid <= zlen calcbuf ->
  0 <= fpread + nvalid - base <= tbufsz ->
  2 * tovalid <= Z.of_nat fuel + (if fpread + nvalid - base <? tbufsz then 1 else 0) ->
  (all_right -> slice (fpread + nvalid) tovalid tgs = slice nvalid tovalid calcbuf) ->
  fetches (valid_loop fuel calcbuf want tbufsz fpread nvalid tovalid tbuf base more) s
    (fun r => let '(tb, b, m) := r in window tb b m /\ 0 <= fpread + nvalid + tovalid - b <= tbufsz /\ (want = true -> tb = tbuf) /\
       slice (fpread + nvalid) tovalid tgs = slice nvalid tovalid calcbuf)
    (~ (all_right /\ agrees)).
Proof using Ho Hlen Hfp.
  pose proof tbufsz_pos as Hts. assert (0 <= p1) as Hp1 by (unfold PageSize; lia_div).
  induction fuel as [|fuel IH]; intros s tbuf base more nvalid tovalid Hs Hw Hn Ht Hq Hlast Hcb Hti Hfu Hgood; cbn [valid_loop];
    (destruct (Z.leb_spec tovalid 0) as [Hz|Hz];
      [replace tovalid with 0 in * by lia; rewrite Z.add_0_r; apply fetches_ret; [done|]; rewrite !slice_0; done|]).
  { destruct (_ <? _); lia. }
  set (q := fpread + nvalid) in *. destruct (Hw) as [Hb Hbw Hl Hm Htg]. destruct (Z.eqb_spec (Z.min tovalid (tbufsz - (q - base))) 0) as [Hnv|Hnv].
  - assert (q - base = tbufsz) as He by lia. destruct (decide (want = true)) as [Hwt|Hwt].
    { rewrite (Hbw Hwt) in He. rewrite Hwt in *. lia. }
    apply not_true_is_false in Hwt. rewrite Hwt in *. rewrite (proj2 (Z.ltb_ge _ _)) in Hfu by lia.
    assert (zlen tbuf = stsize_) as Hl' by lia.
    eapply fetches_bind; [apply fetches_ReadTags; [done|lia|lia|]|].
    { intros Hsh [Ha _]. pose proof (all_right_long Ha). lia. }
    intros l s1 [-> Hll] Hs1.
    eapply fetches_impl; [apply (IH s1 _ (base + stsize_) (more - Z.min more stsize_) nvalid tovalid); try done; fold q; try lia| |done].
    + split; rewrite ?Hwt; [lia|done|lia|lia|]. intros k Hk Hr. rewrite lookup_slice by lia. f_equal. lia.
    + rewrite (proj2 (Z.ltb_lt _ _)); lia.
    + intros [[tb b] m] (H1 & H2 & _ & H4). fold q in H2, H4. done.
  - set (nv := Z.min tovalid (tbufsz - (q - base))) in *. assert (0 < nv <= tovalid) as Hnvp by (unfold nv; lia).
    assert (slice (q - base) nv tbuf = slice q nv tgs) as Hsl by (eapply window_slice; [done|lia..]).
    rewrite Hsl. assert (zlen (slice q nv tgs) = nv) as Hlsl.
    { rewrite <- Hsl, zlen_slice by lia. lia. }
    rewrite zlen_slice in Hlsl by lia.
    assert (forall P : Prop, (slice q nv tgs = slice nvalid nv calcbuf -> slice (q + nv) (tovalid - nv) tgs = slice (nvalid + nv) (tovalid - nv) calcbuf -> P) ->
      slice q tovalid tgs = slice nvalid tovalid calcbuf -> P) as Hsp.
    { intros P HP He. apply (slice_iff q tovalid nv) in He as [H1 H2]; [by apply HP|lia..]. }
    case_bool_decide as Hd.
    + eapply fetches_impl; [apply (IH s tbuf base more (nvalid + nv) (tovalid - nv)); rewrite ?Z.add_assoc; fold q; try done; try lia| |done].
      * destruct (q - base <? tbufsz) eqn:?; destruct (q + nv - base <? tbufsz); lia.
      * intros Ha. eapply Hsp; [|by apply Hgood]. done.
      * intros [[tb b] m] (H1 & H2 & H3 & H4). rewrite !Z.add_assoc in H2, H4. fold q in H2, H4.
        split; [done|]. split; [lia|]. split; [done|]. apply (slice_iff q tovalid nv); [lia..|]. done.
    + apply fetches_fail; [done|done|]. intros [Ha _]. eapply Hsp; [|by apply Hgood]. done.
Qed.

(** The checksums of the buffer's full pages are those of the pages as seen. *)
Lemma full_sums q n : 0 <= q -> o <= PageSize * q -> 0 <= n -> PageSize * (q + n) <= o + zlen p ->
  Calc32C_pages mach (adv (PageSize * q - o) p) (n * PageSize) = Ok (sums_between q (q + n) view).
Proof using pbytes Ho Hlen HN.
  intros Hq Hoq Hn Hin. rewrite (Calc_pages mach) by (try apply is_byte_adv; try rewrite zlen_adv; unfold PageSize in *; done || lia). f_equal.
  set (b := take _ _). assert (zlen b = n * PageSize) as Hb.
  { unfold b, adv, zlen in *. rewrite length_take, length_drop. unfold PageSize in *. lia. }
  rewrite page_sums_between, Hb. replace (npages (n * PageSize)) with n by (unfold npages, PageSize; lia_div).
  apply list_eq. intros i. destruct (decide (Z.of_nat i < n)) as [Hi|Hi].
  - rewrite !lookup_sums_between by lia. do 2 f_equal. rewrite Z.add_0_l.
    rewrite page_view_inside by (unfold PageSize in *; lia). unfold part. rewrite (proj2 (Z.leb_le _ _)) by (unfold PageSize in *; lia).
    unfold page_of, b. rewrite slice_take by (unfold PageSize in *; lia). rewrite slice_adv by (unfold PageSize in *; lia).
    f_equal. unfold PageSize. lia.
  - rewrite !lookup_ge_None_2; [done|rewrite length_zlen, zlen_sums_between by lia; lia..].
Qed.

Lemma full_loop_spec off fuel : o + off = PageSize * fp -> 0 <= off -> forall s tbuf base more nread toread, seen s -> window tbuf base more ->
  0 <= nread -> 0 <= toread <= Z.of_nat fuel -> fp + nread + toread = p2 -> 0 <= fp + nread - base <= tbufsz ->
  fetches (full_loop mach fuel (adv off p) want tbufsz fp nread toread tbuf base more) s
    (fun r => let '(tb, b, m) := r in window tb b m /\ 0 <= p2 - b <= tbufsz /\ (want = true -> tb = tbuf) /\
       forall k, fp + nread <= k < p2 -> right k)
    (~ (all_right /\ agrees)).
Proof using pbytes Ho Hlen HN Hfp.
  intros Hoff Hoff0. assert (0 <= p1) as Hp1 by (unfold PageSize; lia_div).
  assert (p2 <= last /\ PageSize * p2 <= o + zlen p) as [Hpl Hp2] by (unfold npages, PageSize in *; lia_div).
  induction fuel as [|fuel IH]; intros s tbuf base more nread toread Hs Hw Hn Ht Hend Hti; cbn [full_loop];
    (destruct (Z.leb_spec toread 0) as [Hz|Hz];
      [apply fetches_ret; [done|]; replace p2 with (fp + nread) by lia; split; [done|]; split; [done|]; split; [done|]; lia|]).
  { lia. }
  set (c := Z.min toread stsize_). assert (0 < c <= toread) as Hc by (unfold c, stsize_; lia). set (q := fp + nread) in *.
  assert (o <= PageSize * q /\ PageSize * (q + c) <= o + zlen p) as [Hoq Hqc] by (unfold q, PageSize in *; lia).
  assert (adv (PageSize * nread) (adv off p) = adv (PageSize * q - o) p) as ->.
  { unfold adv. rewrite drop_drop. f_equal. unfold q, PageSize in *. lia. }
  eapply fetches_lift_bind; [by apply full_sums; unfold q; lia|].
  assert (zlen (sums_between q (q + c) view) = c) as Hlc by (rewrite zlen_sums_between; lia).
  assert (slice 0 c (sums_between q (q + c) view) = sums_between q (q + c) view) as Hall by (apply slice_all; lia).
  eapply fetches_bind; [apply (valid_loop_spec _ q (2 * Z.to_nat c) s tbuf base more 0 c); rewrite ?Z.add_0_r; try done; try lia|].
  { destruct (_ <? _); lia. }
  { intros Ha. rewrite Hall. apply right_slice; [lia..|]. intros k Hk. apply Ha. lia. }
  intros [[tb b] m] s1 (Hw1 & H2 & H3 & H4) Hs1. rewrite Z.add_0_r, Hall in *.
  pose proof (proj2 (right_slice q c ltac:(lia) ltac:(lia)) H4) as H5.
  eapply fetches_impl; [apply (IH s1 tb b m (nread + c) (toread - c)); rewrite ?Z.add_assoc; fold q; try done; try lia| |done].
  intros [[tb' b'] m'] (G1 & G2 & G3 & G4). rewrite ?Z.add_assoc in G4. fold q in G4. split; [done|]. split; [done|].
  split; [intros Hwt; by rewrite G3, H3|]. intros k Hk. destruct (decide (k < q + c)); [apply H5|apply G4]; lia.
Qed.

End full.

(** ** Unaligned ranges *)

(** The checksums of what the buffer has of each page. *)
Definition part_sums : list Z := (fun k => checksum (part k)) <$> seqZ p1 (last - p1).

Lemma lookup_part_sums (i : nat) : Z.of_nat i < last - p1 -> part_sums !! i = Some (checksum (part (p1 + Z.of_nat i))).
Proof using Type. intros Hi. unfold part_sums. by rewrite list_lookup_fmap, lookup_seqZ_lt by lia. Qed.

Lemma user_sums_parts : user_sums o p = part_sums.
Proof using Ho Hlen.
  assert (0 <= p1 /\ o = PageSize * p1 + po /\ 0 <= po < PageSize) as (Hp1 & Hop & Hpo) by (unfold PageSize; lia_div).
  assert (p1 < last) as Hl by (unfold npages, PageSize in *; lia_div). unfold user_sums. destruct (Z.eqb_spec po 0) as [Hz|Hz].
  - apply list_eq. intros i. assert (npages (zlen p) = last - p1) as Hn by (unfold npages, PageSize in *; lia_div).
    destruct (decide (Z.of_nat i < last - p1)).
    + rewrite lookup_part_sums, page_sums_between, lookup_sums_between by lia. do 2 f_equal. unfold part.
      rewrite (proj2 (Z.leb_le _ _)) by (unfold PageSize in *; lia). unfold page_of. f_equal. unfold PageSize in *. lia.
    + rewrite !lookup_ge_None_2; [done|unfold part_sums; rewrite length_fmap, length_seqZ; lia|rewrite length_zlen, zlen_page_sums; lia].
  - unfold part_sums. replace (last - p1) with (Z.succ (last - p1 - 1)) by lia. rewrite seqZ_cons, fmap_cons by lia. f_equal.
    + unfold part. by rewrite (proj2 (Z.leb_gt _ _)) by lia.
    + apply list_eq. intros i. set (t := adv (PageSize - po) p).
      assert (zlen t = Z.max 0 (zlen p - (PageSize - po))) as Ht by (unfold t, adv, zlen; rewrite length_drop; lia).
      assert (npages (zlen t) = last - p1 - 1) as Hn by (rewrite Ht; unfold npages, PageSize in *; lia_div).
      replace (Z.pred (Z.succ (last - p1 - 1))) with (last - p1 - 1) by lia. rewrite list_lookup_fmap.
      destruct (decide (Z.of_nat i < last - p1 - 1)).
      * rewrite lookup_seqZ_lt, page_sums_between, lookup_sums_between by lia. cbn [fmap option_fmap option_map]. do 2 f_equal.
        unfold part. rewrite (proj2 (Z.leb_le _ _)) by (unfold PageSize in *; lia). unfold page_of, t. rewrite slice_adv by (unfold PageSize in *; lia).
        f_equal. unfold PageSize in *. lia.
      * rewrite !lookup_ge_None_2; [done|rewrite length_seqZ; lia|rewrite length_zlen, zlen_page_sums; lia].
Qed.

(** The checksums of the parts, from the tags of the pages and the two that are worked out. *)
Lemma assemble pre c c2 last_part : all_right -> (pre = false -> po = 0 /\ PageSize <= zlen p) ->
  (pre = true -> c = checksum (part p1)) ->
  (last_part = true -> p1 < p2 /\ 0 < p2_off /\ c2 = checksum (part p2)) -> (last_part = false -> p1 < p2 -> p2_off = 0) ->
  let l := slice p1 (last - p1) tgs in
  let l := if pre : bool then <[0%nat := c]> l else l in
  (if last_part : bool then <[Z.to_nat (p2 - p1) := c2]> l else l) = part_sums.
Proof using Ho Hlen HN.
  intros Ha Hpre Hc Hlp Hnl l l'. assert (0 <= p1 /\ o = PageSize * p1 + po /\ 0 <= po < PageSize) as (Hp1 & Hop & Hpo) by (unfold PageSize; lia_div).
  pose proof (all_right_long Ha) as Hlong. assert (p1 < last) as Hl by (unfold npages, PageSize in *; lia_div).
  assert (length l = Z.to_nat (last - p1)) as Hll.
  { unfold l, slice. rewrite length_take, length_drop, (length_zlen tgs). lia. }
  assert (length l' = length l) as Hll' by (unfold l'; destruct pre; [apply length_insert|done]).
  apply list_eq. intros i. destruct (decide (Z.of_nat i < last - p1)) as [Hi|Hi].
  2: { rewrite (lookup_ge_None_2 part_sums) by (unfold part_sums; rewrite length_fmap, length_seqZ; lia).
       apply lookup_ge_None_2. destruct last_part; rewrite ?length_insert; lia. }
  rewrite lookup_part_sums by done. set (k := p1 + Z.of_nat i).
  assert (l !! i = Some (checksum (page_of k view))) as Hli.
  { unfold l. rewrite lookup_slice by lia. rewrite <- (Ha k) by (unfold k; lia). f_equal. unfold k. lia. }
  destruct (decide (last_part = true /\ k = p2)) as [[Hlt Hk]|Hnk].
  { rewrite Hlt in *. destruct (Hlp eq_refl) as (_ & _ & ->). replace (Z.to_nat (p2 - p1)) with i by (unfold k in Hk; lia).
    rewrite list_lookup_insert_eq by lia. by rewrite Hk. }
  assert ((if last_part : bool then <[Z.to_nat (p2 - p1) := c2]> l' else l') !! i = l' !! i) as ->.
  { destruct last_part; [|done]. apply list_lookup_insert_ne. unfold k in Hnk. intros He. apply Hnk. split; [done|].
    assert (p1 <= p2) by (unfold PageSize; lia_div). lia. }
  destruct (decide (pre = true /\ k = p1)) as [[Hpt Hk]|Hnp].
  { unfold l'. rewrite Hpt. replace i with 0%nat by (unfold k in Hk; lia). rewrite list_lookup_insert_eq by lia. rewrite Hc by done. do 3 f_equal. lia. }
  assert (l' !! i = l !! i) as ->.
  { unfold l'. destruct pre; [|done]. apply list_lookup_insert_ne. unfold k in Hnp. intros He. apply Hnp. split; [done|]. lia. }
  rewrite Hli. do 2 f_equal. apply page_view_inside; [unfold k; lia| | |].
  - destruct pre; [|destruct (Hpre eq_refl); unfold k, PageSize in *; lia]. assert (k <> p1) by (intros ?; by apply Hnp). unfold k, PageSize in *. lia.
  - left. destruct (decide (k < p2)) as [Hkp|Hkp]; [unfold PageSize in *; lia_div|]. exfalso.
    assert (k = p2 /\ 0 < p2_off) as [Hk Ho2] by (unfold k, npages, PageSize in *; lia_div).
    destruct last_part; [by apply Hnk|]. destruct (decide (p1 < p2)) as [H12|H12]; [specialize (Hnl eq_refl H12); lia|].
    assert (k = p1) as Hk1 by (unfold k in *; lia). destruct pre; [by apply Hnp|]. destruct (Hpre eq_refl) as [Hz Hps]. unfold PageSize in *. lia_div.
  - unfold k, npages, PageSize in *. lia_div.
Qed.

Lemma FetchRangeUnaligned_spec s ac want opts : seen s ->
  fetches (FetchRangeUnaligned mach p o (zlen p) (N, ac) want opts) s
    (fun cs => (opt opts Verify = true -> all_right) /\
               (want = true -> all_right -> opt opts Verify = true \/ agrees -> cs = part_sums))
    (~ (all_right /\ agrees)).
Proof using pbytes Dbytes Ho Hlen HN.
  intros Hs. unfold FetchRangeUnaligned. cbn [fst].
  assert (0 <= p1 /\ o = PageSize * p1 + po /\ 0 <= po < PageSize) as (Hp1 & Hop & Hpo) by (unfold PageSize; lia_div).
  assert (0 <= p2_off < PageSize /\ o + zlen p = PageSize * p2 + p2_off /\ p1 <= p2) as (Hp2o & Hp2 & H12) by (unfold PageSize; lia_div).
  assert (p1 < last) as Hl by (unfold npages, PageSize in *; lia_div).
  assert (last = if 0 <? p2_off then p2 + 1 else p2) as Hlast by (destruct (Z.ltb_spec 0 p2_off); unfold npages, PageSize in *; lia_div).
  assert ((if 0 <? p2_off then p2 - p1 + 1 else p2 - p1) = last - p1) as -> by (destruct (0 <? p2_off); lia).
  set (sz := if want then last - p1 else stsize_). assert (0 < sz) as Hsz by (unfold sz; destruct want; [lia|done]).
  set (pre := (0 <? po) || (zlen p <? PageSize)).
  eapply fetches_bind; [apply (fetches_ReadTags s p1 (Z.min (last - p1) sz)); [done|lia|lia|]|].
  { intros Hsh [Ha _]. pose proof (all_right_long Ha). lia. }
  intros l s1 [Hll Hlz] Hs1. assert (is_Some (l !! 0%nat)) as [tag0 Ht0] by (apply lookup_lt_is_Some_2; unfold zlen in Hlz at 1; lia).
  assert (tgs !! Z.to_nat p1 = Some tag0) as Htag0 by (rewrite Hll, lookup_slice, Nat.add_0_r in Ht0 by lia; done).
  eapply (fetches_bind _ _ _ (fun tb => exists c, tb = (if pre then <[0%nat := c]> l else l) /\ (want = false -> tb = l) /\
    (pre = true -> (opt opts Verify = true -> right p1) /\ (right p1 -> opt opts Verify = true \/ agrees -> want = true -> c = checksum (part p1))))).
  { fold pre. destruct pre eqn:Hpre; [|apply fetches_ret; [done|]; by exists 0].
    eapply fetches_impl; [apply (preblock_spec s1 l tag0); [done| |done|done]| |done].
    - unfold pre in Hpre. apply orb_true_iff in Hpre. rewrite !Z.ltb_lt in Hpre. done.
    - intros tb (H1 & c & -> & H3 & H4). exists c. split; [done|]. split; [|done]. intros Hw. by rewrite (H3 Hw), list_insert_id. }
  intros tb s2 (c & Htb & Htbw & Hpr) Hs2. assert (zlen tb = Z.min (last - p1) sz) as Htbz.
  { rewrite Htb. destruct pre; [unfold zlen in *; by rewrite length_insert|done]. }
  destruct (Z.eq_dec p1 p2) as [He|Hne].
  { assert (last = p1 + 1) as Hl1 by (rewrite Hlast in *; destruct (0 <? p2_off); lia).
    assert (pre = true) as Hpt by (unfold pre; apply orb_true_iff; rewrite !Z.ltb_lt; unfold PageSize in *; lia).
    rewrite (proj2 (Z.ltb_ge (if negb (po =? 0) then p1 + 1 else p1) p2)) by (destruct (negb (po =? 0)); lia). cbn [andb].
    eapply fetches_bind; [apply (fetches_ret _ s2 (fun r => r = (tb, p1, last - p1 - Z.min (last - p1) sz))); done|].
    intros [[tb' b] m] s3 [= -> -> ->] Hs3. rewrite (proj2 (Z.ltb_ge p1 p2)) by lia. cbn [andb].
    apply fetches_ret; [done|]. destruct (Hpr Hpt) as [H1 H2]. split.
    - intros Hv k Hk. replace k with p1 by lia. auto.
    - intros Hw Ha Hor. rewrite <- (assemble pre c 0 false Ha); [|by rewrite Hpt| |done|lia].
      + rewrite Htb, Hpt, Hll. unfold sz. by rewrite Hw, Z.min_id.
      + intros _. apply H2; [apply Ha; lia|done|done]. }
  set (fp := if pre then p1 + 1 else p1).
  assert ((if negb (po =? 0) then p1 + 1 else p1) = fp) as ->.
  { unfold fp, pre. destruct (Z.eqb_spec po 0) as [Hz|Hz]; cbn [negb]; [|by rewrite (proj2 (Z.ltb_lt 0 po)) by lia].
    rewrite (proj2 (Z.ltb_ge 0 po)), (proj2 (Z.ltb_ge (zlen p) PageSize)) by (unfold PageSize in *; lia). done. }
  set (off := if negb (po =? 0) then PageSize - po else 0).
  assert (o + off = PageSize * fp /\ 0 <= off) as [Hoff Hoff0].
  { unfold off, fp, pre. destruct (Z.eqb_spec po 0) as [Hz|Hz]; cbn [negb].
    - rewrite (proj2 (Z.ltb_ge 0 po)), (proj2 (Z.ltb_ge (zlen p) PageSize)) by (unfold PageSize in *; lia). cbn [orb]. lia.
    - rewrite (proj2 (Z.ltb_lt 0 po)) by lia. cbn [orb]. unfold PageSize in *. lia. }
  assert (p1 <= fp <= p2) as Hfp by (unfold fp; destruct pre; lia).
  assert (window want fp tb p1 (last - p1 - Z.min (last - p1) sz)) as Hwin.
  { split; [lia|done|fold sz; lia|lia|]. intros q Hq Hr. rewrite Htb. unfold fp in Hq. rewrite Htbz in Hr.
    destruct pre; [rewrite list_lookup_insert_ne by lia|]; rewrite Hll, lookup_slice by lia; f_equal; lia. }
  eapply (fetches_bind _ _ _ (fun r => let '(t, b, m) := r in window want fp t b m /\ b <= p2 /\ (want = true -> t = tb) /\
    (opt opts Verify = true -> forall k, fp <= k < p2 -> right k))).
  { destruct (Z.ltb_spec fp p2) as [Hlt|Hge]; cbn [andb].
    2: { apply fetches_ret; [done|]. split; [done|]. split; [lia|]. split; [done|]. intros _ k Hk. lia. }
    destruct (opt opts Verify) eqn:Hv.
    2: { apply fetches_ret; [done|]. split; [done|]. split; [lia|]. done. }
    eapply fetches_impl; [apply (full_loop_spec want fp (proj1 Hfp) off (Z.to_nat (p2 - fp)) Hoff Hoff0 s2 tb p1 _ 0 (p2 - fp)); [done|done|lia|lia|lia|]| |done].
    - fold sz. unfold fp, sz, stsize_ in *. destruct pre, want; lia.
    - intros [[t b] m] (H1 & H2 & H3 & H4). rewrite Z.add_0_r in H4. split; [done|]. split; [lia|]. done. }
  intros [[t b] m] s3 (Hw & Hbp & Htw & Hfull) Hs3. rewrite (proj2 (Z.ltb_lt p1 p2)) by lia. cbn [andb].
  assert (forall k, p1 <= k < p2 -> opt opts Verify = true -> right k) as Hmid.
  { intros k Hk Hv. destruct (decide (fp <= k)); [apply Hfull; [done|lia]|]. unfold fp in *. destruct pre; [|lia].
    replace k with p1 by lia. by apply (Hpr eq_refl). }
  destruct (Z.ltb_spec 0 p2_off) as [H2|H2].
  2: { apply fetches_ret; [done|]. split; [intros Hv k Hk; apply Hmid; [lia|done]|]. intros Hwt Ha Hor. rewrite Htw by done.
       rewrite <- (assemble pre c 0 false Ha).
       - rewrite Htb, Hll. unfold sz. by rewrite Hwt, Z.min_id.
       - intros Hpf. unfold pre in Hpf. apply orb_false_iff in Hpf. rewrite !Z.ltb_ge in Hpf. lia.
       - intros Hpt. apply Hpr; [done|apply Ha; lia|done|done].
       - done.
       - lia. }
  destruct (Hw) as [Hb Hbw Hzl Hm Htg]. fold sz in Hzl.
  eapply (fetches_bind _ _ _ (fun r => let '(t2, i) := r in 0 <= i /\ (want = true -> t2 = t /\ i = p2 - p1) /\
    exists tag, t2 !! Z.to_nat i = Some tag /\ tgs !! Z.to_nat p2 = Some tag)).
  { destruct (Z.leb_spec sz (p2 - b)) as [Hge|Hlt].
    - destruct want; [rewrite (Hbw eq_refl) in *; unfold sz in *; lia|].
      eapply fetches_bind; [apply (fetches_ReadTags s3 p2 1); [done|lia|lia|]|].
      { intros Hsh [Ha _]. pose proof (all_right_long Ha). lia. }
      intros l2 s4 [Hl2 Hz2] Hs4. apply fetches_ret; [done|]. split; [done|]. split; [done|].
      destruct (lookup_lt_is_Some_2 l2 0) as [tag Htag]; [unfold zlen in Hz2; lia|]. exists tag. split; [done|].
      rewrite Hl2, lookup_slice, Nat.add_0_r in Htag by lia. done.
    - apply fetches_ret; [done|]. split; [lia|]. split; [intros Hwt; by rewrite (Hbw Hwt)|].
      destruct (lookup_lt_is_Some_2 t (Z.to_nat (p2 - b))) as [tag Htag]; [rewrite length_zlen; lia|]. exists tag. split; [done|].
      rewrite <- Htg; [done|lia|lia]. }
  intros [t2 i] s4 (Hi & Hti & tag & Htag & Htag2) Hs4.
  eapply fetches_impl; [apply (postblock_spec s4 t2 tag i); [done|lia|lia|done|done]| |done].
  intros t3 (Hr2 & c2 & -> & Hc2). split.
  - intros Hv k Hk. destruct (decide (k < p2)); [apply Hmid; [lia|done]|]. replace k with p2 by lia. auto.
  - intros Hwt Ha Hor. destruct (Hti Hwt) as [-> ->]. rewrite Htw by done. rewrite <- (assemble pre c c2 true Ha).
    + rewrite Htb, Hll. unfold sz. by rewrite Hwt, Z.min_id.
    + intros Hpf. unfold pre in Hpf. apply orb_false_iff in Hpf. rewrite !Z.ltb_ge in Hpf. lia.
    + intros Hpt. apply Hpr; [done|apply Ha; lia|done|done].
    + intros _. split; [lia|]. split; [done|]. apply Hc2; [apply Ha; lia|done|done].
    + done.
Qed.

(** ** Ranges *)

Lemma aligned_right : po = 0 -> zlen p mod PageSize = 0 \/ o + zlen p = N ->
  last = p1 + npages (zlen p) /\ part_sums = page_sums p /\ (all_right <-> slice p1 (npages (zlen p)) tgs = page_sums p).
Proof using Ho Hlen HN.
  intros Hz Hc. assert (0 <= p1 /\ o = PageSize * p1) as (Hp1 & Hop) by (unfold PageSize in *; lia_div).
  assert (last = p1 + npages (zlen p)) as Hl by (rewrite Hop; unfold npages, PageSize in *; lia_div).
  assert (0 < npages (zlen p)) as Hnp by (unfold npages, PageSize; lia_div).
  assert (part_sums = page_sums p) as Hps by (rewrite <- user_sums_parts; unfold user_sums; by rewrite Hz).
  split; [done|]. split; [done|]. rewrite <- Hps.
  assert (sums_between p1 (p1 + npages (zlen p)) view = part_sums) as <-.
  { unfold part_sums, sums_between. rewrite Hl. apply list_fmap_ext. intros _ k Hk%list_elem_of_lookup_2%elem_of_seqZ.
    f_equal. apply page_view_inside; unfold npages, PageSize in *; lia_div. }
  rewrite <- right_slice by lia. by rewrite <- Hl.
Qed.

Lemma FetchRange_spec s ac want opts : seen s -> hasMissingTags_ s = false -> trackingsizes_ s = Some (N, ac) ->
  fetches (FetchRange mach p o (zlen p) want opts) s
    (fun cs => (opt opts Verify = true -> all_right) /\
               (want = true -> all_right -> opt opts Verify = true \/ agrees -> cs = user_sums o p))
    (~ (all_right /\ agrees)).
Proof using pbytes Dbytes Ho Hlen HN.
  intros Hs Hm Hz. unfold FetchRange, getTrackinglens. apply fetches_get_bind.
  rewrite (proj2 (Z.ltb_ge o 0)), Hm by done. eapply fetches_bind; [apply (fetches_get_bind _ s (fun z => z = (N, ac)))|].
  { rewrite Hz. by apply fetches_ret. }
  intros ? s1 -> Hs1. cbn [fst]. rewrite (proj2 (Z.leb_gt N o)), (proj2 (Z.eqb_neq (zlen p) 0)), (proj2 (Z.ltb_ge N (o + zlen p))) by lia.
  cbn [andb]. destruct (negb want && negb (opt opts Verify)) eqn:Hno.
  { apply andb_true_iff in Hno as [Hw%negb_true_iff Hv%negb_true_iff]. apply fetches_ret; [done|]. rewrite Hv, Hw. done. }
  rewrite user_sums_parts. destruct (fetch_unaligned o (zlen p) N) eqn:Hu; [by apply FetchRangeUnaligned_spec|].
  unfold fetch_unaligned in Hu. apply orb_false_iff in Hu as [Hpo Hu]. apply negb_false_iff, Z.eqb_eq in Hpo.
  destruct (aligned_right Hpo) as (Hl & Hps & Hiff).
  { apply andb_false_iff in Hu as [Hu%negb_false_iff|Hu%negb_false_iff]; apply Z.eqb_eq in Hu; auto. }
  eapply fetches_impl; [by apply FetchRangeAligned_spec| |].
  - intros cs [H1 H2]. split; [intros Hv; apply Hiff; auto|]. intros Hw Ha _. rewrite H2, Hps by done. by apply Hiff.
  - intros [Hsh|[Hv Hne]] [Ha _]; [pose proof (all_right_long Ha); lia|]. by apply Hne, Hiff.
Qed.

Lemma VerifyRange_spec s ac : seen s -> hasMissingTags_ s = false -> trackingsizes_ s = Some (N, ac) ->
  fetches (VerifyRange mach p o (zlen p)) s (fun _ => all_right) (~ (all_right /\ agrees)).
Proof using pbytes Dbytes Ho Hlen HN.
  intros Hs Hm Hz. unfold VerifyRange, getTrackinglens. apply fetches_get_bind.
  rewrite (proj2 (Z.ltb_ge o 0)), Hm by done. eapply fetches_bind; [apply (fetches_get_bind _ s (fun z => z = (N, ac)))|].
  { rewrite Hz. by apply fetches_ret. }
  intros ? s1 -> Hs1. cbn [fst]. rewrite (proj2 (Z.leb_gt N o)), (proj2 (Z.eqb_neq (zlen p) 0)), (proj2 (Z.ltb_ge N (o + zlen p))) by lia.
  cbn [andb]. destruct (fetch_unaligned o (zlen p) N) eqn:Hu.
  - eapply fetches_bind; [by apply FetchRangeUnaligned_spec|]. intros cs s2 [H1 _] Hs2. apply fetches_ret; [done|]. by apply H1.
  - unfold fetch_unaligned in Hu. apply orb_false_iff in Hu as [Hpo Hu]. apply negb_false_iff, Z.eqb_eq in Hpo.
    destruct (aligned_right Hpo) as (Hl & Hps & Hiff).
    { apply andb_false_iff in Hu as [Hu%negb_false_iff|Hu%negb_false_iff]; apply Z.eqb_eq in Hu; auto. }
    eapply fetches_bind; [eapply fetches_impl; [by apply FetchRangeAligned_spec| |]|].
    + intros cs Hcs. exact Hcs.
    + intros [Hsh|[Hv Hne]] [Ha _]; [pose proof (all_right_long Ha); lia|]. by apply Hne, Hiff.
    + intros cs s2 [H1 _] Hs2. apply fetches_ret; [done|]. apply Hiff. by apply H1.
Qed.

End range.

End fetch.
