(* ===== verification/CsiRead.v ===== *)
(** * Reads return verified data

    The reads of [CsiFile], for any tags and whatever fails: what a read returns are bytes
    of the file on pages whose checksums are right. *)

From stdpp Require Import base tactics list_numbers numbers option list.
From S2P Require Import Prelude CrcRegister OucCRC32C CsiCrc CsiStore CsiPages CsiFile CsiTags CsiWrite CsiFetch CsiUpdate.
#[local] Set Warnings "-clear-no-such-hyp".
Open Scope csi_scope.

Section read.
  Context {T : Type} `{TagstoreLaws T}.
  Context (mach : machine) (D tgs : list Z).
  Hypothesis Dbytes : Forall is_byte D.
  Abbreviation MF := (M (csi T)).

(** The tag of a page is the checksum of the page of the file of [N] bytes. *)
Definition page_verified (N k : Z) : Prop := tgs !! Z.to_nat k = Some (checksum (page_of k (take (Z.to_nat N) D))).

(** The states between operations: tags are there, and nobody updates the sizes. *)
Record idle (N : Z) (s : csi T) : Prop := {
  i_seen : seen D tgs s;
  i_missing : hasMissingTags_ s = false;
  i_update : tsforupdate_ s = false;
  i_tracked : GetTrackedTagSize (ts_ s) = N }.

(** What a routine under the guard leaves. *)
Lemma still_idle N s sizes s' : idle N s -> still D tgs (with_guard sizes false s) s' ->
  idle N s' /\ trackinglenlocked_ s' = false /\ GetTrackedDataSize (ts_ s') = GetTrackedDataSize (ts_ s) /\
  (quiet (df s) -> quiet (df s')) /\ (calm (ts_ s) -> calm (ts_ s')).
Proof using Type.
  intros [Hs Hm Hu Ht] [Hs' Hq Hc [F1 F2 F3 F4 F5 F6 F7 F8 F9]]. cbn in *. split; [split; [done|congruence..]|]. auto.
Qed.

Lemma idle_guard N s sizes : idle N s -> seen D tgs (with_guard sizes false s).
Proof using Type. intros [[] _ _ _]. by split. Qed.

Lemma with_rg_read {A} (m : MF A) s o e N (post : A + Z -> csi T -> Prop) : idle N s -> o <> e ->
  returns m (with_guard (Some (N, GetTrackedDataSize (ts_ s))) false s) (fun r s' => trackinglenlocked_ s' = false /\ post r s') ->
  returns (with_rg (LockTrackinglen o e true ;;; m)) s post.
Proof using Type.
  intros [Hs Hm Hu Ht] Hoe (r & s' & Hr & Hl & Hp).
  unfold returns, with_rg, LockTrackinglen, TrackedSizesGet, ReleaseAll, bind, catch, get, modify, ret. cbn.
  rewrite Hm, (proj2 (Z.eqb_neq o e)) by done. cbn. rewrite Hm, Hu. cbn. rewrite Ht.
  change (with_guard (Some (N, GetTrackedDataSize (ts_ s))) false (with_guard None false s)) with (with_guard (Some (N, GetTrackedDataSize (ts_ s))) false s).
  rewrite Hr. cbn. rewrite Hl. destruct r; by eexists _, _.
Qed.

Lemma fetches_df_Read s off n bad : seen D tgs s -> 0 <= off -> 0 < n ->
  fetches D tgs (on_df (df_Read off n)) s (fun l => exists k, 0 < k <= n /\ l = slice off k D) bad.
Proof using Type.
  intros [Hc Hs Ht] Ho Hn. destruct (df_Read_gives (df s) off n Ho Hn) as (r & f' & Hr & Hq & Hp).
  exists r, (with_df f' s). unfold on_df, zoom. rewrite Hr. split; [done|]. destruct r as [l|e].
  - destruct Hp as [Hc' (k & Hk & ->)]. split; [split; try done; split; cbn; congruence|]. exists k. split; [done|]. congruence.
  - destruct Hp as (He & Hnq & Hc'). split; [split; try done; split; cbn; congruence|]. done.
Qed.

(** Bytes that are those of the file change nothing when they are put in their place. *)
Lemma write_at_same o p : p <> [] -> 0 <= o -> p = slice o (zlen p) D -> write_at o p D = D.
Proof using Type.
  intros Hp Ho He. assert (0 < zlen p) as Hpos by (by apply len_pos).
  assert (o + zlen p <= zlen D) as Hin.
  { apply (f_equal zlen) in He. rewrite zlen_slice in He by lia. lia. }
  apply list_eq. intros i. rewrite lookup_write_at by done. unfold zlen in *. case_decide; [by rewrite decide_True by lia|].
  case_decide; [|done]. rewrite He at 1. rewrite lookup_slice by lia. f_equal. lia.
Qed.

(** What is read is on the pages of the file. *)
Lemma view_whole o N p : p <> [] -> 0 <= o -> p = slice o (zlen p) D -> view D p o N = take (Z.to_nat N) D.
Proof using Type. intros. unfold view. by rewrite write_at_same. Qed.

Lemma slice_self off k l : 0 <= off -> 0 <= k -> slice off k l = slice off (zlen (slice off k l)) l.
Proof using Type.
  intros Ho Hk. rewrite zlen_slice by lia. destruct (Z.min_spec k (Z.max 0 (zlen l - off))) as [[? ->]|[? ->]]; [done|].
  apply slice_clip; lia.
Qed.

(** The pages that a read of [n] bytes touches. *)
Definition pages_verified (N o n : Z) : Prop := forall k, o / PageSize <= k < npages (o + n) -> page_verified N k.

Lemma Read_spec s o n N : idle N s -> 0 <= o -> 0 < n ->
  returns (Read mach o n) s (fun r s' => idle N s' /\
    match r with
    | inl p => p = slice o (zlen p) D /\ zlen p <= n /\ (p = [] -> N <= o) /\
               (p <> [] -> o + zlen p <= N /\ pages_verified N o (zlen p))
    | inr e => e < 0 /\ (quiet (df s) -> calm (ts_ s) -> ~ (N = zlen D /\ pages_verified N o (Z.min n (N - o))))
    end).
Proof using Dbytes.
  intros Hi Ho Hn. unfold Read. apply (with_rg_read _ s o (o + n) N); [done|lia|].
  set (s1 := with_guard _ false s). set (ac := GetTrackedDataSize (ts_ s)) in *.
  assert (seen D tgs s1) as Hs1 by (by eapply idle_guard).
  assert (fetches D tgs (let* buff := on_df (df_Read o n) in
     if n =? 0 then ret buff else VerifyRange mach buff o (zlen buff) ;;; ret buff) s1
     (fun p => p = slice o (zlen p) D /\ zlen p <= n /\ (p = [] -> N <= o) /\ (p <> [] -> o + zlen p <= N /\ pages_verified N o (zlen p)))
     (~ (N = zlen D /\ pages_verified N o (Z.min n (N - o))))) as Hf.
  2: { eapply returns_impl; [exact Hf|]. intros r s' [Hst Hr]. destruct (still_idle _ _ _ _ Hi Hst) as (H1 & H2 & _). auto. }
  eapply fetches_bind_still; [by apply fetches_df_Read|]. intros p s2 (k & Hk & Hp) Hst.
  rewrite (proj2 (Z.eqb_neq n 0)) by lia.
  assert (p = slice o (zlen p) D) as Hps by (rewrite Hp; apply slice_self; lia).
  assert (zlen p <= n /\ (0 < zlen p -> o + zlen p <= zlen D)) as [Hpn Hpin] by (rewrite Hp, zlen_slice by lia; lia).
  pose proof (sl_seen _ _ _ _ Hst) as Hs2. pose proof (f_missing _ _ (sl_frame _ _ _ _ Hst)) as Hm2. pose proof (f_sizes _ _ (sl_frame _ _ _ _ Hst)) as Hz2.
  cbn in Hm2, Hz2. rewrite (i_missing _ _ Hi) in Hm2.
  eapply (fetches_bind _ _ _ _ _ (fun _ => (p = [] -> N <= o) /\ (p <> [] -> o + zlen p <= N /\ pages_verified N o (zlen p)))).
  2: { intros _ s3 [H1 H2] Hs3. by apply fetches_ret. }
  destruct (decide (0 < zlen p /\ o + zlen p <= N)) as [[Hlen HN]|Hno].
  - assert (p <> []) as Hne by (intros ->; done).
    eapply fetches_impl; [eapply (VerifyRange_spec mach D tgs p o N); [by rewrite Hps; apply slice_bytes|done|done|done|done|exact Hs2|done|exact Hz2]| |].
    + intros ? Ha. split; [done|]. intros _. split; [done|]. intros j Hj. specialize (Ha j Hj). unfold right in Ha. by rewrite view_whole in Ha.
    + intros Hbad [HND Hpv]. apply Hbad. split; [|split; [done|lia]]. intros j Hj. unfold right. rewrite view_whole by done. apply Hpv.
      assert (npages (o + zlen p) <= npages (o + Z.min n (N - o))) by (apply Z.div_le_mono; unfold PageSize; lia). lia.
  - unfold VerifyRange, getTrackinglens. apply fetches_get_bind. rewrite (proj2 (Z.ltb_ge o 0)), Hm2 by done.
    eapply fetches_bind; [apply (fetches_get_bind _ _ _ s2 (fun z => z = (N, ac)))|].
    { rewrite Hz2. by apply fetches_ret. }
    intros ? s3 -> Hs3. cbn [fst]. pose proof (zlen_nonneg p) as Hp0. destruct (Z.eqb_spec (zlen p) 0) as [Hz|Hz].
    + destruct (Z.leb_spec N o) as [Hle|Hgt]; cbn [andb].
      * apply fetches_ret; [done|]. apply zlen_zero_nil in Hz as ->. done.
      * apply fetches_fail; [done|done|]. intros [HND _]. rewrite Hp, zlen_slice in Hz by lia. lia.
    + rewrite andb_false_r. rewrite (proj2 (Z.ltb_lt N (o + zlen p))) by lia. apply fetches_fail; [done|done|]. intros [HND _]. lia.
Qed.

(** The reads of [pgRead]: all there is, unless something fails. *)
Lemma pgread_loop_spec fuel : forall s o toread acc, seen D tgs s -> 0 <= o -> 0 < toread <= Z.of_nat fuel ->
  fetches D tgs (pgread_loop fuel o toread acc) s
    (fun l => exists k, 0 <= k <= toread /\ l = acc ++ slice o k D /\ (toread <= k \/ zlen D <= o + k)) False.
Proof using Type.
  induction fuel as [|fuel IH]; intros s o toread acc Hs Ho Ht; [lia|]. cbn [pgread_loop].
  eapply fetches_bind; [apply fetches_df_Read; [done|done|lia]|]. intros p s1 (k & Hk & Hp) Hs1.
  assert (p = slice o (zlen p) D) as Hps by (rewrite Hp; apply slice_self; lia).
  assert (zlen p = Z.min k (Z.max 0 (zlen D - o))) as Hlp by (rewrite Hp, zlen_slice by lia; done).
  destruct (Z.eqb_spec (zlen p) 0) as [Hz|Hz].
  { apply fetches_ret; [done|]. exists 0. rewrite slice_0, app_nil_r. split; [lia|]. split; [done|]. lia. }
  destruct (Z.leb_spec (toread - zlen p) 0) as [Hle|Hgt].
  { apply fetches_ret; [done|]. exists (zlen p). split; [lia|]. split; [by rewrite <- Hps|]. lia. }
  eapply fetches_impl; [apply (IH s1 (o + zlen p) (toread - zlen p) (acc ++ p)); [done|lia|lia]| |done].
  intros l (j & Hj & -> & Hend). exists (zlen p + j). split; [lia|]. split; [|lia].
  rewrite slice_add, <- app_assoc by lia. by rewrite <- Hps.
Qed.

Lemma pgRead_spec s o n want opts N : idle N s -> 0 <= o -> 0 < n ->
  returns (pgRead mach o n want opts) s (fun r s' => (idle N s' /\
      GetTrackedDataSize (ts_ s') = GetTrackedDataSize (ts_ s) /\ trackinglenlocked_ s' = false /\
      (quiet (df s) -> quiet (df s')) /\ (calm (ts_ s) -> calm (ts_ s'))) /\
    match r with
    | inl (p, cs) => p = slice o n D /\ (p = [] -> N <= o /\ cs = []) /\
        (p <> [] -> o + zlen p <= N /\ (opt opts Verify = true -> pages_verified N o (zlen p)) /\
          (want = true -> pages_verified N o (zlen p) -> N <= zlen D \/ opt opts Verify = true -> cs = user_sums o p))
    | inr e => e < 0 /\ (quiet (df s) -> calm (ts_ s) -> ~ (N = zlen D /\ pages_verified N o (Z.min n (N - o))))
    end).
Proof using Dbytes.
  intros Hi Ho Hn. unfold pgRead. apply (with_rg_read _ s o (o + n) N); [done|lia|].
  set (s1 := with_guard _ false s). set (ac := GetTrackedDataSize (ts_ s)) in *.
  assert (seen D tgs s1) as Hs1 by (by eapply idle_guard).
  assert (fetches D tgs (let* buff := pgread_loop (S (Z.to_nat n)) o n [] in
     if n =? 0 then ret (buff, []) else let* csvec := FetchRange mach buff o (zlen buff) want opts in ret (buff, csvec)) s1
     (fun r => let '(p, cs) := r in p = slice o n D /\ (p = [] -> N <= o /\ cs = []) /\
        (p <> [] -> o + zlen p <= N /\ (opt opts Verify = true -> pages_verified N o (zlen p)) /\
          (want = true -> pages_verified N o (zlen p) -> N <= zlen D \/ opt opts Verify = true -> cs = user_sums o p)))
     (~ (N = zlen D /\ pages_verified N o (Z.min n (N - o))))) as Hf.
  2: { eapply returns_impl; [exact Hf|]. intros r s' [Hst Hr]. destruct (still_idle _ _ _ _ Hi Hst) as (H1 & H2 & H3 & H4 & H5). auto 10. }
  eapply fetches_bind_still; [eapply fetches_impl; [apply (pgread_loop_spec _ s1 o n []); [done|done|lia]|intros l Hl; exact Hl|done]|].
  intros p s2 (k & Hk & Hp & Hend) Hst. cbn [app] in Hp. rewrite (proj2 (Z.eqb_neq n 0)) by lia.
  assert (p = slice o (zlen p) D) as Hps by (rewrite Hp; apply slice_self; lia).
  assert (p = slice o n D) as Hpn.
  { destruct Hend as [Hend|Hend]; [rewrite Hp; f_equal; lia|]. rewrite Hp. rewrite (slice_clip o k), (slice_clip o n) by lia. done. }
  assert (zlen p <= n /\ (0 < zlen p -> o + zlen p <= zlen D)) as [Hln Hpin] by (rewrite Hpn, zlen_slice by lia; lia).
  pose proof (sl_seen _ _ _ _ Hst) as Hs2. pose proof (f_missing _ _ (sl_frame _ _ _ _ Hst)) as Hm2. pose proof (f_sizes _ _ (sl_frame _ _ _ _ Hst)) as Hz2.
  cbn in Hm2, Hz2. rewrite (i_missing _ _ Hi) in Hm2.
  destruct (decide (0 < zlen p /\ o + zlen p <= N)) as [[Hlen HN]|Hno].
  - assert (p <> []) as Hne by (intros ->; done).
    eapply fetches_bind; [eapply fetches_impl;
      [eapply (FetchRange_spec mach D tgs p o N) with (want := want) (opts := opts); [by rewrite Hps; apply slice_bytes|done|done|done|done|exact Hs2|done|exact Hz2]| |]|].
    + intros cs Hcs. exact Hcs.
    + intros Hbad [HND Hpv]. apply Hbad. split; [|split; [done|lia]]. intros j Hj. unfold right. rewrite view_whole by done. apply Hpv.
      assert (npages (o + zlen p) <= npages (o + Z.min n (N - o))) by (apply Z.div_le_mono; unfold PageSize; lia). lia.
    + intros cs s3 [H1 H2] Hs3. assert (all_right D tgs p o N <-> pages_verified N o (zlen p)) as Hiff.
      { unfold all_right, pages_verified, right, page_verified. by rewrite view_whole. }
      apply fetches_ret; [done|]. split; [done|]. split; [done|]. intros _. split; [done|]. rewrite <- Hiff. split; [done|].
      intros Hw Ha Hor. apply H2; [done|done|]. destruct Hor as [Hor|Hor]; [right; by split|by left].
  - unfold FetchRange, getTrackinglens. eapply (fetches_bind _ _ _ _ _ (fun cs => cs = [] /\ p = [] /\ N <= o)).
    2: { intros cs s3 (-> & -> & HNo) Hs3. apply fetches_ret; [done|]. done. }
    apply fetches_get_bind. rewrite (proj2 (Z.ltb_ge o 0)), Hm2 by done.
    eapply fetches_bind; [apply (fetches_get_bind _ _ _ s2 (fun z => z = (N, ac)))|].
    { rewrite Hz2. by apply fetches_ret. }
    intros ? s3 -> Hs3. cbn [fst]. pose proof (zlen_nonneg p) as Hp0. destruct (Z.eqb_spec (zlen p) 0) as [Hz|Hz].
    + destruct (Z.leb_spec N o) as [Hle|Hgt]; cbn [andb].
      * apply fetches_ret; [done|]. apply zlen_zero_nil in Hz as ->. done.
      * apply fetches_fail; [done|done|]. intros [HND _]. rewrite Hpn, zlen_slice in Hz by lia. lia.
    + rewrite andb_false_r. rewrite (proj2 (Z.ltb_lt N (o + zlen p))) by lia. apply fetches_fail; [done|done|]. intros [HND _]. lia.
Qed.

End read.

(** ** A file is an array of bytes *)

Section array.
  Context {T : Type} `{TagstoreLaws T}.
  Context (mach : machine) (disablePgExtend_ loosewriteConfigured_ : bool).

Lemma page_sums_verified D o n : 0 <= o -> o + n <= zlen D -> pages_verified D (page_sums D) (zlen D) o n.
Proof.
  intros Ho Hin k Hk. unfold page_verified, zlen. rewrite Nat2Z.id, firstn_all. apply page_tag.
  assert (npages (o + n) <= npages (zlen D)) by (apply Z.div_le_mono; unfold PageSize; lia).
  assert (0 <= o / PageSize) by (unfold PageSize; lia_div). lia.
Qed.

Lemma consistent_idle D s : consistent D s -> idle D (page_sums D) (zlen D) s.
Proof. intros [_ [sizes [[] ? ? ? ? ? ?]]]. by split. Qed.

(** A read under the right tags gives the bytes and their checksums. *)
Lemma pgRead_gets D o n opts s : consistent D s -> 0 <= o -> 0 < n -> let p := slice o n D in
  gets (pgRead mach o n true opts) s (p, if bool_decide (p = []) then [] else user_sums o p) (consistent D).
Proof.
  intros Hc Ho Hn p. destruct (Hc) as [HD [sizes [[Hct Hq Hok Hca Ht] Hm Htl Hac Hz Hlk Hu]]].
  destruct (pgRead_spec mach D (page_sums D) HD s o n true opts (zlen D) (consistent_idle _ _ Hc) Ho Hn) as (r & s' & Hr & ([[] ? ? ?] & H2 & H3 & H4 & H5) & Hp).
  pose proof (zlen_nonneg D) as HN.
  exists r, s'. split; [done|]. destruct r as [[p' cs]|e].
  - destruct Hp as (-> & He & Hne). fold p in He, Hne. split.
    + do 2 f_equal. case_bool_decide as Hd; [by apply He|]. destruct (Hne Hd) as (Hin & _ & Hcs).
      apply Hcs; [done| |by left]. by apply page_sums_verified.
    + split; [done|]. exists (trackingsizes_ s'). split; try done; [split; auto|congruence].
  - exfalso. destruct Hp as [_ Hp]. apply (Hp Hq Hca). split; [done|].
    apply page_sums_verified; lia.
Qed.

(** The operations on an open file. *)
Inductive request :=
  | RqWrite (buff : list Z) (offset : Z)
  | RqPgWrite (buff : list Z) (offset : Z) (csvec : option (list Z)) (opts : Z)
  | RqFtruncate (flen : Z)
  | RqPgRead (offset rdlen opts : Z).
Inductive reply :=
  | Written (n : Z)
  | PgWritten (n : Z) (csvec : option (list Z))
  | Truncated
  | PgData (buff csvec : list Z).
Definition serve (q : request) : M (csi T) reply :=
  match q with
  | RqWrite b o => let* n := Write mach true loosewriteConfigured_ false b o in ret (Written n)
  | RqPgWrite b o cs opts =>
      let* r := pgWrite mach true disablePgExtend_ loosewriteConfigured_ false b o cs opts in ret (PgWritten r.1 r.2)
  | RqFtruncate n => Ftruncate mach true loosewriteConfigured_ false n ;;; ret Truncated
  | RqPgRead o n opts => let* r := pgRead mach o n true opts in ret (PgData r.1 r.2)
  end.
Fixpoint serve_all (qs : list request) : M (csi T) (list reply) :=
  match qs with
  | [] => ret []
  | q :: qs => let* r := serve q in let* rs := serve_all qs in ret (r :: rs)
  end.

(** The same on an array of bytes. *)
Definition answer_of (q : request) (D : list Z) : reply * list Z :=
  match q with
  | RqWrite b o => (Written (zlen b), write_at o b D)
  | RqPgWrite b o cs opts => (PgWritten (zlen b) ((fun _ => user_sums o b) <$> cs), write_at o b D)
  | RqFtruncate n => (Truncated, resize_to n D)
  | RqPgRead o n opts => let p := slice o n D in (PgData p (if bool_decide (p = []) then [] else user_sums o p), D)
  end.
Fixpoint answers_of (qs : list request) (D : list Z) : list reply * list Z :=
  match qs with
  | [] => ([], D)
  | q :: qs => let '(r, D) := answer_of q D in let '(rs, D) := answers_of qs D in (r :: rs, D)
  end.

(** What a caller has to keep to. *)
Definition allowed (q : request) (D : list Z) : Prop :=
  match q with
  | RqWrite b o => Forall is_byte b /\ b <> [] /\ 0 <= o
  | RqPgWrite b o csvec opts => Forall is_byte b /\ b <> [] /\ 0 <= o /\
      (forall cs, csvec = Some cs -> cs = user_sums o b \/ opt opts doCalc = true /\ opt opts Verify = false) /\
      (disablePgExtend_ = true -> zlen D mod PageSize = 0 \/ o + zlen b <= zlen D)
  | RqFtruncate n => 0 <= n < 2 ^ 63 - 1 /\ zlen D < 2 ^ 63 - 1
  | RqPgRead o n opts => 0 <= o /\ 0 < n
  end.
Fixpoint all_allowed (qs : list request) (D : list Z) : Prop :=
  match qs with
  | [] => True
  | q :: qs => allowed q D /\ all_allowed qs (answer_of q D).2
  end.

Lemma serve_gets q D s : consistent D s -> allowed q D -> gets (serve q) s (answer_of q D).1 (consistent (answer_of q D).2).
Proof.
  intros Hc Ha. destruct q; cbn [serve answer_of allowed fst snd] in *.
  - destruct Ha as (? & ? & ?). eapply gets_bind; [by apply Write_gets|]. intros s1 Hs1. by apply gets_ret.
  - destruct Ha as (? & ? & ? & ? & ?). eapply gets_bind; [by apply pgWrite_gets|]. intros s1 Hs1. by apply gets_ret.
  - destruct Ha as [? ?]. eapply gets_bind; [by apply Ftruncate_gets|]. intros s1 Hs1. by apply gets_ret.
  - destruct Ha as [? ?]. eapply gets_bind; [by apply pgRead_gets|]. intros s1 Hs1. by apply gets_ret.
Qed.

Lemma serve_all_gets qs : forall D s, consistent D s -> all_allowed qs D ->
  gets (serve_all qs) s (answers_of qs D).1 (consistent (answers_of qs D).2).
Proof.
  induction qs as [|q qs IH]; intros D s Hc Ha; cbn [serve_all answers_of]; [by apply gets_ret|].
  destruct Ha as [Ha Has]. pose proof (serve_gets q D s Hc Ha) as Hq. destruct (answer_of q D) as [r D'].
  eapply gets_bind; [exact Hq|]. intros s1 Hs1. specialize (IH D' s1 Hs1 Has). destruct (answers_of qs D') as [rs D2].
  eapply gets_bind; [exact IH|]. intros s2 Hs2. by apply gets_ret.
Qed.

End array.
