(* ===== verification/CsiOpen.v ===== *)
(** * Opening a file with page checksums

    What [CsiPages] and [CsiFile] promise, for the store in a file: a new tag file and one
    that is opened again lead to files whose checksums are right, on machines of either
    byte order. *)

From stdpp Require Import base tactics list_numbers numbers option list.
From S2P Require Import Prelude CrcRegister OucCRC32C CsiCrc CsiStore CsiTagFile CsiPages CsiFile CsiTags CsiWrite CsiFetch CsiUpdate CsiRead.
#[local] Set Warnings "-clear-no-such-hyp".
Open Scope csi_scope.

(** A file whose tags are kept by a machine in a tag file. *)
Abbreviation stored mach := (@consistent _ (TagstoreFile_store mach) (TagstoreFile_laws mach)).

Section reopen.
  Context (mach' : machine) (allowMissingTags_ loosewriteConfigured_ : bool).

Lemma Pages_Open_stored ts_open D fl (s0 : csi XrdOssCsiTagstoreFile) t' ro :
  ts_open (ts_ s0) = Ok (inl tt, t') ->
  file_store_ok t' -> quiet (fd_ t') -> header_saved t' -> trackinglen_ t' = zlen D -> actualsize_ t' = zlen D -> hflags_ t' = fl ->
  file_tags (fileIsBige_ t') (content (fd_ t')) = page_sums D ->
  content (df s0) = D -> quiet (df s0) -> Forall is_byte D -> tsforupdate_ s0 = false -> trackinglenlocked_ s0 = false ->
  exists s', @Pages_Open _ (TagstoreFile_store mach') allowMissingTags_ loosewriteConfigured_ ts_open (zlen D) ro s0 = Ok (inl tt, s') /\
    stored mach' D s' /\ @IsVerified _ (TagstoreFile_store mach') (ts_ s') = negb (Z.land fl csVer =? 0).
Proof.
  intros Ho Hok Hq Hs Htl Hac Hfl Hft Hc Hqd HD Hu Hl.
  unfold Pages_Open, on_ts, zoom, bind, catch, modify, ret, get. cbn. rewrite Ho. cbn.
  eexists. split; [reflexivity|]. destruct (seen_sizes t' Hok) as (S1 & S2 & S3). split; [|cbn; by rewrite S3, Hfl].
  split; [done|]. exists (trackingsizes_ s0). split; [by split|done|cbn; congruence|cbn; congruence|done..].
Qed.

End reopen.

(** ** The properties *)

Section properties.
  Context {T : Type} `{TagstoreLaws T}.
  Context (mach : machine).

(** C6: A file with page checksums refines an array of bytes: when its tags
    are right and no system call fails (they may be short), every sequence of
    writes, writes with checksums, truncations and reads gives the replies of
    the array, with the checksums of what was asked for, and leaves the file
    with the array's bytes and the tags right. *)
Theorem serve_all_refines disablePgExtend_ loosewriteConfigured_ qs D (s : csi T) :
  consistent D s -> all_allowed disablePgExtend_ qs D ->
  exists s', serve_all mach disablePgExtend_ loosewriteConfigured_ qs s = Ok (inl (answers_of qs D).1, s') /\
    consistent (answers_of qs D).2 s'.
Proof. intros Hc Ha. destruct (serve_all_gets mach disablePgExtend_ loosewriteConfigured_ qs D s Hc Ha) as (r & s' & Hr & -> & Hc'). eauto. Qed.

(** C7: Whatever the file and its tags hold and whatever system calls fail, a
    read returns, changes nothing, and the bytes it gives are bytes of the
    file on pages whose tags are their checksums, within the tracked length;
    pgRead does so when it is asked to verify, and the checksums it gives with
    pages that are right are those of the bytes it gives. A read fails, when
    no call fails, only if a page it touches has not the right tag or the
    tracked length is not that of the file. *)
Theorem reads_verified D tgs N (s : csi T) o n : Forall is_byte D -> idle D tgs N s -> 0 <= o -> 0 < n ->
  returns (Read mach o n) s (fun r s' => idle D tgs N s' /\
    match r with
    | inl p => p = slice o (zlen p) D /\ zlen p <= n /\ (p = [] -> N <= o) /\
               (p <> [] -> o + zlen p <= N /\ pages_verified D tgs N o (zlen p))
    | inr e => e < 0 /\ (quiet (df s) -> calm (ts_ s) -> ~ (N = zlen D /\ pages_verified D tgs N o (Z.min n (N - o))))
    end) /\
  forall want opts, returns (pgRead mach o n want opts) s (fun r s' => idle D tgs N s' /\
    match r with
    | inl (p, cs) => p = slice o n D /\ (p = [] -> N <= o /\ cs = []) /\
        (p <> [] -> o + zlen p <= N /\ (opt opts Verify = true -> pages_verified D tgs N o (zlen p)) /\
          (want = true -> pages_verified D tgs N o (zlen p) -> N <= zlen D \/ opt opts Verify = true -> cs = user_sums o p))
    | inr e => e < 0 /\ (quiet (df s) -> calm (ts_ s) -> ~ (N = zlen D /\ pages_verified D tgs N o (Z.min n (N - o))))
    end).
Proof.
  intros HD Hi Ho Hn. split; [by apply Read_spec|]. intros want opts.
  eapply returns_impl; [by apply pgRead_spec|]. intros r s' [[Hi' _] Hr]. done.
Qed.

(** C16: A write that comes with as many checksums as its data has pages and
    asks for verification is refused when one of them is not that of the data,
    and nothing has changed then: no tag, no byte of the file, no lock. *)
Theorem pgWrite_rejects writeHoles_ disablePgExtend_ loosewriteConfigured_ B o cs opts (s : csi T) :
  Forall is_byte B -> B <> [] -> 0 <= o -> length cs = length (user_sums o B) ->
  opt opts Verify = true -> cs <> user_sums o B ->
  pgWrite mach writeHoles_ disablePgExtend_ loosewriteConfigured_ false B o (Some cs) opts s = Ok (inr EDOM, s).
Proof.
  intros Hb HB Ho Hl Hv Hne. unfold pgWrite, bind at 1. rewrite prelock_check by done. by rewrite bool_decide_eq_false_2.
Qed.

End properties.

(** C8: A file that is closed and opened again: when its tags are right, the
    tag file it leaves is opened, by a machine of either byte order, with the
    same tags, sizes and flags, so the file has its bytes and right checksums
    again. *)
Theorem Pages_Open_recovers mach mach' allowMissingTags_ loosewriteConfigured_ D s s0 ro :
  stored mach D s -> zlen D < 2 ^ 63 ->
  fd_ (ts_ s0) = fd_ (ts_ s) -> df s0 = df s -> tsforupdate_ s0 = false -> trackinglenlocked_ s0 = false ->
  exists s', @Pages_Open _ (TagstoreFile_store mach') allowMissingTags_ loosewriteConfigured_ (TF_Open mach' (zlen D)) (zlen D) ro s0 = Ok (inl tt, s') /\
    stored mach' D s' /\ @IsVerified _ (TagstoreFile_store mach') (ts_ s') = @IsVerified _ (TagstoreFile_store mach) (ts_ s).
Proof.
  intros [HD [sizes [[Hc Hq Hok [Hqt Hs] Ht] Hm Htl Hac Hz Hlk Hu]]] Hsz Hfd Hdf Hu0 Hl0. cbn in *.
  destruct (seen_sizes (ts_ s) Hok) as (S1 & S2 & S3). rewrite S1 in Htl. pose proof Hok as (Ho & Hl & Hb & [Hw Hge]).
  destruct (TF_Open_spec mach' (ts_ s0) (fileIsBige_ (ts_ s)) (zlen D) (hflags_ (ts_ s)) (zlen D)) as (r & t' & Hrun & -> & G1 & G2 & G3 & G4 & G5 & G6 & G7 & G8);
    rewrite ?Hfd; try done.
  - unfold header_saved in Hs. by rewrite Hs, Htl.
  - split; [apply zlen_nonneg|done].
  - by rewrite Ht, zlen_page_sums.
  - destruct (Pages_Open_stored mach' allowMissingTags_ loosewriteConfigured_ _ D (hflags_ (ts_ s)) s0 t' ro Hrun) as (s' & Hr & H1 & H2); try done.
    + rewrite G4, G8, Hfd. exact Ht.
    + by rewrite Hdf.
    + by rewrite Hdf.
    + exists s'. split; [done|]. split; [done|]. rewrite S3. exact H2.
Qed.

(** ** Files as they are created *)

(** A tag file as it is left by the creation of a file, in either byte order. *)
Definition fresh_tags (big : bool) : XrdOssCsiTagstoreFile := MkTagstoreFile (MkFile (header_bytes big 0 csVer) []) 0 0 true big big csVer.
Definition fresh (big : bool) : csi XrdOssCsiTagstoreFile := MkCsi (fresh_tags big) (MkFile [] []) false false false false 0 false None false.

Lemma zlen_header big tl fl : zlen (header_bytes big tl fl) = 20.
Proof. unfold zlen. by rewrite length_header. Qed.

Lemma fresh_ok big : file_store_ok (fresh_tags big) /\ header_saved (fresh_tags big) /\
  file_tags big (content (fd_ (fresh_tags big))) = [].
Proof.
  unfold fresh_tags, header_saved. cbn [fd_ content fileIsBige_ trackinglen_ hflags_]. split; [|split].
  - split; [done|]. cbn [fd_ content]. rewrite zlen_header. split; [done|]. split; [apply header_is_bytes|done].
  - apply slice_all. by rewrite zlen_header.
  - unfold file_tags, ntags. by rewrite zlen_header.
Qed.

Lemma fresh_stored mach big : stored mach [] (fresh big).
Proof.
  destruct (fresh_ok big) as (H1 & H2 & H3). split; [constructor|]. exists None.
  split; [split; [done|constructor|exact H1|split; [constructor|exact H2]|exact H3]|done..].
Qed.

Definition plain : machine := MkMachine true true 0.

Lemma serve_all_refines_witness : exists s',
  @serve_all _ (TagstoreFile_store plain) plain false false [RqPgWrite [97] 5 None 0; RqPgRead 5 1 0; RqFtruncate 3] (fresh true)
    = Ok (inl [PgWritten 1 None; PgData [97] (user_sums 5 [97]); Truncated], s') /\ stored plain [0; 0; 0] s'.
Proof.
  assert (Forall is_byte [97]) as Hb by (constructor; [done|constructor]).
  destruct (@serve_all_refines _ (TagstoreFile_store plain) (TagstoreFile_laws plain) plain false false
    [RqPgWrite [97] 5 None 0; RqPgRead 5 1 0; RqFtruncate 3] [] (fresh true) (fresh_stored plain true)) as (s' & Hs & Hc).
  - repeat split; try done.
  - exists s'. exact (conj Hs Hc).
Defined.

(** A file of one byte with a tag that is not its checksum; the first read will be
    interrupted. *)
Definition damaged : csi XrdOssCsiTagstoreFile :=
  MkCsi (MkTagstoreFile (MkFile (header_bytes false 1 csVer ++ [0; 0; 0; 0]) []) 1 1 true false false csVer)
    (MkFile [97] [Short 1]) false false false false 0 false None false.

Lemma damaged_idle : @idle _ (TagstoreFile_store plain) (TagstoreFile_laws plain) [97]
  (file_tags false (header_bytes false 1 csVer ++ [0; 0; 0; 0])) 1 damaged.
Proof.
  assert (Forall is_byte [0; 0; 0; 0]) as Hz by apply (is_byte_zeros 4).
  unfold damaged. split; [|done..]. split; [done| |done]. split; [done|]. cbn [fd_ ts_ content].
  rewrite zlen_app, zlen_header. split; [done|]. split; [by apply Forall_app_2; [apply header_is_bytes|]|done].
Qed.

Lemma bytes_97 : Forall is_byte [97].
Proof. apply List.Forall_cons; [done|constructor]. Qed.

Lemma reads_verified_witness : @returns _ _ (@Read _ (TagstoreFile_store plain) plain 0 1) damaged (fun r s' =>
  match r with
  | inl p => p <> [] -> 0 + zlen p <= 1 /\ pages_verified [97] (file_tags false (header_bytes false 1 csVer ++ [0; 0; 0; 0])) 1 0 (zlen p)
  | inr e => e < 0
  end).
Proof.
  destruct (proj1 (@reads_verified _ (TagstoreFile_store plain) (TagstoreFile_laws plain) plain [97] _ 1 damaged 0 1
    bytes_97 damaged_idle ltac:(done) ltac:(done))) as (r & s' & Hr & _ & Hp).
  exists r, s'. split; [exact Hr|]. destruct r as [p|e]; [apply Hp|apply Hp].
Defined.

Lemma pgWrite_rejects_witness :
  @pgWrite _ (TagstoreFile_store plain) plain true false false false [97] 0 (Some [0]) Verify (fresh true) = Ok (inr EDOM, fresh true).
Proof.
  apply (@pgWrite_rejects _ (TagstoreFile_store plain) plain true false false [97] 0 [0] Verify (fresh true)); try done.
  apply bytes_97.
Defined.

Lemma Pages_Open_recovers_witness : exists s',
  @Pages_Open _ (TagstoreFile_store plain) false false (TF_Open plain 0) 0 false (fresh true) = Ok (inl tt, s') /\ stored plain [] s'.
Proof.
  destruct (Pages_Open_recovers (MkMachine false false 3) plain false false [] (fresh true) (fresh true) false
    (fresh_stored (MkMachine false false 3) true) ltac:(done) ltac:(done) ltac:(done) ltac:(done) ltac:(done)) as (s' & Hs & Hc & _).
  exists s'. exact (conj Hs Hc).
Defined.

(** ** What goes wrong *)

(** A vector of two elements that both reach behind the end: the lock on the sizes is
    released for the first one, and the second one releases it again. *)
Example WriteV_unlocks_twice :
  @WriteV _ (TagstoreFile_store plain) plain true false false [(0, [97]); (1, [98])] (fresh false) = Fault.
Proof. vm_compute. reflexivity. Qed.

(** A read error when a tag file is opened: it is taken for a new one, and all of its tags
    are cut off. *)
Example Open_forgets_tags :
  let t := MkTagstoreFile (MkFile (header_bytes false 1 csVer ++ [1; 2; 3; 4]) [Err 5]) 0 0 false false false 0 in
  exists t', TF_Open plain 1 t = Ok (inl tt, t') /\ trackinglen_ t' = 0 /\ zlen (content (fd_ t')) = 20.
Proof. eexists. split; [vm_compute; reflexivity|]. by vm_compute. Qed.
