(* ===== verification/CsiRanges.v ===== *)
(** * Range locks on pages (XrdOssCsi/XrdOssCsiRanges.hh, XrdOssCsiPages.cc)

    The queue of locked ranges of pages, and the way in which operations take a range and
    the lock on the tracked sizes ([LockTrackinglen]) and give them back. Here many
    operations run at once, and a step is what one of them does while it holds a mutex.
    An operation has a range, waits for it, perhaps sets the tracked size, and ends. *)

From stdpp Require Import base tactics list_numbers numbers option list relations.
From S2P Require Import Prelude CrcRegister OucCRC32C CsiCrc CsiStore CsiPages.
#[local] Set Warnings "-clear-no-such-hyp".

(** ** The queue of ranges *)

Record XrdOssCsiRange_s := MkRange { start : Z; end_ : Z; rdonly : bool; nBlockedBy : Z }.

(** The objects, the queue [ranges_] and the unused objects [allocList_], by address. *)
Record XrdOssCsiRanges := MkRanges { objs : list XrdOssCsiRange_s; ranges_ : list nat; allocList_ : list nat }.

Definition zero_range : XrdOssCsiRange_s := MkRange 0 0 false 0.
Definition obj (R : XrdOssCsiRanges) (p : nat) : XrdOssCsiRange_s := default zero_range (objs R !! p).

(** Whether one of two ranges has to wait for the other. *)
Definition conflicts (a b : XrdOssCsiRange_s) : bool :=
  (start a <=? end_ b) && (start b <=? end_ a) && negb (rdonly a && rdonly b).

(** [AllocRange()] *)
Definition AllocRange (R : XrdOssCsiRanges) : nat * XrdOssCsiRanges :=
  match allocList_ R with
  | p :: l => (p, MkRanges (objs R) (ranges_ R) l)
  | [] => (length (objs R), MkRanges (objs R ++ [zero_range]) (ranges_ R) [])
  end.

(** [AddRange( start, end, rg, rdonly )]: the range that the guard gets *)
Definition AddRange (s e : Z) (ro : bool) (R : XrdOssCsiRanges) : nat * XrdOssCsiRanges :=
  let nblocking := length (filter (fun q => conflicts (obj R q) (MkRange s e ro 0) = true) (ranges_ R)) in
  let (p, R) := AllocRange R in
  (p, MkRanges (<[p := MkRange s e ro (Z.of_nat nblocking)]> (objs R)) (ranges_ R ++ [p]) (allocList_ R)).

(** [ranges_.erase( itr )] of the first one that is [rp] *)
Fixpoint erase (rp : nat) (l : list nat) : list nat :=
  match l with
  | [] => []
  | q :: l => if decide (q = rp) then l else q :: erase rp l
  end.

(** A turn of the loop of [RemoveRange]: whether the waiter of [q] is notified *)
Definition unblock (rp q : nat) (R : XrdOssCsiRanges) : bool * XrdOssCsiRanges :=
  let o := obj R q in
  if conflicts o (obj R rp) then
    let n := nBlockedBy o - 1 in
    (n =? 0, MkRanges (<[q := MkRange (start o) (end_ o) (rdonly o) n]> (objs R)) (ranges_ R) (allocList_ R))
  else (false, R).

(** [RecycleRange( rp )] *)
Definition RecycleRange (rp : nat) (R : XrdOssCsiRanges) : XrdOssCsiRanges := MkRanges (objs R) (ranges_ R) (rp :: allocList_ R).

Definition set_ranges (l : list nat) (R : XrdOssCsiRanges) : XrdOssCsiRanges := MkRanges (objs R) l (allocList_ R).

(** ** The operations and their guards *)

(** What is locked: [Read], [ReadV] and [pgRead]; [Write] and [pgWrite]; [Ftruncate]; [resyncSizes] *)
Inductive op := Reads (offset offend : Z) | Writes (offset offend : Z) | Truncates (flen : Z) | Resyncs.

Definition LLONG_MAX : Z := 2 ^ 63 - 1.

(** The arguments of [LockTrackinglen] *)
Definition op_range (o : op) : Z * Z :=
  match o with
  | Reads b e | Writes b e => (b, e)
  | Truncates n => (n, LLONG_MAX)
  | Resyncs => (0, LLONG_MAX)
  end.
Definition op_rdonly (o : op) : bool := match o with Reads _ _ => true | _ => false end.
(** Offsets that can occur; an operation with nothing to do locks nothing *)
Definition op_ok (o : op) : Prop :=
  match o with
  | Reads b e | Writes b e => 0 <= b < e /\ e < LLONG_MAX
  | Truncates n => 0 <= n < LLONG_MAX
  | Resyncs => True
  end.
(** The tracked size that the operation may set: when it has seen [seen] bytes *)
Definition may_set (o : op) (seen size : Z) : Prop :=
  match o with
  | Reads _ _ => False
  | Writes _ e => seen < e /\ size = e
  | Truncates n => size = n
  | Resyncs => 0 <= size < LLONG_MAX
  end.

(** How far an operation is: outside; in [LockTrackinglen] before and after it got the
    sizes; in [Wait], before it looks at [nBlockedBy] and while it sleeps; with its range;
    in [RemoveRange], with the ranges its loop has still to look at. *)
Inductive phase := Idle | Entering | Adding | Waiting | Asleep | Held | Removing (l : list nat).

#[export] Instance phase_eq_dec : EqDecision phase.
Proof. solve_decision. Defined.

Record guard := MkGuard { g_op : op; g_phase : phase; rp_ : nat; seen_ : Z; locked_ : bool; set_ : option Z }.
Definition set_phase (ph : phase) (g : guard) : guard := MkGuard (g_op g) ph (rp_ g) (seen_ g) (locked_ g) (set_ g).
Definition unlocked (g : guard) : guard := MkGuard (g_op g) (g_phase g) (rp_ g) (seen_ g) false (set_ g).
Definition has_set (n : Z) (g : guard) : guard := MkGuard (g_op g) (g_phase g) (rp_ g) (seen_ g) (locked_ g) (Some n).

(** The pages of a guard. *)
Definition g_pages (g : guard) : Z * Z := lock_pages (op_range (g_op g)).1 (op_range (g_op g)).2 (seen_ g).

(** [cv.notify_one()] of the range [q]: the operation that sleeps there looks again *)
Definition notify (q : nat) (g : guard) : guard :=
  match g_phase g with
  | Asleep => if decide (rp_ g = q) then set_phase Waiting g else g
  | _ => g
  end.

(** The ranges, the tracked size, [tsforupdate_], who holds [rangeaddmtx_] and [rmtx_],
    and the guards of the operations. *)
Record pages := MkPages { R_ : XrdOssCsiRanges; tracked : Z; forupdate : bool; rangeaddmtx_ : option nat; rmtx_ : option nat;
                          guards : list guard }.

Definition put_guard (i : nat) (g : guard) (s : pages) : pages :=
  MkPages (R_ s) (tracked s) (forupdate s) (rangeaddmtx_ s) (rmtx_ s) (<[i := g]> (guards s)).

(** ** The steps *)

(** What operations that have begun do. *)
Inductive busy (s : pages) : pages -> Prop :=
  (** [TrackedSizesGet( sizes, !rdonly )] *)
  | b_sizes i g : guards s !! i = Some g -> g_phase g = Entering -> forupdate s = false ->
      busy s (MkPages (R_ s) (tracked s) (negb (op_rdonly (g_op g))) (rangeaddmtx_ s) (rmtx_ s)
                (<[i := MkGuard (g_op g) Adding 0 (tracked s) false None]> (guards s)))
  (** [AddRange], [TrackedSizeRelease] and [SetTrackingInfo] *)
  | b_add i g p R : guards s !! i = Some g -> g_phase g = Adding -> rmtx_ s = None ->
      AddRange (g_pages g).1 (g_pages g).2 (op_rdonly (g_op g)) (R_ s) = (p, R) ->
      let unlock := negb (op_rdonly (g_op g)) && ((op_range (g_op g)).2 <=? seen_ g) in
      busy s (MkPages R (tracked s) (if unlock then false else forupdate s) None (rmtx_ s)
                (<[i := MkGuard (g_op g) Waiting p (seen_ g) (negb (op_rdonly (g_op g)) && negb unlock) None]> (guards s)))
  (** A look at [nBlockedBy] in [Wait] *)
  | b_check i g : guards s !! i = Some g -> g_phase g = Waiting ->
      busy s (put_guard i (set_phase (if 0 <? nBlockedBy (obj (R_ s) (rp_ g)) then Asleep else Held) g) s)
  (** [LockSetTrackedSize], [LockTruncateSize], [LockResetSizes] *)
  | b_set i g n : guards s !! i = Some g -> g_phase g = Held -> locked_ g = true -> set_ g = None -> may_set (g_op g) (seen_ g) n ->
      busy s (MkPages (R_ s) n (forupdate s) (rangeaddmtx_ s) (rmtx_ s) (<[i := has_set n g]> (guards s)))
  (** [unlockTrackinglen()] *)
  | b_unlock i g : guards s !! i = Some g -> g_phase g = Held -> locked_ g = true ->
      busy s (MkPages (R_ s) (tracked s) false (rangeaddmtx_ s) (rmtx_ s) (<[i := unlocked g]> (guards s)))
  (** [RemoveRange( rp )]: the range leaves the queue *)
  | b_remove i g : guards s !! i = Some g -> g_phase g = Held -> locked_ g = false -> rmtx_ s = None ->
      busy s (MkPages (set_ranges (erase (rp_ g) (ranges_ (R_ s))) (R_ s)) (tracked s) (forupdate s) (rangeaddmtx_ s) (Some i)
                (<[i := set_phase (Removing (erase (rp_ g) (ranges_ (R_ s)))) g]> (guards s)))
  (** a turn of its loop *)
  | b_unblock i g q l woken R : guards s !! i = Some g -> g_phase g = Removing (q :: l) -> unblock (rp_ g) q (R_ s) = (woken, R) ->
      busy s (MkPages R (tracked s) (forupdate s) (rangeaddmtx_ s) (rmtx_ s)
                (<[i := set_phase (Removing l) g]> (if woken : bool then notify q <$> guards s else guards s)))
  (** and its end *)
  | b_recycle i g : guards s !! i = Some g -> g_phase g = Removing [] ->
      busy s (MkPages (RecycleRange (rp_ g) (R_ s)) (tracked s) (forupdate s) (rangeaddmtx_ s) None
                (<[i := set_phase Idle g]> (guards s))).

(** Operations also begin, and [cv.wait] may return without a reason. *)
Inductive step (s : pages) : pages -> Prop :=
  | s_busy s' : busy s s' -> step s s'
  | s_enter i g o : guards s !! i = Some g -> g_phase g = Idle -> op_ok o -> rangeaddmtx_ s = None ->
      step s (MkPages (R_ s) (tracked s) (forupdate s) (Some i) (rmtx_ s) (<[i := MkGuard o Entering 0 0 false None]> (guards s)))
  | s_awake i g : guards s !! i = Some g -> g_phase g = Asleep -> step s (put_guard i (set_phase Waiting g) s).

(** A file of so many tracked bytes, and so many threads. *)
Definition initial (size : Z) (n : nat) : pages :=
  MkPages (MkRanges [] [] []) size false None None (replicate n (MkGuard Resyncs Idle 0 0 false None)).

Definition reachable (size : Z) (n : nat) (s : pages) : Prop := rtc step (initial size n) s.

(** ** The counts of the queue *)

(** How many ranges of a list conflict with one. *)
Definition blocking (R : XrdOssCsiRanges) (q : nat) (l : list nat) : Z :=
  Z.of_nat (length (filter (fun x => conflicts (obj R x) (obj R q) = true) l)).

(** One that is being removed still counts for the ranges that its loop will look at. *)
Definition pending (R : XrdOssCsiRanges) (rem : option (nat * list nat)) (q : nat) : Z :=
  match rem with
  | Some (p, l) => if bool_decide (q ∈ l) && conflicts (obj R p) (obj R q) then 1 else 0
  | None => 0
  end.

Record queue_ok (R : XrdOssCsiRanges) (rem : option (nat * list nat)) : Prop := {
  q_nodup : NoDup (ranges_ R ++ allocList_ R ++ match rem with Some (p, _) => [p] | None => [] end);
  q_bound : forall p, p ∈ ranges_ R ++ allocList_ R ++ match rem with Some (p, _) => [p] | None => [] end -> (p < length (objs R))%nat;
  q_count : forall l1 q l2, ranges_ R = l1 ++ q :: l2 -> nBlockedBy (obj R q) = blocking R q l1 + pending R rem q;
  q_rem : forall p l, rem = Some (p, l) -> exists k, ranges_ R = k ++ l }.

(** The two ends of a range and its kind do not change while it is in the queue. *)
Definition span (o : XrdOssCsiRange_s) : Z * Z * bool := (start o, end_ o, rdonly o).

Lemma conflicts_span a b a' b' : span a = span a' -> span b = span b' -> conflicts a b = conflicts a' b'.
Proof. destruct a, b, a', b'. unfold span, conflicts. cbn. congruence. Qed.

Lemma conflicts_sym a b : conflicts a b = conflicts b a.
Proof. unfold conflicts. rewrite (andb_comm (rdonly a)). f_equal. apply andb_comm. Qed.

Lemma filter_ext_in {A} (P Q : A -> Prop) `{!forall x, Decision (P x), !forall x, Decision (Q x)} (l : list A) :
  (forall x, x ∈ l -> P x <-> Q x) -> filter P l = filter Q l.
Proof.
  intros Hl. induction l as [|x l IH]; [done|]. rewrite !filter_cons, IH by (intros y Hy; apply Hl; by right).
  specialize (Hl x ltac:(left)). repeat case_decide; tauto.
Qed.

Lemma blocking_span R R' q l : span (obj R q) = span (obj R' q) -> (forall x, x ∈ l -> span (obj R x) = span (obj R' x)) ->
  blocking R q l = blocking R' q l.
Proof.
  intros Hq Hl. unfold blocking. do 2 f_equal. apply filter_ext_in. intros x Hx. by rewrite (conflicts_span _ _ _ _ (Hl x Hx) Hq).
Qed.

Lemma blocking_nonneg R q l : 0 <= blocking R q l.
Proof. unfold blocking. lia. Qed.

Lemma blocking_0 R q l : blocking R q l = 0 -> forall x, x ∈ l -> conflicts (obj R x) (obj R q) = false.
Proof.
  intros H x Hx. apply not_true_is_false. intros Hc. unfold blocking in H.
  assert (x ∈ filter (fun x => conflicts (obj R x) (obj R q) = true) l) as Hf by by apply list_elem_of_filter.
  destruct (filter _ l); [by inversion Hf|done].
Qed.

Lemma blocking_app R q l k : blocking R q (l ++ k) = blocking R q l + blocking R q k.
Proof. unfold blocking. rewrite filter_app, length_app. lia. Qed.

Lemma obj_insert R p o l k : (p < length (objs R))%nat -> obj (MkRanges (<[p:=o]> (objs R)) l k) p = o.
Proof. intros Hp. unfold obj. cbn. by rewrite list_lookup_insert_eq. Qed.

Lemma obj_insert_ne R p q o l k : p <> q -> obj (MkRanges (<[p:=o]> (objs R)) l k) q = obj R q.
Proof. intros Hp. unfold obj. cbn. by rewrite list_lookup_insert_ne. Qed.

Lemma erase_split p l k : p ∉ l -> erase p (l ++ p :: k) = l ++ k.
Proof.
  induction l as [|x l IH]; cbn; intros Hn; [by rewrite decide_True|].
  rewrite decide_False, IH; [done| |]; intros ?; apply Hn; subst; [by right|left].
Qed.

(** Decomposing a list at two places. *)
Lemma split_last {A} (l : list A) x l1 q l2 : l ++ [x] = l1 ++ q :: l2 -> (l2 = [] /\ q = x /\ l1 = l) \/ exists l2', l2 = l2' ++ [x] /\ l = l1 ++ q :: l2'.
Proof.
  destruct l2 as [|y l2 _] using rev_ind; intros H.
  - apply app_inj_tail in H as [-> ->]. by left.
  - right. exists l2. rewrite app_comm_cons, app_assoc in H. by apply app_inj_tail in H as [-> ->].
Qed.

Lemma split_middle {A} (a b : list A) l1 q l2 : a ++ b = l1 ++ q :: l2 ->
  (exists m, a = l1 ++ q :: m /\ l2 = m ++ b) \/ (exists m, l1 = a ++ m /\ b = m ++ q :: l2).
Proof.
  revert l1. induction a as [|x a IH]; intros l1 H; cbn in H.
  - right. by exists l1.
  - destruct l1 as [|y l1]; cbn in H; injection H as -> H.
    + left. by exists a.
    + destruct (IH _ H) as [(m & -> & ->)|(m & -> & ->)]; [left|right]; (by exists m).
Qed.

(** ** What each operation does to the queue *)

Lemma AllocRange_spec R p R' : queue_ok R None -> AllocRange R = (p, R') ->
  ranges_ R' = ranges_ R /\ (p < length (objs R'))%nat /\ (forall q, obj R' q = obj R q) /\ (length (objs R) <= length (objs R'))%nat /\
  NoDup (ranges_ R ++ allocList_ R' ++ [p]) /\ (forall q, q ∈ allocList_ R' -> q ∈ allocList_ R).
Proof.
  intros [Hnd Hb _ _] HA. unfold AllocRange in HA. cbn in *. rewrite app_nil_r in *. destruct (allocList_ R) as [|x l] eqn:E; injection HA as <- <-; cbn.
  - rewrite app_nil_r in *. rewrite length_app. cbn. split_and!; [done|lia| |lia| |done].
    + intros q. unfold obj. cbn. destruct (decide (q < length (objs R))%nat) as [Hq|Hq]; [by rewrite lookup_app_l|].
      rewrite (lookup_ge_None_2 (objs R)) by lia. rewrite lookup_app_r by lia.
      destruct (q - length (objs R))%nat as [|k]; [done|]. by rewrite lookup_ge_None_2 by (cbn; lia).
    + apply NoDup_app. split; [done|]. split; [|apply NoDup_singleton].
      intros q Hq Hin. apply list_elem_of_singleton in Hin as ->. pose proof (Hb _ Hq). lia.
  - split_and!; [done| |done|done| |].
    + apply Hb. set_solver.
    + by rewrite <- Permutation_cons_append.
    + intros q Hq. by right.
Qed.

Lemma AddRange_ok R s e ro p R' : queue_ok R None -> AddRange s e ro R = (p, R') ->
  queue_ok R' None /\ ranges_ R' = ranges_ R ++ [p] /\ (p ∉ ranges_ R) /\ (forall q, q <> p -> obj R' q = obj R q) /\ span (obj R' p) = (s, e, ro).
Proof.
  intros Hq. unfold AddRange. destruct (AllocRange R) as [p' R1] eqn:E. intros HA. injection HA as -> <-.
  destruct (AllocRange_spec _ _ _ Hq E) as (Hr & Hp & Ho & Hl & Hnd & Hal). rewrite Hr.
  set (o := MkRange s e ro _).
  assert (forall q, q <> p -> obj (MkRanges (<[p:=o]> (objs R1)) (ranges_ R ++ [p]) (allocList_ R1)) q = obj R q) as Hne.
  { intros q Hqp. rewrite obj_insert_ne by done. apply Ho. }
  assert (obj (MkRanges (<[p:=o]> (objs R1)) (ranges_ R ++ [p]) (allocList_ R1)) p = o) as Heq by by apply obj_insert.
  assert (p ∉ ranges_ R) as Hnp.
  { apply NoDup_app in Hnd as (_ & Hd & _). intros Hin. apply (Hd p Hin). set_solver. }
  split; [|split_and!; [done..|by rewrite Heq]]. split; cbn.
  - rewrite app_nil_r, <- app_assoc. cbn. by rewrite Permutation_cons_append.
  - rewrite app_nil_r. intros q. rewrite length_insert. rewrite !elem_of_app, list_elem_of_singleton.
    intros [[Hin| ->]|Hin]; [|done|]; apply Nat.lt_le_trans with (2 := Hl), (q_bound _ _ Hq); cbn; set_solver.
  - intros l1 q l2 Hs. rewrite Z.add_0_r. apply split_last in Hs as [(-> & -> & ->)|(l2' & -> & Hs)].
    + rewrite Heq. cbn. unfold blocking. do 2 f_equal. apply filter_ext_in. intros x Hx. rewrite Heq, Hne; [done|by intros ->].
    + assert (q <> p) as Hqp by (intros ->; rewrite Hs in Hnp; set_solver). rewrite Hne, (q_count _ _ Hq _ _ _ Hs) by done.
      cbn. rewrite Z.add_0_r. apply blocking_span; [by rewrite Hne|]. intros x Hx. rewrite Hne; [done|]. intros ->. rewrite Hs in Hnp. set_solver.
  - done.
Qed.

Lemma held_ahead R rem p l1 l2 : queue_ok R rem -> ranges_ R = l1 ++ p :: l2 -> nBlockedBy (obj R p) = 0 ->
  forall x, x ∈ l1 -> conflicts (obj R x) (obj R p) = false.
Proof.
  intros Hq Hs Hn. apply blocking_0. pose proof (q_count _ _ Hq _ _ _ Hs) as H. rewrite Hn in H.
  pose proof (blocking_nonneg R p l1). unfold pending in H. destruct rem as [[]|]; [destruct (_ && _)|]; lia.
Qed.

(** Two ranges that both have no other to wait for do not conflict. *)
Lemma held_exclusive R rem p q : queue_ok R rem -> p ∈ ranges_ R -> q ∈ ranges_ R -> p <> q ->
  nBlockedBy (obj R p) = 0 -> nBlockedBy (obj R q) = 0 -> conflicts (obj R p) (obj R q) = false.
Proof.
  intros Hq Hp Hqr Hne Hnp Hnq. apply list_elem_of_split in Hp as (l1 & l2 & Hs). pose proof Hqr as Hin. rewrite Hs in Hin.
  apply elem_of_app in Hin as [Hin|Hin].
  - rewrite conflicts_sym. by eapply held_ahead.
  - apply elem_of_cons in Hin as [->|Hin]; [done|]. apply list_elem_of_split in Hin as (m & k & ->).
    rewrite app_comm_cons, app_assoc in Hs. eapply held_ahead; [done|exact Hs|done|]. set_solver.
Qed.

Lemma queue_first R p l : queue_ok R None -> ranges_ R = p :: l -> nBlockedBy (obj R p) = 0.
Proof. intros Hq Hs. by rewrite (q_count _ _ Hq [] p l Hs). Qed.

Lemma removed_ok R p : queue_ok R None -> p ∈ ranges_ R -> nBlockedBy (obj R p) = 0 ->
  queue_ok (set_ranges (erase p (ranges_ R)) R) (Some (p, erase p (ranges_ R))) /\
  (forall q, q ∈ erase p (ranges_ R) <-> q ∈ ranges_ R /\ q <> p).
Proof.
  intros Hq Hp Hn. apply list_elem_of_split in Hp as (a & b & Hs).
  pose proof (q_nodup _ _ Hq) as Hnd. cbn in Hnd. rewrite app_nil_r, Hs in Hnd.
  assert (p ∉ a ++ b) as Hnp by (apply NoDup_app in Hnd as [Hnd _]; rewrite <- Permutation_middle in Hnd; by inversion Hnd).
  assert (p ∉ a) as Hna by set_solver. rewrite Hs, erase_split by done.
  split; [split; cbn|].
  - rewrite <- Permutation_middle in Hnd. cbn in Hnd. rewrite <- app_assoc in Hnd |- *.
    rewrite app_assoc, app_assoc. rewrite <- Permutation_cons_append. by rewrite <- app_assoc.
  - intros q Hin. apply (q_bound _ _ Hq). cbn. rewrite Hs. set_solver.
  - intros l1 q l2 He. change (obj (set_ranges _ R)) with (obj R). change (blocking (set_ranges _ R)) with (blocking R).
    apply split_middle in He as [(m & -> & ->)|(m & -> & ->)].
    + rewrite (q_count _ _ Hq l1 q (m ++ p :: b)) by (rewrite Hs, <- app_assoc; done). f_equal. unfold pending. cbn.
      assert (conflicts (obj R p) (obj R q) = false) as Hc.
      { rewrite conflicts_sym. eapply held_ahead; [done|exact Hs|done|set_solver]. }
      change (obj (set_ranges _ R)) with (obj R). by rewrite Hc, andb_false_r.
    + rewrite (q_count _ _ Hq (a ++ p :: m) q l2) by (rewrite Hs, <- app_assoc; done). cbn.
      rewrite bool_decide_eq_true_2 by set_solver. rewrite !blocking_app.
      change (obj (set_ranges _ R)) with (obj R).
      rewrite Z.add_0_r. cbn. change (p :: m) with ([p] ++ m). rewrite blocking_app. unfold blocking at 2. rewrite filter_cons. cbn.
      destruct (conflicts (obj R p) (obj R q)); case_decide; try done; cbn; lia.
  - intros ? ? [= <- <-]. by exists [].
  - intros q. set_solver.
Qed.

Lemma unblock_ok R p q l woken R' : queue_ok R (Some (p, q :: l)) -> unblock p q R = (woken, R') ->
  queue_ok R' (Some (p, l)) /\ ranges_ R' = ranges_ R /\ (forall x, x <> q -> obj R' x = obj R x) /\ span (obj R' q) = span (obj R q) /\
  0 <= nBlockedBy (obj R' q) /\
  (if conflicts (obj R q) (obj R p) then nBlockedBy (obj R q) = nBlockedBy (obj R' q) + 1 /\ (woken = true <-> nBlockedBy (obj R' q) = 0)
   else R' = R /\ woken = false).
Proof.
  intros Hq Hu. pose proof Hq as [Hnd Hb Hc Hr].
  destruct (Hr _ _ eq_refl) as [k Hk].
  assert (q < length (objs R))%nat as Hlt by (apply Hb; rewrite Hk; set_solver).
  assert (NoDup (k ++ q :: l)) as Hkl by (rewrite <- Hk; apply NoDup_app in Hnd; by destruct Hnd).
  assert (q ∉ l) as Hql by (apply NoDup_app in Hkl as (_ & _ & Hkl); by inversion Hkl).
  assert (p <> q) as Hpq.
  { intros ->. apply NoDup_app in Hnd as (_ & Hd & _). apply (Hd q); [rewrite Hk; set_solver|set_solver]. }
  assert (exists o', span o' = span (obj R q) /\ R' = MkRanges (<[q:=o']> (objs R)) (ranges_ R) (allocList_ R) /\
    nBlockedBy o' = nBlockedBy (obj R q) - (if conflicts (obj R q) (obj R p) then 1 else 0) /\
    woken = conflicts (obj R q) (obj R p) && (nBlockedBy o' =? 0) /\ (conflicts (obj R q) (obj R p) = false -> R' = R)) as (o' & Ho & HR & Hn & Hw & Hsame).
  { unfold unblock in Hu. destruct (conflicts (obj R q) (obj R p)) eqn:E; injection Hu as <- <-.
    - by eexists (MkRange _ _ _ _).
    - exists (obj R q). split_and!; [done| |lia|done|done]. destruct R as [os rs al]. cbn. f_equal. symmetry. apply list_insert_id.
      unfold obj. cbn in *. destruct (os !! q) eqn:Eq; [done|]. apply lookup_ge_None in Eq. lia. }
  assert (obj R' q = o') as Heq by (rewrite HR; by apply obj_insert).
  assert (forall x, x <> q -> obj R' x = obj R x) as Hne by (intros x Hx; rewrite HR; by apply obj_insert_ne).
  assert (forall x, span (obj R' x) = span (obj R x)) as Hspan.
  { intros x. destruct (decide (x = q)) as [->|]; [by rewrite Heq|by rewrite Hne]. }
  assert (ranges_ R' = ranges_ R) as Hrr by by rewrite HR.
  assert (conflicts (obj R p) (obj R q) = conflicts (obj R q) (obj R p)) as Hcs by apply conflicts_sym.
  assert (forall l1 x l2, ranges_ R' = l1 ++ x :: l2 -> nBlockedBy (obj R' x) = blocking R' x l1 + pending R' (Some (p, l)) x) as Hcount.
  { intros l1 x l2 Hs. rewrite (blocking_span R' R) by auto. rewrite Hrr in Hs. specialize (Hc _ _ _ Hs). unfold pending in Hc |- *.
    rewrite (conflicts_span (obj R' p) (obj R' x) (obj R p) (obj R x)) by auto. destruct (decide (x = q)) as [->|Hx].
    - rewrite bool_decide_eq_true_2 in Hc by left. rewrite bool_decide_eq_false_2 by done. rewrite Heq, Hn, Hc, Hcs. cbn. destruct (conflicts _ _); lia.
    - rewrite Hne, Hc by done. rewrite (bool_decide_ext (x ∈ q :: l) (x ∈ l)); [done|]. set_solver. }
  split_and!; [split| | | | |].
  - by rewrite HR.
  - rewrite HR. cbn. rewrite length_insert. exact Hb.
  - exact Hcount.
  - intros ? ? [= <- <-]. exists (k ++ [q]). by rewrite Hrr, Hk, <- app_assoc.
  - done.
  - done.
  - by rewrite Heq.
  - rewrite (Hcount k q l) by by rewrite Hrr. pose proof (blocking_nonneg R' q k). unfold pending. match goal with |- context [if ?b then 1 else 0] => destruct b end; lia.
  - rewrite Heq. destruct (conflicts (obj R q) (obj R p)); [|split; [by apply Hsame|done]]. split; [lia|]. rewrite Hw. cbn. apply Z.eqb_eq.
Qed.

Lemma recycled_ok R p : queue_ok R (Some (p, [])) -> queue_ok (RecycleRange p R) None.
Proof.
  intros [Hnd Hb Hc Hr]. split; cbn.
  - rewrite app_nil_r. by rewrite (Permutation_cons_append (allocList_ R)).
  - intros q Hq. apply Hb. set_solver.
  - intros l1 q l2 Hs. specialize (Hc _ _ _ Hs). unfold pending in Hc. rewrite bool_decide_eq_false_2 in Hc by set_solver. exact Hc.
  - done.
Qed.

(** ** The tracked bytes of a page *)

Definition fill (size p : Z) : Z := Z.max 0 (Z.min PageSize (size - p * PageSize)).

(** What an operation may do to the tracked size is felt on the pages it has locked only. *)
Lemma set_inside o seen n p : op_ok o -> 0 <= seen < LLONG_MAX -> may_set o seen n ->
  0 <= n < LLONG_MAX /\
  (fill seen p <> fill n p -> (lock_pages (op_range o).1 (op_range o).2 seen).1 <= p <= (lock_pages (op_range o).1 (op_range o).2 seen).2).
Proof.
  destruct o as [b e|b e|k|]; cbn [op_ok may_set op_range fst snd]; unfold fill, lock_pages, LLONG_MAX, PageSize; intros Ho Hs Hm; [done| | |].
  - destruct Hm as [Hm ->]. split; [lia|]. intros Hf. destruct (Z.ltb_spec seen b), (Z.eqb_spec (e mod 4096) 0); cbn [fst snd]; lia_div.
  - subst n. split; [lia|]. intros Hf. destruct (Z.ltb_spec seen k), (Z.eqb_spec ((2 ^ 63 - 1) mod 4096) 0); cbn [fst snd]; lia_div.
  - split; [lia|]. intros Hf. destruct (Z.ltb_spec seen 0), (Z.eqb_spec ((2 ^ 63 - 1) mod 4096) 0); cbn [fst snd]; lia_div.
Qed.

(** ** The invariant of the steps *)

Definition active (g : guard) : Prop := match g_phase g with Waiting | Asleep | Held => True | _ => False end.

(** The tracked size as far as the operation knows: what it set, or else what it saw. *)
Definition knows (g : guard) : Z := default (seen_ g) (set_ g).

(** A range in the queue, and its guard. *)
Record queued (s : pages) (g : guard) : Prop := {
  u_op : op_ok (g_op g);
  u_seen : 0 <= seen_ g < LLONG_MAX;
  u_in : rp_ g ∈ ranges_ (R_ s);
  u_span : span (obj (R_ s) (rp_ g)) = (g_pages g, op_rdonly (g_op g));
  u_fill : forall p, (g_pages g).1 <= p <= (g_pages g).2 -> fill (knows g) p = fill (tracked s) p;
  u_lock : locked_ g = true -> forupdate s = true /\ op_rdonly (g_op g) = false /\ knows g = tracked s /\
             exists l, ranges_ (R_ s) = l ++ [rp_ g] }.

Definition guard_ok (s : pages) (i : nat) (g : guard) : Prop :=
  match g_phase g with
  | Idle => locked_ g = false
  | Entering => rangeaddmtx_ s = Some i /\ op_ok (g_op g) /\ locked_ g = false
  | Adding => rangeaddmtx_ s = Some i /\ op_ok (g_op g) /\ locked_ g = false /\ seen_ g = tracked s /\
              forupdate s = negb (op_rdonly (g_op g)) /\ (forall j h, guards s !! j = Some h -> locked_ h = false)
  | Waiting => queued s g /\ 0 <= nBlockedBy (obj (R_ s) (rp_ g)) /\ set_ g = None
  | Asleep => queued s g /\ 0 < nBlockedBy (obj (R_ s) (rp_ g)) /\ set_ g = None
  | Held => queued s g /\ nBlockedBy (obj (R_ s) (rp_ g)) = 0
  | Removing l => rmtx_ s = Some i /\ locked_ g = false
  end.

(** What [RemoveRange] has left to do. *)
Definition removing (s : pages) : option (nat * list nat) :=
  match rmtx_ s with
  | Some i => match guards s !! i with
              | Some g => match g_phase g with Removing l => Some (rp_ g, l) | _ => None end
              | None => None
              end
  | None => None
  end.

Record wf (s : pages) : Prop := {
  w_tracked : 0 <= tracked s < LLONG_MAX;
  w_queue : queue_ok (R_ s) (removing s) /\ (removing s = None -> rmtx_ s = None);
  w_guards : forall i g, guards s !! i = Some g -> guard_ok s i g;
  w_owner : forall p, p ∈ ranges_ (R_ s) -> exists i g, guards s !! i = Some g /\ active g /\ rp_ g = p;
  w_inj : forall i j g h, guards s !! i = Some g -> guards s !! j = Some h -> active g -> active h -> rp_ g = rp_ h -> i = j;
  w_locked : forall i j g h, guards s !! i = Some g -> guards s !! j = Some h -> locked_ g = true -> locked_ h = true -> i = j;
  w_forupdate : forupdate s = true -> exists i g, guards s !! i = Some g /\
                  (locked_ g = true \/ g_phase g = Adding /\ op_rdonly (g_op g) = false) }.

(** The same queue and the same sizes as far as a guard is concerned. *)
Lemma queued_same s s' g : queued s g -> rp_ g ∈ ranges_ (R_ s') ->
  span (obj (R_ s') (rp_ g)) = span (obj (R_ s) (rp_ g)) ->
  (forall p, (g_pages g).1 <= p <= (g_pages g).2 -> fill (tracked s) p = fill (tracked s') p) ->
  (locked_ g = true -> forupdate s' = forupdate s /\ tracked s' = tracked s /\ exists l, ranges_ (R_ s') = l ++ [rp_ g]) ->
  queued s' g.
Proof.
  intros [H1 H2 H3 H4 H5 H6] Hin Hsp Hf Hl. split; [done..|congruence| |].
  - intros p Hp. rewrite H5 by done. by apply Hf.
  - intros Hk. destruct (H6 Hk) as (F & Fr & Fk & _), (Hl Hk) as (E1 & E2 & E3). split_and!; [congruence|done|congruence|done].
Qed.

(** A guard other than the one that does the step, when its range and what it knows stay. *)
Lemma guard_same s s' i g : guard_ok s i g ->
  (active g -> rp_ g ∈ ranges_ (R_ s') /\ span (obj (R_ s') (rp_ g)) = span (obj (R_ s) (rp_ g)) /\
     nBlockedBy (obj (R_ s') (rp_ g)) = nBlockedBy (obj (R_ s) (rp_ g)) /\
     (forall p, (g_pages g).1 <= p <= (g_pages g).2 -> fill (tracked s) p = fill (tracked s') p) /\
     (locked_ g = true -> forupdate s' = forupdate s /\ tracked s' = tracked s /\ exists l, ranges_ (R_ s') = l ++ [rp_ g])) ->
  (rangeaddmtx_ s = Some i -> rangeaddmtx_ s' = Some i) ->
  (forall l, g_phase g = Removing l -> rmtx_ s = Some i -> rmtx_ s' = Some i) ->
  (g_phase g = Adding -> rangeaddmtx_ s = Some i -> tracked s' = tracked s /\ forupdate s' = forupdate s /\
     ((forall j h, guards s !! j = Some h -> locked_ h = false) -> forall j h, guards s' !! j = Some h -> locked_ h = false)) ->
  guard_ok s' i g.
Proof.
  unfold guard_ok, active. intros Hg Ha Hr Hm Hadd. destruct (g_phase g) eqn:Ep.
  - done.
  - naive_solver.
  - destruct Hg as (G1 & G2 & G3 & G4 & G5 & G6), (Hadd eq_refl G1) as (E1 & E2 & E3). split_and!; [auto|done|done|congruence|congruence|]. by apply E3.
  - destruct Hg as (G1 & G2 & G3), (Ha I) as (A1 & A2 & A3 & A4 & A5). split_and!; [by eapply queued_same|lia|done].
  - destruct Hg as (G1 & G2 & G3), (Ha I) as (A1 & A2 & A3 & A4 & A5). split_and!; [by eapply queued_same|lia|done].
  - destruct Hg as (G1 & G2), (Ha I) as (A1 & A2 & A3 & A4 & A5). split_and!; [by eapply queued_same|lia].
  - destruct Hg as (G1 & G2). split; [by eapply Hm|done].
Qed.

(** The guards after one of them has changed. *)
Lemma lookup_put {A} (l : list A) i x j y : <[i:=x]> l !! j = Some y -> (i = j /\ x = y) \/ (i <> j /\ l !! j = Some y).
Proof.
  destruct (decide (i = j)) as [->|Hne].
  - intros H. assert (j < length l)%nat as Hl by (apply lookup_lt_Some in H; by rewrite length_insert in H).
    rewrite list_lookup_insert_eq in H by done. left. split; congruence.
  - rewrite list_lookup_insert_ne by done. by right.
Qed.

Lemma active_in s i g : wf s -> guards s !! i = Some g -> active g -> queued s g.
Proof.
  intros Hw Hg Ha. pose proof (w_guards _ Hw _ _ Hg) as H. unfold guard_ok, active in *. destruct (g_phase g); try done; apply H.
Qed.

Lemma locked_active s i g : wf s -> guards s !! i = Some g -> locked_ g = true -> active g /\ forupdate s = true.
Proof.
  intros Hw Hg Hl. pose proof (w_guards _ Hw _ _ Hg) as H. assert (active g) as Ha.
  { unfold guard_ok, active in *. destruct (g_phase g); try done; exfalso; [congruence|destruct H as (_ & _ & H)..|destruct H as (_ & H)]; try congruence. destruct H as [H _]; congruence. }
  split; [done|]. by apply (u_lock _ _ (active_in _ _ _ Hw Hg Ha)).
Qed.

(** A step that changes one guard keeps the invariant when it keeps that of the guards, and
    the range and the lock of this guard are what they were, or new. *)
Lemma wf_put s s' i g g' : wf s -> guards s !! i = Some g -> guards s' = <[i:=g']> (guards s) ->
  0 <= tracked s' < LLONG_MAX -> queue_ok (R_ s') (removing s') /\ (removing s' = None -> rmtx_ s' = None) -> guard_ok s' i g' ->
  (forall j h, j <> i -> guards s !! j = Some h -> guard_ok s' j h) ->
  (forall p, p ∈ ranges_ (R_ s') -> p ∈ ranges_ (R_ s) /\ (active g -> rp_ g = p -> active g' /\ rp_ g' = p) \/ active g' /\ rp_ g' = p) ->
  (active g' -> active g /\ rp_ g' = rp_ g \/ rp_ g' ∉ ranges_ (R_ s)) ->
  (locked_ g' = true -> locked_ g = true \/ forall j h, guards s !! j = Some h -> locked_ h = false) ->
  (forupdate s' = true -> (locked_ g' = true \/ g_phase g' = Adding /\ op_rdonly (g_op g') = false) \/
     forupdate s = true /\ ~ (locked_ g = true \/ g_phase g = Adding /\ op_rdonly (g_op g) = false)) ->
  wf s'.
Proof.
  intros Hw Hg Hgs Ht Hq Hg' Ho Hown Hinj Hlk Hfu. assert (i < length (guards s))%nat as Hi by by eapply lookup_lt_Some.
  assert (guards s' !! i = Some g') as Hgi by (rewrite Hgs; by apply list_lookup_insert_eq).
  assert (forall j h, i <> j -> guards s !! j = Some h -> guards s' !! j = Some h) as Hgj by (intros j h Hj Hh; rewrite Hgs; by rewrite list_lookup_insert_ne).
  assert (forall j h, i <> j -> guards s !! j = Some h -> active g' -> active h -> rp_ g' = rp_ h -> False) as Hdiff.
  { intros j h Hj Hh Ha Hah He. destruct (Hinj Ha) as [[Ha' E]|E].
    - apply Hj. eapply (w_inj _ Hw); try done. congruence.
    - apply E. rewrite He. by apply (u_in _ _ (active_in _ _ _ Hw Hh Hah)). }
  split.
  - done.
  - done.
  - intros j h Hj. rewrite Hgs in Hj. apply lookup_put in Hj as [[<- <-]|[Hne Hj]]; [done|]. by apply Ho.
  - intros p Hp. destruct (Hown p Hp) as [[Hp' Hs]|Hs]; [|by exists i, g'].
    destruct (w_owner _ Hw p Hp') as (j & h & Hj & Ha & Hr). destruct (decide (i = j)) as [<-|Hne].
    + exists i, g'. assert (h = g) as -> by congruence. split; [done|]. by apply Hs.
    + exists j, h. auto.
  - intros j k h h' Hj Hk Ha Ha' He. rewrite Hgs in Hj, Hk. apply lookup_put in Hj as [[<- <-]|[Hne Hj]], Hk as [[<- <-]|[Hne' Hk]].
    + done.
    + exfalso. by eapply (Hdiff k).
    + exfalso. by eapply (Hdiff j).
    + by eapply (w_inj _ Hw).
  - intros j k h h' Hj Hk Ha Ha'. rewrite Hgs in Hj, Hk. apply lookup_put in Hj as [[<- <-]|[Hne Hj]], Hk as [[<- <-]|[Hne' Hk]].
    + done.
    + destruct (Hlk Ha) as [Hl|Hl]; [by eapply (w_locked _ Hw)|]. by rewrite (Hl _ _ Hk) in Ha'.
    + destruct (Hlk Ha') as [Hl|Hl]; [by eapply (w_locked _ Hw)|]. by rewrite (Hl _ _ Hj) in Ha.
    + by eapply (w_locked _ Hw).
  - intros Hf. destruct (Hfu Hf) as [Hs|[Hf' Hs]]; [by exists i, g'|].
    destruct (w_forupdate _ Hw Hf') as (j & h & Hj & Hh). exists j, h. split; [|done].
    apply Hgj; [|done]. intros <-. apply Hs. by assert (h = g) as -> by congruence.
Qed.

Definition is_removing (g : guard) : Prop := match g_phase g with Removing _ => True | _ => False end.

Lemma removing_put s s' i g g' : guards s !! i = Some g -> guards s' = <[i:=g']> (guards s) -> rmtx_ s' = rmtx_ s ->
  ~ is_removing g -> ~ is_removing g' -> removing s' = removing s.
Proof.
  intros Hg Hgs Hr Hn Hn'. unfold removing. rewrite Hr. destruct (rmtx_ s) as [j|]; [|done].
  rewrite Hgs. destruct (decide (i = j)) as [<-|Hne].
  - rewrite list_lookup_insert_eq, Hg by by eapply lookup_lt_Some. unfold is_removing in *. destruct (g_phase g), (g_phase g'); done.
  - by rewrite list_lookup_insert_ne.
Qed.

(** What a step leaves alone, for the guards that do not do it. *)
Ltac same_guard Hw j h Hj Hh Hu Hin := intros j h Hj Hh;
  eapply guard_same; [exact (w_guards _ Hw _ _ Hh)|..]; cbn;
  [let Ha := fresh "Ha" in intros Ha; pose proof (active_in _ _ _ Hw Hh Ha) as Hu; pose proof (u_in _ _ Hu) as Hin|try done..].

Lemma sizes_wf s i g : wf s -> guards s !! i = Some g -> g_phase g = Entering -> forupdate s = false ->
  wf (MkPages (R_ s) (tracked s) (negb (op_rdonly (g_op g))) (rangeaddmtx_ s) (rmtx_ s)
       (<[i := MkGuard (g_op g) Adding 0 (tracked s) false None]> (guards s))).
Proof.
  intros Hw Hg Hp Hf. pose proof (w_guards _ Hw _ _ Hg) as Hgi. unfold guard_ok in Hgi. rewrite Hp in Hgi. destruct Hgi as (Hr & Hop & Hl).
  assert (forall j h, guards s !! j = Some h -> locked_ h = false) as Hnl.
  { intros j h Hh. destruct (locked_ h) eqn:E; [|done]. destruct (locked_active _ _ _ Hw Hh E). congruence. }
  eapply (wf_put s _ i g); try done; cbn.
  - apply Hw.
  - erewrite removing_put; [apply Hw|exact Hg|done|done| |]; unfold is_removing; rewrite ?Hp; tauto.
  - split_and!; [done..|]. intros j h Hj. apply lookup_put in Hj as [[<- <-]|[_ Hj]]; [done|]. by eapply Hnl.
  - same_guard Hw j h Hj Hh Hu Hin.
    + split_and!; [done..|]. intros E. by rewrite (Hnl _ _ Hh) in E.
    + intros _ E. congruence.
  - intros p Hin. left. split; [done|]. unfold active. by rewrite Hp.
  - intros E. left. right. split; [done|]. by apply negb_true_iff.
Qed.

Lemma locked_put (l : list guard) i g g' : l !! i = Some g -> (locked_ g' = true -> locked_ g = true) ->
  (forall j h, l !! j = Some h -> locked_ h = false) -> forall j h, <[i:=g']> l !! j = Some h -> locked_ h = false.
Proof.
  intros Hg Hl Hn j h Hj. apply lookup_put in Hj as [[<- <-]|[_ Hj]]; [|by eapply Hn].
  destruct (locked_ g') eqn:E; [|done]. by rewrite <- (Hn _ _ Hg), Hl.
Qed.

Lemma removing_none s : rmtx_ s = None -> removing s = None.
Proof. intros E. unfold removing. by rewrite E. Qed.

Lemma added_wf s i g p R : wf s -> guards s !! i = Some g -> g_phase g = Adding -> rmtx_ s = None ->
  AddRange (g_pages g).1 (g_pages g).2 (op_rdonly (g_op g)) (R_ s) = (p, R) ->
  let unlock := negb (op_rdonly (g_op g)) && ((op_range (g_op g)).2 <=? seen_ g) in
  wf (MkPages R (tracked s) (if unlock then false else forupdate s) None (rmtx_ s)
       (<[i := MkGuard (g_op g) Waiting p (seen_ g) (negb (op_rdonly (g_op g)) && negb unlock) None]> (guards s))).
Proof.
  intros Hw Hg Hp Hr HA unlock. pose proof (w_guards _ Hw _ _ Hg) as Hgi. unfold guard_ok in Hgi. rewrite Hp in Hgi.
  destruct Hgi as (Hra & Hop & Hl & Hs & Hf & Hnl). pose proof (proj1 (w_queue _ Hw)) as Hq. rewrite removing_none in Hq by done.
  destruct (AddRange_ok _ _ _ _ _ _ Hq HA) as (Hq' & Hrs & Hnp & Ho & Hsp). pose proof (w_tracked _ Hw) as Ht.
  assert (0 <= nBlockedBy (obj R p)) as Hnb.
  { rewrite (q_count _ _ Hq' _ _ [] Hrs). cbn. pose proof (blocking_nonneg R p (ranges_ (R_ s))). lia. }
  eapply (wf_put s _ i g); try done; cbn.
  - split; [|done]. by rewrite removing_none.
  - split_and!; [split; cbn|done..].
    + done.
    + lia.
    + rewrite Hrs. set_solver.
    + by rewrite Hsp.
    + intros q _. by rewrite Hs.
    + intros Hk. apply andb_prop in Hk as [Hk1 Hk2]. apply negb_true_iff in Hk1, Hk2. rewrite Hk2, Hf, Hk1. split_and!; [done..|]. eauto.
  - same_guard Hw j h Hj Hh Hu Hin.
    + rewrite Hrs. assert (rp_ h <> p) by (intros <-; done). rewrite Ho by done. split_and!; [set_solver|done..|]. intros E. by rewrite (Hnl _ _ Hh) in E.
    + congruence.
    + congruence.
  - intros q. rewrite Hrs. intros [Hin|Hin]%elem_of_app; [|apply list_elem_of_singleton in Hin as ->; by right].
    left. split; [done|]. unfold active. by rewrite Hp.
  - intros _. by right.
  - intros _. by right.
  - unfold unlock. destruct (_ && _); [done|]. intros E. left. left. rewrite Hf in E. by rewrite E.
Qed.

(** A guard in the queue goes to another phase there. *)
Lemma rephase_wf s i g ph : wf s -> guards s !! i = Some g -> active g -> active (set_phase ph g) ->
  guard_ok (put_guard i (set_phase ph g) s) i (set_phase ph g) -> wf (put_guard i (set_phase ph g) s).
Proof.
  intros Hw Hg Ha Ha' Hok.
  assert (forall h, active h -> ~ is_removing h /\ g_phase h <> Adding) as Hact by (intros h; unfold active, is_removing; destruct (g_phase h); naive_solver).
  eapply (wf_put s _ i g); try done; cbn.
  - apply Hw.
  - erewrite removing_put; [apply Hw|exact Hg|done|done|by apply Hact..].
  - same_guard Hw j h Hj Hh Hu Hin.
    + split_and!; [done..|]. intros E. by destruct (u_lock _ _ Hu E) as (_ & _ & _ & ?).
    + intros _ _. split_and!; [done..|]. by eapply locked_put.
  - intros p Hin. left. split; [done|]. by intros _ <-.
  - intros _. by left.
  - intros E. by left.
  - intros E. destruct (locked_ g) eqn:El; [by left; left|]. right. split; [done|]. intros [?|[? _]]; [congruence|]. by apply (Hact g).
Qed.

Lemma queued_put s i g ph : queued s g -> queued (put_guard i (set_phase ph g) s) (set_phase ph g).
Proof. by intros []; split. Qed.

Lemma check_wf s i g : wf s -> guards s !! i = Some g -> g_phase g = Waiting ->
  wf (put_guard i (set_phase (if 0 <? nBlockedBy (obj (R_ s) (rp_ g)) then Asleep else Held) g) s).
Proof.
  intros Hw Hg Hp. pose proof (w_guards _ Hw _ _ Hg) as Hgi. unfold guard_ok in Hgi. rewrite Hp in Hgi. destruct Hgi as (Hu & Hn & Hs).
  apply rephase_wf; [done|done|by unfold active; rewrite Hp|by unfold active; cbn; destruct (0 <? _)|].
  assert (forall ph, queued (put_guard i (set_phase ph g) s) (set_phase ph g)) as Hph by (intros ph; by apply queued_put).
  unfold guard_ok. cbn [g_phase set_phase rp_ put_guard R_ set_].
  destruct (Z.ltb_spec 0 (nBlockedBy (obj (R_ s) (rp_ g)))); split_and!; try done; lia.
Qed.

Lemma awake_wf s i g : wf s -> guards s !! i = Some g -> g_phase g = Asleep -> wf (put_guard i (set_phase Waiting g) s).
Proof.
  intros Hw Hg Hp. pose proof (w_guards _ Hw _ _ Hg) as Hgi. unfold guard_ok in Hgi. rewrite Hp in Hgi. destruct Hgi as (Hu & Hn & Hs).
  apply rephase_wf; [done|done|by unfold active; rewrite Hp|done|]. cbn. split_and!; [by apply queued_put|cbn; lia|done].
Qed.

(** The pages of a guard and those of one that may write them and has its range are apart. *)
Lemma held_apart s i j g h : wf s -> guards s !! i = Some g -> guards s !! j = Some h -> i <> j ->
  g_phase g = Held -> locked_ g = true -> active h -> forall p, (g_pages h).1 <= p <= (g_pages h).2 -> ~ (g_pages g).1 <= p <= (g_pages g).2.
Proof.
  intros Hw Hg Hh Hij Hp Hl Ha p Hph Hpg. pose proof (w_guards _ Hw _ _ Hg) as Hgi. unfold guard_ok in Hgi. rewrite Hp in Hgi. destruct Hgi as (Hu & Hn).
  pose proof (active_in _ _ _ Hw Hh Ha) as Hv. destruct (u_lock _ _ Hu Hl) as (_ & Hro & _ & l & Hlast).
  assert (rp_ h ∈ l) as Hin.
  { pose proof (u_in _ _ Hv) as Hin. rewrite Hlast in Hin. apply elem_of_app in Hin as [Hin|Hin]; [done|].
    apply list_elem_of_singleton in Hin. exfalso. apply Hij. eapply (w_inj _ Hw); [exact Hg|exact Hh| |done|done]. unfold active. by rewrite Hp. }
  pose proof (held_ahead _ _ _ _ [] (proj1 (w_queue _ Hw)) Hlast Hn _ Hin) as Hc.
  pose proof (u_span _ _ Hu) as Hs1. pose proof (u_span _ _ Hv) as Hs2. unfold span in Hs1, Hs2. unfold conflicts in Hc.
  destruct (obj (R_ s) (rp_ g)), (obj (R_ s) (rp_ h)), (g_pages g), (g_pages h). cbn in *.
  injection Hs1 as -> -> ->. injection Hs2 as -> -> ->. rewrite Hro, andb_false_r in Hc. cbn in Hc. rewrite andb_true_r in Hc.
  apply andb_false_iff in Hc. rewrite !Z.leb_gt in Hc. lia.
Qed.

Lemma set_wf s i g n : wf s -> guards s !! i = Some g -> g_phase g = Held -> locked_ g = true -> set_ g = None -> may_set (g_op g) (seen_ g) n ->
  wf (MkPages (R_ s) n (forupdate s) (rangeaddmtx_ s) (rmtx_ s) (<[i := has_set n g]> (guards s))).
Proof.
  intros Hw Hg Hp Hl Hs Hm. pose proof (w_guards _ Hw _ _ Hg) as Hgi. unfold guard_ok in Hgi. rewrite Hp in Hgi. destruct Hgi as (Hu & Hn).
  assert (active g) as Ha by (unfold active; by rewrite Hp).
  destruct (u_lock _ _ Hu Hl) as (Hf & Hro & Hk & Hlast). unfold knows in Hk. rewrite Hs in Hk. cbn in Hk.
  pose proof (fun p => set_inside _ _ _ p (u_op _ _ Hu) (u_seen _ _ Hu) Hm) as Hset.
  eapply (wf_put s _ i g); try done; cbn.
  - apply (Hset 0).
  - erewrite removing_put; [apply Hw|exact Hg|done|done| |]; unfold is_removing; cbn; rewrite ?Hp; tauto.
  - unfold guard_ok. cbn. rewrite Hp. split; [|done]. destruct Hu. split; cbn; try done.
  - same_guard Hw j h Hj Hh Hu' Hin.
    + split_and!; [done|done|done| |].
      * intros p Hph. destruct (decide (fill (tracked s) p = fill n p)) as [|Hne]; [done|]. exfalso.
        eapply (held_apart s i j); [done..|exact Hph|]. unfold g_pages. apply (Hset p). by rewrite Hk.
      * intros E. exfalso. apply Hj. by eapply (w_locked _ Hw).
    + intros E _. pose proof (w_guards _ Hw _ _ Hh) as Hk'. unfold guard_ok in Hk'. rewrite E in Hk'.
      destruct Hk' as (_ & _ & _ & _ & _ & Hnl). by rewrite (Hnl _ _ Hg) in Hl.
  - intros p Hin. left. split; [done|]. by intros _ <-.
  - intros _. by left.
  - intros E. by left.
  - intros E. by left; left.
Qed.

Lemma unlock_wf s i g : wf s -> guards s !! i = Some g -> g_phase g = Held -> locked_ g = true ->
  wf (MkPages (R_ s) (tracked s) false (rangeaddmtx_ s) (rmtx_ s) (<[i := unlocked g]> (guards s))).
Proof.
  intros Hw Hg Hp Hl. pose proof (w_guards _ Hw _ _ Hg) as Hgi. unfold guard_ok in Hgi. rewrite Hp in Hgi. destruct Hgi as (Hu & Hn).
  assert (active g) as Ha by (unfold active; by rewrite Hp).
  eapply (wf_put s _ i g); try done; cbn.
  - apply Hw.
  - erewrite removing_put; [apply Hw|exact Hg|done|done| |]; unfold is_removing; cbn; rewrite ?Hp; tauto.
  - unfold guard_ok. cbn. rewrite Hp. split; [|done]. destruct Hu. split; cbn; try done.
  - same_guard Hw j h Hj Hh Hu' Hin.
    + split_and!; [done..|]. intros E. exfalso. apply Hj. by eapply (w_locked _ Hw).
    + intros E _. pose proof (w_guards _ Hw _ _ Hh) as Hk'. unfold guard_ok in Hk'. rewrite E in Hk'.
      destruct Hk' as (_ & _ & _ & _ & _ & Hnl). by rewrite (Hnl _ _ Hg) in Hl.
  - intros p Hin. left. split; [done|]. by intros _ <-.
  - intros _. by left.
Qed.

Lemma erase_last p q l : p <> q -> exists l', erase p (l ++ [q]) = l' ++ [q].
Proof.
  intros Hne. induction l as [|x l [l' IH]]; cbn.
  - rewrite decide_False by done. by exists [].
  - destruct (decide (x = p)); [by exists l|]. rewrite IH. by exists (x :: l').
Qed.

Lemma remove_wf s i g : wf s -> guards s !! i = Some g -> g_phase g = Held -> locked_ g = false -> rmtx_ s = None ->
  wf (MkPages (set_ranges (erase (rp_ g) (ranges_ (R_ s))) (R_ s)) (tracked s) (forupdate s) (rangeaddmtx_ s) (Some i)
       (<[i := set_phase (Removing (erase (rp_ g) (ranges_ (R_ s)))) g]> (guards s))).
Proof.
  intros Hw Hg Hp Hl Hr. pose proof (w_guards _ Hw _ _ Hg) as Hgi. unfold guard_ok in Hgi. rewrite Hp in Hgi. destruct Hgi as (Hu & Hn).
  assert (active g) as Ha by (unfold active; by rewrite Hp).
  pose proof (proj1 (w_queue _ Hw)) as Hq. rewrite removing_none in Hq by done.
  destruct (removed_ok _ _ Hq (u_in _ _ Hu) Hn) as [Hq' Her].
  eapply (wf_put s _ i g); try done; cbn.
  - apply Hw.
  - unfold removing. cbn. by rewrite list_lookup_insert_eq by by eapply lookup_lt_Some.
  - same_guard Hw j h Hj Hh Hu' Hin.
    + assert (rp_ h <> rp_ g) as Hne by (intros E; apply Hj; by eapply (w_inj _ Hw)).
      split_and!; [by apply Her|done..|]. intros E. split_and!; [done..|]. destruct (u_lock _ _ Hu' E) as (_ & _ & _ & l & Hlast).
      rewrite Hlast. by apply erase_last.
    + intros l E. congruence.
    + intros _ _. split_and!; [done..|]. by eapply locked_put.
  - intros p [Hin Hne]%Her. left. split; [done|]. by intros _ <-.
  - intros E. by left.
  - intros E. right. split; [done|]. intros [?|[? _]]; congruence.
Qed.

Lemma removing_some s i g l : guards s !! i = Some g -> g_phase g = Removing l -> rmtx_ s = Some i -> removing s = Some (rp_ g, l).
Proof. intros Hg Hp Hr. unfold removing. by rewrite Hr, Hg, Hp. Qed.

Lemma recycled_wf s i g : wf s -> guards s !! i = Some g -> g_phase g = Removing [] ->
  wf (MkPages (RecycleRange (rp_ g) (R_ s)) (tracked s) (forupdate s) (rangeaddmtx_ s) None (<[i := set_phase Idle g]> (guards s))).
Proof.
  intros Hw Hg Hp. pose proof (w_guards _ Hw _ _ Hg) as Hgi. unfold guard_ok in Hgi. rewrite Hp in Hgi. destruct Hgi as (Hr & Hl).
  pose proof (proj1 (w_queue _ Hw)) as Hq. rewrite (removing_some _ _ _ _ Hg Hp Hr) in Hq.
  eapply (wf_put s _ i g); try done; cbn.
  - apply Hw.
  - split; [|done]. by apply recycled_ok.
  - same_guard Hw j h Hj Hh Hu' Hin.
    + split_and!; [done..|]. intros E. by destruct (u_lock _ _ Hu' E) as (_ & _ & _ & ?).
    + intros l E Hj'. congruence.
    + intros _ _. split_and!; [done..|]. by eapply locked_put.
  - intros p Hin. left. split; [done|]. unfold active. by rewrite Hp.
  - intros E. by left.
  - intros E. right. split; [done|]. intros [?|[? _]]; congruence.
Qed.

Lemma enter_wf s i g o : wf s -> guards s !! i = Some g -> g_phase g = Idle -> op_ok o -> rangeaddmtx_ s = None ->
  wf (MkPages (R_ s) (tracked s) (forupdate s) (Some i) (rmtx_ s) (<[i := MkGuard o Entering 0 0 false None]> (guards s))).
Proof.
  intros Hw Hg Hp Ho Hr. pose proof (w_guards _ Hw _ _ Hg) as Hgi. unfold guard_ok in Hgi. rewrite Hp in Hgi.
  eapply (wf_put s _ i g); try done; cbn.
  - apply Hw.
  - erewrite removing_put; [apply Hw|exact Hg|done|done| |]; unfold is_removing; cbn; rewrite ?Hp; tauto.
  - same_guard Hw j h Hj Hh Hu' Hin.
    + split_and!; [done..|]. intros E. by destruct (u_lock _ _ Hu' E) as (_ & _ & _ & ?).
    + congruence.
    + congruence.
  - intros p Hin. left. split; [done|]. unfold active. by rewrite Hp.
  - intros E. right. split; [done|]. intros [?|[? _]]; congruence.
Qed.

(** Waking the sleepers of a range whose count is zero now. *)
Lemma notify_fields q g : g_op (notify q g) = g_op g /\ rp_ (notify q g) = rp_ g /\ seen_ (notify q g) = seen_ g /\
  locked_ (notify q g) = locked_ g /\ set_ (notify q g) = set_ g /\ (active (notify q g) <-> active g) /\
  (g_phase (notify q g) = g_phase g \/ g_phase g = Asleep /\ g_phase (notify q g) = Waiting /\ rp_ g = q).
Proof.
  unfold notify, active. destruct (g_phase g) eqn:E; try (rewrite E; tauto). destruct (decide (rp_ g = q)); cbn; rewrite ?E; tauto.
Qed.

Section removal.
  Context (s : pages) (i : nat) (g : guard) (q : nat) (l : list nat) (woken : bool) (R : XrdOssCsiRanges).
  Hypothesis (Hw : wf s) (Hg : guards s !! i = Some g) (Hp : g_phase g = Removing (q :: l)) (Hub : unblock (rp_ g) q (R_ s) = (woken, R)).

Let g' : guard := set_phase (Removing l) g.
Let gs : list guard := if woken then notify q <$> guards s else guards s.
Let s' : pages := MkPages R (tracked s) (forupdate s) (rangeaddmtx_ s) (rmtx_ s) (<[i := g']> gs).
Let wake (h : guard) : guard := if woken then notify q h else h.

Lemma unblock_mutex : rmtx_ s = Some i /\ locked_ g = false.
Proof using All. pose proof (w_guards _ Hw _ _ Hg) as Hk. unfold guard_ok in Hk. by rewrite Hp in Hk. Qed.

Lemma unblock_queue : queue_ok (R_ s) (Some (rp_ g, q :: l)).
Proof using All. pose proof (proj1 (w_queue _ Hw)) as Hq. by rewrite (removing_some _ _ _ _ Hg Hp (proj1 unblock_mutex)) in Hq. Qed.

Lemma unblock_lookup j h' : guards s' !! j = Some h' ->
  (j = i /\ h' = g') \/ (j <> i /\ exists h, guards s !! j = Some h /\ h' = wake h).
Proof using All.
  intros Hj. apply lookup_put in Hj as [[<- <-]|[Hji Hj]]; [by left|right]. split; [done|]. unfold gs in Hj. unfold wake. destruct woken; [|eauto].
  rewrite list_lookup_fmap in Hj. destruct (guards s !! j) as [h|]; [|done]. injection Hj as <-. eauto.
Qed.

Lemma unblock_there j h : j <> i -> guards s !! j = Some h -> guards s' !! j = Some (wake h).
Proof using All.
  intros Hji Hj. cbn. rewrite list_lookup_insert_ne by done. unfold gs, wake. destruct woken; [|done]. by rewrite list_lookup_fmap, Hj.
Qed.

Lemma wake_fields h : g_op (wake h) = g_op h /\ rp_ (wake h) = rp_ h /\ seen_ (wake h) = seen_ h /\ locked_ (wake h) = locked_ h /\
  set_ (wake h) = set_ h /\ (active (wake h) <-> active h) /\
  (g_phase (wake h) = g_phase h \/ woken = true /\ g_phase h = Asleep /\ g_phase (wake h) = Waiting /\ rp_ h = q).
Proof using All.
  unfold wake. destruct woken; [|tauto]. destruct (notify_fields q h) as (? & ? & ? & ? & ? & ? & [?|(? & ? & ?)]); tauto.
Qed.

Lemma unblock_queued h : queued s h -> queued s' (wake h).
Proof using All.
  intros Hu. destruct (unblock_ok _ _ _ _ _ _ unblock_queue Hub) as (_ & Hrs & Hne & Hsp & _ & _).
  destruct (wake_fields h) as (E1 & E2 & E3 & E4 & E5 & _).
  assert (queued s' h) as [U1 U2 U3 U4 U5 U6].
  { apply (queued_same s); [done|cbn; rewrite Hrs; apply Hu| |done|].
    - cbn. destruct (decide (rp_ h = q)) as [->|Hx]; [done|by rewrite Hne].
    - intros E. split_and!; [done..|]. cbn. rewrite Hrs. by destruct (u_lock _ _ Hu E) as (_ & _ & _ & ?). }
  unfold g_pages, knows in U4, U5, U6. split; unfold g_pages, knows; rewrite ?E1, ?E2, ?E3, ?E4, ?E5; done.
Qed.

(** The count of a range changes only if it is [q], to one less. *)
Lemma unblock_count p : nBlockedBy (obj R p) = nBlockedBy (obj (R_ s) p) \/
  p = q /\ nBlockedBy (obj R q) = nBlockedBy (obj (R_ s) q) - 1 /\ 0 <= nBlockedBy (obj R q) /\ (woken = true <-> nBlockedBy (obj R q) = 0).
Proof using All.
  destruct (unblock_ok _ _ _ _ _ _ unblock_queue Hub) as (_ & _ & Hne & _ & Hnn & Hcase).
  destruct (decide (p = q)) as [->|E]; [|left; by rewrite Hne].
  destruct (conflicts _ _); [right; destruct Hcase as [Hc1 Hc2]; split_and!; [done|lia|done..]|left; destruct Hcase as [-> _]; done].
Qed.

Lemma unblock_guard_ok j h : guards s !! j = Some h -> guard_ok s' j (wake h).
Proof using All.
  intros Hh. pose proof (w_guards _ Hw _ _ Hh) as Hk. destruct (wake_fields h) as (E1 & E2 & E3 & E4 & E5 & E6 & E7).
  pose proof (unblock_queued h) as Hque. pose proof (unblock_count (rp_ h)) as Hnb. unfold guard_ok in *. destruct E7 as [E7|(W & Ea & Ew & Eq)].
  - rewrite E7, E1, E4, E3, E2, E5. destruct (g_phase h) eqn:Eh; [done..| | | | |done].
    + destruct Hk as (K1 & K2 & K3 & K4 & K5 & K6). split_and!; [done..|]. intros k x Hx.
      destruct (unblock_lookup k x Hx) as [[_ ->]|(_ & y & Hy & ->)]; [apply unblock_mutex|].
      destruct (wake_fields y) as (_ & _ & _ & -> & _). by eapply K6.
    + destruct Hk as (K1 & K2 & K3). split_and!; [auto| |done]. cbn. destruct Hnb as [->|(-> & _ & ? & _)]; done.
    + destruct Hk as (K1 & K2 & K3). split_and!; [auto| |done]. cbn. destruct Hnb as [->|(Eq & K4 & K5 & K6)]; [done|]. rewrite Eq in *.
      assert (nBlockedBy (obj R q) <> 0) as K7; [|lia]. intros K7. apply K6 in K7.
      unfold wake in E7. rewrite K7 in E7. unfold notify in E7. by rewrite Eh, decide_True in E7.
    + destruct Hk as (K1 & K2). split; [auto|]. cbn. destruct Hnb as [->|(Eq & K4 & K5 & _)]; [done|]. rewrite Eq in *. lia.
  - rewrite Ew, E2, E5. rewrite Ea in Hk. destruct Hk as (K1 & K2 & K3). split_and!; [auto|cbn|done].
    destruct Hnb as [->|(-> & _ & ? & _)]; [lia|done].
Qed.

Lemma unblock_wf : wf s'.
Proof using All.
  destruct unblock_mutex as [Hr Hl]. destruct (unblock_ok _ _ _ _ _ _ unblock_queue Hub) as (Hq' & Hrs & _).
  assert (~ active g) as Hna by (unfold active; rewrite Hp; tauto).
  assert (i < length gs)%nat as Hi by (apply lookup_lt_Some in Hg; unfold gs; destruct woken; by rewrite ?length_fmap).
  split.
  - apply Hw.
  - unfold removing. cbn. by rewrite Hr, list_lookup_insert_eq.
  - intros j h' Hj. destruct (unblock_lookup j h' Hj) as [[-> ->]|(Hji & h & Hh & ->)]; [done|]. by apply unblock_guard_ok.
  - intros p Hin. cbn in Hin. rewrite Hrs in Hin. destruct (w_owner _ Hw p Hin) as (j & h & Hj & Ha & Hrp).
    assert (j <> i) as Hji by (intros ->; apply Hna; congruence). destruct (wake_fields h) as (_ & E2 & _ & _ & _ & E6 & _).
    exists j, (wake h). split_and!; [by apply unblock_there|by apply E6|congruence].
  - intros j k h h' Hj Hk Ha Ha' He. destruct (unblock_lookup _ _ Hj) as [[-> ->]|(_ & x & Hx & ->)]; [done|].
    destruct (unblock_lookup _ _ Hk) as [[-> ->]|(_ & y & Hy & ->)]; [done|].
    destruct (wake_fields x) as (_ & E2 & _ & _ & _ & E6 & _), (wake_fields y) as (_ & F2 & _ & _ & _ & F6 & _).
    eapply (w_inj _ Hw); [exact Hx|exact Hy|by apply E6|by apply F6|congruence].
  - intros j k h h' Hj Hk Ha Ha'. destruct (unblock_lookup _ _ Hj) as [[-> ->]|(_ & x & Hx & ->)]; [cbn in Ha; congruence|].
    destruct (unblock_lookup _ _ Hk) as [[-> ->]|(_ & y & Hy & ->)]; [cbn in Ha'; congruence|].
    destruct (wake_fields x) as (_ & _ & _ & E4 & _), (wake_fields y) as (_ & _ & _ & F4 & _).
    eapply (w_locked _ Hw); [exact Hx|exact Hy|congruence..].
  - intros E. destruct (w_forupdate _ Hw E) as (j & h & Hj & Hh).
    assert (j <> i) as Hji by (intros ->; assert (h = g) as -> by congruence; destruct Hh as [?|[? _]]; congruence).
    destruct (wake_fields h) as (E1 & _ & _ & E4 & _ & _ & E7). exists j, (wake h). split; [by apply unblock_there|].
    rewrite E1, E4. destruct Hh as [Hh|[Hh Hh']]; [by left|right]. split; [|done]. destruct E7 as [->|(_ & ? & _)]; congruence.
Qed.

End removal.

(** ** Every reachable state satisfies the invariant *)

Lemma initial_wf size n : 0 <= size < LLONG_MAX -> wf (initial size n).
Proof.
  intros Hs. assert (forall i g, guards (initial size n) !! i = Some g -> g_phase g = Idle /\ locked_ g = false) as Hi.
  { intros i g [-> _]%lookup_replicate. done. }
  split; cbn.
  - done.
  - split; [|done]. split; cbn; [constructor|set_solver| |done]. intros [|??] ?? E; discriminate.
  - intros i g Hg. destruct (Hi i g Hg) as [E El]. unfold guard_ok. by rewrite E.
  - set_solver.
  - intros i j g h Hg _ Ha. destruct (Hi i g Hg) as [E _]. unfold active in Ha. by rewrite E in Ha.
  - intros i j g h Hg _ Hl. destruct (Hi i g Hg). congruence.
  - done.
Qed.

Lemma busy_wf s s' : wf s -> busy s s' -> wf s'.
Proof.
  intros Hw. destruct 1.
  - by apply sizes_wf.
  - by apply added_wf.
  - by apply check_wf.
  - by apply set_wf.
  - by apply unlock_wf.
  - by apply remove_wf.
  - by eapply unblock_wf.
  - by apply recycled_wf.
Qed.

Lemma step_wf s s' : wf s -> step s s' -> wf s'.
Proof. intros Hw. destruct 1; [by eapply busy_wf|by eapply enter_wf|by apply awake_wf]. Qed.

Lemma reachable_wf size n s : 0 <= size < LLONG_MAX -> reachable size n s -> wf s.
Proof.
  intros Hs Hr. unfold reachable in Hr. pose proof (initial_wf size n Hs) as Hw. revert Hw.
  induction Hr; [done|]. intros Hw. apply IHHr. by eapply step_wf.
Qed.

(** ** Somebody can always go on, and not for ever *)

(** While an operation has not ended, one that has begun can go on. *)
Lemma busy_progress s i g : wf s -> guards s !! i = Some g -> g_phase g <> Idle -> exists s', busy s s'.
Proof.
  intros Hw Hg Hp. destruct (removing s) as [[p l]|] eqn:Erem.
  { unfold removing in Erem. destruct (rmtx_ s) as [k|]; [|done]. destruct (guards s !! k) as [h|] eqn:Eh; [|done].
    destruct (g_phase h) as [| | | | | |l'] eqn:Eph; try done. destruct l' as [|q l'].
    - eexists. by eapply b_recycle.
    - destruct (unblock (rp_ h) q (R_ s)) as [w R] eqn:Eu. eexists. by eapply b_unblock. }
  pose proof (w_queue _ Hw) as [Hq Hr]. specialize (Hr Erem). rewrite Erem in Hq.
  (* who is in the queue *)
  destruct (ranges_ (R_ s)) as [|p l] eqn:Ers.
  - (* nobody: no lock on the sizes but that of one who is adding *)
    assert (forall j h, guards s !! j = Some h -> ~ active h) as Hna.
    { intros j h Hh Ha. pose proof (u_in _ _ (active_in _ _ _ Hw Hh Ha)) as H. rewrite Ers in H. by inversion H. }
    assert (forall j h, guards s !! j = Some h -> g_phase h = Adding -> exists s', busy s s') as Hadd.
    { intros j h Hh Eh. destruct (AddRange (g_pages h).1 (g_pages h).2 (op_rdonly (g_op h)) (R_ s)) as [p R] eqn:Ea. eexists. by eapply b_add. }
    pose proof (w_guards _ Hw _ _ Hg) as Hgi. pose proof (Hna _ _ Hg) as Hnag. unfold guard_ok in Hgi. unfold active in Hnag.
    destruct (g_phase g) eqn:Eg; try done.
    + destruct (forupdate s) eqn:Ef; [|eexists; by eapply b_sizes].
      destruct (w_forupdate _ Hw Ef) as (j & h & Hh & [Hl|[Ha _]]); [|by eapply Hadd].
      exfalso. by apply (Hna _ _ Hh), (locked_active _ _ _ Hw Hh).
    + by eapply Hadd.
    + destruct Hgi as [E _]. unfold removing in Erem. by rewrite E in Hr.
  - (* the first one has nobody to wait for *)
    pose proof (queue_first _ _ _ Hq Ers) as Hn.
    destruct (w_owner _ Hw p) as (j & h & Hh & Ha & <-); [rewrite Ers; left|].
    pose proof (w_guards _ Hw _ _ Hh) as Hk. unfold guard_ok in Hk. unfold active in Ha. destruct (g_phase h) eqn:Eh; try done.
    + eexists. by eapply b_check.
    + destruct Hk as (_ & ? & _). lia.
    + destruct (locked_ h) eqn:El; eexists; [by eapply b_unlock|by eapply b_remove].
Qed.

(** How far a guard is from its end: setting the size, giving the lock back and leaving are
    still to come; a range is looked at once more when its count becomes zero. *)
Definition weight (R : XrdOssCsiRanges) (g : guard) : nat :=
  match g_phase g with
  | Idle => 0
  | Removing _ => 1
  | Held => 2 + (if locked_ g then match set_ g with None => 2 | Some _ => 1 end else 0)
  | Waiting => if nBlockedBy (obj R (rp_ g)) =? 0 then 5 else 7
  | Asleep => 6
  | Adding => 8
  | Entering => 9
  end.
Definition work (R : XrdOssCsiRanges) (l : list guard) : nat := sum_list_with (weight R) l.
Definition turns (s : pages) : nat := match removing s with Some (_, l) => length l | None => 0 end.

Lemma sum_le {A} (f f' : A -> nat) l : (forall x, x ∈ l -> f x <= f' x)%nat -> (sum_list_with f l <= sum_list_with f' l)%nat.
Proof.
  induction l as [|x l IH]; intros Hl; [done|]. cbn. pose proof (Hl x ltac:(left)). specialize (IH (fun y Hy => Hl y ltac:(by right))). lia.
Qed.

Lemma sum_map {A B} (f : B -> nat) (h : A -> B) l : sum_list_with f (h <$> l) = sum_list_with (fun x => f (h x)) l.
Proof. induction l as [|x l IH]; [done|]. cbn. by rewrite IH. Qed.

Lemma sum_put {A} (f : A -> nat) l i x y : l !! i = Some x -> (sum_list_with f (<[i:=y]> l) + f x = sum_list_with f l + f y)%nat.
Proof.
  revert i. induction l as [|z l IH]; intros [|i] Hx; try discriminate; simpl in *.
  - simplify_eq. lia.
  - specialize (IH i Hx). lia.
Qed.

Lemma work_put R R' l i g g' : l !! i = Some g -> (weight R' g' < weight R' g)%nat ->
  (forall h, h ∈ l -> (weight R' h <= weight R h)%nat) -> (work R' (<[i:=g']> l) < work R l)%nat.
Proof.
  intros Hg Hlt Hle. pose proof (sum_put (weight R') l i g g' Hg). pose proof (sum_le _ _ l Hle). unfold work. lia.
Qed.

Lemma weight_same R R' g : (g_phase g = Waiting -> nBlockedBy (obj R' (rp_ g)) = nBlockedBy (obj R (rp_ g))) -> weight R' g = weight R g.
Proof. intros H. unfold weight. destruct (g_phase g); try done. by rewrite H. Qed.

(** A turn of the loop of [RemoveRange] gives nobody more to do. *)
Lemma unblock_weight s i g q l woken R h : wf s -> guards s !! i = Some g -> g_phase g = Removing (q :: l) -> unblock (rp_ g) q (R_ s) = (woken, R) ->
  h ∈ guards s -> (weight R (if woken then notify q h else h) <= weight (R_ s) h)%nat.
Proof.
  intros Hw Hg Hp Hub [j Hh]%list_elem_of_lookup. pose proof (w_guards _ Hw _ _ Hg) as Hgi. unfold guard_ok in Hgi. rewrite Hp in Hgi. destruct Hgi as (Hr & _).
  pose proof (proj1 (w_queue _ Hw)) as Hq. rewrite (removing_some _ _ _ _ Hg Hp Hr) in Hq.
  destruct (unblock_ok _ _ _ _ _ _ Hq Hub) as (_ & _ & Hne & _ & Hnn & Hcase).
  assert (weight R h <= weight (R_ s) h)%nat as Hle.
  { unfold weight. destruct (g_phase h); try lia. destruct (decide (rp_ h = q)) as [->|E]; [|by rewrite Hne].
    destruct (Z.eqb_spec (nBlockedBy (obj R q)) 0), (Z.eqb_spec (nBlockedBy (obj (R_ s) q)) 0); try lia.
    destruct (conflicts _ _); [lia|destruct Hcase as [-> _]; done]. }
  destruct woken; [|done]. unfold notify. destruct (g_phase h) eqn:Eh; try done. destruct (decide (rp_ h = q)) as [Eq|]; [|done].
  unfold weight. rewrite Eh. cbn. rewrite Eq. destruct (conflicts _ _); [|by destruct Hcase]. rewrite (proj1 (proj2 Hcase) eq_refl). cbn. lia.
Qed.

Lemma busy_decreases s s' : wf s -> busy s s' ->
  (work (R_ s') (guards s') < work (R_ s) (guards s))%nat \/
  (work (R_ s') (guards s') <= work (R_ s) (guards s))%nat /\ (turns s' < turns s)%nat.
Proof.
  intros Hw. destruct 1 as [i g Hg Hp _|i g p R Hg Hp Hr HA|i g Hg Hp|i g n Hg Hp Hl Hs _|i g Hg Hp Hl|i g Hg Hp Hl Hr|i g q l woken R Hg Hp Hu|i g Hg Hp]; cbn [R_ guards put_guard].
  - left. eapply work_put; [done| |done]. unfold weight. rewrite Hp. cbn. lia.
  - left. eapply work_put; [done|unfold weight; rewrite Hp; cbn; by destruct (_ =? _); lia|].
    pose proof (proj1 (w_queue _ Hw)) as Hq. rewrite removing_none in Hq by done. destruct (AddRange_ok _ _ _ _ _ _ Hq HA) as (_ & _ & Hnp & Ho & _).
    intros h [j Hh]%list_elem_of_lookup. rewrite (weight_same (R_ s)); [done|]. intros E. rewrite Ho; [done|]. intros E'. apply Hnp. rewrite <- E'.
    apply (u_in _ _ (active_in _ _ _ Hw Hh ltac:(unfold active; by rewrite E))).
  - left. eapply work_put; [done| |done]. pose proof (w_guards _ Hw _ _ Hg) as Hk. unfold guard_ok in Hk. rewrite Hp in Hk. destruct Hk as (_ & Hn & Hs).
    unfold weight. rewrite Hp. destruct (Z.ltb_spec 0 (nBlockedBy (obj (R_ s) (rp_ g)))), (Z.eqb_spec (nBlockedBy (obj (R_ s) (rp_ g))) 0); cbn; try lia.
    rewrite Hs. destruct (locked_ g); lia.
  - left. eapply work_put; [done| |done]. unfold weight. cbn. rewrite Hp, Hl, Hs. lia.
  - left. eapply work_put; [done| |done]. unfold weight. cbn. rewrite Hp, Hl. destruct (set_ g); lia.
  - left. eapply work_put; [done| |done]. unfold weight. cbn. rewrite Hp. lia.
  - right. split.
    + assert ((if woken then notify q <$> guards s else guards s) !! i = Some g) as Hgi.
      { destruct woken; [|done]. rewrite list_lookup_fmap, Hg. cbn. unfold notify. by rewrite Hp. }
      pose proof (sum_put (weight R) _ i _ (set_phase (Removing l) g) Hgi) as Hput. unfold work.
      assert (weight R g = 1 /\ weight R (set_phase (Removing l) g) = 1)%nat as [E1 E2] by (unfold weight; by rewrite Hp).
      enough (sum_list_with (weight R) (if woken then notify q <$> guards s else guards s) <= sum_list_with (weight (R_ s)) (guards s))%nat by lia.
      pose proof (fun h => unblock_weight _ _ _ _ _ _ _ h Hw Hg Hp Hu) as Hle. destruct woken; [|by apply sum_le].
      rewrite sum_map. by apply sum_le.
    + assert (rmtx_ s = Some i) as Hr by (pose proof (w_guards _ Hw _ _ Hg) as Hk; unfold guard_ok in Hk; rewrite Hp in Hk; apply Hk).
      unfold turns. rewrite (removing_some _ _ _ _ Hg Hp Hr). unfold removing. cbn. rewrite Hr.
      rewrite list_lookup_insert_eq; [cbn; lia|]. apply lookup_lt_Some in Hg. destruct woken; by rewrite ?length_fmap.
  - left. eapply work_put; [done| |done]. unfold weight. cbn. rewrite Hp. lia.
Qed.

Lemma busy_sn s : wf s -> sn busy s.
Proof.
  remember (work (R_ s) (guards s)) as w eqn:Ew. revert s Ew. induction w as [w IHw] using lt_wf_ind.
  intros s. remember (turns s) as t eqn:Et. revert s Et. induction t as [t IHt] using lt_wf_ind.
  intros s -> -> Hw. constructor. intros s' Hb. pose proof (busy_wf _ _ Hw Hb) as Hw'. destruct (busy_decreases _ _ Hw Hb) as [Hlt|[Hle Ht]].
  - by eapply IHw.
  - destruct (decide (work (R_ s') (guards s') = work (R_ s) (guards s))) as [E|E]; [by eapply IHt|]. eapply IHw; [|done..]. lia.
Qed.

(** ** The properties *)

(** C14: Whatever operations run at once on a file with page checksums, two
    that have their ranges at the same time and share a page are both readers;
    on every page of an operation that has its range there are as many tracked
    bytes as the operation has seen or set; and one that holds the lock on the
    sizes is alone with it and knows the tracked size. *)
Theorem Held_ranges_safe size n s i g : 0 <= size < LLONG_MAX -> reachable size n s ->
  guards s !! i = Some g -> g_phase g = Held ->
  (forall j h p, j <> i -> guards s !! j = Some h -> g_phase h = Held ->
     (g_pages g).1 <= p <= (g_pages g).2 -> (g_pages h).1 <= p <= (g_pages h).2 -> op_rdonly (g_op g) = true /\ op_rdonly (g_op h) = true) /\
  (forall p, (g_pages g).1 <= p <= (g_pages g).2 -> fill (knows g) p = fill (tracked s) p) /\
  (locked_ g = true -> knows g = tracked s /\ forall j h, j <> i -> guards s !! j = Some h -> locked_ h = false).
Proof.
  intros Hs Hr Hg Hp. pose proof (reachable_wf _ _ _ Hs Hr) as Hw.
  assert (forall j h, guards s !! j = Some h -> g_phase h = Held -> active h /\ queued s h /\ nBlockedBy (obj (R_ s) (rp_ h)) = 0) as Hheld.
  { intros j h Hh E. pose proof (w_guards _ Hw _ _ Hh) as Hk. unfold guard_ok in Hk. rewrite E in Hk. unfold active. by rewrite E. }
  destruct (Hheld _ _ Hg Hp) as (Ha & Hu & Hn). split_and!.
  - intros j h p Hj Hh Eh Hpg Hph. destruct (Hheld _ _ Hh Eh) as (Hb & Hv & Hm).
    assert (rp_ g <> rp_ h) as Hne by (intros E; apply Hj; symmetry; by eapply (w_inj _ Hw)).
    pose proof (held_exclusive _ _ _ _ (proj1 (w_queue _ Hw)) (u_in _ _ Hu) (u_in _ _ Hv) Hne Hn Hm) as Hc.
    pose proof (u_span _ _ Hu) as Hs1. pose proof (u_span _ _ Hv) as Hs2. unfold span in Hs1, Hs2. unfold conflicts in Hc.
    destruct (obj (R_ s) (rp_ g)), (obj (R_ s) (rp_ h)), (g_pages g), (g_pages h). cbn in *.
    injection Hs1 as -> -> ->. injection Hs2 as -> -> ->. destruct (op_rdonly (g_op g)), (op_rdonly (g_op h)); [done|exfalso..];
      cbn in Hc; rewrite andb_true_r in Hc; apply andb_false_iff in Hc; rewrite !Z.leb_gt in Hc; lia.
  - apply Hu.
  - intros Hl. split; [by apply (u_lock _ _ Hu Hl)|]. intros j h Hj Hh. destruct (locked_ h) eqn:E; [|done]. exfalso. apply Hj. by eapply (w_locked _ Hw).
Qed.

(** C15: No operation on a file with page checksums waits for ever: from every
    state that operations reach, what those that have begun do comes to an
    end, in whatever order it is done, and when none of them can do anything
    more all of them have ended, the queue of ranges is empty and the lock on
    the sizes is free. *)
Theorem Ranges_drain size n s : 0 <= size < LLONG_MAX -> reachable size n s ->
  sn busy s /\ forall s', rtc busy s s' -> nf busy s' ->
    (forall i g, guards s' !! i = Some g -> g_phase g = Idle) /\ ranges_ (R_ s') = [] /\ forupdate s' = false.
Proof.
  intros Hs Hr. pose proof (reachable_wf _ _ _ Hs Hr) as Hw. split; [by apply busy_sn|]. intros s' Hb Hnf.
  assert (wf s') as Hw' by (clear Hnf Hr; induction Hb; [done|]; apply IHHb; by eapply busy_wf).
  assert (forall i g, guards s' !! i = Some g -> g_phase g = Idle) as Hidle.
  { intros i g Hg. destruct (decide (g_phase g = Idle)) as [|Hne]; [done|]. exfalso. apply Hnf. by eapply busy_progress. }
  split_and!; [done| |].
  - destruct (ranges_ (R_ s')) as [|p l] eqn:E; [done|]. destruct (w_owner _ Hw' p) as (i & g & Hg & Ha & _); [rewrite E; left|].
    unfold active in Ha. by rewrite (Hidle _ _ Hg) in Ha.
  - destruct (forupdate s') eqn:E; [|done]. destruct (w_forupdate _ Hw' E) as (i & g & Hg & [Hl|[Ha _]]).
    + destruct (locked_active _ _ _ Hw' Hg Hl) as [Ha _]. unfold active in Ha. by rewrite (Hidle _ _ Hg) in Ha.
    + by rewrite (Hidle _ _ Hg) in Ha.
Qed.

(** A writer has extended a file of 5000 bytes and writes, and a reader sleeps behind it. *)
Definition writer : guard := MkGuard (Writes 4990 9000) Held 0 5000 false (Some 9000).
Definition reader : guard := MkGuard (Reads 4096 9000) Asleep 1 9000 false None.

Lemma writer_reader : exists s, reachable 5000 2 s /\ guards s = [writer; reader].
Proof.
  eexists. split.
  - eapply rtc_l; [eapply (s_enter _ 0 _ (Writes 4990 9000)); [reflexivity|reflexivity|unfold op_ok, LLONG_MAX; lia|reflexivity]|cbv].
    eapply rtc_l; [apply s_busy; eapply (b_sizes _ 0); reflexivity|cbv].
    eapply rtc_l; [apply s_busy; eapply (b_add _ 0); reflexivity|cbv].
    eapply rtc_l; [apply s_busy; eapply (b_check _ 0); reflexivity|cbv].
    eapply rtc_l; [apply s_busy; eapply (b_set _ 0 _ 9000); [reflexivity..|by split]|cbv].
    eapply rtc_l; [apply s_busy; eapply (b_unlock _ 0); reflexivity|cbv].
    eapply rtc_l; [eapply (s_enter _ 1 _ (Reads 4096 9000)); [reflexivity|reflexivity|unfold op_ok, LLONG_MAX; lia|reflexivity]|cbv].
    eapply rtc_l; [apply s_busy; eapply (b_sizes _ 1); reflexivity|cbv].
    eapply rtc_l; [apply s_busy; eapply (b_add _ 1); reflexivity|cbv].
    eapply rtc_l; [apply s_busy; eapply (b_check _ 1); done|]. apply rtc_refl.
  - reflexivity.
Qed.

Lemma Held_ranges_safe_witness : exists s, reachable 5000 2 s /\ fill 9000 1 = fill (tracked s) 1.
Proof.
  destruct writer_reader as (s & Hr & Hg). exists s. split; [exact Hr|].
  destruct (Held_ranges_safe 5000 2 s 0 writer ltac:(done) Hr ltac:(by rewrite Hg) eq_refl) as (_ & Hf & _). apply Hf. done.
Defined.

Lemma Ranges_drain_witness : exists s, guards s = [writer; reader] /\ sn busy s.
Proof.
  destruct writer_reader as (s & Hr & Hg). exists s. split; [exact Hg|]. apply (Ranges_drain 5000 2 s ltac:(done) Hr).
Defined.
