(* ===== verification/PgrwUtils.v ===== *)
(** * Pages of a transfer with checksums (XrdOuc/XrdOucPgrwUtils.{hh,cc})

    Data that is read or written with checksums is cut at the page boundaries of the file:
    the first piece ends at a boundary, the last may be short, and each piece has a
    checksum. On the network the checksum of a piece goes before it. [pieces] is the
    reference of the cutting; the routines compute the checksums, their number, verify
    them, and lay out the network bytes. *)

From stdpp Require Import base tactics list_numbers numbers option list strings.
From S2P Require Import Prelude CrcRegister OucCRC32C CsiCrc.
#[local] Set Warnings "-clear-no-such-hyp".

(** [pgPageSize] is [PageSize]; [pgPageMask], [pgCsumSize], [pgUnitSize], [pgMaxBSize] *)
Definition pgPageMask : Z := PageSize - 1.
Definition pgCsumSize : Z := 4.
Definition pgUnitSize : Z := PageSize + pgCsumSize.
Definition pgMaxBSize : Z := 2147479552.

(** ** The routines *)

Section routines.
  Context (m : machine).

(** [csNum( offs, count )] *)
Definition csNum (offs count : Z) : Z :=
  let pgOff := Z.land offs pgPageMask in
  let rest k count := k + Z.quot count PageSize + (if Z.land count pgPageMask =? 0 then 0 else 1) in
  if pgOff =? 0 then rest 0 count
  else
    let chkLen := PageSize - pgOff in
    if count <=? chkLen then 1 else rest 1 (count - chkLen).

(** [csCalc( data, offs, count, csval )]: the values stored at [csval] *)
Definition csCalc (data : list Z) (offs count : Z) : res (list Z) :=
  let pgOff := Z.land offs pgPageMask in
  if pgOff =? 0 then (if count =? 0 then Ok [] else Calc32C_pages m data count)
  else
    let chkLen := PageSize - pgOff in
    let '(chkLen, count) := if count <=? chkLen then (count, 0) else (chkLen, count - chkLen) in
    c ← Calc32C m data chkLen 0;
    if count =? 0 then Ok [c]
    else l ← Calc32C_pages (further chkLen m) (adv chkLen data) count; Ok (c :: l).

(** [csCalc( data, offs, count, csvec )]: the vector, which has [csNum] elements; what is
    stored behind it is lost memory *)
Definition csCalc_vector (data : list Z) (offs count : Z) : res (list Z) :=
  let n := csNum offs count in
  l ← csCalc data offs count;
  if (0 <=? n) && (zlen l <=? n) then Ok (l ++ replicate (Z.to_nat (n - zlen l)) 0) else Fault.

(** [csNum( offs, count, fLen, lLen )]: also the lengths of the first and the last piece *)
Definition csNum_lengths (offs count : Z) : Z * Z * Z :=
  let pgOff := Z.land offs pgPageMask in
  if count =? 0 then (0, 0, 0)
  else
    let fLen := if pgOff =? 0 then (if PageSize <=? count then PageSize else count)
                else let fLen := PageSize - pgOff in if count <=? fLen then count else fLen in
    let count := count - fLen in
    if count =? 0 then (1, fLen, fLen)
    else
      let pgOff := Z.land count pgPageMask in
      (1 + Z.quot count PageSize + (if pgOff =? 0 then 0 else 1), fLen, if pgOff =? 0 then PageSize else pgOff).

(** [struct dataInfo] *)
Record dataInfo := MkInfo { data : list Z; csval : list Z; offs : Z; count : Z }.

(** [csVer( dInfo, bado, badc )]: the information afterwards, and the offset and the length
    of the first piece whose checksum is wrong *)
Definition csVer_pages (d : dataInfo) : res (dataInfo * option (Z * Z)) :=
  if 0 <? count d then
    '(pgNum, _) ← Ver32C_first m (data d) (count d) (csval d);
    if 0 <=? pgNum then
      let xlen := PageSize * pgNum in
      let bado := offs d + xlen in
      let more := count d - xlen in
      let badc := if more <=? PageSize then more else PageSize in
      Ok (MkInfo (adv (xlen + badc) (data d)) (drop (Z.to_nat (pgNum + 1)) (csval d)) (offs d + xlen + badc) (more - badc),
          Some (bado, badc))
    else Ok (d, None)
  else Ok (d, None).
Definition csVer (d : dataInfo) : res (dataInfo * option (Z * Z)) :=
  let pgOff := Z.land (offs d) pgPageMask in
  if count d <=? 0 then Ok (d, None)
  else if pgOff =? 0 then csVer_pages d
  else
    let chkLen := PageSize - pgOff in
    let '(chkLen, more) := if count d <? chkLen then (count d, 0) else (chkLen, count d - chkLen) in
    match csval d with
    | [] => Fault
    | c :: cs =>
        '(aOK, _) ← Ver32C m (data d) chkLen c;
        let d' := MkInfo (adv chkLen (data d)) cs (offs d + chkLen) more in
        if aOK : bool then csVer_pages d' else Ok (d', Some (offs d, chkLen))
    end.

(** [struct Layout] *)
Record Layout := MkLayout { bOffset : Z; dataLen : Z; sockLen : Z; fLen : Z; lLen : Z }.

(** The check of the buffer size, and the size where there is none *)
Definition buffer_size (bsz : Z) : option Z :=
  if bsz <=? 0 then Some pgMaxBSize else if Z.land bsz pgPageMask =? 0 then Some bsz else None.

(** [recvLayout( layout, offs, dlen, bsz )] of so many network bytes: the number of
    checksums and the layout, or why there is none *)
Definition recvLayout (offs dlen bsz : Z) : string + Z * Layout :=
  if dlen <=? pgCsumSize then inl "invalid length"%string
  else match buffer_size bsz with
  | None => inl "invalid buffer size (logic error)"%string
  | Some bsz =>
      let dlen := dlen - pgCsumSize in
      let bOffset := Z.land offs pgPageMask in
      let '(fLen, dataLen, csNum, dlen, maxLen) :=
        if negb (bOffset =? 0) then
          let dataLen := PageSize - bOffset in
          if dlen <=? dataLen then (dlen, dlen, 1, dlen, 0) else (dataLen, dataLen, 1, dlen - dataLen, bsz - PageSize)
        else
          if dlen <=? PageSize then (dlen, dlen, 1, dlen, 0) else (PageSize, 0, 0, dlen + pgCsumSize, bsz) in
      if maxLen =? 0 then inr (csNum, MkLayout bOffset dataLen (dataLen + csNum * pgCsumSize) fLen 0)
      else
        let bytes := Z.quot dlen pgUnitSize * PageSize in
        let bfrag := Z.rem dlen pgUnitSize in
        if negb (bfrag =? 0) && (bfrag <=? pgCsumSize) then inl "last page too short"%string
        else
          let bytes := if bfrag =? 0 then bytes else bytes + (bfrag - pgCsumSize) in
          let bytes := if maxLen <? bytes then maxLen else bytes in
          let dataLen := dataLen + bytes in
          let lLen := Z.land bytes pgPageMask in
          let csNum := csNum + Z.quot bytes PageSize + (if lLen =? 0 then 0 else 1) in
          inr (csNum, MkLayout bOffset dataLen (dataLen + csNum * pgCsumSize) fLen (if lLen =? 0 then PageSize else lLen))
  end.

(** [sendLayout( layout, offs, dlen, bsz )] of so many bytes of data *)
Definition sendLayout (offs dlen bsz : Z) : string + Z * Layout :=
  let pgOff := Z.land offs pgPageMask in
  if dlen <=? 0 then inl "invalid length"%string
  else match buffer_size bsz with
  | None => inl "invalid buffer size (logic error)"%string
  | Some bsz =>
      let fLen := if pgOff =? 0 then (if PageSize <=? dlen then PageSize else dlen)
                  else let fLen := PageSize - pgOff in if dlen <? fLen then dlen else fLen in
      let bsz := bsz - PageSize in
      let dlen := dlen - fLen in
      if negb (dlen =? 0) && negb (bsz =? 0) then
        let dlen := if bsz <? dlen then bsz else dlen in
        let last := Z.land dlen pgPageMask in
        let csNum := 1 + Z.quot dlen PageSize + (if last =? 0 then 0 else 1) in
        inr (csNum, MkLayout pgOff (fLen + dlen) (fLen + dlen + csNum * pgCsumSize) fLen
                      (if last =? 0 then (if PageSize <=? dlen then PageSize else dlen) else last))
      else inr (1, MkLayout pgOff fLen (fLen + pgCsumSize) fLen 0)
  end.

End routines.

(** ** The pieces *)

Lemma pgOff_mod o : 0 <= o -> Z.land o pgPageMask = o mod PageSize.
Proof. intros _. exact (Z.land_ones o 12 ltac:(done)). Qed.

(** The bytes from an offset to the next boundary. *)
Definition to_boundary (o : Z) : Z := PageSize - o mod PageSize.

Fixpoint pieces_upto (fuel : nat) (o : Z) (B : list Z) : list (Z * list Z) :=
  match fuel, B with
  | S fuel, _ :: _ => (o, take (Z.to_nat (to_boundary o)) B) :: pieces_upto fuel (o + to_boundary o) (adv (to_boundary o) B)
  | _, _ => []
  end.
(** The offset and the bytes of each piece. *)
Definition pieces (o : Z) (B : list Z) : list (Z * list Z) := pieces_upto (length B) o B.

Lemma to_boundary_range o : 0 < to_boundary o <= PageSize.
Proof. unfold to_boundary, PageSize. lia_div. Qed.

Lemma to_boundary_next o : to_boundary (o + to_boundary o) = PageSize.
Proof. unfold to_boundary, PageSize. lia_div. Qed.

Lemma to_boundary_aligned o : o mod PageSize = 0 -> to_boundary o = PageSize.
Proof. unfold to_boundary. lia. Qed.

Lemma aligned_next o : (o + to_boundary o) mod PageSize = 0.
Proof. unfold to_boundary, PageSize. lia_div. Qed.

Lemma adv_shorter k (B : list Z) : 0 < k -> B <> [] -> (length (adv k B) < length B)%nat.
Proof. intros Hk HB. unfold adv. rewrite length_drop. destruct B; [done|]. cbn. lia. Qed.

Lemma pieces_fuel f g o B : (length B <= f)%nat -> (length B <= g)%nat -> pieces_upto f o B = pieces_upto g o B.
Proof.
  revert g o B. induction f as [|f IH]; intros g o B Hf Hg.
  - assert (B = []) as -> by (destruct B; [done|cbn in Hf; lia]). by destruct g.
  - destruct B as [|b B]; [by destruct g|]. destruct g as [|g]; [cbn in Hg; lia|]. cbn [pieces_upto]. f_equal.
    pose proof (adv_shorter (to_boundary o) (b :: B) ltac:(apply to_boundary_range) ltac:(done)). apply IH; cbn in *; lia.
Qed.

Lemma pieces_nil o : pieces o [] = [].
Proof. done. Qed.

Lemma pieces_cons o B : B <> [] ->
  pieces o B = (o, take (Z.to_nat (to_boundary o)) B) :: pieces (o + to_boundary o) (adv (to_boundary o) B).
Proof.
  intros HB. unfold pieces. pose proof (adv_shorter (to_boundary o) B ltac:(apply to_boundary_range) HB) as Hlt.
  destruct B as [|b B]; [done|]. cbn [length pieces_upto]. f_equal. apply pieces_fuel; cbn in *; lia.
Qed.

(** Induction on the pieces. *)
Lemma pieces_ind (P : Z -> list Z -> Prop) : (forall o, P o []) ->
  (forall o B, B <> [] -> P (o + to_boundary o) (adv (to_boundary o) B) -> P o B) -> forall o B, P o B.
Proof.
  intros H0 HS o B. remember (length B) as n eqn:Hn. revert o B Hn. induction n as [n IH] using lt_wf_ind. intros o B ->.
  destruct (decide (B = [])) as [->|HB]; [apply H0|]. apply HS; [done|]. eapply IH; [|done].
  apply adv_shorter; [apply to_boundary_range|done].
Qed.

(** One piece, or more than one. *)
Lemma pieces_one o B : B <> [] -> zlen B <= to_boundary o -> pieces o B = [(o, B)].
Proof.
  intros HB Hl. rewrite pieces_cons by done. pose proof (to_boundary_range o).
  rewrite take_ge by (unfold zlen in Hl; lia). unfold adv. rewrite drop_ge by (unfold zlen in Hl; lia). done.
Qed.

Lemma zlen_pos (B : list Z) : B <> [] -> 0 < zlen B.
Proof. destruct B; [done|]. intros _. unfold zlen. cbn. lia. Qed.

Lemma zlen_adv_more k B : 0 <= k <= zlen B -> zlen (adv k B) = zlen B - k.
Proof. intros. apply zlen_adv; lia. Qed.

Lemma pieces_join o B : mjoin (snd <$> pieces o B) = B.
Proof.
  revert o B. apply pieces_ind; [done|]. intros o B HB IH. rewrite pieces_cons by done.
  change (take (Z.to_nat (to_boundary o)) B ++ mjoin (snd <$> pieces (o + to_boundary o) (adv (to_boundary o) B)) = B). rewrite IH. apply take_drop.
Qed.

(** How many there are. *)
Lemma zlen_pieces o B : 0 <= o -> B <> [] -> zlen (pieces o B) = npages (o mod PageSize + zlen B).
Proof.
  revert o B. apply (pieces_ind (fun o B => 0 <= o -> B <> [] -> zlen (pieces o B) = npages (o mod PageSize + zlen B))); [done|].
  intros o B HB IH Ho _. rewrite pieces_cons, zlen_cons by done. pose proof (to_boundary_range o) as Hr. pose proof (zlen_pos B HB) as Hp.
  destruct (decide (zlen B <= to_boundary o)) as [Hle|Hgt].
  - unfold adv. rewrite drop_ge by (unfold zlen in Hle; lia). cbn. unfold npages, to_boundary, PageSize in *. change (zlen []) with 0. lia_div.
  - rewrite IH; [|unfold to_boundary, PageSize in *; lia|].
    + rewrite zlen_adv_more by lia. rewrite aligned_next. unfold npages, to_boundary, PageSize in *. lia_div.
    + intros E. apply (f_equal zlen) in E. rewrite zlen_adv_more in E by lia. change (zlen []) with 0 in E. lia.
Qed.

Lemma csNum_npages o n : 0 <= o -> 0 < n -> csNum o n = npages (o mod PageSize + n).
Proof.
  intros Ho Hn. unfold csNum. rewrite !pgOff_mod by (unfold PageSize; lia_div || lia). unfold npages, PageSize.
  destruct (Z.eqb_spec (o mod 4096) 0); [|destruct (Z.leb_spec n (4096 - o mod 4096))]; try lia_div.
  - rewrite Z.quot_div_nonneg by lia. destruct (Z.eqb_spec (n mod 4096) 0); lia_div.
  - rewrite Z.quot_div_nonneg by lia. rewrite pgOff_mod by lia. unfold PageSize. destruct (Z.eqb_spec ((n - (4096 - o mod 4096)) mod 4096) 0); lia_div.
Qed.

Lemma take_adv_join k (B : list Z) : take (Z.to_nat k) B ++ adv k B = B.
Proof. apply take_drop. Qed.

Lemma zlen_take_more k (B : list Z) : 0 <= k <= zlen B -> zlen (take (Z.to_nat k) B) = k.
Proof. intros. unfold zlen in *. rewrite length_take. lia. Qed.

(** Cutting at a boundary. *)
Lemma pieces_app o B C : 0 <= o -> (o + zlen B) mod PageSize = 0 -> pieces o (B ++ C) = pieces o B ++ pieces (o + zlen B) C.
Proof.
  revert o B. apply (pieces_ind (fun o B => 0 <= o -> (o + zlen B) mod PageSize = 0 -> pieces o (B ++ C) = pieces o B ++ pieces (o + zlen B) C)).
  - intros o _ _. change (zlen []) with 0. by rewrite Z.add_0_r.
  - intros o B HB IH Ho Hm. pose proof (to_boundary_range o). pose proof (zlen_pos B HB).
    assert (to_boundary o <= zlen B) as Hle by (unfold to_boundary, PageSize in *; lia_div).
    rewrite (pieces_cons o B), (pieces_cons o (B ++ C)) by (done || by destruct B). cbn [app]. unfold adv at 1.
    rewrite take_app_le, drop_app_le by (unfold zlen in *; lia). f_equal. fold (adv (to_boundary o) B).
    rewrite IH by (rewrite ?zlen_adv_more by lia; lia || by rewrite <- Hm; f_equal; lia).
    do 2 f_equal. rewrite zlen_adv_more by lia. lia.
Qed.

(** ** The checksums of the pieces *)

Definition piece_sums (o : Z) (B : list Z) : list Z := (fun p => checksum p.2) <$> pieces o B.

Lemma piece_sums_cons o B : B <> [] ->
  piece_sums o B = checksum (take (Z.to_nat (to_boundary o)) B) :: piece_sums (o + to_boundary o) (adv (to_boundary o) B).
Proof. intros HB. unfold piece_sums. by rewrite pieces_cons. Qed.

Lemma page_sums_pieces o B : o mod PageSize = 0 -> page_sums B = piece_sums o B.
Proof.
  revert o B. apply (pieces_ind (fun o B => o mod PageSize = 0 -> page_sums B = piece_sums o B)); [done|].
  intros o B HB IH Hm. rewrite piece_sums_cons, <- IH by (done || apply aligned_next). rewrite to_boundary_aligned by done.
  pose proof (zlen_pos B HB). destruct (decide (zlen B < PageSize)) as [Hlt|Hge].
  - rewrite page_sums_last by lia. unfold adv. rewrite take_ge, drop_ge by (unfold zlen in *; lia). done.
  - rewrite <- (take_adv_join PageSize B) at 1. rewrite page_sums_cons; [done|]. apply zlen_take_more. unfold PageSize in *. lia.
Qed.

Lemma bytes_adv k (B : list Z) : Forall is_byte B -> Forall is_byte (adv k B).
Proof. apply Forall_drop. Qed.

Lemma csCalc_spec m B o : Forall is_byte B -> B <> [] -> 0 <= o -> csCalc m B o (zlen B) = Ok (piece_sums o B).
Proof.
  intros Hb HB Ho. unfold csCalc. rewrite pgOff_mod by done.
  pose proof (zlen_pos B HB). destruct (Z.eqb_spec (o mod PageSize) 0) as [Hz|Hz].
  - rewrite (proj2 (Z.eqb_neq _ _)) by lia. rewrite Calc32C_pages_spec by done. by rewrite (page_sums_pieces o).
  - fold (to_boundary o). pose proof (to_boundary_range o). unfold Calc32C. destruct (Z.leb_spec (zlen B) (to_boundary o)) as [Hle|Hgt].
    + rewrite crc32c_checksum by (done || lia). step_ok. unfold piece_sums. rewrite pieces_one by done.
      rewrite take_ge by (unfold zlen; lia). done.
    + rewrite crc32c_checksum by (done || lia). step_ok. rewrite (proj2 (Z.eqb_neq _ _)) by lia.
      rewrite <- zlen_adv_more by lia. rewrite Calc32C_pages_spec by by apply bytes_adv. step_ok.
      rewrite piece_sums_cons by done. by rewrite (page_sums_pieces (o + to_boundary o)) by apply aligned_next.
Qed.

(** ** The pieces with a wrong checksum *)

(** Where they are, with their length. *)
Definition bads (o : Z) (B : list Z) (cs : list Z) : list (Z * Z) :=
  omap (fun x => if x.2 =? checksum x.1.2 then None else Some (x.1.1, zlen x.1.2)) (zip (pieces o B) cs).

Lemma bads_cons o B c cs : B <> [] ->
  bads o B (c :: cs) = (if c =? checksum (take (Z.to_nat (to_boundary o)) B) then [] else [(o, zlen (take (Z.to_nat (to_boundary o)) B))])
                       ++ bads (o + to_boundary o) (adv (to_boundary o) B) cs.
Proof. intros HB. unfold bads. rewrite pieces_cons by done. cbn. by destruct (c =? _). Qed.

Lemma bads_nil o cs : bads o [] cs = [].
Proof. done. Qed.

(** What the search for a wrong checksum finds, from a boundary on: the piece [j] ends [e]
    bytes further. *)
Lemma first_bad o B cs k : o mod PageSize = 0 -> length cs = length (pieces o B) ->
  (first_mismatch k cs (page_sums B) = (-1, None) /\ bads o B cs = []) \/
  exists j s e, first_mismatch k cs (page_sums B) = (k + j, Some s) /\ 0 <= j /\ PageSize * j < zlen B /\ e = Z.min (PageSize * (j + 1)) (zlen B) /\
    bads o B cs = (o + PageSize * j, e - PageSize * j) :: bads (o + e) (adv e B) (drop (Z.to_nat (j + 1)) cs) /\
    length (drop (Z.to_nat (j + 1)) cs) = length (pieces (o + e) (adv e B)).
Proof.
  revert k cs. revert o B. refine (pieces_ind _ _ _).
  - intros o k cs _ Hl. apply nil_length_inv in Hl as ->. by left.
  - intros o B HB IH k cs Hm Hl. rewrite pieces_cons in Hl by done. destruct cs as [|c cs]; [done|]. injection Hl as Hl.
    rewrite (page_sums_pieces o), piece_sums_cons, first_mismatch_cons, bads_cons by done.
    rewrite to_boundary_aligned in * by done. pose proof (zlen_pos B HB) as Hp.
    assert ((o + PageSize) mod PageSize = 0) as Hm' by (unfold PageSize in *; lia_div).
    destruct (Z.eqb_spec c (checksum (take (Z.to_nat PageSize) B))) as [Hc|Hc].
    + rewrite <- (page_sums_pieces (o + PageSize)) by done. destruct (IH (k + 1) cs Hm' Hl) as [[-> ->]|(j & s & e & -> & Hj & Hlt & -> & -> & Hd)]; [by left|].
      right. destruct (decide (zlen B <= PageSize)) as [Hle|Hgt].
      { unfold adv in Hlt. rewrite drop_ge in Hlt by (unfold zlen in *; lia). change (zlen []) with 0 in Hlt. unfold PageSize in *. lia. }
      rewrite zlen_adv_more in * by (unfold PageSize in *; lia). exists (j + 1), s, (Z.min (PageSize * (j + 1 + 1)) (zlen B)).
      replace (Z.min (PageSize * (j + 1)) (zlen B - PageSize)) with (Z.min (PageSize * (j + 1 + 1)) (zlen B) - PageSize) in * by (unfold PageSize; lia).
      set (e := Z.min (PageSize * (j + 1 + 1)) (zlen B)) in *. rewrite adv_adv in * by (unfold e, PageSize in *; lia).
      replace (Z.to_nat (j + 1 + 1)) with (S (Z.to_nat (j + 1))) by lia. cbn [drop app].
      replace (o + PageSize + (e - PageSize)) with (o + e) in * by lia. replace (PageSize + (e - PageSize)) with e in * by lia.
      split_and!; [f_equal; lia|lia|unfold PageSize in *; lia|done| |done]. do 2 f_equal; unfold PageSize; lia.
    + right. exists 0, (checksum (take (Z.to_nat PageSize) B)), (Z.min PageSize (zlen B)). change (Z.to_nat (0 + 1)) with 1%nat.
      rewrite Z.mul_0_r, !Z.add_0_r, Z.sub_0_r. cbn [drop app].
      assert (zlen (take (Z.to_nat PageSize) B) = Z.min PageSize (zlen B)) as -> by (unfold zlen, PageSize in *; rewrite length_take; lia).
      destruct (decide (zlen B <= PageSize)) as [Hle|Hgt].
      * replace (Z.min PageSize (zlen B)) with (zlen B) by lia. assert (adv PageSize B = []) as E by (unfold adv; apply drop_ge; unfold zlen in *; lia).
        assert (adv (zlen B) B = []) as E' by (unfold adv; apply drop_ge; unfold zlen; lia). rewrite E, E' in *.
        split_and!; [done|lia|lia| |done|done]. unfold PageSize in *. lia.
      * replace (Z.min PageSize (zlen B)) with PageSize by lia. split_and!; [done|lia|lia| |done|done]. unfold PageSize in *. lia.
Qed.

(** What a verification that finds a wrong piece leaves: it goes on behind it. *)
Definition goes_on (o : Z) (B cs : list Z) (b : Z * Z) (d : dataInfo) : Prop := exists e, 0 < e <= zlen B /\
  data d = adv e B /\ offs d = o + e /\ count d = zlen (data d) /\ length (csval d) = length (pieces (offs d) (data d)) /\
  bads o B cs = b :: bads (offs d) (data d) (csval d).

Lemma csVer_pages_spec m o B cs : 0 <= o -> o mod PageSize = 0 -> Forall is_byte B -> length cs = length (pieces o B) ->
  exists d r, csVer_pages m (MkInfo B cs o (zlen B)) = Ok (d, r) /\
    match r with None => bads o B cs = [] | Some b => goes_on o B cs b d end.
Proof.
  intros Ho Hm Hb Hl. unfold csVer_pages. cbn [count offs csval data].
  destruct (decide (B = [])) as [->|HB]; [by eexists _, None|]. pose proof (zlen_pos B HB). rewrite (proj2 (Z.ltb_lt _ _)) by done.
  assert (Ver32C_first m B (zlen B) cs = Ok (first_mismatch 0 cs (page_sums B))) as ->.
  { pose proof (Ver32C_loops [] B m cs true 0) as H'. rewrite app_nil_r in H'. apply H'; [done|]. rewrite (page_sums_pieces o) by done.
    unfold piece_sums. by rewrite length_fmap. }
  step_ok. destruct (first_bad o B cs 0 Hm Hl) as [[-> Hbad]|(j & s & e & -> & Hj & Hlt & He & Hbad & Hd)]; [by eexists _, None|].
  rewrite Z.add_0_l. rewrite (proj2 (Z.leb_le _ _)) by done. eexists _, (Some _). split; [done|]. exists e. cbn [count offs csval data].
  assert (PageSize * j + (if zlen B - PageSize * j <=? PageSize then zlen B - PageSize * j else PageSize) = e) as Ee
    by (subst e; destruct (Z.leb_spec (zlen B - PageSize * j) PageSize); unfold PageSize in *; lia).
  rewrite <- (Z.add_assoc o), Ee. assert (0 < e <= zlen B) by (subst e; unfold PageSize in *; lia).
  split_and!; [lia|lia|done|done| |done|].
  - rewrite zlen_adv_more by lia. lia.
  - rewrite Hbad. do 2 f_equal. lia.
Qed.

Lemma csVer_spec m o B cs : 0 <= o -> Forall is_byte B -> length cs = length (pieces o B) ->
  exists d r, csVer m (MkInfo B cs o (zlen B)) = Ok (d, r) /\
    match r with None => bads o B cs = [] | Some b => goes_on o B cs b d end.
Proof.
  intros Ho Hb Hl. unfold csVer. cbn [count offs csval data]. destruct (decide (B = [])) as [->|HB]; [by eexists _, None|].
  pose proof (zlen_pos B HB) as Hp. rewrite (proj2 (Z.leb_gt _ _)) by lia. rewrite pgOff_mod by done.
  destruct (Z.eqb_spec (o mod PageSize) 0) as [Hz|Hz]; [by apply csVer_pages_spec|].
  fold (to_boundary o). pose proof (to_boundary_range o) as Hr. rewrite pieces_cons in Hl by done. destruct cs as [|c cs]; [done|]. injection Hl as Hl.
  unfold goes_on. pose proof (bads_cons o B c cs HB) as Hbc. set (p := take (Z.to_nat (to_boundary o)) B) in *. set (k := Z.min (to_boundary o) (zlen B)).
  assert (zlen p = k) as Ek by (unfold p, k, zlen; rewrite length_take; lia).
  assert ((if zlen B <? to_boundary o then (zlen B, 0) else (to_boundary o, zlen B - to_boundary o)) = (k, zlen B - k)) as ->
    by (unfold k; destruct (Z.ltb_spec (zlen B) (to_boundary o)); f_equal; lia).
  unfold Ver32C. assert (crc32c m 0 B k = Ok (checksum p)) as ->.
  { rewrite crc32c_checksum by (done || lia). do 2 f_equal. unfold p, k. destruct (decide (zlen B <= to_boundary o)) as [E|E].
    - rewrite Z.min_r by lia. rewrite !take_ge by (unfold zlen in *; lia). done.
    - by rewrite Z.min_l by lia. }
  step_ok.
  assert (adv k B = adv (to_boundary o) B /\ (adv k B <> [] -> k = to_boundary o)) as [Ead Hk].
  { unfold k, adv. destruct (decide (zlen B <= to_boundary o)) as [E|E]; [|by rewrite Z.min_l by lia].
    rewrite !drop_ge by (unfold zlen in *; lia). done. }
  rewrite <- Ead in *. rewrite Ek in Hbc. assert (pieces (o + to_boundary o) (adv k B) = pieces (o + k) (adv k B) /\ bads (o + to_boundary o) (adv k B) cs = bads (o + k) (adv k B) cs) as [Epc Eb].
  { destruct (decide (adv k B = [])) as [->|E]; [done|]. by rewrite (Hk E). }
  rewrite Epc in Hl. rewrite Eb in Hbc. assert (zlen (adv k B) = zlen B - k) as Ez by (apply zlen_adv_more; lia).
  destruct (c =? checksum p).
  - cbn [app]. destruct (decide (adv k B = [])) as [E|E].
    { assert (zlen B - k = 0) as Hz0 by (rewrite <- Ez; by rewrite E). rewrite Hbc, E, Hz0. by eexists _, None. }
    rewrite <- Ez. destruct (csVer_pages_spec m (o + k) (adv k B) cs) as (d & r & Hd & Hs); [lia|rewrite (Hk E); apply aligned_next|by apply bytes_adv|done|].
    exists d, r. split; [exact Hd|]. rewrite Hbc. destruct r as [b|]; [|done]. destruct Hs as (e & He & E1 & E2 & E3 & E4 & E5).
    exists (k + e). rewrite E1, adv_adv by lia. split_and!; [lia|lia|done|lia|by rewrite E3, E1, adv_adv by lia| |].
    + by rewrite E4, E1, adv_adv by lia.
    + rewrite E5. by rewrite E1, adv_adv by lia.
  - eexists _, (Some _). split; [done|]. exists k. cbn [count offs csval data]. split_and!; [lia|lia|done|done|lia|done|done].
Qed.

(** ** The pieces by number *)

Lemma pieces_lookup o B (i : nat) po p : pieces o B !! i = Some (po, p) ->
  po = (if decide (i = 0%nat) then o else o + to_boundary o + PageSize * (Z.of_nat i - 1)) /\ p = slice (po - o) (zlen p) B /\ p <> [] /\
  zlen p <= to_boundary po /\ o <= po /\ po + zlen p <= o + zlen B /\ (S i < length (pieces o B) -> zlen p = to_boundary po)%nat.
Proof.
  revert i. revert o B. refine (pieces_ind _ _ _); [done|]. intros o B HB IH i Hi. rewrite pieces_cons in Hi |- * by done. pose proof (to_boundary_range o) as Hr. pose proof (zlen_pos B HB) as Hp.
  destruct i as [|i].
  - injection Hi as <- <-. assert (zlen (take (Z.to_nat (to_boundary o)) B) = Z.min (to_boundary o) (zlen B)) as Hz by (unfold zlen; rewrite length_take; lia).
    rewrite decide_True by done. rewrite Z.sub_diag. unfold slice. change (drop (Z.to_nat 0) B) with B. split_and!; try done; try lia.
    + rewrite Hz. destruct (decide (to_boundary o <= zlen B)); [by rewrite Z.min_l by lia|]. rewrite Z.min_r by lia. rewrite !take_ge by (unfold zlen in *; lia). done.
    + intros E. rewrite E in Hz. change (zlen []) with 0 in Hz. lia.
    + cbn [length]. intros Hl. rewrite Hz. assert (adv (to_boundary o) B <> []) as Hn by (intros E; rewrite E in Hl; cbn in Hl; lia).
      assert (zlen (adv (to_boundary o) B) <> 0) by (pose proof (zlen_pos _ Hn); lia). unfold adv, zlen in *. rewrite length_drop in *. lia.
  - cbn [lookup list_lookup] in Hi. assert (adv (to_boundary o) B <> []) as Hn by (intros E; by rewrite E in Hi).
    assert (to_boundary o <= zlen B) as Hle by (destruct (decide (to_boundary o <= zlen B)); [done|]; exfalso; apply Hn; unfold adv; apply drop_ge; unfold zlen in *; lia).
    destruct (IH i Hi) as (Hpo & Hs & Hne & Htb & Hge & Hend & Hlast). rewrite zlen_adv_more in Hend by lia. rewrite decide_False by done. split_and!; try done; try lia.
    + rewrite Hpo. destruct (decide (i = 0%nat)) as [->|]; [lia|]. rewrite to_boundary_next. lia.
    + rewrite Hs at 1. unfold slice, adv. rewrite drop_drop. do 2 f_equal. lia.
    + cbn [length]. intros Hl. apply Hlast. lia.
Qed.

(** The pieces of data of the same length are cut alike. *)
Lemma pieces_alike o B B' (i : nat) po p : zlen B' = zlen B -> pieces o B !! i = Some (po, p) ->
  exists p', pieces o B' !! i = Some (po, p') /\ zlen p' = zlen p.
Proof.
  revert i B'. revert o B. refine (pieces_ind _ _ _); [done|]. intros o B HB IH i B' Hz Hi. pose proof (zlen_pos B HB) as Hp. pose proof (to_boundary_range o).
  assert (B' <> []) as HB' by (intros E; rewrite E in Hz; change (zlen []) with 0 in Hz; lia). rewrite pieces_cons in Hi |- * by done. destruct i as [|i].
  - injection Hi as <- <-. eexists. split; [done|]. unfold zlen in *. rewrite !length_take. lia.
  - cbn [lookup list_lookup] in Hi |- *. apply (IH i); [|done]. unfold adv, zlen in *. rewrite !length_drop. lia.
Qed.

(** Every byte is in a piece. *)
Lemma pieces_cover o B i : o <= i < o + zlen B -> exists (k : nat) po p, pieces o B !! k = Some (po, p) /\ po <= i < po + zlen p.
Proof.
  revert o B. refine (pieces_ind _ _ _); [intros o; change (zlen []) with 0; lia|]. intros o B HB IH Hi. rewrite pieces_cons by done. pose proof (to_boundary_range o).
  destruct (decide (i < o + to_boundary o)) as [Hlt|Hge].
  - exists 0%nat, o, (take (Z.to_nat (to_boundary o)) B). split; [done|]. unfold zlen in *. rewrite length_take. lia.
  - destruct IH as (k & po & p & Hk & Hin); [rewrite zlen_adv_more by lia; lia|]. by exists (S k), po, p.
Qed.

(** The piece behind one. *)
Lemma pieces_next o B (i : nat) po p : pieces o B !! i = Some (po, p) ->
  (S i = length (pieces o B) /\ po - o + zlen p = zlen B) \/
  exists q, pieces o B !! S i = Some (po + zlen p, q) /\ zlen q = Z.min PageSize (zlen B - (po - o + zlen p)).
Proof.
  revert i. revert o B. refine (pieces_ind _ _ _); [done|]. intros o B HB IH i Hi. rewrite pieces_cons in Hi |- * by done. pose proof (to_boundary_range o). pose proof (zlen_pos B HB).
  destruct (decide (zlen B <= to_boundary o)) as [Hle|Hgt].
  - assert (adv (to_boundary o) B = []) as E by (unfold adv; apply drop_ge; unfold zlen in *; lia). rewrite E, pieces_nil in *.
    destruct i as [|i]; [|done]. injection Hi as <- <-. left. split; [done|]. rewrite take_ge by (unfold zlen in *; lia). lia.
  - assert (adv (to_boundary o) B <> []) as Hn by (intros E; apply (f_equal zlen) in E; rewrite zlen_adv_more in E by lia; change (zlen []) with 0 in E; lia).
    destruct i as [|i].
    + injection Hi as <- <-. right. rewrite zlen_take_more by lia. cbn [lookup list_lookup]. rewrite pieces_cons by done. eexists. split; [done|].
      rewrite to_boundary_next. unfold zlen. rewrite length_take. fold (zlen (adv (to_boundary o) B)). pose proof (zlen_adv_more (to_boundary o) B ltac:(lia)). unfold zlen in *. lia.
    + cbn [lookup list_lookup] in Hi |- *. destruct (IH i Hi) as [(H1 & H2)|(q & H1 & H2)]; rewrite zlen_adv_more in H2 by lia; [left|right; exists q]; cbn [length]; (split; [done || lia|lia]).
Qed.

(** ** The lengths of the pieces and the layouts *)

(** The number of pieces of [n] bytes at [o], and the length of the last one. *)
Definition npieces (o n : Z) : Z := npages (o mod PageSize + n).
Definition last_len (o n : Z) : Z := if n <=? to_boundary o then n else (o + n - 1) mod PageSize + 1.

Lemma piece_lens o B : to_boundary o < zlen B ->
  (fun p => zlen p.2) <$> pieces o B = to_boundary o :: replicate (length (pieces o B) - 2) PageSize ++ [last_len o (zlen B)].
Proof.
  revert o B. refine (pieces_ind _ _ _); [intros o; pose proof (to_boundary_range o); change (zlen []) with 0; lia|].
  intros o B HB IH Hgt. pose proof (to_boundary_range o) as Hr. rewrite pieces_cons by done. cbn [fmap list_fmap length snd].
  rewrite zlen_take_more by lia. set (o' := o + to_boundary o) in *. set (B' := adv (to_boundary o) B) in *.
  assert (zlen B' = zlen B - to_boundary o) as Hz by (apply zlen_adv_more; lia).
  assert (to_boundary o' = PageSize) as Hb' by apply to_boundary_next.
  assert (B' <> []) as HB' by (intros E; rewrite E in Hz; change (zlen []) with 0 in Hz; lia).
  f_equal. unfold last_len. rewrite (proj2 (Z.leb_gt _ _)) by lia. destruct (decide (PageSize < zlen B')) as [Hlt|Hle].
  - change (list_fmap _ _ (fun p : Z * list Z => zlen p.2) (pieces o' B')) with ((fun p : Z * list Z => zlen p.2) <$> pieces o' B').
    rewrite IH, Hb' by lia. assert (2 <= length (pieces o' B'))%nat as Hk.
    { rewrite pieces_cons by done. cbn. rewrite Hb', pieces_cons; [cbn; lia|]. intros E. apply (f_equal zlen) in E.
      rewrite zlen_adv_more in E by (unfold PageSize in *; lia). change (zlen []) with 0 in E. lia. }
    replace (S (length (pieces o' B')) - 2)%nat with (S (length (pieces o' B') - 2)) by lia. cbn [replicate app]. do 3 f_equal.
    unfold last_len. rewrite (proj2 (Z.leb_gt _ _)) by lia. unfold o'. f_equal. f_equal. lia.
  - rewrite pieces_one by (done || lia). cbn. f_equal. rewrite Hz. unfold to_boundary, PageSize in *. lia_div.
Qed.

Lemma length_pieces o B : 0 <= o -> B <> [] -> length (pieces o B) = Z.to_nat (npieces o (zlen B)).
Proof. intros Ho HB. pose proof (zlen_pieces o B Ho HB) as H. unfold npieces. rewrite <- H. unfold zlen. lia. Qed.

Ltac page_cases := repeat match goal with
  | |- context [Z.eqb ?a ?b] => destruct (Z.eqb_spec a b)
  | |- context [Z.leb ?a ?b] => destruct (Z.leb_spec a b)
  | |- context [Z.ltb ?a ?b] => destruct (Z.ltb_spec a b)
  end.

Lemma csNum_lengths_spec o n : 0 <= o -> 0 < n -> csNum_lengths o n = (npieces o n, Z.min n (to_boundary o), last_len o n).
Proof.
  intros Ho Hn. unfold csNum_lengths, npieces, npages, last_len. rewrite (pgOff_mod o) by done. fold (to_boundary o).
  pose proof (to_boundary_range o) as Hr. rewrite (proj2 (Z.eqb_neq n 0)) by lia.
  assert ((if o mod PageSize =? 0 then if PageSize <=? n then PageSize else n else if n <=? to_boundary o then n else to_boundary o) = Z.min n (to_boundary o)) as ->.
  { unfold to_boundary in *. page_cases; lia. }
  destruct (Z.leb_spec n (to_boundary o)) as [Hle|Hgt].
  - rewrite Z.min_l, Z.sub_diag by lia. cbn. f_equal. f_equal. unfold to_boundary, PageSize in *. lia_div.
  - rewrite Z.min_r by lia. rewrite (proj2 (Z.eqb_neq _ 0)) by lia. rewrite pgOff_mod by lia. rewrite Z.quot_div_nonneg by (unfold PageSize; lia).
    unfold to_boundary, PageSize in *. page_cases; repeat f_equal; lia_div.
Qed.

(** The layout of [n] bytes of data in one transfer. *)
Definition layout_of (o n : Z) : Layout :=
  MkLayout (o mod PageSize) n (n + npieces o n * pgCsumSize) (Z.min n (to_boundary o)) (if n <=? to_boundary o then 0 else last_len o n).

Lemma sendLayout_spec o n : 0 <= o -> 0 < n -> n + npieces o n * pgCsumSize < 2 ^ 31 -> sendLayout o n 0 = inr (npieces o n, layout_of o n).
Proof.
  intros Ho Hn Hmax. unfold sendLayout. rewrite (pgOff_mod o) by done. rewrite (proj2 (Z.leb_gt n 0)) by lia. change (buffer_size 0) with (Some pgMaxBSize). cbv beta iota.
  fold (to_boundary o). pose proof (to_boundary_range o) as Hr.
  assert ((if o mod PageSize =? 0 then if PageSize <=? n then PageSize else n else if n <? to_boundary o then n else to_boundary o) = Z.min n (to_boundary o)) as ->.
  { unfold to_boundary in *. page_cases; lia. }
  unfold layout_of, last_len. destruct (Z.leb_spec n (to_boundary o)) as [Hle|Hgt].
  - rewrite Z.min_l, Z.sub_diag by lia. cbn. assert (npieces o n = 1) as -> by (unfold npieces, npages, to_boundary, PageSize in *; lia_div). done.
  - rewrite Z.min_r by lia. rewrite (proj2 (Z.eqb_neq _ 0)) by lia. change (negb false && negb (pgMaxBSize - PageSize =? 0)) with true. cbv beta iota.
    rewrite (proj2 (Z.ltb_ge _ _)) by (unfold npieces, npages, pgCsumSize, pgMaxBSize, PageSize in *; lia_div).
    rewrite pgOff_mod by lia. rewrite Z.quot_div_nonneg by (unfold PageSize; lia). 
    assert (1 + (n - to_boundary o) / PageSize + (if (n - to_boundary o) mod PageSize =? 0 then 0 else 1) = npieces o n) as ->
      by (unfold npieces, npages, to_boundary, PageSize in *; page_cases; lia_div).
    do 2 f_equal. f_equal; [lia|lia|]. unfold to_boundary, PageSize in *. page_cases; lia_div.
Qed.

(** Units of a checksum and a page, the last page perhaps short: how many bytes of data
    there are in [L] network bytes. *)
Definition unit_bytes (L : Z) : Z :=
  let bytes := Z.quot L pgUnitSize * PageSize in
  let bfrag := Z.rem L pgUnitSize in
  if bfrag =? 0 then bytes else bytes + (bfrag - pgCsumSize).
Definition too_short (L : Z) : bool := negb (Z.rem L pgUnitSize =? 0) && (Z.rem L pgUnitSize <=? pgCsumSize).

Lemma unit_bytes_of n : 0 < n -> too_short (n + npages n * pgCsumSize) = false /\ unit_bytes (n + npages n * pgCsumSize) = n.
Proof.
  intros Hn. set (q := n / 4096). set (r := n mod 4096). assert (n = 4096 * q + r /\ 0 <= r < 4096 /\ 0 <= q) as (En & Hr & Hq) by (unfold q, r; lia_div).
  unfold too_short, unit_bytes, pgUnitSize, pgCsumSize, PageSize. change (4096 + 4) with 4100.
  assert (n + npages n * 4 = 4100 * q + (if r =? 0 then 0 else r + 4)) as ->.
  { unfold npages, PageSize. change (4096 - 1) with 4095. destruct (Z.eqb_spec r 0); lia_div. }
  rewrite Z.quot_div_nonneg, Z.rem_mod_nonneg by (destruct (r =? 0); lia).
  assert ((4100 * q + (if r =? 0 then 0 else r + 4)) / 4100 = q /\ (4100 * q + (if r =? 0 then 0 else r + 4)) mod 4100 = if r =? 0 then 0 else r + 4) as [-> ->]
    by (destruct (Z.eqb_spec r 0); lia_div).
  destruct (Z.eqb_spec r 0); cbn; [lia|]. rewrite (proj2 (Z.eqb_neq _ 0)), (proj2 (Z.leb_gt _ 4)) by lia. cbn. lia.
Qed.

Lemma unit_bytes_inv L : 0 < L -> too_short L = false -> 0 < unit_bytes L /\ L = unit_bytes L + npages (unit_bytes L) * pgCsumSize.
Proof.
  intros HL. unfold too_short, unit_bytes, npages, pgUnitSize, pgCsumSize, PageSize. change (4096 + 4) with 4100. change (4096 - 1) with 4095.
  rewrite Z.quot_div_nonneg, Z.rem_mod_nonneg by lia. destruct (Z.eqb_spec (L mod 4100) 0), (Z.leb_spec (L mod 4100) 4); cbn; intros Hs; try done; lia_div.
Qed.

(** [recvLayout] without a buffer size, in these terms. *)
Lemma recvLayout_eq o L : 0 <= o -> L < 2 ^ 31 -> recvLayout o L 0 =
  if L <=? pgCsumSize then inl "invalid length"%string
  else if L - pgCsumSize <=? to_boundary o then inr (1, MkLayout (o mod PageSize) (L - pgCsumSize) L (L - pgCsumSize) 0)
  else
    let '(k, L') := if o mod PageSize =? 0 then (0, L) else (1, L - pgCsumSize - to_boundary o) in
    if too_short L' then inl "last page too short"%string
    else
      let bytes := unit_bytes L' in
      let n := (if o mod PageSize =? 0 then 0 else to_boundary o) + bytes in
      let lLen := bytes mod PageSize in
      let csNum := k + bytes / PageSize + (if lLen =? 0 then 0 else 1) in
      inr (csNum, MkLayout (o mod PageSize) n (n + csNum * pgCsumSize) (to_boundary o) (if lLen =? 0 then PageSize else lLen)).
Proof.
  intros Ho HL. unfold recvLayout. rewrite (pgOff_mod o) by done. change (buffer_size 0) with (Some pgMaxBSize). cbv beta iota. fold (to_boundary o).
  pose proof (to_boundary_range o) as Hr. destruct (Z.leb_spec L pgCsumSize) as [|Hpos]; [done|].
  assert (forall L', 0 < L' -> L' <= L -> too_short L' = false -> 0 <= unit_bytes L' <= pgMaxBSize - PageSize) as Hub.
  { intros L' H0 H1. unfold too_short, unit_bytes, pgMaxBSize, pgUnitSize, pgCsumSize, PageSize. change (4096 + 4) with 4100.
    rewrite Z.quot_div_nonneg, Z.rem_mod_nonneg by lia. destruct (Z.eqb_spec (L' mod 4100) 0), (Z.leb_spec (L' mod 4100) 4); cbn; intros Hs; try done; lia_div. }
  assert (forall L', negb (Z.rem L' pgUnitSize =? 0) && (Z.rem L' pgUnitSize <=? pgCsumSize) = too_short L') as Hts by done.
  assert (forall L', (if Z.rem L' pgUnitSize =? 0 then Z.quot L' pgUnitSize * PageSize else Z.quot L' pgUnitSize * PageSize + (Z.rem L' pgUnitSize - pgCsumSize)) = unit_bytes L') as Hun by done.
  destruct (Z.eqb_spec (o mod PageSize) 0) as [Hz|Hz]; cbn [negb].
  - rewrite (to_boundary_aligned o Hz) in *. destruct (Z.leb_spec (L - pgCsumSize) PageSize) as [|Hgt].
    { cbn. do 2 f_equal. unfold pgCsumSize in *. f_equal. lia. }
    change (pgMaxBSize =? 0) with false. cbv beta iota zeta. rewrite Z.sub_add, Hts, Hun.
    destruct (too_short L) eqn:Et; [done|]. destruct (Hub L) as [Hu0 Hu1]; [unfold pgCsumSize in *; lia|lia|done|].
    rewrite (proj2 (Z.ltb_ge _ _)) by (unfold PageSize in *; lia). rewrite pgOff_mod, Z.quot_div_nonneg by (done || unfold PageSize; lia). done.
  - destruct (Z.leb_spec (L - pgCsumSize) (to_boundary o)) as [|Hgt].
    { cbn. do 2 f_equal. unfold pgCsumSize in *. f_equal. lia. }
    change (pgMaxBSize - PageSize =? 0) with false. cbv beta iota zeta. rewrite Hts, Hun.
    destruct (too_short _) eqn:Et; [done|]. destruct (Hub (L - pgCsumSize - to_boundary o)) as [Hu0 Hu1]; [lia|unfold pgCsumSize in *; lia|done|].
    rewrite (proj2 (Z.ltb_ge _ _)) by lia. rewrite pgOff_mod, Z.quot_div_nonneg by (done || unfold PageSize; lia). done.
Qed.

Lemma recvLayout_spec o n : 0 <= o -> 0 < n -> n + npieces o n * pgCsumSize < 2 ^ 31 ->
  recvLayout o (n + npieces o n * pgCsumSize) 0 = inr (npieces o n, layout_of o n).
Proof.
  intros Ho Hn Hmax. rewrite recvLayout_eq by done. pose proof (to_boundary_range o) as Hr.
  assert (0 < npieces o n) as Hk by (unfold npieces, npages, PageSize in *; lia_div).
  rewrite (proj2 (Z.leb_gt _ pgCsumSize)) by (unfold pgCsumSize in *; lia). unfold layout_of, last_len.
  destruct (Z.leb_spec n (to_boundary o)) as [Hle|Hgt].
  - assert (npieces o n = 1) as -> by (unfold npieces, npages, to_boundary, PageSize in *; lia_div). rewrite Z.mul_1_l, Z.add_simpl_r, Z.min_l by lia.
    by rewrite (proj2 (Z.leb_le _ _)) by lia.
  - rewrite (proj2 (Z.leb_gt _ _)) by (unfold npieces, npages, to_boundary, pgCsumSize, PageSize in *; lia_div). rewrite Z.min_r by lia.
    destruct (Z.eqb_spec (o mod PageSize) 0) as [Hz|Hz].
    + assert (npieces o n = npages n) as E by (unfold npieces; by rewrite Hz). rewrite E. destruct (unit_bytes_of n Hn) as [-> ->]. rewrite (to_boundary_aligned o Hz) in *.
      assert (0 + n / PageSize + (if n mod PageSize =? 0 then 0 else 1) = npages n) as -> by (unfold npages, PageSize in *; page_cases; lia_div).
      do 2 f_equal. f_equal. unfold PageSize in *. page_cases; lia_div.
    + assert (npieces o n = 1 + npages (n - to_boundary o)) as E by (unfold npieces, npages, to_boundary, PageSize in *; lia_div).
      replace (n + npieces o n * pgCsumSize - pgCsumSize - to_boundary o) with ((n - to_boundary o) + npages (n - to_boundary o) * pgCsumSize) by (rewrite E; unfold pgCsumSize; lia).
      destruct (unit_bytes_of (n - to_boundary o) ltac:(lia)) as [-> ->].
      assert (1 + (n - to_boundary o) / PageSize + (if (n - to_boundary o) mod PageSize =? 0 then 0 else 1) = npieces o n) as ->
        by (rewrite E; unfold npages, PageSize in *; page_cases; lia_div).
      replace (to_boundary o + (n - to_boundary o)) with n by lia. do 2 f_equal. f_equal. unfold to_boundary, PageSize in *. page_cases; lia_div.
Qed.

Lemma recvLayout_inv o L k lay : 0 <= o -> L < 2 ^ 31 -> recvLayout o L 0 = inr (k, lay) ->
  exists n, 0 < n /\ L = n + npieces o n * pgCsumSize /\ k = npieces o n /\ lay = layout_of o n.
Proof.
  intros Ho HL Hrecv. enough (exists n, 0 < n /\ L = n + npieces o n * pgCsumSize) as (n & Hn & ->).
  { exists n. rewrite recvLayout_spec in Hrecv by lia. injection Hrecv as <- <-. done. }
  rewrite recvLayout_eq in Hrecv by done. pose proof (to_boundary_range o) as Hr. destruct (Z.leb_spec L pgCsumSize) as [|Hpos]; [done|].
  destruct (Z.leb_spec (L - pgCsumSize) (to_boundary o)) as [Hle|Hgt].
  { exists (L - pgCsumSize). split; [lia|]. assert (npieces o (L - pgCsumSize) = 1) as -> by (unfold npieces, npages, to_boundary, PageSize in *; lia_div). lia. }
  destruct (Z.eqb_spec (o mod PageSize) 0) as [Hz|Hz]; destruct (too_short _) eqn:Et; try done.
  - destruct (unit_bytes_inv L) as [Hu HE]; [unfold pgCsumSize in *; lia|done|]. exists (unit_bytes L). split; [done|]. unfold npieces. by rewrite Hz.
  - destruct (unit_bytes_inv (L - pgCsumSize - to_boundary o)) as [Hu HE]; [lia|done|]. exists (to_boundary o + unit_bytes (L - pgCsumSize - to_boundary o)). split; [lia|].
    assert (npieces o (to_boundary o + unit_bytes (L - pgCsumSize - to_boundary o)) = 1 + npages (unit_bytes (L - pgCsumSize - to_boundary o))) as ->
      by (unfold npieces, npages, to_boundary, PageSize in *; lia_div). unfold pgCsumSize in *. lia.
Qed.

(** C13: A transfer of data with checksums is laid out alike on both sides:
    the sender's layout of any number of bytes at any offset has a checksum
    for each piece, the receiver computes the same layout from its network
    length, and a network length is accepted exactly when it is that of some
    data, of which there is only one. *)
Theorem Layout_roundtrip o L : 0 <= o -> L < 2 ^ 31 ->
  (forall B, B <> [] -> zlen B + npieces o (zlen B) * pgCsumSize < 2 ^ 31 -> exists lay,
     sendLayout o (zlen B) 0 = inr (zlen (pieces o B), lay) /\ recvLayout o (sockLen lay) 0 = inr (zlen (pieces o B), lay) /\
     dataLen lay = zlen B /\ sockLen lay = zlen B + 4 * zlen (pieces o B)) /\
  forall k lay, recvLayout o L 0 = inr (k, lay) -> sockLen lay = L /\ 0 < dataLen lay /\ sendLayout o (dataLen lay) 0 = inr (k, lay) /\
    forall n, 0 < n -> n + npieces o n * pgCsumSize = L -> n = dataLen lay.
Proof.
  intros Ho HL. split.
  - intros B HB Hmax. pose proof (zlen_pos B HB). exists (layout_of o (zlen B)). rewrite zlen_pieces by done. fold (npieces o (zlen B)).
    rewrite sendLayout_spec by lia. change (sockLen (layout_of o (zlen B))) with (zlen B + npieces o (zlen B) * pgCsumSize). rewrite recvLayout_spec by lia.
    split_and!; [done..|unfold pgCsumSize; lia].
  - intros k lay Hrecv. destruct (recvLayout_inv _ _ _ _ Ho HL Hrecv) as (n & Hn & -> & -> & ->). split_and!; [done..|by apply sendLayout_spec|].
    intros n' Hn' He. cbn. unfold npieces, npages, pgCsumSize, PageSize in He. lia_div.
Qed.

Lemma Layout_roundtrip_witness : sockLen (layout_of 10 5000) = 5008 /\ sendLayout 10 5000 0 = inr (2, layout_of 10 5000).
Proof.
  split; [reflexivity|]. assert (recvLayout 10 5008 0 = inr (2, layout_of 10 5000)) as Hrecv by reflexivity.
  exact (proj1 (proj2 (proj2 (proj2 (Layout_roundtrip 10 5008 ltac:(done) ltac:(done)) 2 (layout_of 10 5000) Hrecv)))).
Defined.
