(* ===== verification/LinkData.v ===== *)
(** * Data that arrives in pieces (XrdXrootd/XrdXrootdProtocol.cc)

    [getData] of a vector reads the elements of an [iovec] from the link. When the link has
    less than that the elements that are complete are skipped, the one in the middle is
    moved on in place, and the call returns: [getDataIovCont] goes on when more has
    arrived. The elements are restored as they complete, since the vector is used again.
    The link is the list of what each [Recv] finds there; a [Recv] that finds nothing has
    timed out, and one on a link without arrivals fails. *)

From stdpp Require Import base tactics list_numbers numbers option list.
From S2P Require Import Prelude.
#[local] Set Warnings "-clear-no-such-hyp".

(** ** Memory *)

(** Addresses in the vector of checksums of the control object and in the heap. *)
Inductive ptr : Type :=
  | PCs (off : Z)
  | PHeap (addr : Z).

(** The vector of checksums as it came, and the data buffer with its address. *)
Record mem := MkMem { csMem : list Z; bufAt : Z; bufMem : list Z }.

Record iovec := MkIov { iov_base : ptr; iov_len : Z }.

Definition ptr_add (p : ptr) (k : Z) : ptr := match p with PCs o => PCs (o + k) | PHeap a => PHeap (a + k) end.

Definition put (off : Z) (l m : list Z) : res (list Z) :=
  if (0 <=? off) && (off + zlen l <=? zlen m) then Ok (take (Z.to_nat off) m ++ l ++ drop (Z.to_nat (off + zlen l)) m) else Fault.

Definition store (p : ptr) (l : list Z) (M : mem) : res mem :=
  match p with
  | PCs o => c ← put o l (csMem M); Ok (MkMem c (bufAt M) (bufMem M))
  | PHeap a => b ← put (a - bufAt M) l (bufMem M); Ok (MkMem (csMem M) (bufAt M) b)
  end.

(** Bytes that arrive for a vector. *)
Fixpoint scatter (v : list iovec) (l : list Z) (M : mem) : res mem :=
  match v, l with
  | e :: v, _ :: _ =>
      M ← store (iov_base e) (take (Z.to_nat (iov_len e)) l) M;
      scatter v (drop (Z.to_nat (iov_len e)) l) M
  | _, _ => Ok M
  end.

Definition iov_total (v : list iovec) : Z := foldr (fun e n => iov_len e + n) 0 v.

(** ** The link *)

(** [Recv( iov, n, readWait )]: what it returns, the arrivals left and the memory *)
Definition Recv (v : list iovec) (net : list (list Z)) (M : mem) : res (Z * list (list Z) * mem) :=
  match net with
  | [] => Ok (-1, [], M)
  | a :: net =>
      let got := take (Z.to_nat (iov_total v)) a in
      let left := drop (Z.to_nat (iov_total v)) a in
      M ← scatter v got M;
      Ok (zlen got, if left is [] then net else left :: net, M)
  end.

(** ** The reading of a vector *)

(** [GetDataCtl]: the elements, the current one, how far it has been moved, and whether the
    callback is used *)
Record GetDataCtl := MkGd { gd_num : Z; gd_now : Z; gd_adj : Z; gd_useCB : bool }.

(** Where the bytes of one [Recv] end: [for (i = iNow; i < iovN && ioV[i].iov_len <= rlen; i++)] *)
Fixpoint iov_end (v : list iovec) (i rlen : Z) : Z * Z :=
  match v with
  | [] => (i, rlen)
  | e :: v => if iov_len e <=? rlen then iov_end v (i + 1) (rlen - iov_len e) else (i, rlen)
  end.

(** Moves an element on in place. *)
Definition iov_shift (k : Z) (e : iovec) : iovec := MkIov (ptr_add (iov_base e) k) (iov_len e - k).
Definition iov_adjust (i k : Z) (v : list iovec) : list iovec := alter (iov_shift k) (Z.to_nat i) v.

(** What one turn of the loop comes to: the vector is complete, the link has no more, the
    link failed, or it gave too much *)
Inductive turn : Type := Complete | Suspend | LinkError | Overrun.

(** One turn of [getDataIovCont]: up to the callback, or to the return *)
Definition iov_turn (g : GetDataCtl) (ioV : list iovec) (net : list (list Z)) (M : mem) :
    res (turn * GetDataCtl * list iovec * list (list Z) * mem) :=
  let iNow := gd_now g in
  let asked := drop (Z.to_nat iNow) (take (Z.to_nat (gd_num g)) ioV) in
  '(rlen, net, M) ← Recv asked net M;
  if rlen <? 0 then
    let '(ioV, adj) := if gd_adj g =? 0 then (ioV, 0) else (iov_adjust iNow (- gd_adj g) ioV, 0) in
    Ok (LinkError, MkGd (gd_num g) iNow adj (gd_useCB g), ioV, net, M)
  else
    let '(i, rlen) := iov_end asked iNow rlen in
    let '(ioV, adj) := if negb (i =? iNow) && negb (gd_adj g =? 0) then (iov_adjust iNow (- gd_adj g) ioV, 0) else (ioV, gd_adj g) in
    if gd_num g <=? i then Ok (if rlen =? 0 then Complete else Overrun, MkGd (gd_num g) iNow adj (gd_useCB g), ioV, net, M)
    else
      let '(ioV, adj) := if rlen =? 0 then (ioV, adj) else (iov_adjust i rlen ioV, adj + rlen) in
      Ok (Suspend, MkGd (gd_num g) i adj true, ioV, net, M).

(** ** Memory in pieces *)

Lemma ptr_add_0 p : ptr_add p 0 = p.
Proof. destruct p; cbn; f_equal; lia. Qed.

Lemma ptr_add_add p a b : ptr_add (ptr_add p a) b = ptr_add p (a + b).
Proof. destruct p; cbn; f_equal; lia. Qed.

Lemma iov_shift_0 e : iov_shift 0 e = e.
Proof. destruct e as [p n]. unfold iov_shift. cbn. rewrite ptr_add_0. f_equal. lia. Qed.

Lemma iov_shift_add a b e : iov_shift b (iov_shift a e) = iov_shift (a + b) e.
Proof. unfold iov_shift. cbn. rewrite ptr_add_add. f_equal. lia. Qed.

Lemma put_app off a b m : put off (a ++ b) m = put off a m ≫= put (off + zlen a) b.
Proof.
  unfold put. pose proof (zlen_nonneg a) as Ha. pose proof (zlen_nonneg b) as Hb. rewrite zlen_app.
  destruct (Z.leb_spec 0 off) as [Ho|Ho]; [|done]. cbn [andb]. destruct (Z.leb_spec (off + zlen a) (zlen m)) as [H1|H1].
  - rewrite bind_Ok. cbv beta. rewrite !zlen_app.
    assert (zlen (take (Z.to_nat off) m) = off) as Hz1 by (unfold zlen in *; rewrite length_take; lia).
    assert (zlen (drop (Z.to_nat (off + zlen a)) m) = zlen m - (off + zlen a)) as Hz2 by (unfold zlen in *; rewrite length_drop; lia).
    rewrite Hz1, Hz2. rewrite (proj2 (Z.leb_le 0 (off + zlen a))) by lia. cbn [andb].
    destruct (Z.leb_spec (off + (zlen a + zlen b)) (zlen m)) as [H2|H2], (Z.leb_spec (off + zlen a + zlen b) (off + (zlen a + (zlen m - (off + zlen a))))) as [H3|H3]; try lia; [|done].
    f_equal. rewrite <- !app_assoc.
    rewrite !(app_assoc (take (Z.to_nat off) m) a). assert (length (take (Z.to_nat off) m ++ a) = Z.to_nat (off + zlen a)) as Hz3 by (rewrite length_app; unfold zlen in *; lia).
    rewrite (take_app_le (take (Z.to_nat off) m ++ a)), (take_ge (take (Z.to_nat off) m ++ a)) by lia.
    rewrite (drop_app_ge (take (Z.to_nat off) m ++ a)), drop_drop by (unfold zlen in *; lia). rewrite <- !app_assoc. do 4 f_equal. unfold zlen in *; lia.
  - rewrite (proj2 (Z.leb_gt _ _)) by lia. done.
Qed.

Lemma store_app p a b M : store p (a ++ b) M = store p a M ≫= store (ptr_add p (zlen a)) b.
Proof.
  destruct p as [o|x]; cbn [store ptr_add]; rewrite put_app.
  - destruct (put o a (csMem M)); done.
  - destruct (put (x - bufAt M) a (bufMem M)); try done. rewrite !bind_Ok. cbn. by replace (x + zlen a - bufAt M) with (x - bufAt M + zlen a) by lia.
Qed.

(** ** The elements from a byte on *)

Definition iov_ok (v : list iovec) : Prop := Forall (fun e => 0 < iov_len e) v.

(** What is left of a vector behind [k] bytes. *)
Fixpoint iov_skip (v : list iovec) (k : Z) : list iovec :=
  match v with
  | [] => []
  | e :: v => if iov_len e <=? k then iov_skip v (k - iov_len e) else iov_shift k e :: v
  end.

Lemma zlen_0_nil (l : list Z) : zlen l <= 0 -> l = [].
Proof. destruct l; [done|]. rewrite zlen_cons. pose proof (zlen_nonneg l). lia. Qed.

Lemma scatter_nil v M : scatter v [] M = Ok M.
Proof. by destruct v. Qed.

Lemma scatter_cons e v l M : l <> [] ->
  scatter (e :: v) l M = store (iov_base e) (take (Z.to_nat (iov_len e)) l) M ≫= scatter v (drop (Z.to_nat (iov_len e)) l).
Proof. by destruct l. Qed.

Lemma scatter_app v a b M : iov_ok v -> scatter v (a ++ b) M = scatter v a M ≫= scatter (iov_skip v (zlen a)) b.
Proof.
  intros Hv. destruct (decide (b = [])) as [->|Hb]; [rewrite app_nil_r; destruct (scatter v a M); try done; by rewrite bind_Ok, scatter_nil|].
  revert a M Hv. induction v as [|e v IH]; intros a M Hv; [done|]. inversion_clear Hv as [|? ? He Hv'].
  destruct a as [|x a'] eqn:Ea.
  { rewrite scatter_nil, bind_Ok. change (zlen []) with 0. cbn [iov_skip app]. rewrite (proj2 (Z.leb_gt _ _)) by done. by rewrite iov_shift_0. }
  rewrite <- Ea. assert (a <> []) as Hn by (by rewrite Ea). clear Ea. rewrite (scatter_cons e v (a ++ b)) by (by destruct a). rewrite scatter_cons by done.
  cbn [iov_skip]. destruct (Z.leb_spec (iov_len e) (zlen a)) as [Hle|Hgt].
  - rewrite take_app_le, drop_app_le by (unfold zlen in *; lia). destruct (store _ _ M); try done. rewrite !bind_Ok, IH by done.
    replace (zlen (drop (Z.to_nat (iov_len e)) a)) with (zlen a - iov_len e) by (unfold zlen in *; rewrite length_drop; lia). done.
  - rewrite take_app_ge, drop_app_ge, store_app by (unfold zlen in *; lia). rewrite (take_ge a), (drop_ge a) by (unfold zlen in *; lia).
    destruct (store (iov_base e) a M) as [M1| | |] eqn:E1; try done. rewrite !bind_Ok, scatter_nil, bind_Ok.
    rewrite scatter_cons by done. cbn [iov_shift iov_base iov_len]. replace (Z.to_nat (iov_len e - zlen a)) with (Z.to_nat (iov_len e) - length a)%nat by (unfold zlen in *; lia). done.
Qed.

Lemma iov_total_app v w : iov_total (v ++ w) = iov_total v + iov_total w.
Proof. unfold iov_total. induction v as [|e v IH]; cbn in *; lia. Qed.

Lemma iov_total_cons e v : iov_total (e :: v) = iov_len e + iov_total v.
Proof. done. Qed.

Lemma iov_total_nonneg v : iov_ok v -> 0 <= iov_total v.
Proof. unfold iov_total. induction 1; cbn; lia. Qed.

(** The state of a vector [V] of which [k] bytes have arrived: the element [now] is moved on
    by [adj], the others are as they were. [T] are elements behind the vector. *)
Inductive at_byte (V T : list iovec) (k : Z) : Z -> Z -> list iovec -> Prop :=
  | at_byte_intro V1 e V2 adj : V = V1 ++ e :: V2 -> k = iov_total V1 + adj -> 0 <= adj < iov_len e ->
      at_byte V T k (zlen V1) adj (V1 ++ iov_shift adj e :: V2 ++ T).

Lemma iov_skip_at V1 e V2 adj : iov_ok V1 -> 0 <= adj < iov_len e ->
  iov_skip (V1 ++ e :: V2) (iov_total V1 + adj) = iov_shift adj e :: V2.
Proof.
  intros HV Ha. induction HV as [|e1 V1 He HV IH]; cbn [app iov_skip]; [change (iov_total []) with 0|rewrite iov_total_cons].
  - rewrite (proj2 (Z.leb_gt _ _)) by lia. done.
  - pose proof (iov_total_nonneg V1 HV) as Ht. rewrite (proj2 (Z.leb_le _ _)) by lia. rewrite <- IH. f_equal. lia.
Qed.

(** Where the bytes of a [Recv] end. *)
Lemma iov_end_spec v i r : iov_ok v -> 0 <= r <= iov_total v ->
  (r = iov_total v /\ iov_end v i r = (i + zlen v, 0)) \/
  exists v1 e v2, v = v1 ++ e :: v2 /\ 0 <= r - iov_total v1 < iov_len e /\ iov_end v i r = (i + zlen v1, r - iov_total v1).
Proof.
  intros Hv. revert i r. induction Hv as [|e v He Hv IH]; intros i r Hr.
  - left. change (iov_total []) with 0 in *. change (zlen []) with 0. split; [lia|]. cbn. f_equal; lia.
  - cbn [iov_end]. rewrite iov_total_cons in *. destruct (Z.leb_spec (iov_len e) r) as [Hle|Hgt].
    + destruct (IH (i + 1) (r - iov_len e) ltac:(lia)) as [[E ->]|(v1 & e' & v2 & -> & Hb & ->)].
      * left. split; [lia|]. rewrite zlen_cons. f_equal. lia.
      * right. exists (e :: v1), e', v2. rewrite iov_total_cons, zlen_cons. split_and!; [done|lia|lia|f_equal; lia].
    + right. exists [], e, v. change (zlen []) with 0. cbn [iov_total foldr]. split_and!; [done|lia|lia|f_equal; lia].
Qed.

Lemma iov_adjust_at V1 e V2 k : iov_adjust (zlen V1) k (V1 ++ e :: V2) = V1 ++ iov_shift k e :: V2.
Proof.
  unfold iov_adjust. replace (Z.to_nat (zlen V1)) with (length V1 + 0)%nat by (unfold zlen; lia). by rewrite alter_app_r.
Qed.

Lemma iov_restore V1 e V2 k : iov_adjust (zlen V1) (- k) (V1 ++ iov_shift k e :: V2) = V1 ++ e :: V2.
Proof. by rewrite iov_adjust_at, iov_shift_add, Z.add_opp_diag_r, iov_shift_0. Qed.

(** What an arrival leaves for the next [Recv] when [n] bytes of it are taken. *)
Definition arrivals_left (n : Z) (a : list Z) (net : list (list Z)) : list (list Z) :=
  if drop (Z.to_nat n) a is [] then net else drop (Z.to_nat n) a :: net.

Lemma arrivals_left_join n a net : take (Z.to_nat n) a ++ mjoin (arrivals_left n a net) = mjoin (a :: net).
Proof.
  unfold arrivals_left. rewrite <- (take_drop (Z.to_nat n) a) at 3. destruct (drop (Z.to_nat n) a) as [|x l]; cbn; [by rewrite app_nil_r|by rewrite <- app_assoc].
Qed.

Lemma Recv_asked v a net M M' : scatter v (take (Z.to_nat (iov_total v)) a) M = Ok M' ->
  Recv v (a :: net) M = Ok (Z.min (Z.max 0 (iov_total v)) (zlen a), arrivals_left (iov_total v) a net, M').
Proof. intros E. cbn. rewrite E, bind_Ok. do 2 f_equal. f_equal. unfold zlen. rewrite length_take. lia. Qed.

Lemma iov_turn_spec V T k now adj ioV cb w a net M0 M M' : iov_ok V -> at_byte V T k now adj ioV -> zlen w = k ->
  scatter V w M0 = Ok M -> let got := take (Z.to_nat (iov_total V - k)) a in scatter V (w ++ got) M0 = Ok M' ->
  exists now' adj', if iov_total V - k <=? zlen a
    then iov_turn (MkGd (zlen V) now adj cb) ioV (a :: net) M = Ok (Complete, MkGd (zlen V) now' adj' cb, V ++ T, arrivals_left (iov_total V - k) a net, M')
    else exists ioV', iov_turn (MkGd (zlen V) now adj cb) ioV (a :: net) M = Ok (Suspend, MkGd (zlen V) now' adj' true, ioV', net, M') /\
           at_byte V T (k + zlen a) now' adj' ioV'.
Proof.
  intros Hv Hat Hw HM got HM'. destruct Hat as [V1 e V2 adj -> -> Hadj].
  assert (iov_ok V1 /\ 0 < iov_len e /\ iov_ok V2) as (Hv1 & He & Hv2) by (unfold iov_ok in *; apply Forall_app in Hv as [? Hv]; by inversion_clear Hv).
  rewrite scatter_app, HM, bind_Ok, Hw, iov_skip_at in HM' by done. unfold iov_turn. cbn [gd_num gd_now gd_adj gd_useCB].
  assert (drop (Z.to_nat (zlen V1)) (take (Z.to_nat (zlen (V1 ++ e :: V2))) (V1 ++ iov_shift adj e :: V2 ++ T)) = iov_shift adj e :: V2) as ->.
  { replace (V1 ++ iov_shift adj e :: V2 ++ T) with ((V1 ++ iov_shift adj e :: V2) ++ T) by by rewrite <- app_assoc.
    rewrite take_app_length' by (unfold zlen; rewrite Nat2Z.id, !length_app; done). apply drop_app_length'. unfold zlen; lia. }
  set (v := iov_shift adj e :: V2) in *. assert (iov_total (V1 ++ e :: V2) - (iov_total V1 + adj) = iov_total v) as Ht
    by (unfold v; rewrite iov_total_app, !iov_total_cons; cbn; lia).
  assert (iov_ok v) as Hok by (constructor; [cbn; lia|done]). pose proof (iov_total_nonneg v Hok) as Hpos.
  unfold got in *. clear got. rewrite Ht in *. rewrite (Recv_asked _ _ _ _ _ HM'), bind_Ok. cbv beta iota.
  set (r := Z.min (Z.max 0 (iov_total v)) (zlen a)). pose proof (zlen_nonneg a). rewrite (proj2 (Z.ltb_ge r 0)) by (unfold r; lia).
  destruct (iov_end_spec v (zlen V1) r Hok ltac:(unfold r; lia)) as [[Er ->]|(v1 & e2 & v2 & Ev & Hb & ->)].
  - exists (zlen V1), 0. rewrite (proj2 (Z.leb_le _ _)) by (unfold r in Er; lia). unfold v. rewrite zlen_cons. pose proof (zlen_nonneg V2).
    rewrite (proj2 (Z.eqb_neq (zlen V1 + _) _)) by lia. cbn [negb andb]. rewrite zlen_app, zlen_cons.
    destruct (Z.eqb_spec adj 0) as [->|Hadj0]; cbn [negb].
    + rewrite (proj2 (Z.leb_le _ _)) by lia. rewrite iov_shift_0. change (0 =? 0) with true. cbv iota. by rewrite <- app_assoc.
    + rewrite iov_restore. rewrite (proj2 (Z.leb_le _ _)) by lia. change (0 =? 0) with true. cbv iota. by rewrite <- app_assoc.
  - assert (r = zlen a /\ zlen a < iov_total v) as [Er Hlt].
    { pose proof (iov_total_nonneg v2). rewrite Ev in Hok. unfold iov_ok in *. apply Forall_app in Hok as [? Hok]. inversion_clear Hok.
      assert (iov_total v = iov_total v1 + (iov_len e2 + iov_total v2)) by (rewrite Ev, iov_total_app, iov_total_cons; done). unfold r in *. intuition lia. }
    rewrite Er in *. assert (arrivals_left (iov_total v) a net = net) as -> by (unfold arrivals_left; rewrite drop_ge by (unfold zlen in *; lia); done).
    assert (zlen (V1 ++ e :: V2) = zlen V1 + zlen v) as Hzv by (unfold v; by rewrite zlen_app, !zlen_cons).
    assert (zlen v = zlen v1 + (1 + zlen v2)) as Hzv' by (by rewrite Ev, zlen_app, zlen_cons). pose proof (zlen_nonneg v1). pose proof (zlen_nonneg v2).
    destruct v1 as [|e1 v1].
    + change (zlen []) with 0 in *. change (iov_total []) with 0 in *. cbn [app] in Ev. injection Ev as <- <-. rewrite Z.add_0_r, Z.sub_0_r in *.
      rewrite Z.eqb_refl. cbn [negb andb]. rewrite (proj2 (Z.leb_gt (zlen (V1 ++ e :: V2)) _)) by lia. rewrite (proj2 (Z.leb_gt _ (zlen a))) by lia.
      exists (zlen V1), (adj + zlen a), (V1 ++ iov_shift (adj + zlen a) e :: V2 ++ T). split.
      * destruct (Z.eqb_spec (zlen a) 0) as [E|E]; [by rewrite E, Z.add_0_r|]. by rewrite iov_adjust_at, iov_shift_add.
      * replace (iov_total V1 + adj + zlen a) with (iov_total V1 + (adj + zlen a)) by lia. constructor; [done|done|]. cbn in Hb. lia.
    + cbn [app] in Ev. injection Ev as <- ->. rewrite zlen_cons in *. rewrite iov_total_cons in Hb. cbn [iov_shift iov_len] in Hb. pose proof (zlen_nonneg v1).
      rewrite (proj2 (Z.eqb_neq (zlen V1 + _) _)) by lia. cbn [negb andb]. rewrite (proj2 (Z.leb_gt (iov_total _) (zlen a))) by lia.
      assert ((if negb (adj =? 0) then (iov_adjust (zlen V1) (- adj) (V1 ++ iov_shift adj e :: (v1 ++ e2 :: v2) ++ T), 0)
               else (V1 ++ iov_shift adj e :: (v1 ++ e2 :: v2) ++ T, adj)) = ((V1 ++ e :: v1) ++ e2 :: v2 ++ T, 0)) as ->.
      { rewrite <- !app_assoc. cbn [app]. destruct (Z.eqb_spec adj 0) as [->|]; cbn [negb]; [by rewrite iov_shift_0|by rewrite iov_restore]. }
      rewrite (proj2 (Z.leb_gt (zlen _) _)) by lia.
      set (b := zlen a - iov_total (iov_shift adj e :: v1)). assert (0 <= b < iov_len e2) by (unfold b; rewrite iov_total_cons; cbn; lia).
      exists (zlen (V1 ++ e :: v1)), b, ((V1 ++ e :: v1) ++ iov_shift b e2 :: v2 ++ T). split.
      * replace (zlen V1 + (1 + zlen v1)) with (zlen (V1 ++ e :: v1)) by (rewrite zlen_app, zlen_cons; lia).
        destruct (Z.eqb_spec b 0) as [E|E]; [rewrite E, iov_shift_0|rewrite iov_adjust_at]; done.
      * replace (iov_total V1 + adj + zlen a) with (iov_total (V1 ++ e :: v1) + b) by (unfold b; rewrite iov_total_app, !iov_total_cons; cbn; lia).
        constructor; [by rewrite <- app_assoc|done|done].
Qed.
