(* ===== verification/PgwCtl.v ===== *)
(** * The control object of a write with checksums (XrdXrootd/XrdXrootdPgwCtl.{hh,cc}, XrdXrootdPgwBadCS.{hh,cc}, XrdXrootdPgwFob.hh)

    A request to write pages arrives as units of a checksum and a piece of the data. The
    control object, which lives as long as the connection, keeps a vector that scatters the
    units into a vector of checksums and a data buffer; when the request is larger than the
    buffer the vector is used for one frame after the other. It also collects the pieces
    whose checksum was wrong, for the reply, and the file keeps those that have not been
    written correctly since. *)

From stdpp Require Import base tactics list_numbers numbers option list strings gmap.
From S2P Require Import Prelude CrcRegister OucCRC32C CsiCrc PgrwUtils LinkData.
#[local] Set Warnings "-clear-no-such-hyp".

Definition crcSZ : Z := 4.
Definition maxBSize : Z := 1048576.
Definition maxIOVN : Z := maxBSize / PageSize * 2.
Definition kXR_pgMaxEpr : Z := 128.
Definition kXR_pgMaxEos : Z := 256.
Definition kXR_pgPageBL : Z := 12.

(** Big endian integers, as they are on the network, and a signed integer of 64 bits. *)
Definition be (n : nat) (z : Z) : list Z := rev (enc n z).
Definition of_be (l : list Z) : Z := little_endian_to_Z 8 (rev l).
Definition i64 (z : Z) : Z := (z + 2 ^ 63) mod 2 ^ 64 - 2 ^ 63.

(** ** The uncorrected offsets of a file *)

Record Fob := MkFob { fobOffs : gset Z; numErrs : Z; numFixd : Z }.
Definition new_Fob : Fob := MkFob ∅ 0 0.

(** The offset and the length of a piece in one number *)
Definition fobKey (foffs dlen : Z) : Z :=
  let foffs := i64 (Z.shiftl foffs kXR_pgPageBL) in
  if dlen <? PageSize then Z.lor foffs dlen else foffs.

Definition addOffs (foffs dlen : Z) (f : Fob) : bool * Fob :=
  let s := {[fobKey foffs dlen]} ∪ fobOffs f in
  (Z.of_nat (size s) <=? kXR_pgMaxEos, MkFob s (numErrs f + 1) (numFixd f)).
Definition delOffs (foffs dlen : Z) (f : Fob) : bool * Fob :=
  (bool_decide (fobKey foffs dlen ∈ fobOffs f), MkFob (fobOffs f ∖ {[fobKey foffs dlen]}) (numErrs f) (numFixd f + 1)).
Definition hasOffs (foffs dlen : Z) (f : Fob) : bool := bool_decide (fobKey foffs dlen ∈ fobOffs f).
Definition numOffs (f : Fob) : Z * Z * Z := (Z.of_nat (size (fobOffs f)), numErrs f, numFixd f).

(** ** The bad checksums of a request *)

(** The first [boCount] elements of [badOffs], and the lengths in [cse] *)
Record PgwBadCS := MkBad { badOffs : list Z; dlFirst : Z; dlLast : Z }.
Definition boCount (b : PgwBadCS) : Z := zlen (badOffs b).
Definition boReset (b : PgwBadCS) : PgwBadCS := MkBad [] (dlFirst b) (dlLast b).

(** [boAdd( fP, foffs, dlen )]: what is wrong, if anything is *)
Definition boAdd (foffs dlen : Z) (b : PgwBadCS) (f : Fob) : option string * PgwBadCS * Fob :=
  let b := if boCount b =? 0 then MkBad (badOffs b) (u16 dlen) (u16 dlen) else MkBad (badOffs b) (dlFirst b) (u16 dlen) in
  if kXR_pgMaxEpr <=? boCount b + 1 then (Some "Too many checksum errors in request"%string, b, f)
  else
    let b := MkBad (badOffs b ++ [foffs]) (dlFirst b) (dlLast b) in
    let '(ok, f) := addOffs foffs dlen f in
    if ok then (None, b, f) else (Some "Too many uncorrected checksum errors in file"%string, b, f).

(** [boInfo( boLen )]: the bytes that go behind the reply *)
Definition cse_body (b : PgwBadCS) : list Z := be 2 (dlFirst b) ++ be 2 (dlLast b) ++ mjoin (be 8 <$> badOffs b).
Definition boInfo (m : machine) (b : PgwBadCS) : res (list Z) :=
  if boCount b =? 0 then Ok []
  else c ← Calc32C m (cse_body b) (zlen (cse_body b)) 0; Ok (be 4 c ++ cse_body b).

(** ** The control object *)

Record PgwCtl := MkCtl {
  dataBuff : Z; dataBLen : Z; iovNum : Z; lenLeft : Z; iovRem : Z; iovLen : Z; endLen : Z; fixSRD : Z;
  ioVec : list iovec; bad : PgwBadCS; info_offset : Z }.

Definition set_len (n : Z) (e : iovec) : iovec := MkIov (iov_base e) n.
Definition set_base (p : ptr) (e : iovec) : iovec := MkIov p (iov_len e).
Definition iov_upd (i : Z) (f : iovec -> iovec) (v : list iovec) : list iovec := alter f (Z.to_nat i) v.

Definition set_vec (f : list iovec -> list iovec) (c : PgwCtl) : PgwCtl :=
  MkCtl (dataBuff c) (dataBLen c) (iovNum c) (lenLeft c) (iovRem c) (iovLen c) (endLen c) (fixSRD c) (f (ioVec c)) (bad c) (info_offset c).
Definition set_fix (i : Z) (c : PgwCtl) : PgwCtl :=
  MkCtl (dataBuff c) (dataBLen c) (iovNum c) (lenLeft c) (iovRem c) (iovLen c) (endLen c) i (ioVec c) (bad c) (info_offset c).
Definition set_buff (a n : Z) (c : PgwCtl) : PgwCtl :=
  MkCtl a n (iovNum c) (lenLeft c) (iovRem c) (iovLen c) (endLen c) (fixSRD c) (ioVec c) (bad c) (info_offset c).
Definition set_frame (num rem len end' : Z) (c : PgwCtl) : PgwCtl :=
  MkCtl (dataBuff c) (dataBLen c) num (lenLeft c) rem len end' (fixSRD c) (ioVec c) (bad c) (info_offset c).
Definition set_bad (b : PgwBadCS) (c : PgwCtl) : PgwCtl :=
  MkCtl (dataBuff c) (dataBLen c) (iovNum c) (lenLeft c) (iovRem c) (iovLen c) (endLen c) (fixSRD c) (ioVec c) b (info_offset c).

(** The constructor. The elements alternate between the checksums and the data. It leaves the
    numbers from [iovNum] to [endLen], which [Setup] sets, as they are; they are zero here. *)
Definition iov_pair (j : Z) : list iovec := [MkIov (PCs (crcSZ * j)) crcSZ; MkIov (PHeap 0) PageSize].
Definition new_PgwCtl : PgwCtl := MkCtl 0 0 0 0 0 0 0 0 (mjoin (iov_pair <$> seqZ 0 (maxIOVN / 2))) (MkBad [] 0 0) 0.

(** [Advance()] *)
Definition Advance (c : PgwCtl) : bool * PgwCtl :=
  if iovRem c <=? 0 then (false, set_frame 0 (iovRem c) 0 (endLen c) c)
  else
    let c := set_vec (iov_upd 1 (fun _ => MkIov (PHeap (dataBuff c)) PageSize)) c in
    let c :=
      if iovNum c <? iovRem c then set_frame (iovNum c) (iovRem c - iovNum c) (iovLen c) (endLen c) c
      else
        let c := set_frame (iovRem c) 0 (iovLen c) (endLen c) c in
        if endLen c =? 0 then c else set_fix (iovNum c - 1) (set_vec (iov_upd (iovNum c - 1) (set_len (endLen c))) c) in
    let n := Z.shiftr (iovNum c) 1 in
    let last := from_option iov_len 0 (ioVec c !! Z.to_nat (iovNum c - 1)) in
    let len := last + n * crcSZ in
    let len := if 1 <? n then len + (n - 1) * PageSize else len in
    (true, set_frame (iovNum c) (iovRem c) len (endLen c) c).

(** [FrameInfo( iovn, rdlen )] and [FrameInfo( csNum, buff, datalen, bP )]. The vector of
    checksums is returned as the bytes that came. *)
Definition FrameInfo (c : PgwCtl) : option (Z * Z) := if iovNum c =? 0 then None else Some (iovNum c, iovLen c).
Definition FrameInfo_data (c : PgwCtl) (buff bsize : Z) : option (Z * ptr * Z) :=
  if negb (buff =? dataBuff c) || negb (bsize =? dataBLen c) || (iovNum c =? 0) then None
  else
    let n := Z.shiftr (iovNum c) 1 in
    Some (n, from_option iov_base (PHeap 0) (ioVec c !! 1%nat), iovLen c - crcSZ * n).

(** [Setup( buffP, fOffs, totlen )]: what is wrong, if anything is *)
Fixpoint set_bases (n : nat) (i dP : Z) (v : list iovec) : list iovec :=
  match n with
  | O => v
  | S n => set_bases n (i + 2) (dP + PageSize) (iov_upd i (set_base (PHeap dP)) v)
  end.
Definition iovMax (bsize : Z) : Z := if maxBSize <=? bsize then maxBSize / PageSize * 2 else bsize / PageSize * 2.
Definition Setup (buff bsize fOffs totlen : Z) (c : PgwCtl) : option string * PgwCtl :=
  let c := if fixSRD c =? 0 then c else set_fix 0 (set_vec (iov_upd (fixSRD c) (set_len PageSize)) c) in
  match recvLayout fOffs totlen 0 with
  | inl e => (Some e, c)
  | inr (csNum, lay) =>
      let iovMax := iovMax bsize in
      if iovMax =? 0 then (Some "PgwCtl logic error detected; buffer is too small"%string, c)
      else
        let c := if negb (buff =? dataBuff c) || negb (bsize =? dataBLen c)
                 then set_vec (set_bases (Z.to_nat (iovMax / 2)) 1 buff) (set_buff buff bsize c) else c in
        let c := set_vec (iov_upd 1 (fun _ => MkIov (PHeap (buff + bOffset lay)) (fLen lay))) c in
        let rem := Z.shiftl csNum 1 in
        let c :=
          if iovMax <? rem then set_frame iovMax rem (fLen lay + (iovMax / 2 - 1) * PageSize + iovMax / 2 * crcSZ) (lLen lay) c
          else
            let c := set_frame rem rem (sockLen lay) 0 c in
            if lLen lay =? 0 then c else set_fix (iovNum c - 1) (set_vec (iov_upd (iovNum c - 1) (set_len (lLen lay))) c) in
        (None, MkCtl (dataBuff c) (dataBLen c) (iovNum c) (sockLen lay - iovLen c) (iovRem c - iovNum c) (iovLen c) (endLen c) (fixSRD c)
                 (ioVec c) (boReset (bad c)) fOffs)
  end.

(** ** The shape of the vector *)

(** Every element has its place, except the first of the data and the one that was
    shortened. [mx] elements point into the buffer at [a]. *)
Record vec_shape (a mx fix_ : Z) (v : list iovec) : Prop := {
  shape_len : zlen v = maxIOVN;
  shape_cs : forall j : nat, Z.of_nat j < maxIOVN / 2 -> v !! (2 * j)%nat = Some (MkIov (PCs (crcSZ * Z.of_nat j)) crcSZ);
  shape_data : forall j : nat, 0 < Z.of_nat j < maxIOVN / 2 -> exists e, v !! (2 * j + 1)%nat = Some e /\
    (2 * Z.of_nat j + 1 <> fix_ -> iov_len e = PageSize) /\ (2 * Z.of_nat j + 1 < mx -> iov_base e = PHeap (a + PageSize * Z.of_nat j)) }.

Definition fix_ok (i : Z) : Prop := i = 0 \/ exists j : nat, i = 2 * Z.of_nat j + 1 /\ i < maxIOVN.

(** The state between two requests. *)
Definition ctl_ok (c : PgwCtl) : Prop :=
  vec_shape (dataBuff c) (iovMax (dataBLen c)) (fixSRD c) (ioVec c) /\ fix_ok (fixSRD c).

Lemma lookup_iov_pairs (j n : nat) i : Z.of_nat j < Z.of_nat n ->
  mjoin (iov_pair <$> seqZ i (Z.of_nat n)) !! (2 * j)%nat = Some (MkIov (PCs (crcSZ * (i + Z.of_nat j))) crcSZ) /\
  mjoin (iov_pair <$> seqZ i (Z.of_nat n)) !! (2 * j + 1)%nat = Some (MkIov (PHeap 0) PageSize).
Proof.
  revert i j. induction n as [|n IH]; intros i j Hj; [lia|]. rewrite seqZ_cons by lia. cbn [fmap list_fmap mjoin list_join iov_pair app].
  replace (Z.pred (Z.of_nat (S n))) with (Z.of_nat n) by lia. destruct j as [|j]; [cbn; by rewrite Z.add_0_r|].
  replace (2 * S j)%nat with (S (S (2 * j))) by lia. destruct (IH (Z.succ i) j ltac:(lia)) as [H1 H2]. cbn [lookup list_lookup plus].
  replace (i + Z.of_nat (S j)) with (Z.succ i + Z.of_nat j) by lia. exact (conj H1 H2).
Qed.

Lemma zlen_iov_pairs (n : nat) i : zlen (mjoin (iov_pair <$> seqZ i (Z.of_nat n))) = 2 * Z.of_nat n.
Proof.
  revert i. induction n as [|n IH]; intros i; [done|]. rewrite seqZ_cons by lia. replace (Z.pred (Z.of_nat (S n))) with (Z.of_nat n) by lia.
  change (zlen (iov_pair i ++ mjoin (iov_pair <$> seqZ (Z.succ i) (Z.of_nat n))) = 2 * Z.of_nat (S n)). rewrite zlen_app, IH.
  change (zlen (iov_pair i)) with 2. lia.
Qed.

Lemma new_PgwCtl_ok : ctl_ok new_PgwCtl.
Proof.
  split; [|by left]. split; cbn [ioVec new_PgwCtl dataBuff dataBLen].
  - apply (zlen_iov_pairs 256).
  - intros j Hj. exact (proj1 (lookup_iov_pairs j 256 0 Hj)).
  - intros j Hj. eexists. split; [exact (proj2 (lookup_iov_pairs j 256 0 (proj2 Hj)))|]. split; [done|]. change (iovMax 0) with 0. lia.
Qed.

Lemma length_iov_upd i f v : zlen (iov_upd i f v) = zlen v.
Proof. unfold iov_upd, zlen. by rewrite length_alter. Qed.

Lemma lookup_iov_upd i f v : 0 <= i -> i < zlen v -> iov_upd i f v !! Z.to_nat i = f <$> v !! Z.to_nat i.
Proof. intros _ _. unfold iov_upd. apply list_lookup_alter_eq. Qed.

Lemma lookup_iov_upd_ne i f v (k : nat) : 0 <= i -> Z.of_nat k <> i -> iov_upd i f v !! k = v !! k.
Proof. intros Hi Hk. unfold iov_upd. apply list_lookup_alter_ne. lia. Qed.

(** The length of a data element is set, and the element noted. *)
Lemma vec_shape_short a mx (j : nat) n v : Z.of_nat j < maxIOVN / 2 ->
  vec_shape a mx 0 v -> vec_shape a mx (2 * Z.of_nat j + 1) (iov_upd (2 * Z.of_nat j + 1) (set_len n) v).
Proof.
  intros Hj [Hl Hc Hd]. split.
  - by rewrite length_iov_upd.
  - intros i Hi. rewrite lookup_iov_upd_ne by lia. by apply Hc.
  - intros i Hi. destruct (Hd i Hi) as (e & He & Hlen & Hb). destruct (decide (i = j)) as [->|Hne].
    + exists (set_len n e). replace (2 * j + 1)%nat with (Z.to_nat (2 * Z.of_nat j + 1)) in * by lia. rewrite lookup_iov_upd, He by (rewrite ?Hl; unfold maxIOVN in *; lia_div).
      split_and!; [done|done|exact Hb].
    + exists e. rewrite lookup_iov_upd_ne by lia. split_and!; [done|intros _; apply Hlen; lia|done].
Qed.

(** It is set back. *)
Lemma vec_shape_long a mx i v : fix_ok i -> i <> 0 -> vec_shape a mx i v -> vec_shape a mx 0 (iov_upd i (set_len PageSize) v).
Proof.
  intros [->|(j & -> & Hj)] Hi [Hl Hc Hd]; [done|]. split.
  - by rewrite length_iov_upd.
  - intros k Hk. rewrite lookup_iov_upd_ne by lia. by apply Hc.
  - intros k Hk. destruct (Hd k Hk) as (e & He & Hlen & Hb). destruct (decide (k = j)) as [->|Hne].
    + exists (set_len PageSize e). replace (2 * j + 1)%nat with (Z.to_nat (2 * Z.of_nat j + 1)) in * by lia. rewrite lookup_iov_upd, He by lia. done.
    + exists e. rewrite lookup_iov_upd_ne by lia. split_and!; [done|intros _; apply Hlen; lia|done].
Qed.

(** The first data element is set. *)
Lemma vec_shape_first a mx f v e : vec_shape a mx f v -> vec_shape a mx f (iov_upd 1 (fun _ => e) v) /\
  iov_upd 1 (fun _ => e) v !! 1%nat = Some e.
Proof.
  intros [Hl Hc Hd]. split; [split|].
  - by rewrite length_iov_upd.
  - intros k Hk. rewrite lookup_iov_upd_ne by lia. by apply Hc.
  - intros k Hk. rewrite lookup_iov_upd_ne by lia. by apply Hd.
  - change 1%nat with (Z.to_nat 1). rewrite lookup_iov_upd by (rewrite ?Hl; done). destruct (v !! _) eqn:E; [done|].
    apply lookup_ge_None in E. unfold zlen in Hl. change maxIOVN with 512 in Hl. lia.
Qed.

(** The buffer changes. *)
Lemma set_bases_other n i dP v (k : nat) : 0 <= i -> (forall m : nat, (m < n)%nat -> Z.of_nat k <> i + 2 * Z.of_nat m) -> set_bases n i dP v !! k = v !! k.
Proof.
  revert i dP v. induction n as [|n IH]; intros i dP v Hi Hk; [done|]. cbn [set_bases]. rewrite IH.
  - apply lookup_iov_upd_ne; [done|]. specialize (Hk 0%nat ltac:(lia)). lia.
  - lia.
  - intros m Hm. specialize (Hk (S m) ltac:(lia)). lia.
Qed.

Lemma length_set_bases n i dP v : zlen (set_bases n i dP v) = zlen v.
Proof. revert i dP v. induction n as [|n IH]; intros; [done|]. cbn [set_bases]. by rewrite IH, length_iov_upd. Qed.

Lemma set_bases_at n i dP v (m : nat) : 0 <= i -> (m < n)%nat -> i + 2 * Z.of_nat m < zlen v ->
  set_bases n i dP v !! Z.to_nat (i + 2 * Z.of_nat m) = set_base (PHeap (dP + PageSize * Z.of_nat m)) <$> v !! Z.to_nat (i + 2 * Z.of_nat m).
Proof.
  revert i dP v m. induction n as [|n IH]; intros i dP v m Hi Hm Hl; [lia|]. cbn [set_bases]. destruct m as [|m].
  - rewrite Z.mul_0_r, Z.add_0_r in *. rewrite set_bases_other by lia. rewrite lookup_iov_upd by lia. do 3 f_equal. lia.
  - replace (i + 2 * Z.of_nat (S m)) with (i + 2 + 2 * Z.of_nat m) by lia. rewrite IH by (rewrite ?length_iov_upd; lia).
    rewrite lookup_iov_upd_ne by lia. do 3 f_equal. lia.
Qed.

Lemma vec_shape_buff a mx a' n f v : 0 <= n <= maxIOVN / 2 -> vec_shape a mx f v -> vec_shape a' (n * 2) f (set_bases (Z.to_nat n) 1 a' v).
Proof.
  intros Hn [Hl Hc Hd]. change maxIOVN with 512 in *. change (512 / 2) with 256 in *. split.
  - by rewrite length_set_bases.
  - intros k Hk. rewrite set_bases_other by lia. by apply Hc.
  - intros k Hk. destruct (Hd k Hk) as (e & He & Hlen & _). destruct (decide (Z.of_nat k < n)) as [Hlt|Hge].
    + exists (set_base (PHeap (a' + PageSize * Z.of_nat k)) e). replace (2 * k + 1)%nat with (Z.to_nat (1 + 2 * Z.of_nat k)) in * by lia.
      rewrite set_bases_at, He by (rewrite ?Hl; lia). split_and!; [done|exact Hlen|done].
    + exists e. rewrite set_bases_other by lia. split_and!; [done|exact Hlen|lia].
Qed.

(** ** Frames *)

(** The vector for pieces of these lengths, with their checksums. *)
Fixpoint frame_vec (j a : Z) (lens : list Z) : list iovec :=
  match lens with
  | [] => []
  | n :: lens => MkIov (PCs (crcSZ * j)) crcSZ :: MkIov (PHeap a) n :: frame_vec (j + 1) (a + n) lens
  end.

Definition sum_len (l : list Z) : Z := foldr Z.add 0 l.

Lemma sum_len_app l k : sum_len (l ++ k) = sum_len l + sum_len k.
Proof. unfold sum_len. induction l as [|x l IH]; cbn; lia. Qed.

Lemma sum_len_replicate n x : sum_len (replicate n x) = Z.of_nat n * x.
Proof. unfold sum_len. induction n as [|n IH]; cbn [replicate foldr]; [done|]. rewrite IH. lia. Qed.

Lemma frame_vec_lookup lens (j : nat) a v :
  (forall i l, lens !! i = Some l -> v !! (2 * (j + i))%nat = Some (MkIov (PCs (crcSZ * Z.of_nat (j + i))) crcSZ) /\
     v !! (2 * (j + i) + 1)%nat = Some (MkIov (PHeap (a + sum_len (take i lens))) l)) ->
  take (2 * length lens) (drop (2 * j) v) = frame_vec (Z.of_nat j) a lens.
Proof.
  revert j a. induction lens as [|n lens IH]; intros j a H; [by rewrite Nat.mul_0_r|].
  destruct (H 0%nat n eq_refl) as [H1 H2]. rewrite Nat.add_0_r in H1, H2. change (sum_len (take 0 _)) with 0 in H2. rewrite Z.add_0_r in H2.
  rewrite (drop_S v _ _ H1). replace (S (2 * j)) with (2 * j + 1)%nat by lia. rewrite (drop_S v _ _ H2). replace (S (2 * j + 1)) with (2 * (S j))%nat by lia.
  cbn [length]. replace (2 * S (length lens))%nat with (S (S (2 * length lens))) by lia. cbn [firstn frame_vec]. do 2 f_equal.
  replace (Z.of_nat j + 1) with (Z.of_nat (S j)) by lia. apply IH. intros i l Hi. destruct (H (S i) l Hi) as [H3 H4].
  replace (S j + i)%nat with (j + S i)%nat by lia. split; [done|]. rewrite H4. do 3 f_equal. cbn. fold (sum_len (take i lens)). lia.
Qed.

Definition lens_of (o : Z) (B : list Z) : list Z := (fun p => zlen p.2) <$> pieces o B.

Lemma length_lens_of o B : length (lens_of o B) = length (pieces o B).
Proof. apply length_fmap. Qed.

Lemma sum_lens_of o B : sum_len (lens_of o B) = zlen B.
Proof.
  revert o B. apply pieces_ind; [done|]. intros o B HB IH. unfold lens_of in *. rewrite pieces_cons by done. cbn. unfold sum_len in IH. rewrite IH.
  unfold zlen, adv. rewrite length_take, length_drop. lia.
Qed.

Lemma lens_of_one o B : B <> [] -> zlen B <= to_boundary o -> lens_of o B = [zlen B].
Proof. intros HB Hl. unfold lens_of. by rewrite pieces_one. Qed.

Lemma npieces_1 o n : 0 < n -> (npieces o n = 1 <-> n <= to_boundary o).
Proof. intros Hn. unfold npieces, npages, to_boundary, PageSize in *. split; intros; lia_div. Qed.

Lemma npieces_pos o n : 0 < n -> 1 <= npieces o n.
Proof. intros Hn. unfold npieces, npages, PageSize in *. lia_div. Qed.

(** A vector of the right shape whose first data element is right, and its last one. *)
Lemma frame_vec_shape a mx f v o B : 0 <= o -> B <> [] -> vec_shape a mx f v -> let n := npieces o (zlen B) in 2 * n <= mx <= maxIOVN ->
  v !! 1%nat = Some (MkIov (PHeap (a + o mod PageSize)) (if n =? 1 then zlen B else to_boundary o)) ->
  (n <> 1 -> (f = 2 * n - 1 \/ f = 0 \/ 2 * n <= f) /\ exists e, v !! Z.to_nat (2 * n - 1) = Some e /\ iov_len e = last_len o (zlen B)) ->
  take (2 * length (pieces o B)) v = frame_vec 0 (a + o mod PageSize) (lens_of o B).
Proof.
  intros Ho HB [Hl Hc Hd] n Hn H1 Hlast. pose proof (zlen_pos B HB) as Hp. pose proof (npieces_pos o (zlen B) Hp) as Hn1. fold n in Hn1.
  pose proof (length_pieces o B Ho HB) as Hlp. fold n in Hlp. rewrite <- length_lens_of in *. change (take (2 * length (lens_of o B)) (drop (2 * 0) v) = frame_vec (Z.of_nat 0) (a + o mod PageSize) (lens_of o B)).
  apply frame_vec_lookup. intros i l Hi. pose proof (lookup_lt_Some _ _ _ Hi) as Hlt. cbn [Nat.add].
  split; [apply Hc; change (maxIOVN / 2) with 256; change maxIOVN with 512 in Hn; lia|].
  destruct (Z.eqb_spec n 1) as [En|En].
  { assert (zlen B <= to_boundary o) as Hle by (by apply npieces_1). rewrite lens_of_one in Hi |- * by done. destruct i as [|i]; [|done].
    injection Hi as <-. change (2 * 0 + 1)%nat with 1%nat. rewrite H1. do 2 f_equal. change (sum_len (take 0 _)) with 0. by rewrite Z.add_0_r. }
  assert (to_boundary o < zlen B) as Hgt by (destruct (decide (zlen B <= to_boundary o)) as [E|E]; [by apply (npieces_1 o _ Hp) in E|lia]).
  destruct (Hlast En) as (Hf & e & He & Hle). unfold lens_of in *. rewrite piece_lens in * by done.
  cbn [length] in Hlp, Hlt. rewrite length_app, length_replicate in Hlp, Hlt. cbn [length] in Hlp, Hlt. set (k := (length (pieces o B) - 2)%nat) in *.
  destruct i as [|i].
  { injection Hi as <-. change (2 * 0 + 1)%nat with 1%nat. rewrite H1. do 2 f_equal. change (sum_len (take 0 _)) with 0. by rewrite Z.add_0_r. }
  destruct (Hd (S i)) as (e' & He' & Hlen & Hb); [change (maxIOVN / 2) with 256; change maxIOVN with 512 in Hn; lia|].
  rewrite He'. destruct e' as [b' l']. cbn in Hlen, Hb. rewrite Hb by lia.
  assert (sum_len (take (S i) (to_boundary o :: replicate k PageSize ++ [last_len o (zlen B)])) = to_boundary o + PageSize * Z.of_nat i) as ->.
  { cbn [firstn sum_len foldr]. fold (sum_len (take i (replicate k PageSize ++ [last_len o (zlen B)]))). rewrite take_app_le by (rewrite length_replicate; lia).
    rewrite take_replicate, sum_len_replicate. replace (i `min` k)%nat with i by lia. lia. }
  assert (l' = l) as ->.
  { change ((replicate k PageSize ++ [last_len o (zlen B)]) !! i = Some l) in Hi. destruct (decide (i < k)%nat) as [Hik|Hik].
    - rewrite lookup_app_l, lookup_replicate_2 in Hi by (rewrite ?length_replicate; done). injection Hi as <-. apply Hlen. lia.
    - replace i with k in * by lia. rewrite lookup_app_r in Hi by (rewrite length_replicate; lia). rewrite length_replicate, Nat.sub_diag in Hi. injection Hi as <-.
      replace (2 * S k + 1)%nat with (Z.to_nat (2 * n - 1)) in He' by lia. rewrite He in He'. injection He' as ->. exact Hle. }
  do 3 f_equal. unfold to_boundary. lia.
Qed.

(** The bytes of a frame of at most [K] pages that starts at [o]. *)
Definition cap (K o : Z) : Z := K * PageSize - o mod PageSize.
Definition frame (K o : Z) (B : list Z) : list Z := take (Z.to_nat (cap K o)) B.
Definition frame_pages (bsize : Z) : Z := iovMax bsize / 2.

Lemma frame_pages_ok bsize : PageSize <= bsize -> iovMax bsize = frame_pages bsize * 2 /\ 1 <= frame_pages bsize <= 256.
Proof.
  intros Hb. unfold frame_pages, iovMax. change (maxBSize / PageSize) with 256. destruct (Z.leb_spec maxBSize bsize).
  - rewrite Z.div_mul by done. lia.
  - rewrite Z.div_mul by done. unfold maxBSize, PageSize in *. lia_div.
Qed.

Lemma cap_pos K o : 1 <= K -> 0 < cap K o.
Proof. intros. unfold cap, PageSize. lia_div. Qed.

Lemma cap_npieces K o n : 1 <= K -> 0 < n -> (n <= cap K o <-> npieces o n <= K).
Proof. intros. unfold cap, npieces, npages, PageSize. split; intros; lia_div. Qed.

Lemma npieces_cap K o : 1 <= K -> npieces o (cap K o) = K.
Proof. intros. unfold npieces, npages, cap, PageSize. lia_div. Qed.

Lemma frame_all K o B : zlen B <= cap K o -> frame K o B = B.
Proof. intros. unfold frame. apply take_ge. unfold zlen in *. lia. Qed.

Lemma zlen_frame K o B : 1 <= K -> zlen (frame K o B) = Z.min (cap K o) (zlen B).
Proof. intros HK. pose proof (cap_pos K o HK). unfold frame, zlen. rewrite length_take. lia. Qed.

Lemma frame_cut K o B : 1 <= K -> 0 <= o -> cap K o < zlen B ->
  pieces o B = pieces o (frame K o B) ++ pieces (o + cap K o) (adv (cap K o) B) /\ (o + cap K o) mod PageSize = 0.
Proof.
  intros HK Ho Hgt. pose proof (cap_pos K o HK). assert ((o + cap K o) mod PageSize = 0) as Hm by (unfold cap, PageSize; lia_div). split; [|done].
  assert (zlen (frame K o B) = cap K o) as Hz by (rewrite zlen_frame by done; lia).
  transitivity (pieces o (frame K o B ++ adv (cap K o) B)); [unfold frame; by rewrite take_adv_join|]. rewrite pieces_app by (rewrite ?Hz; done). by rewrite Hz.
Qed.

Lemma npieces_cut K o n : 1 <= K -> 0 <= o -> cap K o < n -> npieces o n = K + npieces (o + cap K o) (n - cap K o).
Proof. intros. unfold npieces, npages, cap, PageSize in *. lia_div. Qed.

(** A control object whose vector is for the next frame of the data that is left. *)
Record ctl_ready (c : PgwCtl) (o : Z) (B : list Z) : Prop := {
  ready_ok : ctl_ok c;
  ready_num : iovNum c = 2 * npieces o (zlen (frame (frame_pages (dataBLen c)) o B));
  ready_rem : iovRem c = 2 * (npieces o (zlen B) - npieces o (zlen (frame (frame_pages (dataBLen c)) o B)));
  ready_vec : take (Z.to_nat (iovNum c)) (ioVec c) = frame_vec 0 (dataBuff c + o mod PageSize) (lens_of o (frame (frame_pages (dataBLen c)) o B));
  ready_len : iovLen c = zlen (frame (frame_pages (dataBLen c)) o B) + crcSZ * npieces o (zlen (frame (frame_pages (dataBLen c)) o B));
  ready_end : cap (frame_pages (dataBLen c)) o < zlen B -> endLen c = (o + zlen B - 1) mod PageSize + 1 /\ fixSRD c = 0 }.

Lemma iov_upd_1 (v : list iovec) p n : is_Some (v !! 1%nat) -> iov_upd 1 (fun _ => MkIov p n) v !! 1%nat = Some (MkIov p n).
Proof. intros [e He]. change 1%nat with (Z.to_nat 1). unfold iov_upd. rewrite list_lookup_alter_eq. change (Z.to_nat 1) with 1%nat. by rewrite He. Qed.

Lemma shape_some a mx f v (i : nat) : vec_shape a mx f v -> Z.of_nat i < maxIOVN -> is_Some (v !! i).
Proof. intros [Hl _ _] Hi. apply lookup_lt_is_Some. unfold zlen in Hl. lia. Qed.

(** The step both operations end with: the first element is set, and the last one too when
    the frame is the last and ends with a short piece. *)
Lemma frame_of_shape a mx v o F short l : 0 <= o -> F <> [] -> vec_shape a mx 0 v -> let n := npieces o (zlen F) in 2 * n <= mx <= maxIOVN ->
  v !! 1%nat = Some (MkIov (PHeap (a + o mod PageSize)) l) -> (n <> 1 -> l = to_boundary o) ->
  (if short : bool then True else if n =? 1 then l = zlen F else last_len o (zlen F) = PageSize) ->
  let v' := if short then iov_upd (2 * n - 1) (set_len (last_len o (zlen F))) v else v in
  let f := if short then 2 * n - 1 else 0 in
  vec_shape a mx f v' /\ fix_ok f /\ take (Z.to_nat (2 * n)) v' = frame_vec 0 (a + o mod PageSize) (lens_of o F) /\
  from_option iov_len 0 (v' !! Z.to_nat (2 * n - 1)) = last_len o (zlen F).
Proof.
  intros Ho HF Hs n Hn H1 Hl Hshort v' f. pose proof (zlen_pos F HF) as Hp. pose proof (npieces_pos o (zlen F) Hp) as Hn1. fold n in Hn1.
  assert (vec_shape a mx f v') as Hs'.
  { unfold v', f. destruct short; [|done]. replace (2 * n - 1) with (2 * Z.of_nat (Z.to_nat (n - 1)) + 1) by lia.
    apply vec_shape_short; [change (maxIOVN / 2) with 256; change maxIOVN with 512 in *; lia|done]. }
  assert (n = 1 -> last_len o (zlen F) = zlen F) as Hone.
  { intros En. unfold last_len. by rewrite (proj2 (Z.leb_le _ _)) by by apply npieces_1. }
  assert (exists e, v' !! Z.to_nat (2 * n - 1) = Some e /\ iov_len e = last_len o (zlen F)) as (e & He & Hlast).
  { unfold v'. destruct short.
    - rewrite lookup_iov_upd by (rewrite ?(shape_len _ _ _ _ Hs); lia). destruct (shape_some _ _ _ _ (Z.to_nat (2 * n - 1)) Hs ltac:(lia)) as [e ->]. by eexists.
    - destruct (Z.eqb_spec n 1) as [En|En]; [rewrite En; eexists; split; [exact H1|]; by rewrite Hone|]. rewrite Hshort.
      destruct (shape_data _ _ _ _ Hs (Z.to_nat (n - 1))) as (e & He & Hle & _); [change (maxIOVN / 2) with 256; change maxIOVN with 512 in *; lia|].
      replace (2 * Z.to_nat (n - 1) + 1)%nat with (Z.to_nat (2 * n - 1)) in He by lia. exists e. split; [done|]. apply Hle. lia. }
  split_and!; [done| | |by rewrite He].
  - unfold f. destruct short; [|by left]. right. exists (Z.to_nat (n - 1)). lia.
  - replace (Z.to_nat (2 * n)) with (2 * length (pieces o F))%nat by (rewrite length_pieces by done; fold n; lia).
    apply (frame_vec_shape a mx f v' o F Ho HF Hs'); [exact Hn| |].
    + fold n. unfold v' in *. destruct (Z.eqb_spec n 1) as [En|En].
      * destruct short; [|by rewrite H1, Hshort]. rewrite En in *. change (2 * 1 - 1) with 1 in *. change (Z.to_nat 1) with 1%nat in *.
        rewrite He. f_equal. destruct e as [b l']. cbn in Hlast. rewrite Hlast, Hone by done. f_equal.
        change 1%nat with (Z.to_nat 1) in He. unfold iov_upd in He. rewrite list_lookup_alter_eq in He. change (Z.to_nat 1) with 1%nat in He. rewrite H1 in He. by injection He as <- _.
      * rewrite <- Hl by done. destruct short; [|exact H1]. rewrite lookup_iov_upd_ne by lia. exact H1.
    + fold n. intros Hn2. split; [unfold f; destruct short; lia|]. by exists e.
Qed.

Lemma last_len_mod o n : 0 < n -> to_boundary o < n -> last_len o n = (o + n - 1) mod PageSize + 1.
Proof. intros Hn Hgt. unfold last_len. by rewrite (proj2 (Z.leb_gt _ _)) by lia. Qed.

Lemma last_len_aligned o n : o mod PageSize = 0 -> 0 < n -> last_len o n = (o + n - 1) mod PageSize + 1.
Proof. intros Hm Hn. unfold last_len, to_boundary, PageSize in *. destruct (Z.leb_spec n (4096 - o mod 4096)); lia_div. Qed.

Lemma last_len_pos o n : 0 < n -> 0 < last_len o n.
Proof. intros Hn. unfold last_len, PageSize. destruct (Z.leb_spec n (to_boundary o)); lia_div. Qed.

Lemma frame_nonempty K o B : 1 <= K -> B <> [] -> frame K o B <> [].
Proof.
  intros HK HB E. pose proof (zlen_frame K o B HK) as Hz. rewrite E in Hz. change (zlen []) with 0 in Hz.
  pose proof (cap_pos K o HK). pose proof (zlen_pos B HB). lia.
Qed.

(** The short element of the request before is set back, and the buffer is looked at. *)
Lemma Setup_reset c : ctl_ok c ->
  vec_shape (dataBuff c) (iovMax (dataBLen c)) 0 (if fixSRD c =? 0 then ioVec c else iov_upd (fixSRD c) (set_len PageSize) (ioVec c)).
Proof.
  intros [Hs Hf]. destruct (Z.eqb_spec (fixSRD c) 0) as [E|E]; [by rewrite <- E|]. by apply vec_shape_long.
Qed.

Lemma Setup_spec c buff bsize o B : ctl_ok c -> PageSize <= bsize -> 0 <= o -> B <> [] -> zlen B + npieces o (zlen B) * pgCsumSize < 2 ^ 31 ->
  exists c', Setup buff bsize o (zlen B + npieces o (zlen B) * pgCsumSize) c = (None, c') /\ ctl_ready c' o B /\
    dataBuff c' = buff /\ dataBLen c' = bsize /\ bad c' = boReset (bad c) /\ info_offset c' = o.
Proof.
  intros Hc Hb Ho HB Hmax. pose proof (zlen_pos B HB) as Hp. destruct (frame_pages_ok bsize Hb) as [HM HK]. set (K := frame_pages bsize) in *.
  unfold Setup. rewrite recvLayout_spec by done. rewrite HM. rewrite (proj2 (Z.eqb_neq _ 0)) by lia. rewrite Z.div_mul by done.
  pose proof (Setup_reset c Hc) as Hs0.
  set (v0 := if fixSRD c =? 0 then ioVec c else iov_upd (fixSRD c) (set_len PageSize) (ioVec c)) in *.
  set (c0 := if fixSRD c =? 0 then c else set_fix 0 (set_vec (iov_upd (fixSRD c) (set_len PageSize)) c)).
  assert (ioVec c0 = v0 /\ fixSRD c0 = 0 /\ dataBuff c0 = dataBuff c /\ dataBLen c0 = dataBLen c /\ bad c0 = bad c) as (Ev0 & Ef0 & Ea0 & El0 & Eb0)
    by (unfold c0, v0; destruct (Z.eqb_spec (fixSRD c) 0); done).
  set (c1 := if negb (buff =? dataBuff c0) || negb (bsize =? dataBLen c0) then set_vec (set_bases (Z.to_nat K) 1 buff) (set_buff buff bsize c0) else c0).
  assert (vec_shape buff (K * 2) 0 (ioVec c1) /\ fixSRD c1 = 0 /\ dataBuff c1 = buff /\ dataBLen c1 = bsize /\ bad c1 = bad c) as (Hs1 & Ef1 & Ea1 & El1 & Eb1).
  { unfold c1. destruct (Z.eqb_spec buff (dataBuff c0)) as [E1|E1], (Z.eqb_spec bsize (dataBLen c0)) as [E2|E2]; cbn [negb orb].
    - split_and!; [|done|done|done|done]. rewrite <- HM, Ev0, E1, E2, Ea0, El0. done.
    - split_and!; [|done|done|done|done]. cbn. rewrite Ev0. apply (vec_shape_buff _ _ _ K _ _ ltac:(change (maxIOVN / 2) with 256; lia) Hs0).
    - split_and!; [|done|done|done|done]. cbn. rewrite Ev0. apply (vec_shape_buff _ _ _ K _ _ ltac:(change (maxIOVN / 2) with 256; lia) Hs0).
    - split_and!; [|done|done|done|done]. cbn. rewrite Ev0. apply (vec_shape_buff _ _ _ K _ _ ltac:(change (maxIOVN / 2) with 256; lia) Hs0). }
  clearbody c1. clear Ev0 Ef0 Ea0 El0 Eb0 Hs0. cbn [bOffset fLen sockLen lLen layout_of].
  set (F := frame K o B). assert (F <> []) as HF by (apply frame_nonempty; [lia|done]). pose proof (zlen_pos F HF) as HFp.
  set (l1 := Z.min (zlen B) (to_boundary o)).
  destruct (vec_shape_first _ _ _ _ (MkIov (PHeap (buff + o mod PageSize)) l1) Hs1) as [Hs2 H2].
  assert (zlen F = Z.min (cap K o) (zlen B)) as HzF by (apply zlen_frame; lia). pose proof (to_boundary_range o) as Hbd.
  pose proof (cap_pos K o ltac:(lia)) as Hcap.
  destruct (Z.ltb_spec (K * 2) (Z.shiftl (npieces o (zlen B)) 1)) as [Hbig|Hsmall]; rewrite Z.shiftl_mul_pow2 in * by done; change (2 ^ 1) with 2 in *.
  - assert (cap K o < zlen B) as Hgt by (destruct (decide (zlen B <= cap K o)) as [E|E]; [apply cap_npieces in E; lia|lia]).
    assert (npieces o (zlen F) = K) as HnF by (rewrite HzF, Z.min_l by lia; apply npieces_cap; lia).
    assert (last_len o (zlen F) = if K =? 1 then zlen F else PageSize) as HlF.
    { rewrite HzF, Z.min_l by lia. clear -HK. clearbody K. unfold last_len, cap, to_boundary, PageSize in *.
      destruct (Z.eqb_spec K 1) as [EK|EK], (Z.leb_spec (K * 4096 - o mod 4096) (4096 - o mod 4096)); lia_div. }
    assert (l1 = to_boundary o) as El by (unfold l1; unfold cap, to_boundary in *; unfold PageSize in *; lia).
    destruct (frame_of_shape buff (K * 2) _ o F false l1 Ho HF Hs2) as (Hs3 & Hf3 & Hv3 & _).
    { rewrite HnF. change maxIOVN with 512. lia. } { exact H2. } { done. }
    { rewrite HnF, HlF. destruct (Z.eqb_spec K 1) as [EK|]; [|done]. rewrite HzF, El. unfold cap, to_boundary in *. lia. }
    cbv iota beta in Hs3, Hf3, Hv3. rewrite HnF in *.
    eexists. split; [reflexivity|]. cbn [dataBuff dataBLen bad info_offset set_frame set_vec set_fix ioVec iovNum iovRem iovLen endLen fixSRD].
    rewrite Ea1, El1, Eb1, Ef1. split_and!; [|done|done|done|done]. split; cbn [dataBuff dataBLen bad info_offset ioVec iovNum iovRem iovLen endLen fixSRD]; fold K; fold F; rewrite ?HnF.
    + split; [cbn; rewrite HM; exact Hs3|by left].
    + lia.
    + lia.
    + by rewrite Z.mul_comm.
    + rewrite HzF, Z.min_l by lia. rewrite El. unfold cap, to_boundary, crcSZ, PageSize. lia.
    + intros _. split; [|done]. assert (to_boundary o < zlen B) by (unfold cap, to_boundary in *; unfold PageSize in *; lia).
      rewrite (proj2 (Z.leb_gt _ _)) by lia. apply last_len_mod; lia.
  - assert (zlen B <= cap K o) as Hle by (apply cap_npieces; lia). assert (F = B) as HFB by by apply frame_all.
    set (short := negb (zlen B <=? to_boundary o)).
    destruct (frame_of_shape buff (K * 2) _ o F short l1 Ho HF Hs2) as (Hs3 & Hf3 & Hv3 & _).
    { rewrite HFB. change maxIOVN with 512. lia. } { exact H2. }
    { rewrite HFB. intros Hn. unfold l1. destruct (decide (zlen B <= to_boundary o)) as [E|E]; [apply npieces_1 in E; lia|lia]. }
    { unfold short. destruct (Z.leb_spec (zlen B) (to_boundary o)) as [E|E]; cbn [negb]; [|done]. rewrite HFB, (proj2 (Z.eqb_eq _ _)) by by apply npieces_1. unfold l1. lia. }
    rewrite HFB in *. clear HFB F HF HFp HzF.
    eexists. split; [reflexivity|]. unfold short in *. pose proof (last_len_pos o (zlen B) Hp) as Hlp.
    assert (frame K o B = B) as HFB by by apply frame_all.
    destruct (Z.leb_spec (zlen B) (to_boundary o)) as [E|E]; cbn [negb] in *.
    + change (0 =? 0) with true. cbn [dataBuff dataBLen bad info_offset set_frame set_vec set_fix ioVec iovNum iovRem iovLen endLen fixSRD].
      rewrite Ea1, El1, Eb1, Ef1. split_and!; [|done|done|done|done]. split; cbn [dataBuff dataBLen bad info_offset ioVec iovNum iovRem iovLen endLen fixSRD]; fold K; rewrite ?HFB.
      * split; [cbn; rewrite HM; exact Hs3|by left].
      * lia.
      * lia.
      * by rewrite Z.mul_comm.
      * unfold pgCsumSize, crcSZ. lia.
      * lia.
    + rewrite (proj2 (Z.eqb_neq _ 0)) by lia. cbn [dataBuff dataBLen bad info_offset set_frame set_vec set_fix ioVec iovNum iovRem iovLen endLen fixSRD].
      rewrite Ea1, El1, Eb1. split_and!; [|done|done|done|done]. split; cbn [dataBuff dataBLen bad info_offset ioVec iovNum iovRem iovLen endLen fixSRD]; fold K; rewrite ?HFB.
      * split; cbn; [rewrite HM|]; rewrite (Z.mul_comm (npieces _ _)); done.
      * lia.
      * lia.
      * by rewrite (Z.mul_comm (npieces _ _)).
      * unfold pgCsumSize, crcSZ. lia.
      * lia.
Qed.

Lemma zlen_aligned o n : o mod PageSize = 0 -> 0 < n -> n = (npieces o n - 1) * PageSize + last_len o n.
Proof. intros Hm Hn. rewrite last_len_aligned by done. unfold npieces, npages, PageSize in *. lia_div. Qed.

(** The length of a frame, as [Advance] computes it from the last element. *)
Lemma frame_length (v : list iovec) o (F : list Z) : o mod PageSize = 0 -> F <> [] ->
  from_option iov_len 0 (v !! Z.to_nat (2 * npieces o (zlen F) - 1)) = last_len o (zlen F) ->
  let n := Z.shiftr (2 * npieces o (zlen F)) 1 in
  let len := from_option iov_len 0 (v !! Z.to_nat (2 * npieces o (zlen F) - 1)) + n * crcSZ in
  (if 1 <? n then len + (n - 1) * PageSize else len) = zlen F + crcSZ * npieces o (zlen F).
Proof.
  intros Hm HF -> n len. pose proof (zlen_pos F HF) as Hp. pose proof (npieces_pos o (zlen F) Hp). pose proof (zlen_aligned o (zlen F) Hm Hp).
  assert (n = npieces o (zlen F)) as En by (unfold n; rewrite Z.shiftr_div_pow2 by done; change (2 ^ 1) with 2; rewrite Z.mul_comm; by apply Z.div_mul).
  unfold len. rewrite En. unfold crcSZ, PageSize in *. destruct (Z.ltb_spec 1 (npieces o (zlen F))); lia.
Qed.

(** [Advance] at the end of a frame of [K] pages. *)
Lemma Advance_end c o B : ctl_ready c o B -> 1 <= frame_pages (dataBLen c) -> B <> [] -> zlen B <= cap (frame_pages (dataBLen c)) o ->
  exists c', Advance c = (false, c') /\ ctl_ok c' /\ bad c' = bad c /\ info_offset c' = info_offset c.
Proof.
  intros [Hok _ Hrem _ _ _] HK HB Hle. rewrite frame_all, Z.sub_diag, Z.mul_0_r in Hrem by done. unfold Advance. rewrite Hrem. by eexists.
Qed.

Lemma Advance_more c o B : ctl_ready c o B -> PageSize <= dataBLen c -> 0 <= o -> cap (frame_pages (dataBLen c)) o < zlen B ->
  exists c', Advance c = (true, c') /\ ctl_ready c' (o + cap (frame_pages (dataBLen c)) o) (adv (cap (frame_pages (dataBLen c)) o) B) /\
    dataBuff c' = dataBuff c /\ dataBLen c' = dataBLen c /\ bad c' = bad c /\ info_offset c' = info_offset c.
Proof.
  intros [[Hs Hf] Hnum Hrem Hvec Hlen Hend] Hb Ho Hgt. destruct (frame_pages_ok _ Hb) as [HM HK]. set (K := frame_pages (dataBLen c)) in *.
  destruct (Hend Hgt) as [Eend Efix]. clear Hend. pose proof (cap_pos K o ltac:(lia)) as Hcap. rewrite zlen_frame, Z.min_l, npieces_cap in * by lia.
  rewrite (npieces_cut K) in Hrem by lia. set (o' := o + cap K o) in *. set (B' := adv (cap K o) B).
  assert (o' mod PageSize = 0) as Hm by (unfold o', cap, PageSize; lia_div). assert (zlen B' = zlen B - cap K o) as HzB by (apply zlen_adv_more; lia).
  rewrite <- HzB in *. assert (B' <> []) as HB' by (intros E; rewrite E in HzB; change (zlen []) with 0 in HzB; lia). pose proof (zlen_pos B' HB') as Hp.
  pose proof (npieces_pos o' (zlen B') Hp) as Hn1. unfold Advance. rewrite (proj2 (Z.leb_gt _ _)) by lia.
  destruct (vec_shape_first _ _ _ _ (MkIov (PHeap (dataBuff c)) PageSize) Hs) as [Hs2 H2]. rewrite Efix, HM in *.
  set (F := frame K o' B'). assert (F <> []) as HF by (apply frame_nonempty; [lia|done]). pose proof (zlen_pos F HF) as HFp.
  assert (zlen F = Z.min (cap K o') (zlen B')) as HzF by (apply zlen_frame; lia). pose proof (npieces_pos o' (zlen F) HFp) as HnF1.
  set (short := negb (K <? npieces o' (zlen B'))).
  assert (npieces o' (zlen F) = Z.min K (npieces o' (zlen B'))) as HnF.
  { rewrite HzF. destruct (decide (zlen B' <= cap K o')) as [E|E].
    - rewrite Z.min_r by done. apply cap_npieces in E; lia.
    - rewrite Z.min_l, npieces_cap by lia. destruct (decide (npieces o' (zlen B') <= K)) as [E'|E']; [apply cap_npieces in E'; lia|lia]. }
  assert (to_boundary o' = PageSize) as Hbd by by apply to_boundary_aligned.
  destruct (frame_of_shape (dataBuff c) (K * 2) _ o' F short PageSize ltac:(unfold o'; lia) HF Hs2) as (Hs3 & Hf3 & Hv3 & Hl3).
  { change maxIOVN with 512. lia. } { by rewrite Hm, Z.add_0_r. } { done. }
  { unfold short. destruct (Z.ltb_spec K (npieces o' (zlen B'))) as [E|E]; cbn [negb]; [|done].
    assert (zlen F = K * PageSize) as EF by (rewrite HzF; destruct (decide (zlen B' <= cap K o')) as [E'|E']; [apply cap_npieces in E'; lia|rewrite Z.min_l by lia; unfold cap; lia]).
    pose proof (zlen_aligned o' (zlen F) Hm HFp) as Ez. destruct (Z.eqb_spec (npieces o' (zlen F)) 1); unfold PageSize in *; lia. }
  pose proof (zlen_aligned o' (zlen F) Hm HFp) as Ez. unfold short in *. clear short.
  pose proof (fun v' => frame_length v' o' F Hm HF) as Hlen'.
  cbn [iovNum iovRem set_vec]. rewrite Hnum, Hrem. replace (2 * (K + npieces o' (zlen B') - K)) with (2 * npieces o' (zlen B')) by lia.
  destruct (Z.ltb_spec K (npieces o' (zlen B'))) as [HKn|HKn]; cbn [negb] in *.
  - rewrite (proj2 (Z.ltb_lt (2 * K) _)) by lia. cbn [iovNum iovRem ioVec endLen set_vec set_frame]. rewrite <- (Z.min_l K (npieces o' (zlen B'))), <- HnF by lia.
    eexists. split; [reflexivity|]. cbn [dataBuff dataBLen bad info_offset set_frame set_vec set_fix ioVec iovNum iovRem iovLen endLen fixSRD].
    split_and!; [|done|done|done|done]. split; cbn [dataBuff dataBLen bad info_offset set_frame set_vec set_fix ioVec iovNum iovRem iovLen endLen fixSRD]; fold K F.
    + split; cbn; [rewrite HM, Efix; exact Hs3|by left].
    + done.
    + lia.
    + by rewrite Hm, Z.add_0_r in *.
    + exact (Hlen' _ Hl3).
    + intros _. split; [|done]. rewrite Eend, HzB. unfold o'. f_equal. f_equal. lia.
  - assert (F = B') as HFB by (apply frame_all, cap_npieces; lia). rewrite HFB in *.
    rewrite (proj2 (Z.ltb_ge (2 * K) _)) by lia. cbn [iovNum iovRem ioVec endLen set_vec set_frame].
    assert (endLen c = last_len o' (zlen B')) as Eend' by (rewrite Eend, last_len_aligned, HzB by done; unfold o'; do 2 f_equal; lia).
    pose proof (last_len_pos o' (zlen B') Hp) as Hlp. rewrite (proj2 (Z.eqb_neq (endLen c) 0)) by lia. rewrite Eend'.
    eexists. split; [reflexivity|]. cbn [dataBuff dataBLen bad info_offset set_frame set_vec set_fix ioVec iovNum iovRem iovLen endLen fixSRD].
    split_and!; [|done|done|done|done]. split; cbn [dataBuff dataBLen bad info_offset set_frame set_vec set_fix ioVec iovNum iovRem iovLen endLen fixSRD]; fold K; fold F; rewrite ?HFB.
    + split; cbn; [rewrite HM|]; done.
    + done.
    + lia.
    + by rewrite Hm, Z.add_0_r in *.
    + exact (Hlen' _ Hl3).
    + intros E. apply cap_npieces in HKn; lia.
Qed.
