(* ===== verification/PgWire.v ===== *)
(** * Pages and their checksums on the network

    A piece travels behind its checksum, which is big endian. [wire] is what a request
    carries; [scatter_frame] says where the vector of the control object puts the units of a
    frame, and [csVec_host] reads the checksums as [do_PgWIO] does. *)

From stdpp Require Import base tactics list_numbers numbers option list strings gmap.
From S2P Require Import Prelude CrcRegister OucCRC32C CsiCrc PgrwUtils LinkData PgwCtl.
#[local] Set Warnings "-clear-no-such-hyp".

(** ** The units of a frame *)

(** What is on the network: each piece behind its checksum. *)
Definition wire (o : Z) (B cs : list Z) : list Z := mjoin (zip_with (fun p c => be 4 c ++ p.2) (pieces o B) cs).

Definition paste (off : Z) (l m : list Z) : list Z := take (Z.to_nat off) m ++ l ++ drop (Z.to_nat (off + zlen l)) m.

Lemma mjoin_cons (x : list Z) l : mjoin (x :: l) = x ++ mjoin l.
Proof. done. Qed.

Lemma put_paste off l m : 0 <= off -> off + zlen l <= zlen m -> put off l m = Ok (paste off l m).
Proof. intros H0 H1. unfold put. by rewrite (proj2 (Z.leb_le 0 off)), (proj2 (Z.leb_le _ _)) by done. Qed.

Lemma zlen_paste off l m : 0 <= off -> off + zlen l <= zlen m -> zlen (paste off l m) = zlen m.
Proof. intros H0 H1. unfold paste, zlen in *. rewrite !length_app, length_take, length_drop. lia. Qed.

Lemma paste_app off a b m : 0 <= off -> off + zlen a + zlen b <= zlen m -> paste (off + zlen a) b (paste off a m) = paste off (a ++ b) m.
Proof.
  intros H0 H1. pose proof (put_app off a b m) as H. pose proof (zlen_nonneg a). pose proof (zlen_nonneg b).
  rewrite put_paste, put_paste, bind_Ok, put_paste in H by (rewrite ?zlen_app, ?zlen_paste; lia). by injection H as ->.
Qed.

Lemma slice_paste off l m : 0 <= off -> off + zlen l <= zlen m -> slice off (zlen l) (paste off l m) = l.
Proof.
  intros H0 H1. unfold slice, paste. rewrite drop_app_length' by (rewrite length_take; unfold zlen in *; lia). apply take_app_length'. unfold zlen. lia.
Qed.

Lemma length_be n z : length (be n z) = n.
Proof. unfold be. rewrite length_rev. apply length_enc. Qed.

Lemma of_be_be n z : 0 <= z < 2 ^ (8 * Z.of_nat n) -> of_be (be n z) = z.
Proof. intros Hz. unfold of_be, be. rewrite rev_involutive. by apply enc_decode. Qed.

Lemma zlen_be n z : zlen (be n z) = Z.of_nat n.
Proof. unfold zlen. by rewrite length_be. Qed.

Lemma zlen_be_all l : zlen (mjoin (be 4 <$> l)) = 4 * zlen l.
Proof.
  induction l as [|c l IH]; [done|]. change (zlen (be 4 c ++ mjoin (be 4 <$> l)) = 4 * zlen (c :: l)). rewrite zlen_app, zlen_be, IH, zlen_cons. lia.
Qed.

(** The units of a frame go where the vector says. *)
Lemma scatter_frame ps cs j a M : length cs = length ps -> Forall (fun p => p <> []) ps -> 0 <= j ->
  4 * (j + zlen ps) <= zlen (csMem M) -> bufAt M <= a -> a - bufAt M + zlen (mjoin ps) <= zlen (bufMem M) ->
  scatter (frame_vec j a (zlen <$> ps)) (mjoin (zip_with (fun p c => be 4 c ++ p) ps cs)) M =
    Ok (MkMem (paste (4 * j) (mjoin (be 4 <$> cs)) (csMem M)) (bufAt M) (paste (a - bufAt M) (mjoin ps) (bufMem M))).
Proof.
  revert cs j a M. induction ps as [|p ps IH]; intros [|c cs] j a M Hl Hne Hj Hc Ha Hb; try done.
  - cbn. unfold paste. change (zlen []) with 0. cbn [app]. rewrite !Z.add_0_r, !take_drop. by destruct M.
  - inversion_clear Hne as [|? ? Hp Hne']. injection Hl as Hl. rewrite zlen_cons in Hc. change (mjoin (p :: ps)) with (p ++ mjoin ps) in *. rewrite zlen_app in Hb.
    change (mjoin (zip_with (fun p c => be 4 c ++ p) (p :: ps) (c :: cs))) with ((be 4 c ++ p) ++ mjoin (zip_with (fun p c => be 4 c ++ p) ps cs)).
    change (be 4 <$> c :: cs) with (be 4 c :: (be 4 <$> cs)). change (mjoin (be 4 c :: (be 4 <$> cs))) with (be 4 c ++ mjoin (be 4 <$> cs)).
    change (zlen <$> p :: ps) with (zlen p :: (zlen <$> ps)). cbn [frame_vec]. pose proof (zlen_nonneg p). pose proof (zlen_nonneg (mjoin ps)). pose proof (zlen_nonneg ps).
    rewrite <- !app_assoc. rewrite scatter_cons by (intros E; apply (f_equal zlen) in E; rewrite zlen_app, zlen_be in E; pose proof (zlen_nonneg (p ++ mjoin (zip_with (fun p c => be 4 c ++ p) ps cs))); change (zlen []) with 0 in E; lia).
    cbn [iov_base iov_len store]. change (Z.to_nat crcSZ) with 4%nat. rewrite (take_app_length' _ _ 4), (drop_app_length' _ _ 4) by by rewrite length_be.
    unfold crcSZ. rewrite put_paste by (rewrite ?zlen_be; lia). rewrite !bind_Ok.
    rewrite scatter_cons by (intros E; apply Hp; by apply app_eq_nil in E as [E _]). cbn [iov_base iov_len store csMem bufAt bufMem].
    rewrite (take_app_length' _ _ (Z.to_nat (zlen p))), (drop_app_length' _ _ (Z.to_nat (zlen p))) by (unfold zlen; lia).
    rewrite put_paste by lia. rewrite !bind_Ok. rewrite IH; cbn [csMem bufAt bufMem].
    + do 2 f_equal.
      * replace (4 * (j + 1)) with (4 * j + zlen (be 4 c)) by (rewrite zlen_be; lia). apply paste_app; [lia|]. rewrite zlen_be, zlen_be_all. unfold zlen in *; lia.
      * replace (a + zlen p - bufAt M) with (a - bufAt M + zlen p) by lia. apply paste_app; lia.
    + done.
    + done.
    + lia.
    + rewrite zlen_paste by (rewrite ?zlen_be; lia). lia.
    + lia.
    + rewrite zlen_paste by lia. lia.
Qed.

(** The checksums in host order ([csVec[i] = ntohl(csVec[i])]). *)
Definition csVec_host (n : Z) (M : mem) : list Z := (fun i => of_be (slice (crcSZ * i) crcSZ (csMem M))) <$> seqZ 0 n.

Lemma csVec_host_paste cs m a b : Forall word cs -> 4 * zlen cs <= zlen m -> csVec_host (zlen cs) (MkMem (paste 0 (mjoin (be 4 <$> cs)) m) a b) = cs.
Proof.
  intros Hw Hl. unfold csVec_host. cbn [csMem]. apply list_eq. intros i. destruct (decide (i < length cs)%nat) as [Hi|Hi].
  - rewrite list_lookup_fmap, lookup_seqZ_lt by (unfold zlen; lia). cbn [fmap option_fmap option_map]. rewrite Z.add_0_l. destruct (lookup_lt_is_Some_2 cs i Hi) as [c Hc]. rewrite Hc. f_equal.
    assert (slice (crcSZ * Z.of_nat i) crcSZ (paste 0 (mjoin (be 4 <$> cs)) m) = be 4 c) as ->.
    { rewrite <- (take_drop_middle cs i c Hc), fmap_app, fmap_cons, join_app. change (mjoin (be 4 c :: (be 4 <$> drop (S i) cs))) with (be 4 c ++ mjoin (be 4 <$> drop (S i) cs)).
      unfold paste, slice. change (take (Z.to_nat 0) m) with (@nil Z). cbn [app]. rewrite <- !app_assoc. rewrite (drop_app_length' (mjoin (be 4 <$> take i cs))).
      - apply take_app_length'. by rewrite length_be.
      - pose proof (zlen_be_all (take i cs)) as H. unfold zlen, crcSZ in *. rewrite length_take in H. lia. }
    apply of_be_be. rewrite Forall_lookup in Hw. exact (Hw _ _ Hc).
  - rewrite !lookup_ge_None_2; [done|lia|]. rewrite length_fmap, length_seqZ. unfold zlen. lia.
Qed.

(** ** The length of a request, and its frames *)

Lemma wire_nil o cs : wire o [] cs = [].
Proof. done. Qed.

Lemma wire_app o B C cs ds : 0 <= o -> (o + zlen B) mod PageSize = 0 -> length cs = length (pieces o B) ->
  wire o (B ++ C) (cs ++ ds) = wire o B cs ++ wire (o + zlen B) C ds.
Proof. intros Ho Hm Hl. unfold wire. rewrite pieces_app, zip_with_app by done. apply join_app. Qed.

Lemma zlen_units (ps : list (Z * list Z)) cs : length cs = length ps ->
  zlen (mjoin (zip_with (fun p c => be 4 c ++ p.2) ps cs)) = zlen (mjoin (snd <$> ps)) + 4 * zlen ps.
Proof.
  revert cs. induction ps as [|p ps IH]; intros [|c cs] Hl; try done. injection Hl as Hl. specialize (IH cs Hl).
  change (zlen ((be 4 c ++ p.2) ++ mjoin (zip_with (fun p c => be 4 c ++ p.2) ps cs)) = zlen (p.2 ++ mjoin (snd <$> ps)) + 4 * zlen (p :: ps)).
  rewrite !zlen_app, IH, zlen_be, zlen_cons. lia.
Qed.

Lemma zlen_wire o B cs : 0 <= o -> B <> [] -> length cs = length (pieces o B) -> zlen (wire o B cs) = zlen B + npieces o (zlen B) * pgCsumSize.
Proof.
  intros Ho HB Hl. unfold wire. rewrite zlen_units, pieces_join, zlen_pieces by done. unfold npieces, pgCsumSize. lia.
Qed.

Lemma pieces_nonempty o B : Forall (fun p => p <> []) (snd <$> pieces o B).
Proof.
  revert o B. apply pieces_ind; [by constructor|]. intros o B HB IH. rewrite pieces_cons by done. constructor; [|exact IH].
  pose proof (to_boundary_range o). destruct B; [done|]. cbn. destruct (Z.to_nat (to_boundary o)) eqn:E; [lia|done].
Qed.

(** The checksums of the first frame and of the others. *)
Definition frame_sums (K o : Z) (B cs : list Z) : list Z := take (length (pieces o (frame K o B))) cs.
Definition later_sums (K o : Z) (B cs : list Z) : list Z := drop (length (pieces o (frame K o B))) cs.

Lemma length_frame_sums K o B cs : 1 <= K -> 0 <= o -> length cs = length (pieces o B) ->
  length (frame_sums K o B cs) = length (pieces o (frame K o B)) /\
  (cap K o < zlen B -> length (later_sums K o B cs) = length (pieces (o + cap K o) (adv (cap K o) B))).
Proof.
  intros HK Ho Hl. unfold frame_sums, later_sums. rewrite length_take, length_drop, Hl. destruct (decide (zlen B <= cap K o)) as [E|E].
  - rewrite frame_all by done. lia.
  - destruct (frame_cut K o B HK Ho ltac:(lia)) as [-> _]. rewrite length_app. lia.
Qed.

Lemma wire_cut K o B cs : 1 <= K -> 0 <= o -> length cs = length (pieces o B) -> cap K o < zlen B ->
  wire o B cs = wire o (frame K o B) (frame_sums K o B cs) ++ wire (o + cap K o) (adv (cap K o) B) (later_sums K o B cs).
Proof.
  intros HK Ho Hl Hgt. destruct (frame_cut K o B HK Ho Hgt) as [_ Hm]. assert (zlen (frame K o B) = cap K o) as Hz by (rewrite zlen_frame by done; lia).
  pose proof (proj1 (length_frame_sums K o B cs HK Ho Hl)) as Hl1.
  transitivity (wire o (frame K o B ++ adv (cap K o) B) (frame_sums K o B cs ++ later_sums K o B cs)).
  - unfold frame_sums, later_sums, frame. by rewrite take_drop, take_adv_join.
  - rewrite wire_app by (rewrite ?Hz; done). by rewrite Hz.
Qed.

(** The units of a frame in memory. *)
Lemma scatter_wire o F cs M : length cs = length (pieces o F) -> 4 * zlen (pieces o F) <= zlen (csMem M) -> o mod PageSize + zlen F <= zlen (bufMem M) ->
  scatter (frame_vec 0 (bufAt M + o mod PageSize) (lens_of o F)) (wire o F cs) M =
    Ok (MkMem (paste 0 (mjoin (be 4 <$> cs)) (csMem M)) (bufAt M) (paste (o mod PageSize) F (bufMem M))).
Proof.
  intros Hl Hc Hb. assert (0 <= o mod PageSize) by (unfold PageSize; lia_div).
  assert (lens_of o F = zlen <$> (snd <$> pieces o F)) as -> by (unfold lens_of; by rewrite <- list_fmap_compose).
  assert (wire o F cs = mjoin (zip_with (fun p c => be 4 c ++ p) (snd <$> pieces o F) cs)) as -> by (unfold wire; by rewrite zip_with_fmap_l).
  rewrite scatter_frame; rewrite ?length_fmap, ?pieces_join; try done.
  - rewrite Z.mul_0_r. replace (bufAt M + o mod PageSize - bufAt M) with (o mod PageSize) by lia. done.
  - apply pieces_nonempty.
  - unfold zlen in *. rewrite length_fmap. lia.
  - lia.
  - lia.
Qed.

Lemma iov_total_frame j a lens : iov_total (frame_vec j a lens) = sum_len lens + 4 * zlen lens.
Proof. revert j a. induction lens as [|n lens IH]; intros j a; [done|]. cbn [frame_vec]. rewrite !iov_total_cons, IH, zlen_cons. cbn. unfold crcSZ, sum_len. lia. Qed.

Lemma frame_vec_ok j a lens : Forall (Z.lt 0) lens -> iov_ok (frame_vec j a lens).
Proof. intros Hl. revert j a. induction Hl as [|n lens Hn Hl IH]; intros j a; [constructor|]. constructor; [done|]. constructor; [done|apply IH]. Qed.

Lemma lens_of_pos o B : Forall (Z.lt 0) (lens_of o B).
Proof.
  assert (lens_of o B = zlen <$> (snd <$> pieces o B)) as -> by (unfold lens_of; by rewrite <- list_fmap_compose).
  apply Forall_fmap. eapply Forall_impl; [apply pieces_nonempty|]. intros p Hp. by apply zlen_pos.
Qed.

Lemma zlen_frame_vec j a lens : zlen (frame_vec j a lens) = 2 * zlen lens.
Proof. revert j a. induction lens as [|n lens IH]; intros j a; [done|]. cbn [frame_vec]. rewrite !zlen_cons, IH. lia. Qed.
