(* ===== verification/PgWrite.v ===== *)
(** * Writes with checksums, on the server (XrdXrootd/XrdXrootdXeqPgrw.cc, XrdXrootdXeq.cc)

    [do_PgWrite] takes a request to write pages, [do_PgWIO] reads its units frame by frame,
    verifies the checksums, writes the frames and replies with the list of the pieces that
    were damaged on the way; the client sends those again, one page in each request. When
    the link has no more data the request is suspended: the function to resume with is
    noted and called when more has arrived.

    The request comes on the connection it was made on, and is not handed to asynchronous
    I/O. The file underneath ([XrdSfsFile]) and the pool of buffers are interfaces. *)

From stdpp Require Import base tactics list_numbers numbers option list strings gmap.
From S2P Require Import Prelude CrcRegister OucCRC32C CsiCrc PgrwUtils LinkData PgwCtl PgWire.
#[local] Set Warnings "-clear-no-such-hyp".

(** ** What the server uses *)

(** The file: [pgWrite( offset, buff, length, csvec )] returns what it wrote, or a code that
    is not positive. *)
Class SfsFile (F : Type) : Type := { pgWrite : F -> Z -> list Z -> list Z -> Z * F }.

(** [BPool->Obtain( size )]: the address and the memory of a buffer of at least that size. *)
Class BuffPool : Type := {
  Obtain : Z -> option (Z * list Z);
  Obtain_size : forall sz a l, Obtain sz = Some (a, l) -> sz <= zlen l }.

(** ** The state of the protocol object *)

(** [IO.Offset], [IO.IOLen], the retry bit of [IO.Flags], [IO.EInfo] and the text of the
    error of the file. The offset and [EInfo] share their place in the code; they are apart
    here, since [EInfo] is only set when the offset is no longer used, and set before it is
    read. *)
Record IOParms := MkIO { Offset : Z; IOLen : Z; isRetry : bool; EInfo0 : Z; EInfo1 : Z; errText : string }.

(** [halfBSize], [hcPrev], [hcNow], [hcNext], [hcMax]: when to look for a smaller buffer *)
Record BuffCtl := MkBuffCtl { halfBSize : Z; hcPrev : Z; hcNow : Z; hcNext : Z; hcMax : Z }.

(** [gdCtl.Status] *)
Inductive GdStatus : Type := inNone | inCallBk | inDataIov.

(** [Resume] *)
Inductive Resumption : Type := ResumeNone | ResumeIov | ResumeWriteNone.

(** What is sent to the client: a status with the offset and the bytes behind it, a part of
    a read, partial or final, with its offset, an error with its code and text, or the error
    of the file system *)
Inductive Reply : Type :=
  | RStatus (ofs : Z) (more : list Z)
  | RPages (final : bool) (ofs : Z) (units : list Z)
  | RError (code : Z) (text : string)
  | RFsError (rc : Z).

Definition kXR_ArgInvalid : Z := 3000.
Definition kXR_FSError : Z := 3005.
Definition kXR_NoMemory : Z := 3008.
Definition kXR_Impossible : Z := 3031.
Definition kXR_ChkSumErr : Z := 3019.
Definition kXR_TooManyErrs : Z := 3033.

Section protocol.
Context (m : machine) {F : Type} `{SfsFile F} `{BuffPool}.

(** [p_mem] has the vector of checksums of the control object and [argp], which may be null. *)
Record Prot := MkProt {
  p_io : IOParms; p_ctl : option PgwCtl; p_mem : mem; p_argp : bool; p_bctl : BuffCtl; p_fob : option Fob; p_file : F;
  p_gd : GetDataCtl; p_status : GdStatus; p_resume : Resumption; p_net : list (list Z); p_sent : list Reply }.

Definition set_io (x : IOParms) (s : Prot) : Prot :=
  MkProt x (p_ctl s) (p_mem s) (p_argp s) (p_bctl s) (p_fob s) (p_file s) (p_gd s) (p_status s) (p_resume s) (p_net s) (p_sent s).
Definition set_ctl (c : option PgwCtl) (s : Prot) : Prot :=
  MkProt (p_io s) c (p_mem s) (p_argp s) (p_bctl s) (p_fob s) (p_file s) (p_gd s) (p_status s) (p_resume s) (p_net s) (p_sent s).
Definition set_mem (M : mem) (s : Prot) : Prot :=
  MkProt (p_io s) (p_ctl s) M (p_argp s) (p_bctl s) (p_fob s) (p_file s) (p_gd s) (p_status s) (p_resume s) (p_net s) (p_sent s).
Definition set_argp (b : bool) (M : mem) (x : BuffCtl) (s : Prot) : Prot :=
  MkProt (p_io s) (p_ctl s) M b x (p_fob s) (p_file s) (p_gd s) (p_status s) (p_resume s) (p_net s) (p_sent s).
Definition set_fob (f : option Fob) (s : Prot) : Prot :=
  MkProt (p_io s) (p_ctl s) (p_mem s) (p_argp s) (p_bctl s) f (p_file s) (p_gd s) (p_status s) (p_resume s) (p_net s) (p_sent s).
Definition set_file (f : F) (s : Prot) : Prot :=
  MkProt (p_io s) (p_ctl s) (p_mem s) (p_argp s) (p_bctl s) (p_fob s) f (p_gd s) (p_status s) (p_resume s) (p_net s) (p_sent s).
Definition set_gd (g : GetDataCtl) (s : Prot) : Prot :=
  MkProt (p_io s) (p_ctl s) (p_mem s) (p_argp s) (p_bctl s) (p_fob s) (p_file s) g (p_status s) (p_resume s) (p_net s) (p_sent s).
Definition set_status (x : GdStatus) (s : Prot) : Prot :=
  MkProt (p_io s) (p_ctl s) (p_mem s) (p_argp s) (p_bctl s) (p_fob s) (p_file s) (p_gd s) x (p_resume s) (p_net s) (p_sent s).
Definition set_resume (x : Resumption) (s : Prot) : Prot :=
  MkProt (p_io s) (p_ctl s) (p_mem s) (p_argp s) (p_bctl s) (p_fob s) (p_file s) (p_gd s) (p_status s) x (p_net s) (p_sent s).
Definition set_net (n : list (list Z)) (s : Prot) : Prot :=
  MkProt (p_io s) (p_ctl s) (p_mem s) (p_argp s) (p_bctl s) (p_fob s) (p_file s) (p_gd s) (p_status s) (p_resume s) n (p_sent s).

(** [Response.Send(...)]: the client gets it *)
Definition Send (r : Reply) (s : Prot) : Z * Prot :=
  (0, MkProt (p_io s) (p_ctl s) (p_mem s) (p_argp s) (p_bctl s) (p_fob s) (p_file s) (p_gd s) (p_status s) (p_resume s) (p_net s) (p_sent s ++ [r])).

Definition bsize (s : Prot) : Z := zlen (bufMem (p_mem s)).

(** ** Buffers *)

(** [getBuff( isRead, Quantum )] *)
Definition getBuff (isRead : bool) (Quantum : Z) (s : Prot) : Z * Prot :=
  let b := p_bctl s in
  let '(keep, b) :=
    if negb (p_argp s) || (bsize s <? Quantum) then (false, MkBuffCtl (halfBSize b) (hcPrev b) (hcPrev b) (hcNext b) (hcMax b))
    else if halfBSize b <=? Quantum then (true, b)
    else if 0 <? hcNow b then (true, MkBuffCtl (halfBSize b) (hcPrev b) (hcNow b - 1) (hcNext b) (hcMax b))
    else if hcMax b <=? hcNext b then (false, MkBuffCtl (halfBSize b) (hcPrev b) (hcMax b) (hcNext b) (hcMax b))
    else (false, MkBuffCtl (halfBSize b) (hcNext b) (hcNext b) (hcPrev b + hcNext b) (hcMax b)) in
  if keep : bool then (1, set_argp (p_argp s) (p_mem s) b s)
  else match Obtain Quantum with
  | Some (a, l) => (1, set_argp true (MkMem (csMem (p_mem s)) a l) (MkBuffCtl (Z.shiftr (zlen l) 1) (hcPrev b) (hcNow b) (hcNext b) (hcMax b)) s)
  | None => Send (RError kXR_NoMemory (if isRead then "insufficient memory to read file" else "insufficient memory to write file")) (set_argp false (MkMem (csMem (p_mem s)) 0 []) b s)
  end.

(** ** Errors: the rest of the request is read and discarded *)

(** [do_WriteNoneMsg()] for a file that is open. *)
Definition do_WriteNoneMsg (s : Prot) : Z * Prot :=
  if negb (EInfo1 (p_io s) =? 0) then Send (RError (EInfo1 (p_io s)) (errText (p_io s))) s
  else if negb (EInfo0 (p_io s) =? 0) then Send (RFsError (EInfo0 (p_io s))) s
  else Send (RError kXR_FSError (errText (p_io s))) s.

Definition set_IOLen (n : Z) (s : Prot) : Prot :=
  set_io (MkIO (Offset (p_io s)) n (isRetry (p_io s)) (EInfo0 (p_io s)) (EInfo1 (p_io s)) (errText (p_io s))) s.

(** The loop of [do_WriteNone()], which reads into [argp] when it is the larger buffer. *)
Fixpoint drain_loop (fuel : nat) (use_argp : bool) (blen : Z) (s : Prot) : res (Z * Prot) :=
  if 0 <? IOLen (p_io s) then
    match fuel with
    | O => Diverge
    | S fuel =>
        match p_net s with
        | [] => Ok (-1, s)
        | a :: net =>
            let got := take (Z.to_nat blen) a in
            M ← if use_argp then store (PHeap (bufAt (p_mem s))) got (p_mem s) else Ok (p_mem s);
            let s := set_IOLen (IOLen (p_io s) - zlen got) (set_mem M (set_net (arrivals_left blen a net) s)) in
            if zlen got <? blen then Ok (1, set_resume ResumeWriteNone s)
            else drain_loop fuel use_argp (if IOLen (p_io s) <? blen then IOLen (p_io s) else blen) s
        end
    end
  else Ok (do_WriteNoneMsg s).
Definition do_WriteNone (s : Prot) : res (Z * Prot) :=
  let use_argp := p_argp s && (4096 <? bsize s) in
  let blen := if use_argp then bsize s else 4096 in
  drain_loop (Z.to_nat (IOLen (p_io s))) use_argp (if IOLen (p_io s) <? blen then IOLen (p_io s) else blen) s.

(** [do_WriteNone( PathID, ec, emsg )] on the path of the connection itself *)
Definition do_WriteNone_err (ec : Z) (emsg : string) (s : Prot) : res (Z * Prot) :=
  do_WriteNone (set_io (MkIO (Offset (p_io s)) (IOLen (p_io s)) (isRetry (p_io s)) (EInfo0 (p_io s)) ec emsg) s).

(** ** The data of a frame *)

(** One turn of [getDataIovCont] on the state. *)
Definition getDataIov_turn (s : Prot) : res (turn * Prot) :=
  match p_ctl s with
  | None => Fault
  | Some c =>
      '(t, g, v, net, M) ← iov_turn (p_gd s) (ioVec c) (p_net s) (p_mem s);
      Ok (t, set_gd g (set_ctl (Some (set_vec (fun _ => v) c)) (set_mem M (set_net net s))))
  end.

(** [getData( this, ..., ioV, iovNum )] *)
Definition getData (iovNum : Z) (s : Prot) : res (Z * Prot) :=
  let inCB := if p_status s is inCallBk then true else false in
  let s := set_status inDataIov (set_gd (MkGd iovNum 0 0 inCB) s) in
  if inCB then Ok (1, s)
  else
    '(t, s) ← getDataIov_turn s;
    match t with
    | Complete => Ok (0, set_status inNone s)
    | Suspend => Ok (1, set_resume ResumeIov s)
    | LinkError | Overrun => Ok (-1, set_status inNone s)
    end.

(** ** The write *)

(** [do_PgWIOSetup( pgwCtl )]. It returns -1, which is true, when there is no buffer. *)
Definition do_PgWIOSetup (s : Prot) : res (bool * Prot) :=
  let len := IOLen (p_io s) in
  let Quantum := if len <? maxBSize / 2 then (if len <? PageSize then PageSize else len) else maxBSize in
  let '(rc, s) :=
    if negb (p_argp s) || (Quantum <? halfBSize (p_bctl s)) || (bsize s <? Quantum) || (maxBSize <? bsize s) then getBuff false Quantum s
    else if hcNow (p_bctl s) <? hcNext (p_bctl s) then
      (1, set_argp (p_argp s) (p_mem s) (MkBuffCtl (halfBSize (p_bctl s)) (hcPrev (p_bctl s)) (hcNow (p_bctl s) + 1) (hcNext (p_bctl s)) (hcMax (p_bctl s))) s)
    else (1, s) in
  if rc <=? 0 then Ok (true, s)
  else
    match p_ctl s with
    | None => Fault
    | Some c =>
        let '(eMsg, c) := Setup (bufAt (p_mem s)) (bsize s) (Offset (p_io s)) (IOLen (p_io s)) c in
        let s := set_ctl (Some c) s in
        match eMsg with
        | Some e => Ok (false, snd (Send (RError kXR_ArgInvalid e) s))
        | None => Ok (true, s)
        end
    end.

(** [do_PgWIORetry( rc )]: a write of a single page; whether to go on *)
Definition do_PgWIORetry (s : Prot) : res (bool * Z * Prot) :=
  let io := p_io s in
  let off := Z.land (Offset io) pgPageMask in
  let isBad := if negb (off =? 0) then PageSize - off + crcSZ <? IOLen io else pgUnitSize <? IOLen io in
  if isBad then '(rc, s) ← do_WriteNone_err kXR_ArgInvalid "pgwrite retry of more than one page not allowed" s; Ok (false, rc, s)
  else
    match p_fob s with
    | None => Fault
    | Some f =>
        if hasOffs (Offset io) (IOLen io - crcSZ) f then Ok (true, 0, s)
        else Ok (true, 0, set_io (MkIO (Offset io) (IOLen io) false (EInfo0 io) (EInfo1 io) (errText io)) s)
    end.

(** The verification of a frame: [while(dInfo.count > 0 && !csVer(dInfo, bado, badc))] *)
Fixpoint verify_loop (fuel : nat) (d : dataInfo) (b : PgwBadCS) (f : Fob) (aOK : bool) : res (option string * PgwBadCS * Fob * bool) :=
  if 0 <? count d then
    '(d, r) ← csVer m d;
    match r with
    | None => Ok (None, b, f, aOK)
    | Some (bado, badc) =>
        match boAdd bado badc b f with
        | (Some eMsg, b, f) => Ok (Some eMsg, b, f, aOK)
        | (None, b, f) => match fuel with O => Diverge | S fuel => verify_loop fuel d b f false end
        end
    end
  else Ok (None, b, f, aOK).

(** What [do_PgWIO] does with the data of a frame: it returns, or goes on. *)
Definition PgWIO_frame (s : Prot) : res ((Z * Prot) + Prot) :=
  match p_ctl s, p_fob s with
  | Some c, Some f =>
      if negb (p_argp s) then Fault else
      match FrameInfo_data c (bufAt (p_mem s)) (bsize s) with
      | None => r ← do_WriteNone_err kXR_Impossible "pgwrite logic error 2" s; Ok (inl r)
      | Some (csNum, PCs _, _) => Fault
      | Some (csNum, PHeap buff, Quantum) =>
          let csVec := csVec_host csNum (p_mem s) in
          let io := p_io s in
          data ← rd_bytes Quantum (buff - bufAt (p_mem s)) (bufMem (p_mem s));
          '(eMsg, b, f, aOK) ← verify_loop (length data) (MkInfo data csVec (Offset io) Quantum) (bad c) f true;
          let s := set_ctl (Some (set_bad b c)) (set_fob (Some f) s) in
          match eMsg with
          | Some e => r ← do_WriteNone_err kXR_TooManyErrs e s; Ok (inl r)
          | None =>
              let '(rc, file) := pgWrite (p_file s) (Offset io) data csVec in
              let s := set_file file s in
              if rc <=? 0 then
                r ← do_WriteNone (set_io (MkIO (Offset io) (IOLen io) (isRetry io) rc 0 (errText io)) s); Ok (inl r)
              else
                let s := if aOK && isRetry io then set_fob (Some (snd (delOffs (Offset io) Quantum f))) s else s in
                Ok (inr (set_io (MkIO (Offset io + Quantum) (IOLen io) (isRetry io) (EInfo0 io) (EInfo1 io) (errText io)) s))
          end
      end
  | _, _ => Fault
  end.

(** The final result *)
Definition PgWIO_final (c : PgwCtl) (s : Prot) : res (Z * Prot) :=
  more ← boInfo m (bad c); Ok (Send (RStatus (info_offset c) more) s).

(** The loop of [do_PgWIO] over the frames *)
Fixpoint PgWIO_loop (fuel : nat) (isFresh : bool) (s : Prot) : res (Z * Prot) :=
  match fuel, p_ctl s with
  | S fuel, Some c =>
      let go (s : Prot) :=
        r ← PgWIO_frame s;
        match r with
        | inl r => Ok r
        | inr s =>
            match p_ctl s with
            | None => Fault
            | Some c => let '(more, c) := Advance c in
                        let s := set_ctl (Some c) s in if more then PgWIO_loop fuel true s else PgWIO_final c s
            end
        end in
      if isFresh then
        match FrameInfo c with
        | None => PgWIO_final c s
        | Some (iovNum, iovLen) =>
            '(rc, s) ← getData iovNum (set_IOLen (IOLen (p_io s) - iovLen) s);
            if rc =? 0 then go s else Ok (rc, s)
        end
      else go s
  | S _, None => Fault
  | O, _ => Diverge
  end.

(** [do_PgWIO( isFresh )]. The loop runs once for each frame that remains. *)
Definition PgWIO_fuel (s : Prot) : nat := match p_ctl s with Some c => S (Z.to_nat (iovRem c)) | None => 1 end.
Definition do_PgWIO (isFresh : bool) (s : Prot) : res (Z * Prot) :=
  if p_fob s is None then do_WriteNone_err kXR_Impossible "pgwrite logic error 1" s
  else
    let s := if p_ctl s is None then set_mem (MkMem (replicate (Z.to_nat (maxIOVN / 2 * crcSZ)) 0) (bufAt (p_mem s)) (bufMem (p_mem s))) (set_ctl (Some new_PgwCtl) s) else s in
    if isFresh then
      '(ok, rc, s) ← if isRetry (p_io s) then do_PgWIORetry s else Ok (true, 0, s);
      if ok : bool then
        '(ok, s) ← do_PgWIOSetup s;
        if ok : bool then PgWIO_loop (PgWIO_fuel s) true s else Ok (-1, s)
      else Ok (rc, s)
    else PgWIO_loop (PgWIO_fuel s) false s.

(** [getDataIovCont()], resumed: when the vector is complete the callback [gdDone] goes on
    with the request; it may ask for more data. *)
Fixpoint getDataIovCont (fuel : nat) (s : Prot) : res (Z * Prot) :=
  match fuel with
  | O => Diverge
  | S fuel =>
      '(t, s) ← getDataIov_turn s;
      match t with
      | Complete =>
          '(rc, s) ← do_PgWIO false (set_status inCallBk s);
          if rc <? 0 then Ok (rc, set_status inNone s)
          else if p_status s is inDataIov then getDataIovCont fuel s
          else Ok (rc, set_status inNone s)
      | Suspend => Ok (1, set_resume ResumeIov s)
      | LinkError | Overrun => Ok (-1, set_status inNone s)
      end
  end.

(** ** The life of a request *)

Definition net_size (net : list (list Z)) : nat := (length net + length (mjoin net))%nat.

(** The call of [Resume], made by [Process] when the link has data again *)
Definition resume (s : Prot) : res (Z * Prot) :=
  match p_resume s with
  | ResumeNone => Ok (0, s)
  | ResumeIov => getDataIovCont (S (net_size (p_net s))) s
  | ResumeWriteNone => do_WriteNone s
  end.

(** A request is finished when the code is not positive. *)
Fixpoint finish (fuel : nat) (r : Z * Prot) : res (Z * Prot) :=
  if 0 <? fst r then match fuel with O => Diverge | S fuel => r ← resume (snd r); finish fuel r end
  else Ok (fst r, set_resume ResumeNone (snd r)).

(** [do_PgWrite()] for a request of [dlen] bytes, to the file and on the path of the
    connection *)
Definition do_PgWrite (offset dlen : Z) (retry : bool) (s : Prot) : res (Z * Prot) :=
  let s := set_io (MkIO offset dlen retry (EInfo0 (p_io s)) (EInfo1 (p_io s)) (errText (p_io s))) s in
  if dlen <=? crcSZ then Ok (-1, snd (Send (RError kXR_ArgInvalid "pgwrite length is invalid") s))
  else do_PgWIO true (if p_fob s is None then set_fob (Some new_Fob) s else s).

Definition serve (offset dlen : Z) (retry : bool) (s : Prot) : res (Z * Prot) :=
  r ← do_PgWrite offset dlen retry s; finish (S (net_size (p_net s))) r.

(** [do_PgClose( fP, rc )]: whether the file may be closed, and the reply otherwise *)
Definition do_PgClose (s : Prot) : bool * Prot :=
  match p_fob s with
  | None => (true, s)
  | Some f => if (numOffs f).1.1 =? 0 then (true, s) else (false, snd (Send (RError kXR_ChkSumErr "uncorrected checksum errors") s))
  end.
End protocol.
