(* ===== verification/PgServe.v ===== *)
(** * What a write with checksums does (the server's side, specified)

    [write_frames] says what a request does to the file, to its uncorrected offsets and to
    the list for the reply, frame by frame; [serve_refines] shows that the server does that,
    however the data arrives, and reads the request from the link to its end whether it
    succeeds or not. *)

From stdpp Require Import base tactics list_numbers numbers option list strings gmap.
From S2P Require Import Prelude CrcRegister OucCRC32C CsiCrc PgrwUtils LinkData PgwCtl PgWire PgWrite.
#[local] Set Warnings "-clear-no-such-hyp".

(** ** The specification *)

(** Damaged pieces are added to the list until there are too many. *)
Fixpoint add_bads (l : list (Z * Z)) (b : PgwBadCS) (f : Fob) : option string * PgwBadCS * Fob :=
  match l with
  | [] => (None, b, f)
  | (o, n) :: l => match boAdd o n b f with (None, b, f) => add_bads l b f | r => r end
  end.

(** The frames of a request: offset, data and checksums. *)
Fixpoint frames_upto (fuel : nat) (K o : Z) (B cs : list Z) : list (Z * list Z * list Z) :=
  match fuel, B with
  | S fuel, _ :: _ => (o, frame K o B, frame_sums K o B cs) :: frames_upto fuel K (o + cap K o) (adv (cap K o) B) (later_sums K o B cs)
  | _, _ => []
  end.
Definition frames (K o : Z) (B cs : list Z) : list (Z * list Z * list Z) := frames_upto (length B) K o B cs.

Inductive outcome : Type := Written | TooMany (text : string) | NotWritten (rc : Z).

(** The bytes of the list in the reply. *)
Definition bad_list (b : PgwBadCS) : list Z := if boCount b =? 0 then [] else be 4 (checksum (cse_body b)) ++ cse_body b.

Definition reply_of (O : Z) (txt : string) (out : outcome) (b : PgwBadCS) : Reply :=
  match out with
  | Written => RStatus O (bad_list b)
  | TooMany e => RError kXR_TooManyErrs e
  | NotWritten rc => if rc =? 0 then RError kXR_FSError txt else RFsError rc
  end.

Section spec.
Context {F : Type} `{SfsFile F}.

Record Work := MkWork { w_bad : PgwBadCS; w_fob : Fob; w_file : F }.

Fixpoint write_frames (retry : bool) (frs : list (Z * list Z * list Z)) (x : Work) : outcome * Work :=
  match frs with
  | [] => (Written, x)
  | (o, B, cs) :: frs =>
      match add_bads (bads o B cs) (w_bad x) (w_fob x) with
      | (Some e, b, f) => (TooMany e, MkWork b f (w_file x))
      | (None, b, f) =>
          let '(rc, file) := pgWrite (w_file x) o B cs in
          if rc <=? 0 then (NotWritten rc, MkWork b f file)
          else write_frames retry frs (MkWork b (if bool_decide (bads o B cs = []) && retry then snd (delOffs o (zlen B) f) else f) file)
      end
  end.
End spec.

(** ** Frames *)

Lemma frames_upto_fuel f g K o B cs : 1 <= K -> (length B <= f)%nat -> (length B <= g)%nat -> frames_upto f K o B cs = frames_upto g K o B cs.
Proof.
  intros HK. revert g o B cs. induction f as [|f IH]; intros g o B cs Hf Hg.
  - assert (B = []) as -> by (destruct B; [done|cbn in Hf; lia]). by destruct g.
  - destruct B as [|b B]; [by destruct g|]. destruct g as [|g]; [cbn in Hg; lia|]. cbn [frames_upto]. f_equal.
    pose proof (adv_shorter (cap K o) (b :: B) (cap_pos K o HK) ltac:(done)). apply IH; cbn in *; lia.
Qed.

Lemma frames_cons K o B cs : 1 <= K -> B <> [] ->
  frames K o B cs = (o, frame K o B, frame_sums K o B cs) :: frames K (o + cap K o) (adv (cap K o) B) (later_sums K o B cs).
Proof.
  intros HK HB. unfold frames. pose proof (adv_shorter (cap K o) B (cap_pos K o HK) HB) as Hlt. destruct B as [|b B]; [done|].
  cbn [length frames_upto]. f_equal. apply frames_upto_fuel; cbn in *; lia.
Qed.

(** ** The verification of a frame *)

Lemma verify_loop_spec m fuel o B cs b f aOK : 0 <= o -> Forall is_byte B -> length cs = length (pieces o B) -> (length B <= fuel)%nat ->
  exists aOK', verify_loop m fuel (MkInfo B cs o (zlen B)) b f aOK = Ok (add_bads (bads o B cs) b f, aOK') /\
    ((add_bads (bads o B cs) b f).1.1 = None -> aOK' = aOK && bool_decide (bads o B cs = [])).
Proof.
  revert o B cs b f aOK. induction fuel as [|fuel IH]; intros o B cs b f aOK Ho Hb Hl Hf.
  - assert (B = []) as -> by (destruct B; [done|cbn in Hf; lia]). exists aOK. split; [done|]. intros _. rewrite bads_nil, bool_decide_true by done. by rewrite andb_true_r.
  - cbn [verify_loop count]. destruct (decide (B = [])) as [->|HB].
    { exists aOK. split; [done|]. intros _. rewrite bads_nil, bool_decide_true by done. by rewrite andb_true_r. }
    pose proof (zlen_pos B HB). rewrite (proj2 (Z.ltb_lt _ _)) by done.
    destruct (csVer_spec m o B cs Ho Hb Hl) as (d & r & -> & Hr). rewrite bind_Ok. destruct r as [[bado badc]|].
    + destruct Hr as (e & He & Hd & Ho' & Hc & Hl' & ->). cbn [add_bads]. destruct (boAdd bado badc b f) as [[[eMsg|] b'] f'].
      * exists aOK. split; [done|]. done.
      * destruct d as [dd dcs doff dc]. cbn in Hd, Ho', Hc, Hl'. subst dd doff dc.
        destruct (IH (o + e) (adv e B) dcs b' f' false) as (aOK' & E & HaOK); [lia|by apply bytes_adv|done|pose proof (adv_shorter e B ltac:(lia) HB); lia|].
        exists aOK'. split; [exact E|]. cbn [add_bads data offs csval] in *. intros Hn. rewrite HaOK by done. rewrite (bool_decide_false (_ :: _ = [])) by done. by rewrite andb_false_r.
    + rewrite Hr. exists aOK. split; [done|]. intros _. rewrite bool_decide_true by done. by rewrite andb_true_r.
Qed.

(** ** The list in the reply *)

Lemma Forall_mjoin (P : Z -> Prop) (ls : list (list Z)) : Forall (Forall P) ls -> Forall P (mjoin ls).
Proof. induction 1; [constructor|]. by apply Forall_app. Qed.

Lemma bytes_be n z : Forall is_byte (be n z).
Proof. unfold be. apply Forall_rev. apply enc_bytes. Qed.

Lemma bytes_cse_body b : Forall is_byte (cse_body b).
Proof.
  unfold cse_body. rewrite !Forall_app. split_and!; [apply bytes_be|apply bytes_be|]. apply Forall_mjoin, Forall_fmap, Forall_true. intros z. apply bytes_be.
Qed.

Lemma boInfo_spec m b : boInfo m b = Ok (bad_list b).
Proof.
  unfold boInfo, bad_list. destruct (boCount b =? 0); [done|]. unfold Calc32C. rewrite crc32c_whole by apply bytes_cse_body. done.
Qed.

(** ** Draining the link after an error *)

Lemma store_shape p l M M' : store p l M = Ok M' -> bufAt M' = bufAt M /\ zlen (csMem M') = zlen (csMem M) /\ zlen (bufMem M') = zlen (bufMem M).
Proof.
  assert (forall off k x y, put off k x = Ok y -> zlen y = zlen x) as Hput.
  { intros off k x y. unfold put. destruct (Z.leb_spec 0 off), (Z.leb_spec (off + zlen k) (zlen x)); try done. intros [= <-]. by apply zlen_paste. }
  destruct p as [o|a]; cbn; [destruct (put o l (csMem M)) eqn:E|destruct (put _ l (bufMem M)) eqn:E]; try done; intros [= <-]; cbn; apply Hput in E; done.
Qed.

Lemma net_size_left n a net : 0 < n -> (net_size (arrivals_left n a net) < net_size (a :: net))%nat.
Proof.
  intros Hn. unfold net_size. pose proof (arrivals_left_join n a net) as Hj. apply (f_equal length) in Hj. rewrite length_app in Hj. unfold arrivals_left in *.
  destruct (drop (Z.to_nat n) a) as [|y l] eqn:E; cbn [length] in *; [lia|]. assert (length (take (Z.to_nat n) a) <> 0%nat); [|lia].
  rewrite length_take. destruct a; [by rewrite drop_nil in E|]. cbn. lia.
Qed.

Section serve.
Context (m : machine) {F : Type} `{SfsFile F} `{BuffPool}.
Implicit Types s : Prot (F := F).

(** What draining leaves as it is. *)
Record quiet s s' : Prop := {
  quiet_io : exists n, p_io s' = MkIO (Offset (p_io s)) n (isRetry (p_io s)) (EInfo0 (p_io s)) (EInfo1 (p_io s)) (errText (p_io s));
  quiet_ctl : p_ctl s' = p_ctl s; quiet_argp : p_argp s' = p_argp s; quiet_fob : p_fob s' = p_fob s; quiet_file : p_file s' = p_file s;
  quiet_status : p_status s' = p_status s; quiet_sent : p_sent s' = p_sent s;
  quiet_mem : bufAt (p_mem s') = bufAt (p_mem s) /\ zlen (csMem (p_mem s')) = zlen (csMem (p_mem s)) /\ zlen (bufMem (p_mem s')) = zlen (bufMem (p_mem s)) }.

Lemma quiet_refl s : quiet s s.
Proof. split; try done. exists (IOLen (p_io s)). by destruct (p_io s). Qed.

Lemma quiet_trans s1 s2 s3 : quiet s1 s2 -> quiet s2 s3 -> quiet s1 s3.
Proof.
  intros [[n1 I1] A1 A2 A3 A4 A5 A6 (A7 & A8 & A9)] [[n2 I2] B1 B2 B3 B4 B5 B6 (B7 & B8 & B9)]. split; try congruence.
  - exists n2. rewrite I2, I1. done.
  - split_and!; congruence.
Qed.

(** [d] is what is left of a request, and [rest] comes behind it. *)
Definition draining (d rest : list Z) s : Prop := IOLen (p_io s) = zlen d /\ mjoin (p_net s) = d ++ rest.

(** Either it is all drained and the error is sent, or it waits for more. *)
Definition drained (rest : list Z) s (r : Z * Prot) : Prop :=
  (exists s0, quiet s s0 /\ mjoin (p_net s0) = rest /\ r = do_WriteNoneMsg s0) \/
  (fst r = 1 /\ quiet s (snd r) /\ p_resume (snd r) = ResumeWriteNone /\ (exists d, draining d rest (snd r)) /\ (net_size (p_net (snd r)) < net_size (p_net s))%nat).

Lemma drain_loop_spec fuel use_argp blen s d rest : draining d rest s -> (length d <= fuel)%nat -> (0 < zlen d -> 0 < blen <= zlen d) ->
  (use_argp = true -> blen <= bsize s) -> exists r, drain_loop fuel use_argp blen s = Ok r /\ drained rest s r.
Proof.
  revert blen s d. induction fuel as [|fuel IH]; intros blen s d [Hlen Hnet] Hf Hbl Hargp.
  - assert (d = []) as -> by (destruct d; [done|cbn in Hf; lia]). cbn [drain_loop]. rewrite Hlen. eexists. split; [done|]. left. exists s. split_and!; [apply quiet_refl|exact Hnet|done].
  - cbn [drain_loop]. rewrite Hlen. destruct (Z.ltb_spec 0 (zlen d)) as [Hpos|Hzero].
    2:{ assert (d = []) as -> by (apply zlen_0_nil; lia). eexists. split; [done|]. left. exists s. split_and!; [apply quiet_refl|exact Hnet|done]. }
    specialize (Hbl Hpos). destruct (p_net s) as [|a net] eqn:En; [destruct d; [by unfold zlen in Hpos; cbn in Hpos; lia|done]|].
    set (got := take (Z.to_nat blen) a). assert (zlen got <= blen) as Hgot by (unfold got, zlen; rewrite length_take; lia).
    assert (exists M', (if use_argp then store (PHeap (bufAt (p_mem s))) got (p_mem s) else Ok (p_mem s)) = Ok M' /\
      bufAt M' = bufAt (p_mem s) /\ zlen (csMem M') = zlen (csMem (p_mem s)) /\ zlen (bufMem M') = zlen (bufMem (p_mem s))) as (M' & -> & HM).
    { destruct use_argp; [|by eexists]. specialize (Hargp eq_refl). unfold bsize in Hargp.
      destruct (store (PHeap (bufAt (p_mem s))) got (p_mem s)) as [M'| | |] eqn:E; [exists M'; split; [done|by eapply store_shape]|..];
        cbn in E; rewrite put_paste in E by lia; done. }
    rewrite bind_Ok. pose proof (arrivals_left_join blen a net) as Hj. rewrite Hnet in Hj. fold got in Hj.
    assert (exists d', d = got ++ d' /\ mjoin (arrivals_left blen a net) = d' ++ rest) as (d' & -> & Hnet').
    { exists (drop (length got) d). assert (length got <= length d)%nat by (unfold zlen in *; lia).
      pose proof (f_equal (take (length got)) Hj) as Ht. rewrite take_app_length, take_app_le in Ht by done.
      split; [rewrite Ht at 1; by rewrite take_drop|]. pose proof (f_equal (drop (length got)) Hj) as Hd. by rewrite drop_app_length, drop_app_le in Hd. }
    rewrite zlen_app in *. set (s1 := set_IOLen _ (set_mem M' (set_net _ s))).
    assert (draining d' rest s1) as Hdr by (split; [cbn; lia|exact Hnet']).
    assert (quiet s s1) as Hq by (split; try done; by eexists).
    assert (net_size (p_net s1) < net_size (p_net s))%nat as Hsz by (rewrite En; cbn; apply net_size_left; lia).
    destruct (Z.ltb_spec (zlen got) blen) as [Hshort|Hfull].
    + eexists. split; [done|]. right. split_and!; [done| |done|by exists d'|exact Hsz]. by destruct Hq.
    + destruct (IH (if IOLen (p_io s1) <? blen then IOLen (p_io s1) else blen) s1 d' Hdr) as (r & -> & Hr).
      * rewrite length_app in Hf. assert (length got <> 0)%nat by (unfold zlen in *; lia). lia.
      * intros Hp. destruct Hdr as [-> _]. destruct (Z.ltb_spec (zlen d') blen); lia.
      * intros E. specialize (Hargp E). destruct HM as (_ & _ & HM). unfold bsize in *. cbn [p_mem s1 set_IOLen set_io set_mem set_net]. rewrite HM.
        destruct (Z.ltb_spec (IOLen (p_io s1)) blen); lia.
      * eexists. split; [done|]. destruct Hr as [(s0 & Hq0 & Hn0 & ->)|(H1 & Hq1 & H2 & H3 & H4)].
        -- left. exists s0. split_and!; [by eapply quiet_trans|done|done].
        -- right. split_and!; [done|by eapply quiet_trans|done|done|lia].
Qed.

Lemma do_WriteNone_spec s d rest : draining d rest s -> exists r, do_WriteNone s = Ok r /\ drained rest s r.
Proof.
  intros Hd. destruct Hd as [Hlen Hnet] eqn:E. clear E. unfold do_WriteNone. eapply drain_loop_spec.
  - by split.
  - rewrite Hlen. unfold zlen. lia.
  - rewrite Hlen. intros Hp. set (b := if p_argp s && (4096 <? bsize s) then bsize s else 4096).
    assert (0 < b) by (unfold b; destruct (p_argp s), (Z.ltb_spec 4096 (bsize s)); cbn; lia). destruct (Z.ltb_spec (zlen d) b); lia.
  - intros ->. destruct (Z.ltb_spec (IOLen (p_io s)) (bsize s)); lia.
Qed.

(** ** One frame *)

(** The data and the checksums that are left of a request, and the control object that is
    ready for their first frame. *)
Record holds (c : PgwCtl) (o : Z) (B cs : list Z) : Prop := {
  h_ready : ctl_ready c o B; h_buff : PageSize <= dataBLen c; h_o : 0 <= o; h_B : B <> []; h_bytes : Forall is_byte B;
  h_len : length cs = length (pieces o B); h_words : Forall word cs }.

Definition pages (c : PgwCtl) : Z := frame_pages (dataBLen c).

(** The memory of the control object and of its buffer. *)
Definition mem_ok (c : PgwCtl) (M : mem) : Prop := zlen (csMem M) = maxIOVN / 2 * crcSZ /\ bufAt M = dataBuff c /\ zlen (bufMem M) = dataBLen c.

Definition mem_with (o : Z) (D cs : list Z) (M : mem) : mem :=
  MkMem (paste 0 (mjoin (be 4 <$> cs)) (csMem M)) (bufAt M) (paste (o mod PageSize) D (bufMem M)).

Lemma holds_frame c o B cs : holds c o B cs ->
  1 <= pages c <= 256 /\ o mod PageSize + zlen (frame (pages c) o B) <= dataBLen c /\ npieces o (zlen (frame (pages c) o B)) <= 256 /\
  frame (pages c) o B <> [] /\ length (frame_sums (pages c) o B cs) = length (pieces o (frame (pages c) o B)).
Proof.
  intros [_ Hb Ho HB _ Hl _]. destruct (frame_pages_ok _ Hb) as [HM HK]. unfold pages. assert (frame_pages (dataBLen c) * PageSize <= dataBLen c) as Hfit.
  { unfold frame_pages, iovMax in *. change (maxBSize / PageSize) with 256 in *. destruct (Z.leb_spec maxBSize (dataBLen c)); [unfold maxBSize, PageSize in *; lia|].
    rewrite Z.div_mul by done. unfold PageSize. lia_div. }
  split_and!; [lia|lia| | | |].
  - rewrite zlen_frame by lia. unfold cap. lia.
  - rewrite zlen_frame by lia. pose proof (cap_pos (frame_pages (dataBLen c)) o ltac:(lia)). pose proof (zlen_pos B HB).
    enough (npieces o (Z.min (cap (frame_pages (dataBLen c)) o) (zlen B)) <= frame_pages (dataBLen c)) by lia. apply cap_npieces; lia.
  - by apply frame_nonempty; [lia|].
  - apply length_frame_sums; (lia || done).
Qed.

Lemma FrameInfo_ready c o B cs : holds c o B cs -> let D := frame (pages c) o B in
  FrameInfo c = Some (2 * npieces o (zlen D), zlen D + 4 * npieces o (zlen D)) /\
  FrameInfo_data c (dataBuff c) (dataBLen c) = Some (npieces o (zlen D), PHeap (dataBuff c + o mod PageSize), zlen D).
Proof.
  intros Hh D. destruct (holds_frame _ _ _ _ Hh) as (HK & _ & _ & HD & _). destruct Hh as [[_ Hn _ Hv Hl _] _ Ho _ _ _ _]. fold (pages c) in *. fold D in Hn, Hl, HD, Hv.
  pose proof (npieces_pos o (zlen D) (zlen_pos D HD)) as Hn1. unfold FrameInfo, FrameInfo_data. rewrite !Z.eqb_refl. cbn [negb orb].
  rewrite Hn, Hl, (proj2 (Z.eqb_neq _ 0)) by lia. split; [done|].
  assert (Z.shiftr (2 * npieces o (zlen D)) 1 = npieces o (zlen D)) as -> by (rewrite Z.shiftr_div_pow2 by done; change (2 ^ 1) with 2; rewrite Z.mul_comm; by apply Z.div_mul).
  assert (from_option iov_base (PHeap 0) (ioVec c !! 1%nat) = PHeap (dataBuff c + o mod PageSize)) as ->; [|do 2 f_equal; unfold crcSZ; lia].
  rewrite <- (lookup_take_lt (ioVec c) (Z.to_nat (iovNum c)) 1) by lia. rewrite Hv. unfold lens_of. by rewrite pieces_cons by done.
Qed.

Definition add_work (x : option string * PgwBadCS * Fob) (c : PgwCtl) s : Prot :=
  set_ctl (Some (set_bad x.1.2 c)) (set_fob (Some x.2) s).

Definition set_EInfo (e0 e1 : Z) (txt : string) s : Prot := set_io (MkIO (Offset (p_io s)) (IOLen (p_io s)) (isRetry (p_io s)) e0 e1 txt) s.

(** What a frame comes to when its data is in memory. *)
Lemma PgWIO_frame_spec s c f o B cs M : holds c o B cs -> mem_ok c M -> let D := frame (pages c) o B in let ds := frame_sums (pages c) o B cs in
  p_ctl s = Some c -> p_fob s = Some f -> p_argp s = true -> p_mem s = mem_with o D ds M -> Offset (p_io s) = o ->
  let x := add_bads (bads o D ds) (bad c) f in
  PgWIO_frame m s = match x.1.1 with
  | Some e => r ← do_WriteNone (set_EInfo (EInfo0 (p_io s)) kXR_TooManyErrs e (add_work x c s)); Ok (inl r)
  | None =>
      let '(rc, file) := pgWrite (p_file s) o D ds in
      let s1 := set_file file (add_work x c s) in
      if rc <=? 0 then r ← do_WriteNone (set_EInfo rc 0 (errText (p_io s)) s1); Ok (inl r)
      else Ok (inr (set_io (MkIO (o + zlen D) (IOLen (p_io s)) (isRetry (p_io s)) (EInfo0 (p_io s)) (EInfo1 (p_io s)) (errText (p_io s)))
             (if bool_decide (bads o D ds = []) && isRetry (p_io s) then set_fob (Some (snd (delOffs o (zlen D) x.2))) s1 else s1)))
  end.
Proof.
  intros Hh (Hm1 & Hm2 & Hm3) D ds Hc Hf Ha HM Ho x. destruct (holds_frame _ _ _ _ Hh) as (HK & Hfit & Hn & HD & Hlds). fold D ds in Hfit, Hn, HD, Hlds.
  destruct (FrameInfo_ready _ _ _ _ Hh) as [_ Hinfo]. fold D in Hinfo. pose proof (h_o _ _ _ _ Hh) as Ho0. assert (0 <= o mod PageSize) by (unfold PageSize; lia_div).
  assert (Forall word ds) as Hw by (apply Forall_take, Hh). assert (Forall is_byte D) as Hb by (apply Forall_take, Hh).
  assert (npieces o (zlen D) = zlen ds) as En by (pose proof (zlen_pieces o D Ho0 HD); unfold npieces, zlen in *; rewrite Hlds; lia).
  unfold PgWIO_frame. rewrite Hc, Hf, Ha. cbn [negb]. unfold bsize. rewrite HM. unfold mem_with. cbn [csMem bufAt bufMem].
  rewrite zlen_paste, Hm2, Hm3, Hinfo by lia. rewrite En, csVec_host_paste by (done || (rewrite Hm1; change (maxIOVN / 2 * crcSZ) with 1024; lia)).
  replace (dataBuff c + o mod PageSize - dataBuff c) with (o mod PageSize) by lia.
  assert (rd_bytes (zlen D) (o mod PageSize) (paste (o mod PageSize) D (bufMem M)) = Ok D) as ->.
  { unfold rd_bytes. rewrite zlen_paste by lia. pose proof (zlen_nonneg D). rewrite !(proj2 (Z.leb_le _ _)) by lia. cbn [andb]. f_equal. apply slice_paste; lia. }
  rewrite bind_Ok, Ho. destruct (verify_loop_spec m (length D) o D ds (bad c) f true Ho0 Hb Hlds ltac:(done)) as (aOK' & -> & HaOK). fold x in HaOK |- *.
  rewrite bind_Ok. destruct x as [[[e|] b] f'] eqn:Ex; cbn [fst snd add_work]; [done|]. cbn [fst snd] in HaOK. rewrite HaOK by done. cbn [andb].
  cbn [p_file set_ctl set_fob]. destruct (pgWrite (p_file s) o D ds) as [rc file]. destruct (rc <=? 0).
  - unfold set_EInfo, add_work. cbn [p_io set_file set_ctl set_fob fst snd]. by rewrite Ho.
  - destruct (bool_decide _ && _); done.
Qed.

(** ** What a request comes to *)

(** The control object can be used again. *)
Definition ctl_usable s : Prop := forall c, p_ctl s = Some c -> ctl_ok c /\ zlen (csMem (p_mem s)) = maxIOVN / 2 * crcSZ.

(** The state after a request of which these frames are left. *)
Definition post (O : Z) (txt : string) (rest : list Z) (sent : list Reply) (retry : bool) (frs : list (Z * list Z * list Z)) (x : Work (F := F)) s : Prop :=
  let '(out, y) := write_frames retry frs x in
  p_file s = w_file y /\ p_fob s = Some (w_fob y) /\ p_sent s = sent ++ [reply_of O txt out (w_bad y)] /\ mjoin (p_net s) = rest /\ ctl_usable s.

Section target.
Variable Q : Prot (F := F) -> Prop.
Hypothesis Q_status : forall s st, Q s -> Q (set_status st s).
Hypothesis Q_resume : forall s r, Q s -> Q (set_resume r s).

Definition leads (c : PgwCtl) (f : Fob) (o : Z) (B cs rest : list Z) s : Prop := forall s',
  post (info_offset c) (errText (p_io s)) rest (p_sent s) (isRetry (p_io s)) (frames (pages c) o B cs) (MkWork (bad c) f (p_file s)) s' -> Q s'.

(** The first frame of what is left, and what comes behind it. *)
Definition this_wire (c : PgwCtl) (o : Z) (B cs : list Z) : list Z := wire o (frame (pages c) o B) (frame_sums (pages c) o B cs).
Definition next_wire (c : PgwCtl) (o : Z) (B cs : list Z) : list Z := wire (o + cap (pages c) o) (adv (cap (pages c) o) B) (later_sums (pages c) o B cs).

Lemma wire_this_next c o B cs : holds c o B cs -> wire o B cs = this_wire c o B cs ++ next_wire c o B cs.
Proof.
  intros Hh. destruct (holds_frame _ _ _ _ Hh) as (HK & _). destruct Hh as [_ _ Ho HB _ Hl _]. unfold this_wire, next_wire.
  destruct (decide (zlen B <= cap (pages c) o)) as [Hle|Hgt]; [|apply wire_cut; (done || lia)].
  unfold frame_sums. rewrite frame_all by done. unfold adv. rewrite drop_ge by (unfold zlen in *; lia). rewrite wire_nil, app_nil_r.
  rewrite take_ge by lia. done.
Qed.

(** What the states of a request have in common. *)
Record common (c : PgwCtl) (f : Fob) (o : Z) (B cs rest : list Z) s : Prop := {
  c_holds : holds c o B cs; c_fob : p_fob s = Some f; c_argp : p_argp s = true; c_off : Offset (p_io s) = o; c_leads : leads c f o B cs rest s }.

(** A frame is to be read, is being read, or has been read. *)
Definition fresh s : Prop := exists c f o B cs rest, common c f o B cs rest s /\ mem_ok c (p_mem s) /\ p_ctl s = Some c /\
  IOLen (p_io s) = zlen (wire o B cs) /\ mjoin (p_net s) = wire o B cs ++ rest.

Definition vec_of (c : PgwCtl) : list iovec := take (Z.to_nat (iovNum c)) (ioVec c).
Definition vec_behind (c : PgwCtl) : list iovec := drop (Z.to_nat (iovNum c)) (ioVec c).

Definition mid s : Prop := exists c f o B cs rest v M w, common c f o B cs rest s /\ mem_ok c M /\ p_ctl s = Some (set_vec (fun _ => v) c) /\
  at_byte (vec_of c) (vec_behind c) (zlen w) (gd_now (p_gd s)) (gd_adj (p_gd s)) v /\ gd_num (p_gd s) = zlen (vec_of c) /\
  scatter (vec_of c) w M = Ok (p_mem s) /\ w ++ mjoin (p_net s) = wire o B cs ++ rest /\ zlen w < zlen (this_wire c o B cs) /\
  IOLen (p_io s) = zlen (next_wire c o B cs) /\ p_status s = inDataIov.

Definition full s : Prop := exists c f o B cs rest M, common c f o B cs rest s /\ mem_ok c M /\ p_ctl s = Some c /\
  p_mem s = mem_with o (frame (pages c) o B) (frame_sums (pages c) o B cs) M /\
  IOLen (p_io s) = zlen (next_wire c o B cs) /\ mjoin (p_net s) = next_wire c o B cs ++ rest.

(** An error is to be sent when the rest of the request is drained. *)
Definition failing s : Prop := exists d rest, draining d rest s /\
  forall s0, quiet s s0 -> mjoin (p_net s0) = rest -> Q (snd (do_WriteNoneMsg s0)).

Lemma vec_of_frame c o B cs : holds c o B cs -> vec_of c = frame_vec 0 (dataBuff c + o mod PageSize) (lens_of o (frame (pages c) o B)) /\
  zlen (vec_of c) = iovNum c /\ iov_ok (vec_of c) /\ iov_total (vec_of c) = zlen (this_wire c o B cs).
Proof.
  intros Hh. destruct (holds_frame _ _ _ _ Hh) as (HK & _ & _ & HD & Hds). destruct Hh as [[_ Hn _ Hv _ _] _ Ho _ _ _ _]. fold (pages c) in *.
  assert (vec_of c = frame_vec 0 (dataBuff c + o mod PageSize) (lens_of o (frame (pages c) o B))) as E by exact Hv.
  set (D := frame (pages c) o B) in *. assert (zlen (lens_of o D) = npieces o (zlen D)) as Hz by (unfold npieces; rewrite <- zlen_pieces by done; unfold zlen; by rewrite length_lens_of).
  split_and!; [done| | |].
  - rewrite E, zlen_frame_vec, Hz. lia.
  - rewrite E. apply frame_vec_ok, lens_of_pos.
  - rewrite E, iov_total_frame, sum_lens_of, Hz. unfold this_wire. fold D. rewrite zlen_wire by done. unfold pgCsumSize. lia.
Qed.

Lemma set_vec_id c : set_vec (fun _ => ioVec c) c = c.
Proof. by destruct c. Qed.

Lemma set_vec_behind c : set_vec (fun _ => vec_of c ++ vec_behind c) c = c.
Proof. unfold vec_of, vec_behind. rewrite take_drop. apply set_vec_id. Qed.

Lemma scatter_prefix v a b M M' : iov_ok v -> scatter v (a ++ b) M = Ok M' -> exists M1, scatter v a M = Ok M1.
Proof. intros Hv. rewrite scatter_app by done. destruct (scatter v a M) as [M1| | |]; try done. by eexists. Qed.

(** The frame begins. *)
Lemma fresh_begins s cb : fresh s -> exists c, p_ctl s = Some c /\ FrameInfo c <> None /\
  forall n len, FrameInfo c = Some (n, len) -> mid (set_status inDataIov (set_gd (MkGd n 0 0 cb) (set_IOLen (IOLen (p_io s) - len) s))).
Proof.
  intros (c & f & o & B & cs & rest & [Hh Hf Ha Ho Hq] & HM & Hc & Hlen & Hnet). exists c. split; [done|].
  destruct (FrameInfo_ready _ _ _ _ Hh) as [Hinfo _]. split; [by rewrite Hinfo|]. intros n len E. rewrite Hinfo in E. injection E as <- <-.
  destruct (vec_of_frame _ _ _ _ Hh) as (Ev & Hz & Hok & Htot). destruct (holds_frame _ _ _ _ Hh) as (HK & _ & _ & HD & Hds).
  pose proof (h_o _ _ _ _ Hh) as Ho0. assert (zlen (this_wire c o B cs) = zlen (frame (pages c) o B) + 4 * npieces o (zlen (frame (pages c) o B))) as Ht
    by (unfold this_wire; rewrite zlen_wire by done; unfold pgCsumSize; lia).
  pose proof (zlen_pos _ HD). pose proof (npieces_pos o (zlen (frame (pages c) o B)) ltac:(done)).
  exists c, f, o, B, cs, rest, (ioVec c), (p_mem s), []. cbn [p_ctl p_gd p_mem p_net p_io p_status set_status set_gd set_IOLen set_io gd_num gd_now gd_adj IOLen app].
  split_and!.
  - split; try done.
  - done.
  - by rewrite set_vec_id.
  - destruct (vec_of c) as [|e V] eqn:EV.
    + change (iov_total []) with 0 in Htot. lia.
    + assert (ioVec c = [] ++ iov_shift 0 e :: V ++ vec_behind c) as ->.
      { rewrite iov_shift_0. cbn [app]. rewrite app_comm_cons, <- EV. unfold vec_of, vec_behind. by rewrite take_drop. }
      refine (at_byte_intro _ _ _ [] e V 0 eq_refl eq_refl _). by inversion_clear Hok.
  - destruct (ready_num _ _ _ (h_ready _ _ _ _ Hh)). rewrite Hz. by apply h_ready in Hh as [].
  - apply scatter_nil.
  - done.
  - change (zlen []) with 0. lia.
  - rewrite Hlen, (wire_this_next _ _ _ _ Hh), zlen_app. lia.
  - done.
Qed.

Lemma app_cut (x y p q : list Z) : x ++ y = p ++ q -> zlen x <= zlen p -> exists r, p = x ++ r /\ y = r ++ q.
Proof.
  intros E Hl. apply app_eq_inv in E as [(k & -> & ->)|(k & -> & ->)]; [|by exists k].
  rewrite zlen_app in Hl. assert (k = []) as -> by (apply zlen_0_nil; lia). exists []. by rewrite !app_nil_r.
Qed.

(** The units of a frame in the memory of the control object. *)
Lemma frame_in_memory c o B cs M : holds c o B cs -> mem_ok c M ->
  scatter (vec_of c) (this_wire c o B cs) M = Ok (mem_with o (frame (pages c) o B) (frame_sums (pages c) o B cs) M).
Proof.
  intros Hh (Hm1 & Hm2 & Hm3). destruct (vec_of_frame _ _ _ _ Hh) as (-> & _). destruct (holds_frame _ _ _ _ Hh) as (HK & Hfit & Hn & HD & Hds).
  rewrite <- Hm2. apply scatter_wire; [done| |by rewrite Hm3]. rewrite Hm1. change (maxIOVN / 2 * crcSZ) with 1024.
  rewrite zlen_pieces by (done || by destruct Hh). unfold npieces in Hn. lia.
Qed.

(** Bytes arrive. *)
Lemma mid_turn s : mid s -> exists t s', getDataIov_turn s = Ok (t, s') /\ (net_size (p_net s') < net_size (p_net s))%nat /\
  iovRem <$> p_ctl s' = iovRem <$> p_ctl s /\ ((t = Complete /\ full s' /\ p_status s' = inDataIov) \/ (t = Suspend /\ mid s')).
Proof.
  intros (c & f & o & B & cs & rest & v & M & w & Hcom & HM & Hc & Hat & Hg & Hsc & Hnet & Hshort & Hlen & Hst).
  pose proof (c_holds _ _ _ _ _ _ _ Hcom) as Hh. rewrite (wire_this_next _ _ _ _ Hh), <- app_assoc in Hnet.
  destruct (vec_of_frame _ _ _ _ Hh) as (_ & Hz & Hok & Htot). pose proof (frame_in_memory _ _ _ _ _ Hh HM) as Hmem.
  destruct (p_net s) as [|a net] eqn:En.
  { exfalso. cbn in Hnet. rewrite app_nil_r in Hnet. apply (f_equal zlen) in Hnet. rewrite zlen_app in Hnet. pose proof (zlen_nonneg (next_wire c o B cs ++ rest)). lia. }
  set (n := iov_total (vec_of c) - zlen w) in *. assert (0 < n) as Hn by (unfold n; lia). set (got := take (Z.to_nat n) a).
  pose proof (arrivals_left_join n a net) as Hj. fold got in Hj. rewrite <- Hj, app_assoc in Hnet.
  assert (zlen got = Z.min n (zlen a)) as Hgot by (unfold got, zlen; rewrite length_take; lia).
  destruct (app_cut _ _ _ _ Hnet) as (r & Hr & Hrest); [rewrite zlen_app; unfold n in *; lia|].
  rewrite Hr in Hmem. destruct (scatter_prefix _ _ _ _ _ Hok Hmem) as [M' HM']. rewrite <- Hr in Hmem.
  destruct (iov_turn_spec _ _ _ _ _ _ (gd_useCB (p_gd s)) w a net M (p_mem s) M' Hok Hat eq_refl Hsc HM') as (now' & adj' & Hturn). fold n in Hturn.
  unfold getDataIov_turn. rewrite Hc, En. cbn [ioVec set_vec]. assert (p_gd s = MkGd (zlen (vec_of c)) (gd_now (p_gd s)) (gd_adj (p_gd s)) (gd_useCB (p_gd s))) as -> by (rewrite <- Hg; by destruct (p_gd s)).
  destruct Hcom as [_ Hf Ha Ho Hq]. destruct (Z.leb_spec n (zlen a)) as [Hfull|Hpart].
  - rewrite Hturn, bind_Ok. eexists _, _. split; [reflexivity|]. cbn [p_net set_gd set_ctl set_mem set_net]. split; [by apply net_size_left|]. split; [done|]. left. split; [done|]. split; [|exact Hst].
    assert (r = []) as -> by (apply zlen_0_nil; apply (f_equal zlen) in Hr; rewrite !zlen_app in Hr; unfold n in *; lia). rewrite app_nil_r in Hr. rewrite <- Hr in HM'. rewrite Hmem in HM'. injection HM' as <-.
    exists c, f, o, B, cs, rest, M. split_and!; [by split|done| |done|exact Hlen|exact Hrest]. cbn [p_ctl set_gd set_ctl set_mem set_net]. by rewrite (set_vec_behind c : set_vec _ (set_vec (fun _ => v) c) = c).
  - destruct Hturn as (v' & Hturn & Hat'). rewrite Hturn, bind_Ok. eexists _, _. split; [reflexivity|]. cbn [p_net set_gd set_ctl set_mem set_net].
    split; [unfold net_size; change (mjoin (a :: net)) with (a ++ mjoin net); rewrite length_app; cbn [length]; lia|]. split; [done|]. right. split; [done|].
    assert (got = a) as Eg by (unfold got; apply take_ge; unfold zlen in *; lia).
    exists c, f, o, B, cs, rest, v', M, (w ++ a). cbn [p_ctl p_gd p_mem p_net p_io p_status set_gd set_ctl set_mem set_net gd_num gd_now gd_adj].
    rewrite zlen_app. split_and!; [by split|done|done|exact Hat'|done|by rewrite <- Eg| | |exact Hlen|exact Hst].
    + rewrite (wire_this_next _ _ _ _ Hh), <- !app_assoc. rewrite <- Hnet, <- app_assoc, Hj. done.
    + unfold n in *. lia.
Qed.

Lemma do_WriteNoneMsg_sent s : fst (do_WriteNoneMsg s) = 0 /\ p_status (snd (do_WriteNoneMsg s)) = p_status s.
Proof. unfold do_WriteNoneMsg. by destruct (EInfo1 (p_io s) =? 0), (EInfo0 (p_io s) =? 0). Qed.

(** An error. *)
Lemma failing_drains s : failing s -> exists r, do_WriteNone s = Ok r /\ p_status (snd r) = p_status s /\
  ((fst r = 0 /\ Q (snd r)) \/ (fst r = 1 /\ failing (snd r) /\ p_resume (snd r) = ResumeWriteNone /\ (net_size (p_net (snd r)) < net_size (p_net s))%nat)).
Proof.
  intros (d & rest & Hd & HQ). destruct (do_WriteNone_spec _ _ _ Hd) as (r & Hr & Hc). exists r. split; [done|]. destruct Hc as [(s0 & Hq & Hn & ->)|(H1 & Hq & H2 & (d' & Hd') & H3)].
  - specialize (HQ s0 Hq Hn). destruct (do_WriteNoneMsg_sent s0) as [H1 H2]. split; [rewrite H2; apply Hq|]. by left.
  - split; [apply Hq|]. right. split_and!; [done| |done|done]. exists d', rest. split; [done|]. intros s0 Hq0 Hn0. apply HQ; [by eapply quiet_trans|done].
Qed.

(** What the functions of the request return. *)
Definition outcome_of (st : GdStatus) (n : nat) (r : Z * Prot) : Prop :=
  (fst r = 0 /\ Q (snd r) /\ p_status (snd r) = st) \/
  (fst r = 1 /\ failing (snd r) /\ p_status (snd r) = st /\ p_resume (snd r) = ResumeWriteNone /\ (net_size (p_net (snd r)) <= n)%nat) \/
  (fst r = 1 /\ mid (snd r) /\ (st = inNone -> p_resume (snd r) = ResumeIov) /\ (net_size (p_net (snd r)) <= n)%nat).

Lemma failing_outcome s : failing s -> exists r, do_WriteNone s = Ok r /\ outcome_of (p_status s) (net_size (p_net s)) r.
Proof.
  intros Hf. destruct (failing_drains s Hf) as (r & -> & Hst & [[H1 H2]|(H1 & H2 & H3 & H4)]); exists r; split; try done; [by left|].
  right. left. split_and!; (done || lia).
Qed.

Lemma mem_with_ok c o B cs M : holds c o B cs -> mem_ok c M -> mem_ok c (mem_with o (frame (pages c) o B) (frame_sums (pages c) o B cs) M).
Proof.
  intros Hh (Hm1 & Hm2 & Hm3). destruct (holds_frame _ _ _ _ Hh) as (HK & Hfit & Hn & HD & Hds). pose proof (h_o _ _ _ _ Hh) as Ho.
  unfold mem_ok, mem_with. cbn [csMem bufAt bufMem]. assert (0 <= o mod PageSize) by (unfold PageSize; lia_div). split_and!; [|done|rewrite zlen_paste by lia; done].
  rewrite zlen_paste; [done|done|]. rewrite zlen_be_all, Hm1. change (maxIOVN / 2 * crcSZ) with 1024. pose proof (zlen_pieces o _ Ho HD) as Hz. unfold npieces in Hn. unfold zlen in *. rewrite Hds. lia.
Qed.

Lemma frame_npieces_le c o B cs : holds c o B cs -> npieces o (zlen (frame (frame_pages (dataBLen c)) o B)) <= npieces o (zlen B).
Proof.
  intros Hh. destruct (holds_frame _ _ _ _ Hh) as (HK & _). rewrite zlen_frame by exact (proj1 HK). unfold npieces, npages, PageSize. lia_div.
Qed.

Lemma ctl_ready_bad c o B b : ctl_ready c o B -> ctl_ready (set_bad b c) o B.
Proof. intros [H1 H2 H3 H4 H5 H6]. by split. Qed.

(** The steps of the specification. *)
Lemma write_frames_cons retry c o B cs (x : Work (F := F)) : holds c o B cs -> write_frames retry (frames (pages c) o B cs) x =
  let D := frame (pages c) o B in let ds := frame_sums (pages c) o B cs in
  match add_bads (bads o D ds) (w_bad x) (w_fob x) with
  | (Some e, b, f) => (TooMany e, MkWork b f (w_file x))
  | (None, b, f) =>
      let '(rc, file) := pgWrite (w_file x) o D ds in
      if rc <=? 0 then (NotWritten rc, MkWork b f file)
      else write_frames retry (frames (pages c) (o + cap (pages c) o) (adv (cap (pages c) o) B) (later_sums (pages c) o B cs))
             (MkWork b (if bool_decide (bads o D ds = []) && retry then snd (delOffs o (zlen D) f) else f) file)
  end.
Proof. intros Hh. destruct (holds_frame _ _ _ _ Hh) as (HK & _). rewrite frames_cons; [done|lia|apply Hh]. Qed.

(** A failed request drains, and its error is the one of the specification. *)
Lemma failing_intro s c f o B cs rest out x s1 e0 e1 txt : common c f o B cs rest s -> mem_ok c (p_mem s) -> ctl_usable s1 ->
  write_frames (isRetry (p_io s)) (frames (pages c) o B cs) (MkWork (bad c) f (p_file s)) = (out, x) ->
  IOLen (p_io s) = zlen (next_wire c o B cs) -> mjoin (p_net s) = next_wire c o B cs ++ rest ->
  p_io s1 = p_io s -> p_net s1 = p_net s -> p_sent s1 = p_sent s -> p_file s1 = w_file x -> p_fob s1 = Some (w_fob x) ->
  (forall s0, p_io s0 = MkIO (Offset (p_io s)) (IOLen (p_io s0)) (isRetry (p_io s)) e0 e1 txt ->
     do_WriteNoneMsg s0 = Send (reply_of (info_offset c) (errText (p_io s)) out (w_bad x)) s0) ->
  failing (set_EInfo e0 e1 txt s1).
Proof.
  intros Hcom HM Hus Hwf Hlen Hnet Eio En Es Ef Efob Hmsg. exists (next_wire c o B cs), rest. split.
  - split; cbn; [by rewrite Eio|by rewrite En].
  - intros s0 [[n Hio] Hctl _ Hfob Hfile Hstat Hsent (_ & Hm & _)] Hrest. cbn in Hio, Hctl, Hfob, Hfile, Hsent, Hm. rewrite Eio in Hio.
    rewrite Hmsg by (by rewrite Hio). apply (c_leads _ _ _ _ _ _ _ Hcom). unfold post. rewrite Hwf. cbn [Send snd p_file p_fob p_sent p_net].
    split_and!; [congruence|congruence|congruence|done|]. intros c' Hc'. cbn in Hc' |- *. rewrite Hctl in Hc'. rewrite Hm. by apply Hus.
Qed.

(** The state when a frame is written. *)
Record wrote (b : PgwBadCS) (f : Fob) (file : F) (c : PgwCtl) (n : Z) s s' : Prop := {
  w_ctl : p_ctl s' = Some (set_bad b c); w_fob' : p_fob s' = Some f; w_file' : p_file s' = file; w_status : p_status s' = p_status s;
  w_net : p_net s' = p_net s; w_sent : p_sent s' = p_sent s; w_argp : p_argp s' = true; w_mem : p_mem s' = p_mem s;
  w_io : p_io s' = MkIO (Offset (p_io s) + n) (IOLen (p_io s)) (isRetry (p_io s)) (EInfo0 (p_io s)) (EInfo1 (p_io s)) (errText (p_io s)) }.

(** The frames that are left, from where the first one is written. *)
Definition frames_left (c : PgwCtl) (o : Z) (B cs : list Z) : list (Z * list Z * list Z) :=
  frames (pages c) (o + cap (pages c) o) (adv (cap (pages c) o) B) (later_sums (pages c) o B cs).

Lemma wrote_last s s' c f o B cs rest b f' file : common c f o B cs rest s -> mem_ok c (p_mem s) -> wrote b f' file c (zlen (frame (pages c) o B)) s s' ->
  mjoin (p_net s) = next_wire c o B cs ++ rest -> zlen B <= cap (pages c) o ->
  write_frames (isRetry (p_io s)) (frames (pages c) o B cs) (MkWork (bad c) f (p_file s)) = write_frames (isRetry (p_io s)) (frames_left c o B cs) (MkWork b f' file) ->
  exists c', Advance (set_bad b c) = (false, c') /\
    exists r, PgWIO_final m c' (set_ctl (Some c') s') = Ok r /\ fst r = 0 /\ Q (snd r) /\ p_status (snd r) = p_status s.
Proof.
  intros [Hh Hf Ha Ho Hq] HM' [E1 E2 E3 E4 E5 E6 E7 E8 E9] Hnet Hle Hwf. destruct (holds_frame _ _ _ _ Hh) as (HK & _).
  pose proof (ctl_ready_bad _ _ _ b (h_ready _ _ _ _ Hh)) as Hready'.
  destruct (Advance_end _ _ _ Hready' ltac:(exact (proj1 HK)) (h_B _ _ _ _ Hh) Hle) as (c' & Eadv & Hok & Hbad & Hinfo). exists c'. split; [exact Eadv|].
  assert (adv (cap (pages c) o) B = []) as HB' by (unfold adv; apply drop_ge; unfold zlen in *; lia). unfold frames_left in Hwf. unfold next_wire in Hnet. rewrite HB' in *.
  unfold PgWIO_final. rewrite boInfo_spec, bind_Ok. eexists. split_and!; [done|done| |done]. rewrite Hbad, Hinfo. cbn [bad info_offset set_bad].
  apply Hq. unfold post. rewrite Hwf. cbn [frames frames_upto length write_frames w_file w_fob w_bad].
  cbn [Send snd p_file p_fob p_sent p_net set_ctl]. split_and!; [done|done|by rewrite E6| |].
  - by rewrite E5, Hnet, wire_nil.
  - intros c1 Hc1. cbn in Hc1 |- *. injection Hc1 as <-. split; [done|]. rewrite <- E8 in HM'. apply HM'.
Qed.

Lemma wrote_next s s' c f o B cs rest b f' file : common c f o B cs rest s -> mem_ok c (p_mem s) -> wrote b f' file c (zlen (frame (pages c) o B)) s s' ->
  IOLen (p_io s) = zlen (next_wire c o B cs) -> mjoin (p_net s) = next_wire c o B cs ++ rest -> cap (pages c) o < zlen B ->
  write_frames (isRetry (p_io s)) (frames (pages c) o B cs) (MkWork (bad c) f (p_file s)) = write_frames (isRetry (p_io s)) (frames_left c o B cs) (MkWork b f' file) ->
  exists c', Advance (set_bad b c) = (true, c') /\ fresh (set_ctl (Some c') s') /\ iovRem c' < iovRem c.
Proof.
  intros [Hh Hf Ha Ho Hq] HM' [E1 E2 E3 E4 E5 E6 E7 E8 E9] Hlen Hnet Hgt Hwf. destruct (holds_frame _ _ _ _ Hh) as (HK & _).
  destruct Hh as [Hready Hb Ho0 HB Hby Hl Hw]. pose proof (ctl_ready_bad _ _ _ b Hready) as Hready'.
  destruct (Advance_more _ _ _ Hready' Hb Ho0 Hgt) as (c' & Eadv & Hrdy & HA & HL & Hbad & Hinfo). exists c'. split; [exact Eadv|].
  change (frame_pages (dataBLen (set_bad b c))) with (pages c) in Hrdy. assert (pages c' = pages c) as Ep by (unfold pages; by rewrite HL).
  pose proof (length_frame_sums (pages c) o B cs ltac:(lia) Ho0 Hl) as [_ Hl']. specialize (Hl' Hgt). pose proof (cap_pos (pages c) o ltac:(lia)) as Hcap.
  assert (zlen (frame (pages c) o B) = cap (pages c) o) as HzD by (rewrite zlen_frame by lia; lia). rewrite HzD in E9.
  assert (adv (cap (pages c) o) B <> []) as HB' by (intros E; apply (f_equal zlen) in E; rewrite zlen_adv_more in E by lia; change (zlen []) with 0 in E; lia). split.
  - exists c', f', (o + cap (pages c) o), (adv (cap (pages c) o) B), (later_sums (pages c) o B cs), rest. cbn [p_ctl p_mem p_net p_io set_ctl]. rewrite E5, E8, E9.
    destruct HM' as (H1 & H2 & H3). assert (mem_ok c' (p_mem s)) by (split_and!; [done|by rewrite HA|by rewrite HL]). split_and!; try done. split.
    + split; [done|rewrite HL; exact Hb|lia|done|by apply bytes_adv|done|by apply Forall_drop].
    + exact E2.
    + exact E7.
    + cbn. by rewrite E9, Ho.
    + intros s3 Hpost. apply Hq. unfold post in *. rewrite Hwf. unfold frames_left. rewrite Ep, Hbad, Hinfo in Hpost. cbn [p_io p_sent p_file set_ctl bad info_offset set_bad] in Hpost.
      rewrite E6, E3, E9 in Hpost. exact Hpost.
  - pose proof (ready_rem _ _ _ Hready) as R1. pose proof (ready_rem _ _ _ Hrdy) as R2. fold (pages c) (pages c') in R1, R2. rewrite Ep in R2.
    rewrite (npieces_cut (pages c)), HzD, npieces_cap in R1 by lia. rewrite <- zlen_adv_more in R1 by lia. pose proof (zlen_pos _ HB').
    assert (1 <= npieces (o + cap (pages c) o) (zlen (frame (pages c) (o + cap (pages c) o) (adv (cap (pages c) o) B)))) by (apply npieces_pos, zlen_pos, frame_nonempty; [lia|done]). lia.
Qed.

(** The data of a frame: an error, the reply, or the next frame. *)
Definition frame_done s (fuel : nat) (y : (Z * Prot (F := F)) + Prot (F := F)) : Prop :=
  match y with
  | inl r => outcome_of (p_status s) (net_size (p_net s)) r
  | inr s' => p_status s' = p_status s /\ p_net s' = p_net s /\ exists c more c', p_ctl s' = Some c /\ Advance c = (more, c') /\
      let s2 := set_ctl (Some c') s' in
      if more : bool then fresh s2 /\ exists f', fuel = S f' /\ (Z.to_nat (iovRem c') <= f')%nat
      else exists r, PgWIO_final m c' s2 = Ok r /\ fst r = 0 /\ Q (snd r) /\ p_status (snd r) = p_status s
  end.

Lemma full_frame s fuel : full s -> (forall c, p_ctl s = Some c -> Z.to_nat (iovRem c) <= fuel)%nat ->
  exists y, PgWIO_frame m s = Ok y /\ frame_done s fuel y.
Proof.
  intros (c & f & o & B & cs & rest & M & Hcom & HM & Hc & Hmem & Hlen & Hnet) Hfuel. specialize (Hfuel c Hc).
  pose proof Hcom as [Hh Hf Ha Ho Hq]. pose proof (mem_with_ok _ _ _ _ _ Hh HM) as HM'. rewrite <- Hmem in HM'.
  pose proof (write_frames_cons (isRetry (p_io s)) c o B cs (MkWork (bad c) f (p_file s)) Hh) as Hwf. cbn [w_bad w_fob w_file] in Hwf. cbv zeta in Hwf.
  rewrite (PgWIO_frame_spec s c f o B cs M Hh HM Hc Hf Ha Hmem Ho). cbv zeta.
  assert (forall b, ctl_ok (set_bad b c) /\ zlen (csMem (p_mem s)) = maxIOVN / 2 * crcSZ) as Hus by (intros b; split; [exact (ready_ok _ _ _ (h_ready _ _ _ _ Hh))|apply HM']).
  destruct (add_bads _ (bad c) f) as [[[e|] b] f']; cbn [fst snd] in *.
  - assert (failing (set_EInfo (EInfo0 (p_io s)) kXR_TooManyErrs e (add_work (Some e, b, f') c s))) as Hfail.
    { eapply failing_intro; [exact Hcom|exact HM'| |exact Hwf|exact Hlen|exact Hnet|done..|].
      - intros c1 [= <-]. apply Hus.
      - intros s0 Hio. unfold do_WriteNoneMsg. rewrite Hio. done. }
    destruct (failing_outcome _ Hfail) as (r & -> & Hr). rewrite bind_Ok. eexists. split; [done|]. exact Hr.
  - destruct (pgWrite (p_file s) o _ _) as [rc file]. destruct (Z.leb_spec rc 0) as [Hrc|Hrc].
    + assert (failing (set_EInfo rc 0 (errText (p_io s)) (set_file file (add_work (None, b, f') c s)))) as Hfail.
      { eapply failing_intro; [exact Hcom|exact HM'| |exact Hwf|exact Hlen|exact Hnet|done..|].
        - intros c1 [= <-]. apply Hus.
        - intros s0 Hio. unfold do_WriteNoneMsg. rewrite Hio. cbn [EInfo1 EInfo0 errText reply_of]. destruct (rc =? 0); done. }
      destruct (failing_outcome _ Hfail) as (r & -> & Hr). rewrite bind_Ok. eexists. split; [done|]. exact Hr.
    + eexists. split; [reflexivity|]. set (D := frame (pages c) o B) in *. set (ds := frame_sums (pages c) o B cs) in *.
      set (f'' := if bool_decide (bads o D ds = []) && isRetry (p_io s) then snd (delOffs o (zlen D) f') else f') in *. set (s' := set_io _ _).
      assert (wrote b f'' file c (zlen D) s s') as Hwrote by (unfold s', f''; destruct (bool_decide _ && _); split; (done || exact Ha || by cbn; rewrite Ho)).
      cbn [frame_done]. split; [apply Hwrote|]. split; [apply Hwrote|]. exists (set_bad b c).
      destruct (decide (zlen B <= cap (pages c) o)) as [Hle|Hgt].
      * destruct (wrote_last _ _ _ _ _ _ _ _ _ _ _ Hcom HM' Hwrote Hnet Hle Hwf) as (c' & Eadv & Hr). exists false, c'. split; [apply Hwrote|]. by split.
      * destruct (wrote_next _ _ _ _ _ _ _ _ _ _ _ Hcom HM' Hwrote Hlen Hnet ltac:(lia) Hwf) as (c' & Eadv & Hfr & Hrem). exists true, c'. split; [apply Hwrote|].
        split; [done|]. split; [done|]. exists (fuel - 1)%nat. pose proof (ready_rem _ _ _ (h_ready _ _ _ _ Hh)).
        assert (0 < iovRem c) by (destruct Hfr as (c2 & ? & ? & ? & ? & ? & [Hh2 _ _ _ _] & _ & [= <-] & _); pose proof (ready_rem _ _ _ (h_ready _ _ _ _ Hh2)) as R2;
          pose proof (frame_npieces_le _ _ _ _ Hh2); lia). lia.
Qed.

(** ** The loop *)

Lemma PgWIO_loop_true n s c : p_ctl s = Some c -> PgWIO_loop m (S n) true s = match FrameInfo c with
  | None => PgWIO_final m c s
  | Some (iovNum, iovLen) =>
      '(rc, s) ← getData iovNum (set_IOLen (IOLen (p_io s) - iovLen) s); if rc =? 0 then PgWIO_loop m (S n) false s else Ok (rc, s)
  end.
Proof.
  intros Hc. cbn [PgWIO_loop]. rewrite Hc. destruct (FrameInfo c) as [[num len]|]; [|done]. destruct (getData num _) as [[rc s1]| | |]; try done. rewrite !bind_Ok.
  destruct (rc =? 0); [|done]. destruct (p_ctl s1) eqn:E; [done|]. unfold PgWIO_frame. by rewrite E.
Qed.

Lemma PgWIO_loop_false n s c : p_ctl s = Some c -> PgWIO_loop m (S n) false s =
  r ← PgWIO_frame m s;
  match r with
  | inl r => Ok r
  | inr s =>
      match p_ctl s with
      | None => Fault
      | Some c => let '(more, c) := Advance c in let s := set_ctl (Some c) s in if more : bool then PgWIO_loop m n true s else PgWIO_final m c s
      end
  end.
Proof. intros Hc. cbn [PgWIO_loop]. by rewrite Hc. Qed.

Lemma full_status s st : full s -> full (set_status st s).
Proof.
  intros (c & f & o & B & cs & rest & M & [] & H1 & H2 & H3 & H4 & H5). exists c, f, o, B, cs, rest, M. split_and!; done || by split.
Qed.

Lemma mid_resume s r : mid s -> mid (set_resume r s).
Proof.
  intros (c & f & o & B & cs & rest & v & M & w & [] & H1). exists c, f, o, B, cs, rest, v, M, w. split; [by split|done].
Qed.

(** A frame is to be read: either it is all there, or the request is suspended in it. *)
Lemma loop_fresh fuel s : fresh s -> p_status s <> inDataIov -> (forall c, p_ctl s = Some c -> Z.to_nat (iovRem c) <= fuel)%nat ->
  (forall s', full s' -> p_status s' <> inDataIov -> (forall c, p_ctl s' = Some c -> Z.to_nat (iovRem c) <= fuel)%nat ->
     exists r, PgWIO_loop m (S fuel) false s' = Ok r /\ outcome_of (p_status s') (net_size (p_net s')) r) ->
  exists r, PgWIO_loop m (S fuel) true s = Ok r /\ outcome_of (p_status s) (net_size (p_net s)) r.
Proof.
  intros Hfresh Hst Hfuel IH. destruct (fresh_begins s (if p_status s is inCallBk then true else false) Hfresh) as (c & Hc & Hinfo & Hmid).
  rewrite (PgWIO_loop_true fuel s c Hc). destruct (FrameInfo c) as [[num len]|]; [|done]. specialize (Hmid num len eq_refl).
  unfold getData. cbn [p_status set_IOLen set_io]. destruct (p_status s) eqn:Es; [| |done].
  - destruct (mid_turn _ Hmid) as (t & s3 & -> & Hsz & Hrem3 & Ht). rewrite bind_Ok. cbn [p_net set_status set_gd set_IOLen set_io] in Hsz.
    destruct Ht as [(-> & Hf3 & Hs3)|(-> & Hm3)]; rewrite bind_Ok.
    + change (0 =? 0) with true. cbv iota. destruct (IH (set_status inNone s3)) as (r & -> & Hr); [by apply full_status|done| |].
      { intros c3 Hc3. cbn in Hc3, Hrem3. rewrite Hc3, Hc in Hrem3. injection Hrem3 as ->. by apply Hfuel. }
      exists r. split; [done|]. cbn [p_status set_status p_net] in Hr.
      destruct Hr as [Hr|[(R1 & R2 & R3 & R4 & R5)|(R1 & R2 & R3 & R4)]]; [by left|right; left|right; right]; split_and!; (done || lia).
    + change (1 =? 0) with false. cbv iota. eexists. split; [done|]. right. right. split_and!; [done|by apply mid_resume|done|cbn [p_net snd set_resume]; lia].
  - rewrite bind_Ok. change (1 =? 0) with false. cbv iota. eexists. split; [done|]. right. right. split_and!; [done|exact Hmid|done|done].
Qed.

(** The data of a frame is there: the frames that follow are read as far as it goes. *)
Lemma loop_full fuel s : full s -> p_status s <> inDataIov -> (forall c, p_ctl s = Some c -> Z.to_nat (iovRem c) <= fuel)%nat ->
  exists r, PgWIO_loop m (S fuel) false s = Ok r /\ outcome_of (p_status s) (net_size (p_net s)) r.
Proof.
  revert s. induction fuel as [fuel IH] using lt_wf_ind. intros s Hfull Hst Hfuel.
  assert (exists c, p_ctl s = Some c) as (c0 & Hc0) by (destruct Hfull as (c & ? & ? & ? & ? & ? & ? & _ & _ & Hc & _); by exists c).
  rewrite (PgWIO_loop_false _ _ _ Hc0). destruct (full_frame s fuel Hfull Hfuel) as (y & -> & Hy). rewrite bind_Ok. destruct y as [r|s1]; [by exists r|].
  destruct Hy as (Hst1 & Hnet1 & c & more & c' & -> & -> & Hmore). destruct more.
  - destruct Hmore as (Hfresh & f' & -> & Hrem). rewrite <- Hst1, <- Hnet1. rewrite <- Hst1 in Hst. apply (loop_fresh f' (set_ctl (Some c') s1)); [done|done| |].
    + intros c3 [= <-]. exact Hrem.
    + apply IH. lia.
  - destruct Hmore as (r & Hr & H1 & H2 & H3). exists r. split; [exact Hr|]. by left.
Qed.

Lemma do_PgWIO_full s : full s -> p_status s <> inDataIov -> exists r, do_PgWIO m false s = Ok r /\ outcome_of (p_status s) (net_size (p_net s)) r.
Proof.
  intros Hfull Hst. assert (exists c f, p_ctl s = Some c /\ p_fob s = Some f) as (c & f & Hc & Hf)
    by (destruct Hfull as (c & f & ? & ? & ? & ? & ? & [] & _ & Hc & _); by exists c, f).
  unfold do_PgWIO, PgWIO_fuel. rewrite Hf, Hc. cbv iota. rewrite Hc. apply loop_full; [done|done|]. intros c' Hc'. rewrite Hc in Hc'. injection Hc' as <-. done.
Qed.

Lemma set_status_twice s a b : set_status a (set_status b s) = set_status a s.
Proof. done. Qed.

Lemma set_status_same s : set_status (p_status s) s = s.
Proof. by destruct s. Qed.

Lemma do_WriteNoneMsg_status s st : do_WriteNoneMsg (set_status st s) = (fst (do_WriteNoneMsg s), set_status st (snd (do_WriteNoneMsg s))).
Proof. unfold do_WriteNoneMsg. cbn [p_io set_status]. by destruct (EInfo1 (p_io s) =? 0), (EInfo0 (p_io s) =? 0). Qed.

Lemma failing_status s st : failing s -> failing (set_status st s).
Proof.
  intros (d & rest & Hd & HQ). exists d, rest. split; [exact Hd|]. intros s0 Hq Hn.
  assert (s0 = set_status st (set_status (p_status s) s0)) as E by (rewrite set_status_twice; destruct Hq as [_ _ _ _ _ Hs _ _]; cbn in Hs; rewrite <- Hs; symmetry; apply set_status_same).
  rewrite E, do_WriteNoneMsg_status. apply Q_status. apply HQ; [|exact Hn]. destruct Hq. by split.
Qed.

(** The request goes on when data arrives. *)
Lemma getDataIovCont_mid fuel s : mid s -> (net_size (p_net s) < fuel)%nat ->
  exists r, getDataIovCont m fuel s = Ok r /\ outcome_of inNone (pred (net_size (p_net s))) r.
Proof.
  revert s. induction fuel as [|fuel IH]; intros s Hmid Hfuel; [lia|]. cbn [getDataIovCont]. destruct (mid_turn s Hmid) as (t & s1 & -> & Hsz & _ & Ht). rewrite bind_Ok.
  destruct Ht as [(-> & Hfull & Hst)|(-> & Hm)].
  - destruct (do_PgWIO_full (set_status inCallBk s1)) as ([rc s2] & -> & Hr); [by apply full_status|done|]. rewrite bind_Ok.
    destruct Hr as [(H1 & H2 & H3)|[(H1 & H2 & H3 & H4 & H5)|(H1 & H2 & H3 & H4)]]; cbn [fst snd p_status p_net set_status] in *; subst rc.
    + change (0 <? 0) with false. rewrite H3. eexists. split; [done|]. left. split_and!; [done|by apply Q_status|done].
    + change (1 <? 0) with false. rewrite H3. eexists. split; [done|]. right. left. split_and!; [done|by apply failing_status|done|done|]. cbn [snd p_net set_status]. lia.
    + change (1 <? 0) with false. assert (p_status s2 = inDataIov) as -> by (by destruct H2 as (? & ? & ? & ? & ? & ? & ? & ? & ? & _ & _ & _ & _ & _ & _ & _ & _ & _ & H2)).
      destruct (IH s2 H2 ltac:(lia)) as (r & -> & Hr). exists r. split; [done|].
      destruct Hr as [Hr|[(R1 & R2 & R3 & R4 & R5)|(R1 & R2 & R3 & R4)]]; [by left|right; left|right; right]; split_and!; (done || lia).
  - eexists. split; [done|]. right. right. split_and!; [done|by apply mid_resume|done|]. cbn [snd p_net set_resume]. lia.
Qed.

Lemma finish_done fuel s : finish m fuel (0, s) = Ok (0, set_resume ResumeNone s).
Proof. by destruct fuel. Qed.

Lemma finish_outcome fuel n r : outcome_of inNone n r -> (n < fuel)%nat -> exists s, finish m fuel r = Ok (0, s) /\ Q s /\ p_status s = inNone /\ p_resume s = ResumeNone.
Proof.
  revert n r. induction fuel as [|fuel IH]; intros n [rc s] Hr Hn; [lia|]. cbn [finish fst snd].
  destruct Hr as [(H1 & H2 & H3)|[(H1 & H2 & H3 & H4 & H5)|(H1 & H2 & H3 & H4)]]; cbn [fst snd] in *; subst rc.
  - eexists. split; [done|]. split_and!; [by apply Q_resume|done|done].
  - change (0 <? 1) with true. cbv iota. unfold resume. rewrite H4. destruct (failing_drains s H2) as (r & -> & Hs & Hr). rewrite bind_Ok.
    destruct Hr as [[R1 R2]|(R1 & R2 & R3 & R4)].
    + destruct r as [rc s1]. cbn [fst snd] in *. subst rc. rewrite finish_done. eexists. split; [done|]. split_and!; [by apply Q_resume|by rewrite <- H3|done].
    + eapply (IH (net_size (p_net (snd r)))); [right; left; split_and!; [done|done|by rewrite Hs|done|done]|lia].
  - change (0 <? 1) with true. cbv iota. unfold resume. rewrite (H3 eq_refl). destruct (getDataIovCont_mid _ s H2 (Nat.lt_succ_diag_r _)) as (r & -> & Hr). rewrite bind_Ok.
    destruct Hr as [Hr|[(R1 & R2 & R3 & R4 & R5)|(R1 & R2 & R3 & R4)]].
    + destruct r as [rc s1], Hr as (R1 & R2 & R3). cbn [fst snd] in *. subst rc. rewrite finish_done. eexists. split; [done|]. split_and!; [by apply Q_resume|done|done].
    + eapply (IH (net_size (p_net (snd r)))); [right; left; split_and!; done|].
      destruct (mid_turn s H2) as (? & ? & _ & ? & _). lia.
    + eapply (IH (net_size (p_net (snd r)))); [right; right; split_and!; done|].
      destruct (mid_turn s H2) as (? & ? & _ & ? & _). lia.
Qed.
End target.

(** ** The begin of a request *)

Lemma getBuff_spec s isRead Quantum : (exists a l, Obtain Quantum = Some (a, l)) ->
  exists M x, getBuff isRead Quantum s = (1, set_argp true M x s) /\ csMem M = csMem (p_mem s) /\ Quantum <= zlen (bufMem M).
Proof.
  intros (a & l & Ho). unfold getBuff. pose proof (Obtain_size _ _ _ Ho) as Hsz. rewrite Ho.
  destruct (p_argp s) eqn:Ea; cbn [negb orb]; [|by eexists (MkMem (csMem (p_mem s)) a l), _].
  destruct (Z.ltb_spec (bsize s) Quantum) as [Hlt|Hge]; [by eexists (MkMem (csMem (p_mem s)) a l), _|]. cbn [negb orb].
  destruct (halfBSize (p_bctl s) <=? Quantum); [by eexists (p_mem s), _|]. destruct (0 <? hcNow (p_bctl s)); [by eexists (p_mem s), _|].
  destruct (hcMax (p_bctl s) <=? hcNext (p_bctl s)); by eexists (MkMem (csMem (p_mem s)) a l), _.
Qed.

(** The pool has buffers. *)
Definition pool_full : Prop := forall sz, 0 < sz <= maxBSize -> exists a l, Obtain sz = Some (a, l).

Lemma Setup_buffer s : pool_full -> 0 < IOLen (p_io s) -> let len := IOLen (p_io s) in
  let Quantum := if len <? maxBSize / 2 then (if len <? PageSize then PageSize else len) else maxBSize in
  exists M x, (if negb (p_argp s) || (Quantum <? halfBSize (p_bctl s)) || (bsize s <? Quantum) || (maxBSize <? bsize s) then getBuff false Quantum s
    else if hcNow (p_bctl s) <? hcNext (p_bctl s) then
      (1, set_argp (p_argp s) (p_mem s) (MkBuffCtl (halfBSize (p_bctl s)) (hcPrev (p_bctl s)) (hcNow (p_bctl s) + 1) (hcNext (p_bctl s)) (hcMax (p_bctl s))) s)
    else (1, s)) = (1, set_argp true M x s) /\ csMem M = csMem (p_mem s) /\ PageSize <= zlen (bufMem M).
Proof.
  intros Hpool Hpos len Quantum. assert (PageSize <= Quantum <= maxBSize) as HQ.
  { unfold Quantum. destruct (Z.ltb_spec len (maxBSize / 2)), (Z.ltb_spec len PageSize); unfold len, maxBSize, PageSize in *; lia_div. }
  destruct (negb (p_argp s) || (Quantum <? halfBSize (p_bctl s)) || (bsize s <? Quantum) || (maxBSize <? bsize s)) eqn:E.
  - destruct (getBuff_spec s false Quantum) as (M & x & -> & H1 & H2); [apply Hpool; unfold PageSize in *; lia|]. exists M, x. split_and!; (done || lia).
  - apply orb_false_iff in E as [E _]. apply orb_false_iff in E as [E E3]. apply orb_false_iff in E as [E1 _]. apply negb_false_iff in E1. apply Z.ltb_ge in E3. unfold bsize in E3.
    destruct (hcNow (p_bctl s) <? hcNext (p_bctl s)); [rewrite E1; eexists (p_mem s), _|exists (p_mem s), (p_bctl s)]; (split_and!; [|done|lia]); [done|].
    rewrite <- E1 at 1. by destruct s.
Qed.

Lemma do_PgWIOSetup_spec s c o B cs : pool_full -> p_ctl s = Some c -> ctl_ok c -> zlen (csMem (p_mem s)) = maxIOVN / 2 * crcSZ ->
  0 <= o -> B <> [] -> length cs = length (pieces o B) -> zlen (wire o B cs) < 2 ^ 31 -> Offset (p_io s) = o -> IOLen (p_io s) = zlen (wire o B cs) ->
  exists M x c', do_PgWIOSetup s = Ok (true, set_ctl (Some c') (set_argp true M x s)) /\ ctl_ready c' o B /\ mem_ok c' M /\ PageSize <= dataBLen c' /\
    bad c' = boReset (bad c) /\ info_offset c' = o.
Proof.
  intros Hpool Hc Hok Hcs Ho HB Hl Hmax Hoff Hlen. pose proof (zlen_wire o B cs Ho HB Hl) as Hw. pose proof (zlen_pos B HB) as Hp.
  pose proof (npieces_pos o (zlen B) Hp). unfold do_PgWIOSetup. destruct (Setup_buffer s Hpool) as (M & x & -> & HM1 & HM2); [unfold pgCsumSize in *; lia|].
  change (1 <=? 0) with false. cbn [p_ctl p_mem p_io set_argp]. rewrite Hc. unfold bsize. cbn [p_mem set_argp]. rewrite Hoff, Hlen, Hw. rewrite Hw in Hmax.
  destruct (Setup_spec c (bufAt M) (zlen (bufMem M)) o B Hok HM2 Ho HB Hmax) as (c' & -> & Hr & Ha & Hb & Hbad & Hinfo).
  exists M, x, c'. assert (mem_ok c' M) by (split_and!; [by rewrite HM1|by rewrite Ha|by rewrite Hb]). split_and!; try done. by rewrite Hb.
Qed.

(** ** The request *)

(** A request with data and checksums for a file that is open, in a state where the control
    object can be used. *)
Record request (o : Z) (B cs rest : list Z) s : Prop := {
  rq_o : 0 <= o; rq_B : B <> []; rq_bytes : Forall is_byte B; rq_len : length cs = length (pieces o B); rq_words : Forall word cs;
  rq_max : zlen (wire o B cs) < 2 ^ 31; rq_net : mjoin (p_net s) = wire o B cs ++ rest;
  rq_ctl : ctl_usable s; rq_status : p_status s = inNone }.

Definition fob_of s : Fob := default new_Fob (p_fob s).

(** A write that replaces a damaged piece: it has one piece, and the server knows it. *)
Definition known_retry (o : Z) (B : list Z) (f : Fob) (retry : bool) : bool := retry && hasOffs o (zlen B) f.

(** The state after the whole request, for frames of [K] pages. *)
Definition served (K o : Z) (B cs rest : list Z) (retry : bool) s s' : Prop :=
  exists b, badOffs b = [] /\
  post o (errText (p_io s)) rest (p_sent s) (known_retry o B (fob_of s) retry) (frames K o B cs) (MkWork b (fob_of s) (p_file s)) s' /\ p_status s' = inNone.

Lemma do_PgWIO_request s o B cs rest retry : pool_full -> request o B cs rest s -> p_fob s = Some (fob_of s) ->
  p_io s = MkIO o (zlen (wire o B cs)) retry (EInfo0 (p_io s)) (EInfo1 (p_io s)) (errText (p_io s)) -> (retry = true -> zlen B <= to_boundary o) ->
  exists s1 c', do_PgWIO m true s = PgWIO_loop m (PgWIO_fuel s1) true s1 /\ p_ctl s1 = Some c' /\ p_status s1 = inNone /\ p_net s1 = p_net s /\
    ctl_ready c' o B /\ mem_ok c' (p_mem s1) /\ PageSize <= dataBLen c' /\ badOffs (bad c') = [] /\ info_offset c' = o /\
    p_io s1 = MkIO o (zlen (wire o B cs)) (known_retry o B (fob_of s) retry) (EInfo0 (p_io s)) (EInfo1 (p_io s)) (errText (p_io s)) /\
    p_fob s1 = p_fob s /\ p_file s1 = p_file s /\ p_sent s1 = p_sent s /\ p_argp s1 = true.
Proof.
  intros Hpool [Ho HB Hb Hl Hw Hmax Hnet Hctl Hst] Hf Hio Hone. pose proof (zlen_pos B HB) as Hp. pose proof (zlen_wire o B cs Ho HB Hl) as Hzw.
  unfold do_PgWIO. rewrite Hf. set (s0 := if p_ctl s is None then _ else s).
  assert (exists c, p_ctl s0 = Some c /\ ctl_ok c /\ zlen (csMem (p_mem s0)) = maxIOVN / 2 * crcSZ /\ p_io s0 = p_io s /\ p_fob s0 = p_fob s /\ p_file s0 = p_file s /\
    p_sent s0 = p_sent s /\ p_net s0 = p_net s /\ p_status s0 = p_status s) as (c & Hc & Hok & Hcs & E1 & E2 & E3 & E4 & E5 & E6).
  { unfold s0. destruct (p_ctl s) as [c|] eqn:Ec; [exists c; destruct (Hctl c Ec); by split_and!|]. exists new_PgwCtl. split_and!; try done. apply new_PgwCtl_ok. }
  clearbody s0.
  assert ((if isRetry (p_io s0) then do_PgWIORetry s0 else Ok (true, 0, s0)) =
    Ok (true, 0, set_io (MkIO o (zlen (wire o B cs)) (known_retry o B (fob_of s) retry) (EInfo0 (p_io s)) (EInfo1 (p_io s)) (errText (p_io s))) s0)) as ->.
  { rewrite E1, Hio. cbn [isRetry]. destruct retry; [|by destruct s0; cbn in *; rewrite E1, Hio at 1].
    specialize (Hone eq_refl). assert (npieces o (zlen B) = 1) as Hn by by apply npieces_1. rewrite Hn in Hzw.
    unfold do_PgWIORetry. rewrite E1, Hio. cbn [Offset IOLen EInfo0 EInfo1 errText]. rewrite pgOff_mod, Hzw by done.
    unfold to_boundary in Hone. unfold pgUnitSize, pgCsumSize, crcSZ in *. destruct (Z.eqb_spec (o mod PageSize) 0) as [Ez|Ez]; cbn [negb];
      rewrite (proj2 (Z.ltb_ge _ _)) by lia; rewrite E2, Hf; replace (zlen B + 1 * 4 - 4) with (zlen B) by lia;
      unfold known_retry; destruct (hasOffs o (zlen B) (fob_of s)); try done; by destruct s0; cbn in *; rewrite E1, Hio, Hzw at 1. }
  rewrite bind_Ok. set (s1 := set_io _ s0).
  destruct (do_PgWIOSetup_spec s1 c o B cs Hpool Hc Hok Hcs Ho HB Hl Hmax eq_refl eq_refl) as (M & x & c' & -> & Hr & HM & HL & Hbad & Hinfo).
  rewrite bind_Ok. exists (set_ctl (Some c') (set_argp true M x s1)), c'. destruct HM as (HM1 & HM2 & HM3). split_and!; try done; [by rewrite <- E6 in Hst|by rewrite Hbad|by rewrite <- Hf].
Qed.

(** The request as [do_PgWrite] leaves it to [do_PgWIO]. *)
Definition accepted (o L : Z) (retry : bool) s : Prot :=
  set_fob (Some (fob_of s)) (set_io (MkIO o L retry (EInfo0 (p_io s)) (EInfo1 (p_io s)) (errText (p_io s))) s).

Lemma do_PgWrite_accepted s o L retry : crcSZ < L -> do_PgWrite m o L retry s = do_PgWIO m true (accepted o L retry s).
Proof.
  intros HL. unfold do_PgWrite. rewrite (proj2 (Z.leb_gt _ _)) by done. f_equal. unfold accepted, fob_of. cbn [p_fob set_io]. destruct (p_fob s) eqn:E; [|done].
  destruct s. cbn in *. by subst.
Qed.

Lemma wire_long o B cs : 0 <= o -> B <> [] -> length cs = length (pieces o B) -> crcSZ < zlen (wire o B cs).
Proof.
  intros Ho HB Hl. rewrite zlen_wire by done. pose proof (zlen_pos B HB) as Hp. pose proof (npieces_pos o (zlen B) Hp). unfold pgCsumSize, crcSZ. lia.
Qed.

Lemma serve_state s o B cs rest retry : pool_full -> request o B cs rest s -> (retry = true -> zlen B <= to_boundary o) ->
  exists K s', 1 <= K <= 256 /\ serve m o (zlen (wire o B cs)) retry s = Ok (0, s') /\ served K o B cs rest retry s s'.
Proof.
  intros Hpool Hrq Hone. pose proof (wire_long o B cs (rq_o _ _ _ _ _ Hrq) (rq_B _ _ _ _ _ Hrq) (rq_len _ _ _ _ _ Hrq)) as HL.
  unfold serve. rewrite do_PgWrite_accepted by done. set (s0 := accepted o (zlen (wire o B cs)) retry s).
  assert (request o B cs rest s0) as Hrq0 by (destruct Hrq; by split).
  destruct (do_PgWIO_request s0 o B cs rest retry Hpool Hrq0 eq_refl eq_refl Hone) as (s1 & c & -> & Hc & Hst & Hnet & Hr & HM & Hb & Hbad & Hinfo & Hio & Hf & Hfile & Hsent & Ha).
  change (fob_of s0) with (fob_of s) in *. destruct Hrq0 as [Ho HB Hby Hl Hw Hmax Hn0 Hctl _].
  assert (holds c o B cs) as Hh by by split. exists (pages c).
  set (Q := post o (errText (p_io s)) rest (p_sent s) (known_retry o B (fob_of s) retry) (frames (pages c) o B cs) (MkWork (bad c) (fob_of s) (p_file s))).
  assert (forall s st, Q s -> Q (set_status st s)) as Q1 by done. assert (forall s r, Q s -> Q (set_resume r s)) as Q2 by done.
  unfold PgWIO_fuel. rewrite Hc. destruct (loop_fresh Q (Z.to_nat (iovRem c)) s1) as (r & -> & Hrr).
  - exists c, (fob_of s), o, B, cs, rest. split_and!; [|by destruct HM as (? & ? & ?)|done|by rewrite Hio|by rewrite Hnet].
    split; [done|by rewrite Hf|done|by rewrite Hio|]. intros s' Hs'. rewrite Hinfo, Hio, Hsent, Hfile in Hs'. exact Hs'.
  - by rewrite Hst.
  - intros c' Hc'. rewrite Hc in Hc'. by injection Hc' as <-.
  - intros s'. apply loop_full; done.
  - rewrite bind_Ok. rewrite Hst, Hnet in Hrr. change (p_net s0) with (p_net s) in Hrr. destruct (finish_outcome Q Q1 Q2 (S (net_size (p_net s))) _ r Hrr ltac:(lia)) as (s' & Hfin & HQ & Hs1 & Hs2).
    exists s'. split; [apply (holds_frame _ _ _ _ Hh)|]. split; [exact Hfin|]. exists (bad c). done.
Qed.

(** C11: A write with checksums is served as the specification says, however
    its data arrives: the frames are verified and written in order until one
    fails, the reply lists the damaged pieces or gives the error, the request
    is read from the link to its end, and the control object can be used for
    the next request. *)
Theorem serve_refines s o B cs rest retry : pool_full -> request o B cs rest s -> (retry = true -> zlen B <= to_boundary o) ->
  exists K s', 1 <= K <= 256 /\ serve m o (zlen (wire o B cs)) retry s = Ok (0, s') /\ served K o B cs rest retry s s'.
Proof. apply serve_state. Qed.

(** A retry of more than one page is refused, and read to its end. *)
Lemma retry_refused s o B cs rest : request o B cs rest s -> to_boundary o < zlen B ->
  exists s', serve m o (zlen (wire o B cs)) true s = Ok (0, s') /\ mjoin (p_net s') = rest /\ p_file s' = p_file s /\ p_fob s' = Some (fob_of s) /\
    p_sent s' = p_sent s ++ [RError kXR_ArgInvalid "pgwrite retry of more than one page not allowed"] /\ p_status s' = inNone /\ ctl_usable s'.
Proof.
  intros Hrq Hlong. pose proof Hrq as [Ho HB Hby Hl Hw Hmax Hnet Hctl Hst]. pose proof (wire_long o B cs Ho HB Hl) as HL.
  unfold serve. rewrite do_PgWrite_accepted by done. set (s0 := accepted o (zlen (wire o B cs)) true s).
  unfold do_PgWIO. change (p_fob s0) with (Some (fob_of s)). cbv iota. set (s1 := if p_ctl s0 is None then _ else s0).
  assert (p_io s1 = p_io s0 /\ p_fob s1 = Some (fob_of s) /\ p_file s1 = p_file s /\ p_sent s1 = p_sent s /\ p_net s1 = p_net s /\ p_status s1 = p_status s /\ ctl_usable s1) as (E1 & E2 & E3 & E4 & E5 & E6 & E7).
  { unfold s1. destruct (p_ctl s0) as [c|] eqn:Ec; [by split_and!|]. split_and!; try done. intros c [= <-]. split; [apply new_PgwCtl_ok|done]. }
  clearbody s1. rewrite E1. cbn [isRetry p_io s0 accepted set_fob set_io]. unfold do_PgWIORetry. rewrite E1. cbn [Offset IOLen p_io s0 accepted set_fob set_io].
  assert ((if negb (Z.land o pgPageMask =? 0) then PageSize - Z.land o pgPageMask + crcSZ <? zlen (wire o B cs) else pgUnitSize <? zlen (wire o B cs)) = true) as ->.
  { rewrite zlen_wire, pgOff_mod by done. pose proof (zlen_pos B HB) as Hp. pose proof (npieces_pos o (zlen B) Hp).
    unfold to_boundary, pgUnitSize, crcSZ, pgCsumSize in *. destruct (Z.eqb_spec (o mod PageSize) 0); cbn [negb]; apply Z.ltb_lt; unfold PageSize in *; lia. }
  set (Q := fun s' => mjoin (p_net s') = rest /\ p_file s' = p_file s /\ p_fob s' = Some (fob_of s) /\
    p_sent s' = p_sent s ++ [RError kXR_ArgInvalid "pgwrite retry of more than one page not allowed"] /\ ctl_usable s').
  assert (forall s st, Q s -> Q (set_status st s)) as Q1 by done. assert (forall s r, Q s -> Q (set_resume r s)) as Q2 by done.
  unfold do_WriteNone_err. set (s2 := set_io _ s1). destruct (failing_outcome Q s2) as (r & -> & Hr).
  - exists (wire o B cs), rest. split; [split; [by cbn; rewrite E1|by cbn; rewrite E5]|].
    intros s3 [[n Hio] Hc3 _ Hf3 Hfile3 Hst3 Hsent3 (_ & Hm3 & _)] Hn3. unfold do_WriteNoneMsg. rewrite Hio. cbn in Hf3, Hfile3, Hsent3, Hc3, Hm3.
    split_and!; [done|by cbn; rewrite Hfile3|by cbn; rewrite Hf3|by cbn; rewrite Hsent3, E4|]. intros c Hc. cbn in Hc |- *. rewrite Hc3 in Hc. rewrite Hm3. by apply E7.
  - rewrite !bind_Ok. destruct r as [rc s3]. rewrite bind_Ok. cbn [p_status p_net s2 set_io] in Hr. rewrite E5, E6, Hst in Hr.
    destruct (finish_outcome Q Q1 Q2 (S (net_size (p_net s))) _ (rc, s3) Hr ltac:(lia)) as (s' & Hfin & (H1 & H2 & H3 & H4 & H5) & Hs1 & Hs2).
    exists s'. split; [exact Hfin|]. split_and!; done.
Qed.

(** Without memory for a buffer an error is sent and yet the request goes on: it is answered
    a second time, with the success and the list of the request before, and its data stays
    on the link. *)
Lemma no_memory_succeeds s c o L : p_ctl s = Some c -> iovNum c = 0 -> p_argp s = false -> (forall sz, Obtain sz = None) -> crcSZ < L ->
  exists s', do_PgWrite m o L false s = Ok (0, s') /\ p_net s' = p_net s /\ p_file s' = p_file s /\
    p_sent s' = p_sent s ++ [RError kXR_NoMemory "insufficient memory to write file"; RStatus (info_offset c) (bad_list (bad c))].
Proof.
  intros Hc Hn Ha Hm HL. rewrite do_PgWrite_accepted by done. unfold do_PgWIO. cbn [p_fob p_ctl accepted set_fob set_io]. rewrite Hc. cbv iota.
  cbn [isRetry p_io accepted set_fob set_io set_ctl set_mem]. rewrite bind_Ok. unfold do_PgWIOSetup.
  cbn [p_argp accepted set_fob set_io set_ctl set_mem]. rewrite Ha. cbn [negb orb]. unfold getBuff. cbn [p_argp accepted set_fob set_io set_ctl set_mem]. rewrite Ha. cbn [negb orb].
  rewrite Hm. cbn [Z.leb Send fst]. change (0 <=? 0) with true. cbv iota. rewrite bind_Ok. unfold PgWIO_fuel. cbn [p_ctl set_argp set_fob set_io accepted]. rewrite ?Hc.
  cbn [PgWIO_loop p_ctl set_argp set_fob set_io accepted]. rewrite ?Hc. unfold FrameInfo. rewrite Hn. change (0 =? 0) with true. cbv iota. unfold PgWIO_final. rewrite boInfo_spec, bind_Ok.
  eexists. split_and!; try done. cbn. by rewrite <- !app_assoc.
Qed.

(** The list in the reply takes one damaged piece less than [kXR_pgMaxEpr]. *)
Lemma boAdd_last o n b f : boCount b = kXR_pgMaxEpr - 1 -> (boAdd o n b f).1.1 = Some "Too many checksum errors in request"%string.
Proof. intros E. unfold boAdd. by destruct (boCount b =? 0); unfold boCount in *; cbn; rewrite E. Qed.
End serve.

(** ** A file of bytes and a pool of buffers, for the witnesses *)

(** The content of a file where bytes are written. *)
Definition patch (g : Z -> Z) (o : Z) (B : list Z) (i : Z) : Z := if (o <=? i) && (i <? o + zlen B) then default 0 (B !! Z.to_nat (i - o)) else g i.

Definition sample_write (f : Z -> Z) (o : Z) (B cs : list Z) : Z * (Z -> Z) := (Z.max 1 (zlen B), patch f o B).
#[export] Instance sample_file : SfsFile (Z -> Z) := { pgWrite := sample_write }.
#[export] Instance sample_pool : BuffPool.
Proof. refine {| Obtain := fun sz => Some (4096, replicate (Z.to_nat sz) 0) |}. intros sz a l [= _ <-]. unfold zlen. rewrite length_replicate. lia. Defined.

Definition sample_state (net : list (list Z)) : Prot (F := Z -> Z) :=
  MkProt (MkIO 0 0 false 0 0 "") None (MkMem [] 0 []) false (MkBuffCtl 0 1 1 1 8) None (fun _ => 0) (MkGd 0 0 0 false) inNone ResumeNone net [].

Lemma sample_request o B cs : 0 <= o -> B <> [] -> Forall is_byte B -> length cs = length (pieces o B) -> Forall word cs ->
  zlen (wire o B cs) < 2 ^ 31 -> request o B cs [] (sample_state [wire o B cs]).
Proof. intros. split; try assumption; [cbn; by rewrite !app_nil_r|by intros c [=]|reflexivity]. Qed.

Lemma sample_pool_full : pool_full.
Proof. intros sz _. by eexists _, _. Qed.

(** Three bytes over the end of a page; the second is damaged. *)
Definition sample_cs : list Z := [checksum [1; 2]; checksum [3]].

Lemma sample_damaged_request : request 4094 [1; 7; 3] sample_cs [] (sample_state [wire 4094 [1; 7; 3] sample_cs]).
Proof.
  assert (Forall word sample_cs) as Hw by (constructor; [|constructor; [|constructor]]; apply checksum_word; repeat constructor; lia).
  apply sample_request; [lia|discriminate|repeat constructor; lia|reflexivity|exact Hw|].
  rewrite zlen_wire; [reflexivity|lia|discriminate|reflexivity].
Qed.

Lemma serve_refines_witness : let s := sample_state [wire 4094 [1; 7; 3] sample_cs] in
  exists K s', 1 <= K <= 256 /\ serve (MkMachine false true 0) 4094 (zlen (wire 4094 [1; 7; 3] sample_cs)) false s = Ok (0, s') /\
    served K 4094 [1; 7; 3] sample_cs [] false s s'.
Proof. intros s. apply (serve_refines _ s); [apply sample_pool_full|apply sample_damaged_request|discriminate]. Defined.
