(* ===== verification/PgClient.v ===== *)
(** * Writes with checksums, on the client (XrdCl/XrdClFileStateHandler.cc, XrdClXRootDTransport.cc, XrdClXRootDMsgHandler.cc)

    [PgWrite] computes the checksums of the pieces; the transport verifies and unmarshals
    what comes behind the reply, and the message handler makes the list of the pieces to
    send again from it. *)

From stdpp Require Import base tactics list_numbers numbers option list strings gmap.
From S2P Require Import Prelude CrcRegister OucCRC32C CsiCrc PgrwUtils LinkData PgwCtl PgWire PgWrite PgServe.
#[local] Set Warnings "-clear-no-such-hyp".

(** ** The request *)

(** The checksums of [PgWrite]: the ones the caller has, or its own *)
Definition PgWrite_digests (m : machine) (offset size : Z) (buffer cksums : list Z) : res (option (list Z)) :=
  match cksums with
  | [] => l ← csCalc_vector m buffer offset size; Ok (Some l)
  | _ => Ok (if csNum offset size =? zlen cksums then Some cksums else None)
  end.

(** [GetPgNb( pgoff, offset, fstpglen )]: the number of the page of an offset *)
Definition GetPgNb (pgoff offset fstpglen : Z) : Z :=
  if pgoff =? offset then 0 else Z.quot (u64 (pgoff - (offset + fstpglen))) PageSize + 1.

(** ** What comes behind the reply *)

(** [ServerResponseBody_pgWrCSE] in host order, and the offsets *)
Record pgWrCSE := MkCSE { cse_dlFirst : Z; cse_dlLast : Z; cse_offs : list Z }.

(** [UnMarchalStatusMore( msg )] for a write with checksums: nothing, the list, or an error *)
Definition UnMarchalStatusMore (m : machine) (more : list Z) : res (string + option pgWrCSE) :=
  let dlen := zlen more in
  if dlen =? 0 then Ok (inr None)
  else if dlen <? 8 then Ok (inl "kXR_status: invalid message size."%string)
  else
    let length := dlen - 4 in
    crcval ← Calc32C m (adv 4 more) length 0;
    if negb (crcval =? of_be (slice 0 4 more)) then Ok (inl "kXR_status response header corrupted (crc32c integrity check failed)."%string)
    else
      let pgcnt := Z.quot (dlen - 8) 8 in
      Ok (inr (Some (MkCSE (i16 (of_be (slice 4 2 more))) (i16 (of_be (slice 6 2 more)))
                           ((fun i => i64 (of_be (slice (8 + 8 * i) 8 more))) <$> seqZ 0 pgcnt)))).

(** The list of the pieces to send again: offset and length *)
Definition RetryInfo (c : option pgWrCSE) : list (Z * Z) :=
  match c with
  | None => []
  | Some c =>
      let pgcnt := zlen (cse_offs c) in
      imap (fun (i : nat) o => (u64 o, if Z.of_nat i =? 0 then u32 (cse_dlFirst c) else if Z.of_nat i =? pgcnt - 1 then u32 (cse_dlLast c) else PageSize)) (cse_offs c)
  end.

(** ** The list of the damaged pieces survives the way to the client *)

(** The list of a request with these damaged pieces. *)
Definition bads_of (l : list (Z * Z)) (b : PgwBadCS) : PgwBadCS :=
  MkBad (badOffs b ++ l.*1)
    (match badOffs b, l with [], (_, n) :: _ => u16 n | _, _ => dlFirst b end)
    (from_option (fun x => u16 x.2) (dlLast b) (last l)).

(** The uncorrected offsets of the file with them. *)
Definition keys (l : list (Z * Z)) : gset Z := list_to_set ((fun x => fobKey x.1 x.2) <$> l).
Definition fob_with (l : list (Z * Z)) (f : Fob) : Fob := MkFob (keys l ∪ fobOffs f) (numErrs f + zlen l) (numFixd f).

Lemma bads_of_nil b : bads_of [] b = b.
Proof. unfold bads_of. cbn. rewrite app_nil_r. destruct b as [[|] ? ?]; done. Qed.

Lemma bads_of_app l k b : bads_of (l ++ k) b = bads_of k (bads_of l b).
Proof.
  unfold bads_of. cbn [badOffs dlFirst dlLast]. rewrite fmap_app, app_assoc. f_equal.
  - destruct (badOffs b) as [|x y] eqn:E; cbn; [|done]. destruct l as [|[o n] l]; [by rewrite app_nil_l|done].
  - rewrite last_app. by destruct (last k).
Qed.

Lemma fob_with_app l k f : fob_with (l ++ k) f = fob_with k (fob_with l f).
Proof.
  unfold fob_with, keys. cbn [fobOffs numErrs numFixd]. rewrite fmap_app, list_to_set_app_L, zlen_app. f_equal; [set_solver|lia].
Qed.

Lemma fob_with_nil f : fob_with [] f = f.
Proof. unfold fob_with, keys. cbn. rewrite union_empty_l_L, zlen_nil, Z.add_0_r. by destruct f. Qed.

Lemma boAdd_ok o n b f : zlen (badOffs b) + 1 < kXR_pgMaxEpr -> Z.of_nat (size (fobOffs (fob_with [(o, n)] f))) <= kXR_pgMaxEos ->
  boAdd o n b f = (None, bads_of [(o, n)] b, fob_with [(o, n)] f).
Proof.
  intros H1 H2. unfold boAdd, boCount, addOffs. destruct b as [l d1 d2]. cbn [badOffs dlFirst dlLast] in *.
  unfold fob_with, keys in *. cbn [fmap list_fmap list_to_set fobOffs fst snd] in *. rewrite union_empty_r_L in *.
  destruct l as [|x l]; cbn [badOffs dlFirst dlLast]; [change (zlen [] =? 0) with true; cbn [badOffs dlFirst dlLast]|rewrite (proj2 (Z.eqb_neq _ _)) by (rewrite zlen_cons; pose proof (zlen_nonneg l); lia); cbn [badOffs dlFirst dlLast]];
    rewrite (proj2 (Z.leb_gt _ _)) by lia; rewrite (proj2 (Z.leb_le _ _)) by done; unfold bads_of; cbn [badOffs dlFirst dlLast last fmap list_fmap fst]; done.
Qed.

Lemma keys_mono l k (f : Fob) : (size (fobOffs (fob_with l f)) <= size (fobOffs (fob_with (l ++ k) f)))%nat.
Proof. rewrite fob_with_app. apply subseteq_size. cbn. set_solver. Qed.

Lemma add_bads_ok l b f : zlen (badOffs b) + zlen l < kXR_pgMaxEpr -> Z.of_nat (size (fobOffs (fob_with l f))) <= kXR_pgMaxEos ->
  add_bads l b f = (None, bads_of l b, fob_with l f).
Proof.
  revert b f. induction l as [|[o n] l IH]; intros b f H1 H2; [by rewrite bads_of_nil, fob_with_nil|]. rewrite zlen_cons in H1. pose proof (zlen_nonneg l).
  pose proof (keys_mono [(o, n)] l f) as Hm. cbn [app] in Hm. cbn [add_bads]. rewrite boAdd_ok by lia.
  change ((o, n) :: l) with ([(o, n)] ++ l) in *. rewrite bads_of_app, fob_with_app in *. apply IH; [|done]. change (zlen (badOffs b ++ [o]) + zlen l < kXR_pgMaxEpr). rewrite zlen_app, zlen_cons, zlen_nil. lia.
Qed.

(** A list as the server makes it: offsets of pages, the first and the last of the pieces
    perhaps short, the others not. *)
Definition piece_list (l : list (Z * Z)) : Prop :=
  Forall (fun x => 0 <= x.1 < 2 ^ 63 /\ 0 < x.2 <= PageSize) l /\
  forall (i : nat) x, l !! i = Some x -> i <> 0%nat -> S i <> length l -> x.2 = PageSize.

Lemma of_be_i16 n : 0 < n <= PageSize -> u32 (i16 (of_be (be 2 (u16 n)))) = n.
Proof.
  intros Hn. unfold PageSize in Hn. rewrite of_be_be by (unfold u16; change (2 ^ (8 * Z.of_nat 2)) with (2 ^ 16); lia_div). unfold u32, i16, u16. change (2 ^ 16) with 65536. change (2 ^ 15) with 32768. change (2 ^ 32) with 4294967296. lia_div.
Qed.

Lemma be_list_read (w : nat) pre l : (0 < w)%nat -> Forall (fun z => 0 <= z < 2 ^ (8 * Z.of_nat w)) l ->
  (fun i => of_be (slice (zlen pre + Z.of_nat w * i) (Z.of_nat w) (pre ++ mjoin (be w <$> l)))) <$> seqZ 0 (zlen l) = l.
Proof.
  intros Hw. revert pre. induction l as [|z l IH]; intros pre Hl; [done|]. inversion_clear Hl as [|? ? Hz Hl']. pose proof (zlen_nonneg l).
  rewrite seqZ_cons by (rewrite zlen_cons; lia). rewrite zlen_cons. replace (Z.pred (1 + zlen l)) with (zlen l) by lia.
  change (mjoin (be w <$> z :: l)) with (be w z ++ mjoin (be w <$> l)). rewrite fmap_cons. f_equal.
  - rewrite Z.mul_0_r, Z.add_0_r. unfold slice. rewrite drop_app_length' by (unfold zlen; lia). rewrite take_app_length' by (rewrite length_be; lia). by apply of_be_be.
  - change (Z.succ 0) with (1 + 0). rewrite <- fmap_add_seqZ, <- list_fmap_compose. etrans; [|exact (IH (pre ++ be w z) Hl')]. apply list_fmap_ext. intros i x Hx. cbn.
    rewrite <- app_assoc, zlen_app, zlen_be. do 2 f_equal. lia.
Qed.

Lemma slice_between (a b c : list Z) i n : zlen a = i -> zlen b = n -> slice i n (a ++ b ++ c) = b.
Proof. intros <- <-. unfold slice. rewrite drop_app_length' by (unfold zlen; lia). apply take_app_length'. unfold zlen. lia. Qed.

Lemma bad_list_decodes m l b : piece_list l -> badOffs b = [] ->
  exists c, UnMarchalStatusMore m (bad_list (bads_of l b)) = Ok (inr c) /\ RetryInfo c = l.
Proof.
  intros [Hok Hmid] Hb. destruct l as [|[o n] l'].
  { rewrite bads_of_nil. unfold bad_list, boCount. rewrite Hb. exists None. done. }
  set (l := (o, n) :: l') in *. assert (exists x, last l = Some x /\ 0 < x.2 <= PageSize) as (x & Hlast & Hx).
  { destruct (last l) as [x|] eqn:E; [|by apply last_None in E]. exists x. split; [done|]. apply last_Some in E as [k E]. rewrite E in Hok. apply Forall_app in Hok as [_ Hok]. by apply Forall_singleton in Hok as [_ Hok]. }
  assert (0 < n <= PageSize) as Hn by (unfold l in Hok; by apply Forall_cons in Hok as [[_ Hn] _]).
  set (bb := MkBad l.*1 (u16 n) (u16 x.2)). assert (bads_of l b = bb) as -> by (unfold bads_of; rewrite Hb, Hlast; done).
  unfold bad_list. change (boCount bb) with (zlen l.*1).
  assert (zlen l.*1 = zlen l) as Hz by (unfold zlen; by rewrite length_fmap). assert (0 < zlen l) by (unfold l; rewrite zlen_cons; pose proof (zlen_nonneg l'); lia).
  rewrite (proj2 (Z.eqb_neq (zlen l.*1) 0)) by lia.
  assert (zlen (cse_body bb) = 4 + 8 * zlen l) as Hzb.
  { unfold cse_body. rewrite !zlen_app, !zlen_be. cbn [badOffs bb]. rewrite <- Hz. assert (forall k, zlen (mjoin (be 8 <$> k)) = 8 * zlen k) as ->; [|lia].
    induction k as [|z k IH]; [done|]. change (zlen (be 8 z ++ mjoin (be 8 <$> k)) = 8 * zlen (z :: k)). rewrite zlen_app, zlen_be, IH, zlen_cons. lia. }
  set (body := cse_body bb) in *. unfold UnMarchalStatusMore. rewrite zlen_app, zlen_be, Hzb. change (Z.of_nat 4) with 4.
  rewrite (proj2 (Z.eqb_neq (4 + _) 0)), (proj2 (Z.ltb_ge _ 8)) by lia.
  assert (adv 4 (be 4 (checksum body) ++ body) = body) as -> by (apply adv_app_exact; by rewrite zlen_be).
  unfold Calc32C. replace (4 + (4 + 8 * zlen l) - 4) with (zlen body) by lia. rewrite crc32c_whole, bind_Ok by apply bytes_cse_body.
  assert (of_be (slice 0 4 (be 4 (checksum body) ++ body)) = checksum body) as ->.
  { unfold slice. change (drop (Z.to_nat 0) ?k) with k. rewrite take_app_length' by by rewrite length_be. apply of_be_be. apply checksum_word, bytes_cse_body. }
  rewrite Z.eqb_refl. cbn [negb]. eexists. split; [reflexivity|]. cbn [RetryInfo cse_offs cse_dlFirst cse_dlLast].
  replace (Z.quot (4 + (4 + 8 * zlen l) - 8) 8) with (zlen l.*1) by (rewrite Z.quot_div_nonneg by lia; rewrite Hz; lia_div).
  set (pre := be 4 (checksum body) ++ be 2 (u16 n) ++ be 2 (u16 x.2)).
  assert (be 4 (checksum body) ++ body = pre ++ mjoin (be 8 <$> l.*1)) as -> by (unfold pre, body, cse_body; cbn [dlFirst dlLast badOffs bb]; by rewrite <- !app_assoc).
  assert (zlen pre = 8) as Hpre by (unfold pre; rewrite !zlen_app, !zlen_be; lia).
  assert ((fun i => i64 (of_be (slice (8 + 8 * i) 8 (pre ++ mjoin (be 8 <$> l.*1))))) <$> seqZ 0 (zlen l.*1) = l.*1) as ->.
  { transitivity (i64 <$> ((fun i => of_be (slice (8 + 8 * i) 8 (pre ++ mjoin (be 8 <$> l.*1)))) <$> seqZ 0 (zlen l.*1))); [exact (list_fmap_compose (fun i => of_be (slice (8 + 8 * i) 8 (pre ++ mjoin (be 8 <$> l.*1)))) i64 _)|]. pose proof (be_list_read 8 pre l.*1 ltac:(lia)) as Hr. rewrite Hpre in Hr. change (Z.of_nat 8) with 8 in Hr.
    rewrite Hr by (apply Forall_fmap; eapply Forall_impl; [exact Hok|]; intros [p q]; cbn; lia).
    rewrite <- (list_fmap_id l.*1) at 2. apply list_fmap_ext. intros i z Hz'. apply list_lookup_fmap_Some in Hz' as ([p q] & -> & Hi). rewrite Forall_lookup in Hok.
    specialize (Hok _ _ Hi). cbn in Hok |- *. unfold i64. change (2 ^ 64) with 18446744073709551616. change (2 ^ 63) with 9223372036854775808 in *. lia_div. }
  assert (slice 4 2 (pre ++ mjoin (be 8 <$> l.*1)) = be 2 (u16 n) /\ slice 6 2 (pre ++ mjoin (be 8 <$> l.*1)) = be 2 (u16 x.2)) as [-> ->].
  { unfold pre. rewrite <- !app_assoc. split; [apply (slice_between (be 4 _) (be 2 (u16 n))); by rewrite zlen_be|].
    rewrite app_assoc. apply (slice_between (be 4 _ ++ be 2 _) (be 2 (u16 x.2))); by rewrite ?zlen_app, !zlen_be. }
  rewrite !of_be_i16 by done. rewrite Hz. clear -Hok Hmid Hlast. apply list_eq. intros i. rewrite list_lookup_imap, list_lookup_fmap.
  destruct (l !! i) as [[p q]|] eqn:Hi; [|done]. cbn. f_equal. rewrite Forall_lookup in Hok. destruct (Hok _ _ Hi) as [Hp Hq]. cbn in Hp, Hq.
  f_equal; [by apply u64_small; lia|]. destruct (Z.eqb_spec (Z.of_nat i) 0) as [E|E].
  { assert (i = 0%nat) as -> by lia. by injection Hi as _ ->. }
  destruct (Z.eqb_spec (Z.of_nat i) (zlen l - 1)) as [E'|E'].
  - rewrite last_lookup in Hlast. replace (Init.Nat.pred (length l)) with i in Hlast by (unfold zlen in E'; lia). rewrite Hi in Hlast. by injection Hlast as <-.
  - symmetry. apply (Hmid i (p, q) Hi); [lia|]. unfold zlen in E'. lia.
Qed.
