(* ===== verification/PgSession.v ===== *)
(** * A write with checksums, from the client to the file and back

    The client sends its data with the checksums of the pieces; on the way some pieces or
    checksums may be damaged. The server writes what it got and replies with the list of
    the damaged pieces, the client sends those again, and then the file has the data and
    knows of no damage. *)

From stdpp Require Import base tactics list_numbers numbers option list strings gmap.
From S2P Require Import Prelude CrcRegister OucCRC32C CsiCrc PgrwUtils LinkData PgwCtl PgWire PgWrite PgServe PgClient.
#[local] Set Warnings "-clear-no-such-hyp".

(** ** One piece *)

(** A piece is one piece. *)
Lemma piece_single po p : p <> [] -> zlen p <= to_boundary po -> pieces po p = [(po, p)] /\ forall c, wire po p [c] = be 4 c ++ p.
Proof. intros Hp Hl. assert (pieces po p = [(po, p)]) as E by by apply pieces_one. split; [done|]. intros c. unfold wire. rewrite E. cbn. by rewrite app_nil_r. Qed.

(** ** The damaged pieces *)

Lemma bads_elem o B cs x : x ∈ bads o B cs -> exists (i : nat) p c, pieces o B !! i = Some (x.1, p) /\ zlen p = x.2 /\ cs !! i = Some c /\ c <> checksum p.
Proof.
  unfold bads. rewrite list_elem_of_omap. intros ([[po p] c] & Hin & Hx). apply list_elem_of_lookup in Hin as [i Hi]. apply lookup_zip_Some in Hi as [H1 H2].
  cbn in Hx. destruct (Z.eqb_spec c (checksum p)); [done|]. injection Hx as <-. by exists i, p, c.
Qed.

Lemma bads_complete o B cs (i : nat) po p c : pieces o B !! i = Some (po, p) -> cs !! i = Some c -> c <> checksum p -> (po, zlen p) ∈ bads o B cs.
Proof.
  intros H1 H2 Hc. unfold bads. rewrite list_elem_of_omap. exists ((po, p), c). split; [|cbn; by rewrite (proj2 (Z.eqb_neq _ _))].
  apply list_elem_of_lookup. exists i. apply lookup_zip_Some. done.
Qed.

Lemma bads_app o B C cs ds : 0 <= o -> (o + zlen B) mod PageSize = 0 -> length cs = length (pieces o B) ->
  bads o (B ++ C) (cs ++ ds) = bads o B cs ++ bads (o + zlen B) C ds.
Proof. intros Ho Hm Hl. unfold bads. rewrite pieces_app, zip_with_app, omap_app by done. done. Qed.

Lemma bads_cut K o B cs : 1 <= K -> 0 <= o -> length cs = length (pieces o B) ->
  bads o B cs = bads o (frame K o B) (frame_sums K o B cs) ++ bads (o + cap K o) (adv (cap K o) B) (later_sums K o B cs).
Proof.
  intros HK Ho Hl. destruct (decide (zlen B <= cap K o)) as [Hle|Hgt].
  - unfold frame_sums. rewrite frame_all by done. unfold adv. rewrite drop_ge by (unfold zlen in *; lia). rewrite bads_nil, app_nil_r. by rewrite take_ge by lia.
  - destruct (frame_cut K o B HK Ho ltac:(lia)) as [_ Hm]. assert (zlen (frame K o B) = cap K o) as Hz by (rewrite zlen_frame by done; lia).
    pose proof (proj1 (length_frame_sums K o B cs HK Ho Hl)) as Hl1.
    transitivity (bads o (frame K o B ++ adv (cap K o) B) (frame_sums K o B cs ++ later_sums K o B cs)).
    + unfold frame_sums, later_sums, frame. by rewrite take_drop, take_adv_join.
    + rewrite bads_app by (rewrite ?Hz; done). by rewrite Hz.
Qed.

(** Each is there once. *)
Lemma bads_NoDup o B cs : 0 <= o -> NoDup (bads o B cs).*1.
Proof.
  revert cs. revert o B. refine (pieces_ind _ _ _); [intros; constructor|]. intros o B HB IH cs Ho. destruct cs as [|c cs]; [unfold bads; rewrite pieces_cons by done; constructor|].
  rewrite bads_cons by done. pose proof (to_boundary_range o). specialize (IH cs ltac:(lia)). destruct (c =? _); [exact IH|]. cbn. constructor; [|exact IH].
  intros Hin. apply list_elem_of_fmap in Hin as (x & E & Hx). apply bads_elem in Hx as (i & p & c' & Hi & _). apply pieces_lookup in Hi as (_ & _ & _ & _ & Hge & _). lia.
Qed.

(** The list is one that the client can read. *)
Lemma bads_full o B cs (i : nat) x : 0 <= o -> o mod PageSize = 0 -> bads o B cs !! i = Some x -> S i <> length (bads o B cs) -> x.2 = PageSize.
Proof.
  revert cs i. revert o B. refine (pieces_ind _ _ _); [done|]. intros o B HB IH cs i Ho Hm. destruct cs as [|c cs]; [unfold bads; by rewrite pieces_cons by done|].
  rewrite bads_cons by done. pose proof (aligned_next o) as Hm'. pose proof (to_boundary_range o). destruct (c =? _); [apply IH; (done || lia)|]. cbn [app length]. destruct i as [|i].
  - intros [= <-] Hl. cbn. assert (adv (to_boundary o) B <> []) as Hn by (intros E; rewrite E in Hl; done). pose proof (zlen_pos _ Hn) as Hp.
    rewrite (to_boundary_aligned o Hm) in *. unfold adv, zlen in *. rewrite length_drop in Hp. rewrite length_take. unfold PageSize in *. lia.
  - cbn [lookup list_lookup]. intros Hi Hl. eapply IH; [lia|done|exact Hi|lia].
Qed.

Lemma bads_piece_list o B cs : 0 <= o -> o + zlen B < 2 ^ 63 -> piece_list (bads o B cs).
Proof.
  intros Ho Hmax. split.
  - apply Forall_forall. intros x Hx. apply bads_elem in Hx as (i & p & c & Hi & Hz & _). apply pieces_lookup in Hi as (_ & _ & Hne & Htb & Hge & Hend & _).
    pose proof (zlen_pos p Hne). pose proof (to_boundary_range x.1). lia.
  - intros i x Hi Hi0 Hil. destruct (decide (B = [])) as [->|HB]; [done|]. destruct cs as [|c cs]; [unfold bads in Hi; by rewrite pieces_cons in Hi by done|].
    rewrite bads_cons in Hi, Hil by done. pose proof (to_boundary_range o). destruct (c =? _); [by eapply bads_full; [| |exact Hi|]; [lia|apply aligned_next|]|].
    destruct i as [|i]; [done|]. cbn [app length] in *. eapply bads_full; [| |exact Hi|]; [lia|apply aligned_next|lia].
Qed.

(** ** A file that takes what it is given *)


(** A file with a content, whose writes do not fail. *)
Class SfsFileOk (F : Type) `{SfsFile F} : Type := {
  content : F -> Z -> Z;
  pgWrite_takes : forall f o B cs, 0 < fst (pgWrite f o B cs) /\ forall i, content (snd (pgWrite f o B cs)) i = patch (content f) o B i }.

Lemma patch_app g o B C i : patch (patch g o B) (o + zlen B) C i = patch g o (B ++ C) i.
Proof.
  unfold patch. rewrite zlen_app. pose proof (zlen_nonneg B). pose proof (zlen_nonneg C). destruct (Z.leb_spec (o + zlen B) i), (Z.ltb_spec i (o + zlen B + zlen C)); cbn [andb].
  - rewrite (proj2 (Z.leb_le o i)), (proj2 (Z.ltb_lt i _)) by lia. cbn [andb]. rewrite lookup_app_r by (unfold zlen in *; lia). do 2 f_equal. unfold zlen in *. lia.
  - rewrite (proj2 (Z.leb_le o i)), (proj2 (Z.ltb_ge i (o + zlen B))), (proj2 (Z.ltb_ge i (o + (zlen B + zlen C)))) by lia. done.
  - destruct (Z.leb_spec o i); cbn [andb]; [|done]. rewrite (proj2 (Z.ltb_lt i (o + zlen B))), (proj2 (Z.ltb_lt i (o + (zlen B + zlen C)))) by lia. cbn [andb].
    by rewrite lookup_app_l by (unfold zlen in *; lia).
  - lia.
Qed.

Lemma patch_nil g o i : patch g o [] i = g i.
Proof. unfold patch. change (zlen []) with 0. destruct (Z.leb_spec o i), (Z.ltb_spec i (o + 0)); (done || lia). Qed.

Lemma patch_ext g h o B i : (forall j, g j = h j) -> patch g o B i = patch h o B i.
Proof. intros E. unfold patch. by rewrite E. Qed.

(** A piece of the data is written again. *)
Lemma patch_slice g o B po p i : p = slice (po - o) (zlen p) B -> o <= po -> po + zlen p <= o + zlen B ->
  po <= i < po + zlen p -> patch g po p i = patch g o B i.
Proof.
  intros Hp H1 H2 Hi. unfold patch. rewrite !(proj2 (Z.leb_le _ _)), !(proj2 (Z.ltb_lt _ _)) by lia. cbn [andb]. rewrite Hp at 1. unfold slice.
  rewrite lookup_take_lt by lia. rewrite lookup_drop. do 2 f_equal. lia.
Qed.

(** ** The uncorrected offsets *)

Lemma i64_small z : - 2 ^ 63 <= z < 2 ^ 63 -> i64 z = z.
Proof. intros Hz. unfold i64. change (2 ^ 64) with 18446744073709551616. change (2 ^ 63) with 9223372036854775808 in *. lia_div. Qed.

Lemma fobKey_val o n : 0 <= o < 2 ^ 51 -> 0 < n <= PageSize -> fobKey o n = o * PageSize + n mod PageSize.
Proof.
  intros Ho Hn. unfold fobKey. rewrite Z.shiftl_mul_pow2 by done. change (2 ^ kXR_pgPageBL) with PageSize.
  rewrite i64_small by (unfold PageSize; change (2 ^ 63) with (2 ^ 51 * 4096); lia).
  destruct (Z.ltb_spec n PageSize) as [Hlt|Hge]; [|replace n with PageSize by lia; rewrite Z.mod_same by done; lia].
  rewrite Z.mod_small by lia. rewrite <- Z.add_lor_land. enough (Z.land (o * PageSize) n = 0) by lia.
  apply Z.bits_inj_0. intros k. rewrite Z.land_spec. destruct (decide (k < 0)); [by rewrite !Z.testbit_neg_r by lia|]. destruct (decide (k < 12)).
  - change PageSize with (2 ^ 12). rewrite Z.mul_pow2_bits_low by lia. done.
  - rewrite <- (Z.mod_small n (2 ^ 12)) by (unfold PageSize in *; lia). rewrite Z.mod_pow2_bits_high by lia. by rewrite andb_false_r.
Qed.

Lemma fobKey_inj o n o' n' : 0 <= o < 2 ^ 51 -> 0 < n <= PageSize -> 0 <= o' < 2 ^ 51 -> 0 < n' <= PageSize -> fobKey o n = fobKey o' n' -> o = o' /\ n = n'.
Proof. intros. rewrite !fobKey_val in * by done. unfold PageSize in *. lia_div. Qed.

Definition small_pieces (l : list (Z * Z)) : Prop := Forall (fun x => 0 <= x.1 < 2 ^ 51 /\ 0 < x.2 <= PageSize) l.

Lemma elem_of_keys k l : k ∈ keys l <-> exists x, x ∈ l /\ k = fobKey x.1 x.2.
Proof. unfold keys. rewrite elem_of_list_to_set, list_elem_of_fmap. naive_solver. Qed.

Lemma keys_cons x l : keys (x :: l) = {[fobKey x.1 x.2]} ∪ keys l.
Proof. done. Qed.

Lemma key_not_in x l : small_pieces (x :: l) -> NoDup (x :: l).*1 -> fobKey x.1 x.2 ∉ keys l.
Proof.
  intros Hs Hn. rewrite elem_of_keys. intros (y & Hy & E). inversion_clear Hs as [|? ? [Hx1 Hx2] Hs']. unfold small_pieces in *. rewrite Forall_forall in Hs'. specialize (Hs' y Hy) as [Hy1 Hy2].
  destruct (fobKey_inj _ _ _ _ Hx1 Hx2 Hy1 Hy2 E) as [E1 E2]. cbn in Hn. apply NoDup_cons in Hn as [Hn _]. apply Hn. rewrite E1. by apply list_elem_of_fmap_2.
Qed.

(** ** The specification, where nothing fails *)

Section session.
Context (m : machine) {F : Type} `{SfsFileOk F} `{BuffPool}.
Implicit Types s : Prot (F := F).

Lemma write_frames_ok K o B cs b f fl : 1 <= K -> 0 <= o -> length cs = length (pieces o B) ->
  zlen (badOffs b) + zlen (bads o B cs) < kXR_pgMaxEpr -> Z.of_nat (size (fobOffs (fob_with (bads o B cs) f))) <= kXR_pgMaxEos ->
  exists fl', write_frames false (frames K o B cs) (MkWork b f fl) = (Written, MkWork (bads_of (bads o B cs) b) (fob_with (bads o B cs) f) fl') /\
    forall i, content fl' i = patch (content fl) o B i.
Proof.
  intros HK. remember (length B) as n eqn:Hn. revert o B cs b f fl Hn. induction n as [n IH] using lt_wf_ind. intros o B cs b f fl -> Ho Hl H1' H2'.
  destruct (decide (B = [])) as [->|HB].
  { rewrite bads_nil in *. exists fl. rewrite bads_of_nil, fob_with_nil. split; [done|]. intros i. by rewrite patch_nil. }
  rewrite frames_cons by done. cbn [write_frames w_bad w_fob w_file]. rewrite (bads_cut K o B cs) in * by done. set (l1 := bads o (frame K o B) _) in *. set (l2 := bads (o + cap K o) _ _) in *.
  rewrite zlen_app in H1'. pose proof (zlen_nonneg l2). pose proof (keys_mono l1 l2 f).
  rewrite add_bads_ok by lia. destruct (pgWrite fl o (frame K o B) (frame_sums K o B cs)) as [rc file] eqn:Ew.
  destruct (pgWrite_takes fl o (frame K o B) (frame_sums K o B cs)) as [Hrc Hc]. rewrite Ew in Hrc, Hc. cbn [fst snd] in Hrc, Hc. rewrite (proj2 (Z.leb_gt _ _)) by done. rewrite andb_false_r.
  pose proof (cap_pos K o HK) as Hcap. pose proof (adv_shorter (cap K o) B Hcap HB) as Hsh.
  rewrite bads_of_app, fob_with_app. rewrite fob_with_app in H2'. destruct (IH _ Hsh (o + cap K o) (adv (cap K o) B) (later_sums K o B cs) (bads_of l1 b) (fob_with l1 f) file eq_refl) as (fl' & -> & Hfl).
  - lia.
  - destruct (decide (zlen B <= cap K o)) as [Hle|Hgt]; [|apply length_frame_sums; (done || lia)].
    unfold later_sums. rewrite frame_all by done. unfold adv. rewrite (drop_ge B) by (unfold zlen in *; lia). rewrite drop_ge by lia. done.
  - cbn [badOffs bads_of]. rewrite zlen_app. fold l2. unfold zlen at 2. rewrite length_fmap. unfold zlen in *. lia.
  - done.
  - exists fl'. split; [done|]. intros i. rewrite Hfl. rewrite (patch_ext _ _ _ _ _ Hc). destruct (decide (zlen B <= cap K o)) as [Hle|Hgt].
    + rewrite frame_all by done. unfold adv. rewrite drop_ge by (unfold zlen in *; lia). by rewrite patch_nil.
    + assert (zlen (frame K o B) = cap K o) as Hz by (rewrite zlen_frame by done; lia). rewrite <- Hz at 1. rewrite patch_app. unfold frame. by rewrite take_adv_join.
Qed.

(** A piece that is sent again. *)
Lemma write_frames_retry K po p b f fl : 1 <= K -> 0 <= po -> p <> [] -> zlen p <= to_boundary po ->
  exists fl', write_frames true (frames K po p [checksum p]) (MkWork b f fl) = (Written, MkWork b (snd (delOffs po (zlen p) f)) fl') /\
    forall i, content fl' i = patch (content fl) po p i.
Proof.
  intros HK Ho Hp Hz. rewrite frames_cons by done. assert (zlen p <= cap K po) as Hle by (unfold cap, to_boundary, PageSize in *; lia).
  assert (adv (cap K po) p = []) as -> by (unfold adv; apply drop_ge; unfold zlen in *; lia). rewrite frame_all by done.
  destruct (piece_single po p Hp Hz) as [E _]. unfold frame_sums. rewrite frame_all, E by done. cbn [length take].
  assert (bads po p [checksum p] = []) as Hb by (unfold bads; rewrite E; cbn; by rewrite Z.eqb_refl).
  cbn [write_frames w_bad w_fob w_file]. rewrite Hb. cbn [add_bads]. destruct (pgWrite fl po p [checksum p]) as [rc file] eqn:Ew.
  destruct (pgWrite_takes fl po p [checksum p]) as [Hrc Hc]. rewrite Ew in Hrc, Hc. cbn [fst snd] in Hrc, Hc. rewrite (proj2 (Z.leb_gt _ _)) by done.
  rewrite bool_decide_true by done. exists file. done.
Qed.

(** ** The client sends the damaged pieces again *)

(** The data and the digest that [PgWrite] gives to [PgWriteRetry]. *)
Definition retry_data (offset : Z) (buffer : list Z) (x : Z * Z) : list Z := slice (x.1 - offset) x.2 buffer.
Definition retry_digest (offset size : Z) (cksums : list Z) (x : Z * Z) : Z :=
  default 0 (cksums !! Z.to_nat (GetPgNb x.1 offset (csNum_lengths offset size).1.2)).

(** The retries one after the other, each as its data arrives. *)
Fixpoint send_retries (l : list (Z * Z)) (nets : list (list (list Z))) s : res Prot :=
  match l, nets with
  | x :: l, net :: nets => '(_, s) ← serve m x.1 (x.2 + 4) true (set_net (p_net s ++ net) s); send_retries l nets s
  | _, _ => Ok s
  end.

(** The arrivals of a retry make up what the client sends. *)
Definition retry_arrives (o : Z) (B cs : list Z) (x : Z * Z) (net : list (list Z)) : Prop :=
  mjoin net = wire x.1 (retry_data o B x) [retry_digest o (zlen B) cs x].

Lemma GetPgNb_piece o B (i : nat) po p : 0 <= o -> o + zlen B < 2 ^ 63 -> pieces o B !! i = Some (po, p) ->
  retry_digest o (zlen B) (piece_sums o B) (po, zlen p) = checksum p /\ retry_data o B (po, zlen p) = p.
Proof.
  intros Ho Hmax Hi. pose proof (pieces_lookup _ _ _ _ _ Hi) as (Hpo & Hs & Hne & Htb & Hge & Hend & _). split; [|by symmetry].
  assert (B <> []) as HB by (intros E; by rewrite E in Hi). pose proof (zlen_pos B HB) as HpB. pose proof (to_boundary_range o).
  unfold retry_digest. rewrite csNum_lengths_spec by done. cbn [fst snd]. assert (Z.to_nat (GetPgNb po o (Z.min (zlen B) (to_boundary o))) = i) as ->.
  { unfold GetPgNb. destruct (decide (i = 0%nat)) as [->|Hi0]; [by rewrite Hpo, Z.eqb_refl|]. rewrite (proj2 (Z.eqb_neq _ _)) by (unfold PageSize in *; lia).
    pose proof (zlen_pos p Hne). rewrite Z.min_r by (unfold PageSize in *; lia). rewrite Hpo.
    replace (o + to_boundary o + PageSize * (Z.of_nat i - 1) - (o + to_boundary o)) with (PageSize * (Z.of_nat i - 1)) by lia.
    rewrite u64_small by (unfold PageSize in *; change (2 ^ 64) with 18446744073709551616; change (2 ^ 63) with 9223372036854775808 in *; lia).
    rewrite Z.mul_comm, Z.quot_mul by done. lia. }
  unfold piece_sums. rewrite list_lookup_fmap, Hi. done.
Qed.

(** What is known while the pieces of [l] have not been sent again. *)
Record healing (target : Z -> Z) (G : gset Z) (l : list (Z * Z)) s : Prop := {
  hl_net : mjoin (p_net s) = []; hl_ctl : ctl_usable s; hl_status : p_status s = inNone;
  hl_content : forall i, (forall x, x ∈ l -> ~ (x.1 <= i < x.1 + x.2)) -> content (p_file s) i = target i;
  hl_fob : exists f, p_fob s = Some f /\ fobOffs f = G ∪ keys l }.

Lemma serve_retry s po p target G l net : pool_full -> 0 <= po -> p <> [] -> zlen p <= to_boundary po -> Forall is_byte p ->
  small_pieces ((po, zlen p) :: l) -> NoDup ((po, zlen p) :: l).*1 -> keys ((po, zlen p) :: l) ## G ->
  (forall i, po <= i < po + zlen p -> patch target po p i = target i) ->
  healing target G ((po, zlen p) :: l) s -> mjoin net = wire po p [checksum p] ->
  exists s', serve m po (zlen p + 4) true (set_net (p_net s ++ net) s) = Ok (0, s') /\ healing target G l s'.
Proof.
  intros Hpool Ho Hp Htb Hb Hsm Hnd Hdisj Hpatch [Hnet Hctl Hst Hcont (f & Hf & Hfo)] Harr. destruct (piece_single po p Hp Htb) as [Hone Hwire].
  assert (request po p [checksum p] [] (set_net (p_net s ++ net) s)) as Hrq.
  { split; try done.
    - by rewrite Hone.
    - constructor; [by apply checksum_word|constructor].
    - rewrite Hwire, zlen_app, zlen_be. pose proof (to_boundary_range po). unfold PageSize in *. change (2 ^ 31) with 2147483648. lia.
    - cbn. by rewrite join_app, Hnet, Harr, app_nil_r. }
  assert (zlen (wire po p [checksum p]) = zlen p + 4) as Hz by (rewrite Hwire, zlen_app, zlen_be; lia).
  destruct (serve_state m (set_net (p_net s ++ net) s) po p [checksum p] [] true Hpool Hrq ltac:(done)) as (K & s' & HK & Hserve & b & Hbb & Hpost & Hst').
  rewrite Hz in Hserve. exists s'. split; [exact Hserve|].
  assert (known_retry po p (fob_of (set_net (p_net s ++ net) s)) true = true) as Hkn.
  { unfold known_retry, fob_of, hasOffs. cbn. rewrite Hf. cbn. apply bool_decide_eq_true. rewrite Hfo, keys_cons. set_solver. }
  rewrite Hkn in Hpost. unfold post in Hpost. destruct (write_frames_retry K po p b (fob_of s) (p_file s) (proj1 HK) Ho Hp Htb) as (fl' & Hw & Hfl).
  change (fob_of (set_net (p_net s ++ net) s)) with (fob_of s) in Hpost. cbn [p_file set_net] in Hpost. rewrite Hw in Hpost.
  destruct Hpost as (P1 & P2 & P3 & P4 & P5). split; [done|done|done| |].
  - intros i Hi. rewrite P1. cbn [w_file]. rewrite Hfl. destruct (decide (po <= i < po + zlen p)) as [Hin|Hout].
    + rewrite <- (Hpatch i Hin). unfold patch. rewrite (proj2 (Z.leb_le po i)), (proj2 (Z.ltb_lt i _)) by lia. done.
    + unfold patch. assert ((po <=? i) && (i <? po + zlen p) = false) as -> by (destruct (Z.leb_spec po i), (Z.ltb_spec i (po + zlen p)); (done || lia)).
      apply Hcont. intros x Hx. apply elem_of_cons in Hx as [->|Hx]; [exact Hout|by apply Hi].
  - eexists. split; [exact P2|]. cbn [w_fob delOffs snd fobOffs]. assert (fob_of s = f) as -> by (unfold fob_of; by rewrite Hf). rewrite Hfo, keys_cons. cbn [fst snd].
    pose proof (key_not_in _ _ Hsm Hnd) as Hk. cbn [fst snd] in Hk. rewrite keys_cons in Hdisj. cbn [fst snd] in Hdisj. set_solver.
Qed.

Lemma retries_heal o B target G l nets s : pool_full -> 0 <= o -> o + zlen B < 2 ^ 51 -> Forall is_byte B ->
  (forall i, o <= i < o + zlen B -> target i = patch target o B i) ->
  (forall x, x ∈ l -> exists (i : nat) p, pieces o B !! i = Some (x.1, p) /\ zlen p = x.2) -> small_pieces l -> NoDup l.*1 -> keys l ## G ->
  healing target G l s -> Forall2 (retry_arrives o B (piece_sums o B)) l nets -> exists s', send_retries l nets s = Ok s' /\ healing target G [] s'.
Proof.
  intros Hpool Ho Hmax Hb Ht Hl Hsm Hnd Hdisj Hs Hnets. revert s Hl Hsm Hnd Hdisj Hs. induction Hnets as [|[po pl] net l nets Harr Hnets IH]; intros s Hl Hsm Hnd Hdisj Hs; [by exists s|].
  destruct (Hl (po, pl)) as (i & p & Hi & Hz); [by left|]. cbn [fst snd] in Hi, Hz. subst pl. cbn [send_retries fst snd].
  destruct (pieces_lookup _ _ _ _ _ Hi) as (_ & Hp & Hne & Htb & Hge & Hend & _).
  destruct (GetPgNb_piece o B i po p Ho ltac:(lia) Hi) as [Hdig Hdat]. unfold retry_arrives in Harr. cbn [fst] in Harr. rewrite Hdig, Hdat in Harr.
  destruct (serve_retry s po p target G l net Hpool ltac:(lia) Hne Htb) as (s1 & -> & Hs1); try done.
  - rewrite Hp. by apply slice_bytes.
  - intros j Hj. rewrite (patch_slice target o B po p j Hp Hge Hend Hj). symmetry. apply Ht. lia.
  - rewrite bind_Ok. apply IH; [intros x Hx; apply Hl; by right|by inversion_clear Hsm|by apply NoDup_cons in Hnd as [_ Hnd]| |done].
    rewrite keys_cons in Hdisj. set_solver.
Qed.

Lemma PgWrite_digests_spec o B : Forall is_byte B -> B <> [] -> 0 <= o -> PgWrite_digests m o (zlen B) B [] = Ok (Some (piece_sums o B)).
Proof.
  intros Hb HB Ho. unfold PgWrite_digests, csCalc_vector. rewrite csCalc_spec, bind_Ok by done. pose proof (zlen_pos B HB).
  assert (csNum o (zlen B) = zlen (piece_sums o B)) as ->.
  { rewrite csNum_npages by done. rewrite <- zlen_pieces by done. unfold zlen, piece_sums. by rewrite length_fmap. }
  pose proof (zlen_nonneg (piece_sums o B)). rewrite !(proj2 (Z.leb_le _ _)) by lia. cbn [andb]. rewrite Z.sub_diag. cbn [Z.to_nat replicate]. by rewrite app_nil_r, bind_Ok.
Qed.

(** C9: A write with checksums whose pieces were damaged on the way is
    completed by the retries: the reply lists exactly the damaged pieces, and
    when the client has sent those again, with the data and the digests it
    finds for them, the file has the data, none of the damage is outstanding,
    and a file without damage before can be closed. Damage that no checksum
    shows is excluded. *)
Theorem write_heals s o B cs B' cs' : pool_full -> Forall is_byte B -> B <> [] -> 0 <= o -> o + zlen B < 2 ^ 51 ->
  PgWrite_digests m o (zlen B) B [] = Ok (Some cs) -> zlen B' = zlen B -> request o B' cs' [] s ->
  (forall (i : nat) p, pieces o B' !! i = Some p -> cs' !! i = Some (checksum p.2) -> pieces o B !! i = Some p) ->
  zlen (bads o B' cs') < kXR_pgMaxEpr -> Z.of_nat (size (fobOffs (fob_with (bads o B' cs') (fob_of s)))) <= kXR_pgMaxEos ->
  exists s1 more c, serve m o (zlen (wire o B' cs')) false s = Ok (0, s1) /\ p_sent s1 = p_sent s ++ [RStatus o more] /\
    UnMarchalStatusMore m more = Ok (inr c) /\ RetryInfo c = bads o B' cs' /\
    forall nets, Forall2 (retry_arrives o B cs) (RetryInfo c) nets -> exists s2, send_retries (RetryInfo c) nets s1 = Ok s2 /\
      (forall i, content (p_file s2) i = patch (content (p_file s)) o B i) /\
      (exists f, p_fob s2 = Some f /\ fobOffs f = fobOffs (fob_of s) ∖ keys (bads o B' cs')) /\
      (fobOffs (fob_of s) = ∅ -> fst (do_PgClose s2) = true).
Proof.
  intros Hpool Hb HB Ho Hmax Hcs Hz Hrq Hseen Hepr Heos. rewrite PgWrite_digests_spec in Hcs by done. injection Hcs as <-.
  destruct (serve_state m s o B' cs' [] false Hpool Hrq ltac:(done)) as (K & s1 & HK & Hserve & b & Hbb & Hpost & Hst1).
  pose proof (rq_len _ _ _ _ _ Hrq) as Hl. set (L := bads o B' cs') in *.
  destruct (write_frames_ok K o B' cs' b (fob_of s) (p_file s) (proj1 HK) Ho Hl) as (fl & Hw & Hfl); [by rewrite Hbb|done|].
  unfold post in Hpost. change (known_retry o B' (fob_of s) false) with false in Hpost. rewrite Hw in Hpost. fold L in Hpost. cbn [w_file w_fob w_bad reply_of] in Hpost.
  destruct Hpost as (P1 & P2 & P3 & P4 & P5).
  destruct (bad_list_decodes m L b (bads_piece_list o B' cs' Ho ltac:(lia)) Hbb) as (c & Hdec & Hc).
  exists s1, (bad_list (bads_of L b)), c. split_and!; [done..|]. rewrite Hc. intros nets Hnets.
  assert (forall x, x ∈ L -> exists (i : nat) p, pieces o B !! i = Some (x.1, p) /\ zlen p = x.2) as HL.
  { intros x Hx. apply bads_elem in Hx as (i & p' & c' & Hi & Hpz & _). destruct (pieces_alike o B' B i x.1 p' ltac:(done) Hi) as (p & Hp & Hzp). exists i, p. split; [done|lia]. }
  set (target := patch (content (p_file s)) o B). set (G := fobOffs (fob_of s) ∖ keys L).
  destruct (retries_heal o B target G L nets s1 Hpool Ho Hmax Hb) as (s2 & Hsend & [Q1 Q2 Q3 Q4 (f & Q5 & Q6)]).
  - intros i Hi. unfold target, patch. rewrite (proj2 (Z.leb_le o i)), (proj2 (Z.ltb_lt i _)) by lia. done.
  - exact HL.
  - apply Forall_forall. intros x Hx. destruct (HL x Hx) as (i & p & Hi & Hpz). destruct (pieces_lookup _ _ _ _ _ Hi) as (_ & _ & Hne & Htb & Hge & Hend & _).
    pose proof (zlen_pos p Hne). pose proof (to_boundary_range x.1). lia.
  - by apply bads_NoDup.
  - unfold G. set_solver.
  - split; [done|done|done| |].
    + intros i Hout. rewrite P1, Hfl. unfold target, patch. rewrite Hz. destruct (Z.leb_spec o i), (Z.ltb_spec i (o + zlen B)); cbn [andb]; try done.
      destruct (pieces_cover o B' i ltac:(lia)) as (k & po & p & Hk & Hin). destruct (pieces_lookup _ _ _ _ _ Hk) as (_ & Hp & _ & _ & Hge & Hend & _).
      destruct (lookup_lt_is_Some_2 cs' k ltac:(rewrite Hl; by eapply lookup_lt_Some)) as [c' Hc']. destruct (decide (c' = checksum p)) as [->|Hne].
      * specialize (Hseen k (po, p) Hk Hc'). destruct (pieces_lookup _ _ _ _ _ Hseen) as (_ & Hp2 & _ & _ & _ & Hend2 & _).
        pose proof (patch_slice (content (p_file s)) o B' po p i Hp Hge Hend Hin) as E1. pose proof (patch_slice (content (p_file s)) o B po p i Hp2 Hge Hend2 Hin) as E2.
        rewrite E1 in E2. unfold patch in E2. rewrite Hz in E2. rewrite !(proj2 (Z.leb_le o i)), !(proj2 (Z.ltb_lt i _)) in E2 by lia. exact E2.
      * exfalso. apply (Hout (po, zlen p)); [by eapply bads_complete|done].
    + eexists. split; [exact P2|]. cbn [fob_with fobOffs]. unfold G. apply set_eq. intros k. destruct (decide (k ∈ keys L)); set_solver.
  - done.
  - exists s2. split_and!; [done| | |].
    + intros i. apply Q4. intros x Hx. by apply elem_of_nil in Hx.
    + exists f. split; [done|]. rewrite Q6. unfold G, keys at 2. cbn. set_solver.
    + intros Hempty. unfold do_PgClose, numOffs. rewrite Q5. cbn [fst snd]. assert (fobOffs f = ∅) as -> by (rewrite Q6; unfold G, keys at 2; cbn; set_solver).
      done.
Qed.
End session.

(** ** The witness: three bytes over the end of a page, the second damaged on the way *)

#[local] Instance sample_file_ok : SfsFileOk (Z -> Z).
Proof. refine {| content := fun f => f |}. intros f o B cs. cbn. split; [lia|done]. Defined.

Lemma size_one_key x (f : Fob) : fobOffs f = ∅ -> Z.of_nat (size (fobOffs (fob_with [x] f))) <= kXR_pgMaxEos.
Proof. intros E. unfold fob_with, keys. cbn [fobOffs list_to_set fmap list_fmap]. rewrite E, !(right_id_L ∅ (∪)), size_singleton. unfold kXR_pgMaxEos. lia. Qed.

Lemma write_heals_witness : let m := MkMachine false true 0 in let s := sample_state [wire 4094 [1; 7; 3] sample_cs] in
  bads 4094 [1; 7; 3] sample_cs = [(4094, 2)] /\
  exists s1 more c, serve m 4094 (zlen (wire 4094 [1; 7; 3] sample_cs)) false s = Ok (0, s1) /\ UnMarchalStatusMore m more = Ok (inr c) /\
    RetryInfo c = bads 4094 [1; 7; 3] sample_cs.
Proof.
  intros m s. assert (bads 4094 [1; 7; 3] sample_cs = [(4094, 2)]) as Hbads by reflexivity. split; [exact Hbads|].
  destruct (write_heals m s 4094 [1; 2; 3] sample_cs [1; 7; 3] sample_cs sample_pool_full) as (s1 & more & c & H1 & _ & H2 & H3 & _).
  - repeat constructor; lia.
  - discriminate.
  - lia.
  - reflexivity.
  - apply (PgWrite_digests_spec m 4094 [1; 2; 3]); [repeat constructor; lia|discriminate|lia].
  - reflexivity.
  - apply sample_damaged_request.
  - intros i p Hi Hc. destruct i as [|[|i]]; [|exact Hi|discriminate]. exfalso. vm_compute in Hi. injection Hi as <-. vm_compute in Hc. discriminate.
  - rewrite Hbads. reflexivity.
  - rewrite Hbads. by apply size_one_key.
  - exists s1, more, c. split; [exact H1|]. split; [exact H2|exact H3].
Defined.
