(* ===== verification/PgSend.v ===== *)
(** * How the client sends pages (XrdCl/XrdClXRootDMsgHandler.cc)

    [WriteMessageBody] sends the pieces of a write, each behind its checksum. The socket
    takes as many bytes as it likes; when it would block the call returns and is made again
    later, and the message handler remembers how far it is in the checksum and in the page.
    What the kernel answers to each call of [send] is a list. *)

From stdpp Require Import base tactics list_numbers numbers option list strings gmap.
From S2P Require Import Prelude CrcRegister OucCRC32C CsiCrc PgrwUtils LinkData PgwCtl PgWire.
#[local] Set Warnings "-clear-no-such-hyp".

(** ** The socket *)

(** What [send] answers: it takes up to so many bytes, would block, or fails. *)
Inductive answer : Type := Took (n : Z) | Again | Broken.

(** [XRootDStatus]: OK, [suRetry], an error *)
Inductive sock_status : Type := stOK | stRetry | stError.

(** The answers to come and the bytes that went out *)
Record Sock := MkSock { s_answers : list answer; s_out : list Z }.

(** [Socket::Send( buffer, size, bytesWritten )] *)
Definition Socket_Send (data : list Z) (sk : Sock) : sock_status * Z * Sock :=
  match s_answers sk with
  | [] => (stRetry, 0, sk)
  | Again :: l => (stRetry, 0, MkSock l (s_out sk))
  | Broken :: l => (stError, 0, MkSock l (s_out sk))
  | Took n :: l =>
      if zlen data =? 0 then (stError, 0, MkSock l (s_out sk))
      else let k := Z.max 1 (Z.min n (zlen data)) in (stOK, k, MkSock l (s_out sk ++ take (Z.to_nat k) data))
  end.

(** ** The body of a write *)

(** [pPgWrtCksumBuff] with its cursor, [pPgWrtCurrentPageNb], [pPgWrtCurrentPageOffset],
    [pAsyncOffset] *)
Record BodyWriter := MkWriter { cksumBuff : list Z; cursor : Z; currentPageNb : Z; currentPageOffset : Z; asyncOffset : Z }.
Definition new_writer : BodyWriter := MkWriter [0; 0; 0; 0] 0 0 0 0.

Section writer.
Context (offset : Z) (buffer digests : list Z).

Definition digest_bytes (nb : Z) : res (list Z) := match digests !! Z.to_nat nb with Some c => Ok (be 4 c) | None => Fault end.

(** The loops; [btsLeft] and [pglen] are local to a call. *)
Fixpoint write_loop (fuel : nat) (btsLeft pglen written : Z) (w : BodyWriter) (sk : Sock) : res (sock_status * Z * BodyWriter * Sock) :=
  match fuel with
  | O => Diverge
  | S fuel =>
      if btsLeft <=? 0 then Ok (stOK, written, w, sk)
      else if cursor w <? 4 then
        let '(st, k, sk) := Socket_Send (adv (cursor w) (cksumBuff w)) sk in
        match st with
        | stError => Ok (stError, written, w, sk)
        | _ =>
            let w := MkWriter (cksumBuff w) (cursor w + k) (currentPageNb w) (currentPageOffset w) (asyncOffset w) in
            if st is stRetry then Ok (stRetry, written + k, w, sk) else write_loop fuel btsLeft pglen (written + k) w sk
        end
      else
        data ← rd_bytes pglen (asyncOffset w) buffer;
        let '(st, k, sk) := Socket_Send data sk in
        match st with
        | stError => Ok (stError, written, w, sk)
        | _ =>
            let pglen := pglen - k in
            let btsLeft := btsLeft - k in
            let w := MkWriter (cksumBuff w) (cursor w) (currentPageNb w) (currentPageOffset w) (asyncOffset w + k) in
            if st is stRetry then Ok (stRetry, written + k, w, sk)
            else if pglen =? 0 then
              let nb := currentPageNb w + 1 in
              '(cb, cu) ← if nb <? csNum offset (zlen buffer) then d ← digest_bytes nb; Ok (d, 0) else Ok (cksumBuff w, cursor w);
              let pglen := if btsLeft <? PageSize then btsLeft else PageSize in
              write_loop fuel btsLeft pglen (written + k) (MkWriter cb cu nb 0 (asyncOffset w)) sk
            else
              write_loop fuel btsLeft pglen (written + k) (MkWriter (cksumBuff w) (cursor w) (currentPageNb w) (currentPageOffset w + k) (asyncOffset w)) sk
        end
  end.

(** [WriteMessageBody( socket, bytesWritten )] for a write with checksums: each turn of the
    loops but the last takes an answer. *)
Definition WriteMessageBody (w : BodyWriter) (sk : Sock) : res (sock_status * Z * BodyWriter * Sock) :=
  let '(_, fLen, _) := csNum_lengths offset (zlen buffer) in
  cb ← if cursor w =? 0 then digest_bytes (currentPageNb w) else Ok (cksumBuff w);
  let btsLeft := u32 (zlen buffer - asyncOffset w) in
  let pglen := u32 ((if currentPageNb w =? 0 then fLen else PageSize) - currentPageOffset w) in
  let pglen := if btsLeft <? pglen then btsLeft else pglen in
  write_loop (S (S (length (s_answers sk)))) btsLeft pglen 0 (MkWriter cb (cursor w) (currentPageNb w) (currentPageOffset w) (asyncOffset w)) sk.

(** The call is made again while the socket would block. *)
Fixpoint write_body (fuel : nat) (w : BodyWriter) (sk : Sock) : res (sock_status * BodyWriter * Sock) :=
  match fuel with
  | O => Diverge
  | S fuel =>
      '(st, _, w, sk) ← WriteMessageBody w sk;
      if st is stRetry then match s_answers sk with [] => Ok (stRetry, w, sk) | _ => write_body fuel w sk end else Ok (st, w, sk)
  end.
End writer.

(** ** What a call of [send] does *)

(** The answers that take something. *)
Definition took (l : list answer) : Z := foldr (fun a n => if a is Took _ then 1 + n else n) 0 l.

Lemma took_app l k : took (l ++ k) = took l + took k.
Proof. unfold took. induction l as [|[n| |] l IH]; cbn; lia. Qed.

(** [a] went out, one byte at least for each answer that takes something. *)
Definition sent (sk sk' : Sock) (a : list Z) : Prop :=
  s_out sk' = s_out sk ++ a /\ exists used, s_answers sk = used ++ s_answers sk' /\ took used <= zlen a.

Lemma sent_none sk : sent sk sk [].
Proof. split; [by rewrite app_nil_r|]. by exists []. Qed.

Lemma sent_trans sk1 sk2 sk3 a b : sent sk1 sk2 a -> sent sk2 sk3 b -> sent sk1 sk3 (a ++ b).
Proof.
  intros (A1 & u & A2 & A3) (B1 & v & B2 & B3). split; [by rewrite B1, A1, app_assoc|]. exists (u ++ v).
  split; [by rewrite A2, B2, app_assoc|]. rewrite took_app, zlen_app. lia.
Qed.

Lemma Socket_Send_spec data sk : data <> [] -> exists st k sk', Socket_Send data sk = (st, k, sk') /\ 0 <= k <= zlen data /\ sent sk sk' (take (Z.to_nat k) data) /\
  match st with
  | stOK => 0 < k /\ (length (s_answers sk') < length (s_answers sk))%nat
  | stRetry => k = 0 /\ (s_answers sk' = [] \/ length (s_answers sk') < length (s_answers sk))%nat
  | stError => k = 0 /\ Broken ∈ s_answers sk
  end.
Proof.
  intros Hd. pose proof (zlen_pos data Hd). unfold Socket_Send. destruct (s_answers sk) as [|[n| |] l] eqn:E.
  - exists stRetry, 0, sk. split_and!; try done; try lia; [apply sent_none|by left].
  - rewrite (proj2 (Z.eqb_neq _ _)) by lia. set (k := Z.max 1 (Z.min n (zlen data))). exists stOK, k, (MkSock l (s_out sk ++ take (Z.to_nat k) data)).
    split_and!; try done; try lia; [|cbn; lia]. split; [done|]. exists [Took n]. split; [by rewrite E|]. rewrite zlen_take_more by lia. unfold took. cbn. lia.
  - exists stRetry, 0, (MkSock l (s_out sk)). split_and!; try done; try lia; [|right; cbn; lia]. split; [by rewrite app_nil_r|]. exists [Again]. by rewrite E.
  - exists stError, 0, (MkSock l (s_out sk)). split_and!; try done; try lia; [|by left]. split; [by rewrite app_nil_r|]. exists [Broken]. by rewrite E.
Qed.

(** ** Where the writer is *)

Section spec.
Context (o : Z) (B cs : list Z).
Hypotheses (Ho : 0 <= o) (HB : B <> []) (Hlen : length cs = length (pieces o B)) (Hmax : zlen B < 2 ^ 32).

Definition units_from (i : nat) : list Z := mjoin (zip_with (fun p c => be 4 c ++ p.2) (drop i (pieces o B)) (drop i cs)).

Lemma units_from_0 : units_from 0 = wire o B cs.
Proof. done. Qed.

Lemma units_from_cons i po p c : pieces o B !! i = Some (po, p) -> cs !! i = Some c -> units_from i = be 4 c ++ p ++ units_from (S i).
Proof. intros Hp Hc. unfold units_from. rewrite (drop_S _ _ _ Hp), (drop_S _ _ _ Hc). cbn [zip_with]. rewrite mjoin_cons. symmetry. apply app_assoc. Qed.

Lemma units_from_end i : (length (pieces o B) <= i)%nat -> units_from i = [].
Proof. intros Hi. unfold units_from. by rewrite (drop_ge (pieces o B)) by done. Qed.

(** The writer is [d] bytes into the data of piece [i], or in the checksum before it. *)
Record inside (w : BodyWriter) (i : nat) (po : Z) (p : list Z) (c d : Z) : Prop := {
  in_p : pieces o B !! i = Some (po, p); in_c : cs !! i = Some c; in_nb : currentPageNb w = Z.of_nat i; in_d : 0 <= d < zlen p;
  in_async : asyncOffset w = po - o + d; in_ofs : currentPageOffset w = d; in_cursor : 0 <= cursor w <= 4; in_data : 0 < d -> cursor w = 4 }.

Definition left_of (w : BodyWriter) (i : nat) (p : list Z) (c d : Z) : list Z := adv (cursor w) (be 4 c) ++ adv d p ++ units_from (S i).

(** [rest] is what the writer has still to send. *)
Definition writing (w : BodyWriter) (rest : list Z) : Prop :=
  (exists i po p c d, inside w i po p c d /\ (0 < cursor w -> cksumBuff w = be 4 c) /\ rest = left_of w i p c d) \/
  (asyncOffset w = zlen B /\ cursor w = 4 /\ rest = []).

(** The same with the local variables of the loops. *)
Definition in_loop (w : BodyWriter) (btsLeft pglen : Z) (rest : list Z) : Prop :=
  (exists i po p c d, inside w i po p c d /\ cksumBuff w = be 4 c /\ rest = left_of w i p c d /\ btsLeft = zlen B - asyncOffset w /\ pglen = zlen p - d) \/
  (asyncOffset w = zlen B /\ cursor w = 4 /\ rest = [] /\ btsLeft = 0).

Lemma in_loop_writing w bl pl rest : in_loop w bl pl rest -> writing w rest.
Proof. intros [(i & po & p & c & d & H1 & H2 & H3 & _)|(H1 & H2 & H3 & _)]; [left; by exists i, po, p, c, d|by right]. Qed.

Lemma left_nonempty w i po p c d : inside w i po p c d -> left_of w i p c d <> [].
Proof.
  intros H E. apply (f_equal zlen) in E. unfold left_of in E. rewrite !zlen_app in E. pose proof (in_d _ _ _ _ _ _ H). pose proof (zlen_nonneg (adv (cursor w) (be 4 c))).
  pose proof (zlen_nonneg (units_from (S i))). rewrite (zlen_adv_more d p) in E by lia. change (zlen []) with 0 in E. lia.
Qed.

Lemma count_pieces : csNum o (zlen B) = zlen (pieces o B).
Proof. pose proof (zlen_pos B HB). by rewrite csNum_npages, zlen_pieces. Qed.

Lemma digest_bytes_at i c : cs !! i = Some c -> digest_bytes cs (Z.of_nat i) = Ok (be 4 c).
Proof. intros Hc. unfold digest_bytes. by rewrite Nat2Z.id, Hc. Qed.

Lemma data_left w i po p c d : inside w i po p c d -> rd_bytes (zlen p - d) (asyncOffset w) B = Ok (adv d p) /\ zlen (adv d p) = zlen p - d.
Proof.
  intros [Hp _ _ Hd Ha _ _ _]. destruct (pieces_lookup _ _ _ _ _ Hp) as (_ & Hs & _ & _ & Hge & Hend & _). split; [|by rewrite zlen_adv_more by lia].
  unfold rd_bytes. rewrite Ha, !(proj2 (Z.leb_le _ _)) by lia. cbn [andb]. f_equal. unfold adv. rewrite Hs at 2. unfold slice.
  replace (Z.to_nat (zlen p)) with (Z.to_nat d + Z.to_nat (zlen p - d))%nat by lia. rewrite <- take_drop_commute, drop_drop. do 2 f_equal. lia.
Qed.

(** Bytes of a piece went out. *)
Lemma data_sent w i po p c d k : inside w i po p c d -> cursor w = 4 -> cksumBuff w = be 4 c -> 0 <= k <= zlen p - d -> let w1 := MkWriter (cksumBuff w) (cursor w) (currentPageNb w) (currentPageOffset w) (asyncOffset w + k) in
  exists rest, left_of w i p c d = take (Z.to_nat k) (adv d p) ++ rest /\
    if zlen p - d - k =? 0 then
      exists cb cu, (if currentPageNb w1 + 1 <? csNum o (zlen B) then x ← digest_bytes cs (currentPageNb w1 + 1); Ok (x, 0) else Ok (cksumBuff w1, cursor w1)) = Ok (cb, cu) /\
        in_loop (MkWriter cb cu (currentPageNb w1 + 1) 0 (asyncOffset w1)) (zlen B - asyncOffset w1) (if zlen B - asyncOffset w1 <? PageSize then zlen B - asyncOffset w1 else PageSize) rest
    else in_loop (MkWriter (cksumBuff w1) (cursor w1) (currentPageNb w1) (currentPageOffset w1 + k) (asyncOffset w1)) (zlen B - asyncOffset w1) (zlen p - d - k) rest.
Proof.
  intros Hi Hcu Hck Hk w1. pose proof Hi as [Hp Hc Hnb Hd Ha Hofs _ _]. cbn [w1 currentPageNb cksumBuff cursor asyncOffset currentPageOffset].
  assert (left_of w i p c d = take (Z.to_nat k) (adv d p) ++ adv (d + k) p ++ units_from (S i)) as E.
  { unfold left_of. rewrite Hcu. change (adv 4 (be 4 c)) with (@nil Z). cbn [app]. rewrite (app_assoc (take _ _)). f_equal. unfold adv. rewrite Z2Nat.inj_add, <- drop_drop by lia. by rewrite take_drop. }
  exists (adv (d + k) p ++ units_from (S i)). split; [exact E|]. destruct (Z.eqb_spec (zlen p - d - k) 0) as [Hz|Hz].
  - assert (adv (d + k) p = []) as -> by (unfold adv; apply drop_ge; unfold zlen in *; lia). cbn [app]. rewrite Hnb, count_pieces.
    destruct (pieces_next _ _ _ _ _ Hp) as [(Hl & He)|(q & Hq & Hzq)].
    + rewrite (proj2 (Z.ltb_ge _ _)) by (unfold zlen; lia). exists (cksumBuff w), (cursor w). split; [done|]. right. cbn. rewrite units_from_end by lia. split_and!; (done || lia).
    + assert (S i < length (pieces o B))%nat as Hlt by by eapply lookup_lt_Some. rewrite (proj2 (Z.ltb_lt _ _)) by (unfold zlen; lia).
      destruct (lookup_lt_is_Some_2 cs (S i) ltac:(lia)) as [c' Hc']. replace (Z.of_nat i + 1) with (Z.of_nat (S i)) by lia. rewrite (digest_bytes_at _ _ Hc'), bind_Ok.
      exists (be 4 c'), 0. split; [done|]. left. exists (S i), (po + zlen p), q, c', 0. destruct (pieces_lookup _ _ _ _ _ Hq) as (_ & _ & Hne & _). pose proof (zlen_pos q Hne).
      split_and!; [split; cbn; (done || lia)|done| |done|].
      * unfold left_of. cbn [cursor]. change (adv 0 ?x) with x. by eapply units_from_cons.
      * destruct (Z.ltb_spec (zlen B - (asyncOffset w + k)) PageSize); lia.
  - left. exists i, po, p, c, (d + k). split_and!; [|done| |done|lia].
    + split; cbn; try done; lia.
    + unfold left_of. cbn [cursor]. by rewrite Hcu.
Qed.

(** The loops end with everything sent, or when the socket does not take more. *)
Lemma write_loop_spec fuel w sk btsLeft pglen written rest : in_loop w btsLeft pglen rest -> (length (s_answers sk) < fuel)%nat ->
  exists st w' sk' a rest', write_loop o B cs fuel btsLeft pglen written w sk = Ok (st, written + zlen a, w', sk') /\ rest = a ++ rest' /\ sent sk sk' a /\ writing w' rest' /\
    match st with
    | stOK => rest' = []
    | stRetry => rest' <> [] /\ (s_answers sk' = [] \/ length (s_answers sk') < length (s_answers sk))%nat
    | stError => Broken ∈ s_answers sk
    end.
Proof.
  revert w sk btsLeft pglen written rest. induction fuel as [|fuel IH]; intros w sk bl pl written rest Hin Hf; [lia|]. cbn [write_loop].
  destruct Hin as [(i & po & p & c & d & Hi & Hck & -> & -> & ->)|(H1 & H2 & -> & ->)].
  2:{ cbn [Z.leb]. change (0 <=? 0) with true. cbv iota. exists stOK, w, sk, [], []. change (zlen []) with 0. rewrite Z.add_0_r. split_and!; [done|done|apply sent_none|by right|done]. }
  pose proof Hi as [Hp Hc Hnb Hd Ha Hofs Hcu Hdata]. destruct (pieces_lookup _ _ _ _ _ Hp) as (_ & Hslice & _ & _ & Hge & Hend & _).
  rewrite (proj2 (Z.leb_gt _ 0)) by lia. destruct (Z.ltb_spec (cursor w) 4) as [Hlt|Hge4].
  - (* the checksum *)
    assert (zlen (adv (cursor w) (be 4 c)) = 4 - cursor w) as Hz by (rewrite zlen_adv_more by (rewrite zlen_be; lia); rewrite zlen_be; lia).
    rewrite Hck. destruct (Socket_Send_spec (adv (cursor w) (be 4 c)) sk) as (st & k & sk1 & -> & Hk & Hsent & Hst).
    { intros E. rewrite E in Hz. change (zlen []) with 0 in Hz. lia. }
    set (w1 := MkWriter _ (cursor w + k) _ _ _).
    assert (inside w1 i po p c d) as Hi1 by (split; try done; cbn; lia).
    assert (left_of w i p c d = take (Z.to_nat k) (adv (cursor w) (be 4 c)) ++ left_of w1 i p c d) as Hl.
    { unfold left_of. rewrite (app_assoc (take _ _)). f_equal. change (cursor w1) with (cursor w + k). unfold adv. rewrite Z2Nat.inj_add, <- drop_drop by lia. by rewrite take_drop. }
    destruct st.
    + destruct (IH w1 sk1 (zlen B - asyncOffset w) (zlen p - d) (written + k) (left_of w1 i p c d)) as (st & w' & sk' & a & rest' & -> & Hr & Hs & Hw & Hm).
      { left. exists i, po, p, c, d. done. }
      { lia. }
      exists st, w', sk', (take (Z.to_nat k) (adv (cursor w) (be 4 c)) ++ a), rest'.
      split_and!; [|by rewrite Hl, Hr, <- app_assoc|by eapply sent_trans|done|].
      * by rewrite zlen_app, zlen_take_more, Z.add_assoc by lia.
      * destruct Hsent as (_ & used & Hu & _). destruct st; [done|destruct Hm as [? [|]]; split; [done|by left|done|right; lia]|rewrite Hu; set_solver].
    + exists stRetry, w1, sk1, (take (Z.to_nat k) (adv (cursor w) (be 4 c))), (left_of w1 i p c d). split_and!; [|done|done| |exact (left_nonempty _ _ po _ _ _ Hi1)|tauto].
      * by rewrite zlen_take_more by lia.
      * left. exists i, po, p, c, d. done.
    + destruct Hst as [-> Hb]. exists stError, w, sk1, [], (left_of w i p c d). change (zlen []) with 0. rewrite Z.add_0_r. split_and!; [done|done|exact Hsent| |done].
      left. exists i, po, p, c, d. done.
  - (* the data *)
    assert (cursor w = 4) as Hcu4 by lia. destruct (data_left _ _ _ _ _ _ Hi) as [-> Hz]. rewrite bind_Ok.
    destruct (Socket_Send_spec (adv d p) sk) as (st & k & sk1 & -> & Hk & Hsent & Hst).
    { intros E. rewrite E in Hz. change (zlen []) with 0 in Hz. lia. }
    destruct (data_sent w i po p c d k Hi Hcu4 Hck ltac:(lia)) as (rest & Hl & Hn). destruct st.
    + assert (forall w1 bl pl, in_loop w1 bl pl rest -> exists st w' sk' a rest', write_loop o B cs fuel bl pl (written + k) w1 sk1 = Ok (st, written + zlen a, w', sk') /\
        left_of w i p c d = a ++ rest' /\ sent sk sk' a /\ writing w' rest' /\
        match st with
        | stOK => rest' = []
        | stRetry => rest' <> [] /\ (s_answers sk' = [] \/ length (s_answers sk') < length (s_answers sk))%nat
        | stError => Broken ∈ s_answers sk
        end) as Hgo.
      { intros w1 bl pl Hw1. destruct (IH w1 sk1 bl pl (written + k) rest Hw1 ltac:(lia)) as (st & w' & sk' & a & rest' & -> & Hr & Hs & Hw & Hm).
        exists st, w', sk', (take (Z.to_nat k) (adv d p) ++ a), rest'. split_and!; [|by rewrite Hl, Hr, <- app_assoc|by eapply sent_trans|done|].
        - by rewrite zlen_app, zlen_take_more, Z.add_assoc by lia.
        - destruct Hsent as (_ & used & Hu & _). destruct st; [done|destruct Hm as [? [|]]; split; [done|by left|done|right; lia]|rewrite Hu; set_solver]. }
      destruct (Z.eqb_spec (zlen p - d - k) 0) as [Hzero|Hmore].
      * destruct Hn as (cb & cu & -> & Hn). rewrite bind_Ok. rewrite <- Z.sub_add_distr. by apply Hgo.
      * rewrite <- (Z.sub_add_distr (zlen B)). by apply Hgo.
    + destruct Hst as [-> Hst]. rewrite Z.add_0_r. destruct w as [cb cu nb po' ao]. cbn in *. rewrite Z.add_0_r.
      exists stRetry, (MkWriter cb cu nb po' ao), sk1, [], (left_of (MkWriter cb cu nb po' ao) i p c d). change (zlen []) with 0. rewrite Z.add_0_r.
      split_and!; [done|done|exact Hsent| |exact (left_nonempty _ _ po _ _ _ Hi)|done]. left. exists i, po, p, c, d. done.
    + destruct Hst as [-> Hb]. exists stError, w, sk1, [], (left_of w i p c d). change (zlen []) with 0. rewrite Z.add_0_r. split_and!; [done|done|exact Hsent| |done].
      left. exists i, po, p, c, d. done.
Qed.

(** The length of a piece, as a call computes it. *)
Lemma piece_len i po p : pieces o B !! i = Some (po, p) ->
  zlen p = Z.min (if decide (i = 0%nat) then Z.min (zlen B) (to_boundary o) else PageSize) (zlen B - (po - o)).
Proof.
  intros Hp. destruct (pieces_lookup _ _ _ _ _ Hp) as (Hpo & _ & _ & Htb & _ & Hend & Hfull). pose proof (to_boundary_range o). pose proof (to_boundary_range po).
  assert (i <> 0%nat -> to_boundary po = PageSize) as Hal.
  { intros Hi. rewrite decide_False in Hpo by done. apply to_boundary_aligned. rewrite Hpo. pose proof (aligned_next o). unfold PageSize in *. lia_div. }
  destruct (pieces_next _ _ _ _ _ Hp) as [(_ & He)|(q & Hq & _)].
  - destruct (decide (i = 0%nat)) as [->|Hi]; [cbn in Hpo; subst po; lia|rewrite (Hal Hi) in *; lia].
  - apply lookup_lt_Some in Hq. specialize (Hfull Hq). destruct (decide (i = 0%nat)) as [->|Hi]; [cbn in Hpo; subst po; lia|rewrite (Hal Hi) in *; lia].
Qed.

Lemma WriteMessageBody_spec w sk rest : writing w rest ->
  exists st w' sk' a rest', WriteMessageBody o B cs w sk = Ok (st, zlen a, w', sk') /\ rest = a ++ rest' /\ sent sk sk' a /\ writing w' rest' /\
    match st with
    | stOK => rest' = []
    | stRetry => rest' <> [] /\ (s_answers sk' = [] \/ length (s_answers sk') < length (s_answers sk))%nat
    | stError => Broken ∈ s_answers sk
    end.
Proof.
  intros Hw. pose proof (zlen_pos B HB) as HzB. unfold WriteMessageBody. rewrite csNum_lengths_spec by done.
  assert (exists cb bl pl, (if cursor w =? 0 then digest_bytes cs (currentPageNb w) else Ok (cksumBuff w)) = Ok cb /\ u32 (zlen B - asyncOffset w) = bl /\
    (let pglen := u32 ((if currentPageNb w =? 0 then Z.min (zlen B) (to_boundary o) else PageSize) - currentPageOffset w) in if bl <? pglen then bl else pglen) = pl /\
    in_loop (MkWriter cb (cursor w) (currentPageNb w) (currentPageOffset w) (asyncOffset w)) bl pl rest) as (cb & bl & pl & -> & -> & Hpl & Hin).
  { destruct Hw as [(i & po & p & c & d & Hi & Hck & ->)|(H1 & H2 & ->)].
    - pose proof Hi as [Hp Hc Hnb Hd Ha Hofs Hcu Hdata]. destruct (pieces_lookup _ _ _ _ _ Hp) as (_ & _ & _ & Htb & Hge & Hend & _). pose proof (to_boundary_range po).
      pose proof (piece_len _ _ _ Hp) as Hz. exists (be 4 c), (zlen B - asyncOffset w), (zlen p - d). split_and!.
      + destruct (Z.eqb_spec (cursor w) 0) as [E|E]; [rewrite Hnb; by apply digest_bytes_at|by rewrite Hck by lia].
      + apply u32_small. lia.
      + cbv zeta. rewrite Hnb, Hofs. assert ((if Z.of_nat i =? 0 then Z.min (zlen B) (to_boundary o) else PageSize) = (if decide (i = 0%nat) then Z.min (zlen B) (to_boundary o) else PageSize)) as ->.
        { destruct (Z.eqb_spec (Z.of_nat i) 0), (decide (i = 0%nat)); (done || lia). }
        pose proof (to_boundary_range o). destruct (decide (i = 0%nat)); rewrite u32_small by (unfold PageSize in *; lia);
          match goal with |- context [?a <? ?b] => destruct (Z.ltb_spec a b) end; lia.
      + left. exists i, po, p, c, d. split_and!; done.
    - eexists (cksumBuff w), 0, _. split_and!; [by rewrite H2|by rewrite H1, Z.sub_diag|done|]. right. by split_and!. }
  rewrite bind_Ok. cbv zeta in Hpl |- *. rewrite Hpl.
  destruct (write_loop_spec (S (S (length (s_answers sk)))) _ sk bl pl 0 rest Hin ltac:(lia)) as (st & w' & sk' & a & rest' & -> & H). rewrite Z.add_0_l.
  by exists st, w', sk', a, rest'.
Qed.

Lemma write_body_spec fuel w sk rest : writing w rest -> (length (s_answers sk) < fuel)%nat ->
  exists st w' sk' a rest', write_body o B cs fuel w sk = Ok (st, w', sk') /\ rest = a ++ rest' /\ sent sk sk' a /\
    match st with stOK => rest' = [] | stRetry => rest' <> [] /\ s_answers sk' = [] | stError => Broken ∈ s_answers sk end.
Proof.
  revert w sk rest. induction fuel as [|fuel IH]; intros w sk rest Hw Hf; [lia|]. cbn [write_body].
  destruct (WriteMessageBody_spec w sk rest Hw) as (st & w1 & sk1 & a & rest1 & -> & -> & Hs & Hw1 & Hm). rewrite bind_Ok. destruct st.
  - by exists stOK, w1, sk1, a, rest1.
  - destruct Hm as [Hne Hm]. destruct (s_answers sk1) as [|x l] eqn:E; [by exists stRetry, w1, sk1, a, rest1|]. rewrite <- E in *.
    destruct (IH w1 sk1 rest1 Hw1) as (st & w2 & sk2 & b & rest2 & -> & -> & Hs2 & Hm2); [destruct Hm as [Hm|Hm]; [by rewrite Hm in E|lia]|].
    exists st, w2, sk2, (a ++ b), rest2. split_and!; [done|by rewrite app_assoc|by eapply sent_trans|]. destruct st; [done|done|].
    destruct Hs as (_ & used & -> & _). set_solver.
  - by exists stError, w1, sk1, a, rest1.
Qed.
End spec.

(** C12: However the socket takes the bytes of a write, in pieces of any size
    and with calls that would block in between, what goes out is each piece
    behind its checksum: always the begin of that, all of it when the body is
    done, and it is done once the socket has taken something often enough and
    did not fail. *)
Theorem body_sent o B cs answers : 0 <= o -> B <> [] -> length cs = length (pieces o B) -> zlen B < 2 ^ 32 ->
  exists st w sk rest, write_body o B cs (S (length answers)) new_writer (MkSock answers []) = Ok (st, w, sk) /\ wire o B cs = s_out sk ++ rest /\
    (st = stOK -> rest = []) /\ (zlen (wire o B cs) <= took answers -> Broken ∉ answers -> st = stOK).
Proof.
  intros Ho HB Hl Hmax. assert (exists po p, pieces o B !! 0%nat = Some (po, p)) as (po & p & Hp) by (rewrite pieces_cons by done; eauto).
  destruct (lookup_lt_is_Some_2 cs 0 ltac:(rewrite Hl; by eapply lookup_lt_Some)) as [c Hc]. destruct (pieces_lookup _ _ _ _ _ Hp) as (Hpo & _ & Hne & _).
  destruct (write_body_spec o B cs Ho HB Hl Hmax (S (length answers)) new_writer (MkSock answers []) (wire o B cs)) as (st & w & sk & a & rest & Hw & Hr & (Hout & used & Hu & Hut) & Hm).
  - left. exists 0%nat, po, p, c, 0. pose proof (zlen_pos p Hne). split_and!; [|cbn; lia|].
    + split; cbn; try done; try lia. rewrite decide_True in Hpo by done. lia.
    + rewrite <- (units_from_0 o B cs). by eapply units_from_cons.
  - cbn. lia.
  - cbn [s_out s_answers app] in *. exists st, w, sk, rest. rewrite Hout. split_and!; [done|done|by intros ->|]. intros Htook Hnb. destruct st; [done| |done].
    destruct Hm as [Hne' E]. rewrite E, app_nil_r in Hu. subst used. rewrite Hr, zlen_app in Htook. pose proof (zlen_pos rest Hne'). lia.
Qed.

(** Three bytes over the end of a page, taken one by one with two calls that would block. *)
Lemma body_sent_witness : let answers := [Took 1; Again] ++ replicate 9 (Took 1) ++ [Again; Took 5; Took 1] in
  exists st w sk rest, write_body 4094 [1; 2; 3] [7; 8] (S (length answers)) new_writer (MkSock answers []) = Ok (st, w, sk) /\
    wire 4094 [1; 2; 3] [7; 8] = s_out sk ++ rest /\ (st = stOK -> rest = []) /\
    (zlen (wire 4094 [1; 2; 3] [7; 8]) <= took answers -> Broken ∉ answers -> st = stOK).
Proof. intros answers. apply (body_sent 4094 [1; 2; 3] [7; 8] answers); [lia|discriminate|reflexivity|reflexivity]. Defined.
