(* ===== verification/PgRead.v ===== *)
(** * Reads with checksums, on the server (XrdXrootd/XrdXrootdXeqPgrw.cc)

    [do_PgRIO] reads the file into its buffer, a part at a time, and sends each part as a
    partial result, its pieces behind their checksums; the part that comes up short, or that
    completes the request, is the final result. The file ([XrdSfsFile::pgRead]) is an
    interface: it gives data with its checksums, less than it was asked for, nothing, or an
    error. Asynchronous reads and reads on another path of the session are left out. *)

From stdpp Require Import base tactics list_numbers numbers option list strings gmap.
From S2P Require Import Prelude CrcRegister OucCRC32C CsiCrc PgrwUtils LinkData PgwCtl PgWire PgWrite PgServe.
#[local] Set Warnings "-clear-no-such-hyp".

(** [pgRead( offset, buffer, length, csvec, opts )]: what it returns, the bytes it put in the
    buffer and the checksums *)
Class SfsReader (F : Type) : Type := { pgRead : F -> Z -> Z -> bool -> Z * list Z * list Z * F }.

(** What it promises: not more than it was asked for, and a checksum for each piece. *)
Class SfsReaderOk (F : Type) `{SfsReader F} : Prop := {
  pgRead_ok : forall f o n v rc D cs f', pgRead f o n v = (rc, D, cs, f') -> 0 < n -> rc <= n /\ zlen D <= n /\
    (0 < rc -> zlen D = rc /\ length cs = length (pieces o D) /\ Forall word cs) }.

(** ** What is sent *)

(** Bytes in memory. *)
Definition load (p : ptr) (n : Z) (M : mem) : res (list Z) :=
  match p with PCs o => rd_bytes n o (csMem M) | PHeap a => rd_bytes n (a - bufAt M) (bufMem M) end.

(** The bytes of a vector. *)
Fixpoint gather (v : list iovec) (M : mem) : res (list Z) :=
  match v with [] => Ok [] | e :: v => a ← load (iov_base e) (iov_len e) M; b ← gather v M; Ok (a ++ b) end.

(** ** The request *)

Section read.
Context (sysIovMax maxBuffsz : Z) {F : Type} `{SfsReader F} `{BuffPool}.

Definition maxCSSZ : Z := Z.quot sysIovMax 2 - 1.
Definition maxPGRD : Z := maxCSSZ * PageSize.

(** The end of [do_PgRIO], behind the loop; [final] is whether a final result was sent. *)
Definition PgRIO_end (xframt : Z) (final : bool) (M : mem) (s : Prot (F := F)) : Z * Prot :=
  let s := set_mem (MkMem (csMem (p_mem s)) (bufAt M) (bufMem M)) s in
  if xframt <? 0 then Send (RFsError xframt) s
  else if final then (0, s) else Send (RPages true (Offset (p_io s)) []) s.

(** The loop. [iov] lacks the element of the header, which is the first one in the code; the
    memory is the buffer and the vector of checksums on the stack. *)
Fixpoint PgRIO_loop (fuel : nat) (Quantum : Z) (verify : bool) (iov : list iovec) (buff : ptr) (rLen pgOff : Z) (M : mem) (s : Prot (F := F)) : res (Z * Prot) :=
  match fuel with
  | O => Diverge
  | S fuel =>
      let io := p_io s in
      let '(xframt, data, cs, file) := pgRead (p_file s) (Offset io) rLen verify in
      M ← store buff data M;
      let s := set_file file s in
      if xframt <=? 0 then Ok (PgRIO_end xframt false M s)
      else
        let '(items, fLen, lLen) := csNum_lengths (Offset io) xframt in
        let iov := iov_upd 1 (set_len fLen) iov in
        let iov := if 1 <? items then iov_upd (2 * items - 1) (set_len lLen) iov else iov in
        let final := (xframt <? rLen) || (xframt =? IOLen io) in
        let io' := if final then MkIO (Offset io) 0 (isRetry io) (EInfo0 io) (EInfo1 io) (errText io)
                   else MkIO (Offset io + xframt) (IOLen io - xframt) (isRetry io) (EInfo0 io) (EInfo1 io) (errText io) in
        let rLen := if final then rLen else if IOLen io' <? Quantum then IOLen io' else Quantum in
        M ← store (PCs 0) (mjoin (be 4 <$> take (Z.to_nat items) cs)) M;
        units ← gather (take (Z.to_nat (2 * items)) iov) M;
        let '(_, s) := Send (RPages final (Offset io) units) (set_io io' s) in
        let '(iov, buff, pgOff) :=
          if pgOff =? 0 then (iov, buff, pgOff) else (iov_upd 1 (fun _ => MkIov (PHeap (bufAt M)) PageSize) iov, PHeap (bufAt M), 0) in
        if 0 <? IOLen (p_io s) then PgRIO_loop fuel Quantum verify iov buff rLen pgOff M s else Ok (PgRIO_end xframt final M s)
  end.

(** The elements of the vector, before the first read *)
Definition read_iov (items a : Z) : list iovec := mjoin ((fun j => [MkIov (PCs (crcSZ * j)) crcSZ; MkIov (PHeap (a + PageSize * j)) PageSize]) <$> seqZ 0 items).

(** [do_PgRIO()] on the path of the connection. A read takes a byte at least, so that there
    are not more turns than bytes. *)
Definition do_PgRIO (s : Prot (F := F)) : res (Z * Prot) :=
  let io := p_io s in
  let rPages := i32 (csNum (Offset io) (IOLen io) * PageSize) in
  let Quantum := if maxBuffsz <? maxPGRD then maxBuffsz else maxPGRD in
  let Quantum := if rPages <? Quantum then rPages else Quantum in
  let '(rc, s) :=
    if negb (p_argp s) || (Quantum <? halfBSize (p_bctl s)) || (bsize s <? Quantum) then getBuff true Quantum s
    else if hcNow (p_bctl s) <? hcNext (p_bctl s) then
      (1, set_argp (p_argp s) (p_mem s) (MkBuffCtl (halfBSize (p_bctl s)) (hcPrev (p_bctl s)) (hcNow (p_bctl s) + 1) (hcNext (p_bctl s)) (hcMax (p_bctl s))) s)
    else (1, s) in
  if rc <=? 0 then Ok (rc, s)
  else
    let Quantum := if maxPGRD <? bsize s then maxPGRD else Quantum in
    let items := Z.quot Quantum PageSize in
    if maxCSSZ <? items then Ok (Send (RError kXR_Impossible "pgread logic error 1") s)
    else
      let a := bufAt (p_mem s) in
      let pgOff := Z.land (Offset io) pgPageMask in
      let iov := read_iov items a in
      let '(iov, buff, rLen) :=
        if pgOff =? 0 then (iov, PHeap a, Quantum)
        else (iov_upd 1 (fun _ => MkIov (PHeap (a + pgOff)) (PageSize - pgOff)) iov, PHeap (a + pgOff), PageSize - pgOff + (Quantum - PageSize)) in
      let rLen := if IOLen io <? rLen then IOLen io else rLen in
      PgRIO_loop (S (Z.to_nat (IOLen io))) Quantum (isRetry io) iov buff rLen pgOff
        (MkMem (replicate (Z.to_nat (4 * maxCSSZ)) 0) a (bufMem (p_mem s))) s.

(** [do_PgRead()] for a file that is open, without asynchronous I/O *)
Definition do_PgRead (offset rlen : Z) (retry : bool) (s : Prot (F := F)) : res (Z * Prot) :=
  let s := set_io (MkIO offset rlen retry (EInfo0 (p_io s)) (EInfo1 (p_io s)) (errText (p_io s))) s in
  if rlen <=? 0 then Ok (Send (RError kXR_ArgInvalid "Read length is invalid") s) else do_PgRIO s.
End read.

(** ** The specification *)

Section spec.
Context {F : Type} `{SfsReader F}.

(** The replies to a read of [n] bytes at [o], of which the first part has at most [m] and
    the others [Q] bytes, and the file after it. *)
Fixpoint read_parts (fuel : nat) (Q : Z) (verify : bool) (f : F) (o n m : Z) : list Reply * F :=
  match fuel with
  | O => ([], f)
  | S fuel =>
      let '(rc, D, cs, f) := pgRead f o m verify in
      if rc <? 0 then ([RFsError rc], f)
      else if rc =? 0 then ([RPages true o []], f)
      else if (rc <? m) || (rc =? n) then ([RPages true o (wire o D cs)], f)
      else let '(l, f) := read_parts fuel Q verify f (o + rc) (n - rc) (Z.min (n - rc) Q) in (RPages false o (wire o D cs) :: l, f)
  end.
End spec.

(** ** Bytes in memory *)

Lemma rd_paste off l m : 0 <= off -> off + zlen l <= zlen m -> rd_bytes (zlen l) off (paste off l m) = Ok l.
Proof.
  intros H0 H1. unfold rd_bytes. pose proof (zlen_nonneg l). rewrite zlen_paste, !(proj2 (Z.leb_le _ _)) by lia. cbn [andb]. f_equal. by apply slice_paste.
Qed.

Lemma rd_app x y off m : rd_bytes (zlen (x ++ y)) off m = Ok (x ++ y) -> rd_bytes (zlen x) off m = Ok x /\ rd_bytes (zlen y) (off + zlen x) m = Ok y.
Proof.
  unfold rd_bytes. rewrite zlen_app. pose proof (zlen_nonneg x). pose proof (zlen_nonneg y).
  destruct (Z.leb_spec 0 off), (Z.leb_spec 0 (zlen x + zlen y)), (Z.leb_spec (off + (zlen x + zlen y)) (zlen m)); cbn [andb]; try done. intros [= E].
  rewrite !(proj2 (Z.leb_le _ _)) by lia. cbn [andb]. split; f_equal.
  - apply (f_equal (take (length x))) in E. rewrite take_app_length, take_take in E. rewrite <- E at 2. f_equal. unfold zlen. lia.
  - apply (f_equal (drop (length x))) in E. rewrite drop_app_length in E. rewrite <- E at 2. rewrite skipn_firstn_comm, drop_drop. f_equal; [unfold zlen; lia|]. f_equal. unfold zlen. lia.
Qed.

(** The units are taken from where the vector says. *)
Lemma gather_units ps cs j a M : length cs = length ps ->
  rd_bytes (zlen (mjoin (be 4 <$> cs))) (crcSZ * j) (csMem M) = Ok (mjoin (be 4 <$> cs)) -> rd_bytes (zlen (mjoin ps)) (a - bufAt M) (bufMem M) = Ok (mjoin ps) ->
  gather (frame_vec j a (zlen <$> ps)) M = Ok (mjoin (zip_with (fun p c => be 4 c ++ p) ps cs)).
Proof.
  revert cs j a. induction ps as [|p ps IH]; intros [|c cs] j a Hl Hc Hp; try done. injection Hl as Hl.
  change (mjoin (be 4 <$> c :: cs)) with (be 4 c ++ mjoin (be 4 <$> cs)) in Hc. change (mjoin (p :: ps)) with (p ++ mjoin ps) in Hp.
  apply rd_app in Hc as [Hc1 Hc2]. apply rd_app in Hp as [Hp1 Hp2]. rewrite zlen_be in Hc1, Hc2.
  change (zlen <$> p :: ps) with (zlen p :: (zlen <$> ps)). cbn [frame_vec gather load iov_base iov_len]. unfold crcSZ at 1. change 4 with (Z.of_nat 4) at 1. rewrite Hc1, bind_Ok. cbn [load iov_base iov_len].
  rewrite Hp1, bind_Ok, (IH cs), !bind_Ok; [|done| |].
  - cbn [zip_with]. by rewrite mjoin_cons, <- app_assoc.
  - rewrite <- Hc2. f_equal. unfold crcSZ. lia.
  - rewrite <- Hp2. f_equal. lia.
Qed.

(** ** The vector of a part *)

(** The offsets of the pieces are where the lengths before them end. *)
Lemma sum_lens_before o D (i : nat) po p : pieces o D !! i = Some (po, p) -> sum_len (take i (lens_of o D)) = po - o.
Proof.
  revert po p. induction i as [|i IH]; intros po p Hi.
  - destruct (pieces_lookup _ _ _ _ _ Hi) as (Hpo & _). change (sum_len (take 0 _)) with 0. rewrite decide_True in Hpo by done. lia.
  - destruct (lookup_lt_is_Some_2 (pieces o D) i) as [[po' p'] Hi']; [apply lookup_lt_Some in Hi; lia|].
    rewrite (take_S_r _ _ (zlen p')) by (unfold lens_of; by rewrite list_lookup_fmap, Hi'). rewrite sum_len_app, (IH _ _ Hi'). change (sum_len [zlen p']) with (zlen p' + 0).
    destruct (pieces_next _ _ _ _ _ Hi') as [(Hl & _)|(q & Hq & _)]; [apply lookup_lt_Some in Hi; lia|]. rewrite Hi in Hq. injection Hq as -> _. lia.
Qed.

(** The length of the last piece. *)
Lemma last_len_piece o D (i : nat) po p : pieces o D !! i = Some (po, p) -> S i = length (pieces o D) -> last_len o (zlen D) = zlen p.
Proof.
  intros Hi Hl. destruct (pieces_next _ _ _ _ _ Hi) as [(_ & He)|(q & Hq & _)]; [|apply lookup_lt_Some in Hq; lia].
  destruct (pieces_lookup _ _ _ _ _ Hi) as (Hpo & _ & Hne & Htb & _). pose proof (zlen_pos p Hne). pose proof (to_boundary_range o). pose proof (aligned_next o).
  unfold last_len. destruct (decide (i = 0%nat)) as [->|Hi0].
  - cbn in Hpo. subst po. rewrite (proj2 (Z.leb_le _ _)) by lia. lia.
  - rewrite (proj2 (Z.leb_gt _ _)) by (unfold PageSize in *; lia). assert (po mod PageSize = 0) as Hal by (rewrite Hpo; unfold PageSize in *; lia_div).
    rewrite (to_boundary_aligned po Hal) in Htb. unfold PageSize in *. lia_div.
Qed.

(** The vector of [do_PgRIO] for [N] pages at [a]; the data of the first one begins at [x]. *)
Record riov (N a x : Z) (v : list iovec) : Prop := {
  riov_len : zlen v = 2 * N;
  riov_cs : forall j : nat, Z.of_nat j < N -> v !! (2 * j)%nat = Some (MkIov (PCs (crcSZ * Z.of_nat j)) crcSZ);
  riov_first : exists n, v !! 1%nat = Some (MkIov (PHeap x) n);
  riov_data : forall j : nat, (0 < j)%nat -> Z.of_nat j < N -> v !! (2 * j + 1)%nat = Some (MkIov (PHeap (a + PageSize * Z.of_nat j)) PageSize) }.

(** The vector as a part is sent. *)
Definition part_iov (o n : Z) (v : list iovec) : list iovec :=
  let v := iov_upd 1 (set_len (Z.min n (to_boundary o))) v in
  if 1 <? npieces o n then iov_upd (2 * npieces o n - 1) (set_len (last_len o n)) v else v.

Lemma riov_set N a x x' n v : 1 <= N -> riov N a x v -> riov N a x' (iov_upd 1 (fun _ => MkIov (PHeap x') n) v) /\ riov N a x (iov_upd 1 (set_len n) v).
Proof.
  intros HN [Hl Hc (n0 & H1) Hd]. assert (forall f, iov_upd 1 f v !! 1%nat = Some (f (MkIov (PHeap x) n0))) as Hat.
  { intros f. change 1%nat with (Z.to_nat 1). rewrite lookup_iov_upd by lia. change (Z.to_nat 1) with 1%nat. by rewrite H1. }
  assert (forall f (k : nat), k <> 1%nat -> iov_upd 1 f v !! k = v !! k) as Hne by (intros f k Hk; apply lookup_iov_upd_ne; lia).
  split; (split; [by rewrite length_iov_upd|intros j Hj; rewrite Hne by lia; by apply Hc|rewrite Hat; by eexists|intros j Hj0 Hj; rewrite Hne by lia; by apply Hd]).
Qed.

Lemma part_iov_lookup N a o D v : 0 <= o -> D <> [] -> npieces o (zlen D) <= N -> riov N a (a + o mod PageSize) v -> forall (i : nat) po p, pieces o D !! i = Some (po, p) ->
  part_iov o (zlen D) v !! (2 * i)%nat = Some (MkIov (PCs (crcSZ * Z.of_nat i)) crcSZ) /\
  part_iov o (zlen D) v !! (2 * i + 1)%nat = Some (MkIov (PHeap (a + o mod PageSize + (po - o))) (zlen p)).
Proof.
  intros Ho HD HN [Hl Hc (n0 & H1) Hd] i po p Hi. pose proof (zlen_pos D HD) as Hp. pose proof (npieces_pos o (zlen D) Hp) as Hn1. pose proof (length_pieces o D Ho HD) as Hlp.
  pose proof (lookup_lt_Some _ _ _ Hi) as Hlt. destruct (pieces_lookup _ _ _ _ _ Hi) as (Hpo & _ & _ & Htb & _ & Hend & Hfull). pose proof (to_boundary_range o) as Htr.
  set (n := npieces o (zlen D)) in *. unfold part_iov. fold n.
  assert (forall f (k : nat), k <> 1%nat -> iov_upd 1 f v !! k = v !! k) as Hne by (intros f k Hk; apply lookup_iov_upd_ne; lia).
  assert (iov_upd 1 (set_len (Z.min (zlen D) (to_boundary o))) v !! 1%nat = Some (MkIov (PHeap (a + o mod PageSize)) (Z.min (zlen D) (to_boundary o)))) as Hat.
  { change 1%nat with (Z.to_nat 1). rewrite lookup_iov_upd by lia. change (Z.to_nat 1) with 1%nat. by rewrite H1. }
  assert (forall k : nat, Z.of_nat k <> 2 * n - 1 -> (if 1 <? n then iov_upd (2 * n - 1) (set_len (last_len o (zlen D))) (iov_upd 1 (set_len (Z.min (zlen D) (to_boundary o))) v)
    else iov_upd 1 (set_len (Z.min (zlen D) (to_boundary o))) v) !! k = iov_upd 1 (set_len (Z.min (zlen D) (to_boundary o))) v !! k) as Hother.
  { intros k Hk. destruct (1 <? n); [|done]. apply lookup_iov_upd_ne; lia. }
  split; [rewrite Hother, Hne by lia; apply Hc; lia|]. destruct (decide (i = 0%nat)) as [->|Hi0].
  - change (2 * 0 + 1)%nat with 1%nat. cbn in Hpo. subst po. assert (zlen p = Z.min (zlen D) (to_boundary o)) as Hz.
    { destruct (pieces_next _ _ _ _ _ Hi) as [(_ & He)|(q & Hq & _)]; [lia|]. apply lookup_lt_Some in Hq. specialize (Hfull Hq). lia. }
    rewrite Z.sub_diag, Z.add_0_r. destruct (Z.ltb_spec 1 n) as [Hgt|Hle]; [rewrite lookup_iov_upd_ne by lia|]; by rewrite Hat, <- Hz.
  - assert (a + o mod PageSize + (po - o) = a + PageSize * Z.of_nat i) as -> by (rewrite Hpo; unfold to_boundary; lia).
    assert (1 < n) as Hn by lia. rewrite (proj2 (Z.ltb_lt _ _)) by done. assert (PageSize = to_boundary po) as Hal.
    { symmetry. apply to_boundary_aligned. rewrite Hpo. pose proof (aligned_next o). unfold PageSize in *. lia_div. }
    destruct (decide (S i = length (pieces o D))) as [El|El].
    + replace (2 * i + 1)%nat with (Z.to_nat (2 * n - 1)) by lia. rewrite lookup_iov_upd by (rewrite ?length_iov_upd; lia). rewrite Hne by lia.
      replace (Z.to_nat (2 * n - 1)) with (2 * i + 1)%nat by lia. rewrite Hd by lia. cbn. by rewrite (last_len_piece _ _ _ _ _ Hi El).
    + rewrite lookup_iov_upd_ne by lia. rewrite Hne, Hd by lia. rewrite Hfull, <- Hal by lia. done.
Qed.

Lemma part_iov_vec N a o (D : list Z) v : 0 <= o -> D <> [] -> npieces o (zlen D) <= N -> riov N a (a + o mod PageSize) v ->
  take (Z.to_nat (2 * npieces o (zlen D))) (part_iov o (zlen D) v) = frame_vec 0 (a + o mod PageSize) (lens_of o D).
Proof.
  intros Ho HD HN Hr. pose proof (length_pieces o D Ho HD) as Hlp. pose proof (npieces_pos o (zlen D) (zlen_pos D HD)).
  replace (Z.to_nat (2 * npieces o (zlen D))) with (2 * length (lens_of o D))%nat by (rewrite length_lens_of; lia).
  change (take (2 * length (lens_of o D)) (drop (2 * 0) (part_iov o (zlen D) v)) = frame_vec (Z.of_nat 0) (a + o mod PageSize) (lens_of o D)).
  apply frame_vec_lookup. intros i l Hi. unfold lens_of in Hi. rewrite list_lookup_fmap in Hi. destruct (pieces o D !! i) as [[po p]|] eqn:E; [|done]. injection Hi as <-.
  rewrite (sum_lens_before _ _ _ _ _ E). by apply part_iov_lookup with (N := N).
Qed.

(** Behind a part that ends with a page the vector is ready for the next one. *)
Lemma part_iov_next N a o (D : list Z) v : 0 <= o -> D <> [] -> npieces o (zlen D) <= N -> riov N a (a + o mod PageSize) v -> (o + zlen D) mod PageSize = 0 ->
  riov N a a (if o mod PageSize =? 0 then part_iov o (zlen D) v else iov_upd 1 (fun _ => MkIov (PHeap a) PageSize) (part_iov o (zlen D) v)).
Proof.
  intros Ho HD HN Hr Hal. pose proof (npieces_pos o (zlen D) (zlen_pos D HD)) as Hn1. pose proof (zlen_pos D HD).
  assert (riov N a (a + o mod PageSize) (part_iov o (zlen D) v)) as Hp.
  { unfold part_iov. destruct (riov_set N a (a + o mod PageSize) 0 (Z.min (zlen D) (to_boundary o)) v ltac:(lia) Hr) as [_ [Hl Hc Hf Hd]].
    destruct (Z.ltb_spec 1 (npieces o (zlen D))) as [Hgt|Hle]; [|by split].
    assert (last_len o (zlen D) = PageSize) as ->.
    { assert (to_boundary o < zlen D) by (destruct (decide (zlen D <= to_boundary o)) as [E|E]; [apply npieces_1 in E; lia|lia]).
      rewrite last_len_mod by done. unfold PageSize in *. lia_div. }
    set (w := iov_upd 1 _ v) in *. set (n := npieces o (zlen D)) in *. split.
    - by rewrite length_iov_upd.
    - intros j Hj. rewrite lookup_iov_upd_ne by lia. by apply Hc.
    - rewrite lookup_iov_upd_ne by lia. done.
    - intros j Hj0 Hj. destruct (decide (Z.of_nat j = n - 1)) as [E|E]; [|rewrite lookup_iov_upd_ne by lia; by apply Hd].
      replace (2 * j + 1)%nat with (Z.to_nat (2 * n - 1)) by lia. rewrite lookup_iov_upd by lia. replace (Z.to_nat (2 * n - 1)) with (2 * j + 1)%nat by lia. rewrite Hd by lia. done. }
  destruct (Z.eqb_spec (o mod PageSize) 0) as [E|E]; [by rewrite E, Z.add_0_r in Hp|]. by apply (riov_set N a _ a PageSize _ ltac:(lia) Hp).
Qed.

(** ** The loop *)

Lemma lens_of_snd o D : lens_of o D = zlen <$> (snd <$> pieces o D).
Proof. unfold lens_of. by rewrite <- list_fmap_compose. Qed.

Lemma wire_snd o D cs : wire o D cs = mjoin (zip_with (fun p c => be 4 c ++ p) (snd <$> pieces o D) cs).
Proof. unfold wire. by rewrite zip_with_fmap_l. Qed.

Section loop.
Context (sysIovMax maxBuffsz : Z) {F : Type} `{HF : SfsReaderOk F} `{BuffPool}.
Implicit Types s : Prot (F := F).

(** What a read does not touch. *)
Record kept s s' : Prop := {
  kept_ctl : p_ctl s' = p_ctl s; kept_fob : p_fob s' = p_fob s; kept_net : p_net s' = p_net s; kept_status : p_status s' = p_status s;
  kept_resume : p_resume s' = p_resume s; kept_cs : csMem (p_mem s') = csMem (p_mem s) }.

Lemma kept_trans s1 s2 s3 : kept s1 s2 -> kept s2 s3 -> kept s1 s3.
Proof. intros [] []. split; congruence. Qed.

(** The variables of the loop, for parts of at most [N] pages. *)
Record reading (N : Z) (iov : list iovec) (buff : ptr) (rLen pgOff : Z) (M : mem) s : Prop := {
  rd_N : 1 <= N; rd_o : 0 <= Offset (p_io s); rd_n : 0 < IOLen (p_io s);
  rd_iov : riov N (bufAt M) (bufAt M + Offset (p_io s) mod PageSize) iov; rd_buff : buff = PHeap (bufAt M + Offset (p_io s) mod PageSize);
  rd_off : pgOff = Offset (p_io s) mod PageSize; rd_len : rLen = Z.min (IOLen (p_io s)) (N * PageSize - Offset (p_io s) mod PageSize);
  rd_cs : 4 * N <= zlen (csMem M); rd_buf : N * PageSize <= zlen (bufMem M) }.

Lemma reading_store N iov buff rLen pgOff M s rc D cs f' v : reading N iov buff rLen pgOff M s -> pgRead (p_file s) (Offset (p_io s)) rLen v = (rc, D, cs, f') ->
  0 < rLen /\ rc <= rLen /\ store buff D M = Ok (MkMem (csMem M) (bufAt M) (paste (Offset (p_io s) mod PageSize) D (bufMem M))) /\
  Offset (p_io s) mod PageSize + zlen D <= zlen (bufMem M).
Proof.
  intros [HN Ho Hn Hv -> _ -> Hcs Hb] Hrd. set (o := Offset (p_io s)) in *. assert (0 <= o mod PageSize < PageSize) as Hm by (unfold PageSize; lia_div).
  assert (0 < Z.min (IOLen (p_io s)) (N * PageSize - o mod PageSize)) as Hr by (unfold PageSize in *; lia).
  destruct (pgRead_ok _ _ _ _ _ _ _ _ Hrd Hr) as (Hrc & Hz & _). split_and!; [done|done| |lia].
  cbn [store]. rewrite put_paste by lia. rewrite bind_Ok. do 3 f_equal. lia.
Qed.

(** One part is gathered from the memory. *)
Lemma part_units N iov M o D cs buf : 0 <= o -> D <> [] -> npieces o (zlen D) <= N -> riov N (bufAt M) (bufAt M + o mod PageSize) iov -> length cs = length (pieces o D) ->
  4 * N <= zlen (csMem M) -> o mod PageSize + zlen D <= zlen buf -> let M1 := MkMem (csMem M) (bufAt M) (paste (o mod PageSize) D buf) in
  exists M2, store (PCs 0) (mjoin (be 4 <$> take (Z.to_nat (npieces o (zlen D))) cs)) M1 = Ok M2 /\
    gather (take (Z.to_nat (2 * npieces o (zlen D))) (part_iov o (zlen D) iov)) M2 = Ok (wire o D cs) /\
    bufAt M2 = bufAt M /\ zlen (csMem M2) = zlen (csMem M) /\ zlen (bufMem M2) = zlen buf.
Proof.
  intros Ho HD HN Hv Hl Hcs Hb M1. pose proof (length_pieces o D Ho HD) as Hlp. assert (0 <= o mod PageSize) by (unfold PageSize; lia_div).
  rewrite take_ge by lia. assert (zlen (mjoin (be 4 <$> cs)) <= zlen (csMem M)) as Hz by (rewrite zlen_be_all; unfold zlen in *; lia).
  exists (MkMem (paste 0 (mjoin (be 4 <$> cs)) (csMem M)) (bufAt M) (paste (o mod PageSize) D buf)). split_and!.
  - cbn [store M1 csMem]. by rewrite put_paste by lia.
  - rewrite (part_iov_vec N (bufAt M)) by done. rewrite lens_of_snd, wire_snd. apply (gather_units (snd <$> pieces o D) cs 0).
    + by rewrite length_fmap.
    + cbn [csMem]. rewrite Z.mul_0_r. apply rd_paste; lia.
    + cbn [bufAt bufMem]. rewrite pieces_join. replace (bufAt M + o mod PageSize - bufAt M) with (o mod PageSize) by lia. by apply rd_paste.
  - done.
  - cbn [csMem]. apply zlen_paste; lia.
  - cbn [bufMem]. by apply zlen_paste.
Qed.

Lemma PgRIO_loop_spec fuel N v iov buff rLen pgOff M s : reading N iov buff rLen pgOff M s -> (Z.to_nat (IOLen (p_io s)) < fuel)%nat ->
  exists s', PgRIO_loop fuel (N * PageSize) v iov buff rLen pgOff M s = Ok (0, s') /\ kept s s' /\
    let r := read_parts fuel (N * PageSize) v (p_file s) (Offset (p_io s)) (IOLen (p_io s)) rLen in p_sent s' = p_sent s ++ r.1 /\ p_file s' = r.2.
Proof.
  revert iov buff rLen pgOff M s. induction fuel as [|fuel IH]; intros iov buff rLen pgOff M s Hr Hf; [lia|]. cbn [PgRIO_loop read_parts].
  destruct (pgRead (p_file s) (Offset (p_io s)) rLen v) as [[[rc D] cs] f'] eqn:Hrd.
  destruct (reading_store _ _ _ _ _ _ _ _ _ _ _ _ Hr Hrd) as (Hpos & Hle & -> & Hfit). rewrite bind_Ok.
  destruct Hr as [HN Ho Hn Hv Hbuff Hoff Hlen Hcs Hb]. set (o := Offset (p_io s)) in *. set (n := IOLen (p_io s)) in *.
  destruct (Z.leb_spec rc 0) as [Hrc|Hrc].
  { unfold PgRIO_end. destruct (Z.ltb_spec rc 0), (Z.eqb_spec rc 0); try lia; eexists; (split; [done|]); (split; [done|split; done]). }
  rewrite (proj2 (Z.ltb_ge rc 0)), (proj2 (Z.eqb_neq rc 0)) by lia.
  destruct (pgRead_ok _ _ _ _ _ _ _ _ Hrd Hpos) as (_ & _ & Hok). destruct (Hok Hrc) as (Hz & Hl & Hw). clear Hok.
  assert (D <> []) as HD by (intros ->; change (zlen []) with 0 in Hz; lia). rewrite csNum_lengths_spec by lia. rewrite <- Hz in *. clear rc Hz.
  assert (npieces o (zlen D) <= N) as Hnp by (apply cap_npieces; [done|done|unfold cap; lia]). fold (part_iov o (zlen D) iov).
  destruct (part_units N iov M o D cs (bufMem M) Ho HD Hnp Hv Hl Hcs Hfit) as (M2 & -> & Hg & HM1 & HM2 & HM3). rewrite bind_Ok. fold (part_iov o (zlen D) iov). rewrite Hg, bind_Ok.
  destruct ((zlen D <? rLen) || (zlen D =? n)) eqn:Efin.
  - cbn [Send]. destruct (if pgOff =? 0 then _ else _) as [[iov' buff'] pgOff']. cbn [p_io set_io set_file IOLen]. change (0 <? 0) with false. cbv iota.
    unfold PgRIO_end. rewrite (proj2 (Z.ltb_ge _ _)) by lia. eexists. split; [done|]. split; [done|]. split; done.
  - apply orb_false_iff in Efin as [E1 E2]. apply Z.ltb_ge in E1. apply Z.eqb_neq in E2. assert (zlen D = rLen) as Hfull by lia.
    assert (rLen = N * PageSize - o mod PageSize /\ rLen < n) as [HrL Hrn] by lia.
    assert ((o + zlen D) mod PageSize = 0) as Hal by (rewrite Hfull, HrL; unfold PageSize; lia_div).
    cbn [Send]. match goal with |- context [IOLen (p_io ?x)] => set (s1 := x) end.
    assert (exists iov' , (if pgOff =? 0 then (part_iov o (zlen D) iov, buff, pgOff) else (iov_upd 1 (fun _ => MkIov (PHeap (bufAt M2)) PageSize) (part_iov o (zlen D) iov), PHeap (bufAt M2), 0)) =
      (iov', PHeap (bufAt M2), 0) /\ riov N (bufAt M2) (bufAt M2) iov') as (iov' & -> & Hv').
    { pose proof (part_iov_next N (bufAt M) o D iov Ho HD Hnp Hv Hal) as Hv'. rewrite <- HM1 in Hv'. rewrite <- Hoff in Hv' at 1. rewrite Hbuff, Hoff, HM1. rewrite HM1, Hoff in Hv'.
      destruct (Z.eqb_spec (o mod PageSize) 0) as [E|E]; [rewrite E, Z.add_0_r|]; by eexists. }
    change (IOLen (p_io s1)) with (n - zlen D). rewrite (proj2 (Z.ltb_lt _ _)) by lia.
    assert ((if n - zlen D <? N * PageSize then n - zlen D else N * PageSize) = Z.min (n - zlen D) (N * PageSize)) as Hmin by (destruct (Z.ltb_spec (n - zlen D) (N * PageSize)); lia).
    cbn [IOLen]. rewrite Hmin. destruct (IH iov' (PHeap (bufAt M2)) (Z.min (n - zlen D) (N * PageSize)) 0 M2 s1) as (s' & -> & Hk & Hs & Hf').
    + split; cbn; rewrite ?Hal, ?Z.add_0_r, ?Z.sub_0_r; (done || lia).
    + cbn. lia.
    + exists s'. split; [done|]. split; [destruct Hk; by split|]. cbn [p_sent p_file p_io s1 Offset IOLen set_io set_file] in Hs, Hf'.
      destruct (read_parts fuel (N * PageSize) v f' (o + zlen D) (n - zlen D) (Z.min (n - zlen D) (N * PageSize))) as [l f2]. cbn [fst snd] in *. split; [by rewrite Hs, <- app_assoc|done].
Qed.

(** ** The request *)

Lemma read_iov_riov N a : 1 <= N -> riov N a a (read_iov N a).
Proof.
  intros HN. unfold read_iov. set (f := fun j => [MkIov (PCs (crcSZ * j)) crcSZ; MkIov (PHeap (a + PageSize * j)) PageSize]).
  assert (forall (n : nat) i (j : nat), (j < n)%nat -> mjoin (f <$> seqZ i (Z.of_nat n)) !! (2 * j)%nat = Some (MkIov (PCs (crcSZ * (i + Z.of_nat j))) crcSZ) /\
    mjoin (f <$> seqZ i (Z.of_nat n)) !! (2 * j + 1)%nat = Some (MkIov (PHeap (a + PageSize * (i + Z.of_nat j))) PageSize)) as Hat.
  { induction n as [|n IH]; intros i j Hj; [lia|]. rewrite seqZ_cons by lia. replace (Z.pred (Z.of_nat (S n))) with (Z.of_nat n) by lia. rewrite fmap_cons.
    change (mjoin (f i :: ?l)) with (f i ++ mjoin l). destruct j as [|j]; [by rewrite Z.add_0_r|]. replace (2 * S j)%nat with (2 + 2 * j)%nat by lia. rewrite <- Nat.add_assoc.
    rewrite !lookup_app_r by (cbn; lia). replace (2 + 2 * j - length (f i))%nat with (2 * j)%nat by (cbn; lia). replace (2 + (2 * j + 1) - length (f i))%nat with (2 * j + 1)%nat by (cbn; lia).
    replace (i + Z.of_nat (S j)) with (Z.succ i + Z.of_nat j) by lia. apply IH. lia. }
  assert (forall (n : nat) i, zlen (mjoin (f <$> seqZ i (Z.of_nat n))) = 2 * Z.of_nat n) as Hlen.
  { induction n as [|n IH]; intros i; [done|]. rewrite seqZ_cons by lia. replace (Z.pred (Z.of_nat (S n))) with (Z.of_nat n) by lia. rewrite fmap_cons.
    change (mjoin (f i :: ?l)) with (f i ++ mjoin l). rewrite zlen_app, IH. change (zlen (f i)) with 2. lia. }
  replace N with (Z.of_nat (Z.to_nat N)) at 2 by lia. split.
  - rewrite Hlen. lia.
  - intros j Hj. destruct (Hat (Z.to_nat N) 0 j ltac:(lia)) as [-> _]. by rewrite Z.add_0_l.
  - destruct (Hat (Z.to_nat N) 0 0%nat ltac:(lia)) as [_ Hd]. rewrite Z.mul_0_r, Z.add_0_r in Hd. by eexists.
  - intros j _ Hj. destruct (Hat (Z.to_nat N) 0 j ltac:(lia)) as [_ ->]. by rewrite Z.add_0_l.
Qed.

Lemma read_buffer s Quantum : (exists a l, Obtain Quantum = Some (a, l)) ->
  exists M x, (if negb (p_argp s) || (Quantum <? halfBSize (p_bctl s)) || (bsize s <? Quantum) then getBuff true Quantum s
    else if hcNow (p_bctl s) <? hcNext (p_bctl s) then
      (1, set_argp (p_argp s) (p_mem s) (MkBuffCtl (halfBSize (p_bctl s)) (hcPrev (p_bctl s)) (hcNow (p_bctl s) + 1) (hcNext (p_bctl s)) (hcMax (p_bctl s))) s)
    else (1, s)) = (1, set_argp true M x s) /\ csMem M = csMem (p_mem s) /\ Quantum <= zlen (bufMem M).
Proof.
  intros Ho. destruct (negb (p_argp s) || (Quantum <? halfBSize (p_bctl s)) || (bsize s <? Quantum)) eqn:E; [by apply getBuff_spec|].
  apply orb_false_iff in E as [E E2]. apply orb_false_iff in E as [E1 _]. apply negb_false_iff in E1. apply Z.ltb_ge in E2. unfold bsize in E2.
  destruct (hcNow (p_bctl s) <? hcNext (p_bctl s)); [rewrite E1; eexists (p_mem s), _|exists (p_mem s), (p_bctl s)]; (split_and!; [|done|done]); [done|]. rewrite <- E1 at 1. by destruct s.
Qed.

Definition maxPages : Z := maxCSSZ sysIovMax.

(** The buffers: their size is configured in pages, and the pool has them. *)
Record buffers_ok : Prop := {
  bo_iov : 4 <= sysIovMax < 2 ^ 19; bo_size : PageSize <= maxBuffsz; bo_pages : maxBuffsz mod PageSize = 0;
  bo_pool : forall sz, 0 < sz <= maxPages * PageSize -> exists a l, Obtain sz = Some (a, l) }.

(** The number of pages of a part, and the buffer for it. *)
Lemma quantum_ok o n : buffers_ok -> 0 <= o -> 0 < n <= 2 ^ 31 - 2 * PageSize -> let rPages := i32 (csNum o n * PageSize) in
  let Q := if maxBuffsz <? maxPGRD sysIovMax then maxBuffsz else maxPGRD sysIovMax in let Q := if rPages <? Q then rPages else Q in
  exists N, Q = N * PageSize /\ 1 <= N <= maxPages.
Proof.
  intros [Hiov Hs Hp _] Ho [Hn Hmax] rPages Q0 Q. assert (1 <= csNum o n /\ csNum o n * PageSize <= n + 2 * PageSize - 2) as Hc.
  { rewrite csNum_npages by done. unfold npages. unfold PageSize in *. lia_div. }
  assert (rPages = csNum o n * PageSize) as Hr.
  { unfold rPages, i32. change (2 ^ 31) with 2147483648 in *. change (2 ^ 32) with 4294967296. unfold PageSize in *. rewrite Z.mod_small; lia. }
  assert (1 <= maxPages) as HP by (unfold maxPages, maxCSSZ; rewrite Z.quot_div_nonneg by lia; lia_div).
  unfold maxPGRD in Q0. fold maxPages in Q0. assert (exists N0, Q0 = N0 * PageSize /\ 1 <= N0 <= maxPages) as (N0 & -> & HN0).
  { unfold Q0. destruct (Z.ltb_spec maxBuffsz (maxPages * PageSize)); [exists (maxBuffsz / PageSize); unfold PageSize in *; lia_div|exists maxPages; lia]. }
  unfold Q. rewrite Hr. destruct (Z.ltb_spec (csNum o n * PageSize) (N0 * PageSize)); [exists (csNum o n)|exists N0]; unfold PageSize in *; lia.
Qed.

Lemma PgRIO_spec s : buffers_ok -> 0 <= Offset (p_io s) -> 0 < IOLen (p_io s) <= 2 ^ 31 - 2 * PageSize ->
  exists N s', 1 <= N <= maxPages /\ do_PgRIO sysIovMax maxBuffsz s = Ok (0, s') /\ kept s s' /\
    let o := Offset (p_io s) in let n := IOLen (p_io s) in
    let r := read_parts (S (Z.to_nat n)) (N * PageSize) (isRetry (p_io s)) (p_file s) o n (Z.min n (N * PageSize - o mod PageSize)) in
    p_sent s' = p_sent s ++ r.1 /\ p_file s' = r.2.
Proof.
  intros Hbo Ho Hn. destruct (quantum_ok _ _ Hbo Ho Hn) as (N & HQ & HN). unfold do_PgRIO. rewrite HQ.
  destruct (read_buffer s (N * PageSize)) as (M & x & -> & HM1 & HM2); [apply (bo_pool Hbo); unfold PageSize in *; nia|].
  change (1 <=? 0) with false. cbv iota. set (s1 := set_argp true M x s).
  assert (exists N', (if maxPGRD sysIovMax <? bsize s1 then maxPGRD sysIovMax else N * PageSize) = N' * PageSize /\ 1 <= N' <= maxPages /\ N' * PageSize <= zlen (bufMem M)) as (N' & -> & HN' & HM2').
  { unfold bsize. change (p_mem s1) with M. unfold maxPGRD. fold maxPages. destruct (Z.ltb_spec (maxPages * PageSize) (zlen (bufMem M))); [exists maxPages|exists N]; split_and!; (done || lia). }
  rewrite Z.quot_mul by done. fold maxPages. rewrite (proj2 (Z.ltb_ge _ _)) by lia. change (p_mem s1) with M. rewrite pgOff_mod by done. set (o := Offset (p_io s)) in *.
  assert (0 <= o mod PageSize < PageSize) as Hm by (unfold PageSize; lia_div).
  assert (exists iov, (if o mod PageSize =? 0 then (read_iov N' (bufAt M), PHeap (bufAt M), N' * PageSize)
      else (iov_upd 1 (fun _ => MkIov (PHeap (bufAt M + o mod PageSize)) (PageSize - o mod PageSize)) (read_iov N' (bufAt M)), PHeap (bufAt M + o mod PageSize), PageSize - o mod PageSize + (N' * PageSize - PageSize))) =
    (iov, PHeap (bufAt M + o mod PageSize), N' * PageSize - o mod PageSize) /\ riov N' (bufAt M) (bufAt M + o mod PageSize) iov) as (iov & -> & Hv).
  { pose proof (read_iov_riov N' (bufAt M) ltac:(lia)) as Hv. destruct (Z.eqb_spec (o mod PageSize) 0) as [E|E]; [rewrite E, Z.add_0_r, Z.sub_0_r; by eexists|].
    eexists. split; [do 2 f_equal; lia|]. by apply (riov_set N' (bufAt M) (bufAt M)); [lia|]. }
  assert ((if IOLen (p_io s) <? N' * PageSize - o mod PageSize then IOLen (p_io s) else N' * PageSize - o mod PageSize) = Z.min (IOLen (p_io s)) (N' * PageSize - o mod PageSize)) as -> by (destruct (Z.ltb_spec (IOLen (p_io s)) (N' * PageSize - o mod PageSize)); lia).
  destruct (PgRIO_loop_spec (S (Z.to_nat (IOLen (p_io s)))) N' (isRetry (p_io s)) iov (PHeap (bufAt M + o mod PageSize)) (Z.min (IOLen (p_io s)) (N' * PageSize - o mod PageSize)) (o mod PageSize)
    (MkMem (replicate (Z.to_nat (4 * maxPages)) 0) (bufAt M) (bufMem M)) s1) as (s' & -> & Hk & Hs).
  - split; try done; change (p_io s1) with (p_io s); try lia. cbn [csMem]. unfold zlen. rewrite length_replicate. lia.
  - change (p_io s1) with (p_io s). lia.
  - exists N', s'. split_and!; [lia|lia|done| |exact (proj1 Hs)|exact (proj2 Hs)]. destruct Hk as [K1 K2 K3 K4 K5 K6]. split; try done. by rewrite K6, <- HM1.
Qed.
End loop.

(** The size of the buffer is a product that overflows for the largest requests. *)
Example read_size_overflows : i32 (csNum 0 (2 ^ 31 - 1) * PageSize) = - 2 ^ 31.
Proof. reflexivity. Qed.

(** ** What the replies carry *)

(** The replies carry [B] with the checksums [cs], from the offset [o]: every part but the
    last ends with a page. *)
Inductive delivers : Z -> list Z -> list Z -> list Reply -> Prop :=
  | delivers_end o : delivers o [] [] [RPages true o []]
  | delivers_last o D cs : D <> [] -> length cs = length (pieces o D) -> delivers o D cs [RPages true o (wire o D cs)]
  | delivers_more o D cs B ds l : D <> [] -> length cs = length (pieces o D) -> (o + zlen D) mod PageSize = 0 -> delivers (o + zlen D) B ds l ->
      delivers o (D ++ B) (cs ++ ds) (RPages false o (wire o D cs) :: l).

(** A file with a content, which its reads give with the right checksums. *)
Class SfsContent (F : Type) `{SfsReader F} : Type := {
  contents : F -> Z -> Z;
  pgRead_content : forall f o n v rc D cs f', pgRead f o n v = (rc, D, cs, f') -> 0 < n ->
    (forall i, contents f' i = contents f i) /\
    (0 < rc -> Forall is_byte D /\ cs = piece_sums o D /\ forall i : nat, Z.of_nat i < rc -> D !! i = Some (contents f (o + Z.of_nat i))) }.

Lemma piece_sums_app o D B : 0 <= o -> (o + zlen D) mod PageSize = 0 -> piece_sums o (D ++ B) = piece_sums o D ++ piece_sums (o + zlen D) B.
Proof. intros Ho Hal. unfold piece_sums. by rewrite pieces_app, fmap_app. Qed.

Lemma length_piece_sums o D : length (piece_sums o D) = length (pieces o D).
Proof. apply length_fmap. Qed.

(** ** What a file gives *)

Section gives.
Context {F : Type} `{SfsReader F}.

(** [f'] is the file [f] after some reads. *)
Definition one_read (f f' : F) : Prop := exists o m v rc D cs, pgRead f o m v = (rc, D, cs, f').

(** The file [f], after some reads, returned [rc] when [m] bytes at [o] were asked for. *)
Definition gave (v : bool) (f : F) (o m rc : Z) : Prop :=
  exists f1 D cs f2, rtc one_read f f1 /\ 0 < m /\ pgRead f1 o m v = (rc, D, cs, f2).

(** The file gives all it is asked for up to its size [L], where it does not fail. *)
Definition reads_to_end (v : bool) (f : F) (L : Z) : Prop :=
  forall o m rc, 0 <= o -> gave v f o m rc -> 0 <= rc -> rc = Z.min m (Z.max 0 (L - o)).

Lemma gave_now v f o m rc D cs f' : 0 < m -> pgRead f o m v = (rc, D, cs, f') -> gave v f o m rc.
Proof. intros Hm E. exists f, D, cs, f'. split; [apply rtc_refl|done]. Qed.

Lemma gave_later v f o0 m0 rc0 D0 cs0 f' o m rc : pgRead f o0 m0 v = (rc0, D0, cs0, f') -> gave v f' o m rc -> gave v f o m rc.
Proof.
  intros E (f1 & D & cs & f2 & Hr & HE). exists f1, D, cs, f2. split; [|done]. eapply rtc_l; [|exact Hr]. by exists o0, m0, v, rc0, D0, cs0.
Qed.
End gives.

(** [l] is the content of the file from [o]: [n] bytes, or less where the file itself gave
    less than it was asked for; or it ends with an error that the file gave. *)
Definition carries {F} `{SfsReader F} (g : Z -> Z) (v : bool) (f : F) (o n : Z) (l : list Reply) : Prop :=
  (exists l' rc o1 m1, l = l' ++ [RFsError rc] /\ rc < 0 /\ o <= o1 < o + n /\ gave v f o1 m1 rc) \/
  exists B, delivers o B (piece_sums o B) l /\ zlen B <= n /\ Forall is_byte B /\ (forall i : nat, Z.of_nat i < zlen B -> B !! i = Some (g (o + Z.of_nat i))) /\
    (zlen B = n \/ exists o1 m1 rc, o <= o1 /\ 0 <= rc < m1 /\ gave v f o1 m1 rc /\ o1 + rc = o + zlen B) /\
    forall L, reads_to_end v f L -> zlen B = Z.min n (Z.max 0 (L - o)).

Lemma read_parts_carries {F} `{HF : SfsReaderOk F} `{!SfsContent F} fuel N v (f : F) o n : 1 <= N -> 0 <= o -> 0 < n -> (Z.to_nat n < fuel)%nat ->
  carries (contents f) v f o n (read_parts fuel (N * PageSize) v f o n (Z.min n (N * PageSize - o mod PageSize))).1.
Proof.
  intros HN. revert f o n. induction fuel as [|fuel IH]; intros f o n Ho Hn Hf; [lia|]. cbn [read_parts]. assert (0 <= o mod PageSize < PageSize) as Hm by (unfold PageSize; lia_div).
  set (m := Z.min n (N * PageSize - o mod PageSize)). assert (0 < m) as Hmp by (unfold m, PageSize in *; lia).
  destruct (pgRead f o m v) as [[[rc D] cs] f'] eqn:E. destruct (pgRead_ok _ _ _ _ _ _ _ _ E Hmp) as (Hrc & _ & Hok). destruct (pgRead_content _ _ _ _ _ _ _ _ E Hmp) as (Hsame & Hct).
  pose proof (gave_now v f o m rc D cs f' Hmp E) as Hg. assert (m <= n) as Hmn by (unfold m; lia).
  destruct (Z.ltb_spec rc 0) as [Hneg|Hnn]; [left; exists [], rc, o, m; split_and!; [done|done|lia|lia|done]|]. destruct (Z.eqb_spec rc 0) as [Hz|Hnz].
  { subst rc. right. exists []. change (zlen []) with 0. split_and!; [apply delivers_end|lia|constructor|lia| |].
    - right. exists o, m, 0. split_and!; [lia|lia|lia|done|lia].
    - intros L HL. specialize (HL o m 0 Ho Hg ltac:(lia)). lia. }
  destruct (Hok ltac:(lia)) as (HzD & Hl & _). destruct (Hct ltac:(lia)) as (Hby & -> & Hat). clear Hok Hct. subst rc.
  assert (D <> []) as HD by (intros ->; by change (zlen []) with 0 in Hnz). destruct ((zlen D <? m) || (zlen D =? n)) eqn:Efin.
  - right. exists D. split_and!; [by apply delivers_last|lia|done|done| |].
    + apply orb_true_iff in Efin as [E1%Z.ltb_lt|E2%Z.eqb_eq]; [right; exists o, m, (zlen D); split_and!; [lia|lia|lia|done|lia]|by left].
    + intros L HL. specialize (HL o m (zlen D) Ho Hg ltac:(lia)). apply orb_true_iff in Efin as [E1%Z.ltb_lt|E2%Z.eqb_eq]; lia.
  - apply orb_false_iff in Efin as [E1 E2]. apply Z.ltb_ge in E1. apply Z.eqb_neq in E2.
    assert (zlen D = N * PageSize - o mod PageSize /\ zlen D < n) as [HzD Hlt] by (unfold m in *; lia).
    assert ((o + zlen D) mod PageSize = 0) as Hal by (rewrite HzD; unfold PageSize; lia_div).
    specialize (IH f' (o + zlen D) (n - zlen D) ltac:(lia) ltac:(lia) ltac:(lia)). rewrite Hal, Z.sub_0_r in IH.
    destruct (read_parts fuel (N * PageSize) v f' (o + zlen D) (n - zlen D) (Z.min (n - zlen D) (N * PageSize))) as [l f2]. cbn [fst] in *.
    pose proof (fun o m rc => gave_later v f _ _ _ _ _ _ o m rc E) as Hlater.
    destruct IH as [(l' & rc & o1 & m1 & -> & Hrc' & Ho1 & Hg1)|(B & Hd & Hz & HbB & HB & Hwhy & Hsz)].
    { left. exists (RPages false o (wire o D (piece_sums o D)) :: l'), rc, o1, m1. split_and!; [done|done|lia|lia|by apply Hlater]. }
    right. exists (D ++ B). rewrite piece_sums_app by done. split_and!; [by apply delivers_more|rewrite zlen_app; lia|by apply Forall_app| | |].
    + intros i Hi. rewrite zlen_app in Hi. destruct (decide (Z.of_nat i < zlen D)) as [Hlo|Hhi]; [rewrite lookup_app_l by (unfold zlen in *; lia); by apply Hat|].
      rewrite lookup_app_r by (unfold zlen in *; lia). rewrite HB by (unfold zlen in *; lia). rewrite Hsame. do 2 f_equal. unfold zlen in *. lia.
    + rewrite zlen_app. destruct Hwhy as [?|(o1 & m1 & rc & H1 & H2 & Hg1 & H3)]; [left; lia|right; exists o1, m1, rc; split_and!; [lia|lia|lia|by apply Hlater|lia]].
    + intros L HL. rewrite zlen_app, (Hsz L); [specialize (HL o m (zlen D) Ho Hg ltac:(lia)); lia|]. intros o1 m1 rc Ho1 Hg1. apply HL; [done|by apply Hlater].
Qed.

(** A read with checksums, of any part of a file and whatever the file gives at a time,
    is answered with the content of the file in order, each piece behind its checksum, in
    partial results that end with a page and one final result, or with the error of the
    file; the buffer is large enough, and nothing else of the session changes. *)
Theorem read_serves sysIovMax maxBuffsz {F} `{HF : SfsReaderOk F} `{!SfsContent F} `{BuffPool} (s : Prot (F := F)) o n retry :
  buffers_ok sysIovMax maxBuffsz -> 0 <= o -> 0 < n <= 2 ^ 31 - 2 * PageSize ->
  exists s' l, do_PgRead sysIovMax maxBuffsz o n retry s = Ok (0, s') /\ kept s s' /\ p_sent s' = p_sent s ++ l /\ carries (contents (p_file s)) retry (p_file s) o n l.
Proof.
  intros Hbo Ho Hn. unfold do_PgRead. rewrite (proj2 (Z.leb_gt _ _)) by lia. set (s1 := set_io _ s).
  destruct (PgRIO_spec sysIovMax maxBuffsz s1 Hbo Ho Hn) as (N & s' & HN & -> & Hk & Hs & _). exists s'. eexists. split_and!; [done|destruct Hk; by split|exact Hs|].
  apply read_parts_carries; cbn; lia.
Qed.

(** ** A file of bytes, for the witness *)

(** It gives what there is up to its end; an offset below zero is an error. *)
Definition sample_read (f : list Z) (o n : Z) (verify : bool) : Z * list Z * list Z * list Z :=
  if o <? 0 then (-1, [], [], f) else let D := (fun x => x mod 256) <$> slice o n f in (zlen D, D, piece_sums o D, f).
#[export] Instance sample_reader : SfsReader (list Z) := { pgRead := sample_read }.

Lemma sample_bytes (l : list Z) : Forall is_byte ((fun x => x mod 256) <$> l).
Proof. apply Forall_fmap, Forall_true. intros i. unfold compose, is_byte. pose proof (Z.mod_pos_bound i 256). lia. Qed.

Lemma sample_length (f : list Z) o n : 0 <= o -> 0 <= n -> zlen ((fun x => x mod 256) <$> slice o n f) = Z.min n (Z.max 0 (zlen f - o)).
Proof. intros Ho Hn. unfold zlen, slice. rewrite length_fmap, length_take, length_drop. lia. Qed.

#[export] Instance sample_reader_ok : SfsReaderOk (list Z).
Proof.
  split. intros f o n v rc D cs f' E Hn. cbn in E. unfold sample_read in E. destruct (Z.ltb_spec o 0); injection E as <- <- <- <-; [change (zlen []) with 0; lia|].
  rewrite sample_length by lia. split; [lia|]. split; [lia|]. intros _. split; [done|]. split; [apply length_piece_sums|]. unfold piece_sums. apply Forall_fmap, Forall_lookup. intros i [po p] Hi.
  destruct (pieces_lookup _ _ _ _ _ Hi) as (_ & Hp & _). unfold compose. cbn [snd]. apply checksum_word. rewrite Hp. apply slice_bytes, sample_bytes.
Qed.
#[export] Instance sample_content : SfsContent (list Z).
Proof.
  refine {| contents := fun f i => default 0 (f !! Z.to_nat i) mod 256 |}. intros f o n v rc D cs f' E Hn. cbn in E. unfold sample_read in E.
  destruct (Z.ltb_spec o 0); injection E as <- <- <- <-; [split; [done|lia]|]. split; [done|]. intros _. split; [apply sample_bytes|]. split; [done|].
  intros i Hi. rewrite sample_length in Hi by lia. unfold slice. rewrite list_lookup_fmap, lookup_take, decide_True, lookup_drop by lia.
  replace (Z.to_nat (o + Z.of_nat i)) with (Z.to_nat o + i)%nat by lia. destruct (lookup_lt_is_Some_2 f (Z.to_nat o + i)) as [x ->]; [unfold zlen in *; lia|done].
Defined.

Lemma sample_gave v f o m rc : 0 <= o -> gave v f o m rc -> rc = Z.min m (Z.max 0 (zlen f - o)).
Proof.
  intros Ho (f1 & D & cs & f2 & Hr & Hm & E). assert (f1 = f) as ->.
  { induction Hr as [|x y z (o1 & m1 & v1 & rc1 & D1 & cs1 & E1)]; [done|]. cbn in E1. unfold sample_read in E1. rewrite IHHr by done. by destruct (o1 <? 0); injection E1. }
  cbn in E. unfold sample_read in E. rewrite (proj2 (Z.ltb_ge _ _)) in E by done. injection E as <- _ _ _. apply sample_length; lia.
Qed.

(** A file of a page and a byte, open. *)
Definition sample_page : list Z := replicate 4096 7 ++ [9].
Definition sample_open : Prot (F := list Z) :=
  MkProt (MkIO 0 0 false 0 0 "") None (MkMem [] 0 []) false (MkBuffCtl 0 1 1 1 8) None sample_page (MkGd 0 0 0 false) inNone ResumeNone [] [].

Lemma sample_buffers : buffers_ok 1024 2097152.
Proof. split; [lia|done|done|]. intros sz _. by eexists _, _. Qed.

(** A read of four bytes over the end of a page and of the file. *)
Lemma read_serves_witness : exists s' l, do_PgRead 1024 2097152 4094 4 false sample_open = Ok (0, s') /\ kept sample_open s' /\
  p_sent s' = p_sent sample_open ++ l /\ carries (contents (p_file sample_open)) false (p_file sample_open) 4094 4 l.
Proof. apply (read_serves 1024 2097152 sample_open 4094 4 false); [exact sample_buffers|lia|unfold PageSize; lia]. Defined.
