(* ===== verification/PgReader.v ===== *)
(** * How the client receives pages (XrdCl/XrdClAsyncPageReader.hh)

    A read is answered with several responses, each a part of the data with every piece
    behind its checksum. [AsyncPageReader] reads them from the socket into the buffer of the
    user and into the list of digests, with vectors of a limited size, from wherever the
    bytes before ended: the socket gives any number of them at a time. The digests are
    converted to host order in place, as they complete. *)

From stdpp Require Import base tactics list_numbers numbers option list strings gmap.
From S2P Require Import Prelude CrcRegister OucCRC32C CsiCrc PgrwUtils LinkData PgwCtl PgWire PgWrite PgServe PgSend PgRead.
#[local] Set Warnings "-clear-no-such-hyp".

(** ** The socket *)

(** What a call of [readv] finds: bytes, nothing yet, or an error *)
Inductive arrival : Type := AData (l : list Z) | ANone | AFail.

(** [Socket::ReadV( iov, iovcnt, bytesRead )] *)
Definition ReadV (v : list iovec) (net : list arrival) (M : mem) : res (sock_status * Z * list arrival * mem) :=
  match net with
  | [] => Ok (stRetry, 0, [], M)
  | ANone :: net => Ok (stRetry, 0, net, M)
  | AFail :: net => Ok (stError, 0, net, M)
  | AData a :: net =>
      let n := Z.to_nat (iov_total v) in
      match take n a with
      | [] => Ok (stError, 0, net, M)
      | got => M ← scatter v got M; Ok (stOK, zlen got, if drop n a is [] then net else AData (drop n a) :: net, M)
      end
  end.

(** ** The reader *)

(** [ChunkInfo]: the offset, the length and the address of the buffer *)
Record Chunk := MkChunk { ch_offset : Z; ch_length : Z; ch_buffer : Z }.

(** The fields of [AsyncPageReader] but for the list of chunks, and the size of the vector of
    digests, which is the [csMem] of the memory. [r_iov] has the elements of the vector from
    [iovindex] on: there are [iovcnt]. *)
Record PageReader := MkReader {
  r_dlen : Z; r_rspoff : Z; r_chindex : Z; r_choff : Z; r_dgindex : Z; r_dgoff : Z; r_iov : list iovec; r_iovindex : Z }.

Definition PageWithDigest : Z := PageSize + 4.

Section reader.
Context (m : machine) (max_iovcnt : Z) (chunks : list Chunk).

(** [AsyncPageReader( chunks, digests )], and the number of the digests *)
Definition digests_size : Z :=
  match chunks with [] => 0 | c :: _ => csNum (ch_offset c) (u32 (foldr (fun c n => ch_length c + n) 0 chunks)) end.
Definition new_reader : PageReader := MkReader 0 0 0 0 0 0 [] 0.

(** [SetRsp( rsp )]: the response has [dlen] bytes from the offset [rspoff] of the file *)
Fixpoint find_chunk (l : list Chunk) (i bufoff : Z) : Z * Z :=
  match l with
  | [] => (i, bufoff)
  | c :: l => if ch_length c <? bufoff then find_chunk l (i + 1) (bufoff - ch_length c) else (i, bufoff)
  end.
Definition SetRsp (dlen rspoff : Z) (r : PageReader) : res PageReader :=
  match chunks with
  | [] => Fault
  | c :: _ =>
      let '(chindex, choff) := find_chunk chunks 0 (u64 (rspoff - ch_offset c)) in
      Ok (MkReader (u32 dlen) rspoff chindex choff (u64 (Z.quot rspoff PageSize - Z.quot (ch_offset c) PageSize)) (r_dgoff r) (r_iov r) (r_iovindex r))
  end.

Definition chunk_at (i : Z) : res Chunk := match chunks !! Z.to_nat i with Some c => Ok c | None => Fault end.

(** [CalcRdSize()] *)
Definition CalcRdSize (r : PageReader) : res Z :=
  c ← chunk_at (r_chindex r);
  let pgspace := u32 (ch_length c - r_choff r) in
  let dgspace := u32 (4 * (digests_size - r_dgindex r) - r_dgoff r) in
  Ok (if u32 (pgspace + dgspace) <? r_dlen r then u32 (pgspace + dgspace) else r_dlen r).

(** The vector while it is filled: [dgbuf], [pgbuf] and [dleft] *)
Record Filling := MkFilling { f_iov : list iovec; f_dg : Z; f_pg : Z; f_left : Z }.

(** [addiov( dgbuf, len, dleft )], [addiov( pgbuf, len, dleft )] *)
Definition add_dg (len : Z) (f : Filling) : Filling :=
  let len := if f_left f <? len then f_left f else len in
  MkFilling (f_iov f ++ [MkIov (PCs (f_dg f)) len]) (f_dg f + len) (f_pg f) (f_left f - len).
Definition add_pg (len : Z) (f : Filling) : Filling :=
  let len := if f_left f <? len then f_left f else len in
  MkFilling (f_iov f ++ [MkIov (PHeap (f_pg f)) len]) (f_dg f) (f_pg f + len) (f_left f - len).
Definition filled (f : Filling) : bool := (f_left f =? 0) || (max_iovcnt <=? zlen (f_iov f)).

(** The loop over the full pages, and whether it returned. *)
Fixpoint fill_pages (n : nat) (f : Filling) : bool * Filling :=
  match n with
  | O => (false, f)
  | S n =>
      let f := add_dg 4 f in if filled f then (true, f)
      else let f := add_pg PageSize f in if filled f then (true, f) else fill_pages n f
  end.

Definition fill (fdglen fpglen : Z) (f : Filling) : Filling :=
  let f := add_dg fdglen f in
  if filled f then f
  else
    let f := add_pg fpglen f in
    if filled f then f
    else
      let '(stop, f) := fill_pages (Z.to_nat (Z.quot (f_left f) PageWithDigest)) f in
      if stop : bool then f
      else let f := add_dg 4 f in if filled f then f else add_pg (f_left f) f.

(** [InitIOV()] *)
Definition InitIOV (r : PageReader) : res PageReader :=
  dleft ← CalcRdSize r;
  c ← chunk_at (r_chindex r);
  let rdoff := ch_offset c + r_choff r in
  let f := fill (4 - r_dgoff r) (PageSize - rdoff mod PageSize) (MkFilling [] (4 * r_dgindex r + r_dgoff r) (ch_buffer c + r_choff r) dleft) in
  Ok (MkReader (r_dlen r) (r_rspoff r) (r_chindex r) (r_choff r) (r_dgindex r) (r_dgoff r) (f_iov f) 0).

(** [digests[i] = ntohl(digests[i])], in memory *)
Definition to_host (w : list Z) : list Z := if is_little m then rev w else w.
Definition digest_ntohl (i : Z) (M : mem) : res mem := w ← load (PCs (4 * i)) 4 M; store (PCs (4 * i)) (to_host w) M.

(** [shiftdgbuf( btsread )], [shiftpgbuf( btsread )]: what is left of [btsread] *)
Definition shiftdgbuf (n : Z) (r : PageReader) (M : mem) : res (Z * PageReader * mem) :=
  match r_iov r with
  | [] => Fault
  | e :: v =>
      if n <? iov_len e
      then Ok (0, MkReader (r_dlen r) (r_rspoff r) (r_chindex r) (r_choff r) (r_dgindex r) (r_dgoff r + n) (iov_shift n e :: v) (r_iovindex r), M)
      else
        M ← digest_ntohl (r_dgindex r) M;
        Ok (n - iov_len e, MkReader (r_dlen r) (r_rspoff r) (r_chindex r) (r_choff r) (r_dgindex r + 1) 0 v (r_iovindex r + 1), M)
  end.
Definition shiftpgbuf (n : Z) (r : PageReader) : res (Z * PageReader) :=
  match r_iov r with
  | [] => Fault
  | e :: v =>
      if n <? iov_len e
      then Ok (0, MkReader (r_dlen r) (r_rspoff r) (r_chindex r) (r_choff r + n) (r_dgindex r) (r_dgoff r) (iov_shift n e :: v) (r_iovindex r))
      else Ok (n - iov_len e, MkReader (r_dlen r) (r_rspoff r) (r_chindex r) (r_choff r + iov_len e) (r_dgindex r) (r_dgoff r) v (r_iovindex r + 1))
  end.

(** The loop of [ShiftIOV]: each turn ends it or leaves an element behind. *)
Fixpoint shift_loop (fuel : nat) (n : Z) (r : PageReader) (M : mem) : res (PageReader * mem) :=
  if n <=? 0 then Ok (r, M)
  else
    match fuel with
    | O => Diverge
    | S fuel =>
        '(n, r) ← shiftpgbuf n r;
        if n =? 0 then Ok (r, M) else '(n, r, M) ← shiftdgbuf n r M; shift_loop fuel n r M
    end.

(** [ShiftIOV( btsread )]; without elements left the vector is empty. *)
Definition ShiftIOV (n : Z) (r : PageReader) (M : mem) : res (PageReader * mem) :=
  '(n, r, M) ← if Z.even (r_iovindex r) then shiftdgbuf n r M else Ok (n, r, M);
  '(r, M) ← shift_loop (S (length (r_iov r))) n r M;
  c ← chunk_at (r_chindex r);
  Ok (if ch_length c <=? r_choff r
      then MkReader (r_dlen r) (r_rspoff r) (r_chindex r + 1) 0 (r_dgindex r) (r_dgoff r) (r_iov r) (r_iovindex r) else r, M).

(** [Read( socket, btsread )]: a turn that goes on has read something. *)
Fixpoint read_loop (fuel : nat) (btsread : Z) (r : PageReader) (M : mem) (net : list arrival) : res (sock_status * Z * PageReader * mem * list arrival) :=
  match fuel with
  | O => Diverge
  | S fuel =>
      r ← if r_iov r is [] then InitIOV r else Ok r;
      '(st, nbbts, net, M) ← ReadV (r_iov r) net M;
      if st is stError then Ok (st, btsread, r, M, net)
      else
        let r := MkReader (r_dlen r - nbbts) (r_rspoff r) (r_chindex r) (r_choff r) (r_dgindex r) (r_dgoff r) (r_iov r) (r_iovindex r) in
        '(r, M) ← ShiftIOV nbbts r M;
        if st is stRetry then Ok (st, btsread + nbbts, r, M, net)
        else if (0 <? nbbts) && (0 <? r_dlen r) && (r_chindex r <? zlen chunks) then read_loop fuel (btsread + nbbts) r M net
        else Ok (stOK, btsread + nbbts, r, M, net)
  end.
Definition Read (r : PageReader) (M : mem) (net : list arrival) : res (sock_status * Z * PageReader * mem * list arrival) :=
  if (r_dlen r =? 0) || (zlen chunks <=? r_chindex r) then Ok (stOK, 0, r, M, net)
  else read_loop (S (Z.to_nat (r_dlen r))) 0 r M net.

(** [Read] is called again when the socket has more. *)
Fixpoint read_body (fuel : nat) (r : PageReader) (M : mem) (net : list arrival) : res (sock_status * PageReader * mem * list arrival) :=
  match fuel with
  | O => Diverge
  | S fuel =>
      '(st, _, r, M, net) ← Read r M net;
      if st is stRetry then match net with [] => Ok (stRetry, r, M, net) | _ => read_body fuel r M net end else Ok (st, r, M, net)
  end.
End reader.

(** ** The elements of a response *)

(** What is still to come: bytes of digests ([true]) and of pages. *)
Abbreviation elem := (bool * list Z)%type.

Definition bytes_of (E : list elem) : list Z := mjoin (snd <$> E).
Definition dgs (E : list elem) : list Z := mjoin ((fun e : elem => if e.1 then e.2 else []) <$> E).
Definition dts (E : list elem) : list Z := mjoin ((fun e : elem => if e.1 then [] else e.2) <$> E).

(** The vector that takes them. *)
Fixpoint vec_at (dg pg : Z) (E : list elem) : list iovec :=
  match E with
  | [] => []
  | (true, x) :: E => MkIov (PCs dg) (zlen x) :: vec_at (dg + zlen x) pg E
  | (false, x) :: E => MkIov (PHeap pg) (zlen x) :: vec_at dg (pg + zlen x) E
  end.

(** The first [k] bytes, and the others. *)
Fixpoint eltake (k : Z) (E : list elem) : list elem :=
  match E with [] => [] | (b, x) :: E => if k <? zlen x then [(b, take (Z.to_nat k) x)] else (b, x) :: eltake (k - zlen x) E end.
Fixpoint elskip (k : Z) (E : list elem) : list elem :=
  match E with [] => [] | (b, x) :: E => if k <? zlen x then (b, drop (Z.to_nat k) x) :: E else elskip (k - zlen x) E end.

Lemma bytes_cons e E : bytes_of (e :: E) = e.2 ++ bytes_of E.
Proof. done. Qed.

Lemma dgs_cons e E : dgs (e :: E) = (if e.1 then e.2 else []) ++ dgs E.
Proof. done. Qed.

Lemma dts_cons e E : dts (e :: E) = (if e.1 then [] else e.2) ++ dts E.
Proof. done. Qed.

Lemma dgs_app E E' : dgs (E ++ E') = dgs E ++ dgs E'.
Proof. unfold dgs. by rewrite fmap_app, join_app. Qed.

Lemma dts_app E E' : dts (E ++ E') = dts E ++ dts E'.
Proof. unfold dts. by rewrite fmap_app, join_app. Qed.

Lemma bytes_app E E' : bytes_of (E ++ E') = bytes_of E ++ bytes_of E'.
Proof. unfold bytes_of. by rewrite fmap_app, join_app. Qed.

Lemma el_cut k E : 0 <= k -> dgs E = dgs (eltake k E) ++ dgs (elskip k E) /\ dts E = dts (eltake k E) ++ dts (elskip k E) /\ bytes_of (eltake k E) = take (Z.to_nat k) (bytes_of E) /\
  bytes_of (elskip k E) = drop (Z.to_nat k) (bytes_of E).
Proof.
  revert k. induction E as [|[b x] E IH]; intros k Hk; [change (bytes_of []) with (@nil Z); cbn [eltake elskip]; by rewrite take_nil, drop_nil|]. cbn [eltake elskip]. destruct (Z.ltb_spec k (zlen x)) as [Hlt|Hge].
  - rewrite !dgs_cons, !dts_cons, !bytes_cons. cbn [fst snd]. change (dgs []) with (@nil Z). change (dts []) with (@nil Z). change (bytes_of []) with (@nil Z). rewrite !app_nil_r.
    rewrite take_app_le, drop_app_le by (unfold zlen in *; lia). destruct b; cbn [app]; rewrite ?app_assoc, ?take_drop; done.
  - destruct (IH (k - zlen x) ltac:(lia)) as (H1 & H2 & H3 & H4). rewrite !dgs_cons, !dts_cons, !bytes_cons, H3, H4, <- !app_assoc, <- H1, <- H2. split_and!; try done.
    + cbn [snd]. rewrite take_app_ge by (unfold zlen in *; lia). do 2 f_equal. unfold zlen in *; lia.
    + cbn [snd]. rewrite drop_app_ge by (unfold zlen in *; lia). f_equal. unfold zlen in *; lia.
Qed.

Lemma iov_total_vec dg pg E : iov_total (vec_at dg pg E) = zlen (bytes_of E).
Proof.
  revert dg pg. induction E as [|[b x] E IH]; intros dg pg; [done|]. rewrite bytes_cons, zlen_app. destruct b; cbn [vec_at]; rewrite iov_total_cons, IH; done.
Qed.

Lemma paste_nil off l : paste off [] l = l.
Proof. unfold paste. change (zlen []) with 0. cbn [app]. by rewrite Z.add_0_r, take_drop. Qed.

(** Bytes that arrive go where they belong. *)
Lemma scatter_elems k dg pg E M : Forall (fun e : elem => e.2 <> []) E -> 0 <= k <= zlen (bytes_of E) -> 0 <= dg -> dg + zlen (dgs E) <= zlen (csMem M) ->
  bufAt M <= pg -> pg - bufAt M + zlen (dts E) <= zlen (bufMem M) ->
  scatter (vec_at dg pg E) (take (Z.to_nat k) (bytes_of E)) M = Ok (MkMem (paste dg (dgs (eltake k E)) (csMem M)) (bufAt M) (paste (pg - bufAt M) (dts (eltake k E)) (bufMem M))).
Proof.
  revert k dg pg M. induction E as [|[b x] E IH]; intros k dg pg M HE Hk Hdg Hcs Hpg Hbuf.
  { change (bytes_of []) with (@nil Z). rewrite take_nil, scatter_nil. cbn [eltake]. change (dgs []) with (@nil Z). change (dts []) with (@nil Z). rewrite !paste_nil. by destruct M. }
  inversion_clear HE as [|? ? Hx HE']. cbn [snd] in Hx. pose proof (zlen_pos x Hx) as Hzx. rewrite bytes_cons in *. cbn [snd] in *. rewrite zlen_app in Hk.
  rewrite dgs_cons in Hcs. rewrite dts_cons in Hbuf. cbn [fst snd] in Hcs, Hbuf. rewrite zlen_app in Hcs, Hbuf. pose proof (zlen_nonneg (dgs E)). pose proof (zlen_nonneg (dts E)).
  destruct (decide (k = 0)) as [->|Hk0].
  { change (take (Z.to_nat 0) (x ++ bytes_of E)) with (@nil Z). rewrite scatter_nil. cbn [eltake]. rewrite (proj2 (Z.ltb_lt _ _)) by done. change (take (Z.to_nat 0) x) with (@nil Z).
    rewrite dgs_cons, dts_cons. change (dgs []) with (@nil Z). change (dts []) with (@nil Z). cbn [fst snd]. rewrite !app_nil_r. destruct M, b; by rewrite !paste_nil. }
  assert (take (Z.to_nat k) (x ++ bytes_of E) <> []) as Hne by (destruct x; [done|]; destruct (Z.to_nat k) eqn:E2; [lia|done]).
  cbn [eltake]. destruct (Z.ltb_spec k (zlen x)) as [Hlt|Hge].
  - rewrite (take_app_le x) in Hne |- * by (unfold zlen in *; lia).
    assert (zlen (take (Z.to_nat k) x) = k) as Hz by (by rewrite zlen_take_more by lia).
    rewrite dgs_cons, dts_cons. change (dgs []) with (@nil Z). change (dts []) with (@nil Z). cbn [fst snd]. rewrite !app_nil_r.
    destruct b; cbn [vec_at]; rewrite scatter_cons by done; cbn [iov_base iov_len store]; rewrite (take_ge (take _ x)), (drop_ge (take _ x)) by (unfold zlen in *; lia);
      rewrite put_paste by lia; rewrite !bind_Ok, scatter_nil, paste_nil; done.
  - rewrite (take_app_ge x) by (unfold zlen in *; lia). replace (Z.to_nat k - length x)%nat with (Z.to_nat (k - zlen x)) by (unfold zlen in *; lia).
    rewrite dgs_cons, dts_cons. cbn [fst snd].
    destruct b; cbn [vec_at]; rewrite scatter_cons by (by destruct x); cbn [iov_base iov_len store]; rewrite (take_app_length' x), (drop_app_length' x) by (unfold zlen; lia);
      rewrite put_paste by lia; rewrite !bind_Ok, IH by (cbn [csMem bufAt bufMem]; rewrite ?zlen_paste by lia; (done || lia)); cbn [csMem bufAt bufMem app].
    + rewrite paste_app; [done|lia|]. destruct (el_cut (k - zlen x) E ltac:(lia)) as (Hd & _). apply (f_equal zlen) in Hd. rewrite zlen_app in Hd. pose proof (zlen_nonneg (dgs (elskip (k - zlen x) E))). lia.
    + replace (pg + zlen x - bufAt M) with (pg - bufAt M + zlen x) by lia. rewrite paste_app; [done|lia|].
      destruct (el_cut (k - zlen x) E ltac:(lia)) as (_ & Hd & _). apply (f_equal zlen) in Hd. rewrite zlen_app in Hd. pose proof (zlen_nonneg (dts (elskip (k - zlen x) E))). lia.
Qed.

(** ** Digests in host order *)

(** The first [n] words converted. *)
Fixpoint conv (m : machine) (n : nat) (R : list Z) : list Z :=
  match n with O => R | S n => to_host m (take 4 R) ++ conv m n (drop 4 R) end.

Lemma length_to_host m w : length (to_host m w) = length w.
Proof. unfold to_host. destruct (is_little m); [apply length_rev|done]. Qed.

Lemma length_conv m n R : length (conv m n R) = length R.
Proof. revert R. induction n as [|n IH]; intros R; [done|]. cbn [conv]. rewrite length_app, length_to_host, IH, length_take, length_drop. lia. Qed.

Lemma zlen_conv m n R : zlen (conv m n R) = zlen R.
Proof. unfold zlen. by rewrite length_conv. Qed.

Lemma conv_app m n R S : (4 * n <= length R)%nat -> conv m n (R ++ S) = conv m n R ++ S.
Proof.
  revert R. induction n as [|n IH]; intros R Hl; [done|]. cbn [conv]. rewrite take_app_le, drop_app_le by lia. rewrite IH by (rewrite length_drop; lia). by rewrite app_assoc.
Qed.

(** One word more. *)
Lemma conv_step m n R : (4 * n + 4 <= length R)%nat -> exists X w Y, conv m n R = X ++ w ++ Y /\ conv m (S n) R = X ++ to_host m w ++ Y /\ length X = (4 * n)%nat /\ length w = 4%nat.
Proof.
  revert R. induction n as [|n IH]; intros R Hl.
  - exists [], (take 4 R), (drop 4 R). cbn [conv app]. rewrite length_take, take_drop. split_and!; (done || lia).
  - destruct (IH (drop 4 R)) as (X & w & Y & H1 & H2 & H3 & H4); [rewrite length_drop; lia|]. exists (to_host m (take 4 R) ++ X), w, Y.
    change (conv m (S n) R) with (to_host m (take 4 R) ++ conv m n (drop 4 R)). change (conv m (S (S n)) R) with (to_host m (take 4 R) ++ conv m (S n) (drop 4 R)).
    rewrite H1, H2, <- !app_assoc, length_app, length_to_host, length_take, H3. split_and!; (done || lia).
Qed.

Lemma paste_over off X w w' Y l : 0 <= off -> off + zlen (X ++ w ++ Y) <= zlen l -> zlen w' = zlen w ->
  paste (off + zlen X) w' (paste off (X ++ w ++ Y) l) = paste off (X ++ w' ++ Y) l.
Proof.
  intros Ho Hf Hw. unfold paste. rewrite !zlen_app in *. rewrite Hw. set (T := drop _ l).
  rewrite <- (app_assoc X), (app_assoc _ X), <- (app_assoc w). assert (length (take (Z.to_nat off) l ++ X) = Z.to_nat (off + zlen X)) as Hz by (rewrite length_app, length_take; pose proof (zlen_nonneg w); pose proof (zlen_nonneg Y); unfold zlen in *; lia).
  rewrite take_app_length' by done. rewrite drop_app_ge by (rewrite Hz; unfold zlen; lia). rewrite Hz. rewrite drop_app_length' by (unfold zlen; lia). by rewrite <- !app_assoc.
Qed.

Lemma digest_ntohl_spec m g0 (ic : nat) R cs0 M : 0 <= g0 -> csMem M = paste (4 * g0) (conv m ic R) cs0 -> 4 * Z.of_nat ic + 4 <= zlen R -> 4 * g0 + zlen R <= zlen cs0 ->
  digest_ntohl m (g0 + Z.of_nat ic) M = Ok (MkMem (paste (4 * g0) (conv m (S ic) R) cs0) (bufAt M) (bufMem M)).
Proof.
  intros Hg Hc Hz Hf. destruct (conv_step m ic R) as (X & w & Y & H1 & H2 & H3 & H4); [unfold zlen in *; lia|]. assert (zlen (X ++ w ++ Y) = zlen R) as Hl by (by rewrite <- H1, zlen_conv).
  assert (4 * (g0 + Z.of_nat ic) = 4 * g0 + zlen X) as Hat by (unfold zlen; lia). assert (zlen w = 4) as Hw by (unfold zlen; lia).
  unfold digest_ntohl. rewrite Hat. cbn [load store]. rewrite Hc, H1, H2.
  pose proof (rd_paste (4 * g0) (X ++ w ++ Y) cs0 ltac:(lia) ltac:(lia)) as Hr. apply rd_app in Hr as [_ Hr]. apply rd_app in Hr as [Hr _]. rewrite Hw in Hr. rewrite Hr, bind_Ok.
  pose proof (zlen_nonneg X). pose proof (zlen_nonneg Y). assert (zlen (to_host m w) = zlen w) as Hh by (unfold zlen; by rewrite length_to_host). rewrite !zlen_app in Hl.
  rewrite put_paste by (rewrite ?zlen_paste; rewrite ?zlen_app; lia). rewrite bind_Ok. rewrite paste_over by (rewrite ?zlen_app; lia). done.
Qed.

(** ** The elements are left behind *)

Lemma elskip_add a b E : 0 <= a -> 0 <= b -> elskip (a + b) E = elskip b (elskip a E).
Proof.
  revert a. induction E as [|[k x] E IH]; intros a Ha Hb; [done|]. cbn [elskip]. destruct (Z.ltb_spec a (zlen x)) as [Hlt|Hge].
  - cbn [elskip]. change (drop (Z.to_nat a) x) with (adv a x). rewrite zlen_adv_more by lia. destruct (Z.ltb_spec (a + b) (zlen x)), (Z.ltb_spec b (zlen x - a)); try lia.
    + unfold adv. rewrite drop_drop. do 3 f_equal. lia.
    + f_equal. lia.
  - rewrite (proj2 (Z.ltb_ge _ _)) by lia. rewrite <- IH by lia. f_equal. lia.
Qed.

Lemma eltake_size k E : 0 <= k -> zlen (dgs (eltake k E)) = zlen (dgs E) - zlen (dgs (elskip k E)) /\ zlen (dts (eltake k E)) = zlen (dts E) - zlen (dts (elskip k E)).
Proof. intros Hk. destruct (el_cut k E Hk) as (H1 & H2 & _). apply (f_equal zlen) in H1, H2. rewrite zlen_app in H1, H2. lia. Qed.

Lemma el_0 E : (forall e, e ∈ E -> e.2 <> []) -> elskip 0 E = E /\ dgs (eltake 0 E) = [] /\ dts (eltake 0 E) = [].
Proof.
  intros HE. destruct E as [|[k y] E]; [done|]. specialize (HE (k, y) ltac:(by left)). pose proof (zlen_pos y HE). cbn [eltake elskip]. rewrite !(proj2 (Z.ltb_lt _ _)) by done. by destruct k.
Qed.

(** They alternate; [first] bytes are missing of the digest at the head. *)
Fixpoint alt (b : bool) (first : Z) (E : list elem) : Prop :=
  match E with [] => True | (k, x) :: E => k = b /\ x <> [] /\ (b = true -> zlen x = first) /\ alt (negb b) 4 E end.

Lemma alt_nonempty b first E : alt b first E -> Forall (fun e : elem => e.2 <> []) E.
Proof. revert b first. induction E as [|[k x] E IH]; intros b first; [constructor|]. intros (_ & Hx & _ & HE). constructor; [done|by eapply IH]. Qed.

Lemma alt_elem b first E e : alt b first E -> e ∈ E -> e.2 <> [].
Proof. intros HE He. apply alt_nonempty in HE. rewrite Forall_forall in HE. by apply HE. Qed.

Section shift.
Context (m : machine) (A g0 : Z) (R cs0 : list Z).
Hypotheses (Hg0 : 0 <= g0) (Hfit : 4 * g0 + zlen R <= zlen cs0).

(** The reader at the elements [E], with [ic] digests complete; [R] are the bytes of digests
    that have arrived. *)
Record pos (b : bool) (E : list elem) (ic : nat) (r : PageReader) (M : mem) : Prop := {
  pos_alt : alt b (4 - r_dgoff r) E; pos_par : Z.even (r_iovindex r) = b; pos_dg : b = false -> r_dgoff r = 0;
  pos_iov : r_iov r = vec_at (4 * r_dgindex r + r_dgoff r) (A + r_choff r) E; pos_ix : r_dgindex r = g0 + Z.of_nat ic; pos_off : 0 <= r_dgoff r < 4;
  pos_cs : csMem M = paste (4 * g0) (conv m ic R) cs0 }.

(** What shifting does not touch. *)
Definition alike (r r' : PageReader) (M M' : mem) : Prop :=
  r_dlen r' = r_dlen r /\ r_rspoff r' = r_rspoff r /\ r_chindex r' = r_chindex r /\ bufAt M' = bufAt M /\ bufMem M' = bufMem M.

Lemma alike_trans r1 r2 r3 M1 M2 M3 : alike r1 r2 M1 M2 -> alike r2 r3 M2 M3 -> alike r1 r3 M1 M3.
Proof. intros (A1 & A2 & A3 & A4 & A5) (B1 & B2 & B3 & B4 & B5). split_and!; congruence. Qed.

(** [n] bytes behind, of which there are digests and data. *)
Definition moved (n : Z) (E : list elem) (ic ic' : nat) (r r' : PageReader) : Prop :=
  r_choff r' = r_choff r + zlen (dts (eltake n E)) /\ 4 * Z.of_nat ic' + r_dgoff r' = 4 * Z.of_nat ic + r_dgoff r + zlen (dgs (eltake n E)).

Lemma shiftdg_spec x E ic r M n : pos true ((true, x) :: E) ic r M -> 0 <= n -> 4 * Z.of_nat ic + r_dgoff r + Z.min n (zlen x) <= zlen R ->
  exists r' M' b' ic', shiftdgbuf m n r M = Ok (Z.max 0 (n - zlen x), r', M') /\ pos b' (elskip (Z.min n (zlen x)) ((true, x) :: E)) ic' r' M' /\ alike r r' M M' /\
    moved (Z.min n (zlen x)) ((true, x) :: E) ic ic' r r' /\ (zlen x <= n -> b' = false).
Proof.
  intros [(_ & Hx & Hlen & Halt) Hpar _ Hiov Hix Hoff Hcs] Hn Hrec. specialize (Hlen eq_refl). pose proof (zlen_pos x Hx) as Hzx. unfold shiftdgbuf. rewrite Hiov. cbn [vec_at iov_len].
  unfold moved. cbn [eltake elskip]. destruct (Z.ltb_spec n (zlen x)) as [Hlt|Hge].
  - rewrite !Z.min_l by lia. rewrite (proj2 (Z.ltb_lt _ _)) by lia. rewrite Z.max_l by lia. eexists _, _, true, ic. split; [done|]. refine (conj _ (conj _ (conj (conj _ _) _))); cbn [r_choff r_dgoff].
    + split; cbn [r_dgoff r_iovindex r_iov r_dgindex r_choff]; try done; try lia.
      * split_and!; [done| |intros _|done].
        -- intros E0. apply (f_equal zlen) in E0. change (drop (Z.to_nat n) x) with (adv n x) in E0. rewrite zlen_adv_more in E0 by lia. change (zlen []) with 0 in E0. lia.
        -- change (drop (Z.to_nat n) x) with (adv n x). rewrite zlen_adv_more; lia.
      * cbn [vec_at]. change (drop (Z.to_nat n) x) with (adv n x). rewrite zlen_adv_more by lia. unfold iov_shift. cbn [iov_base iov_len ptr_add]. f_equal; [f_equal; f_equal; lia|f_equal; lia].
    + done.
    + rewrite dts_cons. cbn [fst app]. change (dts []) with (@nil Z). change (zlen []) with 0. lia.
    + rewrite dgs_cons. cbn [fst snd]. change (dgs []) with (@nil Z). rewrite app_nil_r, zlen_take_more by lia. lia.
    + lia.
  - rewrite !Z.min_r by lia. rewrite (proj2 (Z.ltb_ge _ _)) by lia. rewrite Z.max_r by lia. rewrite Hix, (digest_ntohl_spec m g0 ic R cs0 M) by (done || lia). rewrite bind_Ok, Z.sub_diag.
    destruct (el_0 E (fun e => alt_elem _ _ _ e Halt)) as (-> & Hd & Ht).
    eexists _, _, false, (S ic). split; [done|]. refine (conj _ (conj _ (conj (conj _ _) _))); cbn [r_choff r_dgoff].
    + split; cbn [r_dgoff r_iovindex r_iov r_dgindex r_choff]; try done; try lia.
      * rewrite Z.even_add, Hpar. done.
      * f_equal. lia.
    + done.
    + rewrite dts_cons. cbn [fst app]. rewrite Ht. change (zlen []) with 0. lia.
    + rewrite dgs_cons. cbn [fst snd]. rewrite Hd, app_nil_r. lia.
    + done.
Qed.

Lemma shiftpg_spec x E ic r M n : pos false ((false, x) :: E) ic r M -> 0 <= n ->
  exists r' b', shiftpgbuf n r = Ok (Z.max 0 (n - zlen x), r') /\ pos b' (elskip (Z.min n (zlen x)) ((false, x) :: E)) ic r' M /\ alike r r' M M /\
    moved (Z.min n (zlen x)) ((false, x) :: E) ic ic r r' /\ (zlen x <= n -> b' = true).
Proof.
  intros [(_ & Hx & _ & Halt) Hpar Hdg Hiov Hix Hoff Hcs] Hn. specialize (Hdg eq_refl). pose proof (zlen_pos x Hx) as Hzx. unfold shiftpgbuf. rewrite Hiov. cbn [vec_at iov_len].
  unfold moved. cbn [eltake elskip]. destruct (Z.ltb_spec n (zlen x)) as [Hlt|Hge].
  - rewrite !Z.min_l by lia. rewrite (proj2 (Z.ltb_lt _ _)) by lia. rewrite Z.max_l by lia. eexists _, false. split; [done|]. refine (conj _ (conj _ (conj (conj _ _) _))); cbn [r_choff r_dgoff].
    + split; cbn [r_dgoff r_iovindex r_iov r_dgindex r_choff]; try done; try lia.
      * split_and!; [done| |done|done].
        intros E0. apply (f_equal zlen) in E0. change (drop (Z.to_nat n) x) with (adv n x) in E0. rewrite zlen_adv_more in E0 by lia. change (zlen []) with 0 in E0. lia.
      * cbn [vec_at]. change (drop (Z.to_nat n) x) with (adv n x). rewrite zlen_adv_more by lia. unfold iov_shift. cbn [iov_base iov_len ptr_add]. f_equal; [f_equal; f_equal; lia|f_equal; lia].
    + done.
    + rewrite dts_cons. cbn [fst snd]. change (dts []) with (@nil Z). rewrite app_nil_r, zlen_take_more; lia.
    + rewrite dgs_cons. cbn [fst app]. change (dgs []) with (@nil Z). change (zlen []) with 0. lia.
    + lia.
  - rewrite !Z.min_r by lia. rewrite (proj2 (Z.ltb_ge _ _)) by lia. rewrite Z.max_r by lia. rewrite Z.sub_diag.
    destruct (el_0 E (fun e => alt_elem _ _ _ e Halt)) as (-> & Hd & Ht).
    eexists _, true. split; [done|]. refine (conj _ (conj _ (conj (conj _ _) _))); cbn [r_choff r_dgoff].
    + split; cbn [r_dgoff r_iovindex r_iov r_dgindex r_choff]; try done; try lia.
      * by rewrite Hdg.
      * rewrite Z.even_add, Hpar. done.
      * f_equal. lia.
    + done.
    + rewrite dts_cons. cbn [fst snd]. rewrite Ht, app_nil_r. lia.
    + rewrite dgs_cons. cbn [fst app]. rewrite Hd. change (zlen []) with 0. lia.
    + done.
Qed.

Lemma moved_trans a b E ic1 ic2 ic3 r1 r2 r3 : 0 <= a -> 0 <= b -> moved a E ic1 ic2 r1 r2 -> moved b (elskip a E) ic2 ic3 r2 r3 -> moved (a + b) E ic1 ic3 r1 r3.
Proof.
  intros Ha Hb [A1 A2] [B1 B2]. pose proof (eltake_size (a + b) E ltac:(lia)) as [E1 E2]. pose proof (eltake_size a E Ha) as [E3 E4]. pose proof (eltake_size b (elskip a E) Hb) as [E5 E6].
  rewrite elskip_add in E1, E2 by done. split; lia.
Qed.

Lemma bytes_skip a E : 0 <= a <= zlen (bytes_of E) -> zlen (bytes_of (elskip a E)) = zlen (bytes_of E) - a.
Proof. intros Ha. destruct (el_cut a E ltac:(lia)) as (_ & _ & _ & ->). by apply zlen_adv_more. Qed.

(** A loop over the rest goes on behind the first bytes. *)
Lemma rest_ok a n1 E ic ic1 r r1 : 0 <= a -> 0 <= n1 -> moved a E ic ic1 r r1 -> 4 * Z.of_nat ic + r_dgoff r + zlen (dgs (eltake (a + n1) E)) <= zlen R ->
  4 * Z.of_nat ic1 + r_dgoff r1 + zlen (dgs (eltake n1 (elskip a E))) <= zlen R.
Proof.
  intros Ha Hn [_ Hm] Hr. pose proof (eltake_size (a + n1) E ltac:(lia)) as [E1 _]. pose proof (eltake_size a E Ha) as [E3 _]. pose proof (eltake_size n1 (elskip a E) Hn) as [E5 _].
  rewrite elskip_add in E1 by done. lia.
Qed.

(** Behind a whole element come the others. *)
Lemma elskip_head n k x E : 0 <= n -> zlen x <= n -> (forall e, e ∈ E -> e.2 <> []) -> elskip (Z.min n (zlen x)) ((k, x) :: E) = E.
Proof.
  intros Hn Hx HE. cbn [elskip]. rewrite Z.min_r, (proj2 (Z.ltb_ge _ _)), Z.sub_diag by lia. by apply el_0.
Qed.

(** The digests among the bytes of a digest. *)
Lemma dgs_head n y E : 0 <= n -> (forall e, e ∈ E -> e.2 <> []) -> zlen (dgs (eltake (Z.min n (zlen y)) ((true, y) :: E))) = Z.min n (zlen y).
Proof.
  intros Hn HE. cbn [eltake]. destruct (el_0 E HE) as (_ & Hd & _). destruct (Z.ltb_spec (Z.min n (zlen y)) (zlen y)); rewrite dgs_cons; cbn [fst snd].
  - change (dgs []) with (@nil Z). rewrite app_nil_r, zlen_take_more; lia.
  - replace (Z.min n (zlen y) - zlen y) with 0 by lia. rewrite Hd, app_nil_r. lia.
Qed.

Lemma shift_loop_spec fuel b E ic r M n : pos b E ic r M -> 0 <= n <= zlen (bytes_of E) -> (0 < n -> b = false) -> (length E < fuel)%nat ->
  4 * Z.of_nat ic + r_dgoff r + zlen (dgs (eltake n E)) <= zlen R ->
  exists r' M' b' ic', shift_loop m fuel n r M = Ok (r', M') /\ pos b' (elskip n E) ic' r' M' /\ alike r r' M M' /\ moved n E ic ic' r r'.
Proof.
  revert b E ic r M n. induction fuel as [|fuel IH]; intros b E ic r M n Hp Hn Hb Hf Hrec; [lia|]. cbn [shift_loop]. pose proof (fun e => alt_elem _ _ E e (pos_alt _ _ _ _ _ Hp)) as HE0.
  destruct (Z.leb_spec n 0) as [Hz|Hpos].
  { assert (n = 0) as -> by lia. exists r, M, b, ic. destruct (el_0 E HE0) as (-> & Hd & Ht). split; [done|]. split; [done|]. split; [done|]. unfold moved. rewrite Hd, Ht. change (zlen []) with 0. lia. }
  rewrite (Hb Hpos) in Hp. destruct E as [|[k x] E]; [change (zlen (bytes_of [])) with 0 in Hn; lia|]. assert (k = false) as -> by apply (pos_alt _ _ _ _ _ Hp).
  assert (forall e, e ∈ E -> e.2 <> []) as HE by (intros e He; apply HE0; by right). specialize (HE0 (false, x) ltac:(by left)). pose proof (zlen_pos x HE0) as Hzx. pose proof (zlen_nonneg (bytes_of E)).
  rewrite bytes_cons, zlen_app in Hn. cbn [snd] in Hn.
  destruct (shiftpg_spec x E ic r M n Hp ltac:(lia)) as (r1 & b1 & -> & Hp1 & Ha1 & Hm1 & Hb1). rewrite bind_Ok. set (a := Z.min n (zlen x)) in *.
  set (n1 := Z.max 0 (n - zlen x)). assert (n = a + n1) as Hna by lia. destruct (Z.eqb_spec n1 0) as [E1|E1].
  { exists r1, M, b1, ic. assert (n = a) as Hn0 by lia. rewrite Hn0. done. }
  specialize (Hb1 ltac:(lia)). subst b1. rewrite Hna in Hrec. pose proof (rest_ok a n1 _ _ _ _ _ ltac:(lia) ltac:(lia) Hm1 Hrec) as Hrec1.
  pose proof (elskip_head n false x E ltac:(lia) ltac:(lia) HE) as Hsk. fold a in Hsk. rewrite Hsk in Hp1, Hrec1.
  destruct E as [|[k y] E']; [change (zlen (bytes_of [])) with 0 in *; lia|]. assert (k = true) as -> by apply (pos_alt _ _ _ _ _ Hp1).
  assert (forall e, e ∈ E' -> e.2 <> []) as HE' by (intros e He; apply HE; by right). specialize (HE (true, y) ltac:(by left)). pose proof (zlen_pos y HE) as Hzy. pose proof (zlen_nonneg (bytes_of E')).
  rewrite bytes_cons, zlen_app in Hn. cbn [snd] in Hn. set (a2 := Z.min n1 (zlen y)). set (n2 := Z.max 0 (n1 - zlen y)). assert (n1 = a2 + n2) as Hn1 by lia.
  destruct (shiftdg_spec y E' ic r1 M n1 Hp1 ltac:(lia)) as (r2 & M2 & b2 & ic2 & -> & Hp2 & Ha2 & Hm2 & Hb2).
  { rewrite Hn1 in Hrec1. pose proof (eltake_size (a2 + n2) ((true, y) :: E') ltac:(lia)) as [F1 _]. pose proof (eltake_size a2 ((true, y) :: E') ltac:(lia)) as [F2 _]. pose proof (eltake_size n2 (elskip a2 ((true, y) :: E')) ltac:(lia)) as [F3 _].
    rewrite elskip_add in F1 by lia. pose proof (zlen_nonneg (dgs (eltake n2 (elskip a2 ((true, y) :: E'))))). pose proof (dgs_head n1 y E' ltac:(lia) HE') as Hd. fold a2 in Hd |- *. lia. }
  rewrite bind_Ok. fold a2 in Hp2, Hm2. fold n2. rewrite Hn1 in Hrec1. pose proof (rest_ok a2 n2 _ _ _ _ _ ltac:(lia) ltac:(lia) Hm2 Hrec1) as Hrec2.
  assert (length (elskip a2 ((true, y) :: E')) <= length ((true, y) :: E'))%nat as Hlen.
  { destruct (decide (zlen y <= n1)) as [Hle|Hgt]; [unfold a2; rewrite elskip_head by (done || lia); cbn; lia|]. cbn [elskip]. rewrite (proj2 (Z.ltb_lt _ _)) by lia. done. }
  destruct (IH b2 (elskip a2 ((true, y) :: E')) ic2 r2 M2 n2 Hp2) as (r3 & M3 & b3 & ic3 & -> & Hp3 & Ha3 & Hm3).
  - assert (zlen (bytes_of (elskip a2 ((true, y) :: E'))) = zlen y + zlen (bytes_of E') - a2) as ->; [rewrite bytes_skip by (rewrite bytes_cons, zlen_app; cbn [snd]; lia); rewrite bytes_cons, zlen_app; done|]. lia.
  - intros Hn2. apply Hb2. lia.
  - cbn [length] in *. lia.
  - done.
  - exists r3, M3, b3, ic3. split; [done|]. rewrite Hna, elskip_add, Hsk, Hn1, elskip_add by lia. split; [exact Hp3|]. split; [by eapply alike_trans; [|eapply alike_trans]|].
    eapply moved_trans; [lia|lia|exact Hm1|]. rewrite Hsk. eapply moved_trans; [lia|lia|exact Hm2|exact Hm3].
Qed.

Lemma length_vec_at dg pg E : length (vec_at dg pg E) = length E.
Proof. revert dg pg. induction E as [|[[] x] E IH]; intros dg pg; cbn; [done|..]; by rewrite IH. Qed.

(** The next chunk, where one is full. *)
Definition next_chunk (c : Chunk) (r : PageReader) : PageReader :=
  if ch_length c <=? r_choff r then MkReader (r_dlen r) (r_rspoff r) (r_chindex r + 1) 0 (r_dgindex r) (r_dgoff r) (r_iov r) (r_iovindex r) else r.

Lemma ShiftIOV_spec chunks c b E ic r M n : pos b E ic r M -> E <> [] -> 0 <= n <= zlen (bytes_of E) -> chunks !! Z.to_nat (r_chindex r) = Some c ->
  4 * Z.of_nat ic + r_dgoff r + zlen (dgs (eltake n E)) <= zlen R ->
  exists r' M' b' ic', ShiftIOV m chunks n r M = Ok (next_chunk c r', M') /\ pos b' (elskip n E) ic' r' M' /\ alike r r' M M' /\ moved n E ic ic' r r'.
Proof.
  intros Hp HE Hn Hc Hrec. pose proof (fun e => alt_elem _ _ E e (pos_alt _ _ _ _ _ Hp)) as HE0. unfold ShiftIOV. rewrite (pos_par _ _ _ _ _ Hp).
  assert (exists a r1 M1 b1 ic1, (if b then shiftdgbuf m n r M else Ok (n, r, M)) = Ok (n - a, r1, M1) /\ 0 <= a <= n /\ pos b1 (elskip a E) ic1 r1 M1 /\ alike r r1 M M1 /\ moved a E ic ic1 r r1 /\
    (0 < n - a -> b1 = false)) as (a & r1 & M1 & b1 & ic1 & -> & Ha & Hp1 & Ha1 & Hm1 & Hb1).
  { destruct b.
    2:{ exists 0, r, M, false, ic. destruct (el_0 E HE0) as (-> & Hd & Ht). rewrite Z.sub_0_r. unfold moved. rewrite Hd, Ht. change (zlen []) with 0. split; [done|]. split; [lia|]. split; [done|]. split; [done|]. split; [lia|done]. }
    destruct E as [|[k x] E]; [done|]. assert (k = true) as -> by apply (pos_alt _ _ _ _ _ Hp). assert (forall e, e ∈ E -> e.2 <> []) as HE1 by (intros e He; apply HE0; by right).
    pose proof (dgs_head n x E ltac:(lia) HE1) as Hd. set (a := Z.min n (zlen x)) in *. set (n1 := Z.max 0 (n - zlen x)). assert (n = a + n1) as Hna by lia. pose proof (zlen_nonneg x).
    rewrite Hna in Hrec. pose proof (eltake_size (a + n1) ((true, x) :: E) ltac:(lia)) as [F1 _]. pose proof (eltake_size a ((true, x) :: E) ltac:(lia)) as [F2 _]. pose proof (eltake_size n1 (elskip a ((true, x) :: E)) ltac:(lia)) as [F3 _].
    rewrite elskip_add in F1 by lia. pose proof (zlen_nonneg (dgs (eltake n1 (elskip a ((true, x) :: E))))).
    destruct (shiftdg_spec x E ic r M n Hp ltac:(lia)) as (r1 & M1 & b1 & ic1 & -> & Hp1 & Ha1 & Hm1 & Hb1); [fold a; lia|]. fold a in Hp1, Hm1. fold n1.
    exists a, r1, M1, b1, ic1. split; [do 3 f_equal; lia|]. split; [lia|]. split; [done|]. split; [done|]. split; [done|]. intros Hn1. apply Hb1. lia. }
  rewrite bind_Ok. set (n1 := n - a) in *. assert (n = a + n1) as Hna by lia. rewrite Hna in Hrec. pose proof (rest_ok a n1 _ _ _ _ _ ltac:(lia) ltac:(lia) Hm1 Hrec) as Hrec1.
  destruct (shift_loop_spec (S (length (r_iov r1))) b1 (elskip a E) ic1 r1 M1 n1 Hp1) as (r2 & M2 & b2 & ic2 & -> & Hp2 & Ha2 & Hm2).
  - rewrite bytes_skip by lia. lia.
  - done.
  - rewrite (pos_iov _ _ _ _ _ Hp1), length_vec_at. lia.
  - done.
  - rewrite bind_Ok. pose proof (alike_trans _ _ _ _ _ _ Ha1 Ha2) as Ha3. pose proof Ha3 as (_ & _ & Hci & _). unfold chunk_at. rewrite Hci, Hc, bind_Ok.
    exists r2, M2, b2, ic2. rewrite Hna, elskip_add by lia. split; [unfold next_chunk; by rewrite Hci|]. split; [done|]. split; [done|]. eapply moved_trans; [lia|lia|done|done].
Qed.
End shift.

(** ** The elements of a whole response *)

Definition elems (ps : list (Z * list Z)) (cs : list Z) : list elem := mjoin (zip_with (fun p c => [(true, be 4 c); (false, p.2)]) ps cs).

Lemma elems_cons p ps c cs : elems (p :: ps) (c :: cs) = (true, be 4 c) :: (false, p.2) :: elems ps cs.
Proof. done. Qed.

Lemma elems_spec ps cs : length cs = length ps -> bytes_of (elems ps cs) = mjoin (zip_with (fun p c => be 4 c ++ p.2) ps cs) /\
  dgs (elems ps cs) = mjoin (be 4 <$> cs) /\ dts (elems ps cs) = mjoin (snd <$> ps).
Proof.
  revert cs. induction ps as [|p ps IH]; intros [|c cs] Hl; try done. injection Hl as Hl. destruct (IH cs Hl) as (H1 & H2 & H3).
  rewrite elems_cons, !bytes_cons, !dgs_cons, !dts_cons, H1, H2, H3. cbn [fst snd app zip_with]. rewrite mjoin_cons, <- app_assoc. done.
Qed.

Lemma elems_wire o D cs : length cs = length (pieces o D) -> bytes_of (elems (pieces o D) cs) = wire o D cs /\ dts (elems (pieces o D) cs) = D.
Proof. intros Hl. destruct (elems_spec _ _ Hl) as (H1 & _ & H3). split; [exact H1|]. by rewrite H3, pieces_join. Qed.

Lemma elems_alt ps cs : Forall (fun p : list Z => p <> []) (snd <$> ps) -> alt true 4 (elems ps cs).
Proof.
  revert cs. induction ps as [|p ps IH]; intros cs Hp; [done|]. destruct cs as [|c cs]; [done|]. inversion_clear Hp as [|? ? Hp1 Hps]. rewrite elems_cons. cbn [alt negb].
  split; [done|]. split; [|split; [by rewrite zlen_be|split; [done|split; [done|split; [done|by apply IH]]]]]. intros E. apply (f_equal length) in E. by rewrite length_be in E.
Qed.

Lemma elems_cut (k : nat) ps cs : length cs = length ps -> take (2 * k) (elems ps cs) = elems (take k ps) (take k cs) /\ drop (2 * k) (elems ps cs) = elems (drop k ps) (drop k cs).
Proof.
  revert ps cs. induction k as [|k IH]; intros [|p ps] [|c cs] Hl; try done. injection Hl as Hl. destruct (IH ps cs Hl) as [H1 H2]. replace (2 * S k)%nat with (S (S (2 * k))) by lia.
  rewrite !elems_cons. cbn [firstn skipn]. rewrite H1, H2. done.
Qed.

Lemma vec_at_take (k : nat) dg pg E : take k (vec_at dg pg E) = vec_at dg pg (take k E).
Proof. revert k dg pg. induction E as [|[[] x] E IH]; intros [|k] dg pg; try done; cbn [vec_at firstn]; f_equal; apply IH. Qed.

Section filling.
Context (K : nat) (HK : (1 <= K)%nat).
Let max_iovcnt := 2 * Z.of_nat K.

Definition fill_rest (n : nat) (f : Filling) : Filling :=
  let '(stop, f) := fill_pages max_iovcnt n f in
  if stop : bool then f else let f := add_dg 4 f in if filled max_iovcnt f then f else add_pg (f_left f) f.

Lemma add_dg_all len f : len <= f_left f -> add_dg len f = MkFilling (f_iov f ++ [MkIov (PCs (f_dg f)) len]) (f_dg f + len) (f_pg f) (f_left f - len).
Proof. intros Hl. unfold add_dg. by rewrite (proj2 (Z.ltb_ge _ _)) by done. Qed.

Lemma add_pg_all len f : len <= f_left f -> add_pg len f = MkFilling (f_iov f ++ [MkIov (PHeap (f_pg f)) len]) (f_dg f) (f_pg f + len) (f_left f - len).
Proof. intros Hl. unfold add_pg. by rewrite (proj2 (Z.ltb_ge _ _)) by done. Qed.

Lemma size_elems o D cs : D <> [] -> length cs = length (pieces o D) ->
  exists c cs', cs = c :: cs' /\ length cs' = length (pieces (o + to_boundary o) (adv (to_boundary o) D)) /\
    elems (pieces o D) cs = (true, be 4 c) :: (false, take (Z.to_nat (to_boundary o)) D) :: elems (pieces (o + to_boundary o) (adv (to_boundary o) D)) cs' /\
    zlen (bytes_of (elems (pieces o D) cs)) = 4 + Z.min (to_boundary o) (zlen D) + zlen (bytes_of (elems (pieces (o + to_boundary o) (adv (to_boundary o) D)) cs')) /\
    (adv (to_boundary o) D <> [] -> 0 < zlen (bytes_of (elems (pieces (o + to_boundary o) (adv (to_boundary o) D)) cs')) /\ to_boundary o < zlen D).
Proof.
  intros HD Hl. rewrite (pieces_cons o D HD) in Hl |- *. destruct cs as [|c cs]; [done|]. injection Hl as Hl. exists c, cs. pose proof (to_boundary_range o).
  split; [done|]. split; [done|]. split; [done|]. rewrite elems_cons, !bytes_cons, !zlen_app. cbn [snd]. rewrite zlen_be. split; [unfold zlen; rewrite length_take; lia|].
  intros Hne. assert (to_boundary o < zlen D) as Hlt.
  { destruct (decide (to_boundary o < zlen D)); [done|]. exfalso. apply Hne. unfold adv. apply drop_ge. unfold zlen in *. lia. }
  split; [|done]. destruct (elems_wire _ _ _ Hl) as [-> _]. rewrite pieces_cons in Hl by done. destruct cs as [|c' cs]; [done|]. unfold wire. rewrite pieces_cons by done. cbn [zip_with].
  rewrite mjoin_cons, !zlen_app, zlen_be. pose proof (zlen_nonneg (mjoin (zip_with (fun p c => be 4 c ++ p.2) (pieces (o + to_boundary o + to_boundary (o + to_boundary o)) (adv (to_boundary (o + to_boundary o)) (adv (to_boundary o) D))) cs))).
  match goal with |- context [zlen (snd ?x)] => pose proof (zlen_nonneg (snd x)) end. lia.
Qed.

Lemma fill_aligned o D cs (j : nat) f : o mod PageSize = 0 -> D <> [] -> length cs = length (pieces o D) -> zlen (f_iov f) = 2 * Z.of_nat j -> (j < K)%nat ->
  f_left f = zlen (bytes_of (elems (pieces o D) cs)) ->
  f_iov (fill_rest (Z.to_nat (Z.quot (f_left f) PageWithDigest)) f) = f_iov f ++ take (2 * (K - j)) (vec_at (f_dg f) (f_pg f) (elems (pieces o D) cs)).
Proof.
  revert cs j f. revert o D. refine (pieces_ind _ _ _); [done|]. intros o D HD IH cs j f Hal _ Hl Hj HjK Hf. pose proof (to_boundary_aligned o Hal) as Htb.
  destruct (size_elems o D cs HD Hl) as (c & cs' & -> & Hl' & He & Hz & Hmore). rewrite He. rewrite Htb in *. set (E' := elems (pieces (o + PageSize) _) cs') in *. rewrite <- Hf in Hz.
  pose proof (zlen_pos D HD). pose proof (zlen_nonneg (bytes_of E')). cbn [vec_at]. rewrite zlen_be.
  assert (forall n (v : list iovec), (2 * (K - j))%nat = S (S n) -> take (2 * (K - j)) v = take (S (S n)) v) as Htk by (by intros n v ->). rewrite (Htk (2 * (K - j) - 2)%nat) by lia. clear Htk. cbn [firstn].
  destruct (decide (adv PageSize D = [])) as [Hend|Hne].
  - (* the last page *)
    assert (E' = []) as HE'. { unfold E'. by rewrite Hend, pieces_nil. } rewrite HE' in Hz |- *. change (zlen (bytes_of [])) with 0 in Hz. cbn [vec_at]. rewrite take_nil.
    assert (zlen D <= PageSize) as HzD by (destruct (decide (zlen D <= PageSize)); [done|]; apply (f_equal zlen) in Hend; rewrite zlen_adv_more in Hend by (unfold PageSize in *; lia); change (zlen []) with 0 in Hend; lia).
    rewrite (take_ge D) by (unfold zlen in *; lia). rewrite Z.min_r in Hz by done. destruct (decide (zlen D = PageSize)) as [Hfull|Hshort].
    + replace (Z.quot (f_left f) PageWithDigest) with 1 by (rewrite Hz, Hfull; reflexivity). change (Z.to_nat 1) with 1%nat. unfold fill_rest. cbn [fill_pages].
      rewrite add_dg_all by lia. unfold filled at 1. cbn [f_left f_iov]. rewrite zlen_app, Hj. change (zlen [MkIov (PCs (f_dg f)) 4]) with 1. rewrite (proj2 (Z.eqb_neq _ _)), (proj2 (Z.leb_gt _ _)) by lia. cbn [orb].
      rewrite add_pg_all by (cbn [f_left]; lia). unfold filled. cbn [f_left f_iov f_pg f_dg]. rewrite (proj2 (Z.eqb_eq _ _)) by lia. cbn [orb f_iov]. rewrite <- app_assoc, Hfull. done.
    + replace (Z.quot (f_left f) PageWithDigest) with 0 by (rewrite Z.quot_small; [done|unfold PageWithDigest, PageSize in *; lia]). change (Z.to_nat 0) with 0%nat. unfold fill_rest. cbn [fill_pages].
      rewrite add_dg_all by lia. unfold filled at 1. cbn [f_left f_iov]. rewrite zlen_app, Hj. change (zlen [MkIov (PCs (f_dg f)) 4]) with 1. rewrite (proj2 (Z.eqb_neq _ _)), (proj2 (Z.leb_gt _ _)) by lia. cbn [orb].
      rewrite add_pg_all by (cbn [f_left]; lia). cbn [f_iov f_pg]. rewrite <- app_assoc. replace (f_left f - 4) with (zlen D) by lia. done.
  - destruct (Hmore Hne) as [Hpos Hgt]. rewrite Z.min_l in Hz by lia. assert (zlen (take (Z.to_nat PageSize) D) = PageSize) as -> by (by rewrite zlen_take_more by (unfold PageSize in *; lia)).
    assert (Z.to_nat (Z.quot (f_left f) PageWithDigest) = S (Z.to_nat (Z.quot (zlen (bytes_of E')) PageWithDigest))) as ->.
    { replace (f_left f) with (zlen (bytes_of E') + 1 * PageWithDigest) by (unfold PageWithDigest; lia). rewrite !Z.quot_div_nonneg by (unfold PageWithDigest, PageSize in *; lia). rewrite Z.div_add by done.
      assert (0 <= zlen (bytes_of E') / PageWithDigest) by (apply Z.div_pos; done). lia. }
    unfold fill_rest. cbn [fill_pages]. rewrite add_dg_all by (unfold PageSize in *; lia). unfold filled at 1. cbn [f_left f_iov]. rewrite zlen_app, Hj. change (zlen [MkIov (PCs (f_dg f)) 4]) with 1.
    rewrite (proj2 (Z.eqb_neq _ _)), (proj2 (Z.leb_gt _ _)) by (unfold PageSize in *; lia). cbn [orb]. rewrite add_pg_all by (cbn [f_left]; lia). cbn [f_left f_iov f_pg f_dg].
    set (f2 := MkFilling _ _ _ _). assert (f_left f2 = zlen (bytes_of E')) as Hf2 by (cbn; lia). assert (zlen (f_iov f2) = 2 * Z.of_nat (S j)) as Hj2.
    { cbn [f2 f_iov]. rewrite !zlen_app, Hj. change (zlen [MkIov (PCs (f_dg f)) 4]) with 1. change (zlen [MkIov (PHeap (f_pg f)) PageSize]) with 1. lia. }
    unfold filled at 1. rewrite Hf2, Hj2, (proj2 (Z.eqb_neq _ _)) by lia. cbn [orb]. destruct (Z.leb_spec max_iovcnt (2 * Z.of_nat (S j))) as [Hlast|Hgo].
    + assert (2 * (K - j) - 2 = 0)%nat as -> by lia. cbn [f2 f_iov firstn]. by rewrite <- app_assoc.
    + cbv iota. specialize (IH cs' (S j) f2). unfold fill_rest in IH. rewrite Hf2 in IH. fold E' in IH. replace (2 * (K - j) - 2)%nat with (2 * (K - S j))%nat by lia.
      rewrite IH; [cbn [f2 f_iov f_dg f_pg]; by rewrite <- !app_assoc| |done|done|done|lia|done]. pose proof (aligned_next o) as Hnx. by rewrite Htb in Hnx.
Qed.

Lemma fill_spec o D cs dg pg : D <> [] -> length cs = length (pieces o D) ->
  f_iov (fill max_iovcnt 4 (to_boundary o) (MkFilling [] dg pg (zlen (bytes_of (elems (pieces o D) cs))))) = vec_at dg pg (take (2 * K) (elems (pieces o D) cs)).
Proof.
  intros HD Hl. destruct (size_elems o D cs HD Hl) as (c & cs' & -> & Hl' & He & Hz & Hmore). set (L := zlen (bytes_of (elems (pieces o D) (c :: cs')))) in *. rewrite He. set (E' := elems (pieces (o + to_boundary o) _) cs') in *.
  pose proof (zlen_pos D HD). pose proof (zlen_nonneg (bytes_of E')). pose proof (to_boundary_range o). unfold fill. rewrite add_dg_all by (cbn [f_left]; lia). cbn [f_left f_iov f_pg f_dg app].
  unfold filled at 1. cbn [f_left f_iov]. change (zlen [MkIov (PCs dg) 4]) with 1. rewrite (proj2 (Z.eqb_neq _ _)), (proj2 (Z.leb_gt _ _)) by lia. cbn [orb].
  assert (zlen (take (Z.to_nat (to_boundary o)) D) = Z.min (to_boundary o) (zlen D)) as Hzp by (unfold zlen; rewrite length_take; lia).
  assert (add_pg (to_boundary o) (MkFilling [MkIov (PCs dg) 4] (dg + 4) pg (L - 4)) =
    MkFilling [MkIov (PCs dg) 4; MkIov (PHeap pg) (Z.min (to_boundary o) (zlen D))] (dg + 4) (pg + Z.min (to_boundary o) (zlen D)) (zlen (bytes_of E'))) as ->.
  { unfold add_pg. cbn [f_left f_iov f_pg f_dg app]. destruct (decide (adv (to_boundary o) D = [])) as [Hend|Hne].
    - assert (E' = []) as HE' by (unfold E'; by rewrite Hend, pieces_nil). rewrite HE' in *. change (zlen (bytes_of [])) with 0 in *.
      assert ((if L - 4 <? to_boundary o then L - 4 else to_boundary o) = Z.min (to_boundary o) (zlen D)) as -> by (destruct (Z.ltb_spec (L - 4) (to_boundary o)); lia). f_equal. lia.
    - destruct (Hmore Hne). rewrite (proj2 (Z.ltb_ge _ _)) by lia. rewrite Z.min_l by lia. f_equal. lia. }
  replace (2 * K)%nat with (S (S (2 * (K - 1)))) by lia. cbn [firstn vec_at]. rewrite zlen_be, Hzp. unfold filled at 1. cbn [f_left f_iov]. change (zlen [_; _]) with 2.
  destruct (Z.eqb_spec (zlen (bytes_of E')) 0) as [E0|E0].
  - cbn [orb f_iov]. destruct (decide (adv (to_boundary o) D = [])) as [Hend|Hne]; [|destruct (Hmore Hne); lia]. unfold E'. rewrite Hend, pieces_nil. change (elems [] cs') with (@nil elem). by rewrite take_nil.
  - cbn [orb]. destruct (Z.leb_spec max_iovcnt 2) as [HK1|HK1]; [cbn [f_iov]; replace (2 * (K - 1))%nat with 0%nat by lia; done|].
    assert (adv (to_boundary o) D <> []) as Hne by (intros E; apply E0; unfold E'; by rewrite E, pieces_nil).
    pose proof (fill_aligned _ _ cs' 1 (MkFilling [MkIov (PCs dg) 4; MkIov (PHeap pg) (Z.min (to_boundary o) (zlen D))] (dg + 4) (pg + Z.min (to_boundary o) (zlen D)) (zlen (bytes_of E')))
      (aligned_next o) Hne Hl' eq_refl ltac:(lia) eq_refl) as Hfa. fold E' in Hfa. unfold fill_rest in Hfa. cbn [f_left] in Hfa |- *. rewrite Hfa. cbn [f_iov f_dg f_pg app]. by rewrite vec_at_take.
Qed.
End filling.
