(* ===== verification/PgReceive.v ===== *)
(** * Reads with checksums, from the file to the user's buffer

    The reader of the client ([PgReader]) receives a response however its bytes arrive, and
    responses one after the other; together with the server of [PgRead], what the user gets
    is the content of the file, with the checksums of its pieces. *)

From stdpp Require Import base tactics list_numbers numbers option list strings gmap.
From S2P Require Import Prelude CrcRegister OucCRC32C CsiCrc PgrwUtils LinkData PgwCtl PgWire PgWrite PgServe PgSend PgRead PgReader.
#[local] Set Warnings "-clear-no-such-hyp".

(** ** The responses, one after the other (XrdCl/XrdClXRootDMsgHandler.cc) *)

Section receive.
Context (m : machine) (max_iovcnt : Z) (chunks : list Chunk).

(** [InspectStatusRsp()] and [ReadMessageBody( socket, bytesRead )]: a partial result is read
    and not processed, the final one ends the request. The arrivals of a response begin
    behind its header. The result tells whether the request was completed. *)
Fixpoint receive (l : list Reply) (nets : list (list arrival)) (r : PageReader) (M : mem) : res (bool * PageReader * mem) :=
  match l, nets with
  | RPages final ofs units :: l, net :: nets =>
      r ← SetRsp chunks (zlen units) ofs r;
      '(st, r, M, net) ← read_body m max_iovcnt chunks (S (length net)) r M net;
      match st with
      | stOK => if final then Ok (true, r, M) else receive l nets r M
      | _ => Ok (false, r, M)
      end
  | _, _ => Ok (false, r, M)
  end.
End receive.

(** ** Arrivals *)

(** The bytes arrive, in pieces, with calls that would block in between. *)
Definition good_arrival (a : arrival) : Prop := match a with AData l => l <> [] | ANone => True | AFail => False end.
Definition arrived (net : list arrival) : list Z := mjoin ((fun a => if a is AData l then l else []) <$> net).

Lemma arrived_cons a net : arrived (a :: net) = (if a is AData l then l else []) ++ arrived net.
Proof. done. Qed.

Lemma ReadV_spec v net M X tail : Forall good_arrival net -> arrived net = X ++ tail -> X <> [] -> 0 < iov_total v <= zlen X ->
  (exists net', ReadV v net M = Ok (stRetry, 0, net', M) /\ Forall good_arrival net' /\ arrived net' = arrived net /\ (length net' < length net)%nat) \/
  exists k net', 0 < k <= iov_total v /\ ReadV v net M = (M' ← scatter v (take (Z.to_nat k) X) M; Ok (stOK, k, net', M')) /\ Forall good_arrival net' /\
    arrived net' = drop (Z.to_nat k) X ++ tail /\ (length net' <= length net)%nat.
Proof.
  intros Hg Ha HX Ht. destruct net as [|[a| |] net].
  - change (arrived []) with (@nil Z) in Ha. symmetry in Ha. by apply app_eq_nil in Ha as [? _].
  - inversion_clear Hg as [|? ? Hne Hg']. cbn in Hne. rewrite arrived_cons in Ha. right. cbn [ReadV]. pose proof (zlen_pos a Hne) as Hza.
    set (t := iov_total v) in *. assert (zlen (take (Z.to_nat t) a) = Z.min t (zlen a)) as Hk by (unfold zlen; rewrite length_take; lia).
    assert (take (Z.to_nat t) a = take (Z.to_nat (Z.min t (zlen a))) X) as Hgot.
    { transitivity (take (Z.to_nat (Z.min t (zlen a))) (X ++ tail)); [|by rewrite take_app_le by (unfold zlen in *; lia)].
      rewrite <- Ha, take_app_le by (unfold zlen in *; lia). destruct (decide (t <= zlen a)); [by rewrite Z.min_l|]. rewrite Z.min_r, !take_ge by (unfold zlen in *; lia). done. }
    assert (drop (Z.to_nat t) a ++ arrived net = drop (Z.to_nat (Z.min t (zlen a))) X ++ tail) as Hrest.
    { rewrite <- (drop_app_le X) by (unfold zlen in *; lia). rewrite <- Ha. destruct (decide (t <= zlen a)); [rewrite Z.min_l, drop_app_le by (unfold zlen in *; lia); done|].
      rewrite Z.min_r, drop_app_ge by (unfold zlen in *; lia). rewrite (drop_ge a) by (unfold zlen in *; lia). replace (Z.to_nat (zlen a) - length a)%nat with 0%nat by (unfold zlen; lia). done. }
    exists (Z.min t (zlen a)), (if drop (Z.to_nat t) a is [] then net else AData (drop (Z.to_nat t) a) :: net). split; [lia|]. split.
    { rewrite <- Hgot, <- Hk. destruct (take (Z.to_nat t) a); [change (zlen []) with 0 in Hk; lia|done]. }
    rewrite <- Hrest. destruct (drop (Z.to_nat t) a) as [|x l]; [split; [done|]; split; [done|cbn; lia]|]. split; [by constructor|]. split; [done|cbn; lia].
  - left. inversion_clear Hg. exists net. split; [done|]. split; [done|]. split; [done|cbn; lia].
  - inversion_clear Hg as [|? ? Hf]. destruct Hf.
Qed.

(** ** The pieces that are left *)

Lemma pieces_drop (k : nat) o D : exists D2, drop k (pieces o D) = pieces (o + zlen D - zlen D2) D2 /\ mjoin (snd <$> take k (pieces o D)) ++ D2 = D.
Proof.
  revert o D. induction k as [|k IH]; intros o D.
  - exists D. split; [|done]. by replace (o + zlen D - zlen D) with o by lia.
  - destruct (decide (D = [])) as [->|HD]; [by exists []|]. rewrite pieces_cons by done. destruct (IH (o + to_boundary o) (adv (to_boundary o) D)) as (D2 & H1 & H2). exists D2.
    cbn [firstn skipn]. rewrite fmap_cons, mjoin_cons. cbn [snd]. rewrite H1, <- app_assoc, H2, take_adv_join. split; [|done].
    pose proof (to_boundary_range o). destruct (decide (to_boundary o <= zlen D)) as [Hle|Hgt]; [rewrite zlen_adv_more by lia; f_equal; lia|].
    assert (adv (to_boundary o) D = []) as E by (unfold adv; apply drop_ge; unfold zlen in *; lia). rewrite E in H2. by apply app_eq_nil in H2 as [_ ->].
Qed.

Lemma zlen_elems ps cs : length cs = length ps -> zlen (bytes_of (elems ps cs)) = 4 * zlen cs + zlen (mjoin (snd <$> ps)).
Proof.
  revert cs. induction ps as [|p ps IH]; intros [|c cs] Hl; try done. injection Hl as Hl.
  rewrite elems_cons, !bytes_cons, !zlen_app, IH by done. cbn [snd]. rewrite fmap_cons, mjoin_cons, zlen_app, zlen_be, zlen_cons. lia.
Qed.

(** The last element of a response is data. *)
Lemma elems_dts_nil k ps cs : 0 <= k -> Forall (fun p : Z * list Z => p.2 <> []) ps -> dts (elskip k (elems ps cs)) = [] -> elskip k (elems ps cs) = [].
Proof.
  revert k cs. induction ps as [|p ps IH]; intros k [|c cs] Hk Hps; try done. inversion_clear Hps as [|? ? Hp Hps']. rewrite elems_cons. cbn [elskip]. rewrite zlen_be.
  destruct (Z.ltb_spec k (Z.of_nat 4)); [rewrite !dts_cons; cbn [fst snd app]; intros E; by apply app_eq_nil in E as [? _]|]. pose proof (zlen_pos _ Hp).
  destruct (Z.ltb_spec (k - Z.of_nat 4) (zlen p.2)) as [Hlt|Hge]; [|apply IH; (done || lia)]. rewrite dts_cons. cbn [fst snd]. intros E. apply app_eq_nil in E as [E _].
  apply (f_equal zlen) in E. change (zlen (adv (k - Z.of_nat 4) p.2) = 0) in E. rewrite zlen_adv_more in E; lia.
Qed.

(** All digests in host order. *)
Lemma conv_all m cs : conv m (length cs) (mjoin (be 4 <$> cs)) = mjoin ((fun c => to_host m (be 4 c)) <$> cs).
Proof.
  induction cs as [|c cs IH]; [done|]. cbn [length conv]. rewrite !fmap_cons, !mjoin_cons, take_app_length', drop_app_length' by (by rewrite length_be). by rewrite IH.
Qed.

(** ** One response *)

Section response.
Context (m : machine) (K : nat) (o0 n A ro : Z) (D cs : list Z) (g0 a0 : Z) (cs0 buf0 : list Z).
Let c0 := MkChunk o0 n A.
Let chunks := [c0].
Let mx := 2 * Z.of_nat K.
Let N := digests_size chunks.
Hypotheses (HK : (1 <= K)%nat) (Ho0 : 0 <= o0 <= ro) (Hl : length cs = length (pieces ro D)) (Hsp : ro - o0 + zlen D <= n) (Hg0 : 0 <= g0) (HgN : g0 + zlen cs <= N)
  (Hcsz : 4 * N <= zlen cs0) (Hat : a0 <= A) (Hbuf : A - a0 + n <= zlen buf0) (Hu : n + 4 * N < 2 ^ 32).

(** The reader is at the elements [E] of its vector; the pieces of [D'] at [o'] are not in
    the vector yet. [R] and [T] are the digests and the data that have arrived. *)
Record recv (E : list elem) (o' : Z) (D' cs' R T : list Z) (b : bool) (ic : nat) (r : PageReader) (M : mem) : Prop := {
  rv_pos : pos m A g0 R cs0 b E ic r M;
  rv_suf : exists ps c1 k, 0 <= k /\ Forall (fun p : Z * list Z => p.2 <> []) ps /\ E = elskip k (elems ps c1);
  rv_dg : R ++ dgs E ++ mjoin (be 4 <$> cs') = mjoin (be 4 <$> cs);
  rv_dt : T ++ dts E ++ D' = D;
  rv_R : zlen R = 4 * Z.of_nat ic + r_dgoff r;
  rv_len : length cs' = length (pieces o' D');
  rv_off : o' = ro + zlen T + zlen (dts E);
  rv_ch : r_chindex r = 0;
  rv_choff : r_choff r = ro - o0 + zlen T;
  rv_at : bufAt M = a0;
  rv_mem : bufMem M = paste (A + (ro - o0) - a0) T buf0;
  rv_dlen : r_dlen r = zlen (bytes_of E) + zlen (bytes_of (elems (pieces o' D') cs')) }.

(** The response is in its place, and the reader is ready for the next one. *)
Record complete (r : PageReader) (M : mem) : Prop := {
  cp_dlen : r_dlen r = 0; cp_iov : r_iov r = []; cp_dgoff : r_dgoff r = 0;
  cp_cs : csMem M = paste (4 * g0) (mjoin ((fun c => to_host m (be 4 c)) <$> cs)) cs0;
  cp_at : bufAt M = a0; cp_mem : bufMem M = paste (A + (ro - o0) - a0) D buf0 }.

Definition read_less (k : Z) (r : PageReader) : PageReader :=
  MkReader (r_dlen r - k) (r_rspoff r) (r_chindex r) (r_choff r) (r_dgindex r) (r_dgoff r) (r_iov r) (r_iovindex r).

(** How much is left. *)
Lemma recv_sizes E o' D' cs' R T b ic r M : recv E o' D' cs' R T b ic r M ->
  zlen R + zlen (dgs E) + 4 * zlen cs' = 4 * zlen cs /\ zlen T + zlen (dts E) + zlen D' = zlen D /\ zlen (bytes_of (elems (pieces o' D') cs')) = 4 * zlen cs' + zlen D'.
Proof.
  intros Hr. pose proof (f_equal zlen (rv_dg _ _ _ _ _ _ _ _ _ _ Hr)) as H1. pose proof (f_equal zlen (rv_dt _ _ _ _ _ _ _ _ _ _ Hr)) as H2.
  rewrite !zlen_app in H1, H2. rewrite !zlen_be_all in H1. split; [lia|]. split; [lia|]. by rewrite zlen_elems, pieces_join by apply (rv_len _ _ _ _ _ _ _ _ _ _ Hr).
Qed.

(** Some bytes arrive. *)
Lemma recv_turn E o' D' cs' R T b ic r M k : recv E o' D' cs' R T b ic r M -> E <> [] -> 0 <= k <= zlen (bytes_of E) ->
  exists M1 r' M', scatter (r_iov r) (take (Z.to_nat k) (bytes_of E)) M = Ok M1 /\ ShiftIOV m chunks k (read_less k r) M1 = Ok (next_chunk c0 r', M') /\
    exists R' T' b' ic', recv (elskip k E) o' D' cs' R' T' b' ic' r' M'.
Proof.
  intros Hr HE Hk. pose proof (recv_sizes _ _ _ _ _ _ _ _ _ _ Hr) as (S1 & S2 & _). destruct Hr as [Hp (ps & c1 & k0 & Hk0 & Hps & HEk) Hdg Hdt HR Hlen Hoff Hch Hchoff Hat' Hmem Hdlen].
  pose proof (zlen_nonneg cs') as Hn1. pose proof (zlen_nonneg D') as Hn2. pose proof (zlen_nonneg R) as Hn3. pose proof (zlen_nonneg T) as Hn4. pose proof (zlen_nonneg (dgs E)) as Hn5. pose proof (zlen_nonneg (dts E)) as Hn6.
  pose proof (zlen_nonneg cs) as Hn7. destruct (el_cut k E ltac:(lia)) as (C1 & C2 & _ & _). pose proof (eltake_size k E ltac:(lia)) as [Z1 Z2]. pose proof (zlen_nonneg (dgs (elskip k E))). pose proof (zlen_nonneg (dts (elskip k E))).
  set (dk := dgs (eltake k E)) in *. set (tk := dts (eltake k E)) in *.
  assert (csMem M = paste (4 * g0) (conv m ic R) cs0) as Hcs by apply (pos_cs _ _ _ _ _ _ _ _ _ _ Hp). pose proof (pos_off _ _ _ _ _ _ _ _ _ _ Hp) as Hoff4.
  assert (4 * r_dgindex r + r_dgoff r = 4 * g0 + zlen R) as Hdga by (rewrite (pos_ix _ _ _ _ _ _ _ _ _ _ Hp); lia).
  set (M1 := MkMem (paste (4 * g0) (conv m ic (R ++ dk)) cs0) a0 (paste (A + (ro - o0) - a0) (T ++ tk) buf0)).
  assert (scatter (r_iov r) (take (Z.to_nat k) (bytes_of E)) M = Ok M1) as Hsc.
  { rewrite (pos_iov _ _ _ _ _ _ _ _ _ _ Hp), scatter_elems.
    - fold dk tk. unfold M1. rewrite Hat', Hcs, Hmem, Hdga, Hchoff. f_equal. f_equal.
      + rewrite conv_app by (unfold zlen in *; lia). replace (4 * g0 + zlen R) with (4 * g0 + zlen (conv m ic R)) by (by rewrite zlen_conv). rewrite paste_app; [done|lia|rewrite zlen_conv; lia].
      + replace (A + (ro - o0 + zlen T) - a0) with (A + (ro - o0) - a0 + zlen T) by lia. rewrite paste_app; [done|lia|lia].
    - by apply (alt_nonempty _ _ _ (pos_alt _ _ _ _ _ _ _ _ _ _ Hp)).
    - done.
    - lia.
    - rewrite Hcs, Hdga, zlen_paste by (rewrite ?zlen_conv; lia). lia.
    - rewrite Hat', Hchoff. lia.
    - rewrite Hat', Hchoff, Hmem, zlen_paste by lia. lia. }
  assert (pos m A g0 (R ++ dk) cs0 b E ic (read_less k r) M1) as Hp1 by (destruct Hp; by split).
  destruct (ShiftIOV_spec m A g0 (R ++ dk) cs0 Hg0 ltac:(rewrite zlen_app; lia) chunks c0 b E ic (read_less k r) M1 k Hp1 HE Hk) as (r' & M' & b' & ic' & Hsh & Hp2 & (A1 & A2 & A3 & A4 & A5) & Hm1 & Hm2).
  - cbn [read_less r_chindex]. by rewrite Hch.
  - cbn [read_less r_dgoff]. rewrite zlen_app. unfold dk in *. lia.
  - cbn [read_less r_dgoff r_choff r_dlen r_chindex] in *. fold dk in Hm2. fold tk in Hm1. exists M1, r', M'. split; [done|]. split; [done|]. exists (R ++ dk), (T ++ tk), b', ic'. split.
    + done.
    + exists ps, c1, (k0 + k). split; [lia|]. split; [done|]. rewrite elskip_add by lia. by rewrite HEk.
    + rewrite <- app_assoc, (app_assoc dk), <- C1. done.
    + rewrite <- app_assoc, (app_assoc tk), <- C2. done.
    + rewrite zlen_app. lia.
    + done.
    + rewrite zlen_app. lia.
    + lia.
    + rewrite zlen_app. lia.
    + by rewrite A4.
    + by rewrite A5.
    + rewrite A1, bytes_skip by done. lia.
Qed.

(** The response is not at its end as long as something is left of it. *)
Lemma recv_next E o' D' cs' R T b ic r M : recv E o' D' cs' R T b ic r M -> 0 < r_dlen r -> next_chunk c0 r = r.
Proof.
  intros Hr Hd. pose proof (recv_sizes _ _ _ _ _ _ _ _ _ _ Hr) as (S1 & S2 & S3). destruct Hr as [Hp (ps & c1 & k0 & Hk0 & Hps & HEk) Hdg Hdt HR Hlen Hoff Hch Hchoff Hat' Hmem Hdlen].
  unfold next_chunk. cbn [c0 ch_length]. destruct (Z.leb_spec n (r_choff r)) as [Hle|]; [exfalso|done]. pose proof (zlen_nonneg D'). pose proof (zlen_nonneg (dts E)).
  assert (D' = []) as HD' by (destruct D' as [|x D']; [done|]; pose proof (zlen_pos (x :: D') ltac:(done)); lia). assert (dts E = []) as Hdts by (destruct (dts E) as [|x l] eqn:El; [done|]; pose proof (zlen_pos (x :: l) ltac:(done)); lia).
  rewrite HD' in *. rewrite pieces_nil in Hlen. destruct cs' as [|? ?]; [|done]. rewrite HEk in Hdts. apply elems_dts_nil in Hdts; [|done|done]. rewrite <- HEk in Hdts. rewrite Hdts in Hdlen.
  change (zlen (bytes_of [])) with 0 in Hdlen. change (zlen (@nil Z)) with 0 in *. lia.
Qed.

Lemma recv_done E o' D' cs' R T b ic r M : recv E o' D' cs' R T b ic r M -> r_dlen r = 0 -> complete (next_chunk c0 r) M.
Proof.
  intros Hr Hd. pose proof (recv_sizes _ _ _ _ _ _ _ _ _ _ Hr) as (S1 & S2 & S3). destruct Hr as [Hp _ Hdg Hdt HR Hlen Hoff Hch Hchoff Hat' Hmem Hdlen].
  pose proof (zlen_nonneg D'). pose proof (zlen_nonneg cs'). pose proof (zlen_nonneg (bytes_of E)).
  assert (D' = []) as -> by (destruct D' as [|x D']; [done|]; pose proof (zlen_pos (x :: D') ltac:(done)); lia). assert (cs' = []) as -> by (destruct cs' as [|x l]; [done|]; rewrite zlen_cons in *; pose proof (zlen_nonneg l); lia).
  assert (E = []) as ->.
  { destruct E as [|e E]; [done|]. pose proof (zlen_pos _ (alt_elem _ _ _ e (pos_alt _ _ _ _ _ _ _ _ _ _ Hp) ltac:(by left))). rewrite bytes_cons, zlen_app in *. pose proof (zlen_nonneg (bytes_of E)). lia. }
  change (dgs []) with (@nil Z) in *. change (dts []) with (@nil Z) in *. change (mjoin (be 4 <$> [])) with (@nil Z) in Hdg. rewrite !app_nil_r in *. subst R T. rewrite zlen_be_all in HR.
  pose proof (pos_off _ _ _ _ _ _ _ _ _ _ Hp). assert (ic = length cs) as -> by (unfold zlen in *; lia). assert (r_dgoff r = 0) as Hz by (unfold zlen in *; lia).
  pose proof (pos_iov _ _ _ _ _ _ _ _ _ _ Hp) as Hiov. pose proof (pos_cs _ _ _ _ _ _ _ _ _ _ Hp) as Hcs. rewrite conv_all in Hcs. unfold next_chunk. destruct (ch_length c0 <=? r_choff r); by split.
Qed.

Lemma chunk_at_0 : chunk_at chunks 0 = Ok c0.
Proof. done. Qed.

(** The vector is filled again when it is used up. *)
Lemma InitIOV_spec o' D' cs' R T b ic r M : recv [] o' D' cs' R T b ic r M -> D' <> [] ->
  exists r1 E o2 D2 cs2, InitIOV mx chunks r = Ok r1 /\ recv E o2 D2 cs2 R T true ic r1 M /\ E <> [] /\ r_dlen r1 = r_dlen r /\
    bytes_of E ++ bytes_of (elems (pieces o2 D2) cs2) = bytes_of (elems (pieces o' D') cs').
Proof.
  intros Hr HD. pose proof (recv_sizes _ _ _ _ _ _ _ _ _ _ Hr) as (S1 & S2 & S3). destruct Hr as [Hp _ Hdg Hdt HR Hlen Hoff Hch Hchoff Hat' Hmem Hdlen].
  change (dgs []) with (@nil Z) in *. change (dts []) with (@nil Z) in *. change (bytes_of []) with (@nil Z) in *. change (zlen (@nil Z)) with 0 in *. cbn [app] in Hdg, Hdt.
  pose proof (zlen_nonneg T). pose proof (zlen_nonneg R). pose proof (zlen_pos D' HD). pose proof (zlen_nonneg cs'). pose proof (pos_off _ _ _ _ _ _ _ _ _ _ Hp) as Hof4. pose proof (pos_ix _ _ _ _ _ _ _ _ _ _ Hp) as Hix.
  assert (r_dgoff r = 0) as Hz by lia. set (E0 := elems (pieces o' D') cs') in *.
  destruct (pieces_drop K o' D') as (D2 & Hd2 & Ht2). pose proof (zlen_nonneg D2) as HD2. set (E := elems (take K (pieces o' D')) (take K cs')).
  assert (E0 = E ++ elems (drop K (pieces o' D')) (drop K cs')) as Hcut by (destruct (elems_cut K _ _ Hlen) as [Q1 Q2]; unfold E; rewrite <- Q1, <- Q2; symmetry; apply take_drop).
  assert (length (take K cs') = length (take K (pieces o' D'))) as HlK by (rewrite !length_take; lia). destruct (elems_spec _ _ HlK) as (_ & F2 & F3). fold E in F2, F3.
  assert (Forall (fun p : Z * list Z => p.2 <> []) (take K (pieces o' D'))) as Hne.
  { apply Forall_take, Forall_lookup. intros i [po p] Hi. by destruct (pieces_lookup _ _ _ _ _ Hi) as (_ & _ & ? & _). }
  assert (CalcRdSize chunks r = Ok (r_dlen r)) as Hcalc.
  { unfold CalcRdSize. rewrite Hch, chunk_at_0, bind_Ok. cbn [c0 ch_length]. fold N. rewrite Hchoff, Hix, Hz.
    assert (zlen cs' + Z.of_nat ic = zlen cs) as Hcc by lia. rewrite (u32_small (n - _)), (u32_small (4 * _ - 0)), u32_small by lia. rewrite (proj2 (Z.ltb_ge _ _)) by lia. done. }
  unfold InitIOV. rewrite Hcalc, bind_Ok, Hch, chunk_at_0, bind_Ok. cbn [c0 ch_offset ch_buffer]. rewrite Hz, Z.sub_0_r, Z.add_0_r.
  replace (o0 + r_choff r) with o' by lia. change (PageSize - o' mod PageSize) with (to_boundary o'). rewrite Hdlen, Z.add_0_l. unfold E0, mx. rewrite (fill_spec K HK o' D' cs') by done.
  destruct (elems_cut K _ _ Hlen) as [Htake _]. rewrite Htake. fold E.
  eexists _, E, (o' + zlen D' - zlen D2), D2, (drop K cs'). split; [done|]. cbn [r_dlen].
  assert (zlen (dts E) = zlen D' - zlen D2) as Hzd by (rewrite F3; apply (f_equal zlen) in Ht2; rewrite zlen_app in Ht2; lia).
  split; [|split; [|split; [done|]]].
  - split; cbn [r_dgoff r_iovindex r_iov r_dgindex r_choff r_chindex r_dlen].
    + split; cbn [r_dgoff r_iovindex r_iov r_dgindex r_choff]; try done; try lia.
      * rewrite Z.sub_0_r. apply elems_alt. by apply Forall_fmap.
      * by rewrite Z.add_0_r.
      * apply (pos_cs _ _ _ _ _ _ _ _ _ _ Hp).
    + exists (take K (pieces o' D')), (take K cs'), 0. split; [lia|]. split; [done|]. symmetry. apply el_0. intros e He. eapply alt_elem; [|done]. apply elems_alt. by apply Forall_fmap.
    + rewrite F2, <- Hdg. f_equal. rewrite <- join_app, <- fmap_app, take_drop. done.
    + rewrite F3, Ht2. done.
    + lia.
    + rewrite <- Hd2, !length_drop. lia.
    + rewrite Hzd. lia.
    + done.
    + done.
    + done.
    + done.
    + rewrite <- Hd2. rewrite <- zlen_app, <- bytes_app, <- Hcut. done.
  - unfold E. rewrite <- Htake. replace (2 * K)%nat with (S (2 * K - 1)) by lia. rewrite pieces_cons by done. destruct cs' as [|c cs']; [rewrite pieces_cons in Hlen by done; done|]. done.
  - by rewrite <- Hd2, <- bytes_app, <- Hcut.
Qed.

(** Between two calls: what is left of the response is still to arrive, before [tail]. *)
Definition left_over (E : list elem) (o' : Z) (D' cs' : list Z) : list Z := bytes_of E ++ bytes_of (elems (pieces o' D') cs').
Definition going (tail : list Z) (r : PageReader) (M : mem) (net : list arrival) : Prop :=
  Forall good_arrival net /\ 0 < r_dlen r /\
  exists E o' D' cs' R T b ic, recv E o' D' cs' R T b ic r M /\ arrived net = left_over E o' D' cs' ++ tail.

Lemma going_vector tail r M net : going tail r M net -> exists r1 E o' D' cs' R T b ic,
  (if r_iov r is [] then InitIOV mx chunks r else Ok r) = Ok r1 /\ r_dlen r1 = r_dlen r /\ recv E o' D' cs' R T b ic r1 M /\ E <> [] /\ arrived net = left_over E o' D' cs' ++ tail.
Proof.
  intros (_ & Hd & E & o' & D' & cs' & R & T & b & ic & Hr & Ha). pose proof (pos_iov _ _ _ _ _ _ _ _ _ _ (rv_pos _ _ _ _ _ _ _ _ _ _ Hr)) as Hiov. destruct E as [|e E].
  - cbn [vec_at] in Hiov. rewrite Hiov. pose proof (rv_dlen _ _ _ _ _ _ _ _ _ _ Hr) as Hdl. destruct (decide (D' = [])) as [E0|HD].
    { rewrite E0, pieces_nil in Hdl. change (elems [] cs') with (@nil elem) in Hdl. change (zlen (bytes_of [])) with 0 in Hdl. lia. }
    destruct (InitIOV_spec _ _ _ _ _ _ _ _ _ Hr HD) as (r1 & E1 & o2 & D2 & cs2 & -> & Hr1 & HE & Hdl1 & Hb). exists r1, E1, o2, D2, cs2, R, T, true, ic. unfold left_over. rewrite Hb. done.
  - exists r, (e :: E), o', D', cs', R, T, b, ic. rewrite Hiov. destruct e as [[] x]; done.
Qed.

Lemma read_loop_spec tail fuel acc r M net : going tail r M net -> (Z.to_nat (r_dlen r) < fuel)%nat ->
  exists st acc' r' M' net', read_loop m mx chunks fuel acc r M net = Ok (st, acc', r', M', net') /\ Forall good_arrival net' /\
    match st with
    | stOK => complete r' M' /\ arrived net' = tail
    | stRetry => (length net' < length net)%nat /\ going tail r' M' net'
    | stError => False
    end.
Proof.
  revert acc r M net. induction fuel as [|fuel IH]; intros acc r M net Hgo Hf; [lia|]. cbn [read_loop]. pose proof Hgo as (Hgood & Hd & _).
  destruct (going_vector _ _ _ _ Hgo) as (r1 & E & o' & D' & cs' & R & T & b & ic & -> & Hdl & Hr & HE & Ha). rewrite bind_Ok. rewrite <- Hdl in Hd, Hf.
  pose proof (pos_iov _ _ _ _ _ _ _ _ _ _ (rv_pos _ _ _ _ _ _ _ _ _ _ Hr)) as Hiov. pose proof (rv_dlen _ _ _ _ _ _ _ _ _ _ Hr) as Hdlen.
  assert (0 < zlen (bytes_of E)) as HzE.
  { destruct E as [|e E]; [done|]. pose proof (zlen_pos _ (alt_elem _ _ _ e (pos_alt _ _ _ _ _ _ _ _ _ _ (rv_pos _ _ _ _ _ _ _ _ _ _ Hr)) ltac:(by left))). rewrite bytes_cons, zlen_app. pose proof (zlen_nonneg (bytes_of E)). lia. }
  assert (zlen (left_over E o' D' cs') = r_dlen r1) as HzX by (unfold left_over; rewrite zlen_app; lia). pose proof (zlen_nonneg (bytes_of (elems (pieces o' D') cs'))) as Hnn.
  assert (iov_total (r_iov r1) = zlen (bytes_of E)) as Htot by (by rewrite Hiov, iov_total_vec).
  assert (left_over E o' D' cs' <> []) as HX by (intros E0; rewrite E0 in HzX; change (zlen []) with 0 in HzX; lia).
  destruct (ReadV_spec (r_iov r1) net M _ tail Hgood Ha HX ltac:(lia)) as [(net' & -> & Hg' & Ha' & Hlt)|(k & net' & Hk & -> & Hg' & Ha' & Hle)].
  - rewrite bind_Ok. destruct (recv_turn _ _ _ _ _ _ _ _ _ _ 0 Hr HE ltac:(lia)) as (M1 & r' & M' & Hsc & Hsh & R' & T' & b' & ic' & Hr').
    change (take (Z.to_nat 0) (bytes_of E)) with (@nil Z) in Hsc. rewrite scatter_nil in Hsc. injection Hsc as <-. unfold read_less in Hsh. rewrite Hsh, bind_Ok.
    pose proof (fun e => alt_elem _ _ E e (pos_alt _ _ _ _ _ _ _ _ _ _ (rv_pos _ _ _ _ _ _ _ _ _ _ Hr))) as HE0. destruct (el_0 E HE0) as (Hsk & _). rewrite Hsk in Hr'.
    pose proof (rv_dlen _ _ _ _ _ _ _ _ _ _ Hr') as Hdlen'. rewrite (recv_next _ _ _ _ _ _ _ _ _ _ Hr') by lia.
    eexists stRetry, _, r', M', net'. split; [done|]. split; [done|]. split; [done|]. split; [done|]. split; [lia|]. exists E, o', D', cs', R', T', b', ic'. by rewrite Ha'.
  - assert (take (Z.to_nat k) (left_over E o' D' cs') = take (Z.to_nat k) (bytes_of E)) as -> by (unfold left_over; rewrite take_app_le by (unfold zlen in *; lia); done).
    destruct (recv_turn _ _ _ _ _ _ _ _ _ _ k Hr HE ltac:(lia)) as (M1 & r' & M' & -> & Hsh & R' & T' & b' & ic' & Hr'). rewrite !bind_Ok. unfold read_less in Hsh. rewrite Hsh, bind_Ok.
    pose proof (rv_dlen _ _ _ _ _ _ _ _ _ _ Hr') as Hdlen'. rewrite bytes_skip in Hdlen' by lia. rewrite (proj2 (Z.ltb_lt 0 k)) by lia. cbn [andb].
    assert (drop (Z.to_nat k) (left_over E o' D' cs') = left_over (elskip k E) o' D' cs') as Hdr.
    { unfold left_over. rewrite drop_app_le by (unfold zlen in *; lia). destruct (el_cut k E ltac:(lia)) as (_ & _ & _ & ->). done. }
    destruct (Z.eqb_spec (r_dlen r') 0) as [Ez|Ez].
    + assert (r_dlen (next_chunk c0 r') = 0) as -> by (unfold next_chunk; destruct (_ <=? _); done). cbn [Z.ltb Z.compare andb].
      eexists stOK, _, _, M', net'. split; [done|]. split; [done|]. split; [by eapply recv_done|]. rewrite Ha', Hdr.
      assert (zlen (left_over (elskip k E) o' D' cs') = 0) as Hz by (unfold left_over; rewrite zlen_app, bytes_skip by lia; lia).
      destruct (left_over (elskip k E) o' D' cs') as [|x l]; [done|]. rewrite zlen_cons in Hz. pose proof (zlen_nonneg l). lia.
    + rewrite (recv_next _ _ _ _ _ _ _ _ _ _ Hr') by lia. rewrite (proj2 (Z.ltb_lt 0 (r_dlen r'))) by lia. rewrite (rv_ch _ _ _ _ _ _ _ _ _ _ Hr'). change (0 <? zlen chunks) with true. cbn [andb].
      destruct (IH (acc + k) r' M' net') as (st & acc' & r2 & M2 & net2 & -> & Hg2 & Hm).
      { split; [done|]. split; [lia|]. exists (elskip k E), o', D', cs', R', T', b', ic'. split; [done|]. by rewrite Ha', Hdr. }
      { lia. }
      exists st, acc', r2, M2, net2. split; [done|]. split; [done|]. destruct st; [done|split; [lia|apply Hm]|done].
Qed.

Lemma read_body_spec tail fuel r M net : going tail r M net -> (length net < fuel)%nat ->
  exists r' M' net', read_body m mx chunks fuel r M net = Ok (stOK, r', M', net') /\ complete r' M' /\ arrived net' = tail.
Proof.
  revert r M net. induction fuel as [|fuel IH]; intros r M net Hgo Hf; [lia|]. cbn [read_body]. unfold Read. pose proof Hgo as (_ & Hd & E & o' & D' & cs' & R & T & b & ic & Hr & Ha).
  rewrite (proj2 (Z.eqb_neq _ _)) by lia. rewrite (rv_ch _ _ _ _ _ _ _ _ _ _ Hr). change (zlen chunks <=? 0) with false. cbn [orb].
  destruct (read_loop_spec tail (S (Z.to_nat (r_dlen r))) 0 r M net Hgo ltac:(lia)) as (st & acc' & r' & M' & net' & -> & Hg & Hm). rewrite bind_Ok. destruct st; [|destruct Hm as [Hlt Hgo']|done].
  - exists r', M', net'. split; [done|]. apply Hm.
  - destruct net' as [|a net']; [|apply IH; [done|lia]]. exfalso. destruct Hgo' as (_ & Hd' & E' & o2 & D2 & cs2 & R2 & T2 & b2 & ic2 & Hr2 & Ha2).
    change (arrived []) with (@nil Z) in Ha2. symmetry in Ha2. apply app_eq_nil in Ha2 as [Ha2 _]. apply app_eq_nil in Ha2 as [E1 E2]. pose proof (rv_dlen _ _ _ _ _ _ _ _ _ _ Hr2) as Hdl.
    rewrite E1, E2 in Hdl. change (zlen []) with 0 in Hdl. lia.
Qed.

(** A reader that can take a response, which is then read to its end. *)
Definition idle (r : PageReader) : Prop := r_iov r = [] /\ r_dgoff r = 0.

Lemma complete_idle r M : complete r M -> idle r.
Proof. intros [_ H1 H2 _ _ _]. by split. Qed.

Lemma response_read r M net tail : g0 = ro / PageSize - o0 / PageSize -> idle r -> csMem M = cs0 -> bufAt M = a0 -> bufMem M = buf0 ->
  Forall good_arrival net -> arrived net = wire ro D cs ++ tail ->
  exists r1 r' M' net', SetRsp chunks (zlen (wire ro D cs)) ro r = Ok r1 /\ read_body m mx chunks (S (length net)) r1 M net = Ok (stOK, r', M', net') /\ complete r' M' /\ arrived net' = tail.
Proof.
  intros Hg [Hiov Hdg] HM1 HM2 HM3 Hgood Ha. destruct (elems_wire ro D cs Hl) as [Hw Hd]. pose proof (zlen_elems _ _ Hl) as Hz. rewrite Hw, pieces_join in Hz. pose proof (zlen_nonneg D). pose proof (zlen_nonneg cs).
  assert (SetRsp chunks (zlen (wire ro D cs)) ro r = Ok (MkReader (zlen (wire ro D cs)) ro 0 (ro - o0) g0 0 [] (r_iovindex r))) as Hset.
  { unfold SetRsp, chunks. cbn [find_chunk c0 ch_offset ch_length]. assert (0 <= ro / PageSize) by (unfold PageSize; lia_div).
    rewrite (u64_small (ro - o0)) by lia. rewrite (proj2 (Z.ltb_ge _ _)) by lia. rewrite Hiov, Hdg, u32_small by lia. rewrite !Z.quot_div_nonneg by (unfold PageSize; lia). rewrite <- Hg, u64_small by lia. done. }
  set (r1 := MkReader (zlen (wire ro D cs)) ro 0 (ro - o0) g0 0 [] (r_iovindex r)) in *. destruct (decide (D = [])) as [E|HD].
  - assert (cs = []) as Ec by (rewrite E in Hl; by apply length_zero_iff_nil in Hl). assert (wire ro D cs = []) as Hw0 by (by rewrite E, Ec).
    assert (r_dlen r1 = 0) as Hd0 by (cbn [r1 r_dlen]; by rewrite Hw0). rewrite Hw0 in Ha. exists r1, r1, M, net. split; [done|].
    split; [cbn [read_body]; unfold Read; by rewrite Hd0|]. split; [|done]. split; try done.
    + rewrite Ec, HM1. symmetry. apply paste_nil.
    + by rewrite E, paste_nil.
  - pose proof (zlen_pos D HD). destruct (read_body_spec tail (S (length net)) r1 M net) as (r' & M' & net' & Hb & Hc & Ht); [|lia|by exists r1, r', M', net'].
    split; [done|]. split; [cbn [r1 r_dlen]; lia|]. exists [], ro, D, cs, [], [], (Z.even (r_iovindex r)), 0%nat. split; [|unfold left_over; by rewrite Hw].
    split; cbn [r1 r_chindex r_choff r_dlen r_dgoff]; try done.
    + split; cbn [r1 r_iovindex r_iov r_dgindex r_dgoff r_choff]; try done; try lia. change (conv m 0 []) with (@nil Z). by rewrite paste_nil.
    + by exists [], [], 0.
    + change (zlen []) with 0. change (dts []) with (@nil Z). change (zlen []) with 0. lia.
    + change (zlen []) with 0. lia.
    + by rewrite paste_nil.
    + by rewrite Hw.
Qed.
End response.

(** ** All responses *)

(** The response arrives, before other bytes. *)
Definition arrives (x : Reply) (net : list arrival) : Prop :=
  match x with RPages _ _ units => Forall good_arrival net /\ exists tail, arrived net = units ++ tail | _ => False end.

(** The bytes of the digests in memory, and the words the machine reads there. *)
Definition host_bytes (m : machine) (cs : list Z) : list Z := mjoin ((fun c => to_host m (be 4 c)) <$> cs).
Definition host_words (m : machine) (n : Z) (M : mem) : list Z := (fun i => of_be (to_host m (slice (4 * i) 4 (csMem M)))) <$> seqZ 0 n.

Lemma host_bytes_cons m c cs : host_bytes m (c :: cs) = to_host m (be 4 c) ++ host_bytes m cs.
Proof. done. Qed.

Lemma host_bytes_app m a b : host_bytes m (a ++ b) = host_bytes m a ++ host_bytes m b.
Proof. unfold host_bytes. by rewrite fmap_app, join_app. Qed.

Lemma zlen_host_bytes m cs : zlen (host_bytes m cs) = 4 * zlen cs.
Proof.
  induction cs as [|c cs IH]; [done|]. rewrite host_bytes_cons, zlen_app, IH, zlen_cons. unfold zlen at 1. rewrite length_to_host, length_be. lia.
Qed.

Lemma host_words_paste m cs mm a b : Forall word cs -> 4 * zlen cs <= zlen mm -> host_words m (zlen cs) (MkMem (paste 0 (host_bytes m cs) mm) a b) = cs.
Proof.
  intros Hw Hz. apply list_eq. intros i. unfold host_words. cbn [csMem]. destruct (decide (i < length cs)%nat) as [Hi|Hi].
  2:{ rewrite !lookup_ge_None_2; [done|lia|]. rewrite length_fmap, length_seqZ. unfold zlen. lia. }
  destruct (lookup_lt_is_Some_2 cs i Hi) as [c Hc]. rewrite Hc, list_lookup_fmap, lookup_seqZ_lt by (unfold zlen; lia). cbn [fmap option_fmap option_map]. f_equal. rewrite Z.add_0_l.
  assert (cs = take i cs ++ [c] ++ drop (S i) cs) as Hcs by (cbn [app]; by rewrite take_drop_middle). assert (zlen (host_bytes m (take i cs)) = 4 * Z.of_nat i) as Hzi by (rewrite zlen_host_bytes; unfold zlen; rewrite length_take; lia).
  pose proof (rd_paste 0 (host_bytes m cs) mm ltac:(lia) ltac:(rewrite zlen_host_bytes; lia)) as Hr. set (mp := paste 0 (host_bytes m cs) mm) in *. rewrite Hcs, host_bytes_app in Hr. apply rd_app in Hr as [_ Hr]. rewrite host_bytes_app in Hr. apply rd_app in Hr as [Hr _].
  rewrite Hzi, Z.add_0_l in Hr. change (host_bytes m [c]) with (to_host m (be 4 c) ++ []) in Hr. rewrite app_nil_r in Hr.
  replace (zlen (to_host m (be 4 c))) with 4 in Hr by (unfold zlen; by rewrite length_to_host, length_be). unfold rd_bytes in Hr. destruct (_ && _) in Hr; [|done]. injection Hr as Hr.
  unfold slice. rewrite Hr. assert (word c) as Hwc by (rewrite Forall_lookup in Hw; by eapply Hw). unfold to_host. destruct (is_little m); rewrite ?rev_involutive; apply of_be_be; exact Hwc.
Qed.

(** There is room for the digests of a response. *)
Lemma room_digests o0 o n D : 0 <= o0 <= o -> o = o0 \/ o mod PageSize = 0 -> 0 < n -> o - o0 + zlen D <= n ->
  0 <= o / PageSize - o0 / PageSize /\ o / PageSize - o0 / PageSize + zlen (pieces o D) <= csNum o0 n /\
    ((o + zlen D) mod PageSize = 0 -> (o + zlen D) / PageSize - o0 / PageSize = o / PageSize - o0 / PageSize + zlen (pieces o D)).
Proof.
  intros Ho Hal Hn Hsp. rewrite csNum_npages by lia. assert (0 <= o / PageSize - o0 / PageSize) by (unfold PageSize; lia_div). split; [done|]. destruct (decide (D = [])) as [->|HD].
  - rewrite pieces_nil. change (zlen (@nil Z)) with 0 in *. change (zlen []) with 0. rewrite !Z.add_0_r in *. split; [|done]. unfold npages. destruct Hal as [->|Hal]; unfold PageSize in *; lia_div.
  - rewrite zlen_pieces by (done || lia). pose proof (zlen_pos D HD). unfold npages. split; [destruct Hal as [->|Hal]; unfold PageSize in *; lia_div|]. intros Hend. unfold PageSize in *. lia_div.
Qed.

Lemma delivers_length o B ds l : delivers o B ds l -> 0 <= o -> zlen ds = zlen (pieces o B).
Proof.
  induction 1 as [o|o D cs HD Hl|o D cs B ds l HD Hl Hend Hdel IH]; intros Ho; [done|unfold zlen; by rewrite Hl|]. pose proof (zlen_nonneg D).
  rewrite pieces_app, !zlen_app, IH by (done || lia). unfold zlen. by rewrite Hl.
Qed.

Section all.
Context (m : machine) (K : nat) (o0 n A : Z).
Let chunks := [MkChunk o0 n A].
Hypotheses (HK : (1 <= K)%nat) (Ho0 : 0 <= o0) (Hn : 0 < n <= 2 ^ 31 - 2 * PageSize).

Lemma digests_size_spec : digests_size chunks = csNum o0 n /\ n + 4 * csNum o0 n < 2 ^ 32.
Proof.
  unfold digests_size, chunks. cbn [foldr ch_offset ch_length]. rewrite Z.add_0_r, u32_small by (unfold PageSize in *; lia). split; [done|]. rewrite csNum_npages by lia. unfold npages, PageSize in *. lia_div.
Qed.

(** The memory: the buffer of the user, and the vector of digests. *)
Record fits (M : mem) : Prop := { ft_cs : 4 * csNum o0 n <= zlen (csMem M); ft_at : bufAt M <= A; ft_buf : A - bufAt M + n <= zlen (bufMem M) }.

(** The responses from [o] on have brought the data [B] with the digests [ds]. *)
Definition brought (o : Z) (B ds : list Z) (M M' : mem) : Prop :=
  M' = MkMem (paste (4 * (o / PageSize - o0 / PageSize)) (host_bytes m ds) (csMem M)) (bufAt M) (paste (A + (o - o0) - bufAt M) B (bufMem M)).

Lemma one_response o D cs r M net units : o0 <= o -> o = o0 \/ o mod PageSize = 0 -> o - o0 + zlen D <= n -> length cs = length (pieces o D) -> fits M -> idle r -> units = wire o D cs ->
  Forall good_arrival net /\ (exists tail, arrived net = units ++ tail) ->
  exists r1 r' M' net', SetRsp chunks (zlen units) o r = Ok r1 /\ read_body m (2 * Z.of_nat K) chunks (S (length net)) r1 M net = Ok (stOK, r', M', net') /\ idle r' /\ brought o D cs M M' /\ fits M'.
Proof.
  intros Ho Hal Hsp Hl Hfit Hidle -> [Hg (tail & Ha)]. destruct (room_digests o0 o n D ltac:(lia) Hal ltac:(lia) Hsp) as (R1 & R2 & _). destruct digests_size_spec as [N1 N2]. destruct Hfit as [F1 F2 F3]. pose proof (zlen_nonneg D).
  assert (zlen cs = zlen (pieces o D)) as Hzl by (unfold zlen; by rewrite Hl).
  destruct (response_read m K o0 n A o D cs (o / PageSize - o0 / PageSize) (bufAt M) (csMem M) (bufMem M) HK ltac:(lia) Hl Hsp ltac:(lia) ltac:(fold chunks; lia) ltac:(fold chunks; lia) F2 F3 ltac:(fold chunks; lia) r M net tail
    eq_refl Hidle eq_refl eq_refl eq_refl Hg Ha) as (r1 & r' & M' & net' & H1 & H2 & Hc & _). exists r1, r', M', net'. split; [done|]. split; [done|]. split; [by eapply complete_idle|].
  destruct Hc as [_ _ _ C1 C2 C3]. split; [destruct M'; cbn in *; unfold brought; by rewrite C1, C2, C3|].
  split; [rewrite C1, zlen_paste; [lia|lia|]|lia|rewrite C2, C3, zlen_paste; lia]. change (mjoin _) with (host_bytes m cs). rewrite zlen_host_bytes. lia.
Qed.

Lemma receive_spec o B ds l : delivers o B ds l -> forall nets r M, o0 <= o -> o = o0 \/ o mod PageSize = 0 -> o - o0 + zlen B <= n -> fits M -> idle r -> Forall2 arrives l nets ->
  exists r' M', receive m (2 * Z.of_nat K) chunks l nets r M = Ok (true, r', M') /\ brought o B ds M M'.
Proof.
  induction 1 as [o|o D cs HD Hl|o D cs B ds l HD Hl Hend Hdel IH]; intros nets r M Ho Hal Hsp Hfit Hidle Hnets; inversion_clear Hnets as [|? net ? nets' Harr Hrest]; cbn [receive].
  - destruct (one_response o [] [] r M net [] Ho Hal Hsp eq_refl Hfit Hidle eq_refl Harr) as (r1 & r' & M' & net' & -> & Hb & _ & Hbr & _). rewrite bind_Ok, Hb, bind_Ok. by exists r', M'.
  - destruct (one_response o D cs r M net _ Ho Hal Hsp Hl Hfit Hidle eq_refl Harr) as (r1 & r' & M' & net' & -> & Hb & _ & Hbr & _). rewrite bind_Ok, Hb, bind_Ok. by exists r', M'.
  - rewrite zlen_app in Hsp. pose proof (zlen_nonneg B). pose proof (zlen_nonneg D).
    destruct (one_response o D cs r M net _ Ho Hal ltac:(lia) Hl Hfit Hidle eq_refl Harr) as (r1 & r' & M1 & net' & -> & Hb & Hid & Hbr & Hfit1). rewrite bind_Ok, Hb, bind_Ok.
    destruct (IH nets' r' M1 ltac:(lia) ltac:(by right) ltac:(lia) Hfit1 Hid Hrest) as (r2 & M2 & -> & Hbr2). exists r2, M2. split; [done|].
    destruct (room_digests o0 o n D ltac:(lia) Hal ltac:(lia) ltac:(lia)) as (R1 & R2 & R3). destruct (room_digests o0 (o + zlen D) n B ltac:(lia) ltac:(by right) ltac:(lia) ltac:(lia)) as (_ & R4 & _). destruct Hfit as [F1 F2 F3].
    unfold brought in *. subst M1 M2. cbn [csMem bufAt bufMem]. f_equal.
    + rewrite R3 by done. assert (zlen cs = zlen (pieces o D)) as Hzl by (unfold zlen; by rewrite Hl).
      assert (zlen ds = zlen (pieces (o + zlen D) B)) as Hzl2 by (eapply delivers_length; [done|lia]).
      replace (4 * (o / PageSize - o0 / PageSize + zlen (pieces o D))) with (4 * (o / PageSize - o0 / PageSize) + zlen (host_bytes m cs)) by (rewrite zlen_host_bytes; lia).
      rewrite host_bytes_app. apply paste_app; rewrite ?zlen_host_bytes; lia.
    + replace (A + (o + zlen D - o0) - bufAt M) with (A + (o - o0) - bufAt M + zlen D) by lia. apply paste_app; lia.
Qed.
End all.

(** C10: A read with checksums brings the content of the file to the user.
    Unless the server ends its replies with an error that the file itself
    gave, they carry the bytes of the file from the offset of the request, in
    order: all that were asked for, or up to a place where the file gave less
    than it was asked for; so all up to the end of a file that comes up short
    only there. The client receives them however they arrive, in pieces of any
    size and with calls that would block in between, and with vectors of any
    size; then the buffer has those bytes, the vector of digests their
    checksums in the byte order of the machine, and nothing else of the memory
    has changed. *)
Theorem pages_read m (K : nat) sysIovMax maxBuffsz {F} `{HF : SfsReaderOk F} `{!SfsContent F} `{BuffPool} (s : Prot (F := F)) o n retry A M :
  buffers_ok sysIovMax maxBuffsz -> (1 <= K)%nat -> 0 <= o -> 0 < n <= 2 ^ 31 - 2 * PageSize -> fits o n A M ->
  exists s' l, do_PgRead sysIovMax maxBuffsz o n retry s = Ok (0, s') /\ p_sent s' = p_sent s ++ l /\
    ((exists l' rc o1 m1, l = l' ++ [RFsError rc] /\ rc < 0 /\ o <= o1 < o + n /\ gave retry (p_file s) o1 m1 rc) \/
     exists B, zlen B <= n /\ (forall i : nat, Z.of_nat i < zlen B -> B !! i = Some (contents (p_file s) (o + Z.of_nat i))) /\
       (zlen B = n \/ exists o1 m1 rc, o <= o1 /\ 0 <= rc < m1 /\ gave retry (p_file s) o1 m1 rc /\ o1 + rc = o + zlen B) /\
       (forall L, reads_to_end retry (p_file s) L -> zlen B = Z.min n (Z.max 0 (L - o))) /\
       forall nets, Forall2 arrives l nets -> exists r M', receive m (2 * Z.of_nat K) [MkChunk o n A] l nets new_reader M = Ok (true, r, M') /\
         host_words m (zlen (piece_sums o B)) M' = piece_sums o B /\
         M' = MkMem (paste 0 (host_bytes m (piece_sums o B)) (csMem M)) (bufAt M) (paste (A - bufAt M) B (bufMem M))).
Proof.
  intros Hbo HK Ho Hn Hfit. destruct (read_serves sysIovMax maxBuffsz s o n retry Hbo Ho Hn) as (s' & l & Hrun & _ & Hs & Hl). exists s', l. split; [done|]. split; [done|].
  destruct Hl as [Herr|(B & Hdel & HzB & Hby & HB & Hwhy & Hsz)]; [by left|right].
  exists B. do 4 (split; [done|]). intros nets Hnets.
  destruct (receive_spec m K o n A HK Ho Hn o B _ _ Hdel nets new_reader M ltac:(lia) ltac:(by left) ltac:(lia) Hfit ltac:(done) Hnets) as (r & M' & Hr & Hbr).
  unfold brought in Hbr. rewrite !Z.sub_diag, Z.mul_0_r, Z.add_0_r in Hbr. exists r, M'. split; [exact Hr|]. split; [|exact Hbr]. subst M'. apply host_words_paste.
  - unfold piece_sums. apply Forall_fmap, Forall_lookup. intros i [po p] Hi. destruct (pieces_lookup _ _ _ _ _ Hi) as (_ & Hp & _). unfold compose. cbn [snd]. apply checksum_word. rewrite Hp. by apply slice_bytes.
  - pose proof (delivers_length _ _ _ _ Hdel Ho) as Hz. destruct (room_digests o o n B ltac:(lia) ltac:(by left) ltac:(lia) ltac:(lia)) as (_ & R2 & _). pose proof (ft_cs _ _ _ _ Hfit). lia.
Qed.

(** A read of four bytes over the end of a page and of the file, with vectors of two
    elements: the client gets three. *)
Lemma pages_read_witness : let M := MkMem (replicate 8 0) 0 (replicate 4 0) in
  exists s' l B, do_PgRead 1024 2097152 4094 4 false sample_open = Ok (0, s') /\ p_sent s' = p_sent sample_open ++ l /\
    zlen B = 3 /\ (forall i : nat, Z.of_nat i < 3 -> B !! i = Some (contents sample_page (4094 + Z.of_nat i))) /\
       forall nets, Forall2 arrives l nets -> exists r M', receive (MkMachine false true 0) 2 [MkChunk 4094 4 0] l nets new_reader M = Ok (true, r, M') /\
         host_words (MkMachine false true 0) (zlen (piece_sums 4094 B)) M' = piece_sums 4094 B /\
         M' = MkMem (paste 0 (host_bytes (MkMachine false true 0) (piece_sums 4094 B)) (csMem M)) (bufAt M) (paste (0 - bufAt M) B (bufMem M)).
Proof.
  intros M. destruct (pages_read (MkMachine false true 0) 1 1024 2097152 sample_open 4094 4 false 0 M) as (s' & l & Hrun & Hs & Hl); [exact sample_buffers|lia|lia|unfold PageSize; lia| |].
  { split; [vm_compute; discriminate|vm_compute; discriminate|vm_compute; discriminate]. }
  assert (forall o m rc, 0 <= o -> gave false (p_file sample_open) o m rc -> rc = Z.min m (Z.max 0 (4097 - o))) as Hg by (intros; by eapply (sample_gave false sample_page)).
  destruct Hl as [(l' & rc & o1 & m1 & _ & Hrc & Ho1 & Hgave)|(B & _ & HB & _ & Hsz & Hnets)].
  { pose proof Hgave as (_ & _ & _ & _ & _ & Hm & _). specialize (Hg o1 m1 rc ltac:(lia) Hgave). lia. }
  assert (zlen B = 3) as Hz by (apply (Hsz 4097); intros o m rc Ho Hgave _; by apply Hg).
  exists s', l, B. rewrite Hz in HB. split; [exact Hrun|]. split; [exact Hs|]. split; [exact Hz|]. split; [exact HB|exact Hnets].
Defined.

(** The same by evaluation: a response with two pieces, the bytes arriving in five parts. *)
Example receive_run : let cs := piece_sums 4094 [1; 2; 3] in let w := wire 4094 [1; 2; 3] cs in
  exists r, receive (MkMachine false true 0) 2 [MkChunk 4094 3 100] [RPages true 4094 w] [[AData (take 2 w); ANone; AData (drop 2 (take 5 w)); AData (drop 5 (take 8 w)); ANone; AData (drop 8 w ++ [77])]]
    new_reader (MkMem (replicate 8 0) 100 (replicate 4 9)) = Ok (true, r, MkMem (host_bytes (MkMachine false true 0) cs) 100 [1; 2; 3; 9]).
Proof. eexists. vm_compute. reflexivity. Qed.

(** A list of several chunks is not filled: a response that begins with the second one is
    taken to begin at the end of the first one; behind its digest, the data is read as
    another digest, past the end of the vector. *)
Example second_chunk_overruns : let cs := piece_sums 4096 [1; 2; 3] in let w := wire 4096 [1; 2; 3] cs in
  receive (MkMachine false true 0) 2 [MkChunk 4094 2 100; MkChunk 4096 3 102] [RPages true 4096 w] [[AData w]] new_reader (MkMem (replicate 8 0) 100 (replicate 5 9)) = Fault.
Proof. vm_compute. reflexivity. Qed.
