(* ===== verification/CmsPList.v ===== *)
(** * The path lists of the cluster manager

    Models src/src/XrdCms/XrdCmsPList.hh and XrdCmsPList.cc, and [AddPath] of
    XrdCmsProtocol.cc. A list records which nodes serve which paths: nodes are
    bits of 64 bit masks. Every entry is owned by its list alone, so the chain of
    [next] pointers is a list. Each routine runs under the list's mutex.

    The main theorem relates the merged masks to what every single node exports:
    [Find] answers with the longest export of each node. *)

From Stdlib Require Import Sorting.Sorted.
From stdpp Require Import base tactics list_numbers numbers option gmap sorting list.
From S2P Require Import Prelude CString.
#[local] Set Warnings "-clear-no-such-hyp".

(** ** Data *)

Record XrdCmsPInfo := MkPInfo { rovec : Z; rwvec : Z; ssvec : Z }.

Definition PInfo_none : XrdCmsPInfo := MkPInfo 0 0 0.

(** [And( mask )]: the masks and whether one of them is not empty. *)
Definition And (mask : Z) (p : XrdCmsPInfo) : XrdCmsPInfo * bool :=
  let ro := Z.land (rovec p) mask in
  let rw := Z.land (rwvec p) mask in
  let ss := Z.land (ssvec p) mask in
  (MkPInfo ro rw ss, negb (Z.lor (Z.lor ro rw) ss =? 0)).

(** [Or( pi )] *)
Definition Or (pi p : XrdCmsPInfo) : XrdCmsPInfo :=
  MkPInfo (Z.lor (rovec p) (rovec pi)) (Z.lor (rwvec p) (rwvec pi)) (Z.lor (ssvec p) (ssvec pi)).

(** [~mask] of a 64 bit mask. *)
Definition not64 (mask : Z) : Z := u64 (Z.lnot mask).

Record XrdCmsPList := MkPList { pathmask : XrdCmsPInfo; pathname : list Z }.

(** [pathlen], set to the length of the name by the only constructor. *)
Definition pathlen (p : XrdCmsPList) : Z := zlen (pathname p).

(** [PType()] *)
Definition PType (p : XrdCmsPList) : list Z :=
  if negb (ssvec (pathmask p) =? 0)
  then (if negb (rwvec (pathmask p) =? 0) then [119; 115] else [114; 115])
  else (if negb (rwvec (pathmask p) =? 0) then [119] else [114]).

(** ** Operations *)

(** [XrdCmsPList_Anchor::Add( pname, pinfo )] *)
Fixpoint PList_Add (pname : list Z) (pinfo : XrdCmsPInfo) (l : list XrdCmsPList) : Z * list XrdCmsPList :=
  match l with
  | p :: l' =>
      if zlen pname <=? pathlen p then
        if (pathlen p =? zlen pname) && bool_decide (pathname p = pname) then (0, l)
        else let '(rc, l') := PList_Add pname pinfo l' in (rc, p :: l')
      else (1, MkPList pinfo pname :: l)
  | [] => (1, [MkPList pinfo pname])
  end.

(** The test of [Find] and [Type]. *)
Definition covers (pname : list Z) (p : XrdCmsPList) : bool :=
  (pathlen p <=? zlen pname) && strneq (pathname p) pname (pathlen p).

(** [XrdCmsPList_Anchor::Find( pname, pinfo )] *)
Fixpoint PList_Find (pname : list Z) (l : list XrdCmsPList) : option XrdCmsPInfo :=
  match l with
  | p :: l' => if covers pname p then Some (pathmask p) else PList_Find pname l'
  | [] => None
  end.

(** [p->pathmask.And(~(pinfo->rovec)); p->pathmask.Or(pinfo)] *)
Definition merge (pinfo : XrdCmsPInfo) (p : XrdCmsPList) : XrdCmsPList :=
  MkPList (Or pinfo (And (not64 (rovec pinfo)) (pathmask p)).1) (pathname p).

(** The masks of the shorter paths behind the place of a new one. *)
Fixpoint inherit (pname : list Z) (l : list XrdCmsPList) (mask : XrdCmsPInfo) : XrdCmsPInfo :=
  match l with
  | pp :: l' =>
      inherit pname l'
        (if (pathlen pp <? zlen pname) && strneq (pathname pp) pname (pathlen pp)
         then Or (pathmask pp) mask else mask)
  | [] => mask
  end.

(** [XrdCmsPList_Anchor::Insert( pname, pinfo )]: [newmask] and the list. *)
Fixpoint PList_Insert (pname : list Z) (pinfo : XrdCmsPInfo) (l : list XrdCmsPList)
  : Z * list XrdCmsPList :=
  let new l := let p := MkPList (inherit pname l pinfo) pname in
               (Z.lor (rovec (pathmask p)) (rwvec (pathmask p)), p :: l) in
  match l with
  | p :: l' =>
      if zlen pname <=? pathlen p then
        if (pathlen p =? zlen pname) && bool_decide (pathname p = pname) then
          let p := merge pinfo p in
          (Z.lor (rovec (pathmask p)) (rwvec (pathmask p)), p :: l')
        else
          let p := if strneq (pathname p) pname (zlen pname) &&
                      (Z.land (rovec (pathmask p)) (rovec pinfo) =? 0)
                   then merge pinfo p else p in
          let '(newmask, l') := PList_Insert pname pinfo l' in (newmask, p :: l')
      else new l
  | [] => new []
  end.

(** [XrdCmsPList_Anchor::Remove( mask )] *)
Fixpoint PList_Remove (mask : Z) (l : list XrdCmsPList) : list XrdCmsPList :=
  match l with
  | pp :: l' =>
      let '(m, some) := And (not64 mask) (pathmask pp) in
      if some then MkPList m (pathname pp) :: PList_Remove mask l' else PList_Remove mask l'
  | [] => []
  end.

(** [XrdCmsPList_Anchor::Type( pname )] *)
Fixpoint PList_Type (pname : list Z) (l : list XrdCmsPList) : list Z :=
  match l with
  | p :: l' =>
      if covers pname p then (if negb (rwvec (pathmask p) =? 0) then [119] else [114])
      else PList_Type pname l'
  | [] => [63]
  end.

(** The loop of [AddPath] over the letters of a path's type; nothing when one
    of them is unknown. *)
Fixpoint path_type (forceRO : bool) (Mask : Z) (pType : list Z) (pinfo : XrdCmsPInfo)
  : option XrdCmsPInfo :=
  match pType with
  | [] => Some pinfo
  | c :: pType =>
      if (c =? 114) || (forceRO && (c =? 119)) then
        path_type forceRO Mask pType (MkPInfo Mask (rwvec pinfo) (ssvec pinfo))
      else if c =? 119 then path_type forceRO Mask pType (MkPInfo Mask Mask (ssvec pinfo))
      else if c =? 115 then path_type forceRO Mask pType (MkPInfo Mask (rwvec pinfo) Mask)
      else None
  end.

Definition allowsRW : Z := 1.
Definition allowsSS : Z := 2.

(** [AddPath( nP, pType, Path )] of a node with the given mask: the result, the
    node's [isRW] when it is set, and the list. *)
Definition AddPath (forceRO : bool) (Mask : Z) (pType Path : list Z) (l : list XrdCmsPList)
  : Z * option Z * list XrdCmsPList :=
  match path_type forceRO Mask pType PInfo_none with
  | None => (0, None, l)
  | Some pinfo =>
      let isRW := Z.lor (if negb (rwvec pinfo =? 0) then allowsRW else 0)
                        (if negb (ssvec pinfo =? 0) then allowsSS else 0) in
      let '(m, l) := PList_Insert Path pinfo l in (m, Some isRW, l)
  end.

(** The loop of a login over the node's paths, types first: nothing when one of
    them is refused. *)
Fixpoint Login_paths (forceRO : bool) (Mask : Z) (paths : list (list Z * list Z)) (servset : Z)
    (l : list XrdCmsPList) : option Z * list XrdCmsPList :=
  match paths with
  | [] => (Some servset, l)
  | (tp, pp) :: paths =>
      let '(newmask, _, l) := AddPath forceRO Mask tp pp l in
      if newmask =? 0 then (None, l) else Login_paths forceRO Mask paths (Z.lor servset newmask) l
  end.

(** ** What a single node exports *)

(** Whether an exported path is writable and whether files can be staged. *)
Abbreviation attr := (bool * bool)%type (only parsing).

Fixpoint longest {A} (m : gmap (list Z) A) (q : list Z) (n : nat) : option A :=
  match m !! take n q with
  | Some a => Some a
  | None => match n with O => None | S n => longest m q n end
  end.

(** The longest path of [m] that starts [q]. *)
Definition export_of {A} (m : gmap (list Z) A) (q : list Z) : option A := longest m q (length q).

Lemma take_prefix {A} n (q : list A) : take n q `prefix_of` q.
Proof. exists (drop n q). by rewrite take_drop. Qed.

Lemma prefix_take {A} (k q : list A) : k `prefix_of` q -> k = take (length k) q.
Proof. intros [r ->]. by rewrite take_app_length. Qed.

Lemma longest_spec {A} (m : gmap (list Z) A) q n : (n <= length q)%nat ->
  match longest m q n with
  | Some a => exists k, k `prefix_of` q /\ m !! k = Some a /\
      forall k', k' `prefix_of` q -> (length k' <= n)%nat -> is_Some (m !! k') -> (length k' <= length k)%nat
  | None => forall k, k `prefix_of` q -> (length k <= n)%nat -> m !! k = None
  end.
Proof.
  induction n as [|n IH]; intros Hn; cbn [longest].
  - rewrite take_0. destruct (m !! []) as [a|] eqn:E.
    + exists []. split; [apply prefix_nil|]. split; [done|]. done.
    + intros [|? ?] _ Hk; [done|cbn in Hk; lia].
  - destruct (m !! take (S n) q) as [a|] eqn:E.
    + exists (take (S n) q). split; [apply take_prefix|]. split; [done|]. intros. rewrite length_take. lia.
    + specialize (IH ltac:(lia)). destruct (longest m q n) as [a|].
      * destruct IH as (k & H1 & H2 & H3). exists k. split; [done|]. split; [done|].
        intros k' Hk' Hl [b Hb]. apply H3; [done| |by exists b].
        destruct (Nat.eq_dec (length k') (S n)) as [Heq|]; [|lia].
        apply prefix_take in Hk'. rewrite Heq in Hk'. congruence.
      * intros k Hk Hl. destruct (Nat.eq_dec (length k) (S n)) as [Heq|]; [|apply IH; [done|lia]].
        apply prefix_take in Hk. rewrite Heq in Hk. congruence.
Qed.

Lemma export_Some {A} (m : gmap (list Z) A) q a : export_of m q = Some a <->
  exists k, k `prefix_of` q /\ m !! k = Some a /\
    forall k', k' `prefix_of` q -> is_Some (m !! k') -> (length k' <= length k)%nat.
Proof.
  unfold export_of. pose proof (longest_spec m q (length q) ltac:(done)) as H.
  assert (forall k, k `prefix_of` q -> (length k <= length q)%nat) as Hl by (intros; by apply prefix_length).
  destruct (longest m q (length q)) as [b|].
  - destruct H as (k & H1 & H2 & H3). split.
    + intros [= <-]. exists k. auto.
    + intros (k' & H1' & H2' & H3'). assert (length k = length k') as Heq.
      { apply Nat.le_antisymm; [apply H3'|apply H3]; eauto. }
      apply prefix_take in H1, H1'. rewrite Heq in H1. congruence.
  - split; [done|]. intros (k & H1 & H2 & _). rewrite H in H2 by auto. done.
Qed.

Lemma export_None {A} (m : gmap (list Z) A) q : export_of m q = None <->
  forall k, k `prefix_of` q -> m !! k = None.
Proof.
  unfold export_of. pose proof (longest_spec m q (length q) ltac:(done)) as H.
  destruct (longest m q (length q)) as [b|].
  - destruct H as (k & H1 & H2 & _). split; [done|]. intros Hn. by rewrite Hn in H2.
  - split; [|done]. intros _ k Hk. apply H; [done|]. by apply prefix_length.
Qed.

(** Nothing between [e] and [q] is exported. *)
Lemma export_cut {A} (m : gmap (list Z) A) e q : e `prefix_of` q ->
  (forall k, k `prefix_of` q -> is_Some (m !! k) -> (length k <= length e)%nat) ->
  export_of m q = export_of m e.
Proof.
  intros He Hk.
  assert (forall k, k `prefix_of` q -> is_Some (m !! k) -> k `prefix_of` e) as Hp.
  { intros k Hkq Hs. pose proof (Hk k Hkq Hs) as Hl.
    destruct (prefix_weak_total k e q Hkq He) as [|Hek]; [done|].
    by rewrite (prefix_length_eq e k Hek Hl). }
  destruct (export_of m e) as [a|] eqn:E.
  - apply export_Some in E as (k & H1 & H2 & H3). apply export_Some. exists k.
    split; [by etrans|]. split; [done|]. auto.
  - apply export_None. intros k Hkq. rewrite export_None in E.
    destruct (m !! k) as [a|] eqn:Ek; [|done]. rewrite <- Ek. apply E. eauto.
Qed.

(** A new path no longer than the others counts where none of them does. *)
Lemma export_insert {A} (m : gmap (list Z) A) p a q : m !! p = None ->
  (forall k, is_Some (m !! k) -> (length p <= length k)%nat) ->
  export_of (<[p := a]> m) q =
  match export_of m q with
  | Some b => Some b
  | None => if decide (p `prefix_of` q) then Some a else None
  end.
Proof.
  intros Hp Hl. destruct (export_of m q) as [b|] eqn:E.
  - apply export_Some in E as (k & H1 & H2 & H3). apply export_Some. exists k. split; [done|].
    assert (p <> k) as Hne by congruence.
    rewrite lookup_insert_ne by done. split; [done|]. intros k' Hk' Hs.
    destruct (decide (k' = p)) as [->|]; [by apply Hl; eauto|].
    rewrite lookup_insert_ne in Hs by done. auto.
  - rewrite export_None in E. case_decide as Hd.
    + apply export_Some. exists p. split; [done|]. rewrite lookup_insert_eq. split; [done|].
      intros k' Hk'. destruct (decide (k' = p)) as [->|]; [done|]. rewrite lookup_insert_ne by done.
      rewrite E by done. by intros [? ?].
    + apply export_None. intros k Hk. rewrite lookup_insert_ne by congruence. auto.
Qed.

(** ** Bits *)

Lemma testbit_not64 m i : 0 <= i < 64 -> Z.testbit (not64 m) i = negb (Z.testbit m i).
Proof.
  intros Hi. unfold not64, u64. rewrite Z.mod_pow2_bits_low by lia. by rewrite Z.lnot_spec by lia.
Qed.

Lemma testbit_pow2 i j : 0 <= i -> Z.testbit (2 ^ i) j = bool_decide (j = i).
Proof.
  intros Hi. rewrite Z.pow2_bits_eqb by done.
  destruct (Z.eqb_spec i j), (bool_decide_reflect (j = i)); congruence || done.
Qed.

(** The masks of node [i] and one of its exports. *)
Definition node_pinfo (i : Z) (a : attr) : XrdCmsPInfo :=
  MkPInfo (2 ^ i) (if a.1 then 2 ^ i else 0) (if a.2 then 2 ^ i else 0).

(** A mask read through one of its three fields, and what the field stands for. *)
Definition field : Type := (XrdCmsPInfo -> Z) * (attr -> bool).
Definition f_ro : field := (rovec, fun _ => true).
Definition f_rw : field := (rwvec, fst).
Definition f_ss : field := (ssvec, snd).

Inductive is_field : field -> Prop := is_ro : is_field f_ro | is_rw : is_field f_rw | is_ss : is_field f_ss.

Definition has (v : field) (j : Z) (m : XrdCmsPInfo) : bool := Z.testbit (v.1 m) j.

Lemma has_Or v j pi m : is_field v -> has v j (Or pi m) = has v j m || has v j pi.
Proof. intros []; apply Z.lor_spec. Qed.

Lemma has_And v j mask m : is_field v -> has v j (And mask m).1 = has v j m && Z.testbit mask j.
Proof. intros []; apply Z.land_spec. Qed.

Lemma has_node v j i a : is_field v -> 0 <= i -> has v j (node_pinfo i a) = bool_decide (j = i) && v.2 a.
Proof.
  intros [] Hi; unfold has, node_pinfo; cbn.
  - by rewrite testbit_pow2, andb_true_r.
  - destruct a.1; [by rewrite testbit_pow2, andb_true_r|by rewrite Z.bits_0, andb_false_r].
  - destruct a.2; [by rewrite testbit_pow2, andb_true_r|by rewrite Z.bits_0, andb_false_r].
Qed.

Lemma has_merge v j i a p : is_field v -> 0 <= i < 64 -> 0 <= j < 64 ->
  has v j (pathmask (merge (node_pinfo i a) p)) = if decide (j = i) then v.2 a else has v j (pathmask p).
Proof.
  intros Hv Hi Hj. unfold merge. cbn [pathmask].
  rewrite has_Or, has_And, has_node, testbit_not64 by (done || lia).
  cbn [node_pinfo rovec]. rewrite testbit_pow2 by lia.
  case_decide as Hd; rewrite ?bool_decide_eq_true_2, ?bool_decide_eq_false_2 by done; cbn.
  - by rewrite andb_false_r.
  - by rewrite andb_true_r, orb_false_r.
Qed.

(** The test for a node that is already recorded. *)
Lemma land_node m i a : 0 <= i -> (Z.land (rovec m) (rovec (node_pinfo i a)) =? 0) = negb (has f_ro i m).
Proof.
  intros Hi. unfold has. cbn [node_pinfo rovec f_ro fst].
  destruct (Z.testbit (rovec m) i) eqn:E; cbn [negb].
  - apply Z.eqb_neq. intros H. apply (f_equal (fun z => Z.testbit z i)) in H.
    rewrite Z.land_spec, E, testbit_pow2, Z.bits_0, bool_decide_eq_true_2 in H by done. done.
  - apply Z.eqb_eq. apply Z.bits_inj'. intros n Hn. rewrite Z.land_spec, testbit_pow2, Z.bits_0 by done.
    case_bool_decide as Hd; [by rewrite Hd, E|apply andb_false_r].
Qed.

Lemma has_inherit v j pname l m : is_field v ->
  has v j (inherit pname l m) = true <->
  has v j m = true \/ exists pp, pp ∈ l /\ pathname pp `prefix_of` pname /\ pathname pp <> pname /\
    has v j (pathmask pp) = true.
Proof.
  intros Hv. revert m. induction l as [|pp l IH]; intros m; cbn [inherit].
  - split; [by left|]. intros [?|(? & H & _)]; [done|]. by apply elem_of_nil in H.
  - rewrite IH. clear IH.
    destruct ((pathlen pp <? zlen pname) && strneq (pathname pp) pname (pathlen pp)) eqn:E.
    + apply andb_true_iff in E as [E1%Z.ltb_lt E2]. apply strneq_take in E2.
      unfold pathlen, zlen in E1, E2. rewrite Nat2Z.id, (take_ge (pathname pp)) in E2 by done.
      assert (pathname pp `prefix_of` pname) as Hp by (rewrite E2; apply take_prefix).
      assert (pathname pp <> pname) by (intros Heq; rewrite Heq in E1; lia).
      rewrite has_Or, orb_true_iff by done. setoid_rewrite elem_of_cons. naive_solver.
    + assert (pathname pp `prefix_of` pname -> pathname pp = pname) as Hn.
      { intros Hp. apply andb_false_iff in E as [E|E].
        - apply Z.ltb_ge in E. unfold pathlen, zlen in E. apply prefix_length_eq; [done|lia].
        - exfalso. apply not_true_iff_false in E. apply E, strneq_take. unfold pathlen, zlen.
          rewrite Nat2Z.id, (take_ge (pathname pp)) by done. by apply prefix_take. }
      setoid_rewrite elem_of_cons. naive_solver.
Qed.

(** ** What an insertion does to the list *)

Definition upd (pname : list Z) (pinfo : XrdCmsPInfo) (p : XrdCmsPList) : XrdCmsPList :=
  if bool_decide (pathname p = pname) then merge pinfo p
  else if strneq (pathname p) pname (zlen pname) && (Z.land (rovec (pathmask p)) (rovec pinfo) =? 0)
  then merge pinfo p else p.

Lemma upd_name pname pinfo p : pathname (upd pname pinfo p) = pathname p.
Proof. unfold upd. repeat case_match; done. Qed.

Lemma upd_names pname pinfo (l : list XrdCmsPList) : pathname <$> (upd pname pinfo <$> l) = pathname <$> l.
Proof. rewrite <- list_fmap_compose. apply list_fmap_ext. intros. apply upd_name. Qed.

(** Longest names first, every name once. *)
Definition longer (a b : list Z) : Prop := (length b <= length a)%nat.

Definition sorted (l : list XrdCmsPList) : Prop :=
  StronglySorted longer (pathname <$> l) /\ NoDup (pathname <$> l).

Lemma sorted_cons p l : sorted (p :: l) <->
  sorted l /\ Forall (fun q => longer (pathname p) (pathname q) /\ pathname q <> pathname p) l.
Proof.
  unfold sorted. rewrite fmap_cons. split.
  - intros [[Hs Hf]%StronglySorted_inv [Hn Hd]%NoDup_cons]. split; [done|].
    rewrite Forall_fmap in Hf. rewrite Forall_forall in Hf |- *. intros q Hq. split; [by apply Hf|].
    intros Heq. apply Hn. rewrite <- Heq. by apply list_elem_of_fmap_2.
  - intros [[Hs Hd] Hf]. rewrite Forall_forall in Hf. split.
    + constructor; [done|]. rewrite Forall_fmap, Forall_forall. intros q Hq. by apply Hf.
    + apply NoDup_cons. split; [|done]. intros (q & Heq & Hq)%list_elem_of_fmap. by apply (Hf q Hq).
Qed.

Lemma upd_short pname pinfo p : pathlen p <= zlen pname -> pathname p <> pname -> upd pname pinfo p = p.
Proof.
  intros Hl Hne. unfold upd. rewrite bool_decide_eq_false_2 by done.
  destruct (strneq _ _ _) eqn:E; [|done]. apply strneq_take in E.
  unfold pathlen, zlen in *. rewrite Nat2Z.id, !take_ge in E by lia. done.
Qed.

Lemma upd_shorts pname pinfo (l : list XrdCmsPList) : Forall (fun p => pathlen p <= zlen pname /\ pathname p <> pname) l ->
  upd pname pinfo <$> l = l.
Proof. induction 1 as [|p l [H1 H2] Hl IH]; cbn; [done|]. by rewrite upd_short, IH. Qed.

Lemma Insert_found pname pinfo (l : list XrdCmsPList) : sorted l -> pname ∈ pathname <$> l ->
  (PList_Insert pname pinfo l).2 = upd pname pinfo <$> l.
Proof.
  induction l as [|p l IH]; intros Hs Hin; [by apply elem_of_nil in Hin|].
  apply sorted_cons in Hs as [Hs Hf]. cbn [PList_Insert fmap list_fmap].
  rewrite fmap_cons, elem_of_cons in Hin.
  assert (zlen pname <= pathlen p) as Hle.
  { unfold pathlen, zlen. destruct Hin as [->|(q & -> & Hq)%list_elem_of_fmap]; [lia|].
    rewrite Forall_forall in Hf. destruct (Hf q Hq) as [Hl _]. unfold longer in Hl. lia. }
  destruct (Z.leb_spec (zlen pname) (pathlen p)); [|lia].
  destruct (decide (pathname p = pname)) as [Heq|Hne].
  - rewrite bool_decide_eq_true_2 by done. unfold pathlen at 1. rewrite Heq, Z.eqb_refl. cbn [andb snd].
    f_equal; [unfold upd; by rewrite bool_decide_eq_true_2|].
    symmetry. apply upd_shorts. eapply Forall_impl; [exact Hf|]. cbn. unfold longer, pathlen, zlen.
    rewrite Heq. intros q [H1 H2]. split; [lia|done].
  - rewrite (bool_decide_eq_false_2 (pathname p = pname)) by done. rewrite andb_false_r.
    destruct Hin as [->|Hin]; [done|]. rewrite <- IH by done.
    destruct (PList_Insert pname pinfo l) as [m l']. cbn [snd]. f_equal.
    unfold upd. by rewrite bool_decide_eq_false_2.
Qed.

Lemma Insert_new pname pinfo (l : list XrdCmsPList) : sorted l -> pname ∉ pathname <$> l ->
  exists pre post, l = pre ++ post /\
    Forall (fun p => (length pname <= length (pathname p))%nat) pre /\
    Forall (fun p => (length (pathname p) < length pname)%nat) post /\
    (PList_Insert pname pinfo l).2 =
      (upd pname pinfo <$> pre) ++ MkPList (inherit pname post pinfo) pname :: post.
Proof.
  induction l as [|p l IH]; intros Hs Hin.
  { exists [], []. repeat split; constructor. }
  apply sorted_cons in Hs as [Hs Hf]. cbn [PList_Insert].
  rewrite fmap_cons, not_elem_of_cons in Hin. destruct Hin as [Hne Hin].
  destruct (Z.leb_spec (zlen pname) (pathlen p)) as [Hl|Hl]; unfold pathlen, zlen in Hl.
  - rewrite (bool_decide_eq_false_2 (pathname p = pname)) by congruence. rewrite andb_false_r.
    destruct (IH Hs Hin) as (pre & post & -> & H1 & H2 & H3).
    destruct (PList_Insert pname pinfo (pre ++ post)) as [m l']. cbn [snd] in H3 |- *.
    exists (p :: pre), post. split; [done|]. split; [constructor; [lia|done]|]. split; [done|].
    rewrite fmap_cons, H3. cbn [app]. f_equal. unfold upd. by rewrite bool_decide_eq_false_2 by congruence.
  - exists [], (p :: l). split; [done|]. split; [constructor|]. split; [|done].
    constructor; [lia|]. eapply Forall_impl; [exact Hf|]. cbn. unfold longer. intros q [H _]. lia.
Qed.

(** ** The invariant *)

(** A bit [b] for the path [q] of a node that exports [m]: it is set when the
    longest export has the property, and only when some export has it. *)
Record reported (f : attr -> bool) (b : bool) (m : gmap (list Z) attr) (q : list Z) : Prop := {
  rp_lower : forall a, export_of m q = Some a -> f a = true -> b = true;
  rp_upper : b = true -> exists k a, k `prefix_of` q /\ m !! k = Some a /\ f a = true }.

Lemma reported_cut f b m e q : e `prefix_of` q ->
  (forall k, k `prefix_of` q -> is_Some (m !! k) -> (length k <= length e)%nat) ->
  reported f b m e -> reported f b m q.
Proof.
  intros He Hk [H1 H2]. split.
  - intros a. rewrite (export_cut m e q) by done. apply H1.
  - intros Hb. destruct (H2 Hb) as (k & a & Hp & Hr). exists k, a. split; [by etrans|done].
Qed.

(** The fields that are known: all of them when the nodes list their paths
    longest first, the read mask in any case. *)
Definition known (strict : bool) (v : field) : Prop := is_field v /\ (strict = false -> v = f_ro).

Record plist_ok (strict : bool) (l : list XrdCmsPList) (E : Z -> gmap (list Z) attr) : Prop := {
  po_sorted : sorted l;
  po_mask : forall p v i, p ∈ l -> known strict v -> 0 <= i < 64 ->
    reported v.2 (has v i (pathmask p)) (E i) (pathname p);
  po_all : forall i k, 0 <= i < 64 -> is_Some (E i !! k) -> k ∈ pathname <$> l;
  po_some : forall p, p ∈ l -> exists i, 0 <= i < 64 /\ has f_ro i (pathmask p) = true;
  po_sub : forall p v j, p ∈ l -> is_field v -> 0 <= j -> has v j (pathmask p) = true ->
    j < 64 /\ has f_ro j (pathmask p) = true }.

Lemma known_ro strict : known strict f_ro.
Proof. split; [constructor|done]. Qed.
#[local] Hint Resolve known_ro : core.

(** [Find] picks the longest name that starts the path. *)
Lemma Find_longest l q : sorted l ->
  match PList_Find q l with
  | Some m => exists p, p ∈ l /\ pathmask p = m /\ pathname p `prefix_of` q /\
      forall p', p' ∈ l -> pathname p' `prefix_of` q -> longer (pathname p) (pathname p')
  | None => forall p, p ∈ l -> ~ pathname p `prefix_of` q
  end.
Proof.
  intros Hs. induction l as [|p l IH]; cbn [PList_Find]; [intros p Hp; by apply elem_of_nil in Hp|].
  apply sorted_cons in Hs as [Hs Hf]. rewrite Forall_forall in Hf.
  assert (covers q p = true <-> pathname p `prefix_of` q) as Hc.
  { unfold covers. rewrite andb_true_iff, Z.leb_le, strneq_take. unfold pathlen, zlen.
    rewrite Nat2Z.id, (take_ge (pathname p)) by done. split.
    - intros [_ H]. rewrite H. apply take_prefix.
    - intros H. split; [apply prefix_length in H; lia|by apply prefix_take]. }
  destruct (covers q p) eqn:E.
  - exists p. split; [left|]. split; [done|]. split; [by apply Hc|].
    intros p' [->|Hp']%elem_of_cons _; [unfold longer; lia|]. by apply Hf.
  - assert (~ pathname p `prefix_of` q) as Hn by (rewrite <- Hc; done).
    specialize (IH Hs). destruct (PList_Find q l) as [m|].
    + destruct IH as (e & H1 & H2 & H3 & H4). exists e. split; [by right|]. split; [done|]. split; [done|].
      intros p' [->|Hp']%elem_of_cons Hpre; [done|auto].
    + intros p' [->|Hp']%elem_of_cons; auto.
Qed.

Lemma find_reports strict l E q : plist_ok strict l E ->
  match PList_Find q l with
  | Some m => (forall v i, known strict v -> 0 <= i < 64 -> reported v.2 (has v i m) (E i) q) /\
              exists i, 0 <= i < 64 /\ is_Some (export_of (E i) q)
  | None => forall i, 0 <= i < 64 -> export_of (E i) q = None
  end.
Proof.
  intros [Hs Hm Ha Hn _]. pose proof (Find_longest l q Hs) as Hf. destruct (PList_Find q l) as [m|].
  - destruct Hf as (p & Hp & <- & Hq & Hl).
    assert (forall v i, known strict v -> 0 <= i < 64 -> reported v.2 (has v i (pathmask p)) (E i) q) as Hr.
    { intros v i Hv Hi. apply (reported_cut _ _ _ (pathname p)); [done| |by apply Hm].
      intros k Hk Hsome. apply (Ha i k Hi) in Hsome as (p' & -> & Hp')%list_elem_of_fmap. by apply Hl. }
    split; [done|]. destruct (Hn p Hp) as (i & Hi & Hb). exists i. split; [done|].
    destruct (rp_upper _ _ _ _ (Hr f_ro i (known_ro _) Hi) Hb) as (k & a & Hk & Hka & _).
    destruct (export_of (E i) q) eqn:Ee; [done|]. rewrite export_None in Ee. by rewrite Ee in Hka.
  - intros i Hi. apply export_None. intros k Hk. destruct (E i !! k) eqn:Ek; [|done].
    assert (k ∈ pathname <$> l) as (e & -> & He)%list_elem_of_fmap by (apply (Ha i); [done|by eexists]).
    by apply Hf in He.
Qed.

(** ** Insertion *)

(** When all exports of a node are given longest path first, or given again. *)
Definition in_order (m : gmap (list Z) attr) (p : list Z) (a : attr) : Prop :=
  m !! p = Some a \/ (m !! p = None /\ forall k, is_Some (m !! k) -> (length p <= length k)%nat).

Definition set_node (i : Z) (m : gmap (list Z) attr) (E : Z -> gmap (list Z) attr) (j : Z) : gmap (list Z) attr :=
  if decide (j = i) then m else E j.

Lemma export_self (m : gmap (list Z) attr) p a : export_of (<[p := a]> m) p = Some a.
Proof.
  apply export_Some. exists p. split; [done|]. rewrite lookup_insert_eq. split; [done|].
  intros k Hk _. by apply prefix_length.
Qed.

(** An entry that takes the new export over. *)
Lemma reported_merged v m p a q : (q = p \/ (p `prefix_of` q /\ export_of m q = None)) ->
  reported v (v a) (<[p := a]> m) q.
Proof.
  intros Hq. split.
  - intros b Hb Hv. enough (b = a) by congruence. destruct Hq as [->|[Hp Hn]].
    + rewrite export_self in Hb. congruence.
    + apply export_Some in Hb as (k & Hk & Hl & _). destruct (decide (k = p)) as [->|Hne].
      * rewrite lookup_insert_eq in Hl. congruence.
      * rewrite lookup_insert_ne in Hl by done. rewrite export_None in Hn. by rewrite Hn in Hl.
  - intros Hv. exists p, a. rewrite lookup_insert_eq. destruct Hq as [->|[Hp _]]; done.
Qed.

(** An entry that keeps what it has. *)
Lemma reported_kept strict v b m p a q : known strict v -> (strict = true -> in_order m p a) ->
  q <> p -> (p `prefix_of` q -> exists k, k `prefix_of` q /\ is_Some (m !! k)) ->
  (p `prefix_of` q -> v = f_ro -> b = true) ->
  reported v.2 b m q -> reported v.2 b (<[p := a]> m) q.
Proof.
  intros [Hv Hk] Ho Hne Hex Hro [H1 H2].
  destruct (decide (p `prefix_of` q)) as [Hp|Hp].
  - destruct strict.
    + destruct (Ho eq_refl) as [Heq|[Hn Hl]]; [by rewrite insert_id|].
      split.
      * rewrite export_insert by done. destruct (Hex Hp) as (k & Hkq & Hks).
        destruct (export_of m q) eqn:E; [intros b'; apply H1|].
        rewrite export_None in E. rewrite (E k Hkq) in Hks. by destruct Hks.
      * intros Hb. destruct (H2 Hb) as (k & b' & Hkq & Hk' & Hf). exists k, b'.
        rewrite lookup_insert_ne by congruence. done.
    + rewrite (Hk eq_refl) in *. split; [intros; by apply Hro|]. intros _. exists p, a.
      by rewrite lookup_insert_eq.
  - assert (forall k, k `prefix_of` q -> (<[p := a]> m) !! k = m !! k) as Hs.
    { intros k Hkq. apply lookup_insert_ne. congruence. }
    split.
    + intros b' (k & Hkq & Hl & Hm)%export_Some. apply H1, export_Some. exists k. split; [done|].
      rewrite Hs in Hl by done. split; [done|]. intros k' Hk'. rewrite <- Hs by done. auto.
    + intros Hb. destruct (H2 Hb) as (k & b' & Hkq & Hl & Hf). exists k, b'. by rewrite Hs.
Qed.

Lemma upd_reported strict l E i p a e v j : plist_ok strict l E -> e ∈ l -> known strict v ->
  0 <= i < 64 -> 0 <= j < 64 -> (strict = true -> in_order (E i) p a) ->
  reported v.2 (has v j (pathmask (upd p (node_pinfo i a) e))) (set_node i (<[p := a]> (E i)) E j) (pathname e).
Proof.
  intros Hok He Hv Hi Hj Ho. pose proof (po_mask _ _ _ Hok e v j He Hv Hj) as Hm.
  pose proof (po_mask _ _ _ Hok e f_ro i He (known_ro _) Hi) as Hro.
  unfold set_node. destruct (decide (j = i)) as [->|Hne].
  2:{ unfold upd. repeat case_match; try done; by rewrite has_merge, decide_False by (done || apply Hv). }
  assert (strneq (pathname e) p (zlen p) = true <-> p `prefix_of` pathname e) as Hpre by apply strneq_prefix.
  unfold upd. rewrite land_node by lia. case_bool_decide as Hn.
  { rewrite has_merge, decide_True by (done || apply Hv). apply reported_merged. by left. }
  destruct (strneq _ _ _) eqn:Es; cbn [andb].
  - destruct (has f_ro i (pathmask e)) eqn:Eb; cbn [negb].
    + apply (reported_kept strict); try done. intros _.
      destruct (rp_upper _ _ _ _ Hro eq_refl) as (k & a' & Hk & Ha & _). eauto.
      intros _ ->. done.
    + rewrite has_merge, decide_True by (done || apply Hv). apply reported_merged. right.
      split; [by apply Hpre|]. destruct (export_of (E i) (pathname e)) as [b|] eqn:Ee; [|done].
      pose proof (rp_lower _ _ _ _ Hro b Ee eq_refl). done.
  - assert (~ p `prefix_of` pathname e) by (rewrite <- Hpre; done).
    apply (reported_kept strict); try done; by intros ?%H.
Qed.

Lemma sorted_insert (pre post : list XrdCmsPList) p (pre' : list XrdCmsPList) : sorted (pre ++ post) ->
  pathname p ∉ pathname <$> (pre ++ post) -> pathname <$> pre' = pathname <$> pre ->
  Forall (fun q => longer (pathname q) (pathname p)) pre ->
  Forall (fun q => longer (pathname p) (pathname q)) post -> sorted (pre' ++ p :: post).
Proof.
  unfold sorted. rewrite !fmap_app, fmap_cons. intros [Hs Hd] Hn -> H1 H2.
  apply StronglySorted_app in Hs as (Hc & Hs1 & Hs2). split.
  - apply StronglySorted_app. split; [|split; [done|apply StronglySorted_cons; by rewrite Forall_fmap]].
    intros x1 x2 Hx1 [->|Hx2]%elem_of_cons; [|by apply Hc].
    apply list_elem_of_fmap in Hx1 as (q & -> & Hq). rewrite Forall_forall in H1. by apply H1.
  - rewrite not_elem_of_app in Hn. destruct Hn as [Hn1 Hn2].
    apply NoDup_app in Hd as (Hd1 & Hd2 & Hd3). apply NoDup_app. split; [done|].
    split; [|by apply NoDup_cons]. intros x Hx [->|Hx']%elem_of_cons; [done|]. by apply (Hd2 x Hx).
Qed.

Lemma has_ro_upd pname i a e j : 0 <= i < 64 -> 0 <= j < 64 -> has f_ro j (pathmask e) = true ->
  has f_ro j (pathmask (upd pname (node_pinfo i a) e)) = true.
Proof.
  intros Hi Hj H. assert (has f_ro j (pathmask (merge (node_pinfo i a) e)) = true).
  { rewrite has_merge by (done || constructor). by case_decide. }
  unfold upd. by repeat case_match.
Qed.

Lemma upd_sub pname i a e v j : 0 <= i < 64 -> is_field v -> 0 <= j ->
  (forall v, is_field v -> has v j (pathmask e) = true -> j < 64 /\ has f_ro j (pathmask e) = true) ->
  has v j (pathmask (upd pname (node_pinfo i a) e)) = true ->
  j < 64 /\ has f_ro j (pathmask (upd pname (node_pinfo i a) e)) = true.
Proof.
  intros Hi Hv Hj He.
  assert (has v j (pathmask (merge (node_pinfo i a) e)) = true ->
          j < 64 /\ has f_ro j (pathmask (merge (node_pinfo i a) e)) = true) as Hm.
  { unfold merge at 1. cbn [pathmask]. rewrite has_Or, has_And, has_node, orb_true_iff, !andb_true_iff by (done || lia).
    intros [[Hb _]|[->%bool_decide_eq_true _]].
    - apply He in Hb as [Hlt Hr]; [|done]. split; [done|]. rewrite has_merge by (lia || constructor). by case_decide.
    - split; [lia|]. rewrite has_merge by (lia || constructor). by rewrite decide_True. }
  unfold upd. repeat case_match; auto. by apply He.
Qed.

(** The masks of a new entry. *)
Lemma new_reported strict (pre post : list XrdCmsPList) E i p a v j : plist_ok strict (pre ++ post) E ->
  p ∉ pathname <$> (pre ++ post) -> known strict v -> 0 <= i < 64 -> 0 <= j < 64 ->
  Forall (fun q => (length p <= length (pathname q))%nat) pre ->
  reported v.2 (has v j (inherit p post (node_pinfo i a))) (set_node i (<[p := a]> (E i)) E j) p.
Proof.
  intros Hok Hn Hv Hi Hj Hpre. pose proof (proj1 Hv) as Hv'.
  assert (forall j, 0 <= j < 64 -> E j !! p = None) as Hfresh.
  { intros j' Hj'. destruct (E j' !! p) eqn:Ep; [|done]. exfalso. apply Hn.
    apply (po_all _ _ _ Hok j'); [done|by eexists]. }
  assert (has v j (inherit p post (node_pinfo i a)) = true <->
          (j = i /\ v.2 a = true) \/
          exists pp, pp ∈ post /\ pathname pp `prefix_of` p /\ pathname pp <> p /\ has v j (pathmask pp) = true) as Hb.
  { rewrite has_inherit, has_node, andb_true_iff, bool_decide_eq_true by (done || lia). done. }
  assert (forall pp, pp ∈ post -> reported v.2 (has v j (pathmask pp)) (E j) (pathname pp)) as Hpost.
  { intros pp Hpp. apply (po_mask _ _ _ Hok); [apply elem_of_app; by right|done..]. }
  split.
  - intros b Hx Hf. apply Hb. unfold set_node in Hx. case_decide as Hd.
    + left. rewrite export_self in Hx. naive_solver.
    + right. apply export_Some in Hx as (k & Hk & Hl & Hm).
      assert (k <> p) as Hkp by (intros ->; by rewrite Hfresh in Hl).
      assert (k ∈ pathname <$> (pre ++ post)) as (pp & -> & Hpp)%list_elem_of_fmap
        by (apply (po_all _ _ _ Hok j); [done|by eexists]).
      apply elem_of_app in Hpp as [Hpp|Hpp].
      { rewrite Forall_forall in Hpre. apply Hpre in Hpp. by apply prefix_length_eq in Hk. }
      exists pp. split_and!; try done. apply (rp_lower _ _ _ _ (Hpost pp Hpp) b); [|done].
      apply export_Some. exists (pathname pp). split; [done|]. split; [done|].
      intros k' Hk' _. by apply prefix_length.
  - intros [[-> Hf]|(pp & Hpp & Hp & Hne & Hbit)]%Hb; unfold set_node.
    + rewrite decide_True by done. exists p, a. by rewrite lookup_insert_eq.
    + destruct (rp_upper _ _ _ _ (Hpost pp Hpp) Hbit) as (k & b & Hk & Hl & Hf).
      assert (k `prefix_of` p) by (by etrans). exists k, b. split; [done|]. split; [|done].
      case_decide as Hd; [|done]. subst j. rewrite lookup_insert_ne; [done|].
      intros <-. by rewrite Hfresh in Hl.
Qed.

Lemma insert_ok strict l E i p a : plist_ok strict l E -> 0 <= i < 64 ->
  (strict = true -> in_order (E i) p a) ->
  plist_ok strict (PList_Insert p (node_pinfo i a) l).2 (set_node i (<[p := a]> (E i)) E).
Proof.
  intros Hok Hi Ho. pose proof (po_sorted _ _ _ Hok) as Hs.
  assert (forall names : list (list Z), (forall k, k ∈ pathname <$> l -> k ∈ names) -> p ∈ names ->
    forall j k, 0 <= j < 64 -> is_Some (set_node i (<[p := a]> (E i)) E j !! k) -> k ∈ names) as Hall.
  { intros names Hnames Hp j k Hj. unfold set_node. case_decide as Hd.
    - rewrite lookup_insert_is_Some. intros [<-|[_ Hk]]; [done|]. by apply Hnames, (po_all _ _ _ Hok i).
    - intros Hk. by apply Hnames, (po_all _ _ _ Hok j). }
  destruct (decide (p ∈ pathname <$> l)) as [Hin|Hin].
  - rewrite Insert_found by done. split.
    + unfold sorted. by rewrite !upd_names.
    + intros e v j (e' & -> & He')%list_elem_of_fmap Hv Hj. rewrite upd_name. by apply (upd_reported strict l).
    + rewrite upd_names. apply Hall; auto.
    + intros e (e' & -> & He')%list_elem_of_fmap. destruct (po_some _ _ _ Hok e' He') as (j & Hj & Hb).
      exists j. split; [done|]. by apply has_ro_upd.
    + intros e v j (e' & -> & He')%list_elem_of_fmap Hv Hj. apply upd_sub; [done..|].
      intros v' Hv'. by apply (po_sub _ _ _ Hok).
  - destruct (Insert_new p (node_pinfo i a) l Hs Hin) as (pre & post & -> & Hpre & Hpost & ->).
    assert (upd p (node_pinfo i a) <$> post = post) as Hu.
    { apply upd_shorts. rewrite Forall_forall in Hpost |- *. intros q Hq. specialize (Hpost q Hq).
      unfold pathlen, zlen. split; [lia|]. intros Heq. rewrite Heq in Hpost. lia. }
    assert (forall e, e ∈ (upd p (node_pinfo i a) <$> pre) ++ MkPList (inherit p post (node_pinfo i a)) p :: post ->
      e = MkPList (inherit p post (node_pinfo i a)) p \/
      exists e', e' ∈ pre ++ post /\ e = upd p (node_pinfo i a) e') as Hcases.
    { intros e [(e' & -> & He')%list_elem_of_fmap|[->|He]%elem_of_cons]%elem_of_app.
      - right. exists e'. split; [apply elem_of_app; by left|done].
      - by left.
      - rewrite <- Hu in He. apply list_elem_of_fmap in He as (e' & -> & He').
        right. exists e'. split; [apply elem_of_app; by right|done]. }
    split.
    + apply (sorted_insert pre); [done..|by rewrite upd_names|done|].
      eapply Forall_impl; [exact Hpost|]. cbn. unfold longer. lia.
    + intros e v j He Hv Hj. apply Hcases in He as [->|(e' & He' & ->)].
      * by apply (new_reported strict pre).
      * rewrite upd_name. by apply (upd_reported strict (pre ++ post)).
    + apply Hall; rewrite !fmap_app, fmap_cons, upd_names; set_solver.
    + intros e He. apply Hcases in He as [->|(e' & He' & ->)].
      * exists i. split; [done|]. cbn [pathmask]. apply has_inherit; [constructor|]. left.
        rewrite has_node by (lia || constructor). by rewrite bool_decide_eq_true_2.
      * destruct (po_some _ _ _ Hok e' He') as (j & Hj & Hb). exists j. split; [done|]. by apply has_ro_upd.
    + intros e v j He Hv Hj. apply Hcases in He as [->|(e' & He' & ->)].
      * cbn [pathmask]. rewrite has_inherit, has_node, andb_true_iff by (done || lia).
        rewrite has_inherit, has_node, andb_true_r by (lia || constructor).
        intros [[Hd _]|(pp & Hpp & H1 & H2 & Hb)].
        { apply bool_decide_eq_true in Hd as ->. split; [lia|]. left. by apply bool_decide_eq_true. }
        apply (po_sub _ _ _ Hok) in Hb as [Hlt Hb]; [|apply elem_of_app; by right|done..].
        split; [done|]. right. by exists pp.
      * apply upd_sub; [done..|]. intros v' Hv'. by apply (po_sub _ _ _ Hok).
Qed.

(** ** Removal *)

(** A mask has a bit or is empty. *)
Lemma mask_bit m : (forall j, 0 <= j -> Z.testbit m j = true -> j < 64) ->
  m = 0 \/ exists j, 0 <= j < 64 /\ Z.testbit m j = true.
Proof.
  intros Hm. destruct (decide (Exists (fun j => Z.testbit m j = true) (seqZ 0 64))) as [He|He].
  - right. apply Exists_exists in He as (j & Hj%elem_of_seqZ & Hb). exists j. split; [lia|done].
  - left. apply Z.bits_inj'. intros j Hj. rewrite Z.bits_0. apply not_true_is_false. intros Hb.
    apply He, Exists_exists. exists j. split; [|done]. apply elem_of_seqZ. specialize (Hm j Hj Hb). lia.
Qed.

Lemma And_some mask m : (And mask m).2 = false <-> (And mask m).1 = MkPInfo 0 0 0.
Proof.
  unfold And. cbn. rewrite negb_false_iff, Z.eqb_eq. rewrite !Z.lor_eq_0_iff.
  split; [intros [[-> ->] ->]; done|]. intros [= -> -> ->]. done.
Qed.

Lemma Remove_elem mask (l : list XrdCmsPList) e : e ∈ PList_Remove mask l <->
  exists p, p ∈ l /\ (And (not64 mask) (pathmask p)).2 = true /\
    e = MkPList (And (not64 mask) (pathmask p)).1 (pathname p).
Proof.
  induction l as [|p l IH]; cbn [PList_Remove].
  - split; [by intros ?%elem_of_nil|]. by intros (? & ?%elem_of_nil & _).
  - setoid_rewrite elem_of_cons. destruct (And (not64 mask) (pathmask p)) as [m []] eqn:E.
    + rewrite elem_of_cons, IH. split.
      * intros [->|(q & Hq & H1 & H2)]; [exists p; rewrite E; auto|eauto].
      * intros (q & [->|Hq] & H1 & H2); [left; by rewrite E in H2|eauto].
    + rewrite IH. split; [naive_solver|]. intros (q & [->|Hq] & H1 & H2); [by rewrite E in H1|eauto].
Qed.

Lemma Remove_sorted mask (l : list XrdCmsPList) : sorted l -> sorted (PList_Remove mask l).
Proof.
  induction l as [|p l IH]; [done|]. intros [Hs Hf]%sorted_cons. cbn [PList_Remove].
  destruct (And (not64 mask) (pathmask p)) as [m []]; [|auto]. apply sorted_cons. split; [auto|].
  rewrite Forall_forall in Hf |- *. intros e (q & Hq & _ & ->)%Remove_elem. exact (Hf q Hq).
Qed.

Definition without (mask : Z) (E : Z -> gmap (list Z) attr) (j : Z) : gmap (list Z) attr :=
  if Z.testbit mask j then ∅ else E j.

Lemma remove_ok strict l E mask : plist_ok strict l E ->
  plist_ok strict (PList_Remove mask l) (without mask E).
Proof.
  intros Hok. unfold without. split.
  - apply Remove_sorted, (po_sorted _ _ _ Hok).
  - intros e v i (p & Hp & _ & ->)%Remove_elem Hv Hi. cbn [pathmask pathname].
    rewrite has_And, testbit_not64 by (done || apply Hv).
    pose proof (po_mask _ _ _ Hok p v i Hp Hv Hi) as [H1 H2].
    destruct (Z.testbit mask i); cbn [negb]; rewrite ?andb_false_r, ?andb_true_r; [|done].
    split; [|done]. intros a Ha. apply export_Some in Ha as (k & _ & Hk & _). by rewrite lookup_empty in Hk.
  - intros i k Hi Hk. destruct (Z.testbit mask i) eqn:Em; [destruct Hk as [? Hk]; by rewrite lookup_empty in Hk|].
    assert (k ∈ pathname <$> l) as (p & -> & Hp)%list_elem_of_fmap by by apply (po_all _ _ _ Hok i).
    apply list_elem_of_fmap. exists (MkPList (And (not64 mask) (pathmask p)).1 (pathname p)).
    split; [done|]. apply Remove_elem. exists p. split; [done|]. split; [|done].
    apply not_false_iff_true. intros Hz%And_some.
    destruct Hk as [a Ha]. assert (export_of (E i) (pathname p) = Some a) as He.
    { apply export_Some. exists (pathname p). split; [done|]. split; [done|].
      intros k' Hk' _. by apply prefix_length. }
    pose proof (rp_lower _ _ _ _ (po_mask _ _ _ Hok p f_ro i Hp (known_ro _) Hi) a He eq_refl) as Hb.
    apply (f_equal (has f_ro i)) in Hz. rewrite (has_And f_ro i _ _ is_ro), Hb, testbit_not64, Em in Hz by done.
    unfold has in Hz. cbn in Hz. by rewrite Z.bits_0 in Hz.
  - intros e (p & Hp & Hs & ->)%Remove_elem. cbn [pathmask].
    assert (forall v, is_field v -> v.1 (And (not64 mask) (pathmask p)).1 = 0 \/
      exists j, 0 <= j < 64 /\ has f_ro j (And (not64 mask) (pathmask p)).1 = true) as Hv.
    { intros v Hv. destruct (mask_bit (v.1 (And (not64 mask) (pathmask p)).1)) as [|(j & Hj & Hb)]; [|by left|].
      - intros j Hj Hb. change (has v j (And (not64 mask) (pathmask p)).1 = true) in Hb.
        rewrite has_And, andb_true_iff in Hb by done. apply (po_sub _ _ _ Hok p v j Hp Hv Hj), Hb.
      - right. exists j. split; [done|]. change (has v j (And (not64 mask) (pathmask p)).1 = true) in Hb.
        rewrite has_And, andb_true_iff in Hb |- * by (done || constructor). destruct Hb as [Hb Hn].
        split; [|done]. apply (po_sub _ _ _ Hok p v j); [done..|lia|done]. }
    destruct (Hv f_ro is_ro) as [H1|?]; [|done]. destruct (Hv f_rw is_rw) as [H2|?]; [|done].
    destruct (Hv f_ss is_ss) as [H3|?]; [|done]. exfalso. apply not_false_iff_true in Hs. apply Hs, And_some.
    destruct (And (not64 mask) (pathmask p)).1. cbn in *. congruence.
  - intros e v j (p & Hp & _ & ->)%Remove_elem Hv Hj. cbn [pathmask].
    rewrite !has_And, !andb_true_iff by (done || constructor). intros [Hb Hn].
    destruct (po_sub _ _ _ Hok p v j Hp Hv Hj Hb). done.
Qed.

(** ** Histories *)

Inductive plist_run (strict : bool) : list XrdCmsPList -> (Z -> gmap (list Z) attr) -> Prop :=
  | run_empty : plist_run strict [] (fun _ => ∅)
  | run_insert l E i p a : plist_run strict l E -> 0 <= i < 64 ->
      (strict = true -> in_order (E i) p a) ->
      plist_run strict (PList_Insert p (node_pinfo i a) l).2 (set_node i (<[p := a]> (E i)) E)
  | run_remove l E mask : plist_run strict l E ->
      plist_run strict (PList_Remove mask l) (without mask E).

Lemma run_ok strict l E : plist_run strict l E -> plist_ok strict l E.
Proof.
  induction 1; [|by apply insert_ok|by apply remove_ok].
  split; try by intros ? ?%elem_of_nil.
  - split; constructor.
  - by intros ? ? ? ?%elem_of_nil.
  - intros i k _ [? Hk]. by rewrite lookup_empty in Hk.
  - by intros ? ? ? ?%elem_of_nil.
Qed.

(** C23: After any history of insertions and removals, Find of a path reports
    exactly the nodes that export a path starting it, and fails when there is
    none. If every node lists its paths longest first, the writable and the
    staging bit of a node are set when its longest such export has the
    property, and only if some such export has it. *)
Theorem Find_reports_exports strict l E q : plist_run strict l E ->
  match PList_Find q l with
  | None => forall i, 0 <= i < 64 -> export_of (E i) q = None
  | Some m =>
      (exists i, 0 <= i < 64 /\ is_Some (export_of (E i) q)) /\
      forall i, 0 <= i < 64 ->
        (Z.testbit (rovec m) i = true <-> is_Some (export_of (E i) q)) /\
        (strict = true ->
          (forall a, export_of (E i) q = Some a ->
             (a.1 = true -> Z.testbit (rwvec m) i = true) /\ (a.2 = true -> Z.testbit (ssvec m) i = true)) /\
          (Z.testbit (rwvec m) i = true -> exists k a, k `prefix_of` q /\ E i !! k = Some a /\ a.1 = true) /\
          (Z.testbit (ssvec m) i = true -> exists k a, k `prefix_of` q /\ E i !! k = Some a /\ a.2 = true))
  end.
Proof.
  intros Hr%run_ok. pose proof (find_reports _ _ _ q Hr) as Hf.
  destruct (PList_Find q l) as [m|]; [|done]. destruct Hf as [Hf Hs]. split; [done|]. intros i Hi. split.
  - destruct (Hf f_ro i (known_ro _) Hi) as [H1 H2]. split.
    + intros Hb. destruct (H2 Hb) as (k & a & Hk & Ha & _).
      destruct (export_of (E i) q) eqn:Ee; [done|]. rewrite export_None in Ee. by rewrite Ee in Ha.
    + intros [a Ha]. by apply (H1 a Ha).
  - intros ->. destruct (Hf f_rw i) as [H1 H2]; [split; [constructor|done]|done|].
    destruct (Hf f_ss i) as [H3 H4]; [split; [constructor|done]|done|].
    split; [|done]. intros a Ha. split; [by apply (H1 a Ha)|by apply (H3 a Ha)].
Qed.

(** Node 0 exports /a, node 1 exports /, both writable. *)
Definition sample_plist : list XrdCmsPList :=
  (PList_Insert [47] (node_pinfo 1 (true, false)) (PList_Insert [47; 97] (node_pinfo 0 (true, false)) []).2).2.

Definition sample_exports : Z -> gmap (list Z) attr :=
  let E0 := set_node 0 (<[ [47; 97] := (true, false) ]> ∅) (fun _ => ∅) in
  set_node 1 (<[ [47] := (true, false) ]> (E0 1)) E0.

Lemma Find_reports_exports_witness :
  exists m, PList_Find [47; 97; 98] sample_plist = Some m /\ rovec m = 3 /\
    is_Some (export_of (sample_exports 1) [47; 97; 98]).
Proof.
  assert (plist_run true sample_plist sample_exports) as Hr.
  { apply (run_insert true _ (set_node 0 (<[ [47; 97] := (true, false) ]> ∅) (fun _ => ∅)) 1 [47] (true, false));
      [|lia|intros _; right; split; [done|]; intros k [? Hk]; unfold set_node in Hk;
        rewrite decide_False, lookup_empty in Hk by done; done].
    apply (run_insert true _ (fun _ => ∅) 0 [47; 97] (true, false)); [constructor|lia|].
    intros _. right. split; [done|]. intros k [? Hk]. by rewrite lookup_empty in Hk. }
  pose proof (Find_reports_exports true _ _ [47; 97; 98] Hr) as H.
  eexists. split; [vm_compute; reflexivity|]. split; [done|].
  destruct (PList_Find [47; 97; 98] sample_plist) as [m|] eqn:Em; [|by vm_compute in Em].
  destruct H as [_ H]. destruct (H 1 ltac:(lia)) as [H1 _]. apply H1.
  vm_compute in Em. injection Em as <-. done.
Defined.

(** ** Logging in *)

Definition attr_of (p : XrdCmsPList) : attr :=
  (negb (rwvec (pathmask p) =? 0), negb (ssvec (pathmask p) =? 0)).

Lemma path_type_PType i p : path_type false (2 ^ i) (PType p) PInfo_none = Some (node_pinfo i (attr_of p)).
Proof. unfold PType, attr_of, node_pinfo. by destruct (ssvec _ =? 0), (rwvec _ =? 0). Qed.

(** An insertion answers with a mask the node is in. *)
Lemma Insert_newmask p i a l : 0 <= i < 64 ->
  Z.testbit (PList_Insert p (node_pinfo i a) l).1 i = true.
Proof.
  intros Hi. assert (forall l, Z.testbit (rovec (inherit p l (node_pinfo i a))) i = true) as Hinh.
  { intros l'. apply (has_inherit f_ro); [constructor|]. left.
    rewrite has_node by (lia || constructor). by rewrite bool_decide_eq_true_2. }
  induction l as [|e l IH]; cbn [PList_Insert]; [cbn [fst pathmask]; by rewrite Z.lor_spec, Hinh|].
  destruct (zlen p <=? pathlen e); [|cbn [fst pathmask]; by rewrite Z.lor_spec, Hinh].
  destruct ((pathlen e =? zlen p) && bool_decide (pathname e = p)).
  - cbn [fst]. rewrite Z.lor_spec. pose proof (has_merge f_ro i i a e is_ro Hi Hi) as Hm.
    rewrite decide_True in Hm by done. unfold has in Hm. cbn [f_ro fst snd] in Hm. by rewrite Hm.
  - by destruct (PList_Insert p (node_pinfo i a) l).
Qed.

(** [Add] keeps a list sorted, so that it names the longest path first. *)
Lemma Add_sorted pname pinfo l : sorted l ->
  sorted (PList_Add pname pinfo l).2 /\
  forall e, e ∈ (PList_Add pname pinfo l).2 <->
    e ∈ l \/ ((pname ∉ (pathname <$> l)) /\ e = MkPList pinfo pname).
Proof.
  induction l as [|p l IH]; intros Hs; cbn [PList_Add].
  { split; [apply sorted_cons; split; [done|constructor]|]. intros e. cbn. set_solver. }
  pose proof Hs as Hs'. apply sorted_cons in Hs as [Hs Hf]. rewrite Forall_forall in Hf. unfold longer in Hf.
  destruct (Z.leb_spec (zlen pname) (pathlen p)) as [Hl|Hl]; unfold pathlen, zlen in Hl.
  - destruct ((pathlen p =? zlen pname) && bool_decide (pathname p = pname)) eqn:E.
    + apply andb_true_iff in E as [_ E%bool_decide_eq_true]. split; [done|]. intros e. cbn [snd].
      split; [by left|]. intros [?|[Hn _]]; [done|]. exfalso. apply Hn. rewrite fmap_cons, E. left.
    + assert (pathname p <> pname) as Hne.
      { intros Heq. rewrite Heq in Hl. apply andb_false_iff in E as [E|E].
        - unfold pathlen, zlen in E. rewrite Heq in E. lia.
        - by apply bool_decide_eq_false in E. }
      destruct (IH Hs) as [H1 H2]. destruct (PList_Add pname pinfo l) as [rc l']. cbn [snd] in *. split.
      * apply sorted_cons. split; [done|]. rewrite Forall_forall. intros e He. apply H2 in He as [He|[_ ->]].
        -- by apply Hf.
        -- cbn. unfold longer. split; [lia|congruence].
      * intros e. rewrite fmap_cons, !elem_of_cons, H2. naive_solver.
  - assert (forall e, e ∈ p :: l -> (length (pathname e) < length pname)%nat) as Hlt.
    { intros e [->|He]%elem_of_cons; [lia|]. specialize (Hf e He). lia. }
    split.
    + apply sorted_cons. split; [done|]. rewrite Forall_forall. intros e He. specialize (Hlt e He).
      cbn. unfold longer. split; [lia|]. intros Heq. rewrite Heq in Hlt. lia.
    + intros e. cbn [snd]. rewrite elem_of_cons. split; [|naive_solver].
      intros [->|He]; [|by left]. right. split; [|done]. intros (e & Heq & He)%list_elem_of_fmap.
      specialize (Hlt e He). rewrite <- Heq in Hlt. lia.
Qed.

(** The texts a node sends: the type and the path of every entry. *)
Definition login_paths (nl : list XrdCmsPList) : list (list Z * list Z) := (fun p => (PType p, pathname p)) <$> nl.

Lemma login_paths_sorted nl : sorted nl ->
  StronglySorted (fun p q => zlen q.2 <= zlen p.2) (login_paths nl).
Proof.
  induction nl as [|p nl IH]; [constructor|]. intros [Hs Hf]%sorted_cons. constructor; [by apply IH|].
  apply Forall_fmap. eapply Forall_impl; [exact Hf|]. cbn. unfold longer, zlen. intros q [H _]. lia.
Qed.

Lemma login_run l E i nl servset : plist_run true l E -> 0 <= i < 64 -> sorted nl ->
  (forall p k, p ∈ nl -> is_Some (E i !! k) -> longer k (pathname p) /\ k <> pathname p) ->
  exists m l' E', Login_paths false (2 ^ i) (login_paths nl) servset l = (Some m, l') /\
    plist_run true l' E' /\ (forall j, j <> i -> E' j = E j) /\
    forall k a, E' i !! k = Some a <-> E i !! k = Some a \/ exists p, p ∈ nl /\ pathname p = k /\ a = attr_of p.
Proof.
  intros Hr Hi. revert l E servset Hr. induction nl as [|p nl IH]; intros l E servset Hr Hs Hk.
  { exists servset, l, E. split; [done|]. split; [done|]. split; [done|]. intros k a. split; [by left|].
    intros [?|(? & ?%elem_of_nil & _)]; done. }
  apply sorted_cons in Hs as [Hs Hf]. rewrite Forall_forall in Hf.
  assert (E i !! pathname p = None) as Hnone.
  { destruct (E i !! pathname p) eqn:Ep; [|done].
    destruct (Hk p (pathname p) ltac:(left) ltac:(by eexists)) as [_ ?]. done. }
  pose proof (run_insert true l E i (pathname p) (attr_of p) Hr Hi) as Hr'.
  assert (plist_run true (PList_Insert (pathname p) (node_pinfo i (attr_of p)) l).2
            (set_node i (<[pathname p := attr_of p]> (E i)) E)) as Hr2.
  { apply Hr'. intros _. right. split; [done|]. intros k Hks. apply (Hk p k ltac:(left) Hks). }
  pose proof (Insert_newmask (pathname p) i (attr_of p) l Hi) as Hb.
  cbn [login_paths fmap list_fmap Login_paths]. unfold AddPath. rewrite path_type_PType.
  destruct (PList_Insert (pathname p) (node_pinfo i (attr_of p)) l) as [m l1]. cbn [fst snd] in *.
  destruct (Z.eqb_spec m 0) as [->|Hm]; [by rewrite Z.bits_0 in Hb|].
  destruct (IH l1 _ (Z.lor servset m) Hr2 Hs) as (m' & l' & E' & Hl & Hr3 & Hj & Hlk).
  - unfold set_node. rewrite decide_True by done. intros q k Hq Hks.
    apply lookup_insert_is_Some in Hks as [<-|[_ Hks]].
    + destruct (Hf q Hq) as [H1 H2]. split; [done|congruence].
    + apply Hk; [by right|done].
  - exists m', l', E'. split; [exact Hl|]. split; [done|]. unfold set_node in Hj, Hlk. split.
    + intros j Hne. rewrite Hj by done. by rewrite decide_False.
    + intros k a. rewrite decide_True in Hlk by done. rewrite Hlk, lookup_insert_Some.
      setoid_rewrite elem_of_cons. split.
      * intros [[[<- <-]|[_ H]]|(q & Hq & H)]; [right; exists p; auto|by left|right; exists q; auto].
      * intros [H|(q & [->|Hq] & <- & ->)]; [left; right; split; [congruence|done]|auto|eauto].
Qed.

(** The properties a path is first configured with. *)
Fixpoint first_configured (pname : list Z) (adds : list (list Z * XrdCmsPInfo)) : option XrdCmsPInfo :=
  match adds with
  | [] => None
  | (p, pinfo) :: adds => if decide (p = pname) then Some pinfo else first_configured pname adds
  end.

Lemma first_configured_is_Some pname adds : is_Some (first_configured pname adds) <-> exists pinfo, (pname, pinfo) ∈ adds.
Proof.
  induction adds as [|[p pinfo] adds IH]; cbn [first_configured]; [split; [by intros [? ?]|by intros [? ?%elem_of_nil]]|].
  setoid_rewrite elem_of_cons. case_decide as Hp; [subst p; split; [eauto|by eexists]|]. rewrite IH. naive_solver.
Qed.

(** The list that [Add] builds. *)
Lemma configured_list adds : forall nl, sorted nl ->
  let nl' := foldl (fun nl '(pname, pinfo) => (PList_Add pname pinfo nl).2) nl adds in
  sorted nl' /\ forall e, e ∈ nl' <-> e ∈ nl \/ ((pathname e ∉ (pathname <$> nl)) /\ first_configured (pathname e) adds = Some (pathmask e)).
Proof.
  induction adds as [|[pname pinfo] adds IH]; intros nl Hs; cbn [foldl first_configured]; [naive_solver|].
  destruct (Add_sorted pname pinfo nl Hs) as [H1 H2]. destruct (IH _ H1) as [H3 H4]. split; [done|]. intros e. rewrite H4, H2.
  assert (pathname e ∈ pathname <$> (PList_Add pname pinfo nl).2 <-> pathname e ∈ pathname <$> nl \/ pathname e = pname) as Hn.
  { rewrite !list_elem_of_fmap. setoid_rewrite H2. split.
    - intros (q & Hq & [He|[_ ->]]); [left; eauto|by right].
    - intros [(q & Hq & He)|Hp]; [eauto|]. destruct (decide (pname ∈ pathname <$> nl)) as [(q & Hq & He)%list_elem_of_fmap|Hd]; [exists q; split; [congruence|by left]|].
      exists (MkPList pinfo pname). auto. }
  rewrite Hn. case_decide as Hp.
  - rewrite <- Hp. destruct e as [m k]. cbn in *. naive_solver.
  - split; [|naive_solver]. intros [[?|[? ->]]|[? ?]]; [by left|done|right; naive_solver].
Qed.

(** C27: The paths a node sends at login, in the order of a list built by Add
    from any configuration, are sent longest first and are all accepted, so
    that afterwards the node exports exactly the configured paths, each with
    the properties of its first configuration, and no other node's exports
    change. *)
Theorem login_in_order l E i adds : plist_run true l E -> 0 <= i < 64 -> E i = ∅ ->
  let nl := foldl (fun nl '(pname, pinfo) => (PList_Add pname pinfo nl).2) [] adds in
  exists servset l' E',
    Login_paths false (2 ^ i) (login_paths nl) 0 l = (Some servset, l') /\
    StronglySorted (fun p q => zlen q.2 <= zlen p.2) (login_paths nl) /\
    plist_run true l' E' /\ (forall j, j <> i -> E' j = E j) /\
    (forall k a, E' i !! k = Some a <-> exists pinfo, first_configured k adds = Some pinfo /\ a = attr_of (MkPList pinfo k)) /\
    forall k, is_Some (E' i !! k) <-> exists pinfo, (k, pinfo) ∈ adds.
Proof.
  intros Hr Hi HE nl. destruct (configured_list adds [] ltac:(split; constructor)) as [Hs Hn]. fold nl in Hs, Hn.
  destruct (login_run l E i nl 0 Hr Hi Hs) as (m & l' & E' & Hl & Hr' & Hj & Hk).
  { intros p k _ [? Hk]. by rewrite HE, lookup_empty in Hk. }
  exists m, l', E'. split; [exact Hl|]. split; [by apply login_paths_sorted|]. split; [done|]. split; [done|].
  assert (forall k a, E' i !! k = Some a <-> exists pinfo, first_configured k adds = Some pinfo /\ a = attr_of (MkPList pinfo k)) as Hfc.
  2: { split; [done|]. intros k. rewrite <- first_configured_is_Some. unfold is_Some. setoid_rewrite Hfc. naive_solver. }
  intros k a. rewrite Hk, HE, lookup_empty. setoid_rewrite Hn. split.
  - intros [[=]|(p & [?%elem_of_nil|[_ Hp]] & <- & ->)]; [done|]. exists (pathmask p). split; [done|]. by destruct p.
  - intros (pinfo & Hp & ->). right. exists (MkPList pinfo k). split; [right; split; [apply not_elem_of_nil|done]|done].
Qed.

Lemma login_in_order_witness :
  exists servset l' E',
    Login_paths false (2 ^ 3)
      [([119], [47; 97; 98]); ([114; 115], [47; 97]); ([114], [47])] 0 [] = (Some servset, l') /\
    plist_run true l' E' /\ E' 3 !! [47; 97] = Some (false, true).
Proof.
  destruct (login_in_order [] (fun _ => ∅) 3
    [([47], MkPInfo 1 0 0); ([47; 97; 98], MkPInfo 1 1 0); ([47; 97], MkPInfo 1 0 1)]
    (run_empty true) ltac:(lia) eq_refl) as (m & l' & E' & Hl & _ & Hr & _ & Hk & _).
  exists m, l', E'. split; [exact Hl|]. split; [exact Hr|]. apply Hk. by exists (MkPInfo 1 0 1).
Defined.

(** A new entry takes the masks of all shorter paths, not of the longest one:
    node 0 exports / writable and /a for reading; once node 1 adds /a/b, node 0
    is reported writable there. Had node 1 come first, it would not be. *)
Example inherit_overgrants :
  let ins i p a l := (PList_Insert p (node_pinfo i a) l).2 in
  let rw := (true, false) in let ro := (false, false) in
  (rwvec <$> PList_Find [47; 97; 47; 98; 47] (ins 1 [47; 97; 47; 98] ro (ins 0 [47] rw (ins 0 [47; 97] ro [])))) = Some 1 /\
  (rwvec <$> PList_Find [47; 97; 47; 98; 47] (ins 0 [47] rw (ins 0 [47; 97] ro (ins 1 [47; 97; 47; 98] ro [])))) = Some 0.
Proof. vm_compute. done. Qed.
