(* ===== verification/CmsRRQ.v ===== *)
(** * The queue of requests that wait for a location

    Models src/src/XrdCms/XrdCmsRRQ.hh and XrdCmsRRQ.cc. A request for a file
    whose location is being looked up takes a slot; it waits in [waitQ], alone or
    with others that ask for the same cache item, until a server reports the file
    or the clock passes; then the responder answers it and all it has collected.

    A slot is its index. The queues of links and the chains through [Cont] and
    [LkUp] are written as the lists of the slots they link: a slot is in one of
    them at most, which the invariant shows. Every routine that runs under the
    mutex is a step; the responder's turn has three, as it sends unlocked. *)

From stdpp Require Import base tactics list_numbers numbers option gmap list.
From S2P Require Import Prelude.
#[local] Set Warnings "-clear-no-such-hyp".

(** ** Data *)

(** [XrdCmsRRQInfo] *)
Record RRQInfo := MkInfo {
  Key : option Z; ID : Z; Rinst : Z; Rnum : Z; isRW : bool; isLU : bool;
  minR : Z; actR : Z; lsLU : Z; ifOP : Z; rwVec : Z }.

(** [XrdCmsRRQInfo( rinst, rnum, id, minQ )] *)
Definition RRQInfo_new (rinst rnum id minQ : Z) : RRQInfo :=
  MkInfo None id rinst rnum false false minQ 0 0 0 0.

Definition set_Key (k : option Z) (i : RRQInfo) : RRQInfo :=
  MkInfo k (ID i) (Rinst i) (Rnum i) (isRW i) (isLU i) (minR i) (actR i) (lsLU i) (ifOP i) (rwVec i).

(** [XrdCmsRRQSlot]; [Cont] and [LkUp] are the chains that start there. *)
Record RRQSlot := MkSlot {
  Cont : list Z; LkUp : list Z; Info : RRQInfo; Arg1 : Z; Arg2 : Z; Expire : Z }.

Record RRQStats := MkStats {
  Add2Q : Z; PBack : Z; Resp : Z; Multi : Z; luFast : Z; luSlow : Z; rdFast : Z; rdSlow : Z }.

Definition Stats_Reset : RRQStats := MkStats 0 0 0 0 0 0 0 0.

(** [XrdCmsRRQ]; [isWaiting] and [isReady] count the posts of the semaphores,
    [counts] the responder's own counters. *)
Record XrdCmsRRQ := MkRRQ {
  Slot : list RRQSlot; freeSlot : list Z; waitQ : list Z; readyQ : list Z; myClock : Z;
  isWaiting : Z; isReady : Z; Stats : RRQStats; counts : RRQStats; Tdelay : Z }.

Definition numSlots : Z := 1024.

(** The constructors of the slots chain all but the first. *)
Definition XrdCmsRRQ_new : XrdCmsRRQ :=
  MkRRQ (replicate 1024 (MkSlot [] [] (RRQInfo_new 0 0 0 0) 0 0 0)) (rev (seqZ 1 1023)) [] [] 0 0 0
    Stats_Reset Stats_Reset 5.

(** ** Access *)

Definition slot_at (n : Z) (q : XrdCmsRRQ) : res RRQSlot :=
  if n <? 0 then Fault else match Slot q !! Z.to_nat n with Some s => Ok s | None => Fault end.

Definition upd_slot (n : Z) (f : RRQSlot -> RRQSlot) (q : XrdCmsRRQ) : XrdCmsRRQ :=
  MkRRQ (alter f (Z.to_nat n) (Slot q)) (freeSlot q) (waitQ q) (readyQ q) (myClock q)
    (isWaiting q) (isReady q) (Stats q) (counts q) (Tdelay q).

Definition set_free (l : list Z) (q : XrdCmsRRQ) : XrdCmsRRQ :=
  MkRRQ (Slot q) l (waitQ q) (readyQ q) (myClock q) (isWaiting q) (isReady q) (Stats q) (counts q) (Tdelay q).

Definition set_queues (w r : list Z) (q : XrdCmsRRQ) : XrdCmsRRQ :=
  MkRRQ (Slot q) (freeSlot q) w r (myClock q) (isWaiting q) (isReady q) (Stats q) (counts q) (Tdelay q).

Definition set_stats (s : RRQStats) (q : XrdCmsRRQ) : XrdCmsRRQ :=
  MkRRQ (Slot q) (freeSlot q) (waitQ q) (readyQ q) (myClock q) (isWaiting q) (isReady q) s (counts q) (Tdelay q).

Definition set_counts (s : RRQStats) (q : XrdCmsRRQ) : XrdCmsRRQ :=
  MkRRQ (Slot q) (freeSlot q) (waitQ q) (readyQ q) (myClock q) (isWaiting q) (isReady q) (Stats q) s (Tdelay q).

Definition post_waiting (q : XrdCmsRRQ) : XrdCmsRRQ :=
  MkRRQ (Slot q) (freeSlot q) (waitQ q) (readyQ q) (myClock q) (isWaiting q + 1) (isReady q) (Stats q) (counts q) (Tdelay q).

Definition post_ready (q : XrdCmsRRQ) : XrdCmsRRQ :=
  MkRRQ (Slot q) (freeSlot q) (waitQ q) (readyQ q) (myClock q) (isWaiting q) (isReady q + 1) (Stats q) (counts q) (Tdelay q).

Definition set_args (a1 a2 : Z) (s : RRQSlot) : RRQSlot := MkSlot (Cont s) (LkUp s) (Info s) a1 a2 (Expire s).
Definition set_info (i : RRQInfo) (s : RRQSlot) : RRQSlot := MkSlot (Cont s) (LkUp s) i (Arg1 s) (Arg2 s) (Expire s).
Definition set_expire (e : Z) (s : RRQSlot) : RRQSlot := MkSlot (Cont s) (LkUp s) (Info s) (Arg1 s) (Arg2 s) e.
Definition set_cont (l : list Z) (s : RRQSlot) : RRQSlot := MkSlot l (LkUp s) (Info s) (Arg1 s) (Arg2 s) (Expire s).
Definition set_lkup (l : list Z) (s : RRQSlot) : RRQSlot := MkSlot (Cont s) l (Info s) (Arg1 s) (Arg2 s) (Expire s).

(** [Link.Remove()] takes the slot out of whichever queue it is in. *)
Definition link_remove (n : Z) (q : XrdCmsRRQ) : XrdCmsRRQ :=
  set_queues (filter (fun m => m <> n) (waitQ q)) (filter (fun m => m <> n) (readyQ q)) q.

(** [if (readyQ.Singleton()) isReady.Post(); readyQ.Prev()->Insert(&sp->Link)] *)
Definition make_ready (n : Z) (q : XrdCmsRRQ) : XrdCmsRRQ :=
  let q := match readyQ q with [] => post_ready q | _ => q end in
  set_queues (waitQ q) (readyQ q ++ [n]) q.

(** ** Operations *)

(** [XrdCmsRRQSlot::Alloc( theInfo )] *)
Definition Slot_Alloc (theInfo : RRQInfo) (q : XrdCmsRRQ) : option (Z * XrdCmsRRQ) :=
  match freeSlot q with
  | [] => None
  | sp :: free =>
      Some (sp, upd_slot sp (fun s => MkSlot [] [] theInfo 0 0 (Expire s)) (set_free free q))
  end.

(** [Add( Snum, Info )] *)
Definition RRQ_Add (Snum : Z) (info : RRQInfo) (q : XrdCmsRRQ) : res (Z * XrdCmsRRQ) :=
  match Slot_Alloc info q with
  | None => Ok (0, q)
  | Some (sp, q) =>
      let st := Stats q in
      let q := set_stats (MkStats (Add2Q st + 1) (PBack st) (Resp st) (Multi st) (luFast st) (luSlow st) (rdFast st) (rdSlow st)) q in
      joins ← (if Snum =? 0 then Ok None else
               s ← slot_at Snum q;
               Ok (if bool_decide (Key (Info s) = Key info) && negb (Expire s =? 0) then Some s else None));
      match joins with
      | Some s =>
          let q := if isLU info then upd_slot Snum (set_lkup (sp :: LkUp s)) q
                   else upd_slot Snum (set_cont (sp :: Cont s)) q in
          let st := Stats q in
          Ok (Snum, set_stats (MkStats (Add2Q st) (PBack st + 1) (Resp st) (Multi st) (luFast st) (luSlow st) (rdFast st) (rdSlow st)) q)
      | None =>
          let q := upd_slot sp (set_expire (u32 (myClock q + 1))) q in
          let q := match waitQ q with [] => post_waiting q | _ => q end in
          Ok (sp, set_queues (waitQ q ++ [sp]) (readyQ q) q)
      end
  end.

(** [char] of the number of responses. *)
Definition i8 (z : Z) : Z := (z + 2 ^ 7) mod 2 ^ 8 - 2 ^ 7.

(** [Ready( Snum, Key, mask1, mask2 )] *)
Definition RRQ_Ready (Snum : Z) (key : option Z) (mask1 mask2 : Z) (q : XrdCmsRRQ) : res (Z * XrdCmsRRQ) :=
  s ← slot_at Snum q;
  if negb (bool_decide (Key (Info s) = key)) || (Expire s =? 0) then Ok (1, q)
  else
    let s := set_args (Z.lor (Arg1 s) mask1) mask2 s in
    let st := Stats q in
    if actR (Info s) <? minR (Info s) then
      let i := Info s in
      let i := MkInfo (Key i) (ID i) (Rinst i) (Rnum i) (isRW i) (isLU i) (minR i) (i8 (actR i + 1)) (lsLU i) (ifOP i) (rwVec i) in
      let q := upd_slot Snum (fun _ => set_info i s) q in
      Ok (0, set_stats (MkStats (Add2Q st) (PBack st) (Resp st + 1) (Multi st + 1) (luFast st) (luSlow st) (rdFast st) (rdSlow st)) q)
    else
      let q := upd_slot Snum (fun _ => s) q in
      let q := set_stats (MkStats (Add2Q st) (PBack st) (Resp st + 1) (Multi st) (luFast st) (luSlow st) (rdFast st) (rdSlow st)) q in
      Ok (1, make_ready Snum (link_remove Snum q)).

(** [Del( Snum, Key )] *)
Definition RRQ_Del (Snum : Z) (key : option Z) (q : XrdCmsRRQ) : res XrdCmsRRQ :=
  '(_, q) ← RRQ_Ready Snum key 0 0 q; Ok q.

(** A turn of the clock of [TimeOut], before it sleeps and after. *)
Definition TimeOut_tick (q : XrdCmsRRQ) : XrdCmsRRQ :=
  MkRRQ (Slot q) (freeSlot q) (waitQ q) (readyQ q) (u32 (myClock q + 1)) (isWaiting q) (isReady q)
    (Stats q) (counts q) (Tdelay q).

Fixpoint expire_loop (l : list Z) (q : XrdCmsRRQ) : res XrdCmsRRQ :=
  match l with
  | [] => Ok q
  | sp :: l =>
      s ← slot_at sp q;
      if Expire s <? myClock q then expire_loop l (make_ready sp (link_remove sp q)) else Ok q
  end.

Definition TimeOut_expire (q : XrdCmsRRQ) : res XrdCmsRRQ := expire_loop (waitQ q) q.

(** ** The responder *)

(** What a redirector is sent. *)
Inductive Reply :=
  | Redirect (port : Z) (host : list Z)
  | Locate (data : list Z)
  | Wait (delay : Z).

Section respond.
(** The nodes a redirector is logged in at, the selection of a server among the
    nodes of a mask and the list of servers as text, which the cluster's tables
    provide. *)
Context (RTable_Find : Z -> Z -> bool)
  (Cluster_Select : Z -> bool -> Z -> Z -> option (Z * list Z))
  (LocFmt : Z -> Z -> Z -> Z -> option (list Z)).

(** The requests of a chain, each with its answer; the redirectors that are no
    longer there get none. *)
Definition messages (answers : list (RRQInfo * Reply)) : list (RRQInfo * Reply) :=
  filter (fun a => RTable_Find (Rnum a.1) (Rinst a.1) = true) answers.

Definition infos (chain : list Z) (q : XrdCmsRRQ) : res (list RRQInfo) :=
  foldr (fun n rest => s ← slot_at n q; rest ← rest; Ok (Info s :: rest)) (Ok []) chain.

Definition count_if (i : RRQInfo) : Z := if RTable_Find (Rnum i) (Rinst i) then 1 else 0.
Definition found (l : list RRQInfo) : Z := foldr Z.add 0 (count_if <$> l).

(** [sendLwtResp( rP )] over the chain of lookups. *)
Definition sendLwtResp (chain : list Z) (q : XrdCmsRRQ) : res (list (RRQInfo * Reply) * XrdCmsRRQ) :=
  chained ← infos chain q;
  let c := counts q in
  Ok ((fun i => (i, Wait (Tdelay q))) <$> chained,
      set_counts (MkStats (Add2Q c) (PBack c) (Resp c) (Multi c) (luFast c) (luSlow c + found chained) (rdFast c) (rdSlow c)) q).

(** [sendLocResp( lP )] *)
Definition sendLocResp (chain : list Z) (q : XrdCmsRRQ) : res (list (RRQInfo * Reply) * XrdCmsRRQ) :=
  match chain with
  | [] => Ok ([], q)
  | lP :: _ =>
      s ← slot_at lP q;
      if Arg1 s =? 0 then sendLwtResp chain q
      else
        match LocFmt (Arg1 s) (lsLU (Info s)) (Arg2 s) (rwVec (Info s)) with
        | None => sendLwtResp chain q
        | Some data =>
            chained ← infos chain q;
            let c := counts q in
            Ok ((fun i => (i, Locate data)) <$> chained,
                set_counts (MkStats (Add2Q c) (PBack c) (Resp c) (Multi c) (luFast c + zlen chained) (luSlow c) (rdFast c) (rdSlow c)) q)
        end
  end.

(** [sendRedResp( rP )] over the chain of selections. *)
Definition sendRedResp (chain : list Z) (q : XrdCmsRRQ) : res (list (RRQInfo * Reply) * XrdCmsRRQ) :=
  match chain with
  | [] => Ok ([], q)
  | rP :: _ =>
      s ← slot_at rP q;
      let doredir := if Arg1 s =? 0 then None
                     else Cluster_Select (Arg1 s) (isRW (Info s)) (actR (Info s)) (ifOP (Info s)) in
      chained ← infos chain q;
      let c := counts q in
      Ok match doredir with
         | Some (port, host) =>
             ((fun i => (i, Redirect port host)) <$> chained,
              set_counts (MkStats (Add2Q c) (PBack c) (Resp c) (Multi c) (luFast c) (luSlow c) (rdFast c + found chained) (rdSlow c)) q)
         | None =>
             ((fun i => (i, Wait (Tdelay q))) <$> chained,
              set_counts (MkStats (Add2Q c) (PBack c) (Resp c) (Multi c) (luFast c) (luSlow c) (rdFast c) (rdSlow c + found chained)) q)
         end
  end.

(** The turn of [Respond]: the counters and the first ready slot, *)
Definition Respond_next (q : XrdCmsRRQ) : option Z * XrdCmsRRQ :=
  let st := Stats q in let c := counts q in
  let q := set_stats (MkStats (Add2Q st) (PBack st) (Resp st) (Multi st) (luFast st + luFast c) (luSlow st + luSlow c)
                        (rdFast st + rdFast c) (rdSlow st + rdSlow c)) q in
  match readyQ q with
  | [] => (None, q)
  | sp :: _ => (Some sp, upd_slot sp (set_expire 0) (link_remove sp q))
  end.

(** its answers, *)
Definition Respond_send (sp : Z) (q : XrdCmsRRQ) : res (list (RRQInfo * Reply) * XrdCmsRRQ) :=
  s ← slot_at sp q;
  if isLU (Info s) then
    '(a1, q) ← match Cont s with
               | [] => Ok ([], q)
               | c :: _ => sendRedResp (Cont s) (upd_slot c (fun s' => set_args (Arg1 s) (Arg2 s') s') q)
               end;
    '(a2, q) ← sendLocResp (sp :: LkUp s) q;
    Ok (a1 ++ a2, q)
  else
    '(a1, q) ← match LkUp s with
               | [] => Ok ([], q)
               | l :: _ => sendLocResp (LkUp s) (upd_slot l (set_args (Arg1 s) (Arg2 s)) q)
               end;
    '(a2, q) ← sendRedResp (sp :: Cont s) q;
    Ok (a1 ++ a2, q).

(** and [Recycle()] of the slot. *)
Definition recycle_one (n : Z) (q : XrdCmsRRQ) : XrdCmsRRQ :=
  set_free (n :: freeSlot q) (upd_slot n (fun s => set_info (set_Key None (Info s)) s) q).

Definition Slot_Recycle (sp : Z) (q : XrdCmsRRQ) : res XrdCmsRRQ :=
  let q := link_remove sp q in
  s ← slot_at sp q;
  let q := foldl (fun q n => recycle_one n q) q (LkUp s) in
  let q := foldl (fun q n => recycle_one n q) q (Cont s) in
  Ok (recycle_one sp q).

(** The responder's loop until nothing is ready. *)
Fixpoint Respond_loop (fuel : nat) (q : XrdCmsRRQ) : res (list (RRQInfo * Reply) * XrdCmsRRQ) :=
  let '(sp, q) := Respond_next q in
  match sp with
  | None => Ok ([], q)
  | Some sp =>
      match fuel with
      | O => Diverge
      | S fuel =>
          '(a1, q) ← Respond_send sp q;
          q ← Slot_Recycle sp q;
          '(a2, q) ← Respond_loop fuel q;
          Ok (a1 ++ a2, q)
      end
  end.

End respond.

(** One turn of the clock. *)
Definition TimeOut_turn (q : XrdCmsRRQ) : res XrdCmsRRQ := TimeOut_expire (TimeOut_tick q).

(** ** Slots and their groups *)

Definition sl (q : XrdCmsRRQ) (n : Z) : RRQSlot :=
  default (MkSlot [] [] (RRQInfo_new 0 0 0 0) 0 0 0) (Slot q !! Z.to_nat n).

(** The slots answered together with those at the heads of the groups. *)
Definition members (q : XrdCmsRRQ) (heads : list Z) : list Z :=
  heads ≫= fun h => h :: LkUp (sl q h) ++ Cont (sl q h).

(** A request as its sender knows it. *)
Definition req_id (i : RRQInfo) : Z * Z * Z := (ID i, Rnum i, Rinst i).
Definition ids (q : XrdCmsRRQ) (ns : list Z) : list (Z * Z * Z) := (fun n => req_id (Info (sl q n))) <$> ns.

Lemma slot_at_ok n q : length (Slot q) = 1024%nat -> 0 <= n < 1024 -> slot_at n q = Ok (sl q n).
Proof.
  intros Hl Hn. unfold slot_at, sl. destruct (Z.ltb_spec n 0); [lia|].
  destruct (Slot q !! Z.to_nat n) eqn:E; [done|]. apply lookup_ge_None in E. lia.
Qed.

Lemma sl_upd n m f q : length (Slot q) = 1024%nat -> 0 <= n < 1024 -> 0 <= m ->
  sl (upd_slot n f q) m = if decide (m = n) then f (sl q n) else sl q m.
Proof.
  intros Hl Hn Hm. unfold sl. cbn [upd_slot Slot]. case_decide as Hd.
  - subst m. rewrite list_lookup_alter_eq. destruct (Slot q !! Z.to_nat n) eqn:E; [done|].
    apply lookup_ge_None in E. lia.
  - rewrite list_lookup_alter_ne by lia. done.
Qed.

Lemma members_cong q q' heads :
  (forall h, h ∈ heads -> LkUp (sl q' h) = LkUp (sl q h) /\ Cont (sl q' h) = Cont (sl q h)) ->
  members q' heads = members q heads.
Proof.
  induction heads as [|h hs IH]; intros H; [done|]. unfold members in *. rewrite !bind_cons.
  destruct (H h ltac:(left)) as [-> ->]. f_equal. apply IH. intros h' Hh'. apply H. by right.
Qed.

Lemma ids_cong q q' ns : (forall n, n ∈ ns -> req_id (Info (sl q' n)) = req_id (Info (sl q n))) ->
  ids q' ns = ids q ns.
Proof. intros H. unfold ids. apply list_fmap_ext. intros i n Hn. apply H. by eapply list_elem_of_lookup_2. Qed.

Lemma members_app q h1 h2 : members q (h1 ++ h2) = members q h1 ++ members q h2.
Proof. apply bind_app. Qed.

Lemma members_one q h : members q [h] = h :: LkUp (sl q h) ++ Cont (sl q h).
Proof. unfold members. cbn. by rewrite app_nil_r. Qed.

#[local] Instance members_perm q : Proper ((≡ₚ) ==> (≡ₚ)) (members q).
Proof. intros l l' H. unfold members. by rewrite H. Qed.

Lemma heads_members q heads h : h ∈ heads -> h ∈ members q heads.
Proof. intros H. apply list_elem_of_bind. exists h. split; [left|done]. Qed.

(** One group grows by a slot. *)
Lemma members_grow q q' heads h sp : NoDup heads -> h ∈ heads ->
  LkUp (sl q' h) ++ Cont (sl q' h) ≡ₚ sp :: LkUp (sl q h) ++ Cont (sl q h) ->
  (forall h', h' <> h -> h' ∈ heads -> LkUp (sl q' h') = LkUp (sl q h') /\ Cont (sl q' h') = Cont (sl q h')) ->
  members q' heads ≡ₚ sp :: members q heads.
Proof.
  intros Hnd Hh Hg Ho. apply elem_of_Permutation in Hh as [hs Hh].
  rewrite Hh in Hnd. apply NoDup_cons in Hnd as [Hni Hnd]. rewrite Hh. unfold members. rewrite !bind_cons.
  assert (members q' hs = members q hs) as Heq.
  { apply members_cong. intros h' Hh'. apply Ho; [intros ->; done|]. rewrite Hh. by right. }
  unfold members in Heq. rewrite Heq. cbn [app]. rewrite Hg. cbn [app]. apply perm_swap.
Qed.

(** ** The invariant *)

(** The responder between its steps. *)
Inductive stage := Idle | Sending (sp : Z) | Sent (sp : Z).

Definition busy (st : stage) : list Z := match st with Idle => [] | Sending sp | Sent sp => [sp] end.
Definition unanswered (st : stage) : list Z := match st with Sending sp => [sp] | _ => [] end.

Definition heads (q : XrdCmsRRQ) (st : stage) : list Z := waitQ q ++ readyQ q ++ busy st.
Definition pending (q : XrdCmsRRQ) (st : stage) : list Z := members q (waitQ q ++ readyQ q ++ unanswered st).

Record rrq_wf (q : XrdCmsRRQ) (st : stage) : Prop := {
  w_len : length (Slot q) = 1024%nat;
  w_perm : freeSlot q ++ members q (heads q st) ≡ₚ seqZ 1 1023;
  w_exp : forall n, 0 <= n < 1024 -> Expire (sl q n) <> 0 <-> n ∈ waitQ q ++ readyQ q;
  w_clock : forall n, n ∈ waitQ q -> Expire (sl q n) <= myClock q + 1;
  w_now : 0 <= myClock q }.

Lemma NoDup_members q heads : NoDup (members q heads) -> NoDup heads.
Proof.
  induction heads as [|h hs IH]; [constructor|]. unfold members. rewrite bind_cons.
  intros [Hd1 [Hd2 Hd3]]%NoDup_app. apply NoDup_cons. split; [|by apply IH].
  intros Hh. apply (Hd2 h); [left|]. by apply heads_members.
Qed.

Section wf.
Context (q : XrdCmsRRQ) (st : stage) (Hw : rrq_wf q st).

Lemma wf_range n : n ∈ freeSlot q ++ members q (heads q st) -> 0 <= n < 1024.
Proof. rewrite (w_perm _ _ Hw), elem_of_seqZ. lia. Qed.

Lemma wf_nodup : NoDup (freeSlot q ++ members q (heads q st)).
Proof. rewrite (w_perm _ _ Hw). apply NoDup_seqZ. Qed.

Lemma wf_heads_nodup : NoDup (heads q st).
Proof. pose proof wf_nodup as H. apply NoDup_app in H as (_ & _ & H). by apply NoDup_members in H. Qed.

Lemma wf_member n : n ∈ members q (heads q st) -> 0 <= n < 1024.
Proof. intros H. apply wf_range, elem_of_app. by right. Qed.

Lemma wf_head n : n ∈ heads q st -> 0 <= n < 1024.
Proof. intros H. by apply wf_member, heads_members. Qed.

Lemma wf_queued n : n ∈ waitQ q ++ readyQ q -> 0 <= n < 1024.
Proof. intros H. apply wf_head. unfold heads. set_solver. Qed.

Lemma wf_free n : n ∈ freeSlot q -> 0 <= n < 1024 /\ n ∉ members q (heads q st).
Proof.
  intros H. split; [apply wf_range, elem_of_app; by left|].
  pose proof wf_nodup as Hd. apply NoDup_app in Hd as (_ & Hd & _). by apply Hd.
Qed.

Lemma pending_members n : n ∈ pending q st -> n ∈ members q (heads q st).
Proof.
  unfold pending, heads, members. rewrite !list_elem_of_bind. intros (h & Hn & Hh). exists h. split; [done|].
  destruct st; cbn [busy unanswered] in *; set_solver.
Qed.

End wf.

Lemma rrq_new_wf : rrq_wf XrdCmsRRQ_new Idle.
Proof.
  assert (forall n, sl XrdCmsRRQ_new n = MkSlot [] [] (RRQInfo_new 0 0 0 0) 0 0 0) as Hs.
  { intros n. unfold sl. cbn [XrdCmsRRQ_new Slot]. by destruct (replicate _ _ !! _) eqn:E; [apply lookup_replicate in E as [-> _]|]. }
  split.
  - done.
  - cbn [XrdCmsRRQ_new freeSlot heads waitQ readyQ busy app members]. rewrite app_nil_r. symmetry. apply Permutation_rev.
  - intros n _. rewrite Hs. cbn. split; [done|]. by intros ?%elem_of_nil.
  - by intros n ?%elem_of_nil.
  - done.
Qed.

(** ** Every step keeps the invariant and the requests *)

(** Removal of one element. *)
Lemma filter_remove (x : Z) (l : list Z) : NoDup l -> x ∈ l -> l ≡ₚ x :: filter (fun m => m <> x) l.
Proof.
  intros Hn Hx. apply elem_of_Permutation in Hx as [k Hk]. rewrite Hk in Hn |- *.
  apply NoDup_cons in Hn as [Hx Hn]. rewrite filter_cons_False by (intros H; by apply H).
  assert (forall k : list Z, x ∉ k -> filter (fun m => m <> x) k = k) as Hf.
  { clear. induction k as [|y k IH]; intros Hx; [done|]. apply not_elem_of_cons in Hx as [H1 H2].
    rewrite filter_cons_True by congruence. by rewrite IH. }
  by rewrite Hf.
Qed.

Lemma filter_absent (x : Z) (l : list Z) : x ∉ l -> filter (fun m => m <> x) l = l.
Proof.
  induction l as [|y l IH]; intros Hx; [done|]. apply not_elem_of_cons in Hx as [H1 H2].
  rewrite filter_cons_True by congruence. by rewrite IH.
Qed.

Lemma queues_remove q n : NoDup (waitQ q ++ readyQ q) -> n ∈ waitQ q ++ readyQ q ->
  waitQ q ++ readyQ q ≡ₚ n :: waitQ (link_remove n q) ++ readyQ (link_remove n q).
Proof. intros Hd Hn. cbn [link_remove set_queues waitQ readyQ]. rewrite <- filter_app. by apply filter_remove. Qed.

Lemma make_ready_queues n q : waitQ (make_ready n q) = waitQ q /\ readyQ (make_ready n q) = readyQ q ++ [n] /\
  Slot (make_ready n q) = Slot q /\ freeSlot (make_ready n q) = freeSlot q /\ myClock (make_ready n q) = myClock q.
Proof. unfold make_ready. by destruct (readyQ q) eqn:E; cbn; rewrite ?E. Qed.

Lemma sl_Slot q q' n : Slot q' = Slot q -> sl q' n = sl q n.
Proof. intros H. unfold sl. by rewrite H. Qed.

Lemma sl_stats s q n : sl (set_stats s q) n = sl q n.
Proof. done. Qed.
Lemma sl_queues w r q n : sl (set_queues w r q) n = sl q n.
Proof. done. Qed.
Lemma sl_free l q n : sl (set_free l q) n = sl q n.
Proof. done. Qed.
Lemma sl_counts s q n : sl (set_counts s q) n = sl q n.
Proof. done. Qed.

(** A step that changes neither the slots' chains nor what is queued. *)
Lemma wf_same q q' st : rrq_wf q st ->
  length (Slot q') = length (Slot q) -> freeSlot q' = freeSlot q ->
  waitQ q' ++ readyQ q' ≡ₚ waitQ q ++ readyQ q ->
  (forall n, n ∈ waitQ q' -> n ∈ waitQ q) -> myClock q <= myClock q' ->
  (forall n, 0 <= n < 1024 -> LkUp (sl q' n) = LkUp (sl q n) /\ Cont (sl q' n) = Cont (sl q n) /\
     Expire (sl q' n) = Expire (sl q n) /\ req_id (Info (sl q' n)) = req_id (Info (sl q n))) ->
  rrq_wf q' st /\ ids q' (pending q' st) ≡ₚ ids q (pending q st).
Proof.
  intros Hw Hl Hf Hq Hwq Hc Hs.
  assert (forall e hs hs', hs = waitQ q ++ readyQ q ++ e -> hs' = waitQ q' ++ readyQ q' ++ e ->
    (forall h, h ∈ hs -> 0 <= h < 1024) -> members q' hs' ≡ₚ members q hs) as Hm.
  { intros e hs hs' -> -> Hr. rewrite !app_assoc, Hq, <- !app_assoc.
    rewrite (members_cong q q'); [done|]. intros h Hh. destruct (Hs h (Hr h Hh)) as (H1 & H2 & _). done. }
  assert (forall h, h ∈ heads q st -> 0 <= h < 1024) as Hr by apply (wf_head _ _ Hw).
  split; [split|].
  - rewrite Hl. apply Hw.
  - rewrite Hf. unfold heads. rewrite (Hm (busy st) (heads q st)); [apply Hw|done..].
  - intros n Hn. destruct (Hs n Hn) as (_ & _ & -> & _). rewrite Hq. by apply Hw.
  - intros n Hn. apply Hwq in Hn. pose proof (w_clock _ _ Hw n Hn).
    destruct (Hs n) as (_ & _ & -> & _); [|lia]. apply (wf_queued _ _ Hw), elem_of_app. by left.
  - pose proof (w_now _ _ Hw). lia.
  - assert (pending q' st ≡ₚ pending q st) as Hp.
    { unfold pending. apply (Hm (unanswered st)); [done..|]. intros h Hh. apply Hr. unfold heads.
      destruct st; cbn [busy unanswered] in *; set_solver. }
    unfold ids. rewrite Hp. fold (ids q' (pending q st)). rewrite (ids_cong q q'); [done|].
    intros n Hn. apply Hs, (wf_member _ _ Hw), (pending_members _ _ Hw n Hn).
Qed.

(** Moving a queued slot to the end of the ready queue. *)
Lemma move_ok n q st : rrq_wf q st -> n ∈ waitQ q ++ readyQ q ->
  let q' := make_ready n (link_remove n q) in
  rrq_wf q' st /\ ids q' (pending q' st) ≡ₚ ids q (pending q st).
Proof.
  intros Hw Hn. cbn zeta. pose proof (make_ready_queues n (link_remove n q)) as (H1 & H2 & H3 & H4 & H5).
  assert (NoDup (waitQ q ++ readyQ q)) as Hd.
  { pose proof (wf_heads_nodup _ _ Hw) as Hd. unfold heads in Hd. rewrite app_assoc in Hd.
    by apply NoDup_app in Hd as (Hd & _ & _). }
  apply wf_same; [done|by rewrite H3|by rewrite H4| | |rewrite H5; cbn; lia|].
  - rewrite H1, H2, (queues_remove q n) by done. rewrite app_assoc. by rewrite <- Permutation_cons_append.
  - rewrite H1. cbn. intros m. rewrite list_elem_of_filter. by intros [_ ?].
  - intros m _. by rewrite (sl_Slot q) by (by rewrite H3).
Qed.

Lemma ready_ok Snum key m1 m2 q st : rrq_wf q st -> 0 <= Snum < 1024 ->
  exists r q', RRQ_Ready Snum key m1 m2 q = Ok (r, q') /\
    rrq_wf q' st /\ ids q' (pending q' st) ≡ₚ ids q (pending q st).
Proof.
  intros Hw Hn. unfold RRQ_Ready. rewrite slot_at_ok by (apply Hw || done). step_ok.
  destruct (negb (bool_decide (Key (Info (sl q Snum)) = key))); cbn [orb]; [eauto|].
  destruct (Z.eqb_spec (Expire (sl q Snum)) 0) as [He|He]; [eauto|].
  pose proof (w_len _ _ Hw) as Hl. apply (w_exp _ _ Hw) in He; [|done].
  assert (forall s st', req_id (Info s) = req_id (Info (sl q Snum)) -> LkUp s = LkUp (sl q Snum) ->
    Cont s = Cont (sl q Snum) -> Expire s = Expire (sl q Snum) ->
    let q1 := set_stats st' (upd_slot Snum (fun _ => s) q) in
    rrq_wf q1 st /\ ids q1 (pending q1 st) ≡ₚ ids q (pending q st)) as Hupd.
  { intros s st' H1 H2 H3 H4. apply wf_same; [done|by apply length_alter|done|done|done|done|].
    intros n Hn'. rewrite sl_stats, sl_upd by (done || lia). case_decide as Hd; [by rewrite Hd|done]. }
  destruct (actR _ <? minR _); (eexists _, _; split; [reflexivity|]); [by apply Hupd|].
  match goal with |- rrq_wf (make_ready _ (link_remove _ (set_stats ?st' (upd_slot _ (fun _ => ?s) _)))) _ /\ _ =>
    destruct (Hupd s st') as [Hw1 Hi1]; [done..|] end.
  destruct (move_ok Snum _ st Hw1 He) as [Hw2 Hi2]. split; [exact Hw2|]. by rewrite Hi2.
Qed.

Lemma tick_ok q st : rrq_wf q st -> myClock q + 1 < 2 ^ 32 ->
  rrq_wf (TimeOut_tick q) st /\ ids (TimeOut_tick q) (pending (TimeOut_tick q) st) ≡ₚ ids q (pending q st).
Proof.
  intros Hw Hc. pose proof (w_now _ _ Hw).
  apply wf_same; try done. cbn. rewrite u32_small; lia.
Qed.

Lemma expire_ok l q st : rrq_wf q st -> (forall n, n ∈ l -> n ∈ waitQ q ++ readyQ q) ->
  exists q', expire_loop l q = Ok q' /\ rrq_wf q' st /\ ids q' (pending q' st) ≡ₚ ids q (pending q st) /\
    myClock q' = myClock q.
Proof.
  revert q. induction l as [|n l IH]; intros q Hw Hl; cbn [expire_loop]; [eauto|].
  assert (n ∈ waitQ q ++ readyQ q) as Hn by (apply Hl; left).
  rewrite slot_at_ok by first [exact (w_len _ _ Hw)|exact (wf_queued _ _ Hw n Hn)]. step_ok.
  destruct (Expire (sl q n) <? myClock q); [|eauto].
  destruct (move_ok n q st Hw Hn) as [Hw1 Hi1].
  pose proof (make_ready_queues n (link_remove n q)) as (H1 & H2 & _ & _ & H5).
  destruct (IH _ Hw1) as (q' & Hq & Hw' & Hi & Hc).
  - intros m Hm. rewrite H1, H2. cbn [link_remove set_queues waitQ readyQ].
    destruct (decide (m = n)) as [->|Hne]; [set_solver|].
    specialize (Hl m ltac:(by right)). rewrite elem_of_app in Hl. rewrite !elem_of_app, !list_elem_of_filter.
    naive_solver.
  - exists q'. rewrite Hq, Hc, H5. split; [done|]. split; [done|]. split; [by rewrite Hi|done].
Qed.

(** Once all waiting slots are due, none waits. *)
Lemma expire_all q st : rrq_wf q st -> (forall n, n ∈ waitQ q -> Expire (sl q n) < myClock q) ->
  exists q', TimeOut_expire q = Ok q' /\ waitQ q' = [].
Proof.
  unfold TimeOut_expire. intros Hw. remember (waitQ q) as l eqn:Hl. revert q Hw Hl.
  induction l as [|n l IH]; intros q Hw Hl He; cbn [expire_loop]; [eauto|].
  assert (n ∈ waitQ q ++ readyQ q) as Hn by (rewrite <- Hl; left).
  rewrite slot_at_ok by first [exact (w_len _ _ Hw)|exact (wf_queued _ _ Hw n Hn)]. step_ok.
  pose proof (He n ltac:(left)) as Hlt. apply Z.ltb_lt in Hlt. rewrite Hlt.
  destruct (move_ok n q st Hw Hn) as [Hw1 _].
  pose proof (make_ready_queues n (link_remove n q)) as (H1 & H2 & H3 & _ & H5).
  apply IH; [done| |].
  - rewrite H1. cbn [link_remove set_queues waitQ]. rewrite <- Hl. rewrite filter_cons_False by (intros H; by apply H).
    symmetry. apply filter_absent. pose proof (wf_heads_nodup _ _ Hw) as Hd. unfold heads in Hd.
    rewrite <- Hl in Hd. apply NoDup_cons in Hd as [[Hd _]%not_elem_of_app _]. exact Hd.
  - intros m Hm. rewrite (sl_Slot q) by (by rewrite H3). rewrite H5. apply He. by right.
Qed.

Lemma unanswered_heads q st h : h ∈ waitQ q ++ readyQ q ++ unanswered st -> h ∈ heads q st.
Proof. unfold heads. destruct st; cbn [busy unanswered]; set_solver. Qed.

Lemma seqZ_slot n : n ∈ seqZ 1 1023 <-> 1 <= n < 1024.
Proof. rewrite elem_of_seqZ. lia. Qed.

(** Joining the group of a queued slot. *)
Lemma join_ok q q' st sp Snum info free : rrq_wf q st -> freeSlot q = sp :: free -> Snum ∈ waitQ q ++ readyQ q ->
  length (Slot q') = length (Slot q) -> freeSlot q' = free -> waitQ q' = waitQ q -> readyQ q' = readyQ q ->
  myClock q' = myClock q -> Info (sl q' sp) = info -> Expire (sl q' sp) = Expire (sl q sp) ->
  LkUp (sl q' Snum) ++ Cont (sl q' Snum) ≡ₚ sp :: LkUp (sl q Snum) ++ Cont (sl q Snum) ->
  (forall n, 0 <= n < 1024 -> n <> sp -> Expire (sl q' n) = Expire (sl q n) /\ Info (sl q' n) = Info (sl q n) /\
     (n <> Snum -> LkUp (sl q' n) = LkUp (sl q n) /\ Cont (sl q' n) = Cont (sl q n))) ->
  rrq_wf q' st /\ ids q' (pending q' st) ≡ₚ req_id info :: ids q (pending q st).
Proof.
  intros Hw Hf HS Hl Hf' HwQ HrQ Hc Hi He Hg Ho.
  destruct (wf_free _ _ Hw sp) as [Hsp Hnm]; [rewrite Hf; left|].
  pose proof (wf_heads_nodup _ _ Hw) as Hnd.
  assert (forall h, h ∈ heads q st -> h <> sp) as Hne.
  { intros h Hh ->. by apply Hnm, heads_members. }
  assert (forall hs, (forall h, h ∈ hs -> h ∈ heads q st) -> NoDup hs -> Snum ∈ hs ->
    members q' hs ≡ₚ sp :: members q hs) as Hm.
  { intros hs Hhs Hd Hin. apply (members_grow q q' hs Snum); [done|done|done|].
    intros h Hh1 Hh2. apply Ho; [by apply (wf_head _ _ Hw), Hhs|by apply Hne, Hhs|done]. }
  assert (Snum ∈ heads q st /\ Snum ∈ waitQ q ++ readyQ q ++ unanswered st) as [Hin1 Hin2].
  { unfold heads. set_solver. }
  split; [split|].
  - rewrite Hl. apply Hw.
  - rewrite Hf'. unfold heads. rewrite HwQ, HrQ. rewrite (Hm (heads q st)) by done.
    rewrite <- (w_perm _ _ Hw), Hf. cbn [app]. symmetry. apply Permutation_middle.
  - intros n Hn. rewrite HwQ, HrQ. destruct (decide (n = sp)) as [->|Hn'].
    + rewrite He. by apply Hw.
    + destruct (Ho n Hn Hn') as (-> & _ & _). by apply Hw.
  - intros n Hn. rewrite HwQ in Hn. rewrite Hc.
    destruct (Ho n) as (-> & _ & _); [apply (wf_queued _ _ Hw); set_solver|apply Hne; unfold heads; set_solver|].
    by apply Hw.
  - rewrite Hc. apply Hw.
  - assert (pending q' st ≡ₚ sp :: pending q st) as Hp.
    { unfold pending. rewrite HwQ, HrQ. apply Hm; [by apply unanswered_heads| |done].
      unfold heads in Hnd. destruct st; cbn [busy unanswered] in *; [done|done|].
      rewrite app_assoc in Hnd |- *. rewrite app_nil_r. by apply NoDup_app in Hnd as (Hnd & _ & _). }
    unfold ids at 1. rewrite Hp. cbn [fmap list_fmap]. rewrite Hi. constructor. fold (ids q' (pending q st)).
    rewrite (ids_cong q q'); [done|]. intros n Hn. apply (pending_members _ _ Hw) in Hn.
    destruct (Ho n) as (_ & -> & _); [by apply (wf_member _ _ Hw)|intros ->; by apply Hnm|done].
Qed.

(** Queueing a new slot. *)
Lemma queue_ok q q' st sp info free : rrq_wf q st -> freeSlot q = sp :: free -> myClock q + 1 < 2 ^ 32 ->
  length (Slot q') = length (Slot q) -> freeSlot q' = free -> waitQ q' = waitQ q ++ [sp] -> readyQ q' = readyQ q ->
  myClock q' = myClock q -> sl q' sp = MkSlot [] [] info 0 0 (myClock q + 1) ->
  (forall n, 0 <= n < 1024 -> n <> sp -> sl q' n = sl q n) ->
  rrq_wf q' st /\ ids q' (pending q' st) ≡ₚ req_id info :: ids q (pending q st).
Proof.
  intros Hw Hf Hlt Hl Hf' HwQ HrQ Hc Hsp' Ho.
  destruct (wf_free _ _ Hw sp) as [Hsp Hnm]; [rewrite Hf; left|].
  assert (forall e, (forall h, h ∈ waitQ q ++ readyQ q ++ e -> h ∈ heads q st) ->
    members q' (waitQ q' ++ readyQ q' ++ e) ≡ₚ sp :: members q (waitQ q ++ readyQ q ++ e)) as Hm.
  { intros e He. rewrite HwQ, HrQ. rewrite <- !app_assoc, (Permutation_app_comm (waitQ q)), <- !app_assoc.
    cbn [app]. unfold members. rewrite bind_cons, Hsp'. cbn [LkUp Cont app]. constructor.
    rewrite !app_assoc. rewrite (Permutation_app_comm _ (waitQ q)), !app_assoc.
    fold (members q' ((waitQ q ++ readyQ q) ++ e)). rewrite <- !app_assoc, (members_cong q q'); [done|].
    intros h Hh. apply He in Hh. rewrite Ho; [done|by apply (wf_head _ _ Hw)|].
    intros ->. by apply Hnm, heads_members. }
  split; [split|].
  - rewrite Hl. apply Hw.
  - rewrite Hf'. unfold heads at 1. rewrite (Hm (busy st)) by done.
    rewrite <- (w_perm _ _ Hw), Hf. cbn [app]. symmetry. apply Permutation_middle.
  - intros n Hn. rewrite HwQ, HrQ. destruct (decide (n = sp)) as [->|Hn'].
    + rewrite Hsp'. cbn [Expire]. pose proof (w_now _ _ Hw). split; [intros _; set_solver|lia].
    + rewrite Ho by done. rewrite (w_exp _ _ Hw) by done. set_solver.
  - intros n Hn. rewrite HwQ in Hn. rewrite Hc. destruct (decide (n = sp)) as [->|Hn']; [rewrite Hsp'; cbn; lia|].
    apply elem_of_app in Hn as [Hn|Hn%list_elem_of_singleton]; [|done].
    rewrite Ho; [by apply Hw|apply (wf_queued _ _ Hw); set_solver|done].
  - rewrite Hc. apply Hw.
  - assert (pending q' st ≡ₚ sp :: pending q st) as Hp by (apply Hm, unanswered_heads).
    unfold ids at 1. rewrite Hp. cbn [fmap list_fmap]. rewrite Hsp'. constructor. fold (ids q' (pending q st)).
    rewrite (ids_cong q q'); [done|]. intros n Hn. apply (pending_members _ _ Hw) in Hn.
    rewrite Ho; [done|by apply (wf_member _ _ Hw)|intros ->; by apply Hnm].
Qed.

Lemma post_waiting_fields q :
  let q' := match waitQ q with [] => post_waiting q | _ => q end in
  Slot q' = Slot q /\ freeSlot q' = freeSlot q /\ waitQ q' = waitQ q /\ readyQ q' = readyQ q /\ myClock q' = myClock q.
Proof. cbn. by destruct (waitQ q) eqn:E; cbn; rewrite ?E. Qed.

Lemma rrq_add_ok Snum info q st : rrq_wf q st -> 0 <= Snum < 1024 -> myClock q + 1 < 2 ^ 32 ->
  exists r q', RRQ_Add Snum info q = Ok (r, q') /\ 0 <= r < 1024 /\ rrq_wf q' st /\
    ids q' (pending q' st) ≡ₚ (if r =? 0 then [] else [req_id info]) ++ ids q (pending q st).
Proof.
  intros Hw HS Hc. unfold RRQ_Add, Slot_Alloc. destruct (freeSlot q) as [|sp free] eqn:Hf.
  { exists 0, q. split_and!; [done|lia|lia|done|done]. }
  destruct (wf_free _ _ Hw sp) as [Hsp Hnm]; [rewrite Hf; left|].
  assert (1 <= sp) as Hsp1.
  { assert (sp ∈ seqZ 1 1023) as H%seqZ_slot; [|lia]. rewrite <- (w_perm _ _ Hw), Hf. left. }
  pose proof (w_len _ _ Hw) as Hl. set (q1 := set_stats _ _).
  assert (forall n, 0 <= n < 1024 -> sl q1 n = if decide (n = sp) then MkSlot [] [] info 0 0 (Expire (sl q sp)) else sl q n) as Hs1.
  { intros n Hn. unfold q1. rewrite sl_stats, sl_upd by (done || lia). by rewrite sl_free. }
  assert (length (Slot q1) = 1024%nat) as Hl1 by (cbn; by rewrite length_alter).
  assert (exists joins, (if Snum =? 0 then Ok None else
      s ← slot_at Snum q1; Ok (if bool_decide (Key (Info s) = Key info) && negb (Expire s =? 0) then Some s else None)) = Ok joins /\
      forall s, joins = Some s -> s = sl q1 Snum /\ Expire s <> 0 /\ Snum <> 0) as (joins & -> & Hj).
  { destruct (Z.eqb_spec Snum 0); [eexists; by split|]. rewrite slot_at_ok by done. step_ok.
    eexists. split; [done|]. intros s. destruct (bool_decide _); [|done]. cbn [andb].
    destruct (Z.eqb_spec (Expire (sl q1 Snum)) 0); [done|]. intros [= <-]. done. }
  step_ok. destruct joins as [s|].
  - destruct (Hj s eq_refl) as (-> & He & HS0). clear Hj. rewrite Hs1 in He by done.
    assert (Snum ∈ waitQ q ++ readyQ q) as HSq.
    { apply (w_exp _ _ Hw); [done|]. by case_decide as Hd; [subst|]. }
    assert (Snum <> sp) as Hne.
    { intros ->. apply Hnm, heads_members. unfold heads. set_solver. }
    eexists _, _. split; [reflexivity|]. destruct (Z.eqb_spec Snum 0); [done|]. cbn [app].
    split; [done|]. rewrite Hs1 by done. rewrite decide_False by done.
    assert (forall f st', (forall s, Info (f s) = Info s /\ Expire (f s) = Expire s) ->
      LkUp (f (sl q Snum)) ++ Cont (f (sl q Snum)) ≡ₚ sp :: LkUp (sl q Snum) ++ Cont (sl q Snum) ->
      let q' := set_stats st' (upd_slot Snum f q1) in
      rrq_wf q' st /\ ids q' (pending q' st) ≡ₚ req_id info :: ids q (pending q st)) as Hjoin.
    { intros f st' Hf' Hg. assert (forall n, 0 <= n < 1024 -> sl (set_stats st' (upd_slot Snum f q1)) n =
        if decide (n = Snum) then f (sl q Snum) else if decide (n = sp) then MkSlot [] [] info 0 0 (Expire (sl q sp)) else sl q n) as Hs2.
      { intros m Hm. rewrite sl_stats, sl_upd, !Hs1 by (done || lia). by rewrite (decide_False (P := Snum = sp)). }
      apply (join_ok q _ st sp Snum info free); try done.
      - cbn. by rewrite !length_alter.
      - rewrite Hs2, decide_False, decide_True by done. done.
      - rewrite Hs2, decide_False, decide_True by done. done.
      - by rewrite Hs2, decide_True.
      - intros m Hm Hm'. rewrite Hs2 by done. destruct (decide (m = Snum)) as [->|Hd].
        + destruct (Hf' (sl q Snum)) as [-> ->]. done.
        + by rewrite decide_False. }
    destruct (isLU info); apply Hjoin; try done; cbn. by rewrite <- Permutation_middle.
  - clear Hj. eexists _, _. split; [reflexivity|].
    destruct (Z.eqb_spec sp 0); [lia|]. cbn [app].
    split; [lia|].
    set (q2 := upd_slot sp _ q1). pose proof (post_waiting_fields q2) as (F1 & F2 & F3 & F4 & F5).
    set (q3 := match waitQ q2 with [] => _ | _ => _ end) in *. clearbody q3.
    apply (queue_ok q _ st sp info free); try done; cbn [set_queues freeSlot waitQ readyQ myClock Slot].
    + rewrite F1. cbn. by rewrite !length_alter.
    + by rewrite F3.
    + rewrite sl_queues, (sl_Slot q2) by done. unfold q2. rewrite sl_upd, decide_True, Hs1, decide_True by (done || lia).
      unfold set_expire. cbn. rewrite u32_small; [done|]. pose proof (w_now _ _ Hw). lia.
    + intros m Hm Hne. rewrite sl_queues, (sl_Slot q2) by done. unfold q2.
      rewrite sl_upd, decide_False, Hs1, decide_False by (done || lia). done.
Qed.

(** ** The responder *)

Section respond_ok.
Context (RTable_Find : Z -> Z -> bool)
  (Cluster_Select : Z -> bool -> Z -> Z -> option (Z * list Z))
  (LocFmt : Z -> Z -> Z -> Z -> option (list Z)).

Lemma wf_stage q st st' : busy st = busy st' -> rrq_wf q st -> rrq_wf q st'.
Proof. intros Hb [H1 H2 H3 H4 H5]. split; try done. unfold heads in *. by rewrite <- Hb. Qed.

Lemma rrq_next_ok q : rrq_wf q Idle ->
  match Respond_next q with
  | (None, q') => readyQ q = [] /\ waitQ q' = waitQ q /\ readyQ q' = [] /\ myClock q' = myClock q /\
      rrq_wf q' Idle /\ ids q' (pending q' Idle) = ids q (pending q Idle)
  | (Some sp, q') => rrq_wf q' (Sending sp) /\ readyQ q = sp :: readyQ q' /\ waitQ q' = waitQ q /\
      ids q' (pending q' (Sending sp)) ≡ₚ ids q (pending q Idle)
  end.
Proof.
  intros Hw. unfold Respond_next. cbn [set_stats readyQ]. destruct (readyQ q) as [|sp r] eqn:Hr.
  { split_and!; try done. destruct (wf_same q (set_stats (MkStats (Add2Q (Stats q)) (PBack (Stats q)) (Resp (Stats q))
      (Multi (Stats q)) (luFast (Stats q) + luFast (counts q)) (luSlow (Stats q) + luSlow (counts q))
      (rdFast (Stats q) + rdFast (counts q)) (rdSlow (Stats q) + rdSlow (counts q))) q) Idle) as [H _]; try done. }
  set (q1 := set_stats _ q). pose proof (wf_heads_nodup _ _ Hw) as Hd. unfold heads in Hd.
  cbn [busy] in Hd. rewrite app_nil_r in Hd.
  assert (sp ∈ waitQ q ++ readyQ q) as Hsp by (rewrite Hr; set_solver).
  pose proof (wf_queued _ _ Hw sp Hsp) as Hran. pose proof (w_len _ _ Hw) as Hl.
  pose proof (queues_remove q sp Hd Hsp) as Hq.
  assert (readyQ (link_remove sp q) = r /\ waitQ (link_remove sp q) = waitQ q) as [Hr' Hwq].
  { cbn [link_remove set_queues waitQ readyQ]. rewrite Hr in Hd |- *.
    apply NoDup_app in Hd as (_ & Hd1 & [Hd2 _]%NoDup_cons). rewrite filter_cons_False by (intros H; by apply H).
    rewrite !filter_absent; [done| |done]. intros Hx. apply (Hd1 sp Hx). left. }
  change (waitQ (link_remove sp q)) with (waitQ (upd_slot sp (set_expire 0) (link_remove sp q1))) in *.
  change (readyQ (link_remove sp q)) with (readyQ (upd_slot sp (set_expire 0) (link_remove sp q1))) in *.
  set (q' := upd_slot sp (set_expire 0) (link_remove sp q1)) in *.
  assert (forall n, 0 <= n < 1024 -> sl q' n = if decide (n = sp) then set_expire 0 (sl q sp) else sl q n) as Hs.
  { intros n Hn. unfold q', link_remove. rewrite sl_upd by (done || lia). unfold q1. by rewrite sl_queues, sl_stats. }
  assert (heads q' (Sending sp) ≡ₚ heads q Idle) as Hh.
  { unfold heads. cbn [busy]. rewrite app_nil_r, Hq, app_assoc. symmetry. apply Permutation_cons_append. }
  assert (members q' (heads q' (Sending sp)) ≡ₚ members q (heads q Idle)) as Hm.
  { rewrite Hh. rewrite (members_cong q q'); [done|]. intros h Hin. apply (wf_head _ _ Hw) in Hin.
    rewrite Hs by done. by case_decide; [subst|]. }
  split; [split|split_and!].
  - unfold q'. cbn. by rewrite length_alter.
  - rewrite Hm. exact (w_perm _ _ Hw).
  - intros n Hn. rewrite Hs by done. rewrite Hq in Hd. apply NoDup_cons in Hd as [Hd _].
    case_decide as Hc; [subst; cbn; split; done|]. rewrite (w_exp _ _ Hw) by done. rewrite Hq.
    rewrite elem_of_cons. naive_solver.
  - intros n Hn. rewrite Hwq in Hn. assert (n ∈ waitQ q ++ readyQ q) by set_solver.
    rewrite Hs by by apply (wf_queued _ _ Hw). pose proof (w_clock _ _ Hw n Hn). pose proof (w_now _ _ Hw).
    case_decide; cbn; lia.
  - apply Hw.
  - by rewrite Hr'.
  - done.
  - assert (pending q' (Sending sp) ≡ₚ pending q Idle) as Hp by exact Hm.
    unfold ids at 1. rewrite Hp. fold (ids q' (pending q Idle)). rewrite (ids_cong q q'); [done|].
    intros n Hn. apply (pending_members _ _ Hw), (wf_member _ _ Hw) in Hn. rewrite Hs by done.
    by case_decide; [subst|].
Qed.

Lemma infos_ok chain q : length (Slot q) = 1024%nat -> (forall n, n ∈ chain -> 0 <= n < 1024) ->
  infos chain q = Ok ((fun n => Info (sl q n)) <$> chain).
Proof.
  intros Hl. induction chain as [|n c IH]; intros Hc; [done|]. cbn [infos foldr].
  rewrite slot_at_ok by (done || (apply Hc; left)). step_ok. fold (infos c q). rewrite IH by (intros; apply Hc; by right).
  done.
Qed.

Lemma fst_pair {B} (f : RRQInfo -> B) l : ((fun i => (i, f i)) <$> l).*1 = l.
Proof. rewrite <- list_fmap_compose. apply list_fmap_id. Qed.

Lemma counts_id q : q = set_counts (counts q) q.
Proof. by destruct q. Qed.

Definition sends (send : list Z -> XrdCmsRRQ -> res (list (RRQInfo * Reply) * XrdCmsRRQ)) : Prop :=
  forall chain q, length (Slot q) = 1024%nat -> (forall n, n ∈ chain -> 0 <= n < 1024) ->
  exists ans c, send chain q = Ok (ans, set_counts c q) /\ ans.*1 = (fun n => Info (sl q n)) <$> chain.

Lemma sendLwt_ok : sends (sendLwtResp RTable_Find).
Proof. intros chain q Hl Hc. unfold sendLwtResp. rewrite infos_ok by done. step_ok. eexists _, _. split; [done|]. apply fst_pair. Qed.

Lemma sendLoc_ok : sends (sendLocResp RTable_Find LocFmt).
Proof.
  intros [|n chain] q Hl Hc; unfold sendLocResp; [exists [], (counts q); by rewrite <- counts_id|].
  rewrite slot_at_ok by (done || (apply Hc; left)). step_ok.
  destruct (_ =? 0); [by apply sendLwt_ok|]. destruct (LocFmt _ _ _ _); [|by apply sendLwt_ok].
  rewrite infos_ok by done. step_ok. eexists _, _. split; [done|]. apply fst_pair.
Qed.

Lemma sendRed_ok : sends (sendRedResp RTable_Find Cluster_Select).
Proof.
  intros [|n chain] q Hl Hc; unfold sendRedResp; [exists [], (counts q); by rewrite <- counts_id|].
  rewrite slot_at_ok by (done || (apply Hc; left)). step_ok. rewrite infos_ok by done. step_ok.
  destruct (if _ =? 0 then None else _) as [[port host]|]; (eexists _, _; split; [done|]); apply fst_pair.
Qed.

(** The redirectors that are found are those a message goes to. *)
Lemma messages_found (f : RRQInfo -> Reply) l :
  zlen (messages RTable_Find ((fun i => (i, f i)) <$> l)) = found RTable_Find l.
Proof.
  induction l as [|i l IH]; [done|]. unfold messages, found, count_if in *. rewrite !fmap_cons, filter_cons. cbn [fst foldr].
  destruct (RTable_Find (Rnum i) (Rinst i)); [rewrite decide_True by done|rewrite decide_False by done]; unfold zlen in *; cbn [length]; lia.
Qed.

(** The counters of delayed lookups and of selections go up by the messages sent. *)
Lemma sendLwt_counts chain q l q' : sendLwtResp RTable_Find chain q = Ok (l, q') ->
  luSlow (counts q') = luSlow (counts q) + zlen (messages RTable_Find l).
Proof.
  unfold sendLwtResp. destruct (infos chain q) as [infs| | |]; try done. rewrite bind_Ok. cbv beta zeta. intros [= <- <-].
  by rewrite messages_found.
Qed.

Lemma sendRed_counts chain q l q' : sendRedResp RTable_Find Cluster_Select chain q = Ok (l, q') ->
  rdFast (counts q') + rdSlow (counts q') = rdFast (counts q) + rdSlow (counts q) + zlen (messages RTable_Find l).
Proof.
  unfold sendRedResp. destruct chain as [|rP chain]; [intros [= <- <-]; change (zlen (messages RTable_Find [])) with 0; lia|].
  destruct (slot_at rP q) as [s| | |]; try done. rewrite bind_Ok. cbv beta zeta.
  destruct (infos (rP :: chain) q) as [infs| | |]; try done. rewrite bind_Ok. cbv beta zeta.
  destruct (if Arg1 s =? 0 then None else _) as [[port host]|]; intros [= <- <-]; rewrite messages_found; cbn; lia.
Qed.

Lemma args_same q n a c st : rrq_wf q st -> 0 <= n < 1024 ->
  let q' := set_counts c (upd_slot n (fun s => set_args (a s).1 (a s).2 s) q) in
  (forall m, 0 <= m < 1024 -> Info (sl q' m) = Info (sl q m) /\ LkUp (sl q' m) = LkUp (sl q m) /\ Cont (sl q' m) = Cont (sl q m)) /\
  rrq_wf q' st /\ ids q' (pending q' st) ≡ₚ ids q (pending q st).
Proof.
  intros Hw Hn q'.
  assert (forall m, 0 <= m < 1024 -> sl q' m = if decide (m = n) then set_args (a (sl q n)).1 (a (sl q n)).2 (sl q n) else sl q m) as Hs.
  { intros m Hm. unfold q'. rewrite sl_counts. rewrite sl_upd; [done|apply Hw|done|lia]. }
  split.
  - intros m Hm. rewrite Hs by done. by case_decide; [subst|].
  - apply wf_same; [done|cbn; by rewrite length_alter|done|done|done|done|].
    intros m Hm. rewrite Hs by done. by case_decide; [subst|].
Qed.

Definition answered (l : list (RRQInfo * Reply)) : list (Z * Z * Z) := (fun x => req_id x.1) <$> l.

Lemma answered_ids l : answered l = req_id <$> l.*1.
Proof. unfold answered. by rewrite <- list_fmap_compose. Qed.

(** Nothing but counters and arguments changes. *)
Definition same_requests (q q' : XrdCmsRRQ) : Prop :=
  waitQ q' = waitQ q /\ readyQ q' = readyQ q /\
  forall m, 0 <= m < 1024 -> Info (sl q' m) = Info (sl q m) /\ LkUp (sl q' m) = LkUp (sl q m) /\ Cont (sl q' m) = Cont (sl q m).

(** The two answers of a slot: those who joined in another way, and its own. *)
Lemma answers_ok q sp a own other send1 send2 : rrq_wf q (Sending sp) -> sends send1 -> sends send2 ->
  sp :: own ++ other ≡ₚ sp :: LkUp (sl q sp) ++ Cont (sl q sp) ->
  exists ans1 ans2 q1 q',
    match other with [] => Ok ([], q) | c :: _ => send1 other (upd_slot c (fun s => set_args (a s).1 (a s).2 s) q) end
      = Ok (ans1, q1) /\ send2 (sp :: own) q1 = Ok (ans2, q') /\
    rrq_wf q' (Sending sp) /\ same_requests q q' /\
    answered (ans1 ++ ans2) ≡ₚ ids q (sp :: LkUp (sl q sp) ++ Cont (sl q sp)).
Proof.
  intros Hw Hs1 Hs2 Hp.
  assert (forall n, n ∈ sp :: own ++ other -> 0 <= n < 1024) as Hr.
  { intros n. rewrite Hp. intros Hn. apply (wf_member _ _ Hw). unfold heads, members. cbn [busy].
    rewrite !bind_app. apply elem_of_app. right. apply elem_of_app. right. cbn. by rewrite app_nil_r. }
  assert (0 <= sp < 1024) as Hspr by (apply Hr; left).
  assert (exists ans1 q1, match other with [] => Ok ([], q)
      | c :: _ => send1 other (upd_slot c (fun s => set_args (a s).1 (a s).2 s) q) end = Ok (ans1, q1) /\
    ans1.*1 = (fun n => Info (sl q n)) <$> other /\ same_requests q q1 /\ rrq_wf q1 (Sending sp))
    as (ans1 & q1 & H1 & H2 & (H3 & H4 & H5) & H6).
  { destruct other as [|c o]; [by exists [], q|].
    assert (0 <= c < 1024) as Hc by (apply Hr; set_solver).
    destruct (args_same q c a (counts (upd_slot c (fun s => set_args (a s).1 (a s).2 s) q)) (Sending sp) Hw Hc) as (E1 & _ & _).
    rewrite <- counts_id in E1.
    destruct (Hs1 (c :: o) (upd_slot c (fun s => set_args (a s).1 (a s).2 s) q)) as (ans & c' & -> & Ha).
    - cbn. rewrite length_alter. apply Hw.
    - intros n Hn. apply Hr. set_solver.
    - destruct (args_same q c a c' (Sending sp) Hw Hc) as (E1' & E2' & _).
      eexists _, _. split; [done|]. split; [|done]. rewrite Ha. apply list_fmap_ext.
      intros i n Hn. apply E1, Hr. apply list_elem_of_lookup_2 in Hn. set_solver. }
  destruct (Hs2 (sp :: own) q1) as (ans2 & c2' & G1 & G2); [apply H6|intros n Hn; apply Hr; set_solver|].
  exists ans1, ans2, q1, (set_counts c2' q1). split; [done|]. split; [done|].
  destruct (wf_same q1 (set_counts c2' q1) (Sending sp) H6) as [W1 W2]; try done.
  split; [done|]. split; [done|].
  rewrite answered_ids, fmap_app, fmap_app, H2, G2.
  rewrite <- !list_fmap_compose. change (req_id ∘ (fun n => Info (sl q n)) <$> other) with (ids q other).
  change (req_id ∘ (fun n => Info (sl q1 n)) <$> sp :: own) with (ids q1 (sp :: own)).
  rewrite (ids_cong q q1); [|intros n Hn; destruct (H5 n) as [-> _]; [apply Hr; set_solver|done]].
  rewrite Permutation_app_comm. unfold ids. rewrite <- fmap_app. cbn [app]. by rewrite Hp.
Qed.

Lemma send_ok q sp : rrq_wf q (Sending sp) ->
  exists ans q', Respond_send RTable_Find Cluster_Select LocFmt sp q = Ok (ans, q') /\ rrq_wf q' (Sent sp) /\
    waitQ q' = waitQ q /\ readyQ q' = readyQ q /\
    answered ans ++ ids q' (pending q' (Sent sp)) ≡ₚ ids q (pending q (Sending sp)).
Proof.
  intros Hw. assert (sp ∈ heads q (Sending sp)) as Hin by (unfold heads; cbn; set_solver).
  pose proof (wf_head _ _ Hw sp Hin) as Hr. unfold Respond_send. rewrite slot_at_ok by (apply Hw || done). step_ok.
  assert (forall ans q', rrq_wf q' (Sending sp) -> same_requests q q' ->
    answered ans ≡ₚ ids q (sp :: LkUp (sl q sp) ++ Cont (sl q sp)) ->
    rrq_wf q' (Sent sp) /\ waitQ q' = waitQ q /\ readyQ q' = readyQ q /\
    answered ans ++ ids q' (pending q' (Sent sp)) ≡ₚ ids q (pending q (Sending sp))) as Hfin.
  { intros ans q' Hw' (H1 & H2 & H3) Hans. split; [by apply (wf_stage q' (Sending sp))|]. split; [done|]. split; [done|].
    rewrite Hans. unfold pending. cbn [unanswered]. rewrite app_nil_r, H1, H2, (app_assoc (waitQ q)).
    rewrite (members_app q _ [sp]).
    rewrite (members_cong q q') by (intros h Hh; apply H3, (wf_queued _ _ Hw), Hh).
    rewrite (ids_cong q q').
    - unfold ids. rewrite <- fmap_app. f_equiv. rewrite Permutation_app_comm. f_equiv. cbn. by rewrite app_nil_r.
    - intros n Hn. destruct (H3 n) as [-> _]; [|done]. apply (wf_member _ _ Hw).
      unfold heads. rewrite app_assoc, members_app. apply elem_of_app. by left. }
  destruct (isLU (Info (sl q sp))).
  - destruct (answers_ok q sp (fun s' => (Arg1 (sl q sp), Arg2 s')) (LkUp (sl q sp)) (Cont (sl q sp)) _ _ Hw sendRed_ok sendLoc_ok)
      as (a1 & a2 & q1 & q' & H1 & H2 & H3 & H4 & H5); [done|]. cbn [fst snd] in H1. rewrite H1. step_ok. rewrite H2. step_ok.
    eexists _, _. split; [done|]. by apply Hfin.
  - destruct (answers_ok q sp (fun _ => (Arg1 (sl q sp), Arg2 (sl q sp))) (Cont (sl q sp)) (LkUp (sl q sp)) _ _ Hw sendLoc_ok sendRed_ok)
      as (a1 & a2 & q1 & q' & H1 & H2 & H3 & H4 & H5).
    { constructor. apply Permutation_app_comm. }
    cbn [fst snd] in H1.
    change (fun s : RRQSlot => set_args (Arg1 (sl q sp)) (Arg2 (sl q sp)) s) with (set_args (Arg1 (sl q sp)) (Arg2 (sl q sp))) in H1.
    rewrite H1. step_ok. rewrite H2. step_ok. eexists _, _. split; [done|]. by apply Hfin.
Qed.

(** Recycling a chain of slots. *)
Lemma recycle_fold l q : length (Slot q) = 1024%nat -> (forall n, n ∈ l -> 0 <= n < 1024) ->
  let q' := foldl (fun q n => recycle_one n q) q l in
  freeSlot q' = rev l ++ freeSlot q /\ waitQ q' = waitQ q /\ readyQ q' = readyQ q /\ myClock q' = myClock q /\
  length (Slot q') = 1024%nat /\
  forall n, 0 <= n < 1024 -> LkUp (sl q' n) = LkUp (sl q n) /\ Cont (sl q' n) = Cont (sl q n) /\
    Expire (sl q' n) = Expire (sl q n) /\ req_id (Info (sl q' n)) = req_id (Info (sl q n)).
Proof.
  revert q. induction l as [|n l IH]; intros q Hl Hr; cbn [foldl]; [by split_and!|].
  destruct (IH (recycle_one n q)) as (H1 & H2 & H3 & H4 & H5 & H6).
  - cbn. by rewrite length_alter.
  - intros m Hm. apply Hr. by right.
  - cbn zeta. rewrite H1, H2, H3, H4. split_and!; try done.
    + cbn [rev]. by rewrite <- app_assoc.
    + intros m Hm. destruct (H6 m Hm) as (-> & -> & -> & ->). unfold recycle_one. rewrite sl_free.
      rewrite sl_upd; [|done|apply Hr; left|lia]. by case_decide; [subst|].
Qed.

Lemma recycle_ok q sp : rrq_wf q (Sent sp) ->
  exists q', Slot_Recycle sp q = Ok q' /\ rrq_wf q' Idle /\ waitQ q' = waitQ q /\ readyQ q' = readyQ q /\
    myClock q' = myClock q /\ ids q' (pending q' Idle) = ids q (pending q (Sent sp)).
Proof.
  intros Hw. assert (sp ∈ heads q (Sent sp)) as Hin by (unfold heads; cbn; set_solver).
  pose proof (wf_head _ _ Hw sp Hin) as Hr. pose proof (w_len _ _ Hw) as Hl.
  pose proof (wf_heads_nodup _ _ Hw) as Hd. unfold heads in Hd. cbn [busy] in Hd. rewrite app_assoc in Hd.
  apply NoDup_app in Hd as (Hd1 & Hd2 & _).
  assert ((sp ∉ waitQ q) /\ (sp ∉ readyQ q)) as [Hn1 Hn2].
  { rewrite <- not_elem_of_app. intros H. apply (Hd2 sp H). left. }
  assert (link_remove sp q = q) as Hq. { unfold link_remove. rewrite !filter_absent by done. by destruct q. }
  unfold Slot_Recycle. rewrite Hq, slot_at_ok by done. step_ok.
  assert (forall n, n ∈ sp :: LkUp (sl q sp) ++ Cont (sl q sp) -> 0 <= n < 1024) as Hran.
  { intros n Hn. apply (wf_member _ _ Hw). unfold heads. rewrite app_assoc, members_app. apply elem_of_app. right.
    cbn. by rewrite app_nil_r. }
  destruct (recycle_fold (LkUp (sl q sp)) q Hl) as (A1 & A2 & A3 & A4 & A5 & A6); [intros; apply Hran; set_solver|].
  set (qa := foldl _ q _) in *.
  destruct (recycle_fold (Cont (sl q sp)) qa A5) as (B1 & B2 & B3 & B4 & B5 & B6); [intros; apply Hran; set_solver|].
  set (qb := foldl _ qa _) in *.
  destruct (recycle_fold [sp] qb B5) as (C1 & C2 & C3 & C4 & C5 & C6); [intros ? ->%list_elem_of_singleton; done|].
  cbn [foldl] in *. set (qc := recycle_one sp qb) in *. clearbody qa qb qc.
  assert (forall n, 0 <= n < 1024 -> LkUp (sl qc n) = LkUp (sl q n) /\ Cont (sl qc n) = Cont (sl q n) /\
    Expire (sl qc n) = Expire (sl q n) /\ req_id (Info (sl qc n)) = req_id (Info (sl q n))) as Hs.
  { intros n Hn. destruct (C6 n Hn) as (-> & -> & -> & ->). destruct (B6 n Hn) as (-> & -> & -> & ->).
    destruct (A6 n Hn) as (-> & -> & -> & ->). done. }
  assert (waitQ qc = waitQ q /\ readyQ qc = readyQ q /\ myClock qc = myClock q) as (D1 & D2 & D3) by (split_and!; congruence).
  assert (members qc (waitQ q ++ readyQ q) = members q (waitQ q ++ readyQ q)) as Hm.
  { apply members_cong. intros h Hh. apply (wf_queued _ _ Hw) in Hh. destruct (Hs h Hh) as (-> & -> & _). done. }
  exists qc. split; [done|]. split; [split|split_and!; try done].
  - done.
  - unfold heads. rewrite D1, D2. cbn [busy]. rewrite app_nil_r, Hm, C1, B1, A1.
    rewrite <- (w_perm _ _ Hw). unfold heads. cbn [busy]. rewrite (app_assoc (waitQ q)), (members_app q _ [sp]), members_one.
    rewrite <- !Permutation_rev. cbn [rev app]. solve_Permutation.
  - intros n Hn. destruct (Hs n Hn) as (_ & _ & -> & _). rewrite D1, D2. by apply Hw.
  - intros n Hn. rewrite D1 in Hn. rewrite D3. destruct (Hs n) as (_ & _ & -> & _); [apply (wf_queued _ _ Hw); set_solver|].
    by apply Hw.
  - rewrite D3. apply Hw.
  - unfold pending. cbn [unanswered]. rewrite !app_nil_r, D1, D2, Hm. apply ids_cong. intros n Hn. apply Hs.
    apply (wf_member _ _ Hw). unfold heads. rewrite app_assoc, members_app. apply elem_of_app. by left.
Qed.

(** ** Histories *)

(** The steps of the threads in any order, the requests that were accepted and
    those that were answered. The clock stays in its 32 bits: it passes 2^32 in
    24 years. *)
Inductive rrq_run : XrdCmsRRQ -> stage -> list (Z * Z * Z) -> list (Z * Z * Z) -> Prop :=
  | run_new : rrq_run XrdCmsRRQ_new Idle [] []
  | run_add q st acc ans Snum info r q' : rrq_run q st acc ans ->
      0 <= Snum < numSlots -> myClock q + 1 < 2 ^ 32 -> RRQ_Add Snum info q = Ok (r, q') ->
      rrq_run q' st ((if r =? 0 then [] else [req_id info]) ++ acc) ans
  | run_ready q st acc ans Snum key m1 m2 r q' : rrq_run q st acc ans ->
      0 <= Snum < numSlots -> RRQ_Ready Snum key m1 m2 q = Ok (r, q') -> rrq_run q' st acc ans
  | run_tick q st acc ans : rrq_run q st acc ans -> myClock q + 1 < 2 ^ 32 ->
      rrq_run (TimeOut_tick q) st acc ans
  | run_expire q st acc ans q' : rrq_run q st acc ans -> TimeOut_expire q = Ok q' -> rrq_run q' st acc ans
  | run_next q acc ans sp q' : rrq_run q Idle acc ans -> Respond_next q = (Some sp, q') ->
      rrq_run q' (Sending sp) acc ans
  | run_idle q acc ans q' : rrq_run q Idle acc ans -> Respond_next q = (None, q') -> rrq_run q' Idle acc ans
  | run_send q sp acc ans a q' : rrq_run q (Sending sp) acc ans ->
      Respond_send RTable_Find Cluster_Select LocFmt sp q = Ok (a, q') ->
      rrq_run q' (Sent sp) acc (answered a ++ ans)
  | run_recycle q sp acc ans q' : rrq_run q (Sent sp) acc ans -> Slot_Recycle sp q = Ok q' ->
      rrq_run q' Idle acc ans.

Lemma expire_waiting q st : rrq_wf q st -> exists q', TimeOut_expire q = Ok q' /\ rrq_wf q' st /\
  ids q' (pending q' st) ≡ₚ ids q (pending q st) /\ myClock q' = myClock q.
Proof. intros Hw. apply expire_ok; [done|]. intros n Hn. apply elem_of_app. by left. Qed.

Lemma rrq_run_ok q st acc ans : rrq_run q st acc ans ->
  rrq_wf q st /\ acc ≡ₚ ans ++ ids q (pending q st).
Proof.
  induction 1 as [|q st acc ans Snum info r q' _ [Hw Hp] HS Hc He|q st acc ans Snum key m1 m2 r q' _ [Hw Hp] HS He
    |q st acc ans _ [Hw Hp] Hc|q st acc ans q' _ [Hw Hp] He|q acc ans sp q' _ [Hw Hp] He|q acc ans q' _ [Hw Hp] He
    |q sp acc ans a q' _ [Hw Hp] He|q sp acc ans q' _ [Hw Hp] He].
  - split; [apply rrq_new_wf|done].
  - destruct (rrq_add_ok Snum info q st Hw HS Hc) as (r' & q'' & Hq & _ & Hw' & Hi). rewrite Hq in He.
    injection He as -> ->. split; [done|]. rewrite Hi, Hp. rewrite !app_assoc. f_equiv. apply Permutation_app_comm.
  - destruct (ready_ok Snum key m1 m2 q st Hw HS) as (r' & q'' & Hq & Hw' & Hi). rewrite Hq in He.
    injection He as -> ->. split; [done|]. by rewrite Hi.
  - destruct (tick_ok q st Hw Hc) as [Hw' Hi]. split; [done|]. by rewrite Hi.
  - destruct (expire_waiting q st Hw) as (q'' & Hq & Hw' & Hi & _). rewrite Hq in He. injection He as ->.
    split; [done|]. by rewrite Hi.
  - pose proof (rrq_next_ok q Hw) as Hn. rewrite He in Hn. destruct Hn as (Hw' & _ & _ & Hi). split; [done|]. by rewrite Hi.
  - pose proof (rrq_next_ok q Hw) as Hn. rewrite He in Hn. destruct Hn as (_ & _ & _ & _ & Hw' & Hi). split; [done|]. by rewrite Hi.
  - destruct (send_ok q sp Hw) as (a' & q'' & Hq & Hw' & _ & _ & Hi). rewrite Hq in He. injection He as -> ->.
    split; [done|]. rewrite Hp, <- Hi. rewrite !app_assoc. f_equiv. apply Permutation_app_comm.
  - destruct (recycle_ok q sp Hw) as (q'' & Hq & Hw' & _ & _ & _ & Hi). rewrite Hq in He. injection He as ->.
    split; [done|]. by rewrite Hi.
Qed.

(** C18: In every run of the queue the accepted requests are exactly those
    answered, each once, and those waiting in slots; every slot is free or in
    one group; adding and readying never touch memory outside of the table. *)
Theorem RRQ_answers_once q st acc ans : rrq_run q st acc ans ->
  acc ≡ₚ ans ++ ids q (pending q st) /\
  freeSlot q ++ members q (heads q st) ≡ₚ seqZ 1 1023 /\
  (forall Snum info key m1 m2, 0 <= Snum < numSlots -> myClock q + 1 < 2 ^ 32 ->
    (exists r q', RRQ_Add Snum info q = Ok (r, q') /\ 0 <= r < numSlots) /\
    (exists r q', RRQ_Ready Snum key m1 m2 q = Ok (r, q'))).
Proof.
  intros [Hw Hp]%rrq_run_ok. split; [done|]. split; [apply Hw|]. intros Snum info key m1 m2 HS Hc. split.
  - destruct (rrq_add_ok Snum info q st Hw HS Hc) as (r & q' & Hq & Hr & _). eauto.
  - destruct (ready_ok Snum key m1 m2 q st Hw HS) as (r & q' & Hq & _). eauto.
Qed.

(** ** The end of waiting *)

Lemma loop_ok fuel q : rrq_wf q Idle -> length (readyQ q) = fuel -> waitQ q = [] ->
  exists a q', Respond_loop RTable_Find Cluster_Select LocFmt fuel q = Ok (a, q') /\ rrq_wf q' Idle /\
    waitQ q' = [] /\ readyQ q' = [] /\ answered a ≡ₚ ids q (pending q Idle).
Proof.
  revert q. induction fuel as [|fuel IH]; intros q Hw Hf Hwq; cbn [Respond_loop];
    pose proof (rrq_next_ok q Hw) as Hn; destruct (Respond_next q) as [[sp|] q1].
  - destruct Hn as (_ & Hn & _). by rewrite Hn in Hf.
  - destruct Hn as (Hr & H1 & H2 & _ & Hw1 & Hi). exists [], q1. rewrite H1. split_and!; try done.
    unfold pending. cbn [unanswered]. by rewrite Hr, Hwq.
  - destruct Hn as (Hw1 & Hr & H1 & Hi). destruct (send_ok q1 sp Hw1) as (a & q2 & -> & Hw2 & H3 & H4 & Ha). step_ok.
    destruct (recycle_ok q2 sp Hw2) as (q3 & -> & Hw3 & H5 & H6 & _ & Hi3). step_ok.
    destruct (IH q3 Hw3) as (b & q4 & -> & Hw4 & H7 & H8 & Hb); [rewrite H6, H4; rewrite Hr in Hf; cbn in Hf; lia|congruence|].
    step_ok. exists (a ++ b), q4. split_and!; try done.
    unfold answered in *. rewrite fmap_app, Hb, Hi3, Ha, Hi. done.
  - destruct Hn as (Hr & _). by rewrite Hr in Hf.
Qed.

(** C34: After two turns of the clock and the responder's loop every accepted
    request has been answered and the queues are empty, from any state a run
    reaches. *)
Theorem RRQ_drains q acc ans : rrq_run q Idle acc ans -> myClock q + 2 < 2 ^ 32 ->
  exists q1 q2 a q3,
    TimeOut_turn q = Ok q1 /\ TimeOut_turn q1 = Ok q2 /\
    Respond_loop RTable_Find Cluster_Select LocFmt (length (readyQ q2)) q2 = Ok (a, q3) /\
    waitQ q3 = [] /\ readyQ q3 = [] /\ freeSlot q3 ≡ₚ seqZ 1 1023 /\ acc ≡ₚ ans ++ answered a.
Proof.
  intros [Hw Hp]%rrq_run_ok Hc. unfold TimeOut_turn. pose proof (w_now _ _ Hw) as H0.
  destruct (tick_ok q Idle Hw) as [Hw1 Hi1]; [lia|].
  destruct (expire_waiting _ _ Hw1) as (q1 & Hq1 & Hw2 & Hi2 & Hc2).
  assert (myClock q1 = myClock q + 1) as Hc1. { rewrite Hc2. cbn. rewrite u32_small; lia. }
  destruct (tick_ok q1 Idle Hw2) as [Hw3 Hi3]; [lia|].
  assert (forall n, n ∈ waitQ q1 -> Expire (sl q1 n) <= myClock q + 1) as Hold.
  { assert (forall l qa qb, expire_loop l qa = Ok qb -> forall n, n ∈ waitQ qb -> n ∈ waitQ qa /\ sl qb n = sl qa n) as Hsub.
    { induction l as [|m l IH]; intros qa qb; cbn [expire_loop]; [by intros [= <-]|].
      destruct (slot_at m qa) as [s| | |]; try done. rewrite bind_Ok. destruct (Expire s <? myClock qa); [|by intros [= <-]].
      intros Hb n Hn. destruct (IH _ _ Hb n Hn) as [H1 H2].
      destruct (make_ready_queues m (link_remove m qa)) as (E1 & _ & E3 & _). rewrite E1 in H1.
      cbn [link_remove set_queues waitQ] in H1. apply list_elem_of_filter in H1 as [_ H1]. split; [done|].
      rewrite H2. by apply sl_Slot. }
    intros n Hn. destruct (Hsub _ _ _ Hq1 n Hn) as [Hn' ->]. apply (w_clock _ _ Hw n Hn'). }
  destruct (expire_all (TimeOut_tick q1) Idle Hw3) as (q2 & Hq2 & Hwq).
  { intros n Hn. specialize (Hold n Hn). change (sl (TimeOut_tick q1) n) with (sl q1 n). cbn [TimeOut_tick myClock].
    rewrite u32_small; lia. }
  destruct (expire_waiting _ _ Hw3) as (q2' & Hq2' & Hw4 & Hi4 & _).
  unfold TimeOut_expire in Hq2, Hq2'. rewrite Hq2 in Hq2'. injection Hq2' as <-.
  destruct (loop_ok _ q2 Hw4 eq_refl Hwq) as (a & q3 & Hl & Hw5 & H1 & H2 & Ha).
  exists q1, q2, a, q3. split; [done|]. split; [done|]. split; [done|]. split; [done|]. split; [done|]. split.
  - pose proof (w_perm _ _ Hw5) as Hperm. unfold heads in Hperm. rewrite H1, H2 in Hperm. cbn in Hperm.
    by rewrite app_nil_r in Hperm.
  - by rewrite Ha, Hi4, Hi3, Hi2, Hi1.
Qed.
End respond_ok.

(** ** Examples *)

Definition sample_info (id : Z) (lookup : bool) : RRQInfo := MkInfo (Some 7) id 1 2 false lookup 0 0 0 0 0.

Definition sample_add (Snum : Z) (info : RRQInfo) (q : XrdCmsRRQ) : Z * XrdCmsRRQ :=
  match RRQ_Add Snum info q with Ok r => r | _ => (0, q) end.

(** A selection waits for item 7, and a lookup of the same item joins it. *)
Definition sample_first : Z * XrdCmsRRQ := sample_add 0 (sample_info 100 false) XrdCmsRRQ_new.
Definition sample_joined : Z * XrdCmsRRQ := sample_add sample_first.1 (sample_info 200 true) sample_first.2.

Definition always_found (_ _ : Z) : bool := true.
Definition first_server (mask : Z) (_ : bool) (_ _ : Z) : option (Z * list Z) := Some (1094, [Z.log2 mask]).
Definition all_servers (mask _ _ _ : Z) : option (list Z) := Some [mask].

Lemma sample_joined_run :
  rrq_run always_found first_server all_servers sample_joined.2 Idle [(200, 2, 1); (100, 2, 1)] [].
Proof.
  apply (run_add _ _ _ sample_first.2 Idle [(100, 2, 1)] [] sample_first.1 (sample_info 200 true) sample_joined.1);
    [|vm_compute; done|vm_compute; done|vm_compute; reflexivity].
  apply (run_add _ _ _ XrdCmsRRQ_new Idle [] [] 0 (sample_info 100 false) sample_first.1);
    [constructor|vm_compute; done|vm_compute; done|vm_compute; reflexivity].
Qed.

Lemma RRQ_answers_once_witness :
  [(200, 2, 1); (100, 2, 1)] ≡ₚ [] ++ ids sample_joined.2 (pending sample_joined.2 Idle) /\
  exists r q', RRQ_Ready sample_joined.1 (Some 7) 4 0 sample_joined.2 = Ok (r, q').
Proof.
  destruct (RRQ_answers_once always_found first_server all_servers sample_joined.2 Idle [(200, 2, 1); (100, 2, 1)] []
    sample_joined_run) as (H1 & _ & H2).
  split; [exact H1|]. destruct (H2 sample_joined.1 (sample_info 1 false) (Some 7) 4 0) as [_ H3];
    [vm_compute; done|vm_compute; done|exact H3].
Defined.

Lemma RRQ_drains_witness :
  exists q2 a q3,
    Respond_loop always_found first_server all_servers (length (readyQ q2)) q2 = Ok (a, q3) /\
    waitQ q3 = [] /\ [(200, 2, 1); (100, 2, 1)] ≡ₚ [] ++ answered a.
Proof.
  destruct (RRQ_drains always_found first_server all_servers sample_joined.2 [(200, 2, 1); (100, 2, 1)] []
    sample_joined_run) as (q1 & q2 & a & q3 & _ & _ & H1 & H2 & _ & _ & H3); [vm_compute; done|].
  exists q2, a, q3. done.
Defined.

(** Server 3 reports the file: both are answered with it. *)
Definition sample_answers : res (list (Z * Reply)) :=
  '(_, q) ← RRQ_Ready sample_joined.1 (Some 7) 8 0 sample_joined.2;
  '(a, _) ← Respond_loop always_found first_server all_servers 1 q;
  Ok (map (fun x => (ID x.1, x.2)) a).

Example joined_answers : sample_answers = Ok [(200, Locate [8]); (100, Redirect 1094 [3])].
Proof. vm_compute. reflexivity. Qed.

(** Answering one selection after the other: the counter of fast redirects is
    added to the statistics before every turn, and never cleared. *)
Definition sample_cycle (q : res XrdCmsRRQ) : res XrdCmsRRQ :=
  q ← q;
  '(n, q) ← RRQ_Add 0 (sample_info 100 false) q;
  '(_, q) ← RRQ_Ready n (Some 7) 8 0 q;
  '(_, q) ← Respond_loop always_found first_server all_servers 1 q;
  Ok q.

Definition sample_statistics : res (Z * Z * Z) :=
  q ← sample_cycle (sample_cycle (sample_cycle (Ok XrdCmsRRQ_new)));
  Ok (Resp (Stats q), rdFast (counts q), rdFast (Stats q)).

Example rdFast_overcounts : sample_statistics = Ok (3, 3, 9).
Proof. vm_compute. reflexivity. Qed.
