(* ===== verification/CmsKey.v ===== *)
(** * The location cache's items and their table

    Models src/src/XrdCms/XrdCmsKey.hh, XrdCmsKey.cc, XrdCmsNash.hh and
    XrdCmsNash.cc. Items are allocated in blocks and never deleted, so an address
    always refers to an item: addresses number the items in the order of their
    allocation, and an address without an entry in [items] holds a new item.

    Two links run through the items: [Next] through the free list and the chains
    of the hash table, [TODRef] through the 64 lists of the clock. Both kinds are
    written as the lists of the addresses they link; the invariant says that an
    item is in one list of each kind at most, which makes this exact. *)

From stdpp Require Import base tactics list_numbers numbers option gmap list.
From S2P Require Import Prelude CString CrcRegister OucCRC.
#[local] Set Warnings "-clear-no-such-hyp".

(** ** Keys *)

(** [XrdCmsKey] of a request; [Val] up to its null. *)
Record XrdCmsKey := MkKey {
  TODRef : option Z; Val : list Z; Hash : Z; Len : Z; TOD : Z; Ref : Z }.

(** [XrdCmsKey( key, klen )] *)
Definition XrdCmsKey_new (key : list Z) (klen : Z) : XrdCmsKey := MkKey None key 0 klen 0 0.

(** [setHash()] *)
Definition setHash (k : XrdCmsKey) : res XrdCmsKey :=
  let len := if Len k =? 0 then i16 (zlen (Val k)) else Len k in
  h ← CRC32 (Val k ++ [0]) len;
  Ok (MkKey (TODRef k) (Val k) (if h =? 0 then 1 else h) len (TOD k) (Ref k)).

(** [if (!Key.Hash) Key.setHash()] *)
Definition hashed (k : XrdCmsKey) : res XrdCmsKey := if Hash k =? 0 then setHash k else Ok k.

(** [XrdCmsKeyLoc]; [deadline] and [HashSave] share their memory. *)
Record XrdCmsKeyLoc := MkLoc {
  hfvec : Z; pfvec : Z; qfvec : Z; TOD_B : Z; lifeline : Z; deadline : Z; roPend : Z; rwPend : Z }.

Abbreviation HashSave := deadline (only parsing).

(** [XrdCmsKeyItem]: the key of an item is its [Val], [Hash], [TOD] and [Ref]. *)
Record XrdCmsKeyItem := MkItem {
  Loc : XrdCmsKeyLoc; i_Val : list Z; i_Hash : Z; i_TOD : Z; i_Ref : Z }.

(** A new item; what its constructor leaves open is written before it is read. *)
Definition KeyItem_new : XrdCmsKeyItem := MkItem (MkLoc 0 0 0 0 0 0 0 0) [] 0 0 0.

Definition set_loc (f : XrdCmsKeyLoc -> XrdCmsKeyLoc) (i : XrdCmsKeyItem) : XrdCmsKeyItem :=
  MkItem (f (Loc i)) (i_Val i) (i_Hash i) (i_TOD i) (i_Ref i).

(** [Equiv( oth )] of an item's key and a request's. *)
Definition Equiv (i : XrdCmsKeyItem) (k : XrdCmsKey) : bool := (i_Hash i =? Hash k) && (i_Ref i =? Ref k).

(** [operator==] of an item's key and a request's. *)
Definition key_eq (i : XrdCmsKeyItem) (k : XrdCmsKey) : bool :=
  (i_Hash i =? Hash k) && bool_decide (i_Val i = Val k).

(** ** The items *)

Definition TickRate : Z := 64.
Definition TickMask : Z := 63.
Definition minAlloc : Z := 4096.
Definition minFree : Z := 1024.

Record Keys := MkKeys {
  items : gmap Z XrdCmsKeyItem; TockTable : list (list Z); Free : list Z;
  numFree : Z; numHave : Z; numNull : Z }.

Definition Keys_new : Keys := MkKeys ∅ (replicate 64 []) [] 0 0 0.

(** The item at an address. *)
Definition item (K : Keys) (a : Z) : XrdCmsKeyItem := default KeyItem_new (items K !! a).

Definition upd_item (a : Z) (f : XrdCmsKeyItem -> XrdCmsKeyItem) (K : Keys) : Keys :=
  MkKeys (<[a := f (item K a)]> (items K)) (TockTable K) (Free K) (numFree K) (numHave K) (numNull K).

Definition set_tock (tt : list (list Z)) (K : Keys) : Keys :=
  MkKeys (items K) tt (Free K) (numFree K) (numHave K) (numNull K).

(** [TockTable[t]], and linking an item in front of it. *)
Definition tock (tt : list (list Z)) (t : Z) : list Z := default [] (tt !! Z.to_nat t).
Definition tock_push (t a : Z) (tt : list (list Z)) : list (list Z) := alter (cons a) (Z.to_nat t) tt.
Definition tock_set (t : Z) (l : list Z) (tt : list (list Z)) : list (list Z) := <[Z.to_nat t := l]> tt.

(** [Replenish()]: a new block of items, the last one on top of the free list. *)
Definition Replenish (K : Keys) : Z * Keys :=
  (numFree K + minAlloc,
   MkKeys (items K) (TockTable K) (rev (seqZ (numHave K) minAlloc) ++ Free K)
     (numFree K + minAlloc) (numHave K + minAlloc) (numNull K)).

(** The part of [Alloc] that takes an item off the free list. *)
Definition Alloc_take (theTock : Z) (K : Keys) : option (Z * Keys) :=
  match Free K with
  | [] => None
  | kP :: free =>
      let theTock := Z.land theTock TickMask in
      let K := MkKeys (items K) (tock_push theTock kP (TockTable K)) free (numFree K - 1) (numHave K) (numNull K) in
      Some (kP, upd_item kP (fun i =>
        MkItem (let l := Loc i in MkLoc (hfvec l) (pfvec l) (qfvec l) (TOD_B l) (lifeline l) (deadline l) 0 0)
          (i_Val i) (i_Hash i) theTock (if i_Ref i =? 0 then 1 else u8 (i_Ref i + 1))) K)
  end.

(** [Alloc( theTock )]; [Replenish] always provides items, or [new] throws. *)
Definition Alloc (theTock : Z) (K : Keys) : option (Z * Keys) :=
  match Alloc_take theTock K with
  | Some r => Some r
  | None =>
      let K := MkKeys (items K) (TockTable K) (Free K) (numFree K) (numHave K) (numNull K + 1) in
      Alloc_take theTock (Replenish K).2
  end.

(** [Recycle()] *)
Definition Item_Recycle (a : Z) (K : Keys) : Keys :=
  let K := upd_item a (fun i => MkItem (Loc i) [] 0 (i_TOD i) (u8 (i_Ref i + 1))) K in
  MkKeys (items K) (TockTable K) (a :: Free K) (numFree K + 1) (numHave K) (numNull K).

(** [Reload()] *)
Definition Reload (a : Z) (K : Keys) : Keys :=
  let K := upd_item a (fun i => MkItem (Loc i) (i_Val i) (i_Hash i) (Z.land (i_TOD i) TickMask) (i_Ref i)) K in
  set_tock (tock_push (i_TOD (item K a)) a (TockTable K)) K.

(** [Stats( isAlloc, isFree, wasNull )] *)
Definition Stats (K : Keys) : (Z * Z * Z) * Keys :=
  ((numHave K, numFree K, numNull K),
   MkKeys (items K) (TockTable K) (Free K) (numFree K) (numHave K) 0).

(** [nP->Loc.HashSave = nP->Key.Hash; nP->Key.Hash = 0] *)
Definition unload_item (i : XrdCmsKeyItem) : XrdCmsKeyItem :=
  let l := Loc i in
  MkItem (MkLoc (hfvec l) (pfvec l) (qfvec l) (TOD_B l) (lifeline l) (i_Hash i) (roPend l) (rwPend l))
    (i_Val i) 0 (i_TOD i) (i_Ref i).

(** The loop of [Unload( theTock )] over the list: what stays in it. *)
Fixpoint unload_loop (theTock : Z) (l : list Z) (K : Keys) : list Z * Keys :=
  match l with
  | [] => ([], K)
  | nP :: l =>
      if i_TOD (item K nP) =? theTock then
        let '(l, K) := unload_loop theTock l (upd_item nP unload_item K) in (nP :: l, K)
      else unload_loop theTock l (set_tock (tock_push (i_TOD (item K nP)) nP (TockTable K)) K)
  end.

(** [Unload( theTock )] *)
Definition Unload (theTock : Z) (K : Keys) : list Z * Keys :=
  let theTock := Z.land theTock TickMask in
  unload_loop theTock (tock (TockTable K) theTock) (set_tock (tock_set theTock [] (TockTable K)) K).

(** The walk to an item of a list and its removal; nothing when it is not there. *)
Fixpoint unlink (a : Z) (l : list Z) : option (list Z) :=
  match l with
  | [] => None
  | b :: l => if a =? b then Some l else cons b <$> unlink a l
  end.

(** [Unload( theItem )]: whether the item was found in its list. *)
Definition Unload_item (theItem : Z) (K : Keys) : bool * Keys :=
  let theTock := Z.land (i_TOD (item K theItem)) TickMask in
  match unlink theItem (tock (TockTable K) theTock) with
  | Some l => (true, upd_item theItem unload_item (set_tock (tock_set theTock l (TockTable K)) K))
  | None => (false, K)
  end.

(** ** The hash table *)

Record XrdCmsNash := MkNash {
  nashtable : list (list Z); prevtablesize : Z; nashtablesize : Z; nashnum : Z; Threshold : Z }.

Definition LoadMax : Z := 80.

(** [XrdCmsNash( psize, csize )] *)
Definition XrdCmsNash_new (psize csize : Z) : XrdCmsNash :=
  MkNash (replicate (Z.to_nat csize) []) psize csize 0 (csize * LoadMax / 100).

(** [newent = nip->Key.Hash % newsize] and the link to that chain. *)
Definition rehash (K : Keys) (newsize : Z) (newtab : list (list Z)) (nip : Z) : list (list Z) :=
  alter (cons nip) (Z.to_nat (i_Hash (item K nip) mod newsize)) newtab.

(** [Expand()] *)
Definition Expand (K : Keys) (N : XrdCmsNash) : XrdCmsNash :=
  let newsize := prevtablesize N + nashtablesize N in
  MkNash (foldl (rehash K newsize) (replicate (Z.to_nat newsize) []) (mjoin (nashtable N)))
    (nashtablesize N) newsize (nashnum N) (newsize * LoadMax / 100).

Definition chain (N : XrdCmsNash) (h : Z) : list Z :=
  default [] (nashtable N !! Z.to_nat (h mod nashtablesize N)).

(** [Find( Key )]: the item and the key with its hash. *)
Definition Nash_Find (k : XrdCmsKey) (K : Keys) (N : XrdCmsNash) : res (option Z * XrdCmsKey) :=
  k ← hashed k;
  Ok (snd <$> list_find (fun nip => key_eq (item K nip) k) (chain N (Hash k)), k).

(** [Add( Key )]: the item, the key with its hash and both tables. *)
Definition Nash_Add (k : XrdCmsKey) (K : Keys) (N : XrdCmsNash)
  : res (option Z * XrdCmsKey * Keys * XrdCmsNash) :=
  match Alloc (TOD k) K with
  | None => Ok (None, k, K, N)
  | Some (hip, K) =>
      let N := MkNash (nashtable N) (prevtablesize N) (nashtablesize N) (nashnum N + 1) (Threshold N) in
      let N := if Threshold N <? nashnum N then Expand K N else N in
      k ← hashed k;
      let K := upd_item hip (fun i => MkItem (Loc i) (Val k) (Hash k) (i_TOD i) (i_Ref i)) K in
      let kent := Hash k mod nashtablesize N in
      Ok (Some hip, k, K,
          MkNash (alter (cons hip) (Z.to_nat kent) (nashtable N)) (prevtablesize N) (nashtablesize N)
            (nashnum N) (Threshold N))
  end.

(** [Recycle( rip )]: whether the item was found in the chain of its saved hash. *)
Definition Nash_Recycle (rip : Z) (K : Keys) (N : XrdCmsNash) : bool * Keys * XrdCmsNash :=
  let h := u32 (HashSave (Loc (item K rip))) in
  match unlink rip (chain N h) with
  | Some l =>
      (true, Item_Recycle rip K,
       MkNash (<[Z.to_nat (h mod nashtablesize N) := l]> (nashtable N))
         (prevtablesize N) (nashtablesize N) (nashnum N - 1) (Threshold N))
  | None => (false, K, N)
  end.

(** ** Tables of lists *)

Section buckets.
Implicit Types (t : list (list Z)) (a n : Z).

Definition bucket (t : list (list Z)) (n : Z) : list Z := default [] (t !! Z.to_nat n).

Lemma bucket_lookup t n : 0 <= n < zlen t -> t !! Z.to_nat n = Some (bucket t n).
Proof.
  intros Hn. unfold bucket. destruct (t !! Z.to_nat n) eqn:E; [done|].
  apply lookup_ge_None in E. unfold zlen in Hn. lia.
Qed.

Lemma elem_buckets t a : a ∈ mjoin t <-> exists n, 0 <= n < zlen t /\ a ∈ bucket t n.
Proof.
  rewrite list_elem_of_join. split.
  - intros (l & Ha & Hl). apply list_elem_of_lookup in Hl as [i Hi]. exists (Z.of_nat i).
    unfold bucket. rewrite Nat2Z.id, Hi. split; [|done]. apply lookup_lt_Some in Hi. unfold zlen. lia.
  - intros (n & Hn & Ha). exists (bucket t n). split; [done|]. apply list_elem_of_lookup. exists (Z.to_nat n).
    by apply bucket_lookup.
Qed.

(** Replacing the list of one bucket. *)
Lemma join_insert t n l : 0 <= n < zlen t -> bucket t n ++ mjoin (<[Z.to_nat n := l]> t) ≡ₚ l ++ mjoin t.
Proof.
  intros Hn. pose proof (bucket_lookup t n Hn) as Hb.
  rewrite insert_take_drop by (unfold zlen in Hn; lia).
  assert (mjoin t = mjoin (take (Z.to_nat n) t) ++ bucket t n ++ mjoin (drop (S (Z.to_nat n)) t)) as ->.
  { rewrite <- (take_drop_middle t _ _ Hb) at 1. by rewrite join_app. }
  rewrite join_app. cbn [mjoin list_join]. solve_Permutation.
Qed.

Lemma bucket_insert t n l m : 0 <= n < zlen t -> 0 <= m ->
  bucket (<[Z.to_nat n := l]> t) m = if decide (m = n) then l else bucket t m.
Proof.
  intros Hn Hm. unfold bucket. case_decide as Hd.
  - subst m. rewrite list_lookup_insert_eq by (unfold zlen in Hn; lia). done.
  - rewrite list_lookup_insert_ne by lia. done.
Qed.

Lemma alter_insert t n a : 0 <= n < zlen t -> alter (cons a) (Z.to_nat n) t = <[Z.to_nat n := a :: bucket t n]> t.
Proof.
  intros Hn. apply list_eq. intros i. destruct (decide (i = Z.to_nat n)) as [->|Hne].
  - rewrite list_lookup_alter_eq, list_lookup_insert_eq by (unfold zlen in Hn; lia).
    by rewrite (bucket_lookup t n Hn).
  - by rewrite list_lookup_alter_ne, list_lookup_insert_ne by done.
Qed.

Lemma join_push t n a : 0 <= n < zlen t -> mjoin (alter (cons a) (Z.to_nat n) t) ≡ₚ a :: mjoin t.
Proof.
  intros Hn. rewrite alter_insert by done. apply (Permutation_app_inv_l (bucket t n)).
  rewrite join_insert by done. cbn [app]. by rewrite Permutation_middle.
Qed.

Lemma bucket_push t n a m : 0 <= n < zlen t -> 0 <= m ->
  bucket (alter (cons a) (Z.to_nat n) t) m = if decide (m = n) then a :: bucket t n else bucket t m.
Proof. intros Hn Hm. rewrite alter_insert by done. by apply bucket_insert. Qed.

Lemma zlen_push t (n : nat) a : zlen (alter (cons a) n t) = zlen t.
Proof. unfold zlen. by rewrite length_alter. Qed.

Lemma join_empty k : mjoin (replicate k (@nil Z)) = [].
Proof. induction k; done. Qed.

Lemma bucket_empty k n : bucket (replicate k []) n = [].
Proof.
  unfold bucket. destruct (replicate k [] !! Z.to_nat n) eqn:E; [|done]. by apply lookup_replicate in E as [-> _].
Qed.

Lemma unlink_spec a l : match unlink a l with Some l' => l ≡ₚ a :: l' | None => a ∉ l end.
Proof.
  induction l as [|b l IH]; cbn [unlink]; [by intros ?%elem_of_nil|].
  destruct (Z.eqb_spec a b) as [->|Hne]; [done|].
  destruct (unlink a l) as [l'|]; cbn.
  - rewrite IH. apply perm_swap.
  - apply not_elem_of_cons. done.
Qed.

End buckets.

(** ** The invariant *)

(** The hash of a key. *)
Definition hash_of (v : list Z) : Z :=
  let h := Z.lxor (crc_register crc_poly CRC32_XINIT v) CRC32_XOROT in if h =? 0 then 1 else h.

Record key_ok (k : XrdCmsKey) : Prop := {
  k_bytes : Forall is_byte (Val k);
  k_short : zlen (Val k) < 2 ^ 15;
  k_len : Len k = 0 \/ Len k = zlen (Val k);
  k_hash : Hash k = 0 \/ Hash k = hash_of (Val k) }.

Lemma hash_of_range v : Forall is_byte v -> 0 < hash_of v < 2 ^ 32.
Proof.
  intros Hv. unfold hash_of. pose proof (crc_register_range crc_poly_range CRC32_XINIT v Hv ltac:(done)) as Hr.
  pose proof (lxor_range 32 _ CRC32_XOROT ltac:(lia) Hr ltac:(done)). destruct (Z.eqb_spec (Z.lxor (crc_register crc_poly CRC32_XINIT v) CRC32_XOROT) 0); lia.
Qed.

Lemma hashed_ok k : key_ok k -> exists k', hashed k = Ok k' /\ key_ok k' /\ Hash k' = hash_of (Val k) /\
  Val k' = Val k /\ TOD k' = TOD k /\ Ref k' = Ref k /\ TODRef k' = TODRef k.
Proof.
  intros Hk. pose proof (k_bytes _ Hk) as Hb. pose proof (hash_of_range _ Hb) as Hr. unfold hashed.
  destruct (Z.eqb_spec (Hash k) 0) as [H0|H0].
  2:{ exists k. destruct (k_hash _ Hk); [done|]. by split_and!. }
  unfold setHash. pose proof (zlen_nonneg (Val k)) as Hz. pose proof (k_short _ Hk) as Hs.
  assert ((if Len k =? 0 then i16 (zlen (Val k)) else Len k) = zlen (Val k)) as ->.
  { destruct (Z.eqb_spec (Len k) 0); [|by destruct (k_len _ Hk)]. unfold i16. rewrite Z.mod_small; lia. }
  rewrite CRC32_register.
  - rewrite bind_Ok. unfold zlen. rewrite Nat2Z.id, take_app_length. fold (zlen (Val k)).
    eexists. split; [done|]. cbn [Val TOD Ref TODRef Hash]. fold (hash_of (Val k)). split_and!; try done.
    split; cbn [Val Len Hash]; try done; by right.
  - apply Forall_app. split; [done|]. apply Forall_singleton. unfold is_byte. lia.
  - solve_len.
Qed.

(** The items whose keys can be found, and the tock lists. *)
Definition loaded (K : Keys) (a : Z) : Prop := a ∈ mjoin (TockTable K).

(** Ticks until the clock, at [now], comes to the list [t]; 63 for its own. *)
Definition ahead (now t : Z) : Z := (t - now - 1) mod 64.

(** [P] are the items taken off the clock's lists that still wait to be recycled. *)
Record store_wf (now : Z) (P : list Z) (K : Keys) (N : XrdCmsNash) : Prop := {
  s_now : 0 <= now < 64;
  s_tocks : zlen (TockTable K) = 64;
  s_size : 0 < nashtablesize N /\ 0 <= prevtablesize N /\ zlen (nashtable N) = nashtablesize N;
  s_links : NoDup (mjoin (TockTable K) ++ P);
  s_next : NoDup (mjoin (nashtable N) ++ Free K);
  s_chained : forall a, a ∈ mjoin (TockTable K) ++ P -> a ∈ mjoin (nashtable N);
  s_loaded : forall a, loaded K a ->
    Forall is_byte (i_Val (item K a)) /\ i_Hash (item K a) = hash_of (i_Val (item K a)) /\
    0 <= i_TOD (item K a) < 64 /\ a ∈ chain N (i_Hash (item K a));
  s_unloaded : forall a, ~ loaded K a -> i_Hash (item K a) = 0;
  s_range : forall a, a ∈ mjoin (nashtable N) ++ Free K -> 0 <= a < numHave K;
  s_unique : forall a b, loaded K a -> loaded K b -> i_Val (item K a) = i_Val (item K b) -> a = b;
  s_turn : forall t a, 0 <= t < 64 -> a ∈ bucket (TockTable K) t -> ahead now t <= ahead now (i_TOD (item K a));
  s_have : 0 <= numHave K /\ numFree K = zlen (Free K) /\ nashnum N = zlen (mjoin (nashtable N)) }.

Lemma item_upd a f K b : item (upd_item a f K) b = if decide (b = a) then f (item K a) else item K b.
Proof.
  unfold item at 1. cbn [upd_item items]. case_decide as Hd.
  - subst b. by rewrite lookup_insert_eq.
  - by rewrite lookup_insert_ne.
Qed.

Lemma tock_bucket tt t : tock tt t = bucket tt t.
Proof. done. Qed.

Lemma chain_bucket N h : chain N h = bucket (nashtable N) (h mod nashtablesize N).
Proof. done. Qed.

Lemma chain_in now P K N h a : store_wf now P K N -> a ∈ chain N h -> a ∈ mjoin (nashtable N).
Proof.
  intros Hw Ha. apply elem_buckets. exists (h mod nashtablesize N). split; [|done].
  destruct (s_size _ _ _ _ Hw) as (H1 & _ & ->). by apply Z.mod_pos_bound.
Qed.

(** [Find] answers with the item whose key is the path. *)
Lemma find_item now P K N k : store_wf now P K N -> key_ok k ->
  exists r k', Nash_Find k K N = Ok (r, k') /\ key_ok k' /\ Hash k' = hash_of (Val k) /\ Val k' = Val k /\
    TOD k' = TOD k /\ Ref k' = Ref k /\ TODRef k' = TODRef k /\
    match r with
    | Some a => loaded K a /\ i_Val (item K a) = Val k
    | None => forall a, loaded K a -> i_Val (item K a) <> Val k
    end.
Proof.
  intros Hw Hk. destruct (hashed_ok k Hk) as (k' & Hh & Hk' & Hhash & Hval & H1 & H2 & H3).
  unfold Nash_Find. rewrite Hh. step_ok. eexists _, k'. split; [reflexivity|]. do 6 (split; [done|]).
  pose proof (hash_of_range _ (k_bytes _ Hk)) as Hr.
  destruct (list_find _ _) as [[i a]|] eqn:E; cbn [fmap option_fmap option_map snd].
  - apply list_find_Some in E as (Ha & Hp & _). apply Is_true_true in Hp.
    apply andb_true_iff in Hp as [Hp1%Z.eqb_eq Hp2%bool_decide_eq_true].
    split; [|by rewrite Hp2]. destruct (decide (a ∈ mjoin (TockTable K))) as [|Hn]; [done|].
    rewrite (s_unloaded _ _ _ _ Hw a Hn) in Hp1. lia.
  - apply list_find_None in E. rewrite Forall_forall in E. intros a Ha Hv.
    destruct (s_loaded _ _ _ _ Hw a Ha) as (_ & Hha & _ & Hc).
    rewrite Hha, Hv, <- Hhash in Hc. apply (E a Hc). apply Is_true_true. unfold key_eq.
    rewrite Hha, Hv, Hhash, Hval, Z.eqb_refl. by rewrite bool_decide_eq_true_2.
Qed.

(** ** What keeps the invariant *)

Lemma ahead_range now t : 0 <= ahead now t < 64.
Proof. unfold ahead. apply Z.mod_pos_bound. lia. Qed.

Lemma ahead_self now : ahead now now = 63.
Proof. unfold ahead. replace (now - now - 1) with (-1) by lia. done. Qed.

(** Items may change but for their keys, and may be taken to the current window. *)
Lemma items_wf now P K N K' : store_wf now P K N ->
  TockTable K' = TockTable K -> Free K' = Free K -> numHave K' = numHave K -> numFree K' = numFree K ->
  (forall a, i_Val (item K' a) = i_Val (item K a) /\ i_Hash (item K' a) = i_Hash (item K a) /\
     (i_TOD (item K' a) = i_TOD (item K a) \/ i_TOD (item K' a) = now)) ->
  store_wf now P K' N.
Proof.
  intros Hw H1 H2 H3 H4 Hi. destruct Hw as [W1 W2 W3 W4 W5 W6 W7 W8 W9 W10 W11 W12].
  split; unfold loaded in *; rewrite ?H1, ?H2, ?H3, ?H4; try done.
  - intros a Ha. destruct (Hi a) as (-> & -> & Ht). destruct (W7 a Ha) as (V1 & V2 & V3 & V4).
    split_and!; try done; destruct Ht as [-> | ->]; lia.
  - intros a Ha. destruct (Hi a) as (_ & -> & _). auto.
  - intros a b Ha Hb. destruct (Hi a) as (-> & _). destruct (Hi b) as (-> & _). auto.
  - intros t a Ht Ha. destruct (Hi a) as (_ & _ & [-> | ->]); [by apply W11|].
    rewrite ahead_self. pose proof (ahead_range now t). lia.
Qed.

Lemma zlen_alter_cons (tt : list (list Z)) (n : nat) a : zlen (alter (cons a) n tt) = zlen tt.
Proof. apply zlen_push. Qed.

Lemma filter_same (P Q : Z -> Prop) `{!forall x, Decision (P x), !forall x, Decision (Q x)} (l : list Z) :
  (forall a, a ∈ l -> P a <-> Q a) -> filter P l = filter Q l.
Proof.
  induction l as [|a l IH]; intros Hi; [done|]. rewrite !filter_cons.
  rewrite IH by (intros; apply Hi; by right). pose proof (Hi a ltac:(left)). repeat case_decide; tauto.
Qed.

(** The loop of [Unload]: what stays, and where the others go. *)
Lemma unload_loop_ok t l K : zlen (TockTable K) = 64 -> NoDup l ->
  (forall a, a ∈ l -> 0 <= i_TOD (item K a) < 64) ->
  let '(l', K') := unload_loop t l K in
  l' = filter (fun a => i_TOD (item K a) = t) l /\
  mjoin (TockTable K') ≡ₚ filter (fun a => i_TOD (item K a) <> t) l ++ mjoin (TockTable K) /\
  zlen (TockTable K') = 64 /\
  (forall n a, 0 <= n < 64 -> a ∈ bucket (TockTable K') n <->
     a ∈ bucket (TockTable K) n \/ (a ∈ l /\ i_TOD (item K a) <> t /\ i_TOD (item K a) = n)) /\
  (forall a, item K' a = if decide (a ∈ l') then unload_item (item K a) else item K a) /\
  Free K' = Free K /\ numHave K' = numHave K /\ numFree K' = numFree K.
Proof.
  revert K. induction l as [|p l IH]; intros K Hl Hd Hr; cbn [unload_loop].
  { split_and!; try done. intros n a Hn. split; [by left|]. intros [?|[?%elem_of_nil _]]; done. }
  apply NoDup_cons in Hd as [Hp Hd]. destruct (Z.eqb_spec (i_TOD (item K p)) t) as [He|He].
  - specialize (IH (upd_item p unload_item K)). destruct (unload_loop t l _) as [l' K'].
    assert (forall a, a ∈ l -> item (upd_item p unload_item K) a = item K a) as Hs.
    { intros a Ha. rewrite item_upd, decide_False by congruence. done. }
    destruct IH as (I1 & I2 & I3 & I4 & I5 & I6 & I7 & I8); [done|done|intros a Ha; rewrite Hs by done; apply Hr; by right|].
    assert (filter (fun a => i_TOD (item (upd_item p unload_item K) a) = t) l = filter (fun a => i_TOD (item K a) = t) l) as F1
      by (apply filter_same; intros a Ha; by rewrite Hs).
    assert (filter (fun a => i_TOD (item (upd_item p unload_item K) a) <> t) l = filter (fun a => i_TOD (item K a) <> t) l) as F2
      by (apply filter_same; intros a Ha; by rewrite Hs).
    rewrite filter_cons_True by done. rewrite (filter_cons_False _ p) by (intros H; by apply H).
    rewrite F1 in I1. rewrite F2 in I2. split_and!; try done.
    + by rewrite I1.
    + intros n a Hn. rewrite I4 by done. cbn [upd_item TockTable]. rewrite elem_of_cons. split.
      * intros [?|(Ha & H)]; [by left|]. rewrite Hs in H by done. by right; split; [right|].
      * intros [?|([->|Ha] & H1 & H2)]; [by left|done|]. right. by rewrite Hs.
    + intros a. rewrite I5, item_upd. rewrite I1.
      destruct (decide (a = p)) as [->|Hne].
      * rewrite (decide_True (P := p ∈ p :: _)) by left. rewrite decide_False; [done|]. by intros [_ ?]%list_elem_of_filter.
      * destruct (decide (a ∈ filter _ l)) as [Hin|Hin].
        -- rewrite decide_True; [done|]. by right.
        -- rewrite decide_False; [done|]. by intros [?|?]%elem_of_cons.
  - set (K1 := set_tock _ K). specialize (IH K1). destruct (unload_loop t l K1) as [l' K'].
    assert (0 <= i_TOD (item K p) < zlen (TockTable K)) as Hpr by (rewrite Hl; apply Hr; left).
    destruct IH as (I1 & I2 & I3 & I4 & I5 & I6 & I7 & I8).
    { change (TockTable K1) with (tock_push (i_TOD (item K p)) p (TockTable K)). unfold tock_push. by rewrite zlen_alter_cons. }
    { done. }
    { intros a Ha. apply Hr. by right. }
    change (item K1) with (item K) in *.
    rewrite filter_cons_False by done. rewrite (filter_cons_True _ p) by done. split_and!; try done.
    + rewrite I2. change (TockTable K1) with (tock_push (i_TOD (item K p)) p (TockTable K)). unfold tock_push. rewrite join_push by done. cbn [app].
      by rewrite Permutation_middle.
    + intros n a Hn. rewrite I4 by done. change (TockTable K1) with (tock_push (i_TOD (item K p)) p (TockTable K)). unfold tock_push.
      rewrite bucket_push by (done || lia). rewrite elem_of_cons. case_decide as Hc.
      * subst n. rewrite elem_of_cons. naive_solver.
      * naive_solver.
Qed.

(** The next window. *)
Definition tick (now : Z) : Z := Z.land (now + 1) TickMask.

Lemma land_63 z : Z.land z TickMask = z mod 64.
Proof. change TickMask with (Z.ones 6). by rewrite Z.land_ones. Qed.

Lemma tick_range now : 0 <= tick now < 64.
Proof. unfold tick. rewrite land_63. apply Z.mod_pos_bound. lia. Qed.

Lemma ahead_tick now t : 0 <= now < 64 -> 0 <= t < 64 ->
  if decide (t = tick now) then ahead now t = 0 else ahead (tick now) t = ahead now t - 1 /\ 0 < ahead now t.
Proof.
  intros Hn Ht. unfold tick, ahead. rewrite land_63.
  assert ((now + 1) mod 64 = if decide (now = 63) then 0 else now + 1) as ->.
  { case_decide; [by subst|]. apply Z.mod_small. lia. }
  destruct (decide (now = 63)) as [->|Hne]; case_decide; lia_div.
Qed.

Lemma filter_split (P : Z -> Prop) `{!forall x, Decision (P x)} (l : list Z) :
  filter P l ++ filter (fun a => ~ P a) l ≡ₚ l.
Proof.
  induction l as [|a l IH]; [done|]. rewrite !filter_cons. destruct (decide (P a)) as [Hp|Hp].
  - rewrite decide_False by tauto. cbn [app]. by rewrite IH.
  - rewrite decide_True by done. rewrite <- Permutation_middle. by rewrite IH.
Qed.

(** A tick unloads exactly the items of the window it comes to. *)
Lemma tick_wf now P K N : store_wf now P K N ->
  let '(l, K') := Unload (tick now) K in
  store_wf (tick now) (l ++ P) K' N /\
  (forall a, a ∈ l <-> loaded K a /\ i_TOD (item K a) = tick now) /\
  (forall a, loaded K' a <-> loaded K a /\ i_TOD (item K a) <> tick now) /\
  (forall a, item K' a = if decide (a ∈ l) then unload_item (item K a) else item K a).
Proof.
  intros Hw. pose proof (tick_range now) as Ht. unfold Unload. rewrite land_63, Z.mod_small by done.
  set (t := tick now) in *. set (K1 := set_tock _ K).
  pose proof (s_tocks _ _ _ _ Hw) as Hlen. assert (0 <= t < zlen (TockTable K)) as Htl by lia.
  pose proof (join_insert (TockTable K) t [] Htl) as Hj. cbn [app] in Hj.
  assert (TockTable K1 = <[Z.to_nat t := []]> (TockTable K)) as HT1 by done.
  pose proof (s_links _ _ _ _ Hw) as Hnd. rewrite <- Hj, <- app_assoc in Hnd.
  assert (forall a, a ∈ bucket (TockTable K) t -> loaded K a) as Hload.
  { intros a Ha. apply elem_buckets. eauto. }
  pose proof (unload_loop_ok t (bucket (TockTable K) t) K1) as Hu.
  change (tock (TockTable K) t) with (bucket (TockTable K) t). change (item K1) with (item K) in *.
  destruct (unload_loop t (bucket (TockTable K) t) K1) as [l K'].
  destruct Hu as (U1 & U2 & U3 & U4 & U5 & U6 & U7 & U8).
  { rewrite HT1. unfold zlen. by rewrite length_insert. }
  { by apply NoDup_app in Hnd as (Hnd & _). }
  { intros a Ha. apply (s_loaded _ _ _ _ Hw a), Hload, Ha. }
  assert (l ++ mjoin (TockTable K') ≡ₚ mjoin (TockTable K)) as Hperm.
  { rewrite U2, U1, app_assoc, filter_split. rewrite HT1. exact Hj. }
  assert (forall a, a ∈ l <-> loaded K a /\ i_TOD (item K a) = t) as Hl.
  { intros a. rewrite U1, list_elem_of_filter. split; [by intros [H1 H2]; split; [apply Hload|]|].
    intros [H1 H2]. split; [done|]. apply elem_buckets in H1 as (n & Hn & Ha).
    pose proof (s_turn _ _ _ _ Hw n a ltac:(lia) Ha) as Hturn. rewrite H2 in Hturn.
    pose proof (ahead_tick now t (s_now _ _ _ _ Hw) Ht) as H0. rewrite decide_True in H0 by done.
    pose proof (ahead_tick now n (s_now _ _ _ _ Hw) ltac:(lia)) as H3. case_decide; [by subst n|lia]. }
  assert (NoDup (l ++ mjoin (TockTable K'))) as Hnd2.
  { rewrite Hperm. by apply NoDup_app in Hnd as _; pose proof (s_links _ _ _ _ Hw) as [H _]%NoDup_app. }
  assert (forall a, loaded K' a <-> loaded K a /\ i_TOD (item K a) <> t) as Hl'.
  { intros a. unfold loaded at 1. apply NoDup_app in Hnd2 as (_ & Hdis & _). split.
    - intros Ha. assert (loaded K a) as HKa by (unfold loaded; rewrite <- Hperm; apply elem_of_app; by right).
      split; [done|]. intros Heq. apply (Hdis a); [by apply Hl|done].
    - intros [Ha Hne]. unfold loaded in Ha. rewrite <- Hperm in Ha. apply elem_of_app in Ha as [Ha|Ha]; [|done].
      by apply Hl in Ha as [_ ?]. }
  assert (forall a, loaded K' a -> item K' a = item K a) as Hsame.
  { intros a Ha. rewrite U5, decide_False; [done|]. intros H. apply Hl in H as [_ H]. by apply Hl' in Ha as [_ ?]. }
  split; [|done]. destruct Hw as [W1 W2 W3 W4 W5 W6 W7 W8 W9 W10 W11 W12]. split; try done.
  - by rewrite (Permutation_app_comm l P), app_assoc, (Permutation_app_comm _ P), <- app_assoc,
      (Permutation_app_comm _ l), Hperm, Permutation_app_comm.
  - by rewrite U6.
  - intros a. rewrite (Permutation_app_comm l P), app_assoc, (Permutation_app_comm _ P), <- app_assoc,
      (Permutation_app_comm _ l), Hperm, Permutation_app_comm. apply W6.
  - intros a Ha. rewrite Hsame by done. apply W7. by apply Hl' in Ha as [? _].
  - intros a Ha. rewrite U5. case_decide as Hd; [done|]. apply W8. intros HK. apply Ha, Hl'. split; [done|].
    intros Heq. by apply Hd, Hl.
  - intros a. rewrite U6, U7. apply W9.
  - intros a b Ha Hb. rewrite !Hsame by done. apply W10; [by apply Hl' in Ha as [? _]|by apply Hl' in Hb as [? _]].
  - intros n a Hn Ha. assert (loaded K' a) as HKa by (apply elem_buckets; exists n; split; [lia|done]).
    rewrite Hsame by done. apply U4 in Ha as [Ha|(Ha & Hne & Heq)]; [|by rewrite Heq|done].
    rewrite HT1, bucket_insert in Ha by (done || lia). case_decide as Hc; [by apply elem_of_nil in Ha|].
    pose proof (W11 n a Hn Ha) as Hturn. pose proof (ahead_tick now n W1 Hn) as Hn'. rewrite decide_False in Hn' by done.
    apply Hl' in HKa as [HKa Hne]. destruct (W7 a HKa) as (_ & _ & Hr & _).
    pose proof (ahead_tick now _ W1 Hr) as Ha'. rewrite decide_False in Ha' by done. fold t in Hn', Ha'. lia.
  - rewrite U6, U7, U8. done.
Qed.

(** Taking one item off the clock's lists; an item refreshed since its list was
    last visited is in another list than its window says, and stays. *)
Lemma unload_item_wf now P K N a : store_wf now P K N -> loaded K a ->
  let '(ok, K') := Unload_item a K in
  if ok then store_wf now (a :: P) K' N /\ (forall b, loaded K' b <-> loaded K b /\ b <> a) /\
    forall b, item K' b = if decide (b = a) then unload_item (item K a) else item K b
  else K' = K /\ a ∉ bucket (TockTable K) (i_TOD (item K a)).
Proof.
  intros Hw Ha. destruct (s_loaded _ _ _ _ Hw a Ha) as (_ & _ & Hr & _).
  unfold Unload_item. rewrite land_63, Z.mod_small by done. set (t := i_TOD (item K a)) in *.
  change (tock (TockTable K) t) with (bucket (TockTable K) t).
  pose proof (unlink_spec a (bucket (TockTable K) t)) as Hu. destruct (unlink a _) as [l|]; [|done].
  pose proof (s_tocks _ _ _ _ Hw) as Hlen. assert (0 <= t < zlen (TockTable K)) as Htl by lia.
  pose proof (join_insert (TockTable K) t l Htl) as Hj. rewrite Hu in Hj.
  set (K' := upd_item _ _ _).
  assert (TockTable K' = <[Z.to_nat t := l]> (TockTable K)) as HT by done.
  assert (a :: mjoin (TockTable K') ≡ₚ mjoin (TockTable K)) as Hperm.
  { rewrite HT. apply (Permutation_app_inv_l l). rewrite <- Hj. solve_Permutation. }
  assert (NoDup (a :: mjoin (TockTable K'))) as Hnd.
  { rewrite Hperm. by pose proof (s_links _ _ _ _ Hw) as [H _]%NoDup_app. }
  apply NoDup_cons in Hnd as [Hna Hnd].
  assert (forall b, loaded K' b <-> loaded K b /\ b <> a) as Hl.
  { intros b. unfold loaded. rewrite <- Hperm, elem_of_cons. split; [|naive_solver].
    intros Hb. split; [by right|]. by intros ->. }
  assert (forall b, item K' b = if decide (b = a) then unload_item (item K a) else item K b) as Hi.
  { intros b. unfold K'. by rewrite item_upd. }
  split; [|done]. destruct Hw as [W1 W2 W3 W4 W5 W6 W7 W8 W9 W10 W11 W12]. split; try done.
  - rewrite HT. unfold zlen. by rewrite length_insert.
  - by rewrite <- Permutation_middle, app_comm_cons, Hperm.
  - intros b. rewrite <- Permutation_middle, app_comm_cons, Hperm. apply W6.
  - intros b [Hb Hne]%Hl. rewrite Hi, decide_False by done. auto.
  - intros b Hb. rewrite Hi. case_decide as Hd; [done|]. apply W8. intros H. by apply Hb, Hl.
  - intros b c [Hb Hb']%Hl [Hc Hc']%Hl. rewrite !Hi, !decide_False by done. auto.
  - intros n b Hn Hb. assert (loaded K' b) as [Hlb Hne]%Hl by (apply elem_buckets; exists n; split; [rewrite HT; unfold zlen in *; rewrite length_insert; lia|done]).
    rewrite Hi, decide_False by done. apply W11; [done|]. rewrite HT, bucket_insert in Hb by (done || lia).
    case_decide as Hd; [|done]. subst n. rewrite Hu. by right.
Qed.

(** The scrubber returns an unloaded item to the free list if it is in the chain
    of its saved hash; a table that grew meanwhile has moved it to the first chain. *)
Lemma recycle_wf now P K N a : store_wf now (a :: P) K N ->
  let '(ok, K', N') := Nash_Recycle a K N in
  store_wf now P K' N' /\ (forall b, loaded K' b <-> loaded K b) /\
  (if ok then (forall b, item K' b = if decide (b = a) then
      MkItem (Loc (item K a)) [] 0 (i_TOD (item K a)) (u8 (i_Ref (item K a) + 1)) else item K b) /\
    Free K' = a :: Free K
   else K' = K /\ N' = N /\ a ∉ chain N (u32 (deadline (Loc (item K a))))).
Proof.
  intros Hw. unfold Nash_Recycle. set (h := u32 _).
  pose proof (unlink_spec a (chain N h)) as Hu. destruct (unlink a (chain N h)) as [l|].
  2:{ split; [|done]. destruct Hw as [W1 W2 W3 W4 W5 W6 W7 W8 W9 W10 W11 W12]. split; try done.
      - rewrite <- Permutation_middle in W4. by apply NoDup_cons in W4 as [_ W4].
      - intros b Hb. apply W6. rewrite elem_of_app in *. rewrite elem_of_cons. tauto. }
  set (N' := MkNash _ _ _ _ _). set (K' := Item_Recycle a K).
  pose proof (s_size _ _ _ _ Hw) as (Hs1 & Hs2 & Hs3).
  assert (0 <= h mod nashtablesize N < zlen (nashtable N)) as Hr by (rewrite Hs3; by apply Z.mod_pos_bound).
  rewrite chain_bucket in Hu. pose proof (join_insert (nashtable N) _ l Hr) as Hj. rewrite Hu in Hj.
  assert (a :: mjoin (nashtable N') ≡ₚ mjoin (nashtable N)) as Hperm.
  { apply (Permutation_app_inv_l l). rewrite <- Hj. cbn [N' nashtable]. solve_Permutation. }
  assert (forall b, item K' b = if decide (b = a) then
      MkItem (Loc (item K a)) [] 0 (i_TOD (item K a)) (u8 (i_Ref (item K a) + 1)) else item K b) as Hi.
  { intros b. change (item K' b) with (item (upd_item a (fun i => MkItem (Loc i) [] 0 (i_TOD i) (u8 (i_Ref i + 1))) K) b).
    by rewrite item_upd. }
  assert (~ loaded K a) as Hna.
  { intros Ha. pose proof (s_links _ _ _ _ Hw) as (_ & Hd & _)%NoDup_app. apply (Hd a Ha). left. }
  split; [|done]. destruct Hw as [W1 W2 W3 W4 W5 W6 W7 W8 W9 W10 W11 W12].
  rewrite <- Permutation_middle in W4. apply NoDup_cons in W4 as [W4a W4].
  assert (forall b, loaded K b -> item K' b = item K b) as Hsame.
  { intros b Hb. rewrite Hi, decide_False; [done|]. by intros ->. }
  split; try done.
  - cbn [N' nashtable nashtablesize prevtablesize]. unfold zlen in *. by rewrite length_insert.
  - change (Free K') with (a :: Free K). by rewrite <- Permutation_middle, app_comm_cons, Hperm.
  - intros b Hb. assert (b ∈ mjoin (nashtable N)) as Hb'.
    { apply W6. rewrite elem_of_app in *. rewrite elem_of_cons. tauto. }
    rewrite <- Hperm in Hb'. apply elem_of_cons in Hb' as [->|?]; [done|done].
  - intros b Hb. rewrite Hsame by done. destruct (W7 b Hb) as (V1 & V2 & V3 & V4). split_and!; try done; try lia.
    rewrite chain_bucket in V4 |- *. cbn [N' nashtable nashtablesize].
    rewrite bucket_insert by (done || apply Z.mod_pos_bound; lia). case_decide as Hd; [|done].
    rewrite Hd, Hu in V4. apply elem_of_cons in V4 as [->|?]; done.
  - intros b Hb. rewrite Hi. case_decide; [done|]. by apply W8.
  - intros b. change (Free K') with (a :: Free K). rewrite <- Permutation_middle, app_comm_cons, Hperm. apply W9.
  - intros b c Hb Hc. rewrite !Hsame by done. by apply W10.
  - intros n b Hn Hb. rewrite Hsame; [by apply W11|]. apply elem_buckets. exists n.
    change (TockTable K') with (TockTable K) in Hb. split; [lia|done].
  - destruct W12 as (H1 & H2 & H3). split; [done|]. split.
    + cbn [K' Item_Recycle numFree Free]. rewrite zlen_cons. unfold upd_item. cbn. lia.
    + cbn [N' nashnum]. rewrite H3. unfold zlen. rewrite <- Hperm. cbn [length]. lia.
Qed.

(** An item that is handed out. *)
Definition alloc_item (now : Z) (i : XrdCmsKeyItem) : XrdCmsKeyItem :=
  let l := Loc i in
  MkItem (MkLoc (hfvec l) (pfvec l) (qfvec l) (TOD_B l) (lifeline l) (deadline l) 0 0)
    (i_Val i) (i_Hash i) now (if i_Ref i =? 0 then 1 else u8 (i_Ref i + 1)).

Lemma alloc_ok now K : 0 <= now < 64 -> 0 <= numHave K -> numFree K = zlen (Free K) ->
  exists hip K1 fresh, Alloc now K = Some (hip, K1) /\ fresh ++ Free K = hip :: Free K1 /\ NoDup fresh /\
    (forall a, a ∈ fresh -> numHave K <= a < numHave K1) /\ numHave K <= numHave K1 /\ numFree K1 = zlen (Free K1) /\
    TockTable K1 = tock_push now hip (TockTable K) /\
    forall b, item K1 b = if decide (b = hip) then alloc_item now (item K b) else item K b.
Proof.
  intros Hn Hh Hf.
  assert (forall K hip free, Free K = hip :: free -> numFree K = zlen (Free K) ->
    exists K1, Alloc_take now K = Some (hip, K1) /\ Free K1 = free /\ numHave K1 = numHave K /\
      numFree K1 = zlen free /\ TockTable K1 = tock_push now hip (TockTable K) /\
      forall b, item K1 b = if decide (b = hip) then alloc_item now (item K b) else item K b) as Htake.
  { clear - Hn. intros K hip free HF Hf. unfold Alloc_take. rewrite HF, land_63, Z.mod_small by done.
    eexists. split; [reflexivity|]. cbn [upd_item Free numHave numFree TockTable]. split_and!; try done.
    - rewrite Hf, HF, zlen_cons. lia.
    - intros b. rewrite item_upd. by case_decide as Hd; [rewrite Hd|]. }
  unfold Alloc. destruct (Free K) as [|hip free] eqn:HF.
  - assert (Alloc_take now K = None) as -> by (unfold Alloc_take; by rewrite HF).
    set (K0 := (Replenish _).2).
    assert (Free K0 = rev (seqZ (numHave K) minAlloc)) as HF0.
    { unfold K0, Replenish. cbn [snd Free]. apply app_nil_r. }
    assert (NoDup (rev (seqZ (numHave K) minAlloc))) as Hnd by (rewrite <- Permutation_rev; apply NoDup_seqZ).
    assert (zlen (rev (seqZ (numHave K) minAlloc)) = minAlloc) as Hlen.
    { unfold zlen. rewrite length_rev, length_seqZ. done. }
    assert (forall a, a ∈ rev (seqZ (numHave K) minAlloc) -> numHave K <= a < numHave K + minAlloc) as Hin.
    { intros a. rewrite <- Permutation_rev, elem_of_seqZ. done. }
    revert HF0 Hnd Hlen Hin. generalize (rev (seqZ (numHave K) minAlloc)). intros fresh HF0 Hnd Hlen Hin.
    destruct fresh as [|hip fresh]; [done|].
    destruct (Htake K0 hip fresh HF0) as (K1 & HK & H1 & H2 & H3 & H4 & H5).
    { rewrite HF0, Hlen. cbn [K0 Replenish snd numFree]. rewrite Hf, zlen_nil. done. }
    exists hip, K1, (hip :: fresh). rewrite HK, app_nil_r, H1, H3. split_and!; try done.
    + rewrite H2. exact Hin.
    + rewrite H2. cbn [K0 Replenish snd numHave]. unfold minAlloc. lia.
  - destruct (Htake K hip free HF) as (K1 & HK & H1 & H2 & H3 & H4 & H5); [congruence|].
    exists hip, K1, []. rewrite HK, H1, H2, H3. split_and!; try done; [constructor|by intros ? ?%elem_of_nil].
Qed.

Lemma rehash_ok K newsize l tab : 0 < newsize -> zlen tab = newsize ->
  let t' := foldl (rehash K newsize) tab l in
  mjoin t' ≡ₚ l ++ mjoin tab /\ zlen t' = newsize /\
  forall n a, 0 <= n < newsize ->
    a ∈ bucket t' n <-> a ∈ bucket tab n \/ (a ∈ l /\ i_Hash (item K a) mod newsize = n).
Proof.
  intros Hs. revert tab. induction l as [|p l IH]; intros tab Hl; cbn [foldl].
  { split_and!; try done. intros n a Hn. split; [by left|]. intros [?|[?%elem_of_nil _]]; done. }
  pose proof (Z.mod_pos_bound (i_Hash (item K p)) newsize Hs) as Hp.
  destruct (IH (rehash K newsize tab p)) as (H1 & H2 & H3); [unfold rehash; by rewrite zlen_push|].
  unfold rehash in H1, H3. rewrite join_push in H1 by lia. split; [by rewrite H1, <- Permutation_middle|].
  split; [done|]. intros n a Hn. rewrite H3 by done. rewrite bucket_push by lia. rewrite elem_of_cons.
  case_decide as Hd; [subst n; rewrite elem_of_cons|]; naive_solver.
Qed.

Definition sized (N : XrdCmsNash) : Prop :=
  0 < nashtablesize N /\ 0 <= prevtablesize N /\ zlen (nashtable N) = nashtablesize N.

Lemma expand_ok N K1 : sized N -> let N' := Expand K1 N in
  0 < nashtablesize N' /\ 0 <= prevtablesize N' /\ zlen (nashtable N') = nashtablesize N' /\
  mjoin (nashtable N') ≡ₚ mjoin (nashtable N) /\
  (forall a, a ∈ mjoin (nashtable N) -> a ∈ chain N' (i_Hash (item K1 a))) /\
  (forall n a, 0 <= n < nashtablesize N' -> a ∈ bucket (nashtable N') n -> i_Hash (item K1 a) mod nashtablesize N' = n).
Proof.
  intros (H1 & H2 & H3) N'.
  destruct (rehash_ok K1 (prevtablesize N + nashtablesize N) (mjoin (nashtable N))
    (replicate (Z.to_nat (prevtablesize N + nashtablesize N)) [])) as (R1 & R2 & R3); [lia|unfold zlen; rewrite length_replicate; lia|].
  cbn [N' Expand nashtable nashtablesize prevtablesize]. split; [lia|]. split; [lia|]. split; [done|].
  rewrite R1, join_empty, app_nil_r. split; [done|]. split.
  - intros a Ha. rewrite chain_bucket. cbn [Expand nashtable nashtablesize].
    apply R3; [by apply Z.mod_pos_bound; lia|]. by right.
  - intros n a Hn Ha. apply R3 in Ha as [Ha|[_ Ha]]; [|done|done]. rewrite bucket_empty in Ha. by apply elem_of_nil in Ha.
Qed.

(** The item of a new key. *)
Definition added (k : XrdCmsKey) (now : Z) (i : XrdCmsKeyItem) : XrdCmsKeyItem :=
  let i := alloc_item now i in MkItem (Loc i) (Val k) (hash_of (Val k)) (i_TOD i) (i_Ref i).

(** [Add] of a key that no item has. *)
Lemma add_wf now P K N k : store_wf now P K N -> key_ok k -> TOD k = now ->
  (forall a, loaded K a -> i_Val (item K a) <> Val k) ->
  exists hip k' K' N', Nash_Add k K N = Ok (Some hip, k', K', N') /\ store_wf now P K' N' /\
    ~ loaded K hip /\ (forall b, loaded K' b <-> b = hip \/ loaded K b) /\ (hip ∉ P) /\
    (forall b, item K' b = if decide (b = hip) then added k now (item K hip) else item K b) /\
    key_ok k' /\ Hash k' = hash_of (Val k) /\ Val k' = Val k /\ TOD k' = TOD k /\ Ref k' = Ref k /\ TODRef k' = TODRef k.
Proof.
  intros Hw Hk Ht Hnew. pose proof (s_now _ _ _ _ Hw) as Hnow.
  destruct (s_have _ _ _ _ Hw) as (Hh1 & Hh2 & Hh3).
  destruct (alloc_ok now K Hnow Hh1 Hh2) as (hip & K1 & fresh & HA & A1 & A2 & A3 & A4 & A5 & A6 & A7).
  destruct (hashed_ok k Hk) as (k' & Hh & Hk' & Hhash & Hval & H1 & H2 & H3).
  unfold Nash_Add. rewrite Ht, HA. cbn [Threshold nashnum]. set (N1 := MkNash _ _ _ _ _).
  assert (mjoin (nashtable N) ++ hip :: Free K1 ≡ₚ fresh ++ mjoin (nashtable N) ++ Free K) as Hlinks.
  { rewrite <- A1. solve_Permutation. }
  assert (NoDup (mjoin (nashtable N) ++ hip :: Free K1)) as Hnd.
  { rewrite Hlinks. apply NoDup_app. split; [done|]. split; [|by apply (s_next _ _ _ _ Hw)].
    intros a Ha Hb. apply A3 in Ha. apply (s_range _ _ _ _ Hw) in Hb. lia. }
  set (N2 := if _ <? _ then _ else N1).
  assert (sized N2 /\ mjoin (nashtable N2) ≡ₚ mjoin (nashtable N) /\ nashnum N2 = nashnum N + 1 /\
    forall a, loaded K a -> a <> hip -> a ∈ chain N2 (i_Hash (item K a))) as (E1 & E2 & E3 & E4).
  { pose proof (s_size _ _ _ _ Hw) as Hs. unfold N2. destruct (_ <? _).
    - destruct (expand_ok N1 K1 Hs) as (X1 & X2 & X3 & X4 & X5 & _). split_and!; try done.
      intros a Ha Hne. specialize (X5 a). rewrite A7, decide_False in X5 by done. apply X5.
      apply (s_chained _ _ _ _ Hw). apply elem_of_app. by left.
    - split_and!; try done. intros a Ha _. apply (s_loaded _ _ _ _ Hw a Ha). }
  clearbody N2. rewrite Hh. step_ok.
  eexists hip, k', _, _. split; [reflexivity|].
  set (K' := upd_item hip _ K1). set (N' := MkNash _ _ _ _ _).
  destruct E1 as (S1 & S2 & S3).
  assert (0 <= Hash k' mod nashtablesize N2 < zlen (nashtable N2)) as Hr by (rewrite S3; by apply Z.mod_pos_bound).
  assert (mjoin (nashtable N') ≡ₚ hip :: mjoin (nashtable N)) as Htab.
  { cbn [N' nashtable]. by rewrite join_push, E2. }
  assert (TockTable K' = tock_push now hip (TockTable K)) as HT by done.
  pose proof (s_tocks _ _ _ _ Hw) as Htk.
  assert (mjoin (TockTable K') ≡ₚ hip :: mjoin (TockTable K)) as Htj.
  { rewrite HT. unfold tock_push. apply join_push. lia. }
  assert (hip ∉ mjoin (nashtable N)) as Hfree.
  { rewrite <- Permutation_middle in Hnd. apply NoDup_cons in Hnd as [Hnd _]. intros Ha. apply Hnd, elem_of_app. by left. }
  assert (hip ∉ mjoin (TockTable K) ++ P) as Hnl by (intros Ha; by apply Hfree, (s_chained _ _ _ _ Hw)).
  assert (~ loaded K hip) as Hnl1 by (intros Ha; apply Hnl, elem_of_app; by left).
  assert (forall b, loaded K' b <-> b = hip \/ loaded K b) as Hl.
  { intros b. unfold loaded. by rewrite Htj, elem_of_cons. }
  assert (forall b, item K' b = if decide (b = hip) then added k now (item K hip) else item K b) as Hi.
  { intros b. unfold K'. rewrite item_upd. case_decide as Hd; [|by rewrite A7, decide_False].
    rewrite A7, decide_True by done. rewrite Hhash, Hval. done. }
  split; cycle 1.
  { do 2 (split; [done|]). split; [intros Ha; apply Hnl, elem_of_app; by right|].
    repeat (split; [done || congruence|]). congruence. }
  destruct Hw as [W1 W2 W3 W4 W5 W6 W7 W8 W9 W10 W11 W12]. split; try done.
  - rewrite HT. unfold tock_push. by rewrite zlen_push.
  - split_and!; try done. cbn [N' nashtable nashtablesize]. by rewrite zlen_push.
  - rewrite Htj. cbn [app]. by apply NoDup_cons.
  - rewrite Htab. cbn [app]. change (Free K') with (Free K1). by rewrite Permutation_middle.
  - intros b Hb. rewrite Htab. rewrite Htj in Hb. cbn [app] in Hb. apply elem_of_cons in Hb as [->|Hb]; [left|right; auto].
  - intros b Hb. rewrite Hi. apply Hl in Hb. case_decide as Hd.
    + subst b. cbn [added alloc_item i_Val i_Hash i_TOD]. split_and!; try done; try lia; [by apply k_bytes|].
      rewrite chain_bucket. cbn [N' nashtable nashtablesize]. rewrite Hhash in *. rewrite bucket_push by lia.
      rewrite decide_True by done. left.
    + destruct Hb as [?|Hb]; [done|]. destruct (W7 b Hb) as (V1 & V2 & V3 & _). split_and!; try done; try lia.
      pose proof (E4 b Hb Hd) as V4. rewrite chain_bucket in V4 |- *. cbn [N' nashtable nashtablesize].
      rewrite bucket_push by (done || apply Z.mod_pos_bound; lia). case_decide as Hx; [|done].
      rewrite Hx in V4. by right.
  - intros b Hb. rewrite Hi. case_decide as Hd; [destruct Hb; apply Hl; by left|].
    apply W8. intros H. apply Hb, Hl. by right.
  - intros b Hb. change (Free K') with (Free K1) in Hb. rewrite Htab in Hb. cbn [app] in Hb.
    change (numHave K') with (numHave K1). rewrite Permutation_middle, Hlinks in Hb.
    apply elem_of_app in Hb as [Hb%A3|Hb%W9]; lia.
  - intros b c Hb Hc. rewrite !Hi. apply Hl in Hb, Hc. intros Heq.
    case_decide; case_decide; subst; try done.
    + destruct Hc as [?|Hc]; [done|]. by destruct (Hnew c Hc).
    + destruct Hb as [?|Hb]; [done|]. by destruct (Hnew b Hb).
    + destruct Hb as [?|Hb]; [done|]. destruct Hc as [?|Hc]; [done|]. by apply W10.
  - intros t b Htt Hb. rewrite HT in Hb. unfold tock_push in Hb. rewrite bucket_push in Hb by lia.
    rewrite Hi. destruct (decide (b = hip)) as [Hd|Hd].
    + change (i_TOD (added k now (item K hip))) with now. rewrite ahead_self. pose proof (ahead_range now t). clear Hb. lia.
    + apply W11; [done|]. case_decide as Hd2; [|done]. subst t. by apply elem_of_cons in Hb as [->|Hb].
  - change (Free K') with (Free K1). change (numHave K') with (numHave K1). change (numFree K') with (numFree K1).
    split; [lia|]. split; [done|]. cbn [N' nashnum]. rewrite E3, Hh3. unfold zlen. rewrite Htab. cbn [length]. lia.
Qed.

(** No item is in use yet. *)
Lemma empty_wf psize csize K : 0 <= psize -> 0 < csize -> TockTable K = replicate 64 [] ->
  NoDup (Free K) -> (forall a, a ∈ Free K -> 0 <= a < numHave K) -> 0 <= numHave K -> numFree K = zlen (Free K) ->
  (forall a, i_Hash (item K a) = 0) -> store_wf 0 [] K (XrdCmsNash_new psize csize).
Proof.
  intros Hp Hc HK Hd Hr Hh Hf H0. assert (mjoin (TockTable K) = []) as HT by (rewrite HK; apply join_empty).
  assert (mjoin (nashtable (XrdCmsNash_new psize csize)) = []) as HN by apply join_empty.
  assert (forall a, ~ loaded K a) as Hl by (intros a; unfold loaded; rewrite HT; apply not_elem_of_nil).
  split; rewrite ?HT, ?HN; try done; cbn [app].
  - by rewrite HK.
  - split_and!; try done. cbn. unfold zlen. rewrite length_replicate. lia.
  - constructor.
  - intros a Ha. by destruct (Hl a).
  - intros a b Ha. by destruct (Hl a).
  - intros t a _ Ha. rewrite HK in Ha. rewrite bucket_empty in Ha. by apply elem_of_nil in Ha.
Qed.

(** The items that wait may be listed in any order. *)
Lemma wf_perm now P P' K N : P ≡ₚ P' -> store_wf now P K N -> store_wf now P' K N.
Proof.
  intros HP Hw. destruct Hw as [W1 W2 W3 W4 W5 W6 W7 W8 W9 W10 W11 W12]. split; try done.
  - by rewrite <- HP.
  - intros a. rewrite <- HP. apply W6.
Qed.

Lemma replenish_wf now P K N : store_wf now P K N -> store_wf now P (Replenish K).2 N.
Proof.
  intros Hw. destruct Hw as [W1 W2 W3 W4 W5 W6 W7 W8 W9 W10 W11 (H1 & H2 & H3)].
  assert (forall a, a ∈ rev (seqZ (numHave K) minAlloc) -> numHave K <= a < numHave K + minAlloc) as Hin.
  { intros a. rewrite <- Permutation_rev, elem_of_seqZ. done. }
  cbn [Replenish snd]. split; try done; cbn [Free numHave numFree].
  - rewrite (Permutation_app_comm (rev _)), app_assoc. apply NoDup_app. split; [done|]. split.
    + intros a Ha Hb. apply W9 in Ha. apply Hin in Hb. lia.
    + rewrite <- Permutation_rev. apply NoDup_seqZ.
  - intros a. rewrite (Permutation_app_comm (rev _)), app_assoc. unfold minAlloc in *. intros [Ha|Ha]%elem_of_app; [apply W9 in Ha|apply Hin in Ha]; lia.
  - unfold minAlloc in *. split; [lia|]. split; [|done]. rewrite zlen_app. unfold zlen at 1. rewrite length_rev, length_seqZ. lia.
Qed.

(** ** Growing between unloading and recycling *)

(** The items that wait for the scrubber have lost their hashes: a table that
    grows moves them to its first chain, and the scrubber, which looks in the
    chain of the saved hash, only recycles those whose saved hash leads there. *)
Lemma expand_strands now P K N a : store_wf now P K N -> a ∈ P ->
  (Nash_Recycle a K (Expand K N)).1.1 = true ->
  u32 (HashSave (Loc (item K a))) mod nashtablesize (Expand K N) = 0.
Proof.
  intros Hw Ha. destruct (expand_ok N K (s_size _ _ _ _ Hw)) as (X1 & X2 & X3 & X4 & X5 & X6).
  assert (i_Hash (item K a) = 0) as H0.
  { apply (s_unloaded _ _ _ _ Hw). intros Hl. by pose proof (s_links _ _ _ _ Hw) as (_ & Hd & _)%NoDup_app; apply (Hd a). }
  unfold Nash_Recycle. set (h := u32 _). pose proof (unlink_spec a (chain (Expand K N) h)) as Hu.
  destruct (unlink a _) as [l|]; [|done]. intros _.
  assert (a ∈ chain (Expand K N) h) as Hc by (rewrite Hu; left). rewrite chain_bucket in Hc.
  apply X6 in Hc; [by rewrite H0, Z.mod_0_l in Hc by lia|]. by apply Z.mod_pos_bound.
Qed.

(** Two paths in a table of two chains: the first is unloaded, the second makes
    the table grow, and the first is not recycled any more. *)
Definition grow_sample : res bool :=
  '(a, _, K, N) ← Nash_Add (XrdCmsKey_new [47; 102] 0) Keys_new (XrdCmsNash_new 1 2);
  let '(_, K) := Unload 0 K in
  '(_, _, K, N) ← Nash_Add (MkKey None [47; 98] 0 0 1 0) K N;
  Ok (Nash_Recycle (default 0 a) K N).1.1.

Example grown_table_strands : grow_sample = Ok false.
Proof. vm_compute. reflexivity. Qed.
