(* ===== verification/CmsCache.v ===== *)
(** * The cache of file locations

    Models src/src/XrdCms/XrdCmsCache.hh and XrdCmsCache.cc over the items and the
    hash table of [CmsKey], the queue of waiting requests of [CmsRRQ] and the path
    list of [CmsPList]. An entry keeps for a path the nodes that have the file
    ([hfvec]), that are staging it ([pfvec]) and that were not asked yet
    ([qfvec]); a node that comes back has [Bounced], and every entry that is older
    than that loses the node when it is looked up.

    Every routine that runs under the mutex is a function; [time(0)] is an
    argument. Masks of nodes are 64-bit words. The scrubber's job is the list of
    items that [TickTock] unloaded; it recycles them one by one. *)

From stdpp Require Import base tactics list_numbers numbers option gmap list.
From S2P Require Import Prelude CString OucCRC CmsPList CmsRRQ CmsKey.
#[local] Set Warnings "-clear-no-such-hyp".

(** ** Data *)

(** [XrdCmsSelect]: what the cache reads and writes of a selection. *)
Record XrdCmsSelect := MkSelect {
  Path : XrdCmsKey; InfoP : option RRQInfo; Opts : Z;
  Vec_wf : Z; Vec_hf : Z; Vec_pf : Z; Vec_bf : Z }.

Definition Write : Z := 0x00010.
Definition Advisory : Z := 0x40000.
Definition Pending : Z := 0x80000.
Definition ifWant : Z := 0x0000f.

Definition opt (f : Z) (Sel : XrdCmsSelect) : bool := negb (Z.land (Opts Sel) f =? 0).

Definition set_Path (k : XrdCmsKey) (s : XrdCmsSelect) : XrdCmsSelect :=
  MkSelect k (InfoP s) (Opts s) (Vec_wf s) (Vec_hf s) (Vec_pf s) (Vec_bf s).

(** A vector of bounced nodes that was computed at the clock [End]. *)
Record Bhist := MkBhist { Bh_Vec : Z; Bh_Start : Z; Bh_End : Z }.

(** [XrdCmsCache]; [Store] are the static tables of the items, [RRQ] the queue. *)
Record XrdCmsCache := MkCache {
  Paths : list XrdCmsPList; Store : Keys; CTable : XrdCmsNash; RRQ : XrdCmsRRQ;
  Bounced : list Z; Bhistory : list Bhist; okVec : Z; Tick : Z; Tock : Z; BClock : Z;
  nilTMO : Z; DLTime : Z; QDelay : Z; Bhits : Z; Bmiss : Z; vecHi : Z; isDFS : bool }.

Definition STMax : Z := 64.

(** The constructor; the table's sizes are those of [XrdCmsNash]. *)
Definition XrdCmsCache_new : XrdCmsCache :=
  MkCache [] Keys_new (XrdCmsNash_new 17711 28657) XrdCmsRRQ_new (replicate 64 0)
    (replicate 64 (MkBhist 0 0 0)) 0 (8 * 60 * 60) 0 0 0 5 5 0 0 (-1) false.

Definition put (K : Keys) (N : XrdCmsNash) (q : XrdCmsRRQ) (c : XrdCmsCache) : XrdCmsCache :=
  MkCache (Paths c) K N q (Bounced c) (Bhistory c) (okVec c) (Tick c) (Tock c) (BClock c)
    (nilTMO c) (DLTime c) (QDelay c) (Bhits c) (Bmiss c) (vecHi c) (isDFS c).

Definition set_RRQ (q : XrdCmsRRQ) (c : XrdCmsCache) : XrdCmsCache := put (Store c) (CTable c) q c.

(** The location of an item, and assignments to it. *)
Definition loc (c : XrdCmsCache) (iP : Z) : XrdCmsKeyLoc := Loc (item (Store c) iP).

Definition upd_loc (iP : Z) (f : XrdCmsKeyLoc -> XrdCmsKeyLoc) (c : XrdCmsCache) : XrdCmsCache :=
  put (upd_item iP (set_loc f) (Store c)) (CTable c) (RRQ c) c.

Definition set_vecs (hf pf qf : Z) (l : XrdCmsKeyLoc) : XrdCmsKeyLoc :=
  MkLoc hf pf qf (TOD_B l) (lifeline l) (deadline l) (roPend l) (rwPend l).
Definition set_times (life dead : Z) (l : XrdCmsKeyLoc) : XrdCmsKeyLoc :=
  MkLoc (hfvec l) (pfvec l) (qfvec l) (TOD_B l) life dead (roPend l) (rwPend l).
Definition set_TOD_B (b : Z) (l : XrdCmsKeyLoc) : XrdCmsKeyLoc :=
  MkLoc (hfvec l) (pfvec l) (qfvec l) b (lifeline l) (deadline l) (roPend l) (rwPend l).
Definition set_pend (ro rw : Z) (l : XrdCmsKeyLoc) : XrdCmsKeyLoc :=
  MkLoc (hfvec l) (pfvec l) (qfvec l) (TOD_B l) (lifeline l) (deadline l) ro rw.

(** The sum of two [int]s, which must not overflow. *)
Definition int_add (a b : Z) : res Z := if (- 2 ^ 31 <=? a + b) && (a + b <? 2 ^ 31) then Ok (a + b) else Fault.

(** ** The queue of waiting requests *)

(** [Add2Q( Info, iP, selOpts )]: the request with its key, and the cache. *)
Definition Add2Q (Info : RRQInfo) (iP : Z) (selOpts : Z) (c : XrdCmsCache) : res (RRQInfo * XrdCmsCache) :=
  let isrw := negb (Z.land selOpts Write =? 0) in
  let Slot := if isrw then rwPend (loc c iP) else roPend (loc c iP) in
  let Info := MkInfo (Some iP) (ID Info) (Rinst Info) (Rnum Info) isrw (isLU Info) (minR Info) (actR Info)
                (lsLU Info) (Z.land selOpts ifWant) (rwVec Info) in
  '(Slot, q) ← RRQ_Add Slot Info (RRQ c);
  let c := set_RRQ q c in
  Ok (if Slot =? 0 then (set_Key None Info, c)
      else if isrw then (Info, upd_loc iP (fun l => set_pend (roPend l) Slot l) c)
      else (Info, upd_loc iP (fun l => set_pend Slot (rwPend l) l) c)).

(** [if (Q && RRQ.Ready( Q, iP, mask1, mask2 )) iP->Loc.xxPend = 0] *)
Definition ready_ro (Q iP mask1 mask2 : Z) (c : XrdCmsCache) : res XrdCmsCache :=
  if Q =? 0 then Ok c
  else
    '(r, q) ← RRQ_Ready Q (Some iP) mask1 mask2 (RRQ c);
    Ok (if r =? 0 then set_RRQ q c else upd_loc iP (fun l => set_pend 0 (rwPend l) l) (set_RRQ q c)).

Definition ready_rw (Q iP mask1 mask2 : Z) (c : XrdCmsCache) : res XrdCmsCache :=
  if Q =? 0 then Ok c
  else
    '(r, q) ← RRQ_Ready Q (Some iP) mask1 mask2 (RRQ c);
    Ok (if r =? 0 then set_RRQ q c else upd_loc iP (fun l => set_pend (roPend l) 0 l) (set_RRQ q c)).

(** [Dispatch( Sel, iP, roQ, rwQ )] *)
Definition Dispatch (Sel : XrdCmsSelect) (iP roQ rwQ : Z) (c : XrdCmsCache) : res XrdCmsCache :=
  if isDFS c then
    c ← ready_ro roQ iP (Vec_hf Sel) (Z.land (Vec_pf Sel) (Vec_hf Sel)) c;
    if Vec_wf Sel =? 0 then Ok c
    else ready_rw rwQ iP (Vec_wf Sel) (Z.land (Vec_pf Sel) (Vec_wf Sel)) c
  else
    c ← ready_ro roQ iP (hfvec (loc c iP)) (pfvec (loc c iP)) c;
    ready_rw rwQ iP (hfvec (loc c iP)) (pfvec (loc c iP)) c.

(** ** Locations *)

(** The item the selection refers to, if it still is that item, or the one found. *)
Definition fast_find (k : XrdCmsKey) (K : Keys) (N : XrdCmsNash) : res (option Z * XrdCmsKey) :=
  let slow :=
    '(iP, k) ← Nash_Find k K N;
    Ok (iP, MkKey iP (Val k) (Hash k) (Len k) (TOD k)
              (match iP with Some a => i_Ref (item K a) | None => Ref k end)) in
  match TODRef k with
  | Some iP => if Equiv (item K iP) k then Ok (Some iP, k) else slow
  | None => slow
  end.

(** [AddFile( Sel, mask )] on an entry: a refresh, *)
Definition Add_refresh (now iP : Z) (c : XrdCmsCache) : res XrdCmsCache :=
  let deadline := i32 (QDelay c + now) in
  lifeline ← int_add (nilTMO c) deadline;
  Ok (put (upd_item iP (fun i =>
             MkItem (MkLoc 0 0 0 (BClock c) lifeline deadline (roPend (Loc i)) (rwPend (Loc i)))
               (i_Val i) (i_Hash i) (Tock c) (i_Ref i)) (Store c)) (CTable c) (RRQ c) c).

(** or the locations in the mask; *)
Definition Add_update (Sel : XrdCmsSelect) (mask iP : Z) (c : XrdCmsCache) : res (bool * XrdCmsCache) :=
  let isrw := opt Write Sel in
  let l := loc c iP in
  let xmask := pfvec l in
  let pf := if opt Pending Sel then Z.lor (pfvec l) mask else Z.land (pfvec l) (not64 mask) in
  let isnew := (hfvec l =? 0) || negb (pf =? xmask) in
  let c := upd_loc iP (set_vecs (Z.lor (hfvec l) mask) pf (Z.land (qfvec l) (not64 mask))) c in
  c ← (if isrw then
         let c := upd_loc iP (fun l => set_times (lifeline l) 0 l) c in
         if negb (roPend l =? 0) || negb (rwPend l =? 0) then Dispatch Sel iP (roPend l) (rwPend l) c else Ok c
       else
         let c := if rwPend l =? 0 then upd_loc iP (fun l => set_times (lifeline l) 0 l) c else c in
         if negb (roPend l =? 0) then Dispatch Sel iP (roPend l) 0 c else Ok c);
  Ok (isnew, c).

(** of a new entry. *)
Definition Add_new (now : Z) (Sel : XrdCmsSelect) (mask : Z) (c : XrdCmsCache)
  : res (bool * XrdCmsSelect * XrdCmsCache) :=
  let k := Path Sel in
  let k := MkKey (TODRef k) (Val k) (Hash k) (Len k) (Tock c) (Ref k) in
  '(iP, k, K, N) ← Nash_Add k (Store c) (CTable c);
  let c := put K N (RRQ c) c in
  match iP with
  | None => Ok (false, set_Path k Sel, c)
  | Some iP =>
      let pf := if opt Pending Sel then mask else 0 in
      let deadline := i32 (QDelay c + now) in
      lifeline ← int_add (nilTMO c) deadline;
      Ok (true, set_Path (MkKey (Some iP) (Val k) (Hash k) (Len k) (TOD k) (i_Ref (item K iP))) Sel,
          upd_loc iP (fun l => MkLoc mask pf 0 (BClock c) lifeline deadline (roPend l) (rwPend l)) c)
  end.

(** [AddFile( Sel, mask )] *)
Definition AddFile (now : Z) (Sel : XrdCmsSelect) (mask : Z) (c : XrdCmsCache)
  : res (bool * XrdCmsSelect * XrdCmsCache) :=
  '(iP, k) ← fast_find (Path Sel) (Store c) (CTable c);
  let Sel := set_Path k Sel in
  match iP with
  | Some iP =>
      if mask =? 0 then c ← Add_refresh now iP c; Ok (false, Sel, c)
      else '(isnew, c) ← Add_update Sel mask iP c; Ok (isnew, Sel, c)
  | None => if opt Advisory Sel then Ok (false, Sel, c) else Add_new now Sel mask c
  end.

(** [DelFile( Sel, mask )] *)
Definition DelFile (now : Z) (Sel : XrdCmsSelect) (mask : Z) (c : XrdCmsCache)
  : res (bool * XrdCmsSelect * XrdCmsCache) :=
  '(iP, k) ← Nash_Find (Path Sel) (Store c) (CTable c);
  let Sel := set_Path k Sel in
  match iP with
  | None => Ok (false, Sel, c)
  | Some iP =>
      let l := loc c iP in
      let c := upd_loc iP (set_vecs (Z.land (hfvec l) (not64 mask)) (Z.land (pfvec l) (not64 mask)) (qfvec l)) c in
      if negb (hfvec (loc c iP) =? 0) then Ok (false, Sel, c)
      else
        let c := if nilTMO c =? 0 then c
                 else upd_loc iP (fun l => set_times (i32 (nilTMO c + now)) (deadline l) l) c in
        if opt Advisory Sel then Ok (true, Sel, c)
        else
          let '(ok, K) := Unload_item iP (Store c) in
          if ok then
            let '(_, K, N) := Nash_Recycle iP K (CTable c) in Ok (true, Sel, put K N (RRQ c) c)
          else Ok (true, Sel, put K (CTable c) (RRQ c) c)
  end.

(** ** Bounced nodes *)

(** [for (i = 0; i <= vecHi; i++) if (TODb < Bounced[i]) BVec |= 1ULL << i] *)
Fixpoint bvec_loop (n : nat) (TODb : Z) (b : list Z) (i BVec : Z) : res Z :=
  match n with
  | O => Ok BVec
  | S n =>
      match b with
      | [] => Fault
      | x :: b => bvec_loop n TODb b (i + 1) (if TODb <? x then Z.lor BVec (Z.shiftl 1 i) else BVec)
      end
  end.

Definition set_hist (h : list Bhist) (hits miss : Z) (c : XrdCmsCache) : XrdCmsCache :=
  MkCache (Paths c) (Store c) (CTable c) (RRQ c) (Bounced c) h (okVec c) (Tick c) (Tock c) (BClock c)
    (nilTMO c) (DLTime c) (QDelay c) hits miss (vecHi c) (isDFS c).

(** [getBVec( TODa, TODb )]: the vector; [TODb] becomes [BClock]. *)
Definition getBVec (TODa TODb : Z) (c : XrdCmsCache) : res (Z * XrdCmsCache) :=
  match Bhistory c !! Z.to_nat TODa with
  | None => Fault
  | Some h =>
      if (Bh_End h =? BClock c) && (Bh_Start h <=? TODb)
      then Ok (Bh_Vec h, set_hist (Bhistory c) (i32 (Bhits c + 1)) (Bmiss c) c)
      else
        BVec ← bvec_loop (Z.to_nat (vecHi c + 1)) TODb (Bounced c) 0 0;
        Ok (BVec, set_hist (<[Z.to_nat TODa := MkBhist BVec TODb (BClock c)]> (Bhistory c))
                    (Bhits c) (i32 (Bmiss c + 1)) c)
  end.

(** The nodes that bounced since the item was current, of those in the mask. *)
Definition Get_bounced (mask iP : Z) (c : XrdCmsCache) : res (Z * XrdCmsCache) :=
  if TOD_B (loc c iP) <? BClock c then
    '(v, c) ← getBVec (i_TOD (item (Store c) iP)) (TOD_B (loc c iP)) c;
    Ok (Z.land v mask, upd_loc iP (set_TOD_B (BClock c)) c)
  else Ok (0, c).

(** They are taken from the item, or its deadline decides. *)
Definition Get_locations (now mask bVec iP : Z) (c : XrdCmsCache) : res (Z * XrdCmsCache) :=
  let l := loc c iP in
  if negb (bVec =? 0) then
    let c := upd_loc iP (set_vecs (Z.land (hfvec l) (not64 bVec)) (Z.land (pfvec l) (not64 bVec))
                           (Z.land (qfvec l) (not64 mask))) c in
    let deadline := i32 (QDelay c + now) in
    lifeline ← int_add (nilTMO c) deadline;
    Ok (-1, upd_loc iP (set_times lifeline deadline) c)
  else if negb (deadline l =? 0) then
    if now <? deadline l then Ok (-1, c)
    else Ok (1, upd_loc iP (set_times (lifeline l) 0) c)
  else Ok (1, c).

(** [GetFile( Sel, mask )]; the clock is read again for the second comparison. *)
Definition GetFile (now now2 : Z) (Sel : XrdCmsSelect) (mask : Z) (c : XrdCmsCache)
  : res (Z * XrdCmsSelect * XrdCmsCache) :=
  '(iP, k) ← Nash_Find (Path Sel) (Store c) (CTable c);
  match iP with
  | None => Ok (0, set_Path (MkKey None (Val k) (Hash k) (Len k) (TOD k) (Ref k)) Sel, c)
  | Some iP =>
      '(bVec, c) ← Get_bounced mask iP c;
      '(retc, c) ← Get_locations now mask bVec iP c;
      let l := loc c iP in
      let retc := if negb (nilTMO c =? 0) && (retc =? 1) && (hfvec l =? 0) && (lifeline l <=? now2) then 0 else retc in
      Ok (retc,
          MkSelect (MkKey (Some iP) (Val k) (Hash k) (Len k) (TOD k) (i_Ref (item (Store c) iP))) (InfoP Sel) (Opts Sel)
            (Vec_wf Sel) (Z.land (okVec c) (hfvec l)) (Z.land (okVec c) (pfvec l))
            (Z.land (okVec c) (Z.lor bVec (qfvec l))),
          upd_loc iP (set_vecs (hfvec l) (pfvec l) 0) c)
  end.

(** [UnkFile( Sel, mask )] *)
Definition UnkFile (Sel : XrdCmsSelect) (mask : Z) (c : XrdCmsCache) : bool * XrdCmsCache :=
  match TODRef (Path Sel) with
  | Some iP =>
      if Equiv (item (Store c) iP) (Path Sel)
      then (true, upd_loc iP (fun l => set_vecs (hfvec l) (pfvec l) mask l) c) else (false, c)
  | None => (false, c)
  end.

(** [WT4File( Sel, mask )] *)
Definition WT4File (now : Z) (Sel : XrdCmsSelect) (mask : Z) (c : XrdCmsCache)
  : res (Z * XrdCmsSelect * XrdCmsCache) :=
  match InfoP Sel with
  | None => Ok (DLTime c, Sel, c)
  | Some Info =>
      match TODRef (Path Sel) with
      | None => Ok (DLTime c, Sel, c)
      | Some iP =>
          if negb (Equiv (item (Store c) iP) (Path Sel)) then Ok (DLTime c, Sel, c)
          else if negb (hfvec (loc c iP) =? mask) then Ok (1, Sel, c)
          else
            let l := loc c iP in
            let c := if negb (deadline l =? 0) && (deadline l <=? now)
                     then upd_loc iP (set_times (lifeline l) (i32 (DLTime c + now))) c else c in
            '(Info, c) ← Add2Q Info iP (Opts Sel) c;
            Ok (0, MkSelect (Path Sel) (Some Info) (Opts Sel) (Vec_wf Sel) (Vec_hf Sel) (Vec_pf Sel) (Vec_bf Sel), c)
      end
  end.

(** ** Administration *)

(** [Bounce( smask, SNum )] *)
Definition Bounce (smask SNum : Z) (c : XrdCmsCache) : res XrdCmsCache :=
  if (0 <=? SNum) && (SNum <? STMax) then
    let BClock := u32 (BClock c + 1) in
    Ok (MkCache (Paths c) (Store c) (CTable c) (RRQ c) (<[Z.to_nat SNum := BClock]> (Bounced c)) (Bhistory c)
          (Z.lor (okVec c) smask) (Tick c) (Tock c) BClock (nilTMO c) (DLTime c) (QDelay c) (Bhits c) (Bmiss c)
          (if vecHi c <? SNum then SNum else vecHi c) (isDFS c))
  else Fault.

(** [Drop( smask, SNum, xHi )] *)
Definition Drop (smask SNum xHi : Z) (c : XrdCmsCache) : res XrdCmsCache :=
  if (0 <=? SNum) && (SNum <? STMax) then
    Ok (MkCache (PList_Remove smask (Paths c)) (Store c) (CTable c) (RRQ c) (<[Z.to_nat SNum := 0]> (Bounced c))
          (Bhistory c) (Z.land (okVec c) (not64 smask)) (Tick c) (Tock c) (BClock c) (nilTMO c) (DLTime c)
          (QDelay c) (Bhits c) (Bmiss c) xHi (isDFS c))
  else Fault.

Definition min_nxTime : Z := 60.

(** [Init( fxHold, fxDelay, fxQuery, seFS, nxHold )]; [started] tells whether the
    clock's thread could be started. *)
Definition Init (started : bool) (fxHold fxDelay fxQuery : Z) (seFS : bool) (nxHold : Z) (c : XrdCmsCache)
  : res (bool * XrdCmsCache) :=
  nil ← (if nxHold =? 0 then Ok (nilTMO c)
         else m ← int_add fxQuery min_nxTime; Ok (if nxHold <? m then m else nxHold));
  let Tick := u32 fxHold / TickRate in
  let c := MkCache (Paths c) (Store c) (CTable c) (RRQ c) (Bounced c) (Bhistory c) (okVec c)
             (if Tick =? 0 then 1 else Tick) (Tock c) (BClock c) nil
             fxDelay fxQuery (Bhits c) (Bmiss c) (vecHi c) seFS in
  if negb started then Ok (false, c)
  else
    match Alloc 0 (Store c) with
    | None => Fault
    | Some (iP, K) =>
        let '(_, K) := Unload 0 K in
        Ok (true, put (Item_Recycle iP K) (CTable c) (RRQ c) c)
    end.

(** A turn of [TickTock]: the items it unloaded, which are the scrubber's. *)
Definition TickTock (c : XrdCmsCache) : list Z * XrdCmsCache :=
  let Tock := Z.land (Tock c + 1) TickMask in
  let '(iP, K) := Unload Tock (Store c) in
  (iP, MkCache (Paths c) K (CTable c) (RRQ c) (Bounced c)
         (alter (fun h => MkBhist (Bh_Vec h) 0 0) (Z.to_nat Tock) (Bhistory c)) (okVec c) (Tick c) Tock (BClock c)
         (nilTMO c) (DLTime c) (QDelay c) (Bhits c) (Bmiss c) (vecHi c) (isDFS c)).

(** The scrubber: its turn for one item, *)
Definition Recycle_item (iP : Z) (c : XrdCmsCache) : res XrdCmsCache :=
  q ← (if roPend (loc c iP) =? 0 then Ok (RRQ c) else RRQ_Del (roPend (loc c iP)) (Some iP) (RRQ c));
  q ← (if rwPend (loc c iP) =? 0 then Ok q else RRQ_Del (rwPend (loc c iP)) (Some iP) q);
  let '(_, K, N) := Nash_Recycle iP (Store c) (CTable c) in
  Ok (put K N q c).

Fixpoint Recycle_loop (theList : list Z) (c : XrdCmsCache) : res XrdCmsCache :=
  match theList with
  | [] => Ok c
  | iP :: theList => c ← Recycle_item iP c; Recycle_loop theList c
  end.

(** the reserve of items, *)
Fixpoint Replenish_loop (n : nat) (K : Keys) : Keys :=
  match n with O => K | S n => Replenish_loop n (Replenish K).2 end.

Definition Recycle_fill (c : XrdCmsCache) : (Z * Z) * XrdCmsCache :=
  let '((numHave, numFree, numNull), K) := CmsKey.Stats (Store c) in
  if numFree <? minFree then
    let numNull := if Z.quot numNull 4 =? 0 then 1 else Z.quot numNull 4 in
    let K := Replenish_loop (Z.to_nat numNull) K in
    ((numHave + minAlloc * numNull, CmsKey.numFree K), put K (CTable c) (RRQ c) c)
  else ((numHave, numFree), put K (CTable c) (RRQ c) c).

(** and its message's numbers: recycled, allocated and free. *)
Definition Recycle (theList : list Z) (c : XrdCmsCache) : res ((Z * Z * Z) * XrdCmsCache) :=
  c ← Recycle_loop theList c;
  let '((have, free), c) := Recycle_fill c in
  Ok ((zlen theList, have, free), c).

(** ** What an entry holds *)

(** The location a path is mapped to: the nodes that have the file, stage it or
    were not asked, the clock the entry is current at, the times of its end as a
    nil entry and of its lookup, and the window it is kept for. *)
Record Entry := MkEntry {
  e_have : Z; e_stage : Z; e_query : Z; e_clock : Z; e_life : Z; e_dead : Z; e_window : Z }.

Definition entry_of (i : XrdCmsKeyItem) : Entry :=
  let l := Loc i in MkEntry (hfvec l) (pfvec l) (qfvec l) (TOD_B l) (lifeline l) (deadline l) (i_TOD i).

(** The cache as a map of paths to entries. *)
Definition view (K : Keys) : gmap (list Z) Entry :=
  list_to_map ((fun a => (i_Val (item K a), entry_of (item K a))) <$> mjoin (TockTable K)).

Definition unique (K : Keys) : Prop :=
  NoDup (mjoin (TockTable K)) /\
  forall a b, loaded K a -> loaded K b -> i_Val (item K a) = i_Val (item K b) -> a = b.

Lemma wf_unique now P K N : store_wf now P K N -> unique K.
Proof. intros Hw. split; [by pose proof (s_links _ _ _ _ Hw) as [H _]%NoDup_app|apply (s_unique _ _ _ _ Hw)]. Qed.

Lemma view_lookup K p e : unique K ->
  view K !! p = Some e <-> exists a, loaded K a /\ i_Val (item K a) = p /\ entry_of (item K a) = e.
Proof.
  intros [Hd Hu]. unfold view. rewrite <- elem_of_list_to_map.
  - rewrite list_elem_of_fmap. split; [intros (a & [= -> ->] & Ha)|intros (a & Ha & <- & <-)]; eauto.
  - rewrite <- list_fmap_compose. apply NoDup_fmap_2_strong; [|done]. intros a b Ha Hb. cbn. by apply Hu.
Qed.

Lemma view_loaded K a : unique K -> loaded K a -> view K !! i_Val (item K a) = Some (entry_of (item K a)).
Proof. intros Hu Ha. apply view_lookup; [done|]. eauto. Qed.

Lemma view_None K p : unique K -> (forall a, loaded K a -> i_Val (item K a) <> p) -> view K !! p = None.
Proof.
  intros Hu Hn. destruct (view K !! p) as [e|] eqn:E; [|done]. apply view_lookup in E as (a & Ha & Hv & _); [|done].
  by destruct (Hn a Ha).
Qed.

(** Only the item at [a] changes, to [i]. *)
Definition upd1 (a : Z) (i : XrdCmsKeyItem) (K K' : Keys) : Prop :=
  TockTable K' = TockTable K /\ Free K' = Free K /\ numHave K' = numHave K /\ numFree K' = numFree K /\
  forall b, item K' b = if decide (b = a) then i else item K b.

Lemma upd1_refl a K : upd1 a (item K a) K K.
Proof. do 4 (split; [done|]). intros b. by case_decide as Hd; [subst|]. Qed.

Lemma upd1_upd a f K : upd1 a (f (item K a)) K (upd_item a f K).
Proof. do 4 (split; [done|]). intros b. apply item_upd. Qed.

Lemma upd1_item a i K K' : upd1 a i K K' -> item K' a = i.
Proof. intros (_ & _ & _ & _ & H). by rewrite H, decide_True. Qed.

Lemma upd1_trans a i j K1 K2 K3 : upd1 a i K1 K2 -> upd1 a j K2 K3 -> upd1 a j K1 K3.
Proof.
  intros (H1 & H2 & H3 & H4 & H5) (J1 & J2 & J3 & J4 & J5).
  split; [congruence|]. split; [congruence|]. split; [congruence|]. split; [congruence|].
  intros b. rewrite J5. case_decide as Hd; [done|]. by rewrite H5, decide_False.
Qed.

Lemma upd1_wf now P K N a i K' : store_wf now P K N -> upd1 a i K K' ->
  i_Val i = i_Val (item K a) -> i_Hash i = i_Hash (item K a) -> (i_TOD i = i_TOD (item K a) \/ i_TOD i = now) ->
  store_wf now P K' N.
Proof.
  intros Hw (H1 & H2 & H3 & H4 & H5) Hv Hh Ht. apply (items_wf now P K N K'); [done..|].
  intros b. rewrite H5. case_decide as Hd; [subst b|]; split_and!; auto.
Qed.

Lemma upd1_view K a i K' : unique K -> loaded K a -> upd1 a i K K' -> i_Val i = i_Val (item K a) ->
  view K' = <[i_Val (item K a) := entry_of i]> (view K).
Proof.
  intros Hu Ha (H1 & _ & _ & _ & H5) Hv.
  assert (forall b, loaded K' b <-> loaded K b) as Hl by (intros b; unfold loaded; by rewrite H1).
  assert (forall b, i_Val (item K' b) = i_Val (item K b)) as Hvals.
  { intros b. rewrite H5. by case_decide as Hd; [subst|]. }
  assert (unique K') as Hu'.
  { destruct Hu as [U1 U2]. split; [by rewrite H1|]. intros b c Hb Hc. rewrite !Hvals. apply U2; by apply Hl. }
  apply map_eq. intros p. apply option_eq. intros e. rewrite view_lookup by done.
  destruct (decide (p = i_Val (item K a))) as [->|Hne].
  - rewrite lookup_insert_eq. split.
    + intros (b & Hb & Hp & <-). rewrite Hvals in Hp. apply Hl in Hb. rewrite (proj2 Hu b a Hb Ha Hp).
      by rewrite H5, decide_True.
    + intros [= <-]. exists a. rewrite Hl, Hvals, H5, decide_True by done. done.
  - rewrite lookup_insert_ne by done. rewrite view_lookup by done. split.
    + intros (b & Hb & Hp & <-). rewrite Hvals in Hp. exists b. rewrite H5, decide_False by (by intros ->).
      by rewrite <- Hl.
    + intros (b & Hb & Hp & <-). exists b. rewrite Hvals, H5, decide_False by (by intros ->). by rewrite Hl.
Qed.

(** ** The invariant *)

Definition pend_ok (l : XrdCmsKeyLoc) : Prop := 0 <= roPend l < 1024 /\ 0 <= rwPend l < 1024.

(** The items, their table and the queue; [P] waits for the scrubber, [st] is what
    the queue's responder is doing. *)
Record store_ok (c : XrdCmsCache) (P : list Z) (st : stage) : Prop := {
  c_store : store_wf (Tock c) P (Store c) (CTable c);
  c_rrq : rrq_wf (RRQ c) st;
  c_pend : forall a, pend_ok (loc c a);
  c_current : forall a, 0 <= TOD_B (loc c a) <= BClock c;
  c_delays : 0 <= QDelay c /\ 0 <= nilTMO c /\ 0 <= BClock c }.

Definition bounced (c : XrdCmsCache) (j : Z) : Z := default 0 (Bounced c !! Z.to_nat j).

(** The bounces and the vectors kept of them: one that is current has every node
    that bounced after its start. *)
Record bounce_ok (c : XrdCmsCache) : Prop := {
  b_sizes : length (Bounced c) = 64%nat /\ length (Bhistory c) = 64%nat /\ -1 <= vecHi c < 64;
  b_clock : 0 <= BClock c < 2 ^ 32;
  b_bounced : forall j, 0 <= bounced c j <= BClock c;
  b_hi : forall j, vecHi c < j -> bounced c j = 0;
  b_hist : forall t h, Bhistory c !! t = Some h -> 0 <= Bh_Start h /\ Bh_End h <= BClock c /\
    (Bh_End h = BClock c -> 0 < BClock c ->
     forall j, 0 <= j < 64 -> Bh_Start h < bounced c j -> Z.testbit (Bh_Vec h) j = true) }.

Lemma put_id c : put (Store c) (CTable c) (RRQ c) c = c.
Proof. by destruct c. Qed.

Lemma put_put K N q K' N' q' c : put K' N' q' (put K N q c) = put K' N' q' c.
Proof. done. Qed.

(** An operation on one item, and on the queue. *)
Lemma put_ok c P st a i K' q' : store_ok c P st -> upd1 a i (Store c) K' ->
  i_Val i = i_Val (item (Store c) a) -> i_Hash i = i_Hash (item (Store c) a) ->
  (i_TOD i = i_TOD (item (Store c) a) \/ i_TOD i = Tock c) -> pend_ok (Loc i) ->
  0 <= TOD_B (Loc i) <= BClock c -> rrq_wf q' st ->
  store_ok (put K' (CTable c) q' c) P st.
Proof.
  intros Hc Hu Hv Hh Ht Hp Hb Hq. destruct Hc as [C1 C2 C3 C4 C5]. split; try done.
  - by eapply upd1_wf.
  - intros b. unfold loc. cbn [put Store]. destruct Hu as (_ & _ & _ & _ & ->). by case_decide; [|apply C3].
  - intros b. unfold loc. cbn [put Store] in *. destruct Hu as (_ & _ & _ & _ & ->). by case_decide; [|apply C4].
Qed.

Definition pend_item (ro rw : Z) (i : XrdCmsKeyItem) : XrdCmsKeyItem := set_loc (set_pend ro rw) i.

Lemma pend_item_same i : pend_item (roPend (Loc i)) (rwPend (Loc i)) i = i.
Proof. by destruct i as [[]]. Qed.

Lemma ready_ro_ok c st Q iP m1 m2 : rrq_wf (RRQ c) st -> 0 <= Q < 1024 -> pend_ok (loc c iP) ->
  exists K' q' ro, ready_ro Q iP m1 m2 c = Ok (put K' (CTable c) q' c) /\ rrq_wf q' st /\ 0 <= ro < 1024 /\
    upd1 iP (pend_item ro (rwPend (loc c iP)) (item (Store c) iP)) (Store c) K'.
Proof.
  intros Hq HQ Hp. unfold ready_ro.
  assert (forall q, rrq_wf q st -> exists K' q' ro, Ok (set_RRQ q c) = Ok (put K' (CTable c) q' c) /\ rrq_wf q' st /\ 0 <= ro < 1024 /\
    upd1 iP (pend_item ro (rwPend (loc c iP)) (item (Store c) iP)) (Store c) K') as Hsame.
  { intros q' Hq'. exists (Store c), q', (roPend (loc c iP)). unfold loc. rewrite pend_item_same.
    split_and!; [done|done|apply Hp|apply Hp|apply upd1_refl]. }
  destruct (Q =? 0).
  { destruct (Hsame _ Hq) as (K' & q' & ro & Hs & H). exists K', q', ro. split; [|done]. rewrite <- Hs. unfold set_RRQ. by rewrite put_id. }
  destruct (ready_ok Q (Some iP) m1 m2 (RRQ c) st Hq HQ) as (r & q' & -> & Hq' & _). step_ok.
  destruct (r =? 0); [by apply Hsame|].
  eexists _, q', 0. split; [reflexivity|]. split; [done|]. split; [lia|]. apply (upd1_upd iP (set_loc (fun l => set_pend 0 (rwPend l) l))).
Qed.

Lemma ready_rw_ok c st Q iP m1 m2 : rrq_wf (RRQ c) st -> 0 <= Q < 1024 -> pend_ok (loc c iP) ->
  exists K' q' rw, ready_rw Q iP m1 m2 c = Ok (put K' (CTable c) q' c) /\ rrq_wf q' st /\ 0 <= rw < 1024 /\
    upd1 iP (pend_item (roPend (loc c iP)) rw (item (Store c) iP)) (Store c) K'.
Proof.
  intros Hq HQ Hp. unfold ready_rw.
  assert (forall q, rrq_wf q st -> exists K' q' rw, Ok (set_RRQ q c) = Ok (put K' (CTable c) q' c) /\ rrq_wf q' st /\ 0 <= rw < 1024 /\
    upd1 iP (pend_item (roPend (loc c iP)) rw (item (Store c) iP)) (Store c) K') as Hsame.
  { intros q' Hq'. exists (Store c), q', (rwPend (loc c iP)). unfold loc. rewrite pend_item_same.
    split_and!; [done|done|apply Hp|apply Hp|apply upd1_refl]. }
  destruct (Q =? 0).
  { destruct (Hsame _ Hq) as (K' & q' & rw & Hs & H). exists K', q', rw. split; [|done]. rewrite <- Hs. unfold set_RRQ. by rewrite put_id. }
  destruct (ready_ok Q (Some iP) m1 m2 (RRQ c) st Hq HQ) as (r & q' & -> & Hq' & _). step_ok.
  destruct (r =? 0); [by apply Hsame|].
  eexists _, q', 0. split; [reflexivity|]. split; [done|]. split; [lia|]. apply (upd1_upd iP (set_loc (fun l => set_pend (roPend l) 0 l))).
Qed.

(** [Dispatch] changes the queue and what the item waits for. *)
Lemma dispatch_ok c st Sel iP roQ rwQ : rrq_wf (RRQ c) st -> 0 <= roQ < 1024 -> 0 <= rwQ < 1024 -> pend_ok (loc c iP) ->
  exists K' q' ro rw, Dispatch Sel iP roQ rwQ c = Ok (put K' (CTable c) q' c) /\ rrq_wf q' st /\
    0 <= ro < 1024 /\ 0 <= rw < 1024 /\ upd1 iP (pend_item ro rw (item (Store c) iP)) (Store c) K'.
Proof.
  intros Hq Hro Hrw Hp. unfold Dispatch.
  assert (forall m1 m2, exists K' q' ro, ready_ro roQ iP m1 m2 c = Ok (put K' (CTable c) q' c) /\ rrq_wf q' st /\ 0 <= ro < 1024 /\
    upd1 iP (pend_item ro (rwPend (loc c iP)) (item (Store c) iP)) (Store c) K' ) as H1 by (intros; by apply ready_ro_ok).
  assert (forall K1 q1 ro m1 m2, rrq_wf q1 st -> 0 <= ro < 1024 ->
    upd1 iP (pend_item ro (rwPend (loc c iP)) (item (Store c) iP)) (Store c) K1 ->
    exists K' q' ro rw, ready_rw rwQ iP m1 m2 (put K1 (CTable c) q1 c) = Ok (put K' (CTable c) q' c) /\ rrq_wf q' st /\
      0 <= ro < 1024 /\ 0 <= rw < 1024 /\ upd1 iP (pend_item ro rw (item (Store c) iP)) (Store c) K') as H2.
  { intros K1 q1 ro m1 m2 Hq1 Hr Hu.
    assert (item K1 iP = pend_item ro (rwPend (loc c iP)) (item (Store c) iP)) as Hi by (by eapply upd1_item).
    destruct (ready_rw_ok (put K1 (CTable c) q1 c) st rwQ iP m1 m2) as (K2 & q2 & rw & -> & Hq2 & Hrw2 & Hu2); [done|done| |].
    { unfold loc. cbn [put Store]. rewrite Hi. split; [done|apply Hp]. }
    exists K2, q2, ro, rw. rewrite put_put. cbn [put CTable]. split_and!; try done; try lia.
    unfold loc in Hu2. cbn [put Store] in Hu2. rewrite Hi in Hu2. cbn in Hu2.
    change (upd1 iP (pend_item ro rw (item (Store c) iP)) K1 K2) in Hu2. by eapply upd1_trans. }
  destruct (isDFS c).
  - destruct (H1 (Vec_hf Sel) (Z.land (Vec_pf Sel) (Vec_hf Sel))) as (K1 & q1 & ro & -> & Hq1 & Hr & Hu). step_ok.
    destruct (Vec_wf Sel =? 0); [|by eapply H2]. exists K1, q1, ro, (rwPend (loc c iP)). split_and!; try done; try lia; apply Hp.
  - destruct (H1 (hfvec (loc c iP)) (pfvec (loc c iP))) as (K1 & q1 & ro & -> & Hq1 & Hr & Hu). step_ok. by eapply H2.
Qed.

(** ** Looking up and adding *)

(** A key's reference is only trusted while the item is what it was: the item
    whose key is the path. *)
Definition handle_ok (K : Keys) (k : XrdCmsKey) : Prop :=
  forall a, TODRef k = Some a -> Equiv (item K a) k = true -> loaded K a /\ i_Val (item K a) = Val k.

(** Times that do not overflow an [int]. *)
Definition time_ok (now : Z) (c : XrdCmsCache) : Prop := 0 <= now /\ nilTMO c + QDelay c + now < 2 ^ 31.

Lemma fast_find_ok c P st k : store_ok c P st -> key_ok k -> handle_ok (Store c) k ->
  exists r k', fast_find k (Store c) (CTable c) = Ok (r, k') /\ key_ok k' /\ Val k' = Val k /\
    match r with
    | Some a => loaded (Store c) a /\ i_Val (item (Store c) a) = Val k /\
                TODRef k' = Some a /\ Hash k' = i_Hash (item (Store c) a) /\ Ref k' = i_Ref (item (Store c) a)
    | None => TODRef k' = None /\ forall a, loaded (Store c) a -> i_Val (item (Store c) a) <> Val k
    end.
Proof.
  intros Hc Hk Hh. pose proof (c_store _ _ _ Hc) as Hw.
  assert (exists r k', ('(iP, k0) ← Nash_Find k (Store c) (CTable c);
     Ok (iP, MkKey iP (Val k0) (Hash k0) (Len k0) (TOD k0)
          (match iP with Some a => i_Ref (item (Store c) a) | None => Ref k0 end))) = Ok (r, k') /\ key_ok k' /\ Val k' = Val k /\
    match r with
    | Some a => loaded (Store c) a /\ i_Val (item (Store c) a) = Val k /\
                TODRef k' = Some a /\ Hash k' = i_Hash (item (Store c) a) /\ Ref k' = i_Ref (item (Store c) a)
    | None => TODRef k' = None /\ forall a, loaded (Store c) a -> i_Val (item (Store c) a) <> Val k
    end) as Hslow.
  { destruct (find_item _ P _ _ k Hw Hk) as (r & k' & -> & Hk' & Hhash & Hval & _ & _ & _ & Hr). step_ok.
    eexists r, _. split; [reflexivity|]. cbn [Val TODRef Hash Ref]. split; [by destruct Hk'; split|]. split; [done|].
    destruct r as [a|]; [|done]. destruct Hr as [Ha Hv]. split_and!; try done.
    destruct (s_loaded _ _ _ _ Hw a Ha) as (_ & -> & _). by rewrite Hhash, Hv. }
  unfold fast_find. destruct (TODRef k) as [a|] eqn:HT; [|done].
  destruct (Equiv (item (Store c) a) k) eqn:HE; [|done].
  destruct (Hh a HT HE) as [Ha Hv]. apply andb_true_iff in HE as [H1%Z.eqb_eq H2%Z.eqb_eq].
  exists (Some a), k. split_and!; done.
Qed.

Definition refreshed (now : Z) (c : XrdCmsCache) : Entry :=
  MkEntry 0 0 0 (BClock c) (nilTMO c + (QDelay c + now)) (QDelay c + now) (Tock c).

Definition updated (Sel : XrdCmsSelect) (mask : Z) (dead : Z) (e : Entry) : Entry :=
  MkEntry (Z.lor (e_have e) mask)
    (if opt Pending Sel then Z.lor (e_stage e) mask else Z.land (e_stage e) (not64 mask))
    (Z.land (e_query e) (not64 mask)) (e_clock e) (e_life e) dead (e_window e).

Definition new_entry (now : Z) (Sel : XrdCmsSelect) (mask : Z) (c : XrdCmsCache) : Entry :=
  MkEntry mask (if opt Pending Sel then mask else 0) 0 (BClock c)
    (nilTMO c + (QDelay c + now)) (QDelay c + now) (Tock c).

(** The deadline after a node has answered: there is none any more, unless clients wait to
    write and the answer is for reading. *)
Definition deadline_after (Sel : XrdCmsSelect) (l : XrdCmsKeyLoc) : Z :=
  if opt Write Sel || (rwPend l =? 0) then 0 else deadline l.

(** The effect of [AddFile] on the entry of the path; [a] is its item, which knows the
    clients that wait. *)
Inductive add_spec (now : Z) (Sel : XrdCmsSelect) (mask : Z) (c : XrdCmsCache) : option Entry -> option Entry -> bool -> Prop :=
  | add_refreshes e : mask = 0 -> add_spec now Sel mask c (Some e) (Some (refreshed now c)) false
  | add_updates e a : mask <> 0 -> loaded (Store c) a -> i_Val (item (Store c) a) = Val (Path Sel) ->
      let e' := updated Sel mask (deadline_after Sel (loc c a)) e in
      add_spec now Sel mask c (Some e) (Some e') ((e_have e =? 0) || negb (e_stage e' =? e_stage e))
  | add_creates : opt Advisory Sel = false -> add_spec now Sel mask c None (Some (new_entry now Sel mask c)) true
  | add_ignores : opt Advisory Sel = true -> add_spec now Sel mask c None None false.

Lemma deadline_ok now c P st : store_ok c P st -> time_ok now c ->
  i32 (QDelay c + now) = QDelay c + now /\ int_add (nilTMO c) (QDelay c + now) = Ok (nilTMO c + (QDelay c + now)).
Proof.
  intros Hc [H1 H2]. pose proof (c_delays _ _ _ Hc) as (H3 & H4 & _). split.
  - unfold i32. rewrite Z.mod_small by lia. lia.
  - unfold int_add. by zcases.
Qed.

(** What an operation on the item of the path leaves. *)
Definition entry_step (c : XrdCmsCache) (P : list Z) (st : stage) (a : Z) (e : Entry) (c' : XrdCmsCache) : Prop :=
  store_ok c' P st /\ view (Store c') = <[i_Val (item (Store c) a) := e]> (view (Store c)) /\
  exists K' q' i, c' = put K' (CTable c) q' c /\ upd1 a i (Store c) K' /\ entry_of i = e /\
    i_Val i = i_Val (item (Store c) a) /\ i_Hash i = i_Hash (item (Store c) a) /\ i_Ref i = i_Ref (item (Store c) a).

Lemma entry_step_intro c P st a i K' q' e : store_ok c P st -> loaded (Store c) a -> upd1 a i (Store c) K' ->
  i_Val i = i_Val (item (Store c) a) -> i_Hash i = i_Hash (item (Store c) a) -> i_Ref i = i_Ref (item (Store c) a) ->
  (i_TOD i = i_TOD (item (Store c) a) \/ i_TOD i = Tock c) -> pend_ok (Loc i) -> 0 <= TOD_B (Loc i) <= BClock c ->
  rrq_wf q' st -> entry_of i = e -> entry_step c P st a e (put K' (CTable c) q' c).
Proof.
  intros Hc Ha Hu Hv Hh Hr Ht Hp Hb Hq <-. split; [by eapply put_ok|]. split.
  - cbn [put Store]. apply upd1_view; try done. by eapply wf_unique, c_store.
  - exists K', q', i. done.
Qed.

Lemma refresh_ok c P st now a : store_ok c P st -> time_ok now c -> loaded (Store c) a ->
  exists c', Add_refresh now a c = Ok c' /\ entry_step c P st a (refreshed now c) c'.
Proof.
  intros Hc Ht Ha. unfold Add_refresh. destruct (deadline_ok now c P st Hc Ht) as [-> Hd]. cbn zeta.
  rewrite Hd. step_ok. eexists. split; [reflexivity|].
  eapply entry_step_intro; [done|done|apply upd1_upd|done|done|done|by right|exact (c_pend _ _ _ Hc a)| |apply Hc|done].
  cbn. pose proof (c_delays _ _ _ Hc). lia.
Qed.

Lemma update_ok c P st Sel mask a : store_ok c P st -> loaded (Store c) a ->
  let e := entry_of (item (Store c) a) in
  let e' := updated Sel mask (deadline_after Sel (loc c a)) e in
  exists c', Add_update Sel mask a c = Ok ((e_have e =? 0) || negb (e_stage e' =? e_stage e), c') /\ entry_step c P st a e' c'.
Proof.
  intros Hc Ha e e'. unfold Add_update. set (c1 := upd_loc a _ c).
  pose proof (c_pend _ _ _ Hc a) as Hp. pose proof (c_rrq _ _ _ Hc) as Hq.
  set (l1 := set_vecs (Z.lor (hfvec (loc c a)) mask)
    (if opt Pending Sel then Z.lor (pfvec (loc c a)) mask else Z.land (pfvec (loc c a)) (not64 mask))
    (Z.land (qfvec (loc c a)) (not64 mask)) (loc c a)).
  assert (upd1 a (set_loc (fun _ => l1) (item (Store c) a)) (Store c) (Store c1)) as Hu1.
  { exact (upd1_upd a (set_loc (set_vecs _ _ _)) (Store c)). }
  (* the deadline *)
  assert (forall dead, exists K, upd_loc a (fun l => set_times (lifeline l) dead l) c1 = put K (CTable c) (RRQ c) c /\
    upd1 a (set_loc (fun _ => set_times (lifeline l1) dead l1) (item (Store c) a)) (Store c) K) as Hdead.
  { intros dead. eexists. split; [reflexivity|]. eapply upd1_trans; [exact Hu1|].
    replace (set_loc (fun _ : XrdCmsKeyLoc => set_times (lifeline l1) dead l1) (item (Store c) a))
      with (set_loc (fun l => set_times (lifeline l) dead l) (item (Store c1) a)); [apply upd1_upd|].
    by rewrite (upd1_item _ _ _ _ Hu1). }
  (* the callbacks *)
  assert (forall dead K roQ rwQ, upd1 a (set_loc (fun _ => set_times (lifeline l1) dead l1) (item (Store c) a)) (Store c) K ->
    0 <= roQ < 1024 -> 0 <= rwQ < 1024 -> forall b : bool,
    exists c', (if b then Dispatch Sel a roQ rwQ (put K (CTable c) (RRQ c) c) else Ok (put K (CTable c) (RRQ c) c)) = Ok c' /\
      entry_step c P st a (updated Sel mask dead e) c') as Hdisp.
  { intros dead K roQ rwQ Hu Hro Hrw b. pose proof (upd1_item _ _ _ _ Hu) as Hi.
    destruct b.
    - destruct (dispatch_ok (put K (CTable c) (RRQ c) c) st Sel a roQ rwQ) as (K' & q' & ro & rw & -> & Hq' & Hr1 & Hr2 & Hu'); [done..| |].
      { unfold loc. cbn [put Store]. rewrite Hi. exact Hp. }
      eexists. split; [reflexivity|]. rewrite put_put. cbn [put Store CTable] in Hu' |- *. rewrite Hi in Hu'.
      eapply entry_step_intro; [done|done|eapply upd1_trans; [exact Hu|exact Hu']|done|done|done|by left|by split|cbn|done|done].
      exact (c_current _ _ _ Hc a).
    - eexists. split; [reflexivity|].
      eapply entry_step_intro; [done|done|exact Hu|done|done|done|by left|exact Hp|cbn|done|done].
      exact (c_current _ _ _ Hc a). }
  assert (upd1 a (set_loc (fun _ => set_times (lifeline l1) (deadline l1) l1) (item (Store c) a)) (Store c) (Store c1)) as Hu0.
  { exact Hu1. }
  subst e'. unfold deadline_after. cbn zeta. destruct (opt Write Sel) eqn:HW; cbn [orb].
  - destruct (Hdead 0) as (K & -> & Hu).
    destruct (Hdisp 0 K (roPend (loc c a)) (rwPend (loc c a)) Hu (proj1 Hp) (proj2 Hp)
      (negb (roPend (loc c a) =? 0) || negb (rwPend (loc c a) =? 0))) as (c' & -> & Hs). step_ok. by exists c'.
  - assert (exists K, (if rwPend (loc c a) =? 0 then upd_loc a (fun l => set_times (lifeline l) 0 l) c1 else c1) =
        put K (CTable c) (RRQ c) c /\
      upd1 a (set_loc (fun _ => set_times (lifeline l1) (if rwPend (loc c a) =? 0 then 0 else deadline (loc c a)) l1) (item (Store c) a)) (Store c) K) as (K & -> & Hu).
    { destruct (rwPend (loc c a) =? 0); [exact (Hdead 0)|]. by exists (Store c1). }
    destruct (Hdisp _ K (roPend (loc c a)) 0 Hu (proj1 Hp) ltac:(lia) (negb (roPend (loc c a) =? 0))) as (c' & -> & Hs).
    step_ok. by exists c'.
Qed.

(** The reference of a key whose item is its path's, and found through it. *)
Definition live (K : Keys) (k : XrdCmsKey) : Prop :=
  exists a, TODRef k = Some a /\ Equiv (item K a) k = true /\ loaded K a /\ i_Val (item K a) = Val k.

Lemma live_handle K k : live K k -> handle_ok K k.
Proof. intros (a & H1 & _ & H2 & H3) b. rewrite H1. by intros [= <-] _. Qed.

Lemma Equiv_spec i k : Equiv i k = true <-> i_Hash i = Hash k /\ i_Ref i = Ref k.
Proof. unfold Equiv. by rewrite andb_true_iff, !Z.eqb_eq. Qed.

Lemma entry_step_live c P st a e c' k : entry_step c P st a e c' -> loaded (Store c) a ->
  TODRef k = Some a -> i_Val (item (Store c) a) = Val k -> Hash k = i_Hash (item (Store c) a) ->
  Ref k = i_Ref (item (Store c) a) -> live (Store c') k.
Proof.
  intros (_ & _ & K' & q' & i & -> & Hu & _ & H1 & H2 & H3) Ha HT Hv Hh Hr. exists a.
  cbn [put Store]. rewrite (upd1_item _ _ _ _ Hu), Equiv_spec. split_and!; try congruence.
  destruct Hu as (HT' & _). unfold loaded. by rewrite HT'.
Qed.

Lemma added_view K K' hip : unique K -> unique K' -> ~ loaded K hip ->
  (forall b, loaded K' b <-> b = hip \/ loaded K b) -> (forall b, b <> hip -> item K' b = item K b) ->
  view K' = <[i_Val (item K' hip) := entry_of (item K' hip)]> (view K).
Proof.
  intros Hu Hu' Hn Hl Hi. apply map_eq. intros p. apply option_eq. intros e. rewrite view_lookup by done.
  destruct (decide (p = i_Val (item K' hip))) as [->|Hne].
  - rewrite lookup_insert_eq. split.
    + intros (b & Hb & Hp & <-). rewrite (proj2 Hu' b hip Hb) by (done || (apply Hl; by left)). done.
    + intros [= <-]. exists hip. split; [apply Hl; by left|done].
  - rewrite lookup_insert_ne by done. rewrite view_lookup by done. split.
    + intros (b & Hb & Hp & <-). exists b. rewrite <- Hi by (by intros ->). split; [|done].
      apply Hl in Hb as [->|Hb]; done.
    + intros (b & Hb & Hp & <-). exists b. rewrite Hi by (by intros ->). split; [|done]. apply Hl. by right.
Qed.

Lemma store_put c P st P' K N q : store_ok c P st -> store_wf (Tock c) P' K N -> rrq_wf q st ->
  (forall a, pend_ok (Loc (item K a)) /\ 0 <= TOD_B (Loc (item K a)) <= BClock c) -> store_ok (put K N q c) P' st.
Proof.
  intros Hc Hw Hq Hi. destruct Hc as [C1 C2 C3 C4 C5]. split; try done; intros a; apply Hi.
Qed.

Lemma new_ok c P st now Sel mask : store_ok c P st -> time_ok now c -> key_ok (Path Sel) ->
  (forall a, loaded (Store c) a -> i_Val (item (Store c) a) <> Val (Path Sel)) ->
  exists Sel' c', Add_new now Sel mask c = Ok (true, Sel', c') /\ store_ok c' P st /\
    (exists K' N', c' = put K' N' (RRQ c) c) /\
    view (Store c') = <[Val (Path Sel) := new_entry now Sel mask c]> (view (Store c)) /\ live (Store c') (Path Sel').
Proof.
  intros Hc Ht Hk Hn. pose proof (c_store _ _ _ Hc) as Hw. unfold Add_new.
  set (k := MkKey (TODRef (Path Sel)) _ _ _ _ _).
  destruct (add_wf (Tock c) P (Store c) (CTable c) k Hw) as
    (hip & k' & K' & N' & -> & Hw' & Hnl & Hl & _ & Hi & Hk' & Hh' & Hv' & _); [by destruct Hk; split|done|done|].
  step_ok. cbn zeta. change (QDelay (put K' N' (RRQ c) c)) with (QDelay c). change (nilTMO (put K' N' (RRQ c) c)) with (nilTMO c).
  destruct (deadline_ok now c P st Hc Ht) as [-> Hd]. rewrite Hd. step_ok.
  eexists _, _. split; [reflexivity|].
  set (f := fun l => MkLoc mask (if opt Pending Sel then mask else 0) 0 (BClock c)
    (nilTMO c + (QDelay c + now)) (QDelay c + now) (roPend l) (rwPend l)). change (Store (put K' N' (RRQ c) c)) with K'.
  set (K2 := upd_item hip (set_loc f) K').
  assert (upd1 hip (set_loc f (item K' hip)) K' K2) as Hu by apply upd1_upd.
  pose proof (Hi hip) as Hhip. rewrite decide_True in Hhip by done.
  assert (forall b, pend_ok (Loc (item K2 b)) /\ 0 <= TOD_B (Loc (item K2 b)) <= BClock c) as Hp.
  { intros b. destruct Hu as (_ & _ & _ & _ & ->). case_decide as Hb; [|rewrite Hi, decide_False by done].
    - rewrite Hhip. cbn. unfold pend_ok. cbn. pose proof (c_delays _ _ _ Hc). lia.
    - split; [apply (c_pend _ _ _ Hc)|apply (c_current _ _ _ Hc)]. }
  match goal with |- store_ok ?X _ _ /\ _ => change X with (put K2 N' (RRQ c) c) end.
  assert (store_wf (Tock c) P K2 N') as Hw2 by (eapply upd1_wf; [done|done|done|done|by left]).
  assert (i_Val (item K' hip) = Val (Path Sel)) as Hv by (by rewrite Hhip).
  split; [by apply (store_put c P st P K2 N' (RRQ c) Hc Hw2 (c_rrq _ _ _ Hc))|]. split; [by eexists _, _|].
  assert (loaded K' hip) as Hlhip by (apply Hl; by left).
  split.
  - cbn [put Store]. rewrite (upd1_view K' hip _ K2) by (done || by eapply wf_unique).
    rewrite Hv. rewrite (added_view (Store c) K' hip), Hv; [by rewrite insert_insert_eq, Hhip|by eapply wf_unique|by eapply wf_unique|done|done|].
    intros b Hb. by rewrite Hi, decide_False.
  - exists hip. cbn [put Store set_Path Path TODRef Val Hash Ref]. rewrite (upd1_item _ _ _ _ Hu), Equiv_spec.
    split; [done|]. cbn [set_loc i_Hash i_Ref i_Val Hash Ref]. split.
    + split; [|done]. rewrite Hhip, Hh'. done.
    + split; [|by rewrite Hv, Hv']. destruct Hu as (HT & _). unfold loaded. by rewrite HT.
Qed.

(** [AddFile] does to the entry of the path what [add_spec] says, and nothing to
    the others. *)
Lemma AddFile_ok c P st now Sel mask : store_ok c P st -> time_ok now c -> key_ok (Path Sel) -> handle_ok (Store c) (Path Sel) ->
  exists r Sel' c' e, AddFile now Sel mask c = Ok (r, Sel', c') /\ store_ok c' P st /\
    (exists K' N' q', c' = put K' N' q' c) /\
    add_spec now Sel mask c (view (Store c) !! Val (Path Sel)) e r /\
    view (Store c') = partial_alter (fun _ => e) (Val (Path Sel)) (view (Store c)) /\
    (is_Some e -> live (Store c') (Path Sel')).
Proof.
  intros Hc Ht Hk Hh. pose proof (wf_unique _ _ _ _ (c_store _ _ _ Hc)) as Hu. unfold AddFile.
  destruct (fast_find_ok c P st _ Hc Hk Hh) as (r & k' & -> & Hk' & Hv' & Hr). step_ok. destruct r as [a|].
  - destruct Hr as (Ha & Hv & HT & Hha & Hre). pose proof (view_loaded _ _ Hu Ha) as He. rewrite Hv in He. rewrite He.
    destruct (Z.eqb_spec mask 0) as [Hm|Hm].
    + destruct (refresh_ok c P st now a Hc Ht Ha) as (c' & -> & Hs). step_ok.
      eexists false, _, c', _. split; [reflexivity|]. pose proof Hs as (H1 & H2 & K' & q' & i & H3 & _).
      split; [done|]. split; [by eexists _, _, _|]. split; [by constructor|]. split; [by rewrite H2, Hv|].
      intros _. eapply (entry_step_live c P st a); [done|done|done|by rewrite Hv, <- Hv'|done|done].
    + destruct (update_ok c P st (set_Path k' Sel) mask a Hc Ha) as (c' & -> & Hs). step_ok.
      eexists _, _, c', _. split; [reflexivity|]. pose proof Hs as (H1 & H2 & K' & q' & i & H3 & _).
      split; [done|]. split; [by eexists _, _, _|]. split; [by apply (add_updates now Sel mask c _ a)|].
      split; [rewrite H2, Hv; done|].
      intros _. eapply (entry_step_live c P st a); [done|done|done|by rewrite Hv, <- Hv'|done|done].
  - destruct Hr as (HT & Hn). pose proof (view_None _ _ Hu Hn) as He. rewrite He.
    change (opt Advisory (set_Path k' Sel)) with (opt Advisory Sel). destruct (opt Advisory Sel) eqn:HA.
    + eexists false, _, c, None. split; [reflexivity|]. split; [done|]. split; [by exists (Store c), (CTable c), (RRQ c); rewrite put_id|].
      split; [by constructor|]. split; [|by intros [? ?]]. change (view (Store c) = delete (Val (Path Sel)) (view (Store c))).
      by rewrite delete_id.
    + destruct (new_ok c P st now (set_Path k' Sel) mask Hc Ht Hk') as (Sel' & c' & -> & H1 & (K' & N' & H2) & H3 & H4).
      { cbn [set_Path Path]. by rewrite Hv'. }
      eexists true, Sel', c', _. split; [reflexivity|]. split; [done|]. split; [by eexists _, _, _|].
      split; [by constructor|]. split; [|done]. rewrite H3. cbn [set_Path Path]. by rewrite Hv'.
Qed.

(** ** Removing *)

Definition without_nodes (now : Z) (mask : Z) (c : XrdCmsCache) (e : Entry) : Entry :=
  let have := Z.land (e_have e) (not64 mask) in
  MkEntry have (Z.land (e_stage e) (not64 mask)) (e_query e) (e_clock e)
    (if (have =? 0) && negb (nilTMO c =? 0) then nilTMO c + now else e_life e) (e_dead e) (e_window e).

(** [DelFile] takes the nodes from the entry; an entry without nodes may go. *)
Inductive del_spec (now : Z) (Sel : XrdCmsSelect) (mask : Z) (c : XrdCmsCache) : option Entry -> option Entry -> bool -> Prop :=
  | del_absent : del_spec now Sel mask c None None false
  | del_nodes e : del_spec now Sel mask c (Some e) (Some (without_nodes now mask c e)) (e_have (without_nodes now mask c e) =? 0)
  | del_entry e : opt Advisory Sel = false -> e_have (without_nodes now mask c e) = 0 -> del_spec now Sel mask c (Some e) None true.

(** The items that stay, unchanged, are those of the other paths. *)
Lemma removed_view K K' a : unique K -> unique K' -> loaded K a ->
  (forall b, loaded K' b <-> loaded K b /\ b <> a) -> (forall b, b <> a -> item K' b = item K b) ->
  view K' = delete (i_Val (item K a)) (view K).
Proof.
  intros Hu Hu' Ha Hl Hi. apply map_eq. intros p. apply option_eq. intros e. rewrite view_lookup by done.
  rewrite lookup_delete_Some, view_lookup by done. split.
  - intros (b & [Hb Hne]%Hl & Hp & <-). rewrite Hi in Hp |- * by done. split; [|eauto].
    intros Heq. apply Hne. apply (proj2 Hu); congruence.
  - intros (Hne & b & Hb & Hp & <-). assert (b <> a) as Hba by (by intros ->). exists b. rewrite Hi by done.
    by rewrite Hl.
Qed.

(** Unloading an item and recycling it removes its entry. *)
Lemma cache_remove_ok c P st a : store_ok c P st -> loaded (Store c) a ->
  let '(ok, K) := Unload_item a (Store c) in
  if ok then
    let '(_, K', N') := Nash_Recycle a K (CTable c) in
    store_ok (put K' N' (RRQ c) c) P st /\ view K' = delete (i_Val (item (Store c) a)) (view (Store c))
  else K = Store c.
Proof.
  intros Hc Ha. pose proof (c_store _ _ _ Hc) as Hw.
  pose proof (unload_item_wf _ P _ _ a Hw Ha) as Hun. destruct (Unload_item a (Store c)) as [[] K3]; [|by destruct Hun].
  destruct Hun as (Hw3 & Hl3 & Hi3).
  pose proof (recycle_wf _ P K3 (CTable c) a Hw3) as Hrec. destruct (Nash_Recycle a K3 (CTable c)) as [[ok K4] N4].
  destruct Hrec as (Hw4 & Hl4 & Hi4).
  assert (forall b, b <> a -> item K4 b = item (Store c) b) as Hother.
  { intros b Hb. destruct ok; [destruct Hi4 as [Hi4 _]; rewrite Hi4, decide_False by done|destruct Hi4 as (-> & _)];
      by rewrite Hi3, decide_False. }
  assert (Loc (item K4 a) = Loc (unload_item (item (Store c) a))) as Hself.
  { destruct ok; [destruct Hi4 as [Hi4 _]; rewrite Hi4, decide_True by done; cbn|destruct Hi4 as (-> & _)];
      by rewrite Hi3, decide_True. }
  split.
  - apply (store_put c P st P K4 N4 (RRQ c) Hc Hw4 (c_rrq _ _ _ Hc)). intros b. destruct (decide (b = a)) as [->|Hb].
    + rewrite Hself. split; [exact (c_pend _ _ _ Hc a)|exact (c_current _ _ _ Hc a)].
    + rewrite Hother by done. split; [exact (c_pend _ _ _ Hc b)|exact (c_current _ _ _ Hc b)].
  - apply removed_view; [by eapply wf_unique|by eapply wf_unique|done| |done]. intros b. by rewrite Hl4, Hl3.
Qed.

Lemma DelFile_ok c P st now Sel mask : store_ok c P st -> time_ok now c -> key_ok (Path Sel) ->
  exists r Sel' c' e, DelFile now Sel mask c = Ok (r, Sel', c') /\ store_ok c' P st /\
    (exists K' N' q', c' = put K' N' q' c) /\
    del_spec now Sel mask c (view (Store c) !! Val (Path Sel)) e r /\
    view (Store c') = partial_alter (fun _ => e) (Val (Path Sel)) (view (Store c)).
Proof.
  intros Hc Ht Hk. pose proof (c_store _ _ _ Hc) as Hw. pose proof (wf_unique _ _ _ _ Hw) as Hu. unfold DelFile.
  destruct (find_item _ P _ _ _ Hw Hk) as (r & k' & -> & _ & _ & _ & _ & _ & _ & Hr). step_ok. destruct r as [a|].
  2:{ pose proof (view_None _ _ Hu Hr) as He. rewrite He.
      eexists false, _, c, None. split; [reflexivity|]. split; [done|].
      split; [exists (Store c), (CTable c), (RRQ c); by rewrite put_id|]. split; [constructor|].
      change (view (Store c) = delete (Val (Path Sel)) (view (Store c))). by rewrite delete_id. }
  destruct Hr as [Ha Hv]. pose proof (view_loaded _ _ Hu Ha) as He. rewrite Hv in He. rewrite He.
  set (e := entry_of (item (Store c) a)). set (have := Z.land (hfvec (loc c a)) (not64 mask)).
  set (l1 := set_vecs have (Z.land (pfvec (loc c a)) (not64 mask)) (qfvec (loc c a)) (loc c a)).
  set (c1 := upd_loc a _ c).
  assert (upd1 a (set_loc (fun _ => l1) (item (Store c) a)) (Store c) (Store c1)) as Hu1.
  { exact (upd1_upd a (set_loc (set_vecs _ _ _)) (Store c)). }
  assert (hfvec (loc c1 a) = have) as -> by (unfold loc; by rewrite (upd1_item _ _ _ _ Hu1)).
  assert (i32 (nilTMO c + now) = nilTMO c + now) as Hi32.
  { pose proof (c_delays _ _ _ Hc). destruct Ht. unfold i32. rewrite Z.mod_small by lia. lia. }
  set (life := if (have =? 0) && negb (nilTMO c =? 0) then nilTMO c + now else lifeline l1).
  set (i2 := set_loc (fun _ => set_times life (deadline l1) l1) (item (Store c) a)).
  assert (forall K' q', upd1 a i2 (Store c) K' -> rrq_wf q' st ->
    entry_step c P st a (without_nodes now mask c e) (put K' (CTable c) q' c)) as Hstep.
  { intros K' q' Hu2 Hq. eapply entry_step_intro; [done|done|exact Hu2|done|done|done|by left| | |done|done].
    - exact (c_pend _ _ _ Hc a).
    - exact (c_current _ _ _ Hc a). }
  assert (have = 0 -> life = if nilTMO c =? 0 then lifeline l1 else nilTMO c + now) as Hlife.
  { unfold life. intros ->. by destruct (nilTMO c =? 0). }
  assert (have <> 0 -> life = lifeline l1) as Hlife'.
  { unfold life. intros H0. by apply Z.eqb_neq in H0 as ->. }
  clearbody life. destruct (Z.eqb_spec have 0) as [H0|H0]; cbn [negb].
  2:{ assert (upd1 a i2 (Store c) (Store c1)) as Hu2 by (unfold i2; rewrite Hlife' by done; exact Hu1).
      destruct (Hstep _ _ Hu2 (c_rrq _ _ _ Hc)) as (S1 & S2 & _).
      eexists false, _, c1, _. split; [reflexivity|]. split; [exact S1|]. split; [by eexists _, _, _|].
      pose proof (del_nodes now Sel mask c e) as Hd. assert ((e_have (without_nodes now mask c e) =? 0) = false) as Heq by (by apply Z.eqb_neq).
      rewrite Heq in Hd. split; [exact Hd|]. rewrite <- Hv. exact S2. }
  set (c2 := if nilTMO c1 =? 0 then c1 else _).
  assert (exists K2, c2 = put K2 (CTable c) (RRQ c) c /\ upd1 a i2 (Store c) K2) as (K2 & -> & Hu2).
  { unfold c2, i2. change (nilTMO c1) with (nilTMO c). rewrite Hlife by done.
    destruct (nilTMO c =? 0); [exists (Store c1); split; [done|exact Hu1]|].
    eexists. split; [reflexivity|]. eapply upd1_trans; [exact Hu1|]. rewrite Hi32.
    replace (set_loc (fun _ => set_times (nilTMO c + now) (deadline l1) l1) (item (Store c) a))
      with (set_loc (fun l => set_times (nilTMO c + now) (deadline l) l) (item (Store c1) a)); [apply upd1_upd|].
    by rewrite (upd1_item _ _ _ _ Hu1). }
  destruct (Hstep _ _ Hu2 (c_rrq _ _ _ Hc)) as (S1 & S2 & _).
  assert (e_have (without_nodes now mask c e) = 0) as Hhave by done.
  assert (del_spec now Sel mask c (Some e) (Some (without_nodes now mask c e)) true) as Hnodes.
  { pose proof (del_nodes now Sel mask c e) as Hd. by rewrite Hhave in Hd. }
  change (opt Advisory (set_Path k' Sel)) with (opt Advisory Sel). destruct (opt Advisory Sel) eqn:HA.
  { eexists true, _, _, _. split; [reflexivity|]. split; [exact S1|]. split; [by eexists _, _, _|].
    split; [exact Hnodes|]. rewrite <- Hv. exact S2. }
  pose proof (cache_remove_ok (put K2 (CTable c) (RRQ c) c) P st a S1) as Hrem.
  cbn [put Store CTable RRQ] in Hrem |- *. destruct Hu2 as (HT & _ & _ & _ & Hi2).
  assert (loaded K2 a) as Ha2 by (unfold loaded; by rewrite HT).
  destruct (Unload_item a K2) as [[] K3].
  - destruct (Nash_Recycle a K3 (CTable c)) as [[ok K4] N4]. destruct (Hrem Ha2) as [S3 S4].
    eexists true, _, _, None. split; [reflexivity|]. split; [exact S3|]. split; [by eexists _, _, _|]. split; [by constructor|].
    change (view K4 = delete (Val (Path Sel)) (view (Store c))). rewrite S4, Hi2, decide_True by done.
    change (view (Store (put K2 (CTable c) (RRQ c) c))) with (view K2) in S2. rewrite S2.
    change (i_Val i2) with (i_Val (item (Store c) a)). rewrite Hv. by rewrite delete_insert_eq.
  - rewrite (Hrem Ha2). eexists true, _, _, _. split; [reflexivity|]. split; [exact S1|]. split; [by eexists _, _, _|].
    split; [exact Hnodes|]. rewrite <- Hv. exact S2.
Qed.

(** ** Looking up *)

Lemma bvec_loop_ok n TODb b i BVec : (n <= length b)%nat -> 0 <= i ->
  exists v, bvec_loop n TODb b i BVec = Ok v /\
    forall j, 0 <= j -> Z.testbit v j = Z.testbit BVec j ||
      ((i <=? j) && (j <? i + Z.of_nat n) && (TODb <? default 0 (b !! Z.to_nat (j - i)))).
Proof.
  revert b i BVec. induction n as [|n IH]; intros b i BVec Hn Hi; cbn [bvec_loop].
  { eexists. split; [done|]. intros j Hj. replace ((i <=? j) && (j <? i + Z.of_nat 0)) with false.
    - by rewrite orb_false_r.
    - symmetry. apply andb_false_iff. zcases; tauto. }
  destruct b as [|x b]; [cbn in Hn; lia|]. cbn in Hn.
  destruct (IH b (i + 1) (if TODb <? x then Z.lor BVec (Z.shiftl 1 i) else BVec)) as (v & -> & Hv); [lia|lia|].
  exists v. split; [done|]. intros j Hj. rewrite Hv by done.
  destruct (Z.eq_dec j i) as [->|Hne].
  - rewrite Z.sub_diag. replace (i + 1 <=? i) with false by (symmetry; apply Z.leb_gt; lia).
    replace (i <=? i) with true by (symmetry; apply Z.leb_le; lia).
    replace (i <? i + Z.of_nat (S n)) with true by (symmetry; apply Z.ltb_lt; lia).
    change (default 0 ((x :: b) !! Z.to_nat 0)) with x. cbn [andb]. rewrite orb_false_r.
    destruct (TODb <? x); [|by rewrite orb_false_r].
    rewrite Z.lor_spec, Z.shiftl_spec, Z.sub_diag by lia. done.
  - assert (Z.testbit (if TODb <? x then Z.lor BVec (Z.shiftl 1 i) else BVec) j = Z.testbit BVec j) as Hx.
    { destruct (TODb <? x); [|done]. rewrite Z.lor_spec, Z.shiftl_spec by lia.
      replace (Z.testbit 1 (j - i)) with false; [by rewrite orb_false_r|]. symmetry.
      destruct (Z.ltb_spec (j - i) 0); [by apply Z.testbit_neg_r|]. apply (Z.pow2_bits_false 0). lia. }
    rewrite Hx. f_equal. destruct (Z.leb_spec (i + 1) j), (Z.leb_spec i j); [|lia|lia|done]. cbn [andb].
    replace (i + Z.of_nat (S n)) with (i + 1 + Z.of_nat n) by lia. f_equal.
    replace (Z.to_nat (j - i)) with (S (Z.to_nat (j - (i + 1)))) by lia. done.
Qed.

(** The vector for an entry has every node that bounced since the entry was
    current, whether it is a kept one or a new one. *)
Lemma getBVec_ok c TODa TODb : bounce_ok c -> 0 <= TODa < 64 -> 0 <= TODb < BClock c ->
  exists v h hits miss, getBVec TODa TODb c = Ok (v, set_hist h hits miss c) /\ bounce_ok (set_hist h hits miss c) /\
    forall j, 0 <= j < 64 -> TODb < bounced c j -> Z.testbit v j = true.
Proof.
  intros Hb Ha Ht. destruct (b_sizes _ Hb) as (S1 & S2 & S3). unfold getBVec.
  destruct (Bhistory c !! Z.to_nat TODa) as [h|] eqn:E; [|apply lookup_ge_None in E; lia].
  destruct (b_hist _ Hb _ _ E) as (_ & He & Hh).
  destruct (Z.eqb_spec (Bh_End h) (BClock c)) as [H1|H1]; [destruct (Z.leb_spec (Bh_Start h) TODb) as [H2|H2]|]; cbn [andb].
  { eexists _, _, _, _. split; [reflexivity|]. split; [by destruct Hb; split|]. intros j Hj Hlt. apply Hh; [done|lia|done|lia]. }
  all: destruct (bvec_loop_ok (Z.to_nat (vecHi c + 1)) TODb (Bounced c) 0 0) as (v & -> & Hv); [lia|lia|]; step_ok;
    assert (forall j, 0 <= j < 64 -> TODb < bounced c j -> Z.testbit v j = true) as Hfull by
      (intros j Hj Hlt; rewrite Hv, Z.bits_0 by lia; rewrite Z.sub_0_r;
       destruct (Z.ltb_spec (vecHi c) j) as [Hj2|Hj2]; [rewrite (b_hi _ Hb j Hj2) in Hlt; lia|];
       fold (bounced c j); cbn [orb]; apply andb_true_iff; split; [apply andb_true_iff; split|]; zcases; done);
    eexists _, _, _, _; split; [reflexivity|]; split; [|done];
    (destruct Hb as [B1 B2 B3 B4 B5]; split; try done;
     [cbn [set_hist Bhistory Bounced vecHi]; rewrite length_insert; lia|];
     intros t h'; cbn [set_hist Bhistory BClock];
     destruct (decide (t = Z.to_nat TODa)) as [->|Hne];
       [rewrite list_lookup_insert_eq by lia; intros [= <-]; cbn; split; [lia|]; split; [lia|done]|
        rewrite list_lookup_insert_ne by done; apply B5]).
Qed.

(** What [GetFile] makes of an entry, given the vector of the bounced nodes: the
    result, the nodes that lost it and the entry. *)
Definition get_entry (now now2 mask : Z) (c : XrdCmsCache) (bv : Z) (e : Entry) : Z * Z * Entry :=
  let stale := e_clock e <? BClock c in
  let bVec := if stale then Z.land bv mask else 0 in
  let clock := if stale then BClock c else e_clock e in
  let '(retc, e) :=
    if negb (bVec =? 0) then
      (-1, MkEntry (Z.land (e_have e) (not64 bVec)) (Z.land (e_stage e) (not64 bVec)) (Z.land (e_query e) (not64 mask))
             clock (nilTMO c + (QDelay c + now)) (QDelay c + now) (e_window e))
    else if negb (e_dead e =? 0) && (now <? e_dead e) then
      (-1, MkEntry (e_have e) (e_stage e) (e_query e) clock (e_life e) (e_dead e) (e_window e))
    else (1, MkEntry (e_have e) (e_stage e) (e_query e) clock (e_life e) 0 (e_window e)) in
  let gone := negb (nilTMO c =? 0) && (retc =? 1) && (e_have e =? 0) && (e_life e <=? now2) in
  (if gone then 0 else retc, bVec, e).

Definition asked (e : Entry) : Entry :=
  MkEntry (e_have e) (e_stage e) 0 (e_clock e) (e_life e) (e_dead e) (e_window e).

Lemma upd_loc_upd1 c P st a f i K : upd1 a i (Store c) K -> store_ok c P st ->
  upd1 a (set_loc f i) (Store c) (upd_item a (set_loc f) K).
Proof.
  intros Hu _. eapply upd1_trans; [exact Hu|]. rewrite <- (upd1_item _ _ _ _ Hu) at 1. apply upd1_upd.
Qed.

(** The clock an entry is current at once it was looked up. *)
Definition clock_of (c : XrdCmsCache) (e : Entry) : Z := if e_clock e <? BClock c then BClock c else e_clock e.

Lemma bounced_ok c P st a mask : store_ok c P st -> bounce_ok c -> loaded (Store c) a ->
  let e := entry_of (item (Store c) a) in
  exists bv h hits miss K1,
    Get_bounced mask a c =
      Ok (if e_clock e <? BClock c then Z.land bv mask else 0, put K1 (CTable c) (RRQ c) (set_hist h hits miss c)) /\
    bounce_ok (set_hist h hits miss c) /\ upd1 a (set_loc (set_TOD_B (clock_of c e)) (item (Store c) a)) (Store c) K1 /\
    (forall j, 0 <= j < 64 -> e_clock e < bounced c j -> Z.testbit bv j = true).
Proof.
  intros Hc Hb Ha e. pose proof (c_current _ _ _ Hc a) as Hcur.
  destruct (s_loaded _ _ _ _ (c_store _ _ _ Hc) a Ha) as (_ & _ & Htod & _).
  unfold Get_bounced, clock_of. change (e_clock e) with (TOD_B (loc c a)).
  destruct (Z.ltb_spec (TOD_B (loc c a)) (BClock c)) as [Hlt|Hge].
  - destruct (getBVec_ok c (i_TOD (item (Store c) a)) (TOD_B (loc c a)) Hb Htod ltac:(lia)) as (v & h & hits & miss & -> & Hb1 & Hbv).
    step_ok. exists v, h, hits, miss. eexists. split; [reflexivity|]. split; [done|]. split; [|done].
    apply (upd1_upd a (set_loc (set_TOD_B _))).
  - exists 0, (Bhistory c), (Bhits c), (Bmiss c), (Store c). split; [by destruct c|]. split; [by destruct c|].
    split; [|intros j _ Hj; pose proof (b_bounced _ Hb j); lia].
    replace (set_loc (set_TOD_B (TOD_B (loc c a))) (item (Store c) a)) with (item (Store c) a); [apply upd1_refl|].
    unfold loc. by destruct (item (Store c) a) as [[]].
Qed.

(** The location [l] is the entry's but for its clock. *)
Lemma locations_ok c c0 P st now now2 mask bv a K1 : store_ok c P st -> time_ok now c ->
  let e := entry_of (item (Store c) a) in
  let l1 := set_TOD_B (clock_of c e) (loc c a) in
  let bVec := if e_clock e <? BClock c then Z.land bv mask else 0 in
  QDelay c0 = QDelay c -> nilTMO c0 = nilTMO c ->
  upd1 a (set_loc (fun _ => l1) (item (Store c) a)) (Store c) K1 ->
  exists ret l2 K2,
    Get_locations now mask bVec a (put K1 (CTable c) (RRQ c) c0) = Ok (ret, put K2 (CTable c) (RRQ c) c0) /\
    upd1 a (set_loc (fun _ => l2) (item (Store c) a)) (Store c) K2 /\ roPend l2 = roPend l1 /\ rwPend l2 = rwPend l1 /\
    TOD_B l2 = clock_of c e /\
    get_entry now now2 mask c bv e =
      (if negb (nilTMO c =? 0) && (ret =? 1) && (hfvec l2 =? 0) && (lifeline l2 <=? now2) then 0 else ret, bVec,
       entry_of (set_loc (fun _ => l2) (item (Store c) a))).
Proof.
  intros Hc Ht e l1 bVec HQ HN Hu1. destruct (deadline_ok now c P st Hc Ht) as [Hd1 Hd2].
  unfold Get_locations, get_entry. fold bVec. fold (clock_of c e). change (e_dead e) with (deadline l1).
  assert (loc (put K1 (CTable c) (RRQ c) c0) a = l1) as -> by (unfold loc; cbn [put Store]; by rewrite (upd1_item _ _ _ _ Hu1)).
  cbn zeta. change (QDelay (upd_loc _ _ _)) with (QDelay c0). change (nilTMO (upd_loc _ _ _)) with (nilTMO c0).
  rewrite HQ, HN, Hd1. destruct (negb (bVec =? 0)).
  - rewrite Hd2. step_ok. eexists _, _, _. split; [reflexivity|].
    split; [exact (upd_loc_upd1 c P st a (set_times _ _) _ _ (upd_loc_upd1 c P st a (set_vecs _ _ _) _ _ Hu1 Hc) Hc)|].
    by split_and!.
  - destruct (Z.eqb_spec (deadline l1) 0) as [H0|H0]; cbn [negb andb].
    + exists 1, l1, K1. split; [reflexivity|]. split; [exact Hu1|]. split_and!; try done.
      change (entry_of (set_loc (fun _ => l1) (item (Store c) a))) with
        (MkEntry (e_have e) (e_stage e) (e_query e) (clock_of c e) (e_life e) (deadline l1) (e_window e)). by rewrite H0.
    + destruct (now <? deadline l1).
      * exists (-1), l1, K1. split; [reflexivity|]. split; [exact Hu1|]. by split_and!.
      * eexists 1, _, _. split; [reflexivity|]. split; [exact (upd_loc_upd1 c P st a (set_times _ _) _ _ Hu1 Hc)|]. by split_and!.
Qed.

(** [GetFile] does to the entry what [get_entry] says and reports it. *)
Lemma GetFile_ok c P st now now2 Sel mask : store_ok c P st -> bounce_ok c -> time_ok now c -> key_ok (Path Sel) ->
  exists r Sel' c' h hits miss K', GetFile now now2 Sel mask c = Ok (r, Sel', c') /\ store_ok c' P st /\ bounce_ok c' /\
    c' = put K' (CTable c) (RRQ c) (set_hist h hits miss c) /\
    match view (Store c) !! Val (Path Sel) with
    | None => r = 0 /\ view (Store c') = view (Store c)
    | Some e => exists bv,
        (forall j, 0 <= j < 64 -> e_clock e < bounced c j -> Z.testbit bv j = true) /\
        let '(retc, bVec, e') := get_entry now now2 mask c bv e in
        r = retc /\ view (Store c') = <[Val (Path Sel) := asked e']> (view (Store c)) /\
        Vec_hf Sel' = Z.land (okVec c) (e_have e') /\ Vec_pf Sel' = Z.land (okVec c) (e_stage e') /\
        Vec_bf Sel' = Z.land (okVec c) (Z.lor bVec (e_query e')) /\ live (Store c') (Path Sel')
    end.
Proof.
  intros Hc Hb Ht Hk. pose proof (c_store _ _ _ Hc) as Hw. pose proof (wf_unique _ _ _ _ Hw) as Hu. unfold GetFile.
  destruct (find_item _ P _ _ _ Hw Hk) as (r & k' & -> & _ & Hh' & Hv' & _ & _ & _ & Hr). step_ok. destruct r as [a|].
  2:{ rewrite (view_None _ _ Hu Hr). eexists 0, _, c, (Bhistory c), (Bhits c), (Bmiss c), (Store c). split; [reflexivity|].
      split; [done|]. split; [done|]. split; [by destruct c|done]. }
  destruct Hr as [Ha Hv]. pose proof (view_loaded _ _ Hu Ha) as He. rewrite Hv in He. rewrite He.
  destruct (s_loaded _ _ _ _ Hw a Ha) as (_ & Hhash & _).
  destruct (bounced_ok c P st a mask Hc Hb Ha) as (bv & h & hits & miss & K1 & -> & Hb1 & Hu1 & Hbv).
  step_ok. set (c0 := set_hist h hits miss c) in *.
  destruct (locations_ok c c0 P st now now2 mask bv a K1 Hc Ht) as (ret & l2 & K2 & -> & Hu2 & Hro & Hrw & HB & Hget); [done..|].
  step_ok. set (c2 := put K2 (CTable c) (RRQ c) c0).
  assert (loc c2 a = l2) as -> by (unfold loc, c2; cbn [put Store]; by rewrite (upd1_item _ _ _ _ Hu2)).
  assert (i_Ref (item (Store c2) a) = i_Ref (item (Store c) a)) as -> by (cbn [c2 put Store]; by rewrite (upd1_item _ _ _ _ Hu2)).
  pose proof (upd_loc_upd1 c P st a (set_vecs (hfvec l2) (pfvec l2) 0) _ _ Hu2 Hc) as Hu3.
  assert (store_ok c0 P st) as Hc0 by (destruct Hc; by split).
  assert (entry_step c0 P st a (asked (entry_of (set_loc (fun _ => l2) (item (Store c) a))))
    (put (upd_item a (set_loc (set_vecs (hfvec l2) (pfvec l2) 0)) K2) (CTable c) (RRQ c) c0)) as Hs.
  { apply (entry_step_intro c0 P st a (set_loc (set_vecs (hfvec l2) (pfvec l2) 0) (set_loc (fun _ => l2) (item (Store c) a)))
      _ (RRQ c) _ Hc0 Ha Hu3); try done; [by left| | |apply Hc].
    - unfold pend_ok. cbn. rewrite Hro, Hrw. exact (c_pend _ _ _ Hc a).
    - cbn. rewrite HB. unfold clock_of. change (BClock c0) with (BClock c). pose proof (c_current _ _ _ Hc a) as Hcur.
      unfold entry_of. cbn [e_clock]. fold (loc c a). pose proof (c_delays _ _ _ Hc). destruct (TOD_B (loc c a) <? BClock c); lia. }
  pose proof Hs as (S1 & S2 & _).
  eexists _, _, _, h, hits, miss, _. split; [reflexivity|]. split; [exact S1|].
  split; [destruct Hb1 as [B1 B2 B3 B4 B5]; by split|]. split; [reflexivity|]. exists bv. split; [done|]. rewrite Hget.
  split; [done|]. split; [rewrite <- Hv; exact S2|]. split; [done|]. split; [done|]. split; [done|].
  apply (entry_step_live c0 P st a _ _ _ Hs Ha); cbn; [done|by rewrite Hv'|by rewrite Hh', Hhash, Hv|done].
Qed.

(** ** The other operations *)

Lemma alter_some (f : Entry -> Entry) (p : list Z) (e : Entry) (m : gmap (list Z) Entry) : m !! p = Some e -> alter f p m = <[p := f e]> m.
Proof.
  intros He. apply map_eq. intros q. destruct (decide (q = p)) as [->|Hne].
  - by rewrite lookup_alter_eq, lookup_insert_eq, He.
  - by rewrite lookup_alter_ne, lookup_insert_ne.
Qed.

Definition with_query (mask : Z) (e : Entry) : Entry :=
  MkEntry (e_have e) (e_stage e) mask (e_clock e) (e_life e) (e_dead e) (e_window e).

(** [UnkFile] works whenever the reference still holds. *)
Lemma UnkFile_ok c P st Sel mask : store_ok c P st -> handle_ok (Store c) (Path Sel) ->
  exists r c' K', UnkFile Sel mask c = (r, c') /\ store_ok c' P st /\ c' = put K' (CTable c) (RRQ c) c /\
    view (Store c') = (if r then alter (with_query mask) (Val (Path Sel)) (view (Store c)) else view (Store c)) /\
    (live (Store c) (Path Sel) -> r = true).
Proof.
  intros Hc Hh. pose proof (wf_unique _ _ _ _ (c_store _ _ _ Hc)) as Hu. unfold UnkFile.
  destruct (TODRef (Path Sel)) as [a|] eqn:HT.
  - destruct (Equiv (item (Store c) a) (Path Sel)) eqn:HE.
    + destruct (Hh a HT HE) as [Ha Hv].
      assert (entry_step c P st a (with_query mask (entry_of (item (Store c) a)))
        (upd_loc a (fun l => set_vecs (hfvec l) (pfvec l) mask l) c)) as (S1 & S2 & _).
      { eapply entry_step_intro; [done|done|apply upd1_upd|done|done|done|by left|exact (c_pend _ _ _ Hc a)|
          exact (c_current _ _ _ Hc a)|apply Hc|done]. }
      eexists true, _, _. split; [reflexivity|]. split; [exact S1|]. split; [reflexivity|]. split; [|done].
      rewrite S2, Hv. symmetry. apply alter_some. rewrite <- Hv. by apply view_loaded.
    + exists false, c, (Store c). rewrite put_id. split_and!; try done. intros (b & Hb & HE' & _). congruence.
  - exists false, c, (Store c). rewrite put_id. split_and!; try done. intros (b & Hb & _). congruence.
Qed.

Definition waited (now : Z) (c : XrdCmsCache) (e : Entry) : Entry :=
  MkEntry (e_have e) (e_stage e) (e_query e) (e_clock e) (e_life e)
    (if negb (e_dead e =? 0) && (e_dead e <=? now) then i32 (DLTime c + now) else e_dead e) (e_window e).

Lemma Add2Q_ok c st Info a o : rrq_wf (RRQ c) st -> pend_ok (loc c a) -> myClock (RRQ c) + 1 < 2 ^ 32 ->
  exists Info' K' q' ro rw, Add2Q Info a o c = Ok (Info', put K' (CTable c) q' c) /\ rrq_wf q' st /\
    0 <= ro < 1024 /\ 0 <= rw < 1024 /\ upd1 a (pend_item ro rw (item (Store c) a)) (Store c) K'.
Proof.
  intros Hq Hp Hclk. unfold Add2Q. set (isrw := negb _).
  set (info := MkInfo _ _ _ _ _ _ _ _ _ _ _). set (S0 := if isrw then _ else _).
  assert (0 <= S0 < 1024) as HS by (unfold S0; destruct isrw; apply Hp).
  destruct (rrq_add_ok S0 info (RRQ c) st Hq HS Hclk) as (r & q' & -> & Hr & Hq' & _). step_ok.
  destruct (r =? 0).
  { eexists _, (Store c), q', (roPend (loc c a)), (rwPend (loc c a)). split; [reflexivity|].
    unfold loc. rewrite pend_item_same. split_and!; try apply Hp; [done|apply upd1_refl]. }
  destruct isrw.
  - eexists _, _, q', (roPend (loc c a)), r. split; [reflexivity|]. split_and!; try apply Hp; try lia; [done|].
    apply (upd1_upd a (set_loc (fun l => set_pend (roPend l) r l))).
  - eexists _, _, q', r, (rwPend (loc c a)). split; [reflexivity|]. split_and!; try apply Hp; try lia; [done|].
    apply (upd1_upd a (set_loc (fun l => set_pend r (rwPend l) l))).
Qed.

Lemma WT4File_ok c P st now Sel mask : store_ok c P st -> handle_ok (Store c) (Path Sel) -> myClock (RRQ c) + 1 < 2 ^ 32 ->
  exists r Sel' c' K' q', WT4File now Sel mask c = Ok (r, Sel', c') /\ store_ok c' P st /\ c' = put K' (CTable c) q' c /\
    (view (Store c') = view (Store c) \/ view (Store c') = alter (waited now c) (Val (Path Sel)) (view (Store c))).
Proof.
  intros Hc Hh Hclk. pose proof (wf_unique _ _ _ _ (c_store _ _ _ Hc)) as Hu. unfold WT4File.
  assert (forall r : Z, exists r' Sel' c' K' q', @Ok (Z * XrdCmsSelect * XrdCmsCache) (r, Sel, c) = Ok (r', Sel', c') /\ store_ok c' P st /\ c' = put K' (CTable c) q' c /\
    (view (Store c') = view (Store c) \/ view (Store c') = alter (waited now c) (Val (Path Sel)) (view (Store c)))) as Hno.
  { intros r. exists r, Sel, c, (Store c), (RRQ c). rewrite put_id. split_and!; try done. by left. }
  destruct (InfoP Sel) as [Info|]; [|by apply Hno]. destruct (TODRef (Path Sel)) as [a|] eqn:HT; [|by apply Hno].
  destruct (Equiv (item (Store c) a) (Path Sel)) eqn:HE; cbn [negb]; [|by apply Hno].
  destruct (hfvec (loc c a) =? mask); cbn [negb]; [|by apply Hno].
  destruct (Hh a HT HE) as [Ha Hv]. set (l := loc c a).
  set (dead := if negb (deadline l =? 0) && (deadline l <=? now) then i32 (DLTime c + now) else deadline l).
  set (c1 := if _ && _ then _ else c).
  assert (exists K1, c1 = put K1 (CTable c) (RRQ c) c /\ upd1 a (set_loc (set_times (lifeline l) dead) (item (Store c) a)) (Store c) K1)
    as (K1 & -> & Hu1).
  { unfold c1, dead. destruct (_ && _).
    - eexists. split; [reflexivity|]. apply upd1_upd.
    - exists (Store c). rewrite put_id. split; [done|]. replace (set_loc (set_times (lifeline l) (deadline l)) (item (Store c) a))
        with (item (Store c) a); [apply upd1_refl|]. unfold l, loc. by destruct (item (Store c) a) as [[]]. }
  destruct (Add2Q_ok (put K1 (CTable c) (RRQ c) c) st Info a (Opts Sel)) as (I' & K2 & q2 & ro & rw & -> & Hq2 & Hro & Hrw & Hu2);
    [apply Hc| |done|].
  { unfold loc. cbn [put Store]. rewrite (upd1_item _ _ _ _ Hu1). exact (c_pend _ _ _ Hc a). }
  step_ok. cbn [put Store CTable] in Hu2 |- *. rewrite (upd1_item _ _ _ _ Hu1) in Hu2.
  assert (entry_step c P st a (waited now c (entry_of (item (Store c) a))) (put K2 (CTable c) q2 c)) as (S1 & S2 & _).
  { eapply entry_step_intro; [done|done|eapply upd1_trans; [exact Hu1|exact Hu2]|done|done|done|by left|by split|
      exact (c_current _ _ _ Hc a)|done|done]. }
  eexists 0, _, _, K2, q2. split; [reflexivity|]. split; [exact S1|]. split; [reflexivity|]. right.
  cbn [put Store] in S2 |- *. rewrite S2, Hv. symmetry. apply alter_some. rewrite <- Hv. by apply view_loaded.
Qed.

(** A node that bounced makes no kept vector current. *)
Lemma Bounce_ok c P st smask SNum : store_ok c P st -> bounce_ok c -> 0 <= SNum < 64 -> BClock c + 1 < 2 ^ 32 ->
  exists c', Bounce smask SNum c = Ok c' /\ store_ok c' P st /\ bounce_ok c' /\ Store c' = Store c /\
    okVec c' = Z.lor (okVec c) smask /\ BClock c' = BClock c + 1 /\
    (forall j, 0 <= j -> bounced c' j = if decide (j = SNum) then BClock c + 1 else bounced c j) /\
    Tock c' = Tock c /\ nilTMO c' = nilTMO c /\ QDelay c' = QDelay c.
Proof.
  intros Hc Hb Hs Hk. unfold Bounce, STMax. replace ((0 <=? SNum) && (SNum <? 64)) with true by (by zcases).
  pose proof (b_clock _ Hb) as Hclk. pose proof (b_sizes _ Hb) as (S1 & S2 & S3).
  rewrite u32_small by lia. eexists. split; [reflexivity|]. set (c' := MkCache _ _ _ _ _ _ _ _ _ _ _ _ _ _ _ _ _).
  assert (forall j, 0 <= j -> bounced c' j = if decide (j = SNum) then BClock c + 1 else bounced c j) as Hj.
  { intros j Hj. unfold bounced. cbn [c' Bounced]. case_decide as Hd.
    - subst j. by rewrite list_lookup_insert_eq by lia.
    - by rewrite list_lookup_insert_ne by lia. }
  assert (forall j, j < 0 -> bounced c' j = bounced c' 0) as Hneg.
  { intros j Hj0. unfold bounced. replace (Z.to_nat j) with 0%nat by lia. done. }
  split; [|split; [|by split_and!]].
  - destruct Hc as [C1 C2 C3 C4 C5]. split; try done.
    + intros a. specialize (C4 a). change (loc c' a) with (loc c a). cbn [c' BClock]. lia.
    + cbn [c' QDelay nilTMO BClock]. lia.
  - destruct Hb as [B1 B2 B3 B4 B5].
    assert (forall j, 0 <= bounced c' j <= BClock c + 1) as Hrange.
    { intros j. destruct (decide (j < 0)) as [Hn|Hn]; [rewrite Hneg by lia; rewrite Hj by lia|rewrite Hj by lia].
      - case_decide; [lia|]. specialize (B3 0). lia.
      - case_decide; [lia|]. specialize (B3 j). lia. }
    split; try done.
    + cbn [c' Bounced Bhistory vecHi]. rewrite length_insert. destruct (vecHi c <? SNum); lia.
    + cbn [c' BClock]. lia.
    + intros j Hhi. cbn [c' vecHi] in Hhi. assert (vecHi c < j /\ SNum < j) as [H1 H2] by (destruct (Z.ltb_spec (vecHi c) SNum); lia).
      rewrite Hj, decide_False by lia. by apply B4.
    + intros t h Ht. cbn [c' Bhistory BClock] in *. destruct (B5 t h Ht) as (H0 & H1 & _). split; [done|]. split; lia.
Qed.

Lemma Drop_ok c P st smask SNum xHi : store_ok c P st -> bounce_ok c -> 0 <= SNum < 64 -> -1 <= xHi < 64 ->
  (forall j, xHi < j -> j <> SNum -> bounced c j = 0) ->
  exists c', Drop smask SNum xHi c = Ok c' /\ store_ok c' P st /\ bounce_ok c' /\ Store c' = Store c /\
    okVec c' = Z.land (okVec c) (not64 smask) /\ BClock c' = BClock c /\
    (forall j, 0 <= j -> bounced c' j = if decide (j = SNum) then 0 else bounced c j) /\
    Tock c' = Tock c /\ nilTMO c' = nilTMO c /\ QDelay c' = QDelay c.
Proof.
  intros Hc Hb Hs Hx Hhi. unfold Drop, STMax. replace ((0 <=? SNum) && (SNum <? 64)) with true by (by zcases).
  pose proof (b_sizes _ Hb) as (S1 & S2 & S3).
  eexists. split; [reflexivity|]. set (c' := MkCache _ _ _ _ _ _ _ _ _ _ _ _ _ _ _ _ _).
  assert (forall j, bounced c' j = if decide (Z.to_nat j = Z.to_nat SNum) then 0 else bounced c j) as Hj.
  { intros j. unfold bounced. cbn [c' Bounced]. case_decide as Hd.
    - rewrite Hd. by rewrite list_lookup_insert_eq by lia.
    - by rewrite list_lookup_insert_ne by lia. }
  split; [by destruct Hc; split|]. split.
  - destruct Hb as [B1 B2 B3 B4 B5]. split; try done.
    + cbn [c' Bounced Bhistory vecHi]. rewrite length_insert. done.
    + intros j. rewrite Hj. cbn [c' BClock]. case_decide; [lia|]. apply B3.
    + intros j Hlt. cbn [c' vecHi] in Hlt. rewrite Hj. case_decide; [done|]. apply Hhi; [done|]. by intros ->.
    + intros t h Ht. cbn [c' Bhistory BClock] in *. destruct (B5 t h Ht) as (H0 & H1 & H2). split; [done|]. split; [done|].
      intros He Hpos j Hr Hlt. apply H2; [done|done|done|]. rewrite Hj in Hlt. case_decide; [lia|done].
  - split_and!; try done. intros j Hj0. rewrite Hj. repeat case_decide; try done; lia.
Qed.

(** The same paths with the same entries. *)
Lemma view_same K K' : unique K -> unique K' -> (forall a, loaded K' a <-> loaded K a) ->
  (forall a, loaded K a -> item K' a = item K a) -> view K' = view K.
Proof.
  intros Hu Hu' Hl Hi. apply map_eq. intros p. apply option_eq. intros e. rewrite !view_lookup by done.
  split; intros (a & Ha & <- & <-); exists a.
  - rewrite Hi by (by apply Hl). rewrite <- Hl. done.
  - rewrite Hi, Hl by done. done.
Qed.

(** A turn of the clock ends exactly the entries of the window it comes to. *)
Lemma TickTock_ok c P st : store_ok c P st -> bounce_ok c ->
  let '(l, c') := TickTock c in
  store_ok c' (l ++ P) st /\ bounce_ok c' /\
  view (Store c') = filter (fun pe => e_window pe.2 <> tick (Tock c)) (view (Store c)) /\
  Tock c' = tick (Tock c) /\ okVec c' = okVec c /\ BClock c' = BClock c /\ Bounced c' = Bounced c /\
  nilTMO c' = nilTMO c /\ QDelay c' = QDelay c.
Proof.
  intros Hc Hb. unfold TickTock. fold (tick (Tock c)).
  pose proof (c_store _ _ _ Hc) as Hw. pose proof (wf_unique _ _ _ _ Hw) as Hu.
  pose proof (tick_wf _ P _ _ Hw) as Ht. destruct (Unload (tick (Tock c)) (Store c)) as [l K].
  destruct Ht as (Hw' & Hl & Hl' & Hi). pose proof (wf_unique _ _ _ _ Hw') as Hu'.
  split; [|split; [|split; [|done]]].
  - destruct Hc as [C1 C2 C3 C4 C5]. split; try done; intros a; unfold loc; cbn [Store]; rewrite Hi;
      case_decide; [apply C3|apply C3|apply C4|apply C4].
  - destruct Hb as [B1 B2 B3 B4 B5]. split; try done.
    + cbn [Bounced Bhistory vecHi]. rewrite length_alter. done.
    + intros t h. cbn [Bhistory BClock]. destruct (decide (t = Z.to_nat (tick (Tock c)))) as [->|Hne].
      * rewrite list_lookup_alter_eq. destruct (Bhistory c !! _); [|done]. cbn. intros [= <-]. cbn. lia.
      * rewrite list_lookup_alter_ne by done. apply B5.
  - cbn [Store]. apply map_eq. intros p. apply option_eq. intros e.
    rewrite map_lookup_filter_Some, !view_lookup by done. split.
    + intros (a & Ha & <- & <-). assert (item K a = item (Store c) a) as ->.
      { rewrite Hi, decide_False; [done|]. intros [_ H]%Hl. by apply Hl' in Ha as [_ ?]. }
      apply Hl' in Ha as [Ha Hne]. split; [eauto|done].
    + intros ((a & Ha & <- & <-) & Hne). exists a. assert (item K a = item (Store c) a) as ->.
      { rewrite Hi, decide_False; [done|]. by intros [_ H]%Hl. }
      split; [by apply Hl'|done].
Qed.

(** The scrubber changes no entry. *)
Lemma Recycle_item_ok c P st a : store_ok c (a :: P) st ->
  exists K' N' q', Recycle_item a c = Ok (put K' N' q' c) /\ store_ok (put K' N' q' c) P st /\ view K' = view (Store c).
Proof.
  intros Hc. pose proof (c_store _ _ _ Hc) as Hw. pose proof (wf_unique _ _ _ _ Hw) as Hu. unfold Recycle_item.
  assert (forall n q, 0 <= n < 1024 -> rrq_wf q st ->
    exists q', (if n =? 0 then Ok q else RRQ_Del n (Some a) q) = Ok q' /\ rrq_wf q' st) as Hdel.
  { intros n q Hn Hq. destruct (n =? 0); [eauto|]. unfold RRQ_Del.
    destruct (ready_ok n (Some a) 0 0 q st Hq Hn) as (r & q' & -> & Hq' & _). step_ok. eauto. }
  destruct (Hdel (roPend (loc c a)) (RRQ c) (proj1 (c_pend _ _ _ Hc a)) (c_rrq _ _ _ Hc)) as (q1 & -> & Hq1). step_ok.
  destruct (Hdel (rwPend (loc c a)) q1 (proj2 (c_pend _ _ _ Hc a)) Hq1) as (q2 & -> & Hq2). step_ok.
  assert (~ loaded (Store c) a) as Hna.
  { intros Ha. pose proof (s_links _ _ _ _ Hw) as (_ & Hd & _)%NoDup_app. apply (Hd a Ha). left. }
  pose proof (recycle_wf _ P _ _ a Hw) as Hr. destruct (Nash_Recycle a (Store c) (CTable c)) as [[ok K] N].
  destruct Hr as (Hw' & Hl & Hi). exists K, N, q2. split; [done|].
  assert (forall b, Loc (item K b) = Loc (item (Store c) b) /\ (b <> a -> item K b = item (Store c) b)) as Hloc.
  { intros b. destruct ok; [destruct Hi as [Hi _]|by destruct Hi as (-> & _)]. rewrite Hi. by case_decide as Hd; [subst|]. }
  split.
  - apply (store_put c (a :: P) st P K N q2 Hc Hw' Hq2). intros b. rewrite (proj1 (Hloc b)).
    split; [exact (c_pend _ _ _ Hc b)|exact (c_current _ _ _ Hc b)].
  - apply view_same; [done|by eapply wf_unique|done|]. intros b Hb. apply Hloc. by intros ->.
Qed.

Lemma store_perm c P P' st : P ≡ₚ P' -> store_ok c P st -> store_ok c P' st.
Proof. intros HP Hc. destruct Hc as [C1 C2 C3 C4 C5]. split; try done. by eapply wf_perm. Qed.

Lemma Replenish_loop_ok c P st n : store_ok c P st -> forall K, store_wf (Tock c) P K (CTable c) -> items K = items (Store c) ->
  TockTable K = TockTable (Store c) ->
  store_ok (put (Replenish_loop n K) (CTable c) (RRQ c) c) P st /\ view (Replenish_loop n K) = view (Store c).
Proof.
  intros Hc. induction n as [|n IH]; intros K Hw Hi HT; cbn [Replenish_loop]; [|apply IH; [by apply replenish_wf|done|done]].
  assert (forall a, item K a = item (Store c) a) as Hit by (intros a; unfold item; by rewrite Hi).
  split; [|apply view_same; [by eapply wf_unique, c_store|by eapply wf_unique| |done]].
  - apply (store_put c P st P K _ _ Hc Hw (c_rrq _ _ _ Hc)). intros a. rewrite Hit.
    split; [exact (c_pend _ _ _ Hc a)|exact (c_current _ _ _ Hc a)].
  - intros a. unfold loaded. by rewrite HT.
Qed.

Lemma Recycle_fill_ok c P st : store_ok c P st ->
  exists K', (Recycle_fill c).2 = put K' (CTable c) (RRQ c) c /\ store_ok (put K' (CTable c) (RRQ c) c) P st /\
    view K' = view (Store c).
Proof.
  intros Hc. unfold Recycle_fill, CmsKey.Stats. set (K0 := MkKeys _ _ _ _ _ _).
  assert (store_wf (Tock c) P K0 (CTable c)) as Hw.
  { destruct (c_store _ _ _ Hc) as [W1 W2 W3 W4 W5 W6 W7 W8 W9 W10 W11 W12]. by split. }
  destruct (_ <? _).
  - eexists. split; [reflexivity|]. by apply Replenish_loop_ok.
  - exists K0. split; [reflexivity|]. by apply (Replenish_loop_ok c P st 0).
Qed.

(** ** The start *)

(** The cache once it was configured, its clock not yet turned. *)
Definition started (fxHold fxDelay fxQuery : Z) (seFS : bool) (nxHold : Z) (c : XrdCmsCache) : Prop :=
  Init true fxHold fxDelay fxQuery seFS nxHold XrdCmsCache_new = Ok (true, c).

Definition first_items : Keys :=
  MkKeys {[ 4095 := MkItem (MkLoc 0 0 0 0 0 0 0 0) [] 0 0 2 ]} (replicate 64 []) (rev (seqZ 0 4096)) 4096 4096 1.

Lemma first_items_ok psize csize : 0 <= psize -> 0 < csize -> store_wf 0 [] first_items (XrdCmsNash_new psize csize).
Proof.
  intros Hp Hc. apply empty_wf; try done.
  - cbn [first_items Free]. rewrite <- Permutation_rev. apply NoDup_seqZ.
  - intros a. cbn [first_items Free numHave]. rewrite <- Permutation_rev, elem_of_seqZ. lia.
  - intros a. unfold item. cbn [first_items items]. destruct (decide (a = 4095)) as [->|Hne].
    + by rewrite lookup_singleton_eq.
    + by rewrite lookup_singleton_ne.
Qed.

Lemma first_view : view first_items = ∅.
Proof. reflexivity. Qed.

Lemma first_free : rev (seqZ 0 4096) = 4095 :: rev (seqZ 0 4095).
Proof. replace (seqZ 0 4096) with (seqZ 0 4095 ++ [4095]) by (symmetry; apply (seqZ_app 0 4095 1); lia). by rewrite rev_app_distr. Qed.

Lemma Init_items : exists a K l, Alloc 0 Keys_new = Some (a, K) /\ Unload 0 K = l /\ Item_Recycle a l.2 = first_items.
Proof.
  exists 4095. unfold Alloc. change (Alloc_take 0 Keys_new) with (@None (Z * Keys)). cbv iota beta zeta.
  unfold Replenish. cbn [snd Keys_new items TockTable Free numFree numHave numNull]. rewrite app_nil_r.
  unfold first_items. change (seqZ 0 minAlloc) with (seqZ 0 4096). rewrite first_free. generalize (rev (seqZ 0 4095)). intros l.
  eexists _, _. split; [vm_compute; reflexivity|]. split; [vm_compute; reflexivity|]. vm_compute. reflexivity.
Qed.

Lemma Init_ok fxHold fxDelay fxQuery seFS nxHold : 0 <= fxQuery -> 0 <= nxHold < 2 ^ 31 -> fxQuery + 60 < 2 ^ 31 ->
  exists c, started fxHold fxDelay fxQuery seFS nxHold c /\ store_ok c [] Idle /\ bounce_ok c /\ view (Store c) = ∅ /\
    okVec c = 0 /\ QDelay c = fxQuery /\ nilTMO c = (if nxHold =? 0 then 0 else Z.max nxHold (fxQuery + 60)) /\ 1 <= Tick c.
Proof.
  intros HQ Hn Hm. unfold started, Init.
  assert ((if nxHold =? 0 then Ok (nilTMO XrdCmsCache_new)
    else m ← int_add fxQuery min_nxTime; Ok (if nxHold <? m then m else nxHold)) =
    Ok (if nxHold =? 0 then 0 else Z.max nxHold (fxQuery + 60))) as ->.
  { destruct (nxHold =? 0); [done|]. unfold int_add, min_nxTime. replace (_ && _) with true by (by zcases). step_ok.
    f_equal. zcases; lia. }
  step_ok. cbn [negb Store]. destruct Init_items as (a & K & l & HA & HU & HR).
  change (Store XrdCmsCache_new) with Keys_new. rewrite HA, HU. destruct l as [l K']. cbn [snd] in HR. rewrite HR.
  eexists. split; [reflexivity|]. split; [|split; [|split; [apply first_view|split; [done|split; [done|split; [done|]]]]]].
  - split; cbn [put Store Tock CTable RRQ BClock QDelay nilTMO].
    + by apply first_items_ok.
    + apply rrq_new_wf.
    + intros b. unfold loc, item. cbn [put Store first_items items]. destruct (decide (b = 4095)) as [->|Hne].
      * rewrite lookup_singleton_eq. cbn. unfold pend_ok. cbn. lia.
      * rewrite lookup_singleton_ne by done. cbn. unfold pend_ok. cbn. lia.
    + intros b. unfold loc, item. cbn [put Store first_items items]. destruct (decide (b = 4095)) as [->|Hne].
      * rewrite lookup_singleton_eq. cbn. lia.
      * rewrite lookup_singleton_ne by done. cbn. lia.
    + destruct (nxHold =? 0); cbn; lia.
  - assert (forall j, default 0 (replicate 64 0 !! Z.to_nat j) = 0) as H0.
    { intros j. destruct (replicate 64 0 !! Z.to_nat j) as [x|] eqn:E; [by apply lookup_replicate in E as [-> _]|done]. }
    split; cbn [put Bounced Bhistory vecHi BClock XrdCmsCache_new]; try done.
    + intros j. unfold bounced. cbn [put Bounced XrdCmsCache_new]. rewrite H0. done.
    + intros j _. unfold bounced. cbn [put Bounced XrdCmsCache_new]. apply H0.
    + intros t h Ht. apply lookup_replicate in Ht as [-> _]. cbn. split; [lia|]. split; [lia|]. intros _ H. lia.
  - cbn [put Tick]. pose proof (u32_range fxHold). unfold TickRate. destruct (Z.eqb_spec (u32 fxHold / 64) 0); [lia|].
    assert (0 <= u32 fxHold / 64) by (apply Z.div_pos; lia). lia.
Qed.
