(* ===== verification/CmsLocate.v ===== *)
(** * What the cache of locations reports

    The runs of the cache of [CmsCache]: the routines of XrdCmsCache.cc in any
    order, the turns of its clock, the scrubber item by item, and whatever the
    threads of the queue do meanwhile. The theorems are about every state a run
    reaches: it is well formed and no routine faults; [AddFile], [DelFile] and
    [GetFile] act on a map of paths to entries; an entry is kept for 64 windows;
    and a node is only reported for a path it has named since it last bounced. *)

From stdpp Require Import base tactics list_numbers numbers option gmap list.
From S2P Require Import Prelude CString OucCRC CmsPList CmsRRQ CmsKey CmsCache.
#[local] Set Warnings "-clear-no-such-hyp".

(** ** Runs *)

(** [R] are the paths that the node [i] has named since it last bounced. Lookups
    ask for that node; [handle_ok] says that a reference kept by a caller is not
    that of an item which was reused until its 8-bit [Ref] came round; the others
    are the ranges of the arguments. *)
Inductive cache_run (i : Z) : XrdCmsCache -> list Z -> stage -> gset (list Z) -> Prop :=
  | run_Init fxHold fxDelay fxQuery seFS nxHold c :
      0 <= fxQuery -> 0 <= nxHold < 2 ^ 31 -> fxQuery + 60 < 2 ^ 31 ->
      started fxHold fxDelay fxQuery seFS nxHold c -> cache_run i c [] Idle ∅
  | run_AddFile c P st R now Sel mask r Sel' c' : cache_run i c P st R ->
      key_ok (Path Sel) -> handle_ok (Store c) (Path Sel) -> time_ok now c ->
      AddFile now Sel mask c = Ok (r, Sel', c') ->
      cache_run i c' P st (if Z.testbit mask i then {[Val (Path Sel)]} ∪ R else R)
  | run_DelFile c P st R now Sel mask r Sel' c' : cache_run i c P st R ->
      key_ok (Path Sel) -> time_ok now c -> DelFile now Sel mask c = Ok (r, Sel', c') ->
      cache_run i c' P st (if Z.testbit mask i then R ∖ {[Val (Path Sel)]} else R)
  | run_GetFile c P st R now now2 Sel mask r Sel' c' : cache_run i c P st R ->
      key_ok (Path Sel) -> time_ok now c -> Z.testbit mask i = true ->
      GetFile now now2 Sel mask c = Ok (r, Sel', c') -> cache_run i c' P st R
  | run_UnkFile c P st R Sel mask r c' : cache_run i c P st R -> handle_ok (Store c) (Path Sel) ->
      UnkFile Sel mask c = (r, c') -> cache_run i c' P st R
  | run_WT4File c P st R now Sel mask r Sel' c' : cache_run i c P st R ->
      handle_ok (Store c) (Path Sel) -> myClock (RRQ c) + 1 < 2 ^ 32 ->
      WT4File now Sel mask c = Ok (r, Sel', c') -> cache_run i c' P st R
  | run_Bounce c P st R SNum c' : cache_run i c P st R -> 0 <= SNum < 64 -> BClock c + 1 < 2 ^ 32 ->
      Bounce (Z.shiftl 1 SNum) SNum c = Ok c' -> cache_run i c' P st (if decide (SNum = i) then ∅ else R)
  | run_Drop c P st R SNum xHi c' : cache_run i c P st R -> 0 <= SNum < 64 -> -1 <= xHi < 64 ->
      (forall j, xHi < j -> j <> SNum -> bounced c j = 0) ->
      Drop (Z.shiftl 1 SNum) SNum xHi c = Ok c' -> cache_run i c' P st (if decide (SNum = i) then ∅ else R)
  | run_TickTock c P st R l c' : cache_run i c P st R -> TickTock c = (l, c') -> cache_run i c' (l ++ P) st R
  | run_Recycle_item c P P' st R a c' : cache_run i c P st R -> P ≡ₚ a :: P' ->
      Recycle_item a c = Ok c' -> cache_run i c' P' st R
  | run_Recycle_fill c P st R n c' : cache_run i c P st R -> Recycle_fill c = (n, c') -> cache_run i c' P st R
  | run_queue c P st R q st' : cache_run i c P st R -> rrq_wf q st' -> cache_run i (set_RRQ q c) P st' R.

(** A node that an entry has, not bounced since, has named its path. *)
Definition fresh (i : Z) (R : gset (list Z)) (c : XrdCmsCache) : Prop :=
  Z.testbit (okVec c) i = true -> forall p e, view (Store c) !! p = Some e ->
  Z.testbit (e_have e) i = true -> bounced c i <= e_clock e -> p ∈ R.

Lemma testbit_shiftl_1 i j : 0 <= i -> 0 <= j -> Z.testbit (Z.shiftl 1 j) i = bool_decide (i = j).
Proof.
  intros Hi Hj. rewrite Z.shiftl_spec by done. destruct (decide (i = j)) as [->|Hne].
  - by rewrite Z.sub_diag, bool_decide_eq_true_2.
  - rewrite bool_decide_eq_false_2 by done. destruct (Z.ltb_spec (i - j) 0); [by apply Z.testbit_neg_r|].
    apply (Z.pow2_bits_false 0). lia.
Qed.

(** Entries that are as they were, or fresh by themselves. *)
Lemma fresh_step i R R' c c' p e' : fresh i R c -> okVec c' = okVec c -> (forall j, bounced c' j = bounced c j) ->
  view (Store c') = partial_alter (fun _ => e') p (view (Store c)) -> (forall q, q <> p -> q ∈ R -> q ∈ R') ->
  (Z.testbit (okVec c) i = true -> forall e, e' = Some e -> Z.testbit (e_have e) i = true -> bounced c i <= e_clock e -> p ∈ R') ->
  fresh i R' c'.
Proof.
  intros Hf Hok Hb Hv HR He H1 q e Hq H2 H3. rewrite Hok in H1. rewrite Hb in H3. rewrite Hv in Hq.
  destruct (decide (q = p)) as [->|Hne].
  - rewrite lookup_partial_alter_eq in Hq. by eapply He.
  - rewrite lookup_partial_alter_ne in Hq by done. apply HR; [done|]. by eapply Hf.
Qed.

(** The same clocks and nodes, and entries that are a part of what they were. *)
Lemma fresh_mono i R c c' : fresh i R c -> okVec c' = okVec c -> (forall j, bounced c' j = bounced c j) ->
  (forall p e, view (Store c') !! p = Some e ->
    exists e0, view (Store c) !! p = Some e0 /\ e_have e = e_have e0 /\ e_clock e = e_clock e0) -> fresh i R c'.
Proof.
  intros Hf Hok Hb Hv H1 p e Hp H2 H3. destruct (Hv p e Hp) as (e0 & H0 & Hh & Hk).
  rewrite Hok in H1. rewrite Hb, Hk in H3. rewrite Hh in H2. by eapply Hf.
Qed.

Lemma clock_le c P st p e : store_ok c P st -> view (Store c) !! p = Some e -> 0 <= e_clock e <= BClock c.
Proof.
  intros Hc Hp. apply view_lookup in Hp as (a & _ & _ & <-); [|by eapply wf_unique, c_store]. exact (c_current _ _ _ Hc a).
Qed.

(** A node that is left in a looked up entry had not bounced. *)
Lemma get_entry_fresh i now now2 mask c bv e : 0 <= i < 64 -> Z.testbit mask i = true ->
  (e_clock e < bounced c i -> Z.testbit bv i = true) -> bounced c i <= BClock c ->
  Z.testbit (e_have (get_entry now now2 mask c bv e).2) i = true ->
  Z.testbit (e_have e) i = true /\ bounced c i <= e_clock e.
Proof.
  intros Hi Hm Hbv Hle. unfold get_entry. destruct (Z.ltb_spec (e_clock e) (BClock c)) as [Hs|Hs].
  - assert (Z.testbit (Z.land bv mask) i = false -> bounced c i <= e_clock e) as Hbit.
    { rewrite Z.land_spec, Hm, andb_true_r. intros Hf. destruct (Z.leb_spec (bounced c i) (e_clock e)) as [|Hlt]; [done|].
      apply Hbv in Hlt. congruence. }
    destruct (Z.eqb_spec (Z.land bv mask) 0) as [H0|H0]; cbn [negb].
    + rewrite H0 in Hbit. specialize (Hbit (Z.bits_0 _)). destruct (_ && _); cbn; intros Hh; by split.
    + cbn. rewrite Z.land_spec, testbit_not64 by done. intros [H1 H2]%andb_true_iff. split; [done|].
      apply Hbit. by apply negb_true_iff.
  - cbn [Z.eqb negb]. destruct (_ && _); cbn; intros Hh; split; (done || lia).
Qed.

(** ** The invariant of the runs *)

Lemma bounced_put K N q c j : bounced (put K N q c) j = bounced c j.
Proof. done. Qed.

Lemma bounce_put K N q c : bounce_ok c -> bounce_ok (put K N q c).
Proof. intros [B1 B2 B3 B4 B5]. by split. Qed.

Section run.
Context (i : Z) (Hi : 0 <= i < 64).

Lemma add_fresh c P st R now Sel mask r e c' : store_ok c P st -> fresh i R c -> okVec c' = okVec c ->
  (forall j, bounced c' j = bounced c j) ->
  add_spec now Sel mask c (view (Store c) !! Val (Path Sel)) e r ->
  view (Store c') = partial_alter (fun _ => e) (Val (Path Sel)) (view (Store c)) ->
  fresh i (if Z.testbit mask i then {[Val (Path Sel)]} ∪ R else R) c'.
Proof.
  intros Hc Hf Hok Hb Hs Hv. eapply fresh_step; [exact Hf|done|done|exact Hv| |].
  - intros q _ Hq. destruct (Z.testbit mask i); set_solver.
  - intros H1 e1 He H2 H3. remember (view (Store c) !! Val (Path Sel)) as old eqn:Hold. destruct Hs; simplify_eq.
    + by rewrite Z.bits_0 in H2.
    + cbn in H2, H3. rewrite Z.lor_spec in H2. destruct (Z.testbit mask i); [set_solver|].
      rewrite orb_false_r in H2. by eapply Hf.
    + cbn in H2. rewrite H2. set_solver.
Qed.

Lemma del_fresh c R now Sel mask r e c' : fresh i R c -> okVec c' = okVec c ->
  (forall j, bounced c' j = bounced c j) ->
  del_spec now Sel mask c (view (Store c) !! Val (Path Sel)) e r ->
  view (Store c') = partial_alter (fun _ => e) (Val (Path Sel)) (view (Store c)) ->
  fresh i (if Z.testbit mask i then R ∖ {[Val (Path Sel)]} else R) c'.
Proof.
  intros Hf Hok Hb Hs Hv. eapply fresh_step; [exact Hf|done|done|exact Hv| |].
  - intros q Hq HR. destruct (Z.testbit mask i); set_solver.
  - intros H1 e1 He H2 H3. remember (view (Store c) !! Val (Path Sel)) as old eqn:Hold. destruct Hs; simplify_eq.
    cbn in H2, H3. rewrite Z.land_spec, testbit_not64 in H2 by done. apply andb_true_iff in H2 as [H2 H4].
    destruct (Z.testbit mask i); [done|]. by eapply Hf.
Qed.

Lemma cache_run_ok c P st R : cache_run i c P st R -> store_ok c P st /\ bounce_ok c /\ fresh i R c.
Proof.
  induction 1 as [fxHold fxDelay fxQuery seFS nxHold c HQ Hn Hm Hs
    |c P st R now Sel mask r Sel' c' _ (Hc & Hb & Hf) Hk Hh Ht Ho
    |c P st R now Sel mask r Sel' c' _ (Hc & Hb & Hf) Hk Ht Ho
    |c P st R now now2 Sel mask r Sel' c' _ (Hc & Hb & Hf) Hk Ht Hm Ho
    |c P st R Sel mask r c' _ (Hc & Hb & Hf) Hh Ho
    |c P st R now Sel mask r Sel' c' _ (Hc & Hb & Hf) Hh Hclk Ho
    |c P st R SNum c' _ (Hc & Hb & Hf) Hs Hclk Ho
    |c P st R SNum xHi c' _ (Hc & Hb & Hf) Hs Hx Hhi Ho
    |c P st R l c' _ (Hc & Hb & Hf) Ho
    |c P P' st R a c' _ (Hc & Hb & Hf) HP Ho
    |c P st R n c' _ (Hc & Hb & Hf) Ho
    |c P st R q st' _ (Hc & Hb & Hf) Hq].
  - destruct (Init_ok fxHold fxDelay fxQuery seFS nxHold HQ Hn Hm) as (c' & Hs' & H1 & H2 & Hv & _).
    unfold started in *. rewrite Hs in Hs'. injection Hs' as <-. split_and!; [done|done|].
    intros _ p e Hp. by rewrite Hv, lookup_empty in Hp.
  - destruct (AddFile_ok c P st now Sel mask Hc Ht Hk Hh) as (r' & S' & c1 & e & Hq & H1 & (K & N & q & H2) & H3 & H4 & _).
    rewrite Ho in Hq. injection Hq as <- <- <-. split; [done|]. rewrite H2 in *. split; [by apply bounce_put|].
    by apply (add_fresh c P st R now Sel mask r e).
  - destruct (DelFile_ok c P st now Sel mask Hc Ht Hk) as (r' & S' & c1 & e & Hq & H1 & (K & N & q & H2) & H3 & H4).
    rewrite Ho in Hq. injection Hq as <- <- <-. split; [done|]. rewrite H2 in *. split; [by apply bounce_put|].
    by apply (del_fresh c R now Sel mask r e).
  - destruct (GetFile_ok c P st now now2 Sel mask Hc Hb Ht Hk) as (r' & S' & c1 & h & hits & miss & K & Hq & H1 & H2 & H3 & H4).
    rewrite Ho in Hq. injection Hq as <- <- <-. split; [done|]. split; [done|]. rewrite H3 in *.
    destruct (view (Store c) !! Val (Path Sel)) as [e|] eqn:He.
    + destruct H4 as (bv & Hbv & H4). destruct (get_entry now now2 mask c bv e) as [[retc bVec] e'] eqn:Hg.
      destruct H4 as (_ & Hv & _). apply (fresh_step i R R c _ (Val (Path Sel)) (Some (asked e')) Hf); try done.
      intros Hok e1 [= <-] Hh Hle. pose proof (get_entry_fresh i now now2 mask c bv e Hi Hm (Hbv i Hi)) as Hget.
      rewrite Hg in Hget. destruct Hget as [G1 G2]; [apply (b_bounced _ Hb)|done|]. by eapply Hf.
    + destruct H4 as [_ Hv]. apply (fresh_mono i R c _ Hf); try done. intros p e Hp. rewrite Hv in Hp. eauto.
  - destruct (UnkFile_ok c P st Sel mask Hc Hh) as (r' & c1 & K & Hq & H1 & H2 & H3 & _).
    rewrite Ho in Hq. injection Hq as <- <-. split; [done|]. rewrite H2 in *. split; [by apply bounce_put|].
    apply (fresh_mono i R c _ Hf); try done. intros p e Hp. rewrite H3 in Hp. destruct r; [|eauto].
    apply lookup_alter_Some in Hp as [(<- & e0 & He0 & ->)|[_ Hp]]; eauto.
  - destruct (WT4File_ok c P st now Sel mask Hc Hh Hclk) as (r' & S' & c1 & K & q & Hq & H1 & H2 & H3).
    rewrite Ho in Hq. injection Hq as <- <- <-. split; [done|]. rewrite H2 in *. split; [by apply bounce_put|].
    apply (fresh_mono i R c _ Hf); try done. intros p e Hp. destruct H3 as [H3|H3]; rewrite H3 in Hp; [eauto|].
    apply lookup_alter_Some in Hp as [(<- & e0 & He0 & ->)|[_ Hp]]; eauto.
  - destruct (Bounce_ok c P st (Z.shiftl 1 SNum) SNum Hc Hb Hs Hclk) as (c1 & Hq & H1 & H2 & H3 & H4 & H5 & H6 & _).
    rewrite Ho in Hq. injection Hq as <-. split; [done|]. split; [done|].
    intros Hok p e Hp Hh Hle. rewrite H3 in Hp. rewrite H6 in Hle by lia. rewrite H4, Z.lor_spec, testbit_shiftl_1 in Hok by lia.
    pose proof (clock_le c P st p e Hc Hp). destruct (decide (i = SNum)) as [->|Hne]; [lia|].
    rewrite decide_False by congruence. rewrite bool_decide_eq_false_2, orb_false_r in Hok by done. by eapply Hf.
  - destruct (Drop_ok c P st (Z.shiftl 1 SNum) SNum xHi Hc Hb Hs Hx Hhi) as (c1 & Hq & H1 & H2 & H3 & H4 & H5 & H6 & _).
    rewrite Ho in Hq. injection Hq as <-. split; [done|]. split; [done|].
    intros Hok p e Hp Hh Hle. rewrite H3 in Hp. rewrite H6 in Hle by lia. rewrite H4, Z.land_spec, testbit_not64, testbit_shiftl_1 in Hok by lia.
    destruct (decide (i = SNum)) as [->|Hne]; [by rewrite bool_decide_eq_true_2, andb_false_r in Hok|].
    rewrite decide_False by congruence. rewrite bool_decide_eq_false_2, andb_true_r in Hok by done. by eapply Hf.
  - pose proof (TickTock_ok c P st Hc Hb) as Hq. rewrite Ho in Hq. destruct Hq as (H1 & H2 & H3 & H4 & H5 & H6 & H7 & _).
    split; [done|]. split; [done|]. apply (fresh_mono i R c _ Hf); [done|by intros j; unfold bounced; rewrite H7|].
    intros p e Hp. rewrite H3 in Hp. apply map_lookup_filter_Some in Hp as [Hp _]. eauto.
  - destruct (Recycle_item_ok c P' st a) as (K & N & q & Hq & H1 & H2); [by eapply store_perm|].
    rewrite Ho in Hq. injection Hq as ->. split; [done|]. split; [by apply bounce_put|].
    apply (fresh_mono i R c _ Hf); try done. cbn [put Store]. rewrite H2. eauto.
  - destruct (Recycle_fill_ok c P st Hc) as (K & Hq & H1 & H2). rewrite Ho in Hq. cbn in Hq. rewrite Hq in *.
    split; [done|]. split; [by apply bounce_put|]. apply (fresh_mono i R c _ Hf); try done. cbn [put Store]. rewrite H2. eauto.
  - split; [|split; [by apply bounce_put|]].
    + destruct Hc as [C1 C2 C3 C4 C5]. by split.
    + apply (fresh_mono i R c _ Hf); try done. cbn [set_RRQ put Store]. eauto.
Qed.

End run.

(** ** Well-formed states *)

(** C33: Every state a run of the cache reaches is well formed: an item is in
    one list of the clock or waits for the scrubber, and is in one chain or
    the free list; an entry's item is in the chain of its path's hash, in a
    window of the clock, and no two items have the same path. Waiting,
    bouncing, dropping and recycling then never fault. *)
Theorem Cache_well_formed i c P st R : 0 <= i < 64 -> cache_run i c P st R ->
  NoDup (mjoin (TockTable (Store c)) ++ P) /\ NoDup (mjoin (nashtable (CTable c)) ++ Free (Store c)) /\
  (forall a, loaded (Store c) a ->
     0 <= i_TOD (item (Store c) a) < 64 /\ i_Hash (item (Store c) a) = hash_of (i_Val (item (Store c) a)) /\
     a ∈ chain (CTable c) (i_Hash (item (Store c) a)) /\
     forall b, loaded (Store c) b -> i_Val (item (Store c) a) = i_Val (item (Store c) b) -> a = b) /\
  (forall now Sel mask, handle_ok (Store c) (Path Sel) -> myClock (RRQ c) + 1 < 2 ^ 32 ->
     exists r, WT4File now Sel mask c = Ok r) /\
  (forall SNum xHi, 0 <= SNum < 64 ->
     (exists c', Bounce (Z.shiftl 1 SNum) SNum c = Ok c') /\ (exists c', Drop (Z.shiftl 1 SNum) SNum xHi c = Ok c')) /\
  (forall a, a ∈ P -> exists c', Recycle_item a c = Ok c').
Proof.
  intros Hi Hr. destruct (cache_run_ok i Hi c P st R Hr) as (Hc & Hb & _). pose proof (c_store _ _ _ Hc) as Hw.
  split; [apply Hw|]. split; [apply Hw|]. split; [|split; [|split]].
  - intros a Ha. destruct (s_loaded _ _ _ _ Hw a Ha) as (_ & H1 & H2 & H3). split_and!; try done; try lia.
    intros b Hb' Hv. by apply (s_unique _ _ _ _ Hw).
  - intros now Sel mask Hh Hclk. destruct (WT4File_ok c P st now Sel mask Hc Hh Hclk) as (r & S' & c' & _ & _ & Hq & _). eauto.
  - intros SNum xHi Hs. unfold Bounce, Drop, STMax. replace ((0 <=? SNum) && (SNum <? 64)) with true by (by zcases). eauto.
  - intros a Ha. apply elem_of_Permutation in Ha as [P' HP].
    destruct (Recycle_item_ok c P' st a) as (K & N & q & Hq & _); [by eapply store_perm|]. eauto.
Qed.

(** ** The map of entries *)


(** C22: In every state a run of the cache reaches, GetFile returns; an
    unknown path gives 0 and changes nothing; a known one loses the bounced
    nodes of the mask, or has its deadline checked, and is reported, with a
    vector that has every node that bounced since the entry was current; no
    other path changes, and UnkFile then accepts the reference. *)
Theorem GetFile_refines i c P st R now now2 Sel mask : 0 <= i < 64 -> cache_run i c P st R ->
  key_ok (Path Sel) -> time_ok now c ->
  exists r Sel' c', GetFile now now2 Sel mask c = Ok (r, Sel', c') /\
    match view (Store c) !! Val (Path Sel) with
    | None => r = 0 /\ view (Store c') = view (Store c)
    | Some e => exists bv,
        (forall j, 0 <= j < 64 -> e_clock e < bounced c j -> Z.testbit bv j = true) /\
        let '(retc, bVec, e') := get_entry now now2 mask c bv e in
        r = retc /\ view (Store c') = <[Val (Path Sel) := asked e']> (view (Store c)) /\
        Vec_hf Sel' = Z.land (okVec c) (e_have e') /\ Vec_pf Sel' = Z.land (okVec c) (e_stage e') /\
        Vec_bf Sel' = Z.land (okVec c) (Z.lor bVec (e_query e')) /\
        forall mask', (UnkFile Sel' mask' c').1 = true
    end.
Proof.
  intros Hi Hr Hk Ht. destruct (cache_run_ok i Hi c P st R Hr) as (Hc & Hb & _).
  destruct (GetFile_ok c P st now now2 Sel mask Hc Hb Ht Hk) as (r & S' & c' & h & hits & miss & K & Hq & H1 & _ & _ & H).
  exists r, S', c'. split; [done|]. destruct (view (Store c) !! Val (Path Sel)) as [e|]; [|done].
  destruct H as (bv & Hbv & H). exists bv. split; [done|]. destruct (get_entry now now2 mask c bv e) as [[retc bVec] e'].
  destruct H as (E1 & E2 & E3 & E4 & E5 & E6). split_and!; try done. intros mask'.
  destruct (UnkFile_ok c' P st S' mask' H1 (live_handle _ _ E6)) as (r' & c2 & K2 & -> & _ & _ & _ & Hl). by apply Hl.
Qed.

(** In every state a run of the cache reaches, DelFile returns and takes
    the nodes of the mask from the entry of its path; it reports whether none
    is left, sets the end of the nil entry then, and may remove the entry if
    the deletion was not advisory; no other path changes. *)
Theorem DelFile_refines i c P st R now Sel mask : 0 <= i < 64 -> cache_run i c P st R ->
  key_ok (Path Sel) -> time_ok now c ->
  exists r Sel' c' e, DelFile now Sel mask c = Ok (r, Sel', c') /\
    del_spec now Sel mask c (view (Store c) !! Val (Path Sel)) e r /\
    view (Store c') = partial_alter (fun _ => e) (Val (Path Sel)) (view (Store c)).
Proof.
  intros Hi Hr Hk Ht. destruct (cache_run_ok i Hi c P st R Hr) as (Hc & _).
  destruct (DelFile_ok c P st now Sel mask Hc Ht Hk) as (r & S' & c' & e & Hq & _ & _ & H). exists r, S', c', e. by split.
Qed.

(** ** Nodes that bounced *)

(** C17: In every run of the cache in which lookups ask for a node, a lookup
    that finds the path reports the node only if the node is up and has named
    the path since it last bounced or was dropped and had the path removed,
    whether the nodes that bounced are recomputed or taken from the vector
    kept for the entry's window. *)
Theorem GetFile_fresh i c P st R now now2 Sel mask : 0 <= i < 64 -> cache_run i c P st R ->
  key_ok (Path Sel) -> time_ok now c -> Z.testbit mask i = true ->
  exists r Sel' c', GetFile now now2 Sel mask c = Ok (r, Sel', c') /\
    (r <> 0 -> Z.testbit (Vec_hf Sel') i = true -> Val (Path Sel) ∈ R /\ Z.testbit (okVec c) i = true).
Proof.
  intros Hi Hr Hk Ht Hm. destruct (cache_run_ok i Hi c P st R Hr) as (Hc & Hb & Hf).
  destruct (GetFile_ok c P st now now2 Sel mask Hc Hb Ht Hk) as (r & S' & c' & h & hits & miss & K & Hq & _ & _ & _ & H).
  exists r, S', c'. split; [done|]. destruct (view (Store c) !! Val (Path Sel)) as [e|] eqn:He.
  - destruct H as (bv & Hbv & H). pose proof (get_entry_fresh i now now2 mask c bv e Hi Hm (Hbv i Hi)) as Hg.
    destruct (get_entry now now2 mask c bv e) as [[retc bVec] e']. destruct H as (_ & _ & -> & _).
    rewrite Z.land_spec. intros _ [H1 H2]%andb_true_iff. split; [|done].
    destruct Hg as [G1 G2]; [apply (b_bounced _ Hb)|done|]. by eapply Hf.
  - by destruct H as [-> _].
Qed.

(** ** Windows *)

(** Turns of the clock. *)
Fixpoint ticks (n : nat) (c : XrdCmsCache) : XrdCmsCache :=
  match n with O => c | S n => ticks n (TickTock c).2 end.

Lemma ticks_gone n c P st p : store_ok c P st -> bounce_ok c -> view (Store c) !! p = None -> view (Store (ticks n c)) !! p = None.
Proof.
  revert c P. induction n as [|n IH]; intros c P Hc Hb Hp; cbn [ticks]; [done|].
  pose proof (TickTock_ok c P st Hc Hb) as Ht. destruct (TickTock c) as [l c']. destruct Ht as (H1 & H2 & H3 & _).
  apply (IH c' (l ++ P)); [done|done|]. rewrite H3. apply map_lookup_filter_None. by left.
Qed.

Lemma ticks_ok n c P st p e : store_ok c P st -> bounce_ok c -> view (Store c) !! p = Some e ->
  view (Store (ticks n c)) !! p = if Z.of_nat n <=? ahead (Tock c) (e_window e) then Some e else None.
Proof.
  revert c P. induction n as [|n IH]; intros c P Hc Hb Hp; cbn [ticks].
  { pose proof (ahead_range (Tock c) (e_window e)). by destruct (Z.leb_spec (Z.of_nat 0) (ahead (Tock c) (e_window e))); [|lia]. }
  pose proof (c_store _ _ _ Hc) as Hw.
  assert (0 <= e_window e < 64) as He.
  { apply view_lookup in Hp as (a & Ha & _ & <-); [|by eapply wf_unique]. by apply (s_loaded _ _ _ _ Hw a Ha). }
  pose proof (ahead_tick (Tock c) (e_window e) (s_now _ _ _ _ Hw) He) as Had.
  pose proof (TickTock_ok c P st Hc Hb) as Ht. destruct (TickTock c) as [l c']. destruct Ht as (H1 & H2 & H3 & H4 & _). cbn [snd].
  destruct (decide (e_window e = tick (Tock c))) as [Hd|Hd].
  - rewrite Had. destruct (Z.leb_spec (Z.of_nat (S n)) 0); [lia|]. apply (ticks_gone n c' (l ++ P) st p); [done|done|].
    rewrite H3. apply map_lookup_filter_None. right. intros e' He'. cbn. rewrite Hp in He'. injection He' as <-. intros Hx. by apply Hx.
  - rewrite (IH c' (l ++ P)); [|done|done|].
    + rewrite H4. destruct Had as [-> _].
      destruct (Z.leb_spec (Z.of_nat n) (ahead (Tock c) (e_window e) - 1)), (Z.leb_spec (Z.of_nat (S n)) (ahead (Tock c) (e_window e))); lia || done.
    + rewrite H3. apply map_lookup_filter_Some. by split.
Qed.

(** The path is found, with the entry [e], in a state of the cache and through exactly [k]
    turns of the clock after it. *)
Definition found_for (k : nat) (p : list Z) (e : Entry) (c : XrdCmsCache) : Prop :=
  forall n, view (Store (ticks n c)) !! p = if (n <=? k)%nat then Some e else None.

Lemma found_window c P st p e : store_ok c P st -> bounce_ok c -> view (Store c) !! p = Some e ->
  found_for (Z.to_nat (ahead (Tock c) (e_window e))) p e c.
Proof.
  intros Hc Hb Hp n. rewrite (ticks_ok n c P st p e Hc Hb Hp). pose proof (ahead_range (Tock c) (e_window e)).
  destruct (Z.leb_spec (Z.of_nat n) (ahead (Tock c) (e_window e))), (Nat.leb_spec n (Z.to_nat (ahead (Tock c) (e_window e)))); lia || done.
Qed.

(** C32: After any AddFile, an entry that it created or refreshed is found
    through exactly 63 turns of the clock, and the 64th removes it, whatever
    lists it was linked in before; an entry that it updated with a node's
    answer is found through exactly the turns that it would have been found
    through without, 63 at most; an advisory for an unknown path leaves it
    unknown. *)
Theorem Entry_expires i c P st R now Sel mask r Sel' c' : 0 <= i < 64 -> cache_run i c P st R ->
  key_ok (Path Sel) -> handle_ok (Store c) (Path Sel) -> time_ok now c ->
  AddFile now Sel mask c = Ok (r, Sel', c') ->
  match view (Store c) !! Val (Path Sel) with
  | Some e0 => exists e,
      if mask =? 0 then e_window e = Tock c /\ found_for 63 (Val (Path Sel)) e c'
      else exists k, (k <= 63)%nat /\ found_for k (Val (Path Sel)) e0 c /\ found_for k (Val (Path Sel)) e c'
  | None =>
      if opt Advisory Sel then forall n, view (Store (ticks n c')) !! Val (Path Sel) = None
      else exists e, e_window e = Tock c /\ found_for 63 (Val (Path Sel)) e c'
  end.
Proof.
  intros Hi Hr Hk Hh Ht Ho. destruct (cache_run_ok i Hi c P st R Hr) as (Hc & Hb & _).
  destruct (AddFile_ok c P st now Sel mask Hc Ht Hk Hh) as (r1 & S1 & c1 & e & Hq & H1 & (K & N & q & H2) & H3 & H4 & _).
  rewrite Ho in Hq. injection Hq as <- <- <-.
  assert (view (Store c') !! Val (Path Sel) = e) as Hv by (by rewrite H4, lookup_partial_alter_eq).
  assert (bounce_ok c') as Hb' by (rewrite H2; by apply bounce_put). assert (Tock c' = Tock c) as HT by (by rewrite H2).
  assert (forall e1, e = Some e1 -> found_for (Z.to_nat (ahead (Tock c) (e_window e1))) (Val (Path Sel)) e1 c') as Hfound.
  { intros e1 ->. rewrite <- HT. by apply (found_window c' P st). }
  assert (e = None -> forall n, view (Store (ticks n c')) !! Val (Path Sel) = None) as Hgone.
  { intros -> n. by apply (ticks_gone n c' P st). }
  assert (forall e1, e = Some e1 -> e_window e1 = Tock c -> found_for 63 (Val (Path Sel)) e1 c') as Hnow.
  { intros e1 He Hw. specialize (Hfound e1 He). rewrite Hw, ahead_self in Hfound. exact Hfound. }
  clear H1 H2 H4 Hv Hb' HT Ho. destruct (view (Store c) !! Val (Path Sel)) as [e0|] eqn:E0; inversion H3; subst.
  - exists (refreshed now c). change (0 =? 0) with true. split; [done|by apply Hnow].
  - eexists. rewrite (proj2 (Z.eqb_neq _ _)) by done. exists (Z.to_nat (ahead (Tock c) (e_window e0))).
    split; [pose proof (ahead_range (Tock c) (e_window e0)); lia|]. split; [by apply (found_window c P st)|]. by apply (Hfound _ eq_refl).
  - match goal with H : opt Advisory Sel = _ |- _ => rewrite H end. exists (new_entry now Sel mask c). split; [done|by apply Hnow].
  - match goal with H : opt Advisory Sel = _ |- _ => rewrite H end. by apply Hgone.
Qed.

(** ** A run *)

(** Node 3 comes up, a client asks for a path, and the node answers. *)
Definition value {A} (d : A) (r : res A) : A := match r with Ok a => a | _ => d end.

Definition is_Ok {A} (r : res A) : bool := match r with Ok _ => true | _ => false end.

Lemma value_ok {A} (d : A) r : is_Ok r = true -> r = Ok (value d r).
Proof. by destruct r. Qed.

Lemma value_ok3 {A B C} (d : A * B * C) r : is_Ok r = true -> r = Ok ((value d r).1.1, (value d r).1.2, (value d r).2).
Proof. by destruct r as [[[]]| | |]. Qed.

Definition sample_path : list Z := [47; 102].
Definition sample_sel (opts : Z) : XrdCmsSelect := MkSelect (XrdCmsKey_new sample_path 0) None opts 0 0 0 0.

Definition sample_start : XrdCmsCache :=
  (value (false, XrdCmsCache_new) (Init true 28800 5 5 false 0 XrdCmsCache_new)).2.
Definition sample_up : XrdCmsCache := value XrdCmsCache_new (Bounce (Z.shiftl 1 3) 3 sample_start).
Definition sample_asked : bool * XrdCmsSelect * XrdCmsCache :=
  value (false, sample_sel 0, XrdCmsCache_new) (AddFile 1000 (sample_sel 0) 0 sample_up).
Definition sample_has : bool * XrdCmsSelect * XrdCmsCache :=
  value (false, sample_sel 0, XrdCmsCache_new) (AddFile 1001 (sample_sel 0) 8 sample_asked.2).

Lemma sample_started : started 28800 5 5 false 0 sample_start.
Proof.
  destruct (Init_ok 28800 5 5 false 0) as (c & Hc & _); [done|done|done|].
  unfold sample_start. unfold started in *. by rewrite Hc.
Qed.

Lemma sample_up_eq : Bounce (Z.shiftl 1 3) 3 sample_start = Ok sample_up.
Proof. unfold sample_up. apply value_ok. vm_compute. reflexivity. Qed.

Lemma sample_asked_eq : AddFile 1000 (sample_sel 0) 0 sample_up = Ok (sample_asked.1.1, sample_asked.1.2, sample_asked.2).
Proof. unfold sample_asked. apply value_ok3. vm_compute. reflexivity. Qed.

Lemma sample_has_eq : AddFile 1001 (sample_sel 0) 8 sample_asked.2 = Ok (sample_has.1.1, sample_has.1.2, sample_has.2).
Proof. unfold sample_has. apply value_ok3. vm_compute. reflexivity. Qed.

#[local] Opaque sample_start sample_up sample_asked sample_has AddFile GetFile DelFile Bounce.

Lemma sample_key : key_ok (Path (sample_sel 0)).
Proof. split; cbn; [repeat constructor; unfold is_byte; lia|done|by left|by left]. Qed.

Lemma sample_handle K opts : handle_ok K (Path (sample_sel opts)).
Proof. by intros a. Qed.

Lemma sample_up_run : cache_run 3 sample_up [] Idle ∅.
Proof.
  apply (run_Bounce 3 sample_start [] Idle ∅ 3); [|done|vm_compute; done|exact sample_up_eq].
  apply (run_Init 3 28800 5 5 false 0); [done|done|done|exact sample_started].
Qed.

Lemma sample_asked_run : cache_run 3 sample_asked.2 [] Idle ∅.
Proof.
  apply (run_AddFile 3 sample_up [] Idle ∅ 1000 (sample_sel 0) 0 sample_asked.1.1 sample_asked.1.2); [apply sample_up_run|
    apply sample_key|apply sample_handle|vm_compute; done|exact sample_asked_eq].
Qed.

Lemma sample_has_run : cache_run 3 sample_has.2 [] Idle ({[ sample_path ]} ∪ ∅).
Proof.
  apply (run_AddFile 3 sample_asked.2 [] Idle ∅ 1001 (sample_sel 0) 8 sample_has.1.1 sample_has.1.2); [apply sample_asked_run|
    apply sample_key|apply sample_handle|vm_compute; done|exact sample_has_eq].
Qed.

Lemma Cache_well_formed_witness : NoDup (mjoin (TockTable (Store sample_has.2)) ++ []).
Proof. apply (Cache_well_formed 3 sample_has.2 [] Idle ({[ sample_path ]} ∪ ∅)); [lia|exact sample_has_run]. Defined.


Lemma GetFile_refines_witness : exists r Sel' c',
  GetFile 1002 1002 (sample_sel 0) 8 sample_has.2 = Ok (r, Sel', c').
Proof.
  destruct (GetFile_refines 3 sample_has.2 [] Idle ({[ sample_path ]} ∪ ∅) 1002 1002 (sample_sel 0) 8 ltac:(lia)
    sample_has_run sample_key) as (r & S' & c' & H1 & _); [vm_compute; done|].
  exists r, S', c'. exact H1.
Defined.

Lemma DelFile_refines_witness : exists r Sel' c' e,
  DelFile 1002 (sample_sel 0) 8 sample_has.2 = Ok (r, Sel', c') /\
  del_spec 1002 (sample_sel 0) 8 sample_has.2 (view (Store sample_has.2) !! sample_path) e r.
Proof.
  destruct (DelFile_refines 3 sample_has.2 [] Idle ({[ sample_path ]} ∪ ∅) 1002 (sample_sel 0) 8 ltac:(lia)
    sample_has_run sample_key) as (r & S' & c' & e & H1 & H2 & _); [vm_compute; done|].
  exists r, S', c', e. split; [exact H1|exact H2].
Defined.

Lemma GetFile_fresh_witness : exists r Sel' c',
  GetFile 1002 1002 (sample_sel 0) 8 sample_has.2 = Ok (r, Sel', c') /\
  (r <> 0 -> Z.testbit (Vec_hf Sel') 3 = true ->
   sample_path ∈ ({[ sample_path ]} ∪ ∅ : gset (list Z)) /\ Z.testbit (okVec sample_has.2) 3 = true).
Proof.
  apply (GetFile_fresh 3 sample_has.2 [] Idle ({[ sample_path ]} ∪ ∅) 1002 1002 (sample_sel 0) 8 ltac:(lia)
    sample_has_run sample_key); [vm_compute; done|reflexivity].
Defined.

(** The question creates the entry; the node's answer does not make it last longer. *)
Lemma Entry_expires_witness :
  (exists e, e_window e = Tock sample_up /\ found_for 63 sample_path e sample_asked.2) /\
  exists e k e', (k <= 63)%nat /\ found_for k sample_path e sample_asked.2 /\ found_for k sample_path e' sample_has.2.
Proof.
  split.
  - pose proof (Entry_expires 3 sample_up [] Idle ∅ 1000 (sample_sel 0) 0 sample_asked.1.1 sample_asked.1.2 sample_asked.2
      ltac:(lia) sample_up_run sample_key (sample_handle _ _) ltac:(vm_compute; done) sample_asked_eq) as H.
    destruct (view (Store sample_up) !! Val (Path (sample_sel 0))) as [e0|] eqn:E; [|exact H].
    exfalso. assert (bool_decide (is_Some (view (Store sample_up) !! Val (Path (sample_sel 0)))) = false) as Hv by (vm_compute; reflexivity).
    by rewrite E in Hv.
  - pose proof (Entry_expires 3 sample_asked.2 [] Idle ∅ 1001 (sample_sel 0) 8 sample_has.1.1 sample_has.1.2 sample_has.2
      ltac:(lia) sample_asked_run sample_key (sample_handle _ _) ltac:(vm_compute; done) sample_has_eq) as H.
    destruct (view (Store sample_asked.2) !! Val (Path (sample_sel 0))) as [e0|] eqn:E.
    + destruct H as (e & k & H). exists e0, k, e. exact H.
    + exfalso. assert (bool_decide (is_Some (view (Store sample_asked.2) !! Val (Path (sample_sel 0)))) = true) as Hv by (vm_compute; reflexivity).
      by rewrite E in Hv.
Defined.

(** The node that answered is reported, *)
Definition reported (r : res (Z * XrdCmsSelect * XrdCmsCache)) : option (Z * Z * Z) :=
  match r with Ok (rc, Sel, _) => Some (rc, Vec_hf Sel, Vec_bf Sel) | _ => None end.

Example sample_reported : reported (GetFile 1002 1002 (sample_sel 0) 8 sample_has.2) = Some (1, 8, 0).
Proof. vm_compute. reflexivity. Qed.

(** and when it bounced it is to be asked again; *)
Definition sample_bounced : XrdCmsCache := value XrdCmsCache_new (Bounce (Z.shiftl 1 3) 3 sample_has.2).

Example bounced_asked_again : reported (GetFile 1003 1003 (sample_sel 0) 8 sample_bounced) = Some (-1, 0, 8).
Proof. vm_compute. reflexivity. Qed.

(** but not if the path was looked up while the node's exports were withdrawn:
    the entry is current for all nodes then, and the old answer stays. *)
Definition sample_masked : XrdCmsCache :=
  (value (0, sample_sel 0, XrdCmsCache_new) (GetFile 1003 1003 (sample_sel 0) 0 sample_bounced)).2.

Example stale_after_masked_lookup : reported (GetFile 1004 1004 (sample_sel 0) 8 sample_masked) = Some (1, 8, 0).
Proof. vm_compute. reflexivity. Qed.
