(* ===== verification/FrcReqFile.v ===== *)
(** * The request file of the file residency manager

    Models src/src/XrdFrc/XrdFrcReqFile.hh, XrdFrcReqFile.cc and the record of
    XrdFrcRequest.hh. A request file holds the requests to stage or copy files: a
    header in its first slot and one request per slot after it. The header starts
    two chains through the slots, of the waiting requests and of the free slots;
    a request that was handed out is in neither until it is deleted. Servers and
    their agents share the file; each operation locks it and reads the header.

    A system call succeeds or fails as an oracle says, so that every error path
    is a value of the model; a process that is killed is one whose later calls
    fail. The file is the header with the list of its slots: every access of the
    code is to the header or to one slot, and another offset is a [Fault]. *)

From stdpp Require Import base tactics list_numbers numbers option gmap list sorting.
From S2P Require Import Prelude CString.
#[local] Set Warnings "-clear-no-such-hyp".

(** ** Data *)

(** [XrdFrcRequest]; the texts are the whole arrays. *)
Record XrdFrcRequest := MkReq {
  LFN : list Z; User : list Z; ID : list Z; Notify : list Z; iName : list Z; csValue : list Z;
  addTOD : Z; This : Z; Next : Z; Options : Z; LFO : Z; Opaque : Z; csType : Z; OPc : Z; Prty : Z }.

Definition ReqSize : Z := 4096.
Definition lfnSize : Z := 3072.

Definition msgFail : Z := 1.
Definition msgSucc : Z := 2.
Definition makeRW : Z := 4.
Definition Register : Z := 0x40.

(** [memset( &tmpReq, 0, sizeof(tmpReq) )] *)
Definition zero_req : XrdFrcRequest :=
  MkReq (replicate 3072 0) (replicate 256 0) (replicate 40 0) (replicate 512 0) (replicate 32 0) (replicate 64 0)
    0 0 0 0 0 0 0 0 0.

Definition set_Next (n : Z) (r : XrdFrcRequest) : XrdFrcRequest :=
  MkReq (LFN r) (User r) (ID r) (Notify r) (iName r) (csValue r) (addTOD r) (This r) n (Options r) (LFO r) (Opaque r)
    (csType r) (OPc r) (Prty r).
Definition set_This (n : Z) (r : XrdFrcRequest) : XrdFrcRequest :=
  MkReq (LFN r) (User r) (ID r) (Notify r) (iName r) (csValue r) (addTOD r) n (Next r) (Options r) (LFO r) (Opaque r)
    (csType r) (OPc r) (Prty r).
Definition set_LFN (l : list Z) (r : XrdFrcRequest) : XrdFrcRequest :=
  MkReq l (User r) (ID r) (Notify r) (iName r) (csValue r) (addTOD r) (This r) (Next r) (Options r) (LFO r) (Opaque r)
    (csType r) (OPc r) (Prty r).

(** The text of an array up to its null. *)
Fixpoint cstr (s : list Z) : list Z :=
  match s with [] => [] | c :: s => if c =? 0 then [] else c :: cstr s end.

(** [*r.LFN == '\0'] *)
Definition blank (r : XrdFrcRequest) : bool := match LFN r with [] => true | c :: _ => c =? 0 end.

Definition registers (r : XrdFrcRequest) : bool := negb (Z.land (Options r) Register =? 0).

Record FileHdr := MkHdr { First : Z; Last : Z; Free : Z }.
Definition zero_hdr : FileHdr := MkHdr 0 0 0.

(** [XrdFrcReqFile]: the file ([None] while it is empty), the header in memory,
    whether the file is open, how often [flMutex] is locked, whether the lock file
    is, and what the coming system calls return. *)
Record XrdFrcReqFile := MkFile {
  disk : option (FileHdr * list XrdFrcRequest); HdrData : FileHdr; reqFD : bool; isAgent : bool;
  flMutex : Z; locked : bool; io : list bool }.

(** [XrdFrcReqFile( fn, aVal )] on a given file *)
Definition XrdFrcReqFile_new (disk : option (FileHdr * list XrdFrcRequest)) (aVal : bool) (io : list bool) : XrdFrcReqFile :=
  MkFile disk zero_hdr false aVal 0 false io.

Definition set_disk (d : option (FileHdr * list XrdFrcRequest)) (f : XrdFrcReqFile) : XrdFrcReqFile :=
  MkFile d (HdrData f) (reqFD f) (isAgent f) (flMutex f) (locked f) (io f).
Definition set_hdr (h : FileHdr) (f : XrdFrcReqFile) : XrdFrcReqFile :=
  MkFile (disk f) h (reqFD f) (isAgent f) (flMutex f) (locked f) (io f).
Definition set_reqFD (b : bool) (f : XrdFrcReqFile) : XrdFrcReqFile :=
  MkFile (disk f) (HdrData f) b (isAgent f) (flMutex f) (locked f) (io f).
Definition set_lock (m : Z) (l : bool) (f : XrdFrcReqFile) : XrdFrcReqFile :=
  MkFile (disk f) (HdrData f) (reqFD f) (isAgent f) m l (io f).
Definition set_io (l : list bool) (f : XrdFrcReqFile) : XrdFrcReqFile :=
  MkFile (disk f) (HdrData f) (reqFD f) (isAgent f) (flMutex f) (locked f) l.

(** ** System calls *)

Definition sys (f : XrdFrcReqFile) : bool * XrdFrcReqFile :=
  match io f with [] => (true, f) | b :: l => (b, set_io l f) end.

Definition slots (f : XrdFrcReqFile) : list XrdFrcRequest := match disk f with Some (_, l) => l | None => [] end.

(** [buf.st_size] *)
Definition st_size (f : XrdFrcReqFile) : Z :=
  match disk f with Some (_, l) => ReqSize * (1 + zlen l) | None => 0 end.

(** The slot at an offset, and its offset. *)
Definition slot_of (Offs : Z) : res nat :=
  if (ReqSize <=? Offs) && (Offs mod ReqSize =? 0) then Ok (Z.to_nat (Offs / ReqSize - 1)) else Fault.
Definition off (k : nat) : Z := ReqSize * (1 + Z.of_nat k).

(** [Offs += ReqSize] on an int *)
Definition next_off (Offs : Z) : res Z := if Offs + ReqSize <? 2 ^ 31 then Ok (Offs + ReqSize) else Fault.

(** [pread( reqFD, Buff, ReqSize, Offs )]. Beyond the end nothing is read: the buffer keeps
    what it had, [old], which the caller then uses; [None] is a buffer that was never set. *)
Definition reqRead (old : option XrdFrcRequest) (Offs : Z) (f : XrdFrcReqFile) : res (bool * XrdFrcRequest * XrdFrcReqFile) :=
  let '(ok, f) := sys f in
  if negb ok then Ok (false, default zero_req old, f)
  else
    k ← slot_of Offs;
    match slots f !! k, old with
    | Some r, _ | None, Some r => Ok (true, r, f)
    | None, None => Fault
    end.

(** [pwrite( reqFD, Buff, ReqSize, Offs )]; a hole reads as nulls. *)
Definition put_slot (k : nat) (r : XrdFrcRequest) (l : list XrdFrcRequest) : list XrdFrcRequest :=
  if (k <? length l)%nat then <[k := r]> l else l ++ replicate (k - length l) zero_req ++ [r].

Definition pwrite_req (r : XrdFrcRequest) (Offs : Z) (f : XrdFrcReqFile) : res (bool * XrdFrcReqFile) :=
  let '(ok, f) := sys f in
  if negb ok then Ok (false, f)
  else
    k ← slot_of Offs;
    Ok (true, set_disk (Some (match disk f with Some (h, _) => h | None => zero_hdr end, put_slot k r (slots f))) f).

(** [pwrite( reqFD, &HdrData, sizeof(HdrData), 0 )] *)
Definition pwrite_hdr (f : XrdFrcReqFile) : res (bool * XrdFrcReqFile) :=
  let '(ok, f) := sys f in
  if negb ok then Ok (false, f)
  else match disk f with Some (_, l) => Ok (true, set_disk (Some (HdrData f, l)) f) | None => Fault end.

(** [reqWrite( Buff, Offs, updthdr )] *)
Definition reqWrite (Buff : option XrdFrcRequest) (Offs : Z) (updthdr : bool) (f : XrdFrcReqFile) : res (bool * XrdFrcReqFile) :=
  '(rc, f) ← match Buff with
             | Some r => if Offs =? 0 then Ok (true, f) else pwrite_req r Offs f
             | None => Ok (true, f)
             end;
  if rc && updthdr then
    '(rc, f) ← pwrite_hdr f;
    if rc : bool then Ok (sys f) else Ok (false, f)
  else Ok (rc, f).

(** ** Locks *)

(** [FileLock( lkNone )] *)
Definition FileUnlock (f : XrdFrcReqFile) : bool * XrdFrcReqFile :=
  let f := if isAgent f then set_reqFD false f else f in
  let '(ok, f) := sys f in
  if ok then (true, set_lock (flMutex f - 1) false f) else (false, f).

(** [FileLock( lktype )] of the other types; [refresh] for all but [lkInit]. A
    mutex that is held is waited for without end. *)
Definition FileLock (refresh : bool) (f : XrdFrcReqFile) : res (bool * XrdFrcReqFile) :=
  if 0 <? flMutex f then Diverge
  else
    let f := set_lock (flMutex f + 1) (locked f) f in
    let '(ok, f) := sys f in
    if negb ok then Ok (false, f)
    else
      let f := set_lock (flMutex f) true f in
      if negb refresh then Ok (true, f)
      else
        let '(ok, f) := if reqFD f then (true, f) else let '(ok, f) := sys f in (ok, set_reqFD ok f) in
        if negb ok then Ok (false, (FileUnlock f).2)
        else
          let '(ok, f) := sys f in
          if negb ok then Ok (false, (FileUnlock f).2)
          else Ok (true, match disk f with Some (h, _) => set_hdr h f | None => f end).

(** ** Operations *)

(** [FailAdd], [FailCan], [FailDel]: a message, and the lock given back if asked. *)
Definition Fail_op (unlk : bool) (f : XrdFrcReqFile) : bool * XrdFrcReqFile :=
  (false, if unlk then (FileUnlock f).2 else f).

(** The slot for a new request: the first free one, or the end of the file. *)
Definition Add_slot (f : XrdFrcReqFile) : res (option Z * XrdFrcReqFile) :=
  let fP := Free (HdrData f) in
  if negb (fP =? 0) then
    '(ok, tmpReq, f) ← reqRead None fP f;
    if negb ok then Ok (None, f)
    else Ok (Some fP, set_hdr (MkHdr (First (HdrData f)) (Last (HdrData f)) (Next tmpReq)) f)
  else
    let '(ok, f) := sys f in
    if ok then Ok (Some (i32 (st_size f)), f) else Ok (None, f).

(** The request is chained in: registrations first, others last. *)
Definition Add_chain (rP : XrdFrcRequest) (fP : Z) (f : XrdFrcReqFile) : res (option XrdFrcRequest * XrdFrcReqFile) :=
  let h := HdrData f in
  if registers rP then
    let rP := set_Next (First h) rP in
    Ok (Some rP, set_hdr (MkHdr fP (if First h =? 0 then fP else Last h) (Free h)) f)
  else
    '(ok, f) ← (if negb (First h =? 0) && negb (Last h =? 0) then
                  '(ok, tmpReq, f) ← reqRead None (Last h) f;
                  if negb ok then Ok (false, f)
                  else reqWrite (Some (set_Next fP tmpReq)) (Last h) false f
                else Ok (true, set_hdr (MkHdr fP (Last h) (Free h)) f));
    if negb ok then Ok (None, f)
    else
      let h := HdrData f in
      Ok (Some (set_Next 0 rP), set_hdr (MkHdr (First h) fP (Free h)) f).

(** [Add( rP )]: whether the request was added, as the caller's messages say. *)
Definition Add (rP : XrdFrcRequest) (f : XrdFrcReqFile) : res (bool * XrdFrcReqFile) :=
  '(ok, f) ← FileLock true f;
  if negb ok then Ok (Fail_op false f)
  else
    '(fP, f) ← Add_slot f;
    match fP with
    | None => Ok (Fail_op true f)
    | Some fP =>
        '(rP, f) ← Add_chain rP fP f;
        match rP with
        | None => Ok (Fail_op true f)
        | Some rP =>
            '(ok, f) ← reqWrite (Some (set_This fP rP)) fP true f;
            Ok (ok, (FileUnlock f).2)
        end
    end.

(** The loop of [Can] from an offset: the entries removed and the failures. *)
Fixpoint Can_loop (n : nat) (id : list Z) (Offs : Z) (tmpReq : option XrdFrcRequest) (numCan numBad : Z) (f : XrdFrcReqFile)
  : res (option (Z * Z) * XrdFrcReqFile) :=
  match n with
  | O => Ok (Some (numCan, numBad), f)
  | S n =>
      '(ok, tmpReq, f) ← reqRead tmpReq Offs f;
      if negb ok then Ok (None, f)
      else if bool_decide (cstr (ID tmpReq) = id) then
        let tmpReq := set_LFN (<[0%nat := 0]> (LFN tmpReq)) tmpReq in
        '(ok, f) ← reqWrite (Some tmpReq) Offs false f;
        Offs ← next_off Offs;
        if ok : bool then Can_loop n id Offs (Some tmpReq) (numCan + 1) numBad f
        else Can_loop n id Offs (Some tmpReq) numCan (numBad + 1) f
      else Offs ← next_off Offs; Can_loop n id Offs (Some tmpReq) numCan numBad f
  end.

(** [Can( rP )] *)
Definition Can (rP : XrdFrcRequest) (f : XrdFrcReqFile) : res (bool * XrdFrcReqFile) :=
  '(ok, f) ← FileLock true f;
  let '(ok, f) := if ok : bool then sys f else (false, f) in
  if negb ok then Ok (Fail_op false f)
  else
    '(r, f) ← Can_loop (Z.to_nat (st_size f / ReqSize - 1)) (cstr (ID rP)) ReqSize None 0 0 f;
    match r with
    | None => Ok (Fail_op true f)
    | Some (numCan, numBad) =>
        let f := if numCan =? 0 then f else (sys f).2 in
        Ok (numBad =? 0, (FileUnlock f).2)
    end.

(** [Del( rP )] *)
Definition Del (rP : XrdFrcRequest) (f : XrdFrcReqFile) : res (bool * XrdFrcReqFile) :=
  '(ok, f) ← FileLock true f;
  if negb ok then Ok (Fail_op false f)
  else
    let h := HdrData f in
    let tmpReq := set_Next (Free h) zero_req in
    let f := set_hdr (MkHdr (First h) (Last h) (This rP)) f in
    '(ok, f) ← reqWrite (Some tmpReq) (This rP) true f;
    Ok (ok, (FileUnlock f).2).

(** The loop of [Get]: the request found and its offset. *)
Fixpoint Get_loop (fuel : nat) (rP : XrdFrcRequest) (f : XrdFrcReqFile) : res (option Z * XrdFrcRequest * XrdFrcReqFile) :=
  let h := HdrData f in
  let fP := First h in
  if fP =? 0 then Ok (Some 0, rP, f)
  else
    match fuel with
    | O => Diverge
    | S fuel =>
        '(ok, rP, f) ← reqRead (Some rP) fP f;
        if negb ok then Ok (None, rP, f)
        else
          let f := set_hdr (MkHdr (Next rP) (Last h) (Free h)) f in
          if negb (blank rP) then
            '(_, f) ← reqWrite None 0 true f; Ok (Some fP, rP, f)
          else
            let rP := set_Next (Free h) rP in
            let f := set_hdr (MkHdr (First (HdrData f)) (Last h) fP) f in
            '(ok, f) ← reqWrite (Some rP) fP true f;
            if negb ok then Ok (Some 0, rP, f) else Get_loop fuel rP f
    end.

(** [Get( rP )]: 0 for none, 1 with more in the queue, -1 without. *)
Definition Get (fuel : nat) (rP : XrdFrcRequest) (f : XrdFrcReqFile) : res (Z * XrdFrcRequest * XrdFrcReqFile) :=
  '(ok, f) ← FileLock true f;
  if negb ok then Ok (0, rP, f)
  else
    '(fP, rP, f) ← Get_loop fuel rP f;
    match fP with
    | None => Ok (0, rP, (FileUnlock f).2)
    | Some fP =>
        let rc := if fP =? 0 then 0 else if First (HdrData f) =? 0 then -1 else 1 in
        Ok (rc, rP, (FileUnlock f).2)
    end.

(** ** Recovery *)

(** [*tmpReq.LFN == '\0' || !tmpReq.addTOD || tmpReq.Opaque >= int(sizeof(tmpReq.LFN))] *)
Definition skipped (r : XrdFrcRequest) : bool := blank r || (addTOD r =? 0) || (lfnSize <=? Opaque r).

(** The place by time, before the requests of the same second. *)
Fixpoint insert_tod (r : XrdFrcRequest) (l : list XrdFrcRequest) : list XrdFrcRequest :=
  match l with
  | [] => [r]
  | x :: l' => if addTOD x <? addTOD r then x :: insert_tod r l' else r :: l
  end.

(** The scan of [Init]: the registrations, last one first, and the others. *)
Fixpoint Init_scan (n : nat) (Offs : Z) (tmpReq : option XrdFrcRequest) (RegList First : list XrdFrcRequest) (f : XrdFrcReqFile)
  : res (option (list XrdFrcRequest * list XrdFrcRequest) * XrdFrcReqFile) :=
  match n with
  | O => Ok (Some (RegList, First), f)
  | S n =>
      '(ok, tmpReq, f) ← reqRead tmpReq Offs f;
      if negb ok then Ok (None, f)
      else
        Offs ← next_off Offs;
        if skipped tmpReq then Init_scan n Offs (Some tmpReq) RegList First f
        else if registers tmpReq then Init_scan n Offs (Some tmpReq) (tmpReq :: RegList) First f
        else Init_scan n Offs (Some tmpReq) RegList (insert_tod tmpReq First) f
  end.

(** The records of [ReWrite], each chained to the next. *)
Fixpoint ReWrite_loop (l : list XrdFrcRequest) (Offs : Z) (f : XrdFrcReqFile) : res (bool * Z * XrdFrcReqFile) :=
  match l with
  | [] => Ok (true, Offs, f)
  | r :: l =>
      Next ← match l with [] => Ok 0 | _ => next_off Offs end;
      '(ok, f) ← reqWrite (Some (set_Next Next (set_This Offs r))) Offs false f;
      if negb ok then Ok (false, Offs, f) else Offs ← next_off Offs; ReWrite_loop l Offs f
  end.

(** [ReWrite( rP )]: the new file replaces the old one once it is complete. *)
Definition ReWrite (rP : list XrdFrcRequest) (f : XrdFrcReqFile) : res (bool * XrdFrcReqFile) :=
  let '(ok, f) := sys f in
  if negb ok then Ok (false, (FileUnlock f).2)
  else
    let old := disk f in
    let f := set_disk None f in
    '(aOK, f) ← match rP with
                | _ :: _ =>
                    '(aOK, Offs, f) ← ReWrite_loop rP ReqSize f;
                    Ok (aOK, set_hdr (MkHdr ReqSize (Offs - ReqSize) 0) f)
                | [] =>
                    let '(ok, f) := sys f in
                    let f := if ok then set_disk (Some (zero_hdr, [])) f else f in
                    Ok (ok, set_hdr (MkHdr 0 0 0) f)
                end;
    '(aOK, f) ← (if aOK : bool then reqWrite None 0 true f else Ok (false, f));
    let '(aOK, f) := if aOK : bool then sys f else (false, f) in
    Ok (aOK, if aOK then f else set_disk old f).

(** [Init()]: the result and the instances whose requests were recovered. *)
Definition Init (f : XrdFrcReqFile) : res (bool * list (list Z) * XrdFrcReqFile) :=
  let '(ok, f) := sys f in
  if negb ok then Ok (false, [], f)
  else
    '(ok, f) ← FileLock false f;
    if negb ok then Ok (false, [], f)
    else
      let '(ok, f) := sys f in
      if negb ok then Ok (false, [], (FileUnlock f).2)
      else
        let f := set_reqFD true f in
        let '(ok, f) := sys f in
        if negb ok then Ok (false, [], (FileUnlock f).2)
        else if st_size f <? ReqSize then
          let f := set_hdr (MkHdr (First (HdrData f)) (Last (HdrData f)) ReqSize) f in
          '(ok, f) ← reqWrite (Some zero_req) ReqSize true f;
          Ok (ok, [], (FileUnlock f).2)
        else if isAgent f then Ok (true, [], (FileUnlock f).2)
        else
          '(r, f) ← Init_scan (Z.to_nat (st_size f / ReqSize - 1)) ReqSize None [] [] f;
          match r with
          | None => Ok (false, [], (FileUnlock f).2)
          | Some (RegList, First) =>
              let First := rev RegList ++ First in
              '(rc, f) ← ReWrite First f;
              Ok (rc, cstr ∘ iName <$> First, (FileUnlock f).2)
          end.

(** ** Slots and chains *)

Lemma off_pos k : ReqSize <= off k.
Proof. unfold off, ReqSize. lia. Qed.

Lemma slot_of_off k : slot_of (off k) = Ok k.
Proof.
  unfold slot_of. pose proof (off_pos k) as Hp. destruct (Z.leb_spec ReqSize (off k)); [|lia]. cbn [andb].
  unfold off, ReqSize in *. rewrite (Z.mul_comm 4096), Z.mod_mul, Z.div_mul by lia. cbn [Z.eqb]. f_equal. lia.
Qed.

Lemma off_inj j k : off j = off k -> j = k.
Proof. unfold off, ReqSize. lia. Qed.

Lemma off_0 k : (off k =? 0) = false.
Proof. apply Z.eqb_neq. pose proof (off_pos k). unfold ReqSize in *. lia. Qed.

Lemma put_slot_lookup k j r l : (k <= length l)%nat ->
  put_slot k r l !! j = if decide (j = k) then Some r else l !! j.
Proof.
  intros Hk. unfold put_slot. destruct (Nat.ltb_spec k (length l)).
  - case_decide as Hd; [subst; by rewrite list_lookup_insert_eq|by rewrite list_lookup_insert_ne].
  - assert (k = length l) as -> by lia. rewrite Nat.sub_diag. cbn [replicate app]. case_decide as Hd.
    + subst. rewrite lookup_app_r by lia. by rewrite Nat.sub_diag.
    + destruct (decide (j < length l)%nat); [by rewrite lookup_app_l|].
      rewrite lookup_app_r by lia. rewrite (lookup_ge_None_2 l) by lia. apply lookup_ge_None_2. cbn. lia.
Qed.

Lemma put_slot_length k r l : (k <= length l)%nat -> length (put_slot k r l) = Nat.max (length l) (S k).
Proof.
  intros Hk. unfold put_slot. destruct (Nat.ltb_spec k (length l)); [rewrite length_insert; lia|].
  rewrite length_app, length_app, length_replicate. cbn. lia.
Qed.

(** The slots of a chain from an offset. *)
Fixpoint chain (l : list XrdFrcRequest) (p : Z) (ks : list nat) : Prop :=
  match ks with
  | [] => p = 0
  | k :: ks => p = off k /\ exists r, l !! k = Some r /\ chain l (Next r) ks
  end.

Lemma chain_same l l' p ks : (forall k, k ∈ ks -> exists r r', l !! k = Some r /\ l' !! k = Some r' /\ Next r' = Next r) ->
  chain l p ks -> chain l' p ks.
Proof.
  revert p. induction ks as [|k ks IH]; intros p Hs; [done|]. cbn [chain]. intros (-> & r & Hr & Hc). split; [done|].
  destruct (Hs k ltac:(left)) as (r0 & r' & H0 & H1 & H2). exists r'. split; [done|]. rewrite Hr in H0. injection H0 as ->.
  rewrite H2. apply IH; [|done]. intros k' Hk'. apply Hs. by right.
Qed.

Lemma slots_chain_lookup l p ks k : chain l p ks -> k ∈ ks -> exists r, l !! k = Some r.
Proof.
  revert p. induction ks as [|k' ks IH]; intros p; [by intros _ ?%elem_of_nil|]. cbn [chain].
  intros (_ & r & Hr & Hc) [->|Hk]%elem_of_cons; eauto.
Qed.

(** A slot is linked behind the last one. *)
Lemma chain_snoc l p ks k j r : chain l p (ks ++ [k]) -> NoDup (ks ++ [k]) -> l !! k = Some r -> j ∉ ks ++ [k] ->
  forall l' rj, l' !! k = Some (set_Next (off j) r) -> l' !! j = Some rj -> Next rj = 0 ->
    (forall k', k' ∈ ks -> l' !! k' = l !! k') -> chain l' p (ks ++ [k; j]).
Proof.
  revert p. induction ks as [|k' ks IH]; intros p Hc Hd Hk Hj l' rj H1 H2 H3 Hs; cbn [app chain] in *.
  - destruct Hc as (-> & _). split; [done|]. exists (set_Next (off j) r). split; [done|]. cbn. eauto.
  - destruct Hc as (-> & r' & Hr' & Hc). split; [done|]. apply NoDup_cons in Hd as [Hd1 Hd2].
    exists r'. split; [rewrite Hs by left; done|]. apply (IH (Next r') Hc Hd2 Hk) with (rj := rj); try done.
    + set_solver.
    + intros k'' Hk''. apply Hs. by right.
Qed.

(** A request without the links that the file gives it. *)
Definition body (r : XrdFrcRequest) : XrdFrcRequest := set_This 0 (set_Next 0 r).

Record file_wf (h : FileHdr) (l : list XrdFrcRequest) (q fr : list nat) : Prop := {
  f_first : chain l (First h) q;
  f_free : chain l (Free h) fr;
  f_nodup : NoDup (q ++ fr);
  f_blank : forall k r, k ∈ fr -> l !! k = Some r -> blank r = true;
  f_last : forall k, last q = Some k -> Last h = off k;
  f_this : forall k r, k ∈ q -> l !! k = Some r -> This r = off k }.

(** The requests that wait, with their offsets; cancelled ones do not count. *)
Definition waiting (l : list XrdFrcRequest) (k : nat) : option (Z * XrdFrcRequest) :=
  match l !! k with Some r => if blank r then None else Some (off k, body r) | None => None end.
Definition queue (l : list XrdFrcRequest) (q : list nat) : list (Z * XrdFrcRequest) := omap (waiting l) q.

(** An idle handle of a file that stands for the queue [Q], with the offsets [O]
    handed out. *)
Record rep (f : XrdFrcReqFile) (Q : list (Z * XrdFrcRequest)) (O : gset Z) : Prop := {
  r_idle : flMutex f = 0 /\ io f = [];
  r_file : exists h l q fr, disk f = Some (h, l) /\ file_wf h l q fr /\ Q = queue l q /\
    forall o, o ∈ O -> exists k, o = off k /\ (k < length l)%nat /\ k ∉ q ++ fr }.

(** ** The critical section without failures *)

Definition inside (ag : bool) (hd : FileHdr) (l : list XrdFrcRequest) (hm : FileHdr) : XrdFrcReqFile :=
  MkFile (Some (hd, l)) hm true ag 1 true [].

Definition idle (ag : bool) (hd : FileHdr) (l : list XrdFrcRequest) (hm : FileHdr) : XrdFrcReqFile :=
  MkFile (Some (hd, l)) hm (negb ag) ag 0 false [].

Lemma lock_inside f h l : disk f = Some (h, l) -> flMutex f = 0 -> io f = [] ->
  FileLock true f = Ok (true, inside (isAgent f) h l h).
Proof. destruct f as [d hm fd ag m lk i]. cbn. intros -> -> ->. by destruct fd. Qed.

Lemma unlock_inside ag hd l hm : FileUnlock (inside ag hd l hm) = (true, idle ag hd l hm).
Proof. by destruct ag. Qed.

Lemma sys_inside ag hd l hm : sys (inside ag hd l hm) = (true, inside ag hd l hm).
Proof. done. Qed.
Lemma hdr_inside ag hd l hm : HdrData (inside ag hd l hm) = hm.
Proof. done. Qed.
Lemma set_hdr_inside h ag hd l hm : set_hdr h (inside ag hd l hm) = inside ag hd l h.
Proof. done. Qed.
Lemma size_inside ag hd l hm : st_size (inside ag hd l hm) = off (length l).
Proof. done. Qed.

Lemma read_inside old ag hd l hm k r : l !! k = Some r -> reqRead old (off k) (inside ag hd l hm) = Ok (true, r, inside ag hd l hm).
Proof.
  intros Hk. unfold reqRead. cbn [sys inside io negb]. rewrite slot_of_off. step_ok.
  change (slots (inside ag hd l hm)) with l. by rewrite Hk.
Qed.

Lemma write_inside r ag hd l hm k u : reqWrite (Some r) (off k) u (inside ag hd l hm) =
  Ok (true, inside ag (if u : bool then hm else hd) (put_slot k r l) hm).
Proof.
  unfold reqWrite. rewrite off_0. unfold pwrite_req. cbn [sys inside io negb]. rewrite slot_of_off. step_ok.
  step_ok. by destruct u.
Qed.

Lemma write_hdr_inside ag hd l hm : reqWrite None 0 true (inside ag hd l hm) = Ok (true, inside ag hm l hm).
Proof. done. Qed.

Lemma idle_rep ag hd l hm q fr O : file_wf hd l q fr ->
  (forall o, o ∈ O -> exists k, o = off k /\ (k < length l)%nat /\ k ∉ q ++ fr) ->
  rep (idle ag hd l hm) (queue l q) O.
Proof. intros Hw HO. split; [done|]. exists hd, l, q, fr. done. Qed.

Lemma chain_off l p ks : chain l p ks -> p = match ks with [] => 0 | k :: _ => off k end.
Proof. destruct ks; [done|]. by intros []. Qed.

Lemma queue_same l l' q : (forall k, k ∈ q -> waiting l' k = waiting l k) -> queue l' q = queue l q.
Proof.
  induction q as [|k q IH]; intros Hs; [done|]. cbn. rewrite Hs by left. destruct (waiting l k); [f_equal|];
    apply IH; intros; apply Hs; by right.
Qed.

Lemma queue_app l q1 q2 : queue l (q1 ++ q2) = queue l q1 ++ queue l q2.
Proof. apply omap_app. Qed.

Lemma waiting_put k j r l : (k <= length l)%nat -> j <> k -> waiting (put_slot k r l) j = waiting l j.
Proof. intros Hk Hj. unfold waiting. by rewrite put_slot_lookup, decide_False. Qed.

Lemma waiting_new k r l : (k <= length l)%nat -> blank r = false -> waiting (put_slot k r l) k = Some (off k, body r).
Proof. intros Hk Hb. unfold waiting. rewrite put_slot_lookup, decide_True by done. by rewrite Hb. Qed.

(** ** Adding *)

Lemma add_slot_inside ag h l q fr : file_wf h l q fr -> off (length l) < 2 ^ 31 ->
  exists k h' fr', Add_slot (inside ag h l h) = Ok (Some (off k), inside ag h l h') /\
    First h' = First h /\ Last h' = Last h /\ (k <= length l)%nat /\ chain l (Free h') fr' /\ NoDup (k :: q ++ fr') /\
    (forall j, j ∈ fr' -> j ∈ fr) /\ (forall j, (j < length l)%nat -> j ∉ q ++ fr -> j <> k).
Proof.
  intros Hw Hs. destruct Hw as [W1 W2 W3 W4 W5 W6]. unfold Add_slot. rewrite hdr_inside. destruct fr as [|k fr].
  - cbn [chain] in W2. rewrite W2. cbn [Z.eqb negb]. rewrite sys_inside, size_inside. exists (length l), h, [].
    assert (i32 (off (length l)) = off (length l)) as ->.
    { pose proof (off_pos (length l)). unfold i32, ReqSize in *. rewrite Z.mod_small by lia. lia. }
    split; [done|]. split; [done|]. split; [done|]. split; [done|]. split; [by rewrite W2|]. split; [|split; [done|lia]].
    apply NoDup_cons. split; [|by rewrite app_nil_r in *]. intros Hk. rewrite app_nil_r in *.
    apply (slots_chain_lookup _ _ _ _ W1) in Hk as [r Hk]. apply lookup_lt_Some in Hk. lia.
  - cbn [chain] in W2. destruct W2 as (-> & r & Hr & Hc). rewrite off_0. cbn [negb]. rewrite (read_inside _ _ _ _ _ k r Hr). step_ok.
    cbn [negb]. rewrite hdr_inside, set_hdr_inside. exists k. eexists _, fr. split; [reflexivity|]. cbn [First Last Free]. split; [done|]. split; [done|].
    split; [apply lookup_lt_Some in Hr; lia|]. split; [done|]. split; [|split].
    + by rewrite Permutation_middle.
    + intros j Hj. by right.
    + intros j _ Hj ->. apply Hj. set_solver.
Qed.

(** Where a request is put in the queue. *)
Definition enqueue {A} (first : bool) (x : A) (l : list A) : list A := if first then x :: l else l ++ [x].

Lemma waiting_relink m r n l j : l !! m = Some r -> waiting (put_slot m (set_Next n r) l) j = waiting l j.
Proof.
  intros Hm. assert (m <= length l)%nat as Hle by (apply lookup_lt_Some in Hm; lia).
  destruct (decide (j = m)) as [->|Hne]; [|by apply waiting_put]. unfold waiting. by rewrite put_slot_lookup, decide_True, Hm by done.
Qed.

Lemma add_chain_inside ag h h1 l q fr' k rP : chain l (First h) q -> NoDup (k :: q ++ fr') -> (k <= length l)%nat ->
  (forall j, last q = Some j -> Last h = off j) -> First h1 = First h -> Last h1 = Last h ->
  exists rP' l2 h2, Add_chain rP (off k) (inside ag h l h1) = Ok (Some rP', inside ag h l2 h2) /\
    body rP' = body rP /\ Free h2 = Free h1 /\ length l2 = length l /\ (forall j, waiting l2 j = waiting l j) /\
    (forall j, j ∉ q -> l2 !! j = l !! j) /\
    (forall j r, l !! j = Some r -> exists r2, l2 !! j = Some r2 /\ This r2 = This r) /\
    (forall j, last (enqueue (registers rP) k q) = Some j -> Last h2 = off j) /\
    chain (put_slot k (set_This (off k) rP') l2) (First h2) (enqueue (registers rP) k q).
Proof.
  intros Hc Hd Hk Hl HF HL. unfold Add_chain. rewrite hdr_inside, HF, HL.
  apply NoDup_cons in Hd as [Hkq Hd]. apply NoDup_app in Hd as (Hdq & _ & _).
  assert (k ∉ q) as Hk2 by (intros H; apply Hkq, elem_of_app; by left).
  destruct (registers rP) eqn:HR; cbn [enqueue].
  - rewrite set_hdr_inside. eexists _, l, _. split; [reflexivity|]. cbn [First Last Free]. do 6 (split; [done||eauto|]). split.
    + intros j Hj. destruct q as [|m q]; cbn [chain] in Hc.
      * rewrite Hc. cbn in Hj. by injection Hj as <-.
      * destruct Hc as [-> _]. rewrite off_0. apply Hl. done.
    + split; [done|]. eexists. rewrite put_slot_lookup, decide_True by done. split; [done|]. cbn [Next set_This set_Next].
      apply (chain_same l); [|done]. intros j Hj. destruct (slots_chain_lookup _ _ _ _ Hc Hj) as [r Hr].
      exists r, r. rewrite put_slot_lookup, decide_False by (done || by intros ->). done.
  - destruct (last q) as [m|] eqn:Hlast.
    + apply last_Some in Hlast as [q0 ->]. specialize (Hl m eq_refl).
      assert (First h <> 0) as HF0.
      { rewrite (chain_off _ _ _ Hc). destruct q0; cbn; apply Z.eqb_neq, off_0. }
      apply Z.eqb_neq in HF0 as ->. rewrite Hl, off_0. cbn [negb andb].
      destruct (slots_chain_lookup _ _ _ m Hc ltac:(set_solver)) as [r Hr]. rewrite (read_inside _ _ _ _ _ m r Hr). step_ok.
      cbn [negb]. rewrite write_inside. step_ok. cbn [negb]. rewrite hdr_inside, set_hdr_inside. eexists _, _, _. split; [reflexivity|].
      assert (m < length l)%nat as Hm by (by apply lookup_lt_Some in Hr).
      cbn [First Last Free]. split; [done|]. split; [done|]. split; [rewrite put_slot_length by lia; lia|].
      split; [intros j; by apply waiting_relink|]. split; [intros j Hj; rewrite put_slot_lookup by lia; rewrite decide_False by set_solver; done|].
      split. { intros j r' Hj. rewrite put_slot_lookup by lia. case_decide as Hjm; [|eauto]. subst j. rewrite Hr in Hj. injection Hj as ->. eauto. }
      split. { intros j. rewrite last_snoc. by intros [= <-]. }
      rewrite <- app_assoc. cbn [app]. rewrite HF.
      assert (k <> m) as Hkm by set_solver.
      assert (k <= length (put_slot m (set_Next (off k) r) l))%nat as Hk3 by (rewrite put_slot_length; lia).
      apply (chain_snoc l _ q0 m k r Hc Hdq Hr Hk2 _ (set_This (off k) (set_Next 0 rP))).
      * rewrite put_slot_lookup, decide_False by (exact Hk3 || congruence). by rewrite put_slot_lookup, decide_True by lia.
      * by rewrite put_slot_lookup, decide_True by (exact Hk3 || done).
      * done.
      * intros j Hj. rewrite put_slot_lookup, decide_False, put_slot_lookup, decide_False; try done; try lia.
        -- apply NoDup_app in Hdq as (_ & Hdq & _). intros ->. apply (Hdq m Hj). left.
        -- intros ->. apply Hk2, elem_of_app. by left.
    + apply last_None in Hlast as ->. cbn [chain] in Hc. rewrite Hc. cbn [Z.eqb negb andb]. step_ok. cbn [negb].
      rewrite !set_hdr_inside, !hdr_inside. eexists _, l, _. split; [reflexivity|]. cbn [First Last Free app]. do 6 (split; [done||eauto|]).
      split; [by intros j [= <-]|]. split; [done|]. eexists. rewrite put_slot_lookup, decide_True by done. split; [done|]. done.
Qed.

Lemma blank_body r : blank (body r) = blank r.
Proof. done. Qed.

Lemma elem_enqueue {A} b (x y : A) l : x ∈ enqueue b y l <-> x = y \/ x ∈ l.
Proof. destruct b; cbn; [apply elem_of_cons|]. rewrite elem_of_app, list_elem_of_singleton. tauto. Qed.

Lemma enqueue_perm {A} b (y : A) l : enqueue b y l ≡ₚ y :: l.
Proof. destruct b; cbn; [done|]. by rewrite Permutation_app_comm. Qed.

Lemma Add_ok f h l q fr rP : disk f = Some (h, l) -> flMutex f = 0 -> io f = [] -> file_wf h l q fr ->
  off (length l) < 2 ^ 31 -> blank rP = false ->
  exists k h' l' fr', Add rP f = Ok (true, idle (isAgent f) h' l' h') /\
    file_wf h' l' (enqueue (registers rP) k q) fr' /\ waiting l' k = Some (off k, body rP) /\
    (forall j, j <> k -> waiting l' j = waiting l j) /\ (length l <= length l')%nat /\ (k < length l')%nat /\
    (forall j, (j < length l)%nat -> j ∉ q ++ fr -> j <> k /\ (j ∉ fr')) /\ (k ∉ q).
Proof.
  intros Hd Hm Hio Hw Hs Hb. unfold Add. rewrite (lock_inside f h l Hd Hm Hio). step_ok. cbn [negb].
  destruct (add_slot_inside (isAgent f) h l q fr Hw Hs) as (k & h1 & fr' & -> & HF & HL & Hk & Hcf & Hnd & Hsub & Hout).
  step_ok. destruct Hw as [W1 W2 W3 W4 W5 W6].
  destruct (add_chain_inside (isAgent f) h h1 l q fr' k rP W1 Hnd Hk W5 HF HL) as
    (rP' & l2 & h2 & -> & Hbody & HFr & Hlen & Hwait & Hsame & Hthis & Hlast & Hchain).
  step_ok. rewrite write_inside. step_ok. rewrite unlock_inside. cbn [snd].
  set (l' := put_slot k (set_This (off k) rP') l2) in *. assert (k <= length l2)%nat as Hk2 by lia.
  assert (length l' = Nat.max (length l) (S k)) as Hlen' by (unfold l'; rewrite put_slot_length by done; lia).
  assert (forall j, l' !! j = if decide (j = k) then Some (set_This (off k) rP') else l2 !! j) as Hl'.
  { intros j. by apply put_slot_lookup. }
  exists k, h2, l', fr'. apply NoDup_cons in Hnd as [Hkn Hnd].
  split; [done|]. split; [split|].
  - exact Hchain.
  - rewrite HFr. apply (chain_same l); [|done]. intros j Hj. destruct (slots_chain_lookup _ _ _ _ Hcf Hj) as [r Hr].
    exists r, r. rewrite Hl', decide_False by (intros ->; apply Hkn, elem_of_app; by right). rewrite Hsame; [done|].
    apply NoDup_app in Hnd as (_ & Hnd & _). intros Hq. by apply (Hnd j).
  - rewrite enqueue_perm. cbn [app]. by apply NoDup_cons.
  - intros j r Hj Hr. rewrite Hl', decide_False in Hr by (intros ->; apply Hkn, elem_of_app; by right). rewrite Hsame in Hr.
    + apply (W4 j); [by apply Hsub|done].
    + apply NoDup_app in Hnd as (_ & Hnd & _). intros Hq. by apply (Hnd j).
  - exact Hlast.
  - intros j r Hj Hr. rewrite Hl' in Hr. case_decide as Hd2; [subst j; by injection Hr as <-|].
    apply elem_enqueue in Hj as [?|Hj]; [done|]. destruct (slots_chain_lookup _ _ _ _ W1 Hj) as [r0 Hr0].
    destruct (Hthis j r0 Hr0) as (r2 & Hr2 & Ht). rewrite Hr in Hr2. injection Hr2 as ->. rewrite Ht. by apply (W6 j).
  - split; [unfold waiting; rewrite Hl', decide_True by done|].
    { change (blank (set_This (off k) rP')) with (blank (body rP')). rewrite Hbody, blank_body, Hb. f_equal.
      f_equal. by rewrite <- Hbody. }
    split; [intros j Hj; unfold waiting; rewrite Hl', decide_False by done; apply Hwait|].
    split; [lia|]. split; [lia|]. split; [|intros Hq; apply Hkn, elem_of_app; by left].
    intros j Hj Hn. split; [by apply Hout|]. intros Hjf. apply Hn, elem_of_app. right. by apply Hsub.
Qed.

(** ** Handing out *)

Lemma Get_loop_ok ag q : forall fuel rP l h fr, file_wf h l q fr -> (length q <= fuel)%nat ->
  match queue l q with
  | [] => exists r h' l' fr', Get_loop fuel rP (inside ag h l h) = Ok (Some 0, r, inside ag h' l' h') /\
      file_wf h' l' [] fr' /\ length l' = length l /\ (forall j, j ∈ fr' -> j ∈ q ++ fr)
  | (o, b) :: Q => exists k r h' l' q' fr', Get_loop fuel rP (inside ag h l h) = Ok (Some o, r, inside ag h' l' h') /\
      o = off k /\ body r = b /\ This r = o /\ blank r = false /\ (k < length l)%nat /\ file_wf h' l' q' fr' /\
      queue l' q' = Q /\ length l' = length l /\ (forall j, j ∈ q' ++ fr' -> j ∈ q ++ fr) /\ (k ∉ q' ++ fr') /\
      (First h' = 0 <-> q' = [])
  end.
Proof.
  induction q as [|k q IH]; intros fuel rP l h fr Hw Hf.
  { cbn [queue omap]. exists rP, h, l, fr. pose proof (f_first _ _ _ _ Hw) as Hc. cbn [chain] in Hc.
    destruct fuel; cbn [Get_loop]; rewrite hdr_inside, Hc; cbn [Z.eqb]; by split_and!. }
  pose proof Hw as [W1 W2 W3 W4 W5 W6]. cbn [chain] in W1. destruct W1 as (HF & r & Hr & Hc).
  destruct fuel as [|fuel]; [cbn in Hf; lia|]. cbn [length] in Hf.
  assert (k < length l)%nat as Hk by (by apply lookup_lt_Some in Hr).
  cbn [Get_loop]. rewrite hdr_inside, HF, off_0, (read_inside _ _ _ _ _ k r Hr). step_ok. cbn [negb].
  rewrite set_hdr_inside, !hdr_inside. set (h1 := MkHdr (Next r) (Last h) (Free h)).
  cbn [app] in W3. apply NoDup_cons in W3 as [Hkn Hnd].
  assert (forall j, last q = Some j -> Last h = off j) as Hlast.
  { intros j Hj. apply W5. destruct q; [done|]. exact Hj. }
  change (queue l (k :: q)) with (match waiting l k with Some x => x :: queue l q | None => queue l q end).
  unfold waiting at 1. rewrite Hr. destruct (blank r) eqn:Hb; cbn [negb].
  - (* a cancelled request goes to the free chain *)
    cbn [First Last Free h1]. rewrite set_hdr_inside, write_inside. step_ok. cbn [negb].
    set (h2 := MkHdr (Next r) (Last h) (off k)). set (r' := set_Next (Free h) r). set (l' := put_slot k r' l).
    assert (forall j, l' !! j = if decide (j = k) then Some r' else l !! j) as Hl' by (intros j; apply put_slot_lookup; lia).
    assert (length l' = length l) as Hlen by (unfold l'; rewrite put_slot_length by lia; lia).
    assert (forall j, waiting l' j = waiting l j) as Hwait by (intros j; by apply waiting_relink).
    assert (file_wf h2 l' q (k :: fr)) as Hw'.
    { split.
      - apply (chain_same l); [|done]. intros j Hj. destruct (slots_chain_lookup _ _ _ _ Hc Hj) as [x Hx].
        exists x, x. rewrite Hl', decide_False; [done|]. intros ->. apply Hkn, elem_of_app. by left.
      - split; [done|]. exists r'. rewrite Hl', decide_True by done. split; [done|].
        apply (chain_same l); [|done]. intros j Hj. destruct (slots_chain_lookup _ _ _ _ W2 Hj) as [x Hx].
        exists x, x. rewrite Hl', decide_False; [done|]. intros ->. apply Hkn, elem_of_app. by right.
      - rewrite <- Permutation_middle. by apply NoDup_cons.
      - intros j x Hj Hx. rewrite Hl' in Hx. case_decide as Hd; [by injection Hx as <-|].
        apply elem_of_cons in Hj as [?|Hj]; [done|]. by apply (W4 j).
      - exact Hlast.
      - intros j x Hj Hx. rewrite Hl' in Hx. case_decide as Hd; [subst j; exfalso; apply Hkn, elem_of_app; by left|].
        apply (W6 j); [by right|done]. }
    specialize (IH fuel r' l' h2 (k :: fr) Hw' ltac:(lia)).
    assert (queue l' q = queue l q) as Hq by (apply queue_same; intros j _; apply Hwait). rewrite Hq in IH.
    assert (forall j, j ∈ q ++ k :: fr <-> j ∈ (k :: q) ++ fr) as Hperm.
    { intros j. rewrite <- Permutation_middle. cbn [app]. done. }
    destruct (queue l q) as [|[o b] Q].
    + destruct IH as (x & h' & l'' & fr' & -> & J1 & J2 & J3). exists x, h', l'', fr'. split; [done|].
      split; [done|]. split; [congruence|]. intros j Hj. apply Hperm. by apply J3.
    + destruct IH as (k2 & x & h' & l'' & q' & fr' & -> & J1 & J2 & J3 & J4 & J5 & J6 & J7 & J8 & J9 & J10 & J11).
      exists k2, x, h', l'', q', fr'. repeat (split; [done || lia || congruence|]).
      split; [intros j Hj; by apply Hperm, J9|]. by split.
  - rewrite write_hdr_inside. step_ok. exists k, r, h1, l, q, fr.
    split; [done|]. split; [done|]. split; [done|]. split; [apply (W6 k); [left|done]|]. split; [done|]. split; [done|].
    split; [by split; try done; [intros j x Hj; apply W6; by right]|]. split; [done|]. split; [done|].
    split; [intros j Hj; by right|]. split; [done|]. cbn [First h1]. rewrite (chain_off _ _ _ Hc). destruct q; [done|].
    split; [|done]. intros H0. pose proof (off_0 n) as H1. by rewrite H0 in H1.
Qed.

Lemma Get_ok f h l q fr fuel rP : disk f = Some (h, l) -> flMutex f = 0 -> io f = [] -> file_wf h l q fr -> (length q <= fuel)%nat ->
  match queue l q with
  | [] => exists r h' l' fr', Get fuel rP f = Ok (0, r, idle (isAgent f) h' l' h') /\
      file_wf h' l' [] fr' /\ length l' = length l /\ (forall j, j ∈ fr' -> j ∈ q ++ fr)
  | (o, b) :: Q => exists k rc r h' l' q' fr', Get fuel rP f = Ok (rc, r, idle (isAgent f) h' l' h') /\
      o = off k /\ body r = b /\ This r = o /\ (k < length l)%nat /\ file_wf h' l' q' fr' /\ queue l' q' = Q /\
      length l' = length l /\ (forall j, j ∈ q' ++ fr' -> j ∈ q ++ fr) /\ (k ∉ q' ++ fr') /\
      rc = (if decide (q' = []) then -1 else 1)
  end.
Proof.
  intros Hd Hm Hio Hw Hfu. unfold Get. rewrite (lock_inside f h l Hd Hm Hio). step_ok. cbn [negb].
  pose proof (Get_loop_ok (isAgent f) q fuel rP l h fr Hw Hfu) as Hg. destruct (queue l q) as [|[o b] Q].
  - destruct Hg as (r & h' & l' & fr' & -> & H1 & H2 & H3). step_ok. rewrite unlock_inside. cbn [Z.eqb snd].
    exists r, h', l', fr'. done.
  - destruct Hg as (k & r & h' & l' & q' & fr' & -> & J1 & J2 & J3 & J4 & J5 & J6 & J7 & J8 & J9 & J10 & J11).
    step_ok. rewrite unlock_inside, hdr_inside, J1, off_0. cbn [snd]. exists k, (if decide (q' = []) then -1 else 1), r, h', l', q', fr'.
    split; [|by rewrite <- J1]. do 2 f_equal. f_equal. case_decide as Hq.
    + apply J11 in Hq. by rewrite Hq.
    + destruct (Z.eqb_spec (First h') 0) as [H0|]; [by apply J11 in H0|done].
Qed.

(** ** Deleting and cancelling *)

Lemma Del_ok f h l q fr rP k : disk f = Some (h, l) -> flMutex f = 0 -> io f = [] -> file_wf h l q fr ->
  This rP = off k -> (k < length l)%nat -> k ∉ q ++ fr ->
  exists h' l', Del rP f = Ok (true, idle (isAgent f) h' l' h') /\ file_wf h' l' q (k :: fr) /\
    (forall j, j <> k -> waiting l' j = waiting l j) /\ length l' = length l.
Proof.
  intros Hd Hm Hio Hw Ht Hk Hkn. unfold Del. rewrite (lock_inside f h l Hd Hm Hio). step_ok. cbn [negb].
  rewrite hdr_inside, set_hdr_inside, Ht, write_inside. step_ok. rewrite unlock_inside. cbn [snd].
  destruct Hw as [W1 W2 W3 W4 W5 W6]. set (r := set_Next (Free h) zero_req). set (l' := put_slot k r l).
  assert (forall j, l' !! j = if decide (j = k) then Some r else l !! j) as Hl' by (intros j; apply put_slot_lookup; lia).
  eexists _, l'. split; [reflexivity|]. split; [split|split].
  - apply (chain_same l); [|done]. intros j Hj. destruct (slots_chain_lookup _ _ _ _ W1 Hj) as [x Hx].
    exists x, x. rewrite Hl', decide_False; [done|]. intros ->. apply Hkn, elem_of_app. by left.
  - split; [done|]. exists r. rewrite Hl', decide_True by done. split; [done|].
    apply (chain_same l); [|done]. intros j Hj. destruct (slots_chain_lookup _ _ _ _ W2 Hj) as [x Hx].
    exists x, x. rewrite Hl', decide_False; [done|]. intros ->. apply Hkn, elem_of_app. by right.
  - rewrite <- Permutation_middle. by apply NoDup_cons.
  - intros j x Hj Hx. rewrite Hl' in Hx. case_decide as Hd2; [by injection Hx as <-|].
    apply elem_of_cons in Hj as [?|Hj]; [done|]. by apply (W4 j).
  - exact W5.
  - intros j x Hj Hx. rewrite Hl' in Hx. case_decide as Hd2; [subst j; exfalso; apply Hkn, elem_of_app; by left|]. by apply (W6 j).
  - intros j Hj. apply waiting_put; [lia|done].
  - unfold l'. rewrite put_slot_length by lia. lia.
Qed.

Definition cancel (id : list Z) (r : XrdFrcRequest) : XrdFrcRequest :=
  if bool_decide (cstr (ID r) = id) then set_LFN (<[0%nat := 0]> (LFN r)) r else r.

Lemma cancel_blank id r : blank (cancel id r) = blank r || bool_decide (cstr (ID r) = id).
Proof.
  unfold cancel. destruct (bool_decide _); [|by rewrite orb_false_r]. unfold blank. cbn [LFN set_LFN].
  rewrite orb_true_r. by destruct (LFN r).
Qed.

Lemma cancel_fields id r : Next (cancel id r) = Next r /\ This (cancel id r) = This r /\ ID (cancel id r) = ID r.
Proof. unfold cancel. by destruct (bool_decide _). Qed.

Lemma body_set_LFN r x : body (set_LFN x r) = set_LFN x (body r).
Proof. done. Qed.

Lemma put_same k r l : l !! k = Some r -> put_slot k r l = l.
Proof.
  intros Hk. assert (k < length l)%nat as H by (by apply lookup_lt_Some in Hk). unfold put_slot.
  destruct (Nat.ltb_spec k (length l)); [|lia]. by apply list_insert_id.
Qed.

Lemma next_off_ok i : off (S i) < 2 ^ 31 -> next_off (off i) = Ok (off (S i)).
Proof.
  intros Hi. unfold next_off. replace (off i + ReqSize) with (off (S i)) by (unfold off, ReqSize; lia).
  destruct (Z.ltb_spec (off (S i)) (2 ^ 31)); [done|lia].
Qed.

Lemma off_le j k : (j <= k)%nat -> off j <= off k.
Proof. unfold off, ReqSize. lia. Qed.

Lemma Can_loop_ok ag id : forall n i tmp c hd l hm, (i + n = length l)%nat -> off (length l) < 2 ^ 31 ->
  exists c', Can_loop n id (off i) tmp c 0 (inside ag hd l hm) =
    Ok (Some (c', 0), inside ag hd (take i l ++ (cancel id <$> drop i l)) hm).
Proof.
  induction n as [|n IH]; intros i tmp c hd l hm Hi Hmax; cbn [Can_loop].
  { exists c. rewrite drop_ge, take_ge by lia. by rewrite app_nil_r. }
  destruct (lookup_lt_is_Some_2 l i) as [r Hr]; [lia|]. rewrite (read_inside _ _ _ _ _ i r Hr). step_ok. cbn [negb].
  rewrite next_off_ok by (pose proof (off_le (S i) (length l)); lia).
  assert (forall r', take (S i) (put_slot i r' l) ++ (cancel id <$> drop (S i) (put_slot i r' l)) =
    take i l ++ r' :: (cancel id <$> drop (S i) l)) as Hput.
  { intros r'. unfold put_slot. destruct (Nat.ltb_spec i (length l)); [|lia].
    rewrite (take_S_r _ _ r') by (by rewrite list_lookup_insert_eq by lia). rewrite take_insert_ge by lia. rewrite drop_insert_lt by lia.
    by rewrite <- app_assoc. }
  rewrite (drop_S l r i Hr), fmap_cons. destruct (bool_decide (cstr (ID r) = id)) eqn:Hid.
  - rewrite write_inside. step_ok. step_ok. destruct (IH (S i) (Some (set_LFN (<[0%nat:=0]> (LFN r)) r)) (c + 1) hd
      (put_slot i (set_LFN (<[0%nat:=0]> (LFN r)) r) l) hm) as (c' & ->).
    1, 2: rewrite put_slot_length by lia; replace (Nat.max (length l) (S i)) with (length l) by lia; lia.
    exists c'. rewrite Hput. unfold cancel at 2. by rewrite Hid.
  - step_ok. destruct (IH (S i) (Some r) c hd l hm) as (c' & ->); [lia|done|]. exists c'. rewrite <- (put_same i r l Hr) at 1 2. rewrite Hput.
    unfold cancel at 2. by rewrite Hid.
Qed.

Lemma wf_cancel id h l q fr : file_wf h l q fr -> file_wf h (cancel id <$> l) q fr.
Proof.
  intros [W1 W2 W3 W4 W5 W6].
  assert (forall p ks, chain l p ks -> chain (cancel id <$> l) p ks) as Hch.
  { intros p ks Hc. apply (chain_same l); [|done]. intros k Hk. destruct (slots_chain_lookup _ _ _ _ Hc Hk) as [r Hr].
    exists r, (cancel id r). rewrite list_lookup_fmap, Hr. split_and!; [done|done|apply cancel_fields]. }
  split; [by apply Hch|by apply Hch|done| |done|].
  - intros k r Hk Hr. rewrite list_lookup_fmap in Hr. destruct (l !! k) as [x|] eqn:E; [|done]. injection Hr as <-.
    rewrite cancel_blank. by rewrite (W4 k x Hk E).
  - intros k r Hk Hr. rewrite list_lookup_fmap in Hr. destruct (l !! k) as [x|] eqn:E; [|done]. injection Hr as <-.
    destruct (cancel_fields id x) as (_ & -> & _). by apply (W6 k).
Qed.

Lemma queue_cancel id l q : queue (cancel id <$> l) q = filter (fun x => cstr (ID x.2) <> id) (queue l q).
Proof.
  induction q as [|k q IH]; [done|].
  change (queue ?x (k :: q)) with (match waiting x k with Some x' => x' :: queue x q | None => queue x q end).
  assert (waiting (cancel id <$> l) k = match waiting l k with Some x => if decide (cstr (ID x.2) <> id) then Some x else None | None => None end) as ->.
  { unfold waiting. rewrite list_lookup_fmap. destruct (l !! k) as [r|]; [|done]. cbn [fmap option_fmap option_map].
    rewrite cancel_blank. destruct (blank r) eqn:Hb; cbn [orb]; [done|]. change (ID (off k, body r).2) with (ID r).
    unfold cancel. case_bool_decide as Hid; case_decide; try done. }
  destruct (waiting l k) as [x|]; [|done]. rewrite filter_cons. case_decide; [by f_equal|done].
Qed.

Lemma Can_ok f h l q fr rP : disk f = Some (h, l) -> flMutex f = 0 -> io f = [] -> file_wf h l q fr -> st_size f < 2 ^ 31 ->
  exists f', Can rP f = Ok (true, f') /\ f' = idle (isAgent f) h (cancel (cstr (ID rP)) <$> l) h.
Proof.
  intros Hd Hm Hio Hw Hs. unfold st_size in Hs. rewrite Hd in Hs. unfold Can. rewrite (lock_inside f h l Hd Hm Hio). step_ok. rewrite sys_inside. cbn [negb].
  rewrite size_inside. replace (Z.to_nat (off (length l) / ReqSize - 1)) with (length l).
  2:{ unfold off, ReqSize. rewrite (Z.mul_comm 4096), Z.div_mul by lia. lia. }
  change ReqSize with (off 0) at 1. destruct (Can_loop_ok (isAgent f) (cstr (ID rP)) (length l) 0 None 0 h l h) as (c & ->); [lia|exact Hs|].
  step_ok. rewrite take_0, drop_0. cbn [app Z.eqb].
  destruct (c =? 0); [|rewrite sys_inside; cbn [snd]]; rewrite unlock_inside; eauto.
Qed.

(** ** The queue that the file stands for *)

Lemma slots_chain_in l p ks k : chain l p ks -> k ∈ ks -> (k < length l)%nat.
Proof. intros Hc Hk. destruct (slots_chain_lookup _ _ _ _ Hc Hk) as [r Hr]. by apply lookup_lt_Some in Hr. Qed.

Lemma queue_fuel h l q fr : file_wf h l q fr -> (length q <= length l)%nat.
Proof.
  intros [W1 _ W3 _ _ _]. apply NoDup_app in W3 as (Hq & _). rewrite <- (length_seq (length l) 0).
  apply submseteq_length, NoDup_submseteq; [done|]. intros k Hk. apply elem_of_seq. pose proof (slots_chain_in _ _ _ _ W1 Hk). lia.
Qed.

Lemma queue_offset l q o b : (o, b) ∈ queue l q -> exists k, o = off k /\ k ∈ q.
Proof.
  intros (k & Hk & Hw)%list_elem_of_omap. exists k. split; [|done]. unfold waiting in Hw. destruct (l !! k) as [r|]; [|done].
  destruct (blank r); [done|]. congruence.
Qed.

Lemma queue_enqueue l l' q k x b : waiting l' k = Some x -> (forall j, j <> k -> waiting l' j = waiting l j) -> k ∉ q ->
  queue l' (enqueue b k q) = enqueue b x (queue l q).
Proof.
  intros Hk Hs Hq. assert (queue l' q = queue l q) as H by (apply queue_same; intros j Hj; apply Hs; by intros ->).
  destruct b; cbn [enqueue].
  - change (queue l' (k :: q)) with (match waiting l' k with Some x => x :: queue l' q | None => queue l' q end). by rewrite Hk, H.
  - rewrite queue_app, H. cbn. by rewrite Hk.
Qed.

Lemma rep_Add f Q O rP : rep f Q O -> blank rP = false -> st_size f < 2 ^ 31 ->
  exists o f', Add rP f = Ok (true, f') /\ rep f' (enqueue (registers rP) (o, body rP) Q) O /\ (o ∉ Q.*1) /\ o ∉ O.
Proof.
  intros [[Hm Hio] (h & l & q & fr & Hd & Hw & -> & HO)] Hb Hs.
  assert (st_size f = off (length l)) as Hsz by (unfold st_size; by rewrite Hd). rewrite Hsz in Hs.
  destruct (Add_ok f h l q fr rP Hd Hm Hio Hw Hs Hb) as (k & h' & l' & fr' & -> & H1 & H2 & H3 & H4 & H5 & H6 & H7).
  exists (off k). eexists. split; [reflexivity|]. split; [|split].
  - rewrite <- (queue_enqueue l l' q k _ _ H2 H3 H7). apply (idle_rep _ _ _ _ _ fr'); [done|].
    intros o Ho. destruct (HO o Ho) as (j & -> & Hj & Hn). exists j. split; [done|]. split; [lia|].
    destruct (H6 j Hj Hn) as [Hjk Hjf]. rewrite elem_of_app, elem_enqueue.
    intros [[->|?]|?]; [done| |done]. by apply Hn, elem_of_app; left.
  - intros ([o b] & Ho & Hin)%list_elem_of_fmap. cbn in Ho. subst o. apply queue_offset in Hin as (j & Hj & Hq).
    apply off_inj in Hj as ->. done.
  - intros Ho. destruct (HO _ Ho) as (j & Hj & Hl & Hn). apply off_inj in Hj as <-. by destruct (H6 k Hl Hn).
Qed.

Lemma rep_Get f Q O fuel rP : rep f Q O -> (length (slots f) <= fuel)%nat ->
  exists rc r f', Get fuel rP f = Ok (rc, r, f') /\
    match Q with
    | [] => rc = 0 /\ rep f' [] O
    | (o, b) :: Q' => (rc = 1 \/ rc = -1 /\ Q' = []) /\ body r = b /\ This r = o /\ (o ∉ O) /\ rep f' Q' ({[o]} ∪ O)
    end.
Proof.
  intros [[Hm Hio] (h & l & q & fr & Hd & Hw & -> & HO)] Hf. unfold slots in Hf. rewrite Hd in Hf.
  pose proof (queue_fuel _ _ _ _ Hw) as Hq.
  pose proof (Get_ok f h l q fr fuel rP Hd Hm Hio Hw ltac:(lia)) as Hg. destruct (queue l q) as [|[o b] Q] eqn:E.
  - destruct Hg as (r & h' & l' & fr' & -> & H1 & H2 & H3). eexists 0, r, _. split; [reflexivity|]. split; [done|].
    change [] with (queue l' []). apply (idle_rep _ _ _ _ _ fr'); [done|].
    intros o Ho. destruct (HO o Ho) as (j & -> & Hj & Hn). exists j. split; [done|]. split; [lia|]. cbn [app]. naive_solver.
  - destruct Hg as (k & rc & r & h' & l' & q' & fr' & -> & -> & Hb & Ht & Hk & H1 & H2 & H3 & H4 & H5 & Hrc).
    eexists rc, r, _. split; [reflexivity|]. split; [|split; [done|split; [done|split]]].
    + destruct (decide (q' = [])) as [->|]; [right|by left]. by rewrite <- H2.
    + intros Ho. destruct (HO _ Ho) as (j & Hj & _ & Hn). apply off_inj in Hj as <-.
      apply Hn, elem_of_app. left. destruct (queue_offset l q (off k) b) as (j & Hj & Hjq); [rewrite E; by left|].
      by apply off_inj in Hj as <-.
    + rewrite <- H2. apply (idle_rep _ _ _ _ _ fr'); [done|]. intros o [->%elem_of_singleton|Ho]%elem_of_union.
      * exists k. split; [done|]. split; [lia|done].
      * destruct (HO o Ho) as (j & -> & Hj & Hn). exists j. split; [done|]. split; [lia|]. naive_solver.
Qed.

Lemma rep_Del f Q O rP : rep f Q O -> This rP ∈ O -> exists f', Del rP f = Ok (true, f') /\ rep f' Q (O ∖ {[This rP]}).
Proof.
  intros [[Hm Hio] (h & l & q & fr & Hd & Hw & -> & HO)] Ht. destruct (HO _ Ht) as (k & Hk & Hkl & Hkn).
  destruct (Del_ok f h l q fr rP k Hd Hm Hio Hw Hk Hkl Hkn) as (h' & l' & -> & H1 & H2 & H3).
  eexists. split; [reflexivity|]. assert (queue l q = queue l' q) as ->.
  { symmetry. apply queue_same. intros j Hj. apply H2. intros ->. apply Hkn, elem_of_app. by left. }
  apply (idle_rep _ _ _ _ _ (k :: fr)); [done|]. intros o [Ho Hne]%elem_of_difference.
  destruct (HO o Ho) as (j & -> & Hj & Hn). exists j. split; [done|]. split; [lia|].
  rewrite <- Permutation_middle, elem_of_cons. intros [->|?]; [|done]. apply Hne, elem_of_singleton. by rewrite Hk.
Qed.

Lemma rep_Can f Q O rP : rep f Q O -> st_size f < 2 ^ 31 ->
  exists f', Can rP f = Ok (true, f') /\ rep f' (filter (fun x => cstr (ID x.2) <> cstr (ID rP)) Q) O.
Proof.
  intros [[Hm Hio] (h & l & q & fr & Hd & Hw & -> & HO)] Hs.
  destruct (Can_ok f h l q fr rP Hd Hm Hio Hw Hs) as (f' & -> & ->). eexists. split; [reflexivity|].
  rewrite <- queue_cancel. apply (idle_rep _ _ _ _ _ fr); [by apply wf_cancel|]. by rewrite length_fmap.
Qed.

(** ** What is recovered *)

(** The file while it is open and locked, with a state of the disk. *)
Definition opened (d : option (FileHdr * list XrdFrcRequest)) (hm : FileHdr) : XrdFrcReqFile :=
  MkFile d hm true false 1 true [].

Definition saved (l : list XrdFrcRequest) : list XrdFrcRequest := filter (fun r => skipped r = false) l.
Definition regs (l : list XrdFrcRequest) : list XrdFrcRequest := filter (fun r => registers r = true) (saved l).
Definition others (l : list XrdFrcRequest) : list XrdFrcRequest := filter (fun r => registers r = false) (saved l).

Definition by_tod (l : list XrdFrcRequest) : list XrdFrcRequest := foldl (fun a r => insert_tod r a) [] l.

Lemma Init_scan_ok h l hm : forall n i tmp A B, (i + n = length l)%nat -> off (length l) < 2 ^ 31 ->
  Init_scan n (off i) tmp A B (opened (Some (h, l)) hm) =
    Ok (Some (rev (regs (drop i l)) ++ A, foldl (fun a r => insert_tod r a) B (others (drop i l))), opened (Some (h, l)) hm).
Proof.
  induction n as [|n IH]; intros i tmp A B Hi Hmax; cbn [Init_scan].
  { by rewrite drop_ge by lia. }
  destruct (lookup_lt_is_Some_2 l i) as [r Hr]; [lia|].
  change (opened (Some (h, l)) hm) with (inside false h l hm) at 1.
  rewrite (read_inside _ _ _ _ _ i r Hr). step_ok. cbn [negb].
  rewrite next_off_ok by (pose proof (off_le (S i) (length l)); lia). step_ok.
  rewrite (drop_S l r i Hr). unfold regs, others, saved. rewrite filter_cons.
  change (inside false h l hm) with (opened (Some (h, l)) hm). specialize (fun tmp A B => IH (S i) tmp A B ltac:(lia) Hmax).
  destruct (skipped r) eqn:Hsk; [rewrite decide_False by done; apply IH|]. rewrite decide_True by done. rewrite !filter_cons.
  destruct (registers r) eqn:Hrg; rewrite IH.
  - rewrite decide_True, decide_False by done. cbn [rev]. by rewrite <- app_assoc.
  - rewrite decide_False, decide_True by done. done.
Qed.

(** The records as [ReWrite] chains them. *)
Fixpoint chained (k : nat) (L : list XrdFrcRequest) : list XrdFrcRequest :=
  match L with
  | [] => []
  | r :: L => set_Next (match L with [] => 0 | _ => off (S k) end) (set_This (off k) r) :: chained (S k) L
  end.

Lemma chained_length k L : length (chained k L) = length L.
Proof. revert k. induction L as [|r L IH]; intros k; cbn; [done|by rewrite IH]. Qed.

Definition hdr_of (d : option (FileHdr * list XrdFrcRequest)) : FileHdr := match d with Some (h, _) => h | None => zero_hdr end.
Definition slots_of (d : option (FileHdr * list XrdFrcRequest)) : list XrdFrcRequest :=
  match d with Some (_, l) => l | None => [] end.

Lemma ReWrite_loop_ok hm : forall L d, off (length (slots_of d) + length L) < 2 ^ 31 ->
  exists d', ReWrite_loop L (off (length (slots_of d))) (opened d hm) =
      Ok (true, off (length (slots_of d) + length L), opened d' hm) /\
    slots_of d' = slots_of d ++ chained (length (slots_of d)) L /\ (L <> [] -> is_Some d').
Proof.
  induction L as [|r L IH]; intros d Hmax; cbn [ReWrite_loop].
  { exists d. cbn [length chained]. by rewrite Nat.add_0_r, app_nil_r. }
  cbn [length] in *. set (k := length (slots_of d)) in *.
  assert (next_off (off k) = Ok (off (S k))) as Hn by (apply next_off_ok; pose proof (off_le (S k) (k + S (length L))); lia).
  rewrite !Hn.
  set (r' := set_Next (match L with [] => 0 | _ => off (S k) end) (set_This (off k) r)).
  assert (match L with [] => Ok 0 | _ :: _ => Ok (off (S k)) end = Ok (match L with [] => 0 | _ => off (S k) end)) as -> by by destruct L.
  step_ok. fold r'. set (d1 := Some (hdr_of d, slots_of d ++ [r'])).
  assert (reqWrite (Some r') (off k) false (opened d hm) = Ok (true, opened d1 hm)) as ->.
  { unfold reqWrite. rewrite off_0. unfold pwrite_req. cbn [sys opened io negb]. rewrite slot_of_off. step_ok. step_ok. cbn [andb].
    do 2 f_equal. unfold d1, set_disk. cbn. do 2 f_equal. unfold slots, put_slot. cbn [disk]. fold (slots_of d).
    unfold k. rewrite Nat.ltb_irrefl, Nat.sub_diag. by destruct d as [[]|]. }
  step_ok. cbn [negb]. step_ok.
  assert (length (slots_of d1) = S k) as Hk by (cbn; rewrite length_app; cbn; lia).
  destruct (IH d1) as (d' & Hl & Hs & Hd'); rewrite Hk in *; [unfold off, ReqSize in *; lia|].
  exists d'. rewrite Hl. replace (S k + length L)%nat with (k + S (length L))%nat by lia. split; [done|]. split.
  - rewrite Hs. cbn [slots_of d1]. rewrite <- app_assoc. done.
  - intros _. destruct L; [|by apply Hd']. cbn [ReWrite_loop] in Hl.
    apply (f_equal (fun x => match x with Ok (_, _, f) => disk f | _ => None end)) in Hl. cbn in Hl. by rewrite <- Hl.
Qed.

Lemma ReWrite_ok h l hm L : off (length L) < 2 ^ 31 -> exists hd,
  ReWrite L (opened (Some (h, l)) hm) = Ok (true, opened (Some (hd, chained 0 L)) hd) /\
  hd = match L with [] => zero_hdr | _ => MkHdr ReqSize (off (length L) - ReqSize) 0 end.
Proof.
  intros Hmax. unfold ReWrite. cbn [sys opened io negb disk set_disk]. destruct L as [|r L]; [by eexists|].
  destruct (ReWrite_loop_ok hm (r :: L) None) as (d' & Hl & Hs & Hd'); [exact Hmax|].
  cbn [slots_of length Nat.add] in Hl, Hs. change (off 0) with ReqSize in Hl.
  change (set_disk None (opened (Some (h, l)) hm)) with (opened None hm). eexists. split; [|reflexivity].
  change (MkFile None hm true false 1 true []) with (opened None hm). rewrite Hl. step_ok. step_ok.
  destruct Hd' as [[h' l'] ->]; [done|]. cbn [slots_of app] in Hs. subst l'. done.
Qed.

Lemma chained_chain L : forall k l0, length l0 = k ->
  chain (l0 ++ chained k L) (match L with [] => 0 | _ => off k end) (seq k (length L)).
Proof.
  induction L as [|r L IH]; intros k l0 Hk; [done|]. cbn [chained length seq chain]. split; [done|].
  eexists. split; [rewrite lookup_app_r, Hk, Nat.sub_diag by lia; done|].
  specialize (IH (S k) (l0 ++ [set_Next (match L with [] => 0 | _ => off (S k) end) (set_This (off k) r)])).
  rewrite <- app_assoc in IH. cbn [app] in IH. rewrite length_app in IH. cbn [Next set_Next]. apply IH. cbn. lia.
Qed.

Lemma chained_lookup L : forall k j r, chained k L !! j = Some r ->
  This r = off (k + j) /\ exists r0, L !! j = Some r0 /\ body r = body r0 /\ blank r = blank r0.
Proof.
  induction L as [|r0 L IH]; intros k [|j] r; cbn [chained]; try done.
  - intros [= <-]. rewrite Nat.add_0_r. split; [done|]. by exists r0.
  - intros Hj. destruct (IH (S k) j r Hj) as [-> H]. rewrite Nat.add_succ_comm. by split.
Qed.

Lemma rewritten_wf L hd : hd = match L with [] => zero_hdr | _ => MkHdr ReqSize (off (length L) - ReqSize) 0 end ->
  file_wf hd (chained 0 L) (seq 0 (length L)) [].
Proof.
  intros Hhd. pose proof (chained_chain L 0 [] eq_refl) as Hc. cbn [app] in Hc. split.
  - subst hd. by destruct L.
  - subst hd. by destruct L.
  - rewrite app_nil_r. apply NoDup_seq.
  - intros k r Hk. by apply elem_of_nil in Hk.
  - subst hd. destruct L as [|r L]; [done|]. intros k. cbn [length]. rewrite seq_S, last_snoc. intros [= <-].
    cbn [Last]. unfold off, ReqSize. lia.
  - intros k r Hk Hr. by destruct (chained_lookup _ _ _ _ Hr) as [-> _].
Qed.

Lemma rewritten_queue L : Forall (fun r => blank r = false) L -> (queue (chained 0 L) (seq 0 (length L))).*2 = body <$> L.
Proof.
  intros Hb. enough (forall n k, n = (length L - k)%nat -> (queue (chained 0 L) (seq k n)).*2 = body <$> drop k L) as H.
  { apply (H (length L) 0%nat). lia. }
  induction n as [|n IH]; intros k Hn; [by rewrite drop_ge by lia|]. cbn [seq].
  destruct (lookup_lt_is_Some_2 L k) as [r Hr]; [lia|]. rewrite (drop_S _ _ _ Hr), fmap_cons, <- IH by lia.
  destruct (lookup_lt_is_Some_2 (chained 0 L) k) as [c Hc]; [rewrite chained_length; lia|].
  destruct (chained_lookup _ _ _ _ Hc) as (_ & r0 & Hr0 & Hbody & Hbl). rewrite Hr in Hr0. injection Hr0 as <-.
  change (queue ?x (k :: ?q)) with (match waiting x k with Some y => y :: queue x q | None => queue x q end).
  unfold waiting at 1. rewrite Hc, Hbl, (proj1 (Forall_lookup _ _) Hb k r Hr). cbn [fmap list_fmap snd]. by rewrite Hbody.
Qed.

(** *** The order by time *)

Lemma insert_tod_perm r l : insert_tod r l ≡ₚ r :: l.
Proof. induction l as [|x l IH]; cbn; [done|]. destruct (addTOD x <? addTOD r); [|done]. rewrite IH. apply Permutation_swap. Qed.

Lemma insert_tod_sorted r l : Sorted (fun a b => addTOD a <= addTOD b) l -> Sorted (fun a b => addTOD a <= addTOD b) (insert_tod r l).
Proof.
  induction 1 as [|x l Hs IH Hh]; cbn; [by repeat constructor|]. destruct (Z.ltb_spec (addTOD x) (addTOD r)).
  - constructor; [done|]. destruct l as [|y l]; cbn; [constructor; lia|]. inversion_clear Hh.
    destruct (addTOD y <? addTOD r); constructor; lia.
  - by repeat constructor.
Qed.

Lemma insert_tod_ties t r l : filter (fun x => addTOD x = t) (insert_tod r l) =
  if decide (addTOD r = t) then r :: filter (fun x => addTOD x = t) l else filter (fun x => addTOD x = t) l.
Proof.
  induction l as [|x l IH]; cbn [insert_tod]; [by rewrite filter_cons, filter_nil|].
  destruct (Z.ltb_spec (addTOD x) (addTOD r)); rewrite !filter_cons; [|by repeat case_decide].
  rewrite IH. repeat case_decide; try done. lia.
Qed.

Lemma by_tod_spec l :
  by_tod l ≡ₚ l /\ Sorted (fun a b => addTOD a <= addTOD b) (by_tod l) /\
  forall t, filter (fun r => addTOD r = t) (by_tod l) = rev (filter (fun r => addTOD r = t) l).
Proof.
  unfold by_tod. induction l as [|r l IH] using rev_ind; [split_and!; [done|constructor|done]|].
  rewrite foldl_app. cbn [foldl]. destruct IH as (H1 & H2 & H3). split_and!.
  - rewrite insert_tod_perm, H1. by rewrite Permutation_app_comm.
  - by apply insert_tod_sorted.
  - intros t. rewrite insert_tod_ties, H3, filter_app, filter_cons, filter_nil, rev_app_distr. by case_decide.
Qed.

Lemma kept_not_blank l : Forall (fun r => blank r = false) (regs l ++ by_tod (others l)).
Proof.
  destruct (by_tod_spec (others l)) as (Hp & _). rewrite Hp. unfold regs, others, saved.
  apply Forall_app; split; apply Forall_forall; intros r (_ & (Hs & _)%list_elem_of_filter)%list_elem_of_filter;
    unfold skipped in Hs; by destruct (blank r).
Qed.

Lemma kept_length l : (length (regs l ++ by_tod (others l)) <= length l)%nat.
Proof.
  destruct (by_tod_spec (others l)) as (Hp & _). rewrite length_app, (Permutation_length Hp), <- length_app.
  unfold regs, others. rewrite <- (length_filter (fun r => skipped r = false) l). fold (saved l). generalize (saved l) as s.
  induction s as [|r s IH]; [done|]. rewrite !filter_cons, length_app in *. repeat case_decide; cbn [length] in *; try lia. congruence.
Qed.

(** *** A server that starts *)

Lemma Init_server h l : off (length l) < 2 ^ 31 -> let L := regs l ++ by_tod (others l) in
  exists hd, Init (XrdFrcReqFile_new (Some (h, l)) false []) =
    Ok (true, cstr ∘ iName <$> L, idle false hd (chained 0 L) hd) /\ file_wf hd (chained 0 L) (seq 0 (length L)) [].
Proof.
  intros Hmax L. unfold Init, XrdFrcReqFile_new. cbn [sys io negb]. cbn [FileLock Z.ltb Z.compare flMutex set_lock sys io negb]. step_ok.
  cbn [negb sys io set_lock]. match goal with |- context [set_reqFD true ?x] => change (set_reqFD true x) with (opened (Some (h, l)) zero_hdr) end.
  cbn [sys io opened negb].
  assert (st_size (opened (Some (h, l)) zero_hdr) = off (length l)) as Hsz by done. pose proof (off_pos (length l)) as Hp.
  cbn [isAgent opened]. rewrite Hsz. destruct (Z.ltb_spec (off (length l)) ReqSize); [lia|].
  replace (Z.to_nat (off (length l) / ReqSize - 1)) with (length l).
  2:{ unfold off, ReqSize. rewrite (Z.mul_comm 4096), Z.div_mul by lia. lia. }
  change ReqSize with (off 0) at 1. rewrite (Init_scan_ok h l zero_hdr (length l) 0) by (lia || done). step_ok.
  rewrite drop_0, app_nil_r, rev_involutive. fold (by_tod (others l)). fold L.
  destruct (ReWrite_ok h l zero_hdr L) as (hd & -> & Hhd).
  { pose proof (off_le _ _ (kept_length l)). unfold L. lia. }
  step_ok. exists hd. split; [done|]. by apply rewritten_wf.
Qed.

Lemma Init_empty : exists hd l, Init (XrdFrcReqFile_new None false []) = Ok (true, [], idle false hd l hd) /\ file_wf hd l [] [0%nat] /\ length l = 1%nat.
Proof.
  exists (MkHdr 0 0 ReqSize), [zero_req]. split; [reflexivity|]. split; [|done].
  split; cbn [chain First Free]; [done|eauto| | | |].
  - apply NoDup_singleton.
  - intros k r ->%list_elem_of_singleton [= <-]. reflexivity.
  - done.
  - intros k r Hk. by apply elem_of_nil in Hk.
Qed.

Lemma Init_agent h l : Init (XrdFrcReqFile_new (Some (h, l)) true []) = Ok (true, [], idle true h l zero_hdr).
Proof.
  unfold Init, XrdFrcReqFile_new. cbn [sys io negb]. cbn [FileLock Z.ltb Z.compare flMutex set_lock sys io negb]. step_ok.
  cbn [negb sys io set_lock set_reqFD isAgent]. unfold st_size. cbn [disk set_reqFD set_lock].
  change (ReqSize * (1 + zlen l)) with (off (length l)). pose proof (off_pos (length l)) as Hp.
  destruct (Z.ltb_spec (off (length l)) ReqSize); [lia|done].
Qed.

Lemma rep_agent f Q O : rep f Q O -> exists f', Init (XrdFrcReqFile_new (disk f) true []) = Ok (true, [], f') /\ rep f' Q O.
Proof.
  intros [_ (h & l & q & fr & -> & Hw & -> & HO)]. rewrite Init_agent. eexists. split; [reflexivity|]. by apply (idle_rep _ _ _ _ _ fr).
Qed.

(** ** Failing calls *)

Lemma set_io_io f : set_io (io f) f = f.
Proof. by destruct f. Qed.

Lemma sys_cases f : exists b i, sys f = (b, set_io i f).
Proof. unfold sys. destruct (io f) as [|b i] eqn:E; [exists true, []|by exists b, i]. by rewrite <- E, set_io_io. Qed.

Lemma read_cases old k r f : slots f !! k = Some r ->
  exists b i, reqRead old (off k) f = Ok (b : bool, if b then r else default zero_req old, set_io i f).
Proof.
  intros Hr. unfold reqRead. destruct (sys_cases f) as (b & i & ->). exists b, i. destruct b; cbn [negb]; [|done].
  rewrite slot_of_off. step_ok. change (slots (set_io i f)) with (slots f). by rewrite Hr.
Qed.

Lemma hdr_cases h l f : disk f = Some (h, l) ->
  exists b i h', reqWrite None 0 true f = Ok (b, set_io i (set_disk (Some (h', l)) f)).
Proof.
  intros Hd. unfold reqWrite. step_ok. cbn [andb]. unfold pwrite_hdr. destruct (sys_cases f) as (b & i & ->).
  destruct b; cbn [negb].
  - cbn [disk set_io]. rewrite Hd. step_ok. match goal with |- context [sys ?x] => destruct (sys_cases x) as (b & i' & ->) end.
    by exists b, i', (HdrData f).
  - step_ok. exists false, i, h. by destruct f; cbn in *; subst.
Qed.

Lemma write_cases r k u h l f : disk f = Some (h, l) -> exists b i h' l',
  reqWrite (Some r) (off k) u f = Ok (b, set_io i (set_disk (Some (h', l')) f)) /\ (l' = put_slot k r l \/ l' = l /\ b = false).
Proof.
  intros Hd. unfold reqWrite. rewrite off_0. unfold pwrite_req. destruct (sys_cases f) as (b & i & ->). destruct b; cbn [negb].
  - rewrite slot_of_off. step_ok. step_ok. cbn [andb].
    change (slots (set_io i f)) with (slots f). cbn [disk set_io]. rewrite Hd.
    assert (slots f = l) as -> by (unfold slots; by rewrite Hd).
    destruct u; [|exists true, i, h, (put_slot k r l); by split; [|left]].
    unfold pwrite_hdr. match goal with |- context [sys ?x] => destruct (sys_cases x) as (b & i' & ->) end. destruct b; cbn [negb].
    + cbn [disk set_io set_disk]. step_ok. match goal with |- context [sys ?x] => destruct (sys_cases x) as (b & i2 & ->) end.
      exists b, i2, (HdrData f), (put_slot k r l). by split; [|left].
    + step_ok. exists false, i', h, (put_slot k r l). by split; [|left].
  - step_ok. cbn [andb]. exists false, i, h, l. split; [by destruct f; cbn in *; subst|by right].
Qed.

Lemma unlock_disk f : disk (FileUnlock f).2 = disk f.
Proof.
  unfold FileUnlock. destruct (isAgent f); match goal with |- context [sys ?x] => destruct (sys_cases x) as (b & i & ->) end; by destruct b.
Qed.

Lemma lock_cases h l f : disk f = Some (h, l) -> flMutex f = 0 ->
  exists b f', FileLock true f = Ok (b, f') /\ disk f' = Some (h, l) /\ (b = true -> HdrData f' = h).
Proof.
  intros Hd Hm. unfold FileLock. rewrite Hm. cbn [Z.ltb Z.compare negb].
  match goal with |- context [sys ?x] => destruct (sys_cases x) as (b & i & ->) end. destruct b; cbn [negb]; [|by eexists _, _].
  match goal with |- context [if reqFD ?x then _ else _] => set (f1 := x) end. assert (disk f1 = Some (h, l)) as H1 by done. clearbody f1.
  assert (exists ok f2, (if reqFD f1 then (true, f1) else let '(ok, f) := sys f1 in (ok, set_reqFD ok f)) = (ok, f2) /\ disk f2 = Some (h, l))
    as (ok & f2 & -> & H2).
  { destruct (reqFD f1); [by eexists _, _|]. destruct (sys_cases f1) as (ok & i' & ->). by eexists _, _. }
  destruct ok; cbn [negb]; [|exists false; eexists; by rewrite unlock_disk].
  destruct (sys_cases f2) as (ok & i2 & ->). destruct ok; cbn [negb]; [|exists false; eexists; by rewrite unlock_disk].
  cbn [disk set_io]. rewrite H2. exists true. eexists. by split_and!.
Qed.

(** Every saved request of [P] is still in its slot. *)
Definition keeps (P : nat -> XrdFrcRequest -> Prop) (l l' : list XrdFrcRequest) : Prop :=
  forall k r, l !! k = Some r -> skipped r = false -> P k r -> exists r', l' !! k = Some r' /\ body r' = body r.

Lemma keeps_refl P l : keeps P l l.
Proof. intros k r Hk _ _. eauto. Qed.

Lemma skipped_body r r' : body r' = body r -> skipped r' = skipped r.
Proof. intros H. change (skipped (body r') = skipped (body r)). by rewrite H. Qed.

Lemma keeps_trans P l1 l2 l3 : (forall k r r', body r' = body r -> P k r -> P k r') -> keeps P l1 l2 -> keeps P l2 l3 -> keeps P l1 l3.
Proof.
  intros HP H1 H2 k r Hk Hs Hp. destruct (H1 k r Hk Hs Hp) as (r2 & Hk2 & Hb2).
  destruct (H2 k r2 Hk2) as (r3 & Hk3 & Hb3); [by rewrite (skipped_body r)|by apply (HP k r)|]. exists r3. by rewrite Hb3.
Qed.

(** A write to a slot that keeps what was saved there, or whose record may go. *)
Lemma keeps_put P k r l : (k <= length l)%nat ->
  (forall r0, l !! k = Some r0 -> skipped r0 = false -> P k r0 -> body r = body r0) -> keeps P l (put_slot k r l).
Proof.
  intros Hk Hr j x Hj Hs Hp. rewrite put_slot_lookup by done. case_decide as Hd; [|by eauto]. subst j.
  exists r. split; [done|]. by apply Hr.
Qed.

Lemma write_keeps P r k u h l f : disk f = Some (h, l) -> (k <= length l)%nat ->
  (forall r0, l !! k = Some r0 -> skipped r0 = false -> P k r0 -> body r = body r0) ->
  exists b f' h' l', reqWrite (Some r) (off k) u f = Ok (b, f') /\ disk f' = Some (h', l') /\ keeps P l l' /\
    HdrData f' = HdrData f /\ (l' = put_slot k r l \/ l' = l /\ b = false).
Proof.
  intros Hd Hk Hr. destruct (write_cases r k u h l f Hd) as (b & i & h' & l' & -> & Hl). exists b. eexists _, h', l'.
  split; [reflexivity|]. split; [done|]. split; [|by split]. destruct Hl as [->|[-> _]]; [by apply keeps_put|apply keeps_refl].
Qed.

Definition always (k : nat) (r : XrdFrcRequest) : Prop := True.

Lemma Add_slot_keeps h l q fr f : disk f = Some (h, l) -> HdrData f = h -> file_wf h l q fr -> off (length l) < 2 ^ 31 ->
  exists o f', Add_slot f = Ok (o, f') /\ disk f' = Some (h, l) /\ First (HdrData f') = First h /\ Last (HdrData f') = Last h /\
    forall p, o = Some p -> exists k, p = off k /\ (k <= length l)%nat /\ (forall r, l !! k = Some r -> blank r = true) /\ k ∉ q.
Proof.
  intros Hd Hh [W1 W2 W3 W4 W5 W6] Hs. unfold Add_slot. rewrite Hh. destruct fr as [|k fr]; cbn [chain] in W2.
  - rewrite W2. cbn [Z.eqb negb]. destruct (sys_cases f) as (b & i & ->).
    assert (i32 (st_size (set_io i f)) = off (length l)) as Hi.
    { unfold st_size. cbn [disk set_io]. rewrite Hd. change (ReqSize * (1 + zlen l)) with (off (length l)).
      pose proof (off_pos (length l)). unfold i32, ReqSize in *. rewrite Z.mod_small by lia. lia. }
    destruct b; eexists _, _; (split; [reflexivity|]); cbn [HdrData set_io]; rewrite Hh; (split; [done|]); (split; [done|]); (split; [done|]); [|done].
    rewrite Hi. intros p [= <-]. exists (length l). split; [done|]. split; [done|]. split.
    + intros r Hr. apply lookup_lt_Some in Hr. lia.
    + intros Hq. pose proof (slots_chain_in _ _ _ _ W1 Hq). lia.
  - destruct W2 as (-> & r & Hr & Hc). rewrite off_0. cbn [negb].
    assert (slots f !! k = Some r) as Hsl by (unfold slots; by rewrite Hd). destruct (read_cases None k r f Hsl) as (b & i & ->). step_ok.
    destruct b; cbn [negb]; eexists _, _; (split; [reflexivity|]); cbn [HdrData set_io set_hdr disk First Last]; rewrite ?Hh;
      (split; [done|]); (split; [done|]); (split; [done|]); [|done].
    intros p [= <-]. exists k. split; [done|]. split; [apply lookup_lt_Some in Hr; lia|]. split.
    + intros r0 Hr0. by apply (W4 k); [left|].
    + apply NoDup_app in W3 as (_ & Hx & _). intros Hq. apply (Hx k Hq). by left.
Qed.

Lemma Add_chain_keeps h l q k rP f : disk f = Some (h, l) -> chain l (First h) q -> (forall j, last q = Some j -> Last h = off j) ->
  First (HdrData f) = First h -> Last (HdrData f) = Last h -> k ∉ q ->
  exists o f' h' l', Add_chain rP (off k) f = Ok (o, f') /\ disk f' = Some (h', l') /\ keeps always l l' /\ length l' = length l /\
    l' !! k = l !! k /\ forall r, o = Some r -> body r = body rP.
Proof.
  intros Hd Hc Hl HF HL Hkq. unfold Add_chain. rewrite HF, HL. destruct (registers rP).
  { eexists _, _, h, l. split; [reflexivity|]. split; [done|]. split; [apply keeps_refl|]. do 2 (split; [done|]). by intros r [= <-]. }
  destruct (last q) as [m|] eqn:Hlast.
  - apply last_Some in Hlast as [q0 ->]. specialize (Hl m eq_refl).
    assert (First h <> 0) as HF0 by (rewrite (chain_off _ _ _ Hc); destruct q0; cbn; apply Z.eqb_neq, off_0).
    apply Z.eqb_neq in HF0 as ->. rewrite Hl, off_0. cbn [negb andb].
    destruct (slots_chain_lookup _ _ _ m Hc ltac:(set_solver)) as [r Hr].
    assert (slots f !! m = Some r) as Hsl by (unfold slots; by rewrite Hd).
    destruct (read_cases None m r f Hsl) as (b & i & ->). step_ok.
    destruct b; cbn [negb].
    + assert (m < length l)%nat as Hm by (by apply lookup_lt_Some in Hr).
      destruct (write_keeps always (set_Next (off k) r) m false h l (set_io i f)) as (b & f' & h' & l' & -> & Hd' & Hk' & _ & Hl'); [done|lia| |].
      { intros r0 Hr0 _ _. rewrite Hr in Hr0. by injection Hr0 as ->. }
      step_ok. assert (length l' = length l /\ l' !! k = l !! k) as [Hlen Hkk].
      { destruct Hl' as [->|[-> _]]; [|done]. rewrite put_slot_length by lia. split; [lia|]. rewrite put_slot_lookup by lia.
        rewrite decide_False by set_solver. done. }
      destruct b; cbn [negb]; eexists _, _, h', l'; (split; [reflexivity|]); by split_and!; try intros ? [= <-].
    + step_ok. cbn [negb]. eexists _, _, h, l. split; [reflexivity|]. by split_and!; try apply keeps_refl.
  - apply last_None in Hlast as ->. cbn [chain] in Hc. rewrite Hc. cbn [Z.eqb negb andb]. step_ok. cbn [negb].
    eexists _, _, h, l. split; [reflexivity|]. split_and!; try done; [apply keeps_refl|]. by intros r [= <-].
Qed.

Lemma Add_keeps f h l q fr rP : disk f = Some (h, l) -> flMutex f = 0 -> file_wf h l q fr -> off (length l) < 2 ^ 31 ->
  exists b f' h' l', Add rP f = Ok (b, f') /\ disk f' = Some (h', l') /\ keeps always l l' /\ (length l' <= S (length l))%nat /\
    (b = true -> exists k r, l' !! k = Some r /\ body r = body rP).
Proof.
  intros Hd Hm Hw Hs. unfold Add. destruct (lock_cases h l f Hd Hm) as (b & f1 & -> & Hd1 & Hh1). step_ok.
  assert (forall f2 h2 l2, disk f2 = Some (h2, l2) -> keeps always l l2 -> (length l2 <= S (length l))%nat ->
    exists b f' h' l', Ok (Fail_op true f2) = Ok (b, f') /\ disk f' = Some (h', l') /\ keeps always l l' /\ (length l' <= S (length l))%nat /\
      (b = true -> exists k r, l' !! k = Some r /\ body r = body rP)) as Hfail.
  { intros f2 h2 l2 H1 H2 H3. eexists _, _, h2, l2. split; [reflexivity|]. by rewrite unlock_disk. }
  destruct b; cbn [negb]; [|eexists _, _, h, l; split; [reflexivity|]; split_and!; try done; [apply keeps_refl|lia]].
  destruct (Add_slot_keeps h l q fr f1 Hd1 (Hh1 eq_refl) Hw Hs) as (o & f2 & -> & Hd2 & HF & HL & Ho). step_ok.
  destruct o as [p|]; [|apply (Hfail _ h l Hd2 (keeps_refl _ _)); lia].
  destruct (Ho p eq_refl) as (k & -> & Hk & Hbl & Hkq).
  destruct (Add_chain_keeps h l q k rP f2 Hd2 (f_first _ _ _ _ Hw) (f_last _ _ _ _ Hw) HF HL Hkq)
    as (o & f3 & h3 & l3 & -> & Hd3 & Hk3 & Hlen & Hkk & Hbody). step_ok.
  destruct o as [r|]; [|apply (Hfail _ h3 l3 Hd3 Hk3); lia].
  destruct (write_keeps always (set_This (off k) r) k true h3 l3 f3 Hd3 ltac:(lia)) as (b & f4 & h4 & l4 & -> & Hd4 & Hk4 & _ & Hl4).
  { intros r0 Hr0 Hsk _. rewrite Hkk in Hr0. unfold skipped in Hsk. by rewrite (Hbl r0 Hr0) in Hsk. }
  step_ok. eexists b, _, h4, l4. split; [reflexivity|]. split; [by rewrite unlock_disk|]. split; [|split].
  - by apply (keeps_trans _ _ l3).
  - destruct Hl4 as [->|[-> _]]; [rewrite put_slot_length by lia|]; lia.
  - intros ->. destruct Hl4 as [->|[_ [=]]]. exists k, (set_This (off k) r). split; [|by rewrite <- (Hbody r)].
    by rewrite put_slot_lookup, decide_True by lia.
Qed.

Lemma Get_loop_keeps q : forall fuel rP l h f, disk f = Some (h, l) -> chain l (First (HdrData f)) q -> NoDup q -> (length q <= fuel)%nat ->
  exists o r f' h' l', Get_loop fuel rP f = Ok (o, r, f') /\ disk f' = Some (h', l') /\ keeps always l l' /\ length l' = length l.
Proof.
  induction q as [|k q IH]; intros fuel rP l h f Hd Hc Hnd Hf.
  { cbn [chain] in Hc. exists (Some 0), rP, f, h, l. destruct fuel; cbn [Get_loop]; rewrite Hc; cbn [Z.eqb]; by split_and!; try apply keeps_refl. }
  cbn [chain] in Hc. destruct Hc as (HF & r & Hr & Hc). destruct fuel as [|fuel]; [cbn in Hf; lia|]. cbn [length] in Hf.
  cbn [Get_loop]. rewrite HF, off_0. assert (slots f !! k = Some r) as Hsl by (unfold slots; by rewrite Hd).
  destruct (read_cases (Some rP) k r f Hsl) as (b & i & ->). step_ok. destruct b; cbn [negb].
  2:{ eexists _, _, _, h, l. split; [reflexivity|]. by split_and!; try apply keeps_refl. }
  assert (k < length l)%nat as Hk by (by apply lookup_lt_Some in Hr). apply NoDup_cons in Hnd as [Hkq Hnd].
  destruct (blank r) eqn:Hb; cbn [negb].
  - match goal with |- context [reqWrite (Some ?x) _ _ ?f1] => destruct (write_keeps always x k true h l f1)
      as (b & f2 & h2 & l2 & -> & Hd2 & Hk2 & Hh2 & Hl2); [done|lia| |] end.
    { intros r0 Hr0 _ _. rewrite Hr in Hr0. by injection Hr0 as ->. }
    assert (length l2 = length l) as Hlen by (destruct Hl2 as [->|[-> _]]; rewrite ?put_slot_length by lia; lia).
    step_ok. destruct b; cbn [negb].
    + destruct (IH fuel (set_Next (Free (HdrData f)) r) l2 h2 f2 Hd2) as (o & r' & f' & h' & l' & Hg & Hd' & Hk' & Hl'); [|done|lia|].
      * rewrite Hh2. cbn [First HdrData set_hdr set_io]. apply (chain_same l); [|done]. intros j Hj.
        destruct (slots_chain_lookup _ _ _ _ Hc Hj) as [x Hx]. exists x, x. split; [done|]. split; [|done].
        destruct Hl2 as [->|[-> _]]; [|done]. rewrite put_slot_lookup, decide_False by (lia || by intros ->). done.
      * cbn [HdrData set_io set_hdr First Last Free] in *. eexists _, _, _, h', l'. split; [exact Hg|]. split; [done|].
        split; [by apply (keeps_trans _ _ l2)|lia].
    + eexists _, _, _, h2, l2. split; [reflexivity|]. done.
  - match goal with |- context [reqWrite None 0 true ?f1] => destruct (hdr_cases h l f1) as (b & i2 & h2 & ->); [done|] end.
    step_ok. eexists _, _, _, h2, l. split; [reflexivity|]. by split_and!; try apply keeps_refl.
Qed.

Lemma Get_keeps f h l q fr fuel rP : disk f = Some (h, l) -> flMutex f = 0 -> file_wf h l q fr -> (length q <= fuel)%nat ->
  exists rc r f' h' l', Get fuel rP f = Ok (rc, r, f') /\ disk f' = Some (h', l') /\ keeps always l l' /\ length l' = length l.
Proof.
  intros Hd Hm [W1 _ W3 _ _ _] Hf. unfold Get. destruct (lock_cases h l f Hd Hm) as (b & f1 & -> & Hd1 & Hh1). step_ok.
  destruct b; cbn [negb]; [|eexists _, _, _, h, l; split; [reflexivity|]; by split_and!; try apply keeps_refl].
  apply NoDup_app in W3 as (Hnd & _). specialize (Hh1 eq_refl). rewrite <- Hh1 in W1.
  destruct (Get_loop_keeps q fuel rP l h f1 Hd1 W1 Hnd Hf) as (o & r & f2 & h2 & l2 & -> & Hd2 & Hk2 & Hl2). step_ok.
  destruct o; (eexists _, _, _, h2, l2; split; [reflexivity|]; by rewrite unlock_disk).
Qed.

Definition not_slot (o : Z) (k : nat) (r : XrdFrcRequest) : Prop := off k <> o.

Lemma Del_keeps f h l k rP : disk f = Some (h, l) -> flMutex f = 0 -> This rP = off k -> (k < length l)%nat ->
  exists b f' h' l', Del rP f = Ok (b, f') /\ disk f' = Some (h', l') /\ keeps (not_slot (This rP)) l l' /\ length l' = length l.
Proof.
  intros Hd Hm Ht Hk. unfold Del. destruct (lock_cases h l f Hd Hm) as (b & f1 & -> & Hd1 & _). step_ok.
  destruct b; cbn [negb]; [|eexists _, _, h, l; split; [reflexivity|]; by split_and!; try apply keeps_refl].
  rewrite Ht. match goal with |- context [reqWrite (Some ?x) _ _ ?f2] => destruct (write_keeps (not_slot (off k)) x k true h l f2)
    as (b & f3 & h3 & l3 & -> & Hd3 & Hk3 & _ & Hl3); [done|lia| |] end; [by intros r0 _ _ []|].
  step_ok. eexists _, _, h3, l3. split; [reflexivity|]. rewrite unlock_disk. split; [done|]. split; [done|].
  destruct Hl3 as [->|[-> _]]; rewrite ?put_slot_length by lia; lia.
Qed.

Definition not_id (id : list Z) (k : nat) (r : XrdFrcRequest) : Prop := cstr (ID r) <> id.

Lemma Can_loop_keeps id : forall n i tmp c b0 h l f, disk f = Some (h, l) -> (i + n = length l)%nat -> off (length l) < 2 ^ 31 ->
  exists o f' h' l', Can_loop n id (off i) tmp c b0 f = Ok (o, f') /\ disk f' = Some (h', l') /\ keeps (not_id id) l l' /\ length l' = length l.
Proof.
  induction n as [|n IH]; intros i tmp c b0 h l f Hd Hi Hmax; cbn [Can_loop].
  { eexists _, _, h, l. split; [reflexivity|]. by split_and!; try apply keeps_refl. }
  destruct (lookup_lt_is_Some_2 l i) as [r Hr]; [lia|]. assert (slots f !! i = Some r) as Hsl by (unfold slots; by rewrite Hd).
  destruct (read_cases tmp i r f Hsl) as (b & x & ->). step_ok. destruct b; cbn [negb].
  2:{ eexists _, _, h, l. split; [reflexivity|]. by split_and!; try apply keeps_refl. }
  rewrite next_off_ok by (pose proof (off_le (S i) (length l)); lia). case_bool_decide as Hid.
  - destruct (write_keeps (not_id id) (set_LFN (<[0%nat := 0]> (LFN r)) r) i false h l (set_io x f))
      as (b & f2 & h2 & l2 & -> & Hd2 & Hk2 & _ & Hl2); [done|lia| |].
    { intros r0 Hr0 _ Hn. rewrite Hr in Hr0. injection Hr0 as ->. by destruct Hn. }
    assert (length l2 = length l) as Hlen by (destruct Hl2 as [->|[-> _]]; rewrite ?put_slot_length by lia; lia).
    pose proof (fun t c b0 => IH (S i) t c b0 h2 l2 f2 Hd2 ltac:(lia) ltac:(by rewrite Hlen)) as H.
    step_ok. step_ok. destruct b; (match goal with |- context [Can_loop n id _ ?t ?c ?b _] =>
        destruct (H t c b) as (o & f' & h' & l' & -> & Hd' & Hk' & Hl') end);
      (eexists _, _, h', l'; split; [reflexivity|]; split; [done|]; split; [|congruence]; apply (keeps_trans _ _ l2); try done;
       intros j a a' Ha; unfold not_id; change (ID a) with (ID (body a)); by rewrite <- Ha).
  - step_ok. apply (IH (S i) _ _ _ h); [done|lia|done].
Qed.

Lemma Can_keeps f h l rP : disk f = Some (h, l) -> flMutex f = 0 -> off (length l) < 2 ^ 31 ->
  exists b f' h' l', Can rP f = Ok (b, f') /\ disk f' = Some (h', l') /\ keeps (not_id (cstr (ID rP))) l l' /\ length l' = length l.
Proof.
  intros Hd Hm Hs. unfold Can. destruct (lock_cases h l f Hd Hm) as (b & f1 & -> & Hd1 & _). step_ok.
  assert (exists ok f2, (if b then sys f1 else (false, f1)) = (ok, f2) /\ disk f2 = Some (h, l)) as (ok & f2 & -> & Hd2).
  { destruct b; [|by eexists _, _]. destruct (sys_cases f1) as (ok & i & ->). by eexists _, _. }
  destruct ok; cbn [negb]; [|eexists _, _, h, l; split; [reflexivity|]; by split_and!; try apply keeps_refl].
  assert (Z.to_nat (st_size f2 / ReqSize - 1) = length l) as ->.
  { assert (st_size f2 = off (length l)) as -> by (unfold st_size; by rewrite Hd2).
    unfold off, ReqSize. rewrite (Z.mul_comm 4096), Z.div_mul by lia. lia. }
  change ReqSize with (off 0) at 1.
  destruct (Can_loop_keeps (cstr (ID rP)) (length l) 0 None 0 0 h l f2 Hd2) as (o & f3 & h3 & l3 & -> & Hd3 & Hk3 & Hl3); [lia|done|].
  step_ok. destruct o as [[c n]|]; (eexists _, _, h3, l3; split; [reflexivity|]; cbn [Fail_op snd]; rewrite unlock_disk; split; [|done]);
    [|done]. destruct (c =? 0); [done|]. by destruct (sys_cases f3) as (ok & i & ->).
Qed.

(** The queue after a server was started on a file. *)
Definition restarts (d : option (FileHdr * list XrdFrcRequest)) (P : list XrdFrcRequest -> list (list Z) -> Prop) : Prop :=
  exists names f Q, Init (XrdFrcReqFile_new d false []) = Ok (true, names, f) /\ rep f Q ∅ /\ P Q.*2 names.

Lemma restarts_server h l : off (length l) < 2 ^ 31 ->
  restarts (Some (h, l)) (fun B names => let L := regs l ++ by_tod (others l) in B = body <$> L /\ names = cstr ∘ iName <$> L).
Proof.
  intros Hs. destruct (Init_server h l Hs) as (hd & HI & Hw). eexists _, _, _. split; [exact HI|]. split.
  - apply (idle_rep _ _ _ _ (seq 0 (length (regs l ++ by_tod (others l)))) []); [exact Hw|]. set_solver.
  - split; [|done]. apply rewritten_queue, kept_not_blank.
Qed.

(** A request of each operation, from a handle with any coming failures, and then
    a server that is started: what is not lost. *)
Lemma kept_restarts P h' l l' : off (length l') < 2 ^ 31 -> keeps P l l' ->
  restarts (Some (h', l')) (fun B _ => forall k r, l !! k = Some r -> skipped r = false -> P k r -> body r ∈ B).
Proof.
  intros Hs Hk. destruct (restarts_server h' l' Hs) as (names & f & Q & HI & Hr & HB & _). exists names, f, Q.
  split; [done|]. split; [done|]. intros k r Hl Hsk HP. destruct (Hk k r Hl Hsk HP) as (r' & Hl' & <-). rewrite HB.
  apply list_elem_of_fmap_2. destruct (by_tod_spec (others l')) as (Hp & _). rewrite Hp. unfold regs, others.
  assert (r' ∈ saved l') as Hin.
  { apply list_elem_of_filter. split; [|by apply list_elem_of_lookup_2 in Hl']. rewrite <- Hsk. apply skipped_body.
    destruct (Hk k r Hl Hsk HP) as (r2 & Hl2 & Hb2). rewrite Hl' in Hl2. by injection Hl2 as ->. }
  rewrite elem_of_app, !list_elem_of_filter. destruct (registers r'); auto.
Qed.

(** ** Properties *)

(** C19: When system calls succeed a request file is a queue with a set of
    requests handed out: Add puts a request behind the others, or a
    registration before them, at an offset nobody holds; Get hands out the
    first one that was not cancelled and tells whether there can be more; Del
    frees a request that was handed out; Can removes the waiting requests of
    an id; an agent that opens the file sees the same queue. Every call
    returns. *)
Theorem ReqFile_refines f Q O : rep f Q O ->
  (forall rP, blank rP = false -> st_size f < 2 ^ 31 ->
     exists o f', Add rP f = Ok (true, f') /\ rep f' (enqueue (registers rP) (o, body rP) Q) O /\ (o ∉ Q.*1) /\ (o ∉ O)) /\
  (forall fuel rP, (length (slots f) <= fuel)%nat -> exists rc r f', Get fuel rP f = Ok (rc, r, f') /\
     match Q with
     | [] => rc = 0 /\ rep f' [] O
     | (o, b) :: Q' => (rc = 1 \/ rc = -1 /\ Q' = []) /\ body r = b /\ This r = o /\ (o ∉ O) /\ rep f' Q' ({[o]} ∪ O)
     end) /\
  (forall rP, This rP ∈ O -> exists f', Del rP f = Ok (true, f') /\ rep f' Q (O ∖ {[This rP]})) /\
  (forall rP, st_size f < 2 ^ 31 ->
     exists f', Can rP f = Ok (true, f') /\ rep f' (filter (fun x => cstr (ID x.2) <> cstr (ID rP)) Q) O) /\
  (exists f', Init (XrdFrcReqFile_new (disk f) true []) = Ok (true, [], f') /\ rep f' Q O).
Proof.
  intros Hr. split; [intros rP; by apply rep_Add|]. split; [intros fuel rP; by apply rep_Get|].
  split; [intros rP; by apply rep_Del|]. split; [intros rP; by apply rep_Can|by apply rep_agent].
Qed.

(** C24: A server that opens a request file, whatever its chains hold, gets a
    queue of exactly the saved requests of its slots: the registrations in the
    order of their slots and then the others by the time they were added,
    those of the same second in the reverse order; a new file gives an empty
    queue. *)
Theorem Init_recovers d : match d with Some (_, l) => off (length l) < 2 ^ 31 | None => True end ->
  restarts d (fun B names => exists L, B = body <$> L /\ names = cstr ∘ iName <$> L /\ exists rest,
    L = regs (slots_of d) ++ rest /\ rest ≡ₚ others (slots_of d) /\ Sorted (fun a b => addTOD a <= addTOD b) rest /\
    forall t, filter (fun r => addTOD r = t) rest = rev (filter (fun r => addTOD r = t) (others (slots_of d)))).
Proof.
  destruct d as [[h l]|]; intros Hs.
  - destruct (restarts_server h l Hs) as (names & f & Q & HI & Hr & HB & HN). exists names, f, Q. split; [done|]. split; [done|].
    eexists. split; [exact HB|]. split; [exact HN|]. eexists. split; [reflexivity|]. apply by_tod_spec.
  - destruct Init_empty as (hd & l & HI & Hw & Hl). exists [], (idle false hd l hd), []. split; [exact HI|]. split.
    + apply (idle_rep _ _ _ _ [] [0%nat]); [done|]. set_solver.
    + exists []. do 2 (split; [done|]). exists []. split_and!; [done|done|constructor|done].
Qed.

(** C20: An operation on a request file returns whichever of its system calls
    fail, and a server started afterwards has every request saved before in
    its queue, those handed out too, except the one deleted or those of the
    cancelled id; an Add that reports success has saved its request. *)
Theorem Failed_keeps f Q O i : rep f Q O -> st_size f + ReqSize < 2 ^ 31 ->
  let lost_none P f' := restarts (disk f')
    (fun B _ => forall k r, slots f !! k = Some r -> skipped r = false -> P k r -> body r ∈ B) in
  (forall rP, exists b f', Add rP (set_io i f) = Ok (b, f') /\ lost_none always f' /\
     (b = true -> exists k r, slots f' !! k = Some r /\ body r = body rP)) /\
  (forall fuel rP, (length (slots f) <= fuel)%nat -> exists rc r f', Get fuel rP (set_io i f) = Ok (rc, r, f') /\ lost_none always f') /\
  (forall rP, This rP ∈ O -> exists b f', Del rP (set_io i f) = Ok (b, f') /\ lost_none (not_slot (This rP)) f') /\
  (forall rP, exists b f', Can rP (set_io i f) = Ok (b, f') /\ lost_none (not_id (cstr (ID rP))) f').
Proof.
  intros [[Hm Hio] (h & l & q & fr & Hd & Hw & -> & HO)] Hs lost_none.
  assert (slots f = l) as Hl by (unfold slots; by rewrite Hd).
  assert (off (length l) + ReqSize < 2 ^ 31) as Hmax by (unfold st_size in Hs; by rewrite Hd in Hs). clear Hs.
  assert (forall P f' h' l', disk f' = Some (h', l') -> (length l' <= S (length l))%nat -> keeps P l l' -> lost_none P f') as Hlost.
  { intros P f' h' l' H1 H2 H3. unfold lost_none. rewrite H1, Hl. apply kept_restarts; [|done].
    pose proof (off_le _ _ H2). unfold off, ReqSize in *. lia. }
  assert (off (length l) < 2 ^ 31) as Hmax' by (unfold ReqSize in *; lia).
  split; [|split; [|split]].
  - intros rP. destruct (Add_keeps (set_io i f) h l q fr rP Hd Hm Hw Hmax') as (b & f' & h' & l' & -> & H1 & H2 & H3 & H4).
    exists b, f'. split; [done|]. split; [by eapply Hlost|]. unfold slots. by rewrite H1.
  - intros fuel rP Hf. rewrite Hl in Hf. pose proof (queue_fuel _ _ _ _ Hw).
    destruct (Get_keeps (set_io i f) h l q fr fuel rP Hd Hm Hw ltac:(lia)) as (rc & r & f' & h' & l' & -> & H1 & H2 & H3).
    exists rc, r, f'. split; [done|]. eapply Hlost; [done|lia|done].
  - intros rP Ht. destruct (HO _ Ht) as (k & Hk & Hkl & _).
    destruct (Del_keeps (set_io i f) h l k rP Hd Hm Hk Hkl) as (b & f' & h' & l' & -> & H1 & H2 & H3).
    exists b, f'. split; [done|]. eapply Hlost; [done|lia|done].
  - intros rP. destruct (Can_keeps (set_io i f) h l rP Hd Hm Hmax') as (b & f' & h' & l' & -> & H1 & H2 & H3).
    exists b, f'. split; [done|]. eapply Hlost; [done|lia|done].
Qed.

(** ** Examples *)

Definition req (c tod opts : Z) : XrdFrcRequest := MkReq [47; c] [] [c] [] [] [] tod 0 0 opts 0 0 0 0 0.

(** A file with a request that waits and one that was handed out. *)
Definition two_requests : XrdFrcReqFile :=
  idle false (MkHdr (off 0) (off 0) 0) [set_This (off 0) (req 97 5 0); set_This (off 1) (req 98 5 0)] zero_hdr.

Lemma two_requests_rep : rep two_requests [(off 0, body (req 97 5 0))] {[off 1]}.
Proof.
  split; [done|]. eexists _, _, [0%nat], []. split; [reflexivity|]. split; [split|split].
  - split; [done|]. eexists. by split.
  - done.
  - apply NoDup_singleton.
  - intros k r Hk. by apply elem_of_nil in Hk.
  - by intros k [= <-].
  - by intros k r ->%list_elem_of_singleton [= <-].
  - done.
  - intros o ->%elem_of_singleton. exists 1%nat. split; [done|]. split; [cbn; lia|]. cbn [app]. by intros ?%list_elem_of_singleton.
Qed.

Example ReqFile_refines_witness : exists f1 o f2, Del (set_This (off 1) zero_req) two_requests = Ok (true, f1) /\
  rep f1 [(off 0, body (req 97 5 0))] ({[off 1]} ∖ {[off 1]}) /\
  Add (req 99 6 0) two_requests = Ok (true, f2) /\ rep f2 [(off 0, body (req 97 5 0)); (o, body (req 99 6 0))] {[off 1]}.
Proof.
  destruct (ReqFile_refines two_requests _ _ two_requests_rep) as (HA & _ & HD & _ & _).
  destruct (HA (req 99 6 0) eq_refl eq_refl) as (o & f2 & H1 & H2 & _ & _).
  destruct (HD (set_This (off 1) zero_req)) as (f1 & H3 & H4); [by apply elem_of_singleton|].
  exists f1, o, f2. split; [exact H3|]. split; [exact H4|]. split; [exact H1|exact H2].
Defined.

Example Init_recovers_witness : restarts (disk two_requests) (fun B _ => length B = 2%nat).
Proof.
  destruct (Init_recovers (disk two_requests) eq_refl) as (names & f & Q & HI & Hr & L & HB & _ & rest & -> & Hp & _).
  exists names, f, Q. split; [exact HI|]. split; [exact Hr|]. rewrite HB, length_fmap, length_app, (Permutation_length Hp). reflexivity.
Defined.

Example Failed_keeps_witness : exists b f', Add (req 99 6 0) (set_io [true; true; true; true; true; false] two_requests) = Ok (b, f') /\
  restarts (disk f') (fun B _ => body (req 97 5 0) ∈ B /\ body (req 98 5 0) ∈ B).
Proof.
  destruct (Failed_keeps two_requests _ _ [true; true; true; true; true; false] two_requests_rep eq_refl) as (HA & _).
  destruct (HA (req 99 6 0)) as (b & f' & HR & (names & f2 & Q & HI & Hr & HB) & _). exists b, f'. split; [exact HR|].
  exists names, f2, Q. split; [exact HI|]. split; [exact Hr|]. split.
  - exact (HB 0%nat (set_This (off 0) (req 97 5 0)) eq_refl eq_refl I).
  - exact (HB 1%nat (set_This (off 1) (req 98 5 0)) eq_refl eq_refl I).
Defined.

(** The waiting texts of a file's slots. *)
Definition texts (f : XrdFrcReqFile) : list (list Z) := cstr ∘ ID <$> filter (fun r => blank r = false) (slots f).

(** An agent that fails between the two writes of [Add] leaves the last request
    chained to a free slot; two requests that are added later share that slot, and
    the first of them is gone although its [Add] succeeded. *)
Definition half_added : res (bool * XrdFrcReqFile * XrdFrcReqFile) :=
  '(_, f) ← Del (set_This (off 1) zero_req) two_requests;
  '(_, f) ← Add (req 99 6 0) (set_io [true; true; true; true; true; false] f);
  let f := set_io [] f in
  '(_, _, f) ← Get 4 zero_req f;
  '(_, _, f) ← Get 4 zero_req f;
  '(ok, f1) ← Add (req 100 7 0) f;
  '(_, f2) ← Add (req 101 8 0) f1;
  Ok (ok, f1, f2).

Example lost_after_failed_Add : match half_added with
  | Ok (ok, f1, f2) => ok = true /\ texts f1 = [[97]; [100]] /\ texts f2 = [[97]; [101]]
  | _ => False
  end.
Proof. vm_compute. by split_and!. Qed.

(** A request whose removal from the chain is not written is handed out again. *)
Example Get_twice : match ('(rc, r, f) ← Get 4 zero_req (set_io [true; true; true; false] two_requests);
                           '(rc', r', f) ← Get 4 zero_req f; Ok (rc, This r, rc', This r')) with
  | Ok x => x = (-1, off 0, -1, off 0)
  | _ => False
  end.
Proof. vm_compute. reflexivity. Qed.

(** A [Can] whose fstat fails keeps the lock: the next operation waits for ever. *)
Example Can_keeps_lock : exists f, Can (req 97 5 0) (set_io [true; true; false] two_requests) = Ok (false, f) /\
  forall rP, Add rP (set_io [] f) = Diverge.
Proof. eexists. split; [vm_compute; reflexivity|]. intros rP. reflexivity. Qed.

(** A server that cannot open the new file unlocks its mutex twice. *)
Example ReWrite_unlocks_twice : match Init (set_io [true; true; true; true; true; true; false] (XrdFrcReqFile_new (disk two_requests) false [])) with
  | Ok (ok, _, f) => ok = false /\ flMutex f = -1
  | _ => False
  end.
Proof. vm_compute. by split. Qed.

(** Registrations are not first in, first out. *)
Example registrations_lifo : match ('(_, f) ← Add (req 114 6 Register) two_requests; '(_, f) ← Add (req 115 7 Register) f;
                                    '(_, r, _) ← Get 4 zero_req f; Ok (ID r)) with
  | Ok id => id = [115]
  | _ => False
  end.
Proof. vm_compute. reflexivity. Qed.
