(* ===== verification/FrcReqList.v ===== *)
(** * The agents of the request files and what they list

    Models [List] and [ListL] of src/src/XrdFrc/XrdFrcReqFile.cc, the agent of a
    queue (XrdFrcReqAgent.cc), the proxy that a server or a command uses
    (XrdFrcProxy.cc) and the maps of XrdFrcUtils.cc. An agent has one request file
    per priority; the proxy has an agent per queue, composes the requests and walks
    over the queues to list them. The state of [FrcReqFile] is threaded through.

    The time, the names of the process and what a caller's buffer holds are
    arguments. A [Fault] is an access outside an array or through a null pointer. *)

From Stdlib Require Import Strings.String.
From stdpp Require Import base tactics list_numbers numbers option gmap list.
From S2P Require Import Prelude CString FrcReqFile.
#[local] Set Warnings "-clear-no-such-hyp".

(** ** Texts in arrays *)

(** [strlen] and the text of an array; one without a null is read beyond its end. *)
Definition text (a : list Z) : res (list Z) := if bool_decide (0 ∈ a) then Ok (cstr a) else Fault.

(** [strlcpy( a, s, sizeof(a) )] *)
Definition strlcpy (s a : list Z) : list Z :=
  let t := take (length a - 1) s in t ++ 0 :: drop (S (length t)) a.

(** [strcpy( a, s )]; what does not fit is written behind the array. *)
Definition strcpy (s a : list Z) : res (list Z) :=
  if (length s <? length a)%nat then Ok (s ++ 0 :: drop (S (length s)) a) else Fault.

(** Bytes stored at a place of a buffer. *)
Definition put (pos : Z) (w buf : list Z) : res (list Z) :=
  if (0 <=? pos) && (pos + zlen w <=? zlen buf)
  then Ok (take (Z.to_nat pos) buf ++ w ++ drop (Z.to_nat pos + length w) buf) else Fault.

(** A byte of an array. *)
Definition set_at (n : Z) (c : Z) (a : list Z) : res (list Z) :=
  if (0 <=? n) && (n <? zlen a) then Ok (<[Z.to_nat n := c]> a) else Fault.

(** ** Items *)

Inductive Item :=
  | getOBJ | getLFN | getOBJCGI | getLFNCGI | getMODE | getNOTE | getOP | getPRTY | getQWT | getRID | getTOD | getUSER | getLast.

#[export] Instance Item_eq_dec : EqDecision Item.
Proof. solve_decision. Defined.

(** [MapV2I]: the item of a variable's name. *)
Definition ITypes : list (list Z * Item) :=
  [(str "lfn", getLFN); (str "lfncgi", getLFNCGI); (str "mode", getMODE); (str "obj", getOBJ); (str "objcgi", getOBJCGI);
   (str "op", getOP); (str "prty", getPRTY); (str "qwt", getQWT); (str "rid", getRID); (str "tod", getTOD);
   (str "note", getNOTE); (str "tid", getUSER)].
Definition MapV2I (vName : list Z) : option Item :=
  snd <$> List.find (fun p => bool_decide (vName = p.1)) ITypes.

(** [tmpReq.LFN+Lfo] *)
Definition from (o : Z) (a : list Z) : res (list Z) :=
  if (0 <=? o) && (o <=? zlen a) then Ok (drop (Z.to_nat o) a) else Fault.

(** [strlcpy( Buff, s, bln )]: what is stored, and the length of the text. *)
Definition copy (s : list Z) (bln : Z) : list Z * Z := (take (Z.to_nat (bln - 1)) s ++ [0], zlen s).

(** The request's file name with the opaque text joined by a question mark; the
    null comes back afterwards. *)
Definition with_cgi (r : XrdFrcRequest) (Lfo : Z) : res (list Z * XrdFrcRequest) :=
  s ← text (LFN r);
  let n := zlen s in
  a ← set_at n 63 (LFN r);
  a ← (if Opaque r =? 0 then set_at (n + 1) 0 a else Ok a);
  b ← from Lfo a;
  t ← text b;
  a ← set_at n 0 a;
  Ok (t, set_LFN a r).

(** [sprintf( tbuf, "%lld", tval )] *)
Definition lld (n : Z) : list Z := if n <? 0 then 45 :: dec (- n) else dec n.

(** One turn of [ListL]: the bytes stored at [Buff], [n] and the request. *)
Definition item (now : Z) (r : XrdFrcRequest) (it : Item) (bln : Z) : res (list Z * Z * XrdFrcRequest) :=
  match it with
  | getOBJ => s ← text (LFN r); Ok (copy s bln, r)
  | getLFN => a ← from (LFO r) (LFN r); s ← text a; Ok (copy s bln, r)
  | getOBJCGI => '(s, r) ← with_cgi r 0; Ok (copy s bln, r)
  | getLFNCGI => '(s, r) ← with_cgi r (LFO r); Ok (copy s bln, r)
  | getMODE =>
      let w := [if Z.land (Options r) makeRW =? 0 then 114 else 119] in
      let w := if negb (Z.land (Options r) msgFail =? 0) && (0 <? bln - zlen w) then w ++ [102] else w in
      let w := if negb (Z.land (Options r) msgSucc =? 0) && (0 <? bln - zlen w) then w ++ [110] else w in
      Ok (w, zlen w, r)
  | getNOTE => s ← text (Notify r); Ok (copy s bln, r)
  | getOP => Ok ([OPc r], 1, r)
  | getPRTY => Ok ([if Prty r =? 2 then 50 else if Prty r =? 1 then 49 else 48], 1, r)
  | getQWT => Ok (copy (lld (now - addTOD r)) bln, r)
  | getTOD => Ok (copy (lld (addTOD r)) bln, r)
  | getRID => s ← text (ID r); Ok (copy s bln, r)
  | getUSER => s ← text (User r); Ok (copy s bln, r)
  | getLast => Ok ([], 0, r)
  end.

Fixpoint ListL_loop (now : Z) (l : list Item) (r : XrdFrcRequest) (buf : list Z) (pos bln : Z) : res (list Z * Z) :=
  match l with
  | [] => Ok (buf, pos)
  | it :: l =>
      if bln <=? 0 then Ok (buf, pos)
      else
        '(w, n, r) ← item now r it bln;
        buf ← put pos w buf;
        let bln := bln - n in
        let pos := pos + n in
        if 0 <? bln then buf ← put pos [32] buf; ListL_loop now l r buf (pos + 1) (bln - 1)
        else ListL_loop now l r buf pos bln
  end.

(** [ListL( tmpReq, Buff, bsz, ITList, ITNum )] with [bsz] the buffer's size *)
Definition ListL (now : Z) (tmpReq : XrdFrcRequest) (Buff : list Z) (ITList : list Item) : res (list Z) :=
  '(buf, pos) ← ListL_loop now ITList tmpReq Buff 0 (zlen Buff - 2);
  put pos [0] buf.

(** ** [List] of a request file *)

(** The next request from an offset that is listed, and the offset after it. *)
Fixpoint List_loop (fuel : nat) (Offs : Z) (f : XrdFrcReqFile) : res (option XrdFrcRequest * Z * XrdFrcReqFile) :=
  let '(ok, f) := sys f in
  if negb ok then Ok (None, Offs, f)
  else
    k ← slot_of Offs;
    match slots f !! k with
    | None => Ok (None, Offs, f)
    | Some r =>
        match fuel with
        | O => Diverge
        | S fuel =>
            Offs ← next_off Offs;
            if skipped r || registers r then List_loop fuel Offs f else Ok (Some r, Offs, f)
        end
    end.

(** [List( Buff, bsz, Offs, ITList, ITNum )]: the buffer if there is an entry. *)
Definition ReqFile_List (now : Z) (Buff : list Z) (Offs : Z) (ITList : list Item) (f : XrdFrcReqFile)
  : res (option (list Z) * Z * XrdFrcReqFile) :=
  let Offs := if Offs <? ReqSize then ReqSize else Offs in
  '(ok, f) ← FileLock true f;
  if negb ok then Ok (None, Offs, f)
  else
    '(r, Offs, f) ← List_loop (length (slots f)) Offs f;
    let f := (FileUnlock f).2 in
    match r with
    | None => Ok (None, Offs, f)
    | Some r =>
        match ITList with
        | [] => s ← text (LFN r); buf ← put 0 (take (length Buff - 1) s ++ [0]) Buff; Ok (Some buf, Offs, f)
        | _ => buf ← ListL now r Buff ITList; Ok (Some buf, Offs, f)
        end
    end.

(** ** Maps of the operations *)

Definition stgQ : Z := 0.
Definition migQ : Z := 1.
Definition getQ : Z := 2.
Definition putQ : Z := 3.
Definition nilQ : Z := 4.
Definition maxPrty : Z := 2.
Definition Purge : Z := 0x20.

(** [MapR2Q( Opc, &Flags )] *)
Definition MapR2Q (Opc Flags : Z) : Z * Z :=
  if (Opc =? 0) || (Opc =? 43) then (stgQ, Flags)
  else if Opc =? 94 then (migQ, Purge)
  else if Opc =? 38 then (migQ, Flags)
  else if Opc =? 60 then (getQ, Flags)
  else if Opc =? 61 then (putQ, Z.lor Flags Purge)
  else if Opc =? 62 then (putQ, Flags)
  else (nilQ, Flags).

(** [index( s, c )] *)
Definition has (c : Z) (s : list Z) : bool := bool_decide (c ∈ s).

(** [MapM2O( Nop, Pop )] *)
Definition MapM2O (Nop Pop : list Z) : Z :=
  let Options := if has 119 Pop then makeRW else 0 in
  if bool_decide (head Nop = Some 45) then Options
  else
    let Options := if has 115 Pop || has 110 Pop then Z.lor Options msgSucc else Options in
    if has 102 Pop || negb (has 113 Pop) then Z.lor Options msgFail else Options.

(** [while(Elem[1] == '/') Elem++] *)
Fixpoint slashes (s : list Z) : Z :=
  match s with _ :: s => if bool_decide (head s = Some 47) then 1 + slashes s else 0 | [] => 0 end.

(** [chkURL( Url )] *)
Definition chkURL (Url : list Z) : Z :=
  match strchr 58 Url with
  | None => 0
  | Some (a, s) =>
      if negb (bool_decide (take 2 s = [47; 47])) then 0
      else match strchr 47 (drop 2 s) with
           | None => 0
           | Some (b, s) => if negb (bool_decide (head s = Some 47)) then 0 else zlen a + 3 + zlen b + 1 + slashes s
           end
  end.

(** ** The agent of a queue *)

Record XrdFrcReqAgent := MkAgent { rQueue : list XrdFrcReqFile; myName : list Z; theQ : Z }.

Definition set_queue (l : list XrdFrcReqFile) (a : XrdFrcReqAgent) : XrdFrcReqAgent := MkAgent l (myName a) (theQ a).

(** What [Add] completes in a request. *)
Definition complete (now : Z) (name : list Z) (r : XrdFrcRequest) : XrdFrcRequest :=
  let p := if maxPrty <? Prty r then maxPrty else if Prty r <? 0 then 0 else Prty r in
  MkReq (LFN r) (User r) (ID r) (Notify r) (strlcpy name (iName r)) (csValue r) now (This r) (Next r) (Options r) (LFO r)
    (Opaque r) (csType r) (OPc r) p.

(** [rQueue[i]], an operation on it *)
Definition on_queue {A} (i : Z) (op : XrdFrcReqFile -> res (A * XrdFrcReqFile)) (a : XrdFrcReqAgent) : res (A * XrdFrcReqAgent) :=
  if i <? 0 then Fault
  else match rQueue a !! Z.to_nat i with
       | None => Fault
       | Some f => '(x, f) ← op f; Ok (x, set_queue (<[Z.to_nat i := f]> (rQueue a)) a)
       end.

(** [Add( Request )] *)
Definition Agent_Add (now : Z) (Request : XrdFrcRequest) (a : XrdFrcReqAgent) : res (bool * XrdFrcReqAgent) :=
  let r := complete now (myName a) Request in on_queue (Prty r) (Add r) a.

(** [Del( Request )] *)
Fixpoint Can_all (r : XrdFrcRequest) (l : list XrdFrcReqFile) : res (list XrdFrcReqFile) :=
  match l with
  | [] => Ok []
  | f :: l => '(_, f) ← Can r f; l ← Can_all r l; Ok (f :: l)
  end.
Definition Agent_Del (r : XrdFrcRequest) (a : XrdFrcReqAgent) : res XrdFrcReqAgent :=
  l ← Can_all r (rQueue a); Ok (set_queue l a).

(** The loop of [List] over one file: the lines written. *)
Fixpoint list_queue (fuel : nat) (now : Z) (myLfn : list Z) (Offs : Z) (Items : list Item) (f : XrdFrcReqFile)
  : res (list (list Z) * list Z * XrdFrcReqFile) :=
  match fuel with
  | O => Diverge
  | S fuel =>
      '(b, Offs, f) ← ReqFile_List now myLfn Offs Items f;
      match b with
      | None => Ok ([], myLfn, f)
      | Some myLfn =>
          '(out, myLfn', f) ← list_queue fuel now myLfn Offs Items f; Ok (cstr myLfn :: out, myLfn', f)
      end
  end.

Fixpoint list_queues (fuel : nat) (now : Z) (myLfn : list Z) (Items : list Item) (l : list XrdFrcReqFile)
  : res (list (list Z) * list XrdFrcReqFile) :=
  match l with
  | [] => Ok ([], [])
  | f :: l =>
      '(out, myLfn, f) ← list_queue fuel now myLfn 0 Items f;
      '(out', l) ← list_queues fuel now myLfn Items l;
      Ok (out ++ out', f :: l)
  end.

(** [List( Items, Num )]: the lines; their number is the result. *)
Definition Agent_List (fuel : nat) (now : Z) (myLfn : list Z) (Items : list Item) (a : XrdFrcReqAgent)
  : res (list (list Z) * XrdFrcReqAgent) :=
  '(out, l) ← list_queues fuel now myLfn Items (rQueue a); Ok (out, set_queue l a).

(** [List( Items, Num, Prty )] *)
Definition Agent_List_prty (fuel : nat) (now : Z) (myLfn : list Z) (Items : list Item) (Prty : Z) (a : XrdFrcReqAgent)
  : res (list (list Z) * XrdFrcReqAgent) :=
  if Prty <=? maxPrty then
    on_queue Prty (fun f => '(out, _, f) ← list_queue fuel now myLfn 0 Items f; Ok (out, f)) a
  else Ok ([], a).

(** [NextLFN( Buff, Bsz, Prty, Offs )] *)
Definition NextLFN (now : Z) (Buff : list Z) (Prty Offs : Z) (a : XrdFrcReqAgent) : res (option (list Z) * Z * XrdFrcReqAgent) :=
  on_queue Prty (ReqFile_List now Buff Offs [getLFN]) a.

(** The registration that [Start] writes. *)
Definition registration (now : Z) (myClid Uid Gid pid name : list Z) : XrdFrcRequest :=
  MkReq (strlcpy myClid (LFN zero_req)) (Uid ++ 32 :: Gid ++ drop (S (length Uid + length Gid)) (User zero_req))
    (pid ++ drop (length pid) (ID zero_req)) (Notify zero_req) (strlcpy name (iName zero_req)) (csValue zero_req)
    now 0 0 Register 0 0 0 64 0.

(** The queues of [Start]: each is opened and the agent registers in it. *)
Fixpoint Start_queues (Request : option XrdFrcRequest) (l : list XrdFrcReqFile) : res (bool * list XrdFrcReqFile) :=
  match l with
  | [] => Ok (true, [])
  | f :: l =>
      '(ok, _, f) ← Init f;
      if negb ok then Ok (false, f :: l)
      else
        f ← match Request with Some r => '(_, f) ← Add r f; Ok f | None => Ok f end;
        '(ok, l) ← Start_queues Request l; Ok (ok, f :: l)
  end.

(** [Start] on the new files of the agent *)
Definition Agent_Start (Request : option XrdFrcRequest) (name : list Z) (q : Z) (files : list XrdFrcReqFile)
  : res (bool * XrdFrcReqAgent) :=
  '(ok, l) ← Start_queues Request files; Ok (ok, MkAgent l name q).

(** ** The proxy *)

Definition opGet : Z := 1.
Definition opPut : Z := 2.
Definition opMig : Z := 4.
Definition opStg : Z := 8.
Definition opAll : Z := 15.

(** [oqMap]: the queue and the bit of each service *)
Definition oqMap : list (Z * Z) := [(getQ, opGet); (migQ, opMig); (stgQ, opStg); (putQ, opPut)].

Record XrdFrcProxy := MkProxy { Agent : list (option XrdFrcReqAgent); intName : list Z }.

Definition XrdFrcProxy_new (name : list Z) : XrdFrcProxy := MkProxy (replicate 5 None) name.

Definition agent (q : Z) (p : XrdFrcProxy) : option XrdFrcReqAgent := mjoin (Agent p !! Z.to_nat q).
Definition set_agent (q : Z) (a : XrdFrcReqAgent) (p : XrdFrcProxy) : XrdFrcProxy :=
  MkProxy (<[Z.to_nat q := Some a]> (Agent p)) (intName p).

Definition ENOTSUP : Z := 95.
Definition ENAMETOOLONG : Z := 36.
Definition EILSEQ : Z := 84.

(** A [signed char] *)
Definition schar (z : Z) : Z := (z + 128) mod 256 - 128.

(** The request that [Add] composes; the arguments are texts, [None] a null. *)
Definition compose (Opc : Z) (Lfn : list Z) (Opq Usr Rid Nop : option (list Z)) (Pop : list Z) (Prty Options : Z) (intName : list Z)
  : res (Z + XrdFrcRequest) :=
  let n := zlen Lfn in
  let opq := default [] Opq in
  let '(fits, lfn, opaque) :=
    match opq with
    | [] => (n <? lfnSize, Lfn ++ drop (length Lfn) (LFN zero_req), 0)
    | _ => (n + zlen opq + 2 <=? lfnSize, Lfn ++ 0 :: opq ++ drop (S (length Lfn + length opq)) (LFN zero_req), n + 1)
    end in
  if negb fits then Ok (inl (- ENAMETOOLONG))
  else
    let url := negb (bool_decide (head lfn = Some 47)) in
    let lfo := if url then chkURL (cstr lfn) else 0 in
    if url && (lfo =? 0) then Ok (inl (- EILSEQ))
    else
      user ← match Usr with Some ((_ :: _) as u) => Ok (strlcpy u (User zero_req)) | _ => strcpy intName (User zero_req) end;
      let notify := match Nop with Some ((_ :: _) as s) => strlcpy s (Notify zero_req) | _ => strlcpy [45] (Notify zero_req) end in
      Ok (inr (MkReq lfn user (strlcpy (default [63] Rid) (ID zero_req)) notify (iName zero_req)
             (csValue zero_req) 0 0 0 (Z.lor Options (MapM2O (cstr notify) Pop)) lfo opaque 0 Opc (schar Prty))).

(** [Add( Opc, Lfn, Opq, Usr, Rid, Nop, Pop, Prty )] *)
Definition Proxy_Add (now Opc : Z) (Lfn : list Z) (Opq Usr Rid Nop : option (list Z)) (Pop : list Z) (Prty : Z) (p : XrdFrcProxy)
  : res (Z * XrdFrcProxy) :=
  let '(q, Options) := MapR2Q Opc 0 in
  match agent q p with
  | None => Ok (- ENOTSUP, p)
  | Some a =>
      made ← compose Opc Lfn Opq Usr Rid Nop Pop Prty Options (intName p);
      match made with
      | inl e => Ok (e, p)
      | inr r => '(_, a) ← Agent_Add now r a; Ok (0, set_agent q a p)
      end
  end.

(** [Del( Opc, Rid )] *)
Definition Proxy_Del (Opc : Z) (Rid : list Z) (p : XrdFrcProxy) : res (Z * XrdFrcProxy) :=
  let '(q, _) := MapR2Q Opc 0 in
  match agent q p with
  | None => Ok (- ENOTSUP, p)
  | Some a =>
      let z := zero_req in
      let r := MkReq (LFN z) (User z) (strlcpy Rid (ID z)) (Notify z) (iName z) (csValue z) 0 0 0 0 0 0 0 0 0 in
      a ← Agent_Del r a; Ok (0, set_agent q a p)
  end.

(** The service of the lowest place whose bit is set. *)
Definition next_op (m : Z) : option (Z * Z) := List.find (fun o => negb (Z.land o.2 m =? 0)) oqMap.

(** [List( qType, qPrty, Items, Num )] *)
Fixpoint Proxy_List_items (n fuel : nat) (now : Z) (myLfn : list Z) (qType qPrty : Z) (Items : list Item) (p : XrdFrcProxy)
  : res (list (list Z) * XrdFrcProxy) :=
  if Z.land qType opAll =? 0 then Ok ([], p)
  else
    match n, next_op qType with
    | S n, Some (q, o) =>
        let qType := Z.ldiff qType o in
        match agent q p with
        | None => Proxy_List_items n fuel now myLfn qType qPrty Items p
        | Some a =>
            '(out, a) ← (if qPrty <? 0 then Agent_List fuel now myLfn Items a
                         else Agent_List_prty fuel now myLfn Items qPrty a);
            '(out', p) ← Proxy_List_items n fuel now myLfn qType qPrty Items (set_agent q a p);
            Ok (out ++ out', p)
        end
    | O, _ => Diverge
    | _, None => Ok ([], p)
    end.

(** [Queues]: where a listing stands. *)
Record Queues := MkQueues { Offset : Z; QPrty : Z; QList : Z; QNow : Z; Active : bool }.
Definition Queues_new (opX : Z) : Queues := MkQueues 0 0 opX 0 false.

(** The next queue of a listing that has an agent. *)
Fixpoint next_queue (n : nat) (p : XrdFrcProxy) (st : Queues) : option Queues :=
  match n with
  | O => Some st
  | S n =>
      if Z.land (QList st) opAll =? 0 then Some st
      else
        match next_op (QList st) with
        | None => None
        | Some (q, o) =>
            let st := MkQueues (Offset st) (QPrty st) (Z.ldiff (QList st) o) q (Active st) in
            match agent q p with
            | None => next_queue n p st
            | Some _ => Some (MkQueues (Offset st) (QPrty st) (QList st) q true)
            end
        end
  end.

(** The priorities of the queue that is listed. *)
Fixpoint next_entry (n : nat) (now : Z) (Buff : list Z) (p : XrdFrcProxy) (st : Queues) : res (option (list Z) * XrdFrcProxy * Queues) :=
  match n with
  | O => Ok (None, p, st)
  | S n =>
      if maxPrty <? QPrty st then Ok (None, p, st)
      else
        match agent (QNow st) p with
        | None => Fault
        | Some a =>
            '(b, Offs, a) ← NextLFN now Buff (QPrty st) (Offset st) a;
            let p := set_agent (QNow st) a p in
            match b with
            | Some b => Ok (Some b, p, MkQueues Offs (QPrty st) (QList st) (QNow st) (Active st))
            | None => next_entry n now Buff p (MkQueues Offs (QPrty st + 1) (QList st) (QNow st) (Active st))
            end
        end
  end.

(** [List( State, Buff, Bsz )]: the buffer of the next entry. *)
Fixpoint Proxy_List (n : nat) (now : Z) (Buff : list Z) (st : Queues) (p : XrdFrcProxy) : res (option (list Z) * XrdFrcProxy * Queues) :=
  match n with
  | O => Diverge
  | S n =>
      match (if Active st then Some st else next_queue 4 p st) with
      | None => Ok (None, p, st)
      | Some st =>
          '(b, p, st) ← next_entry 3 now Buff p st;
          match b with
          | Some b => Ok (Some b, p, st)
          | None =>
              let st := MkQueues 0 0 (QList st) (QNow st) false in
              if Z.land (QList st) opAll =? 0 then Ok (None, p, st) else Proxy_List n now Buff st p
          end
      end
  end.

(** [Init( opX, ... )] once the paths are known: an agent for each service wanted *)
Fixpoint Proxy_Init (l : list (Z * Z)) (opX : Z) (Request : option XrdFrcRequest) (name : list Z) (files : Z -> list XrdFrcReqFile)
  (p : XrdFrcProxy) : res (bool * XrdFrcProxy) :=
  match l with
  | [] => Ok (true, p)
  | (q, o) :: l =>
      if Z.land opX o =? 0 then Proxy_Init l opX Request name files p
      else
        '(ok, a) ← Agent_Start Request name q (files q);
        if negb ok then Ok (false, set_agent q a p) else Proxy_Init l opX Request name files (set_agent q a p)
  end.

(** ** Texts *)

Definition texty (s : list Z) : Prop := Forall (fun c => c <> 0) s.

Lemma cstr_app s rest : texty s -> cstr (s ++ 0 :: rest) = s.
Proof. induction 1 as [|c s Hc _ IH]; cbn [app cstr]; [done|]. destruct (Z.eqb_spec c 0); [done|]. by rewrite IH. Qed.

Lemma cstr_texty a : texty (cstr a).
Proof. induction a as [|c a IH]; cbn; [constructor|]. destruct (Z.eqb_spec c 0); by constructor. Qed.

Lemma text_app s rest : texty s -> text (s ++ 0 :: rest) = Ok s.
Proof.
  intros Hs. unfold text. rewrite bool_decide_eq_true_2 by (apply elem_of_app; right; left). by rewrite cstr_app.
Qed.

Lemma text_in a : 0 ∈ a -> text a = Ok (cstr a).
Proof. intros Ha. unfold text. by rewrite bool_decide_eq_true_2. Qed.

Lemma texty_app s t : texty (s ++ t) <-> texty s /\ texty t.
Proof. apply Forall_app. Qed.

Lemma texty_take n s : texty s -> texty (take n s).
Proof. apply Forall_take. Qed.
Lemma texty_drop n s : texty s -> texty (drop n s).
Proof. apply Forall_drop. Qed.

Lemma texty_lld n : texty (lld n).
Proof.
  unfold lld. destruct (Z.ltb_spec n 0); [constructor; [lia|]|]; (eapply Forall_impl; [apply (dec_no_char 0); [lia|done]|done]).
Qed.

Lemma strlcpy_text s a : texty s -> (0 < length a)%nat -> exists rest, strlcpy s a = take (length a - 1) s ++ 0 :: rest /\
  length (strlcpy s a) = length a.
Proof.
  intros Hs Ha. unfold strlcpy. eexists. split; [reflexivity|]. rewrite length_app, length_cons, length_drop, length_take. lia.
Qed.

Lemma put_bytes_ok pos w buf : 0 <= pos -> pos + zlen w <= zlen buf ->
  exists buf', put pos w buf = Ok buf' /\ zlen buf' = zlen buf /\ take (Z.to_nat pos + length w) buf' = take (Z.to_nat pos) buf ++ w.
Proof.
  intros Hp Hw. unfold put. destruct (Z.leb_spec 0 pos); [|lia]. destruct (Z.leb_spec (pos + zlen w) (zlen buf)); [|lia]. cbn [andb].
  unfold zlen in *. eexists. split; [reflexivity|]. split.
  - rewrite !length_app, length_take, length_drop. lia.
  - rewrite app_assoc, take_app_length'; [done|]. rewrite length_app, length_take. lia.
Qed.

(** ** Listing a record *)

(** A record whose file name is [lfn] with the opaque text [opq]. *)
Record shaped (r : XrdFrcRequest) (lfn opq : list Z) : Prop := {
  s_lfn : texty lfn /\ texty opq;
  s_array : exists pad, LFN r = lfn ++ 0 :: opq ++ 0 :: pad;
  s_opaque : Opaque r = 0 /\ opq = [] \/ Opaque r <> 0;
  s_lfo : 0 <= LFO r <= zlen lfn;
  s_texts : 0 ∈ Notify r /\ 0 ∈ ID r /\ 0 ∈ User r;
  s_opc : OPc r <> 0 }.

Definition mode_text (o : Z) : list Z :=
  (if Z.land o makeRW =? 0 then 114 else 119) :: (if Z.land o msgFail =? 0 then [] else [102]) ++
  (if Z.land o msgSucc =? 0 then [] else [110]).

Definition prty_text (p : Z) : list Z := [if p =? 2 then 50 else if p =? 1 then 49 else 48].

(** What is shown of an item. *)
Definition item_value (now : Z) (r : XrdFrcRequest) (lfn opq : list Z) (it : Item) : list Z :=
  match it with
  | getOBJ => lfn
  | getLFN => drop (Z.to_nat (LFO r)) lfn
  | getOBJCGI => lfn ++ 63 :: opq
  | getLFNCGI => drop (Z.to_nat (LFO r)) (lfn ++ 63 :: opq)
  | getMODE => mode_text (Options r)
  | getNOTE => cstr (Notify r)
  | getOP => [OPc r]
  | getPRTY => prty_text (Prty r)
  | getQWT => lld (now - addTOD r)
  | getRID => cstr (ID r)
  | getTOD => lld (addTOD r)
  | getUSER => cstr (User r)
  | getLast => []
  end.

Lemma item_value_texty now r lfn opq it : shaped r lfn opq -> texty (item_value now r lfn opq it).
Proof.
  intros [[H1 H2] _ _ _ _ Ho].
  assert (texty (lfn ++ 63 :: opq)) as H3 by (apply texty_app; split; [done|by constructor]).
  destruct it; cbn [item_value]; auto using texty_drop, cstr_texty, texty_lld.
  - unfold mode_text. repeat case_match; repeat constructor; done.
  - by repeat constructor.
  - unfold prty_text. repeat case_match; by repeat constructor.
  - constructor.
Qed.

Lemma with_cgi_ok r lfn opq o : shaped r lfn opq -> 0 <= o <= zlen lfn ->
  with_cgi r o = Ok (drop (Z.to_nat o) (lfn ++ 63 :: opq), r).
Proof.
  intros [[H1 H2] [pad Ha] Hop _ _ _] Ho. unfold with_cgi. rewrite Ha, text_app by done. step_ok.
  unfold zlen in *.
  assert (forall c x, set_at (Z.of_nat (length lfn)) c (lfn ++ x :: opq ++ 0 :: pad) = Ok (lfn ++ c :: opq ++ 0 :: pad)) as Hset.
  { intros c x. unfold set_at. destruct (Z.leb_spec 0 (Z.of_nat (length lfn))); [|lia]. unfold zlen. rewrite length_app, length_cons.
    destruct (Z.ltb_spec (Z.of_nat (length lfn)) (Z.of_nat (length lfn + S (length (opq ++ 0 :: pad))))); [|lia].
    cbn [andb]. f_equal. rewrite Nat2Z.id, insert_app_r_alt by lia. by rewrite Nat.sub_diag. }
  rewrite Hset. step_ok.
  assert ((if Opaque r =? 0 then set_at (Z.of_nat (length lfn) + 1) 0 (lfn ++ 63 :: opq ++ 0 :: pad) else Ok (lfn ++ 63 :: opq ++ 0 :: pad))
    = Ok (lfn ++ 63 :: opq ++ 0 :: pad)) as ->.
  { destruct Hop as [[-> ->]|Hn]; [|by apply Z.eqb_neq in Hn as ->]. cbn [app Z.eqb]. unfold set_at.
    destruct (Z.leb_spec 0 (Z.of_nat (length lfn) + 1)); [|lia]. unfold zlen. rewrite length_app, !length_cons.
    destruct (Z.ltb_spec (Z.of_nat (length lfn) + 1) (Z.of_nat (length lfn + S (S (length pad))))); [|lia].
    cbn [andb]. f_equal. rewrite insert_app_r_alt by lia. by replace (Z.to_nat (Z.of_nat (length lfn) + 1) - length lfn)%nat with 1%nat by lia. }
  step_ok. unfold from. unfold zlen. rewrite length_app. destruct (Z.leb_spec 0 o); [|lia].
  destruct (Z.leb_spec o (Z.of_nat (length lfn + length (63 :: opq ++ 0 :: pad)))); [|lia]. cbn [andb]. step_ok.
  replace (lfn ++ 63 :: opq ++ 0 :: pad) with ((lfn ++ 63 :: opq) ++ 0 :: pad) by by rewrite <- app_assoc.
  rewrite drop_app_le by (rewrite length_app; lia). rewrite text_app.
  2:{ apply texty_drop, texty_app. split; [done|]. by constructor. }
  step_ok. rewrite <- app_assoc. cbn [app]. rewrite Hset. step_ok. do 2 f_equal. rewrite <- Ha. by destruct r.
Qed.

Lemma copy_fits s bln : zlen s < bln -> exists tail, copy s bln = (s ++ tail, zlen s) /\ (length tail <= 1)%nat.
Proof.
  intros Hs. unfold copy. exists [0]. split; [|cbn; lia]. rewrite take_ge; [done|]. unfold zlen in *. lia.
Qed.

Lemma item_ok now r lfn opq it bln : shaped r lfn opq -> zlen (item_value now r lfn opq it) < bln ->
  exists tail, item now r it bln = Ok (item_value now r lfn opq it ++ tail, zlen (item_value now r lfn opq it), r) /\ (length tail <= 1)%nat.
Proof.
  intros Hs Hb. pose proof Hs as [[H1 H2] [pad Ha] Hop Hlfo (Hn & Hid & Hu) Hoc].
  destruct it; cbn [item item_value] in *; rewrite ?(with_cgi_ok r lfn opq) by (done || unfold zlen; lia);
    change (Z.to_nat 0) with 0%nat; rewrite ?drop_0, ?text_in by done; try (step_ok; destruct (copy_fits _ _ Hb) as (t & -> & Ht); by exists t);
    try (exists []; rewrite app_nil_r; split; [done|cbn; lia]).
  - rewrite Ha, text_app by done. step_ok. destruct (copy_fits _ _ Hb) as (t & -> & Ht). by exists t.
  - unfold from. destruct (Z.leb_spec 0 (LFO r)); [|lia]. rewrite Ha. unfold zlen in *.
    destruct (Z.leb_spec (LFO r) (Z.of_nat (length (lfn ++ 0 :: opq ++ 0 :: pad)))) as [|Hgt]; [|rewrite length_app in Hgt; lia]. cbn [andb]. step_ok.
    rewrite drop_app_le by lia. rewrite text_app by by apply texty_drop. step_ok. destruct (copy_fits _ _ Hb) as (t & -> & Ht). by exists t.
  - exists []. rewrite app_nil_r. split; [|cbn; lia]. unfold mode_text in *. revert Hb. unfold zlen.
    destruct (Z.land (Options r) makeRW =? 0), (Z.land (Options r) msgFail =? 0), (Z.land (Options r) msgSucc =? 0);
      cbv zeta; cbn [app length negb andb]; intros Hb;
      repeat (match goal with |- context [0 <? ?x] => replace (0 <? x) with true by (symmetry; apply Z.ltb_lt; cbn [length]; lia) end;
              cbn [app length andb]); done.
  - destruct (copy_fits _ _ Hb) as (t & -> & Ht). by exists t.
  - destruct (copy_fits _ _ Hb) as (t & -> & Ht). by exists t.
Qed.

(** The line of a record. *)
Definition line (now : Z) (r : XrdFrcRequest) (lfn opq : list Z) (l : list Item) : list Z :=
  mjoin ((fun it => item_value now r lfn opq it ++ [32]) <$> l).

Lemma line_cons now r lfn opq it l : line now r lfn opq (it :: l) = item_value now r lfn opq it ++ 32 :: line now r lfn opq l.
Proof. unfold line. cbn [fmap list_fmap mjoin list_join]. by rewrite <- app_assoc. Qed.

Lemma line_texty now r lfn opq l : shaped r lfn opq -> texty (line now r lfn opq l).
Proof.
  intros Hs. induction l as [|it l IH]; [constructor|]. rewrite line_cons.
  apply texty_app. split; [by apply item_value_texty|by constructor].
Qed.

Lemma ListL_loop_ok now r lfn opq : shaped r lfn opq -> forall l buf pos bln, 0 <= pos -> pos + bln = zlen buf - 2 ->
  zlen (line now r lfn opq l) <= bln ->
  exists buf', ListL_loop now l r buf pos bln = Ok (buf', pos + zlen (line now r lfn opq l)) /\ zlen buf' = zlen buf /\
    take (Z.to_nat (pos + zlen (line now r lfn opq l))) buf' = take (Z.to_nat pos) buf ++ line now r lfn opq l.
Proof.
  intros Hs. induction l as [|it l IH]; intros buf pos bln Hp Hb Ht; cbn [ListL_loop].
  { exists buf. cbn. by rewrite Z.add_0_r, app_nil_r. }
  rewrite line_cons in *. set (v := item_value now r lfn opq it) in *.
  unfold zlen in Ht. rewrite length_app, length_cons in Ht. fold (zlen v) in Ht.
  destruct (Z.leb_spec bln 0); [lia|].
  destruct (item_ok now r lfn opq it bln Hs) as (tail & -> & Htl); [fold v; unfold zlen in *; lia|]. step_ok. fold v.
  destruct (put_bytes_ok pos (v ++ tail) buf Hp) as (buf1 & -> & Hl1 & Ht1); [unfold zlen in *; rewrite length_app; lia|]. step_ok.
  unfold zlen in *. destruct (Z.ltb_spec 0 (bln - Z.of_nat (length v))); [|lia].
  destruct (put_bytes_ok (pos + Z.of_nat (length v)) [32] buf1) as (buf2 & -> & Hl2 & Ht2); [lia|unfold zlen in *; cbn [length]; lia|]. step_ok.
  destruct (IH buf2 (pos + Z.of_nat (length v) + 1) (bln - Z.of_nat (length v) - 1)) as (buf' & -> & Hl & Htk); [lia|unfold zlen in *; lia|unfold zlen in *; lia|].
  exists buf'. rewrite !length_app, length_cons. split; [do 2 f_equal; lia|]. split; [unfold zlen in *; lia|].
  replace (pos + Z.of_nat (length v + S (length (line now r lfn opq l))))
    with (pos + Z.of_nat (length v) + 1 + Z.of_nat (length (line now r lfn opq l))) by lia. rewrite Htk.
  cbn [length] in Ht2. replace (Z.to_nat (pos + Z.of_nat (length v) + 1)) with (Z.to_nat (pos + Z.of_nat (length v)) + 1)%nat by lia.
  rewrite Ht2. assert (take (Z.to_nat (pos + Z.of_nat (length v))) buf1 = take (Z.to_nat pos) buf ++ v) as ->.
  { rewrite length_app in Ht1. apply (f_equal (take (Z.to_nat pos + length v))) in Ht1.
    rewrite take_take, Nat.min_l in Ht1 by lia. replace (Z.to_nat (pos + Z.of_nat (length v))) with (Z.to_nat pos + length v)%nat by lia.
    rewrite Ht1. unfold zlen in *. rewrite app_assoc, take_app_le by (rewrite length_app, length_take; lia).
    apply take_ge. rewrite length_app, length_take. lia. }
  by rewrite <- !app_assoc.
Qed.

Lemma ListL_ok now r lfn opq l Buff : shaped r lfn opq -> zlen (line now r lfn opq l) + 2 <= zlen Buff ->
  exists buf, ListL now r Buff l = Ok buf /\ zlen buf = zlen Buff /\ cstr buf = line now r lfn opq l.
Proof.
  intros Hs Hb. unfold ListL. set (t := line now r lfn opq l) in *.
  destruct (ListL_loop_ok now r lfn opq Hs l Buff 0 (zlen Buff - 2)) as (b1 & -> & Hl1 & Ht1); [lia|lia|fold t; lia|]. step_ok. fold t in Ht1 |- *.
  rewrite take_0 in Ht1. cbn [app] in Ht1. rewrite Z.add_0_l in *.
  destruct (put_bytes_ok (zlen t) [0] b1) as (b2 & -> & Hl2 & Ht2); [unfold zlen; lia|unfold zlen in *; cbn [length]; lia|].
  exists b2. split; [done|]. split; [lia|]. rewrite <- (take_drop (Z.to_nat (zlen t) + length [0]) b2), Ht2, Ht1, <- app_assoc.
  cbn [app]. apply cstr_app. by apply line_texty.
Qed.

(** ** Listing a queue *)

Definition listable (r : XrdFrcRequest) : bool := negb (skipped r || registers r).

Lemma List_loop_ok ag hd l hm : off (length l) < 2 ^ 31 -> forall fuel i, (length l - i <= fuel)%nat -> (i <= length l)%nat ->
  List_loop fuel (off i) (inside ag hd l hm) =
    match list_find (fun r => listable r = true) (drop i l) with
    | None => Ok (None, off (length l), inside ag hd l hm)
    | Some (j, r) => Ok (Some r, off (S (i + j)), inside ag hd l hm)
    end.
Proof.
  intros Hmax. induction fuel as [|fuel IH]; intros i Hf Hi; cbn [List_loop]; rewrite sys_inside; cbn [negb]; rewrite slot_of_off; step_ok;
    change (slots (inside ag hd l hm)) with l; destruct (l !! i) as [r|] eqn:Hr.
  - apply lookup_lt_Some in Hr. lia.
  - apply lookup_ge_None in Hr. rewrite drop_ge by lia. by replace i with (length l) by lia.
  - assert (i < length l)%nat as Hil by (by apply lookup_lt_Some in Hr).
    rewrite next_off_ok by (pose proof (off_le (S i) (length l)); lia). step_ok. rewrite (drop_S l r i Hr). cbn [list_find].
    destruct (listable r) eqn:Hls; unfold listable in Hls; destruct (skipped r || registers r); try done.
    + rewrite decide_True by done. by rewrite Nat.add_0_r.
    + rewrite decide_False by done. rewrite IH by lia. destruct (list_find _ (drop (S i) l)) as [[j x]|]; [|done].
      cbn [fmap option_fmap option_map prod_map fst snd]. by rewrite Nat.add_succ_r.
  - apply lookup_ge_None in Hr. rewrite drop_ge by lia. by replace i with (length l) by lia.
Qed.

Lemma filter_list_find {A} (P : A -> Prop) `{!forall x, Decision (P x)} l :
  filter P l = match list_find P l with None => [] | Some (j, x) => x :: filter P (drop (S j) l) end.
Proof.
  induction l as [|y l IH]; [done|]. rewrite filter_cons. cbn [list_find]. case_decide; [done|]. rewrite IH.
  by destruct (list_find P l) as [[j x]|].
Qed.

(** A file that is not in use. *)
Definition quiet (f : XrdFrcReqFile) (l : list XrdFrcRequest) : Prop :=
  flMutex f = 0 /\ io f = [] /\ (exists h, disk f = Some (h, l)) /\ off (length l) < 2 ^ 31.

Lemma ReqFile_List_ok now Buff Offs i it Items f l : quiet f l -> (i <= length l)%nat ->
  Offs = off i \/ i = 0%nat /\ Offs < ReqSize ->
  exists f', quiet f' l /\ ReqFile_List now Buff Offs (it :: Items) f =
    match list_find (fun r => listable r = true) (drop i l) with
    | None => Ok (None, off (length l), f')
    | Some (j, r) => buf ← ListL now r Buff (it :: Items); Ok (Some buf, off (S (i + j)), f')
    end.
Proof.
  intros (Hm & Hio & [h Hd] & Hmax) Hi Ho. exists (idle (isAgent f) h l h). split; [by split_and!; eauto|]. unfold ReqFile_List.
  assert ((if Offs <? ReqSize then ReqSize else Offs) = off i) as ->.
  { destruct Ho as [->|[-> Hlt]].
    - pose proof (off_pos i). by destruct (Z.ltb_spec (off i) ReqSize); [lia|].
    - destruct (Z.ltb_spec Offs ReqSize); [done|lia]. }
  rewrite (lock_inside f h l Hd Hm Hio). step_ok. cbn [negb]. change (slots (inside (isAgent f) h l h)) with l.
  rewrite List_loop_ok by (done || lia). destruct (list_find _ (drop i l)) as [[j r]|]; step_ok; by rewrite unlock_inside.
Qed.

(** The text that is shown of a request. *)
Definition prints (now : Z) (Items : list Item) (sz : Z) (r : XrdFrcRequest) (t : list Z) : Prop :=
  exists lfn opq, shaped r lfn opq /\ t = line now r lfn opq Items /\ zlen t + 2 <= sz.

Lemma list_queue_ok now it Items l : forall fuel i Offs Buff f out, quiet f l -> (i <= length l)%nat -> (length l - i < fuel)%nat ->
  Offs = off i \/ i = 0%nat /\ Offs < ReqSize ->
  Forall2 (prints now (it :: Items) (zlen Buff)) (filter (fun r => listable r = true) (drop i l)) out ->
  exists Buff' f', list_queue fuel now Buff Offs (it :: Items) f = Ok (out, Buff', f') /\ zlen Buff' = zlen Buff /\ quiet f' l.
Proof.
  induction fuel as [|fuel IH]; intros i Offs Buff f out Hq Hi Hf Ho Hout; [lia|]. cbn [list_queue].
  destruct (ReqFile_List_ok now Buff Offs i it Items f l Hq Hi Ho) as (f1 & Hq1 & ->).
  rewrite filter_list_find in Hout. destruct (list_find _ (drop i l)) as [[j r]|] eqn:Hlf.
  2:{ step_ok. apply Forall2_nil_inv_l in Hout as ->. by exists Buff, f1. }
  apply Forall2_cons_inv_l in Hout as (t & out' & (lfn & opq & Hs & -> & Hsz) & Hout' & ->).
  destruct (ListL_ok now r lfn opq (it :: Items) Buff Hs Hsz) as (buf & -> & Hl & Hc). step_ok. step_ok.
  apply list_find_Some in Hlf as (Hlk & _ & _). rewrite lookup_drop in Hlk. apply lookup_lt_Some in Hlk.
  rewrite drop_drop in Hout'. replace (i + S j)%nat with (S (i + j)) in Hout' by lia. rewrite <- Hl in Hout'.
  destruct (IH (S (i + j)) (off (S (i + j))) buf f1 out' Hq1) as (B & f2 & -> & HB & Hq2); [lia|lia|by left|done|].
  step_ok. exists B, f2. rewrite Hc. split; [done|]. split; [lia|done].
Qed.

Lemma list_queues_ok now it Items fuel : forall qs ls Buff outs, Forall2 quiet qs ls ->
  Forall (fun l => (length l < fuel)%nat) ls ->
  Forall2 (fun l out => Forall2 (prints now (it :: Items) (zlen Buff)) (filter (fun r => listable r = true) l) out) ls outs ->
  exists qs', list_queues fuel now Buff (it :: Items) qs = Ok (mjoin outs, qs') /\ Forall2 quiet qs' ls.
Proof.
  induction qs as [|f qs IH]; intros ls Buff outs Hq Hf Hout; cbn [list_queues].
  { apply Forall2_nil_inv_l in Hq as ->. apply Forall2_nil_inv_l in Hout as ->. by exists []. }
  apply Forall2_cons_inv_l in Hq as (l & ls' & Hq & Hqs & ->). apply Forall2_cons_inv_l in Hout as (out & outs' & Ho & Hos & ->).
  apply Forall_cons in Hf as [Hf1 Hf].
  destruct (list_queue_ok now it Items l fuel 0 0 Buff f out Hq) as (B & f' & -> & HB & Hq'); [lia|lia|by right|done|]. step_ok.
  rewrite <- HB in Hos. destruct (IH ls' B outs' Hqs Hf Hos) as (qs' & -> & Hqs'). step_ok. exists (f' :: qs'). by split; [|constructor].
Qed.

(** ** The requests that are composed *)

Lemma strchr_some c s a b : strchr c s = Some (a, b) -> s = a ++ c :: b.
Proof.
  revert a. induction s as [|x s IH]; intros a; cbn [strchr]; [done|]. destruct (Z.eqb_spec x c) as [->|]; [by intros [= <- <-]|].
  destruct (strchr c s) as [[a' b']|]; [|done]. intros [= <- <-]. cbn [app]. by rewrite (IH a').
Qed.

Lemma slashes_bounds s : 0 <= slashes s <= zlen s.
Proof. unfold zlen. induction s as [|c s IH]; cbn [slashes length]; [lia|]. case_bool_decide; lia. Qed.

Lemma chkURL_bounds s : 0 <= chkURL s <= zlen s.
Proof.
  unfold chkURL, zlen. destruct (strchr 58 s) as [[a t]|] eqn:E1; [|lia]. apply strchr_some in E1 as ->.
  case_bool_decide as H2; cbn [negb]; [|lia]. assert (t = 47 :: 47 :: drop 2 t) as Ht by (rewrite <- (take_drop 2 t) at 1; by rewrite H2).
  destruct (strchr 47 (drop 2 t)) as [[b u]|] eqn:E2; [|lia]. apply strchr_some in E2. rewrite E2 in Ht. clear H2 E2. subst t.
  case_bool_decide; cbn [negb]; [|lia]. pose proof (slashes_bounds u) as Hu. unfold zlen in *.
  repeat (rewrite length_app || rewrite length_cons). cbn [length]. lia.
Qed.

(** What is shown of a composed request. *)
Definition shown (now now' Opc : Z) (Lfn opq user rid notify Pop : list Z) (Prty0 Opts : Z) (it : Item) : list Z :=
  let lfo := Z.to_nat (if bool_decide (head Lfn = Some 47) then 0 else chkURL Lfn) in
  match it with
  | getOBJ => Lfn
  | getLFN => drop lfo Lfn
  | getOBJCGI => Lfn ++ 63 :: opq
  | getLFNCGI => drop lfo (Lfn ++ 63 :: opq)
  | getMODE => mode_text (Z.lor Opts (MapM2O (take 511 notify) Pop))
  | getNOTE => take 511 notify
  | getOP => [Opc]
  | getPRTY => prty_text (let p := schar Prty0 in if maxPrty <? p then maxPrty else if p <? 0 then 0 else p)
  | getQWT => lld (now - now')
  | getRID => take 39 rid
  | getTOD => lld now'
  | getUSER => take 255 user
  | getLast => []
  end.

(** An argument that may be missing or empty. *)
Definition given (x : option (list Z)) (d : list Z) : list Z := match x with Some ((_ :: _) as s) => s | _ => d end.

Lemma strlcpy_cstr s a : texty s -> (0 < length a)%nat -> cstr (strlcpy s a) = take (length a - 1) s.
Proof. intros Hs Ha. destruct (strlcpy_text s a Hs Ha) as (rest & -> & _). apply cstr_app. by apply texty_take. Qed.

Lemma strcpy_strlcpy s a v : strcpy s a = Ok v -> v = strlcpy s a.
Proof.
  unfold strcpy. destruct (Nat.ltb_spec (length s) (length a)); [|done]. intros [= <-]. unfold strlcpy. by rewrite take_ge by lia.
Qed.

Lemma strlcpy_null s a : 0 ∈ strlcpy s a.
Proof. unfold strlcpy. apply elem_of_app. right. left. Qed.

Lemma replicate_split n k : (n < k)%nat -> drop n (replicate k 0) = 0 :: replicate (k - S n) 0.
Proof. intros Hn. rewrite drop_replicate. by replace (k - n)%nat with (S (k - S n)) by lia. Qed.

Lemma compose_inr Opc Lfn Opq Usr Rid Nop Pop Prty0 Opts int r : let opq := default [] Opq in
  compose Opc Lfn Opq Usr Rid Nop Pop Prty0 Opts int = Ok (inr r) ->
  texty Lfn -> texty opq -> (opq = [] -> zlen Lfn < lfnSize - 1) ->
  (exists pad, LFN r = Lfn ++ 0 :: opq ++ 0 :: pad) /\ (Opaque r = 0 /\ opq = [] \/ Opaque r <> 0) /\
  LFO r = (if bool_decide (head Lfn = Some 47) then 0 else chkURL Lfn) /\ blank r = false /\
  User r = strlcpy (given Usr int) (User zero_req) /\ ID r = strlcpy (default [63] Rid) (ID zero_req) /\
  Notify r = strlcpy (given Nop [45]) (Notify zero_req) /\ OPc r = Opc /\ Prty r = schar Prty0 /\
  Options r = Z.lor Opts (MapM2O (cstr (Notify r)) Pop).
Proof.
  intros opq Hc Ht Ho Hlen. unfold compose in Hc. fold opq in Hc.
  assert (exists fits lfn o pad, match opq with
    | [] => (zlen Lfn <? lfnSize, Lfn ++ drop (length Lfn) (LFN zero_req), 0)
    | _ => (zlen Lfn + zlen opq + 2 <=? lfnSize, Lfn ++ 0 :: opq ++ drop (S (length Lfn + length opq)) (LFN zero_req), zlen Lfn + 1)
    end = (fits, lfn, o) /\ (fits = true -> lfn = Lfn ++ 0 :: opq ++ 0 :: pad) /\ (o = 0 /\ opq = [] \/ o <> 0))
    as (fits & lfn & o & pad & E & Hlfn & Hop).
  { change (LFN zero_req) with (replicate 3072 0). unfold lfnSize, zlen in *. destruct opq as [|c opq'] eqn:Eq.
    - specialize (Hlen eq_refl). eexists _, _, _, (replicate (3072 - S (S (length Lfn))) 0). split; [reflexivity|]. split; [|by left].
      intros _. rewrite replicate_split by lia. cbn [app]. do 2 f_equal.
      by replace (3072 - S (length Lfn))%nat with (S (3072 - S (S (length Lfn)))) by lia.
    - eexists _, _, _, (replicate (3072 - S (S (length Lfn + length opq))) 0). split; [reflexivity|]. split; [|right; lia].
      intros Hf%Z.leb_le. rewrite Eq. rewrite replicate_split by (rewrite <- Eq in *; lia). done. }
  rewrite E in Hc. clear E. destruct fits; cbn [negb] in Hc; [|done]. specialize (Hlfn eq_refl). subst lfn.
  rewrite cstr_app in Hc by done.
  assert (bool_decide (head (Lfn ++ 0 :: opq ++ 0 :: pad) = Some 47) = bool_decide (head Lfn = Some 47)) as Hh.
  { destruct Lfn; [|done]. cbn. by rewrite !bool_decide_eq_false_2. }
  rewrite Hh in Hc. clear Hh.
  match type of Hc with (if ?b then _ else _) = _ => destruct b eqn:Hb; [done|] end.
  assert (forall v, match Usr with Some ((_ :: _) as u) => Ok (strlcpy u (User zero_req)) | _ => strcpy int (User zero_req) end = Ok v ->
    v = strlcpy (given Usr int) (User zero_req)) as Huser.
  { intros v. destruct Usr as [[|x u]|]; [apply strcpy_strlcpy|by intros [= <-]|apply strcpy_strlcpy]. }
  destruct (match Usr with Some ((_ :: _) as u) => Ok (strlcpy u (User zero_req)) | _ => strcpy int (User zero_req) end) as [user| | |]; try done.
  rewrite (Huser user eq_refl) in Hc. rewrite bind_Ok in Hc. cbv beta in Hc. injection Hc as <-.
  cbn [LFN Opaque LFO User ID Notify OPc Prty FrcReqFile.Options].
  assert (strlcpy (given Nop [45]) (Notify zero_req) =
    match Nop with Some ((_ :: _) as s) => strlcpy s (Notify zero_req) | _ => strlcpy [45] (Notify zero_req) end) as ->
    by by destruct Nop as [[]|].
  split; [by exists pad|]. split; [done|]. split; [by destruct (bool_decide _)|]. split; [|done].
  unfold blank. cbn [LFN]. destruct Lfn as [|c Lfn]; [|by apply Forall_cons in Ht as [?%Z.eqb_neq _]].
  by vm_compute in Hb.
Qed.

(** The name of the proxy fits the field of the user: its constructor prints it into 256
    bytes. *)
Lemma compose_total Opc Lfn Opq Usr Rid Nop Pop Prty0 Opts int : zlen int < 256 ->
  exists x, compose Opc Lfn Opq Usr Rid Nop Pop Prty0 Opts int = Ok x.
Proof.
  intros Hi. assert (exists v, strcpy int (User zero_req) = Ok v) as (v & Hv).
  { unfold strcpy. destruct (Nat.ltb_spec (length int) (length (User zero_req))) as [|Hl]; [by eexists|].
    change (length (User zero_req)) with 256%nat in Hl. unfold zlen in Hi. lia. }
  unfold compose. destruct (match default [] Opq with [] => _ | _ => _ end) as [[fits lfn] opaque]. destruct (negb fits); [by eexists|].
  match goal with |- context [if ?b then Ok (inl (- EILSEQ)) else _] => destruct b; [by eexists|] end.
  destruct Usr as [[|c u]|]; rewrite ?Hv, bind_Ok; cbv beta; by eexists.
Qed.

Lemma complete_shaped now name Opc Lfn Opq Usr Rid Nop Pop Prty0 Opts int r : let opq := default [] Opq in
  compose Opc Lfn Opq Usr Rid Nop Pop Prty0 Opts int = Ok (inr r) -> Opc <> 0 ->
  texty Lfn -> texty opq -> (opq = [] -> zlen Lfn < lfnSize - 1) -> shaped (complete now name r) Lfn opq.
Proof.
  intros opq Hc Ho H1 H2 H3. destruct (compose_inr _ _ _ _ _ _ _ _ _ _ _ Hc H1 H2 H3) as (A & B & C & _ & D & E & F & G & _ & _).
  split; cbn [complete LFN Opaque LFO Notify ID User OPc]; try done.
  - rewrite C. case_bool_decide; [unfold zlen; lia|apply chkURL_bounds].
  - rewrite D, E, F. split_and!; apply strlcpy_null.
  - congruence.
Qed.

Lemma complete_shown now now' name Opc Lfn Opq Usr Rid Nop Pop Prty0 Opts int r it : let opq := default [] Opq in
  compose Opc Lfn Opq Usr Rid Nop Pop Prty0 Opts int = Ok (inr r) -> texty Lfn -> texty opq -> (opq = [] -> zlen Lfn < lfnSize - 1) ->
  texty (given Usr int) -> texty (default [63] Rid) -> texty (given Nop [45]) ->
  item_value now (complete now' name r) Lfn opq it =
    shown now now' Opc Lfn opq (given Usr int) (default [63] Rid) (given Nop [45]) Pop Prty0 Opts it.
Proof.
  intros opq Hc H1 H2 H3 Hu Hr Hn. destruct (compose_inr _ _ _ _ _ _ _ _ _ _ _ Hc H1 H2 H3) as (A & B & C & _ & D & E & F & G & H & I).
  assert (cstr (Notify r) = take 511 (given Nop [45])) as HN by (rewrite F; apply strlcpy_cstr; [done|cbn; lia]).
  destruct it; cbn [item_value shown complete LFO FrcReqFile.Options Notify OPc Prty ID User addTOD]; rewrite ?C, ?G, ?H, ?I, ?HN; try done.
  - rewrite E. apply strlcpy_cstr; [done|cbn; lia].
  - rewrite D. apply strlcpy_cstr; [done|cbn; lia].
Qed.

(** ** The queues of an agent *)

Definition agent_rep (a : XrdFrcReqAgent) (Qs : list (list (Z * XrdFrcRequest) * gset Z)) : Prop :=
  Forall2 (fun f QO => rep f QO.1 QO.2) (rQueue a) Qs.

Definition small (a : XrdFrcReqAgent) : Prop := Forall (fun f => st_size f < 2 ^ 31) (rQueue a).

Lemma Can_all_rep r : forall l Qs, Forall2 (fun f QO => rep f QO.1 QO.2) l Qs -> Forall (fun f => st_size f < 2 ^ 31) l ->
  exists l', Can_all r l = Ok l' /\ Forall2 (fun f QO => rep f QO.1 QO.2) l'
    ((fun QO => (filter (fun x => cstr (ID x.2) <> cstr (ID r)) QO.1, QO.2)) <$> Qs).
Proof.
  induction l as [|f l IH]; intros Qs HQ Hs; cbn [Can_all]; [apply Forall2_nil_inv_l in HQ as ->; by exists []|].
  apply Forall2_cons_inv_l in HQ as ([Q O] & Qs' & HQ & HQs & ->). apply Forall_cons in Hs as [Hs Hss]. cbn [fst snd] in *.
  destruct (rep_Can f Q O r HQ Hs) as (f' & -> & Hr). step_ok. destruct (IH Qs' HQs Hss) as (l' & -> & Hl'). step_ok.
  exists (f' :: l'). split; [done|]. by constructor.
Qed.

Lemma Agent_Add_rep now r a Qs : agent_rep a Qs -> length Qs = 3%nat -> small a -> blank r = false -> registers r = false ->
  let r' := complete now (myName a) r in
  exists Q O o a', Qs !! Z.to_nat (Prty r') = Some (Q, O) /\ 0 <= Prty r' <= 2 /\ Agent_Add now r a = Ok (true, a') /\
    agent_rep a' (<[Z.to_nat (Prty r') := (Q ++ [(o, body r')], O)]> Qs) /\ myName a' = myName a.
Proof.
  intros Ha Hlen Hs Hb Hreg r'. assert (0 <= Prty r' <= 2) as Hp.
  { cbn [r' complete Prty]. unfold maxPrty. destruct (Z.ltb_spec 2 (Prty r)); [lia|]. destruct (Z.ltb_spec (Prty r) 0); lia. }
  destruct (lookup_lt_is_Some_2 Qs (Z.to_nat (Prty r'))) as [[Q O] HQ]; [lia|].
  destruct (Forall2_lookup_r _ _ _ _ _ Ha HQ) as (f & Hf & Hrep). cbn [fst snd] in Hrep.
  pose proof (proj1 (Forall_lookup _ _) Hs _ _ Hf) as Hsz.
  destruct (rep_Add f Q O r' Hrep Hb Hsz) as (o & f' & Hadd & Hrep' & _).
  assert (registers r' = false) as Hreg' by done. rewrite Hreg' in Hrep'. cbn [enqueue] in Hrep'.
  eexists Q, O, o, _. split; [done|]. split; [done|]. unfold Agent_Add. fold r'. unfold on_queue.
  destruct (Z.ltb_spec (Prty r') 0); [lia|]. rewrite Hf, Hadd. step_ok. split; [done|]. split; [|done].
  apply Forall2_insert; [exact Ha|exact Hrep'].
Qed.

Lemma composed_registers Opc q Opts r : MapR2Q Opc 0 = (q, Opts) -> forall N P, Options r = Z.lor Opts (MapM2O N P) -> registers r = false.
Proof.
  intros Hq N P Ho. unfold registers. rewrite Ho.
  assert (Opts = 0 \/ Opts = 32) as Hopt.
  { unfold MapR2Q in Hq. repeat case_match; injection Hq as _ <-; auto. }
  unfold MapM2O. destruct Hopt as [-> | ->]; destruct (has 119 P), (bool_decide _), (has 115 P), (has 110 P), (has 102 P), (has 113 P); done.
Qed.

(** ** Properties *)

(** Each item that is listed of a request which the proxy composed is the
    argument it was composed from: the file name with and without the opaque
    text and the host of a URL, the id, user and notification path cut to
    their fields, the options, the priority and the times; the line ends with
    a null inside of the buffer if it fits. *)
Theorem composed_lists now now' name Opc Lfn Opq Usr Rid Nop Pop Prty0 Opts int r Buff Items : let opq := default [] Opq in
  compose Opc Lfn Opq Usr Rid Nop Pop Prty0 Opts int = Ok (inr r) -> Opc <> 0 ->
  Forall texty [Lfn; opq; given Usr int; default [63] Rid; given Nop [45]] -> (opq = [] -> zlen Lfn < lfnSize - 1) ->
  let t := mjoin ((fun it => shown now now' Opc Lfn opq (given Usr int) (default [63] Rid) (given Nop [45]) Pop Prty0 Opts it ++ [32]) <$> Items) in
  zlen t + 2 <= zlen Buff ->
  exists buf, ListL now (complete now' name r) Buff Items = Ok buf /\ zlen buf = zlen Buff /\ cstr buf = t.
Proof.
  intros opq Hc Ho Ht Hl t Hb. do 5 (apply Forall_cons in Ht as [? Ht]).
  assert (line now (complete now' name r) Lfn opq Items = t) as Hline.
  { unfold line, t. f_equal. apply list_fmap_ext. intros i it _. by rewrite (complete_shown _ _ _ Opc Lfn Opq Usr Rid Nop Pop Prty0 Opts int). }
  rewrite <- Hline in *. apply ListL_ok; [|done]. by apply (complete_shaped _ _ Opc _ _ Usr Rid Nop Pop Prty0 Opts int).
Qed.

(** The agent's List writes the line of each listable request of its files, in the
    order of the priorities and of the slots. *)
Theorem Agent_List_prints now it Items fuel a ls Buff outs : Forall2 quiet (rQueue a) ls -> Forall (fun l => (length l < fuel)%nat) ls ->
  Forall2 (fun l out => Forall2 (prints now (it :: Items) (zlen Buff)) (filter (fun r => listable r = true) l) out) ls outs ->
  exists a', Agent_List fuel now Buff (it :: Items) a = Ok (mjoin outs, a') /\ Forall2 quiet (rQueue a') ls.
Proof.
  intros Hq Hf Ho. unfold Agent_List. destruct (list_queues_ok now it Items fuel _ ls Buff outs Hq Hf Ho) as (qs & -> & Hqs). step_ok.
  by eexists.
Qed.

(** C25: For a service that has an agent, the proxy's Add composes a request
    and appends it to the queue of its priority, clipped to the three there
    are, and to no other; its Del takes exactly the waiting requests whose id
    is the given one, cut to the size of the field, from all three queues. *)
Theorem Proxy_refines p q a Qs : agent q p = Some a -> agent_rep a Qs -> length Qs = 3%nat -> small a ->
  (forall now Opc Opts Lfn Opq Usr Rid Nop Pop Prty0 r, MapR2Q Opc 0 = (q, Opts) ->
     compose Opc Lfn Opq Usr Rid Nop Pop Prty0 Opts (intName p) = Ok (inr r) ->
     texty Lfn -> texty (default [] Opq) -> (default [] Opq = [] -> zlen Lfn < lfnSize - 1) ->
     let r' := complete now (myName a) r in
     exists Q O o a', Qs !! Z.to_nat (Prty r') = Some (Q, O) /\ 0 <= Prty r' <= 2 /\
       Proxy_Add now Opc Lfn Opq Usr Rid Nop Pop Prty0 p = Ok (0, set_agent q a' p) /\
       agent_rep a' (<[Z.to_nat (Prty r') := (Q ++ [(o, body r')], O)]> Qs)) /\
  (forall Opc Opts Rid, MapR2Q Opc 0 = (q, Opts) -> texty Rid ->
     exists a', Proxy_Del Opc Rid p = Ok (0, set_agent q a' p) /\
       agent_rep a' ((fun QO => (filter (fun x => cstr (ID x.2) <> take 39 Rid) QO.1, QO.2)) <$> Qs)).
Proof.
  intros Ha HQ Hlen Hs. split.
  - intros now Opc Opts Lfn Opq Usr Rid Nop Pop Prty0 r Hq Hc H1 H2 H3 r'.
    destruct (compose_inr _ _ _ _ _ _ _ _ _ _ _ Hc H1 H2 H3) as (_ & _ & _ & Hb & _ & _ & _ & _ & _ & Hopt).
    destruct (Agent_Add_rep now r a Qs HQ Hlen Hs Hb (composed_registers _ _ _ _ Hq _ _ Hopt)) as (Q & O & o & a' & E1 & E2 & E3 & E4 & _).
    exists Q, O, o, a'. split; [done|]. split; [done|]. split; [|done]. unfold Proxy_Add. rewrite Hq, Ha, Hc, bind_Ok. cbv beta. rewrite E3. by step_ok.
  - intros Opc Opts Rid Hq Ht. unfold Proxy_Del. rewrite Hq, Ha. unfold Agent_Del.
    match goal with |- context [Can_all ?r _] => destruct (Can_all_rep r (rQueue a) Qs HQ Hs) as (l' & -> & Hl') end.
    step_ok. step_ok. eexists. split; [reflexivity|]. cbn [ID] in Hl'. rewrite strlcpy_cstr in Hl' by (done || cbn; lia). exact Hl'.
Qed.

(** ** Examples *)

Ltac all_texty := repeat first [apply Forall_nil_2 | apply Forall_cons_2]; done.

Definition short_req (c : Z) : XrdFrcRequest := MkReq [47; c; 0; 0] [117; 0] [c; 0] [45; 0] [0] [] 5 0 0 0 0 0 0 43 1.
Definition queue_of (c : Z) : XrdFrcReqFile := idle true (MkHdr (off 0) (off 0) 0) [set_This (off 0) (short_req c)] zero_hdr.
Definition empty_queue : XrdFrcReqFile := idle true zero_hdr [] zero_hdr.

(** Two staging requests, of the lowest and of the next priority. *)
Definition two_priorities : XrdFrcReqAgent := MkAgent [queue_of 97; queue_of 98; empty_queue] [] stgQ.
Definition stager : XrdFrcProxy := set_agent stgQ two_priorities (XrdFrcProxy_new [112; 46; 49]).

Example composed_lists_witness : exists r buf, compose 43 [47; 97] (Some [120; 61; 49]) None (Some [105]) None [119] 7 0 [112] = Ok (inr r) /\
  ListL 60 (complete 50 [110] r) (replicate 40 88) [getOBJCGI; getRID; getMODE; getPRTY; getQWT] = Ok buf /\
  cstr buf = [47; 97; 63; 120; 61; 49; 32; 105; 32; 119; 32; 50; 32; 49; 48; 32].
Proof.
  set (x := compose 43 [47; 97] (Some [120; 61; 49]) None (Some [105]) None [119] 7 0 [112]).
  exists (match x with Ok (inr r) => r | _ => zero_req end).
  destruct (composed_lists 60 50 [110] 43 [47; 97] (Some [120; 61; 49]) None (Some [105]) None [119] 7 0 [112]
    (match x with Ok (inr r) => r | _ => zero_req end) (replicate 40 88) [getOBJCGI; getRID; getMODE; getPRTY; getQWT])
    as (buf & H1 & _ & H2); [reflexivity|done|all_texty|done|vm_compute; done|].
  exists buf. split; [reflexivity|]. split; [exact H1|exact H2].
Defined.

Lemma short_shaped c o : c <> 0 -> shaped (set_This o (short_req c)) [47; c] [].
Proof.
  intros Hc. split.
  - split; all_texty.
  - by exists [].
  - by left.
  - done.
  - split_and!; repeat (left || right).
  - done.
Qed.

Lemma short_quiet c : quiet (queue_of c) [set_This (off 0) (short_req c)].
Proof. split_and!; try done. by eexists. Qed.

Example Agent_List_prints_witness : exists a, Agent_List 2 9 (replicate 20 88) [getLFN; getUSER] two_priorities =
  Ok ([[47; 97; 32; 117; 32]; [47; 98; 32; 117; 32]], a).
Proof.
  destruct (Agent_List_prints 9 getLFN [getUSER] 2 two_priorities [[set_This (off 0) (short_req 97)]; [set_This (off 0) (short_req 98)]; []]
    (replicate 20 88) [[[47; 97; 32; 117; 32]]; [[47; 98; 32; 117; 32]]; []]) as (a & H & _).
  - constructor; [apply short_quiet|]. constructor; [apply short_quiet|]. constructor; [|constructor]. split_and!; try done. by eexists.
  - repeat constructor.
  - constructor; [|constructor; [|constructor; [|constructor]]].
    + constructor; [|constructor]. exists [47; 97], []. split; [by apply short_shaped|]. by split.
    + constructor; [|constructor]. exists [47; 98], []. split; [by apply short_shaped|]. by split.
    + constructor.
  - exists a. exact H.
Defined.

Lemma empty_queue_rep : rep empty_queue [] ∅.
Proof.
  split; [done|]. exists zero_hdr, [], [], []. split; [done|]. split; [|split; [done|set_solver]].
  split; try done; try (intros k r Hk; by apply elem_of_nil in Hk). constructor.
Qed.

Definition empty_agent : XrdFrcReqAgent := MkAgent [empty_queue; empty_queue; empty_queue] [] getQ.
Definition fetcher : XrdFrcProxy := set_agent getQ empty_agent (XrdFrcProxy_new [112; 46; 49]).

Example Proxy_refines_witness : exists o a r, Proxy_Add 50 60 [47; 97] None None (Some [105]) None [] (-3) fetcher = Ok (0, set_agent getQ a fetcher) /\
  agent_rep a [([(o, body r)], ∅); ([], ∅); ([], ∅)] /\ exists a', Proxy_Del 60 [105] fetcher = Ok (0, set_agent getQ a' fetcher).
Proof.
  assert (agent_rep empty_agent [([], ∅); ([], ∅); ([], ∅)]) as Hr 
    by (unfold agent_rep; cbn [rQueue empty_agent]; repeat first [apply Forall2_nil_2 | apply Forall2_cons_2; [exact empty_queue_rep|]]).
  destruct (Proxy_refines fetcher getQ empty_agent [([], ∅); ([], ∅); ([], ∅)] eq_refl Hr eq_refl ltac:(by repeat constructor)) as [HA HD].
  set (x := compose 60 [47; 97] None None (Some [105]) None [] (-3) 0 [112; 46; 49]).
  destruct (HA 50 60 0 [47; 97] None None (Some [105]) None [] (-3) (match x with Ok (inr r) => r | _ => zero_req end) eq_refl eq_refl)
    as (Q & O & o & a & H1 & _ & H2 & H3); [all_texty|all_texty|done|].
  destruct (HD 60 0 [105] eq_refl ltac:(all_texty)) as (a' & H4 & _).
  injection H1 as <- <-. eexists o, a, _. split; [exact H2|]. split; [exact H3|]. exists a'. exact H4.
Defined.

(** What repeated calls of the proxy's [List] show. *)
Fixpoint list_all (n : nat) (st : Queues) (p : XrdFrcProxy) : res (list (list Z)) :=
  match n with
  | O => Diverge
  | S n =>
      '(b, p, st) ← Proxy_List 5 0 (replicate 20 88) st p;
      match b with None => Ok [] | Some b => l ← list_all n st p; Ok (cstr b :: l) end
  end.

(** The offset of one priority's file is where the next priority's file starts to
    be read: its first requests are not listed. *)
Example List_skips_priorities : list_all 9 (Queues_new opStg) stager = Ok [[47; 97; 32]] /\
  match Agent_List 9 0 (replicate 20 88) [getLFN] two_priorities with Ok (out, _) => out = [[47; 97; 32]; [47; 98; 32]] | _ => False end.
Proof. by split; vm_compute. Qed.

(** A service without an agent is a null pointer when it is the last one asked for. *)
Example List_without_agent : list_all 9 (Queues_new opPut) stager = Fault.
Proof. reflexivity. Qed.

(** A text that does not fit moves the end of the line out of the buffer. *)
Example ListL_overflows : ListL 0 (short_req 97) (replicate 6 88) [getOBJ; getOBJCGI] = Fault /\
  exists b, ListL 0 (short_req 97) (replicate 9 88) [getOBJ; getOBJCGI] = Ok b.
Proof. split; [reflexivity|eexists; reflexivity]. Qed.

(** A name that fills its array has no place for the null after the question mark. *)
Example full_name_overflows : ListL 0 (set_LFN [47; 97; 0] (short_req 97)) (replicate 20 88) [getOBJCGI] = Fault.
Proof. reflexivity. Qed.
